(* ===== verification/_CoqProject ===== *)
-Q . S2P
Prelude.v
Crc.v
Layout.v
EsfsExtent.v
EsfsTypes.v
EsfsAlloc.v
EsfsNode.v
EsfsFile.v
EsfsIndex.v
EsfsVolume.v
SharedArray.v
SharedRangeSet.v
SharedRangeSetProofs.v
SharedHeap.v
SharedHeapRegions.v
SharedHeapLists.v
SharedHeapBlocks.v
SharedHeapSteps.v
SharedHeapProofs.v
SharedHeapFree.v
SharedHeapReallocate.v
SharedHeapRefinement.v
SharedHeapSystem.v
SharedTree.v
SharedTreeShape.v
SharedTreeBalance.v
SharedTreeOrder.v
SharedTreeInsert.v
SharedTreeSwap.v
SharedTreeRemove.v
SharedTreeSystem.v
SharedBitset.v
SharedBitsetProofs.v
ScriptToken.v
ScriptParser.v
ScriptParserProofs.v
ScriptExpression.v
ScriptReturn.v
ScriptHeap.v
ScriptString.v
ScriptFloat.v
ScriptScope.v
ScriptScopeProofs.v
ScriptTypes.v
ScriptExec.v
ScriptExecProofs.v
ScriptTasks.v
ScriptLibrary.v
ScriptExecSafety.v
ScriptGenerate.v
ScriptSource.v
ScriptCompile.v
ScriptCompileNodes.v
ScriptLoad.v
ScriptPrograms.v
