(* ===== verification/Prelude.v ===== *)
(** * Essence: verification of core code of the operating system (root file)

    Essence is an operating system: a C++ kernel and desktop, C code that the kernel, the
    desktop and the build system share, and a library of containers under all of them.
    This development is about the shared code, in three parts: the file system, the
    containers and the script engine.

    ** EsFS, the file system (src/shared/esfs2.h, src/shared/crc.h)

    The header is compiled into the build tool, which formats the system drive and
    imports files into it (src/util/build_core.c gives it the drive).  A volume is a
    drive of blocks: superblock, group descriptors, block bitmaps, and files and
    directories as nodes ([DirectoryEntry]) with attributes; a directory has an index.

    - [Layout]: byte buffers and the structures laid over them.
    - [Crc]: both tables and both routines of crc.h.  Theorems: they compute the
      bit-serial CRC, can be run in pieces, and detect a changed byte.
    - [EsfsTypes]: the structures, a Module for each; the global variables as the
      record [esfs]; the drive as the class [BlockDevice], with the drive file of
      build_core.c as its instance.
    - [EsfsExtent]: [EncodeExtent], [DecodeExtent].  Theorem: a round trip for all
      64-bit values.
    - [EsfsAlloc]: [AllocateExtent].  Theorems: it hands out free blocks of one group,
      marks exactly those, keeps the invariant of bitmaps and descriptors; on a full
      volume it changes nothing.
    - [EsfsNode]: [NewDirectoryEntry], [FindAttribute], identifiers.  Theorems: what
      is stored in an entry is found again; identifiers are distinct.
    - [EsfsFile]: [AccessNode], [ResizeNode].  Theorems: what is written is read back
      and nothing else changes; growing a file appends newly allocated blocks.
    - [EsfsIndex]: [InsertKeyIntoVertex], [AddNode].  Theorems: insertion and splitting
      keep the keys in order and lose none.
    - [EsfsVolume]: [Format], [MountVolume], [UnmountVolume], [FindNode], [Import].
      Theorems: mounting after unmounting, mounting twice, look-up, the layout of a
      formatted drive and where it is wrong.

    ** Containers of kernel and desktop (src/shared)

    The containers and the memory allocator under all of kernel and desktop, each as the
    state of a monad of computations that may fail when there is no memory.

    - [SharedHeap]: [EsHeapAllocate], [EsHeapFree], [EsHeapReallocate], [HeapValidate]
      (heap.cpp) on the bytes of memory, with the system that grants memory as the class
      [HeapSystem] and its laws as [HeapSystemLaws].  [SharedHeapRegions]: fields of headers
      and free lists in memory.  [SharedHeapLists]: the operations on the lists.
      [SharedHeapBlocks]: when memory is a sequence of regions ([shape]).
      [SharedHeapSteps]: use, split and creation of regions.  [SharedHeapProofs]: the
      invariant [heap_ok] and allocation.  [SharedHeapFree], [SharedHeapReallocate]: the
      other operations.  [SharedHeapRefinement]: for a client the heap is a set of objects
      that do not overlap and keep their bytes, whatever requests it makes, and no request
      panics, accesses memory outside or runs on; the exception is a reallocation without
      memory.  [SharedHeapSystem]: a system, and runs that show flaws.
    - [SharedArray]: [Array] and the _Array functions (array.cpp), on a heap that may refuse
      any request ([EsHeap]); lemmas that insertion and deletion are those of lists.
    - [SharedRangeSet], [SharedRangeSetProofs]: [RangeSet] (range_set.cpp), which keeps its
      ranges in an [Array] and tells which parts of a file are cached.  Theorems: [Set],
      [Clear] and [Contains] implement union, difference and membership of sets of numbers,
      and what [Set] and [Clear] do instead when the short form [contiguous] would have to be left.
    - [SharedBitset], [SharedBitsetProofs]: [Bitset] (bitset.cpp), from which the kernel
      allocates physical pages.  Theorems: [Get] returns the first fitting run of free bits
      that starts before [below - count] and takes exactly these, when the groups are complete; [Take], [Put], [PutAll]
      keep the counts of the groups; the limits where they do not.
    - [SharedTree]: the AVL tree (avl_tree.cpp) by which kernel and desktop find objects by
      number or by string: items that point to each other in a store, with the validation of a
      debug build.  [SharedTreeShape]: when items are linked as a tree ([hung]) and as the path
      above a subtree ([segment]).  [SharedTreeBalance]: rotations, both directions at once, and
      the way up to the root.  [SharedTreeOrder]: the order of keys, search trees ([tree_ok]),
      validation and [TreeFind].  [SharedTreeInsert], [SharedTreeSwap], [SharedTreeRemove]: the other operations.
      Theorems: search finds what its modes promise; insertion and removal leave a balanced
      search tree of the right items in the right order and change nothing else; removal does
      so unless several items have the smallest key.  [SharedTreeSystem]: trees made by the program, and what goes wrong.

    ** The script engine (src/util/script.c)

    An interpreter for a statically typed language, run by the build system.  A script
    is read by a tokenizer and a parser, checked and compiled to bytecode, and run by an
    interpreter with a garbage collected heap and coroutines.

    - [ScriptToken]: [TokenNext], [TokenPeek] with all token types.  Theorems: every
      call ends, makes progress and stays inside the input; tokens that are laid out
      are read back.
    - [ScriptParser], [ScriptParserProofs]: all Parse functions.  Theorem: parsing ends
      on every text; without a message there is a tree with the arities the later passes
      rely on.
    - [ScriptExpression]: the spelling of expressions and its round trip through the
      parser, and what the parser does wrong.
    - [ScriptReturn]: [ASTCheckForReturnStatements], on the tree of the parser.  Theorem: a
      function with a result that passes the check cannot reach its end, when what follows
      [else] has braces.
    - [ScriptScope], [ScriptScopeProofs]: from here on the tree is a store of nodes that
      refer to each other by index ([ast], with scopes, modules, the function builder and
      the context), since the passes share, copy and relink nodes; [place] and [add_tree]
      put the tree of the parser into it.  The Scope functions and [ASTSetScopes], with the
      loading of modules as the class [Loader].  Theorems: the pass ends on every tree of
      the parser whose imported modules are loaded, and the scopes are well formed; variables have slots of their own.
    - [ScriptTypes]: the passes over types, [ASTMatching] to [ASTSetTypes], and constant
      expressions.
    - [ScriptGenerate]: the function builder and [FunctionBuilderRecurse].
    - [ScriptSource]: a reference language of expressions and statements, its semantics,
      the bytecode meant for it, and how a checked node of the store reads as one of its
      expressions or statements.  A division has the value the interpreter computes, or in constants that of integers.
    - [ScriptCompile]: that this bytecode, run by the interpreter, does what the semantics
      says.  [ScriptCompileNodes]: that [FunctionBuilderRecurse] writes this bytecode.
    - [ScriptLoad]: [ASTGenerate], [ScriptParseOptions], [ScriptLoad], [ScriptExecute],
      [ScriptExecuteFromFile]: the whole way from a text to an exit code.  Files, libraries
      and the options are the class [System].
    - [ScriptPrograms]: the correctness of compiled expressions and statements, of constant
      expressions, and scripts that show what the passes let through.
    - [ScriptHeap]: [HeapEntry], [CoroutineState], [ExecutionContext],
      [HeapGarbageCollectMark], [HeapAllocate].  Theorems: marking is exactly
      reachability; allocation never returns or changes what the program can reach;
      a collection frees everything else and makes room.
    - [ScriptString]: lazy concatenation.  Theorem: it refines concatenation of byte
      strings.
    - [ScriptFloat]: values as doubles, on the binary64 specification of the standard
      library.
    - [ScriptExec]: [ScriptExecuteFunction], a definition [exec_...] for each command,
      [step] for an iteration of the loop, [ScriptRunCallback].  The functions of the
      platform layer are the fields of the class [Platform].
    - [ScriptExecProofs]: the invariant [wf] of a context and, command by command, that
      it is kept.
    - [ScriptTasks]: the tasks (coroutines) that wait for each other, and the invariant of
      their references to each other.  Theorems: starting a task, waiting and ending
      keep it, as long as no task is waited for more than four times.
    - [ScriptLibrary]: the calls of native libraries, [ScriptParameter...] and
      [ScriptReturn...].  Theorems: whatever a library does with them, the context is
      what the interpreter relies on; parameters are read in order.
    - [ScriptExecSafety]: the class [PlatformLaws] of what the engine needs of the
      platform layer, and the safety of runs of all commands, with several tasks; then
      what the interpreter does wrong.

    ** Conventions

    A w-bit integer is a [Z]; [wrap w] and [swrap w] are the conversions to unsigned and
    signed integers of w bits.  A routine that can fail or stop the program is a
    computation of the monad [M] below (the interpreter has its own, [X]): [Ok] is a
    normal return, [RetFalse] the return of [false] or [NULL], [Stop] a failed assertion,
    [exit], or an access outside an object.  An access whose address comes from data is
    checked, so that the theorems show which accesses stay inside.

    Recursion that is not structural takes fuel, and running out of it is [OutOfFuel].
    The parser takes one unit more than the bytes that are left, and the theorem about it
    says that this is enough for every text.  Marking takes one unit more than there are
    entries, which bounds the depth of its recursion; following the wrappers of a
    function pointer takes as many; both are shown to be enough.  [ASTSetScopes] takes one
    unit more than the nodes of the tree, shown to be enough.  The passes over types and the
    code generator take a number chosen by the caller, since a type can refer to itself; that
    of the code generator is enough when it is three more than the nesting of what it is given
    (the theorems about compiled code).  [ScriptLoad] takes the depth of the imports and the
    number for the passes.  The loop over the regions of a block of the heap takes 2049 units:
    65536 bytes are at most 2048 regions.  The operations on AVL trees take two units more than there are
    items, which bounds every path; their theorems show that this is enough.  A run of the interpreter takes the number of iterations, since a
    script may not end; its safety holds for every number.

    Bounds of the theorems about compiled code: bytecode of less than 2^31 bytes, since
    branches are 32-bit offsets; at most 50 values on the stack of a task, its initial size;
    blocks of at most 10000 variables, which the generator enforces.

    ** Not modelled

    The command line and the REPL of the script engine, and its platform layer (files,
    processes, threads).  Calls, lists, strings and structures are executed by the model but
    are outside of the reference language of the theorems about compiled code.  The mutexes
    and the leak detector of the heap.  The other shared C++ code (hash table,
    strings).  The kernel, drivers, desktop and applications: they run against page tables,
    devices and other processors.  Boot loaders and assembly.  The build tool except for its
    access to the drive.  Ported and vendored code. *)

From Stdlib Require Export ZArith Lia Bool.
From stdpp Require Export base numbers list option.

#[export] Set Default Goal Selector "!".
#[global] Open Scope Z_scope.

(** ** Machine integers

    An unsigned [w]-bit integer is a [Z] in [[0, 2^w)]; C's arithmetic on it is
    arithmetic on [Z] followed by [wrap w].  A signed 64-bit integer is a [Z] in
    [[-2^63, 2^63)]. *)

Definition wrap (w z : Z) : Z := z mod 2 ^ w.
Definition u8 (z : Z) : Z := wrap 8 z.
Definition u16 (z : Z) : Z := wrap 16 z.
Definition u32 (z : Z) : Z := wrap 32 z.
Definition u64 (z : Z) : Z := wrap 64 z.

(** The signed reading of the low [w] bits of [z]. *)
Definition swrap (w z : Z) : Z := (z + 2 ^ (w - 1)) mod 2 ^ w - 2 ^ (w - 1).
Definition s32 (z : Z) : Z := swrap 32 z.
Definition s64 (z : Z) : Z := swrap 64 z.

Definition is_uint (w z : Z) : Prop := 0 <= z < 2 ^ w.

#[export] Instance is_uint_dec w z : Decision (is_uint w z).
Proof. unfold is_uint. apply _. Defined.

Lemma wrap_range w z : 0 <= w -> is_uint w (wrap w z).
Proof. intros. apply Z.mod_pos_bound. apply Z.pow_pos_nonneg; lia. Qed.

Lemma wrap_id w z : is_uint w z -> wrap w z = z.
Proof. intros. apply Z.mod_small. done. Qed.

Lemma swrap_id w z : 0 < w -> - 2 ^ (w - 1) <= z < 2 ^ (w - 1) -> swrap w z = z.
Proof.
  intros Hw Hz. unfold swrap.
  assert (2 ^ w = 2 * 2 ^ (w - 1)).
  { rewrite <- Z.pow_succ_r by lia. f_equal. lia. }
  rewrite Z.mod_small; lia.
Qed.

Lemma swrap_wrap w z : 0 < w -> wrap w (swrap w z) = wrap w z.
Proof.
  intros Hw. unfold wrap, swrap.
  rewrite Zminus_mod_idemp_l.
  f_equal. lia.
Qed.

Lemma swrap_range w z : 0 < w -> - 2 ^ (w - 1) <= swrap w z < 2 ^ (w - 1).
Proof.
  intros Hw. unfold swrap.
  assert (2 ^ w = 2 * 2 ^ (w - 1)).
  { rewrite <- Z.pow_succ_r by lia. f_equal. lia. }
  pose proof (Z.mod_pos_bound (z + 2 ^ (w - 1)) (2 ^ w)
                ltac:(apply Z.pow_pos_nonneg; lia)). lia.
Qed.

Lemma wrap_idem w z : 0 <= w -> wrap w (wrap w z) = wrap w z.
Proof. intros. apply wrap_id, wrap_range; done. Qed.

Lemma u64_id z : is_uint 64 z -> u64 z = z.
Proof. apply wrap_id. Qed.

Lemma u64_range z : is_uint 64 (u64 z).
Proof. apply wrap_range. lia. Qed.

Lemma u64_add_r a b : u64 (a + u64 b) = u64 (a + b).
Proof. apply Zplus_mod_idemp_r. Qed.

Lemma u64_add_l a b : u64 (u64 a + b) = u64 (a + b).
Proof. apply Zplus_mod_idemp_l. Qed.

Lemma u64_s64 z : u64 (s64 z) = u64 z.
Proof. apply swrap_wrap. lia. Qed.

Create HintDb essence.
#[export] Hint Resolve wrap_range wrap_idem u64_range : essence.

(** ** Lists of consecutive integers *)

Lemma In_seqZ m n i : In i (seqZ m n) <-> m <= i < m + n.
Proof. rewrite <- list_elem_of_In. apply elem_of_seqZ. Qed.

(** ** Bits of bounded integers *)

Lemma testbit_high w z i : is_uint w z -> w <= i -> Z.testbit z i = false.
Proof.
  intros [Hz1 Hz2] Hi.
  destruct (decide (w < 0)) as [Hw|Hw].
  { rewrite Z.pow_neg_r in Hz2 by lia. lia. }
  rewrite <- (Z.mod_small z (2 ^ w)) by lia.
  apply Z.mod_pow2_bits_high. lia.
Qed.

Lemma is_uint_bits w z :
  0 <= w -> 0 <= z -> (forall i, w <= i -> Z.testbit z i = false) -> is_uint w z.
Proof.
  intros Hw Hz Hb. split; [done|].
  assert (z = z mod 2 ^ w) as ->; [|apply Z.mod_pos_bound, Z.pow_pos_nonneg; lia].
  rewrite <- Z.land_ones by done.
  apply Z.bits_inj'. intros i Hi.
  rewrite Z.land_spec.
  destruct (decide (w <= i)).
  - rewrite Hb by done. done.
  - rewrite Z.ones_spec_low by lia. by rewrite andb_true_r.
Qed.

Lemma is_uint_lxor w a b : 0 <= w -> is_uint w a -> is_uint w b -> is_uint w (Z.lxor a b).
Proof.
  intros Hw Ha Hb. apply is_uint_bits; [done| |].
  - apply Z.lxor_nonneg. destruct Ha, Hb. lia.
  - intros i Hi. by rewrite Z.lxor_spec, !(testbit_high w).
Qed.

Lemma is_uint_shiftr w a n : 0 <= w -> 0 <= n -> is_uint w a -> is_uint w (Z.shiftr a n).
Proof.
  intros Hw Hn [H1 H2]. rewrite Z.shiftr_div_pow2 by done.
  assert (0 < 2 ^ n) by (apply Z.pow_pos_nonneg; lia).
  split; [apply Z.div_pos; lia|]. apply Z.div_lt_upper_bound; [done|]. nia.
Qed.

(** Bits that do not overlap: or is addition. *)
Lemma lor_shiftl_add w a b :
  0 <= w -> is_uint w a -> Z.lor a (Z.shiftl b w) = a + b * 2 ^ w.
Proof.
  intros Hw Ha.
  assert (Z.land a (Z.shiftl b w) = 0) as Hd.
  { apply Z.bits_inj'. intros i Hi. rewrite Z.land_spec, Z.bits_0.
    destruct (decide (i < w)).
    - rewrite Z.shiftl_spec_low by lia. apply andb_false_r.
    - rewrite (testbit_high w) by (done || lia). done. }
  rewrite <- Z.lxor_lor, <- Z.add_nocarry_lxor, Z.shiftl_mul_pow2 by done. done.
Qed.

Lemma is_uint_mono w w' z : w <= w' -> is_uint w z -> is_uint w' z.
Proof.
  intros Hw [H1 H2]. split; [done|].
  eapply Z.lt_le_trans; [done|]. apply Z.pow_le_mono_r; lia.
Qed.

#[export] Hint Resolve is_uint_lxor is_uint_shiftr : essence.

(** ** Bytes and little-endian integers *)

Abbreviation bytes := (list Z).

Definition is_byte (z : Z) : Prop := is_uint 8 z.
Definition bytes_ok (b : bytes) : Prop := Forall is_byte b.

Fixpoint le_combine (b : bytes) : Z :=
  match b with
  | [] => 0
  | x :: t => x + 256 * le_combine t
  end.

Fixpoint le_split (n : nat) (v : Z) : bytes :=
  match n with
  | O => []
  | S n' => u8 v :: le_split n' (Z.shiftr v 8)
  end.

Lemma length_le_split n v : length (le_split n v) = n.
Proof. revert v; induction n as [|n IH]; intros v; simpl; auto. Qed.

Lemma le_split_ok n v : bytes_ok (le_split n v).
Proof.
  revert v; induction n as [|n IH]; intros v; simpl; constructor; [|apply IH].
  apply wrap_range. lia.
Qed.

Lemma le_combine_split n v : le_combine (le_split n v) = v mod 2 ^ (8 * Z.of_nat n).
Proof.
  revert v; induction n as [|n IH]; intros v; cbn [le_split le_combine].
  { by rewrite Z.mod_1_r. }
  rewrite IH, Z.shiftr_div_pow2 by lia. unfold u8, wrap.
  replace (8 * Z.of_nat (S n)) with (8 + 8 * Z.of_nat n) by lia.
  rewrite Z.pow_add_r by lia.
  rewrite Z.rem_mul_r; [done|lia|].
  apply Z.pow_pos_nonneg; lia.
Qed.

Lemma le_combine_range b : bytes_ok b -> is_uint (8 * Z.of_nat (length b)) (le_combine b).
Proof.
  induction 1 as [|x b [Hx1 Hx2] Hb [IH1 IH2]]; cbn [le_combine length]; [done|].
  replace (8 * Z.of_nat (S (length b))) with (8 + 8 * Z.of_nat (length b)) by lia.
  unfold is_uint. rewrite Z.pow_add_r by lia.
  change (2 ^ 8) with 256 in *. lia.
Qed.

Lemma le_split_combine b : bytes_ok b -> le_split (length b) (le_combine b) = b.
Proof.
  induction 1 as [|x b Hx Hb IH]; cbn [le_split le_combine length]; [done|].
  unfold is_byte in Hx. destruct Hx as [Hx1 Hx2]. change (2 ^ 8) with 256 in *.
  f_equal.
  - unfold u8, wrap. change (2 ^ 8) with 256. rewrite Z.mul_comm, Z.mod_add by lia.
    by apply Z.mod_small.
  - rewrite Z.shiftr_div_pow2 by lia. change (2 ^ 8) with 256.
    rewrite Z.mul_comm, Z.div_add, Z.div_small, Z.add_0_l by lia. done.
Qed.

(** Checking bytes by computation. *)
Definition bytes_okb (b : bytes) : bool := forallb (fun x => (0 <=? x) && (x <? 256)) b.

Lemma bytes_okb_sound b : bytes_okb b = true -> bytes_ok b.
Proof.
  unfold bytes_okb. rewrite forallb_forall. intros H. apply Forall_forall. intros x Hx.
  specialize (H x Hx). unfold is_byte, is_uint. change (2 ^ 8) with 256. lia.
Qed.

#[export] Hint Resolve le_split_ok le_combine_range : essence.

(** ** Outcomes of code that can return early or stop the program

    [Ok a]: the call returns normally with [a] ([true] for a [bool] function
    whose only other result reports failure).  [RetFalse]: it returns [false].
    [Stop r]: the program stops ([exit], a failed [assert], [EsPanic], or an
    access outside an object, which C leaves undefined). *)

Inductive stop_reason : Type :=
  | Assertion      (** a failed [assert] *)
  | FatalError     (** [EsFSError()], [exit(1)], [EsPanic] *)
  | OutOfBounds    (** an access outside the object it is made through *)
  | OutOfFuel.     (** the model's bound on a loop was reached *)

#[export] Instance stop_reason_eq_dec : EqDecision stop_reason.
Proof. solve_decision. Defined.

Inductive outcome (A : Type) : Type :=
  | Ok (a : A)
  | RetFalse
  | Stop (r : stop_reason).
Arguments Ok {A} a.
Arguments RetFalse {A}.
Arguments Stop {A} r.

(** State-passing computations. *)
Definition M (S A : Type) : Type := S -> outcome A * S.

Definition ret {S A} (a : A) : M S A := fun s => (Ok a, s).
Definition bind {S A B} (m : M S A) (f : A -> M S B) : M S B :=
  fun s => match m s with
           | (Ok a, s') => f a s'
           | (RetFalse, s') => (RetFalse, s')
           | (Stop r, s') => (Stop r, s')
           end.
Definition get {S} : M S S := fun s => (Ok s, s).
Definition modify {S} (f : S -> S) : M S unit := fun s => (Ok tt, f s).
Definition stop {S A} (r : stop_reason) : M S A := fun s => (Stop r, s).
Definition ret_false {S A} : M S A := fun s => (RetFalse, s).
Definition assert {S} (b : bool) : M S unit :=
  if b then ret tt else stop Assertion.
Definition lift_opt {S A} (r : stop_reason) (o : option A) : M S A :=
  match o with Some a => ret a | None => stop r end.
(** A call whose [bool] result is ignored. *)
Definition ignore_result {S A} (m : M S A) : M S unit :=
  fun s => match m s with
           | (Stop r, s') => (Stop r, s')
           | (_, s') => (Ok tt, s')
           end.

(** A call whose [bool] result is tested: [None] when it returned [false]. *)
Definition try_result {S A} (m : M S A) : M S (option A) :=
  fun s => match m s with
           | (Ok a, s') => (Ok (Some a), s')
           | (RetFalse, s') => (Ok None, s')
           | (Stop r, s') => (Stop r, s')
           end.

Declare Scope prog_scope.
Delimit Scope prog_scope with prog.
Notation "'let!' x ':=' m 'in' k" := (bind m (fun x => k))
  (at level 10, x pattern, m at level 100, k at level 200,
   format "'[v' 'let!'  x  ':='  m  'in'  '/' k ']'") : prog_scope.
Notation "m ';;;' k" := (bind m (fun _ => k))
  (at level 100, right associativity, format "'[v' m  ';;;' '/' k ']'") : prog_scope.
#[global] Open Scope prog_scope.

Lemma bind_ok {S A B} (m : M S A) (f : A -> M S B) s a s' :
  m s = (Ok a, s') -> bind m f s = f a s'.
Proof. intros H. unfold bind. by rewrite H. Qed.

Lemma bind_assoc {S A B C} (c : M S A) (f : A -> M S B) (g : B -> M S C) s : bind (bind c f) g s = bind c (fun a => bind (f a) g) s.
Proof. unfold bind. by destruct (c s) as [[]]. Qed.
Lemma bind_ext {S A B} (m : M S A) (k k' : A -> M S B) s : (forall a s, k a s = k' a s) -> bind m k s = bind m k' s.
Proof. intros E. unfold bind. destruct (m s) as [[]]; [apply E|done..]. Qed.
Lemma bind_ret_tt {S} (m : M S unit) s : bind m (fun _ => ret tt) s = m s.
Proof. unfold bind, ret. by destruct (m s) as [[[]| |] ?]. Qed.

Lemma bind_inv_ok {S A B} (m : M S A) (f : A -> M S B) s b s'' :
  bind m f s = (Ok b, s'') -> exists a s', m s = (Ok a, s') /\ f a s' = (Ok b, s'').
Proof.
  unfold bind. destruct (m s) as [[a| |r] s']; intros; [eauto|simplify_eq..].
Qed.

(** The result of a computation that leaves the state alone. *)
Lemma run_unchanged {S A} (m : M S A) s a : (m s).1 = Ok a -> (m s).2 = s -> m s = (Ok a, s).
Proof. destruct (m s) as [o s']. cbn. by intros -> ->. Qed.
