(* ===== verification/Layout.v ===== *)
(** * Byte buffers and the structures laid over them

    EsFS reads and writes its on-disk structures by casting pointers into byte
    buffers.  A structure is modelled as the list of its bytes, and a member as
    the [field] at the offset its declaration gives, read and written
    little-endian.  [blit] is [memcpy] into a buffer and [slice] a copy out of it. *)

From S2P Require Import Prelude.

Definition slice (off n : nat) (b : bytes) : bytes := take n (drop off b).

Definition blit (off : nat) (src dst : bytes) : bytes :=
  take off dst ++ src ++ drop (off + length src) dst.

Record field : Type := Field { f_off : nat; f_size : nat }.

Definition getf (b : bytes) (f : field) : Z := le_combine (slice (f_off f) (f_size f) b).
Definition setf (b : bytes) (f : field) (v : Z) : bytes :=
  blit (f_off f) (le_split (f_size f) v) b.

Declare Scope layout_scope.
Delimit Scope layout_scope with layout.
Notation "b .[ f ]" := (getf b f) (at level 1, f at level 99, format "b .[ f ]") : layout_scope.
Notation "b .[ f := v ]" := (setf b f v)
  (at level 1, f at level 99, v at level 200, format "b .[ f  :=  v ]") : layout_scope.
#[global] Open Scope layout_scope.

(** The member [f] of the structure found [off] bytes into a buffer. *)
Definition shift_field (off : nat) (f : field) : field := Field (off + f_off f) (f_size f).

Definition field_in (f : field) (n : nat) : Prop := (f_off f + f_size f <= n)%nat.
Definition field_disjoint (f g : field) : Prop :=
  (f_off f + f_size f <= f_off g \/ f_off g + f_size g <= f_off f)%nat.

(** ** Copying *)

Lemma length_blit off src dst :
  (off + length src <= length dst)%nat -> length (blit off src dst) = length dst.
Proof. intros H. unfold blit. rewrite !length_app, length_take, length_drop. lia. Qed.

Lemma lookup_blit off src dst i :
  (off + length src <= length dst)%nat ->
  blit off src dst !! i =
    if decide (off <= i < off + length src)%nat then src !! (i - off)%nat else dst !! i.
Proof.
  intros H. unfold blit. case_decide as Hi.
  - rewrite lookup_app_r by (rewrite length_take; lia).
    rewrite length_take, Nat.min_l by lia. rewrite lookup_app_l by lia. done.
  - destruct (decide (i < off)%nat).
    + rewrite lookup_app_l by (rewrite length_take; lia). by rewrite lookup_take_lt.
    + rewrite lookup_app_r by (rewrite length_take; lia).
      rewrite length_take, Nat.min_l by lia. rewrite lookup_app_r by lia.
      rewrite lookup_drop. f_equal. lia.
Qed.

Lemma lookup_slice off n b i :
  slice off n b !! i = if decide (i < n)%nat then b !! (off + i)%nat else None.
Proof.
  unfold slice. case_decide.
  - by rewrite lookup_take_lt, lookup_drop.
  - apply lookup_take_ge. lia.
Qed.

Lemma length_slice off n b : (off + n <= length b)%nat -> length (slice off n b) = n.
Proof. intros. unfold slice. rewrite length_take, length_drop. lia. Qed.

Lemma slice_blit_same off n src dst :
  n = length src -> (off + length src <= length dst)%nat -> slice off n (blit off src dst) = src.
Proof.
  intros -> H. apply list_eq. intros i. rewrite lookup_slice. case_decide as Hi.
  - rewrite lookup_blit, decide_True by lia. f_equal. lia.
  - symmetry. apply lookup_ge_None. lia.
Qed.

Lemma slice_blit_other off off' n src dst :
  (off + length src <= length dst)%nat ->
  (off' + n <= off \/ off + length src <= off')%nat ->
  slice off' n (blit off src dst) = slice off' n dst.
Proof.
  intros H Hd. apply list_eq. intros i. rewrite !lookup_slice. case_decide; [|done].
  rewrite lookup_blit, decide_False by lia. done.
Qed.

Lemma blit_slice off n b : (off + n <= length b)%nat -> blit off (slice off n b) b = b.
Proof.
  intros H. apply list_eq. intros i. rewrite lookup_blit by (rewrite length_slice; lia).
  rewrite length_slice by lia. case_decide; [|done].
  rewrite lookup_slice, decide_True by lia. f_equal. lia.
Qed.

Lemma slice_slice off n off' n' b :
  (off' + n' <= n)%nat -> slice off' n' (slice off n b) = slice (off + off') n' b.
Proof.
  intros H. apply list_eq. intros i. rewrite !lookup_slice. case_decide; [|done].
  rewrite decide_True by lia. f_equal. lia.
Qed.

Lemma slice_add off n m b : slice off (n + m) b = slice off n b ++ slice (off + n) m b.
Proof. unfold slice. by rewrite <- drop_drop, take_take_drop. Qed.

Lemma bytes_ok_slice off n b : bytes_ok b -> bytes_ok (slice off n b).
Proof. intros. by apply Forall_take, Forall_drop. Qed.

Lemma bytes_ok_blit off src dst : bytes_ok src -> bytes_ok dst -> bytes_ok (blit off src dst).
Proof. intros. apply Forall_app; split; [by apply Forall_take|].
  apply Forall_app; split; [done|by apply Forall_drop]. Qed.

Lemma bytes_ok_replicate0 n : bytes_ok (replicate n 0).
Proof. apply Forall_replicate. unfold is_byte, is_uint. lia. Qed.

(** ** Members *)

Lemma length_setf b f v : field_in f (length b) -> length b.[f := v] = length b.
Proof. intros. unfold setf. apply length_blit. rewrite length_le_split. done. Qed.

Lemma getf_setf_same b f v :
  field_in f (length b) -> b.[f := v].[f] = v mod 2 ^ (8 * Z.of_nat (f_size f)).
Proof.
  intros H. unfold getf, setf. rewrite slice_blit_same.
  - apply le_combine_split.
  - by rewrite length_le_split.
  - by rewrite length_le_split.
Qed.

Lemma getf_setf_uint b f v :
  field_in f (length b) -> is_uint (8 * Z.of_nat (f_size f)) v -> b.[f := v].[f] = v.
Proof. intros. rewrite getf_setf_same by done. by apply Z.mod_small. Qed.

Lemma getf_setf_other b f g v :
  field_in g (length b) -> field_disjoint f g -> b.[g := v].[f] = b.[f].
Proof.
  intros Hg Hd. unfold getf, setf. f_equal. apply slice_blit_other.
  - by rewrite length_le_split.
  - rewrite length_le_split. destruct Hd; lia.
Qed.

Lemma slice_setf_other b g v off n :
  field_in g (length b) -> (off + n <= f_off g \/ f_off g + f_size g <= off)%nat ->
  slice off n b.[g := v] = slice off n b.
Proof.
  intros Hg Hd. unfold setf. apply slice_blit_other; rewrite length_le_split; done.
Qed.

Lemma getf_blit_other b f off src :
  (off + length src <= length b)%nat ->
  (f_off f + f_size f <= off \/ off + length src <= f_off f)%nat ->
  (blit off src b).[f] = b.[f].
Proof. intros. unfold getf. by rewrite slice_blit_other. Qed.

Lemma bytes_ok_setf b f v : bytes_ok b -> bytes_ok b.[f := v].
Proof. intros. apply bytes_ok_blit; [apply le_split_ok|done]. Qed.

Lemma getf_range b f : bytes_ok b -> field_in f (length b) -> is_uint (8 * Z.of_nat (f_size f)) b.[f].
Proof.
  intros Hb Hf. unfold getf.
  pose proof (le_combine_range _ (bytes_ok_slice (f_off f) (f_size f) b Hb)) as H.
  by rewrite length_slice in H.
Qed.

Lemma getf_slice b off n f :
  field_in f n -> (slice off n b).[f] = b.[shift_field off f].
Proof. intros. unfold getf. rewrite slice_slice by done. done. Qed.

#[export] Hint Resolve bytes_ok_setf bytes_ok_blit bytes_ok_slice bytes_ok_replicate0 : essence.

(** Writes never shorten a buffer. *)
Lemma field_in_blit b off src f : field_in f (length b) -> field_in f (length (blit off src b)).
Proof.
  unfold field_in, blit. rewrite !length_app, length_take, length_drop. lia.
Qed.

Lemma field_in_setf b g v f : field_in f (length b) -> field_in f (length b.[g := v]).
Proof. apply field_in_blit. Qed.

(** Member accesses of a structure of known length: read through writes. *)
Ltac field_side :=
  repeat first [apply field_in_setf | apply field_in_blit];
  unfold field_in, field_disjoint, shift_field; cbn [f_off f_size]; lia.

Ltac field_simpl :=
  repeat first
    [ rewrite getf_setf_other by field_side
    | rewrite getf_setf_same by field_side
    | rewrite length_setf by field_side ].
