(* ===== verification/EsfsExtent.v ===== *)
(** * Extent lists of EsFS (shared/esfs2.h: EncodeExtent, DecodeExtent)

    A file's blocks are a list of extents.  An extent is stored as one header
    byte, the start block relative to the previous extent (signed, big endian,
    1 to 8 bytes), and the block count (unsigned, big endian, 1 to 8 bytes). *)

From S2P Require Import Prelude.

(** The byte count selected by the two chains of conditionals. *)
Definition extent_bytes (x : Z) : Z :=
  if x <? 0x80 then 1
  else if x <? 0x8000 then 2
  else if x <? 0x800000 then 3
  else if x <? 0x80000000 then 4
  else if x <? 0x8000000000 then 5
  else if x <? 0x800000000000 then 6
  else if x <? 0x80000000000000 then 7
  else 8.

(** [for (int i = 0; i < n; i++) encode[position++] = (uint8_t) (v >> ((n - 1 - i) * 8))] *)
Definition encode_be (n v : Z) : bytes :=
  (fun i => u8 (Z.shiftr v ((n - 1 - i) * 8))) <$> seqZ 0 n.

(** The bytes stored into [encode]; the returned position is their number. *)
Definition EncodeExtent (extentStart previousExtentStart extentCount : Z) : bytes :=
  let relativeStart := s64 (extentStart - previousExtentStart) in
  let absoluteRelativeStart := u64 (if relativeStart <? 0 then - relativeStart else relativeStart) in
  let startBytes := extent_bytes absoluteRelativeStart in
  let countBytes := extent_bytes extentCount in
  [u8 ((startBytes - 1) + Z.shiftl (countBytes - 1) 3)]
    ++ encode_be startBytes relativeStart ++ encode_be countBytes extentCount.

(** What [DecodeExtent] leaves in its result and in its three in-out arguments. *)
Record decoded : Type := Decoded {
  d_ok : bool;                 (** the returned bool *)
  d_previousExtentStart : Z;
  d_extentCount : Z;
  d_position : Z }.

(** The two reading loops: [n] big-endian bytes accumulated in a [uint64_t].
    Stops with [false] when [end] is reached; [None] when the read is outside
    the buffer. *)
Fixpoint decode_be (n : nat) (extents : bytes) (position end_ acc : Z) : option (bool * Z * Z) :=
  match n with
  | O => Some (true, acc, position)
  | S n' =>
      if position =? end_ then Some (false, acc, position)
      else match extents !! Z.to_nat position with
           | None => None
           | Some byte =>
               decode_be n' extents (position + 1) end_ (u64 (u64 (Z.shiftl acc 8) + byte))
           end
  end.

(** [for (i = startBytes; i < 8; i++) extentStart |= (uint64_t) 0xFF << (i * 8)] *)
Definition sign_fill (startBytes extentStart : Z) : Z :=
  fold_left (fun a i => Z.lor a (u64 (Z.shiftl 0xFF (i * 8)))) (seqZ startBytes (8 - startBytes)) extentStart.

Definition DecodeExtent (previousExtentStart : Z) (extents : bytes) (position end_ : Z)
  : option decoded :=
  if position =? end_ then Some (Decoded false previousExtentStart 0 position)
  else match extents !! Z.to_nat position with
  | None => None
  | Some header =>
    let position := position + 1 in
    let startBytes := Z.land (Z.shiftr header 0) 7 + 1 in
    let countBytes := Z.land (Z.shiftr header 3) 7 + 1 in
    match decode_be (Z.to_nat startBytes) extents position end_ 0 with
    | None => None
    | Some (false, _, p) => Some (Decoded false previousExtentStart 0 p)
    | Some (true, extentStart, p) =>
      (** [negative] is the top bit of the first start byte. *)
      let negative := Z.testbit (nth (Z.to_nat position) extents 0) 7 in
      match decode_be (Z.to_nat countBytes) extents p end_ 0 with
      | None => None
      | Some (false, c, p') => Some (Decoded false previousExtentStart c p')
      | Some (true, c, p') =>
        let extentStart := if negative then sign_fill startBytes extentStart else extentStart in
        Some (Decoded true (u64 (previousExtentStart + extentStart)) c p')
      end
    end
  end.

Example encode_small : EncodeExtent 100 0 5 = [0; 100; 5].
Proof. reflexivity. Qed.
Example encode_back : EncodeExtent 100 300 0x1234 = [9; 0xFF; 0x38; 0x12; 0x34].
Proof. reflexivity. Qed.
Example decode_back :
  DecodeExtent 300 [9; 0xFF; 0x38; 0x12; 0x34] 0 5 = Some (Decoded true 100 0x1234 5).
Proof. reflexivity. Qed.

(** ** Big-endian bytes round trip *)

Lemma encode_be_S (n : nat) v :
  encode_be (Z.of_nat (S n)) v = u8 (Z.shiftr v (8 * Z.of_nat n)) :: encode_be (Z.of_nat n) v.
Proof.
  unfold encode_be. rewrite seqZ_cons by lia. rewrite fmap_cons. f_equal.
  - f_equal. f_equal. lia.
  - replace (Z.pred (Z.of_nat (S n))) with (Z.of_nat n) by lia.
    change (Z.succ 0) with (1 + 0).
    rewrite <- (fmap_add_seqZ 1 0 (Z.of_nat n)), <- list_fmap_compose.
    apply list_fmap_ext. intros _ i _. simpl. do 2 f_equal. lia.
Qed.

Lemma length_encode_be n v : length (encode_be n v) = Z.to_nat n.
Proof. unfold encode_be. by rewrite length_fmap, length_seqZ. Qed.

Lemma encode_be_ok n v : bytes_ok (encode_be n v).
Proof. apply Forall_fmap, Forall_true. intros i. apply wrap_range. lia. Qed.

Lemma be_step acc v (n : nat) :
  u64 (u64 (u64 (Z.shiftl acc 8) + u8 (Z.shiftr v (8 * Z.of_nat n))) * 2 ^ (8 * Z.of_nat n)
        + v mod 2 ^ (8 * Z.of_nat n))
  = u64 (acc * 2 ^ (8 * Z.of_nat (S n)) + v mod 2 ^ (8 * Z.of_nat (S n))).
Proof.
  replace (8 * Z.of_nat (S n)) with (8 * Z.of_nat n + 8) by lia.
  rewrite !Z.pow_add_r by lia.
  assert (0 < 2 ^ (8 * Z.of_nat n)) by (apply Z.pow_pos_nonneg; lia).
  rewrite (Z.rem_mul_r v) by lia.
  unfold u64, u8, wrap. rewrite Z.shiftr_div_pow2, Z.shiftl_mul_pow2 by lia.
  rewrite Zplus_mod_idemp_l.
  rewrite <- Zplus_mod_idemp_l, Zmult_mod_idemp_l, Zplus_mod_idemp_l.
  f_equal. ring.
Qed.

Lemma decode_be_encode (n : nat) v pre post end_ acc :
  Z.of_nat (length pre + n) <= end_ -> is_uint 64 acc ->
  decode_be n (pre ++ encode_be (Z.of_nat n) v ++ post) (Z.of_nat (length pre)) end_ acc
  = Some (true, u64 (acc * 2 ^ (8 * Z.of_nat n) + v mod 2 ^ (8 * Z.of_nat n)),
          Z.of_nat (length pre + n)).
Proof.
  revert pre acc. induction n as [|n IH]; intros pre acc Hend Hacc.
  { simpl. rewrite Z.mul_1_r, Z.mod_1_r, Z.add_0_r.
    unfold u64. rewrite wrap_id by done. by rewrite Nat.add_0_r. }
  rewrite encode_be_S. cbn [decode_be app].
  replace (Z.of_nat (length pre) =? end_) with false by lia.
  rewrite Nat2Z.id, list_lookup_middle by done.
  set (b := u8 _). specialize (IH (pre ++ [b]) (u64 (u64 (Z.shiftl acc 8) + b))).
  rewrite length_app in IH. cbn [length] in IH. rewrite <- app_assoc in IH. cbn [app] in IH.
  replace (Z.of_nat (length pre) + 1) with (Z.of_nat (length pre + 1)) by lia.
  rewrite IH; [|lia|apply wrap_range; lia].
  subst b. rewrite be_step.
  by replace (length pre + 1 + n)%nat with (length pre + S n)%nat by lia.
Qed.

(** ** Sizes *)

Lemma extent_bytes_range x : 1 <= extent_bytes x <= 8.
Proof. unfold extent_bytes. repeat case_match; lia. Qed.

(** [x] fits in the selected number of bytes with room for a sign bit, unless
    all eight bytes are used. *)
Lemma extent_bytes_fits x :
  0 <= x < 2 ^ 64 -> x < 2 ^ (8 * extent_bytes x - 1) \/ extent_bytes x = 8.
Proof.
  intros Hx. unfold extent_bytes.
  repeat match goal with |- context [if ?b then _ else _] => destruct b eqn:? end;
    [left; lia..|by right].
Qed.

Lemma EncodeExtent_bytes_ok s p c : bytes_ok (EncodeExtent s p c).
Proof.
  unfold EncodeExtent. apply Forall_app; split; [|apply Forall_app; split; apply encode_be_ok].
  constructor; [|constructor]. apply wrap_range. lia.
Qed.

Lemma length_EncodeExtent s p c : (3 <= length (EncodeExtent s p c) <= 17)%nat.
Proof.
  unfold EncodeExtent. rewrite !length_app, !length_encode_be. cbn [length].
  match goal with |- context [extent_bytes ?a] => pose proof (extent_bytes_range a) end.
  pose proof (extent_bytes_range c). lia.
Qed.

(** ** Sign extension *)

Lemma sign_fill_eq n x :
  1 <= n <= 8 -> is_uint (8 * n) x -> sign_fill n x = x + (2 ^ 64 - 2 ^ (8 * n)).
Proof.
  intros Hn Hx. unfold sign_fill.
  assert (forall k : nat, Z.of_nat k <= 8 - n ->
    fold_left (fun a i => Z.lor a (u64 (Z.shiftl 255 (i * 8)))) (seqZ n (Z.of_nat k)) x
    = x + (2 ^ (8 * (n + Z.of_nat k)) - 2 ^ (8 * n))) as Hk.
  { induction k as [|k IH]; intros Hk.
    { simpl. rewrite Z.add_0_r. lia. }
    rewrite seqZ_S, fold_left_app, IH, Nat2Z.inj_succ by lia. cbn [fold_left].
    set (y := n + Z.of_nat k).
    assert (is_uint (8 * y) (x + (2 ^ (8 * y) - 2 ^ (8 * n)))) as Hy.
    { destruct Hx. assert (2 ^ (8 * n) <= 2 ^ (8 * y)) by (apply Z.pow_le_mono_r; lia).
      unfold is_uint. lia. }
    set (a := x + (2 ^ (8 * y) - 2 ^ (8 * n))) in *.
    assert (u64 (Z.shiftl 255 (y * 8)) = 255 * 2 ^ (8 * y)) as ->.
    { unfold u64. rewrite Z.shiftl_mul_pow2, (Z.mul_comm y) by lia. apply wrap_id.
      assert (0 < 2 ^ (8 * y)) by (apply Z.pow_pos_nonneg; lia).
      split; [lia|]. apply Z.lt_le_trans with (2 ^ 8 * 2 ^ (8 * y)); [lia|].
      rewrite <- Z.pow_add_r by lia. apply Z.pow_le_mono_r; lia. }
    rewrite <- Z.shiftl_mul_pow2, lor_shiftl_add by (done || lia). subst a.
    replace (8 * (n + Z.succ (Z.of_nat k))) with (8 * y + 8) by lia.
    rewrite (Z.pow_add_r 2 (8 * y) 8) by lia. lia. }
  specialize (Hk (Z.to_nat (8 - n))). rewrite Z2Nat.id in Hk by lia.
  rewrite Hk by lia. replace (8 * (n + (8 - n))) with 64 by lia. done.
Qed.

(** ** Decoding what was encoded *)

Lemma header_fields n m :
  1 <= n <= 8 -> 1 <= m <= 8 ->
  let h := u8 ((n - 1) + Z.shiftl (m - 1) 3) in
  Z.land (Z.shiftr h 0) 7 + 1 = n /\ Z.land (Z.shiftr h 3) 7 + 1 = m.
Proof.
  intros Hn Hm. cbv zeta. unfold u8, wrap.
  rewrite Z.shiftl_mul_pow2, Z.mod_small by (change (2 ^ 8) with 256; lia).
  change 7 with (Z.ones 3). rewrite !Z.land_ones, !Z.shiftr_div_pow2 by lia.
  change (2 ^ 0) with 1. change (2 ^ 3) with 8. rewrite Z.div_1_r.
  split.
  - rewrite Z.mod_add, Z.mod_small by lia. lia.
  - rewrite Z.div_add, Z.div_small, Z.mod_small by lia. lia.
Qed.

Lemma encode_be_head_bit (n : nat) v :
  (0 < n)%nat ->
  exists b t, encode_be (Z.of_nat n) v = b :: t /\ Z.testbit b 7 = Z.testbit v (8 * Z.of_nat n - 1).
Proof.
  intros Hn. destruct n as [|n]; [lia|]. rewrite encode_be_S.
  eexists _, _. split; [done|]. unfold u8, wrap.
  rewrite <- Z.land_ones, Z.land_spec, Z.ones_spec_low, andb_true_r, Z.shiftr_spec by lia.
  f_equal. lia.
Qed.

(** Reading back a signed value from its low [8 * n] bits. *)
Lemma sign_extend_correct n v :
  1 <= n <= 8 -> - 2 ^ (8 * n - 1) <= v < 2 ^ (8 * n - 1) ->
  u64 (if Z.testbit v (8 * n - 1) then sign_fill n (v mod 2 ^ (8 * n)) else v mod 2 ^ (8 * n))
  = u64 v.
Proof.
  intros Hn Hv.
  assert (2 ^ (8 * n) = 2 * 2 ^ (8 * n - 1)) as Hp.
  { rewrite <- Z.pow_succ_r by lia. f_equal. lia. }
  assert (Z.testbit v (8 * n - 1) = (v <? 0)) as ->.
  { rewrite Z.testbit_odd, Z.shiftr_div_pow2 by lia.
    destruct (decide (v < 0)).
    - replace (v / 2 ^ (8 * n - 1)) with (-1).
      + symmetry. apply Z.ltb_lt. done.
      + apply (Z.div_unique_pos _ _ _ (v + 2 ^ (8 * n - 1))); lia.
    - rewrite Z.div_small by lia. symmetry. apply Z.ltb_ge. lia. }
  destruct (Z.ltb_spec v 0).
  - rewrite sign_fill_eq; [|done|].
    2:{ apply Z.mod_pos_bound. lia. }
    replace (v mod 2 ^ (8 * n)) with (v + 2 ^ (8 * n)).
    + unfold u64, wrap. replace (v + 2 ^ (8 * n) + (2 ^ 64 - 2 ^ (8 * n))) with (v + 1 * 2 ^ 64) by lia.
      apply Z.mod_add. lia.
    + apply (Z.mod_unique_pos _ _ (-1)); lia.
  - rewrite Z.mod_small by lia. done.
Qed.

Lemma decode_encode_extent start prev count pre post end_ :
  is_uint 64 start -> is_uint 64 prev -> is_uint 64 count ->
  Z.of_nat (length pre + length (EncodeExtent start prev count)) <= end_ ->
  DecodeExtent prev (pre ++ EncodeExtent start prev count ++ post) (Z.of_nat (length pre)) end_
  = Some (Decoded true start count (Z.of_nat (length pre + length (EncodeExtent start prev count)))).
Proof.
  intros Hs Hp Hc Hend. pose proof (length_EncodeExtent start prev count) as Hlen.
  unfold DecodeExtent.
  replace (Z.of_nat (length pre) =? end_) with false by lia. clear Hlen.
  unfold EncodeExtent in *.
  set (rel := s64 (start - prev)) in *.
  set (a := u64 (if rel <? 0 then _ else _)) in *.
  pose proof (extent_bytes_range a) as Hn. pose proof (extent_bytes_range count) as Hm.
  assert (- 2 ^ (8 * extent_bytes a - 1) <= rel < 2 ^ (8 * extent_bytes a - 1)) as Hrel.
  { pose proof (swrap_range 64 (start - prev) ltac:(lia)) as Hr. fold (s64 (start - prev)) in Hr.
    fold rel in Hr. change (64 - 1) with 63 in Hr.
    assert (a = Z.abs rel) as Ha.
    { subst a. unfold u64. rewrite wrap_id; [destruct (Z.ltb_spec rel 0); lia|].
      unfold is_uint. change (2 ^ 64) with (2 * 2 ^ 63). destruct (Z.ltb_spec rel 0); lia. }
    destruct (extent_bytes_fits a) as [H| ->]; [|lia|].
    - change (2 ^ 64) with (2 * 2 ^ 63). lia.
    - change (8 * 8 - 1) with 63. done. }
  assert (count < 2 ^ (8 * extent_bytes count)) as Hcount.
  { destruct (extent_bytes_fits count Hc) as [H| ->]; [|apply Hc].
    eapply Z.lt_le_trans; [done|]. apply Z.pow_le_mono_r; lia. }
  set (n := extent_bytes a) in *. set (m := extent_bytes count) in *.
  set (h := u8 _). rewrite Nat2Z.id, <- app_assoc. cbn [app].
  rewrite list_lookup_middle by done.
  destruct (header_fields n m Hn Hm) as [Hh1 Hh2]. fold h in Hh1, Hh2. rewrite Hh1, Hh2.
  cbn [app length] in Hend |- *. rewrite !length_app, !length_encode_be in Hend |- *.
  replace (pre ++ h :: (encode_be n rel ++ encode_be m count) ++ post)
    with ((pre ++ [h]) ++ encode_be (Z.of_nat (Z.to_nat n)) rel
            ++ (encode_be (Z.of_nat (Z.to_nat m)) count ++ post)).
  2:{ rewrite <- !app_assoc. cbn [app]. rewrite !Z2Nat.id by lia. done. }
  replace (Z.of_nat (length pre) + 1) with (Z.of_nat (length (pre ++ [h])))
    by (rewrite length_app; simpl; lia).
  assert (length (pre ++ [h]) = S (length pre)) as Hl1 by (rewrite length_app; simpl; lia).
  rewrite decode_be_encode; [|lia|unfold is_uint; lia].
  rewrite (app_assoc (pre ++ [h])).
  replace (Z.of_nat (length (pre ++ [h]) + Z.to_nat n))
    with (Z.of_nat (length ((pre ++ [h]) ++ encode_be (Z.of_nat (Z.to_nat n)) rel)))
    by (rewrite (length_app (pre ++ [h])), length_encode_be; lia).
  rewrite decode_be_encode; [| |unfold is_uint; lia].
  2:{ rewrite length_app, Hl1, length_encode_be. lia. }
  rewrite !Z.mul_0_l, !Z.add_0_l, !Z2Nat.id by lia.
  f_equal. f_equal.
  - rewrite <- app_assoc, nth_lookup, Nat2Z.id.
    destruct (encode_be_head_bit (Z.to_nat n) rel) as (b & t & Hbt & Hb7); [lia|].
    rewrite Z2Nat.id in Hbt, Hb7 by lia. rewrite Hbt. cbn [app].
    rewrite list_lookup_middle by done. change (default 0 (Some b)) with b. rewrite Hb7.
    rewrite (u64_id (rel mod _)).
    2:{ apply (is_uint_mono (8 * n)); [lia|]. apply Z.mod_pos_bound, Z.pow_pos_nonneg; lia. }
    rewrite <- u64_add_r, sign_extend_correct, u64_add_r by done.
    subst rel. rewrite <- u64_add_r, u64_s64, u64_add_r.
    replace (prev + (start - prev)) with start by lia. by apply u64_id.
  - unfold u64. rewrite (Z.mod_small count) by (destruct Hc; lia). by apply wrap_id.
  - rewrite length_app, Hl1, length_encode_be. lia.
Qed.

(** C27.  An extent encoded with [EncodeExtent] and stored anywhere in an extent
    list is read back exactly by [DecodeExtent]: same start block, same block
    count, and the position moved past exactly the bytes that were written, for
    all 64-bit starts and counts, also when the extent lies before its
    predecessor. *)
Theorem extent_roundtrip start prev count pre post end_ :
  is_uint 64 start -> is_uint 64 prev -> is_uint 64 count ->
  Z.of_nat (length pre + length (EncodeExtent start prev count)) <= end_ ->
  DecodeExtent prev (pre ++ EncodeExtent start prev count ++ post) (Z.of_nat (length pre)) end_
  = Some (Decoded true start count (Z.of_nat (length pre + length (EncodeExtent start prev count)))).
Proof. apply decode_encode_extent. Qed.

Lemma extent_roundtrip_witness :
  DecodeExtent 0x10000 ([7; 7] ++ EncodeExtent 0x8000 0x10000 0x123456 ++ [9])
    (Z.of_nat (length [7; 7])) 10
  = Some (Decoded true 0x8000 0x123456
            (Z.of_nat (length [7; 7] + length (EncodeExtent 0x8000 0x10000 0x123456)))).
Proof.
  apply extent_roundtrip; [unfold is_uint; lia..|]. vm_compute. discriminate.
Defined.
