(* ===== verification/EsfsTypes.v ===== *)
(** * EsFS: on-disk structures, global state and block access (shared/esfs2.h)

    The constants and structures of the header, one Module per structure with
    its members at the offsets their declarations give, the interface EsFS uses to
    reach its drive ([BlockDevice]), the drive file of the build tool that
    implements it (util/build_core.c), and the routines' global state. *)

From stdpp Require Import gmap.
From S2P Require Import Prelude Crc Layout.

(** ** Constants *)

Definition ESFS_BOOT_SUPER_BLOCK_SIZE : Z := 8192.
Definition ESFS_DRIVE_MINIMUM_SIZE : Z := 1048576.
Definition ESFS_DRIVER_VERSION : Z := 10.
Definition ESFS_MAXIMUM_VOLUME_NAME_LENGTH : Z := 32.
Definition ESFS_CORE_NODE_KERNEL : Z := 0.
Definition ESFS_CORE_NODE_ROOT : Z := 1.
Definition ESFS_CORE_NODE_COUNT : Z := 2.
(** "!EssenceFS2-----", "DirEntry", "GDTE" and "INXE". *)
Definition ESFS_SIGNATURE_STRING : bytes :=
  [33; 69; 115; 115; 101; 110; 99; 101; 70; 83; 50; 45; 45; 45; 45; 45].
Definition ESFS_DIRECTORY_ENTRY_SIGNATURE : bytes := [68; 105; 114; 69; 110; 116; 114; 121].
Definition ESFS_GROUP_DESCRIPTOR_SIGNATURE : bytes := [71; 68; 84; 69].
Definition ESFS_INDEX_VERTEX_SIGNATURE : bytes := [73; 78; 88; 69].
Definition ESFS_NODE_TYPE_FILE : Z := 1.
Definition ESFS_NODE_TYPE_DIRECTORY : Z := 2.
Definition ESFS_ATTRIBUTE_DATA : Z := 1.
Definition ESFS_ATTRIBUTE_FILENAME : Z := 2.
Definition ESFS_ATTRIBUTE_DIRECTORY : Z := 3.
Definition ESFS_INDIRECTION_DIRECT : Z := 1.
Definition ESFS_INDIRECTION_L1 : Z := 2.
Definition ESFS_INDEX_MAX_DEPTH : Z := 16.
Definition ESFS_FILENAME_HEADER_SIZE : Z := 8.
Definition ESFS_DATA_OFFSET : Z := 32.
Definition ESFS_ATTRIBUTE_OFFSET : Z := 96.
Definition ESFS_INDEX_KEY_OFFSET : Z := 32.

(** ** Structures *)

Module Attribute.
Definition type := Field 0 2.
Definition size := Field 2 2.
Definition members : list field := [type; size].
Definition sizeof : nat := 4.
End Attribute.

Module AttributeFilename.
Definition type := Field 0 2.
Definition size := Field 2 2.
Definition length := Field 4 2.
Definition unused := Field 6 2.
Definition filename_offset : nat := 8.
Definition members : list field := [type; size; length; unused].
Definition sizeof_header : nat := 8.
End AttributeFilename.

Module AttributeDirectory.
Definition type := Field 0 2.
Definition size := Field 2 2.
Definition unused0 := Field 4 4.
Definition childNodes := Field 8 8.
Definition indexRootBlock := Field 16 8.
Definition totalSize := Field 24 8.
Definition members : list field := [type; size; unused0; childNodes; indexRootBlock; totalSize].
Definition sizeof : nat := 32.
End AttributeDirectory.

Module AttributeData.
Definition type := Field 0 2.
Definition size := Field 2 2.
Definition indirection := Field 4 1.
Definition dataOffset := Field 5 1.
Definition count := Field 6 2.
Definition unused := Field 8 24.
Definition data_offset : nat := 32.
Definition members : list field := [type; size; indirection; dataOffset; count; unused].
Definition sizeof_header : nat := 32.
End AttributeData.

Module DirectoryEntry.
Definition signature := Field 0 8.
Definition identifier := Field 8 16.
Definition checksum := Field 24 4.
Definition attributeOffset := Field 28 2.
Definition nodeType := Field 30 1.
Definition attributeCount := Field 31 1.
Definition creationTime := Field 32 8.
Definition accessTime := Field 40 8.
Definition modificationTime := Field 48 8.
Definition fileSize := Field 56 8.
Definition parent := Field 64 16.
Definition contentType := Field 80 16.
Definition attributes := Field 96 928.
Definition members : list field :=
  [signature; identifier; checksum; attributeOffset; nodeType; attributeCount; creationTime;
   accessTime; modificationTime; fileSize; parent; contentType; attributes].
Definition sizeof : nat := 1024.
End DirectoryEntry.

Module GroupDescriptor.
Definition signature := Field 0 4.
Definition blocksUsed := Field 4 4.
Definition blockBitmap := Field 8 8.
Definition bitmapChecksum := Field 16 4.
Definition checksum := Field 20 4.
Definition largestExtent := Field 24 4.
Definition unused := Field 28 28.
Definition members : list field :=
  [signature; blocksUsed; blockBitmap; bitmapChecksum; checksum; largestExtent; unused].
Definition sizeof : nat := 56.
End GroupDescriptor.

Module DirectoryEntryReference.
Definition block := Field 0 8.
Definition offsetIntoBlock := Field 8 4.
Definition unused := Field 12 4.
Definition members : list field := [block; offsetIntoBlock; unused].
Definition sizeof : nat := 16.
End DirectoryEntryReference.

Module IndexKey.
Definition value := Field 0 8.
Definition child := Field 8 8.
Definition data := Field 16 16.
Definition members : list field := [value; child; data].
Definition sizeof : nat := 32.
End IndexKey.

Module IndexVertex.
Definition signature := Field 0 4.
Definition checksum := Field 4 4.
Definition offset := Field 8 2.
Definition count := Field 10 2.
Definition maxCount := Field 12 2.
Definition unused0 := Field 14 2.
Definition unused1 := Field 16 16.
Definition members : list field := [signature; checksum; offset; count; maxCount; unused0; unused1].
Definition sizeof_header : nat := 32.
End IndexVertex.

Module Superblock.
Definition signature := Field 0 16.
Definition volumeName := Field 16 32.
Definition requiredReadVersion := Field 48 2.
Definition requiredWriteVersion := Field 50 2.
Definition checksum := Field 52 4.
Definition mounted := Field 56 1.
Definition unused2 := Field 57 7.
Definition blockSize := Field 64 8.
Definition blockCount := Field 72 8.
Definition blocksUsed := Field 80 8.
Definition blocksPerGroup := Field 88 4.
Definition unused3 := Field 92 4.
Definition groupCount := Field 96 8.
Definition blocksPerGroupBlockBitmap := Field 104 8.
Definition gdtFirstBlock := Field 112 8.
Definition directoryEntriesPerBlock := Field 120 8.
Definition unused0 := Field 128 8.
Definition identifier := Field 136 16.
Definition osInstallation := Field 152 16.
Definition nextIdentifier := Field 168 16.
Definition kernel := Field 184 16.
Definition root := Field 200 16.
Definition unused1 := Field 216 (Z.to_nat (8192 - 216)).
Definition members : list field :=
  [signature; volumeName; requiredReadVersion; requiredWriteVersion; checksum; mounted; unused2;
   blockSize; blockCount; blocksUsed; blocksPerGroup; unused3; groupCount; blocksPerGroupBlockBitmap;
   gdtFirstBlock; directoryEntriesPerBlock; unused0; identifier; osInstallation; nextIdentifier;
   kernel; root; unused1].
Definition sizeof : nat := Z.to_nat 8192.
End Superblock.

(** [packed off members size]: the members follow one another without gap or
    overlap from offset [off] and end at [size]. *)
Fixpoint packed (off : nat) (members : list field) (size : nat) : bool :=
  match members with
  | [] => (off =? size)%nat
  | f :: rest => (f_off f =? off)%nat && packed (off + f_size f) rest size
  end.

(** ** The drive

    What EsFS is promised by the code that owns the drive: a read inside the
    drive returns its bytes, and a write inside it replaces exactly the bytes it
    covers. *)

Class BlockDevice (D : Type) : Type := {
  dev_size : D -> Z;
  dev_byte : D -> Z -> Z;
  dev_read : D -> Z -> Z -> option bytes;
  dev_write : D -> Z -> bytes -> option D;
  dev_read_ok : forall d off n,
    0 <= off -> 0 <= n -> off + n <= dev_size d ->
    dev_read d off n = Some (dev_byte d <$> seqZ off n);
  dev_write_ok : forall d off bs,
    0 <= off -> off + Z.of_nat (length bs) <= dev_size d ->
    exists d', dev_write d off bs = Some d' /\ dev_size d' = dev_size d /\
      forall a, dev_byte d' a = if decide (off <= a < off + Z.of_nat (length bs))
                                then nth (Z.to_nat (a - off)) bs 0 else dev_byte d a }.

(** The drive file of the build tool: [_drive] and [_partitionOffset]. *)
Record DriveFile : Type := {
  file_bytes : gmap Z Z;      (** bytes that were written; the others are zero *)
  file_size : Z;
  partitionOffset : Z }.

Fixpoint put_bytes (m : gmap Z Z) (off : Z) (bs : bytes) : gmap Z Z :=
  match bs with
  | [] => m
  | b :: rest => put_bytes (<[off := b]> m) (off + 1) rest
  end.

Definition file_byte (d : DriveFile) (a : Z) : Z :=
  default 0 (file_bytes d !! (partitionOffset d + a)).

(** [FileSeek] and [FileRead]: fewer bytes than asked for past the end. *)
Definition file_read (d : DriveFile) (off n : Z) : option bytes :=
  if (partitionOffset d + off + n <=? file_size d)
  then Some (file_byte d <$> seqZ off n) else None.

(** [FileSeek] and [FileWrite]: the file grows when written past its end. *)
Definition file_write (d : DriveFile) (off : Z) (bs : bytes) : option DriveFile :=
  Some {| file_bytes := put_bytes (file_bytes d) (partitionOffset d + off) bs;
          file_size := Z.max (file_size d) (partitionOffset d + off + Z.of_nat (length bs));
          partitionOffset := partitionOffset d |}.

Lemma put_bytes_lookup bs : forall m off a,
  put_bytes m off bs !! a =
    if decide (off <= a < off + Z.of_nat (length bs)) then bs !! Z.to_nat (a - off) else m !! a.
Proof.
  induction bs as [|b bs IH]; intros m off a; cbn [put_bytes length].
  - rewrite decide_False by lia. done.
  - rewrite IH. destruct (decide (a = off)) as [->|Hne].
    + rewrite decide_False, decide_True by lia. rewrite lookup_insert_eq.
      by replace (off - off) with 0 by lia.
    + rewrite lookup_insert_ne by done. case_decide.
      * rewrite decide_True by lia.
        by replace (Z.to_nat (a - off)) with (S (Z.to_nat (a - (off + 1)))) by lia.
      * rewrite decide_False by lia. done.
Qed.

#[export] #[refine] Instance DriveFile_device : BlockDevice DriveFile := {
  dev_size d := file_size d - partitionOffset d;
  dev_byte := file_byte;
  dev_read := file_read;
  dev_write := file_write }.
Proof.
  - intros d off n Ho Hn Hs. unfold file_read.
    replace (_ <=? _) with true by lia. done.
  - intros d off bs Ho Hs. eexists. split; [done|]. split; [simpl; lia|].
    intros a. unfold file_byte; cbn [file_bytes partitionOffset]. rewrite put_bytes_lookup.
    case_decide as H1; case_decide as H2; try lia.
    rewrite nth_lookup. do 2 f_equal. lia.
Defined.

(** ** Global state *)

Record esfs (D : Type) : Type := Esfs {
  blockSize : Z;                    (** the unit of [ReadBlock] and [WriteBlock] *)
  superblock : bytes;
  groupDescriptorTable : bytes;
  copiedCount : Z;
  rand_calls : nat;                 (** how often [rand()] was called *)
  drive : D }.
Arguments Esfs {D}.
Arguments blockSize {D}.
Arguments superblock {D}.
Arguments groupDescriptorTable {D}.
Arguments copiedCount {D}.
Arguments rand_calls {D}.
Arguments drive {D}.

Section State.
Context {D : Type} {dev : BlockDevice D}.

Definition set_blockSize (x : Z) (s : esfs D) : esfs D :=
  Esfs x (superblock s) (groupDescriptorTable s) (copiedCount s) (rand_calls s) (drive s).
Definition set_superblock (x : bytes) (s : esfs D) : esfs D :=
  Esfs (blockSize s) x (groupDescriptorTable s) (copiedCount s) (rand_calls s) (drive s).
Definition set_gdt (x : bytes) (s : esfs D) : esfs D :=
  Esfs (blockSize s) (superblock s) x (copiedCount s) (rand_calls s) (drive s).
Definition set_copiedCount (x : Z) (s : esfs D) : esfs D :=
  Esfs (blockSize s) (superblock s) (groupDescriptorTable s) x (rand_calls s) (drive s).
Definition set_rand_calls (x : nat) (s : esfs D) : esfs D :=
  Esfs (blockSize s) (superblock s) (groupDescriptorTable s) (copiedCount s) x (drive s).
Definition set_drive (x : D) (s : esfs D) : esfs D :=
  Esfs (blockSize s) (superblock s) (groupDescriptorTable s) (copiedCount s) (rand_calls s) x.

(** [ReadBlock] of util/build_core.c: a short read ends the program. *)
Definition ReadBlock (block count : Z) : M (esfs D) bytes :=
  let! s := get in
  lift_opt FatalError (dev_read (drive s) (u64 (block * blockSize s)) (u64 (blockSize s * count))).

(** [WriteBlock]: the caller's buffer holds [count] blocks. *)
Definition WriteBlock (block count : Z) (buffer : bytes) : M (esfs D) unit :=
  let! s := get in
  assert (block <? 4294967296) ;;;
  let! d := lift_opt FatalError
              (dev_write (drive s) (u64 (block * blockSize s))
                 (take (Z.to_nat (u64 (blockSize s * count))) buffer)) in
  modify (set_drive d).

Definition WriteBytes (offset count : Z) (buffer : bytes) : M (esfs D) unit :=
  let! s := get in
  let! d := lift_opt FatalError (dev_write (drive s) offset (take (Z.to_nat count) buffer)) in
  modify (set_drive d).

(** ** What the block routines do *)

(** The bytes of the drive from [off] on. *)
Definition dev_bytes (d : D) (off n : Z) : bytes := dev_byte d <$> seqZ off n.

Lemma length_dev_bytes d off n : length (dev_bytes d off n) = Z.to_nat n.
Proof. unfold dev_bytes. by rewrite length_fmap, length_seqZ. Qed.

Lemma ReadBlock_ok block count s :
  0 <= block -> 0 <= count -> 0 <= blockSize s ->
  block * blockSize s + blockSize s * count <= dev_size (drive s) < 2 ^ 64 ->
  ReadBlock block count s
  = (Ok (dev_bytes (drive s) (block * blockSize s) (blockSize s * count)), s).
Proof.
  intros Hb Hc Hs Hr. unfold ReadBlock, bind, get, lift_opt.
  rewrite !u64_id by (unfold is_uint; nia). rewrite dev_read_ok by nia. done.
Qed.

Lemma WriteBlock_ok block count buf s :
  0 <= block < 4294967296 -> 0 <= count -> 0 <= blockSize s ->
  Z.of_nat (length buf) = blockSize s * count ->
  block * blockSize s + blockSize s * count <= dev_size (drive s) < 2 ^ 64 ->
  exists d', WriteBlock block count buf s = (Ok tt, set_drive d' s) /\
    dev_size d' = dev_size (drive s) /\
    forall a, dev_byte d' a =
      if decide (block * blockSize s <= a < block * blockSize s + blockSize s * count)
      then nth (Z.to_nat (a - block * blockSize s)) buf 0 else dev_byte (drive s) a.
Proof.
  intros Hb Hc Hs Hl Hr. unfold WriteBlock, bind, get, assert.
  replace (block <? 4294967296) with true by lia. cbn [ret].
  rewrite !u64_id by (unfold is_uint; nia).
  rewrite take_ge by lia.
  destruct (dev_write_ok (drive s) (block * blockSize s) buf) as (d' & Hd & Hsz & Hby); [nia..|].
  unfold ret. rewrite Hd. exists d'. split; [done|]. split; [done|].
  intros a. rewrite Hby, Hl. done.
Qed.
End State.
