(* ===== verification/EsfsAlloc.v ===== *)
(** * EsFS block allocation (shared/esfs2.h: AllocateExtent)

    Blocks are allocated per group from a bitmap, always the longest run of free
    blocks of the chosen group.  The first part treats a bitmap on its own, the
    second the group descriptors and the whole routine. *)

From stdpp Require Import gmap.
From S2P Require Import Prelude Crc Layout EsfsTypes.

(** ** Bitmaps *)

(** [bitmap[i / 8] & (1 << (i % 8))] *)
Definition bit_get (bitmap : bytes) (i : Z) : bool :=
  negb (Z.land (nth (Z.to_nat (i / 8)) bitmap 0) (Z.shiftl 1 (i mod 8)) =? 0).

(** [bitmap[i / 8] |= 1 << (i % 8)] *)
Definition bit_set (bitmap : bytes) (i : Z) : bytes :=
  <[Z.to_nat (i / 8) := u8 (Z.lor (nth (Z.to_nat (i / 8)) bitmap 0) (Z.shiftl 1 (i mod 8)))]> bitmap.

(** [for (i = start; i < start + count; i++) bitmap[i / 8] |= 1 << (i % 8)] *)
Definition bit_set_range (bitmap : bytes) (start count : Z) : bytes :=
  fold_left bit_set (seqZ start count) bitmap.

(** The inner loop of the search: how far the free blocks reach from [i]. *)
Fixpoint free_run (fuel : nat) (used : Z -> bool) (limit i count : Z) : Z * Z :=
  match fuel with
  | O => (count, i)
  | S fuel' =>
      if i <? limit then
        if used i then (count, i) else free_run fuel' used limit (i + 1) (count + 1)
      else (count, i)
  end.

(** The outer loop: start and length of the longest run of free blocks. *)
Fixpoint largest_extent (fuel : nat) (used : Z -> bool) (limit i largestStart largestCount : Z)
  : Z * Z :=
  match fuel with
  | O => (largestStart, largestCount)
  | S fuel' =>
      if i <? limit then
        if used i then largest_extent fuel' used limit (i + 1) largestStart largestCount
        else let '(count, i') := free_run fuel used limit i 0 in
             if largestCount <? count
             then largest_extent fuel' used limit i' i count
             else largest_extent fuel' used limit i' largestStart largestCount
      else (largestStart, largestCount)
  end.

(** Both loops advance [i] by at least one in each pass, so [limit] passes are
    always enough. *)
Definition find_largest_extent (bitmap : bytes) (limit : Z) : Z * Z :=
  largest_extent (Z.to_nat limit) (bit_get bitmap) limit 0 0 0.

(** A run of [c] free blocks from [s] inside [[0, limit)]. *)
Definition is_run (used : Z -> bool) (limit s c : Z) : Prop :=
  0 <= s /\ 0 <= c /\ s + c <= limit /\ forall i, s <= i < s + c -> used i = false.

(** [c] is the length of the longest run of free blocks. *)
Definition longest_run (used : Z -> bool) (limit c : Z) : Prop :=
  (exists s, is_run used limit s c) /\ forall s c', is_run used limit s c' -> c' <= c.

Definition used_count (used : Z -> bool) (limit : Z) : Z :=
  Z.of_nat (length (List.filter used (seqZ 0 limit))).

(** *** Single bits *)

Lemma bit_get_testbit bm i : bit_get bm i = Z.testbit (nth (Z.to_nat (i / 8)) bm 0) (i mod 8).
Proof.
  unfold bit_get. set (b := nth _ _ _). set (k := i mod 8).
  assert (0 <= k < 8) as Hk by (apply Z.mod_pos_bound; lia).
  destruct (Z.testbit b k) eqn:Ht.
  - destruct (Z.eqb_spec (Z.land b (Z.shiftl 1 k)) 0) as [H|]; [|done].
    apply (f_equal (fun z => Z.testbit z k)) in H.
    rewrite Z.land_spec, Z.shiftl_1_l, Z.pow2_bits_true, Ht, Z.bits_0 in H by lia. done.
  - destruct (Z.eqb_spec (Z.land b (Z.shiftl 1 k)) 0) as [|H]; [done|].
    exfalso. apply H. apply Z.bits_inj'. intros j Hj.
    rewrite Z.land_spec, Z.shiftl_1_l, Z.bits_0.
    destruct (decide (j = k)) as [->|]; [by rewrite Ht|].
    rewrite Z.pow2_bits_false by lia. apply andb_false_r.
Qed.

Lemma length_bit_set bm i : length (bit_set bm i) = length bm.
Proof. apply length_insert. Qed.

Lemma bit_get_set bm i j :
  0 <= i -> 0 <= j -> i < 8 * Z.of_nat (length bm) ->
  bit_get (bit_set bm i) j = bool_decide (i = j) || bit_get bm j.
Proof.
  intros Hi Hj Hl. rewrite !bit_get_testbit. unfold bit_set.
  assert (i / 8 < Z.of_nat (length bm)) by (apply Z.div_lt_upper_bound; lia).
  assert (0 <= i / 8 /\ 0 <= j / 8) by (split; apply Z.div_pos; lia).
  pose proof (Z.mod_pos_bound i 8 ltac:(lia)). pose proof (Z.mod_pos_bound j 8 ltac:(lia)).
  pose proof (Z.div_mod i 8 ltac:(lia)). pose proof (Z.div_mod j 8 ltac:(lia)).
  rewrite !nth_lookup.
  destruct (decide (i / 8 = j / 8)) as [He|He].
  - rewrite He, list_lookup_insert_eq by lia.
    change (default 0 (Some ?x)) with x. unfold u8, wrap.
    rewrite Z.mod_pow2_bits_low, Z.lor_spec, Z.shiftl_1_l by lia.
    destruct (decide (i mod 8 = j mod 8)) as [Hm|Hm].
    + rewrite Hm, Z.pow2_bits_true by lia.
      rewrite bool_decide_eq_true_2 by lia. apply orb_true_r.
    + rewrite Z.pow2_bits_false by lia. rewrite bool_decide_eq_false_2 by congruence.
      apply orb_false_r.
  - rewrite list_lookup_insert_ne by lia.
    rewrite bool_decide_eq_false_2; [done|]. intros ->. done.
Qed.

Lemma bit_set_ok bm i : bytes_ok bm -> bytes_ok (bit_set bm i).
Proof. intros H. apply Forall_insert; [done|]. apply wrap_range. lia. Qed.

Lemma length_bit_set_range bm s c : length (bit_set_range bm s c) = length bm.
Proof.
  unfold bit_set_range. generalize (seqZ s c) as l. intros l. revert bm.
  induction l as [|i l IH]; intros bm; simpl; [done|]. by rewrite IH, length_bit_set.
Qed.

Lemma bit_set_range_ok bm s c : bytes_ok bm -> bytes_ok (bit_set_range bm s c).
Proof.
  unfold bit_set_range. generalize (seqZ s c) as l. intros l. revert bm.
  induction l as [|i l IH]; intros bm H; simpl; [done|]. by apply IH, bit_set_ok.
Qed.

Lemma bit_get_set_range bm s c j :
  0 <= s -> 0 <= j -> s + c <= 8 * Z.of_nat (length bm) ->
  bit_get (bit_set_range bm s c) j = bool_decide (s <= j < s + c) || bit_get bm j.
Proof.
  intros Hs Hj Hl. unfold bit_set_range.
  destruct (decide (0 <= c)) as [Hc|Hc].
  2:{ rewrite seqZ_nil by lia. rewrite bool_decide_eq_false_2 by lia. done. }
  destruct (Z_of_nat_complete c Hc) as [n ->]. clear Hc. revert Hl.
  induction n as [|n IH]; intros Hl.
  { rewrite bool_decide_eq_false_2 by lia. done. }
  rewrite seqZ_S, fold_left_app. cbn [fold_left].
  rewrite bit_get_set; [|lia..|].
  - rewrite IH by lia. rewrite orb_assoc. f_equal.
    repeat case_bool_decide; (done || lia).
  - pose proof (length_bit_set_range bm s (Z.of_nat n)) as H. unfold bit_set_range in H. rewrite H. lia.
Qed.

(** *** The search finds the longest run *)

Lemma free_run_spec used limit fuel i count :
  limit - i <= Z.of_nat fuel ->
  exists n, free_run fuel used limit i count = (count + n, i + n) /\ 0 <= n /\
    (forall j, i <= j < i + n -> used j = false) /\
    (i <= limit -> i + n <= limit) /\ (limit <= i + n \/ used (i + n) = true).
Proof.
  revert i count. induction fuel as [|fuel IH]; intros i count Hf; cbn [free_run].
  { exists 0. rewrite !Z.add_0_r. repeat split; [lia..|]. left. lia. }
  destruct (Z.ltb_spec i limit).
  2:{ exists 0. rewrite !Z.add_0_r. repeat split; [lia..|]. left. lia. }
  destruct (used i) eqn:Hu.
  { exists 0. rewrite !Z.add_0_r. repeat split; [lia..|]. by right. }
  destruct (IH (i + 1) (count + 1) ltac:(lia)) as (n & -> & Hn & Hfree & Hle & Hend).
  exists (n + 1). replace (count + (n + 1)) with (count + 1 + n) by lia.
  replace (i + (n + 1)) with (i + 1 + n) by lia.
  repeat split; [lia| |lia|done].
  intros j Hj. destruct (decide (j = i)) as [->|]; [done|]. apply Hfree. lia.
Qed.

Lemma largest_extent_spec used limit fuel i bs bc :
  limit - i <= Z.of_nat fuel -> 0 <= i -> is_run used limit bs bc ->
  (forall s c, is_run used limit s c -> s < i -> c <= bc) ->
  let '(s, c) := largest_extent fuel used limit i bs bc in
  is_run used limit s c /\ forall s' c', is_run used limit s' c' -> c' <= c.
Proof.
  revert i bs bc. induction fuel as [|fuel IH]; intros i bs bc Hf Hi Hb Hmax; cbn [largest_extent].
  { split; [done|]. intros s c Hr. destruct (decide (s < i)); [by eapply Hmax|].
    destruct Hr as (_ & _ & Hr & _). destruct Hb as (_ & Hb & _). lia. }
  destruct (Z.ltb_spec i limit).
  2:{ split; [done|]. intros s c Hr. destruct (decide (s < i)); [by eapply Hmax|].
      destruct Hr as (_ & _ & Hr & _). destruct Hb as (_ & Hb & _). lia. }
  destruct (used i) eqn:Hu.
  { apply IH; [lia..|done|]. intros s c Hr Hs.
    destruct (decide (s < i)); [by eapply Hmax|].
    destruct Hr as (_ & Hc & _ & Hfree). destruct Hb as (_ & Hb & _).
    destruct (decide (c = 0)) as [->|]; [done|].
    rewrite Hfree in Hu by lia. done. }
  destruct (free_run_spec used limit (S fuel) i 0 ltac:(lia)) as (n & Hfr & Hn & Hfree & Hle & Hend).
  rewrite Z.add_0_l in Hfr. rewrite Hfr.
  assert (1 <= n) as Hn1.
  { destruct (decide (n = 0)) as [->|]; [|lia]. rewrite Z.add_0_r in Hend.
    destruct Hend; [lia|congruence]. }
  assert (forall s c, is_run used limit s c -> i <= s -> s < i + n -> c <= n) as Hin.
  { intros s c (_ & Hc & Hl & Hr) Hs1 Hs2. destruct Hend as [|Hue]; [lia|].
    destruct (decide (i + n < s + c)); [|lia]. rewrite Hr in Hue by lia. done. }
  destruct (Z.ltb_spec bc n); apply IH; [lia|lia| | |lia|lia|done|].
  - split_and!; [lia..|]. done.
  - intros s c Hr Hs. destruct (decide (s < i)); [specialize (Hmax s c Hr); lia|].
    apply (Hin s c Hr); lia.
  - intros s c Hr Hs. destruct (decide (s < i)); [by eapply Hmax|].
    specialize (Hin s c Hr). lia.
Qed.

Lemma find_largest_extent_spec bm limit s c :
  0 <= limit -> find_largest_extent bm limit = (s, c) ->
  is_run (bit_get bm) limit s c /\ longest_run (bit_get bm) limit c.
Proof.
  intros Hl H. unfold find_largest_extent in H.
  pose proof (largest_extent_spec (bit_get bm) limit (Z.to_nat limit) 0 0 0 ltac:(lia) ltac:(lia)) as Hs.
  rewrite H in Hs. destruct Hs as [Hr Hm].
  - split_and!; [lia..|]. intros; lia.
  - intros s' c' (? & _) ?. lia.
  - split; [done|]. split; [by exists s|done].
Qed.

Lemma longest_run_unique used limit c1 c2 :
  longest_run used limit c1 -> longest_run used limit c2 -> c1 = c2.
Proof. intros [[s1 H1] M1] [[s2 H2] M2]. specialize (M1 _ _ H2). specialize (M2 _ _ H1). lia. Qed.

(** *** Counting *)

Lemma used_count_ext used used' limit :
  (forall i, 0 <= i < limit -> used i = used' i) -> used_count used limit = used_count used' limit.
Proof.
  intros H. unfold used_count. do 2 f_equal.
  assert (forall i, In i (seqZ 0 limit) -> used i = used' i) as Hin.
  { intros i Hi. apply H. apply In_seqZ in Hi. lia. }
  revert Hin. generalize (seqZ 0 limit). intros l. induction l as [|x l IH]; intros Hin; [done|].
  simpl. rewrite (Hin x) by (by left). rewrite IH by (intros; apply Hin; by right). done.
Qed.

Lemma filter_seqZ_split (f : Z -> bool) a b :
  0 <= a <= b ->
  List.filter f (seqZ 0 b) = List.filter f (seqZ 0 a) ++ List.filter f (seqZ a (b - a)).
Proof.
  intros H. replace (seqZ 0 b) with (seqZ 0 (a + (b - a))) by (f_equal; lia).
  rewrite seqZ_app, filter_app by lia. done.
Qed.

Lemma filter_length_const (f : Z -> bool) (v : bool) l :
  (forall i, In i l -> f i = v) -> length (List.filter f l) = if v then length l else O.
Proof.
  intros H. induction l as [|x l IH]; [by destruct v|]. simpl.
  rewrite (H x) by (by left). specialize (IH ltac:(intros; apply H; by right)).
  destruct v; simpl; congruence.
Qed.

(** Marking a free run as used adds exactly its length. *)
Lemma used_count_range used used' limit s c :
  is_run used limit s c ->
  (forall i, 0 <= i < limit -> used' i = bool_decide (s <= i < s + c) || used i) ->
  used_count used' limit = used_count used limit + c.
Proof.
  intros (Hs & Hc & Hl & Hfree) Hext. rewrite (used_count_ext used' _ limit Hext).
  unfold used_count. set (f := fun i => bool_decide (s <= i < s + c) || used i).
  rewrite !(filter_seqZ_split _ s limit) by lia.
  assert (seqZ s (limit - s) = seqZ s c ++ seqZ (s + c) (limit - s - c)) as ->.
  { rewrite <- (seqZ_app s c (limit - s - c)) by lia. f_equal. lia. }
  rewrite !filter_app, !length_app.
  assert (forall l, (forall i, In i l -> f i = used i) ->
            length (List.filter f l) = length (List.filter used l)) as Hsame.
  { intros l Hl'. induction l as [|x l IH]; [done|]. simpl. rewrite (Hl' x) by (by left).
    specialize (IH ltac:(intros; apply Hl'; by right)). destruct (used x); simpl; congruence. }
  assert (forall i n m, In i (seqZ n m) -> n <= i < n + m) as Hin.
  { intros i n m Hi. by apply In_seqZ in Hi. }
  rewrite (Hsame (seqZ 0 s)).
  2:{ intros i Hi. apply Hin in Hi. unfold f. rewrite bool_decide_eq_false_2 by lia. done. }
  rewrite (Hsame (seqZ (s + c) _)).
  2:{ intros i Hi. apply Hin in Hi. unfold f. rewrite bool_decide_eq_false_2 by lia. done. }
  rewrite (filter_length_const f true (seqZ s c)).
  2:{ intros i Hi. apply Hin in Hi. unfold f. rewrite bool_decide_eq_true_2 by lia. done. }
  rewrite (filter_length_const used false (seqZ s c)).
  2:{ intros i Hi. apply Hin in Hi. apply Hfree. lia. }
  rewrite length_seqZ. lia.
Qed.

Lemma used_count_bound used limit : 0 <= limit -> 0 <= used_count used limit <= limit.
Proof.
  intros H. unfold used_count. pose proof (filter_length_le used (seqZ 0 limit)) as Hl.
  rewrite length_seqZ in Hl. lia.
Qed.

(** All blocks are used exactly when no run of free blocks is left. *)
Lemma used_count_full used limit c :
  0 <= limit -> longest_run used limit c -> (c = 0 <-> used_count used limit = limit).
Proof.
  intros Hl [[s (Hs & Hc & Hle & Hfree)] Hmax].
  assert (forall i, 0 <= i < limit -> c = 0 -> used i = true) as Hall.
  { intros i Hi ->. destruct (used i) eqn:Hu; [done|].
    specialize (Hmax i 1). assert (1 <= 0); [|lia]. apply Hmax.
    split_and!; [lia..|]. intros j Hj. by replace j with i by lia. }
  split.
  - intros Hz. unfold used_count. rewrite (filter_length_const used true).
    + rewrite length_seqZ. lia.
    + intros i Hi. apply Hall; [|done]. apply In_seqZ in Hi. lia.
  - intros Hfull. destruct (decide (c = 0)); [done|exfalso].
    pose proof (used_count_range used (fun i => bool_decide (s <= i < s + c) || used i) limit s c) as H.
    specialize (H ltac:(split_and!; done) ltac:(done)).
    pose proof (used_count_bound (fun i => bool_decide (s <= i < s + c) || used i) limit Hl). lia.
Qed.

(** ** Groups *)

Section Alloc.
Context {D : Type} {dev : BlockDevice D}.

(** Member [f] of [groupDescriptorTable[k]]. *)
Definition gd (k : Z) (f : field) : field := shift_field (GroupDescriptor.sizeof * Z.to_nat k) f.

(** First search: the first group whose [largestExtent] is enough.  Groups never
    used before get theirs filled in on the way. *)
Fixpoint find_group_extent (groups : list Z) (sb gdt : bytes) (increaseBlocks : Z)
  : bytes * option Z :=
  match groups with
  | [] => (gdt, None)
  | i :: rest =>
      let gdt := if gdt.[gd i GroupDescriptor.blocksUsed] =? 0
                 then gdt.[gd i GroupDescriptor.largestExtent :=
                             u64 (sb.[Superblock.blocksPerGroup] - sb.[Superblock.blocksPerGroupBlockBitmap])]
                 else gdt in
      if increaseBlocks <=? gdt.[gd i GroupDescriptor.largestExtent]
      then (gdt, Some i) else find_group_extent rest sb gdt increaseBlocks
  end.

(** Second search: a group with enough free blocks in total.  Third search: a
    group with any free block. *)
Definition find_group_total (groups : list Z) (sb gdt : bytes) (increaseBlocks : Z) : option Z :=
  List.find (fun i => increaseBlocks <=?
    u32 (sb.[Superblock.blocksPerGroup] - gdt.[gd i GroupDescriptor.blocksUsed])) groups.

Definition find_group_any (groups : list Z) (sb gdt : bytes) : option Z :=
  List.find (fun i => negb (sb.[Superblock.blocksPerGroup] =? gdt.[gd i GroupDescriptor.blocksUsed])) groups.

Definition find_target (sb gdt : bytes) (increaseBlocks : Z) : bytes * option Z :=
  let groups := seqZ 0 sb.[Superblock.groupCount] in
  let '(gdt, target) := find_group_extent groups sb gdt increaseBlocks in
  match target with
  | Some k => (gdt, Some k)
  | None =>
      match find_group_total groups sb gdt increaseBlocks with
      | Some k => (gdt, Some k)
      | None => (gdt, find_group_any groups sb gdt)
      end
  end.

(** The bitmap of a group that has none yet: only its own blocks are used. *)
Definition fresh_bitmap (sb : bytes) : bytes :=
  bit_set_range
    (replicate (Z.to_nat (sb.[Superblock.blocksPerGroupBlockBitmap] * sb.[Superblock.blockSize])) 0)
    0 sb.[Superblock.blocksPerGroupBlockBitmap].

(** Load the bitmap of the target group, or set the group up. *)
Definition load_bitmap (k : Z) : M (esfs D) bytes :=
  let! s := get in
  let sb := superblock s in
  let gdt := groupDescriptorTable s in
  if negb (gdt.[gd k GroupDescriptor.blockBitmap] =? 0) then
    ReadBlock gdt.[gd k GroupDescriptor.blockBitmap] sb.[Superblock.blocksPerGroupBlockBitmap]
  else
    let gdt := gdt.[gd k GroupDescriptor.blockBitmap := sb.[Superblock.blocksPerGroup] * k] in
    let gdt := gdt.[gd k GroupDescriptor.blocksUsed := sb.[Superblock.blocksPerGroupBlockBitmap]] in
    modify (set_gdt gdt) ;;;
    ret (fresh_bitmap sb).

(** The descriptor's counters after an allocation of [extentCount] blocks, and its
    two checksums. *)
Definition update_descriptor (gdt : bytes) (k extentCount largest : Z) : bytes :=
  let gdt := gdt.[gd k GroupDescriptor.blocksUsed :=
                    u32 (gdt.[gd k GroupDescriptor.blocksUsed] + extentCount)] in
  gdt.[gd k GroupDescriptor.largestExtent := largest].

Definition update_checksums (gdt : bytes) (k : Z) (bitmap : bytes) : bytes :=
  let gdt := gdt.[gd k GroupDescriptor.bitmapChecksum := CalculateCRC32 bitmap 0] in
  let gdt := gdt.[gd k GroupDescriptor.checksum := 0] in
  gdt.[gd k GroupDescriptor.checksum :=
         CalculateCRC32 (slice (GroupDescriptor.sizeof * Z.to_nat k) GroupDescriptor.sizeof gdt) 0].

Definition AllocateExtent (increaseBlocks : Z) : M (esfs D) (Z * Z) :=
  let! s := get in
  let sb := superblock s in
  let bpg := sb.[Superblock.blocksPerGroup] in
  let '(gdt, target) := find_target sb (groupDescriptorTable s) increaseBlocks in
  modify (set_gdt gdt) ;;;
  match target with
  | None => stop FatalError
  | Some k =>
    let! bitmap := load_bitmap k in
    let '(largestExtentStart, largestExtentCount) := find_largest_extent bitmap bpg in
    let! s1 := get in
    let gdt := groupDescriptorTable s1 in
    assert (largestExtentCount =? gdt.[gd k GroupDescriptor.largestExtent]) ;;;
    let extentCount := if increaseBlocks <? largestExtentCount then increaseBlocks
                       else largestExtentCount in
    let bitmap := bit_set_range bitmap largestExtentStart extentCount in
    let '(_, largestExtentCount) := find_largest_extent bitmap bpg in
    let gdt := update_descriptor gdt k extentCount largestExtentCount in
    assert ((bpg =? gdt.[gd k GroupDescriptor.blocksUsed])
            || negb (gdt.[gd k GroupDescriptor.largestExtent] =? 0)) ;;;
    let gdt := update_checksums gdt k bitmap in
    modify (set_gdt gdt) ;;;
    WriteBlock gdt.[gd k GroupDescriptor.blockBitmap] sb.[Superblock.blocksPerGroupBlockBitmap] bitmap ;;;
    modify (fun s => set_superblock
      (superblock s).[Superblock.blocksUsed :=
                        u64 ((superblock s).[Superblock.blocksUsed] + extentCount)] s) ;;;
    ret (u64 (largestExtentStart + k * bpg), extentCount)
  end.

(** ** Invariant of a mounted volume's allocation state *)

(** The bytes of [groupDescriptorTable[k]]. *)
Definition gdesc (gdt : bytes) (k : Z) : bytes :=
  slice (GroupDescriptor.sizeof * Z.to_nat k) GroupDescriptor.sizeof gdt.

(** Where the group's bitmap is, or will be once the group is set up. *)
Definition bitmap_block (sb d : bytes) (k : Z) : Z :=
  if d.[GroupDescriptor.blockBitmap] =? 0 then sb.[Superblock.blocksPerGroup] * k
  else d.[GroupDescriptor.blockBitmap].

Definition stored_bitmap (s : esfs D) (block : Z) : bytes :=
  dev_bytes (drive s) (block * blockSize s)
    (blockSize s * (superblock s).[Superblock.blocksPerGroupBlockBitmap]).

(** Which blocks of group [k] are in use. *)
Definition group_bits (s : esfs D) (k : Z) : Z -> bool :=
  let d := gdesc (groupDescriptorTable s) k in
  if d.[GroupDescriptor.blockBitmap] =? 0 then bit_get (fresh_bitmap (superblock s))
  else bit_get (stored_bitmap s d.[GroupDescriptor.blockBitmap]).

(** Whether block [b] of the volume is in use. *)
Definition block_used (s : esfs D) (b : Z) : bool :=
  let bpg := (superblock s).[Superblock.blocksPerGroup] in group_bits s (b / bpg) (b mod bpg).

Record geometry_ok (s : esfs D) : Prop := {
  geo_sb : length (superblock s) = Superblock.sizeof;
  geo_bs : blockSize s = (superblock s).[Superblock.blockSize];
  geo_bs_pos : 0 < blockSize s;
  geo_bpg : 0 < (superblock s).[Superblock.blocksPerGroup] < 2 ^ 32;
  geo_bitmap : 0 < (superblock s).[Superblock.blocksPerGroupBlockBitmap]
               < (superblock s).[Superblock.blocksPerGroup];
  geo_bits : (superblock s).[Superblock.blocksPerGroup]
             <= 8 * (blockSize s * (superblock s).[Superblock.blocksPerGroupBlockBitmap]);
  geo_groups : 0 <= (superblock s).[Superblock.groupCount];
  geo_blocks : (superblock s).[Superblock.groupCount] * (superblock s).[Superblock.blocksPerGroup] < 2 ^ 64;
  geo_gdt : (GroupDescriptor.sizeof * Z.to_nat (superblock s).[Superblock.groupCount]
             <= length (groupDescriptorTable s))%nat;
  geo_dev : dev_size (drive s) < 2 ^ 64 }.

Record group_ok (s : esfs D) (k : Z) : Prop := {
  go_used : (gdesc (groupDescriptorTable s) k).[GroupDescriptor.blocksUsed]
    = if (gdesc (groupDescriptorTable s) k).[GroupDescriptor.blockBitmap] =? 0 then 0
      else used_count (group_bits s k) (superblock s).[Superblock.blocksPerGroup];
  go_started : (gdesc (groupDescriptorTable s) k).[GroupDescriptor.blockBitmap] <> 0 ->
    (gdesc (groupDescriptorTable s) k).[GroupDescriptor.blocksUsed] <> 0;
  go_largest : (gdesc (groupDescriptorTable s) k).[GroupDescriptor.blockBitmap] <> 0 ->
    longest_run (group_bits s k) (superblock s).[Superblock.blocksPerGroup]
      (gdesc (groupDescriptorTable s) k).[GroupDescriptor.largestExtent];
  go_region : 0 < bitmap_block (superblock s) (gdesc (groupDescriptorTable s) k) k < 2 ^ 32
    /\ (bitmap_block (superblock s) (gdesc (groupDescriptorTable s) k) k
        + (superblock s).[Superblock.blocksPerGroupBlockBitmap]) * blockSize s <= dev_size (drive s) }.

Definition bitmaps_disjoint (s : esfs D) : Prop :=
  forall j k, 0 <= j < (superblock s).[Superblock.groupCount] ->
  0 <= k < (superblock s).[Superblock.groupCount] -> j <> k ->
  let bj := bitmap_block (superblock s) (gdesc (groupDescriptorTable s) j) j in
  let bk := bitmap_block (superblock s) (gdesc (groupDescriptorTable s) k) k in
  bj + (superblock s).[Superblock.blocksPerGroupBlockBitmap] <= bk
  \/ bk + (superblock s).[Superblock.blocksPerGroupBlockBitmap] <= bj.

Record alloc_ok (s : esfs D) : Prop := {
  ao_geometry : geometry_ok s;
  ao_groups : forall k, 0 <= k < (superblock s).[Superblock.groupCount] -> group_ok s k;
  ao_disjoint : bitmaps_disjoint s }.

(** *** Reading and writing descriptors *)

Definition gd_member (f : field) : Prop := field_in f GroupDescriptor.sizeof.

Lemma getf_gd gdt k f : gd_member f -> gdt.[gd k f] = (gdesc gdt k).[f].
Proof. intros. unfold gdesc, gd. by rewrite getf_slice. Qed.

Lemma gd_in (gdt : bytes) k n f :
  0 <= k < n -> gd_member f -> (GroupDescriptor.sizeof * Z.to_nat n <= length gdt)%nat ->
  field_in (gd k f) (length gdt).
Proof.
  intros Hk Hf Hl. unfold gd_member, field_in, gd, shift_field, GroupDescriptor.sizeof in *.
  cbn [f_off f_size]. lia.
Qed.

Lemma length_gdesc gdt k n :
  0 <= k < n -> (GroupDescriptor.sizeof * Z.to_nat n <= length gdt)%nat ->
  length (gdesc gdt k) = GroupDescriptor.sizeof.
Proof. intros. apply length_slice. unfold GroupDescriptor.sizeof in *. lia. Qed.

Lemma gdesc_set_same gdt k n f v :
  0 <= k < n -> gd_member f -> (GroupDescriptor.sizeof * Z.to_nat n <= length gdt)%nat ->
  gdesc gdt.[gd k f := v] k = (gdesc gdt k).[f := v].
Proof.
  intros Hk Hf Hl. pose proof (length_gdesc gdt k n Hk Hl) as Hlen.
  pose proof (gd_in gdt k n f Hk Hf Hl) as Hin.
  unfold gdesc, setf, gd_member, field_in, gd, shift_field in *. cbn [f_off f_size] in *.
  apply list_eq. intros i. rewrite lookup_slice.
  rewrite (lookup_blit (f_off f)) by (rewrite length_le_split, Hlen; lia).
  rewrite length_le_split, lookup_slice.
  case_decide as Hi.
  - rewrite lookup_blit by (rewrite length_le_split; lia). rewrite length_le_split.
    case_decide; case_decide; try lia; [|done]. f_equal. lia.
  - case_decide; [lia|]. done.
Qed.

Lemma gdesc_set_other gdt k j n f v :
  0 <= k < n -> 0 <= j -> j <> k -> gd_member f ->
  (GroupDescriptor.sizeof * Z.to_nat n <= length gdt)%nat ->
  gdesc gdt.[gd k f := v] j = gdesc gdt j.
Proof.
  intros Hk Hj Hne Hf Hl. unfold gdesc. apply slice_setf_other.
  - by eapply gd_in.
  - unfold gd_member, field_in, gd, shift_field, GroupDescriptor.sizeof in *. cbn [f_off f_size]. lia.
Qed.

(** *** Choosing a group *)

(** What the searches may change: [largestExtent] of groups not yet used, to [w]. *)
Definition gdt_step (w n : Z) (gdt gdt' : bytes) : Prop :=
  length gdt' = length gdt /\
  forall k, 0 <= k < n ->
    (gdesc gdt' k).[GroupDescriptor.blocksUsed] = (gdesc gdt k).[GroupDescriptor.blocksUsed] /\
    (gdesc gdt' k).[GroupDescriptor.blockBitmap] = (gdesc gdt k).[GroupDescriptor.blockBitmap] /\
    (gdesc gdt' k = gdesc gdt k \/
     (gdesc gdt k).[GroupDescriptor.blocksUsed] = 0 /\
     (gdesc gdt' k).[GroupDescriptor.largestExtent] = w).

Lemma gdt_step_refl w n gdt : gdt_step w n gdt gdt.
Proof. split; [done|]. auto. Qed.

Lemma gdt_step_trans w n g1 g2 g3 : gdt_step w n g1 g2 -> gdt_step w n g2 g3 -> gdt_step w n g1 g3.
Proof.
  intros [L1 H1] [L2 H2]. split; [congruence|]. intros k Hk.
  destruct (H1 k Hk) as (U1 & B1 & C1), (H2 k Hk) as (U2 & B2 & C2).
  split; [congruence|]. split; [congruence|].
  destruct C2 as [->|[C2 ?]]; [done|]. right. rewrite <- U1. done.
Qed.

(** The value the first search stores for an unused group. *)
Definition fresh_extent (sb : bytes) : Z :=
  u64 (sb.[Superblock.blocksPerGroup] - sb.[Superblock.blocksPerGroupBlockBitmap]) mod 2 ^ 32.

Definition ready (w : Z) (gdt : bytes) (k : Z) : Prop :=
  (gdesc gdt k).[GroupDescriptor.blocksUsed] = 0 -> (gdesc gdt k).[GroupDescriptor.largestExtent] = w.

Lemma ready_step w n gdt gdt' k : 0 <= k < n -> gdt_step w n gdt gdt' -> ready w gdt k -> ready w gdt' k.
Proof.
  intros Hk [_ H] Hr. destruct (H k Hk) as (U & _ & [He|[_ He]]); unfold ready; [by rewrite He|done].
Qed.

Ltac gd_mem := unfold gd_member, field_in; vm_compute; lia.

Lemma set_largest_step sb n gdt k :
  0 <= k < n -> (GroupDescriptor.sizeof * Z.to_nat n <= length gdt)%nat ->
  (gdesc gdt k).[GroupDescriptor.blocksUsed] = 0 ->
  let gdt' := gdt.[gd k GroupDescriptor.largestExtent :=
    u64 (sb.[Superblock.blocksPerGroup] - sb.[Superblock.blocksPerGroupBlockBitmap])] in
  gdt_step (fresh_extent sb) n gdt gdt' /\ ready (fresh_extent sb) gdt' k.
Proof.
  intros Hk Hl Hu gdt'. pose proof (length_gdesc gdt k n Hk Hl) as Hlen.
  assert (gdesc gdt' k = (gdesc gdt k).[GroupDescriptor.largestExtent :=
    u64 (sb.[Superblock.blocksPerGroup] - sb.[Superblock.blocksPerGroupBlockBitmap])]) as Hk'.
  { apply (gdesc_set_same _ _ n); [done|gd_mem|done]. }
  assert ((gdesc gdt' k).[GroupDescriptor.largestExtent] = fresh_extent sb) as Hlarge.
  { rewrite Hk'. rewrite getf_setf_same; [done|]. rewrite Hlen. gd_mem. }
  split; [|by intros _]. split.
  { apply length_setf. eapply gd_in; [done|gd_mem|done]. }
  intros j Hj. destruct (decide (j = k)) as [->|Hne].
  - rewrite Hk' in *.
    rewrite !(getf_setf_other _ _ GroupDescriptor.largestExtent) by
      (rewrite ?Hlen; unfold field_in, field_disjoint; vm_compute; lia).
    auto.
  - assert (gdesc gdt' j = gdesc gdt j) as ->; [|by auto].
    apply (gdesc_set_other _ _ _ n); [done|lia|done|gd_mem|done].
Qed.

Lemma find_group_extent_spec sb need n groups gdt gdt' t :
  Forall (fun i => 0 <= i < n) groups ->
  (GroupDescriptor.sizeof * Z.to_nat n <= length gdt)%nat ->
  find_group_extent groups sb gdt need = (gdt', t) ->
  gdt_step (fresh_extent sb) n gdt gdt' /\
  match t with
  | Some k => k ∈ groups /\ ready (fresh_extent sb) gdt' k /\
              need <= (gdesc gdt' k).[GroupDescriptor.largestExtent]
  | None => forall k, k ∈ groups -> ready (fresh_extent sb) gdt' k
  end.
Proof.
  intros Hg. revert gdt. induction Hg as [|i rest Hi Hg IH]; intros gdt Hl Hf; cbn [find_group_extent] in Hf.
  { injection Hf as <- <-. split; [apply gdt_step_refl|]. intros k Hk. by apply elem_of_nil in Hk. }
  set (gdt1 := if _ =? 0 then _ else gdt) in Hf.
  assert (gdt_step (fresh_extent sb) n gdt gdt1 /\ ready (fresh_extent sb) gdt1 i) as [Hstep Hready].
  { subst gdt1. rewrite (getf_gd gdt i GroupDescriptor.blocksUsed) by gd_mem.
    destruct (Z.eqb_spec (gdesc gdt i).[GroupDescriptor.blocksUsed] 0).
    - by apply set_largest_step.
    - split; [apply gdt_step_refl|]. intros ?. done. }
  clearbody gdt1. rewrite getf_gd in Hf by gd_mem.
  destruct (Z.leb_spec need (gdesc gdt1 i).[GroupDescriptor.largestExtent]).
  { injection Hf as <- <-. split; [done|]. split; [left|done]. }
  destruct (IH gdt1) as [Hstep' Ht]; [by rewrite (proj1 Hstep)|done|].
  split; [by eapply gdt_step_trans|].
  destruct t as [k|].
  - destruct Ht as (Hk & ?). split; [by right|done].
  - intros k [->|Hk]%elem_of_cons; [by eapply ready_step|by apply Ht].
Qed.

Lemma find_target_spec sb need n gdt gdt' t :
  sb.[Superblock.groupCount] = n ->
  (GroupDescriptor.sizeof * Z.to_nat n <= length gdt)%nat ->
  find_target sb gdt need = (gdt', t) ->
  gdt_step (fresh_extent sb) n gdt gdt' /\
  match t with
  | Some k => 0 <= k < n /\ ready (fresh_extent sb) gdt' k /\
      (need <= (gdesc gdt' k).[GroupDescriptor.largestExtent] \/
       need <= u32 (sb.[Superblock.blocksPerGroup] - (gdesc gdt' k).[GroupDescriptor.blocksUsed]) \/
       sb.[Superblock.blocksPerGroup] <> (gdesc gdt' k).[GroupDescriptor.blocksUsed])
  | None => forall k, 0 <= k < n ->
      (gdesc gdt' k).[GroupDescriptor.blocksUsed] = sb.[Superblock.blocksPerGroup]
  end.
Proof.
  intros Hn Hl Hf. unfold find_target in Hf. rewrite Hn in Hf.
  assert (Forall (fun i => 0 <= i < n) (seqZ 0 n)) as Hg.
  { apply Forall_forall. intros i Hi. apply In_seqZ in Hi. lia. }
  destruct (find_group_extent (seqZ 0 n) sb gdt need) as [gdt1 t1] eqn:Hfe.
  destruct (find_group_extent_spec _ _ _ _ _ _ _ Hg Hl Hfe) as [Hstep Ht].
  destruct t1 as [k|].
  { injection Hf as <- <-. split; [done|]. destruct Ht as (Hk & Hr & Hlg).
    apply elem_of_seqZ in Hk. split; [lia|]. auto. }
  assert (forall i, In i (seqZ 0 n) -> 0 <= i < n) as Hin.
  { intros i Hi. apply In_seqZ in Hi. lia. }
  destruct (find_group_total _ _ _ _) as [k|] eqn:Htot; unfold find_group_total in Htot.
  { injection Hf as <- <-. split; [done|]. apply find_some in Htot as [Hk Hle].
    rewrite getf_gd in Hle by gd_mem. split; [by apply Hin|].
    split; [by apply Ht, list_elem_of_In|]. right. left. lia. }
  injection Hf as <- <-. split; [done|].
  destruct (find_group_any _ _ _) as [k|] eqn:Hany; unfold find_group_any in Hany.
  - apply find_some in Hany as [Hk Hle].
    rewrite getf_gd in Hle by gd_mem. split; [by apply Hin|].
    split; [by apply Ht, list_elem_of_In|]. right. right. lia.
  - intros k Hk. eapply find_none in Hany; [|apply In_seqZ; instantiate (1 := k); lia].
    rewrite getf_gd in Hany by gd_mem. lia.
Qed.

Lemma group_bits_gdt s gdt' k :
  (gdesc gdt' k).[GroupDescriptor.blockBitmap]
  = (gdesc (groupDescriptorTable s) k).[GroupDescriptor.blockBitmap] ->
  group_bits (set_gdt gdt' s) k = group_bits s k.
Proof. intros H. unfold group_bits. cbn [groupDescriptorTable set_gdt superblock]. by rewrite H. Qed.

Lemma bitmap_block_gdt sb d d' k :
  d'.[GroupDescriptor.blockBitmap] = d.[GroupDescriptor.blockBitmap] ->
  bitmap_block sb d' k = bitmap_block sb d k.
Proof. intros H. unfold bitmap_block. by rewrite H. Qed.

(** The searches keep the invariant. *)
Lemma alloc_ok_step s gdt' w :
  alloc_ok s -> gdt_step w (superblock s).[Superblock.groupCount] (groupDescriptorTable s) gdt' ->
  alloc_ok (set_gdt gdt' s).
Proof.
  intros [Hgeo Hgr Hdis] [Hlen Hstep]. split; cbn [superblock set_gdt].
  - destruct Hgeo. split; cbn [superblock set_gdt groupDescriptorTable drive blockSize]; try done.
    by rewrite Hlen.
  - intros k Hk. destruct (Hstep k Hk) as (U & B & C). destruct (Hgr k Hk) as [H1 H2 H3 H4].
    split; cbn [superblock set_gdt groupDescriptorTable drive blockSize];
      rewrite ?U, ?B, ?(group_bits_gdt s gdt' k B); try done.
    + intros Hb. destruct C as [->|[C _]]; [by apply H3|]. by apply H2 in Hb.
    + by rewrite (bitmap_block_gdt _ _ _ k B).
  - intros j k Hj Hk Hne. cbn [superblock set_gdt groupDescriptorTable].
    rewrite (bitmap_block_gdt _ _ _ j (proj1 (proj2 (Hstep j Hj)))).
    rewrite (bitmap_block_gdt _ _ _ k (proj1 (proj2 (Hstep k Hk)))).
    by apply Hdis.
Qed.

(** *** The bitmap of a group that is being set up *)

Lemma bit_get_zeros n i : bit_get (replicate n 0) i = false.
Proof.
  rewrite bit_get_testbit, nth_lookup.
  destruct (replicate n 0 !! Z.to_nat (i / 8)) as [x|] eqn:H; simpl; [|apply Z.bits_0].
  apply lookup_replicate in H as [-> _]. apply Z.bits_0.
Qed.

Section Fresh.
Context (s : esfs D) (Hgeo : geometry_ok s).

Lemma length_fresh :
  Z.of_nat (length (fresh_bitmap (superblock s)))
  = blockSize s * (superblock s).[Superblock.blocksPerGroupBlockBitmap].
Proof.
  unfold fresh_bitmap. rewrite length_bit_set_range, length_replicate.
  destruct Hgeo. rewrite <- geo_bs0. lia.
Qed.

Lemma fresh_bits i :
  0 <= i -> bit_get (fresh_bitmap (superblock s)) i
            = bool_decide (i < (superblock s).[Superblock.blocksPerGroupBlockBitmap]).
Proof.
  intros Hi. destruct Hgeo. unfold fresh_bitmap. rewrite bit_get_set_range; [|lia..|].
  - rewrite bit_get_zeros, orb_false_r. repeat case_bool_decide; (done || lia).
  - rewrite length_replicate, <- geo_bs0. nia.
Qed.

Lemma fresh_used_count :
  used_count (bit_get (fresh_bitmap (superblock s))) (superblock s).[Superblock.blocksPerGroup]
  = (superblock s).[Superblock.blocksPerGroupBlockBitmap].
Proof.
  destruct Hgeo. set (b := (superblock s).[Superblock.blocksPerGroupBlockBitmap]) in *.
  rewrite (used_count_range (fun _ => false) _ _ 0 b).
  - unfold used_count. rewrite (filter_length_const _ false); [lia|done].
  - split_and!; [lia..|done].
  - intros i Hi. rewrite fresh_bits by lia. fold b. rewrite orb_false_r.
    repeat case_bool_decide; (done || lia).
Qed.

Lemma fresh_extent_eq :
  fresh_extent (superblock s)
  = (superblock s).[Superblock.blocksPerGroup] - (superblock s).[Superblock.blocksPerGroupBlockBitmap].
Proof.
  destruct Hgeo. unfold fresh_extent.
  rewrite u64_id, Z.mod_small by (unfold is_uint; lia). done.
Qed.

Lemma fresh_longest :
  longest_run (bit_get (fresh_bitmap (superblock s))) (superblock s).[Superblock.blocksPerGroup]
    (fresh_extent (superblock s)).
Proof.
  rewrite fresh_extent_eq. destruct Hgeo.
  set (b := (superblock s).[Superblock.blocksPerGroupBlockBitmap]) in *. split.
  - exists b. split_and!; [lia..|]. intros i Hi. rewrite fresh_bits by lia.
    apply bool_decide_eq_false_2. fold b. lia.
  - intros t c (Ht & Hc & Hle & Hfree). destruct (decide (c = 0)); [lia|].
    destruct (decide (t < b)); [|lia].
    specialize (Hfree t ltac:(lia)). rewrite fresh_bits in Hfree by lia.
    apply bool_decide_eq_false_1 in Hfree. lia.
Qed.
End Fresh.

(** *** Loading the bitmap *)

Lemma set_gdt_id (s : esfs D) : set_gdt (groupDescriptorTable s) s = s.
Proof. by destruct s. Qed.

Lemma length_stored (s : esfs D) b :
  geometry_ok s ->
  Z.of_nat (length (stored_bitmap s b))
  = blockSize s * (superblock s).[Superblock.blocksPerGroupBlockBitmap].
Proof. intros []. unfold stored_bitmap. rewrite length_dev_bytes. nia. Qed.

(** State of the descriptor of group [k] once its bitmap is loaded. *)
Definition loaded (s : esfs D) (k : Z) (gdt' : bytes) : Prop :=
  length gdt' = length (groupDescriptorTable s) /\
  (forall j, 0 <= j -> j <> k -> gdesc gdt' j = gdesc (groupDescriptorTable s) j) /\
  (gdesc gdt' k).[GroupDescriptor.blockBitmap]
    = bitmap_block (superblock s) (gdesc (groupDescriptorTable s) k) k /\
  (gdesc gdt' k).[GroupDescriptor.blocksUsed]
    = used_count (group_bits s k) (superblock s).[Superblock.blocksPerGroup] /\
  longest_run (group_bits s k) (superblock s).[Superblock.blocksPerGroup]
    (gdesc gdt' k).[GroupDescriptor.largestExtent].

Lemma load_bitmap_ok s k :
  alloc_ok s -> 0 <= k < (superblock s).[Superblock.groupCount] ->
  ready (fresh_extent (superblock s)) (groupDescriptorTable s) k ->
  exists bm gdt', load_bitmap k s = (Ok bm, set_gdt gdt' s) /\
    Z.of_nat (length bm) = blockSize s * (superblock s).[Superblock.blocksPerGroupBlockBitmap] /\
    group_bits s k = bit_get bm /\ loaded s k gdt'.
Proof.
  intros [Hgeo Hgr _] Hk Hready. destruct (Hgr k Hk) as [Hused Hst Hlg [Hreg1 Hreg2]].
  pose proof Hgeo as []. pose proof (length_gdesc _ _ _ Hk geo_gdt0) as Hlen.
  unfold load_bitmap, bind, get. rewrite getf_gd by gd_mem.
  set (d := gdesc (groupDescriptorTable s) k) in *.
  unfold bitmap_block in *. unfold loaded, bitmap_block. fold d.
  destruct (Z.eqb_spec d.[GroupDescriptor.blockBitmap] 0) as [Hz|Hz]; cbn [negb].
  - set (gdt1 := (groupDescriptorTable s).[gd k GroupDescriptor.blockBitmap := _]).
    set (gdt2 := gdt1.[gd k GroupDescriptor.blocksUsed := _]).
    assert (length gdt1 = length (groupDescriptorTable s)) as Hl1.
    { apply length_setf. eapply gd_in; [done|gd_mem|done]. }
    assert (GroupDescriptor.sizeof * Z.to_nat (superblock s).[Superblock.groupCount] <= length gdt1)%nat
      as Hg1 by lia.
    assert (length gdt2 = length gdt1) as Hl2.
    { apply length_setf. eapply gd_in; [done|gd_mem|done]. }
    assert (gdesc gdt2 k = d.[GroupDescriptor.blockBitmap := (superblock s).[Superblock.blocksPerGroup] * k]
                            .[GroupDescriptor.blocksUsed := (superblock s).[Superblock.blocksPerGroupBlockBitmap]]) as Hd2.
    { subst gdt2. rewrite (gdesc_set_same _ _ (superblock s).[Superblock.groupCount]) by (done || gd_mem).
      f_equal. apply (gdesc_set_same _ _ (superblock s).[Superblock.groupCount]); (done || gd_mem). }
    assert (group_bits s k = bit_get (fresh_bitmap (superblock s))) as Hbits.
    { unfold group_bits. fold d. by rewrite Hz. }
    exists (fresh_bitmap (superblock s)), gdt2. split; [done|].
    split; [by apply length_fresh|]. split; [done|]. split; [lia|].
    split.
    { intros j Hj Hne. subst gdt2.
      rewrite (gdesc_set_other _ _ _ (superblock s).[Superblock.groupCount]) by (done || gd_mem).
      apply (gdesc_set_other _ _ _ (superblock s).[Superblock.groupCount]); (done || gd_mem). }
    rewrite Hd2, Hbits.
    assert (field_in GroupDescriptor.blockBitmap (length d)) by (rewrite Hlen; gd_mem).
    split; [|split].
    + rewrite getf_setf_other, getf_setf_same;
        [|done|rewrite length_setf by done; rewrite Hlen; gd_mem|unfold field_disjoint; simpl; lia].
      apply Z.mod_small. simpl. lia.
    + rewrite getf_setf_same by (rewrite length_setf by done; rewrite Hlen; gd_mem).
      rewrite fresh_used_count by done. apply Z.mod_small. simpl. lia.
    + rewrite !getf_setf_other;
        [|done|unfold field_disjoint; simpl; lia|rewrite length_setf by done; rewrite Hlen; gd_mem
         |unfold field_disjoint; simpl; lia].
      unfold ready in Hready. fold d in Hready. rewrite Hready by done. by apply fresh_longest.
  - assert (group_bits s k = bit_get (stored_bitmap s d.[GroupDescriptor.blockBitmap])) as Hbits.
    { unfold group_bits. fold d. destruct (Z.eqb_spec d.[GroupDescriptor.blockBitmap] 0); done. }
    exists (stored_bitmap s d.[GroupDescriptor.blockBitmap]), (groupDescriptorTable s).
    rewrite set_gdt_id. split; [apply ReadBlock_ok; nia|].
    split; [by apply length_stored|]. split; [done|].
    fold d. split; [done|]. split; [done|]. split; [done|]. split; [done|]. by apply Hlg.
Qed.

(** *** Storing the result *)

Lemma dev_bytes_ext (d d' : D) off n :
  (forall a, off <= a < off + n -> dev_byte d' a = dev_byte d a) ->
  dev_bytes d' off n = dev_bytes d off n.
Proof.
  intros H. unfold dev_bytes. apply list_fmap_ext. intros i a Ha.
  apply H. apply lookup_seqZ in Ha. lia.
Qed.

Lemma dev_bytes_written (d' : D) off n (bm : bytes) :
  Z.of_nat (length bm) = n ->
  (forall a, off <= a < off + n -> dev_byte d' a = nth (Z.to_nat (a - off)) bm 0) ->
  dev_bytes d' off n = bm.
Proof.
  intros Hl H. unfold dev_bytes. apply list_eq. intros i. rewrite list_lookup_fmap.
  destruct (decide (i < length bm)%nat) as [Hi|Hi].
  - rewrite (proj2 (lookup_seqZ off n i (off + Z.of_nat i))) by lia.
    cbn [fmap option_fmap option_map]. rewrite H by lia.
    replace (Z.to_nat (off + Z.of_nat i - off)) with i by lia.
    rewrite nth_lookup. destruct (lookup_lt_is_Some_2 bm i Hi) as [x Hx]. by rewrite Hx.
  - rewrite (proj2 (lookup_ge_None (seqZ off n) i)) by (rewrite length_seqZ; lia).
    symmetry. apply lookup_ge_None. lia.
Qed.

(** The superblock with a new [blocksUsed] reads the same in every other member. *)
Lemma sb_used_other (sb : bytes) f v :
  length sb = Superblock.sizeof -> field_disjoint f Superblock.blocksUsed ->
  sb.[Superblock.blocksUsed := v].[f] = sb.[f].
Proof.
  intros Hl Hd. apply getf_setf_other; [|done].
  unfold field_in. rewrite Hl. unfold Superblock.sizeof. cbn [f_off f_size Superblock.blocksUsed]. lia.
Qed.

Section Commit.
Context (s : esfs D) (k v : Z) (gdt' : bytes) (d' : D) (bm : bytes).
Hypothesis Hok : alloc_ok s.
Hypothesis Hk : 0 <= k < (superblock s).[Superblock.groupCount].
Hypothesis Hlen : length gdt' = length (groupDescriptorTable s).
Hypothesis Hother : forall j, 0 <= j -> j <> k -> gdesc gdt' j = gdesc (groupDescriptorTable s) j.
Let bb := bitmap_block (superblock s) (gdesc (groupDescriptorTable s) k) k.
Let n := blockSize s * (superblock s).[Superblock.blocksPerGroupBlockBitmap].
Hypothesis Hbb : (gdesc gdt' k).[GroupDescriptor.blockBitmap] = bb.
Hypothesis Hused : (gdesc gdt' k).[GroupDescriptor.blocksUsed]
  = used_count (bit_get bm) (superblock s).[Superblock.blocksPerGroup].
Hypothesis Hused0 : (gdesc gdt' k).[GroupDescriptor.blocksUsed] <> 0.
Hypothesis Hlargest : longest_run (bit_get bm) (superblock s).[Superblock.blocksPerGroup]
  (gdesc gdt' k).[GroupDescriptor.largestExtent].
Hypothesis Hbm : Z.of_nat (length bm) = n.
Hypothesis Hsize : dev_size d' = dev_size (drive s).
Hypothesis Hbytes : forall a, dev_byte d' a =
  if decide (bb * blockSize s <= a < bb * blockSize s + n)
  then nth (Z.to_nat (a - bb * blockSize s)) bm 0 else dev_byte (drive s) a.

Let sb' := (superblock s).[Superblock.blocksUsed := v].
Let s' := set_superblock sb' (set_drive d' (set_gdt gdt' s)).

Lemma commit_sb f :
  field_disjoint f Superblock.blocksUsed -> (superblock s').[f] = (superblock s).[f].
Proof. intros. apply sb_used_other; [|done]. apply Hok. Qed.

Ltac sb_same := repeat rewrite commit_sb by (unfold field_disjoint; vm_compute; lia).

Lemma commit_region : 0 < bb < 2 ^ 32 /\ bb * blockSize s + n <= dev_size (drive s).
Proof.
  destruct Hok as [_ Hgr _]. destruct (Hgr k Hk) as [_ _ _ [H1 H2]]. fold bb in H1, H2.
  unfold n. split; [done|]. lia.
Qed.

Lemma commit_stored_same : stored_bitmap s' bb = bm.
Proof.
  unfold stored_bitmap. sb_same. cbn [drive s' set_superblock set_drive blockSize set_gdt].
  fold n. apply dev_bytes_written; [done|]. intros a Ha. by rewrite Hbytes, decide_True.
Qed.

Lemma commit_stored_other b :
  b + (superblock s).[Superblock.blocksPerGroupBlockBitmap] <= bb
  \/ bb + (superblock s).[Superblock.blocksPerGroupBlockBitmap] <= b ->
  stored_bitmap s' b = stored_bitmap s b.
Proof.
  intros Hd. unfold stored_bitmap. sb_same. cbn [drive s' set_superblock set_drive blockSize set_gdt].
  apply dev_bytes_ext. intros a Ha. rewrite Hbytes, decide_False; [done|].
  destruct Hok as [[] _ _]. unfold n. nia.
Qed.

Lemma commit_bits_same : group_bits s' k = bit_get bm.
Proof.
  unfold group_bits. cbn [groupDescriptorTable s' set_superblock set_drive set_gdt].
  rewrite Hbb. destruct (Z.eqb_spec bb 0); [pose proof commit_region; lia|].
  by rewrite commit_stored_same.
Qed.

Lemma commit_bits_other j :
  0 <= j < (superblock s).[Superblock.groupCount] -> j <> k ->
  forall i, 0 <= i -> group_bits s' j i = group_bits s j i.
Proof.
  intros Hj Hne i Hi. unfold group_bits. cbn [groupDescriptorTable s' set_superblock set_drive set_gdt].
  rewrite Hother by lia.
  destruct (Z.eqb_spec (gdesc (groupDescriptorTable s) j).[GroupDescriptor.blockBitmap] 0) as [Hz|Hz].
  - f_equal. unfold fresh_bitmap. sb_same. done.
  - rewrite commit_stored_other; [done|].
    destruct Hok as [_ _ Hdis]. specialize (Hdis j k Hj Hk Hne).
    cbv zeta in Hdis. fold bb in Hdis. unfold bitmap_block in Hdis.
    destruct (Z.eqb_spec (gdesc (groupDescriptorTable s) j).[GroupDescriptor.blockBitmap] 0); done.
Qed.

Lemma commit_bitmap_block j :
  0 <= j < (superblock s).[Superblock.groupCount] ->
  bitmap_block (superblock s') (gdesc gdt' j) j
  = bitmap_block (superblock s) (gdesc (groupDescriptorTable s) j) j.
Proof.
  intros Hj. destruct (decide (j = k)) as [->|Hne].
  - unfold bitmap_block at 1. rewrite Hbb. destruct (Z.eqb_spec bb 0); [pose proof commit_region; lia|done].
  - rewrite Hother by lia. unfold bitmap_block. sb_same. done.
Qed.

Lemma commit_ok : alloc_ok s'.
Proof.
  pose proof Hok as [Hgeo Hgr Hdis]. split.
  - destruct Hgeo. split; sb_same; cbn [drive s' set_superblock set_drive blockSize set_gdt groupDescriptorTable];
      rewrite ?Hlen, ?Hsize; try done.
    unfold s', set_superblock. cbn [superblock]. unfold sb'. rewrite length_setf; [done|].
    unfold field_in. rewrite geo_sb0. unfold Superblock.sizeof. cbn [f_off f_size Superblock.blocksUsed]. lia.
  - sb_same. intros j Hj. pose proof (commit_bitmap_block j Hj) as Hbj.
    destruct (decide (j = k)) as [->|Hne].
    + split; cbn [groupDescriptorTable s' set_superblock set_drive set_gdt blockSize drive]; sb_same.
      * rewrite Hbb. destruct (Z.eqb_spec bb 0); [pose proof commit_region; lia|].
        rewrite Hused. f_equal. symmetry. apply commit_bits_same.
      * done.
      * intros _. by rewrite commit_bits_same.
      * rewrite Hbj, Hsize. apply (Hgr k Hk).
    + destruct (Hgr j Hj) as [H1 H2 H3 H4].
      pose proof (commit_bits_other j Hj Hne) as Hbits.
      split; cbn [groupDescriptorTable s' set_superblock set_drive set_gdt blockSize drive]; sb_same;
        rewrite ?Hother by lia.
      * rewrite H1. case_match; [done|]. apply used_count_ext. intros i Hi. symmetry. apply Hbits. lia.
      * done.
      * intros Hz. destruct (H3 Hz) as [[t (Ht & Hc & Hle & Hfree)] Hmax]. split.
        -- exists t. split_and!; [done..|]. intros i Hi. rewrite Hbits by lia. by apply Hfree.
        -- intros t' c' (Ht' & Hc' & Hle' & Hfree'). apply (Hmax t'). split_and!; [done..|].
           intros i Hi. rewrite <- Hbits by lia. by apply Hfree'.
      * rewrite <- (Hother j) by lia. rewrite Hbj, Hsize. apply H4.
  - intros i j Hi Hj Hne. revert Hi Hj. sb_same. intros Hi Hj.
    cbn [groupDescriptorTable s' set_superblock set_drive set_gdt].
    pose proof (commit_bitmap_block i Hi) as Hbi. pose proof (commit_bitmap_block j Hj) as Hbj.
    rewrite Hbi, Hbj. by apply Hdis.
Qed.
End Commit.

(** *** The descriptor updates of one allocation *)

Lemma update_descriptor_spec n gdt k c largest :
  0 <= k < n -> (GroupDescriptor.sizeof * Z.to_nat n <= length gdt)%nat ->
  0 <= (gdesc gdt k).[GroupDescriptor.blocksUsed] + c < 2 ^ 32 -> 0 <= largest < 2 ^ 32 ->
  let gdt' := update_descriptor gdt k c largest in
  length gdt' = length gdt /\
  (forall j, 0 <= j -> j <> k -> gdesc gdt' j = gdesc gdt j) /\
  (gdesc gdt' k).[GroupDescriptor.blockBitmap] = (gdesc gdt k).[GroupDescriptor.blockBitmap] /\
  (gdesc gdt' k).[GroupDescriptor.blocksUsed] = (gdesc gdt k).[GroupDescriptor.blocksUsed] + c /\
  (gdesc gdt' k).[GroupDescriptor.largestExtent] = largest.
Proof.
  intros Hk Hl Hu Hlg gdt'. pose proof (length_gdesc _ _ _ Hk Hl) as Hlen.
  assert (gdt' = gdt.[gd k GroupDescriptor.blocksUsed :=
                        u32 ((gdesc gdt k).[GroupDescriptor.blocksUsed] + c)]
                     .[gd k GroupDescriptor.largestExtent := largest]) as Hgdt'.
  { unfold gdt', update_descriptor. by rewrite getf_gd by gd_mem. }
  clearbody gdt'.
  assert (u32 ((gdesc gdt k).[GroupDescriptor.blocksUsed] + c)
          = (gdesc gdt k).[GroupDescriptor.blocksUsed] + c) as Hw by (apply wrap_id; done).
  set (g1 := gdt.[gd k GroupDescriptor.blocksUsed := _]) in Hgdt'.
  assert (length g1 = length gdt) as Hl1 by (apply length_setf; eapply gd_in; [done|gd_mem|done]).
  assert (GroupDescriptor.sizeof * Z.to_nat n <= length g1)%nat as Hg1 by lia.
  assert (gdesc gdt' k = (gdesc gdt k).[GroupDescriptor.blocksUsed :=
                            u32 ((gdesc gdt k).[GroupDescriptor.blocksUsed] + c)]
                          .[GroupDescriptor.largestExtent := largest]) as Hd.
  { subst gdt'. rewrite (gdesc_set_same _ _ n) by (done || gd_mem). f_equal.
    apply (gdesc_set_same _ _ n); (done || gd_mem). }
  set (d1 := (gdesc gdt k).[GroupDescriptor.blocksUsed := _]) in Hd.
  assert (length d1 = GroupDescriptor.sizeof) as Hld1.
  { subst d1. rewrite length_setf by (rewrite Hlen; gd_mem). done. }
  split_and!.
  - subst gdt'. rewrite length_setf by (eapply gd_in; [done|gd_mem|done]). done.
  - intros j Hj Hne. subst gdt' g1.
    rewrite (gdesc_set_other _ _ _ n) by (done || gd_mem).
    apply (gdesc_set_other _ _ _ n); (done || gd_mem).
  - rewrite Hd, getf_setf_other by (rewrite ?Hld1; unfold field_in, field_disjoint; vm_compute; lia).
    subst d1. apply getf_setf_other; rewrite ?Hlen; unfold field_in, field_disjoint; vm_compute; lia.
  - rewrite Hd, getf_setf_other by (rewrite ?Hld1; unfold field_in, field_disjoint; vm_compute; lia).
    subst d1. rewrite getf_setf_same by (rewrite Hlen; gd_mem). rewrite Hw. apply Z.mod_small. done.
  - rewrite Hd, getf_setf_same by (rewrite Hld1; gd_mem). apply Z.mod_small. done.
Qed.

(** A member other than the two checksums is left alone by [update_checksums]. *)
Lemma update_checksums_spec n gdt k bm :
  0 <= k < n -> (GroupDescriptor.sizeof * Z.to_nat n <= length gdt)%nat ->
  let gdt' := update_checksums gdt k bm in
  length gdt' = length gdt /\
  (forall j, 0 <= j -> j <> k -> gdesc gdt' j = gdesc gdt j) /\
  (forall f, gd_member f -> field_disjoint f GroupDescriptor.bitmapChecksum ->
     field_disjoint f GroupDescriptor.checksum -> (gdesc gdt' k).[f] = (gdesc gdt k).[f]).
Proof.
  intros Hk Hl gdt'. pose proof (length_gdesc _ _ _ Hk Hl) as Hlen. unfold update_checksums in gdt'.
  set (g1 := gdt.[gd k GroupDescriptor.bitmapChecksum := _]) in gdt'.
  set (g2 := g1.[gd k GroupDescriptor.checksum := 0]) in gdt'.
  assert (length g1 = length gdt) as Hl1 by (apply length_setf; eapply gd_in; [done|gd_mem|done]).
  assert (GroupDescriptor.sizeof * Z.to_nat n <= length g1)%nat as Hg1 by lia.
  assert (length g2 = length g1) as Hl2 by (apply length_setf; eapply gd_in; [done|gd_mem|done]).
  assert (GroupDescriptor.sizeof * Z.to_nat n <= length g2)%nat as Hg2 by lia.
  split_and!.
  - subst gdt'. rewrite length_setf by (eapply gd_in; [done|gd_mem|done]). lia.
  - intros j Hj Hne. subst gdt' g2 g1.
    rewrite !(gdesc_set_other _ _ _ n) by (done || gd_mem). done.
  - intros f Hf Hd1 Hd2. subst gdt'.
    rewrite (gdesc_set_same _ _ n) by (done || gd_mem).
    pose proof (length_gdesc _ _ _ Hk Hg2) as Hld2. pose proof (length_gdesc _ _ _ Hk Hg1) as Hld1.
    rewrite getf_setf_other by (rewrite ?Hld2; done || gd_mem).
    subst g2. rewrite (gdesc_set_same _ _ n) by (done || gd_mem).
    rewrite getf_setf_other by (rewrite ?Hld1; done || gd_mem).
    subst g1. rewrite (gdesc_set_same _ _ n) by (done || gd_mem).
    rewrite getf_setf_other by (rewrite ?Hlen; done || gd_mem). done.
Qed.

(** ** The whole routine *)

(** What a successful allocation of [count] blocks from [start] does. *)
Record allocated (s s' : esfs D) (start count : Z) : Prop := {
  al_range : 0 <= start /\
    start + count <= (superblock s).[Superblock.groupCount] * (superblock s).[Superblock.blocksPerGroup];
  al_taken : forall b, start <= b < start + count -> block_used s b = false /\ block_used s' b = true;
  al_frame : forall b, 0 <= b < (superblock s).[Superblock.groupCount] * (superblock s).[Superblock.blocksPerGroup] ->
    ~ (start <= b < start + count) -> block_used s' b = block_used s b;
  al_superblock : superblock s' = (superblock s).[Superblock.blocksUsed :=
                                    u64 ((superblock s).[Superblock.blocksUsed] + count)];
  al_blockSize : blockSize s' = blockSize s;
  al_gdt : length (groupDescriptorTable s') = length (groupDescriptorTable s);
  al_size : dev_size (drive s') = dev_size (drive s);
  al_drive : exists k, 0 <= k < (superblock s).[Superblock.groupCount] /\
    let bb := bitmap_block (superblock s) (gdesc (groupDescriptorTable s) k) k in
    forall a, ~ (bb * blockSize s <= a
                 < (bb + (superblock s).[Superblock.blocksPerGroupBlockBitmap]) * blockSize s) ->
      dev_byte (drive s') a = dev_byte (drive s) a }.

(** A group the searches can return has a free block, and its stored
    [largestExtent] is right. *)
Lemma target_longest s k :
  alloc_ok s -> 0 <= k < (superblock s).[Superblock.groupCount] ->
  ready (fresh_extent (superblock s)) (groupDescriptorTable s) k ->
  longest_run (group_bits s k) (superblock s).[Superblock.blocksPerGroup]
    (gdesc (groupDescriptorTable s) k).[GroupDescriptor.largestExtent].
Proof.
  intros [Hgeo Hgr _] Hk Hr. destruct (Hgr k Hk) as [Hu _ Hl _].
  destruct (Z.eqb_spec (gdesc (groupDescriptorTable s) k).[GroupDescriptor.blockBitmap] 0) as [Hz|Hz].
  - rewrite Hr by done. unfold group_bits. rewrite Hz. by apply fresh_longest.
  - by apply Hl.
Qed.

Lemma target_free s k :
  alloc_ok s -> 0 <= k < (superblock s).[Superblock.groupCount] ->
  (superblock s).[Superblock.blocksPerGroup]
    <> (gdesc (groupDescriptorTable s) k).[GroupDescriptor.blocksUsed] ->
  used_count (group_bits s k) (superblock s).[Superblock.blocksPerGroup]
    <> (superblock s).[Superblock.blocksPerGroup].
Proof.
  intros [Hgeo Hgr _] Hk Hne. destruct (Hgr k Hk) as [Hu _ _ _].
  destruct (Z.eqb_spec (gdesc (groupDescriptorTable s) k).[GroupDescriptor.blockBitmap] 0) as [Hz|Hz].
  - unfold group_bits. rewrite Hz, Z.eqb_refl, fresh_used_count by done. destruct Hgeo. lia.
  - congruence.
Qed.

Lemma find_target_free s need gdt' k :
  alloc_ok s -> 1 <= need ->
  find_target (superblock s) (groupDescriptorTable s) need = (gdt', Some k) ->
  let s1 := set_gdt gdt' s in
  alloc_ok s1 /\ 0 <= k < (superblock s).[Superblock.groupCount] /\
  ready (fresh_extent (superblock s)) gdt' k /\
  1 <= (gdesc gdt' k).[GroupDescriptor.largestExtent].
Proof.
  intros Hok Hneed Hft s1. pose proof Hok as [Hgeo _ _]. pose proof Hgeo as [].
  destruct (find_target_spec _ _ _ _ _ _ eq_refl geo_gdt0 Hft) as (Hstep & Hk & Hr & Hcase).
  assert (alloc_ok s1) as Hok1 by (by eapply alloc_ok_step).
  split; [done|]. split; [done|]. split; [done|].
  pose proof (target_longest s1 k Hok1 Hk Hr) as Hlong.
  destruct (decide (1 <= (gdesc gdt' k).[GroupDescriptor.largestExtent])) as [|Hn]; [done|exfalso].
  assert ((superblock s).[Superblock.blocksPerGroup] <> (gdesc gdt' k).[GroupDescriptor.blocksUsed]) as Hne.
  { destruct Hcase as [?|[Hcase|?]]; [lia| |done]. intros Heq. rewrite Heq, Z.sub_diag in Hcase.
    change (u32 0) with 0 in Hcase. lia. }
  apply (target_free s1 k Hok1 Hk Hne).
  apply (used_count_full _ _ _ (Z.lt_le_incl _ _ (proj1 geo_bpg0)) Hlong).
  destruct Hlong as [[t (? & ? & _)] _]. cbn [groupDescriptorTable s1 set_gdt] in *. lia.
Qed.

Lemma block_of_group k bpg i : 0 < bpg -> 0 <= i < bpg -> (i + k * bpg) / bpg = k /\ (i + k * bpg) mod bpg = i.
Proof.
  intros Hb Hi. rewrite Z.div_add, Z.mod_add, Z.div_small, Z.mod_small by lia. lia.
Qed.

(** From bits of group [k] to blocks of the volume. *)
Lemma allocated_blocks s s' k st count :
  geometry_ok s -> 0 <= k < (superblock s).[Superblock.groupCount] ->
  (superblock s').[Superblock.blocksPerGroup] = (superblock s).[Superblock.blocksPerGroup] ->
  is_run (group_bits s k) (superblock s).[Superblock.blocksPerGroup] st count ->
  (forall i, 0 <= i -> group_bits s' k i = bool_decide (st <= i < st + count) || group_bits s k i) ->
  (forall j, 0 <= j < (superblock s).[Superblock.groupCount] -> j <> k ->
     forall i, 0 <= i -> group_bits s' j i = group_bits s j i) ->
  let start := st + k * (superblock s).[Superblock.blocksPerGroup] in
  (forall b, start <= b < start + count -> block_used s b = false /\ block_used s' b = true) /\
  (forall b, 0 <= b < (superblock s).[Superblock.groupCount] * (superblock s).[Superblock.blocksPerGroup] ->
    ~ (start <= b < start + count) -> block_used s' b = block_used s b).
Proof.
  intros [] Hk Hbpg (Hst & Hc & Hle & Hfree) Hsame Hdiff start.
  set (bpg := (superblock s).[Superblock.blocksPerGroup]) in *.
  unfold block_used. rewrite Hbpg. fold bpg. split.
  - intros b Hb. destruct (block_of_group k bpg (b - k * bpg)) as [Hd Hm]; [lia..|].
    replace (b - k * bpg + k * bpg) with b in Hd, Hm by lia. rewrite Hd, Hm.
    rewrite Hsame by lia. rewrite bool_decide_eq_true_2 by lia.
    split; [apply Hfree; lia|done].
  - intros b Hb Hn. pose proof (Z.mod_pos_bound b bpg ltac:(lia)).
    pose proof (Z.div_mod b bpg ltac:(lia)).
    destruct (decide (b / bpg = k)) as [He|He].
    + rewrite He. rewrite Hsame by lia. rewrite bool_decide_eq_false_2 by (subst start; nia). done.
    + apply Hdiff; [|done|lia]. split; [apply Z.div_pos; lia|].
      apply Z.div_lt_upper_bound; lia.
Qed.

(** Taking [count] blocks from the start of the longest run. *)
Lemma take_extent bm bpg st c count :
  0 < bpg -> bpg <= 8 * Z.of_nat (length bm) -> find_largest_extent bm bpg = (st, c) -> 0 <= count <= c ->
  let bm' := bit_set_range bm st count in
  is_run (bit_get bm) bpg st count /\
  (forall i, 0 <= i -> bit_get bm' i = bool_decide (st <= i < st + count) || bit_get bm i) /\
  used_count (bit_get bm') bpg = used_count (bit_get bm) bpg + count.
Proof.
  intros Hb Hl Hfl Hc bm'.
  destruct (find_largest_extent_spec bm bpg st c ltac:(lia) Hfl) as [(Hst & _ & Hle & Hfree) _].
  assert (is_run (bit_get bm) bpg st count) as Hrun.
  { split_and!; [lia..|]. intros i Hi. apply Hfree. lia. }
  assert (forall i, 0 <= i -> bit_get bm' i = bool_decide (st <= i < st + count) || bit_get bm i) as Hbits.
  { intros i Hi. apply bit_get_set_range; lia. }
  split_and!; [done..|]. apply (used_count_range _ _ _ st); [done|]. intros. apply Hbits. lia.
Qed.

(** The descriptor stored by an allocation satisfies what [commit_ok] asks for,
    and the second assertion holds. *)
Lemma descriptor_after s k gdt2 bm bm' count st2 c2 :
  geometry_ok s -> 0 <= k < (superblock s).[Superblock.groupCount] -> loaded s k gdt2 ->
  group_bits s k = bit_get bm ->
  find_largest_extent bm' (superblock s).[Superblock.blocksPerGroup] = (st2, c2) -> 0 <= count ->
  used_count (bit_get bm') (superblock s).[Superblock.blocksPerGroup]
    = used_count (bit_get bm) (superblock s).[Superblock.blocksPerGroup] + count ->
  let gdt3 := update_descriptor gdt2 k count c2 in
  let gdt4 := update_checksums gdt3 k bm' in
  ((superblock s).[Superblock.blocksPerGroup] =? gdt3.[gd k GroupDescriptor.blocksUsed])
    || negb (gdt3.[gd k GroupDescriptor.largestExtent] =? 0) = true /\
  length gdt4 = length (groupDescriptorTable s) /\
  (forall j, 0 <= j -> j <> k -> gdesc gdt4 j = gdesc (groupDescriptorTable s) j) /\
  (gdesc gdt4 k).[GroupDescriptor.blockBitmap]
    = bitmap_block (superblock s) (gdesc (groupDescriptorTable s) k) k /\
  (gdesc gdt4 k).[GroupDescriptor.blocksUsed]
    = used_count (bit_get bm') (superblock s).[Superblock.blocksPerGroup] /\
  longest_run (bit_get bm') (superblock s).[Superblock.blocksPerGroup]
    (gdesc gdt4 k).[GroupDescriptor.largestExtent].
Proof.
  intros [] Hk (Hl2 & Ho2 & Hbb2 & Hu2 & _) Hbits Hfl Hc Hcnt gdt3 gdt4.
  set (bpg := (superblock s).[Superblock.blocksPerGroup]) in *.
  set (n := (superblock s).[Superblock.groupCount]) in *.
  destruct (find_largest_extent_spec bm' bpg st2 c2 ltac:(lia) Hfl) as [(? & ? & ? & _) Hlong].
  pose proof (used_count_bound (bit_get bm') bpg ltac:(lia)).
  pose proof (used_count_bound (bit_get bm) bpg ltac:(lia)).
  rewrite Hbits in Hu2.
  assert (GroupDescriptor.sizeof * Z.to_nat n <= length gdt2)%nat as Hg2 by (rewrite Hl2; done).
  destruct (update_descriptor_spec n gdt2 k count c2 Hk Hg2) as (Hl3 & Ho3 & Hbb3 & Hu3 & Hlg3); [lia..|].
  fold gdt3 in Hl3, Ho3, Hbb3, Hu3, Hlg3.
  assert (GroupDescriptor.sizeof * Z.to_nat n <= length gdt3)%nat as Hg3 by lia.
  destruct (update_checksums_spec n gdt3 k bm' Hk Hg3) as (Hl4 & Ho4 & Hf4). fold gdt4 in Hl4, Ho4, Hf4.
  rewrite !(getf_gd gdt3) by gd_mem. split_and!.
  - rewrite Hu3, Hu2, Hlg3. destruct (Z.eqb_spec c2 0) as [Hz|]; [|apply orb_true_r].
    apply (used_count_full (bit_get bm') bpg c2 ltac:(lia) Hlong) in Hz. rewrite orb_false_r. lia.
  - lia.
  - intros j Hj Hne. rewrite Ho4, Ho3, Ho2 by done. done.
  - rewrite Hf4, Hbb3, Hbb2; [done|gd_mem|unfold field_disjoint; vm_compute; lia..].
  - rewrite Hf4, Hu3, Hu2; [lia|gd_mem|unfold field_disjoint; vm_compute; lia..].
  - rewrite Hf4, Hlg3; [done|gd_mem|unfold field_disjoint; vm_compute; lia..].
Qed.

(** Running the routine once its target is known. *)
Lemma AllocateExtent_run need s k gdt1 :
  alloc_ok s -> 1 <= need ->
  find_target (superblock s) (groupDescriptorTable s) need = (gdt1, Some k) ->
  exists bm st c gdt4 d' start count,
    let s1 := set_gdt gdt1 s in
    let bm' := bit_set_range bm st count in
    let bb := bitmap_block (superblock s) (gdesc gdt1 k) k in
    alloc_ok s1 /\ 0 <= k < (superblock s).[Superblock.groupCount] /\
    AllocateExtent need s = (Ok (start, count),
      set_superblock (superblock s).[Superblock.blocksUsed := u64 ((superblock s).[Superblock.blocksUsed] + count)]
        (set_drive d' (set_gdt gdt4 s1))) /\
    start = u64 (st + k * (superblock s).[Superblock.blocksPerGroup]) /\
    1 <= count <= need /\ count <= c /\
    group_bits s1 k = bit_get bm /\
    Z.of_nat (length bm) = blockSize s * (superblock s).[Superblock.blocksPerGroupBlockBitmap] /\
    find_largest_extent bm (superblock s).[Superblock.blocksPerGroup] = (st, c) /\
    length gdt4 = length gdt1 /\
    (forall j, 0 <= j -> j <> k -> gdesc gdt4 j = gdesc gdt1 j) /\
    (gdesc gdt4 k).[GroupDescriptor.blockBitmap] = bb /\
    (gdesc gdt4 k).[GroupDescriptor.blocksUsed]
      = used_count (bit_get bm') (superblock s).[Superblock.blocksPerGroup] /\
    longest_run (bit_get bm') (superblock s).[Superblock.blocksPerGroup]
      (gdesc gdt4 k).[GroupDescriptor.largestExtent] /\
    dev_size d' = dev_size (drive s) /\
    forall a, dev_byte d' a =
      if decide (bb * blockSize s <= a < bb * blockSize s
                 + blockSize s * (superblock s).[Superblock.blocksPerGroupBlockBitmap])
      then nth (Z.to_nat (a - bb * blockSize s)) bm' 0 else dev_byte (drive s) a.
Proof.
  intros Hok Hneed Hft.
  destruct (find_target_free s need gdt1 k Hok Hneed Hft) as (Hok1 & Hk & Hready & Hlarge1).
  set (s1 := set_gdt gdt1 s) in *.
  destruct (load_bitmap_ok s1 k Hok1 Hk Hready) as (bm & gdt2 & Hload & Hbm & Hbits & Hloaded).
  pose proof Hok1 as [Hgeo1 Hgr1 _]. pose proof Hgeo1 as [].
  change (superblock s1) with (superblock s) in *.
  set (bpg := (superblock s).[Superblock.blocksPerGroup]) in *.
  unfold AllocateExtent, bind at 1, get at 1. rewrite Hft.
  unfold bind at 1, modify at 1. fold s1. rewrite (bind_ok _ _ _ _ _ Hload). fold bpg.
  destruct (find_largest_extent bm bpg) as [st c] eqn:Hfl.
  destruct (find_largest_extent_spec bm bpg st c ltac:(lia) Hfl) as [_ Hlong].
  rewrite <- Hbits in Hlong.
  assert (c = (gdesc gdt2 k).[GroupDescriptor.largestExtent]) as Hc.
  { eapply longest_run_unique; [done|]. apply Hloaded. }
  assert (1 <= c) as Hc1.
  { rewrite (longest_run_unique _ _ _ _ Hlong (target_longest s1 k Hok1 Hk Hready)). done. }
  unfold bind at 1, get at 1. cbn [groupDescriptorTable set_gdt].
  rewrite (getf_gd gdt2 k GroupDescriptor.largestExtent) by gd_mem.
  rewrite (proj2 (Z.eqb_eq _ _) Hc). unfold assert at 1. unfold bind at 1, ret at 1.
  set (count := if need <? c then need else c).
  assert (1 <= count <= need /\ count <= c) as [Hcount Hcc] by (subst count; destruct (Z.ltb_spec need c); lia).
  destruct (take_extent bm bpg st c count) as (_ & _ & Hcnt); [lia|lia|done|lia|].
  set (bm' := bit_set_range bm st count) in *.
  destruct (find_largest_extent bm' bpg) as [st2 c2] eqn:Hfl2.
  destruct (descriptor_after s1 k gdt2 bm bm' count st2 c2 Hgeo1 Hk Hloaded Hbits Hfl2 ltac:(lia) Hcnt)
    as (Hass & Hl4 & Ho4 & Hbb4 & Hu4 & Hlg4).
  change (superblock s1) with (superblock s) in *. fold bpg in Hass. rewrite Hass.
  unfold assert at 1. unfold bind at 1, ret at 1. unfold bind at 1, modify at 1.
  set (gdt4 := update_checksums _ k bm') in *.
  rewrite (getf_gd gdt4) by gd_mem. rewrite Hbb4.
  destruct (Hgr1 k Hk) as [_ _ _ [Hreg1 Hreg2]].
  change (superblock s1) with (superblock s) in *.
  destruct (WriteBlock_ok (bitmap_block (superblock s) (gdesc (groupDescriptorTable s1) k) k)
              (superblock s).[Superblock.blocksPerGroupBlockBitmap] bm' (set_gdt gdt4 s1))
    as (d' & Hwr & Hsz & Hby); [lia|lia|cbn [blockSize set_gdt]; lia
    |subst bm'; rewrite length_bit_set_range; done|cbn [blockSize drive set_gdt]; lia|].
  rewrite (bind_ok _ _ _ _ _ Hwr). unfold bind at 1, modify at 1, ret.
  exists bm, st, c, gdt4, d', (u64 (st + k * bpg)), count. cbv zeta.
  split_and!; done || lia.
Qed.

Lemma AllocateExtent_allocates need s k gdt1 :
  alloc_ok s -> 1 <= need ->
  find_target (superblock s) (groupDescriptorTable s) need = (gdt1, Some k) ->
  exists start count s', AllocateExtent need s = (Ok (start, count), s') /\
    1 <= count <= need /\ alloc_ok s' /\ allocated (set_gdt gdt1 s) s' start count.
Proof.
  intros Hok Hneed Hft.
  destruct (AllocateExtent_run need s k gdt1 Hok Hneed Hft)
    as (bm & st & c & gdt4 & d' & start & count & Hok1 & Hk & Hrun & Hstart & Hcount & Hcc & Hbits & Hbm
        & Hfl & Hl4 & Ho4 & Hbb4 & Hu4 & Hlg4 & Hsz & Hby).
  set (s1 := set_gdt gdt1 s) in *. pose proof Hok1 as [Hgeo1 _ _]. pose proof Hgeo1 as [].
  change (superblock s1) with (superblock s) in *. change (blockSize s1) with (blockSize s) in *.
  set (bm' := bit_set_range bm st count) in *.
  destruct (take_extent bm (superblock s).[Superblock.blocksPerGroup] st c count)
    as (Hr & Hb' & Hcnt); [lia..|done|lia|].
  fold bm' in Hb', Hcnt.
  assert (Z.of_nat (length bm') = blockSize s * (superblock s).[Superblock.blocksPerGroupBlockBitmap]) as Hbm'
    by (subst bm'; by rewrite length_bit_set_range).
  set (v := u64 _) in Hrun. set (s' := set_superblock _ _) in Hrun.
  pose proof (used_count_bound (bit_get bm) (superblock s).[Superblock.blocksPerGroup]
                ltac:(lia)) as Hub.
  assert (alloc_ok s') as Hok'.
  { apply (commit_ok s1 k v gdt4 d' bm'); try done. lia. }
  assert (group_bits s' k = bit_get bm') as Hbk by (by apply (commit_bits_same s1 k v gdt4 d' bm')).
  assert (forall j, 0 <= j < (superblock s).[Superblock.groupCount] -> j <> k ->
            forall i, 0 <= i -> group_bits s' j i = group_bits s1 j i) as Hbo.
  { intros j Hj Hne. by apply (commit_bits_other s1 k v gdt4 d' bm'). }
  rewrite <- Hbits in Hr.
  assert ((superblock s').[Superblock.blocksPerGroup] = (superblock s).[Superblock.blocksPerGroup]) as Hbpg'.
  { apply sb_used_other; [done|unfold field_disjoint; vm_compute; lia]. }
  destruct (allocated_blocks s1 s' k st count Hgeo1 Hk Hbpg' Hr) as [Htaken Hframe];
    [by rewrite Hbk, Hbits|done|].
  destruct Hr as (Hst & _ & Hle & _).
  assert (start = st + k * (superblock s).[Superblock.blocksPerGroup]) as Hs.
  { rewrite Hstart. apply u64_id. unfold is_uint. nia. }
  exists start, count, s'. split; [done|]. split; [done|]. split; [done|]. rewrite Hs.
  split; try done; [change (superblock s1) with (superblock s); nia|].
  exists k. split; [done|]. intros bb a Ha. rewrite Hby, decide_False; [done|].
  change (bitmap_block (superblock s) (gdesc gdt1 k) k) with bb.
  change (superblock s1) with (superblock s) in Ha. change (blockSize s1) with (blockSize s) in Ha. lia.
Qed.

(** The searches do not change which blocks are used. *)
Lemma block_used_step s gdt' w b :
  geometry_ok s ->
  gdt_step w (superblock s).[Superblock.groupCount] (groupDescriptorTable s) gdt' ->
  0 <= b < (superblock s).[Superblock.groupCount] * (superblock s).[Superblock.blocksPerGroup] ->
  block_used (set_gdt gdt' s) b = block_used s b.
Proof.
  intros [] [_ Hstep] Hb. unfold block_used. cbn [superblock set_gdt].
  rewrite group_bits_gdt; [done|]. apply Hstep. split; [apply Z.div_pos; lia|].
  apply Z.div_lt_upper_bound; lia.
Qed.

Lemma allocated_step s s' gdt' w start count :
  geometry_ok s ->
  gdt_step w (superblock s).[Superblock.groupCount] (groupDescriptorTable s) gdt' ->
  allocated (set_gdt gdt' s) s' start count -> allocated s s' start count.
Proof.
  intros Hgeo Hstep []. cbn [superblock set_gdt blockSize groupDescriptorTable drive] in *.
  split; try done.
  - intros b Hb. rewrite <- (block_used_step s gdt' w) by (done || lia). by apply al_taken0.
  - intros b Hb Hn. rewrite <- (block_used_step s gdt' w) by (done || lia). by apply al_frame0.
  - rewrite al_gdt0. apply Hstep.
  - destruct al_drive0 as (k & Hk & Hd). exists k. split; [done|].
    rewrite <- (bitmap_block_gdt _ _ _ k (proj1 (proj2 (proj2 Hstep k Hk)))). done.
Qed.

(** ** Checking the invariant by computation *)

Definition geometry_okb (s : esfs D) : bool :=
  let sb := superblock s in
  bool_decide (length sb = Superblock.sizeof) && (blockSize s =? sb.[Superblock.blockSize]) &&
  (0 <? blockSize s) && (0 <? sb.[Superblock.blocksPerGroup]) &&
  (sb.[Superblock.blocksPerGroup] <? 2 ^ 32) && (0 <? sb.[Superblock.blocksPerGroupBlockBitmap]) &&
  (sb.[Superblock.blocksPerGroupBlockBitmap] <? sb.[Superblock.blocksPerGroup]) &&
  (sb.[Superblock.blocksPerGroup] <=? 8 * (blockSize s * sb.[Superblock.blocksPerGroupBlockBitmap])) &&
  (0 <=? sb.[Superblock.groupCount]) &&
  (sb.[Superblock.groupCount] * sb.[Superblock.blocksPerGroup] <? 2 ^ 64) &&
  bool_decide (GroupDescriptor.sizeof * Z.to_nat sb.[Superblock.groupCount]
               <= length (groupDescriptorTable s))%nat &&
  (dev_size (drive s) <? 2 ^ 64).

Definition group_okb (s : esfs D) (k : Z) : bool :=
  let sb := superblock s in
  let d := gdesc (groupDescriptorTable s) k in
  let bb := bitmap_block sb d k in
  (0 <? bb) && (bb <? 2 ^ 32) &&
  ((bb + sb.[Superblock.blocksPerGroupBlockBitmap]) * blockSize s <=? dev_size (drive s)) &&
  if d.[GroupDescriptor.blockBitmap] =? 0 then d.[GroupDescriptor.blocksUsed] =? 0
  else let bm := stored_bitmap s d.[GroupDescriptor.blockBitmap] in
    (d.[GroupDescriptor.blocksUsed] =? used_count (bit_get bm) sb.[Superblock.blocksPerGroup]) &&
    negb (d.[GroupDescriptor.blocksUsed] =? 0) &&
    (d.[GroupDescriptor.largestExtent] =? (find_largest_extent bm sb.[Superblock.blocksPerGroup]).2).

Definition bitmaps_disjointb (s : esfs D) : bool :=
  let sb := superblock s in
  let groups := seqZ 0 sb.[Superblock.groupCount] in
  let bb k := bitmap_block sb (gdesc (groupDescriptorTable s) k) k in
  forallb (fun j => forallb (fun k => (j =? k) ||
    (bb j + sb.[Superblock.blocksPerGroupBlockBitmap] <=? bb k) ||
    (bb k + sb.[Superblock.blocksPerGroupBlockBitmap] <=? bb j)) groups) groups.

Definition alloc_okb (s : esfs D) : bool :=
  geometry_okb s && bitmaps_disjointb s &&
  forallb (group_okb s) (seqZ 0 (superblock s).[Superblock.groupCount]).

Lemma group_okb_sound s k : geometry_ok s -> group_okb s k = true -> group_ok s k.
Proof.
  intros [] H. unfold group_okb in H. rewrite !andb_true_iff in H.
  destruct H as [[[H1 H2] H3] H4].
  split; [| | |lia]; unfold group_bits;
    destruct (Z.eqb_spec (gdesc (groupDescriptorTable s) k).[GroupDescriptor.blockBitmap] 0) as [Hz|Hz];
    try done; rewrite ?andb_true_iff in H4.
  - lia.
  - lia.
  - intros _. lia.
  - intros _. destruct H4 as [_ H4]. apply Z.eqb_eq in H4. rewrite H4.
    destruct (find_largest_extent _ _) as [st c] eqn:Hfl.
    by apply (find_largest_extent_spec _ _ st c) in Hfl as [_ Hl]; [|lia].
Qed.

Lemma alloc_okb_sound s : alloc_okb s = true -> alloc_ok s.
Proof.
  intros H. unfold alloc_okb in H. rewrite !andb_true_iff in H. destruct H as [[Hgeo Hdis] Hgr].
  assert (geometry_ok s) as Hg.
  { unfold geometry_okb in Hgeo. rewrite !andb_true_iff, !bool_decide_eq_true in Hgeo.
    destruct_and!. split; (done || lia). }
  split; [done| |].
  - intros k Hk. apply group_okb_sound; [done|]. rewrite forallb_forall in Hgr.
    apply Hgr, In_seqZ. lia.
  - intros j k Hj Hk Hne. unfold bitmaps_disjointb in Hdis. rewrite forallb_forall in Hdis.
    specialize (Hdis j ltac:(apply In_seqZ; lia)). rewrite forallb_forall in Hdis.
    specialize (Hdis k ltac:(apply In_seqZ; lia)). rewrite !orb_true_iff in Hdis. cbv zeta. lia.
Qed.

Lemma AllocateExtent_ok need s :
  alloc_ok s -> 1 <= need ->
  (exists k, 0 <= k < (superblock s).[Superblock.groupCount] /\
     (groupDescriptorTable s).[gd k GroupDescriptor.blocksUsed] <> (superblock s).[Superblock.blocksPerGroup]) ->
  exists start count s', AllocateExtent need s = (Ok (start, count), s') /\
    1 <= count <= need /\ allocated s s' start count /\ alloc_ok s'.
Proof.
  intros Hok Hneed (k0 & Hk0 & Hfree). rewrite getf_gd in Hfree by gd_mem.
  pose proof Hok as [Hgeo _ _]. pose proof (geo_gdt s Hgeo) as Hgdt.
  destruct (find_target (superblock s) (groupDescriptorTable s) need) as [gdt1 [k|]] eqn:Hft;
    destruct (find_target_spec _ _ _ _ _ _ eq_refl Hgdt Hft) as [Hstep Ht].
  - destruct (AllocateExtent_allocates need s k gdt1 Hok Hneed Hft)
      as (start & count & s' & Hrun & Hc & Hok' & Hal).
    exists start, count, s'. split_and!; try done; [lia..|]. by eapply allocated_step.
  - destruct Hfree. rewrite <- (Ht k0 Hk0). symmetry. apply (proj2 Hstep k0 Hk0).
Qed.

(** C5.  On a volume whose group descriptors agree with their bitmaps,
    [AllocateExtent] never fails an assertion: as long as some group has a free
    block it returns between one and the requested number of blocks, all of them
    free before and used afterwards, inside the volume and in one group; every
    other block keeps its state, only the chosen group's bitmap changes on the
    drive, the superblock's counter grows by exactly the number returned, and the
    descriptors still agree with the bitmaps. *)
Theorem AllocateExtent_correct need s :
  alloc_ok s -> 1 <= need ->
  (exists k, 0 <= k < (superblock s).[Superblock.groupCount] /\
     (groupDescriptorTable s).[gd k GroupDescriptor.blocksUsed] <> (superblock s).[Superblock.blocksPerGroup]) ->
  exists start count s', AllocateExtent need s = (Ok (start, count), s') /\
    1 <= count <= need /\ allocated s s' start count /\ alloc_ok s'.
Proof. apply AllocateExtent_ok. Qed.

(** Either blocks are allocated or the volume is out of space. *)
Lemma AllocateExtent_total need s :
  alloc_ok s -> 1 <= need ->
  (exists start count s', AllocateExtent need s = (Ok (start, count), s') /\
     1 <= count <= need /\ allocated s s' start count /\ alloc_ok s')
  \/ exists s', AllocateExtent need s = (Stop FatalError, s').
Proof.
  intros Hok Hneed. pose proof Hok as [Hgeo _ _]. pose proof (geo_gdt s Hgeo) as Hgdt.
  destruct (find_target (superblock s) (groupDescriptorTable s) need) as [gdt1 [k|]] eqn:Hft.
  - destruct (find_target_spec _ _ _ _ _ _ eq_refl Hgdt Hft) as [Hstep _].
    destruct (AllocateExtent_allocates need s k gdt1 Hok Hneed Hft)
      as (start & count & s' & Hrun & Hc & Hok' & Hal).
    left. exists start, count, s'. split_and!; try done; [lia..|]. by eapply allocated_step.
  - right. unfold AllocateExtent, bind at 1, get at 1. rewrite Hft. by eexists.
Qed.

(** C38.  When every group is full, [AllocateExtent] reports that the volume is
    out of space, through [EsFSError], and changes neither drive nor superblock. *)
Theorem AllocateExtent_out_of_space need s :
  alloc_ok s -> 1 <= need ->
  (forall k, 0 <= k < (superblock s).[Superblock.groupCount] ->
     (groupDescriptorTable s).[gd k GroupDescriptor.blocksUsed] = (superblock s).[Superblock.blocksPerGroup]) ->
  exists s', AllocateExtent need s = (Stop FatalError, s') /\
    drive s' = drive s /\ superblock s' = superblock s.
Proof.
  intros Hok Hneed Hfull. pose proof Hok as [Hgeo _ _]. pose proof (geo_gdt s Hgeo) as Hgdt.
  destruct (find_target (superblock s) (groupDescriptorTable s) need) as [gdt1 [k|]] eqn:Hft.
  - exfalso. destruct (find_target_free s need gdt1 k Hok Hneed Hft) as (Hok1 & Hk & Hr & Hlg).
    destruct (find_target_spec _ _ _ _ _ _ eq_refl Hgdt Hft) as [Hstep _].
    pose proof (target_longest _ k Hok1 Hk Hr) as Hlong.
    specialize (Hfull k Hk). rewrite getf_gd in Hfull by gd_mem.
    destruct (ao_groups _ Hok1 k Hk) as [Hu _ _ _].
    cbn [superblock set_gdt groupDescriptorTable] in *.
    rewrite (proj1 (proj2 Hstep k Hk)), Hfull in Hu. destruct Hgeo.
    destruct (Z.eqb_spec (gdesc gdt1 k).[GroupDescriptor.blockBitmap] 0); [lia|].
    symmetry in Hu. apply (used_count_full _ _ _ (Z.lt_le_incl _ _ (proj1 geo_bpg0)) Hlong) in Hu.
    cbn [groupDescriptorTable set_gdt] in Hu. lia.
  - unfold AllocateExtent, bind at 1, get at 1. rewrite Hft. by eexists.
Qed.
End Alloc.

(** ** Witnesses: a volume of two groups of 32 blocks of 64 bytes *)

Definition small_superblock : bytes :=
  (replicate Superblock.sizeof 0)
    .[Superblock.blockSize := 64].[Superblock.blockCount := 64].[Superblock.blocksUsed := 6]
    .[Superblock.blocksPerGroup := 32].[Superblock.groupCount := 2]
    .[Superblock.blocksPerGroupBlockBitmap := 1].

(** Group 0 has its bitmap in block 3 and [used] blocks taken; group 1 is unused. *)
Definition small_volume (used0 used1 : Z) : esfs DriveFile :=
  let bm used := bit_set_range (replicate 64 0) 0 used in
  {| blockSize := 64;
     superblock := small_superblock;
     groupDescriptorTable :=
       (replicate 112 0).[gd 0 GroupDescriptor.blockBitmap := 3].[gd 0 GroupDescriptor.blocksUsed := used0]
         .[gd 0 GroupDescriptor.largestExtent := 32 - used0]
         .[gd 1 GroupDescriptor.blockBitmap := if used1 =? 0 then 0 else 4]
         .[gd 1 GroupDescriptor.blocksUsed := used1]
         .[gd 1 GroupDescriptor.largestExtent := if used1 =? 0 then 0 else 32 - used1];
     copiedCount := 0;
     rand_calls := 0;
     drive := {| file_bytes := put_bytes (put_bytes ∅ (3 * 64) (bm used0)) (4 * 64) (bm used1);
                 file_size := 64 * 64; partitionOffset := 0 |} |}.

Lemma AllocateExtent_correct_witness :
  exists start count s', AllocateExtent 28 (small_volume 6 0) = (Ok (start, count), s') /\
    1 <= count <= 28 /\ allocated (small_volume 6 0) s' start count /\ alloc_ok s'.
Proof.
  apply AllocateExtent_correct; [apply alloc_okb_sound; vm_compute; reflexivity|lia|].
  exists 0. split; vm_compute; [split; discriminate || reflexivity|discriminate].
Defined.

(** The request is served from group 1, which is set up on the way. *)
Example AllocateExtent_example :
  (AllocateExtent 28 (small_volume 6 0)).1 = Ok (33, 28) /\
  (AllocateExtent 20 (small_volume 6 0)).1 = Ok (6, 20).
Proof. split; vm_compute; reflexivity. Qed.

Lemma AllocateExtent_out_of_space_witness :
  exists s', AllocateExtent 1 (small_volume 32 32) = (Stop FatalError, s') /\
    drive s' = drive (small_volume 32 32) /\ superblock s' = superblock (small_volume 32 32).
Proof.
  apply AllocateExtent_out_of_space; [apply alloc_okb_sound; vm_compute; reflexivity|lia|].
  intros k Hk. assert (k = 0 \/ k = 1) as [-> | ->].
  { change ((superblock (small_volume 32 32)).[Superblock.groupCount]) with 2 in Hk. lia. }
  - vm_compute. reflexivity.
  - vm_compute. reflexivity.
Defined.
