(* ===== verification/EsfsNode.v ===== *)
(** * EsFS nodes (shared/esfs2.h: directory entries, attributes, file data)

    A node is the 1024-byte [DirectoryEntry]; its attributes are reached through
    byte offsets stored in it, so every access whose offset comes from the data is
    checked against the entry and stops with [OutOfBounds] where C would leave the
    object. *)

From stdpp Require Import gmap.
From S2P Require Import Prelude Crc Layout EsfsExtent EsfsTypes EsfsAlloc.

(** Copies with data-dependent offsets. *)
Definition read_at (off n : Z) (b : bytes) : option bytes :=
  if (0 <=? off) && (0 <=? n) && (off + n <=? Z.of_nat (length b))
  then Some (slice (Z.to_nat off) (Z.to_nat n) b) else None.

Definition write_at (off : Z) (src dst : bytes) : option bytes :=
  if (0 <=? off) && (off + Z.of_nat (length src) <=? Z.of_nat (length dst))
  then Some (blit (Z.to_nat off) src dst) else None.

Definition DirectoryEntry_size : Z := Z.of_nat DirectoryEntry.sizeof.

(** [DirectoryEntryReference] as a value; [ref_bytes] is its stored form. *)
Record reference : Type := Ref { ref_block : Z; ref_offsetIntoBlock : Z }.
Definition ref_bytes (r : reference) : bytes :=
  le_split 8 (ref_block r) ++ le_split 4 (ref_offsetIntoBlock r) ++ le_split 4 0.

(** A member of the attribute that starts at offset [a] of the entry. *)
Definition attr (a : Z) (f : field) : field := shift_field (Z.to_nat a) f.

(** Store a checksum of the whole structure, computed with the member zeroed. *)
Definition with_checksum (f : field) (b : bytes) : bytes :=
  let b := b.[f := 0] in b.[f := CalculateCRC32 b 0].

Definition bump_attributeCount (entry : bytes) : bytes :=
  entry.[DirectoryEntry.attributeCount := u8 (entry.[DirectoryEntry.attributeCount] + 1)].

(** [off, off + n) lies outside the attribute count and the attribute at [p]. *)
Definition outside (off n : nat) (p size : Z) : Prop :=
  (off + n <= 31 \/ 32 <= off)%nat /\ (Z.of_nat (off + n) <= p \/ p + size <= Z.of_nat off).

Ltac unfold_entry :=
  unfold outside, attr, shift_field, bump_attributeCount,
    DirectoryEntry.attributeCount, AttributeDirectory.type, AttributeDirectory.size,
    AttributeDirectory.indexRootBlock, AttributeDirectory.totalSize, AttributeDirectory.childNodes,
    AttributeData.type, AttributeData.size, AttributeData.indirection, AttributeData.dataOffset,
    AttributeData.count, Attribute.type, Attribute.size, AttributeFilename.type,
    AttributeFilename.size, AttributeFilename.length, AttributeFilename.filename_offset in *;
  cbn [f_off f_size] in *.

Section Node.
Context {D : Type} {dev : BlockDevice D}.
(** The values returned by successive calls of [rand()]. *)
Context (rand : nat -> Z).

Definition ReadDirectoryEntryReference (r : reference) : M (esfs D) bytes :=
  let! buffer := ReadBlock (ref_block r) 1 in
  lift_opt OutOfBounds (read_at (ref_offsetIntoBlock r) DirectoryEntry_size buffer).

(** Returns the entry with its new checksum, as left in the caller's object. *)
Definition WriteDirectoryEntryReference (r : reference) (entry : bytes) : M (esfs D) bytes :=
  let entry := with_checksum DirectoryEntry.checksum entry in
  let! buffer := ReadBlock (ref_block r) 1 in
  let! buffer := lift_opt OutOfBounds (write_at (ref_offsetIntoBlock r) entry buffer) in
  WriteBlock (ref_block r) 1 buffer ;;;
  ret entry.

(** The loop of [FindAttribute]: [a] is the offset of [attribute], [count] the
    number of attributes passed so far.  It ends after at most
    [attributeCount + 1] steps, the bound on [fuel]. *)
Fixpoint find_attribute (fuel : nat) (entry : bytes) (type a count : Z) : M (esfs D) Z :=
  if negb ((0 <=? a) && (a + 4 <=? Z.of_nat (length entry))) then stop OutOfBounds
  else if entry.[attr a Attribute.type] =? type then ret a
  else match fuel with
       | O => stop OutOfFuel
       | S fuel' =>
           let a' := a + entry.[attr a Attribute.size] in
           if count =? entry.[DirectoryEntry.attributeCount] then stop FatalError
           else find_attribute fuel' entry type a' (count + 1)
       end.

(** The offset in [entry] of the attribute of the given type. *)
Definition FindAttribute (entry : bytes) (type : Z) : M (esfs D) Z :=
  find_attribute (S (Z.to_nat entry.[DirectoryEntry.attributeCount])) entry type
    entry.[DirectoryEntry.attributeOffset] 0.

(** [for (i = 0; i < 16; i++) { d[i]++; if (d[i]) break; }] *)
Fixpoint increment_identifier (d : bytes) : bytes :=
  match d with
  | [] => []
  | x :: rest =>
      let x' := u8 (x + 1) in
      if negb (x' =? 0) then x' :: rest else x' :: increment_identifier rest
  end.

Definition GenerateUniqueIdentifier (random : bool) : M (esfs D) bytes :=
  let! s := get in
  if random then
    modify (set_rand_calls (rand_calls s + 16)) ;;;
    ret ((fun i => u8 (rand (rand_calls s + i)%nat)) <$> seq 0 16)
  else
    let u := slice (f_off Superblock.nextIdentifier) 16 (superblock s) in
    modify (set_superblock
      (blit (f_off Superblock.nextIdentifier) (increment_identifier u) (superblock s))) ;;;
    ret u.

(** ** New entries *)

(** [((strlen(name) + ESFS_FILENAME_HEADER_SIZE - 1) & ~7) + 8] *)
Definition filename_attribute_size (name : bytes) : Z :=
  Z.land (Z.of_nat (length name) + ESFS_FILENAME_HEADER_SIZE - 1) (Z.lnot 7) + 8.

(** The members before the attribute list. *)
Definition new_header (entry uid : bytes) (nodeType : Z) (parentUID contentType : bytes) : bytes :=
  let entry := blit (f_off DirectoryEntry.signature) ESFS_DIRECTORY_ENTRY_SIGNATURE entry in
  let entry := blit (f_off DirectoryEntry.identifier) uid entry in
  let entry := entry.[DirectoryEntry.attributeOffset := ESFS_ATTRIBUTE_OFFSET] in
  let entry := entry.[DirectoryEntry.nodeType := nodeType] in
  let entry := blit (f_off DirectoryEntry.parent) parentUID entry in
  blit (f_off DirectoryEntry.contentType) contentType entry.

(** The attributes in turn, each with the position after it. *)
Definition new_directory_attribute (entry : bytes) (position : Z) : bytes * Z :=
  let entry := entry.[attr position AttributeDirectory.type := ESFS_ATTRIBUTE_DIRECTORY] in
  let entry := entry.[attr position AttributeDirectory.size := Z.of_nat AttributeDirectory.sizeof] in
  let entry := entry.[attr position AttributeDirectory.indexRootBlock := 0] in
  let entry := entry.[attr position AttributeDirectory.totalSize := 0] in
  let entry := bump_attributeCount entry in
  (entry, position + entry.[attr position AttributeDirectory.size]).

Definition new_data_attribute (entry : bytes) (position nodeType newFilenameSize : Z) : bytes * Z :=
  let entry := entry.[attr position AttributeData.type := ESFS_ATTRIBUTE_DATA] in
  let entry := entry.[attr position AttributeData.size :=
                        u64 (DirectoryEntry_size - newFilenameSize - position)] in
  let entry := entry.[attr position AttributeData.indirection :=
                        if nodeType =? ESFS_NODE_TYPE_DIRECTORY then ESFS_INDIRECTION_L1
                        else ESFS_INDIRECTION_DIRECT] in
  let entry := entry.[attr position AttributeData.dataOffset := ESFS_DATA_OFFSET] in
  let entry := bump_attributeCount entry in
  (entry, position + entry.[attr position AttributeData.size]).

Definition new_filename_attribute (entry : bytes) (position newFilenameSize : Z) (name : bytes)
  : option (bytes * Z) :=
  entry ← write_at position
    (le_split 2 ESFS_ATTRIBUTE_FILENAME ++ le_split 2 newFilenameSize
       ++ le_split 2 (Z.of_nat (length name))) entry;
  entry ← write_at (position + Z.of_nat AttributeFilename.filename_offset)
    (take (Z.to_nat entry.[attr position AttributeFilename.length]) name) entry;
  let entry := bump_attributeCount entry in
  Some (entry, position + entry.[attr position AttributeFilename.size]).

(** Fills in [entry], which the callers pass zeroed. *)
Definition NewDirectoryEntry (entry : bytes) (nodeType : Z) (parentUID : bytes) (name contentType : bytes)
  : M (esfs D) bytes :=
  let! uid := GenerateUniqueIdentifier false in
  let entry := new_header entry uid nodeType parentUID contentType in
  let position := entry.[DirectoryEntry.attributeOffset] in
  let newFilenameSize := filename_attribute_size name in
  let '(entry, position) := if nodeType =? ESFS_NODE_TYPE_DIRECTORY
                            then new_directory_attribute entry position
                            else (entry, position) in
  let '(entry, position) := new_data_attribute entry position nodeType newFilenameSize in
  let! (entry, position) := lift_opt OutOfBounds
                              (new_filename_attribute entry position newFilenameSize name) in
  assert (position =? DirectoryEntry_size) ;;;
  ret (with_checksum DirectoryEntry.checksum entry).

(** The comparison of [FindNode]: the stored name has this length and these bytes. *)
Definition filename_is (node name : bytes) : M (esfs D) bool :=
  let! a := FindAttribute node ESFS_ATTRIBUTE_FILENAME in
  let n := node.[attr a AttributeFilename.length] in
  if n =? Z.of_nat (length name) then
    let! stored := lift_opt OutOfBounds (read_at (a + Z.of_nat AttributeFilename.filename_offset) n node) in
    ret (bool_decide (stored = name))
  else ret false.

(** ** Identifiers *)

(** The carry loop adds one to the identifier read as a little-endian number. *)
Lemma increment_identifier_value d :
  bytes_ok d ->
  length (increment_identifier d) = length d /\ bytes_ok (increment_identifier d) /\
  le_combine (increment_identifier d) = (le_combine d + 1) mod 2 ^ (8 * Z.of_nat (length d)).
Proof.
  induction 1 as [|x d [Hx1 Hx2] Hd (IHl & IHok & IH)]; cbn [increment_identifier le_combine length].
  { split_and!; [done|constructor|]. by rewrite Z.mod_1_r. }
  change (2 ^ 8) with 256 in Hx2.
  pose proof (le_combine_range d Hd) as [Hr1 Hr2].
  replace (8 * Z.of_nat (S (length d))) with (8 + 8 * Z.of_nat (length d)) by lia.
  rewrite Z.pow_add_r by lia. change (2 ^ 8) with 256.
  assert (0 < 2 ^ (8 * Z.of_nat (length d))) by (apply Z.pow_pos_nonneg; lia).
  unfold u8, wrap. change (2 ^ 8) with 256. destruct (decide (x = 255)) as [->|Hx].
  - change ((255 + 1) mod 256) with 0. cbn [Z.eqb negb length le_combine].
    split_and!; [by rewrite IHl|constructor; [by unfold is_byte, is_uint|done]|].
    rewrite IH. replace (255 + 256 * le_combine d + 1) with (256 * (le_combine d + 1)) by lia.
    rewrite Z.mul_mod_distr_l by lia. lia.
  - rewrite (Z.mod_small (x + 1)) by lia. replace (x + 1 =? 0) with false by lia.
    cbn [negb length le_combine]. split_and!; [done| |].
    + constructor; [|done]. unfold is_byte, is_uint. lia.
    + rewrite Z.mod_small by lia. lia.
Qed.

(** ** Attributes *)

(** The search does not change the state. *)
Lemma find_attribute_state fuel entry type a count s : (find_attribute fuel entry type a count s).2 = s.
Proof.
  revert a count. induction fuel as [|fuel IH]; intros a count; cbn [find_attribute]; repeat case_match; try done.
Qed.

Lemma filename_is_state node name s : (filename_is node name s).2 = s.
Proof.
  unfold filename_is, FindAttribute, bind.
  pose proof (find_attribute_state (S (Z.to_nat node.[DirectoryEntry.attributeCount])) node
                ESFS_ATTRIBUTE_FILENAME node.[DirectoryEntry.attributeOffset] 0 s) as H.
  destruct (find_attribute _ _ _ _ _ s) as [[a| |r] s']; cbn in H; subst s'; [|done..].
  case_match; [|done]. by destruct (read_at _ _ _).
Qed.

Lemma find_attribute_here fuel entry type a count s :
  0 <= a -> a + 4 <= Z.of_nat (length entry) -> entry.[attr a Attribute.type] = type ->
  find_attribute fuel entry type a count s = (Ok a, s).
Proof.
  intros Ha Hl Ht. destruct fuel; cbn [find_attribute];
    replace ((0 <=? a) && (a + 4 <=? Z.of_nat (length entry))) with true by lia;
    rewrite Ht, Z.eqb_refl; done.
Qed.

Lemma find_attribute_next fuel entry type a count s :
  0 <= a -> a + 4 <= Z.of_nat (length entry) -> entry.[attr a Attribute.type] <> type ->
  count <> entry.[DirectoryEntry.attributeCount] ->
  find_attribute (S fuel) entry type a count s
  = find_attribute fuel entry type (a + entry.[attr a Attribute.size]) (count + 1) s.
Proof.
  intros Ha Hl Ht Hc. cbn [find_attribute].
  replace ((0 <=? a) && (a + 4 <=? Z.of_nat (length entry))) with true by lia.
  cbn [negb]. rewrite (proj2 (Z.eqb_neq _ _) Ht), (proj2 (Z.eqb_neq _ _) Hc). done.
Qed.

Lemma find_attribute_total fuel entry type a count s :
  entry.[DirectoryEntry.attributeCount] < count + Z.of_nat fuel ->
  count <= entry.[DirectoryEntry.attributeCount] ->
  (exists a', find_attribute fuel entry type a count s = (Ok a', s) /\
     0 <= a' /\ a' + 4 <= Z.of_nat (length entry) /\ entry.[attr a' Attribute.type] = type)
  \/ find_attribute fuel entry type a count s = (Stop OutOfBounds, s)
  \/ find_attribute fuel entry type a count s = (Stop FatalError, s).
Proof.
  revert a count. induction fuel as [|fuel IH]; intros a count Hf Hc; [lia|].
  cbn [find_attribute].
  destruct (negb ((0 <=? a) && (a + 4 <=? Z.of_nat (length entry)))) eqn:Hb; [by right; left|].
  destruct (Z.eqb_spec entry.[attr a Attribute.type] type) as [Ht|Ht].
  { left. exists a. split; [done|]. lia. }
  destruct (Z.eqb_spec count entry.[DirectoryEntry.attributeCount]); [by right; right|].
  apply IH; lia.
Qed.

(** ** What [NewDirectoryEntry] builds *)

Lemma filename_attribute_size_spec name :
  let n := filename_attribute_size name in
  n mod 8 = 0 /\ Z.of_nat (length name) + 8 <= n <= Z.of_nat (length name) + 15.
Proof.
  unfold filename_attribute_size, ESFS_FILENAME_HEADER_SIZE. cbv zeta.
  set (m := Z.of_nat (length name) + 8 - 1).
  assert (Z.land m (Z.lnot 7) = 8 * (m / 8)) as ->.
  { rewrite <- Z.ldiff_land. change 7 with (Z.ones 3). rewrite Z.ldiff_ones_r by lia.
    rewrite Z.shiftl_mul_pow2, Z.shiftr_div_pow2 by lia. change (2 ^ 3) with 8. lia. }
  pose proof (Z.div_mod m 8 ltac:(lia)). pose proof (Z.mod_pos_bound m 8 ltac:(lia)).
  split; [|lia]. replace (8 * (m / 8) + 8) with ((m / 8 + 1) * 8) by lia. apply Z.mod_mul. lia.
Qed.

Lemma new_directory_attribute_spec entry p :
  Z.of_nat (length entry) = 1024 -> 96 <= p -> p + 32 <= 1024 ->
  exists entry', new_directory_attribute entry p = (entry', p + 32) /\
    length entry' = length entry /\
    entry'.[attr p AttributeDirectory.type] = ESFS_ATTRIBUTE_DIRECTORY /\
    entry'.[attr p AttributeDirectory.size] = 32 /\
    entry'.[attr p AttributeDirectory.childNodes] = entry.[attr p AttributeDirectory.childNodes] /\
    entry'.[attr p AttributeDirectory.indexRootBlock] = 0 /\
    entry'.[attr p AttributeDirectory.totalSize] = 0 /\
    entry'.[DirectoryEntry.attributeCount] = u8 (entry.[DirectoryEntry.attributeCount] + 1) /\
    forall off n, outside off n p 32 -> slice off n entry' = slice off n entry.
Proof.
  intros Hl Hp1 Hp2. unfold new_directory_attribute. eexists. split; [f_equal|].
  - unfold_entry. field_simpl.
    done.
  - unfold_entry. split_and!; [field_simpl; done..| |].
    + field_simpl. apply Z.mod_small, wrap_range. lia.
    + intros off n [Ho1 Ho2].
      repeat (rewrite slice_setf_other; [|field_side|cbn [f_off f_size]; lia]). done.
Qed.

Lemma new_data_attribute_spec entry p nodeType fsize :
  Z.of_nat (length entry) = 1024 -> 96 <= p -> 0 <= fsize -> p + 32 + fsize <= 1024 ->
  exists entry', new_data_attribute entry p nodeType fsize = (entry', 1024 - fsize) /\
    length entry' = length entry /\
    entry'.[attr p AttributeData.type] = ESFS_ATTRIBUTE_DATA /\
    entry'.[attr p AttributeData.size] = 1024 - fsize - p /\
    entry'.[attr p AttributeData.indirection]
      = (if nodeType =? ESFS_NODE_TYPE_DIRECTORY then ESFS_INDIRECTION_L1 else ESFS_INDIRECTION_DIRECT) /\
    entry'.[attr p AttributeData.dataOffset] = ESFS_DATA_OFFSET /\
    entry'.[attr p AttributeData.count] = entry.[attr p AttributeData.count] /\
    entry'.[DirectoryEntry.attributeCount] = u8 (entry.[DirectoryEntry.attributeCount] + 1) /\
    forall off n, outside off n p 6 -> slice off n entry' = slice off n entry.
Proof.
  intros Hl Hp Hf1 Hf2. unfold new_data_attribute.
  change DirectoryEntry_size with 1024. rewrite u64_id by (unfold is_uint; lia).
  assert (forall z, 0 <= z <= 1024 -> z mod 2 ^ (8 * Z.of_nat 2) = z) as Hmod.
  { intros z Hz. apply Z.mod_small. change (2 ^ (8 * Z.of_nat 2)) with 65536. lia. }
  eexists. split; [f_equal|].
  - unfold_entry. field_simpl. cbn [f_size]. rewrite Hmod by lia. lia.
  - unfold_entry. split_and!; [field_simpl; cbn [f_size]; rewrite ?Hmod by lia; done..| | | | |].
    + field_simpl. by destruct (nodeType =? _).
    + field_simpl. done.
    + field_simpl. done.
    + field_simpl. apply Z.mod_small, wrap_range. lia.
    + intros off n [Ho1 Ho2].
      repeat (rewrite slice_setf_other; [|field_side|cbn [f_off f_size]; lia]). done.
Qed.

Lemma write_at_ok off src dst :
  0 <= off -> off + Z.of_nat (length src) <= Z.of_nat (length dst) ->
  write_at off src dst = Some (blit (Z.to_nat off) src dst).
Proof.
  intros. unfold write_at.
  by replace ((0 <=? off) && (off + Z.of_nat (length src) <=? Z.of_nat (length dst))) with true by lia.
Qed.

Lemma write_at_none off src dst :
  Z.of_nat (length dst) < off + Z.of_nat (length src) -> write_at off src dst = None.
Proof.
  intros. unfold write_at. destruct (Z.leb_spec 0 off); [|done].
  destruct (Z.leb_spec (off + Z.of_nat (length src)) (Z.of_nat (length dst))); [lia|done].
Qed.

Lemma read_at_ok off n b :
  0 <= off -> 0 <= n -> off + n <= Z.of_nat (length b) ->
  read_at off n b = Some (slice (Z.to_nat off) (Z.to_nat n) b).
Proof.
  intros. unfold read_at.
  by replace ((0 <=? off) && (0 <=? n) && (off + n <=? Z.of_nat (length b))) with true by lia.
Qed.

(** A member stored by a copy that covers it. *)
Lemma getf_blit_in b off src f :
  (off + length src <= length b)%nat -> (off <= f_off f)%nat ->
  (f_off f + f_size f <= off + length src)%nat ->
  (blit off src b).[f] = src.[Field (f_off f - off) (f_size f)].
Proof.
  intros Hl H1 H2. unfold getf. f_equal. apply list_eq. intros i. rewrite !lookup_slice.
  cbn [f_off f_size]. case_decide; [|done]. rewrite lookup_blit, decide_True by lia. f_equal. lia.
Qed.

Lemma new_filename_attribute_spec entry p fsize name :
  Z.of_nat (length entry) = 1024 -> 96 <= p -> fsize = filename_attribute_size name ->
  p + fsize = 1024 ->
  exists entry', new_filename_attribute entry p fsize name = Some (entry', 1024) /\
    length entry' = length entry /\
    entry'.[attr p AttributeFilename.type] = ESFS_ATTRIBUTE_FILENAME /\
    entry'.[attr p AttributeFilename.size] = fsize /\
    entry'.[attr p AttributeFilename.length] = Z.of_nat (length name) /\
    slice (Z.to_nat p + 8) (length name) entry' = name /\
    entry'.[DirectoryEntry.attributeCount] = u8 (entry.[DirectoryEntry.attributeCount] + 1) /\
    forall off n, outside off n p fsize -> slice off n entry' = slice off n entry.
Proof.
  intros Hl Hp Hfs Hend. pose proof (filename_attribute_size_spec name) as [_ Hsz].
  rewrite <- Hfs in Hsz. unfold new_filename_attribute.
  set (h := le_split 2 _ ++ _).
  assert (length h = 6%nat) as Hh by (subst h; by rewrite !length_app, !length_le_split).
  rewrite write_at_ok by lia. cbn [option_bind mbind].
  assert (length (blit (Z.to_nat p) h entry) = length entry) as Hl1 by (apply length_blit; lia).
  assert (forall z, 0 <= z <= 1024 -> le_combine (le_split 2 z) = z) as Hmod.
  { intros z Hz. rewrite le_combine_split. apply Z.mod_small.
    change (2 ^ (8 * Z.of_nat 2)) with 65536. lia. }
  assert (h.[Field 0 2] = ESFS_ATTRIBUTE_FILENAME /\ h.[Field 2 2] = fsize
          /\ h.[Field 4 2] = Z.of_nat (length name)) as (Ht & Hs & Hn).
  { subst h. split_and!; (etransitivity; [|apply (Hmod _); unfold ESFS_ATTRIBUTE_FILENAME; lia]); done. }
  assert ((blit (Z.to_nat p) h entry).[attr p AttributeFilename.length] = Z.of_nat (length name)) as ->.
  { rewrite getf_blit_in by (unfold_entry; lia). rewrite <- Hn. unfold_entry. do 2 f_equal. lia. }
  rewrite Nat2Z.id, take_ge by lia.
  rewrite write_at_ok by (unfold_entry; lia). cbn [option_bind mbind].
  set (e2 := blit (Z.to_nat (p + _)) name _).
  assert (length e2 = length entry) as Hl2.
  { subst e2. rewrite <- Hl1. apply length_blit. unfold_entry. lia. }
  assert (forall f, (31 + 1 <= f_off f)%nat -> field_in f 1024 ->
            (bump_attributeCount e2).[f] = e2.[f]) as Hbump.
  { intros f Hf1 Hf2. apply getf_setf_other; unfold_entry; field_side. }
  assert (forall k z, (k <= 4)%nat -> h.[Field k 2] = z -> e2.[Field (Z.to_nat p + k) 2] = z) as Hh2.
  { intros k z Hk Hz. subst e2. rewrite getf_blit_other by (unfold_entry; lia).
    rewrite getf_blit_in by (unfold_entry; lia). rewrite <- Hz. unfold_entry. do 2 f_equal. lia. }
  assert (length (bump_attributeCount e2) = length entry) as Hl3.
  { rewrite <- Hl2. apply length_setf. unfold_entry. field_side. }
  eexists. split; [do 2 f_equal|].
  - rewrite Hbump by (unfold_entry; field_side). unfold attr, shift_field.
    unfold_entry. rewrite (Hh2 2%nat fsize) by (lia || done). lia.
  - split_and!.
    + done.
    + rewrite Hbump by (unfold_entry; field_side). apply (Hh2 0%nat); [lia|done].
    + rewrite Hbump by (unfold_entry; field_side). apply (Hh2 2%nat); [lia|done].
    + rewrite Hbump by (unfold_entry; field_side). apply (Hh2 4%nat); [lia|done].
    + unfold bump_attributeCount. rewrite slice_setf_other; [|unfold_entry; field_side|unfold_entry; lia].
      subst e2. unfold_entry. replace (Z.to_nat (p + Z.of_nat 8)) with (Z.to_nat p + 8)%nat by lia.
      apply slice_blit_same; [done|]. lia.
    + unfold bump_attributeCount. rewrite getf_setf_same by (unfold_entry; field_side).
      rewrite Z.mod_small by (apply wrap_range; lia). do 2 f_equal. subst e2.
      rewrite !getf_blit_other by (unfold_entry; lia). done.
    + intros off n [Ho1 Ho2]. unfold bump_attributeCount.
      rewrite slice_setf_other; [|unfold_entry; field_side|unfold_entry; lia].
      subst e2. rewrite !slice_blit_other by (unfold_entry; lia). done.
Qed.

Lemma new_header_spec entry uid nodeType parent contentType :
  Z.of_nat (length entry) = 1024 -> length uid = 16%nat -> length parent = 16%nat ->
  length contentType = 16%nat -> is_uint 8 nodeType ->
  let e := new_header entry uid nodeType parent contentType in
  length e = length entry /\ e.[DirectoryEntry.attributeOffset] = ESFS_ATTRIBUTE_OFFSET /\
  e.[DirectoryEntry.nodeType] = nodeType /\
  slice 0 8 e = ESFS_DIRECTORY_ENTRY_SIGNATURE /\ slice 8 16 e = uid /\
  slice 64 16 e = parent /\ slice 80 16 e = contentType /\
  forall off n, (31 <= off -> off + n <= 64 \/ 96 <= off)%nat -> (31 <= off)%nat ->
    slice off n e = slice off n entry.
Proof.
  intros Hl Hu Hp Hc Ht e. subst e. unfold new_header.
  unfold DirectoryEntry.signature, DirectoryEntry.identifier, DirectoryEntry.attributeOffset,
    DirectoryEntry.nodeType, DirectoryEntry.parent, DirectoryEntry.contentType. cbn [f_off].
  set (e1 := blit 0 _ entry).
  assert (length e1 = length entry) as H1 by (apply length_blit; cbn; lia).
  set (e2 := blit 8 uid e1). assert (length e2 = length entry) as H2 by (rewrite <- H1; apply length_blit; lia).
  set (e3 := setf e2 _ _). assert (length e3 = length entry) as H3 by (rewrite <- H2; apply length_setf; field_side).
  set (e4 := setf e3 _ _). assert (length e4 = length entry) as H4 by (rewrite <- H3; apply length_setf; field_side).
  set (e5 := blit 64 parent e4).
  assert (length e5 = length entry) as H5 by (rewrite <- H4; apply length_blit; lia).
  set (e6 := blit 80 _ e5).
  assert (length e6 = length entry) as H6 by (rewrite <- H5; apply length_blit; lia).
  assert (e1 = blit 0 ESFS_DIRECTORY_ENTRY_SIGNATURE entry) as He1 by done. clearbody e1.
  assert (forall o src b off n, Z.of_nat (length b) = 1024 -> Z.of_nat (o + length src) <= 1024 ->
            (off + n <= o \/ o + length src <= off)%nat ->
            slice off n (blit o src b) = slice off n b) as skip_blit.
  { intros. apply slice_blit_other; lia. }
  assert (forall o k v b off n, Z.of_nat (length b) = 1024 -> Z.of_nat (o + k) <= 1024 ->
            (off + n <= o \/ o + k <= off)%nat ->
            slice off n b.[Field o k := v] = slice off n b) as skip_setf.
  { intros. apply slice_setf_other; unfold field_in; cbn [f_off f_size]; lia. }
  split_and!.
  - done.
  - subst e6. rewrite getf_blit_other by (cbn [f_off f_size]; lia).
    subst e5. rewrite getf_blit_other by (cbn [f_off f_size]; lia).
    subst e4 e3. rewrite getf_setf_other, getf_setf_same by field_side. done.
  - subst e6. rewrite getf_blit_other by (cbn [f_off f_size]; lia).
    subst e5. rewrite getf_blit_other by (cbn [f_off f_size]; lia).
    subst e4. rewrite getf_setf_same by field_side. by apply Z.mod_small.
  - do 2 (etransitivity; [apply skip_blit; lia|]). do 2 (etransitivity; [apply skip_setf; lia|]).
    etransitivity; [apply skip_blit; lia|]. rewrite He1. apply slice_blit_same; [done|cbn; lia].
  - do 2 (etransitivity; [apply skip_blit; lia|]). do 2 (etransitivity; [apply skip_setf; lia|]).
    apply slice_blit_same; lia.
  - etransitivity; [apply skip_blit; lia|]. apply slice_blit_same; lia.
  - apply slice_blit_same; lia.
  - intros off n Hd Ho. do 2 (etransitivity; [apply skip_blit; lia|]). do 2 (etransitivity; [apply skip_setf; lia|]).
    etransitivity; [apply skip_blit; lia|]. rewrite He1. rewrite slice_blit_other by (cbn; lia). done.
Qed.

(** A stored checksum matches, and storing it changes nothing else. *)
Definition checksum_ok (f : field) (b : bytes) : Prop := b.[f] = CalculateCRC32 b.[f := 0] 0.

Lemma setf_setf b f v w : field_in f (length b) -> b.[f := v].[f := w] = b.[f := w].
Proof.
  intros Hf. unfold setf, field_in in *.
  assert (length (blit (f_off f) (le_split (f_size f) v) b) = length b) as Hl
    by (apply length_blit; by rewrite length_le_split).
  apply list_eq. intros i. rewrite !lookup_blit; rewrite ?Hl, ?length_le_split; [|lia..].
  by repeat case_decide.
Qed.

Lemma with_checksum_ok f b :
  field_in f (length b) -> f_size f = 4%nat ->
  checksum_ok f (with_checksum f b) /\ length (with_checksum f b) = length b /\
  forall off n, (off + n <= f_off f \/ f_off f + f_size f <= off)%nat ->
    slice off n (with_checksum f b) = slice off n b.
Proof.
  intros Hf Hs. unfold checksum_ok, with_checksum. split_and!.
  - rewrite !setf_setf by (repeat apply field_in_setf; done).
    rewrite getf_setf_same by (by repeat apply field_in_setf).
    rewrite Hs. apply Z.mod_small, CalculateCRC32_range.
  - rewrite !length_setf; done || by apply field_in_setf.
  - intros off n Ho. rewrite !slice_setf_other by (done || by repeat apply field_in_setf). done.
Qed.

(** The attribute list of an entry: types and offsets, from [p] to the end. *)
Fixpoint attribute_chain (entry : bytes) (p : Z) (l : list (Z * Z)) : Prop :=
  match l with
  | [] => p = DirectoryEntry_size
  | (type, a) :: rest =>
      a = p /\ 0 <= a /\ a + 4 <= Z.of_nat (length entry) /\
      entry.[attr a Attribute.type] = type /\
      attribute_chain entry (a + entry.[attr a Attribute.size]) rest
  end.

(** [FindAttribute] finds the first attribute of the type in such a list. *)
Lemma find_attribute_chain entry l type a p fuel count s :
  attribute_chain entry p l ->
  List.find (fun x => x.1 =? type) l = Some (type, a) ->
  count + Z.of_nat (length l) <= entry.[DirectoryEntry.attributeCount] ->
  (length l <= fuel)%nat ->
  find_attribute fuel entry type p count s = (Ok a, s).
Proof.
  revert p fuel count. induction l as [|[t a0] l IH]; intros p fuel count Hc Hf Hn Hfu; [done|].
  cbn [attribute_chain List.find fst] in Hc, Hf. destruct Hc as (-> & H0 & Hl & Ht & Hc).
  cbn [length] in *. destruct (Z.eqb_spec t type) as [->|Hne].
  - injection Hf as ->. by apply find_attribute_here.
  - destruct fuel as [|fuel]; [lia|].
    rewrite find_attribute_next by (congruence || lia). apply IH; [done..|lia|lia].
Qed.

Lemma FindAttribute_chain entry l type a s :
  attribute_chain entry entry.[DirectoryEntry.attributeOffset] l ->
  List.find (fun x => x.1 =? type) l = Some (type, a) ->
  Z.of_nat (length l) = entry.[DirectoryEntry.attributeCount] ->
  FindAttribute entry type s = (Ok a, s).
Proof.
  intros Hc Hf Hn. apply (find_attribute_chain entry l); [done..|lia|lia].
Qed.

(** The attributes of a new entry of type [nodeType] whose filename attribute
    starts at [fn]. *)
Definition new_attributes (nodeType fn : Z) : list (Z * Z) :=
  if nodeType =? ESFS_NODE_TYPE_DIRECTORY
  then [(ESFS_ATTRIBUTE_DIRECTORY, 96); (ESFS_ATTRIBUTE_DATA, 128); (ESFS_ATTRIBUTE_FILENAME, fn)]
  else [(ESFS_ATTRIBUTE_DATA, 96); (ESFS_ATTRIBUTE_FILENAME, fn)].

Definition data_attribute_offset (nodeType : Z) : Z :=
  if nodeType =? ESFS_NODE_TYPE_DIRECTORY then 128 else 96.

(** What a new entry holds. *)
Record new_entry (e uid parent name contentType : bytes) (nodeType : Z) : Prop := {
  ne_length : Z.of_nat (length e) = DirectoryEntry_size;
  ne_signature : slice 0 8 e = ESFS_DIRECTORY_ENTRY_SIGNATURE;
  ne_identifier : slice 8 16 e = uid;
  ne_parent : slice 64 16 e = parent;
  ne_contentType : slice 80 16 e = contentType;
  ne_nodeType : e.[DirectoryEntry.nodeType] = nodeType;
  ne_fileSize : e.[DirectoryEntry.fileSize] = 0;
  ne_checksum : checksum_ok DirectoryEntry.checksum e;
  ne_attributeOffset : e.[DirectoryEntry.attributeOffset] = ESFS_ATTRIBUTE_OFFSET;
  ne_attributeCount : e.[DirectoryEntry.attributeCount]
    = Z.of_nat (length (new_attributes nodeType (DirectoryEntry_size - filename_attribute_size name)));
  ne_attributes : attribute_chain e ESFS_ATTRIBUTE_OFFSET
    (new_attributes nodeType (DirectoryEntry_size - filename_attribute_size name));
  ne_name_length : e.[attr (DirectoryEntry_size - filename_attribute_size name) AttributeFilename.length]
    = Z.of_nat (length name);
  ne_name : slice (Z.to_nat (DirectoryEntry_size - filename_attribute_size name) + 8) (length name) e = name;
  ne_indirection : e.[attr (data_attribute_offset nodeType) AttributeData.indirection]
    = if nodeType =? ESFS_NODE_TYPE_DIRECTORY then ESFS_INDIRECTION_L1 else ESFS_INDIRECTION_DIRECT;
  ne_dataOffset : e.[attr (data_attribute_offset nodeType) AttributeData.dataOffset] = ESFS_DATA_OFFSET;
  ne_dataSize : e.[attr (data_attribute_offset nodeType) AttributeData.size]
    = DirectoryEntry_size - filename_attribute_size name - data_attribute_offset nodeType;
  ne_dataCount : e.[attr (data_attribute_offset nodeType) AttributeData.count] = 0;
  ne_directory : nodeType = ESFS_NODE_TYPE_DIRECTORY ->
    e.[attr 96 AttributeDirectory.childNodes] = 0 /\ e.[attr 96 AttributeDirectory.indexRootBlock] = 0 /\
    e.[attr 96 AttributeDirectory.totalSize] = 0 }.

Lemma getf_same_slice b b' f :
  slice (f_off f) (f_size f) b' = slice (f_off f) (f_size f) b -> b'.[f] = b.[f].
Proof. intros H. unfold getf. by rewrite H. Qed.

Lemma getf_zeros n f : (replicate n 0).[f] = 0.
Proof.
  unfold getf, slice. rewrite drop_replicate, take_replicate.
  generalize (f_size f `min` (n - f_off f))%nat as k. intros k.
  induction k as [|k IH]; [done|]. cbn [replicate le_combine]. by rewrite IH.
Qed.

(** The longest name that leaves the data attribute its header. *)
Definition max_name : Z := 856.

(** A member or copy that later writes did not touch. *)
Ltac untouched H :=
  rewrite H by (unfold_entry; unfold outside, DirectoryEntry.checksum; cbn [f_off f_size]; lia).

(** The parts in turn: [e0] has its header, [e1] the directory attribute (for
    directories), [e2] the data attribute, [e3] the filename and [e] the checksum. *)
Section Assemble.
Context (nodeType : Z) (uid parent name contentType e0 e1 e2 e3 e : bytes).
Let fsize : Z := filename_attribute_size name.
Let p : Z := data_attribute_offset nodeType.
Hypothesis (Ht : nodeType = ESFS_NODE_TYPE_FILE \/ nodeType = ESFS_NODE_TYPE_DIRECTORY).
Hypothesis (Hf864 : 8 <= fsize <= 864) (Hp128 : p = 96 \/ p = 128).
Hypothesis (L0 : length e0 = Z.to_nat 1024).
Hypothesis (O0 : e0.[DirectoryEntry.attributeOffset] = ESFS_ATTRIBUTE_OFFSET).
Hypothesis (T0 : e0.[DirectoryEntry.nodeType] = nodeType).
Hypothesis (S0 : slice 0 8 e0 = ESFS_DIRECTORY_ENTRY_SIGNATURE) (I0 : slice 8 16 e0 = uid).
Hypothesis (P0 : slice 64 16 e0 = parent) (C0 : slice 80 16 e0 = contentType).
Hypothesis (Z0 : forall f, (31 <= f_off f -> f_off f + f_size f <= 64 \/ 96 <= f_off f)%nat ->
    (31 <= f_off f)%nat -> e0.[f] = 0).
Hypothesis (L1 : length e1 = length e0).
Hypothesis (F1 : forall off n, (off + n <= 31 \/ 32 <= off)%nat ->
  (Z.of_nat (off + n) <= 96 \/ p <= Z.of_nat off) -> slice off n e1 = slice off n e0).
Hypothesis (N1 : e1.[DirectoryEntry.attributeCount] = (if nodeType =? ESFS_NODE_TYPE_DIRECTORY then 1 else 0)).
Hypothesis (D1 : nodeType = ESFS_NODE_TYPE_DIRECTORY ->
      e1.[attr 96 AttributeDirectory.type] = ESFS_ATTRIBUTE_DIRECTORY /\
      e1.[attr 96 AttributeDirectory.size] = 32 /\
      e1.[attr 96 AttributeDirectory.childNodes] = 0 /\ e1.[attr 96 AttributeDirectory.indexRootBlock] = 0 /\
      e1.[attr 96 AttributeDirectory.totalSize] = 0).
Hypothesis (L2 : length e2 = length e1).
Hypothesis (DT : e2.[attr p AttributeData.type] = ESFS_ATTRIBUTE_DATA).
Hypothesis (DS : e2.[attr p AttributeData.size] = 1024 - fsize - p).
Hypothesis (DI : e2.[attr p AttributeData.indirection]
  = (if nodeType =? ESFS_NODE_TYPE_DIRECTORY then ESFS_INDIRECTION_L1 else ESFS_INDIRECTION_DIRECT)).
Hypothesis (DO : e2.[attr p AttributeData.dataOffset] = ESFS_DATA_OFFSET).
Hypothesis (DC : e2.[attr p AttributeData.count] = e1.[attr p AttributeData.count]).
Hypothesis (N2 : e2.[DirectoryEntry.attributeCount] = u8 (e1.[DirectoryEntry.attributeCount] + 1)).
Hypothesis (F2 : forall off n, outside off n p 6 -> slice off n e2 = slice off n e1).
Hypothesis (L3 : length e3 = length e2).
Hypothesis (FT : e3.[attr (1024 - fsize) AttributeFilename.type] = ESFS_ATTRIBUTE_FILENAME).
Hypothesis (FS : e3.[attr (1024 - fsize) AttributeFilename.size] = fsize).
Hypothesis (FL : e3.[attr (1024 - fsize) AttributeFilename.length] = Z.of_nat (length name)).
Hypothesis (FN : slice (Z.to_nat (1024 - fsize) + 8) (length name) e3 = name).
Hypothesis (N3 : e3.[DirectoryEntry.attributeCount] = u8 (e2.[DirectoryEntry.attributeCount] + 1)).
Hypothesis (F3 : forall off n, outside off n (1024 - fsize) fsize -> slice off n e3 = slice off n e2).
Hypothesis (K4 : checksum_ok DirectoryEntry.checksum e) (L4 : length e = length e3).
Hypothesis (F4 : forall off n, (off + n <= 24 \/ 28 <= off)%nat -> slice off n e = slice off n e3).

Lemma assemble_header off n :
  (off + n <= 24 \/ 28 <= off /\ off + n <= 31 \/ 32 <= off /\ off + n <= 96)%nat ->
  slice off n e = slice off n e0.
Proof using All.
  intros Ho. rewrite F4 by lia. unfold outside in *. rewrite F3, F2 by lia. apply F1; lia.
Qed.

Lemma assemble_data f :
  (96 <= f_off f)%nat -> Z.of_nat (f_off f + f_size f) <= 1024 - fsize -> e.[f] = e2.[f].
Proof using All.
  intros H1 H2. apply getf_same_slice. rewrite F4 by lia. apply F3. unfold outside. lia.
Qed.

Lemma assemble_directory f :
  (96 <= f_off f)%nat -> Z.of_nat (f_off f + f_size f) <= p -> e.[f] = e1.[f].
Proof using All.
  intros H1 H2. rewrite assemble_data by lia. apply getf_same_slice, F2. unfold outside. lia.
Qed.

Lemma assemble_filename f : 1024 - fsize <= Z.of_nat (f_off f) -> e.[f] = e3.[f].
Proof using All.
  intros H1. apply getf_same_slice. rewrite F4 by lia. done.
Qed.

Lemma assemble_count :
  e.[DirectoryEntry.attributeCount] = if nodeType =? ESFS_NODE_TYPE_DIRECTORY then 3 else 2.
Proof using All.
  rewrite (getf_same_slice e3) by (apply F4; unfold_entry; lia). rewrite N3, N2, N1. by case_match.
Qed.

Lemma assemble_chain : attribute_chain e ESFS_ATTRIBUTE_OFFSET (new_attributes nodeType (1024 - fsize)).
Proof using All.
  assert (e.[attr p Attribute.type] = ESFS_ATTRIBUTE_DATA /\ e.[attr p Attribute.size] = 1024 - fsize - p
    /\ e.[attr (1024 - fsize) Attribute.type] = ESFS_ATTRIBUTE_FILENAME
    /\ e.[attr (1024 - fsize) Attribute.size] = fsize) as (GT & GS & GFT & GFS).
  { split_and!; [rewrite assemble_data|rewrite assemble_data|rewrite assemble_filename|rewrite assemble_filename];
      (done || unfold_entry; lia). }
  assert (attribute_chain e p [(ESFS_ATTRIBUTE_DATA, p); (ESFS_ATTRIBUTE_FILENAME, 1024 - fsize)]) as Hch.
  { cbn [attribute_chain]. rewrite GS, GFS. change DirectoryEntry_size with 1024. split_and!; done || lia. }
  pose proof assemble_directory as G1. clear - Hch D1 G1 L0 L1 L2 L3 L4 Ht.
  unfold new_attributes. unfold p, data_attribute_offset in *. destruct Ht as [-> | ->]; [done|].
  destruct (D1 eq_refl) as (E1 & E2 & _). cbn [Z.eqb ESFS_NODE_TYPE_DIRECTORY Pos.eqb] in *.
  cbn [attribute_chain]. cbn [attribute_chain] in Hch.
  assert (e.[attr 96 Attribute.size] = 32) as -> by (rewrite G1 by (unfold_entry; lia); done).
  split_and!; [done|lia|lia|rewrite G1 by (unfold_entry; lia); done|apply Hch..].
Qed.

Lemma assemble_new_entry : new_entry e uid parent name contentType nodeType.
Proof using All.
  pose proof assemble_chain. split; change DirectoryEntry_size with 1024; fold fsize; fold p; try done.
  - lia.
  - rewrite assemble_header by lia. done.
  - rewrite assemble_header by lia. done.
  - rewrite assemble_header by lia. done.
  - rewrite assemble_header by lia. done.
  - rewrite (getf_same_slice e0); [done|apply assemble_header; cbn; lia].
  - rewrite (getf_same_slice e0); [apply Z0; cbn; lia|apply assemble_header; cbn; lia].
  - rewrite (getf_same_slice e0); [done|apply assemble_header; cbn; lia].
  - rewrite assemble_count. unfold new_attributes. by case_match.
  - rewrite assemble_filename by (unfold_entry; lia). done.
  - rewrite F4 by lia. done.
  - rewrite assemble_data by (unfold_entry; lia). done.
  - rewrite assemble_data by (unfold_entry; lia). done.
  - rewrite assemble_data by (unfold_entry; lia). done.
  - rewrite assemble_data by (unfold_entry; lia). rewrite DC. rewrite (getf_same_slice e0).
    + apply Z0; unfold_entry; lia.
    + apply F1; unfold_entry; lia.
  - intros Hd. destruct (D1 Hd) as (_ & _ & ? & ? & ?).
    assert (p = 128) by (unfold p, data_attribute_offset; by rewrite Hd).
    split_and!; rewrite assemble_directory by (unfold_entry; lia); done.
Qed.
End Assemble.

Lemma new_entry_parts nodeType (uid parent name contentType : bytes) :
  nodeType = ESFS_NODE_TYPE_FILE \/ nodeType = ESFS_NODE_TYPE_DIRECTORY ->
  length uid = 16%nat -> length parent = 16%nat -> length contentType = 16%nat ->
  Z.of_nat (length name) <= max_name ->
  let fsize := filename_attribute_size name in
  let e0 := new_header (replicate DirectoryEntry.sizeof 0) uid nodeType parent contentType in
  exists e1 e2 e3,
    (if nodeType =? ESFS_NODE_TYPE_DIRECTORY
     then new_directory_attribute e0 e0.[DirectoryEntry.attributeOffset]
     else (e0, e0.[DirectoryEntry.attributeOffset])) = (e1, data_attribute_offset nodeType) /\
    new_data_attribute e1 (data_attribute_offset nodeType) nodeType fsize = (e2, 1024 - fsize) /\
    new_filename_attribute e2 (1024 - fsize) fsize name = Some (e3, 1024) /\
    new_entry (with_checksum DirectoryEntry.checksum e3) uid parent name contentType nodeType.
Proof.
  intros Ht Hu Hp Hc Hn fsize e0. unfold max_name in Hn.
  pose proof (filename_attribute_size_spec name) as [Hm8 Hfs]. fold fsize in Hm8, Hfs.
  assert (fsize <= 864) as Hf864 by (pose proof (Z.div_mod fsize 8 ltac:(lia)); lia).
  destruct (new_header_spec (replicate DirectoryEntry.sizeof 0) uid nodeType parent contentType)
    as (L0 & O0 & T0 & S0 & I0 & P0 & C0 & F0); [by rewrite length_replicate|done..| |].
  { destruct Ht as [-> | ->]; by split. }
  fold e0 in L0, O0, T0, S0, I0, P0, C0, F0. clearbody e0. rewrite length_replicate in L0.
  assert (forall f, (31 <= f_off f -> f_off f + f_size f <= 64 \/ 96 <= f_off f)%nat ->
    (31 <= f_off f)%nat -> e0.[f] = 0) as Z0.
  { intros f H1 H2. rewrite (getf_same_slice (replicate DirectoryEntry.sizeof 0)), getf_zeros; [done|].
    by apply F0. }
  clear F0. rewrite O0. change DirectoryEntry.sizeof with (Z.to_nat 1024) in L0.
  set (p := data_attribute_offset nodeType).
  assert (p = 96 \/ p = 128) as Hp128 by (unfold p, data_attribute_offset; case_match; lia).
  assert (exists e1, (if nodeType =? ESFS_NODE_TYPE_DIRECTORY then new_directory_attribute e0 ESFS_ATTRIBUTE_OFFSET
     else (e0, ESFS_ATTRIBUTE_OFFSET)) = (e1, p) /\ length e1 = length e0 /\
     (forall off n, (off + n <= 31 \/ 32 <= off)%nat -> (Z.of_nat (off + n) <= 96 \/ p <= Z.of_nat off) ->
        slice off n e1 = slice off n e0) /\
     e1.[DirectoryEntry.attributeCount] = (if nodeType =? ESFS_NODE_TYPE_DIRECTORY then 1 else 0) /\
     (nodeType = ESFS_NODE_TYPE_DIRECTORY ->
      e1.[attr 96 AttributeDirectory.type] = ESFS_ATTRIBUTE_DIRECTORY /\
      e1.[attr 96 AttributeDirectory.size] = 32 /\
      e1.[attr 96 AttributeDirectory.childNodes] = 0 /\ e1.[attr 96 AttributeDirectory.indexRootBlock] = 0 /\
      e1.[attr 96 AttributeDirectory.totalSize] = 0))
    as (e1 & R1 & L1 & F1 & N1 & D1).
  { assert (e0.[DirectoryEntry.attributeCount] = 0) as Hz by (apply Z0; unfold_entry; lia).
    unfold p, data_attribute_offset. destruct Ht as [-> | ->]; cbn [Z.eqb ESFS_NODE_TYPE_FILE ESFS_NODE_TYPE_DIRECTORY Pos.eqb].
    - exists e0. split_and!; done.
    - destruct (new_directory_attribute_spec e0 96) as (e1 & R & L & T & S & CN & IR & TS & AC & F); [lia..|].
      exists e1. split_and!; try done.
      + intros off n H1 H2. apply F. split; [done|]. lia.
      + by rewrite AC, Hz.
      + intros _. split_and!; try done. rewrite CN. apply Z0; unfold_entry; lia. }
  destruct (new_data_attribute_spec e1 p nodeType fsize) as (e2 & R2 & L2 & DT & DS & DI & DO & DC & N2 & F2);
    [lia..|].
  destruct (new_filename_attribute_spec e2 (1024 - fsize) fsize name)
    as (e3 & R3 & L3 & FT & FS & FL & FN & N3 & F3); [lia|lia|done|lia|].
  exists e1, e2, e3. split_and!; try done.
  destruct (with_checksum_ok DirectoryEntry.checksum e3) as (K4 & L4 & F4); [unfold DirectoryEntry.checksum; field_side|done|].
  eapply (assemble_new_entry nodeType uid parent name contentType e0 e1 e2 e3); (done || lia).
Qed.

Lemma GenerateUniqueIdentifier_next s :
  GenerateUniqueIdentifier false s
  = (Ok (slice 168 16 (superblock s)),
     set_superblock (blit 168 (increment_identifier (slice 168 16 (superblock s))) (superblock s)) s).
Proof. done. Qed.

Lemma NewDirectoryEntry_run nodeType parent name contentType s :
  nodeType = ESFS_NODE_TYPE_FILE \/ nodeType = ESFS_NODE_TYPE_DIRECTORY ->
  length parent = 16%nat -> length contentType = 16%nat -> Z.of_nat (length name) <= max_name ->
  length (superblock s) = Superblock.sizeof ->
  let uid := slice 168 16 (superblock s) in
  exists e,
    NewDirectoryEntry (replicate DirectoryEntry.sizeof 0) nodeType parent name contentType s
      = (Ok e, set_superblock (blit 168 (increment_identifier uid) (superblock s)) s) /\
    new_entry e uid parent name contentType nodeType.
Proof.
  intros Ht Hp Hc Hn Hsb uid.
  assert (length uid = 16%nat) as Hu by (apply length_slice; rewrite Hsb; vm_compute; lia).
  destruct (new_entry_parts nodeType uid parent name contentType Ht Hu Hp Hc Hn)
    as (e1 & e2 & e3 & H1 & H2 & H3 & Hne).
  exists (with_checksum DirectoryEntry.checksum e3). split; [|done].
  unfold NewDirectoryEntry. rewrite (bind_ok _ _ _ _ _ (GenerateUniqueIdentifier_next s)).
  fold uid. cbv zeta. rewrite H1, H2, H3. done.
Qed.

(** The attributes of a new entry are found, and its name compares equal to
    exactly the name it was made with. *)
Lemma new_entry_find e uid parent name contentType nodeType s :
  nodeType = ESFS_NODE_TYPE_FILE \/ nodeType = ESFS_NODE_TYPE_DIRECTORY ->
  Z.of_nat (length name) <= max_name ->
  new_entry e uid parent name contentType nodeType ->
  FindAttribute e ESFS_ATTRIBUTE_DATA s = (Ok (data_attribute_offset nodeType), s) /\
  FindAttribute e ESFS_ATTRIBUTE_FILENAME s
    = (Ok (DirectoryEntry_size - filename_attribute_size name), s) /\
  (nodeType = ESFS_NODE_TYPE_DIRECTORY -> FindAttribute e ESFS_ATTRIBUTE_DIRECTORY s = (Ok 96, s)) /\
  forall name', filename_is e name' s = (Ok (bool_decide (name' = name)), s).
Proof.
  intros Ht Hn []. rewrite <- ne_attributeOffset0 in ne_attributes0.
  set (fn := DirectoryEntry_size - filename_attribute_size name) in *.
  assert (forall type a, List.find (fun x => x.1 =? type) (new_attributes nodeType fn) = Some (type, a) ->
    FindAttribute e type s = (Ok a, s)) as Hfind.
  { intros type a Hf. by apply (FindAttribute_chain e (new_attributes nodeType fn)). }
  assert (FindAttribute e ESFS_ATTRIBUTE_FILENAME s = (Ok fn, s)) as Hname.
  { apply Hfind. by destruct Ht as [-> | ->]. }
  split_and!; [apply Hfind; by destruct Ht as [-> | ->]|done|intros ->; by apply Hfind|].
  intros name'. unfold filename_is. rewrite (bind_ok _ _ _ _ _ Hname). rewrite ne_name_length0.
  destruct (Z.eqb_spec (Z.of_nat (length name)) (Z.of_nat (length name'))) as [He|He].
  - pose proof (filename_attribute_size_spec name) as [Hm Hsz].
    pose proof (Z.div_mod (filename_attribute_size name) 8 ltac:(lia)).
    change DirectoryEntry_size with 1024 in *. change (Z.of_nat AttributeFilename.filename_offset) with 8.
    unfold max_name in Hn. rewrite read_at_ok by lia. cbn [lift_opt].
    replace (Z.to_nat (fn + 8)) with (Z.to_nat fn + 8)%nat by lia. rewrite Nat2Z.id, ne_name0.
    unfold bind, ret. do 2 f_equal. apply bool_decide_ext. split; by intros ->.
  - rewrite bool_decide_eq_false_2 by congruence. done.
Qed.

(** ** Successive identifiers *)

Fixpoint generate_identifiers (n : nat) : M (esfs D) (list bytes) :=
  match n with
  | O => ret []
  | S n' => let! u := GenerateUniqueIdentifier false in
            let! us := generate_identifiers n' in
            ret (u :: us)
  end.

Lemma generate_identifiers_values n s :
  bytes_ok (superblock s) -> length (superblock s) = Superblock.sizeof ->
  let v := le_combine (slice 168 16 (superblock s)) in
  exists us s', generate_identifiers n s = (Ok us, s') /\
    le_combine <$> us = (fun i => (v + Z.of_nat i) mod 2 ^ 128) <$> seq 0 n.
Proof.
  revert s. induction n as [|n IH]; intros s Hok Hl v; [by eexists [], s|].
  cbn [generate_identifiers]. rewrite (bind_ok _ _ _ _ _ (GenerateUniqueIdentifier_next s)).
  set (u := slice 168 16 (superblock s)) in *.
  assert (bytes_ok u) as Hu by (by apply bytes_ok_slice).
  assert (length u = 16%nat) as Hlu by (apply length_slice; rewrite Hl; vm_compute; lia).
  destruct (increment_identifier_value u Hu) as (Hli & Hoki & Hv). rewrite Hlu in Hli, Hv.
  set (s1 := set_superblock _ s).
  assert (length (superblock s1) = Superblock.sizeof) as Hl1.
  { cbn. rewrite length_blit; [done|]. rewrite Hli, Hl. vm_compute. lia. }
  destruct (IH s1 (bytes_ok_blit _ _ _ Hoki Hok) Hl1) as (us & s' & Hrun & Hus).
  rewrite (bind_ok _ _ _ _ _ Hrun). eexists (u :: us), s'. split; [done|].
  rewrite fmap_cons, Hus. cbn [seq]. rewrite fmap_cons. f_equal.
  - fold v. rewrite Z.add_0_r. symmetry. apply Z.mod_small.
    pose proof (le_combine_range u Hu) as H. by rewrite Hlu in H.
  - rewrite <- fmap_S_seq, <- list_fmap_compose. apply list_fmap_ext. intros _ i _. cbn [compose].
    cbn [superblock set_superblock s1].
    rewrite slice_blit_same by (rewrite ?Hli, ?Hl; vm_compute; (done || lia)).
    rewrite Hv. change (2 ^ (8 * Z.of_nat 16)) with (2 ^ 128). fold v.
    rewrite Zplus_mod_idemp_l. f_equal. lia.
Qed.

(** ** The properties *)

(**  [FindAttribute] ends on every entry, however damaged: it returns the
    offset of an attribute of the requested type inside the entry, or stops
    because the attribute list is exhausted ([EsFSError]) or leaves the entry. *)
Theorem FindAttribute_total entry type s :
  bytes_ok entry -> Z.of_nat (length entry) = DirectoryEntry_size ->
  (exists a, FindAttribute entry type s = (Ok a, s) /\ 0 <= a /\ a + 4 <= DirectoryEntry_size /\
     entry.[attr a Attribute.type] = type)
  \/ FindAttribute entry type s = (Stop OutOfBounds, s)
  \/ FindAttribute entry type s = (Stop FatalError, s).
Proof.
  intros Hok Hl. change DirectoryEntry_size with 1024 in *. rewrite <- Hl.
  pose proof (getf_range entry DirectoryEntry.attributeCount Hok) as [Hr _]; [unfold_entry; field_side|].
  apply find_attribute_total; lia.
Qed.

(** C37.  Identifiers handed out by [GenerateUniqueIdentifier] on one volume are
    distinct: no two of up to 2^128 successive calls return the same one. *)
Theorem GenerateUniqueIdentifier_unique n s :
  bytes_ok (superblock s) -> length (superblock s) = Superblock.sizeof -> Z.of_nat n <= 2 ^ 128 ->
  exists us s', generate_identifiers n s = (Ok us, s') /\ length us = n /\ NoDup us.
Proof.
  intros Hok Hl Hn. destruct (generate_identifiers_values n s Hok Hl) as (us & s' & Hrun & Hus).
  exists us, s'. split; [done|]. split.
  { apply (f_equal length) in Hus. by rewrite !length_fmap, length_seq in Hus. }
  apply (NoDup_fmap_1 le_combine). rewrite Hus. apply NoDup_alt. intros i j x Hi Hj.
  rewrite !list_lookup_fmap, !fmap_Some in Hi, Hj.
  destruct Hi as (i' & [-> Hi]%lookup_seq & ->), Hj as (j' & [-> Hj]%lookup_seq & Heq).
  set (v := le_combine _) in Heq. clearbody v. cbn [Nat.add] in Heq.
  pose proof (Z.div_mod (v + Z.of_nat i) (2 ^ 128) ltac:(lia)).
  pose proof (Z.div_mod (v + Z.of_nat j) (2 ^ 128) ltac:(lia)). nia.
Qed.

(** [NewDirectoryEntry] on a zeroed entry and a name of up to 856 bytes
    returns a complete entry (signature, the next identifier, parent, content
    type, attribute list, data attribute of the right indirection, checksum) and
    advances the volume's identifier; its assertion holds. *)
Theorem NewDirectoryEntry_correct nodeType parent name contentType s :
  nodeType = ESFS_NODE_TYPE_FILE \/ nodeType = ESFS_NODE_TYPE_DIRECTORY ->
  length parent = 16%nat -> length contentType = 16%nat -> Z.of_nat (length name) <= max_name ->
  length (superblock s) = Superblock.sizeof ->
  let uid := slice 168 16 (superblock s) in
  exists e,
    NewDirectoryEntry (replicate DirectoryEntry.sizeof 0) nodeType parent name contentType s
      = (Ok e, set_superblock (blit 168 (increment_identifier uid) (superblock s)) s) /\
    new_entry e uid parent name contentType nodeType.
Proof. apply NewDirectoryEntry_run. Qed.


(**  Nothing checks the length of a name: for a file whose name is longer than
    920 bytes, the 16-bit size of the data attribute wraps around and
    [NewDirectoryEntry] writes the filename attribute outside the entry. *)
Theorem NewDirectoryEntry_long_name parent name contentType s :
  length parent = 16%nat -> length contentType = 16%nat ->
  920 < Z.of_nat (length name) <= 60000 ->
  length (superblock s) = Superblock.sizeof ->
  (NewDirectoryEntry (replicate DirectoryEntry.sizeof 0) ESFS_NODE_TYPE_FILE parent name contentType s).1
  = Stop OutOfBounds.
Proof.
  intros Hp Hc Hn Hl. unfold NewDirectoryEntry.
  rewrite (bind_ok _ _ _ _ _ (GenerateUniqueIdentifier_next s)).
  set (uid := slice 168 16 _).
  assert (length uid = 16%nat) as Hu by (apply length_slice; rewrite Hl; vm_compute; lia).
  destruct (new_header_spec (replicate DirectoryEntry.sizeof 0) uid ESFS_NODE_TYPE_FILE parent contentType)
    as (L0 & O0 & _); [by rewrite length_replicate|done..|by split|].
  cbv zeta. cbn [Z.eqb ESFS_NODE_TYPE_FILE ESFS_NODE_TYPE_DIRECTORY Pos.eqb]. rewrite O0.
  set (e0 := new_header _ _ _ _ _) in *. clearbody e0. rewrite length_replicate in L0.
  pose proof (filename_attribute_size_spec name) as [_ Hf].
  set (fsize := filename_attribute_size name) in *. clearbody fsize.
  unfold new_data_attribute. change DirectoryEntry_size with 1024.
  change ESFS_ATTRIBUTE_OFFSET with 96. change DirectoryEntry.sizeof with (Z.to_nat 1024) in L0.
  set (e1 := bump_attributeCount _).
  assert (length e1 = length e0) as Hl1 by (unfold e1; unfold_entry; rewrite !length_setf by field_side; done).
  assert (e1.[attr 96 AttributeData.size] = 1024 - fsize - 96 + 65536) as Hsz.
  { unfold e1. unfold_entry. field_simpl. cbn [f_size]. change (2 ^ (8 * Z.of_nat 2)) with 65536.
    unfold u64, wrap. rewrite <- (Z.mod_add _ 1 65536) by lia. symmetry.
    apply (Z.mod_unique_pos _ _ (2 ^ 48)); [lia|].
    rewrite <- (Z.mod_unique_pos (1024 - fsize - 96) (2 ^ 64) (-1) (1024 - fsize - 96 + 2 ^ 64)) by lia.
    lia. }
  rewrite Hsz. unfold new_filename_attribute. rewrite write_at_none by lia. done.
Qed.
End Node.

(** ** Witnesses *)

(** "a.txt" *)
Definition sample_name : bytes := [97; 46; 116; 120; 116].
Definition no_rand : nat -> Z := fun _ => 0.
Definition zero_id : bytes := replicate 16 0.

Lemma FindAttribute_total_witness :
  (exists a, FindAttribute (replicate DirectoryEntry.sizeof 0) 7 (small_volume 6 0)
               = (Ok a, small_volume 6 0) /\ 0 <= a /\ a + 4 <= DirectoryEntry_size /\
     (replicate DirectoryEntry.sizeof 0).[attr a Attribute.type] = 7)
  \/ FindAttribute (replicate DirectoryEntry.sizeof 0) 7 (small_volume 6 0)
     = (Stop OutOfBounds, small_volume 6 0)
  \/ FindAttribute (replicate DirectoryEntry.sizeof 0) 7 (small_volume 6 0)
     = (Stop FatalError, small_volume 6 0).
Proof.
  apply FindAttribute_total; [apply bytes_ok_replicate0|by rewrite length_replicate].
Defined.

Lemma small_superblock_ok : bytes_ok small_superblock /\ length small_superblock = Superblock.sizeof.
Proof. split; [unfold small_superblock; auto 10 with essence|vm_compute; reflexivity]. Qed.

Lemma GenerateUniqueIdentifier_unique_witness :
  exists us s', generate_identifiers no_rand 300 (small_volume 6 0) = (Ok us, s') /\
    length us = 300%nat /\ NoDup us.
Proof. apply GenerateUniqueIdentifier_unique; [apply small_superblock_ok..|lia]. Defined.

Lemma NewDirectoryEntry_correct_witness :
  let uid := slice 168 16 small_superblock in
  exists e, NewDirectoryEntry no_rand (replicate DirectoryEntry.sizeof 0) ESFS_NODE_TYPE_DIRECTORY zero_id
              sample_name zero_id (small_volume 6 0)
      = (Ok e, set_superblock (blit 168 (increment_identifier uid) small_superblock) (small_volume 6 0)) /\
    new_entry e uid zero_id sample_name zero_id ESFS_NODE_TYPE_DIRECTORY.
Proof.
  apply NewDirectoryEntry_correct; [by right|done..|unfold max_name; cbn; lia|apply small_superblock_ok].
Defined.


Lemma NewDirectoryEntry_long_name_witness :
  (NewDirectoryEntry no_rand (replicate DirectoryEntry.sizeof 0) ESFS_NODE_TYPE_FILE zero_id
     (replicate 1000 97) zero_id (small_volume 6 0)).1 = Stop OutOfBounds.
Proof.
  apply NewDirectoryEntry_long_name; [done..|rewrite length_replicate; lia|apply small_superblock_ok].
Defined.
