(* ===== verification/EsfsFile.v ===== *)
(** * EsFS file data (shared/esfs2.h: AccessNode, ResizeNode)

    A file's data is either stored directly in its data attribute or in blocks
    listed there as extents.  The file is modelled after the code; the second half
    relates it to the list of blocks that the extents stand for. *)

From stdpp Require Import gmap.
From S2P Require Import Prelude Crc Layout EsfsExtent EsfsTypes EsfsAlloc EsfsNode.

Section File.
Context {D : Type} {dev : BlockDevice D}.

(** ** Reading and writing *)

(** The search for the extent that holds block [block] of the file: the loop over
    the [n] remaining extents. *)
Fixpoint find_extent (n : nat) (extents : bytes) (end_ position blockInFile extentStart block : Z)
  : M (esfs D) (option Z) :=
  match n with
  | O => ret None
  | S n' =>
      let! d := lift_opt OutOfBounds (DecodeExtent extentStart extents position end_) in
      if block <? u64 (blockInFile + d_extentCount d)
      then ret (Some (u64 (d_previousExtentStart d + (block - blockInFile))))
      else find_extent n' extents end_ (d_position d) (u64 (blockInFile + d_extentCount d))
             (d_previousExtentStart d) block
  end.

(** The block of the volume that holds block [block] of the file whose data
    attribute is at offset [a]. *)
Definition block_of_file (node : bytes) (a block : Z) : M (esfs D) Z :=
  let dataOffset := node.[attr a AttributeData.dataOffset] in
  let extents := drop (Z.to_nat (a + dataOffset)) node in
  assert (negb (node.[attr a AttributeData.count] =? 0) || (node.[DirectoryEntry.fileSize] =? 0)) ;;;
  let! found := find_extent (Z.to_nat node.[attr a AttributeData.count]) extents
                  (u64 (node.[attr a AttributeData.size] - dataOffset)) 0 0 0 block in
  match found with
  | Some b => ret b
  | None => stop Assertion
  end.

(** The block loop of [AccessNode], entered at [next:].  [done] holds the bytes
    read so far (read) and [buffer] the bytes still to be stored (write). *)
Fixpoint access_blocks (fuel : nat) (node : bytes) (a : Z) (buffer done : bytes)
    (offsetIntoFile totalCount : Z) (read : bool) : M (esfs D) (bytes * reference) :=
  match fuel with
  | O => stop OutOfFuel
  | S fuel' =>
    let! s := get in
    let bs := (superblock s).[Superblock.blockSize] in
    let offset := offsetIntoFile mod bs in
    let count := if totalCount <? bs - offset then totalCount else bs - offset in
    let! block := block_of_file node a (offsetIntoFile / bs) in
    let! blockBuffer := if read || negb (count =? bs) then ReadBlock block 1
                        else ret (replicate (Z.to_nat bs) 0) in
    let! done := if read then ret (done ++ slice (Z.to_nat offset) (Z.to_nat count) blockBuffer)
                 else WriteBlock block 1
                        (blit (Z.to_nat offset) (take (Z.to_nat count) buffer) blockBuffer) ;;;
                      ret done in
    if totalCount - count =? 0 then ret (done, Ref block offset)
    else access_blocks fuel' node a (drop (Z.to_nat count) buffer) done
           (offsetIntoFile + count) (totalCount - count) read
  end.

(** One pass of the loop handles up to a block, so the number of blocks touched
    bounds it. *)
Definition access_fuel (totalCount bs : Z) : nat := Z.to_nat (totalCount / bs + 2).

(** [AccessNode(node, buffer, offsetIntoFile, totalCount, reference, read)]: the
    node (changed when data is stored directly in it), the bytes read, and the
    block and offset accessed last, which go to [*reference] when it is given. *)
Definition AccessNode (node buffer : bytes) (offsetIntoFile totalCount : Z)
    (has_reference read : bool) : M (esfs D) (bytes * bytes * option reference) :=
  if totalCount =? 0 then ret (node, [], None)
  else
    let! a := FindAttribute node ESFS_ATTRIBUTE_DATA in
    let data := a + Z.of_nat AttributeData.data_offset in
    if (node.[attr a AttributeData.indirection] =? ESFS_INDIRECTION_DIRECT) && read then
      let! r := lift_opt OutOfBounds (read_at (data + offsetIntoFile) totalCount node) in
      ret (node, r, None)
    else if (node.[attr a AttributeData.indirection] =? ESFS_INDIRECTION_DIRECT) && negb read then
      assert (negb has_reference) ;;;
      let! node := lift_opt OutOfBounds
                     (write_at (data + offsetIntoFile) (take (Z.to_nat totalCount) buffer) node) in
      ret (node, [], None)
    else
      assert (node.[attr a AttributeData.indirection] =? ESFS_INDIRECTION_L1) ;;;
      let! s := get in
      let! (done, r) := access_blocks (access_fuel totalCount (superblock s).[Superblock.blockSize])
                          node a buffer [] offsetIntoFile totalCount read in
      ret (node, done, if has_reference then Some r else None).

(** ** Growing a node *)

(** The last extent of the list: start, count, start of the one before, offset
    after the list and offset of the last extent. *)
Record extent_cursor : Type := Cursor {
  c_start : Z; c_count : Z; c_start2 : Z; c_offset : Z; c_previousOffset : Z }.

Fixpoint last_extent (n : nat) (extents : bytes) (end_ : Z) (c : extent_cursor)
  : M (esfs D) extent_cursor :=
  match n with
  | O => ret c
  | S n' =>
      let! d := lift_opt OutOfBounds (DecodeExtent (c_start c) extents (c_offset c) end_) in
      let! s := get in
      assert (d_previousExtentStart d <? (superblock s).[Superblock.blockCount]) ;;;
      last_extent n' extents end_
        (Cursor (d_previousExtentStart d) (d_extentCount d) (c_start c) (d_position d) (c_offset c))
  end.

(** The allocation loop.  Every pass allocates at least one block. *)
Fixpoint grow_extents (fuel : nat) (entry : bytes) (a end_ increaseBlocks : Z) (c : extent_cursor)
  : M (esfs D) bytes :=
  if increaseBlocks =? 0 then ret entry
  else match fuel with
  | O => stop OutOfFuel
  | S fuel' =>
    let! (extentStart, extentCount) := AllocateExtent increaseBlocks in
    let merge := extentStart =? u64 (c_start c + c_count c) in
    let count := entry.[attr a AttributeData.count] in
    let entry := if merge then entry.[attr a AttributeData.count := u16 (count - 1)] else entry in
    let offset := if merge then c_previousOffset c else c_offset c in
    let encode := if merge
      then EncodeExtent (c_start c) (c_start2 c) (u64 (extentCount + c_count c))
      else EncodeExtent extentStart (c_start c) extentCount in
    if end_ <? offset + Z.of_nat (length encode) then stop FatalError
    else
      let! entry := lift_opt OutOfBounds
        (write_at (a + entry.[attr a AttributeData.dataOffset] + offset) encode entry) in
      let entry := entry.[attr a AttributeData.count := u16 (entry.[attr a AttributeData.count] + 1)] in
      grow_extents fuel' entry a end_ (increaseBlocks - extentCount)
        (Cursor extentStart (c_count c) (c_start2 c) (offset + Z.of_nat (length encode))
           (c_previousOffset c))
  end.

Definition ResizeNode (entry : bytes) (newSize : Z) : M (esfs D) bytes :=
  let oldSize := entry.[DirectoryEntry.fileSize] in
  assert (oldSize <=? newSize) ;;;
  let! a := FindAttribute entry ESFS_ATTRIBUTE_DATA in
  let! s := get in
  let bs := (superblock s).[Superblock.blockSize] in
  let end_ := u64 (entry.[attr a AttributeData.size] - entry.[attr a AttributeData.dataOffset]) in
  if (newSize <? end_) && (entry.[DirectoryEntry.nodeType] =? ESFS_NODE_TYPE_FILE) then
    let entry := entry.[attr a AttributeData.indirection := ESFS_INDIRECTION_DIRECT] in
    let entry := entry.[DirectoryEntry.fileSize := newSize] in
    ret entry.[attr a AttributeData.count := newSize]
  else
    let entry := entry.[attr a AttributeData.indirection := ESFS_INDIRECTION_L1] in
    let oldBlocks := u64 (oldSize + bs - 1) / bs in
    let newBlocks := u64 (newSize + bs - 1) / bs in
    let entry := entry.[DirectoryEntry.fileSize := newSize] in
    if oldBlocks =? newBlocks then ret entry
    else if oldBlocks <? newBlocks then
      let extents := drop (Z.to_nat (a + entry.[attr a AttributeData.dataOffset])) entry in
      let! c := last_extent (Z.to_nat entry.[attr a AttributeData.count]) extents end_
                  (Cursor 0 0 0 0 0) in
      grow_extents (Z.to_nat (newBlocks - oldBlocks)) entry a end_ (newBlocks - oldBlocks) c
    else stop FatalError.


(** ** The blocks of a file *)

(** The first [n] extents of a list, as (start, count) pairs. *)
Fixpoint decode_extents (n : nat) (extents : bytes) (end_ position start : Z) : option (list (Z * Z)) :=
  match n with
  | O => Some []
  | S n' =>
      d ← DecodeExtent start extents position end_;
      l ← decode_extents n' extents end_ (d_position d) (d_previousExtentStart d);
      Some ((d_previousExtentStart d, d_extentCount d) :: l)
  end.

(** The extents of the data attribute at offset [a]. *)
Definition node_extents (node : bytes) (a : Z) : option (list (Z * Z)) :=
  let dataOffset := node.[attr a AttributeData.dataOffset] in
  decode_extents (Z.to_nat node.[attr a AttributeData.count]) (drop (Z.to_nat (a + dataOffset)) node)
    (u64 (node.[attr a AttributeData.size] - dataOffset)) 0 0.

Definition extent_blocks (l : list (Z * Z)) : list Z := mjoin ((fun e => seqZ e.1 e.2) <$> l).

(** Extents of a volume of [limit] blocks. *)
Definition extents_ok (limit : Z) (l : list (Z * Z)) : Prop :=
  Forall (fun e => 0 <= e.1 /\ 0 <= e.2 /\ e.1 + e.2 <= limit) l.

Lemma extent_blocks_cons start count l :
  extent_blocks ((start, count) :: l) = seqZ start count ++ extent_blocks l.
Proof. done. Qed.

Lemma extent_blocks_app l1 l2 : extent_blocks (l1 ++ l2) = extent_blocks l1 ++ extent_blocks l2.
Proof. unfold extent_blocks. by rewrite fmap_app, join_app. Qed.

Lemma find_extent_spec n extents end_ position blockInFile start block l s :
  decode_extents n extents end_ position start = Some l ->
  extents_ok (2 ^ 32) l -> 0 <= blockInFile <= block ->
  blockInFile + Z.of_nat (length (extent_blocks l)) < 2 ^ 64 ->
  find_extent n extents end_ position blockInFile start block s
  = (Ok (extent_blocks l !! Z.to_nat (block - blockInFile)), s).
Proof.
  revert position blockInFile start l.
  induction n as [|n IH]; intros position bif start l Hd Hok Hb Hlen; cbn [decode_extents find_extent] in *.
  { by simplify_eq. }
  destruct (DecodeExtent start extents position end_) as [d|]; [|done]. cbn [mbind option_bind] in Hd.
  destruct (decode_extents n extents end_ (d_position d) (d_previousExtentStart d)) as [l'|] eqn:Hd'; [|done].
  cbn [mbind option_bind] in Hd. injection Hd as <-. apply Forall_cons_1 in Hok as [(H1 & H2 & H3) Hok].
  cbn [fst snd] in *. rewrite extent_blocks_cons, length_app, length_seqZ in Hlen.
  cbn [lift_opt]. unfold bind at 1, ret at 1. rewrite u64_id by (unfold is_uint; lia).
  rewrite extent_blocks_cons. destruct (Z.ltb_spec block (bif + d_extentCount d)).
  - rewrite lookup_app_l by (rewrite length_seqZ; lia).
    rewrite lookup_seqZ_lt by lia. unfold ret. rewrite u64_id by (unfold is_uint; lia).
    do 3 f_equal. lia.
  - rewrite (IH _ _ _ l') by (done || lia). rewrite lookup_app_r by (rewrite length_seqZ; lia).
    rewrite length_seqZ. do 3 f_equal. lia.
Qed.

(** ** Files stored in blocks *)

(** A node whose data attribute lists the blocks [bl] of the volume in state [s]. *)
Record file_ok (s : esfs D) (node : bytes) (a : Z) (bl : list Z) : Prop := {
  fo_attribute : forall s' : esfs D, FindAttribute node ESFS_ATTRIBUTE_DATA s' = (Ok a, s');
  fo_indirection : node.[attr a AttributeData.indirection] = ESFS_INDIRECTION_L1;
  fo_extents : exists l, node_extents node a = Some l /\ extents_ok (2 ^ 32) l /\ bl = extent_blocks l;
  fo_count : node.[attr a AttributeData.count] <> 0 \/ node.[DirectoryEntry.fileSize] = 0;
  fo_length : Z.of_nat (length bl) < 2 ^ 64;
  fo_nodup : NoDup bl;
  fo_drive : Forall (fun b => (b + 1) * blockSize s <= dev_size (drive s)) bl;
  fo_bs : blockSize s = (superblock s).[Superblock.blockSize];
  fo_bs_pos : 0 < blockSize s;
  fo_dev : dev_size (drive s) < 2 ^ 64 }.

(** Byte [i] of the file. *)
Definition content (s : esfs D) (bl : list Z) (i : Z) : Z :=
  dev_byte (drive s) (nth (Z.to_nat (i / blockSize s)) bl 0 * blockSize s + i mod blockSize s).

Lemma extent_blocks_range limit l b : extents_ok limit l -> b ∈ extent_blocks l -> 0 <= b < limit.
Proof.
  intros Hok Hb. apply list_elem_of_join in Hb as (bs & Hb & Hbs).
  apply list_elem_of_fmap in Hbs as (e & -> & He).
  unfold extents_ok in Hok; rewrite Forall_forall in Hok. apply list_elem_of_In in He.
  specialize (Hok e He). apply elem_of_seqZ in Hb. lia.
Qed.

Lemma file_block s node a bl k :
  file_ok s node a bl -> 0 <= k < Z.of_nat (length bl) ->
  let b := nth (Z.to_nat k) bl 0 in
  bl !! Z.to_nat k = Some b /\ 0 <= b < 2 ^ 32 /\ (b + 1) * blockSize s <= dev_size (drive s).
Proof.
  intros [] Hk b. destruct (lookup_lt_is_Some_2 bl (Z.to_nat k) ltac:(lia)) as [b' Hb'].
  assert (b = b') as -> by (unfold b; by rewrite nth_lookup, Hb').
  split; [done|]. destruct fo_extents0 as (l & _ & Hok & ->). split.
  - apply (extent_blocks_range _ l); [done|]. by apply list_elem_of_lookup_2 in Hb'.
  - rewrite Forall_forall in fo_drive0. eapply fo_drive0, list_elem_of_In, list_elem_of_lookup_2, Hb'.
Qed.

Lemma block_of_file_ok s node a bl k :
  file_ok s node a bl -> 0 <= k < Z.of_nat (length bl) ->
  block_of_file node a k s = (Ok (nth (Z.to_nat k) bl 0), s).
Proof.
  intros Hf Hk. destruct (file_block s node a bl k Hf Hk) as (Hl & _).
  destruct Hf as [_ _ (l & Hd & Hok & ->) Hc Hlen _ _ _ _ _].
  unfold block_of_file, assert.
  replace (negb (node.[attr a AttributeData.count] =? 0) || (node.[DirectoryEntry.fileSize] =? 0))
    with true by lia.
  unfold bind at 1, ret at 1.
  erewrite bind_ok; [|apply (find_extent_spec _ _ _ _ _ _ k l s Hd Hok); lia].
  rewrite Z.sub_0_r, Hl. done.
Qed.

(** Splitting an access at the end of its first block. *)
Lemma first_part_bounds bs off n :
  0 < bs -> 0 <= off -> 0 < n ->
  let o := off mod bs in
  let c := if n <? bs - o then n else bs - o in
  0 <= o < bs /\ 0 < c <= n /\ o + c <= bs /\ off = off / bs * bs + o /\
  (c = n \/ off + c = (off / bs + 1) * bs).
Proof.
  intros Hb Ho Hn o c. pose proof (Z.mod_pos_bound off bs Hb). pose proof (Z.div_mod off bs ltac:(lia)).
  fold o in H, H0. unfold c. destruct (Z.ltb_spec n (bs - o)); lia.
Qed.

(** Passes of the loop that are still needed. *)
Definition passes (bs off n : Z) : Z := (off mod bs + n + bs - 1) / bs.

Lemma passes_step bs off n c :
  0 < bs -> 0 <= off -> 0 < n - c -> off + c = (off / bs + 1) * bs ->
  passes bs (off + c) (n - c) = passes bs off n - 1.
Proof.
  intros Hb Ho Hn Hc. unfold passes. rewrite Hc, Z.mod_mul by lia.
  pose proof (Z.div_mod off bs ltac:(lia)).
  replace (off mod bs + n + bs - 1) with (0 + (n - c) + bs - 1 + 1 * bs) by lia.
  rewrite Z.div_add by lia. lia.
Qed.

Lemma passes_pos bs off n : 0 < bs -> 0 <= off -> 0 < n -> 1 <= passes bs off n.
Proof.
  intros Hb Ho Hn. unfold passes. pose proof (Z.mod_pos_bound off bs Hb).
  apply Z.div_le_lower_bound; lia.
Qed.

Lemma passes_fuel bs off n : 0 < bs -> 0 <= off -> 0 < n -> (Z.to_nat (passes bs off n) <= access_fuel n bs)%nat.
Proof.
  intros Hb Ho Hn. unfold access_fuel, passes. apply Z2Nat.inj_le.
  - apply Z.div_pos; [|lia]. pose proof (Z.mod_pos_bound off bs Hb). lia.
  - pose proof (Z.div_pos n bs). lia.
  - pose proof (Z.mod_pos_bound off bs Hb).
    replace (n / bs + 2) with ((n + 2 * bs) / bs) by (rewrite Z.div_add; lia).
    apply Z.div_le_mono; lia.
Qed.

Lemma content_block s bl off i :
  0 < blockSize s -> 0 <= off ->
  let o := off mod blockSize s in
  0 <= i -> o + i < blockSize s ->
  content s bl (off + i) = dev_byte (drive s) (nth (Z.to_nat (off / blockSize s)) bl 0 * blockSize s + (o + i)).
Proof.
  intros Hb Ho o Hi Hlt. unfold content. pose proof (Z.div_mod off (blockSize s) ltac:(lia)).
  pose proof (Z.mod_pos_bound off (blockSize s) Hb).
  rewrite <- (Z.div_unique_pos (off + i) (blockSize s) (off / blockSize s) (o + i)) by (subst o; lia).
  rewrite <- (Z.mod_unique_pos (off + i) (blockSize s) (off / blockSize s) (o + i)) by (subst o; lia). done.
Qed.

Lemma slice_dev_bytes d x n o c :
  0 <= o -> 0 <= c -> o + c <= n ->
  slice (Z.to_nat o) (Z.to_nat c) (dev_bytes d x n) = dev_byte d <$> seqZ (x + o) c.
Proof.
  intros Ho Hc Hn. unfold slice, dev_bytes. rewrite <- fmap_drop, <- fmap_take. f_equal.
  replace n with (o + (c + (n - o - c))) by lia. rewrite !seqZ_app by lia.
  rewrite drop_app_length' by (rewrite length_seqZ; lia).
  rewrite take_app_length' by (rewrite length_seqZ; lia). done.
Qed.

Lemma ReadBlock_file s node a bl k :
  file_ok s node a bl -> 0 <= k < Z.of_nat (length bl) ->
  let b := nth (Z.to_nat k) bl 0 in
  ReadBlock b 1 s = (Ok (dev_bytes (drive s) (b * blockSize s) (blockSize s)), s).
Proof.
  intros Hf Hk b. destruct (file_block s node a bl k Hf Hk) as (_ & Hb & Hd). fold b in Hb, Hd.
  destruct Hf. rewrite ReadBlock_ok by nia. by rewrite Z.mul_1_r.
Qed.

(** The block and offset reached by the last pass. *)
Definition last_reference (s : esfs D) (bl : list Z) (off n : Z) : reference :=
  let bs := blockSize s in
  let i := (off + n - 1) / bs in
  Ref (nth (Z.to_nat i) bl 0) (if i =? off / bs then off mod bs else 0).

Lemma last_reference_step s bl off n c :
  0 < blockSize s -> 0 <= off -> 0 < n - c -> off + c = (off / blockSize s + 1) * blockSize s ->
  last_reference s bl (off + c) (n - c) = last_reference s bl off n.
Proof.
  intros Hb Ho Hn Hc. unfold last_reference. cbv zeta.
  replace (off + c + (n - c) - 1) with (off + n - 1) by lia. f_equal.
  rewrite Hc, Z.mod_mul, Z.div_mul by lia.
  assert (off / blockSize s + 1 <= (off + n - 1) / blockSize s) by (apply Z.div_le_lower_bound; lia).
  repeat case_match; lia.
Qed.

Lemma last_reference_here s bl off n :
  0 < blockSize s -> 0 <= off -> 0 < n -> off mod blockSize s + n <= blockSize s ->
  last_reference s bl off n = Ref (nth (Z.to_nat (off / blockSize s)) bl 0) (off mod blockSize s).
Proof.
  intros Hb Ho Hn Hle. unfold last_reference. cbv zeta.
  pose proof (Z.div_mod off (blockSize s) ltac:(lia)). pose proof (Z.mod_pos_bound off (blockSize s) Hb).
  rewrite <- (Z.div_unique_pos (off + n - 1) (blockSize s) (off / blockSize s) (off mod blockSize s + n - 1)) by lia.
  by rewrite Z.eqb_refl.
Qed.

Lemma access_blocks_read s node a bl buffer fuel off n done_ :
  file_ok s node a bl -> 0 <= off -> 0 < n -> off + n <= blockSize s * Z.of_nat (length bl) ->
  (Z.to_nat (passes (blockSize s) off n) <= fuel)%nat ->
  access_blocks fuel node a buffer done_ off n true s
  = (Ok (done_ ++ (content s bl <$> seqZ off n), last_reference s bl off n), s).
Proof.
  intros Hf. revert buffer done_ off n. induction fuel as [|fuel IH]; intros buffer done_ off n Ho Hn Hle Hfu.
  { pose proof (passes_pos (blockSize s) off n (fo_bs_pos _ _ _ _ Hf) Ho Hn). lia. }
  cbn [access_blocks]. unfold bind at 1, get at 1.
  pose proof (fo_bs_pos _ _ _ _ Hf) as Hbs. rewrite <- (fo_bs _ _ _ _ Hf).
  destruct (first_part_bounds (blockSize s) off n Hbs Ho Hn) as (Ho' & Hc & Hoc & Heq & Hend).
  set (o := off mod blockSize s) in *. set (c := if n <? _ then _ else _) in *. clearbody c.
  assert (0 <= off / blockSize s < Z.of_nat (length bl)) as Hk.
  { split; [apply Z.div_pos; lia|]. apply Z.div_lt_upper_bound; lia. }
  rewrite (bind_ok _ _ _ _ _ (block_of_file_ok s node a bl _ Hf Hk)).
  cbn [orb]. rewrite (bind_ok _ _ _ _ _ (ReadBlock_file s node a bl _ Hf Hk)).
  rewrite slice_dev_bytes by lia. unfold bind at 1, ret at 1.
  assert (dev_byte (drive s) <$> seqZ (nth (Z.to_nat (off / blockSize s)) bl 0 * blockSize s + o) c
          = content s bl <$> seqZ off c) as ->.
  { apply list_eq. intros i. rewrite !list_lookup_fmap. destruct (decide (Z.of_nat i < c)).
    - rewrite !lookup_seqZ_lt by lia. cbn [fmap option_fmap option_map]. f_equal.
      rewrite (content_block s bl off (Z.of_nat i)) by lia. f_equal. lia.
    - by rewrite !lookup_seqZ_ge by lia. }
  destruct (Z.eqb_spec (n - c) 0) as [Hz|Hz].
  - assert (c = n) as -> by lia. unfold ret. rewrite last_reference_here by lia. done.
  - assert (off + c = (off / blockSize s + 1) * blockSize s) as Hoff by lia.
    rewrite IH; [|lia|lia|lia|rewrite passes_step by lia; lia].
    rewrite <- app_assoc, <- fmap_app, <- seqZ_app by lia. rewrite last_reference_step by lia.
    by replace (c + (n - c)) with n by lia.
Qed.

(** *** Writing *)

(** [s'] differs from [s] at most in the bytes that the blocks [bl] hold. *)
Definition only_blocks (s s' : esfs D) (bl : list Z) : Prop :=
  exists d', s' = set_drive d' s /\ dev_size d' = dev_size (drive s) /\
    forall x, x / blockSize s ∉ bl -> dev_byte d' x = dev_byte (drive s) x.

Lemma only_blocks_trans s1 s2 s3 bl : only_blocks s1 s2 bl -> only_blocks s2 s3 bl -> only_blocks s1 s3 bl.
Proof.
  intros (d2 & -> & Hs2 & Hf2) (d3 & -> & Hs3 & Hf3). exists d3. cbn [drive set_drive blockSize] in *.
  split; [done|]. split; [congruence|]. intros x Hx. rewrite Hf3 by done. by apply Hf2.
Qed.

Lemma file_ok_written s s' node a bl : file_ok s node a bl -> only_blocks s s' bl -> file_ok s' node a bl.
Proof. intros [] (d' & -> & Hs & _). split; cbn [drive set_drive blockSize superblock]; rewrite ?Hs; done. Qed.

Lemma WriteBlock_file s node a bl k buf :
  file_ok s node a bl -> 0 <= k < Z.of_nat (length bl) -> Z.of_nat (length buf) = blockSize s ->
  exists s', WriteBlock (nth (Z.to_nat k) bl 0) 1 buf s = (Ok tt, s') /\ only_blocks s s' bl /\
    forall i, 0 <= i < blockSize s * Z.of_nat (length bl) ->
      content s' bl i = if decide (i / blockSize s = k) then nth (Z.to_nat (i mod blockSize s)) buf 0
                        else content s bl i.
Proof.
  intros Hf Hk Hl. destruct (file_block s node a bl k Hf Hk) as (Hbk & Hb & Hd).
  set (b := nth (Z.to_nat k) bl 0) in *. pose proof Hf as [].
  destruct (WriteBlock_ok b 1 buf s) as (d' & Hrun & Hs & Hby); [lia|lia|lia|lia|nia|].
  exists (set_drive d' s). split; [done|]. split.
  { exists d'. split; [done|]. split; [done|]. intros x Hx. rewrite Hby, decide_False; [done|].
    intros Hr. destruct Hx. apply list_elem_of_lookup_2 in Hbk.
    rewrite <- (Z.div_unique_pos x (blockSize s) b (x - b * blockSize s)) by lia. done. }
  intros i Hi. unfold content. cbn [drive set_drive blockSize]. rewrite Hby.
  pose proof (Z.mod_pos_bound i (blockSize s) ltac:(lia)) as Hm.
  assert (0 <= i / blockSize s < Z.of_nat (length bl)) as Hj.
  { split; [apply Z.div_pos; lia|]. apply Z.div_lt_upper_bound; lia. }
  destruct (file_block s node a bl _ Hf Hj) as (Hbj & _).
  destruct (decide (i / blockSize s = k)) as [->|Hne].
  - rewrite decide_True by (fold b; lia). f_equal. fold b. lia.
  - rewrite decide_False; [done|]. intros Hr.
    assert (nth (Z.to_nat (i / blockSize s)) bl 0 = b) as Heq.
    { set (bj := nth _ _ _) in *. assert (bj * blockSize s < (b + 1) * blockSize s) by lia.
      assert (b * blockSize s < (bj + 1) * blockSize s) by lia. nia. }
    rewrite Heq in Hbj. pose proof (NoDup_lookup _ _ _ _ fo_nodup0 Hbj Hbk). lia.
Qed.

(** The buffer a pass writes holds the new bytes at [o] and the old ones elsewhere. *)
Lemma merged_block (bs o c : Z) (src old : bytes) i :
  0 <= o -> 0 <= c -> o + c <= bs -> c <= Z.of_nat (length src) -> Z.of_nat (length old) = bs ->
  0 <= i < bs ->
  nth (Z.to_nat i) (blit (Z.to_nat o) (take (Z.to_nat c) src) old) 0
  = if decide (o <= i < o + c) then nth (Z.to_nat (i - o)) src 0 else nth (Z.to_nat i) old 0.
Proof.
  intros. rewrite !nth_lookup. rewrite lookup_blit by (rewrite length_take; lia). rewrite length_take.
  case_decide as Hd1; case_decide as Hd2; try lia.
  rewrite lookup_take_lt by lia. do 2 f_equal. lia.
Qed.

Lemma nth_dev_bytes d x n i : 0 <= i < n -> nth (Z.to_nat i) (dev_bytes d x n) 0 = dev_byte d (x + i).
Proof.
  intros. unfold dev_bytes. rewrite nth_lookup, list_lookup_fmap, lookup_seqZ_lt by lia. simpl. f_equal. lia.
Qed.

(** One pass of a write. *)
Lemma write_pass s node a bl off n (buffer : bytes) :
  file_ok s node a bl -> 0 <= off -> 0 < n -> off + n <= blockSize s * Z.of_nat (length bl) ->
  n <= Z.of_nat (length buffer) ->
  let o := off mod blockSize s in
  let c := if n <? blockSize s - o then n else blockSize s - o in
  let b := nth (Z.to_nat (off / blockSize s)) bl 0 in
  exists blockBuffer s1,
    (if negb (c =? blockSize s) then ReadBlock b 1 else ret (replicate (Z.to_nat (blockSize s)) 0)) s
      = (Ok blockBuffer, s) /\
    WriteBlock b 1 (blit (Z.to_nat o) (take (Z.to_nat c) buffer) blockBuffer) s = (Ok tt, s1) /\
    only_blocks s s1 bl /\
    forall i, 0 <= i < blockSize s * Z.of_nat (length bl) ->
      content s1 bl i = if decide (off <= i < off + c) then nth (Z.to_nat (i - off)) buffer 0
                        else content s bl i.
Proof.
  intros Hf Ho Hn Hle Hbuf o c b. pose proof (fo_bs_pos _ _ _ _ Hf) as Hbs.
  destruct (first_part_bounds (blockSize s) off n Hbs Ho Hn) as (Ho' & Hc & Hoc & Heq & _).
  fold o in Ho', Hc, Hoc, Heq. fold c in Hc, Hoc. clearbody c.
  assert (0 <= off / blockSize s < Z.of_nat (length bl)) as Hk.
  { split; [apply Z.div_pos; lia|]. apply Z.div_lt_upper_bound; lia. }
  set (old := if negb (c =? blockSize s) then dev_bytes (drive s) (b * blockSize s) (blockSize s)
              else replicate (Z.to_nat (blockSize s)) 0).
  assert (Z.of_nat (length old) = blockSize s) as Hold.
  { unfold old. case_match; [rewrite length_dev_bytes|rewrite length_replicate]; lia. }
  destruct (WriteBlock_file s node a bl _ (blit (Z.to_nat o) (take (Z.to_nat c) buffer) old) Hf Hk)
    as (s1 & Hw & Honly & Hcont).
  { rewrite length_blit; [done|]. rewrite length_take. lia. }
  exists old, s1. split_and!; [|done..|].
  { unfold old. case_match; [|done]. apply (ReadBlock_file s node a bl _ Hf Hk). }
  intros i Hi. rewrite Hcont by done.
  pose proof (Z.div_mod i (blockSize s) ltac:(lia)). pose proof (Z.mod_pos_bound i (blockSize s) Hbs).
  destruct (decide (i / blockSize s = off / blockSize s)) as [He|He].
  - rewrite He in *. rewrite (merged_block (blockSize s)) by lia.
    case_decide; case_decide; try lia; [f_equal; lia|]. unfold old.
    destruct (Z.eqb_spec c (blockSize s)); cbn [negb]; [lia|]. rewrite nth_dev_bytes by lia.
    unfold content. rewrite He. done.
  - rewrite decide_False; [done|]. intros Hr. destruct He.
    symmetry. apply (Z.div_unique_pos i (blockSize s) (off / blockSize s) (i - off / blockSize s * blockSize s)); lia.
Qed.

Lemma access_blocks_write node a bl fuel buffer done_ off n s :
  file_ok s node a bl -> 0 <= off -> 0 < n -> off + n <= blockSize s * Z.of_nat (length bl) ->
  n <= Z.of_nat (length buffer) ->
  (Z.to_nat (passes (blockSize s) off n) <= fuel)%nat ->
  exists s', access_blocks fuel node a buffer done_ off n false s
      = (Ok (done_, last_reference s bl off n), s') /\
    only_blocks s s' bl /\
    forall i, 0 <= i < blockSize s * Z.of_nat (length bl) ->
      content s' bl i = if decide (off <= i < off + n) then nth (Z.to_nat (i - off)) buffer 0
                        else content s bl i.
Proof.
  revert buffer done_ off n s. induction fuel as [|fuel IH]; intros buffer done_ off n s Hf Ho Hn Hle Hbuf Hfu.
  { pose proof (passes_pos (blockSize s) off n (fo_bs_pos _ _ _ _ Hf) Ho Hn). lia. }
  cbn [access_blocks]. unfold bind at 1, get at 1.
  pose proof (fo_bs_pos _ _ _ _ Hf) as Hbs. rewrite <- (fo_bs _ _ _ _ Hf).
  destruct (first_part_bounds (blockSize s) off n Hbs Ho Hn) as (Ho' & Hc & Hoc & Heq & Hend).
  destruct (write_pass s node a bl off n buffer Hf Ho Hn Hle Hbuf) as (old & s1 & Hr & Hw & Honly & Hcont).
  assert (0 <= off / blockSize s < Z.of_nat (length bl)) as Hk.
  { split; [apply Z.div_pos; lia|]. apply Z.div_lt_upper_bound; lia. }
  rewrite (bind_ok _ _ _ _ _ (block_of_file_ok s node a bl _ Hf Hk)). cbn [orb].
  set (o := off mod blockSize s) in *. set (c := if n <? _ then _ else _) in *. clearbody c.
  rewrite (bind_ok _ _ _ _ _ Hr). rewrite (bind_ok _ _ _ done_ s1).
  2:{ unfold bind at 1. rewrite Hw. done. }
  destruct (Z.eqb_spec (n - c) 0) as [Hz|Hz].
  - assert (c = n) as -> by lia. exists s1. rewrite last_reference_here by lia. done.
  - assert (off + c = (off / blockSize s + 1) * blockSize s) as Hoff by lia.
    pose proof (file_ok_written _ _ _ _ _ Hf Honly) as Hf1.
    assert (blockSize s1 = blockSize s) as Hbs1 by (by destruct Honly as (? & -> & _)).
    destruct (IH (drop (Z.to_nat c) buffer) done_ (off + c) (n - c) s1 Hf1) as (s' & Hrun & Honly' & Hcont');
      rewrite ?Hbs1, ?length_drop, ?passes_step; try lia.
    exists s'. split_and!.
    + rewrite Hrun. unfold last_reference. rewrite Hbs1.
      change (Ref _ _) with (last_reference s bl (off + c) (n - c)) at 1. by rewrite last_reference_step by lia.
    + by eapply only_blocks_trans.
    + intros i Hi. rewrite Hcont' by (rewrite Hbs1; lia). rewrite Hcont by lia.
      repeat case_decide; try lia. rewrite !nth_lookup, lookup_drop. do 2 f_equal. lia.
Qed.

(** ** Whole accesses *)

Lemma AccessNode_blocks s node a bl buffer off n has_reference read :
  file_ok s node a bl -> 0 < n ->
  AccessNode node buffer off n has_reference read s
  = bind (access_blocks (access_fuel n (blockSize s)) node a buffer [] off n read)
      (fun '(done, r) => ret (node, done, if has_reference then Some r else None)) s.
Proof.
  intros Hf Hn. unfold AccessNode. replace (n =? 0) with false by lia.
  rewrite (bind_ok _ _ _ _ _ (fo_attribute _ _ _ _ Hf s)). rewrite (fo_indirection _ _ _ _ Hf).
  rewrite (fo_bs _ _ _ _ Hf). done.
Qed.

Lemma AccessNode_reads s node a bl buffer off n has_reference :
  file_ok s node a bl -> 0 <= off -> 0 < n -> off + n <= blockSize s * Z.of_nat (length bl) ->
  AccessNode node buffer off n has_reference true s
  = (Ok (node, content s bl <$> seqZ off n,
         if has_reference then Some (last_reference s bl off n) else None), s).
Proof.
  intros Hf Ho Hn Hle. rewrite (AccessNode_blocks s node a bl) by done.
  erewrite bind_ok; [|apply (access_blocks_read s node a bl); try done].
  - done.
  - apply passes_fuel; [by eapply fo_bs_pos|done..].
Qed.

Lemma AccessNode_writes s node a bl buffer off n has_reference :
  file_ok s node a bl -> 0 <= off -> 0 < n -> off + n <= blockSize s * Z.of_nat (length bl) ->
  n <= Z.of_nat (length buffer) ->
  exists s', AccessNode node buffer off n has_reference false s
      = (Ok (node, [], if has_reference then Some (last_reference s bl off n) else None), s') /\
    only_blocks s s' bl /\
    forall i, 0 <= i < blockSize s * Z.of_nat (length bl) ->
      content s' bl i = if decide (off <= i < off + n) then nth (Z.to_nat (i - off)) buffer 0
                        else content s bl i.
Proof.
  intros Hf Ho Hn Hle Hbuf. rewrite (AccessNode_blocks s node a bl) by done.
  destruct (access_blocks_write node a bl (access_fuel n (blockSize s)) buffer [] off n s)
    as (s' & Hrun & ?); try done.
  { apply passes_fuel; [by eapply fo_bs_pos|done..]. }
  exists s'. rewrite (bind_ok _ _ _ _ _ Hrun). done.
Qed.

(** Attributes are found again in an entry whose headers up to the one found are
    unchanged. *)
Lemma find_attribute_ok fuel e type p count a (s : esfs D) :
  bytes_ok e -> find_attribute fuel e type p count s = (Ok a, s) ->
  0 <= p <= a /\ a + 4 <= Z.of_nat (length e) /\ e.[attr a Attribute.type] = type.
Proof.
  intros Hok. revert p count. induction fuel as [|fuel IH]; intros p count Hf;
    cbn [find_attribute] in *;
    destruct (negb ((0 <=? p) && (p + 4 <=? Z.of_nat (length e)))) eqn:Hb; try done;
    destruct (Z.eqb_spec e.[attr p Attribute.type] type) as [He|He]; try done.
  - injection Hf as ->. lia.
  - injection Hf as ->. lia.
  - destruct (Z.eqb_spec count e.[DirectoryEntry.attributeCount]) as [|Hne]; [done|].
    pose proof (getf_range e (attr p Attribute.size) Hok) as [Hsz _]; [unfold_entry; field_side|].
    apply IH in Hf. lia.
Qed.

Lemma find_attribute_same fuel e e' type p count a (s : esfs D) :
  bytes_ok e -> length e' = length e ->
  e'.[DirectoryEntry.attributeCount] = e.[DirectoryEntry.attributeCount] ->
  (forall q, p <= q <= a -> e'.[attr q Attribute.type] = e.[attr q Attribute.type]) ->
  (forall q, p <= q < a -> e'.[attr q Attribute.size] = e.[attr q Attribute.size]) ->
  find_attribute fuel e type p count s = (Ok a, s) ->
  find_attribute fuel e' type p count s = (Ok a, s).
Proof.
  intros Hok Hl Hc. revert p count. induction fuel as [|fuel IH]; intros p count Ht Hs Hf;
    destruct (find_attribute_ok _ _ _ _ _ _ _ Hok Hf) as (Hpa & Ha & Hta);
    cbn [find_attribute] in *; rewrite Hl, (Ht p) by lia;
    destruct (negb ((0 <=? p) && (p + 4 <=? Z.of_nat (length e)))) eqn:Hb; try done;
    destruct (Z.eqb_spec e.[attr p Attribute.type] type) as [He|He]; try done.
  rewrite Hc. destruct (Z.eqb_spec count e.[DirectoryEntry.attributeCount]) as [|Hne]; [done|].
  pose proof (getf_range e (attr p Attribute.size) Hok) as [Hsz _]; [unfold_entry; field_side|].
  rewrite Hs by (assert (p <> a) by congruence; lia).
  apply IH; [intros; apply Ht; lia|intros; apply Hs; lia|done].
Qed.

(** ** Extent lists *)

(** The bytes of an extent list, each extent relative to the start of the one
    before it. *)
Fixpoint encode_extents (prev : Z) (l : list (Z * Z)) : bytes :=
  match l with
  | [] => []
  | (start, count) :: l' => EncodeExtent start prev count ++ encode_extents start l'
  end.

Definition uint_extents (l : list (Z * Z)) : Prop := Forall (fun e => is_uint 64 e.1 /\ is_uint 64 e.2) l.

Lemma decode_encode_extents l pre post prev end_ :
  uint_extents l -> is_uint 64 prev -> Z.of_nat (length pre + length (encode_extents prev l)) <= end_ ->
  decode_extents (length l) (pre ++ encode_extents prev l ++ post) end_ (Z.of_nat (length pre)) prev = Some l.
Proof.
  revert pre prev. induction l as [|[start count] l IH]; intros pre prev Hu Hp Hend; [done|].
  apply Forall_cons_1 in Hu as [[H1 H2] Hu]. cbn [fst snd] in H1, H2.
  cbn [encode_extents decode_extents length] in *. rewrite length_app in Hend.
  rewrite <- app_assoc, decode_encode_extent by (done || lia). cbn [mbind option_bind d_position d_previousExtentStart].
  rewrite app_assoc. rewrite <- length_app. rewrite IH; [done..|]. rewrite length_app. lia.
Qed.

(** Where [last_extent] ends up. *)
Fixpoint cursor_after (c : extent_cursor) (l : list (Z * Z)) : extent_cursor :=
  match l with
  | [] => c
  | (start, count) :: l' =>
      cursor_after (Cursor start count (c_start c)
        (c_offset c + Z.of_nat (length (EncodeExtent start (c_start c) count))) (c_offset c)) l'
  end.

Lemma last_extent_stored l pre post end_ c s :
  uint_extents l -> is_uint 64 (c_start c) -> c_offset c = Z.of_nat (length pre) ->
  Z.of_nat (length pre + length (encode_extents (c_start c) l)) <= end_ ->
  Forall (fun e => e.1 < (superblock s).[Superblock.blockCount]) l ->
  last_extent (length l) (pre ++ encode_extents (c_start c) l ++ post) end_ c s
  = (Ok (cursor_after c l), s).
Proof.
  revert pre c. induction l as [|[start count] l IH]; intros pre c Hu Hp Ho Hend Hbc; [done|].
  apply Forall_cons_1 in Hu as [[H1 H2] Hu]. cbn [fst snd] in H1, H2.
  apply Forall_cons_1 in Hbc as [Hb Hbc]. cbn [fst] in Hb.
  cbn [encode_extents last_extent length cursor_after] in *. rewrite length_app in Hend.
  rewrite <- app_assoc, Ho, decode_encode_extent by (done || lia).
  unfold bind at 1, lift_opt at 1, ret at 1. unfold bind at 1, get at 1.
  cbn [d_previousExtentStart d_extentCount d_position]. replace (start <? _) with true by lia.
  unfold assert, bind at 1, ret at 1. rewrite app_assoc, <- length_app, <- Nat2Z.inj_add, <- length_app.
  apply (IH (pre ++ EncodeExtent start (c_start c) count) (Cursor start count _ _ _)); try done.
  cbn [c_start]. rewrite length_app. lia.
Qed.

Fixpoint last_start (prev : Z) (l : list (Z * Z)) : Z :=
  match l with [] => prev | e :: l' => last_start e.1 l' end.

Lemma last_start_snoc prev l e : last_start prev (l ++ [e]) = e.1.
Proof. revert prev. by induction l as [|e' l IH]; intros prev; [|apply IH]. Qed.

Lemma encode_extents_app prev l1 l2 :
  encode_extents prev (l1 ++ l2) = encode_extents prev l1 ++ encode_extents (last_start prev l1) l2.
Proof.
  revert prev. induction l1 as [|[s c] l1 IH]; intros prev; [done|].
  cbn [app encode_extents last_start]. by rewrite IH, <- app_assoc.
Qed.

Lemma cursor_after_snoc c l start count :
  cursor_after c (l ++ [(start, count)])
  = Cursor start count (last_start (c_start c) l)
      (c_offset c + Z.of_nat (length (encode_extents (c_start c) (l ++ [(start, count)]))))
      (c_offset c + Z.of_nat (length (encode_extents (c_start c) l))).
Proof.
  revert c. induction l as [|[s n] l IH]; intros c; cbn [app cursor_after encode_extents].
  { rewrite app_nil_r. f_equal. cbn. lia. }
  rewrite IH. cbn [c_start c_offset last_start fst]. rewrite !length_app. f_equal; lia.
Qed.

(** *** Extent lists in a data attribute *)

(** [entry] has its data attribute, of [size] bytes, at [a], with the data or the
    extent list [dataOffset] bytes into it. *)
Record data_ok (entry : bytes) (a dataOffset size : Z) : Prop := {
  da_length : Z.of_nat (length entry) = DirectoryEntry_size;
  da_bytes : bytes_ok entry;
  da_find : forall s : esfs D, FindAttribute entry ESFS_ATTRIBUTE_DATA s = (Ok a, s);
  da_offset : 96 <= entry.[DirectoryEntry.attributeOffset];
  da_dataOffset : entry.[attr a AttributeData.dataOffset] = dataOffset;
  da_size : entry.[attr a AttributeData.size] = size;
  da_region : 96 <= a /\ 8 <= dataOffset <= size /\ a + size <= DirectoryEntry_size }.


(** Bytes that the growth code may change: the file size, [indirection], [count]
    and what follows the attribute's header. *)
Definition fixed_region (a : Z) (off n : nat) : Prop :=
  (off + n <= 56)%nat \/ (64 <= off)%nat /\ Z.of_nat (off + n) <= a + 4 \/
  a + 5 <= Z.of_nat off /\ Z.of_nat (off + n) <= a + 6.

Lemma data_ok_same e e' a dataOffset size :
  data_ok e a dataOffset size -> length e' = length e -> bytes_ok e' ->
  (forall off n, fixed_region a off n -> slice off n e' = slice off n e) ->
  data_ok e' a dataOffset size.
Proof.
  intros [] Hl Hok Hs. assert (forall f, fixed_region a (f_off f) (f_size f) -> e'.[f] = e.[f]) as Hf.
  { intros f Hf. by apply getf_same_slice, Hs. }
  unfold fixed_region in Hf. split; try done.
  - by rewrite Hl.
  - intros s. unfold FindAttribute. specialize (da_find0 s). unfold FindAttribute in da_find0.
    rewrite (Hf DirectoryEntry.attributeCount), (Hf DirectoryEntry.attributeOffset) by (cbn; lia).
    apply (find_attribute_same _ e); try done.
    + apply Hf. cbn. lia.
    + intros q Hq. apply Hf. unfold_entry. lia.
    + intros q Hq. apply Hf. unfold_entry. lia.
  - rewrite Hf by (cbn; lia). done.
  - rewrite Hf by (unfold_entry; lia). done.
  - rewrite Hf by (unfold_entry; lia). done.
Qed.

Record stored_extents (entry : bytes) (a dataOffset size : Z) (l : list (Z * Z)) : Prop := {
  se_count : entry.[attr a AttributeData.count] = Z.of_nat (length l);
  se_bytes : slice (Z.to_nat (a + dataOffset)) (length (encode_extents 0 l)) entry = encode_extents 0 l;
  se_fit : dataOffset + Z.of_nat (length (encode_extents 0 l)) <= size;
  se_uint : uint_extents l }.

Lemma split_at_slice off (b e : bytes) :
  (off + length e <= length b)%nat -> slice off (length e) b = e ->
  drop off b = [] ++ e ++ drop (off + length e) b.
Proof.
  intros Hl He. cbn [app]. rewrite <- He at 1. unfold slice. by rewrite <- (take_drop (length e) (drop off b)) at 1; rewrite drop_drop.
Qed.

Lemma stored_split entry a dataOffset size l :
  data_ok entry a dataOffset size -> stored_extents entry a dataOffset size l ->
  drop (Z.to_nat (a + dataOffset)) entry
  = [] ++ encode_extents 0 l ++ drop (Z.to_nat (a + dataOffset) + length (encode_extents 0 l)) entry.
Proof.
  intros [] []. apply split_at_slice; [|done]. change DirectoryEntry_size with 1024 in *. lia.
Qed.

Lemma data_end entry a dataOffset size :
  data_ok entry a dataOffset size -> u64 (size - dataOffset) = size - dataOffset.
Proof.
  intros []. change DirectoryEntry_size with 1024 in *. apply u64_id. unfold is_uint. lia.
Qed.

Lemma stored_node_extents entry a dataOffset size l :
  data_ok entry a dataOffset size -> stored_extents entry a dataOffset size l ->
  node_extents entry a = Some l.
Proof.
  intros Hd Hs. unfold node_extents. rewrite (da_dataOffset _ _ _ _ Hd), (da_size _ _ _ _ Hd).
  rewrite (stored_split _ _ _ _ _ Hd Hs), (se_count _ _ _ _ _ Hs), Nat2Z.id, (data_end _ _ _ _ Hd).
  apply (decode_encode_extents l []); [apply Hs|done|]. pose proof (se_fit _ _ _ _ _ Hs). cbn [length]. lia.
Qed.

Lemma stored_last_extent entry a dataOffset size l s :
  data_ok entry a dataOffset size -> stored_extents entry a dataOffset size l ->
  Forall (fun e => e.1 < (superblock s).[Superblock.blockCount]) l ->
  last_extent (Z.to_nat entry.[attr a AttributeData.count])
    (drop (Z.to_nat (a + dataOffset)) entry) (size - dataOffset) (Cursor 0 0 0 0 0) s
  = (Ok (cursor_after (Cursor 0 0 0 0 0) l), s).
Proof.
  intros Hd Hs Hb. rewrite (se_count _ _ _ _ _ Hs), Nat2Z.id, (stored_split _ _ _ _ _ Hd Hs).
  apply (last_extent_stored l [] _ _ (Cursor 0 0 0 0 0)); [apply Hs|done..| |done].
  pose proof (se_fit _ _ _ _ _ Hs). cbn [length c_start]. lia.
Qed.

(** What growing keeps: the attribute, its indirection, the file size, and the
    bytes outside the data attribute. *)
Record kept (e e' : bytes) (a dataOffset size : Z) : Prop := {
  ke_data : data_ok e' a dataOffset size;
  ke_indirection : e'.[attr a AttributeData.indirection] = e.[attr a AttributeData.indirection];
  ke_fileSize : e'.[DirectoryEntry.fileSize] = e.[DirectoryEntry.fileSize];
  ke_frame : forall off n, Z.of_nat (off + n) <= a + 6 \/ a + size <= Z.of_nat off ->
    slice off n e' = slice off n e }.

Lemma kept_refl e a dataOffset size : data_ok e a dataOffset size -> kept e e a dataOffset size.
Proof. by split. Qed.

Lemma kept_trans e1 e2 e3 a dataOffset size :
  kept e1 e2 a dataOffset size -> kept e2 e3 a dataOffset size -> kept e1 e3 a dataOffset size.
Proof.
  intros [] []. split; try done; [congruence..|].
  intros off n Ho. rewrite ke_frame1 by done. by apply ke_frame0.
Qed.

(** Storing a count. *)
Lemma kept_count e a dataOffset size v :
  data_ok e a dataOffset size -> 0 <= v < 65536 ->
  let e' := e.[attr a AttributeData.count := v] in
  kept e e' a dataOffset size /\ e'.[attr a AttributeData.count] = v /\
  forall off n, a + 8 <= Z.of_nat off -> slice off n e' = slice off n e.
Proof.
  intros Hd Hv e'. pose proof (da_region _ _ _ _ Hd) as (Ha & Hdo & Hend).
  pose proof (da_length _ _ _ _ Hd) as Hle. change DirectoryEntry_size with 1024 in *.
  assert (forall off n, Z.of_nat (off + n) <= a + 6 \/ a + 8 <= Z.of_nat off ->
            slice off n e' = slice off n e) as F.
  { intros off n Ho. apply slice_setf_other; [unfold_entry; field_side|unfold_entry; lia]. }
  split_and!.
  - split.
    + apply (data_ok_same e); [done| |by apply bytes_ok_setf, Hd|].
      * apply length_setf. unfold_entry. field_side.
      * intros off n Hfix. unfold fixed_region in Hfix. apply F. lia.
    + apply getf_same_slice, F. unfold_entry. lia.
    + apply getf_same_slice, F. cbn. lia.
    + intros off n Ho. apply F. lia.
  - unfold e'. rewrite getf_setf_same by (unfold_entry; field_side). apply Z.mod_small.
    change (2 ^ (8 * Z.of_nat (f_size (attr a AttributeData.count)))) with 65536. lia.
  - intros off n Ho. apply F. lia.
Qed.

(** Writing one extent behind the list [l], which [entry] starts with, and
    storing the new count. *)
Lemma push_extent entry a dataOffset size l start count :
  data_ok entry a dataOffset size -> uint_extents l -> is_uint 64 start -> is_uint 64 count ->
  slice (Z.to_nat (a + dataOffset)) (length (encode_extents 0 l)) entry = encode_extents 0 l ->
  let l' := l ++ [(start, count)] in
  dataOffset + Z.of_nat (length (encode_extents 0 l')) <= size -> Z.of_nat (length l') < 65536 ->
  exists e1,
    write_at (a + dataOffset + Z.of_nat (length (encode_extents 0 l)))
      (EncodeExtent start (last_start 0 l) count) entry = Some e1 /\
    e1.[attr a AttributeData.count] = entry.[attr a AttributeData.count] /\
    let e2 := e1.[attr a AttributeData.count := Z.of_nat (length l')] in
    kept entry e2 a dataOffset size /\ stored_extents e2 a dataOffset size l'.
Proof.
  intros Hd Hu Hs Hc Hpre l' Hfit Hn. pose proof (da_length _ _ _ _ Hd) as Hlen.
  pose proof (da_region _ _ _ _ Hd) as (Ha & Hdo & Hend). change DirectoryEntry_size with 1024 in *.
  assert (encode_extents 0 l' = encode_extents 0 l ++ EncodeExtent start (last_start 0 l) count) as Henc.
  { unfold l'. rewrite encode_extents_app. cbn [encode_extents]. by rewrite app_nil_r. }
  rewrite Henc, length_app in Hfit.
  set (enc := EncodeExtent start (last_start 0 l) count) in *.
  set (pos := a + dataOffset + Z.of_nat (length (encode_extents 0 l))).
  rewrite write_at_ok by lia. eexists. split; [done|].
  set (e1 := blit (Z.to_nat pos) enc entry).
  assert (length e1 = length entry) as Hl1 by (apply length_blit; lia).
  assert (forall off n, (off + n <= Z.to_nat pos \/ Z.to_nat pos + length enc <= off)%nat ->
            slice off n e1 = slice off n entry) as F1.
  { intros off n Ho. apply slice_blit_other; lia. }
  split. { apply getf_blit_other; unfold_entry; lia. }
  assert (kept entry e1 a dataOffset size) as Hk1.
  { split; [|apply getf_same_slice, F1; unfold_entry; lia|apply getf_same_slice, F1; cbn; lia
            |intros off n Ho; apply F1; lia].
    apply (data_ok_same entry); [done..| |].
    - apply bytes_ok_blit; [apply EncodeExtent_bytes_ok|apply Hd].
    - intros off n Hfix. unfold fixed_region in Hfix. apply F1. lia. }
  destruct (kept_count e1 a dataOffset size (Z.of_nat (length l')) (ke_data _ _ _ _ _ Hk1) ltac:(lia))
    as (Hk2 & Hcnt & F2).
  cbv zeta. split; [by eapply kept_trans|]. split; [done| |rewrite Henc, length_app; lia|].
  - rewrite Henc, length_app, F2, slice_add by lia. f_equal; [rewrite F1 by lia; done|].
    unfold e1. replace (Z.to_nat pos) with (Z.to_nat (a + dataOffset) + length (encode_extents 0 l))%nat by lia.
    apply slice_blit_same; lia.
  - apply Forall_app_2; [done|]. constructor; [done|constructor].
Qed.

(** Which list a pass extends, and by which extent: the last extent is made
    longer when the new blocks follow it. *)
Definition pass_input (c : extent_cursor) (l l0 : list (Z * Z)) (es ec st cnt : Z) : Prop :=
  if es =? u64 (c_start c + c_count c) then
    (exists x, l = l0 ++ [x]) /\ st = c_start c /\ cnt = u64 (ec + c_count c) /\
    c_start2 c = last_start 0 l0 /\ c_previousOffset c = Z.of_nat (length (encode_extents 0 l0))
  else l0 = l /\ st = es /\ cnt = ec /\ c_start c = last_start 0 l /\
       c_offset c = Z.of_nat (length (encode_extents 0 l)).

Lemma stored_prefix entry a dataOffset size l0 x :
  data_ok entry a dataOffset size -> stored_extents entry a dataOffset size (l0 ++ [x]) ->
  slice (Z.to_nat (a + dataOffset)) (length (encode_extents 0 l0)) entry = encode_extents 0 l0 /\
  uint_extents l0.
Proof.
  intros Hd [Hc Hb Hf Hu]. split; [|by apply Forall_app in Hu as [? _]].
  rewrite encode_extents_app, length_app, slice_add in Hb.
  apply app_inj_1 in Hb as [? _]; [done|]. rewrite length_slice; [done|].
  rewrite encode_extents_app, length_app in Hf. destruct Hd. change DirectoryEntry_size with 1024 in *. lia.
Qed.

Lemma grow_pass fuel entry a dataOffset size inc c s es ec s1 l l0 st cnt :
  data_ok entry a dataOffset size -> stored_extents entry a dataOffset size l -> inc <> 0 ->
  AllocateExtent inc s = (Ok (es, ec), s1) -> pass_input c l l0 es ec st cnt ->
  is_uint 64 st -> is_uint 64 cnt -> Z.of_nat (length l) < 65535 ->
  let l' := l0 ++ [(st, cnt)] in
  if dataOffset + Z.of_nat (length (encode_extents 0 l')) <=? size then
    exists e2, grow_extents (S fuel) entry a (size - dataOffset) inc c s
        = grow_extents fuel e2 a (size - dataOffset) (inc - ec)
            (Cursor es (c_count c) (c_start2 c) (Z.of_nat (length (encode_extents 0 l'))) (c_previousOffset c)) s1
      /\ kept entry e2 a dataOffset size /\ stored_extents e2 a dataOffset size l'
  else grow_extents (S fuel) entry a (size - dataOffset) inc c s = (Stop FatalError, s1).
Proof.
  intros Hd Hs Hinc Hal Hpi Hst Hcnt Hlen l'. cbn [grow_extents]. replace (inc =? 0) with false by lia.
  rewrite (bind_ok _ _ _ _ _ Hal). pose proof (se_count _ _ _ _ _ Hs) as Hse.
  set (m := es =? u64 (c_start c + c_count c)) in *. unfold pass_input in Hpi. fold m in Hpi.
  set (offset := if m then _ else _). set (enc := if m then EncodeExtent _ _ _ else _).
  set (entry1 := if m then setf _ _ _ else entry).
  assert (offset = Z.of_nat (length (encode_extents 0 l0)) /\ enc = EncodeExtent st (last_start 0 l0) cnt /\
    slice (Z.to_nat (a + dataOffset)) (length (encode_extents 0 l0)) entry1 = encode_extents 0 l0 /\
    uint_extents l0 /\ entry1.[attr a AttributeData.count] = Z.of_nat (length l0) /\
    kept entry entry1 a dataOffset size /\ (length l0 <= length l)%nat)
    as (Hoff & Henc & Hpre & Hu & Hcount & Hk & Hl0).
  { destruct m.
    - destruct Hpi as ([x ->] & -> & -> & Hs2 & Hpo).
      destruct (stored_prefix _ _ _ _ _ _ Hd Hs) as [Hpre Hu]. rewrite length_app in *. cbn [length] in *.
      destruct (kept_count entry a dataOffset size (u16 (entry.[attr a AttributeData.count] - 1)) Hd)
        as (Hk & Hc1 & HF); [apply wrap_range; lia|].
      assert (u16 (Z.of_nat (length l0 + 1) - 1) = Z.of_nat (length l0)) as Hu16.
      { unfold u16. rewrite wrap_id; [lia|]. unfold is_uint. change (2 ^ 16) with 65536. lia. }
      unfold entry1. split_and!; try done; [by rewrite <- Hs2|..|lia].
      + rewrite HF; [done|]. destruct Hd. lia.
      + rewrite Hc1, Hse. done.
    - destruct Hpi as (-> & -> & -> & Hcs & Hco). unfold entry1, enc. rewrite Hcs.
      split_and!; (done || apply Hs || by apply kept_refl). }
  clearbody offset enc entry1. rewrite Hoff, Henc.
  assert (Z.of_nat (length (encode_extents 0 l0)) + Z.of_nat (length (EncodeExtent st (last_start 0 l0) cnt))
          = Z.of_nat (length (encode_extents 0 l'))) as Hl'.
  { unfold l'. rewrite encode_extents_app, length_app. cbn [encode_extents]. rewrite app_nil_r. lia. }
  rewrite Hl'. assert (length l' = S (length l0)) as Hll by (unfold l'; rewrite length_app; simpl; lia).
  destruct (Z.leb_spec (dataOffset + Z.of_nat (length (encode_extents 0 l'))) size).
  - destruct (Z.ltb_spec (size - dataOffset) (Z.of_nat (length (encode_extents 0 l')))); [lia|].
    destruct (push_extent entry1 a dataOffset size l0 st cnt (ke_data _ _ _ _ _ Hk) Hu Hst Hcnt Hpre)
      as (e1 & Hw & Hc1 & Hk2 & Hs2); [done|fold l'; lia|].
    rewrite (da_dataOffset _ _ _ _ (ke_data _ _ _ _ _ Hk)), Hw.
    unfold bind at 1, lift_opt at 1, ret at 1. rewrite Hc1, Hcount.
    replace (u16 (Z.of_nat (length l0) + 1)) with (Z.of_nat (length l')).
    2:{ unfold u16. rewrite wrap_id; [lia|]. unfold is_uint. change (2 ^ 16) with 65536. lia. }
    eexists. split; [done|]. split; [by eapply kept_trans|done].
  - destruct (Z.ltb_spec (size - dataOffset) (Z.of_nat (length (encode_extents 0 l')))); [done|lia].
Qed.

(** *** Growing by one extent *)

Lemma encode_snoc_length l e :
  (length (encode_extents 0 (l ++ [e])) <= length (encode_extents 0 l) + 17)%nat.
Proof.
  destruct e as [start count]. rewrite encode_extents_app, length_app. cbn [encode_extents].
  rewrite app_nil_r. pose proof (length_EncodeExtent start (last_start 0 l) count). lia.
Qed.

Lemma pass_from_list limit l es ec :
  extents_ok limit l -> limit <= 2 ^ 32 -> 0 < es -> 1 <= ec -> es + ec <= limit ->
  exists l0 st cnt,
    pass_input (cursor_after (Cursor 0 0 0 0 0) l) l l0 es ec st cnt /\
    is_uint 64 st /\ is_uint 64 cnt /\ extents_ok limit (l0 ++ [(st, cnt)]) /\
    extent_blocks (l0 ++ [(st, cnt)]) = extent_blocks l ++ seqZ es ec /\
    (length (encode_extents 0 (l0 ++ [(st, cnt)])) <= length (encode_extents 0 l) + 17)%nat.
Proof.
  intros Hok Hlim Hes Hec Hle. unfold pass_input.
  assert (extents_ok limit (l ++ [(es, ec)]) /\
    extent_blocks (l ++ [(es, ec)]) = extent_blocks l ++ seqZ es ec) as [Happ Hbl].
  { split; [apply Forall_app_2; [done|]; constructor; [cbn; lia|constructor]|].
    rewrite extent_blocks_app. f_equal. unfold extent_blocks. cbn. by rewrite app_nil_r. }
  destruct l as [|[st cn] l0 _] using rev_ind.
  { exists [], es, ec. cbn [cursor_after c_start c_count]. change (u64 (0 + 0)) with 0.
    replace (es =? 0) with false by lia. split_and!; try done; [unfold is_uint; lia..|].
    apply encode_snoc_length. }
  rewrite cursor_after_snoc. cbn [c_start c_count c_start2 c_offset c_previousOffset].
  rewrite !Z.add_0_l. pose proof Hok as Hok'. apply Forall_app in Hok as [Hok0 Hlast].
  apply Forall_cons_1 in Hlast as [(H1 & H2 & H3) _]. cbn [fst snd] in H1, H2, H3.
  rewrite u64_id by (unfold is_uint; lia). destruct (Z.eqb_spec es (st + cn)) as [->|Hne].
  - exists l0, st, (cn + ec). rewrite (u64_id (ec + cn)) by (unfold is_uint; lia). split_and!.
    + by eexists.
    + done.
    + lia.
    + done.
    + done.
    + unfold is_uint; lia.
    + unfold is_uint; lia.
    + apply Forall_app_2; [done|]. constructor; [cbn; lia|constructor].
    + rewrite !extent_blocks_app. unfold extent_blocks at 2 4. cbn. rewrite !app_nil_r, <- app_assoc.
      f_equal. by rewrite seqZ_app by lia.
    + pose proof (encode_snoc_length l0 (st, cn + ec)).
      rewrite (encode_extents_app 0 l0 [(st, cn)]), (length_app (encode_extents 0 l0)). lia.
  - exists (l0 ++ [(st, cn)]), es, ec. rewrite last_start_snoc.
    split_and!; try done; [unfold is_uint; lia..|]. apply encode_snoc_length.
Qed.

(** *** Resizing *)

Definition blocks_for (bs size : Z) : Z := (size + bs - 1) / bs.

(** The entry once the new size and the indirection are stored. *)
Lemma resize_header entry a dataOffset size l newSize :
  data_ok entry a dataOffset size -> stored_extents entry a dataOffset size l -> is_uint 64 newSize ->
  let e1 := entry.[attr a AttributeData.indirection := ESFS_INDIRECTION_L1].[DirectoryEntry.fileSize := newSize] in
  data_ok e1 a dataOffset size /\ stored_extents e1 a dataOffset size l /\
  e1.[attr a AttributeData.indirection] = ESFS_INDIRECTION_L1 /\
  e1.[DirectoryEntry.fileSize] = newSize /\
  forall off n, (off + n <= 56)%nat \/ (64 <= off)%nat /\ Z.of_nat (off + n) <= a + 4 \/ a + 5 <= Z.of_nat off ->
    slice off n e1 = slice off n entry.
Proof.
  intros Hd Hs Hn e1. pose proof (da_region _ _ _ _ Hd) as (Ha & Hdo & Hend).
  pose proof (da_length _ _ _ _ Hd) as Hle. change DirectoryEntry_size with 1024 in *.
  assert (forall off n, (off + n <= 56)%nat \/ (64 <= off)%nat /\ Z.of_nat (off + n) <= a + 4
            \/ a + 5 <= Z.of_nat off -> slice off n e1 = slice off n entry) as F.
  { intros off n Ho. unfold e1, DirectoryEntry.fileSize.
    do 2 (rewrite slice_setf_other; [|unfold_entry; field_side|unfold_entry; lia]). done. }
  split_and!; try done.
  - apply (data_ok_same entry); [done| | |].
    + unfold e1, DirectoryEntry.fileSize. rewrite !length_setf by (unfold_entry; field_side). done.
    + by apply bytes_ok_setf, bytes_ok_setf, Hd.
    + intros off n Hfix. unfold fixed_region in Hfix. apply F. lia.
  - destruct Hs. split; try done.
    + rewrite (getf_same_slice entry); [done|]. apply F. unfold_entry. lia.
    + rewrite F by lia. done.
  - unfold e1, DirectoryEntry.fileSize. unfold_entry. field_simpl. done.
  - unfold e1, DirectoryEntry.fileSize. unfold_entry. rewrite getf_setf_same by field_side.
    by apply Z.mod_small.
Qed.

Lemma ResizeNode_run entry a dataOffset size l newSize s :
  data_ok entry a dataOffset size -> stored_extents entry a dataOffset size l ->
  let bs := (superblock s).[Superblock.blockSize] in
  let old := entry.[DirectoryEntry.fileSize] in
  0 < bs -> old <= newSize -> newSize + bs < 2 ^ 64 ->
  entry.[DirectoryEntry.nodeType] <> ESFS_NODE_TYPE_FILE \/ size - dataOffset <= newSize ->
  blocks_for bs old < blocks_for bs newSize ->
  Forall (fun e => e.1 < (superblock s).[Superblock.blockCount]) l ->
  exists e1,
    ResizeNode entry newSize s
    = grow_extents (Z.to_nat (blocks_for bs newSize - blocks_for bs old)) e1 a (size - dataOffset)
        (blocks_for bs newSize - blocks_for bs old) (cursor_after (Cursor 0 0 0 0 0) l) s /\
    data_ok e1 a dataOffset size /\ stored_extents e1 a dataOffset size l /\
    e1.[attr a AttributeData.indirection] = ESFS_INDIRECTION_L1 /\ e1.[DirectoryEntry.fileSize] = newSize /\
    forall off n, (off + n <= 56)%nat \/ (64 <= off)%nat /\ Z.of_nat (off + n) <= a + 4 \/ a + 5 <= Z.of_nat off ->
      slice off n e1 = slice off n entry.
Proof.
  intros Hd Hs bs old Hbs Hold Hnew Htype Hblocks Hstarts.
  pose proof (getf_range entry DirectoryEntry.fileSize (da_bytes _ _ _ _ Hd)) as [Hold0 _].
  { pose proof (da_length _ _ _ _ Hd). change DirectoryEntry_size with 1024 in *.
    unfold DirectoryEntry.fileSize. field_side. }
  fold old in Hold0. unfold ResizeNode. fold old. unfold assert at 1.
  replace (old <=? newSize) with true by lia. unfold bind at 1, ret at 1.
  rewrite (bind_ok _ _ _ _ _ (da_find _ _ _ _ Hd s)). unfold bind at 1, get at 1. fold bs.
  rewrite (da_dataOffset _ _ _ _ Hd), (da_size _ _ _ _ Hd), (data_end _ _ _ _ Hd).
  replace ((newSize <? size - dataOffset) && (entry.[DirectoryEntry.nodeType] =? ESFS_NODE_TYPE_FILE))
    with false.
  2:{ symmetry. apply andb_false_iff. destruct Htype; [right|left]; lia. }
  rewrite !(u64_id (_ + bs - 1)) by (unfold is_uint; lia).
  fold (blocks_for bs old). fold (blocks_for bs newSize).
  replace (blocks_for bs old =? blocks_for bs newSize) with false by lia.
  replace (blocks_for bs old <? blocks_for bs newSize) with true by lia.
  destruct (resize_header entry a dataOffset size l newSize Hd Hs) as (Hd1 & Hs1 & Hrest); [unfold is_uint; lia|].
  set (e1 := setf (setf entry _ _) _ _) in *. exists e1. split; [|done].
  rewrite (da_dataOffset _ _ _ _ Hd1).
  rewrite (bind_ok _ _ _ _ _ (stored_last_extent _ _ _ _ _ s Hd1 Hs1 Hstarts)). done.
Qed.

Definition volume_blocks (s : esfs D) : Z :=
  (superblock s).[Superblock.groupCount] * (superblock s).[Superblock.blocksPerGroup].

(** The allocation side of growing: exactly the blocks [new] became used. *)
Record took (s s' : esfs D) (new : list Z) : Prop := {
  tk_alloc : alloc_ok s';
  tk_new : Forall (fun b => 0 <= b < volume_blocks s /\ block_used s b = false /\ block_used s' b = true) new;
  tk_nodup : NoDup new;
  tk_others : forall b, 0 <= b < volume_blocks s -> b ∉ new -> block_used s' b = block_used s b;
  tk_size : volume_blocks s' = volume_blocks s /\ blockSize s' = blockSize s /\
            dev_size (drive s') = dev_size (drive s);
  tk_superblock : forall f, field_disjoint f Superblock.blocksUsed -> (superblock s').[f] = (superblock s).[f] }.

Lemma took_nil s : alloc_ok s -> took s s [].
Proof. intros. split; try done; constructor. Qed.

Lemma allocated_took s s' start count :
  alloc_ok s -> alloc_ok s' -> allocated s s' start count -> took s s' (seqZ start count).
Proof.
  intros [Hgeo _ _] Hok' [al_range al_taken al_frame al_superblock ? ? ? ?]. assert (forall f, field_disjoint f Superblock.blocksUsed ->
    (superblock s').[f] = (superblock s).[f]) as Hf.
  { intros f Hf. rewrite al_superblock. apply sb_used_other; [apply Hgeo|done]. }
  split; try done.
  - apply Forall_forall. intros b Hb. apply In_seqZ in Hb. split; [unfold volume_blocks; lia|].
    apply al_taken. lia.
  - apply NoDup_seqZ.
  - intros b Hb Hn. apply al_frame; [done|]. intros Hr. destruct Hn. apply elem_of_seqZ. lia.
  - split; [|done]. unfold volume_blocks. rewrite !Hf; [done|unfold field_disjoint; vm_compute; lia..].
Qed.

Lemma took_trans s1 s2 s3 new1 new2 : took s1 s2 new1 -> took s2 s3 new2 -> took s1 s3 (new1 ++ new2).
Proof.
  intros [] []. destruct tk_size0 as (Hv & Hz1 & Hz2), tk_size1 as (Hv' & Hz3 & Hz4). rewrite Hv in *.
  rewrite Forall_forall in tk_new0, tk_new1.
  assert (forall b, b ∈ new2 -> b ∉ new1) as Hdis.
  { intros b H2 H1. rewrite list_elem_of_In in H1, H2. destruct (tk_new0 b H1) as (_ & _ & ?).
    destruct (tk_new1 b H2) as (_ & ? & _). congruence. }
  split; try done.
  - apply Forall_app_2; apply Forall_forall; intros b Hb.
    + destruct (tk_new0 b Hb) as (Hr & Hf & Hu). split_and!; [lia|lia|done|].
      rewrite tk_others1; [done|done|]. intros H2. by apply (Hdis b); [|apply list_elem_of_In].
    + destruct (tk_new1 b Hb) as (Hr & Hf & Hu). split_and!; [lia|lia| |done].
      rewrite <- tk_others0; [done|done|]. apply Hdis. by apply list_elem_of_In.
  - apply list.NoDup_app. split_and!; [done| |done]. intros b H1 H2. by apply (Hdis b).
  - intros b Hb Hn. apply not_elem_of_app in Hn as [Hn1 Hn2]. rewrite tk_others1, tk_others0; (done || lia).
  - split_and!; congruence.
  - intros f Hf. rewrite tk_superblock1, tk_superblock0; done.
Qed.

(** What resizing returns: the entry lists its old blocks and then [new]. *)
Record resized (e e' : bytes) (a dataOffset size newSize limit : Z) (l l' : list (Z * Z)) (new : list Z) : Prop := {
  rz_data : data_ok e' a dataOffset size;
  rz_stored : stored_extents e' a dataOffset size l';
  rz_extents : extents_ok limit l';
  rz_blocks : extent_blocks l' = extent_blocks l ++ new;
  rz_indirection : e'.[attr a AttributeData.indirection] = ESFS_INDIRECTION_L1;
  rz_fileSize : e'.[DirectoryEntry.fileSize] = newSize;
  rz_frame : forall off n,
    (off + n <= 56)%nat \/ (64 <= off)%nat /\ Z.of_nat (off + n) <= a + 4 \/ a + size <= Z.of_nat off ->
    slice off n e' = slice off n e }.

(** A new extent starts behind block 0, which is in use on every volume. *)
Lemma allocated_positive s s' start count :
  block_used s 0 = true -> 1 <= count -> allocated s s' start count -> 0 < start.
Proof.
  intros H0 Hc [al_range al_taken _ _ _ _ _ _]. destruct (decide (start = 0)) as [->|]; [|lia].
  destruct (al_taken 0) as [? _]; [lia|]. congruence.
Qed.

Lemma resized_kept entry e1 e2 a dataOffset size newSize limit l l' new :
  (forall off n, (off + n <= 56)%nat \/ (64 <= off)%nat /\ Z.of_nat (off + n) <= a + 4 \/ a + 5 <= Z.of_nat off ->
     slice off n e1 = slice off n entry) ->
  e1.[attr a AttributeData.indirection] = ESFS_INDIRECTION_L1 -> e1.[DirectoryEntry.fileSize] = newSize ->
  96 <= a -> 8 <= size -> kept e1 e2 a dataOffset size -> stored_extents e2 a dataOffset size l' ->
  extents_ok limit l' -> extent_blocks l' = extent_blocks l ++ new ->
  resized entry e2 a dataOffset size newSize limit l l' new.
Proof.
  intros Hf Hi Hs Ha Hsz [] Hst Hok Hb. split; try done; [congruence..|].
  intros off n Ho. rewrite ke_frame0 by lia. apply Hf. lia.
Qed.

Lemma ResizeNode_by_one entry a dataOffset size l newSize s :
  alloc_ok s -> block_used s 0 = true -> volume_blocks s <= 2 ^ 32 ->
  (exists k, 0 <= k < (superblock s).[Superblock.groupCount] /\
     (groupDescriptorTable s).[gd k GroupDescriptor.blocksUsed] <> (superblock s).[Superblock.blocksPerGroup]) ->
  data_ok entry a dataOffset size -> stored_extents entry a dataOffset size l ->
  extents_ok (volume_blocks s) l -> Forall (fun e => e.1 < (superblock s).[Superblock.blockCount]) l ->
  dataOffset + Z.of_nat (length (encode_extents 0 l)) + 17 <= size -> Z.of_nat (length l) < 65535 ->
  let old := entry.[DirectoryEntry.fileSize] in
  old <= newSize -> newSize + blockSize s < 2 ^ 64 ->
  entry.[DirectoryEntry.nodeType] <> ESFS_NODE_TYPE_FILE \/ size - dataOffset <= newSize ->
  blocks_for (blockSize s) newSize = blocks_for (blockSize s) old + 1 ->
  exists e' s' l' b, ResizeNode entry newSize s = (Ok e', s') /\ took s s' [b] /\
    resized entry e' a dataOffset size newSize (volume_blocks s) l l' [b].
Proof.
  intros Hok H0 Hvol Hfree Hd Hs Hl Hstarts Hroom Hlen old Hold Hnew Htype Hblocks.
  pose proof Hok as [Hgeo _ _]. pose proof (geo_bs _ Hgeo) as Hbs. pose proof (geo_bs_pos _ Hgeo) as Hbpos.
  rewrite Hbs in Hnew, Hblocks, Hbpos.
  destruct (ResizeNode_run entry a dataOffset size l newSize s Hd Hs Hbpos Hold Hnew Htype)
    as (e1 & Hrun & Hd1 & Hs1 & Hi1 & Hf1 & Hframe); [fold old; lia|done|].
  fold old in Hrun. rewrite Hblocks in Hrun.
  replace (blocks_for _ old + 1 - blocks_for _ old) with 1 in Hrun by lia.
  destruct (AllocateExtent_ok 1 s Hok ltac:(lia) Hfree) as (es & ec & s1 & Hal & Hec & Hall & Hok1).
  assert (ec = 1) as -> by lia. pose proof (allocated_positive s s1 es 1 H0 ltac:(lia) Hall) as Hes.
  pose proof (al_range _ _ _ _ Hall) as Hrange. fold (volume_blocks s) in Hrange.
  destruct (pass_from_list (volume_blocks s) l es 1 Hl Hvol Hes ltac:(lia) ltac:(lia))
    as (l0 & st & cnt & Hpi & Hst & Hcnt & Hl' & Hbl & Hll).
  change (Z.to_nat 1) with 1%nat in Hrun.
  pose proof (grow_pass 0 e1 a dataOffset size 1 _ s es 1 s1 l l0 st cnt Hd1 Hs1 ltac:(lia) Hal Hpi Hst Hcnt Hlen) as Hpass.
  cbv zeta in Hpass.
  destruct (Z.leb_spec (dataOffset + Z.of_nat (length (encode_extents 0 (l0 ++ [(st, cnt)])))) size); [|lia].
  destruct Hpass as (e2 & Hpass & Hk & Hs2).
  exists e2, s1, (l0 ++ [(st, cnt)]), es. split; [|split].
  - rewrite Hrun, Hpass. done.
  - apply (allocated_took s s1 es 1 Hok Hok1 Hall).
  - destruct (da_region _ _ _ _ Hd) as (? & ? & _). eapply resized_kept; (done || lia).
Qed.

(** The loop from an empty list: no pass can extend the extent before it, since the
    count it compares with stays zero. *)
Lemma grow_from_empty fuel e a dataOffset size inc s l :
  alloc_ok s -> volume_blocks s <= 2 ^ 32 -> data_ok e a dataOffset size ->
  stored_extents e a dataOffset size l -> extents_ok (volume_blocks s) l ->
  block_used s (last_start 0 l) = true -> 0 <= last_start 0 l < 2 ^ 32 ->
  0 <= inc <= Z.of_nat fuel -> Z.of_nat (length l) + inc < 65535 ->
  let c := Cursor (last_start 0 l) 0 0 (Z.of_nat (length (encode_extents 0 l))) 0 in
  (exists e' s' l' new, grow_extents fuel e a (size - dataOffset) inc c s = (Ok e', s') /\
     took s s' new /\ Z.of_nat (length new) = inc /\ kept e e' a dataOffset size /\
     stored_extents e' a dataOffset size l' /\ extents_ok (volume_blocks s) l' /\
     extent_blocks l' = extent_blocks l ++ new)
  \/ exists s', grow_extents fuel e a (size - dataOffset) inc c s = (Stop FatalError, s').
Proof.
  intros Hok Hvol. revert e inc s l Hok Hvol.
  induction fuel as [|fuel IH]; intros e inc s l Hok Hvol Hd Hs Hl Hused Hlast Hinc Hlen.
  { left. exists e, s, l, []. cbn [grow_extents]. replace (inc =? 0) with true by lia.
    rewrite app_nil_r. split_and!; (done || (by apply took_nil) || (by apply kept_refl) || (simpl; lia)). }
  destruct (decide (inc = 0)) as [->|Hne].
  { left. exists e, s, l, []. rewrite app_nil_r.
    split_and!; (done || (by apply took_nil) || (by apply kept_refl)). }
  cbv zeta. set (c := Cursor _ _ _ _ _).
  destruct (AllocateExtent_total inc s Hok ltac:(lia)) as [(es & ec & s1 & Hal & Hec & Hall & Hok1)|(s1 & Hal)].
  2:{ right. exists s1. cbn [grow_extents]. replace (inc =? 0) with false by lia.
      unfold bind at 1. rewrite Hal. done. }
  pose proof (al_range _ _ _ _ Hall) as Hrange. fold (volume_blocks s) in Hrange.
  pose proof (allocated_took s s1 es ec Hok Hok1 Hall) as Htook.
  assert (es <> last_start 0 l) as Hnm.
  { intros ->. destruct (al_taken _ _ _ _ Hall (last_start 0 l)) as [? _]; [lia|]. congruence. }
  assert (pass_input c l l es ec es ec) as Hpi.
  { unfold pass_input, c. cbn [c_start c_count c_offset]. rewrite Z.add_0_r, u64_id by (unfold is_uint; lia).
    replace (es =? last_start 0 l) with false by lia. done. }
  pose proof (grow_pass fuel e a dataOffset size inc c s es ec s1 l l es ec Hd Hs Hne Hal Hpi) as Hpass.
  specialize (Hpass ltac:(unfold is_uint; lia) ltac:(unfold is_uint; lia) ltac:(lia)). cbv zeta in Hpass.
  destruct (_ <=? size); [|by right; exists s1].
  destruct Hpass as (e2 & -> & Hk2 & Hs2). destruct (tk_size _ _ _ Htook) as (Hv1 & _).
  set (l2 := l ++ [(es, ec)]) in *.
  assert (last_start 0 l2 = es) as Hls by apply last_start_snoc.
  assert (extent_blocks l2 = extent_blocks l ++ seqZ es ec) as Hbl2.
  { unfold l2. rewrite extent_blocks_app. f_equal. unfold extent_blocks. cbn. apply app_nil_r. }
  destruct (IH e2 (inc - ec) s1 l2 Hok1 ltac:(lia) (ke_data _ _ _ _ _ Hk2) Hs2)
    as [(e' & s' & l' & new & Hrun & Htook' & Hnew & Hk' & Hs' & Hl' & Hbl')|(s' & Hrun)].
  - rewrite Hv1. apply Forall_app_2; [done|]. constructor; [cbn; lia|constructor].
  - rewrite Hls. apply Hall. lia.
  - lia.
  - lia.
  - unfold l2. rewrite length_app. simpl. lia.
  - rewrite Hls in Hrun. left. exists e', s', l', (seqZ es ec ++ new). split_and!; try done.
    + by eapply took_trans.
    + rewrite length_app, length_seqZ. lia.
    + by eapply kept_trans.
    + by rewrite <- Hv1.
    + rewrite Hbl', Hbl2, app_assoc. done.
  - right. exists s'. by rewrite Hls in Hrun.
Qed.

(** ** The properties *)

(** C6.  Writing to a file stored in blocks and reading back: after a write of [n]
    bytes at [off] the same range reads as the bytes written, every other byte of
    the file is unchanged, the file is still well formed, and on the drive nothing
    outside the file's blocks changes.  The loop ends within its bound. *)
Theorem AccessNode_write_read s node a bl buffer off n :
  file_ok s node a bl -> 0 <= off -> 0 < n -> off + n <= blockSize s * Z.of_nat (length bl) ->
  n <= Z.of_nat (length buffer) ->
  exists s', AccessNode node buffer off n false false s = (Ok (node, [], None), s') /\
    file_ok s' node a bl /\ only_blocks s s' bl /\
    AccessNode node [] off n false true s' = (Ok (node, take (Z.to_nat n) buffer, None), s') /\
    forall off2 n2, 0 <= off2 -> 0 < n2 -> off2 + n2 <= blockSize s * Z.of_nat (length bl) ->
      off2 + n2 <= off \/ off + n <= off2 ->
      (AccessNode node [] off2 n2 false true s').1 = (AccessNode node [] off2 n2 false true s).1.
Proof.
  intros Hf Ho Hn Hle Hbuf.
  destruct (AccessNode_writes s node a bl buffer off n false Hf Ho Hn Hle Hbuf) as (s' & Hrun & Honly & Hc).
  exists s'. pose proof (file_ok_written _ _ _ _ _ Hf Honly) as Hf'.
  assert (blockSize s' = blockSize s) as Hbs by (by destruct Honly as (? & -> & _)).
  split_and!; try done.
  - rewrite (AccessNode_reads s' node a bl) by (rewrite ?Hbs; done). do 4 f_equal.
    apply list_eq. intros i. rewrite list_lookup_fmap. destruct (decide (Z.of_nat i < n)).
    + rewrite lookup_seqZ_lt, lookup_take_lt by lia. cbn [fmap option_fmap option_map].
      rewrite Hc, decide_True by lia. rewrite nth_lookup.
      replace (Z.to_nat (off + Z.of_nat i - off)) with i by lia.
      destruct (lookup_lt_is_Some_2 buffer i ltac:(lia)) as [x ->]. done.
    + rewrite lookup_seqZ_ge, lookup_take_ge by lia. done.
  - intros off2 n2 Ho2 Hn2 Hle2 Hdis.
    rewrite (AccessNode_reads s' node a bl), (AccessNode_reads s node a bl) by (rewrite ?Hbs; done).
    cbn [fst]. do 3 f_equal. apply list_fmap_ext. intros i x Hx. apply lookup_seqZ in Hx.
    rewrite Hc, decide_False by lia. done.
Qed.

(** Reading a file stored in blocks returns exactly the bytes its extent list
    designates and reports the block and offset accessed last; it changes nothing. *)
Theorem AccessNode_read s node a bl buffer off n has_reference :
  file_ok s node a bl -> 0 <= off -> 0 < n -> off + n <= blockSize s * Z.of_nat (length bl) ->
  AccessNode node buffer off n has_reference true s
  = (Ok (node, content s bl <$> seqZ off n,
         if has_reference then Some (last_reference s bl off n) else None), s).
Proof. apply AccessNode_reads. Qed.

(**  Data stored directly in an entry round trips: a write inside the data
    attribute keeps the entry well formed, leaves every byte outside the range
    alone, and is read back exactly. *)
Theorem AccessNode_direct node a dataOffset size buffer off n s :
  data_ok node a dataOffset size ->
  node.[attr a AttributeData.indirection] = ESFS_INDIRECTION_DIRECT ->
  0 <= off -> 0 < n -> 32 + off + n <= size -> n <= Z.of_nat (length buffer) -> bytes_ok buffer ->
  exists node', AccessNode node buffer off n false false s = (Ok (node', [], None), s) /\
    data_ok node' a dataOffset size /\
    AccessNode node' [] off n false true s = (Ok (node', take (Z.to_nat n) buffer, None), s) /\
    forall o k, Z.of_nat (o + k) <= a + 32 + off \/ a + 32 + off + n <= Z.of_nat o ->
      slice o k node' = slice o k node.
Proof.
  intros Hd Hi Ho Hn Hle Hbuf Hok. pose proof (da_region _ _ _ _ Hd) as (Ha & Hdo & Hend).
  pose proof (da_length _ _ _ _ Hd) as Hlen. change DirectoryEntry_size with 1024 in *.
  unfold AccessNode. replace (n =? 0) with false by lia.
  rewrite (bind_ok _ _ _ _ _ (da_find _ _ _ _ Hd s)). rewrite Hi. cbn [Z.eqb ESFS_INDIRECTION_DIRECT Pos.eqb andb negb].
  change (Z.of_nat AttributeData.data_offset) with 32.
  set (src := take (Z.to_nat n) buffer). assert (Z.of_nat (length src) = n) as Hsrc by (unfold src; rewrite length_take; lia).
  rewrite write_at_ok by lia. unfold bind, assert, lift_opt, ret.
  set (node' := blit _ src node). exists node'.
  assert (length node' = length node) as Hl' by (apply length_blit; lia).
  assert (forall o k, Z.of_nat (o + k) <= a + 32 + off \/ a + 32 + off + n <= Z.of_nat o ->
      slice o k node' = slice o k node) as F.
  { intros o k Hk. apply slice_blit_other; lia. }
  assert (data_ok node' a dataOffset size) as Hd'.
  { apply (data_ok_same node); [done..|apply bytes_ok_blit; [by apply Forall_take|apply Hd]|].
    intros o k Hfix. unfold fixed_region in Hfix. apply F. lia. }
  split_and!; try done. rewrite (da_find _ _ _ _ Hd' s).
  rewrite (getf_same_slice node) by (apply F; unfold_entry; lia). rewrite Hi.
  cbn [Z.eqb ESFS_INDIRECTION_DIRECT Pos.eqb andb negb]. rewrite read_at_ok by lia.
  do 4 f_equal. apply slice_blit_same; lia.
Qed.

(** Growing a node by one block, as directories do: on a volume with a free
    block and an extent list with room for one more extent, [ResizeNode] succeeds;
    the entry then lists its old blocks followed by one block that was free before
    and is used now, also when the last extent is made longer instead, and nothing
    outside the data attribute and the file size changes. *)
Theorem ResizeNode_one_block entry a dataOffset size l newSize s :
  alloc_ok s -> block_used s 0 = true -> volume_blocks s <= 2 ^ 32 ->
  (exists k, 0 <= k < (superblock s).[Superblock.groupCount] /\
     (groupDescriptorTable s).[gd k GroupDescriptor.blocksUsed] <> (superblock s).[Superblock.blocksPerGroup]) ->
  data_ok entry a dataOffset size -> stored_extents entry a dataOffset size l ->
  extents_ok (volume_blocks s) l -> Forall (fun e => e.1 < (superblock s).[Superblock.blockCount]) l ->
  dataOffset + Z.of_nat (length (encode_extents 0 l)) + 17 <= size -> Z.of_nat (length l) < 65535 ->
  let old := entry.[DirectoryEntry.fileSize] in
  old <= newSize -> newSize + blockSize s < 2 ^ 64 ->
  entry.[DirectoryEntry.nodeType] <> ESFS_NODE_TYPE_FILE \/ size - dataOffset <= newSize ->
  blocks_for (blockSize s) newSize = blocks_for (blockSize s) old + 1 ->
  exists e' s' l' b, ResizeNode entry newSize s = (Ok e', s') /\ took s s' [b] /\
    resized entry e' a dataOffset size newSize (volume_blocks s) l l' [b].
Proof. apply ResizeNode_by_one. Qed.

(** C26.  Sizing a node that has no blocks yet, as every imported file is: either
    the entry lists exactly the number of blocks its new size needs, all distinct,
    free before and used now, over as many extents as it takes, or the routine
    reports an error (out of space, or more extents than the entry can hold).  No
    assertion fails and the loop ends within its bound. *)
Theorem ResizeNode_from_empty entry a dataOffset size newSize s :
  alloc_ok s -> block_used s 0 = true -> volume_blocks s <= 2 ^ 32 ->
  data_ok entry a dataOffset size -> stored_extents entry a dataOffset size [] ->
  entry.[DirectoryEntry.fileSize] = 0 -> 0 < newSize -> newSize + blockSize s < 2 ^ 64 ->
  entry.[DirectoryEntry.nodeType] <> ESFS_NODE_TYPE_FILE \/ size - dataOffset <= newSize ->
  blocks_for (blockSize s) newSize < 65535 ->
  (exists e' s' l' new, ResizeNode entry newSize s = (Ok e', s') /\ took s s' new /\
     Z.of_nat (length new) = blocks_for (blockSize s) newSize /\
     resized entry e' a dataOffset size newSize (volume_blocks s) [] l' new)
  \/ exists s', ResizeNode entry newSize s = (Stop FatalError, s').
Proof.
  intros Hok H0 Hvol Hd Hs Hold Hpos Hnew Htype Hmax.
  pose proof Hok as [Hgeo _ _]. pose proof (geo_bs _ Hgeo) as Hbs. pose proof (geo_bs_pos _ Hgeo) as Hbpos.
  rewrite Hbs in *. set (bs := (superblock s).[Superblock.blockSize]) in *.
  assert (blocks_for bs 0 = 0) as Hz by (apply Z.div_small; lia).
  assert (1 <= blocks_for bs newSize) as Hone by (apply Z.div_le_lower_bound; lia).
  destruct (ResizeNode_run entry a dataOffset size [] newSize s Hd Hs Hbpos)
    as (e1 & Hrun & Hd1 & Hs1 & Hi1 & Hf1 & Hframe); rewrite ?Hold; fold bs; try done; [lia..|].
  rewrite Hold in Hrun. fold bs in Hrun. rewrite Hz, Z.sub_0_r in Hrun.
  destruct (grow_from_empty (Z.to_nat (blocks_for bs newSize)) e1 a dataOffset size (blocks_for bs newSize) s [])
    as [(e' & s' & l' & new & Hgrow & Htook & Hn & Hk & Hs' & Hl' & Hbl)|(s' & Hgrow)];
    [first [done|apply Forall_nil_2|lia|cbn; lia]..| |].
  - left. exists e', s', l', new. rewrite Hrun. split_and!; try done.
    destruct (da_region _ _ _ _ Hd) as (? & ? & _). eapply resized_kept; (done || lia).
  - right. exists s'. rewrite Hrun. done.
Qed.
End File.

(** ** Witnesses *)

(** A node of the given type and size whose data attribute lists the extents [l]. *)
Definition sample_node (nodeType fileSize : Z) (l : list (Z * Z)) : bytes :=
  let e := (replicate DirectoryEntry.sizeof 0)
    .[DirectoryEntry.attributeOffset := 96].[DirectoryEntry.nodeType := nodeType]
    .[DirectoryEntry.attributeCount := 1].[DirectoryEntry.fileSize := fileSize]
    .[attr 96 AttributeData.type := ESFS_ATTRIBUTE_DATA].[attr 96 AttributeData.size := 928]
    .[attr 96 AttributeData.indirection := ESFS_INDIRECTION_L1].[attr 96 AttributeData.dataOffset := 32]
    .[attr 96 AttributeData.count := Z.of_nat (length l)] in
  blit 128 (encode_extents 0 l) e.

Definition sample_extents : list (Z * Z) := [(4, 2); (40, 1)].
Definition sample_file : bytes := sample_node ESFS_NODE_TYPE_FILE 180 sample_extents.

Lemma found_at_96 (e : bytes) :
  e.[DirectoryEntry.attributeOffset] = 96 -> Z.of_nat (length e) = 1024 ->
  e.[attr 96 Attribute.type] = ESFS_ATTRIBUTE_DATA ->
  forall s : esfs DriveFile, FindAttribute e ESFS_ATTRIBUTE_DATA s = (Ok 96, s).
Proof. intros Ho Hl Ht s. unfold FindAttribute. rewrite Ho. apply find_attribute_here; (done || lia). Qed.

Lemma sample_file_ok : file_ok (small_volume 6 0) sample_file 96 (extent_blocks sample_extents).
Proof.
  split.
  - apply found_at_96; vm_compute; reflexivity.
  - vm_compute. reflexivity.
  - exists sample_extents. split_and!; [vm_compute; reflexivity| |done].
    unfold extents_ok, sample_extents. repeat constructor; cbn; lia.
  - left. vm_compute. discriminate.
  - vm_compute. reflexivity.
  - apply (bool_decide_unpack (NoDup (extent_blocks sample_extents))). vm_compute. exact I.
  - change (blockSize (small_volume 6 0)) with 64. change (dev_size (drive (small_volume 6 0))) with 4096.
    change (extent_blocks sample_extents) with [4; 5; 40]. repeat constructor; lia.
  - vm_compute. reflexivity.
  - vm_compute. reflexivity.
  - vm_compute. reflexivity.
Qed.

Lemma AccessNode_write_read_witness :
  let s := small_volume 6 0 in
  let bl := extent_blocks sample_extents in
  let buffer := seqZ 1 100 in
  exists s', AccessNode sample_file buffer 60 100 false false s = (Ok (sample_file, [], None), s') /\
    file_ok s' sample_file 96 bl /\ only_blocks s s' bl /\
    AccessNode sample_file [] 60 100 false true s' = (Ok (sample_file, take (Z.to_nat 100) buffer, None), s') /\
    forall off2 n2, 0 <= off2 -> 0 < n2 -> off2 + n2 <= blockSize s * Z.of_nat (length bl) ->
      off2 + n2 <= 60 \/ 60 + 100 <= off2 ->
      (AccessNode sample_file [] off2 n2 false true s').1 = (AccessNode sample_file [] off2 n2 false true s).1.
Proof.
  apply AccessNode_write_read; [apply sample_file_ok|lia|lia|vm_compute; discriminate|vm_compute; discriminate].
Defined.

Lemma AccessNode_read_witness :
  AccessNode sample_file [] 10 150 true true (small_volume 6 0)
  = (Ok (sample_file, content (small_volume 6 0) (extent_blocks sample_extents) <$> seqZ 10 150,
         Some (last_reference (small_volume 6 0) (extent_blocks sample_extents) 10 150)), small_volume 6 0).
Proof.
  apply (AccessNode_read (small_volume 6 0) sample_file 96 (extent_blocks sample_extents) [] 10 150 true);
    [apply sample_file_ok|lia|lia|vm_compute; discriminate].
Defined.

Lemma sample_data_ok nodeType fileSize l :
  bytes_okb (sample_node nodeType fileSize l) = true ->
  Z.of_nat (length (sample_node nodeType fileSize l)) = 1024 ->
  (sample_node nodeType fileSize l).[DirectoryEntry.attributeOffset] = 96 ->
  (sample_node nodeType fileSize l).[attr 96 Attribute.type] = ESFS_ATTRIBUTE_DATA ->
  (sample_node nodeType fileSize l).[attr 96 AttributeData.dataOffset] = 32 ->
  (sample_node nodeType fileSize l).[attr 96 AttributeData.size] = 928 ->
  data_ok (D := DriveFile) (sample_node nodeType fileSize l) 96 32 928.
Proof.
  intros Hb Hl Ho Ht Hd Hs. split; change DirectoryEntry_size with 1024;
    first [done|by apply bytes_okb_sound|by apply found_at_96|lia].
Qed.

Definition sample_direct : bytes :=
  (sample_node ESFS_NODE_TYPE_FILE 0 []).[attr 96 AttributeData.indirection := ESFS_INDIRECTION_DIRECT].

Lemma AccessNode_direct_witness :
  let s := small_volume 6 0 in
  exists node', AccessNode sample_direct [1; 2; 3] 5 3 false false s = (Ok (node', [], None), s) /\
    data_ok (D := DriveFile) node' 96 32 928 /\
    AccessNode node' [] 5 3 false true s = (Ok (node', take (Z.to_nat 3) [1; 2; 3], None), s) /\
    forall o k, Z.of_nat (o + k) <= 96 + 32 + 5 \/ 96 + 32 + 5 + 3 <= Z.of_nat o ->
      slice o k node' = slice o k sample_direct.
Proof.
  apply AccessNode_direct; [|vm_compute; reflexivity|lia|lia|lia|done|by apply bytes_okb_sound].
  split.
  - vm_compute. reflexivity.
  - apply bytes_okb_sound. vm_compute. reflexivity.
  - apply found_at_96; vm_compute; reflexivity.
  - vm_compute. discriminate.
  - vm_compute. reflexivity.
  - vm_compute. reflexivity.
  - change DirectoryEntry_size with 1024. lia.
Defined.

Lemma sample_stored nodeType fileSize l :
  (sample_node nodeType fileSize l).[attr 96 AttributeData.count] = Z.of_nat (length l) ->
  slice 128 (length (encode_extents 0 l)) (sample_node nodeType fileSize l) = encode_extents 0 l ->
  32 + Z.of_nat (length (encode_extents 0 l)) <= 928 -> uint_extents l ->
  stored_extents (sample_node nodeType fileSize l) 96 32 928 l.
Proof. by split. Qed.

Lemma ResizeNode_one_block_witness :
  let s := small_volume 6 0 in
  let e := sample_node ESFS_NODE_TYPE_DIRECTORY 128 [(4, 2)] in
  exists e' s' l' b, ResizeNode e 192 s = (Ok e', s') /\ took s s' [b] /\
    resized (D := DriveFile) e e' 96 32 928 192 (volume_blocks s) [(4, 2)] l' [b].
Proof.
  apply ResizeNode_one_block.
  - apply alloc_okb_sound. vm_compute. reflexivity.
  - vm_compute. reflexivity.
  - vm_compute. discriminate.
  - exists 0. split; vm_compute; [split; discriminate || reflexivity|discriminate].
  - apply sample_data_ok; vm_compute; reflexivity.
  - apply sample_stored; [vm_compute; reflexivity|vm_compute; reflexivity|vm_compute; discriminate|].
    repeat constructor; cbn; unfold is_uint; lia.
  - change (volume_blocks (small_volume 6 0)) with 64. repeat constructor; cbn; lia.
  - change ((superblock (small_volume 6 0)).[Superblock.blockCount]) with 64. repeat constructor; cbn; lia.
  - vm_compute. discriminate.
  - vm_compute. reflexivity.
  - vm_compute. discriminate.
  - vm_compute. reflexivity.
  - left. vm_compute. discriminate.
  - vm_compute. reflexivity.
Defined.

Lemma ResizeNode_from_empty_witness :
  let s := small_volume 6 0 in
  let e := sample_node ESFS_NODE_TYPE_FILE 0 [] in
  (exists e' s' l' new, ResizeNode e 2600 s = (Ok e', s') /\ took s s' new /\
     Z.of_nat (length new) = blocks_for (blockSize s) 2600 /\
     resized (D := DriveFile) e e' 96 32 928 2600 (volume_blocks s) [] l' new)
  \/ exists s', ResizeNode e 2600 s = (Stop FatalError, s').
Proof.
  apply ResizeNode_from_empty.
  - apply alloc_okb_sound. vm_compute. reflexivity.
  - vm_compute. reflexivity.
  - vm_compute. discriminate.
  - apply sample_data_ok; vm_compute; reflexivity.
  - apply sample_stored; [vm_compute; reflexivity|vm_compute; reflexivity|vm_compute; discriminate|].
    apply Forall_nil_2.
  - vm_compute. reflexivity.
  - lia.
  - vm_compute. reflexivity.
  - right. lia.
  - vm_compute. reflexivity.
Defined.

(** Forty-one blocks take both groups' free runs: the file's two extents. *)
Example ResizeNode_two_extents :
  match (ResizeNode (sample_node ESFS_NODE_TYPE_FILE 0 []) 2600 (small_volume 6 0)).1 with
  | Ok e => node_extents e 96 = Some [(6, 26); (33, 15)]
  | _ => False
  end.
Proof. vm_compute. reflexivity. Qed.

(** Growing a file that already has blocks over two passes corrupts its extent
    list: the first pass extends the last extent, the second encodes its start
    relative to the blocks just added instead of to the start of that extent.  Here a
    file at blocks 6 and 7 grows to 42 blocks; the allocator hands out 8..31 and
    33..48, and the entry then lists 6..31 and 31..46. *)
Theorem ResizeNode_two_passes_corrupts :
  let s := small_volume 8 0 in
  let e := sample_node ESFS_NODE_TYPE_FILE 128 [(6, 2)] in
  alloc_ok s /\ node_extents e 96 = Some [(6, 2)] /\
  match ResizeNode e 2688 s with
  | (Ok e', s') =>
      node_extents e' 96 = Some [(6, 26); (31, 16)] /\
      forallb (fun b => negb (block_used s b) && block_used s' b) [8; 31; 33; 47; 48] = true
  | _ => False
  end.
Proof.
  split; [apply alloc_okb_sound; vm_compute; reflexivity|]. split; [vm_compute; reflexivity|].
  vm_compute. split; reflexivity.
Qed.
