(* ===== verification/EsfsIndex.v ===== *)
(** * EsFS directory index (shared/esfs2.h: InsertKeyIntoVertex, AddNode)

    A directory's index is a B-tree whose vertices fill a block each: a header, up
    to [maxCount] keys in increasing order, and one more key of which only the child
    is used.  [AddNode] makes room for an entry in the directory, writes it there and
    inserts its key, splitting full vertices on the way up. *)

From Stdlib Require Import Sorted.
From stdpp Require Import gmap.
From S2P Require Import Prelude Crc Layout EsfsExtent EsfsTypes EsfsAlloc EsfsNode EsfsFile.

(** ** Keys of a vertex *)

Definition key_size : Z := Z.of_nat IndexKey.sizeof.

(** Offset of [ESFS_VERTEX_KEY(vertex, i)]. *)
Definition key_at (vertex : bytes) (i : Z) : Z := vertex.[IndexVertex.offset] + key_size * i.

Definition key_field (vertex : bytes) (i : Z) (f : field) : field :=
  shift_field (Z.to_nat (key_at vertex i)) f.

Definition key_in (vertex : bytes) (i : Z) : bool :=
  key_at vertex (i + 1) <=? Z.of_nat (length vertex).

(** Member [f] of a key, read and written; [None] outside the block. *)
Definition get_key (vertex : bytes) (i : Z) (f : field) : option Z :=
  if key_in vertex i then Some vertex.[key_field vertex i f] else None.

Definition set_key (vertex : bytes) (i : Z) (f : field) (v : Z) : option bytes :=
  if key_in vertex i then Some vertex.[key_field vertex i f := v] else None.

Definition get_data (vertex : bytes) (i : Z) : option bytes :=
  read_at (key_at vertex i + Z.of_nat (f_off IndexKey.data)) 16 vertex.

Definition set_data (vertex : bytes) (i : Z) (data : bytes) : option bytes :=
  write_at (key_at vertex i + Z.of_nat (f_off IndexKey.data)) data vertex.

(** [memmove(key + i + 1, key + i, n * sizeof(IndexKey))] *)
Definition move_keys (vertex : bytes) (i n : Z) : option bytes :=
  moved ← read_at (key_at vertex i) (key_size * n) vertex;
  write_at (key_at vertex (i + 1)) moved vertex.

(** The first key from [i] on that is greater than [newKey], or [count]; [n] is the
    number of keys left. *)
Fixpoint insertion_position (n : nat) (vertex : bytes) (newKey i : Z) : option Z :=
  match n with
  | O => Some i
  | S n' =>
      v ← get_key vertex i IndexKey.value;
      if newKey <? v then Some i else insertion_position n' vertex newKey (i + 1)
  end.

(** A new, empty vertex. *)
Definition new_vertex (bs : Z) : bytes :=
  let v := replicate (Z.to_nat bs) 0 in
  let v := v.[IndexVertex.maxCount := u64 (u64 (bs - ESFS_INDEX_KEY_OFFSET) / key_size - 1)] in
  let v := v.[IndexVertex.offset := ESFS_INDEX_KEY_OFFSET] in
  blit (f_off IndexVertex.signature) ESFS_INDEX_VERTEX_SIGNATURE v.

Section Index.
Context {D : Type} {dev : BlockDevice D}.
Context (rand : nat -> Z).

(** Returns the vertex and the position of the new key in it. *)
Definition InsertKeyIntoVertex (newKey : Z) (vertex : bytes) : M (esfs D) (bytes * Z) :=
  let! position := lift_opt OutOfBounds
    (insertion_position (Z.to_nat vertex.[IndexVertex.count]) vertex newKey 0) in
  assert (negb (vertex.[IndexVertex.count] =? vertex.[IndexVertex.maxCount])) ;;;
  let! vertex := lift_opt OutOfBounds
    (move_keys vertex position (vertex.[IndexVertex.count] + 1 - position)) in
  let vertex := vertex.[IndexVertex.count := u16 (vertex.[IndexVertex.count] + 1)] in
  let! vertex := lift_opt OutOfBounds (set_key vertex position IndexKey.value newKey) in
  ret (with_checksum IndexVertex.checksum vertex, position).

(** ** AddNode *)

(** Step 1: make room for one more entry in the directory.  Returns the directory's
    entry and the offset of its directory attribute. *)
Definition grow_directory (directoryReference : reference) : M (esfs D) (bytes * Z) :=
  let! directory := ReadDirectoryEntryReference directoryReference in
  let! dataAttribute := FindAttribute directory ESFS_ATTRIBUTE_DATA in
  let! directoryAttribute := FindAttribute directory ESFS_ATTRIBUTE_DIRECTORY in
  assert (directory.[attr dataAttribute AttributeData.indirection] =? ESFS_INDIRECTION_L1) ;;;
  let! s := get in
  let perBlock := (superblock s).[Superblock.directoryEntriesPerBlock] in
  if perBlock =? 0 then stop FatalError (* division by zero *)
  else
  let! directory :=
    if directory.[attr directoryAttribute AttributeDirectory.childNodes] mod perBlock =? 0
    then ResizeNode directory (u64 (directory.[DirectoryEntry.fileSize] + (superblock s).[Superblock.blockSize]))
    else ret directory in
  let directory := directory.[attr directoryAttribute AttributeDirectory.childNodes :=
                     u64 (directory.[attr directoryAttribute AttributeDirectory.childNodes] + 1)] in
  let! directory := WriteDirectoryEntryReference directoryReference directory in
  ret (directory, directoryAttribute).

(** Step 2: create the entry and write it into the directory. *)
Definition write_new_entry (directory : bytes) (directoryAttribute : Z) (nodeType : Z)
    (name contentType : bytes) : M (esfs D) (bytes * reference) :=
  let! entry := NewDirectoryEntry rand (replicate DirectoryEntry.sizeof 0) nodeType
                  (slice (f_off DirectoryEntry.identifier) 16 directory) name contentType in
  let childNodes := directory.[attr directoryAttribute AttributeDirectory.childNodes] in
  let! (_, _, r) := AccessNode directory entry (u64 (u64 (childNodes - 1) * DirectoryEntry_size))
                      DirectoryEntry_size true false in
  ret (entry, default (Ref 0 0) r).

(** The vertex the search starts from: the root, created when the directory is
    empty.  Returns the directory's entry, the root's block and the vertex. *)
Definition load_root (directory : bytes) (directoryAttribute : Z) : M (esfs D) (bytes * Z * bytes) :=
  let! s := get in
  let root := directory.[attr directoryAttribute AttributeDirectory.indexRootBlock] in
  if root =? 0 then
    let! (block, _) := AllocateExtent 1 in
    ret (directory.[attr directoryAttribute AttributeDirectory.indexRootBlock := block], block,
         new_vertex (superblock s).[Superblock.blockSize])
  else
    let! vertex := ReadBlock root 1 in
    ret (directory, root, vertex).

(** Whether one of the [n] keys from [i] on is [newKey]. *)
Fixpoint has_key (n : nat) (vertex : bytes) (newKey i : Z) : option bool :=
  match n with
  | O => Some false
  | S n' =>
      v ← get_key vertex i IndexKey.value;
      if v =? newKey then Some true else has_key n' vertex newKey (i + 1)
  end.

(** The child to descend to: that of the first key that is greater than [newKey],
    or the last one, and has a child. *)
Fixpoint child_for (n : nat) (vertex : bytes) (newKey i : Z) : option (option Z) :=
  match n with
  | O => Some None
  | S n' =>
      v ← get_key vertex i IndexKey.value;
      c ← get_key vertex i IndexKey.child;
      if ((i =? vertex.[IndexVertex.count]) || (newKey <? v)) && negb (c =? 0) then Some (Some c)
      else child_for n' vertex newKey (i + 1)
  end.

(** The search for the leaf.  [blocks] has [ESFS_INDEX_MAX_DEPTH] elements, so the
    descent leaves it after at most that many steps. *)
Fixpoint find_leaf (fuel : nat) (vertex : bytes) (newKey depth : Z) (blocks : list Z)
  : M (esfs D) (bytes * Z * list Z) :=
  match fuel with
  | O => stop OutOfFuel
  | S fuel' =>
      let n := Z.to_nat vertex.[IndexVertex.count] in
      let! found := lift_opt OutOfBounds (has_key n vertex newKey 0) in
      if found then stop FatalError
      else
        let! next := lift_opt OutOfBounds (child_for (S n) vertex newKey 0) in
        match next with
        | None => ret (vertex, depth, blocks)
        | Some child =>
            if ESFS_INDEX_MAX_DEPTH <=? depth + 1 then stop OutOfBounds
            else
              let blocks := <[Z.to_nat (depth + 1) := child]> blocks in
              let! vertex := ReadBlock child 1 in
              find_leaf fuel' vertex newKey (depth + 1) blocks
        end
  end.

(** *** Splitting a full vertex *)

(** Point every link to [from] at [to] instead; returns how many there were. *)
Fixpoint relink (n : nat) (parent : bytes) (from to i : Z) : option (bytes * Z) :=
  match n with
  | O => Some (parent, 0)
  | S n' =>
      c ← get_key parent i IndexKey.child;
      if c =? from then
        p ← set_key parent i IndexKey.child to;
        '(p, found) ← relink n' p from to (i + 1);
        Some (p, found + 1)
      else relink n' parent from to (i + 1)
  end.

(** Insert the median key into the parent. *)
Definition insert_median (parent : bytes) (newKey : Z) (data : bytes) (block : Z) : option bytes :=
  i ← insertion_position (Z.to_nat parent.[IndexVertex.count]) parent newKey 0;
  let count := u16 (parent.[IndexVertex.count] + 1) in
  p ← move_keys parent i (count - i);
  let p := p.[IndexVertex.count := count] in
  p ← set_key p i IndexKey.value newKey;
  p ← set_data p i data;
  set_key p i IndexKey.child block.

(** Move the keys above the median to the sibling. *)
Definition split_keys (vertex sibling : bytes) (median : Z) : option (bytes * bytes) :=
  let sibling := sibling.[IndexVertex.count := u16 (vertex.[IndexVertex.count] - median - 1)] in
  let vertex' := vertex.[IndexVertex.count := u16 median] in
  moved ← read_at (key_at vertex' (median + 1)) (key_size * (sibling.[IndexVertex.count] + 1)) vertex';
  sibling ← write_at (key_at sibling 0) moved sibling;
  Some (vertex', sibling).

(** The parent of the vertex at [depth]: read, or created as the new root.  Returns
    it with the directory's entry, the depth of the vertex and the path. *)
Definition load_parent (directory : bytes) (directoryAttribute depth : Z) (blocks : list Z)
  : M (esfs D) (bytes * bytes * Z * list Z) :=
  let! s := get in
  if depth =? 0 then
    let blocks := <[1%nat := nth 0 blocks 0]> blocks in
    let! (block, _) := AllocateExtent 1 in
    let blocks := <[0%nat := block]> blocks in
    let parent := new_vertex (superblock s).[Superblock.blockSize] in
    let parent := parent.[shift_field (Z.to_nat ESFS_INDEX_KEY_OFFSET) IndexKey.child := nth 1 blocks 0] in
    let directory := directory.[attr directoryAttribute AttributeDirectory.indexRootBlock := nth 0 blocks 0] in
    ret (directory, parent, 1, blocks)
  else
    let! parent := ReadBlock (nth (Z.to_nat (depth - 1)) blocks 0) 1 in
    ret (directory, parent, depth, blocks).

(** One pass: split the full [vertex] at [depth] and continue with its parent. *)
Definition split_vertex (directory vertex : bytes) (directoryAttribute depth : Z) (blocks : list Z)
  : M (esfs D) (bytes * bytes * Z * list Z) :=
  let! (siblingBlock, _) := AllocateExtent 1 in
  let! s := get in
  let sibling := new_vertex (superblock s).[Superblock.blockSize] in
  let! (directory, parent, depth, blocks) := load_parent directory directoryAttribute depth blocks in
  let block := nth (Z.to_nat depth) blocks 0 in
  let! (parent, found) := lift_opt OutOfBounds
    (relink (S (Z.to_nat parent.[IndexVertex.count])) parent block siblingBlock 0) in
  assert (found =? 1) ;;;
  let median := (vertex.[IndexVertex.maxCount] - 1) / 2 in
  let! newKey := lift_opt OutOfBounds (get_key vertex median IndexKey.value) in
  let! data := lift_opt OutOfBounds (get_data vertex median) in
  let! parent := lift_opt OutOfBounds (insert_median parent newKey data block) in
  let! (vertex, sibling) := lift_opt OutOfBounds (split_keys vertex sibling median) in
  let sibling := with_checksum IndexVertex.checksum sibling in
  let vertex := with_checksum IndexVertex.checksum vertex in
  WriteBlock siblingBlock 1 sibling ;;;
  WriteBlock block 1 vertex ;;;
  ret (directory, parent, depth - 1, blocks).

(** [while (vertex->count == vertex->maxCount)].  Every pass moves one level up;
    the last may add a root. *)
Fixpoint split_full (fuel : nat) (directory vertex : bytes) (directoryAttribute depth : Z) (blocks : list Z)
  : M (esfs D) (bytes * bytes * Z * list Z) :=
  if vertex.[IndexVertex.count] =? vertex.[IndexVertex.maxCount] then
    match fuel with
    | O => stop OutOfFuel
    | S fuel' =>
        let! (directory, vertex, depth, blocks) :=
          split_vertex directory vertex directoryAttribute depth blocks in
        split_full fuel' directory vertex directoryAttribute depth blocks
    end
  else ret (directory, vertex, depth, blocks).

(** Step 3: add the key to the index.  Returns the directory's entry. *)
Definition add_to_index (directory : bytes) (directoryAttribute newKey : Z) (r : reference)
  : M (esfs D) bytes :=
  let! (directory, root, vertex) := load_root directory directoryAttribute in
  let blocks := root :: replicate 15 0 in
  let! (vertex, depth, blocks) := find_leaf 17 vertex newKey 0 blocks in
  let! (vertex, position) := InsertKeyIntoVertex newKey vertex in
  let! vertex := lift_opt OutOfBounds (set_data vertex position (ref_bytes r)) in
  assert (vertex.[IndexVertex.count] <=? vertex.[IndexVertex.maxCount]) ;;;
  let! (directory, vertex, depth, blocks) :=
    split_full (Z.to_nat (depth + 2)) directory vertex directoryAttribute depth blocks in
  let vertex := with_checksum IndexVertex.checksum vertex in
  WriteBlock (nth (Z.to_nat depth) blocks 0) 1 vertex ;;;
  ret directory.

(** The new entry and where it was stored. *)
Definition AddNode (name : bytes) (nodeType : Z) (directoryReference : reference) (contentType : bytes)
  : M (esfs D) (bytes * reference) :=
  let! (directory, directoryAttribute) := grow_directory directoryReference in
  let! (entry, r) := write_new_entry directory directoryAttribute nodeType name contentType in
  let newKey := CalculateCRC64 name 0 in
  let! directory := add_to_index directory directoryAttribute newKey r in
  WriteDirectoryEntryReference directoryReference directory ;;;
  ret (entry, r).
End Index.

(** ** Vertices as lists of keys *)

(** Key [i] of a vertex, as its 32 bytes. *)
Definition key (v : bytes) (i : Z) : bytes := slice (Z.to_nat (key_at v i)) IndexKey.sizeof v.

Record vertex_ok (v : bytes) : Prop := {
  vo_bytes : bytes_ok v;
  vo_offset : 32 <= v.[IndexVertex.offset];
  vo_count : 0 <= v.[IndexVertex.count] <= v.[IndexVertex.maxCount];
  vo_max : v.[IndexVertex.maxCount] < 65535;
  vo_room : key_at v (v.[IndexVertex.maxCount] + 1) <= Z.of_nat (length v) }.

(** The values of the keys, without the last key. *)
Definition values (v : bytes) : list Z :=
  (fun i => (key v i).[IndexKey.value]) <$> seqZ 0 v.[IndexVertex.count].

(** Two buffers with the same header except for [count] and [checksum]. *)
Definition same_shape (v v' : bytes) : Prop :=
  length v' = length v /\ v'.[IndexVertex.offset] = v.[IndexVertex.offset] /\
  v'.[IndexVertex.maxCount] = v.[IndexVertex.maxCount].

Lemma key_at_eq v i : key_at v i = v.[IndexVertex.offset] + 32 * i.
Proof. done. Qed.

Lemma same_shape_key_at v v' i : same_shape v v' -> key_at v' i = key_at v i.
Proof. intros (_ & H & _). by rewrite !key_at_eq, H. Qed.

Lemma same_shape_trans v1 v2 v3 : same_shape v1 v2 -> same_shape v2 v3 -> same_shape v1 v3.
Proof. intros (? & ? & ?) (? & ? & ?). split_and!; congruence. Qed.

(** Bytes of the keys of a vertex, relative to its header. *)
Lemma key_bounds v i :
  vertex_ok v -> 0 <= i <= v.[IndexVertex.maxCount] ->
  32 <= key_at v i /\ key_at v i + 32 <= Z.of_nat (length v).
Proof. intros [] Hi. rewrite !key_at_eq in *. lia. Qed.

Lemma length_key v i : vertex_ok v -> 0 <= i <= v.[IndexVertex.maxCount] -> length (key v i) = 32%nat.
Proof.
  intros Hv Hi. destruct (key_bounds v i Hv Hi). apply length_slice. unfold IndexKey.sizeof. lia.
Qed.

Lemma get_key_ok v i f :
  vertex_ok v -> 0 <= i <= v.[IndexVertex.maxCount] -> field_in f IndexKey.sizeof ->
  get_key v i f = Some (key v i).[f].
Proof.
  intros Hv Hi Hf. destruct (key_bounds v i Hv Hi). unfold get_key, key_in.
  replace (key_at v (i + 1) <=? Z.of_nat (length v)) with true by (rewrite key_at_eq in *; lia).
  unfold key. by rewrite getf_slice.
Qed.

(** Writing [n] keys at [i] changes those keys and nothing else. *)
Lemma write_keys v i n src :
  vertex_ok v -> 0 <= i -> 0 <= n -> i + n <= v.[IndexVertex.maxCount] + 1 ->
  Z.of_nat (length src) = 32 * n ->
  exists v', write_at (key_at v i) src v = Some v' /\ same_shape v v' /\
    v'.[IndexVertex.count] = v.[IndexVertex.count] /\
    (bytes_ok src -> bytes_ok v') /\
    (forall j, 0 <= j <= v.[IndexVertex.maxCount] ->
       key v' j = if decide (i <= j < i + n) then slice (Z.to_nat (32 * (j - i))) 32 src else key v j) /\
    forall off k, Z.of_nat (off + k) <= 32 -> slice off k v' = slice off k v.
Proof.
  intros Hv Hi Hn Hle Hsrc. pose proof Hv as []. rewrite !key_at_eq in *.
  rewrite write_at_ok by lia. set (p := v.[IndexVertex.offset] + 32 * i) in *.
  eexists. split; [done|]. set (v' := blit _ src v).
  assert (length v' = length v) as Hl by (apply length_blit; lia).
  assert (forall off k, Z.of_nat (off + k) <= 32 -> slice off k v' = slice off k v) as Hhead.
  { intros off k Ho. apply slice_blit_other; lia. }
  assert (same_shape v v') as Hs.
  { split_and!; [done|apply getf_same_slice, Hhead; cbn; lia..]. }
  split_and!; try done.
  - apply getf_same_slice, Hhead. cbn. lia.
  - intros Hok. by apply bytes_ok_blit.
  - intros j Hj. unfold key. rewrite (same_shape_key_at v v' j Hs), key_at_eq.
    set (q := v.[IndexVertex.offset] + 32 * j) in *. change IndexKey.sizeof with 32%nat. case_decide.
    + apply list_eq. intros k. rewrite !lookup_slice. case_decide; [|done].
      unfold v'. rewrite lookup_blit by lia. rewrite decide_True by lia. f_equal. lia.
    + apply slice_blit_other; lia.
Qed.

Lemma slice_keys v i n j :
  vertex_ok v -> 0 <= i -> 0 <= j -> i + j < i + n -> i + n <= v.[IndexVertex.maxCount] + 1 ->
  slice (Z.to_nat (32 * j)) 32 (slice (Z.to_nat (key_at v i)) (Z.to_nat (32 * n)) v) = key v (i + j).
Proof.
  intros Hv Hi Hj Hlt Hle. rewrite slice_slice by lia. unfold key. rewrite !key_at_eq.
  change IndexKey.sizeof with 32%nat. f_equal. destruct Hv. lia.
Qed.

Lemma move_keys_ok v i n :
  vertex_ok v -> 0 <= i -> 0 <= n -> i + n <= v.[IndexVertex.maxCount] ->
  exists v', move_keys v i n = Some v' /\ same_shape v v' /\
    v'.[IndexVertex.count] = v.[IndexVertex.count] /\ bytes_ok v' /\
    (forall j, 0 <= j <= v.[IndexVertex.maxCount] ->
       key v' j = if decide (i < j <= i + n) then key v (j - 1) else key v j) /\
    forall off k, Z.of_nat (off + k) <= 32 -> slice off k v' = slice off k v.
Proof.
  intros Hv Hi Hn Hle. unfold move_keys. change key_size with 32. pose proof Hv as [].
  rewrite read_at_ok by (rewrite !key_at_eq in *; lia). cbn [mbind option_bind].
  set (src := slice _ _ _).
  destruct (write_keys v (i + 1) n src) as (v' & Hw & Hs & Hc & Hok & Hk & Hh); [done|lia..| |].
  { unfold src. rewrite length_slice; [lia|]. rewrite !key_at_eq in *. lia. }
  exists v'. split_and!; try done; [by apply Hok, bytes_ok_slice|].
  intros j Hj. rewrite Hk by done. case_decide; case_decide; try lia; [|done].
  unfold src. rewrite slice_keys by (done || lia). f_equal. lia.
Qed.

(** Writes to the first 32 bytes leave the keys alone. *)
Lemma header_write v v' :
  vertex_ok v -> length v' = length v -> v'.[IndexVertex.offset] = v.[IndexVertex.offset] ->
  v'.[IndexVertex.maxCount] = v.[IndexVertex.maxCount] ->
  (forall off k, 32 <= Z.of_nat off -> slice off k v' = slice off k v) ->
  same_shape v v' /\ forall j, 0 <= j <= v.[IndexVertex.maxCount] -> key v' j = key v j.
Proof.
  intros Hv Hl Ho Hm Hs. assert (same_shape v v') as Hsh by done. split; [done|].
  intros j Hj. unfold key. rewrite (same_shape_key_at v v' j Hsh). apply Hs.
  destruct (key_bounds v j Hv Hj). lia.
Qed.

Lemma set_count_ok v n :
  vertex_ok v -> 0 <= n < 65536 ->
  let v' := v.[IndexVertex.count := n] in
  same_shape v v' /\ v'.[IndexVertex.count] = n /\ bytes_ok v' /\
  forall j, 0 <= j <= v.[IndexVertex.maxCount] -> key v' j = key v j.
Proof.
  intros Hv Hn v'. pose proof (key_bounds v 0 Hv) as Hb. pose proof (vo_count _ Hv). pose proof (vo_bytes _ Hv).
  assert (field_in IndexVertex.count (length v)) as Hin by (unfold field_in; cbn; lia).
  destruct (header_write v v' Hv) as [Hs Hk].
  - by apply length_setf.
  - apply getf_setf_other; [done|unfold field_disjoint; cbn; lia].
  - apply getf_setf_other; [done|unfold field_disjoint; cbn; lia].
  - intros off k Ho. apply slice_setf_other; [done|cbn; lia].
  - split_and!; try done; [|by apply bytes_ok_setf]. unfold v'. rewrite getf_setf_same by done.
    apply Z.mod_small. change (2 ^ _) with 65536. lia.
Qed.

Lemma vertex_checksum_ok v :
  vertex_ok v ->
  let v' := with_checksum IndexVertex.checksum v in
  same_shape v v' /\ v'.[IndexVertex.count] = v.[IndexVertex.count] /\ bytes_ok v' /\
  checksum_ok IndexVertex.checksum v' /\
  forall j, 0 <= j <= v.[IndexVertex.maxCount] -> key v' j = key v j.
Proof.
  intros Hv v'. pose proof (key_bounds v 0 Hv) as Hb. pose proof (vo_count _ Hv). pose proof (vo_bytes _ Hv).
  destruct (with_checksum_ok IndexVertex.checksum v) as (Hc & Hl & Hf); [unfold field_in; cbn; lia|done|].
  fold v' in Hc, Hl, Hf. cbn in Hf.
  destruct (header_write v v' Hv Hl) as [Hs Hk].
  - apply getf_same_slice, Hf. cbn. lia.
  - apply getf_same_slice, Hf. cbn. lia.
  - intros off k Ho. apply Hf. lia.
  - split_and!; try done; [apply getf_same_slice, Hf; cbn; lia|]. by repeat apply bytes_ok_setf.
Qed.

Lemma set_key_ok v i f x :
  vertex_ok v -> 0 <= i <= v.[IndexVertex.maxCount] -> field_in f IndexKey.sizeof ->
  exists v', set_key v i f x = Some v' /\ same_shape v v' /\
    v'.[IndexVertex.count] = v.[IndexVertex.count] /\ bytes_ok v' /\
    forall j, 0 <= j <= v.[IndexVertex.maxCount] ->
      key v' j = if decide (j = i) then (key v i).[f := x] else key v j.
Proof.
  intros Hv Hi Hf. destruct (key_bounds v i Hv Hi) as [Hb1 Hb2]. pose proof (vo_bytes _ Hv) as Hok.
  unfold field_in in Hf. change IndexKey.sizeof with 32%nat in Hf.
  destruct (write_keys v i 1 (key v i).[f := x]) as (v' & Hw & Hs & Hc & Hok' & Hk & _); [done|lia..| |].
  { rewrite length_setf; [by rewrite length_key|]. unfold field_in. rewrite length_key by done. lia. }
  exists v'. unfold set_key, key_in.
  replace (key_at v (i + 1) <=? Z.of_nat (length v)) with true by (rewrite key_at_eq in *; lia).
  assert (v.[key_field v i f := x] = v') as ->.
  { rewrite write_at_ok in Hw.
    - injection Hw as <-. unfold setf, key_field, shift_field, key. cbn [f_off f_size].
      apply list_eq. intros k. change IndexKey.sizeof with 32%nat.
      rewrite lookup_blit by (rewrite length_le_split; lia). rewrite length_le_split.
      assert (length (slice (Z.to_nat (key_at v i)) 32 v) = 32%nat) as Hl by (apply length_slice; lia).
      rewrite (lookup_blit (Z.to_nat (key_at v i))); rewrite length_blit; rewrite ?Hl, ?length_le_split; try lia.
      rewrite lookup_blit; rewrite ?Hl, ?length_le_split; [|lia].
      repeat case_decide; try lia; [f_equal; lia| |done].
      rewrite lookup_slice, decide_True by lia. f_equal. lia.
    - lia.
    - rewrite length_setf; [rewrite length_key by done; lia|]. unfold field_in. rewrite length_key by done. lia. }
  split_and!; try done; [by apply Hok', bytes_ok_setf, bytes_ok_slice|].
  intros j Hj. rewrite Hk by done. case_decide; case_decide; try lia; [|done].
  replace (32 * (j - i)) with 0 by lia. unfold slice. rewrite drop_0. apply take_ge.
  rewrite length_setf; [by rewrite length_key|]. unfold field_in. rewrite length_key by done. lia.
Qed.

Lemma same_shape_ok v v' :
  vertex_ok v -> same_shape v v' -> bytes_ok v' ->
  0 <= v'.[IndexVertex.count] <= v.[IndexVertex.maxCount] -> vertex_ok v'.
Proof.
  intros [] Hs Hok Hc. pose proof (same_shape_key_at v v' (v.[IndexVertex.maxCount] + 1) Hs) as Hk.
  destruct Hs as (Hl & Ho & Hm). split; rewrite ?Hl, ?Ho, ?Hm, ?Hk; done.
Qed.

Lemma insertion_position_spec v newKey n i :
  vertex_ok v -> 0 <= i -> i + Z.of_nat n = v.[IndexVertex.count] ->
  exists p, insertion_position n v newKey i = Some p /\ i <= p <= v.[IndexVertex.count] /\
    (forall j, i <= j < p -> (key v j).[IndexKey.value] <= newKey) /\
    (p < v.[IndexVertex.count] -> newKey < (key v p).[IndexKey.value]).
Proof.
  intros Hv. revert i. induction n as [|n IH]; intros i Hi Hn; cbn [insertion_position].
  { exists i. split_and!; [done|lia..]. }
  pose proof (vo_count _ Hv). rewrite get_key_ok; [|done|lia|unfold field_in; vm_compute; lia]. cbn [mbind option_bind].
  destruct (Z.ltb_spec newKey (key v i).[IndexKey.value]).
  - exists i. split_and!; [done|lia|lia|lia|done].
  - destruct (IH (i + 1)) as (p & Hp & Hr & Hlo & Hhi); [lia|lia|]. exists p. split_and!; [done|lia|lia| |done].
    intros j Hj. destruct (decide (j = i)) as [->|]; [done|]. apply Hlo. lia.
Qed.

(** ** Inserting a key *)

Lemma length_values v : vertex_ok v -> Z.of_nat (length (values v)) = v.[IndexVertex.count].
Proof. intros []. unfold values. rewrite length_fmap, length_seqZ. lia. Qed.

Lemma lookup_values v j :
  0 <= j < v.[IndexVertex.count] -> values v !! Z.to_nat j = Some (key v j).[IndexKey.value].
Proof. intros Hj. unfold values. rewrite list_lookup_fmap, lookup_seqZ_lt by lia. 
  cbn [fmap option_fmap option_map]. by replace (0 + Z.of_nat (Z.to_nat j)) with j by lia. Qed.

Lemma values_eq v l :
  Z.of_nat (length l) = v.[IndexVertex.count] ->
  (forall j, 0 <= j < v.[IndexVertex.count] -> l !! Z.to_nat j = Some (key v j).[IndexKey.value]) ->
  values v = l.
Proof.
  intros Hl Hj. apply list_eq. intros i. destruct (decide (Z.of_nat i < v.[IndexVertex.count])).
  - specialize (Hj (Z.of_nat i) ltac:(lia)). rewrite Nat2Z.id in Hj. rewrite Hj.
    rewrite <- (Nat2Z.id i) at 1. apply lookup_values. lia.
  - rewrite !lookup_ge_None_2; [done|lia|]. unfold values. rewrite length_fmap, length_seqZ. lia.
Qed.

(** What one insertion does to the keys: those from [p] on move up by one, and the
    new one gets [newKey]; it keeps the child that was at [p]. *)
Record inserted (v v' : bytes) (newKey p : Z) : Prop := {
  in_shape : same_shape v v';
  in_count : v'.[IndexVertex.count] = v.[IndexVertex.count] + 1;
  in_ok : vertex_ok v';
  in_range : 0 <= p <= v.[IndexVertex.count];
  in_keys : forall j, 0 <= j <= v.[IndexVertex.count] + 1 ->
    key v' j = if decide (j < p) then key v j
               else if decide (j = p) then (key v p).[IndexKey.value := newKey] else key v (j - 1);
  in_below : forall j, 0 <= j < p -> (key v j).[IndexKey.value] <= newKey;
  in_above : p < v.[IndexVertex.count] -> newKey < (key v p).[IndexKey.value] }.

Lemma inserted_values v v' newKey p :
  vertex_ok v -> is_uint 64 newKey -> inserted v v' newKey p ->
  values v' = take (Z.to_nat p) (values v) ++ newKey :: drop (Z.to_nat p) (values v).
Proof.
  intros Hv Hu []. pose proof (length_values v Hv) as Hl. pose proof (vo_count _ Hv). apply values_eq.
  - rewrite length_app. cbn [length]. rewrite length_take, length_drop. lia.
  - intros j Hj. rewrite in_keys0 by lia. rewrite lookup_app.
    repeat case_decide.
    + rewrite lookup_take_lt by lia. rewrite lookup_values by lia. done.
    + subst j. rewrite (lookup_ge_None_2 (take _ _)) by (rewrite length_take; lia).
      rewrite length_take. replace (Z.to_nat p - _)%nat with 0%nat by lia. cbn [lookup list_lookup].
      f_equal. symmetry. apply getf_setf_uint; [|done].
      unfold field_in. rewrite length_key by (done || (destruct in_shape0 as (_ & _ & ?); lia || lia)). vm_compute. lia.
    + rewrite (lookup_ge_None_2 (take _ _)) by (rewrite length_take; lia). rewrite length_take.
      replace (Z.to_nat j - Z.to_nat p `min` length (values v))%nat with (S (Z.to_nat (j - 1) - Z.to_nat p)) by lia.
      change ((newKey :: ?l) !! S ?k) with (l !! k). rewrite lookup_drop.
      replace (Z.to_nat p + _)%nat with (Z.to_nat (j - 1)) by lia. apply lookup_values. lia.
Qed.

(** Inserting in order. *)
Lemma sorted_insert (l : list Z) p x :
  StronglySorted Z.lt l -> (forall j y, l !! j = Some y -> (j < p)%nat -> y < x) ->
  (forall j y, l !! j = Some y -> (p <= j)%nat -> x < y) ->
  StronglySorted Z.lt (take p l ++ x :: drop p l).
Proof.
  revert p. induction l as [|y l IH]; intros p Hs Hlo Hhi.
  { rewrite take_nil, drop_nil. repeat constructor. }
  apply StronglySorted_inv in Hs as [Hs Hy]. destruct p as [|p].
  - cbn [take drop app]. constructor; [by constructor|].
    apply Forall_forall. intros z Hz. apply list_elem_of_In, list_elem_of_lookup_1 in Hz as [j Hj].
    by apply (Hhi j); [|lia].
  - cbn [take drop app]. constructor.
    + apply IH; [done|intros j z Hz Hj; apply (Hlo (S j) z); [done|lia]
                     |intros j z Hz Hj; apply (Hhi (S j) z); [done|lia]].
    + apply Forall_app_2; [by apply Forall_take|]. constructor; [|by apply Forall_drop].
      apply (Hlo 0%nat); [done|lia].
Qed.

Lemma sorted_lookup (l : list Z) i j x y :
  StronglySorted Z.lt l -> l !! i = Some x -> l !! j = Some y -> (i < j)%nat -> x < y.
Proof.
  intros Hs. revert i j. induction Hs as [|z l Hs IH Hz]; intros i j Hi Hj Hlt; [done|].
  destruct j as [|j]; [lia|]. destruct i as [|i]; cbn in Hi, Hj.
  - injection Hi as ->. rewrite Forall_forall in Hz. eapply Hz, list_elem_of_In, list_elem_of_lookup_2, Hj.
  - by apply (IH i j); [..|lia].
Qed.

Lemma inserted_sorted v v' newKey p :
  vertex_ok v -> is_uint 64 newKey -> inserted v v' newKey p ->
  StronglySorted Z.lt (values v) -> newKey ∉ values v ->
  StronglySorted Z.lt (values v').
Proof.
  intros Hv Hu Hin Hs Hnew. rewrite (inserted_values v v' newKey p Hv Hu Hin). destruct Hin.
  pose proof (length_values v Hv) as Hl. apply sorted_insert; [done| |].
  - intros j y Hy Hj. assert (Z.of_nat j < v.[IndexVertex.count]) as Hjc by (apply lookup_lt_Some in Hy; lia).
    pose proof (lookup_values v (Z.of_nat j) ltac:(lia)) as Hv'. rewrite Nat2Z.id, Hy in Hv'.
    injection Hv' as ->. specialize (in_below0 (Z.of_nat j) ltac:(lia)).
    assert ((key v (Z.of_nat j)).[IndexKey.value] <> newKey); [|lia].
    intros He. destruct Hnew. rewrite <- He. by apply list_elem_of_lookup_2 in Hy.
  - intros j y Hy Hj. apply lookup_lt_Some in Hy as Hjl.
    pose proof (lookup_values v p ltac:(lia)) as Hp. specialize (in_above0 ltac:(lia)).
    destruct (decide (Z.to_nat p = j)) as [<-|]; [rewrite Hp in Hy; by injection Hy as <-|].
    pose proof (sorted_lookup _ _ _ _ _ Hs Hp Hy ltac:(lia)). lia.
Qed.

Ltac key_side := unfold field_in; vm_compute; lia.

Section Insertion.
Context {D : Type}.

Lemma InsertKeyIntoVertex_inserted newKey v (s : esfs D) :
  vertex_ok v -> v.[IndexVertex.count] < v.[IndexVertex.maxCount] ->
  exists v' p, InsertKeyIntoVertex newKey v s = (Ok (v', p), s) /\ inserted v v' newKey p /\
    checksum_ok IndexVertex.checksum v'.
Proof.
  intros Hv Hc. pose proof (vo_count _ Hv) as Hcnt. pose proof (vo_max _ Hv) as Hmax.
  destruct (insertion_position_spec v newKey (Z.to_nat v.[IndexVertex.count]) 0 Hv)
    as (p & Hp & Hr & Hlo & Hhi); [lia|lia|].
  unfold InsertKeyIntoVertex. rewrite Hp. unfold bind at 1, lift_opt at 1, ret at 1.
  replace (v.[IndexVertex.count] =? v.[IndexVertex.maxCount]) with false by lia.
  unfold assert, negb, bind at 1, ret at 1.
  destruct (move_keys_ok v p (v.[IndexVertex.count] + 1 - p) Hv) as (v1 & Hm & Hs1 & Hc1 & Hok1 & Hk1 & _); [lia..|].
  rewrite Hm. unfold bind at 1, lift_opt at 1, ret at 1. rewrite Hc1.
  assert (vertex_ok v1) as Hv1 by (eapply same_shape_ok; [done..|lia]).
  assert (u16 (v.[IndexVertex.count] + 1) = v.[IndexVertex.count] + 1) as ->.
  { apply wrap_id. unfold is_uint. change (2 ^ 16) with 65536. lia. }
  destruct (set_count_ok v1 (v.[IndexVertex.count] + 1) Hv1) as (Hs2 & Hc2 & Hok2 & Hk2); [lia|].
  set (v2 := setf v1 _ _) in *.
  pose proof (same_shape_trans _ _ _ Hs1 Hs2) as Hs12. pose proof Hs12 as (_ & _ & Hm2). pose proof Hs1 as (_ & _ & Hm1).
  assert (vertex_ok v2) as Hv2 by (eapply (same_shape_ok v); [done..|rewrite Hc2; lia]).
  destruct (set_key_ok v2 p IndexKey.value newKey Hv2) as (v3 & Hset & Hs3 & Hc3 & Hok3 & Hk3); [lia|key_side|].
  rewrite Hset. unfold bind at 1, lift_opt at 1, ret.
  assert (vertex_ok v3) as Hv3 by (eapply (same_shape_ok v2); [done..|lia]).
  destruct (vertex_checksum_ok v3 Hv3) as (Hs4 & Hc4 & Hok4 & Hck & Hk4).
  pose proof (same_shape_trans _ _ _ Hs12 Hs3) as Hs13. pose proof Hs13 as (_ & _ & Hm3).
  eexists _, p. split; [done|]. split; [|done]. split; try done.
  - by eapply same_shape_trans.
  - rewrite Hc4, Hc3. done.
  - eapply (same_shape_ok v3); [done..|]. rewrite Hc4, Hc3, Hc2. lia.
  - intros j Hj. rewrite Hk4 by lia. rewrite Hk3 by lia.
    destruct (decide (j = p)) as [->|Hjp].
    + rewrite (decide_False (P := p < p)) by lia. rewrite Hk2 by lia. rewrite Hk1 by lia.
      rewrite decide_False by lia. done.
    + rewrite Hk2 by lia. rewrite Hk1 by lia. repeat case_decide; (done || lia).
Qed.

(** C28.  [InsertKeyIntoVertex] on a vertex that is not full inserts the key at its
    place: the values stay strictly increasing, nothing is lost, the new key takes
    over the child of the key it is put before (so a key of a leaf has no child),
    every later key moves up by one with its child and data, and the checksum
    matches. *)
Theorem InsertKeyIntoVertex_correct newKey v (s : esfs D) :
  vertex_ok v -> v.[IndexVertex.count] < v.[IndexVertex.maxCount] -> is_uint 64 newKey ->
  StronglySorted Z.lt (values v) -> newKey ∉ values v ->
  exists v' p, InsertKeyIntoVertex newKey v s = (Ok (v', p), s) /\ inserted v v' newKey p /\
    StronglySorted Z.lt (values v') /\
    values v' = take (Z.to_nat p) (values v) ++ newKey :: drop (Z.to_nat p) (values v) /\
    checksum_ok IndexVertex.checksum v'.
Proof.
  intros Hv Hc Hu Hs Hn. destruct (InsertKeyIntoVertex_inserted newKey v s Hv Hc) as (v' & p & Hrun & Hin & Hck).
  exists v', p. split_and!; try done; [by eapply inserted_sorted|by apply inserted_values].
Qed.

(** A full vertex is refused: [InsertKeyIntoVertex] fails its assertion and
    nothing is changed. *)
Theorem InsertKeyIntoVertex_full newKey v (s : esfs D) :
  vertex_ok v -> v.[IndexVertex.count] = v.[IndexVertex.maxCount] ->
  InsertKeyIntoVertex newKey v s = (Stop Assertion, s).
Proof.
  intros Hv Hc. pose proof (vo_count _ Hv) as Hcnt.
  destruct (insertion_position_spec v newKey (Z.to_nat v.[IndexVertex.count]) 0 Hv) as (p & Hp & _); [lia|lia|].
  unfold InsertKeyIntoVertex. rewrite Hp. unfold bind at 1, lift_opt at 1, ret at 1.
  rewrite Hc, Z.eqb_refl. done.
Qed.
End Insertion.

(** ** Splitting *)

Lemma new_vertex_ok bs :
  128 <= bs < 2 ^ 20 -> bs mod 32 = 0 ->
  vertex_ok (new_vertex bs) /\ length (new_vertex bs) = Z.to_nat bs /\
  (new_vertex bs).[IndexVertex.count] = 0 /\ (new_vertex bs).[IndexVertex.offset] = 32 /\
  (new_vertex bs).[IndexVertex.maxCount] = bs / 32 - 2.
Proof.
  intros Hbs Hm. unfold new_vertex. change key_size with 32. change ESFS_INDEX_KEY_OFFSET with 32.
  pose proof (Z.div_mod bs 32 ltac:(lia)) as Hdm.
  assert (u64 (u64 (bs - 32) / 32 - 1) = bs / 32 - 2) as ->.
  { rewrite (u64_id (bs - 32)) by (unfold is_uint; lia).
    replace (bs - 32) with (bs + (-1) * 32) by lia. rewrite Z.div_add by lia. rewrite u64_id; [lia|].
    unfold is_uint. lia. }
  set (v0 := replicate _ 0). assert (length v0 = Z.to_nat bs) as Hl0 by apply length_replicate.
  set (v1 := setf v0 _ _). set (v2 := setf v1 _ _). set (v3 := blit _ _ v2).
  assert (length v1 = Z.to_nat bs) as Hl1.
  { rewrite <- Hl0. apply length_setf. unfold field_in. rewrite Hl0. cbn. lia. }
  assert (length v2 = Z.to_nat bs) as Hl2.
  { rewrite <- Hl1. apply length_setf. unfold field_in. rewrite Hl1. cbn. lia. }
  assert (length v3 = Z.to_nat bs) as Hl3.
  { rewrite <- Hl2. apply length_blit. rewrite Hl2. cbn. lia. }
  assert (forall f, (4 <= f_off f)%nat -> v3.[f] = v2.[f]) as H32.
  { intros f Hf. apply getf_blit_other; [rewrite Hl2; cbn; lia|cbn; lia]. }
  assert (v3.[IndexVertex.count] = 0) as Hcount.
  { rewrite H32 by (cbn; lia). unfold v2.
    rewrite getf_setf_other by (unfold field_in, field_disjoint; rewrite ?Hl1; cbn; lia). unfold v1.
    rewrite getf_setf_other by (unfold field_in, field_disjoint; rewrite ?Hl0; cbn; lia). apply getf_zeros. }
  assert (v3.[IndexVertex.offset] = 32) as Hoff.
  { rewrite H32 by (cbn; lia). unfold v2. rewrite getf_setf_same by (unfold field_in; rewrite Hl1; cbn; lia). done. }
  assert (v3.[IndexVertex.maxCount] = bs / 32 - 2) as Hmax.
  { rewrite H32 by (cbn; lia). unfold v2.
    rewrite getf_setf_other by (unfold field_in, field_disjoint; rewrite ?Hl1; cbn; lia). unfold v1.
    rewrite getf_setf_same by (unfold field_in; rewrite Hl0; cbn; lia).
    apply Z.mod_small. change (2 ^ _) with 65536. lia. }
  split_and!; try done. split.
  - apply bytes_ok_blit; [by apply bytes_okb_sound|]. by repeat apply bytes_ok_setf; apply bytes_ok_replicate0.
  - lia.
  - lia.
  - lia.
  - rewrite key_at_eq, Hoff, Hmax, Hl3. lia.
Qed.

(** C29.  Splitting a vertex loses nothing: the values of the vertex, the median
    value and the values of its new sibling, one after another, are the values
    before the split; all keys keep child and data, and the sibling's last key is
    the last key of the old vertex. *)
Theorem split_keys_correct v sib median :
  vertex_ok v -> vertex_ok sib -> sib.[IndexVertex.maxCount] = v.[IndexVertex.maxCount] ->
  0 <= median < v.[IndexVertex.count] ->
  exists v' sib', split_keys v sib median = Some (v', sib') /\ vertex_ok v' /\ vertex_ok sib' /\
    values v = values v' ++ (key v median).[IndexKey.value] :: values sib' /\
    v'.[IndexVertex.count] = median /\ sib'.[IndexVertex.count] = v.[IndexVertex.count] - median - 1 /\
    (forall j, 0 <= j <= median -> key v' j = key v j) /\
    forall j, 0 <= j <= sib'.[IndexVertex.count] -> key sib' j = key v (median + 1 + j).
Proof.
  intros Hv Hsib Hmm Hmed. pose proof (vo_count _ Hv) as Hc. pose proof (vo_max _ Hv) as Hmax.
  unfold split_keys.
  assert (u16 (v.[IndexVertex.count] - median - 1) = v.[IndexVertex.count] - median - 1) as ->.
  { apply wrap_id. unfold is_uint. change (2 ^ 16) with 65536. lia. }
  assert (u16 median = median) as ->.
  { apply wrap_id. unfold is_uint. change (2 ^ 16) with 65536. lia. }
  set (n := v.[IndexVertex.count] - median - 1) in *.
  destruct (set_count_ok sib n Hsib) as (Hs1 & Hc1 & Hok1 & Hk1); [lia|]. set (sib1 := setf sib _ _) in *.
  destruct (set_count_ok v median Hv) as (Hs2 & Hc2 & Hok2 & Hk2); [lia|]. set (v' := setf v _ _) in *.
  assert (vertex_ok sib1) as Hsib1 by (eapply (same_shape_ok sib); [done..|lia]).
  assert (vertex_ok v') as Hv' by (eapply (same_shape_ok v); [done..|lia]).
  pose proof Hs1 as (_ & _ & Hm1). pose proof Hs2 as (_ & _ & Hm2). rewrite Hc1. change key_size with 32.
  pose proof (vo_room _ Hv') as Hroom. rewrite key_at_eq, Hm2 in Hroom. pose proof (vo_offset _ Hv') as Hoff.
  rewrite read_at_ok by (rewrite ?key_at_eq; lia). cbn [mbind option_bind].
  set (src := slice _ _ v').
  destruct (write_keys sib1 0 (n + 1) src) as (sib' & Hw & Hs3 & Hc3 & Hok3 & Hk3 & _); [done|lia..| |].
  { unfold src. rewrite length_slice; [lia|]. rewrite key_at_eq. lia. }
  rewrite Hw. cbn [mbind option_bind]. exists v', sib'. split; [done|].
  assert (vertex_ok sib') as Hsib'.
  { eapply (same_shape_ok sib1); [done..|by apply Hok3, bytes_ok_slice|]. rewrite Hc3, Hc1. lia. }
  assert (forall j, 0 <= j <= n -> key sib' j = key v (median + 1 + j)) as Hkeys.
  { intros j Hj. rewrite Hk3 by lia. rewrite decide_True by lia. rewrite Z.sub_0_r.
    unfold src. rewrite slice_keys by (done || lia). apply Hk2. lia. }
  assert (sib'.[IndexVertex.count] = n) as Hcs by (rewrite Hc3; done).
  split_and!; try done; [|intros j Hj; apply Hk2; lia|intros j Hj; apply Hkeys; lia].
  pose proof (length_values v' Hv') as Hl1. pose proof (length_values sib' Hsib') as Hl2.
  apply values_eq; [rewrite length_app; cbn [length]; lia|]. intros j Hj. rewrite lookup_app.
  destruct (decide (j < median)).
  - rewrite lookup_values by lia. rewrite Hk2 by lia. done.
  - rewrite lookup_ge_None_2 by lia. destruct (decide (j = median)) as [->|].
    + replace (Z.to_nat median - length (values v'))%nat with 0%nat by lia. done.
    + replace (Z.to_nat j - length (values v'))%nat with (S (Z.to_nat (j - median - 1))) by lia.
      change ((?x :: ?l) !! S ?k) with (l !! k). rewrite lookup_values by lia. rewrite Hkeys by lia.
      do 3 f_equal. lia.
Qed.

(** ** Witnesses *)

(** A leaf with keys 10, 20 and 30 in a block of 256 bytes (six keys at most). *)
Definition sample_vertex : bytes :=
  (new_vertex 256).[IndexVertex.count := 3]
    .[Field 32 8 := 10].[Field 64 8 := 20].[Field 96 8 := 30].[Field 48 8 := 5].

Lemma sample_vertex_ok : vertex_ok sample_vertex.
Proof.
  split.
  - apply bytes_okb_sound. vm_compute. reflexivity.
  - vm_compute. discriminate.
  - vm_compute. split; discriminate.
  - vm_compute. reflexivity.
  - vm_compute. discriminate.
Qed.

Lemma InsertKeyIntoVertex_correct_witness :
  exists v' p, InsertKeyIntoVertex 25 sample_vertex (small_volume 6 0) = (Ok (v', p), small_volume 6 0) /\
    inserted sample_vertex v' 25 p /\ StronglySorted Z.lt (values v') /\
    values v' = take (Z.to_nat p) (values sample_vertex) ++ 25 :: drop (Z.to_nat p) (values sample_vertex) /\
    checksum_ok IndexVertex.checksum v'.
Proof.
  apply InsertKeyIntoVertex_correct; [apply sample_vertex_ok|vm_compute; reflexivity|unfold is_uint; lia| |].
  - assert (values sample_vertex = [10; 20; 30]) as -> by (vm_compute; reflexivity). repeat constructor.
  - assert (values sample_vertex = [10; 20; 30]) as -> by (vm_compute; reflexivity).
    rewrite !not_elem_of_cons. repeat split; try lia. apply not_elem_of_nil.
Defined.

Definition full_vertex : bytes :=
  sample_vertex.[IndexVertex.count := 6].[Field 128 8 := 40].[Field 160 8 := 50].[Field 192 8 := 60].

Lemma full_vertex_ok : vertex_ok full_vertex.
Proof.
  split.
  - apply bytes_okb_sound. vm_compute. reflexivity.
  - vm_compute. discriminate.
  - vm_compute. split; discriminate.
  - vm_compute. reflexivity.
  - vm_compute. discriminate.
Qed.

Lemma InsertKeyIntoVertex_full_witness :
  InsertKeyIntoVertex 25 full_vertex (small_volume 6 0) = (Stop Assertion, small_volume 6 0).
Proof. apply InsertKeyIntoVertex_full; [apply full_vertex_ok|vm_compute; reflexivity]. Defined.

Lemma split_keys_correct_witness :
  exists v' sib', split_keys full_vertex (new_vertex 256) 2 = Some (v', sib') /\ vertex_ok v' /\ vertex_ok sib' /\
    values full_vertex = values v' ++ (key full_vertex 2).[IndexKey.value] :: values sib' /\
    v'.[IndexVertex.count] = 2 /\ sib'.[IndexVertex.count] = full_vertex.[IndexVertex.count] - 2 - 1 /\
    (forall j, 0 <= j <= 2 -> key v' j = key full_vertex j) /\
    forall j, 0 <= j <= sib'.[IndexVertex.count] -> key sib' j = key full_vertex (2 + 1 + j).
Proof.
  apply split_keys_correct; [apply full_vertex_ok|apply new_vertex_ok; [lia|reflexivity]|vm_compute; reflexivity|].
  vm_compute. split; [discriminate|reflexivity].
Defined.
