(* ===== verification/EsfsVolume.v ===== *)
(** * EsFS volumes (shared/esfs2.h: MountVolume, UnmountVolume, FindNode, Import, Format)

    The operations on a whole volume: reading its superblock and group descriptors
    in, writing them back, looking a name up in a directory, importing a tree of
    files and creating an empty volume. *)

From stdpp Require Import gmap.
From S2P Require Import Prelude Crc Layout EsfsExtent EsfsTypes EsfsAlloc EsfsNode EsfsFile EsfsIndex.

(** [EsUniqueIdentifier elf] of [Format]. *)
Definition elf_content_type : bytes :=
  [0xAB; 0xDE; 0x98; 0xB5; 0x56; 0x2C; 0x04; 0xDF; 0x1E; 0x43; 0xC8; 0x10; 0x24; 0x63; 0xDB; 0xB8].

(** "Kernel" *)
Definition kernel_name : bytes := [75; 101; 114; 110; 101; 108].

(** A [DirectoryEntryReference] stored in the superblock at offset [off]. *)
Definition sb_reference (sb : bytes) (off : nat) : reference :=
  Ref sb.[shift_field off DirectoryEntryReference.block]
      sb.[shift_field off DirectoryEntryReference.offsetIntoBlock].

(** Blocks of the group descriptor table. *)
Definition gdt_blocks (sb : bytes) : Z :=
  u64 (sb.[Superblock.groupCount] * Z.of_nat GroupDescriptor.sizeof + sb.[Superblock.blockSize] - 1)
    / sb.[Superblock.blockSize].

(** A file or directory to import. *)
Inductive ImportNode : Type :=
  MkImportNode (name path : bytes) (children : list ImportNode) (isFile : bool) (contentType : bytes).

(** ** The geometry [Format] chooses *)

Record geometry : Type := Geometry {
  g_blockSize : Z;
  g_blockCount : Z;
  g_blocksPerGroup : Z;
  g_groupCount : Z;
  g_blocksPerGroupBlockBitmap : Z;
  g_directoryEntriesPerBlock : Z;
  g_blockGDT : Z;
  g_blockGroup0Bitmap : Z;
  g_blockGroupLastBitmap : Z;
  g_blockCoreNodes : Z;
  g_end : Z }.

Definition format_blockSize (driveSize : Z) : Z :=
  if driveSize <? 2048 * 1024 * 1024 then 2048
  else if driveSize <? 2 * 1024 * 1024 * 1024 * 1024 then 4096
  else if driveSize <? 256 * 1024 * 1024 * 1024 * 1024 then 8192
  else 16384.

Definition format_geometry (driveSize : Z) : geometry :=
  let blockSize := format_blockSize driveSize in
  let blockCount := driveSize / blockSize in
  let blocksPerGroup := if blockCount <? 32768 then u32 (blockCount / 2) else 32768 in
  let groupCount := u64 (blockCount + blocksPerGroup - 1) / blocksPerGroup in
  let blocksPerGroupBlockBitmap := (u32 (blocksPerGroup + 7) / 8 + blockSize - 1) / blockSize in
  let directoryEntriesPerBlock := blockSize / DirectoryEntry_size in
  let gdt := u64 (groupCount * Z.of_nat GroupDescriptor.sizeof + blockSize - 1) / blockSize in
  let blockGDT := ESFS_BOOT_SUPER_BLOCK_SIZE * 2 / blockSize + 1 in
  let blockGroup0Bitmap := blockGDT + gdt in
  let blockGroupLastBitmap := blockGroup0Bitmap + gdt in
  let blockCoreNodes := blockGroupLastBitmap + blocksPerGroupBlockBitmap in
  let end_ := blockCoreNodes
    + (ESFS_CORE_NODE_COUNT + directoryEntriesPerBlock - 1) / directoryEntriesPerBlock in
  Geometry blockSize blockCount blocksPerGroup groupCount blocksPerGroupBlockBitmap
    directoryEntriesPerBlock blockGDT blockGroup0Bitmap blockGroupLastBitmap blockCoreNodes end_.

(** The core node of index [i]: its block and the offset into it. *)
Definition core_node_reference (g : geometry) (i : Z) : reference :=
  let position := u64 (g_blockCoreNodes g * g_blockSize g + DirectoryEntry_size * i) in
  Ref (position / g_blockSize g) (u32 (position mod g_blockSize g)).

(** The superblock's fields up to [gdtFirstBlock]. *)
Definition format_superblock (sb volumeName : bytes) (g : geometry) : bytes :=
  let sb := blit (f_off Superblock.signature) ESFS_SIGNATURE_STRING sb in
  let sb := blit (f_off Superblock.volumeName) volumeName sb in
  let sb := sb.[Superblock.requiredReadVersion := ESFS_DRIVER_VERSION] in
  let sb := sb.[Superblock.requiredWriteVersion := ESFS_DRIVER_VERSION] in
  let sb := sb.[Superblock.blockSize := g_blockSize g] in
  let sb := sb.[Superblock.blockCount := g_blockCount g] in
  let sb := sb.[Superblock.blocksPerGroup := g_blocksPerGroup g] in
  let sb := sb.[Superblock.groupCount := g_groupCount g] in
  let sb := sb.[Superblock.blocksPerGroupBlockBitmap := g_blocksPerGroupBlockBitmap g] in
  let sb := sb.[Superblock.directoryEntriesPerBlock := g_directoryEntriesPerBlock g] in
  let sb := sb.[Superblock.blocksUsed := g_end g] in
  sb.[Superblock.gdtFirstBlock := g_blockGDT g].

(** Store the block and offset of a reference at offset [off]. *)
Definition set_reference (sb : bytes) (off : nat) (r : reference) : bytes :=
  let sb := sb.[shift_field off DirectoryEntryReference.block := ref_block r] in
  sb.[shift_field off DirectoryEntryReference.offsetIntoBlock := ref_offsetIntoBlock r].

(** The root directory's entry. *)
Definition root_entry (uid : bytes) : bytes :=
  let entry := replicate DirectoryEntry.sizeof 0 in
  let entry := blit (f_off DirectoryEntry.signature) ESFS_DIRECTORY_ENTRY_SIGNATURE entry in
  let entry := blit (f_off DirectoryEntry.identifier) uid entry in
  let entry := entry.[DirectoryEntry.attributeOffset := ESFS_ATTRIBUTE_OFFSET] in
  let entry := entry.[DirectoryEntry.nodeType := ESFS_NODE_TYPE_DIRECTORY] in
  let entry := entry.[DirectoryEntry.attributeCount := 2] in
  let directory := ESFS_ATTRIBUTE_OFFSET in
  let entry := entry.[attr directory AttributeDirectory.type := ESFS_ATTRIBUTE_DIRECTORY] in
  let entry := entry.[attr directory AttributeDirectory.size := Z.of_nat AttributeDirectory.sizeof] in
  let data := directory + entry.[attr directory AttributeDirectory.size] in
  let entry := entry.[attr data AttributeData.type := ESFS_ATTRIBUTE_DATA] in
  let entry := entry.[attr data AttributeData.size :=
    DirectoryEntry_size - ESFS_ATTRIBUTE_OFFSET - entry.[attr directory AttributeDirectory.size]] in
  let entry := entry.[attr data AttributeData.indirection := ESFS_INDIRECTION_L1] in
  let entry := entry.[attr data AttributeData.dataOffset := ESFS_ATTRIBUTE_OFFSET] in
  entry.[DirectoryEntry.checksum := CalculateCRC32 entry 0].

(** [for (i = start; i < start + count; i++) bitmap[i / 8] |= 1 << (i % 8)] on a
    cleared bitmap of [n] bytes. *)
Definition cleared_bitmap (n start count : Z) : option bytes :=
  if start + count <=? 8 * n then Some (bit_set_range (replicate (Z.to_nat n) 0) start count) else None.

Section Volume.
Context {D : Type} {dev : BlockDevice D}.
Context (rand : nat -> Z).
(** [LoadFile]: the contents of a file of the host, if it can be read. *)
Context (LoadFile : bytes -> option bytes).

Definition MountVolume : M (esfs D) unit :=
  modify (set_blockSize ESFS_BOOT_SUPER_BLOCK_SIZE) ;;;
  let! sb := ReadBlock 1 1 in
  modify (set_superblock sb) ;;;
  if negb (sb.[Superblock.mounted] =? 0) then stop FatalError
  else
    let sb := sb.[Superblock.mounted := 1] in
    modify (set_superblock sb) ;;;
    WriteBlock 1 1 sb ;;;
    modify (set_blockSize sb.[Superblock.blockSize]) ;;;
    if sb.[Superblock.blockSize] =? 0 then stop FatalError (* division by zero *)
    else
      let! gdt := ReadBlock sb.[Superblock.gdtFirstBlock] (gdt_blocks sb) in
      modify (set_gdt gdt).

Definition UnmountVolume : M (esfs D) unit :=
  let! s := get in
  let sb := superblock s in
  if sb.[Superblock.blockSize] =? 0 then stop FatalError (* division by zero *)
  else
    ignore_result (WriteBlock sb.[Superblock.gdtFirstBlock] (gdt_blocks sb) (groupDescriptorTable s)) ;;;
    modify (set_blockSize ESFS_BOOT_SUPER_BLOCK_SIZE) ;;;
    let sb := with_checksum Superblock.checksum sb.[Superblock.mounted := 0] in
    modify (set_superblock sb) ;;;
    ignore_result (WriteBlock 1 1 sb) ;;;
    modify (set_gdt []).

(** The loop of [FindNode] over the [n] entries from [i] on. *)
Fixpoint find_node (n : nat) (directory name : bytes) (i : Z) : M (esfs D) bytes :=
  match n with
  | O => ret_false
  | S n' =>
      let! (_, node, _) := AccessNode directory [] (u64 (DirectoryEntry_size * i)) DirectoryEntry_size false true in
      let! found := filename_is node name in
      if found then ret node else find_node n' directory name (i + 1)
  end.

Definition FindNode (name : bytes) (directoryReference : reference) : M (esfs D) bytes :=
  let! directory := ReadDirectoryEntryReference directoryReference in
  let! a := FindAttribute directory ESFS_ATTRIBUTE_DIRECTORY in
  find_node (Z.to_nat directory.[attr a AttributeDirectory.childNodes]) directory name 0.

(** ** Import *)

(** One file: the entry, its data, and the entry again with its final attributes. *)
Definition import_file (name data contentType : bytes) (parentDirectory : reference) : M (esfs D) unit :=
  let fileLength := Z.of_nat (length data) in
  modify (fun s => set_copiedCount (u64 (copiedCount s + fileLength)) s) ;;;
  let! (entry, r) := AddNode rand name ESFS_NODE_TYPE_FILE parentDirectory contentType in
  let! entry := ResizeNode entry fileLength in
  let! (entry, _, _) := AccessNode entry data 0 fileLength false false in
  WriteDirectoryEntryReference r entry ;;;
  ret tt.

(** The size of the imported data, or -1 after a failed call. *)
Fixpoint Import (node : ImportNode) (parentDirectory : reference) : M (esfs D) Z :=
  let 'MkImportNode _ _ children _ _ := node in
  (fix loop (children : list ImportNode) (totalSize : Z) : M (esfs D) Z :=
     match children with
     | [] => ret (s64 totalSize)
     | MkImportNode name path _ isFile contentType as child :: rest =>
         if isFile then
           match LoadFile path with
           | None => loop rest totalSize
           | Some data =>
               let! r := try_result (import_file name data contentType parentDirectory) in
               match r with
               | None => ret (-1)
               | Some _ => loop rest (u64 (totalSize + Z.of_nat (length data)))
               end
           end
         else
           let! added := try_result (AddNode rand name ESFS_NODE_TYPE_DIRECTORY parentDirectory contentType) in
           match added with
           | None => ret (-1)
           | Some (_, r) =>
               let! size := Import child r in
               if size =? -1 then ret (-1)
               else
                 let! done := try_result (
                   let! directory := ReadDirectoryEntryReference r in
                   let! a := FindAttribute directory ESFS_ATTRIBUTE_DIRECTORY in
                   WriteDirectoryEntryReference r directory.[attr a AttributeDirectory.totalSize := size]) in
                 match done with
                 | None => ret (-1)
                 | Some _ => loop rest (u64 (totalSize + size))
                 end
           end
     end) children 0.

(** ** Format *)

(** The descriptor of group [i], with the bitmaps that are written for it. *)
Definition format_group (g : geometry) (i : Z) : M (esfs D) bytes :=
  let n := g_blocksPerGroupBlockBitmap g * g_blockSize g in
  let d := blit (f_off GroupDescriptor.signature) ESFS_GROUP_DESCRIPTOR_SIGNATURE
             (replicate GroupDescriptor.sizeof 0) in
  let d := d.[GroupDescriptor.largestExtent :=
                u64 (g_blocksPerGroup g - g_blocksPerGroupBlockBitmap g)] in
  let! d :=
    if i =? 0 then
      let! bitmap := lift_opt OutOfBounds (cleared_bitmap n 0 (g_end g)) in
      let d := d.[GroupDescriptor.blocksUsed := g_end g] in
      let d := d.[GroupDescriptor.blockBitmap := g_blockGroup0Bitmap g] in
      let d := d.[GroupDescriptor.bitmapChecksum := CalculateCRC32 bitmap 0] in
      let d := d.[GroupDescriptor.largestExtent := u64 (g_blocksPerGroup g - g_end g)] in
      WriteBytes (u64 (g_blockGroup0Bitmap g * g_blockSize g)) n bitmap ;;;
      ret d
    else if i =? u64 (g_groupCount g - 1) then
      let overflow := u64 (g_blocksPerGroup g * g_groupCount g - g_blockCount g) in
      assert (overflow <? g_blocksPerGroup g) ;;;
      let! bitmap := lift_opt OutOfBounds (cleared_bitmap n (g_blocksPerGroup g - overflow) overflow) in
      let d := d.[GroupDescriptor.blocksUsed := overflow] in
      let d := d.[GroupDescriptor.blockBitmap := g_blockGroupLastBitmap g] in
      let d := d.[GroupDescriptor.bitmapChecksum := CalculateCRC32 bitmap 0] in
      let d := d.[GroupDescriptor.largestExtent := u64 (g_blocksPerGroup g - overflow)] in
      WriteBytes (u64 (g_blockGroupLastBitmap g * g_blockSize g)) n bitmap ;;;
      ret d
    else ret d in
  ret d.[GroupDescriptor.checksum := CalculateCRC32 d 0].

(** The descriptors of the given groups, one after another. *)
Fixpoint format_groups (g : geometry) (groups : list Z) : M (esfs D) bytes :=
  match groups with
  | [] => ret []
  | i :: rest =>
      let! d := format_group g i in
      let! ds := format_groups g rest in
      ret (d ++ ds)
  end.

(** The structures of the empty volume. *)
Definition format_structures (driveSize : Z) (volumeName osInstallation : bytes) : M (esfs D) unit :=
  let g := format_geometry driveSize in
  modify (fun s => set_superblock (format_superblock (superblock s) volumeName g) s) ;;;
  let! id := GenerateUniqueIdentifier rand true in
  modify (fun s => set_superblock
    (blit (f_off Superblock.osInstallation) osInstallation
       (blit (f_off Superblock.identifier) id (superblock s))) s) ;;;
  modify (fun s => set_superblock
    (set_reference (set_reference (superblock s) (f_off Superblock.root)
                      (core_node_reference g ESFS_CORE_NODE_ROOT))
       (f_off Superblock.kernel) (core_node_reference g ESFS_CORE_NODE_KERNEL)) s) ;;;
  let! uid := GenerateUniqueIdentifier rand false in
  let coreNodes := replicate DirectoryEntry.sizeof 0 ++ root_entry uid in
  WriteBytes (u64 (g_blockCoreNodes g * g_blockSize g)) (2 * DirectoryEntry_size) coreNodes ;;;
  modify (fun s => set_superblock
    (superblock s).[Superblock.checksum := CalculateCRC32 (superblock s) 0] s) ;;;
  let! s := get in
  WriteBytes ESFS_BOOT_SUPER_BLOCK_SIZE ESFS_BOOT_SUPER_BLOCK_SIZE (superblock s) ;;;
  let! buffer := format_groups g (seqZ 0 (g_groupCount g)) in
  WriteBytes (u64 (g_blockGDT g * g_blockSize g))
    (u64 (g_groupCount g * Z.of_nat GroupDescriptor.sizeof)) buffer.

(** Store the kernel in its core node. *)
Definition add_kernel (kernel : bytes) : M (esfs D) unit :=
  let! s := get in
  let r := sb_reference (superblock s) (f_off Superblock.kernel) in
  let! entry := NewDirectoryEntry rand (replicate DirectoryEntry.sizeof 0) ESFS_NODE_TYPE_FILE
                  (replicate 16 0) kernel_name elf_content_type in
  let! entry := WriteDirectoryEntryReference r entry in
  let! entry := ResizeNode entry (Z.of_nat (length kernel)) in
  let! (entry, _, _) := AccessNode entry kernel 0 (Z.of_nat (length kernel)) false false in
  ignore_result (WriteDirectoryEntryReference r entry).

Definition Format (driveSize : Z) (volumeName osInstallation kernel : bytes) : M (esfs D) unit :=
  if driveSize <? ESFS_DRIVE_MINIMUM_SIZE then stop FatalError
  else if ESFS_MAXIMUM_VOLUME_NAME_LENGTH <? Z.of_nat (length volumeName) then stop FatalError
  else
    format_structures driveSize volumeName osInstallation ;;;
    MountVolume ;;;
    add_kernel kernel ;;;
    UnmountVolume.
End Volume.

(** ** Mounting *)

Section Mounting.
Context {D : Type} {dev : BlockDevice D}.

#[local] Opaque dev_bytes.

(** The superblock on the drive. *)
Definition stored_superblock (d : D) : bytes := dev_bytes d 8192 8192.

(** A mounted volume whose tables lie behind the superblock and inside the drive. *)
Record mounted_ok (s : esfs D) : Prop := {
  mo_length : length (superblock s) = Superblock.sizeof;
  mo_bytes : bytes_ok (superblock s);
  mo_blockSize : blockSize s = (superblock s).[Superblock.blockSize];
  mo_bs : 0 < blockSize s;
  mo_gdt : Z.of_nat (length (groupDescriptorTable s)) = blockSize s * gdt_blocks (superblock s);
  mo_first : 16384 <= (superblock s).[Superblock.gdtFirstBlock] * blockSize s /\
    0 <= (superblock s).[Superblock.gdtFirstBlock] < 4294967296;
  mo_end : ((superblock s).[Superblock.gdtFirstBlock] + gdt_blocks (superblock s)) * blockSize s
           <= dev_size (drive s) < 2 ^ 64;
  mo_boot : 16384 <= dev_size (drive s) }.

Lemma sb_in f : (Z.of_nat (f_off f + f_size f) <=? 8192) = true -> field_in f Superblock.sizeof.
Proof. intros H. apply Z.leb_le in H. unfold field_in. apply Nat2Z.inj_le. exact H. Qed.

(** The superblock as [UnmountVolume] stores it. *)
Definition unmounted (sb : bytes) : bytes :=
  with_checksum Superblock.checksum sb.[Superblock.mounted := 0].

Lemma unmounted_same sb f :
  length sb = Superblock.sizeof -> field_disjoint f Superblock.mounted -> field_disjoint f Superblock.checksum ->
  (unmounted sb).[f] = sb.[f].
Proof.
  intros Hl H1 H2. unfold unmounted, with_checksum.
  assert (field_in Superblock.checksum (length sb) /\ field_in Superblock.mounted (length sb)) as [Hc Hm].
  { rewrite Hl. split; by apply sb_in. }
  rewrite !getf_setf_other by (done || (repeat apply field_in_setf; done)). done.
Qed.

Lemma unmounted_mounted sb :
  length sb = Superblock.sizeof ->
  (unmounted sb).[Superblock.mounted] = 0 /\ length (unmounted sb) = Superblock.sizeof.
Proof.
  intros Hl. unfold unmounted, with_checksum.
  assert (field_in Superblock.checksum (length sb) /\ field_in Superblock.mounted (length sb)) as [Hc Hm].
  { rewrite Hl. split; by apply sb_in. }
  assert (field_disjoint Superblock.mounted Superblock.checksum) as Hd by (unfold field_disjoint; cbn; lia).
  split.
  - rewrite !getf_setf_other by (done || (repeat apply field_in_setf; done)). by rewrite getf_setf_same.
  - rewrite !length_setf; (done || (repeat apply field_in_setf; done)).
Qed.

Lemma gdt_blocks_same sb sb' :
  sb'.[Superblock.blockSize] = sb.[Superblock.blockSize] ->
  sb'.[Superblock.groupCount] = sb.[Superblock.groupCount] -> gdt_blocks sb' = gdt_blocks sb.
Proof. intros H1 H2. unfold gdt_blocks. by rewrite H1, H2. Qed.

Lemma gdt_blocks_pos sb : 0 < sb.[Superblock.blockSize] -> 0 <= gdt_blocks sb.
Proof. intros H. apply Z.div_pos; [|done]. apply u64_range. Qed.

(** The effect of [UnmountVolume]: table and superblock are on the drive. *)
Lemma UnmountVolume_run s :
  mounted_ok s ->
  exists d, UnmountVolume s
      = (Ok tt, Esfs 8192 (unmounted (superblock s)) [] (copiedCount s) (rand_calls s) d) /\
    dev_size d = dev_size (drive s) /\
    stored_superblock d = unmounted (superblock s) /\
    dev_bytes d ((superblock s).[Superblock.gdtFirstBlock] * blockSize s)
      (blockSize s * gdt_blocks (superblock s)) = groupDescriptorTable s.
Proof.
  intros []. pose proof (gdt_blocks_pos (superblock s) ltac:(lia)) as Hgp.
  unfold UnmountVolume, bind at 1, get at 1. change ESFS_BOOT_SUPER_BLOCK_SIZE with 8192.
  replace ((superblock s).[Superblock.blockSize] =? 0) with false by lia.
  set (sb := superblock s) in *. set (first := sb.[Superblock.gdtFirstBlock]) in *.
  destruct (WriteBlock_ok first (gdt_blocks sb) (groupDescriptorTable s) s) as (d1 & Hw1 & Hsz1 & Hb1); [lia..|].
  unfold bind at 1, ignore_result at 1. rewrite Hw1. unfold bind at 1, modify at 1. unfold bind at 1, modify at 1.
  fold (unmounted sb). destruct (unmounted_mounted sb mo_length0) as [_ Hul].
  set (s2 := set_superblock (unmounted sb) _).
  destruct (WriteBlock_ok 1 1 (unmounted sb) s2) as (d2 & Hw2 & Hsz2 & Hb2); unfold s2; cbn [blockSize drive
    set_blockSize set_superblock set_drive]; [lia..|rewrite Hul; done|lia|].
  unfold bind at 1, ignore_result at 1. fold s2. rewrite Hw2. exists d2. split; [done|].
  unfold s2 in Hsz2, Hb2. cbn [blockSize drive set_blockSize set_superblock set_drive] in Hsz2, Hb2.
  split; [congruence|]. split.
  - unfold stored_superblock. apply (dev_bytes_written d2 8192 8192); [by rewrite Hul|].
    intros a Ha. rewrite Hb2, decide_True by lia. done.
  - apply dev_bytes_written; [lia|]. intros a Ha. rewrite Hb2, decide_False by lia.
    rewrite Hb1, decide_True by lia. done.
Qed.

Lemma ReadBlock_superblock (s : esfs D) :
  16384 <= dev_size (drive s) < 2 ^ 64 ->
  ReadBlock 1 1 (set_blockSize 8192 s) = (Ok (stored_superblock (drive s)), set_blockSize 8192 s).
Proof.
  intros H. rewrite ReadBlock_ok; cbn [blockSize drive set_blockSize]; [|lia..].
  rewrite Z.mul_1_l, Z.mul_1_r. unfold stored_superblock. reflexivity.
Qed.

(** The effect of [MountVolume] on a volume that is not mounted: the flag is set
    on the drive, superblock and descriptors are read in. *)
Lemma MountVolume_run s :
  let sb := stored_superblock (drive s) in
  let sb' := sb.[Superblock.mounted := 1] in
  16384 <= dev_size (drive s) < 2 ^ 64 -> sb.[Superblock.mounted] = 0 ->
  0 < sb.[Superblock.blockSize] -> 16384 <= sb.[Superblock.gdtFirstBlock] * sb.[Superblock.blockSize] ->
  0 <= sb.[Superblock.gdtFirstBlock] ->
  (sb.[Superblock.gdtFirstBlock] + gdt_blocks sb) * sb.[Superblock.blockSize] <= dev_size (drive s) ->
  exists d, MountVolume s
      = (Ok tt, Esfs sb.[Superblock.blockSize] sb'
                  (dev_bytes (drive s) (sb.[Superblock.gdtFirstBlock] * sb.[Superblock.blockSize])
                     (sb.[Superblock.blockSize] * gdt_blocks sb)) (copiedCount s) (rand_calls s) d) /\
    dev_size d = dev_size (drive s) /\ stored_superblock d = sb' /\
    forall a, ~ (8192 <= a < 16384) -> dev_byte d a = dev_byte (drive s) a.
Proof.
  intros sb sb' Hsize Hm Hbs Hfirst Hf0 Hend.
  assert (length sb = Superblock.sizeof) as Hl by (unfold sb; apply length_dev_bytes).
  assert (length sb' = Superblock.sizeof) as Hl'.
  { rewrite <- Hl. apply length_setf. rewrite Hl. by apply sb_in. }
  assert (forall f, field_disjoint f Superblock.mounted -> sb'.[f] = sb.[f]) as Hsame.
  { intros f Hf. apply getf_setf_other; [|done]. rewrite Hl. by apply sb_in. }
  pose proof (gdt_blocks_pos sb Hbs) as Hgp.
  unfold MountVolume, bind at 1, modify at 1. change ESFS_BOOT_SUPER_BLOCK_SIZE with 8192.
  rewrite (bind_ok _ _ _ _ _ (ReadBlock_superblock s Hsize)). set (s1 := set_blockSize 8192 s).
  unfold bind at 1, modify at 1. fold sb. rewrite Hm. cbn [Z.eqb negb].
  unfold bind at 1, modify at 1. fold sb'. set (s2 := set_superblock sb' _).
  destruct (WriteBlock_ok 1 1 sb' s2) as (d & Hw & Hsz & Hb); unfold s2, s1;
    cbn [blockSize drive set_blockSize set_superblock]; [lia..|by rewrite Hl'|lia|].
  rewrite (bind_ok _ _ _ _ _ Hw). unfold bind at 1, modify at 1.
  assert (sb'.[Superblock.blockSize] = sb.[Superblock.blockSize] /\
          sb'.[Superblock.gdtFirstBlock] = sb.[Superblock.gdtFirstBlock] /\ gdt_blocks sb' = gdt_blocks sb)
    as (-> & -> & ->).
  { split_and!; [..|apply gdt_blocks_same]; apply Hsame; unfold field_disjoint; cbn; lia. }
  replace (sb.[Superblock.blockSize] =? 0) with false by lia.
  unfold s2, s1 in Hsz, Hb. cbn [blockSize drive set_blockSize set_superblock] in Hsz, Hb.
  erewrite bind_ok; [|apply ReadBlock_ok; cbn [blockSize drive set_blockSize set_drive]; lia].
  assert (forall a, ~ (8192 <= a < 16384) -> dev_byte d a = dev_byte (drive s) a) as Hout.
  { intros a Ha. rewrite Hb, decide_False by lia. done. }
  exists d. unfold modify. cbn [blockSize drive set_blockSize set_drive s2 s1 set_superblock copiedCount rand_calls set_gdt].
  split_and!; [|done| |done].
  - rewrite (dev_bytes_ext (drive s)); [done|]. intros a Ha. apply Hout. nia.
  - apply (dev_bytes_written d 8192 8192); [by rewrite Hl'|]. intros a Ha. rewrite Hb, decide_True by lia. done.
Qed.

(** C30.  What is unmounted is mounted again: [UnmountVolume] stores descriptors and
    superblock such that a following [MountVolume] succeeds and brings back the same
    descriptors and, apart from the checksum (which it leaves behind matching) and
    the mounted flag, the same superblock. *)
Theorem unmount_mount s :
  mounted_ok s ->
  exists s1 s2, UnmountVolume s = (Ok tt, s1) /\ MountVolume s1 = (Ok tt, s2) /\
    checksum_ok Superblock.checksum (stored_superblock (drive s1)) /\
    groupDescriptorTable s2 = groupDescriptorTable s /\ blockSize s2 = blockSize s /\
    (superblock s2).[Superblock.mounted] = 1 /\
    forall f, field_disjoint f Superblock.mounted -> field_disjoint f Superblock.checksum ->
      (superblock s2).[f] = (superblock s).[f].
Proof.
  intros Hs. destruct (UnmountVolume_run s Hs) as (d1 & Hrun1 & Hsz1 & Hsb1 & Hgdt1). destruct Hs.
  destruct (unmounted_mounted (superblock s) mo_length0) as [Hm Hul].
  assert (forall f, field_disjoint f Superblock.mounted -> field_disjoint f Superblock.checksum ->
    (unmounted (superblock s)).[f] = (superblock s).[f]) as Hsame by (intros; by apply unmounted_same).
  set (s1 := Esfs _ _ _ _ _ d1) in Hrun1.
  assert ((unmounted (superblock s)).[Superblock.blockSize] = (superblock s).[Superblock.blockSize] /\
    (unmounted (superblock s)).[Superblock.gdtFirstBlock] = (superblock s).[Superblock.gdtFirstBlock] /\
    gdt_blocks (unmounted (superblock s)) = gdt_blocks (superblock s)) as (Hbs & Hfirst & Hgb).
  { split_and!; [..|apply gdt_blocks_same]; apply Hsame; unfold field_disjoint; cbn; lia. }
  destruct (MountVolume_run s1) as (d2 & Hrun2 & Hsz2 & Hsb2 & _);
    unfold s1; cbn [drive]; rewrite ?Hsb1, ?Hbs, ?Hfirst, ?Hgb, ?Hsz1; (assumption || lia || idtac).
  unfold s1 in Hrun2. cbn [drive copiedCount rand_calls] in Hrun2.
  rewrite Hsb1, Hbs, Hfirst, Hgb in Hrun2.
  eexists s1, _. split; [done|]. split; [exact Hrun2|].
  cbn [groupDescriptorTable blockSize superblock drive s1]. rewrite Hsb1.
  split_and!.
  - apply with_checksum_ok; [|done]. apply field_in_setf. rewrite mo_length0. by apply sb_in.
  - rewrite <- mo_blockSize0. done.
  - done.
  - rewrite getf_setf_same; [done|]. rewrite Hul. by apply sb_in.
  - intros f H1 H2. rewrite getf_setf_other; [by apply Hsame| |done]. rewrite Hul. by apply sb_in.
Qed.

Lemma MountVolume_refused s :
  16384 <= dev_size (drive s) < 2 ^ 64 ->
  (stored_superblock (drive s)).[Superblock.mounted] <> 0 ->
  exists s', MountVolume s = (Stop FatalError, s') /\ drive s' = drive s.
Proof.
  intros Hsize Hm. unfold MountVolume, bind at 1, modify at 1. change ESFS_BOOT_SUPER_BLOCK_SIZE with 8192.
  rewrite (bind_ok _ _ _ _ _ (ReadBlock_superblock s Hsize)). unfold bind at 1, modify at 1.
  rewrite (proj2 (Z.eqb_neq _ _) Hm). cbn [negb]. by eexists.
Qed.

(**  A volume that is mounted is protected: after a successful [MountVolume],
    which sets the flag on the drive, a second one stops with [EsFSError] before it
    writes anything. *)
Theorem MountVolume_twice s :
  let sb := stored_superblock (drive s) in
  16384 <= dev_size (drive s) < 2 ^ 64 -> sb.[Superblock.mounted] = 0 ->
  0 < sb.[Superblock.blockSize] -> 16384 <= sb.[Superblock.gdtFirstBlock] * sb.[Superblock.blockSize] ->
  0 <= sb.[Superblock.gdtFirstBlock] ->
  (sb.[Superblock.gdtFirstBlock] + gdt_blocks sb) * sb.[Superblock.blockSize] <= dev_size (drive s) ->
  exists s1 s2, MountVolume s = (Ok tt, s1) /\ MountVolume s1 = (Stop FatalError, s2) /\ drive s2 = drive s1.
Proof.
  intros sb Hsize Hm Hbs Hfirst Hf0 Hend.
  destruct (MountVolume_run s Hsize Hm Hbs Hfirst Hf0 Hend) as (d & Hrun & Hsz & Hsb & _).
  eexists. set (s1 := Esfs _ _ _ _ _ d) in Hrun.
  destruct (MountVolume_refused s1) as (s2 & H1 & H2); unfold s1; cbn [drive]; [lia| |].
  - rewrite Hsb, getf_setf_same; [done|]. unfold stored_superblock. rewrite length_dev_bytes. by apply sb_in.
  - exists s2. split; [exact Hrun|]. split; [exact H1|exact H2].
Qed.
End Mounting.

(** ** Geometry *)

Lemma format_blockSize_cases driveSize :
  2 ^ 20 <= driveSize < 2 ^ 51 ->
  let bs := format_blockSize driveSize in
  (bs = 2048 /\ driveSize < 2 ^ 31) \/ (bs = 4096 /\ 2 ^ 31 <= driveSize < 2 ^ 41)
  \/ (bs = 8192 /\ 2 ^ 41 <= driveSize < 2 ^ 48) \/ (bs = 16384 /\ 2 ^ 48 <= driveSize).
Proof.
  intros H. unfold format_blockSize.
  destruct (Z.ltb_spec driveSize (2048 * 1024 * 1024)); [lia|].
  destruct (Z.ltb_spec driveSize (2 * 1024 * 1024 * 1024 * 1024)); [lia|].
  destruct (Z.ltb_spec driveSize (256 * 1024 * 1024 * 1024 * 1024)); lia.
Qed.

Lemma div_bounds a b q : 0 < b -> q = a / b -> b * q <= a < b * q + b.
Proof. intros Hb ->. pose proof (Z.div_mod a b ltac:(lia)). pose proof (Z.mod_pos_bound a b Hb). lia. Qed.

(** The number of blocks per group and of groups. *)
Lemma format_groups_spec driveSize :
  2 ^ 20 <= driveSize < 2 ^ 51 ->
  let g := format_geometry driveSize in
  (g_blockCount g < 32768 /\ 256 <= g_blocksPerGroup g < 16384 /\
   2 * g_blocksPerGroup g <= g_blockCount g <= 2 * g_blocksPerGroup g + 1 /\
   g_groupCount g = 2 + (g_blockCount g - 2 * g_blocksPerGroup g) /\ g_blockSize g = 2048)
  \/ (32768 <= g_blockCount g /\ g_blocksPerGroup g = 32768 /\
      32768 * (g_groupCount g - 1) < g_blockCount g <= 32768 * g_groupCount g).
Proof.
  intros Hd. unfold format_geometry. cbn [g_blockCount g_blocksPerGroup g_groupCount g_blockSize].
  pose proof (format_blockSize_cases driveSize Hd) as Hbs. cbv zeta in Hbs.
  set (bs := format_blockSize driveSize) in *. clearbody bs.
  assert (0 < bs) as Hb0 by lia.
  pose proof (div_bounds driveSize bs (driveSize / bs) Hb0 eq_refl) as Hbc.
  set (bc := driveSize / bs) in *. clearbody bc.
  assert (512 <= bc /\ bc < 2 ^ 40) as [Hbc1 Hbc2] by nia.
  destruct (Z.ltb_spec bc 32768) as [Hsmall|Hbig].
  - left. assert (bs = 2048) as -> by nia.
    pose proof (div_bounds bc 2 (bc / 2) ltac:(lia) eq_refl) as Hbpg.
    assert (u32 (bc / 2) = bc / 2) as -> by (apply wrap_id; unfold is_uint; lia).
    set (bpg := bc / 2) in *. clearbody bpg. rewrite u64_id by (unfold is_uint; lia).
    split_and!; try lia. symmetry. destruct (decide (bc = 2 * bpg)).
    + apply (Z.div_unique_pos _ _ _ (bpg - 1)); lia.
    + replace bc with (2 * bpg + 1) by lia. apply (Z.div_unique_pos _ _ _ 0); lia.
  - right. rewrite u64_id by (unfold is_uint; lia).
    pose proof (div_bounds (bc + 32768 - 1) 32768 _ ltac:(lia) eq_refl). lia.
Qed.

(** What every layout from 1 MiB to 2 PiB satisfies. *)
Record geometry_sound (driveSize : Z) (g : geometry) : Prop := {
  gs_blockCount : g_blockCount g * g_blockSize g <= driveSize < (g_blockCount g + 1) * g_blockSize g;
  gs_groups : 1 <= g_groupCount g;
  gs_cover : g_blocksPerGroup g * (g_groupCount g - 1) < g_blockCount g <= g_blocksPerGroup g * g_groupCount g;
  gs_bitmap : 0 < g_blocksPerGroupBlockBitmap g /\
    g_blocksPerGroup g <= 8 * (g_blocksPerGroupBlockBitmap g * g_blockSize g);
  gs_entries : g_directoryEntriesPerBlock g * DirectoryEntry_size = g_blockSize g /\
    2 <= g_directoryEntriesPerBlock g;
  gs_boot : 2 * ESFS_BOOT_SUPER_BLOCK_SIZE <= g_blockGDT g * g_blockSize g;
  gs_gdt : g_groupCount g * Z.of_nat GroupDescriptor.sizeof
           <= (g_blockGroup0Bitmap g - g_blockGDT g) * g_blockSize g;
  gs_end : g_end g < g_blocksPerGroup g }.

(** The descriptor table stays small enough for group 0 to hold everything. *)
Lemma format_gdt_bound driveSize :
  2 ^ 20 <= driveSize < 2 ^ 51 ->
  let g := format_geometry driveSize in
  let gdt := g_blockGroup0Bitmap g - g_blockGDT g in
  g_groupCount g * 56 <= gdt * g_blockSize g /\ 1 <= gdt <= 14336 /\
  (g_blockCount g < 32768 -> gdt = 1).
Proof.
  intros Hd. pose proof (format_groups_spec driveSize Hd) as Hg. cbv zeta in *.
  pose proof (format_blockSize_cases driveSize Hd) as Hbs. cbv zeta in Hbs.
  set (g := format_geometry driveSize) in *.
  assert (g_blockGroup0Bitmap g - g_blockGDT g
          = u64 (g_groupCount g * 56 + g_blockSize g - 1) / g_blockSize g) as ->.
  { unfold g, format_geometry. cbn [g_blockGroup0Bitmap g_blockGDT g_groupCount g_blockSize].
    change (Z.of_nat GroupDescriptor.sizeof) with 56. lia. }
  assert (g_blockSize g = format_blockSize driveSize) as Hbs' by done. rewrite Hbs'.
  assert (g_blockCount g = driveSize / format_blockSize driveSize) as Hbc by done.
  set (bs := format_blockSize driveSize) in *. clearbody bs.
  pose proof (div_bounds driveSize bs _ ltac:(lia) Hbc) as Hb. clear Hbc. clearbody g.
  set (gc := g_groupCount g) in *. clearbody gc.
  assert (gc * 56 <= 14336 * bs) as Hle
    by (destruct Hg as [Hg|Hg]; destruct Hbs as [[-> ?]|[[-> ?]|[[-> ?]|[-> ?]]]]; lia).
  assert (1 <= gc) as Hgc by lia.
  rewrite u64_id by (unfold is_uint; lia).
  pose proof (div_bounds (gc * 56 + bs - 1) bs _ ltac:(lia) eq_refl) as Hdiv.
  set (q := (gc * 56 + bs - 1) / bs) in *. clearbody q.
  split_and!; [nia|nia|nia|]. intros Hsmall. destruct Hg as [Hg|Hg]; [|lia].
  assert (bs = 2048) as -> by lia. lia.
Qed.

Lemma format_bitmap_bound driveSize :
  2 ^ 20 <= driveSize < 2 ^ 51 ->
  let g := format_geometry driveSize in
  1 <= g_blocksPerGroupBlockBitmap g <= 2 /\
  g_blocksPerGroup g <= 8 * (g_blocksPerGroupBlockBitmap g * g_blockSize g) /\
  (g_blockCount g < 32768 -> g_blocksPerGroupBlockBitmap g = 1) /\
  (32768 <= g_blockCount g -> g_blockSize g = 2048 -> g_blocksPerGroupBlockBitmap g = 2).
Proof.
  intros Hd. pose proof (format_groups_spec driveSize Hd) as Hg. cbv zeta in *.
  pose proof (format_blockSize_cases driveSize Hd) as Hbs. cbv zeta in Hbs.
  set (g := format_geometry driveSize) in *.
  assert (g_blocksPerGroupBlockBitmap g
          = (u32 (g_blocksPerGroup g + 7) / 8 + g_blockSize g - 1) / g_blockSize g) as -> by done.
  assert (g_blockSize g = format_blockSize driveSize) as Hbs' by done. rewrite Hbs' in *.
  set (bs := format_blockSize driveSize) in *. clearbody bs g.
  set (bpg := g_blocksPerGroup g) in *. clearbody bpg. set (bc := g_blockCount g) in *. clearbody bc.
  assert (256 <= bpg <= 32768) as Hb by lia.
  assert (u32 (bpg + 7) = bpg + 7) as -> by (apply wrap_id; unfold is_uint; lia).
  pose proof (div_bounds (bpg + 7) 8 _ ltac:(lia) eq_refl) as H8. set (b8 := (bpg + 7) / 8) in *. clearbody b8.
  pose proof (div_bounds (b8 + bs - 1) bs _ ltac:(lia) eq_refl) as Hq.
  set (q := (b8 + bs - 1) / bs) in *. clearbody q.
  split_and!; [nia|nia|nia|intros ?; nia|intros ? ->; lia].
Qed.

(** C34.  The layout [Format] computes for a drive of 1 MiB to 2 PiB is sound: the
    groups cover the blocks and the last one is not empty (so its assertion
    holds), a group's bitmap has a bit for every block, the descriptor table fits
    the blocks set aside for it behind the superblock, and everything written at
    the start of the volume fits group 0. *)
Theorem format_geometry_sound driveSize :
  2 ^ 20 <= driveSize < 2 ^ 51 -> geometry_sound driveSize (format_geometry driveSize).
Proof.
  intros Hd. pose proof (format_groups_spec driveSize Hd) as Hg.
  pose proof (format_gdt_bound driveSize Hd) as (Hgdt1 & Hgdt2 & Hgdt3).
  pose proof (format_bitmap_bound driveSize Hd) as (Hbm1 & Hbm2 & Hbm3 & _). cbv zeta in *.
  pose proof (format_blockSize_cases driveSize Hd) as Hbs. cbv zeta in Hbs.
  set (g := format_geometry driveSize) in *.
  assert (g_blockSize g = format_blockSize driveSize) as Hbs' by done. rewrite Hbs' in *.
  assert (g_blockCount g = driveSize / format_blockSize driveSize) as Hbc by done.
  assert (g_directoryEntriesPerBlock g = format_blockSize driveSize / 1024) as Hde by done.
  assert (g_blockGDT g = 16384 / format_blockSize driveSize + 1) as Hbg by done.
  assert (g_blockGroupLastBitmap g = g_blockGroup0Bitmap g + (g_blockGroup0Bitmap g - g_blockGDT g)) as Hlast.
  { unfold g, format_geometry. cbn [g_blockGroupLastBitmap g_blockGroup0Bitmap g_blockGDT]. lia. }
  assert (g_end g = g_blockGroupLastBitmap g + g_blocksPerGroupBlockBitmap g
    + (2 + g_directoryEntriesPerBlock g - 1) / g_directoryEntriesPerBlock g) as Hend by done.
  set (bs := format_blockSize driveSize) in *. clearbody bs g.
  pose proof (div_bounds driveSize bs _ ltac:(lia) Hbc) as Hb.
  assert (g_directoryEntriesPerBlock g * 1024 = bs /\ 2 <= g_directoryEntriesPerBlock g /\
    g_blockGDT g * bs = 16384 + bs /\ g_blockGDT g <= 9 /\
    (2 + g_directoryEntriesPerBlock g - 1) / g_directoryEntriesPerBlock g = 1) as (H1 & H2 & H3 & H4 & H5).
  { rewrite Hde, Hbg. destruct Hbs as [[-> _]|[[-> _]|[[-> _]|[-> _]]]]; vm_compute; repeat split; discriminate. }
  split; change DirectoryEntry_size with 1024; change ESFS_BOOT_SUPER_BLOCK_SIZE with 8192;
    change (Z.of_nat GroupDescriptor.sizeof) with 56.
  - rewrite Hbs'. lia.
  - lia.
  - destruct Hg as [Hg|(_ & -> & ?)]; [|lia].
    assert (g_groupCount g = 2 \/ g_groupCount g = 3) as [He|He] by lia; rewrite He in *; lia.
  - rewrite Hbs'. lia.
  - rewrite Hbs'. lia.
  - rewrite Hbs'. lia.
  - rewrite Hbs'. lia.
  - rewrite H5 in Hend. lia.
Qed.

(**  On drives of more than 64 MiB and less than 2 GiB the two bitmaps [Format] writes overlap: the
    space left for the bitmap of group 0 is that of the descriptor table, one block,
    but a bitmap takes two, so the bitmap of the last group overwrites half of it. *)
Theorem format_bitmaps_overlap driveSize :
  2 ^ 26 + 2048 <= driveSize < 2 ^ 31 ->
  let g := format_geometry driveSize in
  2 <= g_groupCount g /\
  g_blockGroup0Bitmap g < g_blockGroupLastBitmap g
    < g_blockGroup0Bitmap g + g_blocksPerGroupBlockBitmap g.
Proof.
  intros Hd. assert (2 ^ 20 <= driveSize < 2 ^ 51) as Hd' by lia.
  pose proof (format_groups_spec driveSize Hd') as Hg.
  pose proof (format_bitmap_bound driveSize Hd') as (_ & _ & _ & Hbm).
  pose proof (format_blockSize_cases driveSize Hd') as Hbs. cbv zeta in *.
  set (g := format_geometry driveSize) in *.
  assert (g_blockSize g = 2048) as Hbs' by (change (g_blockSize g) with (format_blockSize driveSize); lia).
  assert (g_blockCount g = driveSize / g_blockSize g) as Hbc by done.
  assert (g_blockGroupLastBitmap g = g_blockGroup0Bitmap g +
    u64 (g_groupCount g * 56 + g_blockSize g - 1) / g_blockSize g) as Hlast by done.
  clearbody g. rewrite Hbs' in *. pose proof (div_bounds driveSize 2048 _ ltac:(lia) Hbc).
  assert (u64 (g_groupCount g * 56 + 2048 - 1) / 2048 = 1) as Hq.
  { rewrite u64_id by (unfold is_uint; lia). symmetry.
    apply (Z.div_unique_pos _ _ _ (g_groupCount g * 56 - 1)); lia. }
  rewrite Hq in Hlast. specialize (Hbm ltac:(lia) eq_refl). lia.
Qed.

(** ** Looking up a name *)

Section Lookup.
Context {D : Type} {dev : BlockDevice D}.

(** Entry [j] of a directory whose data is in the blocks [bl]. *)
Definition dir_entry (s : esfs D) (bl : list Z) (j : Z) : bytes :=
  content s bl <$> seqZ (1024 * j) 1024.

(** Whether entry [j] has the given name. *)
Definition entry_named (s : esfs D) (bl : list Z) (name : bytes) (j : Z) (b : bool) : Prop :=
  filename_is (dir_entry s bl j) name s = (Ok b, s).

Lemma find_node_spec s directory a bl name n i :
  file_ok s directory a bl -> 0 <= i -> (i + Z.of_nat n) * 1024 <= blockSize s * Z.of_nat (length bl) ->
  (i + Z.of_nat n) * 1024 < 2 ^ 64 ->
  (forall j, i <= j < i + Z.of_nat n -> exists b, entry_named s bl name j b) ->
  (exists k, i <= k < i + Z.of_nat n /\ entry_named s bl name k true /\
     (forall j, i <= j < k -> entry_named s bl name j false) /\
     find_node n directory name i s = (Ok (dir_entry s bl k), s))
  \/ ((forall j, i <= j < i + Z.of_nat n -> entry_named s bl name j false) /\
      find_node n directory name i s = (RetFalse, s)).
Proof.
  intros Hf. revert i. induction n as [|n IH]; intros i Hi Hle Hlt Hnames.
  { right. split; [intros; lia|done]. }
  cbn [find_node]. change DirectoryEntry_size with 1024. rewrite u64_id by (unfold is_uint; lia).
  rewrite (bind_ok _ _ _ _ _ (AccessNode_reads s directory a bl [] (1024 * i) 1024 false Hf ltac:(lia) ltac:(lia) ltac:(lia))).
  fold (dir_entry s bl i). destruct (Hnames i ltac:(lia)) as [b Hb].
  rewrite (bind_ok _ _ _ _ _ Hb). destruct b.
  { left. exists i. split_and!; [lia|lia|done|intros; lia|done]. }
  assert (forall j, i <= j < i + 1 -> entry_named s bl name j false) as Hi1.
  { intros j Hj. by replace j with i by lia. }
  destruct (IH (i + 1)) as [(k & Hk & Ht & Hlow & Hrun)|(Hall & Hrun)]; [lia|lia|lia| | |].
  - intros j Hj. apply Hnames. lia.
  - left. exists k. split_and!; [lia|lia|done| |done]. intros j Hj.
    destruct (decide (j = i)); [apply Hi1|apply Hlow]; lia.
  - right. split; [|done]. intros j Hj. destruct (decide (j = i)); [apply Hi1|apply Hall]; lia.
Qed.

(** C33.  [FindNode] is a complete search: in a directory with [n] readable entries
    it returns the first one that has the name, and returns false only when none
    has it; the volume is not changed. *)
Theorem FindNode_correct s r directory d a bl name n :
  ReadDirectoryEntryReference r s = (Ok directory, s) ->
  FindAttribute directory ESFS_ATTRIBUTE_DIRECTORY s = (Ok d, s) ->
  directory.[attr d AttributeDirectory.childNodes] = n -> 0 <= n ->
  file_ok s directory a bl -> n * 1024 <= blockSize s * Z.of_nat (length bl) -> n * 1024 < 2 ^ 64 ->
  (forall j, 0 <= j < n -> exists b, entry_named s bl name j b) ->
  (exists k, 0 <= k < n /\ entry_named s bl name k true /\
     (forall j, 0 <= j < k -> entry_named s bl name j false) /\
     FindNode name r s = (Ok (dir_entry s bl k), s))
  \/ ((forall j, 0 <= j < n -> entry_named s bl name j false) /\ FindNode name r s = (RetFalse, s)).
Proof.
  intros Hr Hd Hn Hn0 Hf Hle Hlt Hnames. unfold FindNode.
  rewrite (bind_ok _ _ _ _ _ Hr), (bind_ok _ _ _ _ _ Hd), Hn.
  pose proof (find_node_spec s directory a bl name (Z.to_nat n) 0 Hf) as H.
  rewrite Z2Nat.id, Z.add_0_l in H by done. by apply H.
Qed.
End Lookup.

(** ** Witnesses and examples *)

(** An empty drive of [n] bytes and the program's state before anything is called. *)
Definition empty_drive (n : Z) : DriveFile :=
  {| file_bytes := ∅; file_size := n; partitionOffset := 0 |}.
Definition initial_state (n : Z) : esfs DriveFile :=
  Esfs 0 (replicate Superblock.sizeof 0) [] 0 0 (empty_drive n).

(** A formatted and mounted volume on a drive of [n] bytes. *)
Definition fresh_volume (n : Z) : outcome unit * esfs DriveFile :=
  bind (Format no_rand n [118] zero_id (replicate 100 7)) (fun _ => MountVolume) (initial_state n).

(**  A volume made by [Format] on a drive of 513 blocks and mounted satisfies the
    allocator's invariant, has block 0 in use and is counted as thirteen used blocks. *)
Theorem Format_small_ok :
  match fresh_volume 1050624 with
  | (Ok _, s) => alloc_okb s && block_used s 0 && ((superblock s).[Superblock.blocksUsed] =? 13) = true
  | _ => False
  end.
Proof. vm_compute. reflexivity. Qed.

(** When the blocks fill the last group exactly, its descriptor has no used
    block but a bitmap, which [AllocateExtent] takes for a group not set up: on a
    freshly formatted volume of 1 MiB, asking for 250 blocks fails an assertion. *)
Theorem Format_exact_group_assertion :
  match fresh_volume 1048576 with
  | (Ok _, s) => (AllocateExtent 250 s).1 = Stop Assertion
  | _ => False
  end.
Proof. vm_compute. reflexivity. Qed.

Lemma format_geometry_sound_witness : geometry_sound (2 ^ 30) (format_geometry (2 ^ 30)).
Proof. apply format_geometry_sound. lia. Defined.

Lemma format_bitmaps_overlap_witness :
  let g := format_geometry (2 ^ 30) in
  2 <= g_groupCount g /\
  g_blockGroup0Bitmap g < g_blockGroupLastBitmap g < g_blockGroup0Bitmap g + g_blocksPerGroupBlockBitmap g.
Proof. apply format_bitmaps_overlap. lia. Defined.

(** A drive of sixteen 2 KiB blocks with its descriptor table in block 8. *)
Definition tiny_superblock (mounted : Z) : bytes :=
  (replicate Superblock.sizeof 0)
    .[Superblock.mounted := mounted].[Superblock.blockSize := 2048].[Superblock.blockCount := 16]
    .[Superblock.groupCount := 2].[Superblock.gdtFirstBlock := 8].[Superblock.nextIdentifier := 77].

Definition tiny_drive (m : gmap Z Z) : DriveFile :=
  {| file_bytes := m; file_size := 32768; partitionOffset := 0 |}.

Definition tiny_mounted : esfs DriveFile :=
  Esfs 2048 (tiny_superblock 1) (replicate (Z.to_nat 2048) 3) 0 0 (tiny_drive ∅).

Lemma unmount_mount_witness :
  exists s1 s2, UnmountVolume tiny_mounted = (Ok tt, s1) /\ MountVolume s1 = (Ok tt, s2) /\
    checksum_ok Superblock.checksum (stored_superblock (drive s1)) /\
    groupDescriptorTable s2 = groupDescriptorTable tiny_mounted /\ blockSize s2 = blockSize tiny_mounted /\
    (superblock s2).[Superblock.mounted] = 1 /\
    forall f, field_disjoint f Superblock.mounted -> field_disjoint f Superblock.checksum ->
      (superblock s2).[f] = (superblock tiny_mounted).[f].
Proof.
  apply unmount_mount. split.
  - vm_compute. reflexivity.
  - apply bytes_okb_sound. vm_compute. reflexivity.
  - vm_compute. reflexivity.
  - vm_compute. reflexivity.
  - vm_compute. reflexivity.
  - vm_compute. repeat split; discriminate.
  - vm_compute. repeat split; discriminate.
  - vm_compute. discriminate.
Defined.

Definition tiny_unmounted : esfs DriveFile :=
  Esfs 0 [] [] 0 0 (tiny_drive (put_bytes ∅ 8192 (tiny_superblock 0))).

Lemma MountVolume_twice_witness :
  exists s1 s2, MountVolume tiny_unmounted = (Ok tt, s1) /\ MountVolume s1 = (Stop FatalError, s2) /\
    drive s2 = drive s1.
Proof.
  apply MountVolume_twice.
  - cbn. lia.
  - vm_compute. reflexivity.
  - vm_compute. reflexivity.
  - vm_compute. discriminate.
  - vm_compute. discriminate.
  - vm_compute. discriminate.
Defined.

(** A directory with two entries, "a" and "b", in block 6; its own entry is the
    second one of block 5. *)
Definition named_entry (name : bytes) : bytes :=
  match (NewDirectoryEntry no_rand (replicate DirectoryEntry.sizeof 0) ESFS_NODE_TYPE_FILE zero_id name zero_id
           (small_volume 6 0)).1 with Ok e => e | _ => [] end.

Definition tiny_directory : bytes :=
  (replicate DirectoryEntry.sizeof 0)
    .[DirectoryEntry.attributeOffset := 96].[DirectoryEntry.attributeCount := 2]
    .[DirectoryEntry.fileSize := 2048]
    .[attr 96 AttributeDirectory.type := ESFS_ATTRIBUTE_DIRECTORY].[attr 96 AttributeDirectory.size := 32]
    .[attr 96 AttributeDirectory.childNodes := 2]
    .[attr 128 AttributeData.type := ESFS_ATTRIBUTE_DATA].[attr 128 AttributeData.size := 896]
    .[attr 128 AttributeData.indirection := ESFS_INDIRECTION_L1].[attr 128 AttributeData.dataOffset := 32]
    .[attr 128 AttributeData.count := 1].[Field 160 3 := le_combine (EncodeExtent 6 0 1)].

Definition tiny_volume : esfs DriveFile :=
  Esfs 2048 (tiny_superblock 1) [] 0 0
    (tiny_drive (put_bytes (put_bytes ∅ (5 * 2048 + 1024) tiny_directory) (6 * 2048)
       (named_entry [97] ++ named_entry [98]))).

Lemma tiny_directory_ok : file_ok tiny_volume tiny_directory 128 [6].
Proof.
  split.
  - intros s. apply (FindAttribute_chain tiny_directory [(ESFS_ATTRIBUTE_DIRECTORY, 96); (ESFS_ATTRIBUTE_DATA, 128)]);
      [|vm_compute; reflexivity..].
    change (tiny_directory.[DirectoryEntry.attributeOffset]) with 96. cbn [attribute_chain].
    assert (tiny_directory.[attr 96 Attribute.size] = 32) as -> by (vm_compute; reflexivity).
    assert (tiny_directory.[attr 128 Attribute.size] = 896) as -> by (vm_compute; reflexivity).
    split_and!; (vm_compute; (reflexivity || discriminate)).
  - vm_compute. reflexivity.
  - exists [(6, 1)]. split_and!; [vm_compute; reflexivity| |done].
    unfold extents_ok. repeat constructor; cbn; lia.
  - left. vm_compute. discriminate.
  - vm_compute. reflexivity.
  - repeat constructor. apply not_elem_of_nil.
  - repeat constructor. vm_compute. discriminate.
  - vm_compute. reflexivity.
  - vm_compute. reflexivity.
  - vm_compute. reflexivity.
Qed.

Lemma FindNode_correct_witness :
  (exists k, 0 <= k < 2 /\ entry_named tiny_volume [6] [98] k true /\
     (forall j, 0 <= j < k -> entry_named tiny_volume [6] [98] j false) /\
     FindNode [98] (Ref 5 1024) tiny_volume = (Ok (dir_entry tiny_volume [6] k), tiny_volume))
  \/ ((forall j, 0 <= j < 2 -> entry_named tiny_volume [6] [98] j false) /\
      FindNode [98] (Ref 5 1024) tiny_volume = (RetFalse, tiny_volume)).
Proof.
  apply (FindNode_correct tiny_volume (Ref 5 1024) tiny_directory 96 128 [6] [98] 2).
  - apply run_unchanged; [vm_compute; reflexivity|done].
  - apply run_unchanged; [vm_compute; reflexivity|apply find_attribute_state].
  - vm_compute. reflexivity.
  - lia.
  - apply tiny_directory_ok.
  - vm_compute. discriminate.
  - lia.
  - intros j Hj. exists (j =? 1). apply run_unchanged; [|apply filename_is_state].
    assert (j = 0 \/ j = 1) as [-> | ->] by lia; vm_compute; reflexivity.
Defined.
