(* ===== verification/SharedArray.v ===== *)
(** * Growing arrays of kernel and desktop (shared/array.cpp)

    The template [Array] and the [_Array...] functions under it.  An array is the memory
    behind its pointer: the length in the header and the items there is room for, so that
    the null pointer is the array without room.  The heap may refuse any request; what a
    reallocation leaves in new memory is arbitrary.  The byte-wise copies of
    [EsMemoryMove] are of whole items here.  [additionalHeaderBytes] is 0, as it is for
    every array of the template. *)

From stdpp Require Import base list.
From S2P Require Import Prelude.

(** The heap an array is allocated on, and the items as memory. *)
Class EsHeap (A : Type) := {
  grants : nat -> Z -> bool;    (** whether the n-th request, of that many bytes, succeeds *)
  itemSize : Z;
  zero_item : A;
  stale_item : nat -> A;
}.

Record array (A : Type) := MkArray { len : Z; buffer : list A; requests : nat }.
Arguments MkArray {A}.
Arguments len {A}.
Arguments buffer {A}.
Arguments requests {A}.

Definition empty_array {A} (n : nat) : array A := MkArray 0 [] n.

Section Array.
Context {A : Type} `{EsHeap A}.
Implicit Types a : array A.

Definition allocated a : Z := Z.of_nat (length (buffer a)).
Definition is_null a : bool := match buffer a with [] => true | _ => false end.
Definition set_len (n : Z) a : array A := MkArray n (buffer a) (requests a).
Definition set_buffer (b : list A) a : array A := MkArray (len a) b (requests a).

(** A request to the heap. *)
Definition request (bytes : Z) : M (array A) unit :=
  let! a := get in
  modify (fun a => MkArray (len a) (buffer a) (S (requests a))) ;;;
  if grants (requests a) bytes then ret tt else ret_false.

Definition header_size : Z := 16.

Definition _ArrayMaybeInitialise : M (array A) unit :=
  let! a := get in
  if negb (is_null a) then ret tt
  else
    let newLength := 4 in
    request (u64 (header_size + itemSize * newLength)) ;;;
    modify (fun a => MkArray 0 (replicate (Z.to_nat newLength) zero_item) (requests a)).

Definition _ArrayEnsureAllocated (minimumAllocated : Z) : M (array A) unit :=
  _ArrayMaybeInitialise ;;;
  let! a := get in
  if minimumAllocated <=? allocated a then ret tt
  else
    request (u64 (header_size + itemSize * minimumAllocated)) ;;;
    modify (fun a => set_buffer
      (buffer a ++ map stale_item (seq (length (buffer a)) (Z.to_nat minimumAllocated - length (buffer a)))) a).

Definition _ArraySetLength (newLength : Z) : M (array A) unit :=
  _ArrayMaybeInitialise ;;;
  let! a := get in
  if newLength <=? allocated a then modify (set_len newLength)
  else
    _ArrayEnsureAllocated
      (if newLength <? u64 (allocated a * 2) then u64 (allocated a * 2) else u64 (newLength + 16)) ;;;
    modify (set_len newLength).

(** [EsMemoryMove] of the items from [first] up to [last] by [amount], inside the memory. *)
Definition move_items (first last amount : Z) : M (array A) unit :=
  let! a := get in
  if last <? first then stop FatalError
  else if (first + amount <? 0) || (allocated a <? last + amount) || (first <? 0) || (allocated a <? last) then stop OutOfBounds
  else
    let moved := take (Z.to_nat (last - first)) (drop (Z.to_nat first) (buffer a)) in
    modify (set_buffer (take (Z.to_nat (first + amount)) (buffer a) ++ moved ++ drop (Z.to_nat (last + amount)) (buffer a))).

(** Writing an item into the memory of the array. *)
Definition write_item (i : Z) (x : A) : M (array A) unit :=
  let! a := get in
  if (0 <=? i) && (i <? allocated a) then modify (set_buffer (<[Z.to_nat i := x]> (buffer a)))
  else stop OutOfBounds.

(** [array[index]], the memory there. *)
Definition read_item (i : Z) : M (array A) A :=
  let! a := get in
  if (0 <=? i) && (i <? allocated a) then lift_opt OutOfBounds (buffer a !! Z.to_nat i) else stop OutOfBounds.

Definition _ArrayDelete (position count : Z) : M (array A) unit :=
  if count =? 0 then ret tt
  else
    let! a := get in
    let oldArrayLength := len a in
    if oldArrayLength <=? position then stop FatalError
    else if oldArrayLength - position <? count then stop FatalError
    else
      modify (set_len (oldArrayLength - count)) ;;;
      move_items (position + count) oldArrayLength (- count).

Definition _ArrayDeleteSwap (position : Z) : M (array A) unit :=
  let! a := get in
  let oldArrayLength := len a in
  if oldArrayLength <=? position then stop FatalError
  else
    modify (set_len (oldArrayLength - 1)) ;;;
    let! x := read_item (oldArrayLength - 1) in
    write_item position x.

(** The position is -1 for the end; the result is the position of the new item. *)
Definition _ArrayInsert (item : option A) (position : Z) : M (array A) Z :=
  let! a := get in
  let oldArrayLength := len a in
  let position := if position =? -1 then oldArrayLength else position in
  if (position <? 0) || (oldArrayLength <? position) then stop FatalError
  else
    _ArraySetLength (u64 (oldArrayLength + 1)) ;;;
    move_items position oldArrayLength 1 ;;;
    write_item position (default zero_item item) ;;;
    ret position.

Definition _ArrayInsertMany (position insertCount : Z) : M (array A) Z :=
  let! a := get in
  let oldArrayLength := len a in
  let position := if position =? -1 then oldArrayLength else position in
  if (position <? 0) || (oldArrayLength <? position) then stop FatalError
  else
    _ArraySetLength (u64 (oldArrayLength + insertCount)) ;;;
    move_items position oldArrayLength insertCount ;;;
    ret position.

Definition _ArrayFree : M (array A) unit :=
  let! a := get in
  if is_null a then ret tt else modify (fun a => empty_array (requests a)).

(** The members of the template. *)
Definition Length : M (array A) Z := let! a := get in ret (len a).
Definition Add (item : A) : M (array A) Z := _ArrayInsert (Some item) (-1).
Definition Insert (item : A) (position : Z) : M (array A) Z := _ArrayInsert (Some item) position.
Definition Delete (position : Z) : M (array A) unit := _ArrayDelete position 1.
Definition Last : M (array A) A := let! a := get in read_item (len a - 1).
Definition Pop : M (array A) A :=
  let! t := Last in
  let! a := get in
  Delete (u64 (len a - 1)) ;;;
  ret t.
Definition AddFast (item : A) : M (array A) unit :=
  let! a := get in
  if is_null a then ignore_result (Add item)
  else if len a =? allocated a then ignore_result (Add item)
  else write_item (len a) item ;;; modify (set_len (len a + 1)).

Section Find.
Context `{EqDecision A}.

Fixpoint find_from (n : nat) (i : Z) (item : A) : M (array A) Z :=
  match n with
  | O => ret (-1)
  | S n' => let! x := read_item i in if bool_decide (x = item) then ret i else find_from n' (i + 1) item
  end.

Definition Find (item : A) (failIfNotFound : bool) : M (array A) Z :=
  let! a := get in
  let! i := find_from (Z.to_nat (len a)) 0 item in
  if (i =? -1) && failIfNotFound then stop FatalError else ret i.

Definition FindAndDelete (item : A) (failIfNotFound : bool) : M (array A) unit :=
  let! index := Find item failIfNotFound in
  if index =? -1 then ret_false else Delete index.

Definition FindAndDeleteSwap (item : A) (failIfNotFound : bool) : M (array A) unit :=
  let! index := Find item failIfNotFound in
  if index =? -1 then ret_false else _ArrayDeleteSwap index.
End Find.

(** ** What an array holds *)

Definition items a : list A := take (Z.to_nat (len a)) (buffer a).

(** There is room for the items. *)
Definition array_ok a : Prop := 0 <= len a <= allocated a.
(** The address space bounds how many there can be. *)
Definition small a : Prop := allocated a < 2 ^ 62.

Lemma length_items a : array_ok a -> Z.of_nat (length (items a)) = len a.
Proof. unfold array_ok, items, allocated. rewrite length_take. lia. Qed.

Lemma items_lookup a i : 0 <= i < len a -> buffer a !! Z.to_nat i = items a !! Z.to_nat i.
Proof. intros Hi. unfold items. rewrite lookup_take_lt; [done|lia]. Qed.

Lemma read_item_spec a i x : array_ok a -> items a !! i = Some x -> read_item (Z.of_nat i) a = (Ok x, a).
Proof.
  intros Ha Hx. pose proof (lookup_lt_Some _ _ _ Hx) as Hl. pose proof (length_items a Ha). unfold array_ok in Ha.
  unfold read_item, bind, get. rewrite (proj2 (Z.leb_le _ _)), (proj2 (Z.ltb_lt _ _)) by lia. cbn [andb].
  rewrite items_lookup, Nat2Z.id, Hx by lia. done.
Qed.

(** The memory of [a'] starts with that of [a]. *)
Definition grown a a' : Prop := exists more, buffer a' = buffer a ++ more.

Lemma grown_refl a : grown a a.
Proof. exists []. by rewrite app_nil_r. Qed.
Lemma grown_allocated a a' : grown a a' -> allocated a <= allocated a'.
Proof. intros [more E]. unfold allocated. rewrite E, length_app. lia. Qed.

(** How an operation may end: with success, or refused by the heap. *)
Definition ends (r : outcome unit * array A) (P Q : array A -> Prop) : Prop :=
  match r with (Ok _, a') => P a' | (RetFalse, a') => Q a' | (Stop _, _) => False end.

Lemma array_ends_bind (m : M (array A) unit) f a (P Q P' Q' : array A -> Prop) : ends (m a) P Q ->
  (forall a', P a' -> ends (f tt a') P' Q') -> (forall a', Q a' -> Q' a') -> ends (bind m f a) P' Q'.
Proof. unfold ends, bind. intros Hm Hf Hq. destruct (m a) as [[[]| |r] a']; [by apply Hf|by apply Hq|done]. Qed.

Definition same_items a a' : Prop := grown a a' /\ len a' = len a.

Lemma MaybeInitialise_spec a : array_ok a ->
  ends (_ArrayMaybeInitialise a) (fun a' => same_items a a' /\ allocated a' <= Z.max (allocated a) 4) (same_items a).
Proof.
  intros Ha. unfold _ArrayMaybeInitialise, request, is_null, bind, get, modify, ret, ret_false, same_items.
  unfold array_ok, allocated in *. destruct a as [n [|x b] k]; cbn -[Z.to_nat] in *.
  - assert (n = 0) by lia. subst. destruct (grants _ _); cbn -[Z.to_nat]; [|split; [by exists []|done]].
    split; [split; [by eexists|done]|]. rewrite length_replicate. lia.
  - split; [split; [apply grown_refl|done]|]. cbn. lia.
Qed.

Lemma same_items_trans a a1 a2 : same_items a a1 -> same_items a1 a2 -> same_items a a2.
Proof. intros [[m Em] El] [[m' Em'] El']. split; [exists (m ++ m'); by rewrite Em', Em, app_assoc|congruence]. Qed.
Lemma same_items_ok a a' : array_ok a -> same_items a a' -> array_ok a'.
Proof. intros Ha [Hg El]. pose proof (grown_allocated _ _ Hg). unfold array_ok in *. lia. Qed.

Lemma EnsureAllocated_spec a n : array_ok a -> 0 <= n ->
  ends (_ArrayEnsureAllocated n a) (fun a' => same_items a a' /\ n <= allocated a') (same_items a).
Proof.
  intros Ha Hn. eapply array_ends_bind; [by apply MaybeInitialise_spec| |done]. intros a1 [H1 _].
  unfold bind, get, modify, request, ret, ret_false. destruct (n <=? allocated a1) eqn:E; [cbn; split; [done|lia]|].
  cbn. destruct (grants _ _); cbn; [|by eapply same_items_trans; [|split; [apply grown_refl|]]].
  split; [eapply same_items_trans; [done|]; by split; [eexists|]|].
  unfold allocated in *. cbn. rewrite length_app, length_map, length_seq. lia.
Qed.

Lemma SetLength_spec a n : array_ok a -> small a -> 0 <= n < 2 ^ 63 ->
  ends (_ArraySetLength n a) (fun a' => grown a a' /\ len a' = n /\ n <= allocated a') (same_items a).
Proof.
  intros Ha Hs Hn. eapply array_ends_bind; [by apply MaybeInitialise_spec| |done]. intros a1 [H1 Hb].
  unfold bind at 1, get. destruct (n <=? allocated a1) eqn:E.
  { cbn. split_and!; [apply H1|done|]. unfold allocated in *. cbn. lia. }
  set (k := if _ <? _ then _ else _). assert (Hk : n <= k).
  { unfold k. unfold small in Hs. rewrite !u64_id by (unfold is_uint, allocated in *; lia).
    destruct (n <? allocated a1 * 2) eqn:E2; lia. }
  eapply array_ends_bind; [apply EnsureAllocated_spec; [by eapply same_items_ok|lia]| |].
  - intros a2 [H2 Hk2]. destruct (same_items_trans _ _ _ H1 H2) as [Hg _]. cbn. split_and!; [done|done|].
    unfold allocated in *. cbn. lia.
  - intros a2 H2. by eapply same_items_trans.
Qed.

Lemma same_items_items a a' : array_ok a -> same_items a a' -> items a' = items a.
Proof. intros Ha [[more E] Hl]. unfold items, array_ok, allocated in *. by rewrite Hl, E, take_app_le by lia. Qed.

(** ** Operations on the items *)

(** Moving the tail up by one and writing into the gap, seen through the first items. *)
Lemma insert_move (b : list A) n p x : (p <= n)%nat -> (S n <= length b)%nat ->
  take (S n) (<[p := x]> (take (S p) b ++ take (n - p) (drop p b) ++ drop (S n) b)) =
  take p (take n b) ++ x :: drop p (take n b).
Proof.
  intros Hp Hn. rewrite insert_app_l by (rewrite length_take; lia).
  assert (Ht : <[p := x]> (take (S p) b) = take p b ++ [x]).
  { rewrite (take_S_r b p (default x (b !! p))) by (destruct (lookup_lt_is_Some_2 b p ltac:(lia)) as [y Hy]; by rewrite Hy).
    rewrite insert_app_r_alt, length_take by (rewrite length_take; lia). by replace (p - p `min` length b)%nat with 0%nat by lia. }
  rewrite Ht, take_take, Nat.min_l by lia. rewrite <- app_assoc. cbn [app].
  rewrite take_app_ge, length_take by (rewrite length_take; lia). f_equal.
  replace (S n - p `min` length b)%nat with (S (n - p)) by lia. cbn [take]. f_equal.
  rewrite take_app_le by (rewrite length_take, length_drop; lia). rewrite take_take, Nat.min_id.
  by rewrite take_drop_commute, Nat.add_comm, Nat.sub_add by lia.
Qed.

(** [Insert] inserts, or leaves the items as they are when memory runs out. *)
Lemma Insert_spec a x (p : nat) : array_ok a -> small a -> (p <= length (items a))%nat ->
  match Insert x (Z.of_nat p) a with
  | (Ok _, a') => array_ok a' /\ items a' = take p (items a) ++ x :: drop p (items a)
  | (RetFalse, a') => array_ok a' /\ items a' = items a
  | (Stop _, _) => False
  end.
Proof.
  intros Ha Hs Hp. pose proof (length_items a Ha) as Hl. unfold small in Hs. pose proof Ha as [H1 H2].
  unfold Insert, _ArrayInsert. unfold bind at 1, get.
  rewrite (proj2 (Z.eqb_neq _ (-1))), (proj2 (Z.ltb_ge (Z.of_nat p) 0)), (proj2 (Z.ltb_ge (len a) _)) by lia. cbn [orb].
  rewrite u64_id by (unfold is_uint; lia). pose proof (SetLength_spec a (len a + 1) Ha Hs ltac:(lia)) as Hset.
  unfold bind at 1. destruct (_ArraySetLength _ a) as [[[]| |] a1]; cbn in Hset; [|..|done].
  2: { split; [by eapply same_items_ok|by apply same_items_items]. }
  destruct Hset as ([more Em] & Hl1 & Hr). assert (allocated a <= allocated a1) by (apply grown_allocated; by exists more).
  unfold move_items, bind, get, modify.
  rewrite (proj2 (Z.ltb_ge (len a) (Z.of_nat p))) by lia.
  rewrite (proj2 (Z.ltb_ge _ 0)), (proj2 (Z.ltb_ge (allocated a1) _)), (proj2 (Z.ltb_ge _ 0)), (proj2 (Z.ltb_ge (allocated a1) _)) by lia.
  cbn [orb]. unfold write_item, bind, get, modify, ret.
  set (b := take _ _ ++ _ ++ _). assert (Hb : length b = length (buffer a1)).
  { unfold b, allocated in *. rewrite !length_app, !length_take, !length_drop. lia. }
  assert (allocated (set_buffer b a1) = allocated a1) as -> by (unfold allocated; cbn; by rewrite Hb).
  rewrite (proj2 (Z.leb_le _ _)), (proj2 (Z.ltb_lt _ _)) by lia. cbn [andb]. split.
  { unfold array_ok, allocated in *. cbn. rewrite length_insert, Hb. lia. }
  unfold items at 1. cbn. rewrite Hl1, Nat2Z.id. unfold b.
  replace (Z.to_nat (Z.of_nat p + 1)) with (S p) by lia. replace (Z.to_nat (len a + 1)) with (S (Z.to_nat (len a))) by lia.
  rewrite Nat2Z.id. replace (Z.to_nat (len a - Z.of_nat p)) with (Z.to_nat (len a) - p)%nat by lia.
  rewrite insert_move by (unfold allocated in *; lia). unfold items. rewrite Em.
  by rewrite take_app_le by (unfold allocated in *; lia).
Qed.

Lemma delete_move (b : list A) n p c : (p + c <= n)%nat -> (n <= length b)%nat ->
  take (n - c) (take p b ++ take (n - (p + c)) (drop (p + c) b) ++ drop (n - c) b) = take p (take n b) ++ drop (p + c) (take n b).
Proof.
  intros Hp Hn. rewrite take_app_ge, length_take by (rewrite length_take; lia).
  rewrite take_app_le by (rewrite length_take, length_drop; lia). rewrite !take_take, !Nat.min_l by lia. f_equal.
  rewrite take_drop_commute. replace (p + c + (n - c - p))%nat with n by lia. done.
Qed.

(** [DeleteMany] removes exactly the items it is told to. *)
Lemma Delete_spec a (p c : nat) : array_ok a -> (p + c <= length (items a))%nat ->
  exists a', _ArrayDelete (Z.of_nat p) (Z.of_nat c) a = (Ok tt, a') /\ array_ok a' /\
    allocated a' = allocated a /\ items a' = take p (items a) ++ drop (p + c) (items a).
Proof.
  intros Ha Hp. pose proof (length_items a Ha) as Hl. pose proof Ha as [H1 H2]. unfold _ArrayDelete.
  destruct (Z.of_nat c =? 0) eqn:Ec.
  { exists a. split_and!; [done..|]. replace (p + c)%nat with p by lia. by rewrite take_drop. }
  unfold bind at 1, get. rewrite (proj2 (Z.leb_gt (len a) _)), (proj2 (Z.ltb_ge (len a - _) _)) by lia.
  unfold move_items, bind, get, modify. cbn [set_len len].
  rewrite (proj2 (Z.ltb_ge (len a) _)) by lia.
  assert (allocated (set_len (len a - Z.of_nat c) a) = allocated a) as -> by done.
  rewrite (proj2 (Z.ltb_ge _ 0)), (proj2 (Z.ltb_ge (allocated a) _)), (proj2 (Z.ltb_ge _ 0)), (proj2 (Z.ltb_ge (allocated a) _)) by lia.
  cbn [orb buffer set_len].
  set (b := take _ _ ++ _ ++ _). assert (Hb : length b = length (buffer a)).
  { unfold b, allocated in *. rewrite !length_app, !length_take, !length_drop. lia. }
  eexists. split; [done|]. unfold array_ok, allocated, items in *. cbn. rewrite Hb. split_and!; [lia|lia|done|].
  unfold b. replace (Z.to_nat (Z.of_nat p + Z.of_nat c + - Z.of_nat c)) with p by lia.
  replace (Z.to_nat (len a - (Z.of_nat p + Z.of_nat c))) with (Z.to_nat (len a) - (p + c))%nat by lia.
  replace (Z.to_nat (Z.of_nat p + Z.of_nat c)) with (p + c)%nat by lia.
  replace (Z.to_nat (len a + - Z.of_nat c)) with (Z.to_nat (len a) - c)%nat by lia.
  replace (Z.to_nat (len a - Z.of_nat c)) with (Z.to_nat (len a) - c)%nat by lia.
  apply delete_move; lia.
Qed.

(** [DeleteSwap] puts the last item in the place of the one it removes. *)
Lemma DeleteSwap_spec a (p : nat) l x : array_ok a -> items a = l ++ [x] -> (p <= length l)%nat ->
  exists a', _ArrayDeleteSwap (Z.of_nat p) a = (Ok tt, a') /\ array_ok a' /\ items a' = <[p := x]> l.
Proof.
  intros Ha El Hp. pose proof (length_items a Ha) as Hl. rewrite El, length_app in Hl. cbn in Hl. pose proof Ha as [H1 H2].
  unfold _ArrayDeleteSwap. unfold bind at 1, get. rewrite (proj2 (Z.leb_gt (len a) _)) by lia.
  unfold read_item, write_item, bind, get, modify, lift_opt, ret. cbn [set_len len].
  assert (allocated (set_len (len a - 1) a) = allocated a) as -> by done.
  rewrite !(proj2 (Z.leb_le 0 _)), !(proj2 (Z.ltb_lt _ (allocated a))) by lia. cbn [andb buffer set_len].
  assert (Hx : buffer a !! Z.to_nat (len a - 1) = Some x).
  { rewrite items_lookup, El by lia. replace (Z.to_nat (len a - 1)) with (length l) by lia.
    by rewrite lookup_app_r, Nat.sub_diag by lia. }
  rewrite Hx. cbn [buffer set_len]. assert (allocated (set_len (len a - 1) a) = allocated a) as -> by done.
  rewrite (proj2 (Z.ltb_lt _ (allocated a))) by lia.
  eexists. split; [done|]. unfold array_ok, allocated, items in *. cbn. rewrite length_insert. split; [lia|].
  rewrite Nat2Z.id. assert (Eb : take (length l) (buffer a) = l).
  { replace (take (length l) (buffer a)) with (take (length l) (take (Z.to_nat (len a)) (buffer a))) by (rewrite take_take; f_equal; lia).
    by rewrite El, take_app_length. }
  replace (Z.to_nat (len a - 1)) with (length l) by lia. rewrite <- Eb at 2.
  destruct (decide (p = length l)) as [->|Hne].
  - by rewrite take_insert_ge, list_insert_ge by (rewrite ?length_take; lia).
  - by rewrite take_insert_lt by lia.
Qed.

Lemma Free_spec a : array_ok a -> exists a', _ArrayFree a = (Ok tt, a') /\ array_ok a' /\ is_null a' = true /\ items a' = [].
Proof.
  intros Ha. unfold _ArrayFree, bind, get, modify, ret, is_null. destruct a as [n [|x b] k]; cbn; eexists; (split; [done|]).
  - split_and!; [done|done|]. unfold items. cbn. by rewrite take_nil.
  - by split_and!.
Qed.
End Array.
