(* ===== verification/SharedRangeSet.v ===== *)
(** * Sets of ranges (shared/range_set.cpp)

    [RangeSet]: the kernel keeps the committed pages of a region of memory and the received
    parts of a TCP stream in it.  A set is a sorted array of ranges, or, as long as there
    are no ranges, all numbers below [contiguous].  [Validate] is that of a debug build.
    The pointer [delta] may be null; the result of an operation here is what is written
    through it when it is not. *)

From stdpp Require Import base list.
From S2P Require Import Prelude SharedArray.

Record Range := MkRange { range_from : Z; range_to : Z }.

(** The arrays of the kernel heap; a range has 16 bytes. *)
Class RangeHeap := { heap_grants : nat -> Z -> bool; stale_range : nat -> Range }.
#[export] Instance range_heap `{RangeHeap} : EsHeap Range := {|
  grants := heap_grants;
  itemSize := 16;
  zero_item := MkRange 0 0;
  stale_item := stale_range;
|}.

Record RangeSet := MkRangeSet { ranges : array Range; contiguous : Z }.

Section RangeSet.
Context `{RangeHeap}.

(** An operation of the array [ranges]. *)
Definition on_ranges {A} (m : M (array Range) A) : M RangeSet A :=
  fun s => let '(o, a) := m (ranges s) in (o, MkRangeSet a (contiguous s)).
Definition set_contiguous (v : Z) : M RangeSet unit := modify (fun s => MkRangeSet (ranges s) v).
Definition range_at (i : Z) : M RangeSet Range := on_ranges (read_item i).
Definition count_ranges : M RangeSet Z := on_ranges Length.
Definition get_contiguous : M RangeSet Z := let! s := get in ret (contiguous s).
Definition set_range (i : Z) (r : Range) : M RangeSet unit := on_ranges (write_item i r).

Definition hits (touching : bool) (offset : Z) (r : Range) : bool :=
  (range_from r <=? offset) && ((offset <? range_to r) || touching && (offset <=? range_to r)).

Fixpoint find_between (n : nat) (offset : Z) (touching : bool) (low high : Z) : M RangeSet (option Z) :=
  match n with
  | O => stop OutOfFuel
  | S n' =>
      if high <? low then ret None
      else
        let i := low + Z.quot (high - low) 2 in
        let! range := range_at i in
        if hits touching offset range then ret (Some i)
        else if range_from range <=? offset then find_between n' offset touching (i + 1) high
        else find_between n' offset touching low (i - 1)
  end.

Definition RangeSetFind (offset : Z) (touching : bool) : M RangeSet (option Z) :=
  let! length := count_ranges in
  if length =? 0 then ret None
  else find_between (S (Z.to_nat length)) offset touching 0 (length - 1).

Definition RangeSetContains (offset : Z) : M RangeSet bool :=
  let! length := count_ranges in
  if negb (length =? 0) then let! r := RangeSetFind offset false in ret (bool_decide (is_Some r))
  else let! c := get_contiguous in ret (offset <? c).

Fixpoint validate_from (n : nat) (i previousTo : Z) : M RangeSet unit :=
  match n with
  | O => ret tt
  | S n' =>
      let! range := range_at i in
      if negb (previousTo =? 0) && (range_from range <=? previousTo) then stop FatalError
      else if range_to range <=? range_from range then stop FatalError
      else validate_from n' (i + 1) (range_to range)
  end.
Definition RangeSetValidate : M RangeSet unit :=
  let! length := count_ranges in validate_from (Z.to_nat length) 0 0.

(** Where a new range goes: before the first that ends behind its start. *)
Fixpoint insert_position (n : nat) (i start : Z) : M RangeSet Z :=
  match n with
  | O => ret i
  | S n' => let! range := range_at i in if start <? range_to range then ret i else insert_position n' (i + 1) start
  end.

Definition overlaps (new r : Range) : bool :=
  (range_from new <=? range_from r) && (range_from r <=? range_to new)
  || (range_from new <=? range_to r) && (range_to r <=? range_to new).

(** How many ranges behind [i] overlap the new one, and their total length. *)
Fixpoint count_overlaps (n : nat) (i : Z) (new : Range) (deleteCount deleteTotal : Z) : M RangeSet (Z * Z) :=
  match n with
  | O => ret (deleteCount, deleteTotal)
  | S n' =>
      let! range := range_at i in
      if overlaps new range then
        count_overlaps n' (i + 1) new (deleteCount + 1) (u64 (deleteTotal + (range_to range - range_from range)))
      else ret (deleteCount, deleteTotal)
  end.

(** [Set] behind its treatment of [contiguous]. *)
Definition insert_range (start stop : Z) (modify : bool) : M RangeSet Z :=
  let! leftRange := RangeSetFind start true in
  let! rightRange := RangeSetFind stop true in
  let! newFrom := match leftRange with Some i => let! r := range_at i in ret (range_from r) | None => ret start end in
  let! newTo := match rightRange with Some i => let! r := range_at i in ret (range_to r) | None => ret stop end in
  let newRange := MkRange newFrom newTo in
  let! length := count_ranges in
  let! i := insert_position (Z.to_nat length) 0 newFrom in
  let! i := if modify then on_ranges (Insert newRange i) ;;; ret (i + 1) else ret i in
  let! length := count_ranges in
  let! (deleteCount, deleteTotal) := count_overlaps (Z.to_nat (length - i)) i newRange 0 0 in
  (if modify then on_ranges (_ArrayDelete i deleteCount) else ret tt) ;;;
  RangeSetValidate ;;;
  ret (s64 (newTo - newFrom - deleteTotal)).

Definition set_with (normalize : M RangeSet unit) (start stop : Z) (modify : bool) : M RangeSet Z :=
  if stop <=? start then Prelude.stop FatalError
  else
    let! length := count_ranges in
    let! c := get_contiguous in
    if negb (length =? 0) then insert_range start stop modify
    else if negb modify then
      ret (s64 (if c <=? start then stop - start else if c <=? stop then stop - c else 0))
    else if start <=? c then
      (if c <? stop then set_contiguous stop else ret tt) ;;;
      ret (s64 (if c <=? start then stop - start else if c <=? stop then stop - c else 0))
    else normalize ;;; insert_range start stop modify.

Definition normalize_with (set : Z -> Z -> bool -> M RangeSet Z) : M RangeSet unit :=
  let! oldContiguous := get_contiguous in
  if oldContiguous =? 0 then ret tt
  else set_contiguous 0 ;;; set 0 oldContiguous true ;;; ret tt.

(** [Set] and [Normalize] call each other; the second [Set] never calls [Normalize]. *)
Fixpoint set_at (depth : nat) (start stop : Z) (modify : bool) : M RangeSet Z :=
  match depth with
  | O => Prelude.stop OutOfFuel
  | S d => set_with (normalize_with (set_at d)) start stop modify
  end.
Definition RangeSetSet : Z -> Z -> bool -> M RangeSet Z := set_at 2.
Definition RangeSetNormalize : M RangeSet unit := normalize_with RangeSetSet.

(** ** Clear *)

Fixpoint sum_ranges (n : nat) (i total : Z) : M RangeSet Z :=
  match n with
  | O => ret total
  | S n' => let! r := range_at i in sum_ranges n' (i + 1) (s64 (total + (range_to r - range_from r)))
  end.

Fixpoint overlap_start (n : nat) (i length start stop : Z) : M RangeSet (Z * Z) :=
  match n with
  | O => ret (length, 0)
  | S n' =>
      let! r := range_at i in
      if (start <? range_to r) && (range_from r <? stop) then ret (i, 1) else overlap_start n' (i + 1) length start stop
  end.

Fixpoint overlap_count (n : nat) (i start stop overlapCount : Z) : M RangeSet Z :=
  match n with
  | O => ret overlapCount
  | S n' =>
      let! r := range_at i in
      if (start <=? range_to r) && (range_from r <? stop) then overlap_count n' (i + 1) start stop (overlapCount + 1)
      else ret overlapCount
  end.

(** One range overlaps. *)
Definition clear_one (at_ start stop : Z) (modify : bool) : M RangeSet Z :=
  let! range := range_at at_ in
  let f := range_from range in
  let t := range_to range in
  if (f <? start) && (stop <? t) then
    (if modify then on_ranges (Insert (MkRange stop t) (at_ + 1)) ;;; set_range at_ (MkRange f start) else ret tt) ;;;
    ret (s64 (- (stop - start)))
  else if f <? start then
    (if modify then set_range at_ (MkRange f start) else ret tt) ;;; ret (s64 (- (t - start)))
  else if stop <? t then
    (if modify then set_range at_ (MkRange stop t) else ret tt) ;;; ret (s64 (- (stop - f)))
  else
    (if modify then on_ranges (Delete at_) else ret tt) ;;; ret (s64 (- (t - f))).

(** Several do: shorten the first and the last, and remove those between. *)
Definition clear_many (overlapStart overlapCount start stop : Z) (modify : bool) : M RangeSet Z :=
  let! leftRange := range_at overlapStart in
  let! rightRange := range_at (overlapStart + overlapCount - 1) in
  let cut_left := range_from leftRange <? start in
  let cut_right := stop <? range_to rightRange in
  (if cut_left && modify then set_range overlapStart (MkRange (range_from leftRange) start) else ret tt) ;;;
  (if cut_right && modify then set_range (overlapStart + overlapCount - 1) (MkRange stop (range_to rightRange)) else ret tt) ;;;
  let delta := s64 (- (if cut_left then range_to leftRange - start else 0) - (if cut_right then stop - range_from rightRange else 0)) in
  let first := if cut_left then overlapStart + 1 else overlapStart in
  let count := overlapCount - (if cut_left then 1 else 0) - (if cut_right then 1 else 0) in
  let! between := sum_ranges (Z.to_nat count) first 0 in
  (if modify then on_ranges (_ArrayDelete first count) else ret tt) ;;;
  ret (s64 (delta - between)).

Definition clear_ranges (length start stop : Z) (modify : bool) : M RangeSet Z :=
  let! first := range_at 0 in
  let! last := range_at (length - 1) in
  if (stop <=? range_from first) || (range_to last <=? start) then ret 0
  else if (start <=? range_from first) && (range_to last <=? stop) then
    let! total := sum_ranges (Z.to_nat length) 0 0 in
    (if modify then on_ranges _ArrayFree else ret tt) ;;;
    ret (s64 (- total))
  else
    let! (overlapStart, overlapCount) := overlap_start (Z.to_nat length) 0 length start stop in
    let! overlapCount := overlap_count (Z.to_nat (length - (overlapStart + 1))) (overlapStart + 1) start stop overlapCount in
    let! delta :=
      if overlapCount =? 1 then clear_one overlapStart start stop modify
      else if 1 <? overlapCount then clear_many overlapStart overlapCount start stop modify
      else ret 0 in
    RangeSetValidate ;;;
    ret delta.

Definition RangeSetClear (start stop : Z) (modify : bool) : M RangeSet Z :=
  if stop <=? start then Prelude.stop FatalError
  else
    let! length := count_ranges in
    let! c := get_contiguous in
    if (length =? 0) && (c <=? start) then ret 0
    else if (length =? 0) && (c <=? stop) then
      (if modify then set_contiguous start else ret tt) ;;; ret (s64 (start - c))
    else if (length =? 0) && negb modify then ret (s64 (start - stop))
    else
      (if length =? 0 then RangeSetNormalize else ret tt) ;;;
      let! length := count_ranges in
      if length =? 0 then on_ranges _ArrayFree ;;; ret 0
      else clear_ranges length start stop modify.
End RangeSet.
