(* ===== verification/SharedRangeSetProofs.v ===== *)
(** * The set a [RangeSet] stands for (shared/range_set.cpp)

    [Set] and [Clear] against union and difference of sets of numbers, with [Find] as a
    search and [delta] as the change of the size, and where the representation by
    [contiguous] goes wrong. *)

From stdpp Require Import base list sorting sets.
From S2P Require Import Prelude SharedArray SharedRangeSet.

(** ** Lists of ranges *)

Definition before (a b : Range) : Prop := range_to a < range_from b.
Definition range_ok (r : Range) : Prop := 0 <= range_from r < range_to r /\ range_to r < 2 ^ 64.

(** Sorted, neither empty nor touching, and inside 64 bits. *)
Definition valid (l : list Range) : Prop := StronglySorted before l /\ Forall range_ok l.

(** The numbers in the ranges, and how many they are. *)
Definition covers (l : list Range) (z : Z) : Prop := exists r, r ∈ l /\ range_from r <= z < range_to r.
Fixpoint total (l : list Range) : Z :=
  match l with [] => 0 | r :: l' => range_to r - range_from r + total l' end.

Lemma total_app l1 l2 : total (l1 ++ l2) = total l1 + total l2.
Proof. induction l1 as [|r l1 IH]; cbn; [done|]. rewrite IH. lia. Qed.

Lemma valid_app l1 l2 : valid (l1 ++ l2) <-> (forall a b, a ∈ l1 -> b ∈ l2 -> before a b) /\ valid l1 /\ valid l2.
Proof. unfold valid. rewrite StronglySorted_app, Forall_app. tauto. Qed.
Lemma valid_cons r l : valid (r :: l) <-> range_ok r /\ (forall b, b ∈ l -> before r b) /\ valid l.
Proof. unfold valid. rewrite StronglySorted_cons, !list.Forall_cons, !list.Forall_forall. tauto. Qed.

Lemma valid_elem l r : valid l -> r ∈ l -> range_ok r.
Proof. intros [_ H]. rewrite list.Forall_forall in H. auto. Qed.

(** Two ranges of a valid list. *)
Lemma valid_pair l i j a b : valid l -> l !! i = Some a -> l !! j = Some b -> (i < j)%nat -> before a b.
Proof.
  intros H Ha Hb Hl. rewrite <- (take_drop j l) in H. apply valid_app in H as [H _]. apply H.
  - apply elem_of_take. by exists i.
  - apply list_elem_of_lookup. exists 0%nat. rewrite lookup_drop. by rewrite Nat.add_0_r.
Qed.
Lemma valid_trichotomy l a b : valid l -> a ∈ l -> b ∈ l -> a = b \/ before a b \/ before b a.
Proof.
  intros H [i Hi]%list_elem_of_lookup [j Hj]%list_elem_of_lookup.
  destruct (lt_eq_lt_dec i j) as [[Hl| ->]|Hl]; [right; left|left; congruence|right; right]; by eapply valid_pair.
Qed.

Lemma covers_app l1 l2 z : covers (l1 ++ l2) z <-> covers l1 z \/ covers l2 z.
Proof. unfold covers. setoid_rewrite elem_of_app. naive_solver. Qed.
Lemma covers_cons r l z : covers (r :: l) z <-> range_from r <= z < range_to r \/ covers l z.
Proof. unfold covers. setoid_rewrite elem_of_cons. naive_solver. Qed.
Lemma covers_nil z : ~ covers [] z.
Proof. intros (r & Hr & _). by apply elem_of_nil in Hr. Qed.

(** The longest prefix whose elements have a property. *)
Fixpoint count_while {A} (p : A -> bool) (l : list A) : nat :=
  match l with [] => 0 | x :: l' => if p x then S (count_while p l') else 0 end.

Lemma count_while_le {A} (p : A -> bool) l : (count_while p l <= length l)%nat.
Proof. induction l as [|x l IH]; cbn; [lia|]. destruct (p x); lia. Qed.
Lemma count_while_take {A} (p : A -> bool) l : Forall (fun x => p x = true) (take (count_while p l) l).
Proof. induction l as [|x l IH]; cbn; [done|]. destruct (p x) eqn:E; cbn; by constructor. Qed.
Lemma count_while_drop {A} (p : A -> bool) l x l' : drop (count_while p l) l = x :: l' -> p x = false.
Proof. induction l as [|y l IH]; cbn; [done|]. destruct (p y) eqn:E; cbn; [auto|]. intros. congruence. Qed.
Lemma count_while_app {A} (p : A -> bool) l1 l2 : Forall (fun x => p x = true) l1 ->
  count_while p (l1 ++ l2) = (length l1 + count_while p l2)%nat.
Proof. induction 1 as [|x l Hx Hl IH]; cbn; [done|]. by rewrite Hx, IH. Qed.

(** ** Inserting a range into a list *)

Section Insertion.
Context (l : list Range) (Hl : valid l) (x y : Z) (Hxy : 0 <= x < y) (Hy : y < 2 ^ 64).

(** [v] is the start of the range at [x], or [x] where there is none; and the end at [y]. *)
Definition starts_at (v : Z) : Prop :=
  (exists r, r ∈ l /\ hits true x r = true /\ v = range_from r) \/ ((forall r, r ∈ l -> hits true x r = false) /\ v = x).
Definition stops_at (v : Z) : Prop :=
  (exists r, r ∈ l /\ hits true y r = true /\ v = range_to r) \/ ((forall r, r ∈ l -> hits true y r = false) /\ v = y).

Context (nf nt : Z) (Hf : starts_at nf) (Ht : stops_at nt).

Lemma hits_touching z r : hits true z r = true <-> range_from r <= z <= range_to r.
Proof.
  unfold hits. rewrite andb_true_iff, orb_true_iff, Z.leb_le, Z.ltb_lt. cbn [andb]. rewrite Z.leb_le. lia.
Qed.
Lemma misses_touching z r : hits true z r = false -> range_from r < range_to r -> z < range_from r \/ range_to r < z.
Proof. intros E Hr. destruct (decide (range_from r <= z <= range_to r)) as [Hz%hits_touching|]; [congruence|lia]. Qed.

Lemma new_range_bounds : 0 <= nf <= x /\ y <= nt < 2 ^ 64.
Proof.
  split.
  - destruct Hf as [(r & Hr & Hh%hits_touching & ->)|[_ ->]]; [|lia]. apply (valid_elem _ _ Hl) in Hr as [? ?]. lia.
  - destruct Ht as [(r & Hr & Hh%hits_touching & ->)|[_ ->]]; [|lia]. apply (valid_elem _ _ Hl) in Hr as [? ?]. lia.
Qed.

(** Every range is before the new one, inside it or behind it. *)
Lemma new_range_cases r : r ∈ l -> range_to r < nf \/ (nf <= range_from r /\ range_to r <= nt) \/ nt < range_from r.
Proof.
  intros Hr. pose proof (valid_elem _ _ Hl Hr) as [? ?].
  assert (range_to r < nf \/ nf <= range_from r) as Ha.
  { destruct Hf as [(r0 & Hr0 & _ & ->)|[Hno ->]].
    - destruct (valid_trichotomy _ _ _ Hl Hr Hr0) as [->|[Hb|Hb]]; [lia|left; exact Hb|right].
      apply (valid_elem _ _ Hl) in Hr0 as [? ?]. unfold before in Hb. lia.
    - destruct (misses_touching x r (Hno r Hr)); lia. }
  assert (range_to r <= nt \/ nt < range_from r) as Hb.
  { destruct Ht as [(r0 & Hr0 & _ & ->)|[Hno ->]].
    - destruct (valid_trichotomy _ _ _ Hl Hr Hr0) as [->|[Hb|Hb]]; [lia|left|right; exact Hb].
      apply (valid_elem _ _ Hl) in Hr0 as [? ?]. unfold before in Hb. lia.
    - destruct (misses_touching y r (Hno r Hr)); lia. }
  lia.
Qed.

Lemma overlaps_inside r : r ∈ l -> overlaps (MkRange nf nt) r = true <-> nf <= range_from r /\ range_to r <= nt.
Proof.
  intros Hr. pose proof (valid_elem _ _ Hl Hr) as [? ?]. pose proof new_range_bounds. destruct (new_range_cases r Hr);
    unfold overlaps; rewrite orb_true_iff, !andb_true_iff, !Z.leb_le; cbn; lia.
Qed.

Definition ahead : nat := count_while (fun r => range_to r <=? nf) l.
Definition inside : nat := count_while (overlaps (MkRange nf nt)) (drop ahead l).
Definition inserted : list Range := take ahead l ++ MkRange nf nt :: drop inside (drop ahead l).

Lemma ahead_before r : r ∈ take ahead l -> range_to r < nf.
Proof.
  intros Hr. pose proof (count_while_take (fun r => range_to r <=? nf) l) as Hw. rewrite list.Forall_forall in Hw.
  specialize (Hw r Hr). cbn beta in Hw. assert (Hrl : r ∈ l) by (apply elem_of_take in Hr as (i & Hi & _); by eapply list_elem_of_lookup_2).
  pose proof (valid_elem _ _ Hl Hrl) as [? ?]. pose proof new_range_bounds. destruct (new_range_cases r Hrl); lia.
Qed.

(** What follows the head of a valid list starts behind it. *)
Lemma behind_head (q : list Range) v r0 : valid q -> head q = Some r0 -> v <= range_from r0 -> forall r, r ∈ q -> v <= range_from r.
Proof.
  destruct q as [|a q]; [done|]. intros (Ha & Hb & _)%valid_cons [= ->] Hv r [->|Hr]%elem_of_cons; [done|].
  specialize (Hb r Hr). unfold before, range_ok in *. lia.
Qed.
Lemma behind_ahead r : r ∈ drop ahead l -> nf <= range_from r.
Proof.
  intros Hr. assert (Hv : valid (drop ahead l)) by (rewrite <- (take_drop ahead l) in Hl; by apply valid_app in Hl as (_ & _ & ?)).
  destruct (drop ahead l) as [|r0 q] eqn:E; [by apply elem_of_nil in Hr|].
  apply (behind_head _ _ r0 Hv eq_refl); [|done]. pose proof (count_while_drop _ _ _ _ E) as Hn. cbn beta in Hn.
  assert (Hrl : r0 ∈ l) by (rewrite <- (take_drop ahead l), E; set_solver).
  pose proof (valid_elem _ _ Hl Hrl) as [? ?]. pose proof new_range_bounds. destruct (new_range_cases r0 Hrl); lia.
Qed.
Lemma behind_inside r : r ∈ drop inside (drop ahead l) -> nt < range_from r.
Proof.
  intros Hr. assert (Hv : valid (drop inside (drop ahead l))).
  { rewrite <- (take_drop ahead l) in Hl. apply valid_app in Hl as (_ & _ & Hv). rewrite <- (take_drop inside (drop ahead l)) in Hv.
    by apply valid_app in Hv as (_ & _ & ?). }
  destruct (drop inside (drop ahead l)) as [|r0 q] eqn:E; [by apply elem_of_nil in Hr|].
  enough (nt + 1 <= range_from r) by lia.
  apply (behind_head _ _ r0 Hv eq_refl); [|done]. pose proof (count_while_drop _ _ _ _ E) as Hn.
  assert (Hr0 : r0 ∈ drop ahead l) by (rewrite <- (take_drop inside (drop ahead l)), E; set_solver).
  assert (Hrl : r0 ∈ l) by (rewrite <- (take_drop ahead l); set_solver).
  pose proof (behind_ahead r0 Hr0). pose proof (valid_elem _ _ Hl Hrl) as [? ?].
  destruct (new_range_cases r0 Hrl) as [|[Hi|]]; [lia| |lia]. apply (overlaps_inside r0 Hrl) in Hi. congruence.
Qed.

Lemma inserted_split : l = take ahead l ++ take inside (drop ahead l) ++ drop inside (drop ahead l).
Proof. by rewrite (take_drop inside), take_drop. Qed.

Lemma inserted_valid : valid inserted.
Proof.
  pose proof new_range_bounds. pose proof Hl as Hv. rewrite inserted_split in Hv. apply valid_app in Hv as (_ & H1 & (_ & _ & H2)%valid_app).
  apply valid_app. split; [|split; [done|]].
  - intros a b Ha%ahead_before [->|Hb]%elem_of_cons; unfold before; cbn; [done|]. apply behind_inside in Hb. lia.
  - apply valid_cons. split; [unfold range_ok; cbn; lia|]. split; [|done]. intros b Hb%behind_inside. unfold before. cbn. lia.
Qed.

Lemma inserted_total : total inserted = total l + (nt - nf) - total (take inside (drop ahead l)).
Proof. rewrite inserted_split at 1. unfold inserted. rewrite !total_app. cbn. lia. Qed.

Lemma inserted_some : inserted <> [].
Proof. unfold inserted. by destruct (take _ _). Qed.

Lemma inserted_covers z : covers inserted z <-> covers l z \/ x <= z < y.
Proof.
  pose proof new_range_bounds. unfold inserted. rewrite covers_app, covers_cons. cbn.
  assert (Hs : covers l z <-> covers (take ahead l) z \/ covers (take inside (drop ahead l)) z \/ covers (drop inside (drop ahead l)) z)
    by (rewrite inserted_split at 1; by rewrite !covers_app).
  rewrite Hs. split.
  - intros [?|[Hz|?]]; [tauto| |tauto]. destruct (Z.lt_ge_cases z x) as [Hx|Hx]; [|destruct (Z.lt_ge_cases z y) as [|Hy']; [tauto|]].
    + left. apply Hs. destruct Hf as [(r & Hr & Hh%hits_touching & ->)|[_ ->]]; [|lia]. exists r. split; [done|lia].
    + left. apply Hs. destruct Ht as [(r & Hr & Hh%hits_touching & ->)|[_ ->]]; [|lia]. exists r. split; [done|lia].
  - intros [[?|[(r & Hr & Hz)|?]]|?]; [tauto| |tauto|right; left; lia]. right. left.
    assert (Hrd : r ∈ drop ahead l) by (apply elem_of_take in Hr as (i & Hi & _); by eapply list_elem_of_lookup_2).
    assert (Hrl : r ∈ l) by (rewrite <- (take_drop ahead l); set_solver).
    pose proof (count_while_take (overlaps (MkRange nf nt)) (drop ahead l)) as Hw. rewrite list.Forall_forall in Hw.
    specialize (Hw r Hr). apply (overlaps_inside r Hrl) in Hw. lia.
Qed.
End Insertion.

(** ** Removing a range from a list *)

Section Removal.
Context (x y : Z) (Hxy : 0 <= x < y).

(** What is left of a range. *)
Definition cut (r : Range) : list Range :=
  (if range_from r <? x then [MkRange (range_from r) (Z.min (range_to r) x)] else []) ++
  (if y <? range_to r then [MkRange (Z.max (range_from r) y) (range_to r)] else []).
Definition cleared (l : list Range) : list Range := l ≫= cut.

Lemma cleared_app l1 l2 : cleared (l1 ++ l2) = cleared l1 ++ cleared l2.
Proof. apply bind_app. Qed.
Lemma cleared_cons r l : cleared (r :: l) = cut r ++ cleared l.
Proof. done. Qed.

Lemma cut_apart r : range_from r < range_to r -> range_to r <= x \/ y <= range_from r -> cut r = [r].
Proof.
  intros Hr Hc. unfold cut. destruct r as [f t]. cbn in *. destruct (Z.ltb_spec f x), (Z.ltb_spec y t); cbn; try lia.
  - by rewrite Z.min_l by lia.
  - by rewrite Z.max_l by lia.
Qed.
Lemma cut_inside r : x <= range_from r -> range_to r <= y -> cut r = [].
Proof. intros H1 H2. unfold cut. by rewrite !(proj2 (Z.ltb_ge _ _)) by lia. Qed.

Lemma cleared_apart l : valid l -> (forall r, r ∈ l -> range_to r <= x \/ y <= range_from r) -> cleared l = l.
Proof.
  induction l as [|r l IH]; intros Hv Hl; [done|]. apply valid_cons in Hv as ([? ?] & _ & Hv). rewrite cleared_cons, IH.
  - by rewrite cut_apart by (lia || apply Hl; left).
  - done.
  - intros b Hb. apply Hl. by right.
Qed.
Lemma cleared_inside l : (forall r, r ∈ l -> x <= range_from r /\ range_to r <= y) -> cleared l = [].
Proof.
  induction l as [|r l IH]; intros Hl; [done|]. rewrite cleared_cons, IH by (intros b Hb; apply Hl; by right).
  destruct (Hl r ltac:(left)). by rewrite cut_inside.
Qed.

Lemma cut_within r a : range_ok r -> a ∈ cut r -> range_ok a /\ range_from r <= range_from a /\ range_to a <= range_to r.
Proof.
  unfold cut, range_ok. intros [? ?] [Ha|Ha]%elem_of_app; revert Ha; case_match; intros Ha;
    try (by apply elem_of_nil in Ha); apply list_elem_of_singleton in Ha as ->; cbn; lia.
Qed.
Lemma cut_valid r : range_ok r -> valid (cut r).
Proof.
  intros Hr. assert (Hw := fun a => cut_within r a Hr). unfold cut in *. destruct (range_from r <? x), (y <? range_to r); cbn in *;
    rewrite ?valid_cons; split_and?; try (apply Hw; set_solver); try (by split; constructor); intros b Hb; try (by apply elem_of_nil in Hb).
  apply list_elem_of_singleton in Hb as ->. unfold before. cbn. lia.
Qed.

Lemma cleared_within l a : valid l -> a ∈ cleared l -> exists r, r ∈ l /\ a ∈ cut r.
Proof. intros _ Ha. apply list_elem_of_bind in Ha as (r & ? & ?). by exists r. Qed.

Lemma cleared_valid l : valid l -> valid (cleared l).
Proof.
  induction l as [|r l IH]; intros Hv; [by split; constructor|]. pose proof Hv as (Hr & Hb & Hv')%valid_cons.
  rewrite cleared_cons. apply valid_app. split_and!; [|by apply cut_valid|by apply IH].
  intros a b Ha Hb'. apply (cut_within r a Hr) in Ha as (_ & _ & Ha). apply cleared_within in Hb' as (q & Hq & Hb'); [|done].
  apply (cut_within q b (valid_elem _ _ Hv' Hq)) in Hb' as (_ & Hb' & _). specialize (Hb q Hq). unfold before in *. lia.
Qed.

Lemma cut_covers r z : range_ok r -> covers (cut r) z <-> range_from r <= z < range_to r /\ ~ (x <= z < y).
Proof.
  intros [? ?]. unfold cut. rewrite covers_app. pose proof (covers_nil z).
  destruct (Z.ltb_spec (range_from r) x), (Z.ltb_spec y (range_to r)); rewrite ?covers_cons; cbn; intuition lia.
Qed.
Lemma cleared_covers l z : valid l -> covers (cleared l) z <-> covers l z /\ ~ (x <= z < y).
Proof.
  induction l as [|r l IH]; intros Hv; [pose proof (covers_nil z); tauto|]. apply valid_cons in Hv as (Hr & _ & Hv).
  rewrite cleared_cons, covers_app, covers_cons, cut_covers, IH by done. tauto.
Qed.
End Removal.

Section Proofs.
Context `{RangeHeap}.

(** ** The ranges in the array *)

Definition view (s : RangeSet) : list Range := items (ranges s).
Definition ready (s : RangeSet) : Prop := array_ok (ranges s).

Lemma count_ranges_at s : ready s -> count_ranges s = (Ok (Z.of_nat (length (view s))), s).
Proof. intros Hs. unfold count_ranges, on_ranges, Length, bind, get, ret. cbn. rewrite <- (length_items _ Hs). by destruct s. Qed.

Lemma range_at_spec s i r : ready s -> view s !! i = Some r -> range_at (Z.of_nat i) s = (Ok r, s).
Proof. intros Hs Hr. unfold range_at, on_ranges. rewrite (read_item_spec _ _ _ Hs Hr). by destruct s. Qed.

Lemma range_at_Z s i r : ready s -> 0 <= i -> view s !! Z.to_nat i = Some r -> range_at i s = (Ok r, s).
Proof. intros Hs Hi Hr. rewrite <- (Z2Nat.id i) by done. by apply range_at_spec. Qed.

Lemma hits_spec t z r : hits t z r = true <-> range_from r <= z /\ (z < range_to r \/ t = true /\ z = range_to r).
Proof.
  unfold hits. rewrite andb_true_iff, orb_true_iff, andb_true_iff, Z.leb_le, Z.ltb_lt, Z.leb_le. destruct t; intuition (try lia).
Qed.

(** The binary search: nothing outside of [low..high] hits. *)
Lemma find_between_spec s z t : ready s -> valid (view s) -> forall n low high,
  0 <= low <= high + 1 -> high < Z.of_nat (length (view s)) -> high - low + 1 < Z.of_nat n ->
  (forall i r, view s !! i = Some r -> hits t z r = true -> low <= Z.of_nat i <= high) ->
  exists o, find_between n z t low high s = (Ok o, s) /\
    match o with
    | Some i => exists j r, i = Z.of_nat j /\ view s !! j = Some r /\ hits t z r = true
    | None => forall r, r ∈ view s -> hits t z r = false
    end.
Proof.
  intros Hs Hv. induction n as [|n IH]; intros low high Hlow Hhigh Hn Hin; [lia|]. cbn [find_between].
  destruct (Z.ltb_spec high low).
  { exists None. split; [done|]. intros r [i Hi]%list_elem_of_lookup. destruct (hits t z r) eqn:E; [|done].
    specialize (Hin i r Hi E). lia. }
  set (i := low + (high - low) ÷ 2). assert (Hi : low <= i <= high).
  { unfold i. pose proof (Z.quot_pos (high - low) 2). pose proof (Z.quot_le_upper_bound (high - low) 2 (high - low)). lia. }
  destruct (lookup_lt_is_Some_2 (view s) (Z.to_nat i) ltac:(lia)) as [r Hr].
  unfold bind. rewrite (range_at_Z s i r) by (done || lia).
  destruct (hits t z r) eqn:E.
  { exists (Some i). split; [done|]. exists (Z.to_nat i), r. split_and!; [lia|done|done]. }
  assert (Hne : ~ hits t z r = true) by congruence. rewrite hits_spec in Hne.
  assert (Hr2 : range_ok r) by (eapply valid_elem; [done|by eapply list_elem_of_lookup_2]).
  destruct (Z.leb_spec (range_from r) z).
  - apply IH; [lia|lia|lia|]. intros j r' Hj E'. specialize (Hin j r' Hj E'). split; [|lia].
    destruct (Z.lt_ge_cases i (Z.of_nat j)); [lia|]. exfalso. apply hits_spec in E'.
    destruct (decide (j = Z.to_nat i)) as [->|Hji]; [simplify_eq; tauto|].
    assert (before r' r) by (eapply (valid_pair _ j (Z.to_nat i)); [done..|lia]). unfold before, range_ok in *. lia.
  - apply IH; [lia|lia|lia|]. intros j r' Hj E'. specialize (Hin j r' Hj E'). split; [lia|].
    destruct (Z.lt_ge_cases (Z.of_nat j) i); [lia|]. exfalso. apply hits_spec in E'.
    destruct (decide (j = Z.to_nat i)) as [->|Hji]; [simplify_eq; tauto|].
    assert (before r r') by (eapply (valid_pair _ (Z.to_nat i) j); [done..|lia]). unfold before, range_ok in *. lia.
Qed.

Lemma RangeSetFind_spec s z t : ready s -> valid (view s) ->
  exists o, RangeSetFind z t s = (Ok o, s) /\
    match o with
    | Some i => exists j r, i = Z.of_nat j /\ view s !! j = Some r /\ hits t z r = true
    | None => forall r, r ∈ view s -> hits t z r = false
    end.
Proof.
  intros Hs Hv. unfold RangeSetFind, bind. rewrite (count_ranges_at s Hs). destruct (Z.eqb_spec (Z.of_nat (length (view s))) 0).
  { exists None. split; [done|]. destruct (view s); [|done]. intros r Hr. by apply elem_of_nil in Hr. }
  apply find_between_spec; [done|done|lia|lia|lia|]. intros i r Hi%lookup_lt_Some _. lia.
Qed.

(** ** The loops *)

Lemma at_middle s l1 r l2 : ready s -> view s = l1 ++ r :: l2 -> range_at (Z.of_nat (length l1)) s = (Ok r, s).
Proof. intros Hs E. apply range_at_spec; [done|]. by rewrite E, lookup_app_r, Nat.sub_diag. Qed.

Lemma next_middle (s : RangeSet) l1 r l2 : view s = l1 ++ r :: l2 -> view s = (l1 ++ [r]) ++ l2.
Proof. by rewrite <- app_assoc. Qed.
Lemma next_index (l1 : list Range) r : Z.of_nat (length l1) + 1 = Z.of_nat (length (l1 ++ [r])).
Proof. rewrite length_app. cbn. lia. Qed.

Lemma insert_position_spec s v l2 : ready s -> forall l1, view s = l1 ++ l2 ->
  insert_position (length l2) (Z.of_nat (length l1)) v s =
  (Ok (Z.of_nat (length l1 + count_while (fun r => range_to r <=? v) l2)), s).
Proof.
  intros Hs. induction l2 as [|r l2 IH]; intros l1 E; cbn; [unfold ret; by rewrite Nat.add_0_r|].
  unfold bind. rewrite (at_middle _ _ _ _ Hs E). rewrite Z.leb_antisym.
  destruct (v <? range_to r); cbn; [by rewrite Nat.add_0_r|].
  rewrite (next_index l1 r), (IH _ (next_middle _ _ _ _ E)), length_app. cbn. do 2 f_equal. lia.
Qed.

Lemma count_overlaps_spec s new l2 : ready s -> forall l1 c d, view s = l1 ++ l2 -> is_uint 64 d ->
  let k := count_while (overlaps new) l2 in
  count_overlaps (length l2) (Z.of_nat (length l1)) new c d s =
  (Ok (c + Z.of_nat k, u64 (d + total (take k l2))), s).
Proof.
  intros Hs. induction l2 as [|r l2 IH]; intros l1 c d E Hd; cbn; [unfold ret; by rewrite !Z.add_0_r, u64_id|].
  unfold bind. rewrite (at_middle _ _ _ _ Hs E). destruct (overlaps new r); [|cbn; unfold ret; by rewrite !Z.add_0_r, u64_id].
  rewrite (next_index l1 r), (IH _ _ _ (next_middle _ _ _ _ E)) by apply u64_range. cbn.
  rewrite u64_add_l. do 3 f_equal; [lia|f_equal; lia].
Qed.

Lemma validate_spec s : ready s -> valid (view s) -> RangeSetValidate s = (Ok tt, s).
Proof.
  intros Hs Hv. unfold RangeSetValidate, bind. rewrite count_ranges_at, Nat2Z.id by done.
  assert (Hg : forall l2 l1 p, view s = l1 ++ l2 -> p = 0 \/ (exists r, r ∈ l1 /\ p = range_to r) ->
    validate_from (length l2) (Z.of_nat (length l1)) p s = (Ok tt, s)).
  { induction l2 as [|r l2 IH]; intros l1 p E Hp; [done|]. cbn. unfold bind. rewrite (at_middle _ _ _ _ Hs E).
    assert (Hr : range_ok r) by (apply (valid_elem (view s)); [done|]; rewrite E; set_solver).
    assert (Hc : negb (p =? 0) && (range_from r <=? p) = false).
    { destruct Hp as [->|(x & Hx & ->)]; [done|]. rewrite E in Hv. apply valid_app in Hv as [Hb _].
      specialize (Hb x r Hx ltac:(left)). unfold before in Hb. apply andb_false_iff. right. lia. }
    rewrite Hc. unfold range_ok in Hr. rewrite (proj2 (Z.leb_gt _ _)) by lia. rewrite (next_index l1 r).
    apply IH; [by apply next_middle|]. right. exists r. split; [set_solver|done]. }
  apply (Hg (view s) []); auto.
Qed.

Lemma s64_cong a b : u64 a = u64 b -> s64 a = s64 b.
Proof.
  unfold u64, s64, wrap, swrap. intros E. f_equal. rewrite Z.add_mod, (Z.add_mod b) by lia. by rewrite E.
Qed.

Lemma sum_ranges_spec s l2 : ready s -> forall l1 l3 t, view s = l1 ++ l2 ++ l3 -> t = s64 t ->
  sum_ranges (length l2) (Z.of_nat (length l1)) t s = (Ok (s64 (t + total l2)), s).
Proof.
  intros Hs. induction l2 as [|r l2 IH]; intros l1 l3 t E Ht; cbn; [unfold ret; by rewrite Z.add_0_r, <- Ht|].
  unfold bind. rewrite (at_middle _ _ _ _ Hs E), (next_index l1 r), (IH _ l3).
  - do 2 f_equal. apply s64_cong. rewrite <- (u64_add_l (s64 _)), u64_s64, u64_add_l. f_equal. lia.
  - by rewrite <- app_assoc.
  - symmetry. apply s64_cong. by rewrite u64_s64.
Qed.

Definition in_part (x y : Z) (r : Range) : bool := (x <? range_to r) && (range_from r <? y).

Lemma overlap_start_spec s x y n l2 : ready s -> forall l1, view s = l1 ++ l2 ->
  overlap_start (length l2) (Z.of_nat (length l1)) n x y s =
  (Ok (let k := count_while (fun r => negb (in_part x y r)) l2 in
       if (k =? length l2)%nat then (n, 0) else (Z.of_nat (length l1 + k), 1)), s).
Proof.
  intros Hs. induction l2 as [|r l2 IH]; intros l1 E; cbn; [done|].
  unfold bind. rewrite (at_middle _ _ _ _ Hs E). fold (in_part x y r).
  destruct (in_part x y r); cbn; [by rewrite Nat.add_0_r|].
  rewrite (next_index l1 r), (IH _ (next_middle _ _ _ _ E)), length_app. cbn.
  destruct (_ =? _)%nat; [done|]. do 3 f_equal. lia.
Qed.

Lemma overlap_count_spec s x y l2 : ready s -> forall l1 c, view s = l1 ++ l2 ->
  overlap_count (length l2) (Z.of_nat (length l1)) x y c s =
  (Ok (c + Z.of_nat (count_while (fun r => (x <=? range_to r) && (range_from r <? y)) l2)), s).
Proof.
  intros Hs. induction l2 as [|r l2 IH]; intros l1 c E; cbn; [unfold ret; by rewrite Z.add_0_r|].
  unfold bind. rewrite (at_middle _ _ _ _ Hs E). destruct (_ && _); [|cbn; unfold ret; by rewrite Z.add_0_r].
  rewrite (next_index l1 r), (IH _ _ (next_middle _ _ _ _ E)). do 2 f_equal. lia.
Qed.

(** ** [Set] *)

(** Operations of the array. *)
Lemma on_ranges_ok {A} (m : M (array Range) A) s o a : m (ranges s) = (o, a) -> on_ranges m s = (o, MkRangeSet a (contiguous s)).
Proof. intros E. unfold on_ranges. by rewrite E. Qed.

Lemma delete_at s (p c : nat) : ready s -> (p + c <= length (view s))%nat ->
  exists s', on_ranges (_ArrayDelete (Z.of_nat p) (Z.of_nat c)) s = (Ok tt, s') /\ ready s' /\
    contiguous s' = contiguous s /\ view s' = take p (view s) ++ drop (p + c) (view s).
Proof.
  intros Hs Hp. destruct (Delete_spec (ranges s) p c Hs Hp) as (a & E & Ha & _ & Ei).
  exists (MkRangeSet a (contiguous s)). split_and!; [by apply on_ranges_ok|done|done|done].
Qed.

(** What [Set] writes into the list: the list with the range, its size, or no memory. *)
Definition set_result (s : RangeSet) (x y : Z) (modify : bool) (r : outcome Z * RangeSet) : Prop :=
  match r with
  | (Ok d, s') => exists l', valid l' /\ (forall z, covers l' z <-> covers (view s) z \/ x <= z < y) /\
      d = s64 (total l' - total (view s)) /\ l' <> [] /\
      if modify then ready s' /\ contiguous s' = contiguous s /\ view s' = l' else s' = s
  | (RetFalse, s') => modify = true /\ ready s' /\ contiguous s' = contiguous s /\ view s' = view s
  | (Stop _, _) => False
  end.

(** From the insertion on, with the new range known. *)
Lemma insertion_spec s x y nf nt modify : ready s -> small (ranges s) -> valid (view s) -> 0 <= x < y -> y < 2 ^ 64 ->
  starts_at (view s) x nf -> stops_at (view s) y nt ->
  set_result s x y modify
    ((let! length := count_ranges in
      let! i := insert_position (Z.to_nat length) 0 nf in
      let! i := if modify then on_ranges (Insert (MkRange nf nt) i) ;;; ret (i + 1) else ret i in
      let! length := count_ranges in
      let! (deleteCount, deleteTotal) := count_overlaps (Z.to_nat (length - i)) i (MkRange nf nt) 0 0 in
      (if modify then on_ranges (_ArrayDelete i deleteCount) else ret tt) ;;;
      RangeSetValidate ;;;
      ret (s64 (nt - nf - deleteTotal))) s).
Proof.
  intros Hs Hm Hv Hxy Hy Hf Ht. pose proof (inserted_valid _ Hv x y Hxy Hy nf nt Hf Ht) as Hiv.
  pose proof (inserted_covers _ Hv x y Hxy Hy nf nt Hf Ht) as Hic.
  unfold bind at 1. rewrite (count_ranges_at s Hs), Nat2Z.id. unfold bind at 1.
  pose proof (insert_position_spec s nf (view s) Hs [] eq_refl) as Ep. cbn [length Nat.add] in Ep. change (Z.of_nat 0) with 0 in Ep. rewrite Ep. clear Ep.
  change (count_while _ (view s)) with (ahead (view s) nf). set (k := ahead (view s) nf). assert (Hk : (k <= length (view s))%nat) by apply count_while_le.
  set (c := inside (view s) nf nt). assert (Hc : (c <= length (drop k (view s)))%nat) by apply count_while_le.
  assert (Ed : s64 (nt - nf - u64 (0 + total (take c (drop k (view s))))) = s64 (total (inserted (view s) nf nt) - total (view s))).
  { apply s64_cong. rewrite inserted_total. unfold u64, wrap. rewrite Zminus_mod_idemp_r. f_equal. fold k c. lia. }
  destruct modify.
  - unfold bind at 1, bind at 1. pose proof (Insert_spec (ranges s) (MkRange nf nt) k Hs Hm ltac:(fold (view s); lia)) as Hins.
    unfold on_ranges at 1. destruct (Insert _ _ _) as [[v| |v] a]; [destruct Hins as [Ha Ei]| |done].
    2: { cbn. by destruct Hins. }
    cbn [ret]. set (s1 := MkRangeSet a (contiguous s)). assert (Hs1 : ready s1) by done.
    assert (Ev : view s1 = (take k (view s) ++ [MkRange nf nt]) ++ drop k (view s)) by (rewrite <- app_assoc; exact Ei).
    assert (Ek : Z.of_nat k + 1 = Z.of_nat (length (take k (view s) ++ [MkRange nf nt]))) by (rewrite length_app, length_take; cbn; lia).
    unfold bind at 1. rewrite (count_ranges_at s1 Hs1), Ek, Ev, length_app.
    replace (Z.to_nat (_ - _)) with (length (drop k (view s))) by lia.
    unfold bind at 1. rewrite (count_overlaps_spec s1 _ _ Hs1 _ _ _ Ev) by (unfold is_uint; lia).
    change (count_while _ (drop k (view s))) with c.
    destruct (delete_at s1 (length (take k (view s) ++ [MkRange nf nt])) c Hs1) as (s2 & E2 & Hs2 & Hc2 & Ev2).
    { rewrite Ev, !length_app. lia. }
    unfold bind at 1. rewrite Z.add_0_l, E2. rewrite Ev, take_app_length, drop_app_add in Ev2.
    assert (Ev3 : view s2 = inserted (view s) nf nt) by (rewrite Ev2, <- app_assoc; done).
    unfold bind. rewrite validate_spec by (done || by rewrite Ev3). cbn. exists (inserted (view s) nf nt).
    split_and!; [done|done| |apply inserted_some|done|done|done]. exact Ed.
  - unfold bind at 1, ret at 1. unfold bind at 1. rewrite (count_ranges_at s Hs).
    replace (Z.to_nat (_ - _)) with (length (drop k (view s))) by (rewrite length_drop; lia).
    assert (Ek : Z.of_nat k = Z.of_nat (length (take k (view s)))) by (rewrite length_take; lia). unfold bind at 1. rewrite Ek.
    rewrite (count_overlaps_spec s _ _ Hs (take k (view s))) by (rewrite ?take_drop; done || unfold is_uint; lia).
    change (count_while _ (drop k (view s))) with c.
    unfold bind, ret. rewrite validate_spec by done. cbn. exists (inserted (view s) nf nt).
    split_and!; [done|done| |apply inserted_some|done]. exact Ed.
Qed.

Lemma insert_range_spec s x y modify : ready s -> small (ranges s) -> valid (view s) -> 0 <= x < y -> y < 2 ^ 64 ->
  set_result s x y modify (insert_range x y modify s).
Proof.
  intros Hs Hm Hv Hxy Hy. unfold insert_range.
  destruct (RangeSetFind_spec s x true Hs Hv) as (o1 & E1 & H1), (RangeSetFind_spec s y true Hs Hv) as (o2 & E2 & H2).
  unfold bind at 1. rewrite E1. unfold bind at 1. rewrite E2. clear E1 E2.
  assert (Hf : exists nf, starts_at (view s) x nf /\
    match o1 with Some i => let! r := range_at i in ret (range_from r) | None => ret x end s = (Ok nf, s)).
  { destruct o1 as [i|]; [|exists x; split; [by right|done]]. destruct H1 as (j & r & -> & Hj & Hh).
    exists (range_from r). split; [left; exists r; split_and!; [by eapply list_elem_of_lookup_2|done|done]|].
    unfold bind. by rewrite (range_at_spec s j r). }
  assert (Ht : exists nt, stops_at (view s) y nt /\
    match o2 with Some i => let! r := range_at i in ret (range_to r) | None => ret y end s = (Ok nt, s)).
  { destruct o2 as [i|]; [|exists y; split; [by right|done]]. destruct H2 as (j & r & -> & Hj & Hh).
    exists (range_to r). split; [left; exists r; split_and!; [by eapply list_elem_of_lookup_2|done|done]|].
    unfold bind. by rewrite (range_at_spec s j r). }
  destruct Hf as (nf & Hf & Ef), Ht as (nt & Ht & Et).
  unfold bind at 1. rewrite Ef. unfold bind at 1. rewrite Et. by apply insertion_spec.
Qed.

(** ** The set *)

(** The numbers of a set, and how many they are. *)
Definition member (s : RangeSet) (z : Z) : Prop :=
  match view s with [] => 0 <= z < contiguous s | l => covers l z end.
Definition size (s : RangeSet) : Z :=
  match view s with [] => contiguous s | l => total l end.

(** The ranges are valid, and only one of the two representations is in use. *)
Record set_ok (s : RangeSet) : Prop := {
  ok_array : array_ok (ranges s);
  ok_ranges : valid (view s);
  ok_contiguous : 0 <= contiguous s < 2 ^ 64;
  ok_one : view s = [] \/ contiguous s = 0;
}.

Lemma member_ranges s z : view s <> [] -> member s z <-> covers (view s) z.
Proof. unfold member. by destruct (view s). Qed.
Lemma size_ranges s : view s <> [] -> size s = total (view s).
Proof. unfold size. by destruct (view s). Qed.

(** [t] is [s] with the numbers from [x] to [y]. *)
Definition adds (s : RangeSet) (x y : Z) (t : RangeSet) : Prop :=
  set_ok t /\ forall z, member t z <-> member s z \/ x <= z < y.

Lemma adds_inserted s x y l' a : set_ok s -> valid l' -> l' <> [] -> array_ok a -> items a = l' ->
  contiguous s = 0 \/ view s <> [] -> (forall z, covers l' z <-> covers (view s) z \/ x <= z < y) ->
  let t := MkRangeSet a 0 in adds s x y t /\ size t - size s = total l' - total (view s).
Proof.
  intros Hok Hv Hn Ha Ei Hc Hz t. assert (Et : view t = l') by done. split.
  - split; [split; cbn; [done|by rewrite Et|lia|by right]|]. intros z. rewrite (member_ranges t), Et, Hz by (by rewrite Et).
    unfold member. destruct (view s) eqn:E; [|done]. destruct Hc as [->|]; [|done].
    pose proof (covers_nil z). split; [intros [?|?]; [done|by right]|intros [?|?]; [lia|by right]].
  - rewrite (size_ranges t) by (by rewrite Et). rewrite Et. unfold size. destruct (view s) eqn:E; [|done].
    destruct Hc as [->|]; [|done]. cbn. lia.
Qed.

Lemma adds_contiguous s x y v : set_ok s -> view s = [] -> 0 <= x < y -> y < 2 ^ 64 -> x <= contiguous s ->
  v = Z.max (contiguous s) y -> adds s x y (MkRangeSet (ranges s) v).
Proof.
  intros Hok E Hxy Hy Hc ->. split.
  - split; cbn; [apply Hok|by apply (ok_ranges _ Hok)|destruct (ok_contiguous _ Hok); lia|left; exact E].
  - intros z. unfold member at 1. change (view (MkRangeSet _ _)) with (view s). unfold member. rewrite E. cbn. lia.
Qed.

(** What a call of [Set] promises. *)
Definition set_promise (s : RangeSet) (x y : Z) (modify : bool) (r : outcome Z * RangeSet) : Prop :=
  match r with
  | (Ok delta, s') => exists t, adds s x y t /\ delta = s64 (size t - size s) /\ s' = if modify then t else s
  | (RetFalse, s') => modify = true /\ set_ok s' /\ forall z, member s' z <-> member s z
  | (Stop _, _) => False
  end.

Definition array_of (l : list Range) : array Range := MkArray (Z.of_nat (length l)) l 0.
Lemma array_of_ok l : array_ok (array_of l).
Proof. unfold array_ok, allocated. cbn. lia. Qed.
Lemma items_array_of l : items (array_of l) = l.
Proof. unfold items. cbn. by rewrite Nat2Z.id, take_ge. Qed.

(** With ranges, or with nothing at all. *)
Lemma set_in_ranges s x y modify : set_ok s -> small (ranges s) -> 0 <= x < y -> y < 2 ^ 64 ->
  contiguous s = 0 -> set_promise s x y modify (insert_range x y modify s).
Proof.
  intros Hok Hm Hxy Hy H0. pose proof (ok_array _ Hok) as Hs.
  pose proof (insert_range_spec s x y modify Hs Hm (ok_ranges _ Hok) Hxy Hy) as Hins.
  destruct (insert_range x y modify s) as [[d| |r] s']; [|..|done].
  - destruct Hins as (l' & Hv' & Hz & -> & Hn & Hmod). destruct modify.
    + destruct Hmod as (Hs' & Hc' & Ev). destruct s' as [a c]. cbn in Hc'. rewrite H0 in Hc'. subst c.
      destruct (adds_inserted s x y l' a Hok Hv' Hn Hs' Ev (or_introl H0) Hz) as [Ha Es].
      exists (MkRangeSet a 0). by rewrite Es.
    + subst s'. destruct (adds_inserted s x y l' (array_of l') Hok Hv' Hn (array_of_ok l') (items_array_of l') (or_introl H0) Hz) as [Had Es].
      exists (MkRangeSet (array_of l') 0). by rewrite Es.
  - destruct Hins as (-> & Hs' & Hc' & Ev). split_and!; [done| |intros z; unfold member; by rewrite Ev, Hc'].
    split; rewrite ?Ev, ?Hc'; [done|apply Hok..].
Qed.

Lemma size_contiguous s v : view s = [] -> size (MkRangeSet (ranges s) v) = v.
Proof. intros E. unfold size. change (view (MkRangeSet _ _)) with (view s). by rewrite E. Qed.

(** A range behind all numbers of [contiguous]. *)
Lemma adds_apart s x y : set_ok s -> view s = [] -> 0 <= x < y -> y < 2 ^ 64 -> contiguous s < x ->
  exists t, adds s x y t /\ size t - size s = y - x.
Proof.
  intros Hok E Hxy Hy Hc. destruct (ok_contiguous _ Hok) as [H1 H2].
  set (l := (if contiguous s =? 0 then [] else [MkRange 0 (contiguous s)]) ++ [MkRange x y]).
  exists (MkRangeSet (array_of l) 0). assert (El : view (MkRangeSet (array_of l) 0) = l) by apply items_array_of.
  assert (Hn : l <> []) by (unfold l; by destruct (_ =? 0)). unfold adds.
  rewrite size_ranges, El by (by rewrite El). unfold size. rewrite E. split_and!.
  - split; cbn; [apply array_of_ok|rewrite El|lia|by right]. unfold l. destruct (Z.eqb_spec (contiguous s) 0); cbn.
    + apply valid_cons. split_and!; [unfold range_ok; cbn; lia|by intros b Hb%elem_of_nil|by split; constructor].
    + apply valid_cons. split_and!; [unfold range_ok; cbn; lia| |].
      * intros b ->%list_elem_of_singleton. unfold before. cbn. lia.
      * apply valid_cons. split_and!; [unfold range_ok; cbn; lia|by intros b Hb%elem_of_nil|by split; constructor].
  - intros z. rewrite member_ranges, El by (by rewrite El). unfold member. rewrite E. pose proof (covers_nil z).
    unfold l. destruct (Z.eqb_spec (contiguous s) 0); cbn; rewrite ?covers_cons; cbn; intuition lia.
  - unfold l. destruct (Z.eqb_spec (contiguous s) 0); cbn; lia.
Qed.

(** Below [contiguous], or without modifying. *)
Lemma set_contiguous_case s x y : set_ok s -> view s = [] -> 0 <= x < y -> y < 2 ^ 64 ->
  let c := contiguous s in
  exists t, adds s x y t /\
    s64 (if c <=? x then y - x else if c <=? y then y - c else 0) = s64 (size t - size s) /\
    (x <= c -> t = MkRangeSet (ranges s) (if c <? y then y else c)).
Proof.
  intros Hok E Hxy Hy c. destruct (Z.le_gt_cases x c) as [Hc|Hc].
  - exists (MkRangeSet (ranges s) (if c <? y then y else c)). split_and!; [| |done].
    + apply adds_contiguous; [done..|]. fold c. destruct (Z.ltb_spec c y); lia.
    + rewrite size_contiguous by done. unfold size. rewrite E. fold c. f_equal.
      destruct (Z.ltb_spec c y), (Z.leb_spec c x), (Z.leb_spec c y); lia.
  - destruct (adds_apart s x y Hok E Hxy Hy Hc) as (t & Ha & Es). exists t. split_and!; [done| |lia].
    rewrite Es, (proj2 (Z.leb_le _ _)) by lia. done.
Qed.

(** The total is the number of members. *)
Lemma total_counts l : valid l -> exists q, NoDup q /\ (forall z, z ∈ q <-> covers l z) /\ Z.of_nat (length q) = total l.
Proof.
  induction l as [|r l IH]; intros Hv.
  { exists []. split_and!; [constructor| |done]. intros z. pose proof (covers_nil z). by rewrite elem_of_nil. }
  apply valid_cons in Hv as ([? ?] & Hb & Hv). destruct (IH Hv) as (q & Hd & Hq & Hl).
  assert (Hr : forall z, z ∈ seqZ (range_from r) (range_to r - range_from r) <-> range_from r <= z < range_to r)
    by (intros z; rewrite elem_of_seqZ; lia).
  exists (seqZ (range_from r) (range_to r - range_from r) ++ q). split_and!.
  - apply list.NoDup_app. split_and!; [apply NoDup_seqZ| |done]. intros z Hz Hzq. apply Hr in Hz. apply Hq in Hzq as (b & Hb' & Hzb).
    specialize (Hb b Hb'). unfold before in Hb. lia.
  - intros z. by rewrite elem_of_app, covers_cons, Hr, Hq.
  - rewrite length_app, length_seqZ. cbn. lia.
Qed.

(** Where there are no ranges, [Normalize] ends with the set as it was. *)
Lemma normalize_contiguous d s : array_ok (ranges s) -> view s = [] -> 0 <= contiguous s -> normalize_with (set_at (S d)) s = (Ok tt, s).
Proof.
  intros Ha Ev Hc. unfold normalize_with, get_contiguous, bind at 1, bind at 1, get, ret at 1. destruct (Z.eqb_spec (contiguous s) 0); [done|].
  set (s0 := MkRangeSet (ranges s) 0). change ((set_contiguous 0 ;;; set_at (S d) 0 (contiguous s) true ;;; ret tt) s) with ((set_at (S d) 0 (contiguous s) true ;;; ret tt) s0).
  cbn [set_at]. unfold set_with. rewrite (proj2 (Z.leb_gt (contiguous s) 0)) by lia. unfold bind at 1 2. rewrite (count_ranges_at s0 Ha).
  change (view s0) with (view s). rewrite Ev. cbn. rewrite (proj2 (Z.ltb_lt 0 (contiguous s))) by lia. cbn. by destruct s.
Qed.

(** [Normalize] does not make a range of the contiguous numbers: [Set] behind them hides them. *)
Definition hides (s : RangeSet) (x : Z) (modify : bool) : bool := modify && bool_decide (view s = []) && (0 <? contiguous s) && (contiguous s <? x).

Lemma total_interval l x y : valid l -> x <= y -> (forall z, covers l z <-> x <= z < y) -> total l = y - x.
Proof.
  intros Hv Hxy Hz. destruct (total_counts l Hv) as (q & Hd & Hq & <-). assert (E : q ≡ₚ seqZ x (y - x)).
  { apply NoDup_Permutation; [done|apply NoDup_seqZ|]. intros z. rewrite Hq, Hz, elem_of_seqZ. lia. }
  rewrite E, length_seqZ. lia.
Qed.

(** The range alone, with the contiguous numbers still stored. *)
Lemma set_hiding s x y : set_ok s -> small (ranges s) -> 0 <= x < y -> y < 2 ^ 64 -> view s = [] ->
  match insert_range x y true s with
  | (Ok delta, s') => delta = s64 (y - x) /\ contiguous s' = contiguous s /\ valid (view s') /\ forall z, member s' z <-> x <= z < y
  | (RetFalse, s') => set_ok s' /\ forall z, member s' z <-> member s z
  | (Stop _, _) => False
  end.
Proof.
  intros Hok Hm Hxy Hy E. pose proof (insert_range_spec s x y true (ok_array _ Hok) Hm (ok_ranges _ Hok) Hxy Hy) as Hins.
  destruct (insert_range x y true s) as [[d| |r] s']; [|..|done].
  - destruct Hins as (l' & Hv & Hz & -> & Hn & Hs' & Hc & Ev). assert (Hcov : forall z, covers l' z <-> x <= z < y).
    { intros z. rewrite Hz, E. pose proof (covers_nil z). tauto. }
    split_and!; [|done|by rewrite Ev|intros z; rewrite member_ranges, Ev by (by rewrite Ev); apply Hcov].
    rewrite E, (total_interval l' x y) by (done || lia). cbn. by rewrite Z.sub_0_r.
  - destruct Hins as (_ & Hs' & Hc & Ev). split; [split; rewrite ?Ev, ?Hc; [done|apply Hok..]|]. intros z. unfold member. by rewrite Ev, Hc.
Qed.

(** C13. [Set]. On a set that uses one representation only, [Set(x, y)] makes the set that has the numbers from
    [x] to [y] as well; [delta] is the change of its size, also when nothing is to be modified.  The exception is a
    change of a set of contiguous numbers that end below [x] ([hides]): it makes the set that has the numbers from
    [x] to [y] only, while [contiguous] is as before.  When
    there is no memory [Set] returns false and the set is as before. No check of [Validate] or of
    the array fails. *)
Theorem RangeSetSet_correct s x y modify : set_ok s -> small (ranges s) -> 0 <= x < y -> y < 2 ^ 64 ->
  match RangeSetSet x y modify s with
  | (Ok delta, s') =>
      if hides s x modify then delta = s64 (y - x) /\ contiguous s' = contiguous s /\ valid (view s') /\ forall z, member s' z <-> x <= z < y
      else exists t, adds s x y t /\ delta = s64 (size t - size s) /\ s' = if modify then t else s
  | (RetFalse, s') => modify = true /\ set_ok s' /\ forall z, member s' z <-> member s z
  | (Stop _, _) => False
  end.
Proof.
  intros Hok Hm Hxy Hy. destruct (hides s x modify) eqn:Eh.
  - unfold hides in Eh. rewrite !andb_true_iff, bool_decide_eq_true in Eh. destruct Eh as [[[-> Ev] Hc0%Z.ltb_lt] Hcx%Z.ltb_lt].
    pose proof (set_hiding s x y Hok Hm Hxy Hy Ev) as Hh. replace (RangeSetSet x y true s) with (insert_range x y true s).
    { destruct (insert_range x y true s) as [[d| |r] s']; [done|by split|done]. }
    change (RangeSetSet x y true s) with (set_with (normalize_with (set_at 1)) x y true s). unfold set_with. rewrite (proj2 (Z.leb_gt y x)) by lia. unfold bind at 1. rewrite (count_ranges_at s (ok_array _ Hok)), Ev.
    cbn [length Z.of_nat Z.eqb negb]. unfold bind at 1, get_contiguous at 1, bind at 1, get, ret at 1. rewrite (proj2 (Z.leb_gt x (contiguous s))) by lia.
    change (negb (Z.of_nat 0 =? 0)) with false. cbv iota. unfold bind at 1. rewrite normalize_contiguous; [done|apply Hok|done|lia].
  - change (set_promise s x y modify (RangeSetSet x y modify s)).
    unfold RangeSetSet. cbn [set_at]. unfold set_with at 1. rewrite (proj2 (Z.leb_gt y x)) by lia.
    unfold bind at 1. rewrite (count_ranges_at s (ok_array _ Hok)). unfold bind at 1, get_contiguous at 1, bind at 1, get, ret at 1.
    destruct (Z.eqb_spec (Z.of_nat (length (view s))) 0) as [E|E]; cbn [negb].
    2: { apply set_in_ranges; [done..|]. by destruct (ok_one _ Hok) as [E'|]; [rewrite E' in E|]. }
    assert (Ev : view s = []) by (by destruct (view s)). clear E.
    destruct (set_contiguous_case s x y Hok Ev Hxy Hy) as (t & Ha & Ed & Et). destruct modify; cbn [negb]; [|exists t; by split_and!].
    destruct (Z.leb_spec x (contiguous s)) as [Hx|Hx].
    + specialize (Et Hx). unfold bind, set_contiguous, Prelude.modify, ret. destruct (contiguous s <? y); exists t; (split_and!; [done|exact Ed|]).
      * by subst t.
      * subst t. by destruct s.
    + unfold hides in Eh. rewrite bool_decide_true in Eh by done. cbn in Eh. assert (H0 : contiguous s = 0) by (destruct (ok_contiguous _ Hok); lia).
      unfold bind at 1, normalize_with, get_contiguous, bind at 1, bind at 1, get, ret at 1. rewrite H0. cbn [Z.eqb]. cbn. by apply set_in_ranges.
Qed.

(** ** [Clear] *)

(** [s'] holds the ranges [l] instead. *)
Definition holding (s : RangeSet) (l : list Range) (s' : RangeSet) : Prop :=
  ready s' /\ allocated (ranges s') = allocated (ranges s) /\ contiguous s' = contiguous s /\ view s' = l.

Lemma set_range_at s l1 r l2 v : ready s -> view s = l1 ++ r :: l2 ->
  exists s', set_range (Z.of_nat (length l1)) v s = (Ok tt, s') /\ holding s (l1 ++ v :: l2) s'.
Proof.
  intros Hs E. unfold set_range, on_ranges, write_item, bind, get, modify, holding, view, ready in *.
  pose proof (length_items _ Hs) as Hl. rewrite E, length_app in Hl. cbn in Hl. pose proof Hs as [H1 H2].
  rewrite (proj2 (Z.leb_le _ _)), (proj2 (Z.ltb_lt _ _)) by lia. cbn [andb]. eexists. split; [done|]. cbn.
  unfold array_ok, allocated, items in *. cbn. rewrite length_insert. split_and!; [lia|lia|done|done|].
  rewrite Nat2Z.id, take_insert_lt by lia. rewrite E. rewrite insert_app_r_alt, Nat.sub_diag by lia. done.
Qed.

(** The ranges that overlap the part to clear: none before, one or more, none behind. *)
Record overlapping (l : list Range) (x y : Z) (l1 m l2 : list Range) : Prop := {
  ov_split : l = l1 ++ m ++ l2;
  ov_before : forall r, r ∈ l1 -> range_to r <= x;
  ov_middle : forall r, r ∈ m -> x < range_to r /\ range_from r < y;
  ov_behind : forall r, r ∈ l2 -> y <= range_from r;
}.

Lemma overlapping_cleared l x y l1 m l2 : 0 <= x < y -> valid l -> overlapping l x y l1 m l2 -> cleared x y l = l1 ++ cleared x y m ++ l2.
Proof.
  intros Hxy Hv [-> H1 H2 H3]. apply valid_app in Hv as (_ & Hv1 & (_ & _ & Hv2)%valid_app). rewrite !cleared_app.
  rewrite (cleared_apart x y Hxy l1), (cleared_apart x y Hxy l2); auto.
Qed.

Definition clear_result (s : RangeSet) (l' : list Range) (modify : bool) (r : outcome Z * RangeSet) : Prop :=
  match r with
  | (Ok d, s') => d = s64 (total l' - total (view s)) /\
      if modify then ready s' /\ contiguous s' = contiguous s /\ view s' = l' else s' = s
  | (RetFalse, s') => modify = true /\ ready s' /\ contiguous s' = contiguous s /\ view s' = view s
  | (Stop _, _) => False
  end.

(** One of the cases of [clear_one] that writes at most one range. *)
Lemma clear_one_write s l1 r l2 v modify d : ready s -> view s = l1 ++ r :: l2 ->
  total [v] - total [r] = d ->
  clear_result s (l1 ++ v :: l2) modify
    (((if modify then set_range (Z.of_nat (length l1)) v else ret tt) ;;; ret (s64 d)) s).
Proof.
  intros Hs E Hd. assert (Et : s64 d = s64 (total (l1 ++ v :: l2) - total (view s))) by (rewrite E, !total_app; cbn in *; f_equal; lia).
  unfold bind. destruct modify; [|by split].
  destruct (set_range_at s l1 r l2 v Hs E) as (s' & -> & Hr & _ & Hc & Hv). by split_and!.
Qed.

(** Cutting a range in two. *)
Lemma clear_one_split s x y l1 r l2 modify : ready s -> small (ranges s) -> view s = l1 ++ r :: l2 ->
  clear_result s (l1 ++ MkRange (range_from r) x :: MkRange y (range_to r) :: l2) modify
    (((if modify then on_ranges (Insert (MkRange y (range_to r)) (Z.of_nat (length l1) + 1)) ;;;
         set_range (Z.of_nat (length l1)) (MkRange (range_from r) x) else ret tt) ;;; ret (s64 (- (y - x)))) s).
Proof.
  intros Hs Hm E. set (l' := l1 ++ _). assert (Et : s64 (- (y - x)) = s64 (total l' - total (view s)))
    by (rewrite E; unfold l'; rewrite !total_app; cbn; f_equal; lia).
  unfold bind at 1. destruct modify; [|by split]. unfold bind at 1, on_ranges at 1.
  replace (Z.of_nat (length l1) + 1) with (Z.of_nat (S (length l1))) by lia.
  pose proof (Insert_spec (ranges s) (MkRange y (range_to r)) (S (length l1)) Hs Hm) as Hins.
  destruct (Insert _ _ _) as [[v| |v] a].
  - destruct Hins as [Ha Ei]; [fold (view s); rewrite E, length_app; cbn; lia|].
    set (s1 := MkRangeSet a (contiguous s)). assert (E1 : view s1 = l1 ++ r :: MkRange y (range_to r) :: l2).
    { unfold view, s1. cbn. rewrite Ei. fold (view s). rewrite E. rewrite (cons_middle r), !app_assoc.
      replace (S (length l1)) with (length (l1 ++ [r])) by (rewrite length_app; cbn; lia).
      by rewrite take_app_length, drop_app_length, <- app_assoc. }
    destruct (set_range_at s1 l1 r _ (MkRange (range_from r) x) Ha E1) as (s' & -> & Hr & _ & Hc & Hv'). by split_and!.
  - destruct Hins as [Ha Ei]; [fold (view s); rewrite E, length_app; cbn; lia|]. by split_and!.
  - apply Hins. fold (view s). rewrite E, length_app. cbn. lia.
Qed.

Lemma clear_one_spec s x y l1 r l2 modify : ready s -> small (ranges s) -> valid (view s) -> 0 <= x < y ->
  overlapping (view s) x y l1 [r] l2 ->
  clear_result s (cleared x y (view s)) modify (clear_one (Z.of_nat (length l1)) x y modify s).
Proof.
  intros Hs Hm Hv Hxy Hov. rewrite (overlapping_cleared _ _ _ _ _ _ Hxy Hv Hov). destruct Hov as [E _ Hr _]. cbn [app] in E.
  specialize (Hr r ltac:(left)). assert (range_ok r) as [? ?] by (apply (valid_elem _ _ Hv); rewrite E; set_solver).
  rewrite cleared_cons. change (cleared x y []) with (@nil Range). rewrite app_nil_r.
  unfold clear_one. unfold bind at 1. rewrite (at_middle _ _ _ _ Hs E). unfold cut.
  destruct (Z.ltb_spec (range_from r) x), (Z.ltb_spec y (range_to r)); cbn [andb app].
  - rewrite Z.min_r, Z.max_r by lia. by apply clear_one_split.
  - rewrite Z.min_r by lia. eapply clear_one_write; [done..|cbn; lia].
  - rewrite Z.max_r by lia. eapply clear_one_write; [done..|cbn; lia].
  - unfold bind. assert (Et : s64 (- (range_to r - range_from r)) = s64 (total (l1 ++ l2) - total (view s)))
      by (rewrite E, !total_app; cbn; f_equal; lia).
    destruct modify; [|by split]. destruct (delete_at s (length l1) 1 Hs) as (s' & Ed & Hs' & Hc & Hv'); [rewrite E, length_app; cbn; lia|].
    unfold Delete. change 1 with (Z.of_nat 1). rewrite Ed. split_and!; [done|done|done|].
    rewrite Hv', E, take_app_length, drop_app_add. done.
Qed.

Lemma holding_refl s : ready s -> holding s (view s) s.
Proof. by intros Hs. Qed.

(** A write that may be left out. *)
Lemma write_if (b : bool) s l1 r l2 v : ready s -> view s = l1 ++ r :: l2 ->
  exists s', (if b then set_range (Z.of_nat (length l1)) v else ret tt) s = (Ok tt, s') /\
    holding s (l1 ++ (if b then v else r) :: l2) s' /\ (b = false -> s' = s).
Proof.
  intros Hs E. destruct b.
  - destruct (set_range_at s l1 r l2 v Hs E) as (s' & E' & Hh). by exists s'.
  - exists s. split_and!; [done| |done]. rewrite <- E. by apply holding_refl.
Qed.

(** Adding up and removing the ranges [d] between others. *)
Lemma remove_between s p d q delta modify : ready s -> view s = p ++ d ++ q ->
  exists s', (let! between := sum_ranges (Z.to_nat (Z.of_nat (length d))) (Z.of_nat (length p)) 0 in
      (if modify : bool then on_ranges (_ArrayDelete (Z.of_nat (length p)) (Z.of_nat (length d))) else ret tt) ;;;
      ret (s64 (delta - between))) s = (Ok (s64 (delta - total d)), s') /\
    if modify then ready s' /\ contiguous s' = contiguous s /\ view s' = p ++ q else s' = s.
Proof.
  intros Hs E. unfold bind at 1. rewrite Nat2Z.id, (sum_ranges_spec s d Hs p q) by done. rewrite Z.add_0_l.
  assert (Ed : s64 (delta - s64 (total d)) = s64 (delta - total d)).
  { apply s64_cong. unfold u64, wrap. rewrite <- (Zminus_mod_idemp_r _ (s64 _)), <- (Zminus_mod_idemp_r _ (total d)). do 2 f_equal. apply u64_s64. }
  unfold bind. destruct modify.
  - destruct (delete_at s (length p) (length d) Hs) as (s' & -> & Hs' & Hc & Hv'); [rewrite E, !length_app; lia|].
    exists s'. cbn. rewrite Ed. split_and!; [done|done|done|]. by rewrite Hv', E, take_app_length, drop_app_add, drop_app_length.
  - exists s. cbn. by rewrite Ed.
Qed.

Definition keep {A} (b : bool) (v : A) : list A := if b then [v] else [].

(** The parts of the first and the last range that stay. *)
Lemma cleared_many x y l1 r mid q l2 : 0 <= x < y -> valid (l1 ++ (r :: mid ++ [q]) ++ l2) ->
  (forall b, b ∈ r :: mid ++ [q] -> x < range_to b /\ range_from b < y) ->
  cleared x y (r :: mid ++ [q]) = keep (range_from r <? x) (MkRange (range_from r) x) ++ keep (y <? range_to q) (MkRange y (range_to q)).
Proof.
  intros Hxy Hv Hov. apply valid_app in Hv as (_ & _ & (_ & Hv & _)%valid_app).
  apply valid_cons in Hv as ([? ?] & Hb & (Hc & _ & ([? ?] & _)%valid_cons)%valid_app).
  pose proof (Hov r ltac:(left)). assert (Hq : x < range_to q /\ range_from q < y) by (apply Hov; set_solver).
  pose proof (Hb q ltac:(set_solver)) as Hrq. unfold before in Hrq.
  rewrite cleared_cons, cleared_app, (cleared_inside x y mid), cleared_cons.
  - change (cleared x y []) with (@nil Range). cbn [app]. rewrite app_nil_r. unfold cut, keep.
    rewrite (proj2 (Z.ltb_ge y (range_to r))), (proj2 (Z.ltb_ge (range_from q) x)), app_nil_r by lia. cbn [app].
    f_equal; [by rewrite Z.min_r by lia|]. by rewrite Z.max_r by lia.
  - intros b Hbm. pose proof (Hb b ltac:(set_solver)). pose proof (Hc b q Hbm ltac:(left)). unfold before in *. lia.
Qed.

Lemma clear_many_spec s x y l1 r mid q l2 modify : ready s -> valid (view s) -> 0 <= x < y ->
  overlapping (view s) x y l1 (r :: mid ++ [q]) l2 ->
  clear_result s (cleared x y (view s)) modify
    (clear_many (Z.of_nat (length l1)) (Z.of_nat (length mid + 2)) x y modify s).
Proof.
  intros Hs Hv Hxy Hov. rewrite (overlapping_cleared _ _ _ _ _ _ Hxy Hv Hov). destruct Hov as [E _ Hr _].
  rewrite (cleared_many x y l1 r mid q l2) by (done || by rewrite <- E). cbn [app] in E. rewrite <- (app_assoc mid) in E. cbn [app] in E.
  set (cl := range_from r <? x). set (cr := y <? range_to q).
  unfold clear_many. unfold bind at 1. rewrite (at_middle _ _ _ _ Hs E).
  assert (E' : view s = (l1 ++ r :: mid) ++ q :: l2) by (by rewrite <- app_assoc).
  replace (Z.of_nat (length l1) + Z.of_nat (length mid + 2) - 1) with (Z.of_nat (length (l1 ++ r :: mid))) by (rewrite length_app; cbn; lia).
  unfold bind at 1. rewrite (at_middle _ _ _ _ Hs E'). fold cl cr.
  destruct (write_if (cl && modify) s l1 r (mid ++ q :: l2) (MkRange (range_from r) x) Hs E) as (s1 & W1 & (Hs1 & _ & Hc1 & V1) & N1).
  unfold bind at 1. rewrite W1. set (r' := if cl && modify then _ else r) in *.
  assert (V1' : view s1 = (l1 ++ r' :: mid) ++ q :: l2) by (by rewrite V1, <- app_assoc).
  replace (length (l1 ++ r :: mid)) with (length (l1 ++ r' :: mid)) by (rewrite !length_app; done).
  destruct (write_if (cr && modify) s1 (l1 ++ r' :: mid) q l2 (MkRange y (range_to q)) Hs1 V1') as (s2 & W2 & (Hs2 & _ & Hc2 & V2) & N2).
  unfold bind at 1. rewrite W2. set (q' := if cr && modify then _ else q) in *.
  set (p := l1 ++ keep cl r'). set (d := keep (negb cl) r ++ mid ++ keep (negb cr) q).
  assert (V2' : view s2 = p ++ d ++ keep cr q' ++ l2).
  { rewrite V2. unfold p, d, r', q', keep. destruct cl, cr; cbn; rewrite <- ?app_assoc; cbn; rewrite <- ?app_assoc; done. }
  replace (if cl then Z.of_nat (length l1) + 1 else Z.of_nat (length l1)) with (Z.of_nat (length p))
    by (unfold p, keep; rewrite length_app; destruct cl; cbn; lia).
  replace (Z.of_nat (length mid + 2) - (if cl then 1 else 0) - (if cr then 1 else 0)) with (Z.of_nat (length d))
    by (unfold d, keep; rewrite !length_app; destruct cl, cr; cbn; lia).
  match goal with |- context [s64 (?a - ?b)] => destruct (remove_between s2 p d (keep cr q' ++ l2) (s64 (a - b)) modify Hs2 V2') as (s3 & -> & H3) end.
  split.
  - apply s64_cong. rewrite E, !total_app. cbn [total]. rewrite !total_app. cbn [total]. unfold d, p, keep.
    rewrite !total_app. unfold Z.sub at 1. rewrite <- u64_add_l, u64_s64, u64_add_l. f_equal.
    destruct cl, cr; cbn; lia.
  - destruct modify; [|subst s3; rewrite N2, N1; [done|by rewrite andb_false_r..]].
    destruct H3 as (Hs3 & Hc3 & V3). split_and!; [done|congruence|]. rewrite V3. unfold p, keep, r', q'. rewrite <- !app_assoc.
    destruct cl, cr; done.
Qed.

Lemma before_last q v g : valid (q ++ [g]) -> range_to g <= v -> forall r, r ∈ q ++ [g] -> range_to r <= v.
Proof.
  intros (Hb & _ & ([? ?] & _)%valid_cons)%valid_app Hg r [Hr| ->%list_elem_of_singleton]%elem_of_app; [|done].
  assert (before r g) by (apply Hb; [done|left]). unfold before in *. lia.
Qed.

Lemma in_part_spec x y r : in_part x y r = true <-> x < range_to r /\ range_from r < y.
Proof. unfold in_part. by rewrite andb_true_iff, !Z.ltb_lt. Qed.

(** The ranges that overlap are those from the first that does up to the first that starts too late. *)
Lemma overlapping_run l x y l1 r q : valid l -> l = l1 ++ r :: q -> in_part x y r = true ->
  (forall a, a ∈ l1 -> in_part x y a = false) ->
  let k := count_while (fun r => (x <=? range_to r) && (range_from r <? y)) q in
  overlapping l x y l1 (r :: take k q) (drop k q).
Proof.
  intros Hv El Hr%in_part_spec H1 k. subst l. apply valid_app in Hv as (Hb & Hv1 & ([? ?] & Hrq & Hq)%valid_cons).
  pose proof (count_while_take (fun r => (x <=? range_to r) && (range_from r <? y)) q) as Ht. fold k in Ht.
  rewrite list.Forall_forall in Ht. split.
  - cbn. by rewrite take_drop.
  - intros a Ha. specialize (Hb a r Ha ltac:(left)). unfold before in Hb. specialize (H1 a Ha).
    pose proof (valid_elem _ _ Hv1 Ha) as [? ?]. destruct (Z.le_gt_cases (range_to a) x); [done|].
    assert (in_part x y a = true) by (apply in_part_spec; lia). congruence.
  - intros a [->|Ha]%elem_of_cons; [done|]. pose proof (Ht a Ha) as Hc. cbn beta in Hc. apply andb_true_iff in Hc as [_ Hc].
    assert (Hq' : a ∈ q) by (apply elem_of_take in Ha as (i & Hi & _); by eapply list_elem_of_lookup_2).
    pose proof (valid_elem _ _ Hq Hq') as [? ?]. specialize (Hrq a Hq'). unfold before in *. lia.
  - intros a Ha. assert (Hd : valid (drop k q)) by (rewrite <- (take_drop k q) in Hq; by apply valid_app in Hq as (_ & _ & ?)).
    destruct (drop k q) as [|c q'] eqn:E; [by apply elem_of_nil in Ha|]. apply (behind_head _ y c Hd eq_refl); [|done].
    pose proof (count_while_drop _ _ _ _ E) as Hn. cbn beta in Hn.
    assert (Hc : c ∈ q) by (rewrite <- (take_drop k q), E; set_solver). pose proof (valid_elem _ _ Hq Hc) as [? ?].
    specialize (Hrq c Hc). unfold before in *. apply andb_false_iff in Hn as [Hn|Hn]; lia.
Qed.

Lemma overlap_search s x y : ready s -> valid (view s) ->
  exists n c0 c, overlap_start (length (view s)) 0 (Z.of_nat (length (view s))) x y s = (Ok (n, c0), s) /\
    overlap_count (Z.to_nat (Z.of_nat (length (view s)) - (n + 1))) (n + 1) x y c0 s = (Ok c, s) /\
    (c = 0 /\ (forall r, r ∈ view s -> range_to r <= x \/ y <= range_from r) \/
     exists l1 r m l2, overlapping (view s) x y l1 (r :: m) l2 /\ n = Z.of_nat (length l1) /\ c = Z.of_nat (S (length m))).
Proof.
  intros Hs Hv. pose proof (overlap_start_spec s x y (Z.of_nat (length (view s))) (view s) Hs [] eq_refl) as Ep.
  change (Z.of_nat (length [])) with 0 in Ep. rewrite Ep. clear Ep. cbv zeta. cbn [length Nat.add].
  set (k := count_while _ _). pose proof (count_while_take (fun r => negb (in_part x y r)) (view s)) as Ht. fold k in Ht.
  rewrite list.Forall_forall in Ht. assert (Hle : (k <= length (view s))%nat) by apply count_while_le.
  destruct (drop k (view s)) as [|r q] eqn:Ed.
  - assert (Hk : k = length (view s)) by (apply (f_equal length) in Ed; rewrite length_drop in Ed; cbn in Ed; lia).
    rewrite (proj2 (Nat.eqb_eq _ _) Hk). do 3 eexists. split; [done|].
    replace (Z.to_nat _) with 0%nat by lia. split; [done|]. left. split; [done|].
    intros r Hr. rewrite Hk, take_ge in Ht by lia. specialize (Ht r Hr). apply negb_true_iff in Ht.
    destruct (decide (x < range_to r /\ range_from r < y)) as [Hi%in_part_spec|]; [congruence|lia].
  - assert (Hk : (k < length (view s))%nat) by (apply (f_equal length) in Ed; rewrite length_drop in Ed; cbn in Ed; lia).
    rewrite (proj2 (Nat.eqb_neq _ _)) by lia. assert (E : view s = take k (view s) ++ r :: q) by (by rewrite <- Ed, take_drop).
    assert (Hl : length (take k (view s)) = k) by (rewrite length_take; lia).
    pose proof (count_while_drop _ _ _ _ Ed) as Hr. apply negb_false_iff in Hr.
    pose proof (overlapping_run _ x y _ r q Hv E Hr) as Hov. do 3 eexists. split; [done|]. split.
    + pose proof (overlap_count_spec s x y q Hs (take k (view s) ++ [r]) 1 ltac:(by rewrite <- app_assoc)) as Ec.
      rewrite length_app, Hl in Ec. cbn [length] in Ec. replace (Z.of_nat k + 1) with (Z.of_nat (k + 1)) by lia.
      replace (Z.to_nat _) with (length q) by (apply (f_equal length) in E; rewrite length_app, Hl in E; cbn in E; lia). exact Ec.
    + right. do 4 eexists. split_and!; [apply Hov|by rewrite Hl|].
      * intros a Ha. specialize (Ht a Ha). by apply negb_true_iff in Ht.
      * rewrite length_take, Nat.min_l by apply count_while_le. lia.
Qed.

Lemma clear_result_same s modify : ready s -> clear_result s (view s) modify (Ok 0, s).
Proof. intros Hs. split; [by rewrite Z.sub_diag|]. by destruct modify. Qed.

Lemma clear_overlaps s x y modify : ready s -> small (ranges s) -> valid (view s) -> 0 <= x < y ->
  clear_result s (cleared x y (view s)) modify
    ((let! (overlapStart, overlapCount) := overlap_start (length (view s)) 0 (Z.of_nat (length (view s))) x y in
      let! overlapCount := overlap_count (Z.to_nat (Z.of_nat (length (view s)) - (overlapStart + 1))) (overlapStart + 1) x y overlapCount in
      let! delta :=
        if overlapCount =? 1 then clear_one overlapStart x y modify
        else if 1 <? overlapCount then clear_many overlapStart overlapCount x y modify
        else ret 0 in
      RangeSetValidate ;;;
      ret delta) s).
Proof.
  intros Hs Hm Hv Hxy. destruct (overlap_search s x y Hs Hv) as (n & c0 & c & E1 & E2 & Hc).
  unfold bind at 1. rewrite E1. unfold bind at 1. rewrite E2.
  assert (Hres : clear_result s (cleared x y (view s)) modify
    ((if c =? 1 then clear_one n x y modify else if 1 <? c then clear_many n c x y modify else ret 0) s)).
  { destruct Hc as [[-> Hap]|(l1 & r & m & l2 & Hov & -> & ->)].
    - cbn. rewrite cleared_apart by done. by apply clear_result_same.
    - destruct m as [|q m _] using rev_ind; [by eapply clear_one_spec|].
      rewrite length_app. cbn [length]. rewrite (proj2 (Z.eqb_neq _ _)), (proj2 (Z.ltb_lt _ _)) by lia.
      replace (S (length m + 1)) with (length m + 2)%nat by lia. by eapply clear_many_spec. }
  unfold bind at 1. set (m := if c =? 1 then _ else _) in *. destruct (m s) as [[d| |r] s']; [|done..].
  destruct Hres as [-> Hmod]. pose proof (cleared_valid x y Hxy (view s) Hv) as Hcv.
  unfold bind. rewrite validate_spec; [by split|..]; destruct modify.
  - apply Hmod.
  - by subst.
  - destruct Hmod as (_ & _ & ->). done.
  - by subst.
Qed.

Lemma clear_ranges_spec s x y modify : ready s -> small (ranges s) -> valid (view s) -> view s <> [] -> 0 <= x < y ->
  clear_result s (cleared x y (view s)) modify (clear_ranges (Z.of_nat (length (view s))) x y modify s).
Proof.
  intros Hs Hm Hv Hn Hxy. unfold clear_ranges. destruct (view s) as [|f rest] eqn:Ef; [done|]. rewrite <- Ef in *.
  destruct (exists_last Hn) as (q & g & Eg).
  unfold bind at 1. change 0 with (Z.of_nat (@length Range [])) at 1. rewrite (at_middle s [] f rest Hs Ef).
  replace (Z.of_nat (length (view s)) - 1) with (Z.of_nat (length q)) by (rewrite Eg, length_app; cbn; lia).
  unfold bind at 1. rewrite (at_middle s q g [] Hs Eg).
  destruct ((y <=? range_from f) || (range_to g <=? x)) eqn:E1.
  { rewrite cleared_apart; [by apply clear_result_same|done|done|]. intros r Hr. apply orb_true_iff in E1 as [E1%Z.leb_le|E1%Z.leb_le].
    - right. rewrite Ef in Hv, Hr. by apply (behind_head _ _ f Hv).
    - left. rewrite Eg in Hv, Hr. by apply (before_last _ _ _ Hv). }
  destruct ((x <=? range_from f) && (range_to g <=? y)) eqn:E2.
  { apply andb_true_iff in E2 as [E2%Z.leb_le E3%Z.leb_le]. rewrite cleared_inside.
    2: { intros r Hr. split.
      - rewrite Ef in Hv, Hr. by apply (behind_head _ _ f Hv).
      - rewrite Eg in Hv, Hr. by apply (before_last _ _ _ Hv). }
    unfold bind at 1. pose proof (sum_ranges_spec s (view s) Hs [] [] 0 ltac:(by rewrite app_nil_r) eq_refl) as Es.
    change (Z.of_nat (length [])) with 0 in Es. rewrite Nat2Z.id, Es.
    assert (Ed : s64 (- s64 (0 + total (view s))) = s64 (total [] - total (view s))).
    { apply s64_cong. rewrite Z.add_0_l. cbn [total]. unfold u64, wrap. rewrite <- (Zminus_mod_idemp_r 0 (total _)), <- Z.sub_0_l.
      rewrite <- (Zminus_mod_idemp_r 0 (s64 _)). do 2 f_equal. apply u64_s64. }
    unfold bind. destruct modify; [|by split].
    destruct (Free_spec (ranges s) Hs) as (a & Ea & Ha & _ & Ei). rewrite (on_ranges_ok _ _ _ _ Ea). by split_and!. }
  rewrite Nat2Z.id. by apply clear_overlaps.
Qed.

(** [t] is [s] without the numbers from [x] to [y]. *)
Definition removes (s : RangeSet) (x y : Z) (t : RangeSet) : Prop :=
  set_ok t /\ forall z, member t z <-> member s z /\ ~ (x <= z < y).

Lemma member_zero s z : contiguous s = 0 -> member s z <-> covers (view s) z.
Proof. intros E. unfold member. destruct (view s); [|done]. rewrite E. pose proof (covers_nil z). split; [lia|done]. Qed.
Lemma size_zero s : contiguous s = 0 -> size s = total (view s).
Proof. intros E. unfold size. by destruct (view s). Qed.

Lemma removes_cleared s x y a : set_ok s -> 0 <= x < y -> contiguous s = 0 -> array_ok a -> items a = cleared x y (view s) ->
  let t := MkRangeSet a 0 in removes s x y t /\ size t - size s = total (cleared x y (view s)) - total (view s).
Proof.
  intros Hok Hxy H0 Ha Ei t. assert (Et : view t = cleared x y (view s)) by done. split; [split|].
  - split; cbn; [done|rewrite Et; apply cleared_valid; [done|apply Hok]|lia|by right].
  - intros z. rewrite !member_zero, Et by done. apply cleared_covers; [done|apply Hok].
  - by rewrite !size_zero, Et.
Qed.

Definition clear_promise (s : RangeSet) (x y : Z) (modify : bool) (r : outcome Z * RangeSet) : Prop :=
  match r with
  | (Ok delta, s') => exists t, removes s x y t /\ delta = s64 (size t - size s) /\ s' = if modify then t else s
  | (RetFalse, s') => modify = true /\ set_ok s' /\ forall z, member s' z <-> member s z
  | (Stop _, _) => False
  end.

Lemma clear_in_ranges s x y modify : set_ok s -> small (ranges s) -> 0 <= x < y -> contiguous s = 0 -> view s <> [] ->
  clear_promise s x y modify (clear_ranges (Z.of_nat (length (view s))) x y modify s).
Proof.
  intros Hok Hm Hxy Hc0 Hn. pose proof (ok_array _ Hok) as Hs.
  pose proof (clear_ranges_spec s x y modify Hs Hm (ok_ranges _ Hok) Hn Hxy) as Hr.
  destruct (clear_ranges _ x y modify s) as [[d| |r] s']; [|..|done].
  - destruct Hr as [-> Hmod]. destruct modify.
    + destruct Hmod as (Hs' & Hc' & Ev). destruct s' as [a c]. cbn in Hc'. rewrite Hc0 in Hc'. subst c.
      destruct (removes_cleared s x y a Hok Hxy Hc0 Hs' Ev) as [Ht Es]. exists (MkRangeSet a 0). by rewrite Es.
    + subst s'. set (l' := cleared x y (view s)).
      destruct (removes_cleared s x y (array_of l') Hok Hxy Hc0 (array_of_ok l') (items_array_of l')) as [Ht Es].
      exists (MkRangeSet (array_of l') 0). by rewrite Es.
  - destruct Hr as (-> & Hs' & Hc' & Ev). split_and!; [done| |intros z; unfold member; by rewrite Ev, Hc'].
    split; rewrite ?Ev, ?Hc'; [done|apply Hok..].
Qed.

(** Cutting the end off [contiguous]. *)
Lemma removes_contiguous s x y v : set_ok s -> view s = [] -> 0 <= x < y -> contiguous s <= y -> v = Z.min (contiguous s) x ->
  removes s x y (MkRangeSet (ranges s) v).
Proof.
  intros Hok E Hxy Hc ->. destruct (ok_contiguous _ Hok). split.
  - split; cbn; [apply Hok|apply (ok_ranges _ Hok)|lia|by left].
  - intros z. unfold member at 1. change (view (MkRangeSet _ _)) with (view s). unfold member. rewrite E. cbn. lia.
Qed.

(** A hole in [contiguous]. *)
Lemma removes_inside s x y : set_ok s -> view s = [] -> 0 <= x < y -> y < contiguous s ->
  exists t, removes s x y t /\ size t - size s = x - y.
Proof.
  intros Hok E Hxy Hc. destruct (ok_contiguous _ Hok) as [_ Hb].
  set (u := MkRangeSet (array_of [MkRange 0 (contiguous s)]) 0).
  assert (Eu : view u = [MkRange 0 (contiguous s)]) by apply items_array_of.
  assert (Hu : set_ok u).
  { split; [apply array_of_ok|rewrite Eu|cbn; lia|by right]. apply valid_cons.
    split_and!; [unfold range_ok; cbn; lia|by intros b Hb'%elem_of_nil|by split; constructor]. }
  destruct (removes_cleared u x y (array_of (cleared x y (view u))) Hu Hxy eq_refl (array_of_ok _) (items_array_of _)) as [[Hok' Hz] Es].
  eexists. split; [split; [exact Hok'|]|].
  - intros z. rewrite Hz, member_zero, Eu, covers_cons by done. pose proof (covers_nil z). unfold member. rewrite E. cbn. tauto.
  - rewrite (size_zero u), Eu in Es by done. unfold size at 2. rewrite E.
    assert (Ec : total (cleared x y [MkRange 0 (contiguous s)]) = x + (contiguous s - y)).
    { rewrite cleared_cons. change (cleared x y []) with (@nil Range). rewrite app_nil_r. unfold cut. cbn [range_from range_to].
      rewrite (proj2 (Z.ltb_lt y _)), total_app by lia. destruct (Z.ltb_spec 0 x); cbn [total range_from range_to]; lia. }
    rewrite Ec in Es. rewrite Eu. cbn [total range_from range_to] in Es. lia.
Qed.

(** A hole in contiguous numbers would need the ranges that [Normalize] does not make. *)
Definition ignored (s : RangeSet) (y : Z) (modify : bool) : bool := modify && bool_decide (view s = []) && (y <? contiguous s).

(** C14. [Clear]. On a set that uses one representation only, [Clear(x, y)] makes the set without the numbers from
    [x] to [y]; [delta] is the change of its size (negative, in a signed integer), also when nothing is
    to be modified.  The exception is a change of a set of contiguous numbers that go on behind [y] ([ignored]): the set has
    all its numbers afterwards, and [delta] is 0.  When there is no memory to cut a range in two [Clear] returns false and the set is as
    before. No check of [Validate] or of the array fails. *)
Theorem RangeSetClear_correct s x y modify : set_ok s -> small (ranges s) -> 0 <= x < y ->
  match RangeSetClear x y modify s with
  | (Ok delta, s') =>
      if ignored s y modify then delta = 0 /\ set_ok s' /\ forall z, member s' z <-> member s z
      else exists t, removes s x y t /\ delta = s64 (size t - size s) /\ s' = if modify then t else s
  | (RetFalse, s') => modify = true /\ set_ok s' /\ forall z, member s' z <-> member s z
  | (Stop _, _) => False
  end.
Proof.
  intros Hok Hm Hxy. pose proof (ok_array _ Hok) as Hs. destruct (ok_contiguous _ Hok) as [Hc1 Hc2]. destruct (ignored s y modify) eqn:Ei.
  { unfold ignored in Ei. rewrite !andb_true_iff, bool_decide_eq_true in Ei. destruct Ei as [[-> Ev] Hy%Z.ltb_lt].
    unfold RangeSetClear. rewrite (proj2 (Z.leb_gt y x)) by lia. unfold bind at 1. rewrite (count_ranges_at s Hs), Ev.
    change (Z.of_nat (length (@nil Range)) =? 0) with true. unfold bind at 1, get_contiguous at 1, bind at 1, get, ret at 1.
    rewrite (proj2 (Z.leb_gt (contiguous s) x)), (proj2 (Z.leb_gt (contiguous s) y)) by lia. cbn [andb negb].
    unfold bind at 1, RangeSetNormalize, RangeSetSet. rewrite normalize_contiguous by (done || lia).
    unfold bind at 1. rewrite (count_ranges_at s Hs), Ev. change (Z.of_nat (length (@nil Range)) =? 0) with true. cbv iota.
    unfold bind at 1, on_ranges. destruct (Free_spec (ranges s) Hs) as (a' & -> & Ha & _ & Ei). unfold ret.
    split_and!; [done|split; cbn; [done|unfold view; cbn; rewrite Ei; by split; constructor|done|left; exact Ei]|].
    intros z. unfold member, view in *. cbn. by rewrite Ei, Ev. }
  change (clear_promise s x y modify (RangeSetClear x y modify s)).
  unfold RangeSetClear. rewrite (proj2 (Z.leb_gt y x)) by lia. unfold bind at 1. rewrite (count_ranges_at s Hs).
  unfold bind at 1, get_contiguous at 1, bind at 1, get, ret at 1.
  destruct (Z.eqb_spec (Z.of_nat (length (view s))) 0) as [E|E]; cbn [andb].
  - assert (Ev : view s = []) by (by destruct (view s)). clear E.
    assert (Hsz : size s = contiguous s) by (unfold size; by rewrite Ev).
    destruct (Z.leb_spec (contiguous s) x) as [Hx|Hx].
    { exists s. pose proof (removes_contiguous s x y (contiguous s) Hok Ev Hxy ltac:(lia) ltac:(lia)) as Hr.
      split_and!; [by destruct s|by rewrite Z.sub_diag|by destruct modify]. }
    destruct (Z.leb_spec (contiguous s) y) as [Hy|Hy].
    { unfold bind, set_contiguous, Prelude.modify, ret. destruct modify; exists (MkRangeSet (ranges s) x);
        (split_and!; [apply removes_contiguous; (done || lia)|by rewrite size_contiguous, Hsz|done]). }
    destruct modify; cbn [negb andb]; [unfold ignored in Ei; rewrite bool_decide_true in Ei by done; cbn in Ei; lia|].
    destruct (removes_inside s x y Hok Ev Hxy Hy) as (t & Ht & Es). exists t. by rewrite Es.
  - assert (Hn : view s <> []) by (by destruct (view s)). unfold bind at 1, ret at 1. unfold bind at 1.
    rewrite (count_ranges_at s Hs), (proj2 (Z.eqb_neq _ _)) by done. apply clear_in_ranges; [done..| |done].
    by destruct (ok_one _ Hok).
Qed.

(** [Contains] decides membership, in either representation, and changes nothing: the binary
    search ends within as many steps as there are ranges and finds the range of a number when
    there is one. *)
Theorem RangeSetContains_correct s z : set_ok s -> 0 <= z ->
  exists b, RangeSetContains z s = (Ok b, s) /\ (b = true <-> member s z).
Proof.
  intros Hok Hz. pose proof (ok_array _ Hok) as Hs. unfold RangeSetContains. unfold bind at 1. rewrite (count_ranges_at s Hs).
  destruct (Z.eqb_spec (Z.of_nat (length (view s))) 0) as [E|E]; cbn [negb].
  { unfold member. destruct (view s); [|done]. exists (z <? contiguous s). split; [done|]. rewrite Z.ltb_lt. lia. }
  destruct (RangeSetFind_spec s z false Hs (ok_ranges _ Hok)) as (o & Eo & Ho). unfold bind. rewrite Eo.
  exists (bool_decide (is_Some o)). split; [done|]. rewrite bool_decide_eq_true, member_ranges by (by destruct (view s)). destruct o as [i|].
  - destruct Ho as (j & q & -> & Hj & [Hh1 Hh2]%hits_spec). split; [|done]. intros _. exists q.
    split; [by eapply list_elem_of_lookup_2|]. destruct Hh2 as [?|[? _]]; [lia|done].
  - split; [by intros []|]. intros (q & Hq & Hqz). specialize (Ho q Hq).
    assert (hits false z q = true) by (apply hits_spec; split; [|left]; lia). congruence.
Qed.

(** The size is the number of members. *)
Lemma size_counts s : set_ok s -> exists q, NoDup q /\ (forall z, z ∈ q <-> member s z) /\ Z.of_nat (length q) = size s.
Proof.
  intros Hok. destruct (ok_contiguous _ Hok). unfold member, size. pose proof (ok_ranges _ Hok) as Hv.
  destruct (view s); [|by apply total_counts]. exists (seqZ 0 (contiguous s)).
  split_and!; [apply NoDup_seqZ|intros z; rewrite elem_of_seqZ; lia|rewrite length_seqZ; lia].
Qed.
End Proofs.

(** ** Examples *)

#[local] Instance example_heap : RangeHeap := {| heap_grants := fun _ _ => true; stale_range := fun _ => MkRange 0 0 |}.
Definition empty_set : RangeSet := MkRangeSet (empty_array 0) 0.

Lemma empty_ok : set_ok empty_set.
Proof. split; [by split|by split; constructor|done|by left]. Qed.

(** The set with 2 to 5 and 7 to 9. *)
Definition two_ranges : RangeSet := MkRangeSet (array_of [MkRange 2 5; MkRange 7 9]) 0.
Lemma two_ok : set_ok two_ranges.
Proof.
  split; [by split| |done|by right]. change (view two_ranges) with [MkRange 2 5; MkRange 7 9]. rewrite !valid_cons.
  split_and!; [by split| |by split|by intros b Hb%elem_of_nil|by split; constructor].
  by intros b ->%list_elem_of_singleton.
Qed.

Lemma RangeSetSet_correct_witness :
  exists t, adds two_ranges 4 7 t /\ RangeSetSet 4 7 true two_ranges = (Ok (s64 (size t - size two_ranges)), t).
Proof.
  pose proof (RangeSetSet_correct two_ranges 4 7 true two_ok ltac:(reflexivity) ltac:(lia) ltac:(lia)) as H.
  destruct (RangeSetSet 4 7 true two_ranges) as [[d| |r] s'] eqn:E; [|vm_compute in E; discriminate..].
  destruct H as (t & Ht & -> & ->). exists t. split; [exact Ht|exact eq_refl].
Defined.

Lemma RangeSetClear_correct_witness :
  exists t, removes two_ranges 3 8 t /\ RangeSetClear 3 8 true two_ranges = (Ok (s64 (size t - size two_ranges)), t).
Proof.
  pose proof (RangeSetClear_correct two_ranges 3 8 true two_ok ltac:(reflexivity) ltac:(lia)) as H.
  destruct (RangeSetClear 3 8 true two_ranges) as [[d| |r] s'] eqn:E; [|vm_compute in E; discriminate..].
  destruct H as (t & Ht & -> & ->). exists t. split; [exact Ht|exact eq_refl].
Defined.

Lemma RangeSetContains_correct_witness : RangeSetContains 4 two_ranges = (Ok true, two_ranges) /\ member two_ranges 4.
Proof.
  destruct (RangeSetContains_correct two_ranges 4 two_ok ltac:(lia)) as (b & E & Hb). split; [reflexivity|].
  apply Hb. vm_compute in E. by injection E as <-.
Defined.

(** [Normalize] calls [Set], which stores the numbers in [contiguous] again, since it starts at 0: a range
    that is set behind [contiguous] replaces what was there. *)
Lemma set_forgets :
  (let! _ := RangeSetSet 0 5 true in let! _ := RangeSetSet 7 9 true in RangeSetContains 3) empty_set =
  (Ok false, MkRangeSet (MkArray 1 [MkRange 7 9; MkRange 0 0; MkRange 0 0; MkRange 0 0] 1) 5).
Proof. reflexivity. Qed.

(** For the same reason nothing is cleared inside [contiguous], and the reported change is 0. *)
Lemma clear_ignored :
  (let! _ := RangeSetSet 0 5 true in let! d := RangeSetClear 1 2 true in let! b := RangeSetContains 1 in ret (d, b)) empty_set =
  (Ok (0, true), MkRangeSet (empty_array 0) 5).
Proof. reflexivity. Qed.

(** What was forgotten comes back when the ranges are cleared. *)
Lemma clear_remembers :
  (let! _ := RangeSetSet 0 5 true in let! _ := RangeSetSet 7 9 true in let! _ := RangeSetClear 7 9 true in RangeSetContains 3) empty_set =
  (Ok true, MkRangeSet (empty_array 1) 5).
Proof. reflexivity. Qed.
