(* ===== verification/SharedHeap.v ===== *)
(** * The heap of kernel and desktop (shared/heap.cpp)

    [EsHeapAllocate], [EsHeapFree], [EsHeapReallocate] on the bytes they work on.  A block
    of 64 KiB from the system is a sequence of regions, each behind a header; headers of
    free regions are linked in the lists [EsHeap::regions], by size.  Memory is a byte for
    every address, with the array [regions] in it, since the lists hold pointers into it;
    an access outside of that array and of what the system has granted is [OutOfBounds].
    The mutex, the leak detector and printing are left out. *)

From stdpp Require Import base list.
From S2P Require Import Prelude.

(** ** Memory *)

Definition memory : Type := Z -> Z.

Definition load (n : nat) (m : memory) (a : Z) : Z := le_combine (map m (seqZ a (Z.of_nat n))).
Definition store_bytes (l : bytes) (m : memory) (a : Z) : memory :=
  fun x => if (a <=? x) && (x <? a + Z.of_nat (length l)) then nth (Z.to_nat (x - a)) l 0 else m x.
Definition store (n : nat) (v : Z) (m : memory) (a : Z) : memory := store_bytes (le_split n v) m a.
Definition fill (v n : Z) (m : memory) (a : Z) : memory :=
  fun x => if (a <=? x) && (x <? a + n) then v else m x.
Definition copy (n : Z) (m : memory) (dst src : Z) : memory :=
  fun x => if (dst <=? x) && (x <? dst + n) then m (x - dst + src) else m x.

(** ** State *)

(** Where the structure is, and the system, which answers the n-th request, given what it has granted so far,
    with an address, or 0 when it refuses. *)
Class HeapSystem := {
  heap_address : Z;              (** [&heap] *)
  regions_array : Z;             (** [heap.regions] *)
  DEBUG_BUILD : bool;
  reserve : nat -> list (Z * Z) -> Z -> Z;
}.

Record EsHeap := MkHeap {
  mem : memory;
  owned : list (Z * Z);          (** address and size of what the system has granted *)
  requests : nat;
  allocationsCount : Z;
  heap_size : Z;
  blockCount : Z;
  blocks : list Z;
  cannotValidate : bool;
}.

Definition set_mem (m : memory) (h : EsHeap) : EsHeap :=
  MkHeap m (owned h) (requests h) (allocationsCount h) (heap_size h) (blockCount h) (blocks h) (cannotValidate h).
Definition set_counts (count size : Z) (h : EsHeap) : EsHeap :=
  MkHeap (mem h) (owned h) (requests h) count size (blockCount h) (blocks h) (cannotValidate h).
Definition set_blocks (count : Z) (l : list Z) (cannot : bool) (h : EsHeap) : EsHeap :=
  MkHeap (mem h) (owned h) (requests h) (allocationsCount h) (heap_size h) count l cannot.

Section Heap.
Context `{HeapSystem}.

Definition inside (a n : Z) (r : Z * Z) : bool := (fst r <=? a) && (a + n <=? fst r + snd r).
Definition accessible (s : EsHeap) (a n : Z) : bool :=
  inside a n (regions_array, 96) || existsb (inside a n) (owned s).

Definition read_cell (n : nat) (a : Z) : M EsHeap Z :=
  let! s := get in if accessible s a (Z.of_nat n) then ret (load n (mem s) a) else stop OutOfBounds.
Definition write_cell (n : nat) (a v : Z) : M EsHeap unit :=
  let! s := get in
  if accessible s a (Z.of_nat n) then modify (set_mem (store n v (mem s) a)) else stop OutOfBounds.
Definition EsMemoryFill (a n v : Z) : M EsHeap unit :=
  let! s := get in
  if n =? 0 then ret tt else if accessible s a n then modify (set_mem (fill v n (mem s) a)) else stop OutOfBounds.
Definition EsMemoryZero (a n : Z) : M EsHeap unit := EsMemoryFill a n 0.
(** Source and destination do not overlap where it is called. *)
Definition EsMemoryCopy (dst src n : Z) : M EsHeap unit :=
  let! s := get in
  if n =? 0 then ret tt
  else if accessible s dst n && accessible s src n then modify (set_mem (copy n (mem s) dst src)) else stop OutOfBounds.

(** [HEAP_ALLOCATE_CALL]: new memory is zero.  [HEAP_FREE_CALL]: its argument is the start of granted memory. *)
Definition HEAP_ALLOCATE_CALL (n : Z) : M EsHeap Z :=
  let! s := get in
  let a := reserve (requests s) (owned s) n in
  modify (fun s => MkHeap (if a =? 0 then mem s else fill 0 n (mem s) a)
    (if a =? 0 then owned s else (a, n) :: owned s) (S (requests s))
    (allocationsCount s) (heap_size s) (blockCount s) (blocks s) (cannotValidate s)) ;;;
  ret a.
Definition HEAP_FREE_CALL (a : Z) : M EsHeap unit :=
  let! s := get in
  match list_find (fun r => fst r = a) (owned s) with
  | Some (i, _) => modify (fun s => MkHeap (mem s) (delete i (owned s)) (requests s)
      (allocationsCount s) (heap_size s) (blockCount s) (blocks s) (cannotValidate s))
  | None => stop FatalError
  end.

(** ** Regions *)

Inductive field :=
  | Size                         (** [next] and [size] *)
  | Previous
  | Offset
  | Used
  | AllocationSize               (** [allocationSize] and [regionListNext] *)
  | RegionListReference.

Definition field_offset (f : field) : Z :=
  match f with Size => 0 | Previous => 2 | Offset => 4 | Used => 6 | AllocationSize => 8 | RegionListReference => 16 end.
Definition field_bytes (f : field) : nat :=
  match f with Size | Previous | Offset | Used => 2 | AllocationSize | RegionListReference => 8 end.

Definition read_field (f : field) (r : Z) : M EsHeap Z := read_cell (field_bytes f) (r + field_offset f).
Definition write_field (f : field) (r v : Z) : M EsHeap unit := write_cell (field_bytes f) (r + field_offset f) v.

Definition LARGE_ALLOCATION_THRESHOLD : Z := 32768.
Definition USED_HEAP_REGION_MAGIC : Z := 43981.
Definition USED_HEAP_REGION_HEADER_SIZE : Z := 16.
Definition FREE_HEAP_REGION_HEADER_SIZE : Z := 24.

Definition HEAP_PANIC {A} : M EsHeap A := stop FatalError.

Definition HEAP_REGION_HEADER (a : Z) : Z := a - USED_HEAP_REGION_HEADER_SIZE.
Definition HEAP_REGION_DATA (r : Z) : Z := r + USED_HEAP_REGION_HEADER_SIZE.
Definition HEAP_REGION_NEXT (r : Z) : M EsHeap Z := let! next := read_field Size r in ret (r + next).
Definition HEAP_REGION_PREVIOUS (r : Z) : M EsHeap Z :=
  let! previous := read_field Previous r in ret (if previous =? 0 then 0 else r - previous).

(** [__builtin_clz] takes 32 bits and is undefined for 0. *)
Definition HeapCalculateIndex (size : Z) : Z := u64 (Z.log2 (u32 size) - 4).
(** [&heapRegions[index]], an array of 12 *)
Definition list_head (index : Z) : M EsHeap Z :=
  if (0 <=? index) && (index <? 12) then ret (regions_array + 8 * index) else stop OutOfBounds.

(** A size rounded up to the granularity, with the header. *)
Definition region_size (size : Z) : Z :=
  Z.land (u64 (u64 (size + USED_HEAP_REGION_HEADER_SIZE) + 31)) (2 ^ 64 - 32).

Definition HeapRemoveFreeRegion (region : Z) : M EsHeap unit :=
  let! reference := read_field RegionListReference region in
  let! used := read_field Used region in
  if (reference =? 0) || negb (used =? 0) then HEAP_PANIC
  else
    let! next := read_field AllocationSize region in
    write_cell 8 reference next ;;;
    let! next := read_field AllocationSize region in
    (if next =? 0 then ret tt
     else let! reference := read_field RegionListReference region in write_field RegionListReference next reference) ;;;
    write_field RegionListReference region 0.

Definition HeapAddFreeRegion (region : Z) : M EsHeap unit :=
  let! used := read_field Used region in
  let! size := read_field Size region in
  if negb (used =? 0) || (size <? 32) then HEAP_PANIC
  else
    let! head := list_head (HeapCalculateIndex size) in
    let! first := read_cell 8 head in
    write_field AllocationSize region first ;;;
    (if first =? 0 then ret tt else write_field RegionListReference first (region + field_offset AllocationSize)) ;;;
    write_cell 8 head region ;;;
    write_field RegionListReference region head.

(** ** Validation *)

(** The loop over the regions of a block: where it ends. *)
Fixpoint validate_block (n : nat) (start end_ previous region : Z) : M EsHeap Z :=
  match n with
  | O => stop OutOfFuel
  | S n' =>
      if end_ <=? region then ret region
      else
        let! before := HEAP_REGION_PREVIOUS region in
        if negb (previous =? 0) && negb (previous =? before) then HEAP_PANIC
        else
          let! p := read_field Previous region in
          if (previous =? 0) && negb (p =? 0) then HEAP_PANIC
          else
            let! size := read_field Size region in
            if negb (Z.land size 31 =? 0) then HEAP_PANIC
            else
              let! offset := read_field Offset region in
              if negb (region - start =? offset) then HEAP_PANIC
              else
                let! used := read_field Used region in
                if negb (used =? USED_HEAP_REGION_MAGIC) && negb (used =? 0) then HEAP_PANIC
                else
                  (if used =? 0 then
                     let! reference := read_field RegionListReference region in
                     if reference =? 0 then HEAP_PANIC
                     else
                       let! next := read_field AllocationSize region in
                       if next =? 0 then ret tt
                       else
                         let! back := read_field RegionListReference next in
                         if negb (back =? region + field_offset AllocationSize) then HEAP_PANIC else ret tt
                   else ret tt) ;;;
                  let! next := HEAP_REGION_NEXT region in
                  validate_block n' start end_ region next
  end.

(** Regions have at least 32 bytes. *)
Definition block_fuel : nat := 2049.

Fixpoint validate_blocks (n : nat) (i : Z) : M EsHeap unit :=
  match n with
  | O => ret tt
  | S n' =>
      let! s := get in
      let! start := lift_opt OutOfBounds (blocks s !! Z.to_nat i) in
      (if start =? 0 then ret tt
       else
         let! region := validate_block block_fuel start (start + 65536) 0 start in
         if negb (region =? start + 65536) then HEAP_PANIC else ret tt) ;;;
      validate_blocks n' (i + 1)
  end.
Definition HeapValidate : M EsHeap unit :=
  let! s := get in
  if cannotValidate s then ret tt else validate_blocks (Z.to_nat (blockCount s)) 0.
Definition MAYBE_VALIDATE_HEAP : M EsHeap unit := if DEBUG_BUILD then HeapValidate else ret tt.

Definition add_counts (count size : Z) : M EsHeap unit :=
  modify (fun s => set_counts (u64 (allocationsCount s + count)) (u64 (heap_size s + size)) s).

(** ** Allocation *)

(** The first list from [i] on whose first region is large enough. *)
Fixpoint find_region (n : nat) (i size : Z) : M EsHeap (option Z) :=
  match n with
  | O => ret None
  | S n' =>
      let! head := list_head i in
      let! region := read_cell 8 head in
      if region =? 0 then find_region n' (i + 1) size
      else
        let! available := read_field Size region in
        if available <? size then find_region n' (i + 1) size
        else HeapRemoveFreeRegion region ;;; ret (Some region)
  end.

(** A new block, as one region; its last 32 bytes are a region that is always used. *)
Definition new_block : M EsHeap Z :=
  let! region := HEAP_ALLOCATE_CALL 65536 in
  let! s := get in
  (if blockCount s <? 16 then modify (set_blocks (blockCount s) (<[Z.to_nat (blockCount s) := region]> (blocks s)) (cannotValidate s))
   else modify (set_blocks (blockCount s) (blocks s) true)) ;;;
  modify (fun s => set_blocks (u64 (blockCount s + 1)) (blocks s) (cannotValidate s) s) ;;;
  if region =? 0 then ret 0
  else
    write_field Size region (65536 - 32) ;;;
    let! endRegion := HEAP_REGION_NEXT region in
    write_field Used endRegion USED_HEAP_REGION_MAGIC ;;;
    write_field Offset endRegion (65536 - 32) ;;;
    write_field Size endRegion 32 ;;;
    write_cell 8 (HEAP_REGION_DATA endRegion) heap_address ;;;
    ret region.

(** [EsMemoryZero], or in a debug build [EsMemoryFill], of the allocated bytes *)
Definition prepare (zeroMemory : bool) (address originalSize : Z) : M EsHeap unit :=
  if zeroMemory then EsMemoryZero address originalSize
  else if DEBUG_BUILD then EsMemoryFill address originalSize 161 else ret tt.

(** The first [size] bytes of the region are used, the others become a free region. *)
Definition split_region (region oldSize size : Z) : M EsHeap unit :=
  write_field Size region size ;;;
  write_field Used region USED_HEAP_REGION_MAGIC ;;;
  let! freeRegion := HEAP_REGION_NEXT region in
  write_field Size freeRegion (oldSize - size) ;;;
  write_field Previous freeRegion size ;;;
  let! offset := read_field Offset region in
  write_field Offset freeRegion (offset + size) ;;;
  write_field Used freeRegion 0 ;;;
  HeapAddFreeRegion freeRegion ;;;
  let! nextRegion := HEAP_REGION_NEXT freeRegion in
  let! freeSize := read_field Size freeRegion in
  write_field Previous nextRegion freeSize.

(** Behind the label [foundRegion]. *)
Definition use_region (region size originalSize : Z) (zeroMemory : bool) : M EsHeap Z :=
  let! used := read_field Used region in
  let! available := read_field Size region in
  if negb (used =? 0) || (available <? size) then HEAP_PANIC
  else
    add_counts 1 size ;;;
    let! oldSize := read_field Size region in
    if oldSize =? size then
      write_field Used region USED_HEAP_REGION_MAGIC ;;;
      write_field AllocationSize region originalSize ;;;
      prepare zeroMemory (HEAP_REGION_DATA region) originalSize ;;;
      ret (HEAP_REGION_DATA region)
    else
      split_region region oldSize size ;;;
      MAYBE_VALIDATE_HEAP ;;;
      write_field AllocationSize region originalSize ;;;
      prepare zeroMemory (HEAP_REGION_DATA region) originalSize ;;;
      ret (HEAP_REGION_DATA region).

Definition EsHeapAllocate (size : Z) (zeroMemory : bool) : M EsHeap Z :=
  if size =? 0 then ret 0
  else if s64 size <? 0 then HEAP_PANIC
  else
    let originalSize := size in
    let size := region_size size in
    if LARGE_ALLOCATION_THRESHOLD <=? size then
      let! region := HEAP_ALLOCATE_CALL size in
      if region =? 0 then ret 0
      else
        write_field Used region USED_HEAP_REGION_MAGIC ;;;
        write_field Size region 0 ;;;
        write_field AllocationSize region originalSize ;;;
        add_counts 0 originalSize ;;;
        ret (HEAP_REGION_DATA region)
    else
      MAYBE_VALIDATE_HEAP ;;;
      let index := HeapCalculateIndex size in
      let! found := find_region (Z.to_nat (12 - index)) index size in
      match found with
      | Some region => use_region region size originalSize zeroMemory
      | None =>
          let! region := new_block in
          if region =? 0 then ret 0 else use_region region size originalSize zeroMemory
      end.

(** ** Freeing *)

Definition remove_block (region : Z) : M EsHeap unit :=
  modify (fun s => set_blocks (u64 (blockCount s - 1)) (blocks s) (cannotValidate s) s) ;;;
  let! s := get in
  (if cannotValidate s then ret tt
   else
     match list_find (fun b => b = region) (take (Z.to_nat (blockCount s + 1)) (blocks s)) with
     | Some (i, _) =>
         let! last := lift_opt OutOfBounds (blocks s !! Z.to_nat (blockCount s)) in
         modify (set_blocks (blockCount s) (<[i := last]> (blocks s)) (cannotValidate s))
     | None => stop Assertion
     end) ;;;
  HEAP_FREE_CALL region.

(** A region that is not used anymore takes in a free one behind it, or is taken in by a free one before it. *)
Definition merge_next (region : Z) : M EsHeap unit :=
  let! nextRegion := HEAP_REGION_NEXT region in
  let! nextUsed := read_field Used nextRegion in
  if nextUsed =? 0 then
    HeapRemoveFreeRegion nextRegion ;;;
    let! size := read_field Size region in
    let! nextSize := read_field Size nextRegion in
    write_field Size region (size + nextSize) ;;;
    let! after := HEAP_REGION_NEXT nextRegion in
    let! size := read_field Size region in
    write_field Previous after size
  else ret tt.
Definition merge_previous (region : Z) : M EsHeap Z :=
  let! previousRegion := HEAP_REGION_PREVIOUS region in
  let! previousUsed := if previousRegion =? 0 then ret 1 else read_field Used previousRegion in
  if previousUsed =? 0 then
    HeapRemoveFreeRegion previousRegion ;;;
    let! previousSize := read_field Size previousRegion in
    let! size := read_field Size region in
    write_field Size previousRegion (previousSize + size) ;;;
    let! after := HEAP_REGION_NEXT region in
    let! size := read_field Size previousRegion in
    write_field Previous after size ;;;
    ret previousRegion
  else ret region.
(** The merged region becomes available, or is the whole block, which is given back. *)
Definition release_region (region : Z) : M EsHeap unit :=
  let! size := read_field Size region in
  if size =? 65536 - 32 then
    let! offset := read_field Offset region in
    if negb (offset =? 0) then HEAP_PANIC else remove_block region
  else
    HeapAddFreeRegion region ;;;
    MAYBE_VALIDATE_HEAP.

Definition EsHeapFree (address expectedSize : Z) : M EsHeap unit :=
  if (address =? 0) && negb (expectedSize =? 0) then HEAP_PANIC
  else if address =? 0 then ret tt
  else
    let region := HEAP_REGION_HEADER address in
    let! used := read_field Used region in
    if negb (used =? USED_HEAP_REGION_MAGIC) then HEAP_PANIC
    else
      let! allocationSize := read_field AllocationSize region in
      if negb (expectedSize =? 0) && negb (allocationSize =? expectedSize) then HEAP_PANIC
      else
        let! size := read_field Size region in
        if size =? 0 then
          add_counts 0 (- allocationSize) ;;;
          HEAP_FREE_CALL region
        else
          (if DEBUG_BUILD then EsMemoryFill address allocationSize 177 else ret tt) ;;;
          let! offset := read_field Offset region in
          let! owner := read_cell 8 (HEAP_REGION_DATA (region - offset + 65536 - 32)) in
          if negb (owner =? heap_address) then HEAP_PANIC
          else
            MAYBE_VALIDATE_HEAP ;;;
            write_field Used region 0 ;;;
            let! offset := read_field Offset region in
            let! previous := read_field Previous region in
            if offset <? previous then HEAP_PANIC
            else
              let! size := read_field Size region in
              add_counts (-1) (- size) ;;;
              merge_next region ;;;
              let! region := merge_previous region in
              release_region region.

(** ** Reallocation *)

(** The region becomes [newSize] long, and what is left up to [post] a free region behind it; [adjacent] was free. *)
Definition move_adjacent (region adjacent newSize : Z) : M EsHeap unit :=
  let! post := HEAP_REGION_NEXT adjacent in
  HeapRemoveFreeRegion adjacent ;;;
  write_field Size region newSize ;;;
  let! adjacent := HEAP_REGION_NEXT region in
  write_field Size adjacent (post - adjacent) ;;;
  write_field Used adjacent 0 ;;;
  let! offset := read_field Offset region in
  let! size := read_field Size region in
  write_field Offset adjacent (offset + size) ;;;
  let! adjacentSize := read_field Size adjacent in
  write_field Previous post adjacentSize ;;;
  let! size := read_field Size region in
  write_field Previous adjacent size ;;;
  HeapAddFreeRegion adjacent.

(** The region takes all of [adjacent]. *)
Definition take_adjacent (region adjacent newSize : Z) : M EsHeap unit :=
  let! post := HEAP_REGION_NEXT adjacent in
  HeapRemoveFreeRegion adjacent ;;;
  write_field Size region newSize ;;;
  let! size := read_field Size region in
  write_field Previous post size.

(** The region gives its end away; [adjacent] is used. *)
Definition split_off (region adjacent oldSize newSize : Z) : M EsHeap unit :=
  write_field Size region newSize ;;;
  let! middle := HEAP_REGION_NEXT region in
  write_field Size middle (oldSize - newSize) ;;;
  write_field Used middle 0 ;;;
  let! size := read_field Size region in
  write_field Previous middle size ;;;
  let! offset := read_field Offset region in
  let! size := read_field Size region in
  write_field Offset middle (offset + size) ;;;
  let! middleSize := read_field Size middle in
  write_field Previous adjacent middleSize ;;;
  HeapAddFreeRegion middle.

(** Whether the region could be resized where it is. *)
Definition resize_region (region oldSize newSize : Z) : M EsHeap bool :=
  let! adjacent := HEAP_REGION_NEXT region in
  let! adjacentUsed := read_field Used adjacent in
  let! adjacentSize := read_field Size adjacent in
  if oldSize <? newSize then
    if (adjacentUsed =? 0) && (newSize <? u64 (oldSize + adjacentSize - FREE_HEAP_REGION_HEADER_SIZE)) then
      move_adjacent region adjacent newSize ;;; ret true
    else if (adjacentUsed =? 0) && (newSize <=? oldSize + adjacentSize) then
      take_adjacent region adjacent newSize ;;; ret true
    else ret false
  else if newSize <? oldSize then
    if adjacentUsed =? 0 then move_adjacent region adjacent newSize ;;; ret true
    else if newSize + USED_HEAP_REGION_HEADER_SIZE <=? oldSize then
      split_off region adjacent oldSize newSize ;;; ret true
    else ret true
  else ret true.

Definition EsHeapReallocate (oldAddress newAllocationSize : Z) (zeroNewSpace : bool) : M EsHeap Z :=
  if oldAddress =? 0 then EsHeapAllocate newAllocationSize zeroNewSpace
  else if newAllocationSize =? 0 then EsHeapFree oldAddress 0 ;;; ret 0
  else
    let region := HEAP_REGION_HEADER oldAddress in
    let! used := read_field Used region in
    if negb (used =? USED_HEAP_REGION_MAGIC) then HEAP_PANIC
    else
      let! oldAllocationSize := read_field AllocationSize region in
      let! oldRegionSize := read_field Size region in
      let newRegionSize := region_size newAllocationSize in
      let! canMerge :=
        (if oldRegionSize =? 0 then ret false
         else
           MAYBE_VALIDATE_HEAP ;;;
           let! b := resize_region region oldRegionSize newRegionSize in
           MAYBE_VALIDATE_HEAP ;;; ret b) in
      let! newAddress :=
        (if negb canMerge then
           let! newAddress := EsHeapAllocate newAllocationSize false in
           EsMemoryCopy newAddress oldAddress
             (if newAllocationSize <? oldAllocationSize then newAllocationSize else oldAllocationSize) ;;;
           EsHeapFree oldAddress 0 ;;;
           ret newAddress
         else
           write_field AllocationSize region newAllocationSize ;;;
           add_counts 0 (newRegionSize - oldRegionSize) ;;;
           ret oldAddress) in
      (if zeroNewSpace && (oldAllocationSize <? newAllocationSize) then
         EsMemoryZero (newAddress + oldAllocationSize) (newAllocationSize - oldAllocationSize)
       else ret tt) ;;;
      ret newAddress.
End Heap.
