(* ===== verification/SharedHeapRegions.v ===== *)
(** * What the heap looks like: fields of headers, free lists, blocks

    [fld] and [put] are the reading and writing of a field of a header on the bytes of memory;
    [frame] says where a piece of code wrote.  [lists_ok]: the free lists hold given regions.
    [chain]: the headers of a block describe given regions. *)

From stdpp Require Import base list sets.
From S2P Require Import Prelude SharedHeap.

(** ** Bytes *)

(** Outside of [W] the memories agree. *)
Definition frame (W : Z -> Prop) (m m' : memory) : Prop := forall x, ~ W x -> m' x = m x.

Lemma frame_refl W m : frame W m m.
Proof. done. Qed.
Lemma frame_trans W m1 m2 m3 : frame W m1 m2 -> frame W m2 m3 -> frame W m1 m3.
Proof. intros H1 H2 x Hx. by rewrite H2, H1. Qed.
Lemma frame_mono (W W' : Z -> Prop) m m' : frame W m m' -> (forall x, W x -> W' x) -> frame W' m m'.
Proof. intros H1 H2 x Hx. apply H1. auto. Qed.

Definition between (lo hi x : Z) : Prop := lo <= x < hi.

Lemma load_ext n m m' a : (forall x, between a (a + Z.of_nat n) x -> m' x = m x) -> load n m' a = load n m a.
Proof.
  intros H. unfold load. f_equal. apply map_ext_in. intros x Hx. apply In_seqZ in Hx. by apply H.
Qed.

Lemma store_outside n v m a x : ~ between a (a + Z.of_nat n) x -> store n v m a x = m x.
Proof.
  unfold store, store_bytes, between. rewrite length_le_split. intros Hx.
  destruct (Z.leb_spec a x), (Z.ltb_spec x (a + Z.of_nat n)); done || lia.
Qed.

Lemma load_store_same n v m a : load n (store n v m a) a = v mod 2 ^ (8 * Z.of_nat n).
Proof.
  unfold load. rewrite <- le_combine_split. f_equal. apply list_eq. intros i. destruct (decide (i < n)%nat) as [Hi|Hi].
  - rewrite list_lookup_fmap, lookup_seqZ_lt by lia. cbn. unfold store, store_bytes. rewrite length_le_split.
    rewrite (proj2 (Z.leb_le _ _)), (proj2 (Z.ltb_lt _ _)) by lia. cbn. replace (a + Z.of_nat i - a) with (Z.of_nat i) by lia.
    rewrite Nat2Z.id, nth_lookup. destruct (lookup_lt_is_Some_2 (le_split n v) i) as [y ->]; [by rewrite length_le_split|done].
  - rewrite !lookup_ge_None_2; [done|rewrite length_le_split; lia|rewrite length_fmap, length_seqZ; lia].
Qed.

Lemma load_store_other n k v m a b : b + Z.of_nat k <= a \/ a + Z.of_nat n <= b -> load k (store n v m a) b = load k m b.
Proof. intros H. apply load_ext. intros x Hx. apply store_outside. unfold between in *. lia. Qed.

Lemma frame_store (W : Z -> Prop) n v m m' a : frame W m m' -> (forall x, between a (a + Z.of_nat n) x -> W x) ->
  frame W m (store n v m' a).
Proof. intros Hf Hw x Hx. rewrite store_outside; [by apply Hf|]. intros Hb. by apply Hx, Hw. Qed.

Lemma frame_fill (W : Z -> Prop) v n m m' a : frame W m m' -> (forall x, between a (a + n) x -> W x) -> frame W m (fill v n m' a).
Proof.
  intros Hf Hw x Hx. unfold fill. destruct (Z.leb_spec a x), (Z.ltb_spec x (a + n)); cbn; try by apply Hf.
  exfalso. apply Hx, Hw. unfold between. lia.
Qed.

Lemma load_range n m a : (forall x, is_byte (m x)) -> is_uint (8 * Z.of_nat n) (load n m a).
Proof.
  intros Hm. unfold load. pose proof (le_combine_range (map m (seqZ a (Z.of_nat n)))) as H.
  rewrite length_map, length_seqZ, Nat2Z.id in H. apply H. apply Forall_forall. intros x (y & <- & _)%in_map_iff. apply Hm.
Qed.

(** ** Fields *)

Definition fld (m : memory) (f : field) (a : Z) : Z := load (field_bytes f) m (a + field_offset f).
Definition put (f : field) (a v : Z) (m : memory) : memory := store (field_bytes f) v m (a + field_offset f).
Definition field_range (f : field) (a : Z) : Z -> Prop := between (a + field_offset f) (a + field_offset f + Z.of_nat (field_bytes f)).

Lemma fld_frame W m m' f a : frame W m m' -> (forall x, field_range f a x -> ~ W x) -> fld m' f a = fld m f a.
Proof. intros H1 H2. apply load_ext. intros x Hx. by apply H1, H2. Qed.

Lemma fld_put_same f a v m : 0 <= v < 2 ^ (8 * Z.of_nat (field_bytes f)) -> fld (put f a v m) f a = v.
Proof. intros Hv. unfold fld, put. rewrite load_store_same. by apply Z.mod_small. Qed.

Lemma fld_put_16 f a v m : field_bytes f = 2%nat -> 0 <= v < 65536 -> fld (put f a v m) f a = v.
Proof. intros Hf Hv. apply fld_put_same. by rewrite Hf. Qed.
Lemma fld_put_64 f a v m : field_bytes f = 8%nat -> 0 <= v < 2 ^ 64 -> fld (put f a v m) f a = v.
Proof. intros Hf Hv. apply fld_put_same. by rewrite Hf. Qed.

Lemma fld_put_ne f a v m g b :
  b + field_offset g + Z.of_nat (field_bytes g) <= a + field_offset f \/
  a + field_offset f + Z.of_nat (field_bytes f) <= b + field_offset g ->
  fld (put f a v m) g b = fld m g b.
Proof. apply load_store_other. Qed.

Lemma frame_put (W : Z -> Prop) f a v m m' : frame W m m' -> (forall x, field_range f a x -> W x) -> frame W m (put f a v m').
Proof. apply frame_store. Qed.

Section Regions.
Context `{HeapSystem}.

Definition disjoint (r1 r2 : Z * Z) : Prop := fst r1 + snd r1 <= fst r2 \/ fst r2 + snd r2 <= fst r1.
Definition array_range : Z * Z := (regions_array, 96).

(** What is assumed of the system: it answers with 0 or with memory at the start of a page that overlaps neither
    what it has granted before nor the structure of the heap. *)
Class HeapSystemLaws : Prop := {
  array_positive : 0 < regions_array;
  array_end : regions_array + 96 <= 2 ^ 64;
  heap_address_range : 0 <= heap_address < 2 ^ 64;
  reserve_fresh n l size : 0 < size -> reserve n l size = 0 \/
    (0 < reserve n l size /\ reserve n l size mod 4096 = 0 /\ reserve n l size + size < 2 ^ 64 /\
     Forall (disjoint (reserve n l size, size)) (array_range :: l));
}.

Lemma disjoint_sym r1 r2 : disjoint r1 r2 -> disjoint r2 r1.
Proof. unfold disjoint. lia. Qed.

(** There is a header, or a place for one, at [a]. *)
Record place (s : EsHeap) (a : Z) : Prop := {
  pl_positive : 0 < a;
  pl_aligned : a mod 32 = 0;
  pl_end : a + 32 < 2 ^ 64;
  pl_owned : existsb (inside a 32) (owned s) = true;
  pl_array : disjoint (a, 32) array_range;
}.

Lemma place_set_mem m s a : place (set_mem m s) a <-> place s a.
Proof. split; intros [? ? ? ? ?]; by split. Qed.

Lemma accessible_inside s a n b k : existsb (inside a n) (owned s) = true -> a <= b -> b + k <= a + n -> accessible s b k = true.
Proof.
  rewrite existsb_exists. intros (r & Hr & Hin) Hb Hk. unfold accessible. apply orb_true_iff. right. apply existsb_exists.
  exists r. split; [done|]. unfold inside in *. rewrite andb_true_iff, !Z.leb_le in *. lia.
Qed.

Lemma accessible_field s a f : place s a -> accessible s (a + field_offset f) (Z.of_nat (field_bytes f)) = true.
Proof. intros [_ _ _ H1 _]. eapply accessible_inside; [exact H1|destruct f; cbn; lia..]. Qed.

Lemma read_field_spec s f a : place s a -> read_field f a s = (Ok (fld (mem s) f a), s).
Proof. intros Hp. unfold read_field, read_cell, bind, get. by rewrite accessible_field. Qed.
Lemma write_field_spec s f a v : place s a -> write_field f a v s = (Ok tt, set_mem (put f a v (mem s)) s).
Proof. intros Hp. unfold write_field, write_cell, bind, get. by rewrite accessible_field. Qed.

Lemma bind_read {A} s f a (k : Z -> M EsHeap A) : place s a -> bind (read_field f a) k s = k (fld (mem s) f a) s.
Proof. intros Hp. unfold bind. by rewrite read_field_spec. Qed.
Lemma bind_write {A} s f a v (k : unit -> M EsHeap A) : place s a ->
  bind (write_field f a v) k s = k tt (set_mem (put f a v (mem s)) s).
Proof. intros Hp. unfold bind. by rewrite write_field_spec. Qed.
Lemma bind_next {A} s a (k : Z -> M EsHeap A) : place s a -> bind (HEAP_REGION_NEXT a) k s = k (a + fld (mem s) Size a) s.
Proof. intros Hp. unfold HEAP_REGION_NEXT, bind. by rewrite read_field_spec. Qed.

Lemma accessible_head s i : 0 <= i < 12 -> accessible s (regions_array + 8 * i) 8 = true.
Proof.
  intros Hi. unfold accessible. apply orb_true_iff. left. unfold inside. cbn. apply andb_true_iff. rewrite !Z.leb_le. lia.
Qed.

(** A pointer to a pointer of the free lists: to a head or to a [regionListNext]. *)
Definition reference (s : EsHeap) (p : Z) : Prop :=
  (exists i, 0 <= i < 12 /\ p = regions_array + 8 * i) \/ (exists a, place s a /\ p = a + 8).

Lemma bind_read_reference {A} s p (k : Z -> M EsHeap A) : reference s p -> bind (read_cell 8 p) k s = k (load 8 (mem s) p) s.
Proof.
  intros Hp. unfold read_cell, bind, get. assert (accessible s p (Z.of_nat 8) = true) as ->; [|done].
  destruct Hp as [(i & Hi & ->)|(a & Ha & ->)]; [by apply accessible_head|]. apply (accessible_field s a AllocationSize Ha).
Qed.
Lemma bind_write_reference {A} s p v (k : unit -> M EsHeap A) : reference s p ->
  bind (write_cell 8 p v) k s = k tt (set_mem (store 8 v (mem s) p) s).
Proof.
  intros Hp. unfold write_cell, bind, get. assert (accessible s p (Z.of_nat 8) = true) as ->; [|done].
  destruct Hp as [(i & Hi & ->)|(a & Ha & ->)]; [by apply accessible_head|]. apply (accessible_field s a AllocationSize Ha).
Qed.

Lemma aligned_apart a b : a mod 32 = 0 -> b mod 32 = 0 -> a <> b -> a + 32 <= b \/ b + 32 <= a.
Proof. intros Ha Hb Hn. Z.div_mod_to_equations. lia. Qed.

(** ** Free lists *)

(** [ref] points to the first of the regions [l], and each to the next one; the references point back. *)
Fixpoint linked (m : memory) (ref : Z) (l : list Z) : Prop :=
  match l with
  | [] => load 8 m ref = 0
  | a :: l => load 8 m ref = a /\ fld m RegionListReference a = ref /\ linked m (a + 8) l
  end.

(** The same up to a pointer, [tail_ref]. *)
Fixpoint linked_part (m : memory) (ref : Z) (l : list Z) : Prop :=
  match l with
  | [] => True
  | a :: l => load 8 m ref = a /\ fld m RegionListReference a = ref /\ linked_part m (a + 8) l
  end.
Fixpoint tail_ref (ref : Z) (l : list Z) : Z := match l with [] => ref | a :: l => tail_ref (a + 8) l end.

Lemma linked_app m ref l1 l2 : linked m ref (l1 ++ l2) <-> linked_part m ref l1 /\ linked m (tail_ref ref l1) l2.
Proof. revert ref. induction l1 as [|a l1 IH]; intros ref; cbn; [tauto|]. rewrite IH. tauto. Qed.

Lemma tail_ref_in ref l : tail_ref ref l = ref /\ l = [] \/ exists a, a ∈ l /\ tail_ref ref l = a + 8.
Proof.
  revert ref. induction l as [|a l IH]; intros ref; cbn; [by left|]. right.
  destruct (IH (a + 8)) as [[-> _]|(b & Hb & ->)]; [exists a|exists b]; (split; [set_solver|done]).
Qed.

Lemma linked_frame W m m' ref l : frame W m m' -> linked m ref l -> (forall x, between ref (ref + 8) x -> ~ W x) ->
  (forall a x, a ∈ l -> between (a + 8) (a + 24) x -> ~ W x) -> linked m' ref l.
Proof.
  intros Hf. revert ref. induction l as [|a l IH]; intros ref; cbn [linked].
  { intros H0 Hr _. rewrite (load_ext 8 m); [done|]. intros x Hx. by apply Hf, Hr. }
  intros (H1 & H2 & H3) Hr Hl. split_and!.
  - rewrite (load_ext 8 m); [done|]. intros x Hx. by apply Hf, Hr.
  - rewrite <- H2. eapply fld_frame; [exact Hf|]. intros x Hx. apply (Hl a); [set_solver|]. unfold field_range, between in *. cbn in Hx. lia.
  - apply IH; [done| |].
    + intros x Hx. apply (Hl a); [set_solver|]. unfold between in *. lia.
    + intros b x Hb. apply Hl. set_solver.
Qed.

Lemma linked_part_frame W m m' ref l : frame W m m' -> linked_part m ref l ->
  (ref <> tail_ref ref l -> forall x, between ref (ref + 8) x -> ~ W x) ->
  (forall a x, a ∈ l -> field_range RegionListReference a x -> ~ W x) ->
  (forall a x, a ∈ l -> a + 8 <> tail_ref ref l -> between (a + 8) (a + 16) x -> ~ W x) ->
  NoDup l -> (forall a, a ∈ l -> ref <> a + 8) -> linked_part m' ref l.
Proof.
  intros Hf. revert ref. induction l as [|a l IH]; intros ref; cbn [linked_part tail_ref]; [done|].
  intros (H1 & H2 & H3) Hr Hl Ht Hnd Hne. apply list.NoDup_cons in Hnd as [Hna Hnd]. split_and!.
  - rewrite (load_ext 8 m); [done|]. intros x Hx. apply Hf, Hr; [|done].
    destruct (tail_ref_in (a + 8) l) as [[-> _]|(b & Hb & ->)]; apply Hne; set_solver.
  - rewrite <- H2. eapply fld_frame; [exact Hf|]. intros x Hx. apply (Hl a); [set_solver|done].
  - apply IH; [done| | | |done|].
    + intros Hn x Hx. apply (Ht a); [set_solver|done|]. unfold between in *. lia.
    + intros b x Hb. apply Hl. set_solver.
    + intros b x Hb Hn. apply Ht; [set_solver|done].
    + intros b Hb E. assert (a = b) by lia. subst. done.
Qed.

(** The lists hold the regions [fr], given by address and size, each in the list of its size. *)
Definition lists_ok (m : memory) (fr : list (Z * Z)) : Prop :=
  exists fl : Z -> list Z, forall i, 0 <= i < 12 ->
    linked m (regions_array + 8 * i) (fl i) /\ NoDup (fl i) /\
    forall a, a ∈ fl i <-> exists z, (a, z) ∈ fr /\ HeapCalculateIndex z = i.

(** What the operations on lists write to. *)
Definition links (fr : list (Z * Z)) (x : Z) : Prop :=
  between regions_array (regions_array + 96) x \/ exists r, r ∈ fr /\ between (fst r + 8) (fst r + 24) x.

#[export] Instance lists_ok_perm m : Proper ((≡ₚ) ==> iff) (lists_ok m).
Proof.
  intros fr fr' Hp. unfold lists_ok. split; intros (fl & Hfl); exists fl; intros i Hi; destruct (Hfl i Hi) as (H1 & H2 & H3);
    (split_and!; [done|done|]); intros a; rewrite H3; [setoid_rewrite Hp|setoid_rewrite <- Hp]; done.
Qed.

Lemma lists_frame W m m' fr : frame W m m' -> lists_ok m fr -> (forall x, links fr x -> ~ W x) -> lists_ok m' fr.
Proof.
  intros Hf (fl & Hfl) Hw. exists fl. intros i Hi. destruct (Hfl i Hi) as (H1 & H2 & H3). split_and!; [|done|done].
  eapply linked_frame; [exact Hf|done| |].
  - intros x Hx. apply Hw. left. unfold between in *. lia.
  - intros a x Ha Hx. apply H3 in Ha as (z & Ha & _). apply Hw. right. by exists (a, z).
Qed.

Definition places (s : EsHeap) (fr : list (Z * Z)) : Prop := Forall (fun r => place s (fst r)) fr.

Lemma places_elem s fr a z : places s fr -> (a, z) ∈ fr -> place s a.
Proof. intros Hp Hin. unfold places in Hp. rewrite list.Forall_forall in Hp. apply (Hp _ Hin). Qed.

Lemma places_set_mem m s fr : places (set_mem m s) fr <-> places s fr.
Proof. unfold places. apply list.Forall_iff. intros r. apply place_set_mem. Qed.
End Regions.

(** Reading what was written. *)
Ltac same_field := first [rewrite fld_put_16 by (done || lia) | rewrite fld_put_64 by (done || lia)].
(** Writing [f] of [a] does not change another field: decided by the addresses. *)
Ltac other_field := rewrite fld_put_ne by (cbn [field_offset field_bytes]; lia).
