(* ===== verification/SharedHeapLists.v ===== *)
(** * The free lists of the heap: removing, adding and finding a region

    Each operation does to the set of listed regions what its name says, and writes only to
    the links of listed regions and to the heads of the lists. *)

From stdpp Require Import base list sets.
From S2P Require Import Prelude SharedHeap SharedHeapRegions.

Section Lists.
Context `{Laws : HeapSystemLaws}.
Let array_positive : 0 < regions_array := array_positive.
Let array_end : regions_array + 96 <= 2 ^ 64 := array_end.
Implicit Types (s : EsHeap) (fr : list (Z * Z)).

Lemma tail_reference s i l : 0 <= i < 12 -> (forall a, a ∈ l -> place s a) -> reference s (tail_ref (regions_array + 8 * i) l).
Proof.
  intros Hi Hl. destruct (tail_ref_in (regions_array + 8 * i) l) as [[-> _]|(a & Ha & ->)]; [left; by exists i|right; exists a; auto].
Qed.

Lemma reference_positive s p : reference s p -> 0 < p.
Proof. intros [(i & ? & ->)|(a & [] & ->)]; lia. Qed.

(** The cell of a pointer and the links of a region are apart, unless it is that of the region. *)
Lemma reference_apart s p a : reference s p -> place s a -> p <> a + 8 -> p + 8 <= a + 8 \/ a + 24 <= p.
Proof.
  intros [(i & Hi & ->)|(b & Hb & ->)] [Ha1 Ha2 _ _ Ha3] Hn.
  - unfold disjoint, array_range in Ha3. cbn in Ha3. lia.
  - destruct (aligned_apart a b) as [|]; [done|apply Hb| |lia|lia]. intros ->. done.
Qed.

Lemma reference_start_apart s i p : 0 <= i < 12 -> reference s p -> p <> regions_array + 8 * i ->
  p + 8 <= regions_array + 8 * i \/ regions_array + 8 * i + 8 <= p.
Proof.
  intros Hi [(j & Hj & ->)|(a & [_ _ _ _ Ha] & ->)] Hn; [lia|]. unfold disjoint, array_range in Ha. cbn in Ha. lia.
Qed.

Lemma reference_below s p : regions_array + 96 <= 2 ^ 64 -> reference s p -> p < 2 ^ 64.
Proof. intros Ha [(i & ? & ->)|(a & [? ? ? ? ?] & ->)]; lia. Qed.

(** ** Removing *)

(** What is written to remove [r], to which [ref] points, before [next] (0 if it is the last). *)
Definition unlinking (ref next r x : Z) : Prop :=
  between ref (ref + 8) x \/ (next <> 0 /\ field_range RegionListReference next x) \/ field_range RegionListReference r x.

Lemma unlinked_list s m' i l1 r l2 next : 0 <= i < 12 -> let ref := tail_ref (regions_array + 8 * i) l1 in
  linked (mem s) (regions_array + 8 * i) (l1 ++ r :: l2) -> NoDup (l1 ++ r :: l2) -> (forall a, a ∈ l1 ++ r :: l2 -> place s a) ->
  next = load 8 (mem s) (r + 8) -> frame (unlinking ref next r) (mem s) m' -> load 8 m' ref = next ->
  (next <> 0 -> fld m' RegionListReference next = ref) -> linked m' (regions_array + 8 * i) (l1 ++ l2).
Proof.
  intros Hi ref Hl Hnd Hp Hn Hf Hload Hback. apply linked_app in Hl as (Hl1 & Hr1 & Hr2 & Hl2).
  apply list.NoDup_app in Hnd as (Hnd1 & Hdis & Hnd2). apply list.NoDup_cons in Hnd2 as [Hr Hnd2].
  assert (Hal : forall a b, a ∈ l1 ++ r :: l2 -> b ∈ l1 ++ r :: l2 -> a <> b -> a + 32 <= b \/ b + 32 <= a).
  { intros a b Ha Hb. apply aligned_apart; by apply Hp. }
  assert (Hnext : next <> 0 -> exists l, l2 = next :: l).
  { intros Hne. destruct l2 as [|a l2']; cbn in Hl2; [lia|]. exists l2'. f_equal. lia. }
  assert (Href : reference s ref) by (apply tail_reference; [done|]; set_solver).
  apply linked_app. split.
  - eapply linked_part_frame; [exact Hf|exact Hl1| | | |exact Hnd1|].
    + intros Hne x Hx. fold ref in Hne. pose proof (reference_start_apart s i ref Hi Href ltac:(done)).
      pose proof (Hp r ltac:(set_solver)) as [_ _ _ _ Hpr]. unfold disjoint, array_range in Hpr. cbn in Hpr.
      intros [?|[[Hn0 ?]|?]]; unfold field_range, between in *; cbn in *; [lia| |lia].
      destruct (Hnext Hn0) as (l & ->). pose proof (Hp next ltac:(set_solver)) as [_ _ _ _ Hpn]. unfold disjoint in Hpn. cbn in Hpn. lia.
    + intros a x Ha Hx. pose proof (Hal a r ltac:(set_solver) ltac:(set_solver) ltac:(set_solver)).
      intros [?|[[Hn0 ?]|?]]; unfold field_range, between in *; cbn in *; [| |lia].
      * destruct (Z.eq_dec ref (a + 8)); [lia|]. pose proof (reference_apart s ref a Href (Hp a ltac:(set_solver)) ltac:(done)). lia.
      * destruct (Hnext Hn0) as (l & ->). pose proof (Hal a next ltac:(set_solver) ltac:(set_solver) ltac:(set_solver)). lia.
    + intros a x Ha Hne Hx. fold ref in Hne. pose proof (Hal a r ltac:(set_solver) ltac:(set_solver) ltac:(set_solver)).
      pose proof (reference_apart s ref a Href (Hp a ltac:(set_solver)) ltac:(done)).
      intros [?|[[Hn0 ?]|?]]; unfold field_range, between in *; cbn in *; [lia| |lia].
      destruct (Hnext Hn0) as (l & ->). pose proof (Hal a next ltac:(set_solver) ltac:(set_solver) ltac:(set_solver)). lia.
    + intros a Ha E. pose proof (Hp a ltac:(set_solver)) as [_ _ _ _ Hpa]. unfold disjoint, array_range in Hpa. cbn in Hpa. lia.
  - fold ref. destruct l2 as [|a l2']; cbn [linked] in *; [congruence|]. destruct Hl2 as (Ha1 & Ha2 & Ha3).
    assert (Ea : next = a) by (rewrite Hn; exact Ha1). assert (Hpa : place s a) by (apply Hp; set_solver).
    apply list.NoDup_cons in Hnd2 as [Hna _]. pose proof (pl_positive _ _ Hpa).
    split_and!; [congruence|rewrite <- Ea; apply Hback; lia|]. eapply linked_frame; [exact Hf|exact Ha3| |].
    + intros x Hx. pose proof (Hal a r ltac:(set_solver) ltac:(set_solver) ltac:(set_solver)).
      assert (ref <> a + 8) as Hne.
      { unfold ref. destruct (tail_ref_in (regions_array + 8 * i) l1) as [[-> _]|(b & Hb & ->)].
        - destruct Hpa as [_ _ _ _ Hd]. unfold disjoint, array_range in Hd. cbn in Hd. lia.
        - intros E. apply (Hdis b Hb). replace b with a by lia. set_solver. }
      pose proof (reference_apart s ref a Href Hpa Hne). intros [?|[[Hn0 ?]|?]]; unfold field_range, between in *; cbn in *; lia.
    + intros b x Hb Hx. pose proof (Hal b r ltac:(set_solver) ltac:(set_solver) ltac:(set_solver)).
      pose proof (Hal b a ltac:(set_solver) ltac:(set_solver) ltac:(set_solver)).
      assert (ref <> b + 8) as Hne.
      { unfold ref. destruct (tail_ref_in (regions_array + 8 * i) l1) as [[-> _]|(c & Hc & ->)].
        - pose proof (Hp b ltac:(set_solver)) as [_ _ _ _ Hd]. unfold disjoint, array_range in Hd. cbn in Hd. lia.
        - intros E. apply (Hdis c Hc). replace c with b by lia. set_solver. }
      pose proof (reference_apart s ref b Href (Hp b ltac:(set_solver)) Hne). intros [?|[[Hn0 ?]|?]]; unfold field_range, between in *; cbn in *; lia.
Qed.

(** Another list. *)
Lemma unlinked_other s m' i j l1 r l next : 0 <= i < 12 -> 0 <= j < 12 -> i <> j -> let ref := tail_ref (regions_array + 8 * i) l1 in
  linked (mem s) (regions_array + 8 * j) l -> (forall a, a ∈ l1 -> place s a) -> (forall a, a ∈ l -> place s a) ->
  place s r -> (next <> 0 -> place s next) -> frame (unlinking ref next r) (mem s) m' ->
  (forall a, a ∈ l -> a ∉ l1 /\ a <> r /\ a <> next) -> linked m' (regions_array + 8 * j) l.
Proof.
  intros Hi Hj Hij ref Hl Hp1 Hp Hr Hn Hf Hd. assert (Href : reference s ref) by by apply tail_reference.
  eapply linked_frame; [exact Hf|exact Hl| |].
  - intros x Hx. assert (ref <> regions_array + 8 * j).
    { unfold ref. destruct (tail_ref_in (regions_array + 8 * i) l1) as [[-> _]|(b & Hb & ->)]; [lia|].
      destruct (Hp1 b Hb) as [_ _ _ _ Hd']. unfold disjoint, array_range in Hd'. cbn in Hd'. lia. }
    pose proof (reference_start_apart s j ref Hj Href ltac:(done)). destruct Hr as [_ _ _ _ Hr]. unfold disjoint, array_range in Hr. cbn in Hr.
    intros [?|[[Hn0 ?]|?]]; unfold field_range, between in *; cbn in *; [lia| |lia].
    destruct (Hn Hn0) as [_ _ _ _ Hpn]. unfold disjoint in Hpn. cbn in Hpn. lia.
  - intros a x Ha Hx. destruct (Hd a Ha) as (Ha1 & Ha2 & Ha3). pose proof (Hp a Ha) as Hpa.
    pose proof (aligned_apart a r (pl_aligned _ _ Hpa) (pl_aligned _ _ Hr) Ha2).
    assert (ref <> a + 8) as Hne.
    { unfold ref. destruct (tail_ref_in (regions_array + 8 * i) l1) as [[-> _]|(c & Hc & ->)].
      - destruct Hpa as [_ _ _ _ Hd']. unfold disjoint, array_range in Hd'. cbn in Hd'. lia.
      - intros E. apply Ha1. by replace a with c by lia. }
    pose proof (reference_apart s ref a Href Hpa Hne). intros [?|[[Hn0 ?]|?]]; unfold field_range, between in *; cbn in *; [lia| |lia].
    pose proof (aligned_apart a next (pl_aligned _ _ Hpa) (pl_aligned _ _ (Hn Hn0)) Ha3). lia.
Qed.

Lemma fst_unique {A B} (l : list (A * B)) a b1 b2 : NoDup (map fst l) -> (a, b1) ∈ l -> (a, b2) ∈ l -> b1 = b2.
Proof.
  intros Hnd H1 H2. apply list_elem_of_lookup in H1 as [i Hi], H2 as [j Hj].
  assert (i = j) as ->; [|congruence]. eapply NoDup_lookup; [exact Hnd|rewrite list_lookup_fmap, Hi; done|by rewrite list_lookup_fmap, Hj].
Qed.

Lemma NoDup_proper {A} (l l' : list A) : l ≡ₚ l' -> NoDup l -> NoDup l'.
Proof. by intros ->. Qed.

Definition index_ok (z : Z) : Prop := 0 <= HeapCalculateIndex z < 12.

Lemma unlinked s m' fr r z (fl : Z -> list Z) l1 l2 next : places s ((r, z) :: fr) -> NoDup (map fst ((r, z) :: fr)) -> index_ok z ->
  let i := HeapCalculateIndex z in let ref := tail_ref (regions_array + 8 * i) l1 in
  (forall j, 0 <= j < 12 -> linked (mem s) (regions_array + 8 * j) (fl j) /\ NoDup (fl j) /\
     forall a, a ∈ fl j <-> exists z', (a, z') ∈ (r, z) :: fr /\ HeapCalculateIndex z' = j) ->
  fl i = l1 ++ r :: l2 -> next = load 8 (mem s) (r + 8) -> frame (unlinking ref next r) (mem s) m' -> load 8 m' ref = next ->
  (next <> 0 -> fld m' RegionListReference next = ref) -> lists_ok m' fr.
Proof.
  intros Hp Hnd Hi i ref Hfl Ei Hn Hf Hload Hback. exists (fun j => if j =? i then l1 ++ l2 else fl j). intros j Hj.
  destruct (Hfl i Hi) as (Hl & Hndi & Hini). rewrite Ei in Hl, Hndi, Hini. cbn [map fst] in Hnd. apply list.NoDup_cons in Hnd as [Hr Hnd].
  assert (Hpl : forall j a, 0 <= j < 12 -> a ∈ fl j -> place s a).
  { intros k a Hk Ha. destruct (Hfl k Hk) as (_ & _ & Hin). apply Hin in Ha as (z' & Ha & _). by eapply places_elem. }
  assert (Hfr : forall a z', (a, z') ∈ fr -> a <> r).
  { intros a z' Ha ->. apply Hr. apply list_elem_of_fmap. by exists (r, z'). }
  assert (Hpi : forall a, a ∈ l1 ++ r :: l2 -> place s a) by (rewrite <- Ei; intros a; by apply Hpl).
  destruct (Z.eqb_spec j i) as [->|Hne].
  - split_and!; [by eapply unlinked_list| |].
    + eapply sublist_NoDup; [exact Hndi|]. apply sublist_app; [done|]. by apply sublist_cons.
    + apply list.NoDup_app in Hndi as (_ & Hd & Hnd2). apply list.NoDup_cons in Hnd2 as [Hr2 _].
      intros a. split.
      * intros Ha. destruct (proj1 (Hini a) ltac:(set_solver)) as (z' & Hz & Hz2). exists z'. split; [|done].
        apply elem_of_cons in Hz as [[= -> ->]|Hz]; [|done]. exfalso. set_solver.
      * intros (z' & Hz & Hz2). pose proof (Hfr a z' Hz). pose proof (proj2 (Hini a) (ex_intro _ z' (conj (list_elem_of_further _ _ _ Hz) Hz2))). set_solver.
  - destruct (Hfl j Hj) as (Hlj & Hndj & Hinj). split_and!; [|done|].
    + assert (Hdis : forall a, a ∈ fl j -> a ∉ l1 ++ r :: l2).
      { intros a Ha Ha2. apply Hini in Ha2 as (z1 & Hz1 & Hz1'). apply Hinj in Ha as (z2 & Hz2 & Hz2'). apply Hne. rewrite <- Hz1', <- Hz2'.
        apply elem_of_cons in Hz1 as [Hz1|Hz1], Hz2 as [Hz2|Hz2].
        - congruence.
        - injection Hz1 as E1 _. by destruct (Hfr a z2 Hz2).
        - injection Hz2 as E1 _. by destruct (Hfr a z1 Hz1).
        - by rewrite (fst_unique fr a z1 z2). }
      eapply (unlinked_other s m' i j l1 r (fl j) next); [done|done|lia|exact Hlj| | | | |exact Hf|].
      * intros a Ha. apply Hpi. set_solver.
      * intros a. by apply Hpl.
      * apply Hpi. set_solver.
      * intros Hn0. apply Hpi. apply linked_app in Hl as (_ & _ & _ & Hl2). destruct l2 as [|b l2]; cbn in Hl2; [lia|].
        replace next with b by (rewrite Hn; symmetry; apply Hl2). set_solver.
      * intros a Ha. pose proof (Hdis a Ha). split_and!; [set_solver|set_solver|]. intros ->. apply linked_app in Hl as (_ & _ & _ & Hl2).
        destruct l2 as [|b l2]; cbn in Hl2.
        -- pose proof (pl_positive _ _ (Hpl j next Hj Ha)). lia.
        -- assert (next = b) as Eb by (rewrite Hn; apply Hl2). apply H0. rewrite Eb. set_solver.
    + intros a. rewrite Hinj. split; intros (z' & Hz & Hz2); exists z'; (split; [|done]); [|by right].
      apply elem_of_cons in Hz as [[= -> ->]|Hz]; [|done]. by destruct Hne.
Qed.

(** Which parts of the lists a listed region is in. *)
Lemma listed s fr r z (fl : Z -> list Z) : places s fr -> (r, z) ∈ fr -> index_ok z ->
  (forall j, 0 <= j < 12 -> linked (mem s) (regions_array + 8 * j) (fl j) /\ NoDup (fl j) /\
     forall a, a ∈ fl j <-> exists z', (a, z') ∈ fr /\ HeapCalculateIndex z' = j) ->
  let i := HeapCalculateIndex z in
  exists l1 l2, fl i = l1 ++ r :: l2 /\ let ref := tail_ref (regions_array + 8 * i) l1 in
  reference s ref /\ ref <> r + 8 /\ load 8 (mem s) ref = r /\ fld (mem s) RegionListReference r = ref /\
  let next := load 8 (mem s) (r + 8) in
  next = 0 \/ (next <> r /\ place s next /\ ref <> next + 8 /\ fld (mem s) RegionListReference next = r + 8 /\ exists z', (next, z') ∈ fr).
Proof.
  intros Hp Hin Hi Hfl i. destruct (Hfl i Hi) as (Hl & Hnd & Hini).
  assert (Hpl : forall a, a ∈ fl i -> place s a).
  { intros a Ha. apply Hini in Ha as (z' & Ha & _). by eapply places_elem. }
  destruct (list_elem_of_split (fl i) r) as (l1 & l2 & E); [apply Hini; by exists z|]. rewrite E in *. exists l1, l2. split; [done|]. intros ref.
  assert (Href : reference s ref) by (apply tail_reference; [done|intros a Ha; apply Hpl; set_solver]).
  apply linked_app in Hl as (Hl1 & Hr1 & Hr2 & Hl2). apply list.NoDup_app in Hnd as (Hnd1 & Hdis & Hnd2).
  assert (Hself : forall b, b ∈ r :: l2 -> ref <> b + 8).
  { intros b Hb. unfold ref. destruct (tail_ref_in (regions_array + 8 * i) l1) as [[-> _]|(c & Hc & ->)].
    - destruct (Hpl b ltac:(set_solver)) as [_ _ _ _ Hd]. unfold disjoint, array_range in Hd. cbn in Hd. unfold i, index_ok in *. lia.
    - intros Eb. apply (Hdis c Hc). by replace c with b by lia. }
  split_and!; [done|apply Hself; set_solver|done|done|]. intros next. destruct l2 as [|b l2]; cbn in Hl2; [by left|right].
  destruct Hl2 as (Hb1 & Hb2 & _). fold next in Hb1. apply list.NoDup_cons in Hnd2 as [Hrb _]. subst b.
  split_and!; [set_solver|apply Hpl; set_solver|apply Hself; set_solver|done|].
  destruct (proj1 (Hini next) ltac:(set_solver)) as (z' & Hz & _). by exists z'.
Qed.

Lemma fld_reference_ne s p f a v : reference s p -> place s a -> (f = AllocationSize -> p <> a + 8) ->
  fld (store 8 v (mem s) p) f a = fld (mem s) f a.
Proof.
  intros Hp Ha Hne. apply load_store_other. destruct Hp as [(i & Hi & ->)|(b & Hb & ->)].
  - destruct Ha as [_ _ _ _ Hd]. unfold disjoint, array_range in Hd. cbn in Hd. destruct f; cbn; lia.
  - destruct (Z.eq_dec a b) as [->|Hab]; [destruct f; cbn; try lia; by destruct Hne|].
    pose proof (aligned_apart a b (pl_aligned _ _ Ha) (pl_aligned _ _ Hb) Hab). destruct f; cbn; lia.
Qed.

Lemma reference_set_mem m s p : reference (set_mem m s) p <-> reference s p.
Proof. unfold reference. by setoid_rewrite place_set_mem. Qed.

Lemma links_unlinking s fr r z next ref x : (r, z) ∈ fr -> (next = 0 \/ exists z', (next, z') ∈ fr) ->
  (exists i, 0 <= i < 12 /\ ref = regions_array + 8 * i) \/ (exists a z', (a, z') ∈ fr /\ ref = a + 8) ->
  unlinking ref next r x -> links fr x.
Proof.
  intros Hr Hn Href [Hx|[[Hn0 Hx]|Hx]].
  - destruct Href as [(i & Hi & ->)|(a & z' & Ha & ->)]; [left; unfold between in *; lia|right]. exists (a, z').
    split; [done|]. unfold between in *. cbn. lia.
  - destruct Hn as [|(z' & Hz)]; [done|]. right. exists (next, z'). split; [done|]. unfold field_range, between in *. cbn in *. lia.
  - right. exists (r, z). split; [done|]. unfold field_range, between in *. cbn in *. lia.
Qed.

Lemma Remove_spec s fr r z : lists_ok (mem s) ((r, z) :: fr) -> places s ((r, z) :: fr) -> NoDup (map fst ((r, z) :: fr)) -> index_ok z ->
  fld (mem s) Used r = 0 ->
  exists m', HeapRemoveFreeRegion r s = (Ok tt, set_mem m' s) /\ lists_ok m' fr /\ frame (links ((r, z) :: fr)) (mem s) m'.
Proof.
  intros (fl & Hfl) Hp Hnd Hi Hused. pose proof (places_elem _ _ r z Hp ltac:(set_solver)) as Hpr.
  destruct (listed s _ r z fl Hp ltac:(set_solver) Hi Hfl) as (l1 & l2 & El & Href & Hrn & Hload & Hback & Hnext).
  set (ref := tail_ref _ l1) in *. set (next := load 8 (mem s) (r + 8)) in *. pose proof (reference_positive s ref Href).
  assert (Hn : 0 <= next < 2 ^ 64) by (destruct Hnext as [->|(_ & [] & _)]; lia).
  unfold HeapRemoveFreeRegion. rewrite !bind_read, Hback, Hused by done. rewrite (proj2 (Z.eqb_neq ref 0)) by lia. cbn [orb negb Z.eqb].
  change (fld (mem s) AllocationSize r) with next. rewrite bind_read, bind_write_reference by done.
  change (fld (mem s) AllocationSize r) with next. set (m1 := store 8 next (mem s) ref).
  rewrite bind_read by by apply place_set_mem. cbn [mem set_mem].
  assert (E1 : fld m1 AllocationSize r = next) by (unfold m1; rewrite fld_reference_ne; done). rewrite E1.
  set (m2 := if next =? 0 then m1 else put RegionListReference next ref m1).
  assert (E2 : (if next =? 0 then ret tt else let! reference := read_field RegionListReference r in
      write_field RegionListReference next reference) (set_mem m1 s) = (Ok tt, set_mem m2 s)).
  { unfold m2. destruct (Z.eqb_spec next 0); [done|]. destruct Hnext as [|(_ & Hpn & _)]; [done|].
    rewrite bind_read, write_field_spec by by apply place_set_mem. cbn [mem set_mem].
    replace (fld m1 RegionListReference r) with ref; [done|]. unfold m1. by rewrite fld_reference_ne. }
  rewrite (bind_ok _ _ _ _ _ E2), write_field_spec by by apply place_set_mem. cbn [mem set_mem].
  set (m3 := put RegionListReference r 0 m2). exists m3. split; [done|].
  assert (Hf : frame (unlinking ref next r) (mem s) m3).
  { unfold m3. apply frame_put; [|by intros; right; right]. unfold m2. destruct (Z.eqb_spec next 0).
    - apply frame_store; [done|]. by left.
    - apply frame_put; [|intros; right; left; done]. apply frame_store; [done|]. by left. }
  assert (Hr3 : load 8 m3 ref = next /\ (next <> 0 -> fld m3 RegionListReference next = ref)).
  { pose proof (reference_apart s ref r Href Hpr Hrn) as Hra. unfold m3, m2. destruct (Z.eqb_spec next 0) as [E0|E0].
    - split; [|done]. unfold put. rewrite load_store_other by (cbn; lia). unfold m1. rewrite load_store_same. by apply Z.mod_small.
    - destruct Hnext as [|(Hnr & Hpn & Hrefn & _)]; [done|]. pose proof (reference_apart s ref next Href Hpn Hrefn).
      pose proof (aligned_apart next r (pl_aligned _ _ Hpn) (pl_aligned _ _ Hpr) Hnr). split.
      + unfold put. rewrite !load_store_other by (cbn; lia). unfold m1. rewrite load_store_same. by apply Z.mod_small.
      + intros _. other_field. apply fld_put_same. cbn. pose proof (reference_below s ref array_end Href). lia. }
  destruct Hr3 as [Hr3 Hn3]. split.
  - by eapply (unlinked s m3 fr r z fl l1 l2 next).
  - eapply frame_mono; [exact Hf|]. intros x. apply (links_unlinking s _ r z); [set_solver| |].
    + destruct Hnext as [|(_ & _ & _ & _ & Hz)]; [by left|by right].
    + unfold ref. destruct (tail_ref_in (regions_array + 8 * HeapCalculateIndex z) l1) as [[-> _]|(a & Ha & ->)].
      * left. by exists (HeapCalculateIndex z).
      * right. destruct (Hfl _ Hi) as (_ & _ & Hin). destruct (proj1 (Hin a) ltac:(rewrite El; set_solver)) as (z' & Hz & _). by exists a, z'.
Qed.

(** ** Adding *)

Lemma index_log2 z : 0 < z < 65536 -> 16 <= z -> HeapCalculateIndex z = Z.log2 z - 4 /\ 4 <= Z.log2 z < 16.
Proof.
  intros Hz Hz2. assert (4 <= Z.log2 z < 16).
  { split; [apply (Z.log2_le_pow2 z 4); lia|apply (Z.log2_lt_pow2 z 16); lia]. }
  unfold HeapCalculateIndex, u32. rewrite (wrap_id 32) by (unfold is_uint; lia). unfold u64. rewrite wrap_id by (unfold is_uint; lia). done.
Qed.
Lemma index_range z : 32 <= z < 65536 -> index_ok z.
Proof. intros Hz. destruct (index_log2 z ltac:(lia) ltac:(lia)) as [E ?]. unfold index_ok. rewrite E. lia. Qed.

(** What is written to put [r] before [first] (0 if there is none), to which [head] points. *)
Definition linking (head first r x : Z) : Prop :=
  between head (head + 8) x \/ between (r + 8) (r + 24) x \/ (first <> 0 /\ field_range RegionListReference first x).

Lemma linked_other s m' i r (l : list Z) first : 0 <= i < 12 -> place s r -> (first = 0 \/ place s first) ->
  let head := regions_array + 8 * i in frame (linking head first r) (mem s) m' ->
  (forall a, a ∈ l -> place s a /\ a <> r /\ a <> first) -> forall ref, reference s ref -> ref <> r + 8 -> ref <> head ->
  linked (mem s) ref l -> linked m' ref l.
Proof.
  intros Hi Hr Hf head Hfr Hl ref Href Hne Hnh Hlk. eapply linked_frame; [exact Hfr|exact Hlk| |].
  - intros x Hx. pose proof (reference_apart s ref r Href Hr Hne). pose proof (reference_start_apart s i ref Hi Href Hnh).
    intros [?|[?|[Hn0 ?]]]; unfold head, field_range, between in *; cbn in *; [lia|lia|]. destruct Hf as [|Hf]; [done|].
    destruct (Z.eq_dec ref (first + 8)) as [->|]; [lia|]. pose proof (reference_apart s ref first Href Hf ltac:(done)). lia.
  - intros a x Ha Hx. destruct (Hl a Ha) as (Hpa & Har & Haf). pose proof (aligned_apart a r (pl_aligned _ _ Hpa) (pl_aligned _ _ Hr) Har).
    destruct Hpa as [_ Hal _ _ Hd]. unfold disjoint, array_range in Hd. cbn in Hd.
    intros [?|[?|[Hn0 ?]]]; unfold head, field_range, between in *; cbn in *; [lia|lia|]. destruct Hf as [|Hf]; [done|].
    pose proof (aligned_apart a first Hal (pl_aligned _ _ Hf) Haf). lia.
Qed.

(** The first region of a list. *)
Lemma first_listed s (l : list Z) i : 0 <= i < 12 -> linked (mem s) (regions_array + 8 * i) l ->
  (forall a, a ∈ l -> place s a) -> NoDup l -> let first := load 8 (mem s) (regions_array + 8 * i) in
  (first = 0 /\ l = []) \/ exists l', l = first :: l' /\ place s first /\ linked (mem s) (first + 8) l' /\ first ∉ l'.
Proof.
  intros Hi Hl Hp Hnd first. destruct l as [|a l']; cbn in Hl; [by left|right]. destruct Hl as (E & _ & Hl). fold first in E. subst a.
  apply list.NoDup_cons in Hnd as [? _]. exists l'. split_and!; [done|apply Hp; set_solver|done|done].
Qed.

Lemma newly_linked s m' fr r z (fl : Z -> list Z) : places s ((r, z) :: fr) -> r ∉ map fst fr -> index_ok z ->
  (forall j, 0 <= j < 12 -> linked (mem s) (regions_array + 8 * j) (fl j) /\ NoDup (fl j) /\
     forall a, a ∈ fl j <-> exists z', (a, z') ∈ fr /\ HeapCalculateIndex z' = j) ->
  let i := HeapCalculateIndex z in let head := regions_array + 8 * i in let first := load 8 (mem s) head in
  frame (linking head first r) (mem s) m' -> load 8 m' head = r -> fld m' RegionListReference r = head ->
  load 8 m' (r + 8) = first -> (first <> 0 -> fld m' RegionListReference first = r + 8) -> NoDup (map fst fr) ->
  lists_ok m' ((r, z) :: fr).
Proof.
  intros Hp Hr Hi Hfl i head first Hf H1 H2 H3 H4 Hnd. exists (fun j => if j =? i then r :: fl i else fl j). intros j Hj.
  pose proof (places_elem _ _ r z Hp ltac:(set_solver)) as Hpr. destruct (Hfl i Hi) as (Hl & Hndi & Hini).
  assert (Hpl : forall j a, 0 <= j < 12 -> a ∈ fl j -> place s a /\ a <> r).
  { intros k a Hk Ha. destruct (Hfl k Hk) as (_ & _ & Hin). apply Hin in Ha as (z' & Ha & _).
    split; [eapply places_elem; [exact Hp|right; exact Ha]|]. intros ->. apply Hr, list_elem_of_fmap. by exists (r, z'). }
  destruct (first_listed s (fl i) i Hi Hl (fun a Ha => proj1 (Hpl i a Hi Ha)) Hndi) as [[E0 El]|(l' & El & Hpf & Hl' & Hfi)].
  - fold head first in E0. destruct (Z.eqb_spec j i) as [->|Hne].
    + rewrite El in *. split_and!; [cbn; split_and!; [done|done|congruence]|by apply NoDup_singleton|].
      intros a. rewrite list_elem_of_singleton. split; [intros ->; exists z; split; [by left|done]|]. intros (z' & Hz & Hz2).
      apply elem_of_cons in Hz as [[= -> ->]|Hz]; [done|]. assert (a ∈ @nil Z) as Hx by (apply Hini; by exists z'). by apply elem_of_nil in Hx.
    + destruct (Hfl j Hj) as (Hlj & Hndj & Hinj). split_and!; [|done|].
      * eapply (linked_other s m' i r (fl j) first); try done; [by left| |left; by exists j| |unfold head; lia].
        -- intros a Ha. destruct (Hpl j a Hj Ha) as [Hpa ?]. split_and!; [done|done|]. pose proof (pl_positive _ _ Hpa). lia.
        -- destruct Hpr as [_ _ _ _ Hd]. unfold disjoint, array_range in Hd. cbn in Hd. lia.
      * intros a. rewrite Hinj. split; intros (z' & Hz & Hz2); exists z'; (split; [|done]); [by right|].
        apply elem_of_cons in Hz as [[= -> ->]|Hz]; [|done]. by destruct Hne.
  - fold head first in El, Hpf, Hl', Hfi. pose proof (pl_positive _ _ Hpf). destruct (Z.eqb_spec j i) as [->|Hne].
    + split_and!.
      * rewrite El. cbn. split_and!; [done|done|done|apply H4; lia|]. eapply (linked_other s m' i r l' first); try done; [by right| |right; by exists first| |].
        -- intros a Ha. destruct (Hpl i a Hi ltac:(rewrite El; set_solver)). split_and!; [done|done|]. by intros ->.
        -- destruct (Hpl i first Hi ltac:(rewrite El; set_solver)). lia.
        -- destruct Hpf as [_ _ _ _ Hd]. unfold disjoint, array_range in Hd. cbn in Hd. unfold i, index_ok in *. lia.
      * constructor; [|done]. intros Ha. by destruct (Hpl i r Hi Ha).
      * intros a. rewrite elem_of_cons, Hini. split.
        -- intros [->|(z' & Hz & Hz2)]; [exists z; split; [by left|done]|exists z'; split; [by right|done]].
        -- intros (z' & Hz & Hz2). apply elem_of_cons in Hz as [[= -> ->]|Hz]; [by left|right; by exists z'].
    + destruct (Hfl j Hj) as (Hlj & Hndj & Hinj). split_and!; [|done|].
      * eapply (linked_other s m' i r (fl j) first); try done; [by right| |left; by exists j| |unfold head; lia].
        -- intros a Ha. destruct (Hpl j a Hj Ha) as [Hpa ?]. split_and!; [done|done|]. intros ->. apply Hinj in Ha as (z1 & Hz1 & Ej).
           destruct (proj1 (Hini first) ltac:(rewrite El; set_solver)) as (z2 & Hz2 & Ei). rewrite (fst_unique fr first z1 z2) in Ej by done. congruence.
        -- destruct Hpr as [_ _ _ _ Hd]. unfold disjoint, array_range in Hd. cbn in Hd. lia.
      * intros a. rewrite Hinj. split; intros (z' & Hz & Hz2); exists z'; (split; [|done]); [by right|].
        apply elem_of_cons in Hz as [[= -> ->]|Hz]; [|done]. by destruct Hne.
Qed.

Lemma bind_list_head {A} s i (k : Z -> M EsHeap A) : 0 <= i < 12 -> bind (list_head i) k s = k (regions_array + 8 * i) s.
Proof. intros Hi. unfold bind, list_head. by rewrite (proj2 (Z.leb_le 0 i)), (proj2 (Z.ltb_lt i 12)) by lia. Qed.

Lemma Add_spec s fr r z : lists_ok (mem s) fr -> places s ((r, z) :: fr) -> NoDup (map fst ((r, z) :: fr)) -> 32 <= z < 65536 ->
  fld (mem s) Used r = 0 -> fld (mem s) Size r = z ->
  exists m', HeapAddFreeRegion r s = (Ok tt, set_mem m' s) /\ lists_ok m' ((r, z) :: fr) /\ frame (links ((r, z) :: fr)) (mem s) m'.
Proof.
  intros (fl & Hfl) Hp Hnd Hz Hused Hsize. pose proof (places_elem _ _ r z Hp ltac:(set_solver)) as Hpr. pose proof (index_range z Hz) as Hi.
  cbn [map fst] in Hnd. apply list.NoDup_cons in Hnd as [Hr Hnd]. destruct (Hfl _ Hi) as (Hl & Hndi & Hini).
  set (i := HeapCalculateIndex z) in *. set (head := regions_array + 8 * i) in *. set (first := load 8 (mem s) head).
  assert (Href : reference s head) by (left; by exists i).
  assert (Hfirst : first = 0 \/ (place s first /\ first <> r /\ exists z', (first, z') ∈ fr)).
  { destruct (fl i) as [|a l] eqn:El; cbn in Hl; [by left|right]. destruct Hl as (Ea & _). fold first in Ea.
    destruct (proj1 (Hini first) ltac:(rewrite Ea; set_solver)) as (z' & Hz' & _).
    split_and!; [eapply places_elem; [exact Hp|right; exact Hz']| |by exists z']. intros E. apply Hr, list_elem_of_fmap. exists (first, z'). by rewrite <- E. }
  assert (Hfr : 0 <= first < 2 ^ 64) by (destruct Hfirst as [->|([] & _)]; lia). pose proof Hpr as [Hr1 Hr2 Hr3 _ Hr5].
  unfold disjoint, array_range in Hr5. cbn in Hr5. unfold HeapAddFreeRegion. rewrite !bind_read, Hused, Hsize by done.
  rewrite (proj2 (Z.ltb_ge z 32)) by lia. cbn [orb negb Z.eqb]. rewrite bind_list_head by done. fold i head.
  rewrite bind_read_reference, bind_write by done. fold first. set (m1 := put AllocationSize r first (mem s)).
  set (m2 := if first =? 0 then m1 else put RegionListReference first (r + 8) m1).
  assert (E2 : (if first =? 0 then ret tt else write_field RegionListReference first (r + field_offset AllocationSize)) (set_mem m1 s) =
    (Ok tt, set_mem m2 s)).
  { unfold m2. destruct (Z.eqb_spec first 0); [done|]. destruct Hfirst as [|(Hpf & _)]; [done|].
    by rewrite write_field_spec by by apply place_set_mem. }
  rewrite (bind_ok _ _ _ _ _ E2), bind_write_reference, write_field_spec
    by (rewrite ?reference_set_mem, ?place_set_mem; done). cbn [mem set_mem].
  set (m4 := put RegionListReference r head _). exists m4. split; [done|].
  assert (Hf : frame (linking head first r) (mem s) m4).
  { unfold m4. apply frame_put; [|intros; right; left; unfold field_range, between in *; cbn in *; lia]. apply frame_store; [|by left].
    assert (H1 : frame (linking head first r) (mem s) m1).
    { apply frame_put; [done|]. intros; right; left; unfold field_range, between in *; cbn in *; lia. }
    unfold m2. destruct (Z.eqb_spec first 0); [done|]. apply frame_put; [done|]. by right; right. }
  assert (Hpos : first <> 0 -> (first + 32 <= r \/ r + 32 <= first) /\ (first + 32 <= head \/ head + 8 <= first)).
  { intros Hf0. destruct Hfirst as [|(Hpf & Hfr1 & _)]; [done|]. split.
    - by apply aligned_apart; [apply Hpf| |].
    - destruct Hpf as [_ _ _ _ Hd]. unfold disjoint, array_range in Hd. cbn in Hd. unfold head, index_ok in *. lia. }
  assert (Hhr : r + 32 <= head \/ head + 8 <= r) by (unfold head, index_ok in *; lia). split.
  - apply (newly_linked s m4 fr r z fl); try done.
    + unfold m4, put. rewrite load_store_other by (cbn; lia). rewrite load_store_same. apply Z.mod_small. cbn. lia.
    + apply fld_put_same. cbn. pose proof (reference_below s head array_end Href). pose proof (reference_positive s head Href). lia.
    + unfold m4, put. rewrite !load_store_other by (cbn; lia). unfold m2. destruct (Z.eqb_spec first 0) as [E0|E0].
      * unfold m1, put. cbn [field_offset]. rewrite load_store_same. by apply Z.mod_small.
      * specialize (Hpos E0). unfold put. rewrite load_store_other by (cbn; lia). unfold m1, put. cbn [field_offset]. rewrite load_store_same. by apply Z.mod_small.
    + intros E0. fold i head first in E0 |- *. specialize (Hpos E0). unfold m4. other_field. unfold fld. rewrite load_store_other by (cbn; lia).
      unfold m2. rewrite (proj2 (Z.eqb_neq first 0)) by done. apply fld_put_same. cbn. lia.
  - eapply frame_mono; [exact Hf|]. intros x [Hx|[Hx|[Hf0 Hx]]].
    + left. unfold head, index_ok, between in *. lia.
    + right. exists (r, z). split; [by left|done].
    + right. destruct Hfirst as [|(_ & _ & z' & Hz')]; [done|]. exists (first, z'). split; [by right|].
      unfold field_range, between in *. cbn in *. lia.
Qed.

(** ** Finding *)

Lemma Find_spec s fr size : lists_ok (mem s) fr -> places s fr -> NoDup (map fst fr) ->
  (forall a z, (a, z) ∈ fr -> 32 <= z < 65536 /\ fld (mem s) Size a = z /\ fld (mem s) Used a = 0) ->
  forall n i, 0 <= i -> i + Z.of_nat n = 12 ->
  find_region n i size s = (Ok None, s) \/
  exists r z fr' m', find_region n i size s = (Ok (Some r), set_mem m' s) /\ fr ≡ₚ (r, z) :: fr' /\ size <= z /\
    lists_ok m' fr' /\ frame (links fr) (mem s) m'.
Proof.
  intros Hlists Hp Hnd Hfr. induction n as [|n IH]; intros i Hi Hn; [by left|]. cbn [find_region].
  specialize (IH (i + 1) ltac:(lia) ltac:(lia)). rewrite bind_list_head by lia.
  rewrite bind_read_reference by (left; exists i; split; [lia|done]). set (first := load 8 (mem s) (regions_array + 8 * i)).
  destruct (Z.eqb_spec first 0) as [_|Hne]; [exact IH|].
  assert (exists z, (first, z) ∈ fr) as (z & Hz).
  { destruct Hlists as (fl & Hfl). destruct (Hfl i ltac:(lia)) as (Hl & _ & Hin). destruct (fl i) as [|a l]; cbn in Hl; [done|].
    destruct Hl as (E & _). destruct (proj1 (Hin first)) as (z & Hz & _); [unfold first; rewrite E; set_solver|by exists z]. }
  destruct (Hfr first z Hz) as (Hzr & Hsize & Hused). rewrite bind_read by (by eapply places_elem). rewrite Hsize.
  destruct (Z.ltb_spec z size) as [_|Hle]; [exact IH|]. right.
  apply elem_of_Permutation in Hz as (fr' & Hperm). assert (Hnd' : NoDup (map fst ((first, z) :: fr'))).
  { apply (NoDup_proper (map fst fr)); [|exact Hnd]. by apply Permutation_map. }
  destruct (Remove_spec s fr' first z) as (m' & E & Hl' & Hf').
  - by rewrite <- Hperm.
  - unfold places in *. by rewrite <- Hperm.
  - done.
  - by apply index_range.
  - done.
  - exists first, z, fr', m'. unfold bind. rewrite E. split_and!; [done|done|done|done|].
    eapply frame_mono; [exact Hf'|]. intros x [Hx|(r & Hr & Hx)]; [by left|right]. exists r. split; [by rewrite Hperm|done].
Qed.
End Lists.
