(* ===== verification/SharedHeapBlocks.v ===== *)
(** * The blocks of the heap

    A block is a sequence of regions, [reg]; [shape] says that the headers in memory are those
    of given blocks and that given regions are in the free lists.  It is kept when the regions
    of a stretch of a block are replaced by others of the same total size ([shape_replace]) and
    when the free lists change ([shape_links]).  [HeapValidate] accepts every heap of this shape. *)

From stdpp Require Import base list sets.
From S2P Require Import Prelude SharedHeap SharedHeapRegions SharedHeapLists.

(** A region: its size, and for a used one the number of bytes that were asked for. *)
Record reg := Reg { rsize : Z; ralloc : option Z }.

(** A block: its address and its regions, without the last one that marks the end. *)
Definition block : Type := Z * list reg.

Fixpoint total (l : list reg) : Z := match l with [] => 0 | r :: l => rsize r + total l end.
Fixpoint last_size (prev : Z) (l : list reg) : Z := match l with [] => prev | r :: l => last_size (rsize r) l end.
Fixpoint placed (a : Z) (l : list reg) : list (Z * reg) := match l with [] => [] | r :: l => (a, r) :: placed (a + rsize r) l end.

Definition all_placed (G : list block) : list (Z * reg) := G ≫= fun b => placed (fst b) (snd b).
Definition free_of (p : Z * reg) : option (Z * Z) := match ralloc (snd p) with None => Some (fst p, rsize (snd p)) | Some _ => None end.
Definition frees (G : list block) : list (Z * Z) := omap free_of (all_placed G).

Lemma total_regions_app l1 l2 : total (l1 ++ l2) = total l1 + total l2.
Proof. induction l1; cbn; lia. Qed.
Lemma last_size_app prev l1 l2 : last_size prev (l1 ++ l2) = last_size (last_size prev l1) l2.
Proof. revert prev. induction l1; intros; cbn; auto. Qed.
Lemma placed_app a l1 l2 : placed a (l1 ++ l2) = placed a l1 ++ placed (a + total l1) l2.
Proof. revert a. induction l1 as [|r l1 IH]; intros a; cbn; [by rewrite Z.add_0_r|]. rewrite IH. do 3 f_equal. lia. Qed.

Definition sizes_ok (l : list reg) : Prop := Forall (fun r => 32 <= rsize r /\ rsize r mod 32 = 0) l.

Lemma sizes_total l : sizes_ok l -> 0 <= total l /\ total l mod 32 = 0 /\ 32 * Z.of_nat (length l) <= total l.
Proof.
  induction 1 as [|r l [H1 H2] _ IH]; cbn; [done|]. split_and!; [lia| |lia]. Z.div_mod_to_equations; lia.
Qed.

Lemma placed_range a l p r : sizes_ok l -> (p, r) ∈ placed a l ->
  a <= p /\ p + rsize r <= a + total l /\ 32 <= rsize r /\ p mod 32 = a mod 32 /\ rsize r mod 32 = 0.
Proof.
  intros Hs. revert a. induction Hs as [|r' l [H1 H2] Hs IH]; intros a Hin; cbn in *; [by apply elem_of_nil in Hin|].
  pose proof (sizes_total l Hs). apply elem_of_cons in Hin as [[= -> ->]|Hin]; [lia|]. specialize (IH _ Hin).
  split_and!; try lia. Z.div_mod_to_equations; lia.
Qed.

(** Ranges that do not overlap. *)
Fixpoint apart (l : list (Z * Z)) : Prop := match l with [] => True | r :: l => Forall (disjoint r) l /\ apart l end.

#[export] Instance apart_perm : Proper ((≡ₚ) ==> iff) apart.
Proof.
  assert (H : forall l l', l ≡ₚ l' -> apart l -> apart l'); [|intros l l' Hp; split; apply H; [done|by symmetry]].
  induction 1 as [|r l l' Hp IH|r1 r2 l|l1 l2 l3 _ IH1 _ IH2]; cbn; [done| | |auto].
  - intros [H1 H2]. split; [by rewrite <- Hp|auto].
  - rewrite !list.Forall_cons. intros ([H1 H2] & H3 & H4). split_and!; [by apply disjoint_sym|done..].
Qed.

Lemma apart_app l1 l2 : apart (l1 ++ l2) <-> apart l1 /\ apart l2 /\ forall r1 r2, r1 ∈ l1 -> r2 ∈ l2 -> disjoint r1 r2.
Proof.
  induction l1 as [|r l1 IH]; cbn; [set_solver|]. rewrite list.Forall_app, IH, !list.Forall_forall. set_solver.
Qed.

Lemma apart_elem l r1 r2 : apart l -> r1 ∈ l -> r2 ∈ l -> r1 = r2 \/ disjoint r1 r2.
Proof.
  induction l as [|r l IH]; cbn; [set_solver|]. intros [H1 H2] Hr1 Hr2. rewrite list.Forall_forall in H1.
  apply elem_of_cons in Hr1 as [->|Hr1], Hr2 as [->|Hr2]; [by left|right; auto|right; apply disjoint_sym; auto|auto].
Qed.

Definition extent (p : Z * reg) : Z * Z := (fst p, rsize (snd p)).

Lemma placed_apart a l : sizes_ok l -> apart (map extent (placed a l)).
Proof.
  intros Hs. revert a. induction Hs as [|r l [H1 H2] Hs IH]; intros a; cbn; [done|]. split; [|apply IH].
  apply list.Forall_forall. intros e He. apply list_elem_of_fmap in He as ([p r'] & -> & Hp).
  pose proof (placed_range _ _ _ _ Hs Hp). unfold disjoint. cbn. lia.
Qed.

Definition blocks_sized (G : list block) : Prop := Forall (fun b => sizes_ok (snd b) /\ total (snd b) = 65504 /\ fst b mod 32 = 0) G.
Definition block_range (b : block) : Z * Z := (fst b, 65536).

Lemma all_placed_cons b G : all_placed (b :: G) = placed (fst b) (snd b) ++ all_placed G.
Proof. done. Qed.

Lemma all_placed_in G p : p ∈ all_placed G <-> exists b, b ∈ G /\ p ∈ placed (fst b) (snd b).
Proof. unfold all_placed. rewrite list_elem_of_bind. set_solver. Qed.

Lemma all_placed_range G p r : blocks_sized G -> (p, r) ∈ all_placed G ->
  exists b, b ∈ G /\ fst b <= p /\ p + rsize r <= fst b + 65504 /\ 32 <= rsize r /\ p mod 32 = 0 /\ rsize r mod 32 = 0.
Proof.
  intros HG Hp. apply all_placed_in in Hp as (b & Hb & Hp). unfold blocks_sized in HG. rewrite list.Forall_forall in HG.
  destruct (HG b Hb) as (H1 & H2 & H3). exists b. pose proof (placed_range _ _ _ _ H1 Hp). split; [done|]. lia.
Qed.

Lemma all_apart G : blocks_sized G -> apart (map block_range G) -> apart (map extent (all_placed G)).
Proof.
  intros HG. induction G as [|b G IH]; cbn; [done|]. unfold blocks_sized in HG. rewrite list.Forall_cons in HG.
  destruct HG as ((H1 & H2 & H3) & HG). intros [Hd Ha]. rewrite map_app. apply apart_app. split_and!.
  - by apply placed_apart.
  - by apply IH.
  - intros r1 r2 Hr1 Hr2. apply list_elem_of_fmap in Hr1 as ([p r] & -> & Hp), Hr2 as ([p' r'] & -> & Hp').
    pose proof (placed_range _ _ _ _ H1 Hp). destruct (all_placed_range _ _ _ HG Hp') as (b' & Hb' & ?).
    rewrite list.Forall_forall in Hd. specialize (Hd (block_range b')). unfold disjoint, block_range, extent in *. cbn in *.
    destruct Hd; [|lia..]. apply list_elem_of_fmap. by exists b'.
Qed.

Lemma frees_in G a z : (a, z) ∈ frees G <-> (a, Reg z None) ∈ all_placed G.
Proof.
  unfold frees. rewrite list_elem_of_omap. split.
  - intros ([p [z' [n|]]] & Hp & E); cbv in E; [done|]. by injection E as -> ->.
  - intros Hp. by exists (a, Reg z None).
Qed.

Lemma NoDup_extents l : apart (map extent l) -> Forall (fun p => 0 < rsize (snd p)) l -> NoDup (map fst l).
Proof.
  induction l as [|[a r] l IH]; cbn; [constructor|]. intros [H1 H2]. rewrite list.Forall_cons. intros [H3 H4].
  constructor; [|auto]. intros Ha. apply list_elem_of_fmap in Ha as ([a' r'] & -> & Hp). rewrite list.Forall_forall in H1. rewrite list.Forall_forall in H4.
  specialize (H1 (extent (a', r'))). specialize (H4 _ Hp). unfold disjoint, extent in H1. cbn in *.
  destruct H1; [apply list_elem_of_fmap; by exists (a', r')|lia..].
Qed.

Lemma NoDup_frees G : blocks_sized G -> apart (map block_range G) -> NoDup (map fst (frees G)).
Proof.
  intros HG Ha. pose proof (all_apart G HG Ha) as Hap. assert (NoDup (map fst (all_placed G))) as Hnd.
  { apply NoDup_extents; [done|]. apply list.Forall_forall. intros [p r] Hp. destruct (all_placed_range _ _ _ HG Hp) as (b & ?). cbn. lia. }
  unfold frees. clear -Hnd. induction (all_placed G) as [|[a [z [n|]]] l IH]; cbn; [constructor| |].
  - apply IH. cbn in Hnd. by apply list.NoDup_cons in Hnd as [_ ?].
  - cbn in Hnd. apply list.NoDup_cons in Hnd as [Hn Hnd]. constructor; [|by apply IH].
    intros Hin. apply Hn. apply list_elem_of_fmap in Hin as ([a' z'] & -> & Hin). apply list_elem_of_omap in Hin as ([a2 [z2 [n2|]]] & Hp & E); [done|].
    injection E as -> ->. apply list_elem_of_fmap. by exists (a', Reg z' None).
Qed.

Section Blocks.
Context `{Laws : HeapSystemLaws}.

(** ** Headers in memory *)

Definition used_word (r : reg) : Z := match ralloc r with None => 0 | Some _ => USED_HEAP_REGION_MAGIC end.

(** The header at [a], [off] bytes into the block, behind a region of [prev] bytes. *)
Definition header (m : memory) (a prev off : Z) (r : reg) : Prop :=
  fld m Size a = rsize r /\ fld m Previous a = prev /\ fld m Offset a = off /\ fld m Used a = used_word r.

Fixpoint seg (m : memory) (base prev off : Z) (l : list reg) : Prop :=
  match l with
  | [] => True
  | r :: l => header m (base + off) prev off r /\ seg m base (rsize r) (off + rsize r) l
  end.

(** The last region of a block. *)
Definition end_ok (m : memory) (base prev : Z) : Prop :=
  let e := base + 65504 in
  fld m Size e = 32 /\ fld m Previous e = prev /\ fld m Offset e = 65504 /\ fld m Used e = USED_HEAP_REGION_MAGIC /\
  fld m RegionListReference e = heap_address.

(** A block from [off] on. *)
Definition rest (m : memory) (base prev off : Z) (l : list reg) : Prop :=
  seg m base prev off l /\ sizes_ok l /\ off + total l = 65504 /\ end_ok m base (last_size prev l).

Definition block_ok (m : memory) (b : block) : Prop := rest m (fst b) 0 0 (snd b).

Lemma seg_app m base prev off l1 l2 :
  seg m base prev off (l1 ++ l2) <-> seg m base prev off l1 /\ seg m base (last_size prev l1) (off + total l1) l2.
Proof.
  revert prev off. induction l1 as [|r l1 IH]; intros prev off; cbn; [rewrite Z.add_0_r; tauto|].
  rewrite IH, Z.add_assoc. tauto.
Qed.

Lemma header_frame W m m' a prev off r : frame W m m' -> header m a prev off r -> (forall x, between a (a + 8) x -> ~ W x) ->
  header m' a prev off r.
Proof.
  intros Hf (H1 & H2 & H3 & H4) Hw.
  assert (E : forall f, Z.of_nat (field_bytes f) + field_offset f <= 8 -> fld m' f a = fld m f a).
  { intros f Hb. eapply fld_frame; [exact Hf|]. intros x Hx. apply Hw. unfold field_range, between in *. destruct f; cbn in *; lia. }
  unfold header. rewrite !E by (cbn; lia). done.
Qed.

Lemma seg_frame W m m' base prev off l : frame W m m' -> seg m base prev off l ->
  (forall p x, p ∈ placed (base + off) l -> between (fst p) (fst p + 8) x -> ~ W x) -> seg m' base prev off l.
Proof.
  intros Hf. revert prev off. induction l as [|r l IH]; intros prev off; cbn; [done|]. intros [H1 H2] Hw. split.
  - eapply header_frame; [exact Hf|exact H1|]. intros x. apply (Hw (base + off, r)). by left.
  - apply IH; [done|]. intros p x Hp. apply Hw. right. by rewrite <- Z.add_assoc.
Qed.

Lemma end_frame W m m' base prev : frame W m m' -> end_ok m base prev ->
  (forall x, between (base + 65504) (base + 65512) x \/ between (base + 65520) (base + 65528) x -> ~ W x) -> end_ok m' base prev.
Proof.
  intros Hf Hend Hw. unfold end_ok in *.
  assert (E : forall f, f <> AllocationSize -> fld m' f (base + 65504) = fld m f (base + 65504)).
  { intros f Hb. eapply fld_frame; [exact Hf|]. intros x Hx. apply Hw. unfold field_range, between in *. destruct f; cbn in *; (done || lia). }
  rewrite !E by done. done.
Qed.

Lemma rest_frame W m m' base prev off l : frame W m m' -> rest m base prev off l ->
  (forall p x, p ∈ placed (base + off) l -> between (fst p) (fst p + 8) x -> ~ W x) ->
  (forall x, between (base + 65504) (base + 65512) x \/ between (base + 65520) (base + 65528) x -> ~ W x) -> rest m' base prev off l.
Proof. intros Hf (H1 & H2 & H3 & H4) Hw1 Hw2. split_and!; [by eapply seg_frame|done|done|by eapply end_frame]. Qed.

(** The links in the headers of some regions. *)
Definition link_bytes (ps : list (Z * reg)) (x : Z) : Prop := exists p, p ∈ ps /\ between (fst p + 8) (fst p + 24) x.

Lemma link_bytes_header a l p x : sizes_ok l -> p ∈ placed a l -> link_bytes (placed a l) x -> ~ between (fst p) (fst p + 8) x.
Proof.
  intros Hs Hp (q & Hq & Hx) Hx2. destruct p as [p r], q as [q r'].
  destruct (apart_elem _ (extent (p, r)) (extent (q, r')) (placed_apart a l Hs)) as [E|Hd].
  - apply list_elem_of_fmap. by exists (p, r).
  - apply list_elem_of_fmap. by exists (q, r').
  - injection E as -> _. unfold between in *. cbn in *. lia.
  - pose proof (placed_range _ _ _ _ Hs Hp). pose proof (placed_range _ _ _ _ Hs Hq). unfold disjoint, extent, between in *. cbn in *. lia.
Qed.

Lemma link_bytes_range a l x : sizes_ok l -> link_bytes (placed a l) x -> a + 8 <= x < a + total l.
Proof. intros Hs ([q r] & Hq & Hx). pose proof (placed_range _ _ _ _ Hs Hq). unfold between in *. cbn in *. lia. Qed.

(** The region at [off], or the end, gets another predecessor; links may change too. *)
Lemma rest_previous W m m' base prev prev' off l : frame W m m' -> rest m base prev off l -> fld m' Previous (base + off) = prev' ->
  (forall x, between (base + off) (base + off + 2) x \/ between (base + off + 4) (base + 65536) x -> W x -> link_bytes (placed (base + off) l) x) ->
  rest m' base prev' off l.
Proof.
  intros Hf (H1 & H2 & H3 & H4) Hp Hw. pose proof (sizes_total l H2).
  assert (Hlow : forall x, between (base + off) (base + off + 2) x \/ between (base + off + 4) (base + off + 8) x -> ~ W x).
  { intros x Hx Hwx. assert (Hb : link_bytes (placed (base + off) l) x) by (apply Hw; [unfold between in *; lia|done]).
    apply link_bytes_range in Hb; [|done]. unfold between in *. lia. }
  assert (E : forall f, f = Size \/ f = Offset \/ f = Used -> fld m' f (base + off) = fld m f (base + off)).
  { intros f Hb. eapply fld_frame; [exact Hf|]. intros x Hx. apply Hlow. unfold field_range, between in *. destruct Hb as [->|[->| ->]]; cbn in *; lia. }
  assert (Hend : forall x, between (base + 65504 + 4) (base + 65536) x -> ~ W x).
  { intros x Hx Hwx. assert (Hb : link_bytes (placed (base + off) l) x) by (apply Hw; [unfold between in *; lia|done]).
    apply link_bytes_range in Hb; [|done]. unfold between in *. lia. }
  destruct l as [|r l].
  - cbn in *. assert (off = 65504) as -> by lia. destruct H4 as (E1 & E2 & E3 & E4 & E5). split_and!; [done|done|done|].
    split_and!; [rewrite E; auto|done|rewrite E; auto|rewrite E; auto|]. rewrite <- E5. eapply fld_frame; [exact Hf|].
    intros x Hx. apply Hend. unfold field_range, between in *. cbn in *. lia.
  - cbn [seg total last_size] in *. destruct H1 as [(E1 & E2 & E3 & E4) Hseg]. pose proof H2 as H2'. unfold sizes_ok in H2'. apply list.Forall_cons in H2' as [Hr Hl].
    pose proof (sizes_total l Hl). assert (Hr2 : 32 <= rsize r) by apply Hr. split_and!; [|done|done|].
    + cbn [seg]. split; [split_and!; [rewrite E; auto|done|rewrite E; auto|rewrite E; auto]|]. eapply seg_frame; [exact Hf|exact Hseg|].
      intros [p r'] x Hin Hx Hwx. rewrite Z.add_assoc in Hin. pose proof (placed_range _ _ _ _ Hl Hin).
      assert (Hb : link_bytes (placed (base + off) (r :: l)) x) by (apply Hw; [unfold between in *; cbn in *; lia|done]).
      revert Hx. apply (link_bytes_header (base + off) (r :: l) (p, r') x); [done|by right|done].
    + eapply end_frame; [exact Hf|exact H4|]. intros x Hx Hwx.
      assert (Hb : link_bytes (placed (base + off) (r :: l)) x) by (apply Hw; [unfold between in *; lia|done]).
      apply link_bytes_range in Hb; [|done]. cbn [total] in Hb. unfold between in *. lia.
Qed.

(** Other regions in the middle of a block. *)
Lemma block_replace W m m' base l1 mid mid' l2 : let lo := base + total l1 in let hi := lo + total mid in
  block_ok m (base, l1 ++ mid ++ l2) -> frame W m m' -> total mid' = total mid -> sizes_ok mid' ->
  seg m' base (last_size 0 l1) (total l1) mid' -> fld m' Previous hi = last_size (last_size 0 l1) mid' ->
  (forall x, between base (base + 65536) x -> W x ->
     between lo hi x \/ between (hi + 2) (hi + 4) x \/ link_bytes (placed base l1) x \/ link_bytes (placed hi l2) x) ->
  block_ok m' (base, l1 ++ mid' ++ l2).
Proof.
  intros lo hi (H1 & H2 & H3 & H4) Hf Ht Hs Hmid Hp Hw. cbn [fst snd] in *. unfold sizes_ok in H2. apply list.Forall_app in H2 as [Hs1 H2]. apply list.Forall_app in H2 as [Hsm Hs2].
  apply seg_app in H1 as [Hseg1 H1]. apply seg_app in H1 as [Hsegm Hseg2]. rewrite Z.add_0_l in *. rewrite !total_regions_app in H3.
  pose proof (sizes_total _ Hs1). pose proof (sizes_total _ Hsm). pose proof (sizes_total _ Hs2).
  assert (Hrest : rest m' base (last_size (last_size 0 l1) mid') (total l1 + total mid) l2).
  { apply (rest_previous W m _ _ (last_size (last_size 0 l1) mid)); [done| | |].
    - split_and!; [done|done|lia|]. by rewrite !last_size_app in H4.
    - by rewrite Z.add_assoc.
    - intros x Hx Hwx. rewrite Z.add_assoc in *. unfold lo, hi, between in *. destruct (Hw x ltac:(lia) Hwx) as [?|[?|[Hb|Hb]]]; [lia|lia| |done].
      apply link_bytes_range in Hb; [lia|done]. }
  destruct Hrest as (R1 & R2 & R3 & R4). unfold block_ok, rest. cbn [fst snd]. split_and!.
  - apply seg_app. split.
    + eapply seg_frame; [exact Hf|exact Hseg1|]. intros [p r] x Hin Hx Hwx. rewrite Z.add_0_r in Hin. pose proof (placed_range _ _ _ _ Hs1 Hin).
      unfold lo, hi, between in *. cbn in *. destruct (Hw x ltac:(lia) Hwx) as [?|[?|[Hb|Hb]]]; [lia|lia| |].
      * apply (link_bytes_header base l1 (p, r) x Hs1 Hin Hb). unfold between. cbn. lia.
      * apply link_bytes_range in Hb; [lia|done].
    + apply seg_app. rewrite Z.add_0_l, Ht. done.
  - unfold sizes_ok; by rewrite !list.Forall_app.
  - rewrite !total_regions_app. lia.
  - by rewrite !last_size_app.
Qed.

(** ** The whole heap *)

(** A large allocation: the address of its header and the number of bytes that were asked for. *)
Definition large_range (b : Z * Z) : Z * Z := (fst b, region_size (snd b)).

(** The array of blocks, as far as it is valid; requests that were refused leave a 0 in it. *)
Record blocks_listed (s : EsHeap) (G : list block) : Prop := {
  bl_length : length (blocks s) = 16%nat;
  bl_count : Z.of_nat (length G) <= blockCount s < 2 ^ 64;
  bl_valid : cannotValidate s = false -> blockCount s <= 16 /\
    filter (fun b => b <> 0) (take (Z.to_nat (blockCount s)) (blocks s)) ≡ₚ map fst G;
}.

(** The heap has the blocks [G] and the large allocations [LG], and its lists hold [fr]. *)
Record shape (s : EsHeap) (G : list block) (LG fr : list (Z * Z)) : Prop := {
  sh_owned : owned s ≡ₚ map block_range G ++ map large_range LG;
  sh_apart : apart (array_range :: owned s);
  sh_bounds : Forall (fun r => 0 < fst r /\ fst r mod 32 = 0 /\ fst r + snd r < 2 ^ 64) (owned s);
  sh_blocks : Forall (block_ok (mem s)) G;
  sh_lists : lists_ok (mem s) fr;
  sh_free : exists k, frees G ≡ₚ k ++ fr;
  sh_list : blocks_listed s G;
}.

Lemma shape_perm s G G' LG fr : G ≡ₚ G' -> shape s G LG fr -> shape s G' LG fr.
Proof.
  intros Hp [H1 H2 H3 H4 H5 [k H6] [H7 H8 H9]]. split; [by rewrite <- Hp|done|done|by rewrite <- Hp|done| |].
  - exists k. rewrite <- H6. unfold frees, all_placed. by rewrite Hp.
  - split; [done|by rewrite <- (Permutation_length Hp)|]. by rewrite <- Hp.
Qed.

Section Shape.
Context s G LG fr (Hs : shape s G LG fr).

Lemma block_owned b : b ∈ G -> block_range b ∈ owned s.
Proof. intros Hb. rewrite (sh_owned _ _ _ _ Hs). apply elem_of_app. left. apply list_elem_of_fmap. by exists b. Qed.

Lemma block_bounds b : b ∈ G -> 0 < fst b /\ fst b mod 32 = 0 /\ fst b + 65536 < 2 ^ 64 /\ disjoint (block_range b) array_range.
Proof.
  intros Hb. pose proof (block_owned b Hb) as Ho. pose proof (sh_bounds _ _ _ _ Hs) as Hbd. rewrite list.Forall_forall in Hbd.
  destruct (Hbd _ Ho) as (H1 & H2 & H3). split_and!; [done|done|done|]. apply disjoint_sym.
  pose proof (sh_apart _ _ _ _ Hs) as [Ha _]. rewrite list.Forall_forall in Ha. by apply Ha.
Qed.

Lemma block_place b a : b ∈ G -> fst b <= a -> a <= fst b + 65504 -> a mod 32 = 0 -> place s a.
Proof.
  intros Hb H1 H2 H3. destruct (block_bounds b Hb) as (B1 & B2 & B3 & B4). split; [lia|done|lia| |].
  - apply existsb_exists. exists (block_range b). split; [apply list_elem_of_In; by apply block_owned|]. unfold inside, block_range. cbn.
    apply andb_true_iff. rewrite !Z.leb_le. lia.
  - unfold disjoint, block_range in *. cbn in *. lia.
Qed.

Lemma shape_block b : b ∈ G -> block_ok (mem s) b.
Proof. intros Hb. pose proof (sh_blocks _ _ _ _ Hs) as Hbl. rewrite list.Forall_forall in Hbl. by apply Hbl. Qed.

Lemma shape_sized : blocks_sized G.
Proof.
  apply list.Forall_forall. intros b Hb. destruct (shape_block b Hb) as (_ & H1 & H2 & _). destruct (block_bounds b Hb) as (_ & H3 & _). done.
Qed.

Lemma shape_ranges : apart (map block_range G).
Proof. pose proof (sh_apart _ _ _ _ Hs) as [_ Ha]. rewrite (sh_owned _ _ _ _ Hs) in Ha. by apply apart_app in Ha as [? _]. Qed.

Lemma placed_place p : p ∈ all_placed G -> place s (fst p).
Proof.
  destruct p as [p r]. intros Hp. destruct (all_placed_range _ _ _ shape_sized Hp) as (b & Hb & ?). apply (block_place b); [done|cbn;lia..].
Qed.

Lemma end_place b : b ∈ G -> place s (fst b + 65504).
Proof.
  intros Hb. destruct (block_bounds b Hb) as (_ & H3 & _). apply (block_place b); [done|lia|lia|]. Z.div_mod_to_equations; lia.
Qed.

Lemma shape_nodup : NoDup (map fst fr).
Proof.
  destruct (sh_free _ _ _ _ Hs) as [k Hk]. pose proof (NoDup_frees G shape_sized shape_ranges) as Hnd.
  assert (NoDup (map fst (k ++ fr))) as Hnd' by (apply (NoDup_proper (map fst (frees G))); [by apply Permutation_map|done]).
  rewrite map_app in Hnd'. by apply list.NoDup_app in Hnd' as (_ & _ & ?).
Qed.

Lemma shape_listed a z : (a, z) ∈ fr -> (a, Reg z None) ∈ all_placed G.
Proof. intros Hin. destruct (sh_free _ _ _ _ Hs) as [k Hk]. apply frees_in. rewrite Hk. set_solver. Qed.

Lemma shape_places : places s fr.
Proof. apply list.Forall_forall. intros [a z] Hin. apply (placed_place (a, Reg z None)). by apply shape_listed. Qed.

(** What the header of a region says. *)
Lemma seg_header m base prev off l a r : seg m base prev off l -> (a, r) ∈ placed (base + off) l -> exists prev', header m a prev' (a - base) r.
Proof.
  revert prev off. induction l as [|r' l IH]; intros prev off; cbn; [set_solver|]. intros [H1 H2] Hin.
  apply elem_of_cons in Hin as [[= -> ->]|Hin]; [exists prev; by replace (base + off - base) with off by lia|].
  eapply IH; [exact H2|]. by rewrite Z.add_assoc.
Qed.

Lemma shape_header a r : (a, r) ∈ all_placed G -> exists base prev, header (mem s) a prev (a - base) r.
Proof.
  intros Hin. apply all_placed_in in Hin as (b & Hb & Hin). destruct (shape_block b Hb) as (H1 & _). exists (fst b).
  eapply seg_header; [exact H1|]. by rewrite Z.add_0_r.
Qed.

Lemma shape_free_ok a z : (a, z) ∈ fr -> 32 <= z < 65536 /\ fld (mem s) Size a = z /\ fld (mem s) Used a = 0.
Proof.
  intros Hin. apply shape_listed in Hin. destruct (shape_header a _ Hin) as (base & prev & H1 & _ & _ & H4).
  destruct (all_placed_range _ _ _ shape_sized Hin) as (b & _ & ?). cbn in *. split_and!; [lia|lia|done|done].
Qed.

(** The links of free regions are not in a header of a region, nor in the end of a block. *)
Lemma links_headers x fr' : (forall a z, (a, z) ∈ fr' -> (a, Reg z None) ∈ all_placed G) -> links fr' x ->
  (forall p, p ∈ all_placed G -> ~ between (fst p) (fst p + 8) x) /\
  (forall b, b ∈ G -> ~ (between (fst b + 65504) (fst b + 65536) x)).
Proof.
  intros Hfr Hx. assert (Hcase : between regions_array (regions_array + 96) x \/ exists a, (exists r, (a, r) ∈ all_placed G) /\ between (a + 8) (a + 24) x).
  { destruct Hx as [Hx|([a z] & Hr & Hx)]; [by left|right]. exists a. split; [exists (Reg z None); by apply Hfr|done]. }
  split.
  - intros p Hp Hx1. destruct (placed_place p Hp) as [_ P2 _ _ P5]. unfold disjoint, array_range in P5. cbn in P5.
    destruct Hcase as [Hc|(a & (r & Ha) & Hc)]; unfold between in *; [lia|]. destruct (placed_place _ Ha) as [_ A2 _ _ _]. cbn in A2.
    destruct (Z.eq_dec a (fst p)) as [->|Hne]; [lia|]. pose proof (aligned_apart a (fst p) A2 P2 Hne). lia.
  - intros b Hb Hx1. destruct (block_bounds b Hb) as (B1 & B2 & B3 & B4). unfold disjoint, block_range, array_range in B4. cbn in B4.
    destruct Hcase as [Hc|(a & (r & Ha) & Hc)]; unfold between in *; [lia|]. pose proof (placed_place _ Ha) as [_ A2 _ _ _]. cbn in A2.
    destruct (all_placed_range _ _ _ shape_sized Ha) as (b' & Hb' & ?). destruct (Z.eq_dec (fst b) (fst b')) as [E|Hne]; [lia|].
    pose proof (apart_elem _ (block_range b) (block_range b') shape_ranges) as Hd. unfold disjoint, block_range in Hd. cbn in Hd.
    destruct Hd as [[=]|Hd]; [apply list_elem_of_fmap; by exists b|apply list_elem_of_fmap; by exists b'|done|lia].
Qed.

(** The free lists change. *)
Lemma shape_links m' fr1 fr2 : lists_ok m' fr2 -> frame (links fr1) (mem s) m' ->
  (forall a z, (a, z) ∈ fr1 -> (a, Reg z None) ∈ all_placed G) -> (exists k, frees G ≡ₚ k ++ fr2) -> shape (set_mem m' s) G LG fr2.
Proof.
  intros Hl Hf Hin Hfr. destruct Hs as [H1 H2 H3 H4 H5 H6 [H7 H8 H9]]. split; [done|done|done| |done|done|by split]. cbn.
  apply list.Forall_forall. intros b Hb. rewrite list.Forall_forall in H4. eapply rest_frame; [exact Hf|by apply H4| |].
  - intros p x Hp Hx Hlx. rewrite Z.add_0_r in Hp. apply (proj1 (links_headers x fr1 Hin Hlx) p); [|done]. apply all_placed_in. by exists b.
  - intros x Hx Hlx. apply (proj2 (links_headers x fr1 Hin Hlx) b Hb). unfold between in *. lia.
Qed.
End Shape.

(** The regions [mid] of a block become [mid']; they contain exactly the free regions that are not listed. *)
Lemma frees_mid base l1 mid l2 G0 : frees ((base, l1 ++ mid ++ l2) :: G0) ≡ₚ
  omap free_of (placed (base + total l1) mid) ++
  omap free_of (placed base l1 ++ placed (base + total l1 + total mid) l2 ++ all_placed G0).
Proof.
  unfold frees. rewrite all_placed_cons. cbn [fst snd]. rewrite !placed_app, <- !app_assoc, !omap_app.
  apply Permutation_app_swap_app.
Qed.

Section Replace.
Context s base l1 mid (mid' : list reg) l2 G0 LG fr (Hs : shape s ((base, l1 ++ mid ++ l2) :: G0) LG fr).
Let lo := base + total l1.
Let hi := lo + total mid.
Context (Hfree : frees ((base, l1 ++ mid ++ l2) :: G0) ≡ₚ omap free_of (placed lo mid) ++ fr).

Lemma replaced_frees : total mid' = total mid -> frees ((base, l1 ++ mid' ++ l2) :: G0) ≡ₚ omap free_of (placed lo mid') ++ fr.
Proof.
  intros Ht. rewrite frees_mid in Hfree. apply Permutation_app_inv_l in Hfree. rewrite frees_mid, Ht. fold lo. f_equiv. exact Hfree.
Qed.

Lemma listed_elsewhere a z : (a, z) ∈ fr ->
  (a, Reg z None) ∈ placed base l1 \/ (a, Reg z None) ∈ placed hi l2 \/ (a, Reg z None) ∈ all_placed G0.
Proof.
  intros Hin. rewrite frees_mid in Hfree. apply Permutation_app_inv_l in Hfree. rewrite <- Hfree in Hin.
  apply list_elem_of_omap in Hin as ([p [z' [n|]]] & Hp & E); cbv in E; [done|]. injection E as -> ->. set_solver.
Qed.

Lemma first_block : block_ok (mem s) (base, l1 ++ mid ++ l2) /\ 0 < base /\ base mod 32 = 0 /\ base + 65536 < 2 ^ 64 /\
  disjoint (base, 65536) array_range /\ sizes_ok l1 /\ sizes_ok mid /\ sizes_ok l2 /\ total l1 + total mid + total l2 = 65504.
Proof.
  assert (Hin : (base, l1 ++ mid ++ l2) ∈ (base, l1 ++ mid ++ l2) :: G0) by by left.
  destruct (block_bounds _ _ _ _ Hs _ Hin) as (B1 & B2 & B3 & B4). pose proof (shape_block _ _ _ _ Hs _ Hin) as Hb.
  destruct (Hb) as (H1 & H2 & H3 & H4). cbn [fst snd] in *. pose proof H2 as H2'. unfold sizes_ok in H2'.
  apply list.Forall_app in H2' as [Hs1 H2']. apply list.Forall_app in H2' as [Hsm Hs2]. rewrite !total_regions_app in H3.
  split; [exact Hb|]. do 7 (split; [done|]). lia.
Qed.

Lemma replaced_place a : lo <= a -> a <= hi -> a mod 32 = 0 -> place s a.
Proof.
  intros H1 H2 H3. destruct first_block as (Hb & _ & _ & _ & _ & Hs1 & Hsm & Hs2 & Ht).
  pose proof (sizes_total _ Hs1). pose proof (sizes_total _ Hsm). pose proof (sizes_total _ Hs2).
  apply (block_place _ _ _ _ Hs (base, l1 ++ mid ++ l2)); [by left|cbn; unfold lo, hi in *; lia..|done].
Qed.

Lemma shape_replace W m' fr' : total mid' = total mid -> sizes_ok mid' -> frame W (mem s) m' ->
  seg m' base (last_size 0 l1) (total l1) mid' -> fld m' Previous hi = last_size (last_size 0 l1) mid' ->
  (forall x, W x -> between lo hi x \/ between (hi + 2) (hi + 4) x \/ links fr x) ->
  lists_ok m' fr' -> (exists k, frees ((base, l1 ++ mid' ++ l2) :: G0) ≡ₚ k ++ fr') ->
  shape (set_mem m' s) ((base, l1 ++ mid' ++ l2) :: G0) LG fr'.
Proof.
  intros Ht Hs' Hf Hseg Hp Hw Hl Hfr. destruct first_block as (Hb & B1 & B2 & B3 & B4 & Hs1 & Hsm & Hs2 & Htot).
  pose proof (sizes_total _ Hs1). pose proof (sizes_total _ Hsm). pose proof (sizes_total _ Hs2).
  pose proof (shape_ranges _ _ _ _ Hs) as [Hapart _]. pose proof (shape_sized _ _ _ _ Hs) as Hsized. unfold blocks_sized in Hsized.
  apply list.Forall_cons in Hsized as [_ Hsized]. unfold disjoint, array_range in B4. cbn in B4.
  assert (Hbytes : forall a z x, (a, z) ∈ fr -> between (a + 8) (a + 24) x -> base <= x < base + 65536 ->
    link_bytes (placed base l1) x \/ link_bytes (placed hi l2) x).
  { intros a z x Hin Hx Hr. destruct (listed_elsewhere a z Hin) as [Ha|[Ha|Ha]].
    - left. by exists (a, Reg z None).
    - right. by exists (a, Reg z None).
    - exfalso. destruct (all_placed_range _ _ _ Hsized Ha) as (b & Hbin & ?). rewrite list.Forall_forall in Hapart.
      specialize (Hapart (block_range b)). unfold disjoint, block_range in Hapart. cbn in *.
      destruct Hapart; [apply list_elem_of_fmap; by exists b|unfold between in *; lia..]. }
  destruct Hs as [Q1 Q2 Q3 Q4 Q5 Q6 [Q7 Q8 Q9]]. split; [exact Q1|exact Q2|exact Q3| |exact Hl|exact Hfr|by split]. cbn [mem set_mem].
  apply list.Forall_cons in Q4 as [_ Q4]. apply list.Forall_cons. split.
  - eapply (block_replace W); [exact Hb|exact Hf|done|done|exact Hseg|exact Hp|]. fold lo hi. intros x Hx Hwx.
    destruct (Hw x Hwx) as [?|[?|[Hlx|([a z] & Ha & Hx2)]]]; [by left|by right; left|unfold between in *; lia|right; right]. by eapply Hbytes.
  - apply list.Forall_forall. intros b Hbin. rewrite list.Forall_forall in Q4. rewrite list.Forall_forall in Hapart. specialize (Hapart (block_range b)).
    rewrite list.Forall_forall in Hsized. destruct (Hsized b Hbin) as (S1 & S2 & S3).
    assert (HG : b ∈ (base, l1 ++ mid ++ l2) :: G0) by by right.
    assert (Hout : forall x, W x -> between (fst b) (fst b + 65536) x -> links fr x).
    { intros x Hwx Hx. unfold disjoint, block_range, hi, lo, between in *. cbn in *.
      assert (Hd : base + 65536 <= fst b \/ fst b + 65536 <= base) by (apply Hapart; apply list_elem_of_fmap; by exists b).
      destruct (Hw x Hwx) as [?|[?|?]]; [lia|lia|done]. }
    assert (Hin : forall a z, (a, z) ∈ fr -> (a, Reg z None) ∈ all_placed ((base, l1 ++ mid ++ l2) :: G0)) by apply (shape_listed _ _ _ _ Hs).
    eapply rest_frame; [exact Hf|by apply Q4| |].
    + intros p x Hpin Hx Hwx. rewrite Z.add_0_r in Hpin. destruct p as [p r]. pose proof (placed_range _ _ _ _ S1 Hpin).
      assert (Hlx : links fr x) by (apply Hout; [done|unfold between in *; cbn in *; lia]).
      apply (proj1 (links_headers _ _ _ _ Hs x fr Hin Hlx) (p, r)); [|done]. apply all_placed_in. by exists b.
    + intros x Hx Hwx. assert (Hlx : links fr x) by (apply Hout; [done|unfold between in *; lia]).
      apply (proj2 (links_headers _ _ _ _ Hs x fr Hin Hlx) b HG). unfold between in *. lia.
Qed.
End Replace.

(** ** Validation *)

Lemma free_links s fr a z : lists_ok (mem s) fr -> places s fr -> (a, z) ∈ fr -> index_ok z ->
  fld (mem s) RegionListReference a <> 0 /\
  let next := fld (mem s) AllocationSize a in next = 0 \/ (place s next /\ fld (mem s) RegionListReference next = a + 8).
Proof.
  intros (fl & Hfl) Hp Hin Hi. destruct (listed s fr a z fl Hp Hin Hi Hfl) as (l1 & l2 & _ & Href & _ & _ & Hback & Hnext). rewrite Hback.
  apply reference_positive in Href. split; [lia|]. intros next. destruct Hnext as [E|(_ & Hpn & _ & Hb & _)]; [by left|by right].
Qed.

Lemma validate_links s fr a z : lists_ok (mem s) fr -> places s fr -> (a, z) ∈ fr -> index_ok z -> place s a ->
  (let! reference := read_field RegionListReference a in
   if reference =? 0 then HEAP_PANIC
   else
     let! next := read_field AllocationSize a in
     if next =? 0 then ret tt
     else
       let! back := read_field RegionListReference next in
       if negb (back =? a + field_offset AllocationSize) then HEAP_PANIC else ret tt) s = (Ok tt, s).
Proof.
  intros Hl Hp Hin Hi Ha. destruct (free_links s fr a z Hl Hp Hin Hi) as [Href Hnext]. rewrite !bind_read by done.
  rewrite (proj2 (Z.eqb_neq _ 0)), bind_read by done. destruct (Z.eqb_spec (fld (mem s) AllocationSize a) 0) as [|Hn]; [done|].
  destruct Hnext as [|[Hpn Hb]]; [done|]. rewrite bind_read, Hb by done. cbn [field_offset]. by rewrite Z.eqb_refl.
Qed.

Lemma land_31_aligned z : z mod 32 = 0 -> Z.land z 31 = 0.
Proof. intros Hz. change 31 with (Z.ones 5). by rewrite Z.land_ones by lia. Qed.

(** One round of the loop, at a region with these fields. *)
Lemma validate_step s n start region size prev used previous :
  place s region -> fld (mem s) Size region = size -> fld (mem s) Previous region = prev -> fld (mem s) Offset region = region - start ->
  fld (mem s) Used region = used -> size mod 32 = 0 -> region < start + 65536 ->
  (previous = 0 /\ prev = 0) \/ (previous <> 0 /\ prev <> 0 /\ previous = region - prev) ->
  (used = USED_HEAP_REGION_MAGIC \/ used = 0 /\ exists fr z, lists_ok (mem s) fr /\ places s fr /\ (region, z) ∈ fr /\ index_ok z) ->
  validate_block (S n) start (start + 65536) previous region s = validate_block n start (start + 65536) region (region + size) s.
Proof.
  intros Hp E1 E2 E3 E4 Hz Hend Hprev Hused. cbn [validate_block]. rewrite (proj2 (Z.leb_gt _ _)) by lia.
  assert (Hb : HEAP_REGION_PREVIOUS region s = (Ok (if prev =? 0 then 0 else region - prev), s)).
  { unfold HEAP_REGION_PREVIOUS. rewrite bind_read, E2 by done. done. }
  rewrite (bind_ok _ _ _ _ _ Hb).
  assert (negb (previous =? 0) && negb (previous =? (if prev =? 0 then 0 else region - prev)) = false) as ->.
  { destruct Hprev as [[-> ->]|(H1 & H2 & H3)]; [done|]. rewrite (proj2 (Z.eqb_neq prev 0)), H3, Z.eqb_refl by done. apply andb_false_r. }
  rewrite bind_read, E2 by done. assert ((previous =? 0) && negb (prev =? 0) = false) as ->.
  { destruct Hprev as [[-> ->]|(H1 & H2 & H3)]; [done|]. by rewrite (proj2 (Z.eqb_neq previous 0)). }
  rewrite bind_read, E1, land_31_aligned by done. cbn [negb Z.eqb]. rewrite bind_read, E3, Z.eqb_refl by done. cbn [negb].
  rewrite bind_read, E4 by done.
  assert (negb (used =? USED_HEAP_REGION_MAGIC) && negb (used =? 0) = false) as -> by by destruct Hused as [->|[-> _]].
  assert (Hl : (if used =? 0 then
    let! reference := read_field RegionListReference region in
    if reference =? 0 then HEAP_PANIC
    else let! next := read_field AllocationSize region in
      if next =? 0 then ret tt
      else let! back := read_field RegionListReference next in
        if negb (back =? region + field_offset AllocationSize) then HEAP_PANIC else ret tt
    else ret tt) s = (Ok tt, s)).
  { destruct Hused as [->|[-> (fr & z & H1 & H2 & H3 & H4)]]; [done|]. by apply (validate_links s fr region z). }
  by rewrite (bind_ok _ _ _ _ _ Hl), bind_next, E1.
Qed.

Lemma validate_rest s G LG b : shape s G LG (frees G) -> b ∈ G -> forall l off prev n previous,
  rest (mem s) (fst b) prev off l -> (forall p, p ∈ placed (fst b + off) l -> p ∈ all_placed G) -> 0 <= off -> off mod 32 = 0 ->
  (previous = 0 /\ prev = 0) \/ (previous <> 0 /\ prev <> 0 /\ previous = fst b + off - prev) -> (length l + 2 <= n)%nat ->
  validate_block n (fst b) (fst b + 65536) previous (fst b + off) s = (Ok (fst b + 65536), s).
Proof.
  intros Hs Hb. induction l as [|r l IH]; intros off prev n previous (H1 & H2 & H3 & H4) Hin Hoff Hal Hprev Hn.
  - cbn in H3, Hn. assert (off = 65504) as -> by lia. destruct H4 as (E1 & E2 & E3 & E4 & E5). destruct n as [|n]; [lia|].
    rewrite (validate_step s n (fst b) (fst b + 65504) 32 prev USED_HEAP_REGION_MAGIC previous); try done.
    + destruct n as [|n]; [lia|]. cbn [validate_block]. rewrite (proj2 (Z.leb_le _ _)) by lia. replace (fst b + 65504 + 32) with (fst b + 65536) by lia. done.
    + by apply (end_place _ _ _ _ Hs).
    + rewrite E3. lia.
    + lia.
    + by left.
  - destruct n as [|n]; [cbn in Hn; lia|]. destruct H1 as [(E1 & E2 & E3 & E4) Hseg]. cbn [total last_size length] in *.
    pose proof H2 as H2'. unfold sizes_ok in H2'. apply list.Forall_cons in H2' as [[Hr1 Hr2] Hl]. pose proof (sizes_total _ Hl).
    destruct (block_bounds _ _ _ _ Hs b Hb) as (B1 & _).
    pose proof (Hin (fst b + off, r) ltac:(by left)) as Hpl.
    rewrite (validate_step s n (fst b) (fst b + off) (rsize r) prev (used_word r) previous); try done; [| |rewrite E3; lia|lia|].
    + replace (fst b + off + rsize r) with (fst b + (off + rsize r)) by lia. apply (IH _ (rsize r)); [|..|lia].
      * by split_and!; [| |lia|].
      * intros p Hp. apply Hin. right. by rewrite <- Z.add_assoc.
      * lia.
      * Z.div_mod_to_equations; lia.
      * right. lia.
    + by apply (placed_place _ _ _ _ Hs (fst b + off, r)).
    + unfold used_word. destruct (ralloc r) eqn:E; [by left|right]. split; [done|]. exists (frees G), (rsize r).
      split_and!; [apply Hs|by apply (shape_places _ _ _ _ Hs)| |apply index_range; lia].
      apply frees_in. by destruct r as [z a]; cbn in *; subst.
Qed.

Lemma HeapValidate_spec s G LG : shape s G LG (frees G) -> HeapValidate s = (Ok tt, s).
Proof.
  intros Hs. unfold HeapValidate, bind, get. destruct (cannotValidate s) eqn:Hc; [done|].
  destruct (sh_list _ _ _ _ Hs) as [L1 L2 L3]. destruct (L3 Hc) as [Hcount Hbl].
  assert (Hall : forall n i, 0 <= i -> i + Z.of_nat n <= blockCount s -> validate_blocks n i s = (Ok tt, s)).
  { induction n as [|n IH]; intros i Hi Hn; [done|]. cbn [validate_blocks]. unfold bind at 1, get.
    destruct (lookup_lt_is_Some_2 (blocks s) (Z.to_nat i)) as [b Eb]; [lia|]. rewrite Eb. unfold bind at 1, lift_opt, ret at 1.
    assert (Hone : (if b =? 0 then ret tt else let! region := validate_block block_fuel b (b + 65536) 0 b in
      if negb (region =? b + 65536) then HEAP_PANIC else ret tt) s = (Ok tt, s)).
    { destruct (Z.eqb_spec b 0) as [|Hb]; [done|]. assert (b ∈ map fst G) as Hin.
      { rewrite <- Hbl. apply list_elem_of_filter. split; [done|]. apply list_elem_of_lookup. exists (Z.to_nat i). by rewrite lookup_take_lt by lia. }
      apply list_elem_of_fmap in Hin as ([b' l] & -> & Hin). cbn [fst] in *. pose proof (shape_block _ _ _ _ Hs _ Hin) as Hok.
      destruct (Hok) as (H1 & H2 & H3 & H4). cbn [fst snd] in *. pose proof (sizes_total _ H2).
      pose proof (validate_rest s G LG (b', l) Hs Hin l 0 0 block_fuel 0 Hok) as Hv. cbn [fst snd] in Hv. rewrite Z.add_0_r in Hv.
      erewrite bind_ok; [|apply Hv; [|done|done|by left|unfold block_fuel; lia]].
      - by rewrite Z.eqb_refl.
      - intros p Hp. apply all_placed_in. by exists (b', l). }
    rewrite (bind_ok _ _ _ _ _ Hone). apply IH; lia. }
  apply Hall; lia.
Qed.

Lemma MAYBE_VALIDATE_spec s G LG : shape s G LG (frees G) -> MAYBE_VALIDATE_HEAP s = (Ok tt, s).
Proof. intros Hs. unfold MAYBE_VALIDATE_HEAP. destruct DEBUG_BUILD; [by eapply HeapValidate_spec|done]. Qed.
End Blocks.
