(* ===== verification/SharedHeapSteps.v ===== *)
(** * The pieces of the operations of the heap

    What an operation does not touch ([untouched]); using a free region, whole or split, as
    the body of [EsHeapAllocate] does ([use_region_spec]); a new block ([new_block_spec]) and
    the use of its first region ([use_fresh]). *)

From stdpp Require Import base list sets.
From S2P Require Import Prelude SharedHeap SharedHeapRegions SharedHeapLists SharedHeapBlocks.

Section Steps.
Context `{Laws : HeapSystemLaws}.

(** ** What an operation does not touch *)

(** Between [lo] and [hi], in the header behind, and in the links of listed regions. *)
Definition touched (lo hi : Z) (fr : list (Z * Z)) (x : Z) : Prop :=
  between lo hi x \/ between (hi + 2) (hi + 4) x \/ links fr x.

Section Used.
Context s G LG fr (Hs : shape s G LG fr).

Lemma used_links fr' p r x : (forall a z, (a, z) ∈ fr' -> (a, Reg z None) ∈ all_placed G) -> (p, r) ∈ all_placed G -> ralloc r <> None ->
  between (p + 8) (p + rsize r) x -> ~ links fr' x.
Proof.
  intros Hfr Hp Hr Hx [Hl|([a z] & Ha & Hl)]; unfold between in *; cbn in Hl.
  - destruct (all_placed_range _ _ _ (shape_sized _ _ _ _ Hs) Hp) as (b & Hb & ?).
    destruct (block_bounds _ _ _ _ Hs b Hb) as (_ & _ & _ & Hd). unfold disjoint, block_range, array_range in Hd. cbn in Hd. lia.
  - pose proof (all_apart _ (shape_sized _ _ _ _ Hs) (shape_ranges _ _ _ _ Hs)) as Hap. specialize (Hfr a z Ha).
    destruct (all_placed_range _ _ _ (shape_sized _ _ _ _ Hs) Hfr) as (b & _ & ?). cbn in *.
    destruct (apart_elem _ (extent (p, r)) (extent (a, Reg z None)) Hap) as [E|Hd].
    + apply list_elem_of_fmap. by exists (p, r).
    + apply list_elem_of_fmap. by exists (a, Reg z None).
    + injection E as -> Ez. pose proof (NoDup_extents _ Hap) as Hnd.
      assert (Reg z None = r) as <-; [|done]. apply (fst_unique (all_placed G) a); [|done|done]. apply Hnd.
      apply list.Forall_forall. intros [q rq] Hq. destruct (all_placed_range _ _ _ (shape_sized _ _ _ _ Hs) Hq) as (? & _ & ?). cbn. lia.
    + unfold disjoint, extent in Hd. cbn in Hd. lia.
Qed.

Lemma used_extent p r q r' x : (p, r) ∈ all_placed G -> (q, r') ∈ all_placed G -> p <> q -> between p (p + rsize r) x -> ~ between q (q + rsize r') x.
Proof.
  intros Hp Hq Hne Hx Hx2. pose proof (all_apart _ (shape_sized _ _ _ _ Hs) (shape_ranges _ _ _ _ Hs)) as Hap.
  destruct (apart_elem _ (extent (p, r)) (extent (q, r')) Hap) as [E|Hd].
  - apply list_elem_of_fmap. by exists (p, r).
  - apply list_elem_of_fmap. by exists (q, r').
  - by injection E.
  - unfold disjoint, extent, between in *. cbn in *. lia.
Qed.

Lemma used_end p r b x : (p, r) ∈ all_placed G -> b ∈ G -> between p (p + rsize r) x -> ~ between (fst b + 65504) (fst b + 65536) x.
Proof.
  intros Hp Hb Hx Hx2. destruct (all_placed_range _ _ _ (shape_sized _ _ _ _ Hs) Hp) as (b' & Hb' & ?).
  destruct (Z.eq_dec (fst b) (fst b')) as [E|Hne]; [unfold between in *; lia|].
  destruct (apart_elem _ (block_range b) (block_range b') (shape_ranges _ _ _ _ Hs)) as [[=]|Hd].
  - apply list_elem_of_fmap. by exists b.
  - apply list_elem_of_fmap. by exists b'.
  - done.
  - unfold disjoint, block_range, between in *. cbn in *. lia.
Qed.

Lemma large_apart b x : b ∈ LG -> between (fst b) (fst b + region_size (snd b)) x ->
  ~ between regions_array (regions_array + 96) x /\ forall c, c ∈ G -> ~ between (fst c) (fst c + 65536) x.
Proof.
  intros Hb Hx. pose proof (sh_apart _ _ _ _ Hs) as [Ha1 Ha2]. rewrite (sh_owned _ _ _ _ Hs) in Ha1, Ha2.
  assert (Hin : large_range b ∈ map large_range LG) by (apply list_elem_of_fmap; by exists b). split.
  - rewrite list.Forall_forall in Ha1. specialize (Ha1 (large_range b) ltac:(set_solver)). unfold disjoint, array_range, large_range, between in *. cbn in *. lia.
  - intros c Hc. apply apart_app in Ha2 as (_ & _ & Hd). specialize (Hd (block_range c) (large_range b)).
    unfold disjoint, block_range, large_range, between in *. cbn in *. intros Hx2. destruct Hd; [apply list_elem_of_fmap; by exists c|done|lia..].
Qed.

(** Writing inside of a used region, behind its first fields. *)
Lemma shape_data p r m' : (p, r) ∈ all_placed G -> ralloc r <> None -> frame (between (p + 8) (p + rsize r)) (mem s) m' ->
  shape (set_mem m' s) G LG fr.
Proof.
  intros Hp Hr Hf. pose proof Hs as [H1 H2 H3 H4 H5 H6 [H7 H8 H9]]. split; [done|done|done| | |done|by split]; cbn.
  - apply list.Forall_forall. intros b Hb. rewrite list.Forall_forall in H4. eapply rest_frame; [exact Hf|by apply H4| |].
    + intros [q r'] x Hq Hx Hx2. rewrite Z.add_0_r in Hq. cbn in Hx. assert (Hq' : (q, r') ∈ all_placed G) by (apply all_placed_in; by exists b).
      destruct (Z.eq_dec p q) as [->|Hne]; [unfold between in *; lia|]. destruct (all_placed_range _ _ _ (shape_sized _ _ _ _ Hs) Hq') as (? & _ & ?).
      apply (used_extent p r q r' x); [done|done|done|unfold between in *; lia..].
    + intros x Hx Hx2. apply (used_end p r b x); [done|done|unfold between in *; lia..].
  - eapply lists_frame; [exact Hf|done|]. intros x Hl Hx. apply (used_links fr p r x); [apply (shape_listed _ _ _ _ Hs)|done..].
Qed.
End Used.

(** The used regions of the other places, and the large allocations. *)
Lemma untouched s base l1 mid l2 G0 LG fr : shape s ((base, l1 ++ mid ++ l2) :: G0) LG fr ->
  let lo := base + total l1 in let hi := lo + total mid in
  forall fr', (forall a z, (a, z) ∈ fr' -> (a, Reg z None) ∈ all_placed ((base, l1 ++ mid ++ l2) :: G0)) ->
  (forall p r x, (p, r) ∈ placed base l1 ++ placed hi l2 ++ all_placed G0 -> ralloc r <> None ->
     between (p + 8) (p + rsize r) x -> ~ touched lo hi fr' x) /\
  (forall b x, b ∈ LG -> between (fst b) (fst b + region_size (snd b)) x -> ~ touched lo hi fr' x).
Proof.
  intros Hs lo hi fr' Hfr. destruct (first_block s base l1 mid l2 G0 LG fr Hs) as (_ & B1 & B2 & B3 & B4 & Hs1 & Hsm & Hs2 & Htot).
  pose proof (sizes_total _ Hs1). pose proof (sizes_total _ Hsm). pose proof (sizes_total _ Hs2).
  pose proof (shape_sized _ _ _ _ Hs) as Hsized. unfold blocks_sized in Hsized. apply list.Forall_cons in Hsized as [_ Hsized].
  pose proof (shape_ranges _ _ _ _ Hs) as [Hap _]. split.
  - intros p r x Hp Hr Hx.
    assert (Hall : (p, r) ∈ all_placed ((base, l1 ++ mid ++ l2) :: G0)).
    { rewrite all_placed_cons. cbn [fst snd]. rewrite !placed_app. fold lo hi. set_solver. }
    assert (Hrange : p + rsize r <= lo \/ hi <= p \/ p + rsize r <= base \/ base + 65536 <= p).
    { apply elem_of_app in Hp as [Hp|Hp]; [|apply elem_of_app in Hp as [Hp|Hp]].
      - pose proof (placed_range _ _ _ _ Hs1 Hp). unfold lo in *. lia.
      - pose proof (placed_range _ _ _ _ Hs2 Hp). unfold hi, lo in *. lia.
      - destruct (all_placed_range _ _ _ Hsized Hp) as (b & Hb & ?). rewrite list.Forall_forall in Hap. specialize (Hap (block_range b)).
        unfold disjoint, block_range in Hap. cbn in Hap. destruct Hap; [apply list_elem_of_fmap; by exists b|lia..]. }
    intros [Ht|[Ht|Ht]]; [unfold lo, hi, between in *; lia|unfold lo, hi, between in *; lia|].
    by apply (used_links _ _ _ _ Hs fr' p r x).
  - intros b x Hb Hx Ht. destruct (large_apart _ _ _ _ Hs b x Hb Hx) as [Hx1 Hx2].
    specialize (Hx2 (base, l1 ++ mid ++ l2) ltac:(by left)) as Hx3. cbn in Hx3.
    destruct Ht as [Ht|[Ht|[Ht|([a z] & Ha & Ht)]]]; [unfold lo, hi, between in *; lia|unfold lo, hi, between in *; lia|done|].
    apply Hfr in Ha. destruct (all_placed_range _ _ _ (shape_sized _ _ _ _ Hs) Ha) as (c & Hc & ?). apply (Hx2 c Hc). unfold between in *. cbn in *. lia.
Qed.

(** ** Pieces of the operations *)

Lemma set_mem_twice m m' s : set_mem m' (set_mem m s) = set_mem m' s.
Proof. done. Qed.

Lemma shape_counts c z s G LG fr : shape (set_counts c z s) G LG fr <-> shape s G LG fr.
Proof. split; intros [H1 H2 H3 H4 H5 H6 [H7 H8 H9]]; split; try done; by split. Qed.

Lemma bind_add_counts {A} c z (k : unit -> M EsHeap A) s :
  bind (add_counts c z) k s = k tt (set_counts (u64 (allocationsCount s + c)) (u64 (heap_size s + z)) s).
Proof. done. Qed.

Lemma accessible_block s G LG fr b a n : shape s G LG fr -> b ∈ G -> fst b <= a -> a + n <= fst b + 65536 -> accessible s a n = true.
Proof.
  intros Hs Hb H1 H2. unfold accessible. apply orb_true_iff. right. apply existsb_exists. exists (block_range b).
  split; [apply list_elem_of_In; by apply (block_owned _ _ _ _ Hs)|]. unfold inside, block_range. cbn. apply andb_true_iff. rewrite !Z.leb_le. lia.
Qed.

Lemma fill_spec s a n v : accessible s a n = true -> exists m', EsMemoryFill a n v s = (Ok tt, set_mem m' s) /\
  frame (between a (a + n)) (mem s) m' /\ (forall x, between a (a + n) x -> m' x = v).
Proof.
  intros Ha. unfold EsMemoryFill, bind, get. destruct (Z.eqb_spec n 0) as [->|Hn].
  - exists (mem s). split_and!; [by destruct s|apply frame_refl|]. unfold between. lia.
  - rewrite Ha. exists (fill v n (mem s) a). split_and!; [done|by apply frame_fill|]. intros x Hx. unfold fill, between in *.
    by rewrite (proj2 (Z.leb_le _ _)), (proj2 (Z.ltb_lt _ _)) by lia.
Qed.

Lemma prepare_spec s zero a n : accessible s a n = true -> exists m', prepare zero a n s = (Ok tt, set_mem m' s) /\
  frame (between a (a + n)) (mem s) m' /\ (zero = true -> forall x, between a (a + n) x -> m' x = 0).
Proof.
  intros Ha. unfold prepare, EsMemoryZero. destruct zero; [|destruct DEBUG_BUILD].
  - destruct (fill_spec s a n 0 Ha) as (m' & E & H1 & H2). by exists m'.
  - destruct (fill_spec s a n 161 Ha) as (m' & E & H1 & H2). by exists m'.
  - exists (mem s). split_and!; [by destruct s|apply frame_refl|done].
Qed.

Section Mid.
Context s base l1 mid l2 G0 LG fr (Hs : shape s ((base, l1 ++ mid ++ l2) :: G0) LG fr).

(** What memory says about the regions [mid], and about their successor. *)
Lemma mid_facts : seg (mem s) base (last_size 0 l1) (total l1) mid /\
  fld (mem s) Previous (base + total l1 + total mid) = last_size (last_size 0 l1) mid /\ sizes_ok mid.
Proof.
  destruct (first_block s base l1 mid l2 G0 LG fr Hs) as ((H1 & H2 & H3 & H4) & _ & _ & _ & _ & _ & Hsm & _). cbn [fst snd] in *.
  apply seg_app in H1 as [_ H1]. apply seg_app in H1 as [Hm H1]. rewrite Z.add_0_l in *. split_and!; [done| |done].
  destruct l2 as [|r l2']; [|cbn [seg] in H1; destruct H1 as [(_ & E & _) _]; by rewrite Z.add_assoc in E].
  rewrite app_nil_r in *. destruct H4 as (_ & E & _). rewrite last_size_app in E. rewrite total_regions_app in H3.
  rewrite <- E. f_equal. lia.
Qed.
End Mid.

(** The region behind the replaced ones, or the end: it is another place. *)
Lemma next_place s base l1 mid l2 G0 LG fr : shape s ((base, l1 ++ mid ++ l2) :: G0) LG fr -> place s (base + total l1 + total mid).
Proof.
  intros Hs. destruct (first_block s base l1 mid l2 G0 LG fr Hs) as (_ & B1 & B2 & _ & _ & Hs1 & Hsm & _).
  pose proof (sizes_total _ Hs1). pose proof (sizes_total _ Hsm).
  apply (replaced_place s base l1 mid l2 G0 LG fr Hs); [lia|lia|]. Z.div_mod_to_equations; lia.
Qed.

Lemma shape_lists_perm s G LG fr fr' : fr ≡ₚ fr' -> shape s G LG fr -> shape s G LG fr'.
Proof.
  intros Hp [H1 H2 H3 H4 H5 [k H6] H7]. split; [done..|by rewrite <- Hp| |done]. exists k. by rewrite <- Hp.
Qed.

(** The first fields of a header are not links. *)
Lemma links_header s fr a x : places s fr -> place s a -> between a (a + 8) x -> ~ links fr x.
Proof.
  intros Hp [_ Ha _ _ Hd] Hx. unfold disjoint, array_range in Hd. cbn in Hd.
  intros [Hx2|([b z] & Hb & Hx2)]; unfold between in *; cbn in *; [lia|]. destruct (places_elem _ _ _ _ Hp Hb) as [_ Hal _ _ _].
  destruct (Z.eq_dec b a) as [->|Hne]; [lia|]. pose proof (aligned_apart b a Hal Ha Hne). lia.
Qed.

Lemma lists_header s fr q m m' : lists_ok m fr -> places s fr -> place s q -> frame (between q (q + 8)) m m' -> lists_ok m' fr.
Proof. intros Hl Hp Hq Hf. eapply lists_frame; [exact Hf|done|]. intros x Hx Hx2. by apply (links_header s fr q x). Qed.

Lemma header_links s fr m m' f a : places s fr -> place s a -> frame (links fr) m m' -> f = Size \/ f = Previous \/ f = Offset \/ f = Used ->
  fld m' f a = fld m f a.
Proof.
  intros Hp Ha Hf Hg. eapply fld_frame; [exact Hf|]. intros x Hx. apply (links_header s fr a x Hp Ha).
  unfold field_range, between in *. destruct Hg as [->|[->|[->| ->]]]; cbn in *; lia.
Qed.

(** Listed regions are outside of the replaced ones. *)
Lemma listed_outside s base l1 mid l2 G0 LG fr a z : shape s ((base, l1 ++ mid ++ l2) :: G0) LG fr ->
  frees ((base, l1 ++ mid ++ l2) :: G0) ≡ₚ omap free_of (placed (base + total l1) mid) ++ fr -> (a, z) ∈ fr ->
  a + 32 <= base + total l1 \/ base + total l1 + total mid <= a.
Proof.
  intros Hs Hfr Ha. destruct (first_block s base l1 _ l2 G0 LG fr Hs) as (_ & _ & _ & _ & _ & Hs1 & Hsm & Hs2 & Ht).
  pose proof (sizes_total _ Hs1). pose proof (sizes_total _ Hsm). pose proof (sizes_total _ Hs2).
  destruct (listed_elsewhere s base l1 mid l2 G0 LG fr Hs Hfr a z Ha) as [Hin|[Hin|Hin]].
  - pose proof (placed_range _ _ _ _ Hs1 Hin). cbn in *. lia.
  - pose proof (placed_range _ _ _ _ Hs2 Hin). cbn in *. lia.
  - pose proof (shape_sized _ _ _ _ Hs) as Hsz. unfold blocks_sized in Hsz. apply list.Forall_cons in Hsz as [_ Hsz].
    destruct (all_placed_range _ _ _ Hsz Hin) as (b & Hb & ?). pose proof (shape_ranges _ _ _ _ Hs) as [Hap _]. rewrite list.Forall_forall in Hap.
    specialize (Hap (block_range b)). unfold disjoint, block_range in Hap. cbn in *. destruct Hap; [apply list_elem_of_fmap; by exists b|lia..].
Qed.

Lemma lists_inside s base l1 mid l2 G0 LG fr m' : shape s ((base, l1 ++ mid ++ l2) :: G0) LG fr ->
  frees ((base, l1 ++ mid ++ l2) :: G0) ≡ₚ omap free_of (placed (base + total l1) mid) ++ fr ->
  frame (between (base + total l1) (base + total l1 + total mid)) (mem s) m' -> lists_ok m' fr.
Proof.
  intros Hs Hfr Hf. destruct (first_block s base l1 _ l2 G0 LG fr Hs) as (_ & _ & _ & _ & Hd & Hs1 & Hsm & Hs2 & Ht).
  pose proof (sizes_total _ Hs1). pose proof (sizes_total _ Hsm). pose proof (sizes_total _ Hs2). unfold disjoint, array_range in Hd. cbn in Hd.
  eapply lists_frame; [exact Hf|apply Hs|]. intros x [Hx|([a z] & Ha & Hx)] Hx2; [unfold between in *; lia|].
  pose proof (listed_outside _ _ _ _ _ _ _ _ a z Hs Hfr Ha). unfold between in *. cbn in *. lia.
Qed.

(** The free regions after a replacement have distinct addresses. *)
Lemma replaced_nodup s base l1 mid mid' l2 G0 LG fr : shape s ((base, l1 ++ mid ++ l2) :: G0) LG fr -> total mid' = total mid ->
  sizes_ok mid' -> NoDup (map fst (frees ((base, l1 ++ mid' ++ l2) :: G0))).
Proof.
  intros Hs Ht Hs'. apply NoDup_frees; [|by apply (shape_ranges _ _ _ _ Hs)]. pose proof (shape_sized _ _ _ _ Hs) as Hsz.
  unfold blocks_sized in *. apply list.Forall_cons in Hsz as [(H1 & H2 & H3) Hsz]. apply list.Forall_cons. split; [|done]. cbn in *.
  unfold sizes_ok in *. rewrite !list.Forall_app in *. rewrite !total_regions_app in *. split_and!; try tauto. lia.
Qed.

Lemma free_positions base l1 z l2 G0 LG fr s : shape s ((base, l1 ++ [Reg z None] ++ l2) :: G0) LG fr ->
  0 < base + total l1 /\ (base + total l1) mod 32 = 0 /\ 0 <= total l1 /\ 32 <= z /\ z mod 32 = 0 /\ total l1 + z <= 65504 /\
  base + 65536 < 2 ^ 64 /\ total l1 mod 32 = 0 /\ (base + 65536 <= regions_array \/ regions_array + 96 <= base).
Proof.
  intros Hs. destruct (first_block s base l1 _ l2 G0 LG fr Hs) as (_ & B1 & B2 & B3 & B4 & Hs1 & Hsm & Hs2 & Htot).
  pose proof (sizes_total _ Hs1). pose proof (sizes_total _ Hs2). unfold sizes_ok in Hsm. apply list.Forall_cons in Hsm as [[? ?] _].
  cbn in *. unfold disjoint, array_range in B4. cbn in B4. split_and!; try lia. Z.div_mod_to_equations; lia.
Qed.

(** All of a free region is used. *)
Lemma use_whole s base l1 z n l2 G0 LG fr : let G := (base, l1 ++ [Reg z None] ++ l2) :: G0 in let p := base + total l1 in
  shape s G LG fr -> frees G ≡ₚ (p, z) :: fr ->
  let m' := put Used p USED_HEAP_REGION_MAGIC (mem s) in
  shape (set_mem m' s) ((base, l1 ++ [Reg z (Some n)] ++ l2) :: G0) LG fr /\ frees ((base, l1 ++ [Reg z (Some n)] ++ l2) :: G0) ≡ₚ fr.
Proof.
  intros G p Hs Hfr m'. destruct (free_positions _ _ _ _ _ _ _ _ Hs) as (P1 & P2 & P3 & P4 & P5 & P6 & P7 & P8 & P9).
  destruct (mid_facts s base l1 _ l2 G0 LG fr Hs) as (((E1 & E2 & E3 & E4) & _) & Hnext & Hsm). cbn [rsize total] in *. fold p in E1, E2, E3, E4, Hnext, P1, P2.
  assert (Hfr' : frees ((base, l1 ++ [Reg z (Some n)] ++ l2) :: G0) ≡ₚ fr)
    by exact (replaced_frees base l1 [Reg z None] [Reg z (Some n)] l2 G0 fr Hfr eq_refl). split; [|exact Hfr'].
  pose proof (shape_places _ _ _ _ Hs) as Hpl.
  assert (Hf : frame (between p (p + 8)) (mem s) m').
  { apply frame_put; [done|]. intros x. unfold field_range, between. cbn. lia. }
  assert (Hp : place s p) by (apply (replaced_place s base l1 [Reg z None] l2 G0 LG fr Hs); cbn; lia).
  eapply (shape_replace s base l1 [Reg z None] [Reg z (Some n)] l2 G0 LG fr Hs Hfr); [done|by constructor|exact Hf| | | | |].
  - cbn. split; [|done]. split_and!; fold p; unfold m'; [by other_field|by other_field|by other_field|]. by rewrite fld_put_same.
  - fold p. unfold m'. cbn in *. rewrite Z.add_0_r in *. by other_field.
  - intros x Hx. left. fold p. unfold between in *. cbn. lia.
  - by eapply lists_header; [apply Hs| | |exact Hf].
  - exists []. exact Hfr'.
Qed.

(** [split_region] on memory: it needs the offset of the region and the free lists only. *)
Lemma split_exec s p off z size n fr : place s p -> place s (p + size) -> place s (p + z) -> fld (mem s) Offset p = off ->
  0 <= off -> off + z <= 65504 -> 32 <= size -> size + 32 <= z -> lists_ok (mem s) fr -> places s fr ->
  NoDup (map fst ((p + size, z - size) :: fr)) -> (forall a y, (a, y) ∈ fr -> a + 32 <= p \/ p + z <= a) -> disjoint (p, z) array_range ->
  exists m', split_region p z size s = (Ok tt, set_mem m' s) /\ lists_ok m' ((p + size, z - size) :: fr) /\
    frame (touched p (p + z) fr) (mem s) m' /\ header m' p (fld (mem s) Previous p) off (Reg size (Some n)) /\
    header m' (p + size) size (off + size) (Reg (z - size) None) /\ fld m' Previous (p + z) = z - size.
Proof.
  intros Hp Hpf Hhi E3 P3 P6 Hsize Hgap Hl Hpl Hnd Hout Hd. unfold disjoint, array_range in Hd. cbn in Hd.
  remember (p + size) as f eqn:Ef. remember (p + z) as hi eqn:Ehi. unfold split_region.
  rewrite !bind_write by by rewrite ?place_set_mem. rewrite bind_next by by rewrite ?place_set_mem. cbn [mem set_mem]. rewrite !set_mem_twice.
  set (m1 := put Used p USED_HEAP_REGION_MAGIC (put Size p size (mem s))).
  replace (fld m1 Size p) with size by (unfold m1; other_field; by same_field). rewrite <- Ef.
  rewrite !bind_write, bind_read by by rewrite ?place_set_mem. cbn [mem set_mem]. rewrite !set_mem_twice.
  set (m3 := put Previous f size (put Size f (z - size) m1)).
  replace (fld m3 Offset p) with off by (unfold m3, m1; rewrite <- E3; by repeat other_field).
  rewrite !bind_write by by rewrite ?place_set_mem. cbn [mem set_mem]. rewrite !set_mem_twice.
  set (m5 := put Used f 0 (put Offset f (off + size) m3)).
  assert (Hf5 : frame (between p hi) (mem s) m5).
  { unfold m5, m3, m1. repeat apply frame_put; [done|..]; intros x; unfold field_range, between; cbn; lia. }
  assert (Hl5 : lists_ok m5 fr).
  { eapply lists_frame; [exact Hf5|done|]. intros x [Hx|([a y] & Ha & Hx)] Hx2; [unfold between in *; lia|].
    pose proof (Hout a y Ha). unfold between in *. cbn in *. lia. }
  destruct (Add_spec (set_mem m5 s) fr f (z - size)) as (m6 & E & Hl6 & Hf6); [done| |done|lia| | |].
  { apply places_set_mem. by constructor. }
  { cbn. unfold m5. by same_field. }
  { cbn. unfold m5, m3. do 3 other_field. by same_field. }
  rewrite (bind_ok _ _ _ _ _ E), set_mem_twice. cbn [mem set_mem] in Hf6. clear E.
  assert (Hpl' : places s ((f, z - size) :: fr)) by by constructor.
  assert (H65 : forall g a, (a = p \/ a = f) -> (g = Size \/ g = Previous \/ g = Offset \/ g = Used) -> fld m6 g a = fld m5 g a).
  { intros g a Ha Hg. apply (header_links s _ _ _ g a Hpl'); [by destruct Ha as [->| ->]|done|done]. }
  assert (Ez : fld m6 Size f = z - size) by (rewrite H65 by auto; unfold m5, m3; do 3 other_field; by same_field).
  rewrite bind_next, bind_read by by rewrite place_set_mem. cbn [mem set_mem]. rewrite !Ez. replace (f + (z - size)) with hi by lia.
  rewrite write_field_spec by by rewrite place_set_mem. cbn [mem set_mem]. set (m7 := put Previous hi (z - size) m6). exists m7. split; [done|].
  assert (Hf7 : frame (between (hi + 2) (hi + 4)) m6 m7).
  { unfold m7. apply frame_put; [done|]. intros x; unfold field_range, between; cbn; lia. }
  assert (H76 : forall g a, (a = p \/ a = f) -> (g = Size \/ g = Previous \/ g = Offset \/ g = Used) -> fld m7 g a = fld m5 g a).
  { intros g a Ha Hg. rewrite <- H65 by done. unfold m7. destruct Ha as [->| ->], Hg as [->|[->|[->| ->]]]; by other_field. }
  split; [|split; [|unfold header; rewrite !H76 by auto; unfold m5, m3, m1; split; [|split]]].
  - apply (lists_header s _ hi m6); [done|done|done|]. eapply frame_mono; [exact Hf7|]. unfold between. lia.
  - eapply frame_trans; [|eapply frame_mono; [exact Hf7|intros x Hx; right; by left]]. eapply frame_trans; [eapply frame_mono; [exact Hf5|by left]|].
    eapply frame_mono; [exact Hf6|]. intros x [Hx|([b y] & Hb & Hx)]; [right; right; by left|]. apply elem_of_cons in Hb as [[= -> ->]|Hb].
    + left. unfold between in *. cbn in *. lia.
    + right; right; right. by exists (b, y).
  - split_and!; repeat first [other_field | same_field]; done.
  - split_and!; repeat first [other_field | same_field]; done.
  - unfold m7. by same_field.
Qed.

Lemma use_split s base l1 z size n l2 G0 LG fr :
  let G := (base, l1 ++ [Reg z None] ++ l2) :: G0 in
  let G' := (base, l1 ++ [Reg size (Some n); Reg (z - size) None] ++ l2) :: G0 in
  shape s G LG fr -> frees G ≡ₚ (base + total l1, z) :: fr -> 32 <= size < z -> size mod 32 = 0 ->
  exists m', split_region (base + total l1) z size s = (Ok tt, set_mem m' s) /\ shape (set_mem m' s) G' LG (frees G') /\
    frame (touched (base + total l1) (base + total l1 + z) fr) (mem s) m'.
Proof.
  intros G G' Hs Hfr Hsize Hmod. destruct (free_positions _ _ _ _ _ _ _ _ Hs) as (P1 & P2 & P3 & P4 & P5 & P6 & P7 & P8 & P9).
  destruct (mid_facts s base l1 _ l2 G0 LG fr Hs) as (((E1 & E2 & E3 & E4) & _) & _ & _). cbn [rsize] in *.
  assert (Hmid : total [Reg size (Some n); Reg (z - size) None] = total [Reg z None]) by (cbn; lia).
  assert (Hmid2 : sizes_ok [Reg size (Some n); Reg (z - size) None]).
  { constructor; [|constructor; [|done]]; cbn; split; Z.div_mod_to_equations; lia. }
  assert (Hfr' : frees G' ≡ₚ (base + total l1 + size, z - size) :: fr)
    by exact (replaced_frees base l1 [Reg z None] [Reg size (Some n); Reg (z - size) None] l2 G0 fr Hfr Hmid).
  assert (Hplace : forall a, base + total l1 <= a <= base + total l1 + z -> a mod 32 = 0 -> place s a).
  { intros a Ha Hm. apply (replaced_place s base l1 [Reg z None] l2 G0 LG fr Hs); [lia|cbn; lia|done]. }
  destruct (split_exec s (base + total l1) (total l1) z size n fr) as (m' & E & Hl & Hf & Hh1 & Hh2 & Hnext); try done; try lia.
  - apply Hplace; [lia|done].
  - apply Hplace; [lia|]. Z.div_mod_to_equations; lia.
  - apply Hplace; [lia|]. Z.div_mod_to_equations; lia.
  - Z.div_mod_to_equations; lia.
  - apply Hs.
  - by apply (shape_places _ _ _ _ Hs).
  - apply (NoDup_proper (map fst (frees G'))); [by apply Permutation_map|]. by apply (replaced_nodup s base l1 [Reg z None] _ l2 G0 LG fr).
  - intros a y Ha. pose proof (listed_outside s base l1 [Reg z None] l2 G0 LG fr a y Hs Hfr Ha). cbn in *. lia.
  - unfold disjoint, array_range. cbn. lia.
  - exists m'. split_and!; [done| |done].
    eapply (shape_replace s base l1 [Reg z None] _ l2 G0 LG fr Hs Hfr); [done|done|exact Hf| | | | |].
    + cbn [seg rsize]. rewrite Z.add_assoc. split_and!; [by rewrite <- E2|done|done].
    + cbn [total last_size rsize]. by rewrite Z.add_0_r.
    + intros x Hx. cbn [total]. rewrite Z.add_0_r. exact Hx.
    + by rewrite Hfr'.
    + by exists [].
Qed.

Definition used_mid (z size n : Z) : list reg := if z =? size then [Reg size (Some n)] else [Reg size (Some n); Reg (z - size) None].

Lemma first_placed base l1 r mid l2 G0 : (base + total l1, r) ∈ all_placed ((base, l1 ++ (r :: mid) ++ l2) :: G0).
Proof. rewrite all_placed_cons. cbn [fst snd]. rewrite placed_app. cbn. set_solver. Qed.

(** The header of a used region is completed and its bytes are prepared. *)
Lemma finish_spec s G LG fr p size n zero : shape s G LG fr -> (p, Reg size (Some n)) ∈ all_placed G -> 0 < n < 2 ^ 64 -> n + 16 <= size ->
  exists m', (write_field AllocationSize p n ;;; prepare zero (HEAP_REGION_DATA p) n ;;; ret (HEAP_REGION_DATA p)) s =
    (Ok (p + 16), set_mem m' s) /\ shape (set_mem m' s) G LG fr /\ frame (between (p + 8) (p + size)) (mem s) m' /\
    fld m' AllocationSize p = n /\ (zero = true -> forall x, between (p + 16) (p + 16 + n) x -> m' x = 0).
Proof.
  intros Hs Hin Hn Hsize. rewrite bind_write by by apply (placed_place _ _ _ _ Hs (p, Reg size (Some n))).
  destruct (all_placed_range _ _ _ (shape_sized _ _ _ _ Hs) Hin) as (b & Hb & ?). cbn [rsize] in *.
  destruct (prepare_spec (set_mem (put AllocationSize p n (mem s)) s) zero (HEAP_REGION_DATA p) n) as (m' & E & Hf & Hz).
  { apply (accessible_block s G LG fr b); [done|done|unfold HEAP_REGION_DATA, USED_HEAP_REGION_HEADER_SIZE; lia..]. }
  unfold HEAP_REGION_DATA, USED_HEAP_REGION_HEADER_SIZE in *. cbn [mem set_mem] in *.
  assert (Hframe : frame (between (p + 8) (p + size)) (mem s) m').
  { eapply frame_trans; [|eapply frame_mono; [exact Hf|unfold between; lia]]. apply frame_put; [done|]. intros x; unfold field_range, between; cbn; lia. }
  exists m'. split_and!; [by rewrite (bind_ok _ _ _ _ _ E)| |done| |done].
  - by apply (shape_data _ _ _ _ Hs p (Reg size (Some n))).
  - rewrite (fld_frame _ _ _ _ _ Hf); [by same_field|]. intros x; unfold field_range, between; cbn; lia.
Qed.

Lemma use_region_spec s base l1 z size n zero l2 G0 LG fr :
  let G := (base, l1 ++ [Reg z None] ++ l2) :: G0 in let p := base + total l1 in
  let G' := (base, l1 ++ used_mid z size n ++ l2) :: G0 in
  shape s G LG fr -> frees G ≡ₚ (p, z) :: fr -> 32 <= size <= z -> size mod 32 = 0 -> 0 < n -> n + 16 <= size ->
  exists m', use_region p size n zero s =
    (Ok (p + 16), set_mem m' (set_counts (u64 (allocationsCount s + 1)) (u64 (heap_size s + size)) s)) /\
    shape (set_mem m' s) G' LG (frees G') /\ frame (touched p (p + z) fr) (mem s) m' /\
    fld m' AllocationSize p = n /\ (zero = true -> forall x, between (p + 16) (p + 16 + n) x -> m' x = 0).
Proof.
  intros G p G' Hs Hfr Hsize Hmod Hn Hn2. destruct (free_positions _ _ _ _ _ _ _ _ Hs) as (P1 & P2 & P3 & P4 & P5 & P6 & P7 & P8 & P9).
  destruct (mid_facts s base l1 _ l2 G0 LG fr Hs) as (((E1 & E2 & E3 & E4) & _) & _ & _). cbn [rsize used_word ralloc] in *. fold p in E1, E4.
  assert (Hp : place s p) by (apply (replaced_place s base l1 [Reg z None] l2 G0 LG fr Hs); [lia|cbn; lia|done]).
  unfold use_region. rewrite !bind_read, E1, E4 by done. rewrite (proj2 (Z.ltb_ge z size)) by lia. cbn [negb orb Z.eqb].
  rewrite bind_add_counts. set (s1 := set_counts _ _ s). assert (Hs1 : shape s1 G LG fr) by by apply shape_counts.
  assert (Hp1 : place s1 p) by (apply (replaced_place s1 base l1 [Reg z None] l2 G0 LG fr Hs1); [lia|cbn; lia|done]).
  rewrite bind_read by done. change (mem s1) with (mem s). rewrite E1. unfold G', used_mid. destruct (Z.eqb_spec z size) as [->|Hne].
  - rewrite bind_write by done. destruct (use_whole s1 base l1 size n l2 G0 LG fr Hs1 Hfr) as [Hs2 Hfr2]. fold p in Hs2. change (mem s1) with (mem s) in *.
    set (m1 := put Used p USED_HEAP_REGION_MAGIC (mem s)) in *. destruct (finish_spec (set_mem m1 s1) _ LG fr p size n zero Hs2) as (m' & E & Hs3 & Hf & Ha & Hz);
      [by apply (first_placed base l1 (Reg size (Some n)) [])|lia|lia|].
    exists m'. split_and!; [exact E| | |done|done].
    + apply (shape_counts (u64 (allocationsCount s + 1)) (u64 (heap_size s + size))). eapply shape_lists_perm; [symmetry; exact Hfr2|exact Hs3].
    + eapply frame_trans; [|eapply frame_mono; [exact Hf|intros x Hx; left; unfold between in *; lia]]. unfold m1. apply frame_put; [done|].
      intros x Hx. left. unfold field_range, between in *. cbn in *. lia.
  - destruct (use_split s1 base l1 z size n l2 G0 LG fr Hs1 Hfr ltac:(lia) Hmod) as (m1 & E & Hs2 & Hf1). fold p in E, Hf1. change (mem s1) with (mem s) in *.
    rewrite (bind_ok _ _ _ _ _ E), (bind_ok _ _ _ _ _ (MAYBE_VALIDATE_spec _ _ _ Hs2)).
    destruct (finish_spec (set_mem m1 s1) _ LG _ p size n zero Hs2) as (m' & E' & Hs3 & Hf & Ha & Hz);
      [by apply (first_placed base l1 (Reg size (Some n)) [Reg (z - size) None])|lia|lia|].
    exists m'. split_and!; [exact E'| | |done|done].
    + apply (shape_counts (u64 (allocationsCount s + 1)) (u64 (heap_size s + size))). exact Hs3.
    + eapply frame_trans; [exact Hf1|]. eapply frame_mono; [exact Hf|]. intros x Hx. left. unfold between in *. lia.
Qed.

(** ** A new block *)

Lemma place_mono s s' a : (forall r, r ∈ owned s -> r ∈ owned s') -> place s a -> place s' a.
Proof.
  intros Hin [H1 H2 H3 H4 H5]. split; [done|done|done| |done]. apply existsb_exists in H4 as (r & Hr & Hr2). apply existsb_exists.
  exists r. split; [|done]. apply list_elem_of_In, Hin. by apply list_elem_of_In.
Qed.

Definition fresh (a n : Z) (s : EsHeap) : Prop :=
  0 < a /\ a mod 32 = 0 /\ a + n < 2 ^ 64 /\ Forall (disjoint (a, n)) (array_range :: owned s).

Lemma reserved_fresh s n : 0 < n -> reserve (requests s) (owned s) n <> 0 -> fresh (reserve (requests s) (owned s) n) n s.
Proof.
  intros Hn Ha. destruct (reserve_fresh (requests s) (owned s) n Hn) as [|(H1 & H2 & H3 & H4)]; [done|]. split_and!; [done| |done|done].
  Z.div_mod_to_equations; lia.
Qed.

Lemma shape_new s s' a l W G LG fr fr' : shape s G LG fr -> fresh a 65536 s -> owned s' = (a, 65536) :: owned s ->
  frame W (mem s) (mem s') -> (forall x, W x -> between a (a + 65536) x \/ links fr x) -> block_ok (mem s') (a, l) ->
  lists_ok (mem s') fr' -> (exists k, frees ((a, l) :: G) ≡ₚ k ++ fr') -> blocks_listed s' ((a, l) :: G) -> shape s' ((a, l) :: G) LG fr'.
Proof.
  intros Hs (F1 & F2 & F3 & F4) Ho Hf Hw Hb Hl Hfr Hbl. pose proof Hs as [H1 H2 H3 H4 H5 H6 H7].
  apply list.Forall_cons in F4 as [F4 F5]. destruct H2 as [H2a H2b]. split; [| | | |done|done|done].
  - rewrite Ho. cbn. by rewrite H1.
  - rewrite Ho. split; [apply list.Forall_cons; split; [by apply disjoint_sym|done]|]. by split.
  - rewrite Ho. apply list.Forall_cons. done.
  - apply list.Forall_cons. split; [done|]. apply list.Forall_forall. intros b Hin. rewrite list.Forall_forall in H4.
    assert (Hout : forall x, W x -> between (fst b) (fst b + 65536) x -> links fr x).
    { intros x Hwx Hx. destruct (Hw x Hwx) as [Hx2|]; [|done]. rewrite list.Forall_forall in F5.
      specialize (F5 _ (block_owned _ _ _ _ Hs b Hin)). unfold disjoint, block_range, between in *. cbn in *. lia. }
    pose proof (shape_sized _ _ _ _ Hs) as Hsz. unfold blocks_sized in Hsz. rewrite list.Forall_forall in Hsz. destruct (Hsz b Hin) as (S1 & S2 & _).
    eapply rest_frame; [exact Hf|by apply H4| |].
    + intros [p r] x Hp Hx Hwx. rewrite Z.add_0_r in Hp. pose proof (placed_range _ _ _ _ S1 Hp). cbn in *.
      apply (proj1 (links_headers _ _ _ _ Hs x fr (shape_listed _ _ _ _ Hs) (Hout x Hwx ltac:(unfold between in *; lia))) (p, r)); [|done].
      apply all_placed_in. by exists b.
    + intros x Hx Hwx. assert (Hx2 : between (fst b) (fst b + 65536) x) by (unfold between in *; lia).
      apply (proj2 (links_headers _ _ _ _ Hs x fr (shape_listed _ _ _ _ Hs) (Hout x Hwx Hx2)) b Hin). unfold between in *. lia.
Qed.

(** The array of blocks after another request. *)
Definition note_block (a : Z) (s : EsHeap) : EsHeap :=
  set_blocks (u64 (blockCount s + 1)) (if blockCount s <? 16 then <[Z.to_nat (blockCount s) := a]> (blocks s) else blocks s)
    (if blockCount s <? 16 then cannotValidate s else true) s.

Lemma listed_note s G a l : blocks_listed s G -> blockCount s + 1 < 2 ^ 64 -> blocks_listed (note_block a s) (if a =? 0 then G else (a, l) :: G).
Proof.
  intros [H1 H2 H3] Hc. assert (Hu : u64 (blockCount s + 1) = blockCount s + 1) by (apply u64_id; unfold is_uint; lia).
  unfold note_block. split; cbn.
  - destruct (blockCount s <? 16); [by rewrite length_insert|done].
  - rewrite Hu. destruct (a =? 0); cbn; lia.
  - rewrite Hu. destruct (Z.ltb_spec (blockCount s) 16) as [Hlt|]; [|done]. intros Hv. destruct (H3 Hv) as [_ Hp]. split; [lia|].
    replace (Z.to_nat (blockCount s + 1)) with (S (Z.to_nat (blockCount s))) by lia.
    rewrite (take_S_r _ _ a) by (apply list_lookup_insert_eq; rewrite H1; lia). rewrite take_insert_ge by lia. rewrite list.filter_app.
    destruct (Z.eqb_spec a 0) as [->|Ha].
    + cbn. by rewrite app_nil_r.
    + cbn. rewrite Hp, decide_True by done. symmetry. apply Permutation_cons_append.
Qed.

Lemma fld_fill m a n f b : a <= b + field_offset f -> b + field_offset f + Z.of_nat (field_bytes f) <= a + n -> fld (fill 0 n m a) f b = 0.
Proof.
  intros H1 H2. unfold fld, load.
  assert (E : map (fill 0 n m a) (seqZ (b + field_offset f) (Z.of_nat (field_bytes f))) = replicate (field_bytes f) 0).
  { apply list_eq. intros i. destruct (decide (i < field_bytes f)%nat) as [Hi|Hi].
    - rewrite list_lookup_fmap, lookup_seqZ_lt, lookup_replicate_2 by lia. cbn. unfold fill. by rewrite (proj2 (Z.leb_le _ _)), (proj2 (Z.ltb_lt _ _)) by lia.
    - rewrite !lookup_ge_None_2; [done|rewrite length_replicate; lia|rewrite length_fmap, length_seqZ; lia]. }
  rewrite E. by destruct f.
Qed.

(** What [new_block] leaves when the system grants memory: all but the last header is complete. *)
Record new_block_ok (s s' : EsHeap) (a : Z) : Prop := {
  nb_fresh : fresh a 65536 s;
  nb_owned : owned s' = (a, 65536) :: owned s;
  nb_mem : frame (between a (a + 65536)) (mem s) (mem s');
  nb_first : header (mem s') a 0 0 (Reg 65504 None);
  nb_size : fld (mem s') Size (a + 65504) = 32;
  nb_offset : fld (mem s') Offset (a + 65504) = 65504;
  nb_used : fld (mem s') Used (a + 65504) = USED_HEAP_REGION_MAGIC;
  nb_heap : fld (mem s') RegionListReference (a + 65504) = heap_address;
}.

Definition same_counts (s s' : EsHeap) : Prop := allocationsCount s' = allocationsCount s /\ heap_size s' = heap_size s.

Lemma fresh_place s s' a n b : fresh a n s -> (a, n) ∈ owned s' -> a <= b -> b + 32 <= a + n -> b mod 32 = 0 -> place s' b.
Proof.
  intros (F1 & F2 & F3 & F4) Hin H1 H2 H3. apply list.Forall_cons in F4 as [F4 _]. unfold disjoint, array_range in F4. cbn in F4.
  split; [lia|done|lia| |unfold disjoint, array_range; cbn; lia]. apply existsb_exists. exists (a, n). split; [by apply list_elem_of_In|].
  unfold inside. cbn. apply andb_true_iff. rewrite !Z.leb_le. lia.
Qed.

Lemma new_block_spec s G l : blocks_listed s G -> blockCount s + 1 < 2 ^ 64 ->
  exists a s', new_block s = (Ok a, s') /\ a = reserve (requests s) (owned s) 65536 /\ same_counts s s' /\
    blocks_listed s' (if a =? 0 then G else (a, l) :: G) /\
    (a = 0 /\ mem s' = mem s /\ owned s' = owned s \/ a <> 0 /\ new_block_ok s s' a).
Proof.
  intros Hbl Hc. unfold new_block, HEAP_ALLOCATE_CALL. set (a := reserve (requests s) (owned s) 65536).
  set (s0 := MkHeap (if a =? 0 then mem s else fill 0 65536 (mem s) a) (if a =? 0 then owned s else (a, 65536) :: owned s) (S (requests s))
    (allocationsCount s) (heap_size s) (blockCount s) (blocks s) (cannotValidate s)).
  assert (E : forall B (k : Z -> M EsHeap B), bind (let! s2 := get in
      let a2 := reserve (requests s2) (owned s2) 65536 in
      modify (fun s => MkHeap (if a2 =? 0 then mem s else fill 0 65536 (mem s) a2) (if a2 =? 0 then owned s else (a2, 65536) :: owned s) (S (requests s))
        (allocationsCount s) (heap_size s) (blockCount s) (blocks s) (cannotValidate s)) ;;; ret a2) k s = k a s0) by done.
  rewrite E. clear E. unfold bind at 1, get.
  assert (E : forall B (k : unit -> M EsHeap B), bind (if blockCount s0 <? 16 then modify (set_blocks (blockCount s0) (<[Z.to_nat (blockCount s0) := a]> (blocks s0)) (cannotValidate s0))
      else modify (set_blocks (blockCount s0) (blocks s0) true)) (fun _ => bind (modify (fun s => set_blocks (u64 (blockCount s + 1)) (blocks s) (cannotValidate s) s)) k) s0 =
      k tt (note_block a s0)).
  { intros B k. unfold note_block. by destruct (blockCount s0 <? 16). }
  rewrite E. clear E. set (s1 := note_block a s0).
  assert (Hbl1 : blocks_listed s1 (if a =? 0 then G else (a, l) :: G)) by (apply (listed_note s0 G a l); [by destruct Hbl|done]).
  destruct (Z.eqb_spec a 0) as [Ha|Ha].
  - exists 0, s1. split_and!; [done|done|by split|done|]. by left.
  - pose proof (reserved_fresh s 65536 ltac:(lia) Ha) as Hfresh. fold a in Hfresh.
    assert (Ho : owned s1 = (a, 65536) :: owned s) by done.
    assert (Hm : mem s1 = fill 0 65536 (mem s) a) by done.
    destruct (Hfresh) as (F1 & F2 & F3 & _).
    assert (Hp : place s1 a) by (apply (fresh_place s s1 a 65536 a Hfresh); [rewrite Ho; by left|lia|lia|done]).
    assert (Hpe : place s1 (a + 65504)) by (apply (fresh_place s s1 a 65536 _ Hfresh); [rewrite Ho; by left|lia|lia|Z.div_mod_to_equations; lia]).
    rewrite bind_write, bind_next by by rewrite ?place_set_mem. cbn [mem set_mem].
    replace (fld (put Size a (65536 - 32) (mem s1)) Size a) with 65504 by (by same_field).
    rewrite !bind_write by by rewrite ?place_set_mem. cbn [mem set_mem]. rewrite !set_mem_twice.
    change (write_cell 8 (HEAP_REGION_DATA (a + 65504)) heap_address) with (write_field RegionListReference (a + 65504) heap_address).
    rewrite bind_write by by rewrite ?place_set_mem. cbn [mem set_mem]. rewrite set_mem_twice. set (m' := put RegionListReference _ _ _).
    exists a, (set_mem m' s1). rewrite (proj2 (Z.eqb_neq a 0)) by done. split_and!; [done|done|by split|destruct Hbl1; by split|]. right. split; [done|].
    pose proof heap_address_range. split; cbn [mem set_mem owned]; [done|done| | |unfold m'..].
    + unfold m'. repeat apply frame_put; try (intros x; unfold field_range, between; cbn; lia). rewrite Hm. by apply frame_fill.
    + unfold m'. split_and!; repeat first [other_field | same_field]; try done; rewrite Hm; apply fld_fill; cbn; lia.
    + repeat first [other_field | same_field]; done.
    + repeat first [other_field | same_field]; done.
    + repeat first [other_field | same_field]; done.
    + by same_field.
Qed.

(** The first region of a new block. *)
Lemma use_fresh s s' a size n zero G LG : shape s G LG (frees G) -> new_block_ok s s' a -> (forall l, blocks_listed s' ((a, l) :: G)) ->
  32 <= size < 32768 -> size mod 32 = 0 -> 0 < n -> n + 16 <= size -> let G' := (a, used_mid 65504 size n) :: G in
  exists m', use_region a size n zero s' =
    (Ok (a + 16), set_mem m' (set_counts (u64 (allocationsCount s' + 1)) (u64 (heap_size s' + size)) s')) /\
    shape (set_mem m' s') G' LG (frees G') /\ frame (fun x => between a (a + 65536) x \/ links (frees G) x) (mem s) m' /\
    fld m' AllocationSize a = n /\ (zero = true -> forall x, between (a + 16) (a + 16 + n) x -> m' x = 0).
Proof.
  intros Hs [N1 N2 N3 (E1 & E2 & E3 & E4) N5 N6 N7 N8] Hbl Hsize Hmod Hn Hn2 G'. cbn [rsize used_word ralloc] in *.
  assert (HG' : G' = (a, [Reg size (Some n); Reg (65504 - size) None]) :: G) by (unfold G', used_mid; by rewrite (proj2 (Z.eqb_neq _ _)) by lia).
  pose proof N1 as (F1 & F2 & F3 & F4). apply list.Forall_cons in F4 as [F4 _]. unfold disjoint, array_range in F4. cbn in F4.
  assert (Hplace : forall b, a <= b -> b <= a + 65504 -> b mod 32 = 0 -> place s' b).
  { intros b H1 H2 H3. apply (fresh_place s s' a 65536 b N1); [rewrite N2; by left|lia|lia|done]. }
  assert (Hold : forall b, place s b -> place s' b).
  { intros b. apply place_mono. intros r Hr. rewrite N2. by right. }
  pose proof (shape_places _ _ _ _ Hs) as Hpl.
  assert (Hpl' : places s' (frees G)) by (eapply list.Forall_impl; [exact Hpl|intros r; apply Hold]).
  assert (Hout : forall b y, (b, y) ∈ frees G -> b + 32 <= a \/ a + 65536 <= b).
  { intros b y Hb. apply (shape_listed _ _ _ _ Hs) in Hb. destruct (all_placed_range _ _ _ (shape_sized _ _ _ _ Hs) Hb) as (c & Hc & ?).
    destruct N1 as (_ & _ & _ & Hd). apply list.Forall_cons in Hd as [_ Hd]. rewrite list.Forall_forall in Hd.
    specialize (Hd _ (block_owned _ _ _ _ Hs c Hc)). unfold disjoint, block_range in Hd. cbn in *. lia. }
  assert (Hl : lists_ok (mem s') (frees G)).
  { eapply lists_frame; [exact N3|apply Hs|]. intros x [Hx|([b y] & Hb & Hx)] Hx2; [unfold between in *; lia|].
    pose proof (Hout b y Hb). unfold between in *. cbn in *. lia. }
  set (s1 := set_counts (u64 (allocationsCount s' + 1)) (u64 (heap_size s' + size)) s').
  assert (Hp1 : forall b, place s' b -> place s1 b) by (intros b []; by split). cbn zeta.
  destruct (split_exec s1 a 0 65504 size n (frees G)) as (m1 & E & Hl1 & Hf1 & Hh1 & Hh2 & Hnext); try done; try lia.
  { apply Hp1, Hplace; [lia|lia|done]. }
  { apply Hp1, Hplace; [lia|lia|]. Z.div_mod_to_equations; lia. }
  { apply Hp1, Hplace; [lia|lia|]. Z.div_mod_to_equations; lia. }
  { eapply list.Forall_impl; [exact Hpl'|intros r; apply Hp1]. }
  { cbn. apply list.NoDup_cons. split; [|by apply (shape_nodup _ _ _ _ Hs)]. intros Hin. apply list_elem_of_fmap in Hin as ([b y] & Eb & Hb).
    pose proof (Hout b y Hb). cbn in Eb. lia. }
  { intros b y Hb. pose proof (Hout b y Hb). lia. }
  { unfold disjoint, array_range. cbn. lia. }
  change (mem s1) with (mem s') in *.
  assert (Hf : frame (fun x => between a (a + 65536) x \/ links (frees G) x) (mem s) m1).
  { eapply frame_trans; [eapply frame_mono; [exact N3|by left]|]. eapply frame_mono; [exact Hf1|].
    intros x [Hx|[Hx|Hx]]; [left; unfold between in *; lia|left; unfold between in *; lia|by right]. }
  assert (Hend : forall f, f <> Previous -> fld m1 f (a + 65504) = fld (mem s') f (a + 65504)).
  { intros f Hne. eapply fld_frame; [exact Hf1|]. intros x Hx [Hx2|[Hx2|[Hx2|([b y] & Hb & Hx2)]]]; unfold field_range, between in *.
    - destruct f; cbn in *; lia.
    - destruct f; cbn in *; (done || lia).
    - destruct f; cbn in *; lia.
    - pose proof (Hout b y Hb). destruct f; cbn in *; lia. }
  assert (Hfr' : frees G' ≡ₚ (a + size, 65504 - size) :: frees G) by by rewrite HG'.
  assert (Hs2 : shape (set_mem m1 s1) G' LG (frees G')).
  { rewrite HG'. eapply (shape_new s); [exact Hs|exact N1|exact N2|exact Hf|done| | |exists []; reflexivity|].
    - split_and!.
      + rewrite E2 in Hh1. cbn [fst snd seg mem set_mem rsize]. rewrite !Z.add_0_l, Z.add_0_r. by split_and!.
      + constructor; [|constructor; [|done]]; cbn; split; Z.div_mod_to_equations; lia.
      + cbn. lia.
      + unfold end_ok. cbn [mem set_mem fst snd last_size rsize]. split_and!; [by rewrite Hend|exact Hnext|by rewrite Hend..].
    - cbn [mem set_mem]. rewrite <- HG'. by rewrite Hfr'.
    - destruct (Hbl [Reg size (Some n); Reg (65504 - size) None]). by split. }
  destruct (finish_spec (set_mem m1 s1) G' LG _ a size n zero Hs2) as (m' & E' & Hs3 & Hf3 & Ha & Hz); [rewrite HG', all_placed_cons; by left|lia|lia|].
  exists m'. split_and!; [| | |done|done].
  - unfold use_region. rewrite !bind_read by (apply Hplace; [lia|lia|done]). rewrite E1, E4, (proj2 (Z.ltb_ge _ _)) by lia. cbn [negb orb Z.eqb].
    rewrite bind_add_counts. fold s1. rewrite bind_read by (apply Hp1, Hplace; [lia|lia|done]). change (mem s1) with (mem s'). rewrite E1.
    rewrite (proj2 (Z.eqb_neq _ _)) by lia. rewrite (bind_ok _ _ _ _ _ E), (bind_ok _ _ _ _ _ (MAYBE_VALIDATE_spec _ _ _ Hs2)). exact E'.
  - apply (shape_counts (u64 (allocationsCount s' + 1)) (u64 (heap_size s' + size))). exact Hs3.
  - eapply frame_trans; [exact Hf|]. eapply frame_mono; [exact Hf3|]. intros x Hx. left. unfold between in *. lia.
Qed.
End Steps.
