(* ===== verification/SharedHeapProofs.v ===== *)
(** * Correctness of the heap

    [heap_ok]: the headers, lists and counters agree with the blocks and allocations [G], [LG].
    Allocating, freeing and reallocating keep it and do to the set of allocations what they
    promise; every other allocation keeps its bytes. *)

From stdpp Require Import base list sets.
From S2P Require Import Prelude SharedHeap SharedHeapRegions SharedHeapLists SharedHeapBlocks SharedHeapSteps.

(** ** Blocks without waste *)

Definition is_free (r : reg) : bool := match ralloc r with None => true | Some _ => false end.

(** No free region follows another; [b]: there is one in front. *)
Fixpoint separated (b : bool) (l : list reg) : Prop :=
  match l with [] => True | r :: l => (b && is_free r) = false /\ separated (is_free r) l end.
Fixpoint last_free (b : bool) (l : list reg) : bool := match l with [] => b | r :: l => last_free (is_free r) l end.

(** Free regions are merged, and a block without a used region is given back. *)
Definition block_used (b : block) : Prop := separated false (snd b) /\ Exists (fun r => is_free r = false) (snd b).

Lemma separated_app b l1 l2 : separated b (l1 ++ l2) <-> separated b l1 /\ separated (last_free b l1) l2.
Proof. revert b. induction l1 as [|r l1 IH]; intros b; cbn; [tauto|]. rewrite IH. tauto. Qed.
Lemma separated_weaken b l : separated b l -> separated false l.
Proof. destruct l as [|r l]; cbn; [done|]. tauto. Qed.

(** ** Sums *)

Definition sumZ (l : list Z) : Z := foldr Z.add 0 l.
#[export] Instance sumZ_perm : Proper ((≡ₚ) ==> eq) sumZ.
Proof. unfold sumZ. induction 1; cbn [foldr]; lia. Qed.
Lemma sumZ_app l1 l2 : sumZ (l1 ++ l2) = sumZ l1 + sumZ l2.
Proof. unfold sumZ. induction l1; cbn [foldr app]; lia. Qed.

(** ** The regions of a heap by kind *)

Definition alloc_of (p : Z * reg) : option (Z * Z) := match ralloc (snd p) with Some n => Some (fst p + 16, n) | None => None end.
Definition used_of (p : Z * reg) : option Z := match ralloc (snd p) with Some n => Some (rsize (snd p)) | None => None end.

(** The allocations: address and number of bytes. *)
Definition allocations (G : list block) (LG : list (Z * Z)) : list (Z * Z) :=
  omap alloc_of (all_placed G) ++ map (fun b => (fst b + 16, snd b)) LG.
Definition used_sizes (G : list block) : list Z := omap used_of (all_placed G).

Lemma omap_mid {B} (f : Z * reg -> option B) base l1 mid l2 G0 : omap f (all_placed ((base, l1 ++ mid ++ l2) :: G0)) ≡ₚ
  omap f (placed (base + total l1) mid) ++ omap f (placed base l1 ++ placed (base + total l1 + total mid) l2 ++ all_placed G0).
Proof.
  rewrite all_placed_cons. cbn [fst snd]. rewrite !placed_app, <- !app_assoc, !omap_app. apply Permutation_app_swap_app.
Qed.

(** A region is in the middle of some block. *)
Lemma decompose G p r : (p, r) ∈ all_placed G -> exists base l1 l2 G0, G ≡ₚ (base, l1 ++ [r] ++ l2) :: G0 /\ p = base + total l1.
Proof.
  intros Hp. apply all_placed_in in Hp as ([base l] & Hb & Hp). cbn [fst snd] in Hp.
  apply elem_of_Permutation in Hb as (G0 & HG). revert Hp.
  assert (H : forall a l, (p, r) ∈ placed a l -> exists l1 l2, l = l1 ++ [r] ++ l2 /\ p = a + total l1).
  { clear. intros a l. revert a. induction l as [|r' l IH]; intros a; cbn; [set_solver|]. intros Hin.
    apply elem_of_cons in Hin as [[= -> ->]|Hin].
    - exists [], l. split; [done|cbn; lia].
    - destruct (IH _ Hin) as (l1 & l2 & -> & ->). exists (r' :: l1), l2. split; [done|cbn; lia]. }
  intros Hp. destruct (H base l Hp) as (l1 & l2 & -> & ->). by exists base, l1, l2, G0.
Qed.

Lemma region_size_spec n : 0 < n < 2 ^ 63 -> region_size n mod 32 = 0 /\ n + 16 <= region_size n < n + 48.
Proof.
  intros Hn. unfold region_size, USED_HEAP_REGION_HEADER_SIZE, u64. rewrite !wrap_id by (unfold is_uint; rewrite ?wrap_id; unfold is_uint; lia).
  assert (E : Z.land (n + 16 + 31) (2 ^ 64 - 32) = 32 * ((n + 47) / 32)).
  { replace (n + 16 + 31) with (n + 47) by lia. apply Z.bits_inj'. intros i Hi. rewrite Z.land_spec.
    change (2 ^ 64 - 32) with (Z.shiftl (Z.ones 59) 5). rewrite Z.mul_comm. change 32 with (2 ^ 5).
    rewrite <- Z.shiftr_div_pow2, <- Z.shiftl_mul_pow2, !Z.shiftl_spec by lia. destruct (Z.lt_ge_cases i 5).
    { rewrite !(Z.testbit_neg_r _ (i - 5)) by lia. apply andb_false_r. }
    rewrite Z.shiftr_spec by lia. replace (i - 5 + 5) with i by lia. destruct (Z.lt_ge_cases i 64).
    - rewrite Z.ones_spec_low by lia. apply andb_true_r.
    - rewrite (testbit_high 64 (n + 47)); [done|unfold is_uint; lia|lia]. }
  rewrite E. Z.div_mod_to_equations; lia.
Qed.

Section Correct.
Context `{Laws : HeapSystemLaws}.

(** ** The invariant *)

(** The header of a used region holds the number of bytes that were asked for. *)
Definition size_known (m : memory) (p : Z * reg) : Prop :=
  match ralloc (snd p) with
  | None => True
  | Some n => fld m AllocationSize (fst p) = n /\ 0 < n < 2 ^ 63 /\ rsize (snd p) = region_size n
  end.

Definition large_ok (m : memory) (b : Z * Z) : Prop :=
  fld m Size (fst b) = 0 /\ fld m Used (fst b) = USED_HEAP_REGION_MAGIC /\ fld m AllocationSize (fst b) = snd b /\
  0 < snd b < 2 ^ 63 /\ 32768 <= region_size (snd b).

Record heap_ok (s : EsHeap) (G : list block) (LG : list (Z * Z)) : Prop := {
  ho_shape : shape s G LG (frees G);
  ho_sizes : Forall (size_known (mem s)) (all_placed G);
  ho_used : Forall block_used G;
  ho_large : Forall (large_ok (mem s)) LG;
  ho_count : allocationsCount s = u64 (Z.of_nat (length (used_sizes G)));
  ho_size : heap_size s = u64 (sumZ (used_sizes G) + sumZ (map snd LG));
}.

(** The bytes of the allocations [A] are unchanged. *)
Definition kept (A : list (Z * Z)) (s s' : EsHeap) : Prop :=
  forall a n x, (a, n) ∈ A -> between a (a + n) x -> mem s' x = mem s x.

Lemma used_sizes_perm G G' : G ≡ₚ G' -> used_sizes G ≡ₚ used_sizes G'.
Proof. intros Hp. unfold used_sizes, all_placed. by rewrite Hp. Qed.
Lemma allocations_perm G G' LG : G ≡ₚ G' -> allocations G LG ≡ₚ allocations G' LG.
Proof. intros Hp. unfold allocations, all_placed. by rewrite Hp. Qed.
Lemma frees_perm G G' : G ≡ₚ G' -> frees G ≡ₚ frees G'.
Proof. intros Hp. unfold frees, all_placed. by rewrite Hp. Qed.

Lemma heap_ok_perm s G G' LG : G ≡ₚ G' -> heap_ok s G LG -> heap_ok s G' LG.
Proof.
  intros Hp [H1 H2 H3 H4 H5 H6]. pose proof (used_sizes_perm _ _ Hp) as Hu. split.
  - eapply shape_lists_perm; [by apply frees_perm|]. by eapply shape_perm.
  - unfold all_placed. by rewrite <- Hp.
  - by rewrite <- Hp.
  - done.
  - by rewrite <- (Permutation_length Hu).
  - by rewrite <- Hu.
Qed.

(** The bytes of an allocation are in its region, behind the header. *)
Lemma alloc_range s G LG a n : heap_ok s G LG -> (a, n) ∈ omap alloc_of (all_placed G) ->
  exists r, (a - 16, r) ∈ all_placed G /\ ralloc r = Some n /\ n + 16 <= rsize r /\ 0 < n < 2 ^ 63.
Proof.
  intros Hok Hin. apply list_elem_of_omap in Hin as ([p r] & Hp & E). unfold alloc_of in E. cbn in E.
  destruct (ralloc r) as [n'|] eqn:Er; [|done]. injection E as <- <-. exists r.
  pose proof (ho_sizes _ _ _ Hok) as Hs. rewrite list.Forall_forall in Hs. specialize (Hs _ Hp). unfold size_known in Hs. cbn in Hs. rewrite Er in Hs.
  destruct Hs as (_ & Hn & Hr). pose proof (region_size_spec n' Hn). replace (p + 16 - 16) with p by lia. split_and!; (done || lia).
Qed.

Lemma large_range_ok s G LG b : heap_ok s G LG -> b ∈ LG -> snd b + 16 <= region_size (snd b) /\ 0 < snd b.
Proof.
  intros Hok Hb. pose proof (ho_large _ _ _ Hok) as Hl. rewrite list.Forall_forall in Hl. destruct (Hl b Hb) as (_ & _ & _ & Hn & _).
  pose proof (region_size_spec _ Hn). lia.
Qed.

(** The allocations but those of [mid]. *)
Definition other_allocs (base : Z) (l1 mid l2 : list reg) (G0 : list block) (LG : list (Z * Z)) : list (Z * Z) :=
  omap alloc_of (placed base l1 ++ placed (base + total l1 + total mid) l2 ++ all_placed G0) ++ map (fun b => (fst b + 16, snd b)) LG.

Lemma allocations_mid base l1 mid l2 G0 LG :
  allocations ((base, l1 ++ mid ++ l2) :: G0) LG ≡ₚ omap alloc_of (placed (base + total l1) mid) ++ other_allocs base l1 mid l2 G0 LG.
Proof. unfold allocations, other_allocs. by rewrite omap_mid, <- app_assoc. Qed.

Lemma other_allocs_total base l1 mid mid' l2 G0 LG : total mid' = total mid -> other_allocs base l1 mid' l2 G0 LG = other_allocs base l1 mid l2 G0 LG.
Proof. intros Ht. unfold other_allocs. by rewrite Ht. Qed.

Section Replace.
Context s base l1 mid l2 G0 LG (Hok : heap_ok s ((base, l1 ++ mid ++ l2) :: G0) LG).
Let lo := base + total l1.
Let hi := lo + total mid.
Let fr := frees ((base, l1 ++ mid ++ l2) :: G0).
Context (m' : memory) (Hf : frame (touched lo hi fr) (mem s) m').

Lemma listed_all a z : (a, z) ∈ fr -> (a, Reg z None) ∈ all_placed ((base, l1 ++ mid ++ l2) :: G0).
Proof. intros Hin. by apply frees_in. Qed.

(** A used region elsewhere, or a large allocation, is not touched. *)
Lemma elsewhere p r x : (p, r) ∈ placed base l1 ++ placed hi l2 ++ all_placed G0 -> ralloc r <> None -> between (p + 8) (p + rsize r) x -> m' x = mem s x.
Proof.
  intros Hp Hr Hx. apply Hf. destruct (untouched s base l1 mid l2 G0 LG fr (ho_shape _ _ _ Hok) fr listed_all) as [H1 _]. by apply (H1 p r).
Qed.
Lemma large_elsewhere b x : b ∈ LG -> between (fst b) (fst b + region_size (snd b)) x -> m' x = mem s x.
Proof.
  intros Hb Hx. apply Hf. destruct (untouched s base l1 mid l2 G0 LG fr (ho_shape _ _ _ Hok) fr listed_all) as [_ H2]. by apply (H2 b).
Qed.

Lemma in_block p : p ∈ placed base l1 ++ placed hi l2 ++ all_placed G0 -> p ∈ all_placed ((base, l1 ++ mid ++ l2) :: G0).
Proof. intros Hp. rewrite all_placed_cons. cbn [fst snd]. rewrite !placed_app. fold lo hi. set_solver. Qed.

Lemma others_kept a n x : (a, n) ∈ other_allocs base l1 mid l2 G0 LG -> between a (a + n) x -> m' x = mem s x.
Proof.
  intros Hin Hx. apply elem_of_app in Hin as [Hin|Hin].
  - apply list_elem_of_omap in Hin as (p & Hp & E). fold lo hi in Hp.
    destruct (alloc_range s _ LG a n Hok) as (r & Hr & Er & Hn & Hn2); [apply list_elem_of_omap; exists p; split; [by apply in_block|done]|].
    destruct p as [p r']. unfold alloc_of in E. cbn in E. destruct (ralloc r') as [n'|] eqn:Er'; [|done]. injection E as <- <-.
    replace (p + 16 - 16) with p in Hr by lia.
    assert (r' = r) as <-.
    { apply (fst_unique (all_placed ((base, l1 ++ mid ++ l2) :: G0)) p); [|by apply in_block|done].
      apply NoDup_extents; [apply all_apart; [by apply (shape_sized _ _ _ _ (ho_shape _ _ _ Hok))|by apply (shape_ranges _ _ _ _ (ho_shape _ _ _ Hok))]|].
      apply list.Forall_forall. intros [q rq] Hq. destruct (all_placed_range _ _ _ (shape_sized _ _ _ _ (ho_shape _ _ _ Hok)) Hq) as (? & _ & ?). cbn. lia. }
    apply (elsewhere p r'); [done|by rewrite Er'|]. unfold between in *. lia.
  - apply list_elem_of_fmap in Hin as (b & [= -> ->] & Hb). pose proof (large_range_ok _ _ _ b Hok Hb). apply (large_elsewhere b); [done|].
    unfold between in *. lia.
Qed.

Lemma sizes_elsewhere p : p ∈ placed base l1 ++ placed hi l2 ++ all_placed G0 -> size_known m' p.
Proof.
  intros Hp. pose proof (ho_sizes _ _ _ Hok) as Hs. rewrite list.Forall_forall in Hs. specialize (Hs p (in_block p Hp)).
  destruct p as [p r]. unfold size_known in *. cbn in *. destruct (ralloc r) as [n|] eqn:Er; [|done]. destruct Hs as (H1 & H2 & H3).
  split; [|done]. rewrite <- H1. apply load_ext. intros x Hx. apply (elsewhere p r); [done|by rewrite Er|].
  pose proof (region_size_spec n H2). unfold between in *. cbn in *. lia.
Qed.

Lemma large_kept : Forall (large_ok m') LG.
Proof.
  apply list.Forall_forall. intros b Hb. pose proof (ho_large _ _ _ Hok) as Hl. rewrite list.Forall_forall in Hl. destruct (Hl b Hb) as (H1 & H2 & H3 & H4 & H5).
  assert (E : forall f, f <> RegionListReference -> fld m' f (fst b) = fld (mem s) f (fst b)).
  { intros f Hne. apply load_ext. intros x Hx. apply (large_elsewhere b); [done|]. unfold between in *. destruct f; cbn in *; (done || lia). }
  unfold large_ok. by rewrite !E.
Qed.

(** The heap after [mid] has become [mid']. *)
Lemma heap_replace s' mid' : mem s' = m' -> total mid' = total mid ->
  shape s' ((base, l1 ++ mid' ++ l2) :: G0) LG (frees ((base, l1 ++ mid' ++ l2) :: G0)) ->
  Forall (size_known m') (placed lo mid') -> block_used (base, l1 ++ mid' ++ l2) ->
  allocationsCount s' = u64 (allocationsCount s + (Z.of_nat (length (omap used_of (placed lo mid'))) - Z.of_nat (length (omap used_of (placed lo mid))))) ->
  heap_size s' = u64 (heap_size s + (sumZ (omap used_of (placed lo mid')) - sumZ (omap used_of (placed lo mid)))) ->
  heap_ok s' ((base, l1 ++ mid' ++ l2) :: G0) LG.
Proof.
  intros Em Ht Hs Hsz Hb Hc Hz. pose proof (omap_mid used_of base l1 mid l2 G0) as Hp1. pose proof (omap_mid used_of base l1 mid' l2 G0) as Hp2.
  rewrite Ht in Hp2. fold lo hi in Hp1, Hp2. split.
  - done.
  - rewrite Em. assert (all_placed ((base, l1 ++ mid' ++ l2) :: G0) ≡ₚ placed lo mid' ++ (placed base l1 ++ placed hi l2 ++ all_placed G0)) as ->.
    { rewrite all_placed_cons. cbn [fst snd]. rewrite !placed_app, Ht, <- !app_assoc. apply Permutation_app_swap_app. }
    apply list.Forall_app. split; [done|]. apply list.Forall_forall. intros p. apply sizes_elsewhere.
  - apply list.Forall_cons. split; [done|]. pose proof (ho_used _ _ _ Hok) as Hu. by apply list.Forall_cons in Hu as [_ ?].
  - rewrite Em. apply large_kept.
  - rewrite Hc, (ho_count _ _ _ Hok), u64_add_l. f_equal. unfold used_sizes.
    rewrite (Permutation_length Hp1), (Permutation_length Hp2), !length_app. lia.
  - rewrite Hz, (ho_size _ _ _ Hok), u64_add_l. f_equal. unfold used_sizes. rewrite Hp1, Hp2, !sumZ_app. lia.
Qed.
End Replace.

(** ** Allocation *)

(** [r] is a new allocation of [n] bytes. *)
Record allocated (s : EsHeap) (n : Z) (zero : bool) (G : list block) (LG : list (Z * Z)) (r : Z) (s' : EsHeap) (G' : list block) (LG' : list (Z * Z)) : Prop := {
  al_ok : heap_ok s' G' LG';
  al_allocs : allocations G' LG' ≡ₚ (r, n) :: allocations G LG;
  al_kept : kept (allocations G LG) s s';
  al_zero : zero = true -> forall x, between r (r + n) x -> mem s' x = 0;
}.

Lemma links_perm fr fr' x : (forall r, r ∈ fr -> r ∈ fr') -> links fr x -> links fr' x.
Proof. intros Hp [Hx|(r & Hr & Hx)]; [by left|right]. exists r. auto. Qed.

Lemma used_mid_total z size n : total (used_mid z size n) = z \/ z <> size /\ total (used_mid z size n) = z.
Proof. unfold used_mid. destruct (Z.eqb_spec z size); cbn; lia. Qed.

Lemma used_block base l1 z size n l2 : separated false (l1 ++ [Reg z None] ++ l2) -> block_used (base, l1 ++ used_mid z size n ++ l2).
Proof.
  intros Hs. apply separated_app in Hs as [H1 [H2 H3]]. cbn in H2, H3. unfold block_used, used_mid. cbn [snd]. destruct (z =? size).
  - split; [|apply Exists_app; right; by left]. apply separated_app. split; [done|]. cbn. split; [apply andb_false_r|by eapply separated_weaken].
  - split; [|apply Exists_app; right; by left]. apply separated_app. split; [done|]. cbn. by rewrite andb_false_r.
Qed.

Lemma alloc_found s base l1 z l2 G0 LG fr m1 n zero : let G := (base, l1 ++ [Reg z None] ++ l2) :: G0 in let p := base + total l1 in
  heap_ok s G LG -> frees G ≡ₚ (p, z) :: fr -> shape (set_mem m1 s) G LG fr -> frame (links (frees G)) (mem s) m1 ->
  0 < n < 2 ^ 63 -> region_size n <= z ->
  exists s' G', use_region p (region_size n) n zero (set_mem m1 s) = (Ok (p + 16), s') /\ allocated s n zero G LG (p + 16) s' G' LG.
Proof.
  intros G p Hok Hfr Hs Hf1 Hn Hz. destruct (region_size_spec n Hn) as [Hmod Hsize].
  destruct (use_region_spec (set_mem m1 s) base l1 z (region_size n) n zero l2 G0 LG fr Hs Hfr) as (m' & E & Hs' & Hf & Ha & Hzero); [|done|lia|lia|].
  { split; [|done]. Z.div_mod_to_equations; lia. }
  fold p in E, Hs', Hf, Ha, Hzero. cbn [mem set_mem allocationsCount heap_size] in *.
  assert (Hframe : frame (touched (base + total l1) (base + total l1 + total [Reg z None]) (frees G)) (mem s) m').
  { cbn [total rsize]. rewrite Z.add_0_r. eapply frame_trans; [eapply frame_mono; [exact Hf1|by right; right]|]. eapply frame_mono; [exact Hf|].
    intros x [Hx|[Hx|Hx]]; [by left|by right; left|right; right]. eapply links_perm; [|exact Hx]. intros r Hr. rewrite Hfr. by right. }
  assert (Ht : total (used_mid z (region_size n) n) = total [Reg z None]) by (cbn; destruct (used_mid_total z (region_size n) n); lia).
  assert (Hu : omap used_of (placed p (used_mid z (region_size n) n)) = [region_size n]) by (unfold used_mid; by destruct (z =? region_size n)).
  set (s' := set_mem m' (set_counts (u64 (allocationsCount s + 1)) (u64 (heap_size s + region_size n)) (set_mem m1 s))) in *.
  exists s', ((base, l1 ++ used_mid z (region_size n) n ++ l2) :: G0). split; [exact E|]. split.
  - eapply (heap_replace s base l1 [Reg z None] l2 G0 LG Hok m' Hframe s'); [done|done| | | | |].
    + by apply (shape_counts (u64 (allocationsCount s + 1)) (u64 (heap_size s + region_size n)) (set_mem m' (set_mem m1 s))).
    + fold p. unfold used_mid. destruct (z =? region_size n); repeat (apply list.Forall_cons; split); try done; by constructor.
    + apply used_block. pose proof (ho_used _ _ _ Hok) as Hb. by apply list.Forall_cons in Hb as [[? _] _].
    + fold p. rewrite Hu. done.
    + fold p. rewrite Hu. cbn. f_equal. lia.
  - unfold G. rewrite !allocations_mid, (other_allocs_total _ _ _ _ _ _ _ Ht). fold p.
    unfold used_mid. destruct (z =? region_size n); reflexivity.
  - intros a k x Hin Hx. unfold G in Hin. rewrite allocations_mid in Hin. by eapply (others_kept s base l1 [Reg z None]).
  - exact Hzero.
Qed.

Section Grow.
Context s G LG (Hok : heap_ok s G LG) (a size : Z) (Hfresh : fresh a size s) (m' : memory)
  (Hf : frame (fun x => between a (a + size) x \/ links (frees G) x) (mem s) m').

Lemma fresh_apart r x : r ∈ owned s -> between (fst r) (fst r + snd r) x -> ~ between a (a + size) x.
Proof.
  intros Hr Hx Hx2. destruct Hfresh as (_ & _ & _ & Hd). apply list.Forall_cons in Hd as [_ Hd]. rewrite list.Forall_forall in Hd.
  specialize (Hd _ Hr). unfold disjoint, between in *. cbn in *. lia.
Qed.

Lemma grow_used p r x : (p, r) ∈ all_placed G -> ralloc r <> None -> between (p + 8) (p + rsize r) x -> m' x = mem s x.
Proof.
  intros Hp Hr Hx. pose proof (ho_shape _ _ _ Hok) as Hs. apply Hf. intros [Hx2|Hx2].
  - destruct (all_placed_range _ _ _ (shape_sized _ _ _ _ Hs) Hp) as (b & Hb & ?).
    apply (fresh_apart (block_range b) x (block_owned _ _ _ _ Hs b Hb)); [|done]. unfold block_range, between in *. cbn. lia.
  - apply (used_links _ _ _ _ Hs (frees G) p r x); [by apply (shape_listed _ _ _ _ Hs)|done..].
Qed.

Lemma grow_large b x : b ∈ LG -> between (fst b) (fst b + region_size (snd b)) x -> m' x = mem s x.
Proof.
  intros Hb Hx. pose proof (ho_shape _ _ _ Hok) as Hs. destruct (large_apart _ _ _ _ Hs b x Hb Hx) as [H1 H2]. apply Hf. intros [Hx2|[Hx2|([c z] & Hc & Hx2)]].
  - apply (fresh_apart (large_range b) x); [|done..]. rewrite (sh_owned _ _ _ _ Hs). apply elem_of_app. right. apply list_elem_of_fmap. by exists b.
  - done.
  - apply (shape_listed _ _ _ _ Hs) in Hc. destruct (all_placed_range _ _ _ (shape_sized _ _ _ _ Hs) Hc) as (d & Hd & ?).
    apply (H2 d Hd). unfold between in *. cbn in *. lia.
Qed.

Lemma grow_sizes : Forall (size_known m') (all_placed G).
Proof.
  apply list.Forall_forall. intros [p r] Hp. pose proof (ho_sizes _ _ _ Hok) as Hs. rewrite list.Forall_forall in Hs. specialize (Hs _ Hp).
  unfold size_known in *. cbn in *. destruct (ralloc r) as [n|] eqn:Er; [|done]. destruct Hs as (H1 & H2 & H3). split; [|done]. rewrite <- H1.
  apply load_ext. intros x Hx. apply (grow_used p r); [done|by rewrite Er|]. pose proof (region_size_spec n H2). unfold between in *. cbn in *. lia.
Qed.

Lemma grow_larges : Forall (large_ok m') LG.
Proof.
  apply list.Forall_forall. intros b Hb. pose proof (ho_large _ _ _ Hok) as Hl. rewrite list.Forall_forall in Hl. specialize (Hl b Hb).
  assert (E : forall f, f <> RegionListReference -> fld m' f (fst b) = fld (mem s) f (fst b)).
  { intros f Hne. apply load_ext. intros x Hx. apply (grow_large b); [done|]. destruct Hl as (_ & _ & _ & _ & ?). unfold between in *. destruct f; cbn in *; (done || lia). }
  unfold large_ok in *. by rewrite !E.
Qed.

Lemma grow_kept c n x : (c, n) ∈ allocations G LG -> between c (c + n) x -> m' x = mem s x.
Proof.
  intros Hin Hx. apply elem_of_app in Hin as [Hin|Hin].
  - destruct (alloc_range s G LG c n Hok Hin) as (r & Hr & Er & Hn & _). apply (grow_used (c - 16) r); [done|by rewrite Er|].
    unfold between in *. lia.
  - apply list_elem_of_fmap in Hin as (b & [= -> ->] & Hb). pose proof (large_range_ok _ _ _ b Hok Hb). apply (grow_large b); [done|]. unfold between in *. lia.
Qed.
End Grow.

Lemma alloc_new s s1 a G LG n zero : heap_ok s G LG -> new_block_ok s s1 a -> (forall l, blocks_listed s1 ((a, l) :: G)) -> same_counts s s1 ->
  0 < n < 2 ^ 63 -> region_size n < 32768 ->
  exists s' G', use_region a (region_size n) n zero s1 = (Ok (a + 16), s') /\ allocated s n zero G LG (a + 16) s' G' LG.
Proof.
  intros Hok Hnew Hbl [Hc1 Hc2] Hn Hsize. destruct (region_size_spec n Hn) as [Hmod Hsize2].
  destruct (use_fresh s s1 a (region_size n) n zero G LG (ho_shape _ _ _ Hok) Hnew Hbl) as (m' & E & Hs' & Hf & Ha & Hzero); [|done|lia|lia|].
  { split; [|done]. Z.div_mod_to_equations; lia. }
  set (s' := set_mem m' _) in E. exists s', ((a, used_mid 65504 (region_size n) n) :: G). split; [exact E|].
  assert (Hmid : used_mid 65504 (region_size n) n = [Reg (region_size n) (Some n); Reg (65504 - region_size n) None]).
  { unfold used_mid. by rewrite (proj2 (Z.eqb_neq _ _)) by lia. }
  assert (Hu : used_sizes ((a, used_mid 65504 (region_size n) n) :: G) = region_size n :: used_sizes G).
  { unfold used_sizes. by rewrite all_placed_cons, Hmid. }
  pose proof (nb_fresh _ _ _ Hnew) as Hfr. split.
  - split.
    + by apply (shape_counts (u64 (allocationsCount s1 + 1)) (u64 (heap_size s1 + region_size n)) (set_mem m' s1)).
    + rewrite all_placed_cons, Hmid. cbn [fst snd placed app]. apply list.Forall_cons. split; [by split|]. apply list.Forall_cons. split; [done|].
      by apply (grow_sizes s G LG Hok a 65536).
    + apply list.Forall_cons. split; [|apply Hok]. rewrite <- (app_nil_r (used_mid _ _ _)). by apply (used_block a [] 65504 (region_size n) n []).
    + by apply (grow_larges s G LG Hok a 65536).
    + cbn [allocationsCount set_mem set_counts s']. rewrite Hc1, (ho_count _ _ _ Hok), u64_add_l, Hu. f_equal. cbn [length]. lia.
    + cbn [heap_size set_mem set_counts s']. rewrite Hc2, (ho_size _ _ _ Hok), u64_add_l, Hu. f_equal. cbn [sumZ foldr]. fold (sumZ (used_sizes G)). lia.
  - unfold allocations. by rewrite all_placed_cons, Hmid.
  - intros c k x. by apply (grow_kept s G LG Hok a 65536).
  - exact Hzero.
Qed.

(** ** Large allocations *)

Lemma shape_large s s' G LG fr a n : shape s G LG fr -> fresh a (region_size n) s -> owned s' = (a, region_size n) :: owned s ->
  frame (between a (a + region_size n)) (mem s) (mem s') -> blocks_listed s' G -> shape s' G ((a, n) :: LG) fr.
Proof.
  intros Hs (F1 & F2 & F3 & F4) Ho Hf Hbl. pose proof Hs as [H1 H2 H3 H4 H5 H6 H7]. apply list.Forall_cons in F4 as [F4 F5]. destruct H2 as [H2a H2b].
  assert (Hout : forall b x, b ∈ G -> between (fst b) (fst b + 65536) x -> ~ between a (a + region_size n) x).
  { intros b x Hb Hx Hx2. rewrite list.Forall_forall in F5. specialize (F5 _ (block_owned _ _ _ _ Hs b Hb)).
    unfold disjoint, block_range, between in *. cbn in *. lia. }
  split; [| | | | |done|done].
  - rewrite Ho, H1. exact (Permutation_middle _ _ _).
  - rewrite Ho. split; [apply list.Forall_cons; split; [by apply disjoint_sym|done]|by split].
  - rewrite Ho. by apply list.Forall_cons.
  - apply list.Forall_forall. intros b Hb. rewrite list.Forall_forall in H4.
    pose proof (shape_sized _ _ _ _ Hs) as Hsz. unfold blocks_sized in Hsz. rewrite list.Forall_forall in Hsz. destruct (Hsz b Hb) as (S1 & S2 & _).
    eapply rest_frame; [exact Hf|by apply H4| |].
    + intros [p r] x Hp Hx. rewrite Z.add_0_r in Hp. pose proof (placed_range _ _ _ _ S1 Hp). apply (Hout b); [done|]. unfold between in *. cbn in *. lia.
    + intros x Hx. apply (Hout b); [done|]. unfold between in *. lia.
  - eapply lists_frame; [exact Hf|done|]. intros x [Hx|([b y] & Hb & Hx)] Hx2.
    + unfold disjoint, array_range, between in *. cbn in *. lia.
    + apply (shape_listed _ _ _ _ Hs) in Hb. destruct (all_placed_range _ _ _ (shape_sized _ _ _ _ Hs) Hb) as (c & Hc & ?).
      apply (Hout c x Hc); [|done]. unfold between in *. cbn in *. lia.
Qed.

(** The system refuses a request: only the number of requests changes. *)
Definition refused (s : EsHeap) : EsHeap :=
  MkHeap (mem s) (owned s) (S (requests s)) (allocationsCount s) (heap_size s) (blockCount s) (blocks s) (cannotValidate s).

Lemma alloc_large s G LG n zero : heap_ok s G LG -> 0 < n < 2 ^ 63 -> 32768 <= region_size n ->
  EsHeapAllocate n zero s = (Ok 0, refused s) /\ reserve (requests s) (owned s) (region_size n) = 0 \/
  exists a s' LG', EsHeapAllocate n zero s = (Ok (a + 16), s') /\ allocated s n zero G LG (a + 16) s' G LG'.
Proof.
  intros Hok Hn Hsize. destruct (region_size_spec n Hn) as [Hmod Hsize2]. pose proof (ho_shape _ _ _ Hok) as Hs.
  unfold EsHeapAllocate. rewrite (proj2 (Z.eqb_neq n 0)) by lia. unfold s64. rewrite swrap_id, (proj2 (Z.ltb_ge n 0)) by lia.
  unfold LARGE_ALLOCATION_THRESHOLD. rewrite (proj2 (Z.leb_le _ _)) by lia. unfold HEAP_ALLOCATE_CALL.
  set (a := reserve (requests s) (owned s) (region_size n)). destruct (Z.eqb_spec a 0) as [Ha|Ha].
  { left. split; [|done]. unfold bind, get, modify, ret. fold a. by rewrite Ha. }
  right. pose proof (reserved_fresh s (region_size n) ltac:(lia) Ha) as Hfresh. fold a in Hfresh.
  set (s0 := MkHeap (fill 0 (region_size n) (mem s) a) ((a, region_size n) :: owned s) (S (requests s))
    (allocationsCount s) (heap_size s) (blockCount s) (blocks s) (cannotValidate s)).
  assert (Hp : place s0 a) by (apply (fresh_place s s0 a _ a Hfresh); [by left|lia|lia|apply Hfresh]).
  set (m' := put AllocationSize a n (put Size a 0 (put Used a USED_HEAP_REGION_MAGIC (mem s0)))).
  set (s' := set_counts (u64 (allocationsCount s0 + 0)) (u64 (heap_size s0 + n)) (set_mem m' s0)). exists a, s', ((a, n) :: LG).
  assert (Hf : frame (between a (a + region_size n)) (mem s) m').
  { unfold m'. repeat apply frame_put; [by apply frame_fill|..]; intros x; unfold field_range, between; cbn; lia. }
  assert (Hs' : shape s' G ((a, n) :: LG) (frees G)).
  { apply (shape_large s); [done|done|done|exact Hf|]. destruct (sh_list _ _ _ _ Hs). by split. }
  assert (Hf' : frame (fun x => between a (a + region_size n) x \/ links (frees G) x) (mem s) m') by (eapply frame_mono; [exact Hf|by left]).
  split.
  { unfold bind at 1 2, get, modify. fold a. cbn beta iota. rewrite (proj2 (Z.eqb_neq a 0)) by done. fold s0.
    unfold bind at 1, ret at 1. rewrite (proj2 (Z.eqb_neq a 0)) by done.
    rewrite !bind_write by by rewrite ?place_set_mem. cbn [mem set_mem]. rewrite !set_mem_twice. fold m'. by rewrite bind_add_counts. }
  split.
  - split; [exact Hs'| |apply Hok| | |].
    + by apply (grow_sizes s G LG Hok a (region_size n)).
    + apply list.Forall_cons. split; [|by apply (grow_larges s G LG Hok a (region_size n))].
      unfold large_ok. cbn [fst snd mem s' set_counts set_mem]. unfold m'. split_and!; try done; try lia; repeat first [other_field | same_field]; done.
    + cbn [allocationsCount s' s0 set_mem set_counts]. rewrite (ho_count _ _ _ Hok), u64_add_l. f_equal. lia.
    + cbn [heap_size s' s0 set_mem set_counts]. rewrite (ho_size _ _ _ Hok), u64_add_l. f_equal. cbn [map sumZ foldr snd]. fold (sumZ (map snd LG)). lia.
  - unfold allocations. cbn [map fst snd]. symmetry. exact (Permutation_middle _ _ _).
  - intros c k x. by apply (grow_kept s G LG Hok a (region_size n)).
  - intros _ x Hx. change (mem s') with m'. unfold m', put. unfold between in Hx. rewrite !store_outside by (unfold between; cbn; lia).
    cbn. unfold fill. by rewrite (proj2 (Z.leb_le _ _)), (proj2 (Z.ltb_lt _ _)) by lia.
Qed.

(** ** [EsHeapAllocate] *)

(** The state after a request that was refused: the allocations are as before. *)
Record unchanged (s s' : EsHeap) (G : list block) (LG : list (Z * Z)) : Prop := {
  un_ok : heap_ok s' G LG;
  un_mem : mem s' = mem s;
  un_owned : owned s' = owned s;
}.

Lemma unchanged_same s s' G LG : heap_ok s G LG -> mem s' = mem s -> owned s' = owned s -> same_counts s s' -> blocks_listed s' G -> unchanged s s' G LG.
Proof.
  intros [[H1 H2 H3 H4 H5 H6 H7] ? ? ? ? ?] Em Eo [Ec Ez] Hbl. split; [|done|done].
  split; rewrite ?Em, ?Ec, ?Ez; try done. by split; rewrite ?Em, ?Eo.
Qed.

Lemma unchanged_refused s G LG : heap_ok s G LG -> unchanged s (refused s) G LG.
Proof.
  intros Hok. apply unchanged_same; [done|done|done|done|]. destruct (sh_list _ _ _ _ (ho_shape _ _ _ Hok)). by split.
Qed.

Lemma allocated_perm s n zero G G2 LG r s' G' LG' : G ≡ₚ G2 -> allocated s n zero G2 LG r s' G' LG' -> allocated s n zero G LG r s' G' LG'.
Proof.
  intros Hp [H1 H2 H3 H4]. pose proof (allocations_perm G G2 LG Hp) as Ha. split; [done|by rewrite Ha| |done].
  intros a k x Hin. rewrite Ha in Hin. by apply H3.
Qed.

Lemma listed_any s a l l' G : blocks_listed s ((a, l) :: G) -> blocks_listed s ((a, l') :: G).
Proof. intros [H1 H2 H3]. by split. Qed.

(** Unless there is no memory, a request below the threshold is granted from the free lists or from a new block. *)
Lemma alloc_small s G LG n zero : heap_ok s G LG -> 0 < n < 2 ^ 63 -> region_size n < 32768 -> blockCount s + 1 < 2 ^ 64 ->
  (exists s', EsHeapAllocate n zero s = (Ok 0, s') /\ unchanged s s' G LG /\ reserve (requests s) (owned s) 65536 = 0) \/
  exists r s' G', EsHeapAllocate n zero s = (Ok r, s') /\ allocated s n zero G LG r s' G' LG.
Proof.
  intros Hok Hn Hsize Hcount. destruct (region_size_spec n Hn) as [Hmod Hsize2]. pose proof (ho_shape _ _ _ Hok) as Hs.
  assert (Hge : 32 <= region_size n) by (Z.div_mod_to_equations; lia).
  unfold EsHeapAllocate. rewrite (proj2 (Z.eqb_neq n 0)) by lia. unfold s64. rewrite swrap_id, (proj2 (Z.ltb_ge n 0)) by lia.
  unfold LARGE_ALLOCATION_THRESHOLD. rewrite (proj2 (Z.leb_gt 32768 _)) by lia. rewrite (bind_ok _ _ _ _ _ (MAYBE_VALIDATE_spec _ _ _ Hs)).
  pose proof (index_range (region_size n) ltac:(lia)) as Hi. unfold index_ok in Hi.
  destruct (Find_spec s (frees G) (region_size n) (sh_lists _ _ _ _ Hs) (shape_places _ _ _ _ Hs) (shape_nodup _ _ _ _ Hs) (shape_free_ok _ _ _ _ Hs)
    (Z.to_nat (12 - HeapCalculateIndex (region_size n))) (HeapCalculateIndex (region_size n))) as [E|(r & z & fr & m1 & E & Hfr & Hz & Hl & Hf)]; [lia|lia| |].
  - rewrite (bind_ok _ _ _ _ _ E). destruct (new_block_spec s G [] (sh_list _ _ _ _ Hs) Hcount) as (a & s1 & E1 & Hres & Hc & Hbl & Hnew).
    rewrite (bind_ok _ _ _ _ _ E1). destruct (Z.eqb_spec a 0) as [->|Ha].
    + left. exists s1. destruct Hnew as [(_ & Hm & Ho)|[]]; [|done]. split_and!; [done|by apply unchanged_same|done].
    + right. destruct Hnew as [[]|[_ Hnew]]; [done|]. destruct (alloc_new s s1 a G LG n zero Hok Hnew) as (s' & G' & E2 & Hal); [|done..|by exists (a + 16), s', G'].
      intros l. by eapply listed_any.
  - right. rewrite (bind_ok _ _ _ _ _ E).
    assert (Hr : (r, Reg z None) ∈ all_placed G) by (apply (shape_listed _ _ _ _ Hs); rewrite Hfr; by left).
    destruct (decompose G r _ Hr) as (base & l1 & l2 & G0 & HG & ->).
    pose proof (heap_ok_perm _ _ _ _ HG Hok) as Hok2. pose proof (frees_perm _ _ HG) as HfrG.
    destruct (alloc_found s base l1 z l2 G0 LG fr m1 n zero Hok2) as (s' & G' & E2 & Hal); [by rewrite <- HfrG| | |done|done|].
    + eapply shape_perm; [exact HG|]. apply (shape_links s G LG (frees G) Hs m1 (frees G) fr); [done|exact Hf|by apply (shape_listed _ _ _ _ Hs)|].
      exists [(base + total l1, z)]. done.
    + eapply frame_mono; [exact Hf|]. intros x. apply links_perm. intros q. by rewrite HfrG.
    + exists (base + total l1 + 16), s', G'. split; [exact E2|]. by apply (allocated_perm _ _ _ _ _ _ _ _ _ _ HG).
Qed.

(** What is asked of the system for [n] bytes. *)
Definition request_size (n : Z) : Z := if 32768 <=? region_size n then region_size n else 65536.

Lemma allocate_some s G LG n zero : heap_ok s G LG -> 0 < n < 2 ^ 63 -> blockCount s + 1 < 2 ^ 64 ->
  (exists s', EsHeapAllocate n zero s = (Ok 0, s') /\ unchanged s s' G LG /\ reserve (requests s) (owned s) (request_size n) = 0) \/
  exists r s' G' LG', EsHeapAllocate n zero s = (Ok r, s') /\ allocated s n zero G LG r s' G' LG'.
Proof.
  intros Hok Hn Hc. unfold request_size. destruct (Z.leb_spec 32768 (region_size n)) as [Hl|Hl].
  - destruct (alloc_large s G LG n zero Hok) as [[E Hr]|(a & s' & LG' & E & Ha)]; [lia|done| |right; by exists (a + 16), s', G, LG'].
    left. exists (refused s). split_and!; [exact E|by apply unchanged_refused|done].
  - destruct (alloc_small s G LG n zero Hok) as [|(r & s' & G' & E & Ha)]; [lia|done|done|by left|right; by exists r, s', G', LG].
Qed.

Lemma allocation_range s G LG a n : heap_ok s G LG -> (a, n) ∈ allocations G LG ->
  0 < n /\ a mod 16 = 0 /\ accessible s a n = true.
Proof.
  intros Hok Hin. pose proof (ho_shape _ _ _ Hok) as Hs. apply elem_of_app in Hin as [Hin|Hin].
  - destruct (alloc_range s G LG a n Hok Hin) as (r & Hr & _ & Hn & Hn2). destruct (all_placed_range _ _ _ (shape_sized _ _ _ _ Hs) Hr) as (b & Hb & ?).
    split_and!; [lia|Z.div_mod_to_equations; lia|]. apply (accessible_block s G LG (frees G) b); [done|done|lia..].
  - apply list_elem_of_fmap in Hin as (b & [= -> ->] & Hb). pose proof (large_range_ok _ _ _ b Hok Hb) as [Hn Hn2].
    assert (Ho : large_range b ∈ owned s) by (rewrite (sh_owned _ _ _ _ Hs); apply elem_of_app; right; apply list_elem_of_fmap; by exists b).
    pose proof (sh_bounds _ _ _ _ Hs) as Hbd. rewrite list.Forall_forall in Hbd. destruct (Hbd _ Ho) as (_ & Hm & _). cbn in Hm.
    split_and!; [lia|Z.div_mod_to_equations; lia|]. unfold accessible. apply orb_true_iff. right. apply existsb_exists. exists (large_range b).
    split; [by apply list_elem_of_In|]. unfold inside. cbn. apply andb_true_iff. rewrite !Z.leb_le. lia.
Qed.

Lemma allocs_apart s G LG : heap_ok s G LG -> apart (allocations G LG).
Proof.
  intros Hok. pose proof (ho_shape _ _ _ Hok) as Hs.
  pose proof (sh_apart _ _ _ _ Hs) as [_ Ha]. rewrite (sh_owned _ _ _ _ Hs) in Ha. apply apart_app in Ha as (Ha1 & Ha2 & Ha3).
  pose proof (all_apart _ (shape_sized _ _ _ _ Hs) Ha1) as Hap. apply apart_app. split_and!.
  - assert (Hsz : forall p, p ∈ all_placed G -> size_known (mem s) p) by (apply list.Forall_forall, Hok). revert Hap Hsz. clear.
    induction (all_placed G) as [|[p r] l IH]; [done|]. intros [H1 H2] Hsz. cbn [omap list_omap].
    specialize (IH H2 ltac:(intros q Hq; apply Hsz; by right)). unfold alloc_of at 1. cbn [fst snd]. destruct (ralloc r) as [n|] eqn:Er; [|done].
    split; [|done]. apply list.Forall_forall. intros [a k] Hin. apply list_elem_of_omap in Hin as ([q r'] & Hq & E).
    rewrite list.Forall_forall in H1. specialize (H1 (extent (q, r')) ltac:(apply list_elem_of_fmap; by exists (q, r'))).
    pose proof (Hsz (p, r) ltac:(by left)) as S1. pose proof (Hsz (q, r') ltac:(by right)) as S2. unfold size_known, alloc_of in *. cbn in *.
    rewrite Er in S1. destruct (ralloc r') as [n'|]; [|done]. injection E as <- <-. destruct S1 as (_ & S1 & S1'), S2 as (_ & S2 & S2').
    pose proof (region_size_spec n S1). pose proof (region_size_spec n' S2). unfold disjoint, extent in *. cbn in *. lia.
  - assert (Hsz : forall b, b ∈ LG -> snd b + 16 <= region_size (snd b) /\ 0 < snd b) by (intros b; by apply (large_range_ok s G LG)).
    revert Ha2 Hsz. clear. induction LG as [|b l IH]; [done|]. intros [H1 H2] Hsz. cbn [map]. split; [|apply IH; [done|intros q Hq; apply Hsz; by right]].
    apply list.Forall_forall. intros r Hin. apply list_elem_of_fmap in Hin as (c & -> & Hc). rewrite list.Forall_forall in H1.
    specialize (H1 (large_range c) ltac:(apply list_elem_of_fmap; by exists c)). pose proof (Hsz b ltac:(by left)). pose proof (Hsz c ltac:(by right)).
    unfold disjoint, large_range in *. cbn in *. lia.
  - intros [a n] r2 Hin1 Hin2. destruct (alloc_range s G LG a n Hok Hin1) as (r & Hr & _ & Hn & _).
    destruct (all_placed_range _ _ _ (shape_sized _ _ _ _ Hs) Hr) as (b & Hb & ?). apply list_elem_of_fmap in Hin2 as (c & -> & Hc).
    specialize (Ha3 (block_range b) (large_range c) ltac:(apply list_elem_of_fmap; by exists b) ltac:(apply list_elem_of_fmap; by exists c)).
    pose proof (large_range_ok _ _ _ c Hok Hc). unfold disjoint, block_range, large_range in *. cbn in *. lia.
Qed.

(** Allocations are not empty, in memory of the system, aligned to 16 bytes, and no two of them overlap. *)
Theorem allocations_apart s G LG : heap_ok s G LG ->
  apart (allocations G LG) /\ Forall (fun r => 0 < snd r /\ fst r mod 16 = 0 /\ accessible s (fst r) (snd r) = true) (allocations G LG).
Proof. intros Hok. split; [by eapply allocs_apart|]. apply list.Forall_forall. intros [a n]. by apply allocation_range. Qed.

(** C7. [EsHeapAllocate] keeps the invariant of the heap and adds exactly one allocation, of [n] bytes, zeroed if this was asked
    for, without touching the bytes of another; it fails, with 0, only for an empty request or when the system has no
    memory.  It always returns: neither a panic nor an access outside of the heap is possible. *)
Theorem EsHeapAllocate_correct s G LG n zero : heap_ok s G LG -> 0 <= n < 2 ^ 63 -> blockCount s + 1 < 2 ^ 64 ->
  exists r s', EsHeapAllocate n zero s = (Ok r, s') /\
    (r = 0 /\ unchanged s s' G LG /\ (n = 0 \/ reserve (requests s) (owned s) (request_size n) = 0) \/
     exists G' LG', allocated s n zero G LG r s' G' LG').
Proof.
  intros Hok Hn Hc. destruct (Z.eq_dec n 0) as [->|Hne].
  { exists 0, s. split; [done|]. left. split_and!; [done| |by left]. apply unchanged_same; [done..|apply Hok]. }
  destruct (allocate_some s G LG n zero Hok) as [(s' & E & Hu & Hr)|(r & s' & G' & LG' & E & Ha)]; [lia|done| |].
  - exists 0, s'. split; [exact E|]. left. split_and!; [done|done|by right].
  - exists r, s'. split; [exact E|]. right. by exists G', LG'.
Qed.
End Correct.
