(* ===== verification/SharedHeapFree.v ===== *)
(** * Freeing

    [EsHeapFree] takes exactly one allocation away ([EsHeapFree_correct]).  The region is marked as free
    ([unuse_spec]), merged with the free regions around it ([merge_next_spec], [merge_previous_spec]), and put
    in a list or, with its block, given back ([release_spec]). *)

From stdpp Require Import base list sets.
From S2P Require Import Prelude SharedHeap SharedHeapRegions SharedHeapLists SharedHeapBlocks SharedHeapSteps SharedHeapProofs.

Section Free.
Context `{Laws : HeapSystemLaws}.

(** ** The neighbours of a region *)

Definition first_free (l : list reg) : bool := match l with r :: _ => is_free r | [] => false end.

Lemma used_word_free r : (used_word r =? 0) = is_free r.
Proof. unfold used_word, is_free. by destruct (ralloc r). Qed.

Lemma next_used s base l1 mid l2 G0 LG fr : shape s ((base, l1 ++ mid ++ l2) :: G0) LG fr ->
  (fld (mem s) Used (base + total l1 + total mid) =? 0) = first_free l2.
Proof.
  intros Hs. destruct (first_block s base l1 mid l2 G0 LG fr Hs) as ((H1 & H2 & H3 & H4) & _). cbn [fst snd] in *.
  apply seg_app in H1 as [_ H1]. apply seg_app in H1 as [_ H1]. rewrite Z.add_0_l in *. destruct l2 as [|r l2].
  - rewrite app_nil_r, total_regions_app in *. destruct H4 as (_ & _ & _ & H4 & _). replace (base + total l1 + total mid) with (base + 65504) by lia. by rewrite H4.
  - cbn [seg] in H1. destruct H1 as [(_ & _ & _ & H1) _]. rewrite Z.add_assoc in H1. rewrite H1. apply used_word_free.
Qed.

(** ** Merging *)

Lemma merge_shape s base l1 z1 z2 l2 G0 LG fr : let G := (base, l1 ++ [Reg z1 None; Reg z2 None] ++ l2) :: G0 in
  let p := base + total l1 in let G' := (base, l1 ++ [Reg (z1 + z2) None] ++ l2) :: G0 in
  shape s G LG fr -> frees G ≡ₚ (p, z1) :: (p + z1, z2) :: fr ->
  let m' := put Previous (p + z1 + z2) (z1 + z2) (put Size p (z1 + z2) (mem s)) in
  shape (set_mem m' s) G' LG fr /\ frees G' ≡ₚ (p, z1 + z2) :: fr /\ frame (touched p (p + (z1 + z2)) fr) (mem s) m'.
Proof.
  intros G p G' Hs Hfr m'.
  destruct (first_block s base l1 _ l2 G0 LG fr Hs) as (_ & B1 & B2 & B3 & B4 & Hs1 & Hsm & Hs2 & Htot).
  pose proof (sizes_total _ Hs1). pose proof (sizes_total _ Hs2). unfold sizes_ok in Hsm. rewrite !list.Forall_cons in Hsm. destruct Hsm as ([A1 A2] & [A3 A4] & _).
  destruct (mid_facts s base l1 _ l2 G0 LG fr Hs) as (((E1 & E2 & E3 & E4) & _) & Hnext & _). cbn [rsize total last_size used_word ralloc] in *.
  fold p in E1, E2, E3, E4, Hnext.
  assert (Hfr2 : frees G' ≡ₚ (p, z1 + z2) :: fr).
  { apply (replaced_frees base l1 [Reg z1 None; Reg z2 None] [Reg (z1 + z2) None] l2 G0 fr Hfr). cbn. lia. }
  assert (Hf : frame (touched p (p + (z1 + z2)) fr) (mem s) m').
  { unfold m'. repeat apply frame_put; [done|..]; intros x; unfold touched, field_range, between; cbn; lia. }
  split_and!; [|done|done].
  eapply (shape_replace s base l1 [Reg z1 None; Reg z2 None] [Reg (z1 + z2) None] l2 G0 LG fr Hs Hfr); [cbn; lia| |exact Hf| | | | |].
  - constructor; [|done]. cbn. split; Z.div_mod_to_equations; lia.
  - cbn [seg]. split; [|done]. fold p. unfold m'. split_and!; repeat first [other_field | same_field]; done.
  - cbn [total rsize last_size]. fold p. unfold m'. rewrite Z.add_0_r, Z.add_assoc. by same_field.
  - intros x Hx. cbn [total rsize]. fold p. rewrite Z.add_0_r. exact Hx.
  - assert (Hn : place s (p + (z1 + (z2 + 0)))) by (apply (next_place s base l1 [Reg z1 None; Reg z2 None] l2 G0 LG fr Hs)).
    assert (Hp : place s p) by (apply (replaced_place s base l1 [Reg z1 None; Reg z2 None] l2 G0 LG fr Hs); cbn; fold p; unfold p in *; try lia; Z.div_mod_to_equations; lia).
    unfold m'. rewrite Z.add_0_r, Z.add_assoc in Hn. pose proof (shape_places _ _ _ _ Hs) as Hpl.
    eapply (lists_header s fr _ (put Size p (z1 + z2) (mem s))); [eapply (lists_header s fr p (mem s)); [apply Hs|done|done|]|done|exact Hn|].
    + apply frame_put; [done|]. intros x; unfold field_range, between; cbn; lia.
    + apply frame_put; [done|]. intros x; unfold field_range, between; cbn; lia.
  - by exists [(p, z1 + z2)].
Qed.

(** The code that merges the regions [p] and [q]. *)
Definition merge_pair {A} (p q : Z) (k : unit -> M EsHeap A) : M EsHeap A :=
  let! size := read_field Size p in
  let! nextSize := read_field Size q in
  write_field Size p (size + nextSize) ;;;
  let! after := HEAP_REGION_NEXT q in
  let! size := read_field Size p in
  bind (write_field Previous after size) k.

Lemma merge_exec {A} s base l1 z1 z2 l2 G0 LG fr (k : unit -> M EsHeap A) : let p := base + total l1 in
  shape s ((base, l1 ++ [Reg z1 None; Reg z2 None] ++ l2) :: G0) LG fr ->
  merge_pair p (p + z1) k s = k tt (set_mem (put Previous (p + z1 + z2) (z1 + z2) (put Size p (z1 + z2) (mem s))) s).
Proof.
  intros p Hs. destruct (mid_facts s base l1 _ l2 G0 LG fr Hs) as (((A1 & _) & (A2 & _) & _) & _ & Hsm).
  cbn [rsize] in A1, A2. rewrite Z.add_assoc in A2. fold p in A1, A2. unfold sizes_ok in Hsm. rewrite !list.Forall_cons in Hsm. destruct Hsm as ([A3 _] & [A4 _] & _).
  destruct (first_block s base l1 _ l2 G0 LG fr Hs) as (_ & _ & _ & _ & _ & Hs1 & _ & Hs2 & Htot).
  pose proof (sizes_total _ Hs1). pose proof (sizes_total _ Hs2). cbn in Htot, A3, A4.
  pose proof (next_place s base l1 [Reg z1 None; Reg z2 None] l2 G0 LG fr Hs) as Hn. cbn [total rsize] in Hn. fold p in Hn. rewrite Z.add_0_r, Z.add_assoc in Hn.
  assert (Hin : (p, Reg z1 None) ∈ placed p [Reg z1 None; Reg z2 None] /\ (p + z1, Reg z2 None) ∈ placed p [Reg z1 None; Reg z2 None]) by (cbn; set_solver).
  assert (Hpl : forall a r, (a, r) ∈ placed p [Reg z1 None; Reg z2 None] -> place s a).
  { intros a r Ha. apply (placed_place _ _ _ _ Hs (a, r)). rewrite all_placed_cons. cbn [fst snd]. rewrite !placed_app. fold p. set_solver. }
  destruct Hin as [P1 P2]. apply Hpl in P1, P2. unfold merge_pair. rewrite !bind_read, A1, A2, bind_write by done.
  set (m2 := put Size p (z1 + z2) (mem s)). rewrite bind_next, bind_read by by rewrite place_set_mem. cbn [mem set_mem].
  replace (fld m2 Size (p + z1)) with z2 by (unfold m2; rewrite <- A2; by other_field).
  replace (fld m2 Size p) with (z1 + z2) by (unfold m2; by same_field). by rewrite bind_write by by rewrite place_set_mem.
Qed.

Lemma merge_pair_end p q s : merge_pair p q (fun _ => ret tt) s =
  (let! size := read_field Size p in
   let! nextSize := read_field Size q in
   write_field Size p (size + nextSize) ;;;
   let! after := HEAP_REGION_NEXT q in
   let! size := read_field Size p in
   write_field Previous after size) s.
Proof. unfold merge_pair. repeat (apply bind_ext; intros ? ?). apply bind_ret_tt. Qed.

Lemma remove_shape s G LG a z fr : shape s G LG ((a, z) :: fr) ->
  exists m', HeapRemoveFreeRegion a s = (Ok tt, set_mem m' s) /\ shape (set_mem m' s) G LG fr /\ frame (links ((a, z) :: fr)) (mem s) m'.
Proof.
  intros Hs. destruct (shape_free_ok _ _ _ _ Hs a z) as (Hz & _ & Hu); [by left|].
  destruct (Remove_spec s fr a z (sh_lists _ _ _ _ Hs) (shape_places _ _ _ _ Hs) (shape_nodup _ _ _ _ Hs) (index_range z Hz) Hu) as (m' & E & Hl & Hf).
  exists m'. split_and!; [done| |done]. apply (shape_links s G LG ((a, z) :: fr) Hs m' ((a, z) :: fr) fr); [done|done|by apply (shape_listed _ _ _ _ Hs)|].
  destruct (sh_free _ _ _ _ Hs) as [k Hk]. exists (k ++ [(a, z)]). by rewrite <- app_assoc.
Qed.

Lemma touched_mono lo hi fr fr' x : (forall r, r ∈ fr -> r ∈ fr') -> touched lo hi fr x -> touched lo hi fr' x.
Proof. intros Hin [Hx|[Hx|Hx]]; [by left|by right; left|right; right]. by eapply links_perm. Qed.

(** If one of two free neighbours floats, the other is in a list. *)
Lemma second_listed s base l1 z1 z2 l2 G0 LG fr : let G := (base, l1 ++ [Reg z1 None; Reg z2 None] ++ l2) :: G0 in let p := base + total l1 in
  shape s G LG fr -> (frees G ≡ₚ (p, z1) :: fr -> exists fr', fr ≡ₚ (p + z1, z2) :: fr') /\
    (frees G ≡ₚ (p + z1, z2) :: fr -> exists fr', fr ≡ₚ (p, z1) :: fr').
Proof.
  intros G p Hs. destruct (mid_facts s base l1 _ l2 G0 LG fr Hs) as (_ & _ & Hsm). unfold sizes_ok in Hsm. rewrite !list.Forall_cons in Hsm.
  destruct Hsm as ([A1 _] & _). cbn in A1.
  assert (Hin : (p, z1) ∈ frees G /\ (p + z1, z2) ∈ frees G).
  { rewrite !frees_in. unfold G. rewrite all_placed_cons. cbn [fst snd]. rewrite placed_app. cbn. fold p. set_solver. }
  split; intros Hfr; apply elem_of_Permutation; rewrite Hfr in Hin; destruct Hin as [H1 H2];
    [apply elem_of_cons in H2 as [[=]|]|apply elem_of_cons in H1 as [[=]|]]; (done || lia).
Qed.

(** The second of two free regions is removed from its list, and they are merged. *)
Lemma join_spec s base l1 z1 z2 l2 G0 LG fr fr' q y : let G := (base, l1 ++ [Reg z1 None; Reg z2 None] ++ l2) :: G0 in
  let p := base + total l1 in let G' := (base, l1 ++ [Reg (z1 + z2) None] ++ l2) :: G0 in
  shape s G LG fr -> fr ≡ₚ (q, y) :: fr' -> frees G ≡ₚ (p, z1) :: (p + z1, z2) :: fr' ->
  exists m1 m', HeapRemoveFreeRegion q s = (Ok tt, set_mem m1 s) /\
    (forall A (k : unit -> M EsHeap A), merge_pair p (p + z1) k (set_mem m1 s) = k tt (set_mem m' s)) /\
    shape (set_mem m' s) G' LG fr' /\ frees G' ≡ₚ (p, z1 + z2) :: fr' /\ frame (touched p (p + (z1 + z2)) fr) (mem s) m'.
Proof.
  intros G p G' Hs Hq Hfr. pose proof (shape_lists_perm _ _ _ _ _ Hq Hs) as Hs1. destruct (remove_shape s _ LG q y fr' Hs1) as (m1 & E & Hs2 & Hf1).
  destruct (merge_shape (set_mem m1 s) base l1 z1 z2 l2 G0 LG fr' Hs2 Hfr) as (Hs3 & Hfr3 & Hf3). eexists m1, _. split_and!.
  - exact E.
  - intros A k. exact (merge_exec (set_mem m1 s) base l1 z1 z2 l2 G0 LG fr' k Hs2).
  - exact Hs3.
  - exact Hfr3.
  - eapply frame_trans; [eapply frame_mono; [exact Hf1|]|eapply frame_mono; [exact Hf3|]].
    + intros x Hx. right; right. eapply links_perm; [|exact Hx]. intros r. by rewrite Hq.
    + intros x. apply touched_mono. intros r Hr. rewrite Hq. by right.
Qed.

Lemma merge_next_spec s base l1 z post l2 G0 LG fr : let G := (base, l1 ++ [Reg z None] ++ post ++ l2) :: G0 in let p := base + total l1 in
  let G' := (base, l1 ++ [Reg (z + total post) None] ++ l2) :: G0 in
  shape s G LG fr -> frees G ≡ₚ (p, z) :: fr -> (post = [] /\ first_free l2 = false) \/ (exists z2, post = [Reg z2 None]) ->
  exists m' fr', merge_next p s = (Ok tt, set_mem m' s) /\ shape (set_mem m' s) G' LG fr' /\ frees G' ≡ₚ (p, z + total post) :: fr' /\
    frame (touched p (p + (z + total post)) fr) (mem s) m' /\ (forall r, r ∈ fr' -> r ∈ fr).
Proof.
  intros G p G' Hs Hfr Hpost. destruct (mid_facts s base l1 [Reg z None] (post ++ l2) G0 LG fr Hs) as (((E1 & E2 & E3 & E4) & _) & _ & _).
  cbn [rsize] in E1. fold p in E1. pose proof (next_place s base l1 [Reg z None] (post ++ l2) G0 LG fr Hs) as Hn. cbn [total rsize] in Hn. fold p in Hn. rewrite Z.add_0_r in Hn.
  pose proof (next_used s base l1 [Reg z None] (post ++ l2) G0 LG fr Hs) as Hu. cbn [total rsize] in Hu. fold p in Hu. rewrite Z.add_0_r in Hu.
  assert (Hp : place s p) by (apply (placed_place _ _ _ _ Hs (p, Reg z None)); by apply (first_placed base l1 (Reg z None) [])).
  unfold merge_next. rewrite bind_next, E1, bind_read, Hu by done. destruct Hpost as [[-> Hff]|(z2 & ->)].
  - cbn [app]. rewrite Hff. exists (mem s), fr. unfold G'. cbn [total]. rewrite Z.add_0_r. split_and!; [by destruct s|by destruct s|done|done|done].
  - cbn [app first_free is_free ralloc]. unfold G'. cbn [total rsize]. rewrite Z.add_0_r.
    assert (Hperm : exists fr', fr ≡ₚ (p + z, z2) :: fr') by by apply (proj1 (second_listed s base l1 z z2 l2 G0 LG fr Hs)).
    destruct Hperm as (fr' & Hfr'). assert (Hfr2 : frees G ≡ₚ (p, z) :: (p + z, z2) :: fr') by by rewrite <- Hfr'.
    destruct (join_spec s base l1 z z2 l2 G0 LG fr fr' (p + z) z2 Hs Hfr' Hfr2) as (m1 & m' & E & Em & Hs3 & Hfr3 & Hf3).
    exists m', fr'. split_and!; [|done|done|done|intros r Hr; rewrite Hfr'; by right].
    rewrite (bind_ok _ _ _ _ _ E), <- merge_pair_end. exact (Em _ (fun _ => ret tt)).
Qed.

Lemma last_free_snoc b l r : last_free b (l ++ [r]) = is_free r.
Proof. revert b. induction l as [|r' l IH]; intros b; cbn; [done|]. apply IH. Qed.
Lemma last_size_snoc b l r : last_size b (l ++ [r]) = rsize r.
Proof. by rewrite last_size_app. Qed.

(** The predecessor that the code finds. *)
Lemma previous_used s base l1 r l2 G0 LG fr : let p := base + total l1 in shape s ((base, l1 ++ [r] ++ l2) :: G0) LG fr ->
  exists q u, HEAP_REGION_PREVIOUS p s = (Ok q, s) /\ (if q =? 0 then ret 1 else read_field Used q) s = (Ok u, s) /\ (u =? 0) = last_free false l1 /\
    (last_free false l1 = true -> p - q = last_size 0 l1).
Proof.
  intros p Hs. destruct (mid_facts s base l1 [r] l2 G0 LG fr Hs) as (((_ & E2 & _) & _) & _ & _). fold p in E2.
  assert (Hp : place s p) by (apply (placed_place _ _ _ _ Hs (p, r)); by apply (first_placed base l1 r [])).
  unfold HEAP_REGION_PREVIOUS. rewrite bind_read, E2 by done. destruct l1 as [|r0 l _] using rev_ind.
  - exists 0, 1. by split_and!.
  - rewrite last_size_snoc, last_free_snoc. destruct (first_block s base (l ++ [r0]) [r] l2 G0 LG fr Hs) as (_ & B1 & _ & _ & _ & Hs1 & _).
    unfold sizes_ok in Hs1. apply list.Forall_app in Hs1 as [Hs0 Hs1]. apply list.Forall_cons in Hs1 as [[R1 R2] _]. pose proof (sizes_total _ Hs0).
    exists (base + total l), (used_word r0). rewrite (proj2 (Z.eqb_neq (rsize r0) 0)), (proj2 (Z.eqb_neq (base + total l) 0)) by lia.
    unfold p. rewrite total_regions_app. cbn [total]. replace (base + (total l + (rsize r0 + 0)) - rsize r0) with (base + total l) by lia.
    split_and!; [done| |apply used_word_free|lia]. rewrite <- app_assoc in Hs.
    destruct (mid_facts s base l [r0] ([r] ++ l2) G0 LG fr Hs) as (((_ & _ & _ & E4) & _) & _ & _).
    rewrite read_field_spec, E4; [done|]. apply (placed_place _ _ _ _ Hs (base + total l, r0)). by apply (first_placed base l r0 []).
Qed.

Lemma merge_previous_spec s base l1 pre z l2 G0 LG fr : let G := (base, l1 ++ pre ++ [Reg z None] ++ l2) :: G0 in
  let lo := base + total l1 in let p := lo + total pre in let G' := (base, l1 ++ [Reg (total pre + z) None] ++ l2) :: G0 in
  shape s G LG fr -> frees G ≡ₚ (p, z) :: fr -> (pre = [] /\ last_free false l1 = false) \/ (exists z0, pre = [Reg z0 None]) ->
  exists m' fr', merge_previous p s = (Ok lo, set_mem m' s) /\ shape (set_mem m' s) G' LG fr' /\ frees G' ≡ₚ (lo, total pre + z) :: fr' /\
    frame (touched lo (p + z) fr) (mem s) m' /\ (forall r, r ∈ fr' -> r ∈ fr).
Proof.
  intros G lo p G' Hs Hfr Hpre. assert (Hs0 : shape s ((base, (l1 ++ pre) ++ [Reg z None] ++ l2) :: G0) LG fr) by by rewrite <- app_assoc.
  destruct (previous_used s base (l1 ++ pre) (Reg z None) l2 G0 LG fr Hs0) as (q & u & E1 & E2 & E3 & E4).
  rewrite total_regions_app, Z.add_assoc in E1, E4. fold lo p in E1, E4. unfold merge_previous. rewrite (bind_ok _ _ _ _ _ E1), (bind_ok _ _ _ _ _ E2), E3.
  destruct Hpre as [[-> Hlf]|(z0 & ->)].
  - rewrite app_nil_r, Hlf. exists (mem s), fr. unfold G', p. cbn [total]. rewrite Z.add_0_r, Z.add_0_l. unfold p in Hfr. cbn [total] in Hfr. rewrite Z.add_0_r in Hfr.
    split_and!; [by destruct s|by destruct s|done|done|done].
  - rewrite last_free_snoc, last_size_snoc in *. cbn [is_free ralloc] in *. specialize (E4 eq_refl). cbn [rsize] in E4.
    unfold p in *. cbn [total rsize] in *. rewrite Z.add_0_r in *. assert (q = lo) as -> by lia.
    destruct (proj2 (second_listed s base l1 z0 z l2 G0 LG fr Hs) Hfr) as (fr' & Hfr').
    assert (Hfr2 : frees G ≡ₚ (lo, z0) :: (lo + z0, z) :: fr') by (rewrite Hfr, Hfr'; apply perm_swap).
    destruct (join_spec s base l1 z0 z l2 G0 LG fr fr' lo z0 Hs Hfr' Hfr2) as (m1 & m' & E & Em & Hs3 & Hfr3 & Hf3).
    exists m', fr'. unfold G'. rewrite Z.add_0_r. split_and!; [|done|done|by rewrite <- Z.add_assoc|intros r Hr; rewrite Hfr'; by right].
    rewrite (bind_ok _ _ _ _ _ E). exact (Em _ (fun _ => ret lo)).
Qed.

(** ** A region becomes free *)

Lemma unuse_spec s base l1 z n l2 G0 LG : let G := (base, l1 ++ [Reg z (Some n)] ++ l2) :: G0 in let p := base + total l1 in
  let G' := (base, l1 ++ [Reg z None] ++ l2) :: G0 in let m' := put Used p 0 (mem s) in
  shape s G LG (frees G) -> shape (set_mem m' s) G' LG (frees G) /\ frees G' ≡ₚ (p, z) :: frees G /\ frame (between p (p + 8)) (mem s) m'.
Proof.
  intros G p G' m' Hs. destruct (mid_facts s base l1 _ l2 G0 LG _ Hs) as (((E1 & E2 & E3 & E4) & _) & Hnext & Hsm). cbn [rsize total last_size] in *. fold p in E1, E2, E3, E4, Hnext.
  assert (Hfr : frees G' ≡ₚ (p, z) :: frees G) by exact (replaced_frees base l1 [Reg z (Some n)] [Reg z None] l2 G0 (frees G) (reflexivity _) eq_refl).
  assert (Hf : frame (between p (p + 8)) (mem s) m').
  { apply frame_put; [done|]. intros x. unfold field_range, between. cbn. lia. }
  assert (Hz : 32 <= z) by (unfold sizes_ok in Hsm; apply list.Forall_cons in Hsm as [[? _] _]; done). split_and!; [|done|done].
  assert (Hp : place s p) by (apply (placed_place _ _ _ _ Hs (p, Reg z (Some n))); by apply (first_placed base l1 (Reg z (Some n)) [])).
  eapply (shape_replace s base l1 [Reg z (Some n)] [Reg z None] l2 G0 LG (frees G) Hs (reflexivity _)); [done|by constructor; [apply list.Forall_cons in Hsm as [Hsm _]|]|exact Hf| | | | |].
  - cbn [seg]. split; [|done]. fold p. unfold m'. split_and!; repeat first [other_field | same_field]; done.
  - fold p. unfold m'. cbn [total rsize last_size] in *. rewrite Z.add_0_r in *. by other_field.
  - intros x Hx. left. fold p. unfold between in *. cbn. lia.
  - by eapply lists_header; [apply Hs|apply (shape_places _ _ _ _ Hs)| |exact Hf].
  - exists [(p, z)]. exact Hfr.
Qed.

(** ** Giving memory back *)

Definition set_owned (o : list (Z * Z)) (s : EsHeap) : EsHeap :=
  MkHeap (mem s) o (requests s) (allocationsCount s) (heap_size s) (blockCount s) (blocks s) (cannotValidate s).

Lemma free_call_spec s a n : (a, n) ∈ owned s -> apart (owned s) -> Forall (fun r => 0 < snd r) (owned s) ->
  exists o, HEAP_FREE_CALL a s = (Ok tt, set_owned o s) /\ owned s ≡ₚ (a, n) :: o.
Proof.
  intros Hin Ha Hp. unfold HEAP_FREE_CALL, bind, get. destruct (list_find_elem_of (fun r => fst r = a) (owned s) (a, n) Hin eq_refl) as [[i r] Hr].
  rewrite Hr. apply list_find_Some in Hr as (Hi & Hfst & _). exists (delete i (owned s)). split; [done|].
  assert (r = (a, n)) as ->; [|by apply delete_Permutation]. pose proof (list_elem_of_lookup_2 _ _ _ Hi) as Hr.
  destruct (apart_elem _ _ _ Ha Hr Hin) as [|Hd]; [done|]. rewrite list.Forall_forall in Hp. pose proof (Hp _ Hr). pose proof (Hp _ Hin).
  unfold disjoint in Hd. destruct r. cbn in *. lia.
Qed.

Lemma owned_positive s G LG : heap_ok s G LG -> Forall (fun r => 0 < snd r) (owned s).
Proof.
  intros Hok. rewrite (sh_owned _ _ _ _ (ho_shape _ _ _ Hok)). apply list.Forall_app. split; apply list.Forall_forall; intros r Hr.
  - apply list_elem_of_fmap in Hr as (b & -> & _). done.
  - apply list_elem_of_fmap in Hr as (b & -> & Hb). pose proof (large_range_ok _ _ _ b Hok Hb). cbn. lia.
Qed.

(** The array of blocks without one of them: the last takes its place. *)
Lemma swap_out (l : list Z) k i x last : l !! i = Some x -> (i <= k)%nat -> l !! k = Some last ->
  x :: take k (<[i := last]> l) ≡ₚ take (S k) l.
Proof.
  intros Hi Hle Hk. rewrite (take_S_r l k last Hk). destruct (Nat.eq_dec i k) as [->|Hne].
  - assert (x = last) as -> by congruence. rewrite take_insert_ge by lia. apply Permutation_cons_append.
  - assert (Hi2 : take k l !! i = Some x) by (rewrite lookup_take_lt by lia; done).
    rewrite take_insert_lt by lia. pose proof (lookup_lt_Some _ _ _ Hi2). rewrite insert_take_drop by done.
    rewrite <- (take_drop_middle (take k l) i x Hi2) at 3. rewrite <- app_assoc. cbn. etransitivity; [apply Permutation_middle|]. f_equiv. f_equiv.
    apply Permutation_cons_append.
Qed.

Lemma remove_block_spec s G b : blocks_listed s (b :: G) -> fst b <> 0 -> block_range b ∈ owned s -> apart (owned s) ->
  Forall (fun r => 0 < snd r) (owned s) ->
  exists o bl, let s' := set_owned o (set_blocks (blockCount s - 1) bl (cannotValidate s) s) in
    remove_block (fst b) s = (Ok tt, s') /\ owned s ≡ₚ block_range b :: o /\ blocks_listed s' G.
Proof.
  intros [H1 H2 H3] Hb Hin Ha Hp. cbn [length] in H2. unfold remove_block.
  assert (Hu : u64 (blockCount s - 1) = blockCount s - 1) by (apply u64_id; unfold is_uint; lia).
  unfold bind at 1, modify. rewrite Hu. unfold bind at 1, get. cbn [cannotValidate set_blocks blockCount blocks].
  destruct (cannotValidate s) eqn:Ec.
  - destruct (free_call_spec (set_blocks (blockCount s - 1) (blocks s) true s) (fst b) 65536 Hin Ha Hp) as (o & E & Ho).
    exists o, (blocks s). split_and!; [exact E|exact Ho|]. split; cbn; [done|lia|done].
  - destruct (H3 eq_refl) as [H4 H5]. replace (blockCount s - 1 + 1) with (blockCount s) by lia.
    assert (Hel : fst b ∈ take (Z.to_nat (blockCount s)) (blocks s)).
    { assert (Hel : fst b ∈ filter (fun c => c <> 0) (take (Z.to_nat (blockCount s)) (blocks s))) by (rewrite H5; by left). by apply list_elem_of_filter in Hel as [_ ?]. }
    destruct (list_find_elem_of (fun c => c = fst b) _ _ Hel eq_refl) as [[i x] E]. rewrite E. apply list_find_Some in E as (Hi & -> & _).
    assert (Hlt : (i < Z.to_nat (blockCount s))%nat) by (apply lookup_lt_Some in Hi; rewrite length_take in Hi; lia). rewrite lookup_take_lt in Hi by lia.
    destruct (lookup_lt_is_Some_2 (blocks s) (Z.to_nat (blockCount s - 1))) as [last El]; [lia|]. rewrite El.
    destruct (free_call_spec (set_blocks (blockCount s - 1) (<[i:=last]> (blocks s)) false s) (fst b) 65536 Hin Ha Hp) as (o & E & Ho).
    exists o, (<[i:=last]> (blocks s)). split_and!; [exact E|exact Ho|]. split; cbn; [by rewrite length_insert|lia|]. intros _. split; [lia|].
    pose proof (swap_out (blocks s) (Z.to_nat (blockCount s - 1)) i (fst b) last Hi ltac:(lia) El) as Hs.
    replace (S (Z.to_nat (blockCount s - 1))) with (Z.to_nat (blockCount s)) in Hs by lia. rewrite <- Hs in H5. cbn in H5.
    rewrite decide_True in H5 by done. by apply Permutation_cons_inv in H5.
Qed.

Lemma release_block s base G0 LG fr : let G := (base, [Reg 65504 None]) :: G0 in shape s G LG fr -> frees G ≡ₚ (base, 65504) :: fr ->
  Forall (fun r => 0 < snd r) (owned s) ->
  exists s', release_region base s = (Ok tt, s') /\ shape s' G0 LG (frees G0) /\ mem s' = mem s /\ same_counts s s'.
Proof.
  intros G Hs Hfr Hp. assert (Hb : (base, [Reg 65504 None]) ∈ G) by by left. destruct (shape_block _ _ _ _ Hs _ Hb) as ([(E1 & _ & E3 & _) _] & _).
  cbn [fst snd rsize] in E1, E3. rewrite Z.add_0_r in E1, E3. destruct (block_bounds _ _ _ _ Hs _ Hb) as (B1 & B2 & B3 & B4). cbn [fst] in *.
  assert (Hpl : place s base) by (apply (block_place _ _ _ _ Hs (base, [Reg 65504 None])); [done|cbn; lia..|done]).
  pose proof Hs as [H1 [H2a H2b] H3 H4 H5 H6 H7].
  destruct (remove_block_spec s G0 (base, [Reg 65504 None]) H7) as (o & bl & E & Ho & Hbl); [cbn; lia|by apply (block_owned _ _ _ _ Hs)|done|done|].
  eexists. split.
  { unfold release_region. rewrite bind_read, E1 by done. change (65504 =? 65536 - 32) with true. cbn beta iota. rewrite bind_read, E3 by done. exact E. }
  assert (Hfr0 : frees G0 ≡ₚ fr) by (apply (Permutation_cons_inv (a := (base, 65504))); exact Hfr).
  split; [|done]. split; cbn [owned set_owned set_blocks mem].
  - apply (Permutation_cons_inv (a := block_range (base, [Reg 65504 None]))). rewrite <- Ho, H1. done.
  - rewrite Ho in H2a, H2b. apply list.Forall_cons in H2a as [_ H2a]. by destruct H2b.
  - rewrite Ho in H3. by apply list.Forall_cons in H3 as [_ ?].
  - by apply list.Forall_cons in H4 as [_ ?].
  - by rewrite Hfr0.
  - by exists [].
  - done.
Qed.

Lemma release_add s base l1 z l2 G0 LG fr : let G := (base, l1 ++ [Reg z None] ++ l2) :: G0 in let p := base + total l1 in
  shape s G LG fr -> frees G ≡ₚ (p, z) :: fr -> z <> 65504 ->
  exists m', release_region p s = (Ok tt, set_mem m' s) /\ shape (set_mem m' s) G LG (frees G) /\ frame (links (frees G)) (mem s) m'.
Proof.
  intros G p Hs Hfr Hz. destruct (free_positions _ _ _ _ _ _ _ _ Hs) as (P1 & P2 & P3 & P4 & P5 & P6 & P7 & P8 & P9).
  destruct (mid_facts s base l1 _ l2 G0 LG fr Hs) as (((E1 & E2 & E3 & E4) & _) & _ & _). cbn [rsize used_word ralloc] in *. fold p in E1, E4.
  assert (Hp : place s p) by (apply (placed_place _ _ _ _ Hs (p, Reg z None)); by apply (first_placed base l1 (Reg z None) [])).
  destruct (Add_spec s fr p z (sh_lists _ _ _ _ Hs)) as (m' & E & Hl & Hf); [|  |lia|done|done|].
  { constructor; [done|by apply (shape_places _ _ _ _ Hs)]. }
  { apply (NoDup_proper (map fst (frees G))); [by apply Permutation_map|]. apply NoDup_frees; [by apply (shape_sized _ _ _ _ Hs)|by apply (shape_ranges _ _ _ _ Hs)]. }
  assert (Hin : forall a y, (a, y) ∈ (p, z) :: fr -> (a, Reg y None) ∈ all_placed G).
  { intros a y. rewrite <- Hfr. by rewrite frees_in. }
  assert (Hs2 : shape (set_mem m' s) G LG (frees G)).
  { apply (shape_links s G LG fr Hs m' ((p, z) :: fr) (frees G)); [by rewrite Hfr|done|done|by exists []]. }
  exists m'. split_and!; [|done|eapply frame_mono; [exact Hf|]; intros x; apply links_perm; intros r; by rewrite Hfr].
  unfold release_region. rewrite bind_read, E1, (proj2 (Z.eqb_neq z (65536 - 32))) by (done || lia). rewrite (bind_ok _ _ _ _ _ E).
  by apply (MAYBE_VALIDATE_spec _ G LG).
Qed.

(** ** [EsHeapFree] *)

Lemma last_size_total l : sizes_ok l -> last_size 0 l <= total l.
Proof.
  intros Hs. destruct l as [|r l _] using rev_ind; [done|]. rewrite last_size_snoc, total_regions_app. cbn.
  unfold sizes_ok in Hs. apply list.Forall_app in Hs as [Hs _]. pose proof (sizes_total _ Hs). lia.
Qed.

(** The bytes of a used region are overwritten in a debug build. *)
Lemma debug_fill s G LG fr p z n : shape s G LG fr -> (p, Reg z (Some n)) ∈ all_placed G -> 0 < n -> n + 16 <= z ->
  exists m', (if DEBUG_BUILD then EsMemoryFill (p + 16) n 177 else ret tt) s = (Ok tt, set_mem m' s) /\
    shape (set_mem m' s) G LG fr /\ frame (between (p + 16) (p + z)) (mem s) m'.
Proof.
  intros Hs Hin Hn Hz. destruct DEBUG_BUILD; [|exists (mem s); split_and!; [by destruct s|by destruct s|done]].
  destruct (all_placed_range _ _ _ (shape_sized _ _ _ _ Hs) Hin) as (b & Hb & ?). cbn [rsize] in *.
  destruct (fill_spec s (p + 16) n 177) as (m' & E & Hf & _); [apply (accessible_block s G LG fr b); [done|done|lia..]|].
  exists m'. split_and!; [done| |eapply frame_mono; [exact Hf|unfold between; lia]].
  apply (shape_data _ _ _ _ Hs p (Reg z (Some n))); [done|done|]. eapply frame_mono; [exact Hf|unfold between; cbn; lia].
Qed.

Lemma free_front s base l1 z n l2 G0 LG expected : let G := (base, l1 ++ [Reg z (Some n)] ++ l2) :: G0 in let p := base + total l1 in
  let G' := (base, l1 ++ [Reg z None] ++ l2) :: G0 in heap_ok s G LG -> expected = 0 \/ expected = n ->
  exists m', EsHeapFree (p + 16) expected s = (merge_next p ;;; let! region := merge_previous p in release_region region)
      (set_counts (u64 (allocationsCount s + -1)) (u64 (heap_size s + - z)) (set_mem m' s)) /\
    shape (set_mem m' s) G' LG (frees G) /\ frees G' ≡ₚ (p, z) :: frees G /\ frame (between p (p + z)) (mem s) m'.
Proof.
  intros G p G' Hok Hexp. pose proof (ho_shape _ _ _ Hok) as Hs.
  assert (Hin : (p, Reg z (Some n)) ∈ all_placed G) by by apply (first_placed base l1 (Reg z (Some n)) []).
  pose proof (ho_sizes _ _ _ Hok) as Hsz. rewrite list.Forall_forall in Hsz. destruct (Hsz _ Hin) as (Ea & Hn & Hr). cbn [fst snd rsize] in Ea, Hr.
  destruct (region_size_spec n Hn) as [_ Hz]. rewrite <- Hr in Hz. pose proof (placed_place _ _ _ _ Hs _ Hin) as Hp. cbn [fst] in Hp.
  destruct (debug_fill s G LG (frees G) p z n Hs Hin) as (m1 & E & Hs1 & Hf1); [lia|lia|].
  destruct (mid_facts s base l1 _ l2 G0 LG _ Hs) as (((E1 & _ & _ & E4) & _) & _ & _). cbn [rsize used_word ralloc] in *. fold p in E1, E4.
  destruct (mid_facts _ base l1 _ l2 G0 LG _ Hs1) as (((A1 & A2 & A3 & A4) & _) & _ & _). cbn [rsize used_word ralloc mem set_mem] in *. fold p in A1, A2, A3, A4.
  assert (Hb : (base, l1 ++ [Reg z (Some n)] ++ l2) ∈ G) by by left. pose proof (end_place _ _ _ _ Hs1 _ Hb) as Hend.
  destruct (shape_block _ _ _ _ Hs1 _ Hb) as (_ & _ & _ & _ & _ & _ & _ & Howner). cbn [fst mem set_mem] in Hend, Howner.
  destruct (first_block s base l1 _ l2 G0 LG _ Hs) as (_ & B1 & _ & _ & _ & Hs1' & _). pose proof (sizes_total _ Hs1'). pose proof (last_size_total _ Hs1').
  destruct (unuse_spec (set_mem m1 s) base l1 z n l2 G0 LG Hs1) as (Hs2 & Hfr & Hf2). fold p G' in Hs2, Hf2, Hfr. cbn [mem set_mem] in *. rewrite set_mem_twice in Hs2.
  set (m2 := put Used p 0 m1) in *. exists m2. split_and!; [|done|done|].
  - unfold EsHeapFree, HEAP_REGION_HEADER, USED_HEAP_REGION_HEADER_SIZE. rewrite (proj2 (Z.eqb_neq (p + 16) 0)) by lia. cbn [andb].
    replace (p + 16 - 16) with p by lia. rewrite !bind_read, E4 by done. cbn [negb Z.eqb]. rewrite Z.eqb_refl. cbn [negb]. rewrite bind_read, Ea by done.
    assert (negb (expected =? 0) && negb (n =? expected) = false) as -> by (destruct Hexp as [->| ->]; [done|by rewrite Z.eqb_refl, andb_false_r]).
    rewrite bind_read, E1, (proj2 (Z.eqb_neq z 0)) by (done || lia). rewrite (bind_ok _ _ _ _ _ E), bind_read by by rewrite place_set_mem. cbn [mem set_mem]. rewrite A3.
    unfold HEAP_REGION_DATA, USED_HEAP_REGION_HEADER_SIZE. replace (p - total l1 + 65536 - 32 + 16) with (base + 65504 + 16) by lia.
    change (read_cell 8 (base + 65504 + 16)) with (read_field RegionListReference (base + 65504)). rewrite bind_read by done. cbn [mem set_mem]. rewrite Howner, Z.eqb_refl. cbn [negb].
    rewrite (bind_ok _ _ _ _ _ (MAYBE_VALIDATE_spec _ _ _ Hs1)), bind_write by by rewrite place_set_mem. cbn [mem set_mem]. rewrite set_mem_twice. fold m2.
    rewrite !bind_read by by rewrite place_set_mem. cbn [mem set_mem].
    replace (fld m2 Offset p) with (total l1) by (unfold m2; rewrite <- A3; by other_field).
    replace (fld m2 Previous p) with (last_size 0 l1) by (unfold m2; rewrite <- A2; by other_field). rewrite (proj2 (Z.ltb_ge _ _)) by lia.
    rewrite bind_read by by rewrite place_set_mem. cbn [mem set_mem]. replace (fld m2 Size p) with z by (unfold m2; rewrite <- A1; by other_field).
    by rewrite bind_add_counts.
  - eapply frame_trans; [eapply frame_mono; [exact Hf1|]|eapply frame_mono; [exact Hf2|]]; unfold between; lia.
Qed.

(** Free regions before and behind a region; there is at most one on each side. *)
Definition free_part (l : list reg) : Prop := l = [] \/ exists z, l = [Reg z None].

Lemma split_pre l : separated false l -> exists l1 pre, l = l1 ++ pre /\ free_part pre /\ last_free false l1 = false /\ separated false l1.
Proof.
  intros Hs. destruct l as [|[z a] l _] using rev_ind; [exists [], []; split_and!; [done|by left|done|done]|].
  destruct a as [n|]; [exists (l ++ [Reg z (Some n)]), []; rewrite app_nil_r, last_free_snoc; split_and!; [done|by left|done|done]|].
  apply separated_app in Hs as [H1 [H2 _]]. exists l, [Reg z None]. split_and!; [done|right; by exists z| |done]. by rewrite andb_true_r in H2.
Qed.
Lemma split_post b l : separated b l -> exists post l2, l = post ++ l2 /\ free_part post /\ first_free l2 = false /\ separated true l2.
Proof.
  intros Hs. destruct l as [|[z a] l]; [exists [], []; split_and!; [done|by left|done|done]|]. destruct Hs as [_ H2]. destruct a as [n|].
  - exists [], (Reg z (Some n) :: l). split_and!; [done|by left|done|]. by split.
  - exists [Reg z None], l. split_and!; [done|right; by exists z| |done]. destruct l as [|r l]; [done|]. destruct H2 as [H2 _]. exact H2.
Qed.

Lemma free_merge s base l1 pre z post l2 G0 LG fr : let p := base + total (l1 ++ pre) in let lo := base + total l1 in
  let size := total pre + (z + total post) in let G' := (base, l1 ++ [Reg size None] ++ l2) :: G0 in
  shape s ((base, (l1 ++ pre) ++ [Reg z None] ++ post ++ l2) :: G0) LG fr ->
  frees ((base, (l1 ++ pre) ++ [Reg z None] ++ post ++ l2) :: G0) ≡ₚ (p, z) :: fr ->
  free_part pre -> last_free false l1 = false -> free_part post -> first_free l2 = false ->
  exists m' fr', (merge_next p ;;; let! region := merge_previous p in release_region region) s = release_region lo (set_mem m' s) /\
    shape (set_mem m' s) G' LG fr' /\ frees G' ≡ₚ (lo, size) :: fr' /\ frame (touched lo (lo + size) fr) (mem s) m' /\ (forall r, r ∈ fr' -> r ∈ fr).
Proof.
  intros p lo size G' Hs Hfr Hpre Hl1 Hpost Hl2. assert (Hlo : p = lo + total pre) by (unfold p, lo; rewrite total_regions_app; lia).
  assert (Hpre0 : 0 <= total pre).
  { destruct (first_block s base (l1 ++ pre) _ _ G0 LG fr Hs) as (_ & _ & _ & _ & _ & H1 & _). unfold sizes_ok in H1. apply list.Forall_app in H1 as [_ H1].
    apply (sizes_total pre H1). }
  destruct (merge_next_spec s base (l1 ++ pre) z post l2 G0 LG fr Hs Hfr) as (m1 & fr1 & E1 & Hs1 & Hfr1 & Hf1 & Hin1).
  { destruct Hpost; [by left|by right]. }
  fold p in E1, Hfr1, Hf1. rewrite <- app_assoc, Hlo in *.
  destruct (merge_previous_spec (set_mem m1 s) base l1 pre (z + total post) l2 G0 LG fr1 Hs1 Hfr1) as (m2 & fr2 & E2 & Hs2 & Hfr2 & Hf2 & Hin2).
  { destruct Hpre; [by left|by right]. }
  exists m2, fr2. cbn [mem set_mem] in *. split_and!; [|exact Hs2|exact Hfr2| |auto].
  - rewrite (bind_ok _ _ _ _ _ E1), (bind_ok _ _ _ _ _ E2). done.
  - fold lo in Hf2. replace (lo + size) with (lo + total pre + (z + total post)) by (unfold size; lia).
    eapply frame_trans; [eapply frame_mono; [exact Hf1|]|eapply frame_mono; [exact Hf2|]].
    + intros x [Hx|[Hx|Hx]]; [left; unfold between in *; lia|by right; left|by right; right].
    + intros x. by apply touched_mono.
Qed.

Lemma released_used base l1 z l2 : sizes_ok l1 -> sizes_ok l2 -> total l1 + z + total l2 = 65504 -> last_free false l1 = false -> first_free l2 = false ->
  separated false l1 -> separated true l2 -> (z = 65504 /\ l1 = [] /\ l2 = []) \/ (z <> 65504 /\ block_used (base, l1 ++ [Reg z None] ++ l2)).
Proof.
  intros Hs1 Hs2 Ht Hl1 Hl2 Hp1 Hp2. pose proof (sizes_total _ Hs1) as (T1 & _ & L1). pose proof (sizes_total _ Hs2) as (T2 & _ & L2).
  destruct (Z.eq_dec z 65504) as [->|Hz].
  { left. destruct l1, l2; cbn [length] in *; (done || lia). }
  right. split; [done|]. unfold block_used. cbn [snd]. split.
  - apply separated_app. split; [done|]. rewrite Hl1. by split.
  - destruct l2 as [|r l2]; [|apply Exists_app; right; right; left; exact Hl2]. apply Exists_app. left.
    destruct l1 as [|r l1 _] using rev_ind; [cbn in Ht; lia|]. rewrite last_free_snoc in Hl1. apply Exists_app. right. by left.
Qed.

(** The allocation [r] is gone, the others are kept. *)
Record freed (s : EsHeap) (r : Z * Z) (G : list block) (LG : list (Z * Z)) (s' : EsHeap) (G' : list block) (LG' : list (Z * Z)) : Prop := {
  fr_ok : heap_ok s' G' LG';
  fr_allocs : allocations G LG ≡ₚ r :: allocations G' LG';
  fr_kept : kept (allocations G' LG') s s';
}.

Lemma freed_perm s r G G2 LG s' G' LG' : G ≡ₚ G2 -> freed s r G2 LG s' G' LG' -> freed s r G LG s' G' LG'.
Proof. intros Hp [H1 H2 H3]. split; [done| |done]. by rewrite (allocations_perm G G2 LG Hp). Qed.

Lemma mid_used a pre z n post : free_part pre -> free_part post -> omap used_of (placed a (pre ++ [Reg z (Some n)] ++ post)) = [z] /\
  omap alloc_of (placed a (pre ++ [Reg z (Some n)] ++ post)) = [(a + total pre + 16, n)].
Proof. intros [->|(z0 & ->)] [->|(z2 & ->)]; cbn; rewrite ?Z.add_0_r; done. Qed.

(** The block of [mid] is given back. *)
Lemma heap_drop s base mid G0 LG m' s' c z : heap_ok s ((base, [] ++ mid ++ []) :: G0) LG ->
  frame (touched (base + 0) (base + 0 + total mid) (frees ((base, [] ++ mid ++ []) :: G0))) (mem s) m' -> mem s' = m' ->
  shape s' G0 LG (frees G0) -> length (omap used_of (placed base mid)) = c -> sumZ (omap used_of (placed base mid)) = z ->
  allocationsCount s' = u64 (allocationsCount s - Z.of_nat c) -> heap_size s' = u64 (heap_size s - z) -> heap_ok s' G0 LG.
Proof.
  intros Hok Hf Em Hs Hc Hz Ec Ez. assert (Hu : used_sizes ((base, [] ++ mid ++ []) :: G0) = omap used_of (placed base mid) ++ used_sizes G0).
  { unfold used_sizes. rewrite all_placed_cons, omap_app. cbn [fst snd app]. by rewrite app_nil_r. }
  pose proof (ho_count _ _ _ Hok) as H1. pose proof (ho_size _ _ _ Hok) as H2. rewrite Hu in H1, H2. rewrite length_app in H1. rewrite sumZ_app in H2. split.
  - done.
  - rewrite Em. apply list.Forall_forall. intros p Hp. by apply (sizes_elsewhere s base [] mid [] G0 LG Hok m' Hf).
  - pose proof (ho_used _ _ _ Hok) as Hb. by apply list.Forall_cons in Hb as [_ ?].
  - rewrite Em. by apply (large_kept s base [] mid [] G0 LG Hok m' Hf).
  - rewrite Ec, H1, <- Z.add_opp_r, u64_add_l. f_equal. lia.
  - rewrite Ez, H2, <- Z.add_opp_r, u64_add_l. f_equal. lia.
Qed.

Lemma free_small s base l1 z n l2 G0 LG expected : let G := (base, l1 ++ [Reg z (Some n)] ++ l2) :: G0 in let a := base + total l1 + 16 in
  heap_ok s G LG -> expected = 0 \/ expected = n ->
  exists s' G', EsHeapFree a expected s = (Ok tt, s') /\ freed s (a, n) G LG s' G' LG.
Proof.
  intros G a Hok Hexp. pose proof (ho_used _ _ _ Hok) as Hb. apply list.Forall_cons in Hb as [[Hb _] _]. cbn [snd] in Hb.
  apply separated_app in Hb as [Hb1 [_ Hb2]]. destruct (split_pre l1 Hb1) as (L1 & pre & -> & Hpre & Hl1 & Hsep1).
  destruct (split_post _ l2 Hb2) as (post & L2 & -> & Hpost & Hl2 & Hsep2).
  destruct (free_front s base (L1 ++ pre) z n (post ++ L2) G0 LG expected Hok Hexp) as (m1 & E1 & Hs1 & Hfr1 & Hf1).
  set (s1 := set_counts _ _ _) in E1. apply (shape_counts (u64 (allocationsCount s + -1)) (u64 (heap_size s + - z))) in Hs1. change (set_counts _ _ _) with s1 in Hs1.
  destruct (free_merge s1 base L1 pre z post L2 G0 LG _ Hs1 Hfr1 Hpre Hl1 Hpost Hl2) as (m2 & fr & E2 & Hs2 & Hfr2 & Hf2 & Hin).
  set (lo := base + total L1) in *. set (size := total pre + (z + total post)) in *. set (mid := pre ++ [Reg z (Some n)] ++ post).
  assert (HG : (base, (L1 ++ pre) ++ [Reg z (Some n)] ++ post ++ L2) = (base, L1 ++ mid ++ L2)) by (unfold mid; by rewrite <- !app_assoc).
  assert (Ht : total mid = size) by (unfold mid, size; rewrite !total_regions_app; cbn; lia). unfold G in *. clear G. rewrite HG in Hok |- *.
  assert (Ha : a = lo + total pre + 16) by (unfold a, lo; rewrite total_regions_app; lia). destruct (mid_used lo pre z n post Hpre Hpost) as [Hu1 Hu2]. fold mid in Hu1, Hu2.
  assert (Hf : frame (touched lo (lo + total mid) (frees ((base, L1 ++ mid ++ L2) :: G0))) (mem s) m2).
  { rewrite Ht. eapply frame_trans; [eapply frame_mono; [exact Hf1|]|]; [|rewrite <- HG; exact Hf2].
    destruct (first_block s1 base (L1 ++ pre) _ _ G0 LG _ Hs1) as (_ & _ & _ & _ & _ & S1 & _ & S2 & _). unfold sizes_ok in S1, S2.
    apply list.Forall_app in S1 as [_ S1]. apply list.Forall_app in S2 as [S2 _]. pose proof (sizes_total _ S1). pose proof (sizes_total _ S2).
    intros x Hx. left. rewrite total_regions_app in Hx. unfold between, size, lo in *. lia. }
  assert (Hallocs : allocations ((base, L1 ++ mid ++ L2) :: G0) LG ≡ₚ (a, n) :: other_allocs base L1 mid L2 G0 LG) by (rewrite allocations_mid; fold lo; by rewrite Hu2, Ha).
  pose proof (others_kept s base L1 mid L2 G0 LG Hok m2 Hf) as Hkept.
  rewrite E2 in E1. change (base + total (L1 ++ pre) + 16) with a in E1. rewrite E1. destruct (first_block _ base L1 _ L2 G0 LG _ Hs2) as (_ & _ & _ & _ & _ & S1 & _ & S2 & St). cbn in St.
  destruct (released_used base L1 size L2 S1 S2 ltac:(lia) Hl1 Hl2 Hsep1 Hsep2) as [(Hz & -> & ->)|[Hz Hbu]].
  - unfold lo in *. cbn [total] in *. rewrite Z.add_0_r in *. rewrite Hz in *. cbn [app] in Hs2, Hfr2.
    destruct (release_block _ base G0 LG fr Hs2 Hfr2) as (s' & E3 & Hs3 & Em & [Ec Ez]); [by apply (owned_positive s _ _ Hok)|].
    exists s', G0. split; [exact E3|]. split; [|exact Hallocs|].
    + apply (heap_drop s base mid G0 LG m2 s' 1 z Hok); [by rewrite Z.add_0_r|done|done|by rewrite Hu1|rewrite Hu1; cbn; lia|by rewrite Ec|by rewrite Ez].
    + intros c k x Hc. rewrite Em. by apply Hkept.
  - destruct (release_add _ base L1 size L2 G0 LG fr Hs2 Hfr2 Hz) as (m3 & E3 & Hs3 & Hf3). fold lo in E3. cbn [mem set_mem] in *.
    assert (Hf' : frame (touched lo (lo + total mid) (frees ((base, L1 ++ mid ++ L2) :: G0))) (mem s) m3).
    { eapply frame_trans; [exact Hf|]. eapply frame_mono; [exact Hf3|]. intros x [Hx|([c y] & Hc & Hx)]; [right; right; by left|].
      rewrite Hfr2 in Hc. apply elem_of_cons in Hc as [[= -> ->]|Hc].
      - left. rewrite Ht. destruct (free_positions _ _ _ _ _ _ _ _ Hs2) as (_ & _ & _ & ? & _). unfold between, lo in *. cbn in *. lia.
      - right; right; right. exists (c, y). split; [rewrite <- HG; by apply Hin|done]. }
    clear Hkept. pose proof (others_kept s base L1 mid L2 G0 LG Hok m3 Hf') as Hkept. eexists _, _. split; [exact E3|]. split.
    + eapply (heap_replace s base L1 mid L2 G0 LG Hok m3 Hf' _ [Reg size None]); [done|cbn; lia|exact Hs3|by constructor; [|done]|exact Hbu| |].
      * fold lo. rewrite Hu1. cbn. done.
      * fold lo. rewrite Hu1. cbn. f_equal. lia.
    + rewrite Hallocs, allocations_mid. cbn [placed omap list_omap alloc_of ralloc snd app]. by rewrite (other_allocs_total base L1 mid [Reg size None]) by (cbn; lia).
    + intros c k x Hc. rewrite allocations_mid in Hc. cbn [placed omap list_omap alloc_of ralloc snd app] in Hc. rewrite (other_allocs_total base L1 mid [Reg size None]) in Hc by (cbn; lia). by apply Hkept.
Qed.

Lemma heap_ok_large s G LG LG' : LG ≡ₚ LG' -> heap_ok s G LG -> heap_ok s G LG'.
Proof.
  intros Hp [[H1 H2 H3 H4 H5 H6 H7] ? ? ? ? ?]. split; [|done|done|by rewrite <- Hp|done|by rewrite <- Hp].
  split; [by rewrite <- Hp|done..].
Qed.

Lemma large_place s G LG b : heap_ok s G LG -> b ∈ LG -> place s (fst b) /\ large_range b ∈ owned s.
Proof.
  intros Hok Hb. pose proof (ho_shape _ _ _ Hok) as Hs. pose proof (ho_large _ _ _ Hok) as Hl. rewrite list.Forall_forall in Hl. destruct (Hl b Hb) as (_ & _ & _ & _ & Hsize).
  assert (Ho : large_range b ∈ owned s) by (rewrite (sh_owned _ _ _ _ Hs); apply elem_of_app; right; apply list_elem_of_fmap; by exists b). split; [|done].
  pose proof (sh_bounds _ _ _ _ Hs) as Hbd. rewrite list.Forall_forall in Hbd. destruct (Hbd _ Ho) as (B1 & B2 & B3).
  pose proof (sh_apart _ _ _ _ Hs) as [Ha _]. rewrite list.Forall_forall in Ha. pose proof (Ha _ Ho) as Hd. unfold disjoint, large_range, array_range in *. cbn in *.
  split; [done|done|lia| |unfold disjoint, array_range; cbn; lia]. apply existsb_exists. exists (large_range b). split; [by apply list_elem_of_In|].
  unfold inside, large_range. cbn. apply andb_true_iff. rewrite !Z.leb_le. lia.
Qed.

Lemma free_large s G LG a n expected : heap_ok s G ((a, n) :: LG) -> expected = 0 \/ expected = n ->
  exists s', EsHeapFree (a + 16) expected s = (Ok tt, s') /\ freed s (a + 16, n) G ((a, n) :: LG) s' G LG.
Proof.
  intros Hok Hexp. destruct (large_place s G _ (a, n) Hok ltac:(by left)) as [Hp Ho]. cbn [fst] in Hp. pose proof Hp as [Hpos _ _ _ _].
  pose proof Hok as [[H1 [H2a H2b] H3 H4 H5 H6 [H7 H8 H9]] Hsz Hu Hl Hc Hz]. apply list.Forall_cons in Hl as [(L1 & L2 & L3 & _) Hl]. cbn [fst snd] in *.
  set (s1 := set_counts (u64 (allocationsCount s + 0)) (u64 (heap_size s + - n)) s).
  destruct (free_call_spec s1 a (region_size n) Ho H2b) as (o & E & Hp2); [by apply (owned_positive s _ _ Hok)|]. change (owned s1) with (owned s) in Hp2.
  exists (set_owned o s1). split.
  { unfold EsHeapFree, HEAP_REGION_HEADER, USED_HEAP_REGION_HEADER_SIZE. rewrite (proj2 (Z.eqb_neq (a + 16) 0)) by lia. cbn [andb].
    replace (a + 16 - 16) with a by lia. rewrite bind_read, L2 by done. cbn [negb]. rewrite Z.eqb_refl. cbn [negb]. rewrite bind_read, L3 by done.
    assert (negb (expected =? 0) && negb (n =? expected) = false) as -> by (destruct Hexp as [->| ->]; [done|by rewrite Z.eqb_refl, andb_false_r]).
    rewrite bind_read, L1 by done. cbn [Z.eqb]. rewrite bind_add_counts. exact E. }
  split; [|unfold allocations; cbn [map fst snd]; symmetry; exact (Permutation_middle _ _ _)|done].
  rewrite Hp2 in H2a, H2b, H3. apply list.Forall_cons in H2a as [_ H2a], H3 as [_ H3]. destruct H2b as [_ H2b]. split; [|done|done|done| |].
  - split; [|by split|done|done|done|done|by split]. apply (Permutation_cons_inv (a := (a, region_size n))). change (owned (set_owned o s1)) with o.
    rewrite <- Hp2, H1. symmetry. exact (Permutation_middle _ _ _).
  - cbn. rewrite Hc, u64_add_l. f_equal. lia.
  - cbn. rewrite Hz, u64_add_l. f_equal. cbn. fold (sumZ (map snd LG)). lia.
Qed.

(** An allocation is a used region of some block, or large. *)
Lemma allocation_cases s G LG a n : heap_ok s G LG -> (a, n) ∈ allocations G LG ->
  (exists base l1 z l2 G0, G ≡ₚ (base, l1 ++ [Reg z (Some n)] ++ l2) :: G0 /\ a = base + total l1 + 16) \/
  exists b LG', LG ≡ₚ (b, n) :: LG' /\ a = b + 16.
Proof.
  intros Hok Hin. apply elem_of_app in Hin as [Hin|Hin].
  - left. destruct (alloc_range s G LG a n Hok Hin) as ([z c] & Hr & Er & _). cbn in Er. subst c.
    destruct (decompose G _ _ Hr) as (base & l1 & l2 & G0 & HG & Ea). exists base, l1, z, l2, G0. split; [done|lia].
  - right. apply list_elem_of_fmap in Hin as ([b k] & [= -> ->] & Hb). apply elem_of_Permutation in Hb as (LG' & Hp). exists b, LG'. by split.
Qed.

Lemma free_allocation s G LG a n expected : heap_ok s G LG -> (a, n) ∈ allocations G LG -> expected = 0 \/ expected = n ->
  exists s' G' LG', EsHeapFree a expected s = (Ok tt, s') /\ freed s (a, n) G LG s' G' LG'.
Proof.
  intros Hok Hin Hexp. destruct (allocation_cases s G LG a n Hok Hin) as [(base & l1 & z & l2 & G0 & HG & ->)|(b & LG' & HL & ->)].
  - destruct (free_small s base l1 z n l2 G0 LG expected) as (s' & G' & E & Hf); [by eapply heap_ok_perm|done|].
    exists s', G', LG. split; [exact E|]. by apply (freed_perm _ _ _ _ _ _ _ _ HG).
  - destruct (free_large s G LG' b n expected) as (s' & E & [F1 F2 F3]); [by apply (heap_ok_large s G LG)|done|].
    exists s', G, LG'. split; [exact E|]. split; [done| |done]. rewrite <- F2. unfold allocations. by rewrite HL.
Qed.

(** What the header of an allocation says. *)
Lemma allocation_header s G LG a n : heap_ok s G LG -> (a, n) ∈ allocations G LG ->
  place s (a - 16) /\ fld (mem s) Used (a - 16) = USED_HEAP_REGION_MAGIC /\ fld (mem s) AllocationSize (a - 16) = n /\ 0 < n < 2 ^ 63.
Proof.
  intros Hok Hin. pose proof (ho_shape _ _ _ Hok) as Hs. apply elem_of_app in Hin as [Hin|Hin].
  - destruct (alloc_range s G LG a n Hok Hin) as (r & Hr & Er & _ & Hn). destruct (shape_header _ _ _ _ Hs _ _ Hr) as (base & prev & _ & _ & _ & Hu).
    unfold used_word in Hu. rewrite Er in Hu. pose proof (ho_sizes _ _ _ Hok) as Hsz. rewrite list.Forall_forall in Hsz. specialize (Hsz _ Hr).
    unfold size_known in Hsz. cbn [fst snd] in Hsz. rewrite Er in Hsz. split_and!; [|done|apply Hsz|lia..]. by apply (placed_place _ _ _ _ Hs (a - 16, r)).
  - apply list_elem_of_fmap in Hin as (b & [= -> ->] & Hb). replace (fst b + 16 - 16) with (fst b) by lia.
    pose proof (ho_large _ _ _ Hok) as Hl. rewrite list.Forall_forall in Hl. destruct (Hl b Hb) as (_ & Hu & Ha & Hn & _).
    split_and!; [by apply (large_place s G LG b Hok Hb)|done|done|lia..].
Qed.

(** C9. [EsHeapFree] of an allocation, with its size or 0, succeeds, removes exactly this allocation and keeps the others with
    their bytes, and the invariant; with another size it panics before it changes anything. *)
Theorem EsHeapFree_correct s G LG a n expected : heap_ok s G LG -> (a, n) ∈ allocations G LG ->
  if decide (expected = 0 \/ expected = n) then exists s' G' LG', EsHeapFree a expected s = (Ok tt, s') /\ freed s (a, n) G LG s' G' LG'
  else EsHeapFree a expected s = (Stop FatalError, s).
Proof.
  intros Hok Hin. case_decide as Hexp; [by apply free_allocation|]. destruct (allocation_header s G LG a n Hok Hin) as (Hp & Hu & Ha & _).
  pose proof (pl_positive _ _ Hp). unfold EsHeapFree, HEAP_REGION_HEADER, USED_HEAP_REGION_HEADER_SIZE. rewrite (proj2 (Z.eqb_neq a 0)) by lia. cbn [andb].
  rewrite bind_read, Hu by done. change (negb (USED_HEAP_REGION_MAGIC =? USED_HEAP_REGION_MAGIC)) with false. cbn beta iota. rewrite bind_read, Ha by done.
  rewrite (proj2 (Z.eqb_neq expected 0)), (proj2 (Z.eqb_neq n expected)) by (intros ?; apply Hexp; auto). done.
Qed.
End Free.
