(* ===== verification/SharedHeapReallocate.v ===== *)
(** * Use of allocations, and reallocation

    A client may write what it wants to its allocations ([write_ok]).  [EsHeapReallocate] changes the
    size of one, in place ([resize_spec]) or by moving it, and keeps its bytes. *)

From stdpp Require Import base list sets.
From S2P Require Import Prelude SharedHeap SharedHeapRegions SharedHeapLists SharedHeapBlocks SharedHeapSteps SharedHeapProofs SharedHeapFree.

Section Reallocate.
Context `{Laws : HeapSystemLaws}.

(** ** Writing to an allocation *)

(** A write that is outside of the array and of the blocks. *)
Lemma shape_outside s G LG fr W m' : shape s G LG fr -> frame W (mem s) m' ->
  (forall x, W x -> ~ between regions_array (regions_array + 96) x /\ forall b, b ∈ G -> ~ between (fst b) (fst b + 65536) x) ->
  shape (set_mem m' s) G LG fr.
Proof.
  intros Hs Hf Hout. pose proof Hs as [H1 H2 H3 H4 H5 H6 [H7 H8 H9]]. split; [done|done|done| | |done|by split]; cbn [mem set_mem].
  - apply list.Forall_forall. intros b Hb. rewrite list.Forall_forall in H4.
    pose proof (shape_sized _ _ _ _ Hs) as Hsz. unfold blocks_sized in Hsz. rewrite list.Forall_forall in Hsz. destruct (Hsz b Hb) as (S1 & S2 & _).
    eapply rest_frame; [exact Hf|by apply H4| |].
    + intros [p r] x Hp Hx Hw. rewrite Z.add_0_r in Hp. pose proof (placed_range _ _ _ _ S1 Hp). apply (proj2 (Hout x Hw) b Hb). unfold between in *. cbn in *. lia.
    + intros x Hx Hw. apply (proj2 (Hout x Hw) b Hb). unfold between in *. lia.
  - eapply lists_frame; [exact Hf|done|]. intros x [Hx|([a z] & Ha & Hx)] Hw; [by apply (proj1 (Hout x Hw))|].
    apply (shape_listed _ _ _ _ Hs) in Ha. destruct (all_placed_range _ _ _ (shape_sized _ _ _ _ Hs) Ha) as (b & Hb & ?).
    apply (proj2 (Hout x Hw) b Hb). unfold between in *. cbn in *. lia.
Qed.

Section Write.
Context s G LG (Hok : heap_ok s G LG) (m' : memory).
Let Hs := ho_shape _ _ _ Hok.

Lemma write_small p r n : (p, r) ∈ all_placed G -> ralloc r = Some n -> n + 16 <= rsize r ->
  frame (between (p + 16) (p + 16 + n)) (mem s) m' -> heap_ok (set_mem m' s) G LG.
Proof.
  intros Hp Hr Hn Hf. destruct (all_placed_range _ _ _ (shape_sized _ _ _ _ Hs) Hp) as (b & Hb & Hpb).
  pose proof Hok as [_ Hsz Hu Hl Hc Hz]. split; [|  |done| |done|done].
  - apply (shape_data _ _ _ _ Hs p r); [done|by rewrite Hr|]. eapply frame_mono; [exact Hf|unfold between; lia].
  - apply list.Forall_forall. intros [q r'] Hq. rewrite list.Forall_forall in Hsz. specialize (Hsz _ Hq). unfold size_known in *. cbn in *.
    destruct (ralloc r') as [k|]; [|done]. destruct Hsz as (H1 & H2). split; [|done]. rewrite <- H1. eapply fld_frame; [exact Hf|]. intros x Hx Hx2.
    destruct (Z.eq_dec p q) as [->|Hne]; [unfold field_range, between in *; cbn in *; lia|]. destruct (all_placed_range _ _ _ (shape_sized _ _ _ _ Hs) Hq) as (c & _ & ?).
    apply (used_extent _ _ _ _ Hs p r q r' x Hp Hq Hne); unfold field_range, between in *; cbn in *; lia.
  - apply list.Forall_forall. intros c Hcin. rewrite list.Forall_forall in Hl. specialize (Hl c Hcin).
    assert (E : forall f, f <> RegionListReference -> fld m' f (fst c) = fld (mem s) f (fst c)).
    { intros f Hne. eapply fld_frame; [exact Hf|]. intros x Hx Hx2. destruct Hl as (_ & _ & _ & _ & ?).
      apply (proj2 (large_apart _ _ _ _ Hs c x Hcin ltac:(unfold field_range, between in *; destruct f; cbn in *; (done || lia))) b Hb). unfold between in *. lia. }
    unfold large_ok in *. cbn [mem set_mem]. by rewrite !E.
Qed.

Lemma write_large b : b ∈ LG -> frame (between (fst b + 16) (fst b + 16 + snd b)) (mem s) m' -> heap_ok (set_mem m' s) G LG.
Proof.
  intros Hb Hf. pose proof (large_range_ok _ _ _ b Hok Hb) as [Hn Hn2].
  assert (Hout : forall x, between (fst b + 16) (fst b + 16 + snd b) x ->
    ~ between regions_array (regions_array + 96) x /\ forall c, c ∈ G -> ~ between (fst c) (fst c + 65536) x).
  { intros x Hx. apply (large_apart _ _ _ _ Hs b x Hb). unfold between in *. lia. }
  pose proof Hok as [_ Hsz Hu Hl Hc Hz]. split; [|  |done| |done|done].
  - by apply (shape_outside s G LG (frees G) _ m' Hs Hf).
  - apply list.Forall_forall. intros [q r'] Hq. rewrite list.Forall_forall in Hsz. specialize (Hsz _ Hq). unfold size_known in *. cbn in *.
    destruct (ralloc r') as [k|]; [|done]. destruct Hsz as (H1 & H2). split; [|done]. rewrite <- H1. eapply fld_frame; [exact Hf|]. intros x Hx Hx2.
    destruct (all_placed_range _ _ _ (shape_sized _ _ _ _ Hs) Hq) as (c & Hcin & ?). apply (proj2 (Hout x Hx2) c Hcin). unfold field_range, between in *. cbn in *. lia.
  - apply list.Forall_forall. intros c Hcin. rewrite list.Forall_forall in Hl. specialize (Hl c Hcin).
    assert (E : forall f, f <> RegionListReference -> fld m' f (fst c) = fld (mem s) f (fst c)).
    { intros f Hne. eapply fld_frame; [exact Hf|]. intros x Hx Hx2. destruct Hl as (_ & _ & _ & _ & ?).
      pose proof (sh_apart _ _ _ _ Hs) as [_ Ha]. rewrite (sh_owned _ _ _ _ Hs) in Ha. apply apart_app in Ha as (_ & Ha & _).
      destruct (apart_elem _ (large_range b) (large_range c) Ha) as [E|Hd]; [apply list_elem_of_fmap; by exists b|apply list_elem_of_fmap; by exists c| |].
      - injection E as E _. unfold field_range, between in *. destruct f; cbn in *; (done || lia).
      - unfold disjoint, large_range, field_range, between in *. destruct f; cbn in *; (done || lia). }
    unfold large_ok in *. cbn [mem set_mem]. by rewrite !E.
Qed.
End Write.

(** Writing inside of an allocation keeps the invariant. *)
Lemma write_ok s G LG a n m' : heap_ok s G LG -> (a, n) ∈ allocations G LG -> frame (between a (a + n)) (mem s) m' -> heap_ok (set_mem m' s) G LG.
Proof.
  intros Hok Hin Hf. apply elem_of_app in Hin as [Hin|Hin].
  - destruct (alloc_range s G LG a n Hok Hin) as (r & Hr & Er & Hn & _). apply (write_small s G LG Hok m' (a - 16) r n); [done..|].
    by replace (a - 16 + 16) with a by lia.
  - apply list_elem_of_fmap in Hin as (b & [= -> ->] & Hb). by apply (write_large s G LG Hok m' b).
Qed.

(** ** Resizing in place *)

(** What resizing writes to: headers, the bytes behind the new size, and links. *)
Definition resized (lo new hi : Z) (fr : list (Z * Z)) (x : Z) : Prop :=
  between lo (lo + 8) x \/ between (lo + new) hi x \/ between (hi + 2) (hi + 4) x \/ links fr x.

Lemma resized_touched lo new hi fr x : 0 <= new -> lo + 8 <= hi -> resized lo new hi fr x -> touched lo hi fr x.
Proof. intros Hn Hh [Hx|[Hx|[Hx|Hx]]]; [left; unfold between in *; lia|left; unfold between in *; lia|by right; left|by right; right]. Qed.
Lemma resized_mono lo new hi fr fr' x : (forall r, r ∈ fr -> r ∈ fr') -> resized lo new hi fr x -> resized lo new hi fr' x.
Proof. intros Hin [Hx|[Hx|[Hx|Hx]]]; [by left|by right; left|by right; right; left|right; right; right]. by eapply links_perm. Qed.

(** The end of a stretch becomes a free region: the headers are written, it is put in a list. *)
Lemma carve s base l1 mid l2 G0 LG fr new m rest m6 : let lo := base + total l1 in let hi := lo + total mid in
  let G' := (base, l1 ++ [Reg new (Some m); Reg rest None] ++ l2) :: G0 in
  shape s ((base, l1 ++ mid ++ l2) :: G0) LG fr -> frees ((base, l1 ++ mid ++ l2) :: G0) ≡ₚ omap free_of (placed lo mid) ++ fr ->
  total mid = new + rest -> 32 <= new -> new mod 32 = 0 -> 32 <= rest ->
  frame (fun x => between lo (lo + 8) x \/ between (lo + new) (lo + new + 8) x \/ between (hi + 2) (hi + 4) x) (mem s) m6 ->
  header m6 lo (last_size 0 l1) (total l1) (Reg new (Some m)) -> header m6 (lo + new) new (total l1 + new) (Reg rest None) ->
  fld m6 Previous hi = rest ->
  exists m', HeapAddFreeRegion (lo + new) (set_mem m6 s) = (Ok tt, set_mem m' s) /\ shape (set_mem m' s) G' LG (frees G') /\
    frame (resized lo new hi fr) (mem s) m'.
Proof.
  intros lo hi G' Hs Hfr Ht Hnew Hmod Hrest Hf6 Hh1 Hh2 Hprev.
  destruct (first_block s base l1 mid l2 G0 LG fr Hs) as (_ & B1 & B2 & B3 & B4 & Hs1 & Hsm & Hs2 & Htot).
  pose proof (sizes_total _ Hs1). pose proof (sizes_total _ Hsm). pose proof (sizes_total _ Hs2).
  assert (Hmid' : total [Reg new (Some m); Reg rest None] = total mid) by (cbn; lia).
  assert (Hsz' : sizes_ok [Reg new (Some m); Reg rest None]).
  { constructor; [|constructor; [|done]]; cbn; split; (lia || (Z.div_mod_to_equations; lia)). }
  assert (Hfr' : frees G' ≡ₚ (lo + new, rest) :: fr) by exact (replaced_frees base l1 mid [Reg new (Some m); Reg rest None] l2 G0 fr Hfr Hmid').
  assert (Hplace : forall a, lo <= a -> a <= hi -> a mod 32 = 0 -> place s a) by apply (replaced_place s base l1 mid l2 G0 LG fr Hs).
  assert (Hlo : lo mod 32 = 0) by (unfold lo; Z.div_mod_to_equations; lia).
  assert (Hfp : place s (lo + new)) by (apply Hplace; [lia|lia|Z.div_mod_to_equations; lia]).
  assert (Hhp : place s hi) by (apply Hplace; [lia|lia|Z.div_mod_to_equations; lia]). assert (Hlp : place s lo) by (apply Hplace; [lia|lia|done]).
  pose proof (shape_places _ _ _ _ Hs) as Hpl.
  assert (Hl6 : lists_ok m6 fr).
  { eapply lists_frame; [exact Hf6|apply Hs|]. intros x Hx [Hx2|[Hx2|Hx2]].
    - by apply (links_header s fr lo x Hpl Hlp).
    - by apply (links_header s fr (lo + new) x Hpl Hfp).
    - apply (links_header s fr hi x Hpl Hhp); [unfold between in *; lia|done]. }
  destruct Hh2 as (F1 & F2 & F3 & F4). cbn [rsize used_word ralloc] in F1, F4.
  destruct (Add_spec (set_mem m6 s) fr (lo + new) rest Hl6) as (m' & E & Hl' & Hf'); [|  |lia|done|done|].
  { apply places_set_mem. by constructor. }
  { apply (NoDup_proper (map fst (frees G'))); [by apply Permutation_map|]. by apply (replaced_nodup s base l1 mid _ l2 G0 LG fr). }
  rewrite set_mem_twice in E. cbn [mem set_mem] in Hf'. exists m'.
  assert (Hpl' : places s ((lo + new, rest) :: fr)) by by constructor.
  assert (Hsame : forall f a, a = lo \/ a = lo + new \/ a = hi -> f = Size \/ f = Previous \/ f = Offset \/ f = Used -> fld m' f a = fld m6 f a).
  { intros f a Ha Hg. apply (header_links s _ _ _ f a Hpl'); [by destruct Ha as [->|[->| ->]]|done|done]. }
  assert (Hf : frame (resized lo new hi fr) (mem s) m').
  { eapply frame_trans; [eapply frame_mono; [exact Hf6|]|eapply frame_mono; [exact Hf'|]].
    - intros x [Hx|[Hx|Hx]]; [by left|right; left; unfold between in *; lia|by right; right; left].
    - intros x [Hx|([b y] & Hb & Hx)]; [by right; right; right; left|]. apply elem_of_cons in Hb as [[= -> ->]|Hb].
      + right; left. unfold between in *. cbn in *. lia.
      + right; right; right; right. by exists (b, y). }
  split_and!; [exact E| |exact Hf]. destruct Hh1 as (E1 & E2 & E3 & E4).
  eapply (shape_replace s base l1 mid [Reg new (Some m); Reg rest None] l2 G0 LG fr Hs Hfr); [done|done|exact Hf| | | |by rewrite Hfr'|by exists []].
  - cbn [seg]. fold lo. rewrite Z.add_assoc. fold lo. unfold header. rewrite !Hsame by auto. by split_and!.
  - fold lo hi. rewrite Hsame by auto. done.
  - intros x Hx. fold lo hi. eapply resized_touched; [| |exact Hx]; lia.
Qed.

Section Resize.
Context (s : EsHeap) (base : Z) (l1 : list reg) (old n : Z) (l2 : list reg) (G0 : list block) (LG : list (Z * Z)) (m new : Z).
Let p := base + total l1.

(** The state of a used region and a free one behind it; the free one is removed from its list. *)
Lemma take_out adj : let G := (base, l1 ++ [Reg old (Some n); Reg adj None] ++ l2) :: G0 in shape s G LG (frees G) ->
  exists fr m1, frees G ≡ₚ (p + old, adj) :: fr /\ HeapRemoveFreeRegion (p + old) s = (Ok tt, set_mem m1 s) /\
    shape (set_mem m1 s) G LG fr /\ frame (links (frees G)) (mem s) m1.
Proof.
  intros G Hs. pose proof (frees_mid base l1 [Reg old (Some n); Reg adj None] l2 G0) as Hfr. cbn in Hfr. fold p in Hfr.
  destruct (remove_shape s G LG (p + old) adj _ (shape_lists_perm _ _ _ _ _ Hfr Hs)) as (m1 & E & Hs1 & Hf1). eexists _, m1. split_and!; [exact Hfr|exact E|exact Hs1|].
  eapply frame_mono; [exact Hf1|]. intros x. apply links_perm. intros r. unfold G. by rewrite Hfr.
Qed.

Lemma pair_facts adj fr : shape s ((base, l1 ++ [Reg old (Some n); Reg adj None] ++ l2) :: G0) LG fr ->
  header (mem s) p (last_size 0 l1) (total l1) (Reg old (Some n)) /\ fld (mem s) Size (p + old) = adj /\
  place s p /\ place s (p + old) /\ place s (p + old + adj) /\ 0 <= total l1 /\ total l1 mod 32 = 0 /\ base mod 32 = 0 /\ 32 <= old /\ old mod 32 = 0 /\ 32 <= adj /\ adj mod 32 = 0 /\
  total l1 + old + adj <= 65504.
Proof.
  intros Hs. destruct (mid_facts s base l1 _ l2 G0 LG fr Hs) as ((E1 & (E2 & _) & _) & _ & Hsm). fold p in E1. cbn [rsize] in E2. rewrite Z.add_assoc in E2. fold p in E2.
  destruct (first_block s base l1 _ l2 G0 LG fr Hs) as (_ & B1 & B2 & _ & _ & Hs1 & _ & Hs2 & Htot). pose proof (sizes_total _ Hs1). pose proof (sizes_total _ Hs2).
  unfold sizes_ok in Hsm. rewrite !list.Forall_cons in Hsm. destruct Hsm as ([? ?] & [? ?] & _). cbn in *.
  assert (Hplace : forall a, p <= a -> a <= p + old + adj -> a mod 32 = 0 -> place s a).
  { intros a H1' H2' H3'. apply (replaced_place s base l1 [Reg old (Some n); Reg adj None] l2 G0 LG fr Hs); cbn; fold p; (lia || done). }
  split_and!; try done; try lia; apply Hplace; unfold p in *; (lia || (Z.div_mod_to_equations; lia)).
Qed.

Lemma move_spec adj : let G := (base, l1 ++ [Reg old (Some n); Reg adj None] ++ l2) :: G0 in
  let G' := (base, l1 ++ [Reg new (Some m); Reg (old + adj - new) None] ++ l2) :: G0 in
  shape s G LG (frees G) -> 32 <= new -> new mod 32 = 0 -> 32 <= old + adj - new ->
  exists m', move_adjacent p (p + old) new s = (Ok tt, set_mem m' s) /\ shape (set_mem m' s) G' LG (frees G') /\
    frame (resized p new (p + (old + adj)) (frees G)) (mem s) m'.
Proof.
  intros G G' Hs Hnew Hmod Hrest. destruct (take_out adj Hs) as (fr & m1 & Hfr & E & Hs1 & Hf1).
  destruct (pair_facts adj _ Hs) as (_ & E0 & Q1 & Q2 & Q3 & R1 & R2 & R3 & R4 & R5 & R6 & R7 & R8).
  destruct (mid_facts _ base l1 _ l2 G0 LG fr Hs1) as (((A1 & A2 & A3 & A4) & _) & _ & _). fold p in A1, A2, A3, A4. cbn [rsize used_word ralloc mem set_mem] in *.
  assert (Hpf : place s (p + new)).
  { apply (replaced_place s base l1 [Reg old (Some n); Reg adj None] l2 G0 LG _ Hs); cbn; fold p; unfold p; (lia || (Z.div_mod_to_equations; lia)). }
  unfold move_adjacent. rewrite bind_next, E0, (bind_ok _ _ _ _ _ E), bind_write by by rewrite ?place_set_mem. cbn [mem set_mem]. rewrite set_mem_twice.
  set (post := p + old + adj) in *. set (m2 := put Size p new m1). rewrite bind_next by by rewrite ?place_set_mem. cbn [mem set_mem].
  replace (fld m2 Size p) with new by (unfold m2; by same_field). remember (p + new) as f eqn:Ef.
  rewrite !bind_write, !bind_read by by rewrite ?place_set_mem. cbn [mem set_mem]. rewrite !set_mem_twice. set (m3 := put Used f 0 (put Size f (post - f) m2)).
  replace (fld m3 Offset p) with (total l1) by (unfold m3, m2; rewrite <- A3; by repeat other_field).
  replace (fld m3 Size p) with new by (unfold m3, m2; do 2 other_field; by same_field).
  rewrite bind_write, bind_read by by rewrite ?place_set_mem. cbn [mem set_mem]. rewrite !set_mem_twice. set (m4 := put Offset f (total l1 + new) m3).
  replace (fld m4 Size f) with (post - f) by (unfold m4, m3; do 2 other_field; by same_field).
  rewrite bind_write, bind_read by by rewrite ?place_set_mem. cbn [mem set_mem]. rewrite !set_mem_twice. set (m5 := put Previous post (post - f) m4).
  replace (fld m5 Size p) with new by (unfold m5, m4, m3, m2; do 4 other_field; by same_field).
  rewrite bind_write by by rewrite ?place_set_mem. cbn [mem set_mem]. rewrite !set_mem_twice. set (m6 := put Previous f new m5).
  assert (Hrest' : post - f = old + adj - new) by lia.
  destruct (carve (set_mem m1 s) base l1 [Reg old (Some n); Reg adj None] l2 G0 LG fr new m (post - f) m6 Hs1) as (m' & E' & Hs' & Hf'); try done; fold p; cbn [total rsize mem set_mem].
  - lia.
  - lia.
  - rewrite <- Ef. unfold m6, m5, m4, m3, m2. repeat apply frame_put; [done|..]; intros x; unfold field_range, between; cbn; lia.
  - unfold header, m6, m5, m4, m3, m2. cbn [rsize used_word ralloc]. split_and!; repeat first [other_field | same_field]; done.
  - rewrite <- Ef. unfold header, m6, m5, m4, m3, m2. cbn [rsize used_word ralloc]. split_and!; repeat first [other_field | same_field]; done.
  - unfold m6, m5. rewrite Z.add_0_r, Z.add_assoc. fold post. other_field. by same_field.
  - fold p in E', Hf'. rewrite <- Ef in E'. rewrite set_mem_twice in *. cbn [mem set_mem total rsize] in *. rewrite Hrest' in Hs'. rewrite Z.add_0_r in Hf'. exists m'. split_and!; [exact E'|exact Hs'|].
    eapply frame_trans; [eapply frame_mono; [exact Hf1|by right; right; right]|]. eapply frame_mono; [exact Hf'|]. intros x. apply resized_mono.
    intros r Hr. unfold G. rewrite Hfr. by right.
Qed.

Lemma take_spec adj : let G := (base, l1 ++ [Reg old (Some n); Reg adj None] ++ l2) :: G0 in
  let G' := (base, l1 ++ [Reg (old + adj) (Some m)] ++ l2) :: G0 in shape s G LG (frees G) -> new = old + adj ->
  exists m', take_adjacent p (p + old) new s = (Ok tt, set_mem m' s) /\ shape (set_mem m' s) G' LG (frees G') /\
    frame (resized p new (p + (old + adj)) (frees G)) (mem s) m'.
Proof.
  intros G G' Hs Hnew. destruct (take_out adj Hs) as (fr & m1 & Hfr & E & Hs1 & Hf1).
  destruct (pair_facts adj _ Hs) as (_ & E0 & Q1 & Q2 & Q3 & R1 & R2 & R3 & R4 & R5 & R6 & R7 & R8).
  destruct (mid_facts _ base l1 _ l2 G0 LG fr Hs1) as (((A1 & A2 & A3 & A4) & _) & _ & _). fold p in A1, A2, A3, A4. cbn [rsize used_word ralloc mem set_mem] in *.
  unfold take_adjacent. rewrite bind_next, E0, (bind_ok _ _ _ _ _ E), bind_write, bind_read by by rewrite ?place_set_mem. cbn [mem set_mem]. rewrite set_mem_twice.
  set (m2 := put Size p new m1). replace (fld m2 Size p) with new by (unfold m2; by same_field).
  rewrite write_field_spec by by rewrite place_set_mem. cbn [mem set_mem]. rewrite set_mem_twice. set (m' := put Previous (p + old + adj) new m2).
  assert (Hf2 : frame (fun x => between p (p + 8) x \/ between (p + old + adj + 2) (p + old + adj + 4) x) m1 m').
  { unfold m', m2. repeat apply frame_put; [done|..]; intros x; unfold field_range, between; cbn; lia. }
  assert (Hf : frame (resized p new (p + (old + adj)) fr) m1 m').
  { eapply frame_mono; [exact Hf2|]. intros x [Hx|Hx]; [by left|right; right; left; by rewrite Z.add_assoc]. }
  assert (Hfr' : frees G' ≡ₚ fr).
  { apply (replaced_frees base l1 [Reg old (Some n); Reg adj None] [Reg (old + adj) (Some m)] l2 G0 fr); [|cbn; lia]. exact Hfr. }
  exists m'. split_and!; [done| |].
  - eapply (shape_replace (set_mem m1 s) base l1 [Reg old (Some n); Reg adj None] [Reg (old + adj) (Some m)] l2 G0 LG fr Hs1 Hfr); [cbn; lia| |exact Hf| | | | |by exists []].
    + constructor; [|done]. cbn. split; [lia|]. Z.div_mod_to_equations; lia.
    + cbn [seg]. split; [|done]. fold p. unfold header, m', m2. cbn [rsize used_word ralloc]. rewrite <- Hnew. split_and!; repeat first [other_field | same_field]; done.
    + cbn [total rsize last_size]. fold p. rewrite Z.add_0_r, Z.add_assoc. unfold m'. rewrite <- Hnew. by same_field.
    + intros x Hx. cbn [total rsize]. fold p. rewrite Z.add_0_r. eapply resized_touched; [| |exact Hx]; lia.
    + assert (Hl : lists_ok m1 fr) by apply (sh_lists _ _ _ _ Hs1). pose proof (shape_places _ _ _ _ Hs1) as Hpl.
      rewrite Hfr'. eapply lists_frame; [exact Hf2|exact Hl|]. intros x Hx [Hx2|Hx2].
      * by apply (links_header (set_mem m1 s) fr p x Hpl); [rewrite place_set_mem|..].
      * apply (links_header (set_mem m1 s) fr (p + old + adj) x Hpl); [by rewrite place_set_mem|unfold between in *; lia|done].
  - eapply frame_trans; [eapply frame_mono; [exact Hf1|by right; right; right]|]. eapply frame_mono; [exact Hf|]. intros x. apply resized_mono.
    intros r Hr. unfold G. rewrite Hfr. by right.
Qed.

Lemma split_off_spec : let G := (base, l1 ++ [Reg old (Some n)] ++ l2) :: G0 in
  let G' := (base, l1 ++ [Reg new (Some m); Reg (old - new) None] ++ l2) :: G0 in
  shape s G LG (frees G) -> 32 <= new -> new mod 32 = 0 -> 32 <= old - new ->
  exists m', split_off p (p + old) old new s = (Ok tt, set_mem m' s) /\ shape (set_mem m' s) G' LG (frees G') /\
    frame (resized p new (p + old) (frees G)) (mem s) m'.
Proof.
  intros G G' Hs Hnew Hmod Hrest. destruct (mid_facts s base l1 _ l2 G0 LG _ Hs) as (((A1 & A2 & A3 & A4) & _) & _ & Hsm). fold p in A1, A2, A3, A4. cbn [rsize used_word ralloc] in *.
  destruct (first_block s base l1 _ l2 G0 LG _ Hs) as (_ & B1 & B2 & _ & _ & Hs1 & _ & Hs2 & Htot). pose proof (sizes_total _ Hs1). pose proof (sizes_total _ Hs2).
  unfold sizes_ok in Hsm. apply list.Forall_cons in Hsm as [[R4 R5] _]. cbn in *.
  assert (Hplace : forall a, p <= a -> a <= p + old -> a mod 32 = 0 -> place s a).
  { intros a H1' H2' H3'. apply (replaced_place s base l1 [Reg old (Some n)] l2 G0 LG _ Hs); cbn; fold p; (lia || done). }
  assert (Q1 : place s p) by (apply Hplace; unfold p; (lia || (Z.div_mod_to_equations; lia))).
  assert (Q2 : place s (p + old)) by (apply Hplace; unfold p; (lia || (Z.div_mod_to_equations; lia))).
  assert (Q3 : place s (p + new)) by (apply Hplace; unfold p; (lia || (Z.div_mod_to_equations; lia))).
  unfold split_off. rewrite bind_write, bind_next by by rewrite ?place_set_mem. cbn [mem set_mem].
  set (m2 := put Size p new (mem s)). replace (fld m2 Size p) with new by (unfold m2; by same_field). remember (p + new) as f eqn:Ef.
  rewrite !bind_write, bind_read by by rewrite ?place_set_mem. cbn [mem set_mem]. rewrite !set_mem_twice. set (m3 := put Used f 0 (put Size f (old - new) m2)).
  replace (fld m3 Size p) with new by (unfold m3, m2; do 2 other_field; by same_field).
  rewrite bind_write, bind_read by by rewrite ?place_set_mem. cbn [mem set_mem]. rewrite !set_mem_twice. set (m4 := put Previous f new m3).
  replace (fld m4 Offset p) with (total l1) by (unfold m4, m3, m2; rewrite <- A3; by repeat other_field).
  rewrite bind_read by by rewrite ?place_set_mem. cbn [mem set_mem]. replace (fld m4 Size p) with new by (unfold m4, m3, m2; do 3 other_field; by same_field).
  rewrite bind_write, bind_read by by rewrite ?place_set_mem. cbn [mem set_mem]. rewrite !set_mem_twice. set (m5 := put Offset f (total l1 + new) m4).
  replace (fld m5 Size f) with (old - new) by (unfold m5, m4, m3; do 3 other_field; by same_field).
  rewrite bind_write by by rewrite ?place_set_mem. cbn [mem set_mem]. rewrite !set_mem_twice. set (m6 := put Previous (p + old) (old - new) m5).
  destruct (carve s base l1 [Reg old (Some n)] l2 G0 LG (frees G) new m (old - new) m6 Hs) as (m' & E' & Hs' & Hf'); try done; fold p; cbn [total rsize].
  - lia.
  - rewrite <- Ef, Z.add_0_r. unfold m6, m5, m4, m3, m2. repeat apply frame_put; [done|..]; intros x; unfold field_range, between; cbn; lia.
  - unfold header, m6, m5, m4, m3, m2. cbn [rsize used_word ralloc]. split_and!; repeat first [other_field | same_field]; done.
  - rewrite <- Ef. unfold header, m6, m5, m4, m3, m2. cbn [rsize used_word ralloc]. split_and!; repeat first [other_field | same_field]; done.
  - unfold m6. rewrite Z.add_0_r. by same_field.
  - fold p in E', Hf'. rewrite <- Ef in E'. cbn [total rsize] in *. rewrite Z.add_0_r in Hf'. exists m'. by split_and!.
Qed.

(** The header stays as it is; only the number of bytes that are asked for is another. *)
Lemma keep_spec : let G := (base, l1 ++ [Reg old (Some n)] ++ l2) :: G0 in let G' := (base, l1 ++ [Reg old (Some m)] ++ l2) :: G0 in
  shape s G LG (frees G) -> shape s G' LG (frees G').
Proof.
  intros G G' Hs. destruct (mid_facts s base l1 _ l2 G0 LG _ Hs) as ((Hh & _) & Hnext & Hsm).
  assert (Hfr : frees G' ≡ₚ frees G) by exact (replaced_frees base l1 [Reg old (Some n)] [Reg old (Some m)] l2 G0 (frees G) (reflexivity _) eq_refl).
  assert (E : set_mem (mem s) s = s) by by destruct s. rewrite <- E.
  eapply (shape_replace s base l1 [Reg old (Some n)] [Reg old (Some m)] l2 G0 LG (frees G) Hs (reflexivity _) (fun _ => False)); try done.
  - by constructor; [apply list.Forall_cons in Hsm as [Hsm _]|].
  - rewrite Hfr. apply Hs.
  - by exists [].
Qed.
End Resize.

Lemma first_free_cases l : first_free l = false \/ exists z l', l = Reg z None :: l'.
Proof. destruct l as [|[z [n|]] l]; [by left|by left|right; by exists z, l]. Qed.

(** A used region in front of free ones, and what remains of them. *)
Lemma resized_used base l1 r size new m l2 : separated false (l1 ++ [r] ++ l2) -> is_free r = false ->
  (size = new \/ separated true l2) -> separated false l2 -> block_used (base, l1 ++ used_mid size new m ++ l2).
Proof.
  intros Hs Hr Hsz H2. apply separated_app in Hs as [H1 _]. unfold block_used, used_mid. cbn [snd]. split.
  - apply separated_app. split; [done|]. destruct (Z.eqb_spec size new) as [|Hne]; cbn; rewrite andb_false_r; split; try done.
    split; [done|]. by destruct Hsz.
  - apply Exists_app. right. by destruct (size =? new); left.
Qed.

(** [s'] is [s] with the region at [p] resized; [extra] was behind it. *)
Record resized_ok (s : EsHeap) (base : Z) (l1 : list reg) (old n : Z) (extra l2 : list reg) (G0 : list block) (LG : list (Z * Z)) (new m : Z) (m' : memory) : Prop := {
  rz_fits : new <= old + total extra;
  rz_shape : let G' := (base, l1 ++ used_mid (old + total extra) new m ++ l2) :: G0 in shape (set_mem m' s) G' LG (frees G');
  rz_frame : frame (resized (base + total l1) new (base + total l1 + (old + total extra)) (frees ((base, l1 ++ [Reg old (Some n)] ++ extra ++ l2) :: G0))) (mem s) m';
  rz_used : block_used (base, l1 ++ used_mid (old + total extra) new m ++ l2);
}.

Section ResizeRegion.
Context (s : EsHeap) (base : Z) (l1 : list reg) (old n : Z) (l2 : list reg) (G0 : list block) (LG : list (Z * Z)) (m new : Z).
Let p := base + total l1.
Let G := (base, l1 ++ [Reg old (Some n)] ++ l2) :: G0.
Context (Hs : shape s G LG (frees G)) (Hu : block_used (base, l1 ++ [Reg old (Some n)] ++ l2)) (Hnew : 32 <= new < 2 ^ 63 + 48) (Hmod : new mod 32 = 0).

Lemma region_facts : place s p /\ place s (p + old) /\ fld (mem s) Size p = old /\ (fld (mem s) Used (p + old) =? 0) = first_free l2 /\
  32 <= old < 65536 /\ old mod 32 = 0.
Proof.
  destruct (mid_facts s base l1 _ l2 G0 LG _ Hs) as (((E1 & _) & _) & _ & Hsm). fold p in E1. cbn [rsize] in E1.
  destruct (first_block s base l1 _ l2 G0 LG _ Hs) as (_ & _ & _ & _ & _ & Hs1 & _ & Hs2 & Htot). pose proof (sizes_total _ Hs1). pose proof (sizes_total _ Hs2).
  unfold sizes_ok in Hsm. apply list.Forall_cons in Hsm as [[R4 R5] _]. cbn in Htot, R4, R5.
  pose proof (next_place s base l1 [Reg old (Some n)] l2 G0 LG _ Hs) as Hn. pose proof (next_used s base l1 [Reg old (Some n)] l2 G0 LG _ Hs) as Hnu.
  cbn [total rsize] in Hn, Hnu. fold p in Hn, Hnu. rewrite Z.add_0_r in Hn, Hnu. split_and!; try done; [|lia].
  apply (placed_place _ _ _ _ Hs (p, Reg old (Some n))). by apply (first_placed base l1 (Reg old (Some n)) []).
Qed.

(** The region behind is used. *)
Lemma resize_alone : first_free l2 = false -> resize_region p old new s = (Ok false, s) \/
  exists m', resize_region p old new s = (Ok true, set_mem m' s) /\ resized_ok s base l1 old n [] l2 G0 LG new m m'.
Proof.
  intros Hff. destruct region_facts as (Q1 & Q2 & E1 & E2 & R1 & R2). rewrite Hff in E2. destruct Hu as [Hsep _]. cbn [snd] in Hsep.
  pose proof Hsep as Hsep2. apply separated_app in Hsep2 as [_ [_ Hsep2]]. cbn [is_free ralloc] in Hsep2.
  assert (Hsep3 : separated true l2) by (destruct l2 as [|r l]; [done|]; destruct Hsep2; split; [exact Hff|done]).
  unfold resize_region. rewrite bind_next, E1, !bind_read, E2 by done. cbn [andb]. destruct (Z.ltb_spec old new) as [|Hge]; [by left|right].
  destruct (Z.ltb_spec new old) as [Hlt|].
  - assert (Hgap : 32 <= old - new) by (Z.div_mod_to_equations; lia).
    destruct (split_off_spec s base l1 old n l2 G0 LG m new Hs) as (m' & E & Hs' & Hf); [lia|done|lia|]. fold p in E, Hf. fold G in Hf.
    exists m'. unfold USED_HEAP_REGION_HEADER_SIZE. rewrite (proj2 (Z.leb_le _ _)) by lia. rewrite (bind_ok _ _ _ _ _ E). split; [done|].
    split; cbn [total]; rewrite ?Z.add_0_r; [lia| |exact Hf|by eapply resized_used; [exact Hsep|..|right|]].
    unfold used_mid. rewrite (proj2 (Z.eqb_neq old new)) by lia. exact Hs'.
  - assert (new = old) as -> by lia. exists (mem s). split; [by destruct s|].
    split; cbn [total]; rewrite ?Z.add_0_r; [lia| |done|by eapply resized_used; [exact Hsep|..|left|]].
    unfold used_mid. rewrite Z.eqb_refl. pose proof (keep_spec s base l1 old n l2 G0 LG m Hs) as Hk. by destruct s.
Qed.

(** The region behind is free. *)
Lemma resize_adjacent adj l2' : l2 = Reg adj None :: l2' -> resize_region p old new s = (Ok false, s) \/
  exists m' extra l3, l2 = extra ++ l3 /\ free_part extra /\ resize_region p old new s = (Ok true, set_mem m' s) /\ resized_ok s base l1 old n extra l3 G0 LG new m m'.
Proof.
  intros El2. destruct region_facts as (Q1 & Q2 & E1 & E2 & R1 & R2). destruct Hu as [Hsep _]. cbn [snd] in Hsep.
  pose proof Hsep as Hsep2. apply separated_app in Hsep2 as [_ [_ Hsep2]]. cbn [is_free ralloc] in Hsep2. unfold G in *. clear G. subst l2.
  assert (Hsep3 : separated true l2') by by destruct Hsep2. pose proof (separated_weaken _ _ Hsep3) as Hsep4.
  destruct (pair_facts s base l1 old n l2' G0 LG adj _ Hs) as (_ & E3 & _ & _ & _ & A0 & _ & _ & _ & _ & A1 & A2 & A3).
  fold p in E3. assert (Hsep5 : separated false (l1 ++ [Reg old (Some n)] ++ l2')).
  { apply separated_app in Hsep as [Hsa _]. apply separated_app. split; [done|]. cbn. rewrite andb_false_r. by split. }
  assert (Hres : forall m', shape (set_mem m' s) ((base, l1 ++ used_mid (old + adj) new m ++ l2') :: G0) LG (frees ((base, l1 ++ used_mid (old + adj) new m ++ l2') :: G0)) ->
    frame (resized p new (p + (old + adj)) (frees ((base, l1 ++ [Reg old (Some n)] ++ Reg adj None :: l2') :: G0))) (mem s) m' -> new <= old + adj ->
    resized_ok s base l1 old n [Reg adj None] l2' G0 LG new m m').
  { intros m' H1' H2' H3'. split; cbn [total rsize]; rewrite ?Z.add_0_r; [lia|exact H1'|exact H2'|by eapply resized_used; [exact Hsep5|..|right|]]. }
  assert (Hmove : 32 <= old + adj - new -> exists m', move_adjacent p (p + old) new s = (Ok tt, set_mem m' s) /\ resized_ok s base l1 old n [Reg adj None] l2' G0 LG new m m').
  { intros Hgap. destruct (move_spec s base l1 old n l2' G0 LG m new adj Hs) as (m' & E & Hs' & Hf); [lia|done|lia|]. exists m'. split; [exact E|].
    apply Hres; [|exact Hf|lia]. unfold used_mid. by rewrite (proj2 (Z.eqb_neq _ _)) by lia. }
  unfold resize_region. rewrite bind_next, E1, !bind_read, E2, E3 by done. cbn [first_free is_free ralloc andb]. unfold FREE_HEAP_REGION_HEADER_SIZE.
  assert (Hu64 : u64 (old + adj - 24) = old + adj - 24) by (apply u64_id; unfold is_uint; lia). rewrite Hu64.
  destruct (Z.ltb_spec old new) as [Hlt|Hge]; [|right; destruct (Z.ltb_spec new old) as [Hlt|]].
  - destruct (Z.ltb_spec new (old + adj - 24)) as [Hfit|Hfit].
    + right. destruct Hmove as (m' & E & Hr); [Z.div_mod_to_equations; lia|]. rewrite (bind_ok _ _ _ _ _ E). exists m', [Reg adj None], l2'. split_and!; [done|right; by exists adj|done|done].
    + destruct (Z.leb_spec new (old + adj)) as [Hall|]; [|by left]. right. assert (new = old + adj) as Enew by (Z.div_mod_to_equations; lia).
      destruct (take_spec s base l1 old n l2' G0 LG m new adj Hs Enew) as (m' & E & Hs' & Hf). fold p in E. rewrite (bind_ok _ _ _ _ _ E).
      exists m', [Reg adj None], l2'. split_and!; [done|right; by exists adj|done|]. apply Hres; [|exact Hf|lia]. unfold used_mid. by rewrite Enew, Z.eqb_refl.
  - destruct Hmove as (m' & E & Hr); [lia|]. rewrite (bind_ok _ _ _ _ _ E). exists m', [Reg adj None], l2'. split_and!; [done|right; by exists adj|done|done].
  - assert (new = old) as -> by lia. exists (mem s), [], (Reg adj None :: l2'). split_and!; [done|by left|by destruct s|].
    split; cbn [total]; rewrite ?Z.add_0_r; [lia| |done|by eapply resized_used; [exact Hsep|..|left|]].
    unfold used_mid. rewrite Z.eqb_refl. pose proof (keep_spec s base l1 old n (Reg adj None :: l2') G0 LG m Hs) as Hk. by destruct s.
Qed.

Lemma resize_spec : resize_region p old new s = (Ok false, s) \/
  exists m' extra l3, l2 = extra ++ l3 /\ free_part extra /\ resize_region p old new s = (Ok true, set_mem m' s) /\ resized_ok s base l1 old n extra l3 G0 LG new m m'.
Proof.
  destruct (first_free_cases l2) as [Hff|(z & l & E)]; [|by eapply resize_adjacent].
  destruct (resize_alone Hff) as [|(m' & E & Hr)]; [by left|right]. exists m', [], l2. split_and!; [done|by left|done|done].
Qed.
End ResizeRegion.

(** ** [EsHeapReallocate] *)

(** The allocation of [n] bytes at [a] is one of [m] bytes at [r] now; [A] are the others. *)
Record reallocated (s : EsHeap) (a n m : Z) (zero : bool) (G : list block) (LG : list (Z * Z)) (r : Z) (s' : EsHeap) (G' : list block)
    (LG' : list (Z * Z)) (A : list (Z * Z)) : Prop := {
  ra_ok : heap_ok s' G' LG';
  ra_before : allocations G LG ≡ₚ (a, n) :: A;
  ra_after : allocations G' LG' ≡ₚ (r, m) :: A;
  ra_kept : kept A s s';
  ra_copied : forall i, 0 <= i < n -> i < m -> mem s' (r + i) = mem s (a + i);
  ra_zero : zero = true -> forall i, n <= i < m -> mem s' (r + i) = 0;
}.

(** The new bytes of an allocation that has grown. *)
Definition zero_new (zero : bool) (a n m : Z) : M EsHeap unit :=
  if zero && (n <? m) then EsMemoryZero (a + n) (m - n) else ret tt.

Lemma zero_new_spec s zero a n m : (n < m -> accessible s (a + n) (m - n) = true) ->
  exists m', zero_new zero a n m s = (Ok tt, set_mem m' s) /\ frame (between (a + n) (a + m)) (mem s) m' /\
    (zero = true -> forall i, n <= i < m -> m' (a + i) = 0).
Proof.
  intros Ha. unfold zero_new. destruct zero; cbn [andb]; [|exists (mem s); split_and!; [by destruct s|done|done]].
  destruct (Z.ltb_spec n m) as [Hlt|]; [|exists (mem s); split_and!; [by destruct s|done|lia]].
  destruct (fill_spec s (a + n) (m - n) 0 (Ha Hlt)) as (m' & E & Hf & Hz). exists m'. split_and!; [exact E| |].
  - eapply frame_mono; [exact Hf|unfold between; lia].
  - intros _ i Hi. apply Hz. unfold between. lia.
Qed.

Lemma used_mid_facts lo size new m : omap used_of (placed lo (used_mid size new m)) = [new] /\
  omap alloc_of (placed lo (used_mid size new m)) = [(lo + 16, m)] /\ exists l, used_mid size new m = Reg new (Some m) :: l.
Proof. unfold used_mid. destruct (size =? new); split_and!; (done || by eexists). Qed.

Lemma extra_facts lo old n extra : free_part extra -> omap used_of (placed lo (Reg old (Some n) :: extra)) = [old] /\
  omap alloc_of (placed lo (Reg old (Some n) :: extra)) = [(lo + 16, n)].
Proof. intros [->|(z & ->)]; done. Qed.

(** What follows when the region could be resized where it is. *)
Definition finish_in_place (region old_address oldSize newSize n m : Z) (zero : bool) : M EsHeap Z :=
  write_field AllocationSize region m ;;; add_counts 0 (newSize - oldSize) ;;; zero_new zero old_address n m ;;; ret old_address.

Lemma in_place s base l1 old n extra l3 G0 LG m m1 zero : let G := (base, l1 ++ (Reg old (Some n) :: extra) ++ l3) :: G0 in let p := base + total l1 in
  let new := region_size m in heap_ok s G LG -> free_part extra -> 0 < m < 2 ^ 63 -> resized_ok s base l1 old n extra l3 G0 LG new m m1 ->
  exists s' G' A, finish_in_place p (p + 16) old new n m zero (set_mem m1 s) = (Ok (p + 16), s') /\ reallocated s (p + 16) n m zero G LG (p + 16) s' G' LG A.
Proof.
  intros G p new Hok Hex Hm [Hfit Hs1 Hf1 Hbu]. destruct (region_size_spec m Hm) as [_ Hnew]. fold new in Hnew, Hfit, Hs1, Hf1, Hbu. fold p in Hf1. cbn zeta in Hs1.
  set (size := old + total extra) in *. set (mid' := used_mid size new m) in *. set (G' := (base, l1 ++ mid' ++ l3) :: G0) in *.
  destruct (used_mid_facts p size new m) as (U1 & U2 & (tl & U3)). fold mid' in U1, U2, U3. destruct (extra_facts p old n extra Hex) as [V1 V2].
  assert (Hin : (p, Reg new (Some m)) ∈ all_placed G') by (unfold G'; rewrite U3; apply first_placed).
  assert (Hin0 : (p, Reg old (Some n)) ∈ all_placed G) by apply first_placed.
  pose proof (ho_sizes _ _ _ Hok) as Hsz. rewrite list.Forall_forall in Hsz. destruct (Hsz _ Hin0) as (_ & Hn & Hr). cbn [rsize snd] in Hr. destruct (region_size_spec n Hn) as [_ Hn2]. rewrite <- Hr in Hn2.
  assert (Htot : total mid' = total (Reg old (Some n) :: extra)) by (cbn; fold size; unfold mid'; destruct (used_mid_total size new m) as [|[]]; done).
  set (m2 := put AllocationSize p m m1). set (s2 := set_counts (u64 (allocationsCount s + 0)) (u64 (heap_size s + (new - old))) (set_mem m2 s)).
  destruct (all_placed_range _ _ _ (shape_sized _ _ _ _ Hs1) Hin) as (b & Hb & Hpb). cbn [rsize] in Hpb.
  destruct (zero_new_spec s2 zero (p + 16) n m) as (m3 & E3 & Hf3 & Hz3).
  { intros Hlt. apply (accessible_block (set_mem m1 s) G' LG (frees G') b); [done|done|lia..]. }
  assert (Hd : frame (between (p + 8) (p + new)) m1 m3).
  { eapply frame_trans; [|eapply frame_mono; [exact Hf3|unfold between; lia]]. cbn [mem s2 set_counts set_mem]. unfold m2. apply frame_put; [done|].
    intros x; unfold field_range, between; cbn; lia. }
  assert (Hpl : place (set_mem m1 s) p) by by apply (placed_place _ _ _ _ Hs1 (p, Reg new (Some m))).
  set (s' := set_mem m3 s2) in *. exists s', G', (other_allocs base l1 (Reg old (Some n) :: extra) l3 G0 LG). split.
  { unfold finish_in_place. rewrite bind_write, bind_add_counts by done. rewrite (bind_ok _ _ _ _ _ E3). done. }
  assert (Hs3 : shape s' G' LG (frees G')).
  { refine (proj2 (shape_counts (u64 (allocationsCount s + 0)) (u64 (heap_size s + (new - old))) (set_mem m3 s) G' LG (frees G')) _). apply (shape_data _ _ _ _ Hs1 p (Reg new (Some m))); done. }
  assert (Hf : frame (touched p (p + total (Reg old (Some n) :: extra)) (frees G)) (mem s) m3).
  { cbn [total rsize]. fold size. eapply frame_trans; [eapply frame_mono; [exact Hf1|]|eapply frame_mono; [exact Hd|]].
    - intros x. apply resized_touched; lia.
    - intros x Hx. left. unfold between in *. lia. }
  split.
  - apply (heap_replace s base l1 (Reg old (Some n) :: extra) l3 G0 LG Hok m3 Hf s' mid'); [done|exact Htot|exact Hs3| |exact Hbu| |].
    + fold p. assert (Ha : fld m3 AllocationSize p = m).
      { rewrite (fld_frame _ _ _ _ _ Hf3); [cbn [mem s2 set_counts set_mem]; unfold m2; by same_field|]. intros x; unfold field_range, between; cbn; lia. }
      unfold mid', used_mid. destruct (size =? new); repeat (apply list.Forall_cons; split); try done.
    + fold p. rewrite U1, V1. cbn. f_equal.
    + fold p. rewrite U1, V1. cbn. f_equal. lia.
  - unfold G. rewrite allocations_mid. fold p. by rewrite V2.
  - unfold G'. rewrite allocations_mid. fold p. by rewrite U2, (other_allocs_total base l1 _ mid' l3 G0 LG Htot).
  - intros c k x. apply (others_kept s base l1 (Reg old (Some n) :: extra) l3 G0 LG Hok m3 Hf).
  - intros i Hi Him. change (mem s') with m3. rewrite (Hf3 (p + 16 + i)) by (unfold between; lia). cbn [mem s2 set_counts set_mem]. unfold m2, put.
    rewrite store_outside by (unfold between; cbn; lia). apply Hf1. intros [Hx|[Hx|[Hx|Hx]]]; [unfold between in *; lia..|].
    apply (used_links _ _ _ _ (ho_shape _ _ _ Hok) (frees G) p (Reg old (Some n)) (p + 16 + i)); [by apply (shape_listed _ _ _ _ (ho_shape _ _ _ Hok))|exact Hin0|done|unfold between; cbn; lia|exact Hx].
  - exact Hz3.
Qed.

(** What follows when it could not. *)
Definition move_allocation (a n m : Z) (zero : bool) : M EsHeap Z :=
  let! newAddress := EsHeapAllocate m false in
  EsMemoryCopy newAddress a (if m <? n then m else n) ;;; EsHeapFree a 0 ;;; zero_new zero newAddress n m ;;; ret newAddress.

Lemma accessible_less s a n b k : accessible s a n = true -> a <= b -> b + k <= a + n -> accessible s b k = true.
Proof.
  unfold accessible. rewrite !orb_true_iff, !existsb_exists. intros Ha Hb Hk.
  assert (Hr : forall r, inside a n r = true -> inside b k r = true) by (intros r; unfold inside; rewrite !andb_true_iff, !Z.leb_le; lia).
  destruct Ha as [Ha|(r & Hin & Ha)]; [left|right; exists r]; auto.
Qed.

Lemma copy_spec s dst src k : accessible s dst k = true -> accessible s src k = true -> 0 < k ->
  (forall x, between dst (dst + k) x -> ~ between src (src + k) x) ->
  exists m', EsMemoryCopy dst src k s = (Ok tt, set_mem m' s) /\ frame (between dst (dst + k)) (mem s) m' /\
    forall i, 0 <= i < k -> m' (dst + i) = mem s (src + i).
Proof.
  intros H1 H2 Hk Hd. unfold EsMemoryCopy, bind, get. rewrite (proj2 (Z.eqb_neq k 0)), H1, H2 by lia. exists (copy k (mem s) dst src). split_and!; [done| |].
  - intros x Hx. unfold copy, between in *. destruct (Z.leb_spec dst x), (Z.ltb_spec x (dst + k)); cbn; (done || lia).
  - intros i Hi. unfold copy. rewrite (proj2 (Z.leb_le _ _)), (proj2 (Z.ltb_lt _ _)) by lia. cbn. f_equal. lia.
Qed.

Lemma moved s G LG a n m zero : heap_ok s G LG -> (a, n) ∈ allocations G LG -> 0 < m < 2 ^ 63 -> blockCount s + 1 < 2 ^ 64 ->
  (exists s', move_allocation a n m zero s = (Stop OutOfBounds, s') /\ unchanged s s' G LG /\ reserve (requests s) (owned s) (request_size m) = 0) \/
  exists r s' G' LG' A, move_allocation a n m zero s = (Ok r, s') /\ reallocated s a n m zero G LG r s' G' LG' A.
Proof.
  intros Hok Hin Hm Hc. destruct (allocation_header s G LG a n Hok Hin) as (_ & _ & _ & Hn). set (k := if m <? n then m else n).
  assert (Hk : 0 < k /\ k <= m /\ k <= n /\ (k = m \/ k = n)) by (unfold k; destruct (Z.ltb_spec m n); lia).
  unfold move_allocation. fold k. destruct (allocate_some s G LG m false Hok Hm Hc) as [(s1 & E & [U1 U2 U3] & Hr)|(r & s1 & G1 & LG1 & E & [A1 A2 A3 _])].
  - left. exists s1. rewrite (bind_ok _ _ _ _ _ E). split_and!; [|by split|done]. unfold EsMemoryCopy. unfold bind at 1, bind at 1, get.
    rewrite (proj2 (Z.eqb_neq k 0)) by lia. assert (accessible s1 0 k = false) as ->; [|done].
    unfold accessible. pose proof array_positive. unfold inside at 1. cbn [fst snd]. rewrite (proj2 (Z.leb_gt regions_array 0)) by lia. cbn [andb orb].
    destruct (existsb (inside 0 k) (owned s1)) eqn:Ee; [|done]. apply existsb_exists in Ee as (q & Hq & Hi). apply list_elem_of_In in Hq.
    pose proof (sh_bounds _ _ _ _ (ho_shape _ _ _ U1)) as Hb. rewrite list.Forall_forall in Hb. specialize (Hb _ Hq). unfold inside in Hi.
    apply andb_true_iff in Hi as [Hi _]. apply Z.leb_le in Hi. lia.
  - right. rewrite (bind_ok _ _ _ _ _ E). apply elem_of_Permutation in Hin as (A & HA). pose proof A2 as A2'. rewrite HA in A2'.
    destruct (allocation_range s1 G1 LG1 r m A1) as (_ & _ & R1); [rewrite A2'; by left|].
    destruct (allocation_range s1 G1 LG1 a n A1) as (_ & _ & R2); [rewrite A2'; right; by left|].
    pose proof (allocs_apart _ _ _ A1) as Hap. rewrite A2' in Hap. destruct Hap as [Hap _]. apply list.Forall_cons in Hap as [Hd _].
    destruct (copy_spec s1 r a k) as (m2 & E2 & Hf2 & Hcopy); [by apply (accessible_less s1 r m); [|lia|lia]|by apply (accessible_less s1 a n); [|lia|lia]|lia| |].
    { unfold disjoint, between in *. cbn in Hd. lia. }
    assert (Hrin : (r, m) ∈ allocations G1 LG1) by (rewrite A2'; by left).
    assert (Hok2 : heap_ok (set_mem m2 s1) G1 LG1) by (apply (write_ok s1 G1 LG1 r m); [done|done|eapply frame_mono; [exact Hf2|unfold between; lia]]).
    rewrite (bind_ok _ _ _ _ _ E2). destruct (free_allocation (set_mem m2 s1) G1 LG1 a n 0 Hok2) as (s3 & G3 & LG3 & E3 & [F1 F2 F3]); [rewrite A2'; right; by left|by left|].
    rewrite (bind_ok _ _ _ _ _ E3).
    assert (HA3 : allocations G3 LG3 ≡ₚ (r, m) :: A) by (apply (Permutation_cons_inv (a := (a, n))); rewrite <- F2, A2'; apply perm_swap).
    assert (Hr3 : (r, m) ∈ allocations G3 LG3) by (rewrite HA3; by left).
    destruct (allocation_range s3 G3 LG3 r m F1 Hr3) as (_ & _ & R3).
    destruct (zero_new_spec s3 zero r n m) as (m4 & E4 & Hf4 & Hz4); [intros Hlt; by apply (accessible_less s3 r m); [|lia|lia]|].
    exists r, (set_mem m4 s3), G3, LG3, A. split; [by rewrite (bind_ok _ _ _ _ _ E4)|]. change (forall c j x, (c, j) ∈ allocations G3 LG3 -> between c (c + j) x -> mem s3 x = m2 x) in F3. split; cbn [mem set_mem].
    + apply (write_ok s3 G3 LG3 r m); [done|done|eapply frame_mono; [exact Hf4|unfold between; lia]].
    + exact HA.
    + exact HA3.
    + intros c j x Hcin Hx. pose proof (allocs_apart _ _ _ F1) as Hap3. rewrite HA3 in Hap3. destruct Hap3 as [Hap3 _]. rewrite list.Forall_forall in Hap3. specialize (Hap3 _ Hcin).
      unfold disjoint, between in *. cbn in Hap3. cbn [mem set_mem]. rewrite (Hf4 x), (F3 c j x), (Hf2 x), (A3 c j x); [done|rewrite HA; by right|done|unfold between in *; lia|rewrite HA3; by right|done|unfold between in *; lia].
    + intros i Hi Him. rewrite (Hf4 (r + i)), (F3 r m (r + i)), Hcopy, (A3 a n (a + i)); [done|rewrite HA; by left|unfold between; lia|lia|done|unfold between; lia..].
    + exact Hz4.
Qed.


(** The code behind the attempt to resize in place. *)
Definition after_resize (region a n m oldSize newSize : Z) (zero canMerge : bool) : M EsHeap Z :=
  let! newAddress :=
    (if negb canMerge then
       let! newAddress := EsHeapAllocate m false in
       EsMemoryCopy newAddress a (if m <? n then m else n) ;;; EsHeapFree a 0 ;;; ret newAddress
     else write_field AllocationSize region m ;;; add_counts 0 (newSize - oldSize) ;;; ret a) in
  zero_new zero newAddress n m ;;; ret newAddress.

Lemma after_resize_moved region a n m oldSize newSize zero s : after_resize region a n m oldSize newSize zero false s = move_allocation a n m zero s.
Proof. unfold after_resize, move_allocation. cbn [negb]. rewrite bind_assoc. do 2 (apply bind_ext; intros ? ?; rewrite bind_assoc). by apply bind_ext. Qed.
Lemma after_resize_in_place region a n m oldSize newSize zero s :
  after_resize region a n m oldSize newSize zero true s = finish_in_place region a oldSize newSize n m zero s.
Proof. unfold after_resize, finish_in_place. cbn [negb]. rewrite bind_assoc. apply bind_ext; intros ? ?. rewrite bind_assoc. by apply bind_ext. Qed.

(** The code of [EsHeapReallocate] behind its checks. *)
Lemma reallocate_checks s G LG a n m zero : heap_ok s G LG -> (a, n) ∈ allocations G LG -> 0 < m ->
  let old := fld (mem s) Size (a - 16) in
  EsHeapReallocate a m zero s = bind (if old =? 0 then ret false else
      MAYBE_VALIDATE_HEAP ;;; let! b := resize_region (a - 16) old (region_size m) in MAYBE_VALIDATE_HEAP ;;; ret b)
    (after_resize (a - 16) a n m old (region_size m) zero) s.
Proof.
  intros Hok Hin Hm old. destruct (allocation_header s G LG a n Hok Hin) as (Hp & Hu & Ha & _). pose proof (pl_positive _ _ Hp).
  unfold EsHeapReallocate, HEAP_REGION_HEADER, USED_HEAP_REGION_HEADER_SIZE. rewrite (proj2 (Z.eqb_neq a 0)), (proj2 (Z.eqb_neq m 0)) by lia.
  rewrite bind_read, Hu by done. change (negb (USED_HEAP_REGION_MAGIC =? USED_HEAP_REGION_MAGIC)) with false. cbn beta iota. by rewrite !bind_read, Ha by done.
Qed.

Lemma reallocate_cases s G LG a n m zero : heap_ok s G LG -> (a, n) ∈ allocations G LG -> 0 < m < 2 ^ 63 ->
  EsHeapReallocate a m zero s = move_allocation a n m zero s \/
  exists s' G' LG' A, EsHeapReallocate a m zero s = (Ok a, s') /\ reallocated s a n m zero G LG a s' G' LG' A.
Proof.
  intros Hok Hin Hm. rewrite (reallocate_checks s G LG a n m zero Hok Hin) by lia.
  destruct (allocation_cases s G LG a n Hok Hin) as [(base & l1 & old & l2 & G0 & HG & ->)|(b & LG' & HL & ->)].
  - pose proof (heap_ok_perm _ _ _ _ HG Hok) as Hok2. pose proof (ho_shape _ _ _ Hok2) as Hs.
    pose proof (ho_used _ _ _ Hok2) as Hu. apply list.Forall_cons in Hu as [Hu _].
    replace (base + total l1 + 16 - 16) with (base + total l1) by lia. destruct (region_size_spec m Hm) as [Hmod Hnew].
    assert (Hmod32 : 32 <= region_size m) by (Z.div_mod_to_equations; lia).
    destruct (region_facts s base l1 old n l2 G0 LG Hs) as (_ & _ & E1 & _ & Hold & _). rewrite E1, (proj2 (Z.eqb_neq old 0)) by lia.
    destruct (resize_spec s base l1 old n l2 G0 LG m (region_size m) Hs Hu) as [E|(m1 & extra & l3 & -> & Hex & E & Hr)]; [lia|done| |].
    + left. rewrite (bind_ok _ _ _ _ _ (eq_trans (bind_ok _ _ _ _ _ (MAYBE_VALIDATE_spec _ _ _ Hs)) (eq_trans (bind_ok _ _ _ _ _ E) (bind_ok _ _ _ _ _ (MAYBE_VALIDATE_spec _ _ _ Hs))))).
      apply after_resize_moved.
    + right. rewrite (bind_ok _ _ _ _ _ (eq_trans (bind_ok _ _ _ _ _ (MAYBE_VALIDATE_spec _ _ _ Hs)) (eq_trans (bind_ok _ _ _ _ _ E) (bind_ok _ _ _ _ _ (MAYBE_VALIDATE_spec _ _ _ (rz_shape _ _ _ _ _ _ _ _ _ _ _ _ Hr)))))).
      rewrite after_resize_in_place. destruct (in_place s base l1 old n extra l3 G0 LG m m1 zero Hok2 Hex Hm Hr) as (s' & G' & A & E' & [R1 R2 R3 R4 R5 R6]).
      exists s', G', LG, A. split; [exact E'|]. split; try done. by rewrite (allocations_perm _ _ LG HG).
  - left. pose proof (heap_ok_large s G LG _ HL Hok) as Hok2. pose proof (ho_large _ _ _ Hok2) as Hl. apply list.Forall_cons in Hl as [(Hz & _) _]. cbn [fst] in Hz.
    replace (b + 16 - 16) with b by lia. rewrite Hz. cbn [Z.eqb]. apply after_resize_moved.
Qed.

(** C8. [EsHeapReallocate] of an allocation to another size keeps the invariant and every other allocation, keeps the bytes
    that both sizes have, in place or at another address, and zeroes the new ones if this was asked for.  Only when the
    system refuses the memory it needs does it fail: it does not test for this and accesses address 0. *)
Theorem EsHeapReallocate_correct s G LG a n m zero : heap_ok s G LG -> (a, n) ∈ allocations G LG -> 0 < m < 2 ^ 63 -> blockCount s + 1 < 2 ^ 64 ->
  (exists r s' G' LG' A, EsHeapReallocate a m zero s = (Ok r, s') /\ reallocated s a n m zero G LG r s' G' LG' A) \/
  exists s', EsHeapReallocate a m zero s = (Stop OutOfBounds, s') /\ unchanged s s' G LG /\ reserve (requests s) (owned s) (request_size m) = 0.
Proof.
  intros Hok Hin Hm Hc. destruct (reallocate_cases s G LG a n m zero Hok Hin Hm) as [->|(s' & G' & LG' & A & E & Hr)]; [|left; by exists a, s', G', LG', A].
  destruct (moved s G LG a n m zero Hok Hin Hm Hc) as [|]; [by right|by left].
Qed.

End Reallocate.
