(* ===== verification/SharedHeapRefinement.v ===== *)
(** * What the heap promises

    A client sees objects, [object]: an address and its bytes.  [spec] says what the operations may do to the objects
    of a client, and nothing of blocks, regions and lists; [heap_refines] that the code does only this. *)

From stdpp Require Import base list sets.
From S2P Require Import Prelude SharedHeap SharedHeapRegions SharedHeapLists SharedHeapBlocks SharedHeapSteps SharedHeapProofs SharedHeapFree SharedHeapReallocate.

(** ** Objects *)

Definition object : Type := Z * list Z.

Definition contents (m : memory) (a n : Z) : list Z := map m (seqZ a n).
Definition object_range (o : object) : Z * Z := (fst o, Z.of_nat (length (snd o))).

Lemma length_contents m a n : length (contents m a n) = Z.to_nat n.
Proof. unfold contents. by rewrite length_map, length_seqZ. Qed.
Lemma lookup_contents m a n (i : nat) : Z.of_nat i < n -> contents m a n !! i = Some (m (a + Z.of_nat i)).
Proof. intros Hi. unfold contents. rewrite list_lookup_fmap, lookup_seqZ_lt by lia. done. Qed.
Lemma contents_ext m m' a n : (forall x, between a (a + n) x -> m' x = m x) -> contents m' a n = contents m a n.
Proof. intros H. unfold contents. apply map_ext_in. intros x Hx. apply In_seqZ in Hx. apply H. unfold between. lia. Qed.

(** The objects at the allocations [l]. *)
Definition objects (m : memory) (l : list (Z * Z)) : list object := map (fun r => (fst r, contents m (fst r) (snd r))) l.

#[export] Instance objects_perm m : Proper ((≡ₚ) ==> (≡ₚ)) (objects m).
Proof. intros l l' Hp. unfold objects. by rewrite Hp. Qed.
Lemma objects_kept l s s' : kept l s s' -> objects (mem s') l = objects (mem s) l.
Proof.
  intros Hk. unfold objects. apply map_ext_in. intros [a n] Hin. cbn. f_equal. apply contents_ext. intros x. apply (Hk a n). by apply list_elem_of_In.
Qed.

(** ** The specification *)

Inductive request :=
  | Allocate (size : Z) (zeroMemory : bool)
  | Free (address expectedSize : Z)
  | Reallocate (address newAllocationSize : Z) (zeroNewSpace : bool)
  | Write (address offset value : Z).

(** What a client may ask for, of its objects. *)
Definition allowed (r : request) (A : list object) : Prop :=
  match r with
  | Allocate n _ => 0 <= n < 2 ^ 63
  | Free a e => exists l, (a, l) ∈ A /\ (e = 0 \/ e = Z.of_nat (length l))
  | Reallocate a m _ => (exists l, (a, l) ∈ A) /\ 0 < m < 2 ^ 63
  | Write a i _ => exists l, (a, l) ∈ A /\ 0 <= i < Z.of_nat (length l)
  end.

(** The result and the objects after a request. *)
Inductive spec : request -> list object -> Z -> list object -> Prop :=
  | spec_allocate A n zero r l : Z.of_nat (length l) = n -> (zero = true -> l = replicate (length l) 0) ->
      Forall (fun o => disjoint (r, n) (object_range o)) A -> spec (Allocate n zero) A r ((r, l) :: A)
  | spec_refused A n zero : spec (Allocate n zero) A 0 A
  | spec_free A A' a e l : A ≡ₚ (a, l) :: A' -> spec (Free a e) A 0 A'
  | spec_reallocate A A' a l m zero r l' : A ≡ₚ (a, l) :: A' -> Z.of_nat (length l') = m ->
      take (length l') l = take (length l) l' -> (zero = true -> drop (length l) l' = replicate (length l' - length l) 0) ->
      Forall (fun o => disjoint (r, m) (object_range o)) A' -> spec (Reallocate a m zero) A r ((r, l') :: A')
  | spec_write A A' a i v l : A ≡ₚ (a, l) :: A' -> spec (Write a i v) A 0 ((a, <[Z.to_nat i := v]> l) :: A').

Section Refinement.
Context `{Laws : HeapSystemLaws}.

Definition perform (r : request) : M EsHeap Z :=
  match r with
  | Allocate n zero => EsHeapAllocate n zero
  | Free a e => EsHeapFree a e ;;; ret 0
  | Reallocate a m zero => EsHeapReallocate a m zero
  | Write a i v => EsMemoryFill (a + i) 1 v ;;; ret 0
  end.

(** The heap holds exactly the objects [A]. *)
Definition represents (s : EsHeap) (A : list object) : Prop := exists G LG, heap_ok s G LG /\ A ≡ₚ objects (mem s) (allocations G LG).

Lemma represents_range s G LG a l : heap_ok s G LG -> (a, l) ∈ objects (mem s) (allocations G LG) ->
  exists n, (a, n) ∈ allocations G LG /\ l = contents (mem s) a n /\ Z.of_nat (length l) = n.
Proof.
  intros Hok Hin. apply list_elem_of_fmap in Hin as ([b n] & [= -> ->] & Hin). exists n. cbn. split_and!; [done|done|].
  destruct (allocation_range s G LG b n Hok Hin) as (Hn & _). rewrite length_contents. lia.
Qed.

(** The first of the allocations is apart from the others. *)
Lemma first_apart s G LG r n l : heap_ok s G LG -> allocations G LG ≡ₚ (r, n) :: l -> Forall (fun o => disjoint (r, n) (object_range o)) (objects (mem s) l).
Proof.
  intros Hok Hp. pose proof (allocs_apart s G LG Hok) as Ha. rewrite Hp in Ha. destruct Ha as [Ha _]. apply list.Forall_forall. intros o Ho.
  apply list_elem_of_fmap in Ho as ([b k] & -> & Hin). rewrite list.Forall_forall in Ha. specialize (Ha _ Hin).
  destruct (allocation_range s G LG b k Hok) as (Hk & _); [rewrite Hp; by right|]. unfold disjoint, object_range in *. cbn in *. rewrite length_contents, Z2Nat.id by lia. exact Ha.
Qed.

Lemma refines_allocate s A n zero : represents s A -> 0 <= n < 2 ^ 63 -> blockCount s + 1 < 2 ^ 64 ->
  exists r s' A', EsHeapAllocate n zero s = (Ok r, s') /\ spec (Allocate n zero) A r A' /\ represents s' A'.
Proof.
  intros (G & LG & Hok & HA) Hn Hc. destruct (Z.eq_dec n 0) as [->|Hne].
  { exists 0, s, A. split_and!; [done|constructor|by exists G, LG]. }
  destruct (allocate_some s G LG n zero Hok) as [(s' & E & [U1 U2 U3] & _)|(r & s' & G' & LG' & E & [A1 A2 A3 A4])]; [lia|done| |].
  - exists 0, s', A. split_and!; [done|constructor|]. exists G, LG. by rewrite U2.
  - pose proof (objects_kept _ _ _ A3) as Hk. exists r, s', ((r, contents (mem s') r n) :: A). split_and!; [done| |].
    + constructor; [rewrite length_contents; lia| |].
      * intros Hz. rewrite length_contents. apply list_eq. intros i. destruct (decide (Z.of_nat i < n)) as [Hi|Hi].
        -- rewrite lookup_contents, lookup_replicate_2, A4 by (done || unfold between; lia). done.
        -- rewrite !lookup_ge_None_2; [done|rewrite length_replicate; lia|rewrite length_contents; lia].
      * rewrite HA, <- Hk. by apply (first_apart s' G' LG').
    + exists G', LG'. split; [done|]. rewrite A2. cbn [objects map fst snd]. fold (objects (mem s') (allocations G LG)). by rewrite Hk, HA.
Qed.

Lemma refines_free s A a e l : represents s A -> (a, l) ∈ A -> e = 0 \/ e = Z.of_nat (length l) ->
  exists s' A', EsHeapFree a e s = (Ok tt, s') /\ spec (Free a e) A 0 A' /\ represents s' A'.
Proof.
  intros (G & LG & Hok & HA) Hin He. rewrite HA in Hin. destruct (represents_range s G LG a l Hok Hin) as (n & Hn & El & En). rewrite En in He.
  destruct (free_allocation s G LG a n e Hok Hn He) as (s' & G' & LG' & E & [F1 F2 F3]). pose proof (objects_kept _ _ _ F3) as Hk.
  exists s', (objects (mem s') (allocations G' LG')). split_and!; [done| |by exists G', LG'].
  apply (spec_free _ _ a e l). rewrite HA, F2, Hk. cbn. by rewrite El.
Qed.

Lemma refines_write s A a i v l : represents s A -> (a, l) ∈ A -> 0 <= i < Z.of_nat (length l) ->
  exists s' A', EsMemoryFill (a + i) 1 v s = (Ok tt, s') /\ spec (Write a i v) A 0 A' /\ represents s' A'.
Proof.
  intros (G & LG & Hok & HA) Hin Hi. pose proof Hin as Hin'. rewrite HA in Hin. destruct (represents_range s G LG a l Hok Hin) as (n & Hn & El & En).
  destruct (allocation_range s G LG a n Hok Hn) as (_ & _ & Hacc).
  destruct (fill_spec s (a + i) 1 v) as (m' & E & Hf & Hv); [by apply (accessible_less s a n); [|lia|lia]|].
  pose proof Hn as Hp. apply elem_of_Permutation in Hp as (rs & Hp).
  assert (Hk : kept rs s (set_mem m' s)).
  { pose proof (allocs_apart s G LG Hok) as Ha. rewrite Hp in Ha. destruct Ha as [Ha _]. rewrite list.Forall_forall in Ha. intros b k x Hb Hx. specialize (Ha _ Hb).
    apply Hf. unfold disjoint, between in *. cbn in Ha. lia. }
  pose proof (objects_kept _ _ _ Hk) as Hob. cbn [mem set_mem] in Hob.
  assert (Hnew : contents m' a n = <[Z.to_nat i := v]> l).
  { apply list_eq. intros j. subst l. destruct (decide (Z.of_nat j < n)) as [Hj|Hj].
    - rewrite lookup_contents by done. destruct (decide (j = Z.to_nat i)) as [->|Hne].
      + rewrite list_lookup_insert_eq by (rewrite length_contents; lia). f_equal. apply Hv. unfold between. lia.
      + rewrite list_lookup_insert_ne, lookup_contents by (done || lia). f_equal. apply Hf. unfold between. lia.
    - rewrite !lookup_ge_None_2; [done|rewrite length_insert, length_contents; lia|rewrite length_contents; lia]. }
  exists (set_mem m' s), ((a, <[Z.to_nat i := v]> l) :: objects (mem s) rs). split_and!; [done| |].
  - apply (spec_write _ _ _ _ _ l). rewrite HA, Hp. cbn. by rewrite El.
  - exists G, LG. split; [apply (write_ok s G LG a n m' Hok Hn); eapply frame_mono; [exact Hf|unfold between; lia]|].
    cbn [mem set_mem]. rewrite Hp. cbn [objects map fst snd]. fold (objects m' rs). by rewrite Hob, Hnew.
Qed.

Lemma reallocated_spec s s' A a n m zero l G LG r G' LG' B : A ≡ₚ objects (mem s) (allocations G LG) -> l = contents (mem s) a n -> 0 <= n -> 0 < m ->
  reallocated s a n m zero G LG r s' G' LG' B -> exists A', spec (Reallocate a m zero) A r A' /\ represents s' A'.
Proof.
  intros HA El Hn Hm [R1 R2 R3 R4 R5 R6]. pose proof (objects_kept _ _ _ R4) as Hk. exists ((r, contents (mem s') r m) :: objects (mem s) B). split.
  - assert (Hlen : length l = Z.to_nat n) by (rewrite El; apply length_contents). pose proof (length_contents (mem s') r m) as Hlen'.
    apply (spec_reallocate _ _ _ l); [rewrite HA, R2; cbn; by rewrite El|rewrite Hlen'; lia| | |rewrite <- Hk; by apply (first_apart s' G' LG')].
    + apply list_eq. intros i. rewrite Hlen, Hlen', El. destruct (decide (Z.of_nat i < n)) as [Hin|Hin], (decide (Z.of_nat i < m)) as [Him|Him].
      * rewrite !lookup_take_lt, !lookup_contents by lia. f_equal. symmetry. apply R5; lia.
      * rewrite lookup_take_ge, (lookup_take_lt _ _ i) by lia. symmetry. apply lookup_ge_None_2. rewrite length_contents. lia.
      * rewrite (lookup_take_lt _ (Z.to_nat m) i), (lookup_take_ge _ (Z.to_nat n) i) by lia. apply lookup_ge_None_2. rewrite length_contents. lia.
      * by rewrite !lookup_take_ge by lia.
    + intros Hz. rewrite Hlen, Hlen'. apply list_eq. intros i. rewrite lookup_drop. destruct (decide (Z.of_nat (Z.to_nat n + i) < m)) as [Hi|Hi].
      * rewrite lookup_contents, lookup_replicate_2 by lia. f_equal. apply R6; [done|lia].
      * rewrite !lookup_ge_None_2; [done|rewrite length_replicate; lia|rewrite length_contents; lia].
  - exists G', LG'. split; [done|]. rewrite R3. cbn [objects map fst snd]. fold (objects (mem s') B). by rewrite Hk.
Qed.

(** C3. Every request that a client may make of its objects is served as [spec] says: the code never panics, never accesses
    memory outside of the heap and always returns, and the heap holds exactly the objects of the specification again.
    The exception is a reallocation for which the system has no memory, which accesses address 0 and changes no object. *)
Theorem heap_refines s A r : represents s A -> allowed r A -> blockCount s + 1 < 2 ^ 64 ->
  exists s', (exists v A', perform r s = (Ok v, s') /\ spec r A v A' /\ represents s' A') \/
    (perform r s = (Stop OutOfBounds, s') /\ represents s' A /\
     exists a m zero, r = Reallocate a m zero /\ reserve (requests s) (owned s) (request_size m) = 0).
Proof.
  intros Hrep Hall Hc. destruct r as [n zero|a e|a m zero|a i v]; cbn [perform allowed] in *.
  - destruct (refines_allocate s A n zero Hrep Hall Hc) as (r & s' & A' & E & H1 & H2). exists s'. left. by exists r, A'.
  - destruct Hall as (l & Hin & He). destruct (refines_free s A a e l Hrep Hin He) as (s' & A' & E & H1 & H2). exists s'. left. exists 0, A'.
    by rewrite (bind_ok _ _ _ _ _ E).
  - destruct Hall as ((l & Hin) & Hm). destruct Hrep as (G & LG & Hok & HA). rewrite HA in Hin. destruct (represents_range s G LG a l Hok Hin) as (n & Hn & El & En).
    destruct (reallocate_cases s G LG a n m zero Hok Hn Hm) as [->|(s' & G' & LG' & B & E & Hr)].
    + destruct (moved s G LG a n m zero Hok Hn Hm Hc) as [(s' & E & [U1 U2 _] & Hres)|(r & s' & G' & LG' & B & E & Hr)]; exists s'.
      * right. split_and!; [done|exists G, LG; by rewrite U2|by exists a, m, zero].
      * left. destruct (reallocated_spec s s' A a n m zero l G LG r G' LG' B HA El) as (A' & H1 & H2); [lia|lia|done|]. by exists r, A'.
    + exists s'. left. destruct (reallocated_spec s s' A a n m zero l G LG a G' LG' B HA El) as (A' & H1 & H2); [lia|lia|done|]. by exists a, A'.
  - destruct Hall as (l & Hin & Hi). destruct (refines_write s A a i v l Hrep Hin Hi) as (s' & A' & E & H1 & H2). exists s'. left. exists 0, A'.
    by rewrite (bind_ok _ _ _ _ _ E).
Qed.
End Refinement.
