(* ===== verification/SharedHeapSystem.v ===== *)
(** * A system for the heap, and runs of it

    [bump_system] grants memory above what it has granted, up to a limit: it satisfies [HeapSystemLaws].
    The theorems about the heap are applied to the empty heap on it, and some runs show where the code
    does not what it is for. *)

From stdpp Require Import base list sets.
From S2P Require Import Prelude SharedHeap SharedHeapRegions SharedHeapLists SharedHeapBlocks SharedHeapSteps SharedHeapProofs SharedHeapFree SharedHeapReallocate SharedHeapRefinement.

(** The end of what has been granted, at least 1 MiB, at the start of a page. *)
Definition top (l : list (Z * Z)) : Z := foldr (fun r t => Z.max (fst r + snd r) t) 1048576 l.
Definition bump (limit : Z) (l : list (Z * Z)) (size : Z) : Z :=
  let a := 4096 * ((top l + 4095) / 4096) in if a + size <? limit then a else 0.
Definition bump_system (debug : bool) (limit : Z) : HeapSystem :=
  {| heap_address := 4096; regions_array := 4104; DEBUG_BUILD := debug; reserve := fun _ l size => bump limit l size |}.

Lemma top_ge l : 1048576 <= top l /\ forall r, r ∈ l -> fst r + snd r <= top l.
Proof.
  induction l as [|r l [IH1 IH2]]; cbn; [split; [lia|set_solver]|]. fold (top l). split; [lia|].
  intros r' Hr. apply elem_of_cons in Hr as [->|Hr]; [lia|]. specialize (IH2 r' Hr). lia.
Qed.

Lemma bump_laws debug limit : limit <= 2 ^ 64 -> @HeapSystemLaws (bump_system debug limit).
Proof.
  intros Hl. split; cbn; [lia|lia|lia|]. intros _ l size Hsize. unfold bump. destruct (top_ge l) as [T1 T2].
  set (a := 4096 * ((top l + 4095) / 4096)). assert (Ha : top l <= a /\ a mod 4096 = 0) by (unfold a; split; Z.div_mod_to_equations; lia).
  destruct (Z.ltb_spec (a + size) limit) as [Hlt|]; [right|by left]. split_and!; [lia|lia|lia|]. apply list.Forall_cons. split.
  - unfold disjoint, array_range. cbn. lia.
  - apply list.Forall_forall. intros r Hr. specialize (T2 r Hr). unfold disjoint. cbn. lia.
Qed.

(** The heap before its first use. *)
Definition empty_heap : EsHeap := MkHeap (fun _ => 0) [] O 0 0 0 (replicate 16 0) false.

Lemma empty_heap_ok debug limit : @heap_ok (bump_system debug limit) empty_heap [] [].
Proof.
  split; [|constructor|constructor|constructor|done|done]. split; [done|by split|constructor|constructor| |by exists []|].
  - exists (fun _ => []). intros i Hi. split_and!; [done|constructor|]. intros a. split; [set_solver|]. intros (z & Hz & _). set_solver.
  - split; [done|cbn; lia|]. done.
Qed.

#[local] Notation big := (bump_system true (2 ^ 63)).
Lemma big_laws : @HeapSystemLaws big.
Proof. apply bump_laws. lia. Qed.

(** The heap with one allocation of 100 bytes. *)
Definition one_heap : EsHeap := snd (@EsHeapAllocate big 100 true empty_heap).

Lemma one_heap_ok : exists G LG, @heap_ok big one_heap G LG /\ allocations G LG = [(1048592, 100)].
Proof.
  destruct (@allocate_some big big_laws empty_heap [] [] 100 true (empty_heap_ok _ _)) as [(s' & _ & _ & Hr)|(r & s & G & LG & E & [A1 A2 _ _])]; [lia|done|done|].
  assert (Er : fst (@EsHeapAllocate big 100 true empty_heap) = Ok 1048592) by (vm_compute; reflexivity).
  assert (Es : one_heap = s) by (unfold one_heap; by rewrite E). rewrite E in Er. injection Er as ->.
  exists G, LG. rewrite Es. split; [done|]. symmetry in A2. by apply Permutation_singleton_l in A2.
Qed.

(** ** Witnesses *)

Lemma EsHeapAllocate_correct_witness : exists s G LG, @EsHeapAllocate big 100 true empty_heap = (Ok 1048592, s) /\
  @allocated big empty_heap 100 true [] [] 1048592 s G LG.
Proof.
  destruct (@EsHeapAllocate_correct big big_laws empty_heap [] [] 100 true (empty_heap_ok _ _)) as (r & s & E & H); [lia|done|].
  assert (Er : fst (@EsHeapAllocate big 100 true empty_heap) = Ok 1048592) by (vm_compute; reflexivity).
  rewrite E in Er. injection Er as ->. destruct H as [[H _]|H]; [exfalso; clear -H; discriminate H|]. destruct H as (G & LG & H). exists s, G, LG. split; [exact E|exact H].
Defined.

Lemma allocations_apart_witness : exists G LG, allocations G LG = [(1048592, 100)] /\ @accessible big one_heap 1048592 100 = true.
Proof.
  destruct one_heap_ok as (G & LG & Hok & Ha). exists G, LG. split; [exact Ha|].
  destruct (@allocations_apart big one_heap G LG Hok) as [_ H]. rewrite Ha in H. apply list.Forall_cons in H as [H _]. apply H.
Defined.

Lemma EsHeapFree_correct_witness : exists s G LG, @EsHeapFree big 1048592 100 one_heap = (Ok tt, s) /\ @heap_ok big s G LG /\ allocations G LG = [].
Proof.
  destruct one_heap_ok as (G & LG & Hok & Ha).
  pose proof (@EsHeapFree_correct big big_laws one_heap G LG 1048592 100 100 Hok ltac:(rewrite Ha; by left)) as H.
  rewrite decide_True in H by auto. destruct H as (s & G' & LG' & E & [F1 F2 _]). exists s, G', LG'. split; [exact E|]. split; [exact F1|].
  rewrite Ha in F2. apply Permutation_cons_inv in F2. by apply Permutation_nil_l in F2.
Defined.

Lemma EsHeapReallocate_correct_witness : exists s G LG, @EsHeapReallocate big 1048592 1000 true one_heap = (Ok 1048592, s) /\
  @heap_ok big s G LG /\ allocations G LG = [(1048592, 1000)].
Proof.
  destruct one_heap_ok as (G & LG & Hok & Ha).
  assert (Er : fst (@EsHeapReallocate big 1048592 1000 true one_heap) = Ok 1048592) by (vm_compute; reflexivity).
  assert (Hc : blockCount one_heap = 1) by (vm_compute; reflexivity).
  assert (Hc2 : blockCount one_heap + 1 < 2 ^ 64) by (rewrite Hc; reflexivity).
  assert (Hin : (1048592, 100) ∈ allocations G LG) by (rewrite Ha; by left).
  destruct (@EsHeapReallocate_correct big big_laws one_heap G LG 1048592 100 1000 true Hok Hin ltac:(split; reflexivity) Hc2) as [H|H];
    [|destruct H as (s & E & _); rewrite E in Er; discriminate Er]. destruct H as (r & s & G' & LG' & A & E & [R1 R2 R3 _ _ _]).
  rewrite E in Er. injection Er as ->. exists s, G', LG'. split; [exact E|]. split; [exact R1|].
  rewrite Ha in R2. apply Permutation_cons_inv, Permutation_nil_l in R2. rewrite <- R2 in R3. symmetry in R3. by apply Permutation_singleton_l in R3.
Defined.

Lemma heap_refines_witness : exists s A', @perform big (Write 1048592 5 77) one_heap = (Ok 0, s) /\
  spec (Write 1048592 5 77) [(1048592, replicate 100 0)] 0 A' /\ @represents big s A'.
Proof.
  destruct one_heap_ok as (G & LG & Hok & Ha).
  assert (Hrep : @represents big one_heap [(1048592, replicate 100 0)]).
  { exists G, LG. split; [exact Hok|]. rewrite Ha. assert (E : objects (mem one_heap) [(1048592, 100)] = [(1048592, replicate 100 0)]) by (vm_compute; reflexivity).
    by rewrite E. }
  assert (Hc : blockCount one_heap + 1 < 2 ^ 64) by (vm_compute; reflexivity).
  assert (Hall : allowed (Write 1048592 5 77) [(1048592, replicate 100 0)]) by (exists (replicate 100 0); split; [by left|split; [discriminate|reflexivity]]).
  destruct (@heap_refines big big_laws one_heap _ _ Hrep Hall Hc) as (s & [(v & A' & E & H1 & H2)|(_ & _ & a & m & zero & E & _)]); [|discriminate E].
  exists s, A'. assert (v = 0) as -> by by inversion H1. by split_and!.
Defined.

(** ** Runs *)

(** A heap on a system without a second block. *)
#[local] Notation small := (bump_system true 1200000).

(** [EsHeapReallocate] does not test whether it has got memory: it copies to address 0. *)
Lemma reallocate_without_memory : fst (@EsHeapReallocate small 1048592 100000 false (snd (@EsHeapAllocate small 100 true empty_heap))) = Stop OutOfBounds.
Proof. vm_compute. reflexivity. Qed.


(** Nor does it refuse a size for which [EsHeapAllocate] panics: the size of the region is 0 then, so that it is its own
    successor, and the header of the rest that is put in a list is its own header.  The address is returned although its
    region is free; a later allocation ends outside of the heap. *)
#[local] Notation release := (bump_system false (2 ^ 63)).
Definition broken_heap : EsHeap := snd (@EsHeapReallocate release 1048592 (2 ^ 64 - 20) false (snd (@EsHeapAllocate release 100 true empty_heap))).

Lemma reallocate_negative :
  fst (@EsHeapReallocate release 1048592 (2 ^ 64 - 20) false (snd (@EsHeapAllocate release 100 true empty_heap))) = Ok 1048592 /\
  fld (mem broken_heap) Used (1048592 - 16) = 0 /\ fst (@EsHeapAllocate release 1000 false broken_heap) = Stop OutOfBounds /\
  fst (@EsHeapAllocate release (2 ^ 64 - 20) false empty_heap) = Stop FatalError.
Proof. vm_compute. done. Qed.

(** Requests that are refused are counted as blocks; after 17 of them the heap is not validated anymore. *)
Definition refused_heap (n : nat) : EsHeap := Nat.iter n (fun s => snd (@EsHeapAllocate (bump_system true 0) 100 false s)) empty_heap.

Lemma refused_blocks : owned (refused_heap 17) = [] /\ blockCount (refused_heap 17) = 17 /\ cannotValidate (refused_heap 17) = true.
Proof. vm_compute. done. Qed.
