(* ===== verification/SharedTree.v ===== *)
(** * The AVL tree of the kernel (shared/avl_tree.cpp)

    The items of a tree are parts of other objects and point to each other; here they are a map from addresses,
    and reading or writing at an address that is not in it is [OutOfBounds], at 0 in particular.  A key is a number or a
    string, by the flag [longKeys]; the characters of strings are a parameter.  The operations of a debug build
    validate the tree before and after ([TREE_VALIDATE]). *)

From stdpp Require Import base gmap list.
From S2P Require Import Prelude.

(** ** Items and trees *)

(** [longKey] is the member of the union that [shortKey] is, too. *)
Record AVLKey := MakeKey { longKey : Z; longKeyBytes : Z }.
Notation shortKey := longKey.

Definition MakeShortKey (shortKey : Z) : AVLKey := MakeKey shortKey 0.
Definition MakeLongKey (longKey longKeyBytes : Z) : AVLKey := MakeKey longKey longKeyBytes.

Record AVLItem := MkItem {
  thisItem : Z;
  left : Z;                      (** [children[0]] *)
  right : Z;                     (** [children[1]] *)
  parent : Z;
  inTree : Z;                    (** [tree], for validation *)
  key : AVLKey;
  height : Z;
}.

Record AVLTree := MkTree { root : Z; modCheck : bool; longKeys : bool }.

(** The tree that the operations are called on, and all items. *)
Record state := MkState { items : gmap Z AVLItem; tree : AVLTree }.

(** Addresses, the characters of strings, and the kind of the build. *)
Class TreeSystem := {
  tree_address : Z;
  fakeRoot : Z;                  (** of the local variable of this name *)
  char_at : Z -> Z;
  string_limit : nat;            (** no string is longer *)
  TREE_VALIDATE : bool;
}.

Definition set_items (m : gmap Z AVLItem) (s : state) : state := MkState m (tree s).
Definition set_tree (t : AVLTree) (s : state) : state := MkState (items s) t.
Definition set_root (r : Z) (s : state) : state := set_tree (MkTree r (modCheck (tree s)) (longKeys (tree s))) s.
Definition set_modCheck (b : bool) (s : state) : state := set_tree (MkTree (root (tree s)) b (longKeys (tree s))) s.

Definition set_left (v : Z) (i : AVLItem) : AVLItem := MkItem (thisItem i) v (right i) (parent i) (inTree i) (key i) (height i).
Definition set_right (v : Z) (i : AVLItem) : AVLItem := MkItem (thisItem i) (left i) v (parent i) (inTree i) (key i) (height i).
Definition set_parent (v : Z) (i : AVLItem) : AVLItem := MkItem (thisItem i) (left i) (right i) v (inTree i) (key i) (height i).
Definition set_inTree (v : Z) (i : AVLItem) : AVLItem := MkItem (thisItem i) (left i) (right i) (parent i) v (key i) (height i).
Definition set_key (v : AVLKey) (i : AVLItem) : AVLItem := MkItem (thisItem i) (left i) (right i) (parent i) (inTree i) v (height i).
Definition set_height (v : Z) (i : AVLItem) : AVLItem := MkItem (thisItem i) (left i) (right i) (parent i) (inTree i) (key i) v.
Definition set_thisItem (v : Z) (i : AVLItem) : AVLItem := MkItem v (left i) (right i) (parent i) (inTree i) (key i) (height i).

(** [children[b]] *)
Definition child (b : bool) (i : AVLItem) : Z := if b then right i else left i.
Definition set_child (b : bool) (v : Z) (i : AVLItem) : AVLItem := if b then set_right v i else set_left v i.

Definition read (a : Z) : M state AVLItem := let! s := get in lift_opt OutOfBounds (items s !! a).
Definition write (a : Z) (f : AVLItem -> AVLItem) : M state unit :=
  let! _ := read a in modify (fun s => set_items (alter f a (items s)) s).
(** [if (p) p->...] *)
Definition write_if (a : Z) (f : AVLItem -> AVLItem) : M state unit := if a =? 0 then ret tt else write a f.

Definition EsPanic {A} : M state A := stop FatalError.

Section Tree.
Context `{TreeSystem}.

(** ** Keys *)

Fixpoint c_string_length (n : nat) (string size : Z) : M state Z :=
  match n with
  | O => stop OutOfFuel
  | S n => if char_at string =? 0 then ret size else c_string_length n (string + 1) (size + 1)
  end.
Definition EsCStringLength (string : Z) : M state Z := if string =? 0 then ret 0 else c_string_length string_limit string 0.

Fixpoint compare_strings (n : nat) (s1 length1 s2 length2 : Z) : M state Z :=
  match n with
  | O => stop OutOfFuel
  | S n =>
      if (length1 =? 0) && (length2 =? 0) then ret 0
      else if length1 =? 0 then ret (-1)
      else if length2 =? 0 then ret 1
      else if char_at s1 =? char_at s2 then compare_strings n (s1 + 1) (length1 - 1) (s2 + 1) (length2 - 1)
      else ret (char_at s1 - char_at s2)
  end.
(** A negative length other than -1 would never become 0. *)
Definition EsStringCompareRaw (s1 length1 s2 length2 : Z) : M state Z :=
  let! length1 := if length1 =? -1 then EsCStringLength s1 else ret length1 in
  let! length2 := if length2 =? -1 then EsCStringLength s2 else ret length2 in
  if (s1 =? s2) && (length1 =? length2) then ret 0
  else compare_strings (S (Z.to_nat length1 + Z.to_nat length2)) s1 length1 s2 length2.

Definition MakeCStringKey (cString : Z) : M state AVLKey :=
  let! length := EsCStringLength cString in ret (MakeLongKey cString (u64 (length + 1))).

Definition TreeCompare (key1 key2 : AVLKey) : M state Z :=
  let! s := get in
  if longKeys (tree s) then
    if (longKey key1 =? 0) && (longKey key2 =? 0) then ret 0
    else if longKey key2 =? 0 then ret 1
    else if longKey key1 =? 0 then ret (-1)
    else EsStringCompareRaw (longKey key1) (s64 (longKeyBytes key1)) (longKey key2) (s64 (longKeyBytes key2))
  else if shortKey key1 <? shortKey key2 then ret (-1)
  else if shortKey key2 <? shortKey key1 then ret 1
  else ret 0.

(** ** Moving items *)

(** [item->parent->children[item->parent->children[1] == item] = newLocation] *)
Definition replace_child (parent item newLocation : Z) : M state unit :=
  let! p := read parent in write parent (set_child (right p =? item) newLocation).

Definition TreeRelink (item newLocation : Z) : M state unit :=
  let! i := read item in
  replace_child (parent i) item newLocation ;;;
  let! i := read item in
  write_if (left i) (set_parent newLocation) ;;;
  let! i := read item in
  write_if (right i) (set_parent newLocation).

Definition TreeSwapItems (a b : Z) : M state unit :=
  let! ia := read a in replace_child (parent ia) a b ;;;
  let! ib := read b in replace_child (parent ib) b a ;;;
  let! ta := read a in
  let! tb := read b in
  write a (set_parent (parent tb)) ;;; write b (set_parent (parent ta)) ;;;
  write a (set_height (height tb)) ;;; write b (set_height (height ta)) ;;;
  write a (set_left (left tb)) ;;; write a (set_right (right tb)) ;;;
  write b (set_left (left ta)) ;;; write b (set_right (right ta)) ;;;
  let! ia := read a in write_if (left ia) (set_parent a) ;;;
  let! ia := read a in write_if (right ia) (set_parent a) ;;;
  let! ib := read b in write_if (left ib) (set_parent b) ;;;
  let! ib := read b in write_if (right ib) (set_parent b).

(** ** Validation *)

Fixpoint validate (n : nat) (root parentItem : Z) : M state Z :=
  match n with
  | O => stop OutOfFuel
  | S n =>
      if root =? 0 then ret 0
      else
        let! r := read root in
        if negb (parent r =? parentItem) then EsPanic
        else if negb (inTree r =? tree_address) then EsPanic
        else
          (if left r =? 0 then ret tt
           else let! l := read (left r) in let! c := TreeCompare (key l) (key r) in if 0 <? c then EsPanic else ret tt) ;;;
          (if right r =? 0 then ret tt
           else let! l := read (right r) in let! c := TreeCompare (key l) (key r) in if c <? 0 then EsPanic else ret tt) ;;;
          let! leftHeight := validate n (left r) root in
          let! rightHeight := validate n (right r) root in
          let h := Z.max leftHeight rightHeight + 1 in
          if negb (h =? height r) then EsPanic else ret h
  end.

(** More than the depth of a tree of these items. *)
Definition tree_fuel (s : state) : nat := S (S (size (items s))).
Definition TreeValidate (root : Z) : M state Z :=
  if TREE_VALIDATE then let! s := get in validate (tree_fuel s) root 0 else ret 0.

(** ** Balance *)

(** [item ? item->height : 0] *)
Definition item_height (a : Z) : M state Z := if a =? 0 then ret 0 else let! i := read a in ret (height i).
Definition TreeGetBalance (item : Z) : M state Z :=
  if item =? 0 then ret 0
  else let! i := read item in let! leftHeight := item_height (left i) in let! rightHeight := item_height (right i) in ret (leftHeight - rightHeight).
(** [item->height] from the heights of its children; the balance is returned. *)
Definition update_height (item : Z) : M state Z :=
  let! i := read item in
  let! leftHeight := item_height (left i) in
  let! rightHeight := item_height (right i) in
  let balance := leftHeight - rightHeight in
  write item (set_height ((if 0 <? balance then leftHeight else rightHeight) + 1)) ;;;
  ret balance.

Definition TreeRotateLeft (x : Z) : M state Z :=
  let! ix := read x in
  let y := right ix in
  let! iy := read y in
  let t := left iy in
  write y (set_left x) ;;; write x (set_right t) ;;;
  write_if x (set_parent y) ;;;
  write_if t (set_parent x) ;;;
  update_height x ;;;
  update_height y ;;;
  ret y.

Definition TreeRotateRight (y : Z) : M state Z :=
  let! iy := read y in
  let x := left iy in
  let! ix := read x in
  let t := right ix in
  write x (set_right y) ;;; write y (set_left t) ;;;
  write_if y (set_parent x) ;;;
  write_if t (set_parent y) ;;;
  update_height y ;;;
  update_height x ;;;
  ret x.

Inductive rotation := NoRotation | RotateRight | RotateLeftRight | RotateLeft | RotateRightLeft.

(** What is done to [item], under [oldParent]; the new root of the subtree, or 0. *)
Definition rotate (r : rotation) (item oldParent : Z) : M state Z :=
  match r with
  | NoRotation => ret 0
  | RotateRight => let! newRoot := TreeRotateRight item in replace_child oldParent item newRoot ;;; ret newRoot
  | RotateLeftRight =>
      let! i := read item in
      let! y := TreeRotateLeft (left i) in
      write item (set_left y) ;;; write y (set_parent item) ;;;
      let! newRoot := TreeRotateRight item in replace_child oldParent item newRoot ;;; ret newRoot
  | RotateLeft => let! newRoot := TreeRotateLeft item in replace_child oldParent item newRoot ;;; ret newRoot
  | RotateRightLeft =>
      let! i := read item in
      let! x := TreeRotateRight (right i) in
      write item (set_right x) ;;; write x (set_parent item) ;;;
      let! newRoot := TreeRotateLeft item in replace_child oldParent item newRoot ;;; ret newRoot
  end.

(** The way from [item] up to the root; [choose] says what to do for a balance. *)
Fixpoint rebalance (choose : Z -> Z -> M state rotation) (n : nat) (item : Z) : M state unit :=
  match n with
  | O => stop OutOfFuel
  | S n =>
      if item =? fakeRoot then ret tt
      else
        let! balance := update_height item in
        let! i := read item in
        let oldParent := parent i in
        let! r := choose item balance in
        let! newRoot := rotate r item oldParent in
        write_if newRoot (set_parent oldParent) ;;;
        rebalance choose n oldParent
  end.

(** The local variable [fakeRoot] comes above the root. *)
Definition add_fakeRoot : M state unit :=
  let! s := get in
  write (root (tree s)) (set_parent fakeRoot) ;;;
  modify (fun s => set_items (<[fakeRoot := MkItem 0 (root (tree s)) 0 0 (if TREE_VALIDATE then tree_address else 0) (MakeKey 0 0) 0]> (items s)) s).
Definition drop_fakeRoot : M state unit := modify (fun s => set_items (delete fakeRoot (items s)) s).

(** ** Insertion *)

Inductive AVLDuplicateKeyPolicy := AVL_DUPLICATE_KEYS_PANIC | AVL_DUPLICATE_KEYS_ALLOW | AVL_DUPLICATE_KEYS_FAIL.

(** [AVLItem<T> **] *)
Inductive link := RootLink | ChildLink (a : Z) (b : bool).
Definition read_link (l : link) : M state Z :=
  match l with
  | RootLink => let! s := get in ret (root (tree s))
  | ChildLink a b => let! i := read a in ret (child b i)
  end.
Definition write_link (l : link) (v : Z) : M state unit :=
  match l with RootLink => modify (set_root v) | ChildLink a b => write a (set_child b v) end.

(** [false]: there is an item with this key, and the policy is to fail. *)
Fixpoint descend (policy : AVLDuplicateKeyPolicy) (n : nat) (item : Z) (l : link) (parent : Z) : M state bool :=
  match n with
  | O => stop OutOfFuel
  | S n =>
      let! node := read_link l in
      if node =? 0 then write_link l item ;;; write item (set_parent parent) ;;; ret true
      else
        let! i := read item in
        let! nd := read node in
        let! c := TreeCompare (key i) (key nd) in
        let go := let! c := TreeCompare (key i) (key nd) in descend policy n item (ChildLink node (0 <? c)) node in
        if c =? 0 then
          match policy with
          | AVL_DUPLICATE_KEYS_PANIC => EsPanic
          | AVL_DUPLICATE_KEYS_FAIL => ret false
          | AVL_DUPLICATE_KEYS_ALLOW => go
          end
        else go
  end.

(** The comparison of [key] with that of the child on a side. *)
Definition compare_child (key1 : AVLKey) (b : bool) (item : Z) : M state Z :=
  let! i := read item in let! c := read (child b i) in TreeCompare key1 (key c).
Definition insert_rotation (key1 : AVLKey) (item balance : Z) : M state rotation :=
  let! i := read item in
  if 1 <? balance then
    let! c := compare_child key1 false item in
    if c <=? 0 then ret RotateRight
    else let! l := read (left i) in ret (if right l =? 0 then NoRotation else RotateLeftRight)
  else if balance <? -1 then
    let! c := compare_child key1 true item in
    if 0 <? c then ret RotateLeft
    else let! r := read (right i) in ret (if left r =? 0 then NoRotation else RotateRightLeft)
  else ret NoRotation.

Definition TreeInsert (item thisItem : Z) (key : AVLKey) (duplicateKeyPolicy : AVLDuplicateKeyPolicy) : M state bool :=
  let! s := get in
  if modCheck (tree s) then EsPanic
  else
    modify (set_modCheck true) ;;;
    TreeValidate (root (tree s)) ;;;
    let! i := read item in
    (if TREE_VALIDATE then if negb (inTree i =? 0) then EsPanic else write item (set_inTree tree_address) else ret tt) ;;;
    write item (set_key key) ;;;
    write item (set_right 0) ;;; write item (set_left 0) ;;;
    write item (set_thisItem thisItem) ;;;
    write item (set_height 1) ;;;
    let! s := get in
    let! inserted := descend duplicateKeyPolicy (tree_fuel s) item RootLink 0 in
    if negb inserted then modify (set_modCheck false) ;;; ret false
    else
      add_fakeRoot ;;;
      let! i := read item in
      let! s := get in
      rebalance (insert_rotation key) (tree_fuel s) (parent i) ;;;
      let! fake := read fakeRoot in
      modify (set_root (left fake)) ;;;
      let! s := get in
      write (root (tree s)) (set_parent 0) ;;;
      drop_fakeRoot ;;;
      let! s := get in
      TreeValidate (root (tree s)) ;;;
      modify (set_modCheck false) ;;;
      ret true.

(** ** Search *)

Inductive TreeSearchMode := TREE_SEARCH_EXACT | TREE_SEARCH_SMALLEST_ABOVE_OR_EQUAL | TREE_SEARCH_LARGEST_BELOW_OR_EQUAL.

Fixpoint TreeFindRecursive (n : nat) (root : Z) (key1 : AVLKey) (mode : TreeSearchMode) : M state Z :=
  match n with
  | O => stop OutOfFuel
  | S n =>
      if root =? 0 then ret 0
      else
        let! r := read root in
        let! c := TreeCompare (key r) key1 in
        if c =? 0 then ret root
        else
          match mode with
          | TREE_SEARCH_EXACT =>
              let! c := TreeCompare (key r) key1 in TreeFindRecursive n (child (c <? 0) r) key1 mode
          | TREE_SEARCH_SMALLEST_ABOVE_OR_EQUAL =>
              let! c := TreeCompare (key r) key1 in
              if 0 <? c then
                let! item := TreeFindRecursive n (left r) key1 mode in
                ret (if item =? 0 then root else item)
              else TreeFindRecursive n (right r) key1 mode
          | TREE_SEARCH_LARGEST_BELOW_OR_EQUAL =>
              let! c := TreeCompare (key r) key1 in
              if c <? 0 then
                let! item := TreeFindRecursive n (right r) key1 mode in
                ret (if item =? 0 then root else item)
              else TreeFindRecursive n (left r) key1 mode
          end
  end.

Definition TreeFind (key1 : AVLKey) (mode : TreeSearchMode) : M state Z :=
  let! s := get in
  if modCheck (tree s) then EsPanic
  else TreeValidate (root (tree s)) ;;; TreeFindRecursive (tree_fuel s) (root (tree s)) key1 mode.

(** ** Removal *)

Definition remove_rotation (item balance : Z) : M state rotation :=
  let! i := read item in
  if 1 <? balance then let! b := TreeGetBalance (left i) in ret (if 0 <=? b then RotateRight else RotateLeftRight)
  else if balance <? -1 then let! b := TreeGetBalance (right i) in ret (if b <=? 0 then RotateLeft else RotateRightLeft)
  else ret NoRotation.

Definition TreeRemove (item : Z) : M state unit :=
  let! s := get in
  if modCheck (tree s) then EsPanic
  else
    modify (set_modCheck true) ;;;
    TreeValidate (root (tree s)) ;;;
    let! i := read item in
    if TREE_VALIDATE && negb (inTree i =? tree_address) then EsPanic
    else
      add_fakeRoot ;;;
      let! i := read item in
      (if negb (left i =? 0) && negb (right i =? 0) then
         let! s := get in
         let! smallest := TreeFindRecursive (tree_fuel s) (right i) (MakeKey 0 0) TREE_SEARCH_SMALLEST_ABOVE_OR_EQUAL in
         TreeSwapItems smallest item
       else ret tt) ;;;
      let! i := read item in
      let! p := read (parent i) in
      let l := ChildLink (parent i) (right p =? item) in
      write_link l (if left i =? 0 then right i else left i) ;;;
      let! below := read_link l in
      let! i := read item in
      write_if below (set_parent (parent i)) ;;;
      (if TREE_VALIDATE then write item (set_inTree 0) else ret tt) ;;;
      let! below := read_link l in
      let! i := read item in
      let! s := get in
      rebalance remove_rotation (tree_fuel s) (if below =? 0 then parent i else below) ;;;
      let! fake := read fakeRoot in
      modify (set_root (left fake)) ;;;
      let! s := get in
      (if root (tree s) =? 0 then ret tt
       else
         let! r := read (root (tree s)) in
         if negb (parent r =? fakeRoot) then EsPanic else write (root (tree s)) (set_parent 0)) ;;;
      drop_fakeRoot ;;;
      let! s := get in
      TreeValidate (root (tree s)) ;;;
      modify (set_modCheck false).
End Tree.
