(* ===== verification/SharedTreeShape.v ===== *)
(** * Trees in memory

    [shape]s are trees of addresses.  [hung] says that the items in memory are linked as a shape, with heights and
    parents; [segment] that they are linked as the path above a subtree.  Both sides of a tree are the same up to the
    direction [d] of [children[d]], so that what is shown for one side holds for the other: [N d s a t] is a node
    whose child in the direction [d] is [t].  Rotations act on shapes as [rotates] says. *)

From stdpp Require Import base gmap list.
From S2P Require Import Prelude SharedTree.

(** ** Shapes *)

Inductive shape := Leaf | Node (l : shape) (a : Z) (r : shape).

#[export] Instance shape_eq_dec : EqDecision shape.
Proof. solve_decision. Defined.

Definition ptr (t : shape) : Z := match t with Leaf => 0 | Node _ a _ => a end.
Fixpoint nodes (t : shape) : list Z := match t with Leaf => [] | Node l a r => nodes l ++ a :: nodes r end.
Fixpoint ht (t : shape) : Z := match t with Leaf => 0 | Node l _ r => Z.max (ht l) (ht r) + 1 end.
Fixpoint balanced (t : shape) : Prop :=
  match t with Leaf => True | Node l _ r => -1 <= ht l - ht r <= 1 /\ balanced l /\ balanced r end.

Definition N (d : bool) (s : shape) (a : Z) (t : shape) : shape := if d then Node s a t else Node t a s.

Lemma N_flip d s a t : N (negb d) s a t = N d t a s.
Proof. by destruct d. Qed.
Lemma ptr_N d s a t : ptr (N d s a t) = a.
Proof. by destruct d. Qed.
Lemma ht_N d s a t : ht (N d s a t) = Z.max (ht s) (ht t) + 1.
Proof. destruct d; cbn; lia. Qed.
Lemma balanced_N d s a t : balanced (N d s a t) <-> -1 <= ht s - ht t <= 1 /\ balanced s /\ balanced t.
Proof. destruct d; cbn; intuition lia. Qed.
Lemma ht_nonneg t : 0 <= ht t.
Proof. induction t; cbn; lia. Qed.
Lemma ht_leaf t : ht t = 0 -> t = Leaf.
Proof. destruct t; cbn; [done|]. pose proof (ht_nonneg t1). pose proof (ht_nonneg t2). lia. Qed.
Lemma nodes_N d s a t : nodes (N d s a t) ≡ₚ a :: nodes s ++ nodes t.
Proof. destruct d; cbn; [by rewrite Permutation_middle|]. rewrite <- Permutation_middle. by rewrite (Permutation_app_comm (nodes t)). Qed.
Lemma ptr_in t : t <> Leaf -> ptr t ∈ nodes t.
Proof. destruct t; [done|]. intros _. cbn. set_solver. Qed.

(** ** The path above a subtree: at each node the direction it goes down in, and the other subtree *)

Definition path : Type := list (bool * Z * shape).

Fixpoint plug (t : shape) (c : path) : shape := match c with [] => t | (d, a, s) :: c => plug (N d s a t) c end.
Fixpoint path_nodes (c : path) : list Z := match c with [] => [] | (d, a, s) :: c => a :: nodes s ++ path_nodes c end.
(** The address of the lowest node, or what is above. *)
Definition top (c : path) (up : Z) : Z := match c with [] => up | (_, a, _) :: _ => a end.
(** The pointer of the highest node, or the given one. *)
Fixpoint high (h : Z) (c : path) : Z := match c with [] => h | (_, a, _) :: c => high a c end.

Lemma plug_app t c1 c2 : plug t (c1 ++ c2) = plug (plug t c1) c2.
Proof. revert t. induction c1 as [|[[d a] s] c1 IH]; intros t; cbn; [done|]. apply IH. Qed.
Lemma plug_nodes t c : nodes (plug t c) ≡ₚ nodes t ++ path_nodes c.
Proof.
  revert t. induction c as [|[[d a] s] c IH]; intros t; cbn; [by rewrite app_nil_r|]. rewrite IH, nodes_N. cbn. rewrite <- Permutation_middle, <- !app_assoc.
  f_equiv. apply Permutation_app_swap_app.
Qed.
Lemma path_nodes_app c1 c2 : path_nodes (c1 ++ c2) = path_nodes c1 ++ path_nodes c2.
Proof. induction c1 as [|[[d a] s] c1 IH]; cbn; [done|]. by rewrite IH, <- app_assoc. Qed.
Lemma ptr_plug t c : ptr (plug t c) = high (ptr t) c.
Proof. revert t. induction c as [|[[d a] s] c IH]; intros t; cbn; [done|]. by rewrite IH, ptr_N. Qed.
Lemma top_app c1 c2 up : top (c1 ++ c2) up = top c1 (top c2 up).
Proof. by destruct c1 as [|[[]]]. Qed.
Lemma high_app h c1 c2 : high h (c1 ++ c2) = high (high h c1) c2.
Proof. revert h. induction c1 as [|[[d a] s] c1 IH]; intros h; cbn; auto. Qed.
(** The order of the items does not depend on what is in the hole. *)
Lemma plug_inorder c : exists l1 l2, forall t, nodes (plug t c) = l1 ++ nodes t ++ l2.
Proof.
  induction c as [|[[d a] s] c (l1 & l2 & IH)]; [exists [], []; intros t; cbn; by rewrite app_nil_r|].
  destruct d; [exists (l1 ++ nodes s ++ [a]), l2|exists l1, (a :: nodes s ++ l2)]; intros t; cbn; rewrite IH; cbn; by rewrite <- !app_assoc.
Qed.

(** A path that a subtree of height [h] fits in. *)
Fixpoint fits (h : Z) (c : path) : Prop :=
  match c with [] => True | (_, _, s) :: c => balanced s /\ -1 <= ht s - h <= 1 /\ fits (Z.max h (ht s) + 1) c end.
Lemma fits_plug t c : balanced (plug t c) <-> balanced t /\ fits (ht t) c.
Proof.
  revert t. induction c as [|[[d a] s] c IH]; intros t; cbn; [tauto|]. rewrite IH, balanced_N, ht_N, Z.max_comm. tauto.
Qed.

(** ** Rotations *)

Inductive rotates : rotation -> shape -> shape -> Prop :=
  | rotates_not t : rotates NoRotation t t
  | rotates_once (d : bool) A (a : Z) B (b : Z) C : rotates (if d then RotateLeft else RotateRight) (N d A a (N d B b C)) (N d (N d A a B) b C)
  | rotates_twice (d : bool) A (a : Z) B (z : Z) B' (b : Z) C :
      rotates (if d then RotateRightLeft else RotateLeftRight) (N d A a (N d (N d B z B') b C)) (N d (N d A a B) z (N d B' b C)).

Lemma rotates_nodes r t t' : rotates r t t' -> nodes t' = nodes t.
Proof. induction 1; [done| |]; destruct d; cbn; rewrite <- ?app_assoc; cbn; by rewrite <- ?app_assoc. Qed.

Section Shape.
Context `{TreeSystem}.
Implicit Types (m : gmap Z AVLItem) (s : state).

(** ** Reading and writing *)

Lemma set_items_id s : set_items (items s) s = s.
Proof. by destruct s. Qed.
Lemma run_read {A} s m a i (k : AVLItem -> M state A) : m !! a = Some i -> bind (read a) k (set_items m s) = k i (set_items m s).
Proof. intros E. unfold read, bind, get, lift_opt. cbn. by rewrite E. Qed.
Lemma run_write {A} s m a i f (k : unit -> M state A) : m !! a = Some i -> bind (write a f) k (set_items m s) = k tt (set_items (alter f a m) s).
Proof. intros E. unfold write. rewrite bind_assoc, (run_read s m a i) by done. done. Qed.

Definition alter_if (a : Z) (f : AVLItem -> AVLItem) m : gmap Z AVLItem := if a =? 0 then m else alter f a m.
Lemma run_write_if {A} s m a f (k : unit -> M state A) : (a <> 0 -> is_Some (m !! a)) ->
  bind (write_if a f) k (set_items m s) = k tt (set_items (alter_if a f m) s).
Proof.
  intros Ha. unfold write_if, alter_if. destruct (Z.eqb_spec a 0) as [|Hne]; [done|]. destruct (Ha Hne) as [i E]. by apply (run_write s m a i).
Qed.
Lemma alter_if_some a f m b : is_Some (m !! b) -> is_Some (alter_if a f m !! b).
Proof. unfold alter_if. destruct (a =? 0); [done|]. by rewrite lookup_alter_is_Some. Qed.

(** The data of items and the set of addresses are the same. *)
Definition data (i : AVLItem) : Z * AVLKey := (thisItem i, key i).
Definition same_data m m' : Prop := forall a, data <$> m' !! a = data <$> m !! a.

Lemma same_data_refl m : same_data m m.
Proof. done. Qed.
Lemma same_data_trans m1 m2 m3 : same_data m1 m2 -> same_data m2 m3 -> same_data m1 m3.
Proof. intros H1 H2 a. by rewrite H2, H1. Qed.
Lemma same_data_alter f a m : (forall i, data (f i) = data i) -> same_data m (alter f a m).
Proof.
  intros Hf b. destruct (decide (a = b)) as [->|Hne]; [|by rewrite lookup_alter_ne by done]. rewrite lookup_alter_eq. destruct (m !! b); cbn; [by rewrite Hf|done].
Qed.
Lemma same_data_alter_if f a m : (forall i, data (f i) = data i) -> same_data m (alter_if a f m).
Proof. intros Hf. unfold alter_if. destruct (a =? 0); [done|]. by apply same_data_alter. Qed.
Lemma same_data_some m m' a : same_data m m' -> is_Some (m !! a) -> is_Some (m' !! a).
Proof. intros Hd [i E]. specialize (Hd a). rewrite E in Hd. destruct (m' !! a); [by eexists|done]. Qed.

(** Only items in [l] are changed. *)
Definition changes (l : list Z) m m' : Prop := forall a, a ∉ l -> m' !! a = m !! a.

Lemma changes_trans l m1 m2 m3 : changes l m1 m2 -> changes l m2 m3 -> changes l m1 m3.
Proof. intros H1 H2 a Ha. by rewrite H2, H1. Qed.
Lemma changes_mono l l' m m' : changes l m m' -> (forall a, a ∈ l -> a ∈ l') -> changes l' m m'.
Proof. intros Hc Hl a Ha. apply Hc. auto. Qed.
Lemma changes_alter l f a m : a ∈ l -> changes l m (alter f a m).
Proof. intros Ha b Hb. rewrite lookup_alter_ne; [done|]. by intros ->. Qed.
Lemma changes_alter_if l f a m : (a <> 0 -> a ∈ l) -> changes l m (alter_if a f m).
Proof. intros Ha. unfold alter_if. destruct (Z.eqb_spec a 0); [done|]. apply changes_alter. auto. Qed.

(** ** Items linked as a shape *)

Definition in_tree (i : AVLItem) : Prop := TREE_VALIDATE = true -> inTree i = tree_address.

Definition parent_is m (t : shape) (p : Z) : Prop := t = Leaf \/ exists i, m !! ptr t = Some i /\ parent i = p.

Fixpoint hung m (t : shape) : Prop :=
  match t with
  | Leaf => True
  | Node l a r =>
      (exists i, m !! a = Some i /\ left i = ptr l /\ right i = ptr r /\ height i = ht t /\ in_tree i) /\
      parent_is m l a /\ parent_is m r a /\ hung m l /\ hung m r
  end.

(** An item below which is [h] on the side [d] and [t] on the other, whatever its height and its parent. *)
Record side m (d : bool) (h : Z) (t : shape) (a : Z) (i : AVLItem) : Prop := {
  sd_item : m !! a = Some i;
  sd_child : child d i = h;
  sd_other : child (negb d) i = ptr t;
  sd_tree : in_tree i;
  sd_parent : parent_is m t a;
  sd_hung : hung m t;
}.
(** With both its subtrees. *)
Definition node m (d : bool) (t1 : shape) (a : Z) (t2 : shape) (i : AVLItem) : Prop :=
  side m d (ptr t2) t1 a i /\ parent_is m t2 a /\ hung m t2.

(** The path [c] above [h], its highest item below [up]. *)
Fixpoint segment m (h : Z) (c : path) (up : Z) : Prop :=
  match c with
  | [] => True
  | (d, a, t) :: c => exists i, side m d h t a i /\ parent i = top c up /\ segment m a c up
  end.

Lemma node_flip m d t1 a t2 i : node m d t1 a t2 i -> node m (negb d) t2 a t1 i.
Proof. intros ([H1 H2 H3 H4 H5 H6] & H7 & H8). split_and!; [split|..]; rewrite ?negb_involutive; done. Qed.
Lemma hung_N m d t1 a t2 : hung m (N d t1 a t2) <-> exists i, node m d t1 a t2 i /\ height i = ht (N d t1 a t2).
Proof.
  rewrite ht_N. destruct d; cbn; split.
  - intros ((i & H1 & H2 & H3 & H4 & H5) & H6 & H7 & H8 & H9). exists i. repeat split; done.
  - intros (i & ([H1 H2 H3 H4 H5 H6] & H7 & H8) & H9). split_and!; try done. exists i. split_and!; (done || lia).
  - intros ((i & H1 & H2 & H3 & H4 & H5) & H6 & H7 & H8 & H9). exists i. split; [repeat split; done|]. lia.
  - intros (i & ([H1 H2 H3 H4 H5 H6] & H7 & H8) & H9). split_and!; try done. exists i. split_and!; (done || lia).
Qed.

Lemma parent_is_changes l m m' t p : changes l m m' -> (forall a, a ∈ nodes t -> a ∉ l) -> parent_is m t p -> parent_is m' t p.
Proof.
  intros Hc Hl [->|(i & Hi & Hp)]; [by left|]. destruct t; [by left|]. right. exists i. split; [|done]. rewrite Hc; [done|]. apply Hl, ptr_in. done.
Qed.
Lemma hung_changes l m m' t : changes l m m' -> (forall a, a ∈ nodes t -> a ∉ l) -> hung m t -> hung m' t.
Proof.
  intros Hc. induction t as [|t1 IH1 a t2 IH2]; intros Hl; cbn; [done|]. cbn in Hl. intros ((i & Hi & Hd) & H1 & H2 & H3 & H4). split_and!.
  - exists i. split; [|done]. rewrite Hc; [done|]. apply Hl. set_solver.
  - eapply parent_is_changes; [exact Hc| |done]. set_solver.
  - eapply parent_is_changes; [exact Hc| |done]. set_solver.
  - apply IH1; [set_solver|done].
  - apply IH2; [set_solver|done].
Qed.
Lemma side_changes l m m' d h t a i : changes l m m' -> a ∉ l -> (forall b, b ∈ nodes t -> b ∉ l) -> side m d h t a i -> side m' d h t a i.
Proof.
  intros Hc Ha Hl []. split; try done.
  - by rewrite Hc.
  - by eapply parent_is_changes.
  - by eapply hung_changes.
Qed.
Lemma segment_changes l m m' h c up : changes l m m' -> (forall b, b ∈ path_nodes c -> b ∉ l) -> segment m h c up -> segment m' h c up.
Proof.
  intros Hc. revert h. induction c as [|[[d a] t] c IH]; intros h Hl; cbn; [done|]. cbn in Hl. intros (i & Hi & Hp & Hs). exists i. split_and!; [|done|].
  - eapply side_changes; [done|apply Hl; set_solver|set_solver|done].
  - apply IH; [set_solver|done].
Qed.
(** Writing to the item of a side. *)
Lemma side_alter m d h h' t a i f : side m d h t a i -> a ∉ nodes t -> child d (f i) = h' -> child (negb d) (f i) = child (negb d) i ->
  inTree (f i) = inTree i -> side (alter f a m) d h' t a (f i).
Proof.
  intros [] Ha H1 H2 H3. assert (changes [a] m (alter f a m)) as Hc by (apply changes_alter; set_solver). split; try done.
  - by rewrite lookup_alter_eq, sd_item0.
  - by rewrite H2.
  - unfold in_tree. by rewrite H3.
  - eapply parent_is_changes; [done|set_solver|done].
  - eapply hung_changes; [done|set_solver|done].
Qed.

(** ** The parent of a subtree *)

Lemma hung_reparent m t p : NoDup (nodes t) -> 0 ∉ nodes t -> hung m t -> hung (alter_if (ptr t) (set_parent p) m) t /\ parent_is (alter_if (ptr t) (set_parent p) m) t p.
Proof.
  destruct t as [|t1 a t2]; [split; [done|by left]|]. cbn. intros (N1 & N2 & [Na N3]%list.NoDup_cons)%list.NoDup_app Hz ((i & Hi & Hd) & H1 & H2 & H3 & H4).
  unfold alter_if. destruct (Z.eqb_spec a 0) as [->|Hne]; [set_solver|].
  assert (changes [a] m (alter (set_parent p) a m)) as Hc by (apply changes_alter; set_solver).
  assert (a ∉ nodes t1) by (intros ?; specialize (N2 a); set_solver).
  split; [split_and!|].
  - exists (set_parent p i). rewrite lookup_alter_eq, Hi. split; [done|]. by destruct i.
  - eapply parent_is_changes; [done|set_solver|done].
  - eapply parent_is_changes; [done|set_solver|done].
  - eapply hung_changes; [done|set_solver|done].
  - eapply hung_changes; [done|set_solver|done].
  - right. exists (set_parent p i). cbn. rewrite lookup_alter_eq, Hi. done.
Qed.

(** ** Subtrees in their places *)

Definition located m (t : shape) (c : path) : Prop :=
  hung m t /\ parent_is m t (top c 0) /\ segment m (ptr t) c 0 /\ NoDup (0 :: nodes t ++ path_nodes c).

Lemma segment_app m h c1 c2 up : segment m h (c1 ++ c2) up <-> segment m h c1 (top c2 up) /\ segment m (high h c1) c2 up.
Proof.
  revert h. induction c1 as [|[[d a] t] c1 IH]; intros h; cbn; [tauto|]. rewrite top_app. setoid_rewrite IH. naive_solver.
Qed.
Lemma hung_plug m t c up : hung m (plug t c) -> parent_is m (plug t c) up -> hung m t /\ parent_is m t (top c up) /\ segment m (ptr t) c up.
Proof.
  revert t. induction c as [|[[d a] t'] c IH]; intros t; cbn; [done|]. intros Hh Hp. destruct (IH _ Hh Hp) as (H1 & H2 & H3). rewrite ptr_N in H3.
  apply hung_N in H1 as (i & (H4 & H5 & H6) & H7). split_and!; [done|done|]. exists i. split_and!; [done| |done].
  destruct H2 as [H2|(j & Hj & H2)]; [by destruct d|]. rewrite ptr_N, (sd_item _ _ _ _ _ _ H4) in Hj. by injection Hj as ->.
Qed.
Lemma located_plug m t c1 c2 : located m (plug t c1) c2 -> located m t (c1 ++ c2).
Proof.
  intros (H1 & H2 & H3 & H4). destruct (hung_plug _ _ _ _ H1 H2) as (H5 & H6 & H7). unfold located. rewrite top_app, segment_app, <- ptr_plug, path_nodes_app.
  split_and!; try done. by rewrite plug_nodes, <- app_assoc in H4.
Qed.
(** One step up, once the height is right. *)
Lemma located_up m d t1 a t2 c i : located m t2 ((d, a, t1) :: c) -> m !! a = Some i -> height i = ht (N d t1 a t2) -> located m (N d t1 a t2) c.
Proof.
  intros (H1 & H2 & (j & H3 & H4 & H5) & H6) Hi Hh. assert (j = i) as -> by (destruct H3; congruence). split_and!.
  - apply hung_N. exists i. by split.
  - right. exists i. by rewrite ptr_N.
  - by rewrite ptr_N.
  - cbn in H6. rewrite nodes_N. cbn. rewrite (Permutation_app_comm (nodes t1)), <- app_assoc. by rewrite <- Permutation_middle in H6.
Qed.
Lemma located_down m d t1 a t2 c : located m (N d t1 a t2) c -> located m t2 ((d, a, t1) :: c).
Proof. apply (located_plug _ _ [(d, a, t1)]). Qed.
End Shape.
