(* ===== verification/SharedTreeBalance.v ===== *)
(** * Balancing

    Heights, rotations, and the way up to the root: [rebalance] keeps an invariant of the subtree that is balanced
    already and the path above it, if what [choose] says is a rotation of the shape that re-establishes the invariant
    one step up.  The rotations for both directions are instances of [rot]. *)

From stdpp Require Import base gmap list.
From S2P Require Import Prelude SharedTree SharedTreeShape.

(** What [NoDup] says, item by item. *)
Ltac distinct H :=
  repeat first
    [ rewrite nodes_N in H | rewrite list.NoDup_cons in H | rewrite list.NoDup_app in H | progress cbn in H ].

Lemma NoDup_first (a : Z) l1 l2 : NoDup (a :: l1 ++ l2) -> NoDup (a :: l1).
Proof. rewrite !list.NoDup_cons, list.NoDup_app. set_solver. Qed.

Section Balance.
Context `{TreeSystem}.
Implicit Types (m : gmap Z AVLItem) (s : state).

(** ** Fields *)

Lemma child_set d v i : child d (set_child d v i) = v.
Proof. by destruct d. Qed.
Lemma child_set_other d v i : child (negb d) (set_child d v i) = child (negb d) i.
Proof. by destruct d. Qed.
Lemma child_set_negb d v i : child d (set_child (negb d) v i) = child d i.
Proof. by destruct d. Qed.
Lemma inTree_set_child d v i : inTree (set_child d v i) = inTree i.
Proof. by destruct d. Qed.
Lemma parent_set_child d v i : parent (set_child d v i) = parent i.
Proof. by destruct d. Qed.
Lemma data_set_child d v i : data (set_child d v i) = data i.
Proof. by destruct d. Qed.
Lemma child_set_parent d v i : child d (set_parent v i) = child d i.
Proof. by destruct d. Qed.
Lemma child_set_height d v i : child d (set_height v i) = child d i.
Proof. by destruct d. Qed.

(** Writing to a node's item without touching its links. *)
Lemma node_alter m d t1 a t2 i f : node m d t1 a t2 i -> a ∉ nodes t1 -> a ∉ nodes t2 -> (forall d, child d (f i) = child d i) -> inTree (f i) = inTree i ->
  node (alter f a m) d t1 a t2 (f i).
Proof.
  intros (Hs & Hp & Hh) Ha1 Ha2 Hf Ht. assert (changes [a] m (alter f a m)) as Hc by (apply changes_alter; set_solver). split_and!.
  - eapply side_alter; [done|done| |done|done]. rewrite Hf. apply Hs.
  - eapply parent_is_changes; [done|set_solver|done].
  - eapply hung_changes; [done|set_solver|done].
Qed.

(** ** Heights *)

Lemma run_item_height {A} s m t (k : Z -> M state A) : hung m t -> 0 ∉ nodes t -> bind (item_height (ptr t)) k (set_items m s) = k (ht t) (set_items m s).
Proof.
  destruct t as [|t1 a t2]; intros Hh Hz; [done|]. destruct Hh as ((i & Hi & _ & _ & Hht & _) & _). cbn in *. unfold item_height.
  destruct (Z.eqb_spec a 0); [set_solver|]. rewrite bind_assoc, (run_read s m a i) by done. cbn. by rewrite Hht.
Qed.

(** The balance of a node, by the direction of its second subtree. *)
Definition balance_of (d : bool) (t1 t2 : shape) : Z := if d then ht t1 - ht t2 else ht t2 - ht t1.

Lemma run_update_height {A} s m d t1 a t2 i (k : Z -> M state A) : node m d t1 a t2 i -> NoDup (0 :: nodes (N d t1 a t2)) ->
  bind (update_height a) k (set_items m s) = k (balance_of d t1 t2) (set_items (alter (set_height (ht (N d t1 a t2))) a m) s).
Proof.
  intros (Hs & Hp & Hh) Hnd. distinct Hnd. assert (0 ∉ nodes t1 /\ 0 ∉ nodes t2) as [Hz1 Hz2] by set_solver. destruct Hs as [Hi Hc Ho _ _ Hh1].
  unfold update_height. rewrite bind_assoc, (run_read s m a i) by done. destruct d; cbn in Hc, Ho; rewrite Hc, Ho.
  all: rewrite bind_assoc, run_item_height by done; rewrite bind_assoc, run_item_height by done; rewrite bind_assoc, (run_write s m a i) by done; unfold bind, ret.
  all: do 4 f_equal; cbn; destruct (Z.ltb_spec 0 (ht t1 - ht t2)), (Z.ltb_spec 0 (ht t2 - ht t1)); try lia; f_equal; lia.
Qed.
Lemma node_height m d t1 a t2 i : node m d t1 a t2 i -> NoDup (nodes (N d t1 a t2)) -> hung (alter (set_height (ht (N d t1 a t2))) a m) (N d t1 a t2).
Proof.
  intros Hn Hnd. distinct Hnd. apply hung_N. eexists. split; [|shelve]. apply node_alter; [done|set_solver|set_solver|intros; apply child_set_height|done].
  Unshelve. done.
Qed.

(** ** Rotations *)

Definition rot (d : bool) (a : Z) : M state Z :=
  let! ia := read a in
  let b := child d ia in
  let! ib := read b in
  let t := child (negb d) ib in
  write b (set_child (negb d) a) ;;; write a (set_child d t) ;;;
  write_if a (set_parent b) ;;;
  write_if t (set_parent a) ;;;
  update_height a ;;;
  update_height b ;;;
  ret b.
Lemma TreeRotateLeft_eq : TreeRotateLeft = rot true.
Proof. done. Qed.
Lemma TreeRotateRight_eq : TreeRotateRight = rot false.
Proof. done. Qed.

Definition rot_links (d : bool) (a b t : Z) m : gmap Z AVLItem :=
  alter_if t (set_parent a) (alter_if a (set_parent b) (alter (set_child d t) a (alter (set_child (negb d) a) b m))).

Lemma rot_links_same_data d a b t m : same_data m (rot_links d a b t m).
Proof.
  unfold rot_links. repeat (eapply same_data_trans; [|apply same_data_alter_if; done]). eapply same_data_trans; apply same_data_alter; intros i; apply data_set_child.
Qed.
Lemma rot_links_changes l d a b t m : a ∈ l -> b ∈ l -> (t <> 0 -> t ∈ l) -> changes l m (rot_links d a b t m).
Proof.
  intros Ha Hb Ht. unfold rot_links. eapply changes_trans; [|by apply changes_alter_if]. eapply changes_trans; [|by apply changes_alter_if].
  eapply changes_trans; by apply changes_alter.
Qed.

Lemma rot_links_ok m d A a B b C ia : node m d A a (N d B b C) ia -> NoDup (0 :: nodes (N d A a (N d B b C))) ->
  let m' := rot_links d a b (ptr B) m in
  (exists ia', node m' d A a B ia' /\ parent ia' = b) /\ (exists ib', side m' (negb d) a C b ib').
Proof.
  intros (Sa & _ & (ib & (Sb & PC & HC) & _)%hung_N) Hnd. distinct Hnd. unfold rot_links. rewrite ptr_N in Sa.
  pose proof (sd_parent _ _ _ _ _ _ Sb) as PB. pose proof (sd_hung _ _ _ _ _ _ Sb) as HB.
  assert (side m (negb d) (ptr B) C b ib) as Tb by (destruct Sb; split; rewrite ?negb_involutive; done). clear PB Sb PC HC.
  set (m1 := alter (set_child (negb d) a) b m). assert (changes [b] m m1) as C1 by (apply changes_alter; set_solver).
  assert (side m1 (negb d) a C b (set_child (negb d) a ib)) as Tb1.
  { eapply side_alter; [exact Tb|set_solver|apply child_set| |apply inTree_set_child]. apply child_set_other. }
  apply (side_changes _ _ _ _ _ _ _ _ C1) in Sa; [|set_solver|set_solver]. apply (hung_changes _ _ _ _ C1) in HB; [|set_solver].
  set (m2 := alter (set_child d (ptr B)) a m1). assert (changes [a] m1 m2) as C2 by (apply changes_alter; set_solver).
  assert (side m2 d (ptr B) A a (set_child d (ptr B) ia)) as Sa2.
  { eapply side_alter; [exact Sa|set_solver|apply child_set|apply child_set_other|apply inTree_set_child]. }
  apply (side_changes _ _ _ _ _ _ _ _ C2) in Tb1; [|set_solver|set_solver]. apply (hung_changes _ _ _ _ C2) in HB; [|set_solver].
  assert (alter_if a (set_parent b) m2 = alter (set_parent b) a m2) as -> by (unfold alter_if; destruct (Z.eqb_spec a 0); [set_solver|done]).
  set (m3 := alter (set_parent b) a m2). assert (changes [a] m2 m3) as C3 by (apply changes_alter; set_solver).
  assert (side m3 d (ptr B) A a (set_parent b (set_child d (ptr B) ia))) as Sa3.
  { eapply side_alter; [exact Sa2|set_solver| |apply child_set_parent|done]. rewrite child_set_parent. apply child_set. }
  apply (side_changes _ _ _ _ _ _ _ _ C3) in Tb1; [|set_solver|set_solver]. apply (hung_changes _ _ _ _ C3) in HB; [|set_solver].
  assert (changes (nodes B) m3 (alter_if (ptr B) (set_parent a) m3)) as C4 by (apply changes_alter_if; intros; apply ptr_in; by intros ->).
  destruct (hung_reparent m3 B a) as [HB4 PB4]; [apply Hnd|set_solver|done|].
  split; eexists.
  - split; [split; [|by split]|]; [eapply side_changes; [exact C4| | |exact Sa3]; set_solver|done].
  - eapply side_changes; [exact C4| | |exact Tb1]; set_solver.
Qed.

Lemma NoDup_rot d A a B b C : NoDup (0 :: nodes (N d A a (N d B b C))) -> NoDup (0 :: nodes (N d (N d A a B) b C)).
Proof.
  intros Hnd. replace (nodes (N d (N d A a B) b C)) with (nodes (N d A a (N d B b C))) by (symmetry; exact (rotates_nodes _ _ _ (rotates_once d A a B b C))). done.
Qed.

Lemma rot_steps m d A a B b C ia : node m d A a (N d B b C) ia -> NoDup (0 :: nodes (N d A a (N d B b C))) ->
  let m1 := rot_links d a b (ptr B) m in
  let m2 := alter (set_height (ht (N d A a B))) a m1 in
  (exists ia', node m1 d A a B ia') /\ exists ib', node m2 (negb d) C b (N d A a B) ib'.
Proof.
  intros Hn Hnd. destruct (rot_links_ok _ _ _ _ _ _ _ _ Hn Hnd) as ((ia' & Na & Pa) & ib' & Sb). intros m1 m2. split; [by exists ia'|].
  apply NoDup_rot in Hnd. distinct Hnd. exists ib'. assert (changes [a] m1 m2) as Hc by (apply changes_alter; set_solver). split_and!.
  - rewrite ptr_N. eapply side_changes; [exact Hc|set_solver|set_solver|exact Sb].
  - right. rewrite ptr_N. destruct Na as [[Hi _ _ _ _ _] _]. exists (set_height (ht (N d A a B)) ia'). split; [|done]. unfold m2. rewrite lookup_alter_eq. unfold m1. by rewrite Hi.
  - apply (node_height _ _ _ _ _ ia'); [done|]. distinct Hnd. rewrite nodes_N, list.NoDup_cons, list.NoDup_app. set_solver.
Qed.

Lemma run_rot s m d A a B b C ia : node m d A a (N d B b C) ia -> NoDup (0 :: nodes (N d A a (N d B b C))) ->
  exists m', (forall T (k : Z -> M state T), bind (rot d a) k (set_items m s) = k b (set_items m' s)) /\ hung m' (N d (N d A a B) b C) /\
    changes (nodes (N d A a (N d B b C))) m m' /\ same_data m m'.
Proof.
  intros Hn Hnd. destruct (rot_steps _ _ _ _ _ _ _ _ Hn Hnd) as ((ia' & Na) & ib' & Nb). pose proof (NoDup_rot _ _ _ _ _ _ Hnd) as Hnd'.
  assert (NoDup (0 :: nodes (N d A a B))) as HndA by (distinct Hnd'; rewrite nodes_N, !list.NoDup_cons, list.NoDup_app; set_solver).
  assert (NoDup (0 :: nodes (N (negb d) C b (N d A a B)))) as HndB by by rewrite N_flip.
  set (m1 := rot_links d a b (ptr B) m) in *. set (m2 := alter (set_height (ht (N d A a B))) a m1) in *.
  set (m3 := alter (set_height (ht (N (negb d) C b (N d A a B)))) b m2). exists m3. split_and!.
  - intros T k. destruct Hn as (Sa & _ & (ib & (Sb & PC & HC) & _)%hung_N). rewrite ptr_N in Sa. destruct Sa as [Ia Ca Oa _ _ _], Sb as [Ib Cb Ob _ PB HB].
    unfold rot. rewrite bind_assoc, (run_read s m a ia) by done. rewrite Ca. rewrite bind_assoc, (run_read s m b ib) by done. rewrite Ob.
    rewrite bind_assoc, (run_write s m b ib) by done. rewrite bind_assoc, (run_write s _ a ia) by (rewrite lookup_alter_ne; [done|distinct Hnd; set_solver]).
    rewrite bind_assoc, run_write_if by (intros _; rewrite !lookup_alter_is_Some; by eexists).
    rewrite bind_assoc, run_write_if by (intros Hne; apply alter_if_some; rewrite !lookup_alter_is_Some; destruct PB as [->|(? & ? & _)]; [done|by eexists]).
    change (alter_if (ptr B) (set_parent a) _) with m1. rewrite bind_assoc, (run_update_height s m1 d A a B ia') by done. change (alter _ a m1) with m2.
    rewrite bind_assoc, (run_update_height s m2 (negb d) C b (N d A a B) ib') by done. done.
  - rewrite <- N_flip. apply (node_height _ _ _ _ _ ib'); [done|]. by apply list.NoDup_cons in HndB as [_ ?].
  - eapply changes_trans; [|apply changes_alter; rewrite !nodes_N; set_solver]. eapply changes_trans; [|apply changes_alter; rewrite !nodes_N; set_solver].
    apply rot_links_changes; rewrite !nodes_N; [set_solver|set_solver|]. intros Hne. assert (ptr B ∈ nodes B) by (apply ptr_in; by intros ->). set_solver.
  - unfold m3, m2. repeat (eapply same_data_trans; [|by apply same_data_alter]). apply rot_links_same_data.
Qed.

(** ** Replacing the child of a parent *)

Lemma run_replace_child {A} s m h h' d a t c (k : unit -> M state A) : segment m h ((d, a, t) :: c) 0 -> h <> 0 -> h ∉ nodes t -> NoDup (path_nodes ((d, a, t) :: c)) ->
  bind (replace_child a h h') k (set_items m s) = k tt (set_items (alter (set_child d h') a m) s) /\ segment (alter (set_child d h') a m) h' ((d, a, t) :: c) 0.
Proof.
  intros (i & Si & Hp & Hs) Hz Hh Hnd. distinct Hnd. split.
  - destruct Si as [Hi Hc Ho _ _ _]. unfold replace_child. rewrite bind_assoc, (run_read s m a i) by done. rewrite (run_write s m a i) by done.
    assert ((right i =? h) = d) as ->; [|done]. destruct d; cbn in Hc, Ho; [lia|]. destruct (Z.eqb_spec (right i) h) as [E|]; [|done]. rewrite <- E, Ho in Hh, Hz.
    destruct Hh. apply ptr_in. by intros ->.
  - exists (set_child d h' i). split_and!.
    + eapply side_alter; [exact Si|set_solver|apply child_set|apply child_set_other|apply inTree_set_child].
    + by rewrite parent_set_child.
    + eapply segment_changes; [apply (changes_alter [a]); set_solver|set_solver|exact Hs].
Qed.

(** A subtree whose pointer its parent does not have yet. *)
Lemma replace_located s m t t' d a t1 c : hung m t' -> segment m (ptr t) ((d, a, t1) :: c) 0 -> NoDup (0 :: nodes t ++ path_nodes ((d, a, t1) :: c)) -> t <> Leaf ->
  nodes t' = nodes t -> exists m', (forall T (k : unit -> M state T), bind (replace_child a (ptr t) (ptr t')) k (set_items m s) = k tt (set_items m' s)) /\
    located (alter_if (ptr t') (set_parent a) m') t' ((d, a, t1) :: c) /\ changes [a] m m' /\ same_data m m'.
Proof.
  intros Hh Hs Hnd Hne Hn. set (C := (d, a, t1) :: c) in *. set (m' := alter (set_child d (ptr t')) a m). exists m'.
  pose proof (ptr_in t Hne) as Hin. pose proof Hnd as Hnd0. rewrite <- Hn in Hnd0. rewrite list.NoDup_cons, list.NoDup_app in Hnd. destruct Hnd as (Hz & H1 & H2 & H3).
  assert (ptr t <> 0) as Hz' by (intros E; rewrite E in Hin; set_solver). assert (ptr t ∉ nodes t1) as Ht1 by (intros ?; apply (H2 (ptr t)); [done|]; unfold C; cbn; set_solver).
  assert (a ∉ nodes t) as Ha by (intros ?; apply (H2 a); [done|]; unfold C; cbn; set_solver).
  split_and!.
  - intros T k. by apply (run_replace_child s m (ptr t) (ptr t') d a t1 c k).
  - destruct (run_replace_child s m (ptr t) (ptr t') d a t1 c ret Hs Hz' Ht1 H3) as [_ Hs']. change (alter _ a m) with m' in Hs'.
    destruct (hung_reparent m' t' a) as [Hh' Hp']; [by rewrite Hn|rewrite Hn; set_solver|eapply hung_changes; [apply (changes_alter [a]); set_solver|rewrite Hn; set_solver|exact Hh]|].
    split_and!; [done|done| |done]. eapply (segment_changes (nodes t)); [apply changes_alter_if|set_solver|exact Hs'].
    intros _. rewrite <- Hn. apply ptr_in. intros ->. cbn in Hn. rewrite <- Hn in Hin. set_solver.
  - apply changes_alter. set_solver.
  - apply same_data_alter. intros i. apply data_set_child.
Qed.

(** ** The rotations of [rebalance] *)

Definition once (d : bool) : rotation := if d then RotateLeft else RotateRight.
Definition twice (d : bool) : rotation := if d then RotateRightLeft else RotateLeftRight.
Lemma rotate_once d item p : rotate (once d) item p = (let! newRoot := rot d item in replace_child p item newRoot ;;; ret newRoot).
Proof. by destruct d. Qed.
Lemma rotate_twice d item p : rotate (twice d) item p =
  (let! i := read item in
   let! y := rot (negb d) (child d i) in
   write item (set_child d y) ;;; write y (set_parent item) ;;;
   let! newRoot := rot d item in replace_child p item newRoot ;;; ret newRoot).
Proof. by destruct d. Qed.

(** The child is rotated the other way, and linked again. *)
Lemma run_rot_child s m d A a B z B' b C ia : node m d A a (N d (N d B z B') b C) ia -> NoDup (0 :: nodes (N d A a (N d (N d B z B') b C))) ->
  exists m' i', (forall T (k : Z -> M state T),
      (let! i := read a in let! y := rot (negb d) (child d i) in write a (set_child d y) ;;; write y (set_parent a) ;;; k y) (set_items m s) = k z (set_items m' s)) /\
    node m' d A a (N d B z (N d B' b C)) i' /\ changes (nodes (N d A a (N d (N d B z B') b C))) m m' /\ same_data m m'.
Proof.
  intros (Sa & Pb & Hb) Hnd. pose proof Hb as (ib & Nb & _)%hung_N.
  assert (NoDup (0 :: nodes (N d (N d B z B') b C))) as HndT by (pose proof Hnd as H'; rewrite nodes_N in H'; rewrite list.NoDup_cons in *; distinct H'; rewrite !nodes_N; cbn; rewrite !list.NoDup_cons, !list.NoDup_app; set_solver).
  assert (NoDup (0 :: nodes (N (negb d) C b (N (negb d) B' z B)))) as Hnd1 by by rewrite !N_flip.
  assert (node m (negb d) C b (N (negb d) B' z B) ib) as Nb' by (rewrite N_flip; by apply node_flip).
  destruct (run_rot s m (negb d) C b B' z B ib Nb' Hnd1) as (m1 & Hrun & Hh1 & Hc1 & Hd1). rewrite !N_flip in Hh1, Hc1.
  set (T := N d (N d B z B') b C) in *. set (T1 := N d B z (N d B' b C)) in *.
  assert (nodes T1 = nodes T) as HT by (unfold T1, T; destruct d; cbn; by rewrite <- ?app_assoc; cbn; rewrite <- ?app_assoc).
  assert (a ∉ nodes T /\ (forall x, x ∈ nodes A -> x ∉ nodes T)) as [HaT HAT].
  { rewrite nodes_N in Hnd. rewrite !list.NoDup_cons, list.NoDup_app in Hnd. set_solver. }
  assert (a ∉ nodes A) as HaA by (rewrite nodes_N in Hnd; rewrite !list.NoDup_cons in Hnd; set_solver).
  apply (side_changes _ _ _ _ _ _ _ _ Hc1) in Sa; [|done|done]. set (m2 := alter (set_child d z) a m1).
  assert (changes [a] m1 m2) as Hc2 by (apply changes_alter; set_solver).
  assert (side m2 d z A a (set_child d z ia)) as Sa2 by (eapply side_alter; [exact Sa|done|apply child_set|apply child_set_other|apply inTree_set_child]).
  assert (hung m2 T1) as Hh2 by (eapply hung_changes; [exact Hc2|rewrite HT; set_solver|exact Hh1]).
  set (m3 := alter_if z (set_parent a) m2). assert (ptr T1 = z) as Hz by apply ptr_N.
  destruct (hung_reparent m2 T1 a) as [Hh3 Hp3]; [rewrite HT; by apply list.NoDup_cons in HndT as [_ ?]|rewrite HT; by apply list.NoDup_cons in HndT as [? _]|done|]. rewrite Hz in Hh3, Hp3. fold m3 in Hh3, Hp3.
  assert (z ∈ nodes T) as Hzin by (rewrite <- HT, <- Hz; apply ptr_in; unfold T1; by destruct d). assert (changes (nodes T) m2 m3) as Hc3 by by apply changes_alter_if.
  assert (z <> 0) as Hz0 by (intros ->; apply list.NoDup_cons in HndT as [? _]; done).
  assert (m3 = alter (set_parent a) z m2) as Em3 by (unfold m3, alter_if; by destruct (Z.eqb_spec z 0)).
  exists m3, (set_child d z ia). split_and!.
  - intros X k. rewrite (run_read s m a ia) by (rewrite <- (Hc1 a) by done; apply Sa).
    assert (child d ia = b) as -> by (rewrite (sd_child _ _ _ _ _ _ Sa); apply ptr_N). rewrite Hrun, (run_write s m1 a ia) by apply Sa. fold m2. rewrite Em3.
    apply hung_N in Hh2 as (iz & ([Hiz _ _ _ _ _] & _) & _). by rewrite (run_write s m2 z iz).
  - split; [|by split]. rewrite Hz. eapply side_changes; [exact Hc3|done|done|exact Sa2].
  - assert (forall x, x = a \/ x ∈ nodes T -> x ∈ nodes (N d A a T)) as Hsub by (intros; rewrite nodes_N; set_solver).
    apply (changes_trans _ m m2 m3); [apply (changes_trans _ m m1 m2)|]; (eapply changes_mono; [eassumption|]; set_solver).
  - eapply same_data_trans; [exact Hd1|]. eapply same_data_trans; [|by apply same_data_alter_if]. apply same_data_alter. intros i. apply data_set_child.
Qed.

(** A rotation, and the parent of the new root. *)
Definition rotate_here (r : rotation) (item p : Z) (k : unit -> M state unit) : M state unit :=
  let! newRoot := rotate r item p in write_if newRoot (set_parent p) ;;; k tt.

Lemma rotate_end s m t t' d p t1 c (k : unit -> M state unit) : hung m t' -> segment m (ptr t) ((d, p, t1) :: c) 0 -> NoDup (0 :: nodes t ++ path_nodes ((d, p, t1) :: c)) -> t <> Leaf ->
  t' <> Leaf -> nodes t' = nodes t ->
  exists m', (replace_child p (ptr t) (ptr t') ;;; write_if (ptr t') (set_parent p) ;;; k tt) (set_items m s) = k tt (set_items m' s) /\
    located m' t' ((d, p, t1) :: c) /\ changes (nodes t ++ path_nodes ((d, p, t1) :: c)) m m' /\ same_data m m'.
Proof.
  intros Hh Hs Hnd Hne Hne' Hn. destruct (replace_located s m t t' d p t1 c) as (m' & Hrun & Hl & Hc & Hd); [done..|].
  pose proof (ptr_in t' Hne') as Hin. rewrite Hn in Hin. exists (alter_if (ptr t') (set_parent p) m'). split_and!; [|done| |].
  - rewrite Hrun, run_write_if; [done|]. intros _. pose proof Hl as (Hh' & _). destruct t' as [|tl x tr]; [done|]. destruct Hh' as ((i & Hi & _) & _). cbn in *.
    unfold alter_if in Hi. destruct (x =? 0); [by eexists|]. apply (lookup_alter_is_Some (set_parent p) m' x x). by eexists.
  - apply (changes_trans _ m m'); [eapply changes_mono; [exact Hc|]; cbn; set_solver|]. apply changes_alter_if. intros _. set_solver.
  - eapply same_data_trans; [exact Hd|]. by apply same_data_alter_if.
Qed.

Lemma run_rotate s m r t t' d p t1 c (k : unit -> M state unit) : located m t ((d, p, t1) :: c) -> rotates r t t' ->
  exists m', rotate_here r (ptr t) p k (set_items m s) = k tt (set_items m' s) /\ located m' t' ((d, p, t1) :: c) /\
    changes (nodes t ++ path_nodes ((d, p, t1) :: c)) m m' /\ same_data m m'.
Proof.
  intros Hl Hr. pose proof (rotates_nodes _ _ _ Hr) as Hn. destruct Hr as [t|e A a B b C|e A a B z B' b C]; unfold rotate_here; [by exists m| |].
  - destruct Hl as (Hh & Hp & Hs & Hnd). pose proof Hh as (ia & Na & _)%hung_N. set (T := N e A a (N e B b C)) in *.
    destruct (run_rot s m e A a B b C ia) as (m1 & Hrun & Hh1 & Hc1 & Hd1); [done|rewrite list.NoDup_cons, list.NoDup_app in *; set_solver|]. fold T in Hc1.
    set (T' := N e (N e A a B) b C) in *. destruct (rotate_end s m1 T T' d p t1 c k) as (m2 & Hrun2 & Hl2 & Hc2 & Hd2); try done; [|by destruct e..|].
    { eapply segment_changes; [exact Hc1| |done]. rewrite list.NoDup_cons, list.NoDup_app in Hnd. set_solver. }
    exists m2. split_and!; [|done| |by eapply same_data_trans].
    + change (if e then RotateLeft else RotateRight) with (once e). rewrite rotate_once, bind_assoc. replace (ptr T) with a by (symmetry; apply ptr_N). rewrite Hrun.
      rewrite bind_assoc. unfold T, T' in Hrun2. rewrite !ptr_N in Hrun2. exact Hrun2.
    + apply (changes_trans _ m m1); [|done]. eapply changes_mono; [exact Hc1|]. set_solver.
  - destruct Hl as (Hh & Hp & Hs & Hnd). pose proof Hh as (ia & Na & _)%hung_N. set (T := N e A a (N e (N e B z B') b C)) in *. set (T1 := N e A a (N e B z (N e B' b C))).
    assert (NoDup (0 :: nodes T)) as HndT by (rewrite list.NoDup_cons, list.NoDup_app in *; set_solver).
    assert (nodes T1 = nodes T) as HT1 by (unfold T1, T; destruct e; cbn; rewrite <- ?app_assoc; cbn; by rewrite <- ?app_assoc).
    destruct (run_rot_child s m e A a B z B' b C ia) as (m1 & i1 & Hrun & N1 & Hc1 & Hd1); [done|done|]. fold T in Hc1.
    destruct (run_rot s m1 e A a B z (N e B' b C) i1) as (m2 & Hrun2 & Hh2 & Hc2 & Hd2); [done|by fold T1; rewrite HT1|]. fold T1 in Hc2. rewrite HT1 in Hc2.
    set (T' := N e (N e A a B) z (N e B' b C)) in *. destruct (rotate_end s m2 T T' d p t1 c k) as (m3 & Hrun3 & Hl3 & Hc3 & Hd3); try done; [|by destruct e..|].
    { eapply segment_changes; [exact Hc2|rewrite list.NoDup_cons, list.NoDup_app in Hnd; set_solver|]. eapply segment_changes; [exact Hc1| |done].
      rewrite list.NoDup_cons, list.NoDup_app in Hnd. set_solver. }
    exists m3. split_and!; [|done| |by repeat (eapply same_data_trans; [eassumption|])].
    + change (if e then RotateRightLeft else RotateLeftRight) with (twice e). rewrite rotate_twice. replace (ptr T) with a by (symmetry; apply ptr_N).
      unfold T, T' in Hrun3. rewrite !ptr_N in Hrun3. rewrite <- Hrun3.
      transitivity ((let! newRoot := rot e a in replace_child p a newRoot ;;; write_if newRoot (set_parent p) ;;; k tt) (set_items m1 s)); [|by rewrite Hrun2].
      rewrite <- (Hrun _ (fun _ => let! newRoot := rot e a in replace_child p a newRoot ;;; write_if newRoot (set_parent p) ;;; k tt)).
      rewrite !bind_assoc. do 5 (apply bind_ext; intros ? ?; rewrite ?bind_assoc). done.
    + apply (changes_trans _ m m2); [|done]. apply (changes_trans _ m m1); (eapply changes_mono; [eassumption|]; set_solver).
Qed.

(** ** The way up *)

Lemma located_node m d t1 a t2 c : located m t2 ((d, a, t1) :: c) -> exists i, node m d t1 a t2 i /\ parent i = top c 0.
Proof. intros (Hh & Hp & (i & Hi & Hpi & _) & _). exists i. by split_and!. Qed.
Lemma located_height m d t1 a t2 c : located m t2 ((d, a, t1) :: c) -> located (alter (set_height (ht (N d t1 a t2))) a m) (N d t1 a t2) c.
Proof.
  intros Hl. destruct (located_node _ _ _ _ _ _ Hl) as (i & Hn & Hpi). destruct Hl as (Hh & Hp & (i' & Hi' & _ & Hs) & Hnd). cbn in Hnd.
  set (m' := alter _ a m). assert (NoDup (nodes (N d t1 a t2)) /\ (forall x, x ∈ path_nodes c -> x ∉ nodes (N d t1 a t2)) /\ NoDup (0 :: nodes (N d t1 a t2) ++ path_nodes c)) as (H1 & H2 & H3).
  { assert (NoDup (0 :: nodes (N d t1 a t2) ++ path_nodes c)) as H3.
    { rewrite nodes_N. cbn. rewrite (Permutation_app_comm (nodes t1)), <- app_assoc. by rewrite <- Permutation_middle in Hnd. }
    split_and!; [| |exact H3]; rewrite list.NoDup_cons, list.NoDup_app in H3; [tauto|]. destruct H3 as (_ & _ & H3 & _). intros x Hx Hn'. by apply (H3 x). }
  split_and!; [by apply (node_height _ _ _ _ _ i)| | |done].
  - right. rewrite ptr_N. eexists. split; [unfold m'; rewrite lookup_alter_eq; by destruct Hn as [[-> _ _ _ _ _] _]|done].
  - rewrite ptr_N. eapply (segment_changes [a]); [apply changes_alter; set_solver| |done]. intros x Hx%H2. rewrite nodes_N in Hx. set_solver.
Qed.

Definition fake_frame : bool * Z * shape := (false, fakeRoot, Leaf).

Section Rebalance.
Context (s : state) (m0 : gmap Z AVLItem) (choose : Z -> Z -> M state rotation) (P : path -> shape -> Prop).
Hypothesis step : forall m d a t1 t2 c, located m (N d t1 a t2) (c ++ [fake_frame]) -> same_data m0 m -> P ((d, a, t1) :: c) t2 ->
  exists r t', (forall T (k : rotation -> M state T), bind (choose a (balance_of d t1 t2)) k (set_items m s) = k r (set_items m s)) /\
    rotates r (N d t1 a t2) t' /\ P c t'.

Lemma rebalance_step n m d a t1 t2 c : located m t2 ((d, a, t1) :: c ++ [fake_frame]) -> same_data m0 m -> P ((d, a, t1) :: c) t2 ->
  exists m' t', rebalance choose (S n) a (set_items m s) = rebalance choose n (top (c ++ [fake_frame]) 0) (set_items m' s) /\
    located m' t' (c ++ [fake_frame]) /\ P c t' /\ nodes t' = nodes (N d t1 a t2) /\ changes (nodes t2 ++ path_nodes ((d, a, t1) :: c ++ [fake_frame])) m m' /\ same_data m m'.
Proof using step.
  intros Hl Hd HP. destruct (located_node _ _ _ _ _ _ Hl) as (i & Hn & Hpi). pose proof (located_height _ _ _ _ _ _ Hl) as Hl1.
  set (m1 := alter (set_height (ht (N d t1 a t2))) a m) in *. assert (same_data m m1) as Hd1 by by apply same_data_alter.
  destruct (step m1 d a t1 t2 c) as (r & t' & Hrun & Hr & HP'); [done|by eapply same_data_trans|done|].
  assert (exists d' p t3 c', c ++ [fake_frame] = (d', p, t3) :: c') as (d' & p & t3 & c' & Ec) by (destruct c as [|[[]]]; cbn; eauto).
  pose proof Hl1 as Hl1'. rewrite Ec in Hl1'.
  destruct (run_rotate s m1 r (N d t1 a t2) t' d' p t3 c' (fun _ => rebalance choose n p) Hl1' Hr) as (m2 & Hrun2 & Hl2 & Hc2 & Hd2).
  exists m2, t'. split_and!; [|by rewrite Ec|done|by eapply rotates_nodes| |by eapply same_data_trans].
  - cbn [rebalance]. assert (a <> fakeRoot) as Hne.
    { destruct Hl as (_ & _ & _ & Hnd). cbn in Hnd. rewrite path_nodes_app in Hnd. intros ->. apply list.NoDup_cons in Hnd as [_ (_ & _ & Hnd)%list.NoDup_app].
      apply list.NoDup_cons in Hnd as [Hnd _]. apply Hnd. cbn. set_solver. }
    destruct (Z.eqb_spec a fakeRoot); [done|]. rewrite (run_update_height s m d t1 a t2 i) by (done || (destruct Hl1 as (_ & _ & _ & Hnd); by apply NoDup_first in Hnd)).
    fold m1. rewrite (run_read s m1 a (set_height (ht (N d t1 a t2)) i)) by (unfold m1; rewrite lookup_alter_eq; by destruct Hn as [[-> _ _ _ _ _] _]).
    cbn [parent set_height]. rewrite Hpi, Hrun, Ec. cbn [top]. unfold rotate_here in Hrun2. by rewrite ptr_N in Hrun2.
  - apply (changes_trans _ m m1); [apply changes_alter; cbn; set_solver|]. eapply changes_mono; [exact Hc2|]. intros x. rewrite <- Ec, nodes_N. cbn. set_solver.
Qed.

Lemma run_rebalance n c : forall m t, (length c < n)%nat -> located m t (c ++ [fake_frame]) -> same_data m0 m -> P c t ->
  exists m' t', rebalance choose n (top (c ++ [fake_frame]) 0) (set_items m s) = (Ok tt, set_items m' s) /\
    located m' t' [fake_frame] /\ P [] t' /\ nodes t' = nodes (plug t c) /\ changes (nodes t ++ path_nodes (c ++ [fake_frame])) m m' /\ same_data m m'.
Proof using step.
  revert n. induction c as [|[[d a] t1] c IH]; intros n m t Hlt Hl Hd HP; (destruct n as [|n]; [cbn in Hlt; lia|]).
  { exists m, t. split_and!; try done. cbn. by rewrite Z.eqb_refl. }
  destruct (rebalance_step n m d a t1 t c) as (m1 & t' & Hrun & Hl1 & HP1 & Hn1 & Hc1 & Hd1); [done..|].
  destruct (IH n m1 t') as (m2 & t2 & Hrun2 & Hl2 & HP2 & Hn2 & Hc2 & Hd2); [cbn in Hlt; lia|done|by eapply same_data_trans|done|].
  exists m2, t2. split_and!; [|done|done| | |by eapply same_data_trans].
  - cbn [top app]. by rewrite Hrun.
  - cbn. destruct (plug_inorder c) as (l1 & l2 & Hc). by rewrite Hn2, !Hc, Hn1.
  - apply (changes_trans _ m m1); [done|]. eapply changes_mono; [exact Hc2|]. intros x. rewrite Hn1, nodes_N. cbn. set_solver.
Qed.
End Rebalance.

(** ** The item above the root *)

(** The data of all items but [a]. *)
Definition same_data_but (a : Z) m m' : Prop := forall b, b <> a -> data <$> m' !! b = data <$> m !! b.

Lemma run_add_fakeRoot s m t c : located m t c -> t <> Leaf -> root (tree s) = high (ptr t) c -> fakeRoot ∉ 0 :: nodes t ++ path_nodes c ->
  exists m', (forall A (k : unit -> M state A), bind add_fakeRoot k (set_items m s) = k tt (set_items m' s)) /\ located m' t (c ++ [fake_frame]) /\
    changes (fakeRoot :: nodes t ++ path_nodes c) m m' /\ same_data_but fakeRoot m m'.
Proof.
  intros (Hh & Hp & Hs & Hnd) Hne Hr Hf. set (r := root (tree s)) in *. set (F := MkItem 0 r 0 0 (if TREE_VALIDATE then tree_address else 0) (MakeKey 0 0) 0).
  set (m1 := alter (set_parent fakeRoot) r m). set (m' := <[fakeRoot := F]> m1). exists m'.
  assert (changes [fakeRoot] m1 m') as Hc' by (intros x Hx; unfold m'; rewrite lookup_insert_ne; [done|set_solver]).
  assert (NoDup (0 :: nodes t ++ path_nodes (c ++ [fake_frame]))) as Hnd'.
  { rewrite path_nodes_app, app_assoc. change (path_nodes [fake_frame]) with [fakeRoot]. rewrite app_comm_cons. apply list.NoDup_app. split_and!; [done|set_solver|apply NoDup_singleton]. }
  assert (side m' false r Leaf fakeRoot F) as HF by (split; try done; [apply lookup_insert_eq|by intros ETV; cbn; rewrite ETV|by left]).
  assert (r ∈ nodes t ++ path_nodes c /\ is_Some (m !! r) /\ hung m1 t /\ parent_is m1 t (top c fakeRoot) /\ segment m1 (ptr t) c fakeRoot) as (Hin & Hsome & Hh1 & Hp1 & Hs1).
  { rewrite list.NoDup_cons, list.NoDup_app in Hnd. destruct Hnd as (Hz & N1 & N2 & N3). destruct c as [|[[d a] t1] c _] using rev_ind.
    - cbn in Hr. rewrite Hr. pose proof (ptr_in t Hne) as Hin. destruct (hung_reparent m t fakeRoot) as [H1 H2]; [done|set_solver|done|].
      assert (m1 = alter_if (ptr t) (set_parent fakeRoot) m) as -> by (unfold m1, alter_if; rewrite Hr; destruct (Z.eqb_spec (ptr t) 0) as [E|]; [rewrite E in Hin; set_solver|done]).
      split_and!; [set_solver| |done|done|done]. destruct t; [done|]. destruct Hh as ((i & Hi & _) & _). by exists i.
    - rewrite high_app in Hr. cbn in Hr. apply segment_app in Hs as [Hs1 (i & Hi & Hpi & _)]. rewrite top_app in Hp. cbn in Hs1, Hp. rewrite path_nodes_app in *. cbn in *. rewrite app_nil_r in *. apply list.NoDup_app in N3 as (N3 & N4 & [N5 N6]%list.NoDup_cons).
      assert (changes [r] m m1) as Hc by (apply changes_alter; set_solver). rewrite Hr in Hc. split_and!.
      + set_solver.
      + rewrite Hr. destruct Hi. by eexists.
      + eapply hung_changes; [exact Hc|set_solver|done].
      + rewrite top_app. eapply parent_is_changes; [exact Hc|set_solver|done].
      + rewrite segment_app. split; [eapply segment_changes; [exact Hc|set_solver|done]|]. exists (set_parent fakeRoot i). split_and!; [|done|done].
        unfold m1. rewrite Hr. eapply side_alter; [exact Hi|done| |apply child_set_parent|done]. rewrite child_set_parent. apply Hi. }
  split; [|split; [unfold located; split_and!|split]].
  - intros A k. destruct Hsome as [i Hi]. unfold add_fakeRoot. rewrite bind_assoc. unfold bind at 1, get. cbn [tree set_items]. fold r.
    by rewrite bind_assoc, (run_write s m r i) by done.
  - eapply hung_changes; [exact Hc'|set_solver|done].
  - rewrite top_app. eapply parent_is_changes; [exact Hc'|set_solver|done].
  - apply segment_app. split; [eapply segment_changes; [exact Hc'|set_solver|done]|]. exists F. split_and!; [by rewrite <- Hr|done|done].
  - done.
  - apply (changes_trans _ m m1); [apply changes_alter; set_solver|]. eapply changes_mono; [exact Hc'|set_solver].
  - intros b Hb. unfold m'. rewrite lookup_insert_ne by done. by apply same_data_alter.
Qed.

Definition without_fakeRoot m (r : Z) : gmap Z AVLItem := delete fakeRoot (alter_if r (set_parent 0) m).

Lemma close_fakeRoot m t : located m t [fake_frame] -> let m' := without_fakeRoot m (ptr t) in
  (exists F, m !! fakeRoot = Some F /\ left F = ptr t) /\ (t = Leaf \/ exists i, m !! ptr t = Some i /\ parent i = fakeRoot) /\
  hung m' t /\ parent_is m' t 0 /\ m' !! fakeRoot = None /\ same_data_but fakeRoot m m' /\ changes (fakeRoot :: nodes t) m m'.
Proof.
  intros (Hh & Hp & (F & [HF HlF _ _ _ _] & _) & Hnd) m'. cbn in Hp, HlF. rewrite list.NoDup_cons, list.NoDup_app in Hnd. destruct Hnd as (Hz & N1 & N2 & N3). cbn in Hz, N2.
  destruct (hung_reparent m t 0) as [H1 H2]; [done|set_solver|done|].
  assert (changes [fakeRoot] (alter_if (ptr t) (set_parent 0) m) m') as Hc by (intros x Hx; unfold m', without_fakeRoot; rewrite lookup_delete_ne; [done|set_solver]).
  split_and!; [by exists F|done|eapply hung_changes; [exact Hc|set_solver|done]|eapply parent_is_changes; [exact Hc|set_solver|done]|apply lookup_delete_eq| |].
  - intros b Hb. unfold m', without_fakeRoot. rewrite lookup_delete_ne by done. by apply same_data_alter_if.
  - eapply changes_trans; [|eapply changes_mono; [exact Hc|set_solver]]. apply changes_alter_if. intros Hne. assert (ptr t ∈ nodes t) by (apply ptr_in; by intros ->). set_solver.
Qed.
End Balance.
