(* ===== verification/SharedTreeOrder.v ===== *)
(** * Keys and search trees

    [TreeCompare] has the sign of the lexicographic comparison [lex] of the values of keys.  A tree is [tree_ok] if its
    items are linked as a balanced shape in which they are ordered by their keys.  Then validation passes, and
    [TreeFind] finds what its modes promise. *)

From stdpp Require Import base gmap list sorting.
From S2P Require Import Prelude SharedTree SharedTreeShape.

(** ** The order of keys *)

Fixpoint lex (l1 l2 : list Z) : Z :=
  match l1, l2 with
  | [], [] => 0
  | [], _ :: _ => -1
  | _ :: _, [] => 1
  | x :: l1, y :: l2 => if x =? y then lex l1 l2 else if x <? y then -1 else 1
  end.

Lemma lex_refl l : lex l l = 0.
Proof. induction l; cbn; [done|]. by rewrite Z.eqb_refl. Qed.
Lemma lex_eq l1 l2 : lex l1 l2 = 0 -> l1 = l2.
Proof.
  revert l2. induction l1 as [|x l1 IH]; intros [|y l2]; cbn; try done. destruct (Z.eqb_spec x y) as [->|]; [by intros ->%IH|]. by destruct (x <? y).
Qed.
Lemma lex_flip l1 l2 : lex l2 l1 = - lex l1 l2.
Proof.
  revert l2. induction l1 as [|x l1 IH]; intros [|y l2]; cbn; try done. destruct (Z.eqb_spec x y), (Z.eqb_spec y x), (Z.ltb_spec x y), (Z.ltb_spec y x); try lia; done.
Qed.
Lemma lex_range l1 l2 : -1 <= lex l1 l2 <= 1.
Proof. revert l2. induction l1 as [|x l1 IH]; intros [|y l2]; cbn; try lia. destruct (x =? y); [done|]. destruct (x <? y); lia. Qed.
Lemma lex_trans l1 l2 l3 : lex l1 l2 <= 0 -> lex l2 l3 <= 0 -> lex l1 l3 <= 0.
Proof.
  revert l2 l3. induction l1 as [|x l1 IH]; intros [|y l2] [|z l3]; cbn; try lia.
  destruct (Z.eqb_spec x y), (Z.eqb_spec y z), (Z.eqb_spec x z), (Z.ltb_spec x y), (Z.ltb_spec y z), (Z.ltb_spec x z); subst; try lia; apply IH.
Qed.
Lemma lex_trans_lt l1 l2 l3 : lex l1 l2 <= 0 -> lex l2 l3 < 0 -> lex l1 l3 < 0.
Proof.
  intros H1 H2. assert (lex l1 l3 <= 0) by (apply (lex_trans _ l2); lia). destruct (Z.eq_dec (lex l1 l3) 0) as [E%lex_eq|]; [|lia]. subst l3.
  pose proof (lex_flip l1 l2). lia.
Qed.
Lemma lex_lt_trans l1 l2 l3 : lex l1 l2 < 0 -> lex l2 l3 <= 0 -> lex l1 l3 < 0.
Proof.
  intros H1 H2. assert (lex l1 l3 <= 0) by (apply (lex_trans _ l2); lia). destruct (Z.eq_dec (lex l1 l3) 0) as [E%lex_eq|]; [|lia]. subst l3.
  pose proof (lex_flip l1 l2). lia.
Qed.

Lemma sgn_tests c x : Z.sgn c = x -> (c =? 0) = (x =? 0) /\ (0 <? c) = (0 <? x) /\ (c <? 0) = (x <? 0) /\ (c <=? 0) = (x <=? 0).
Proof. intros <-. destruct c; done. Qed.

Section Order.
Context `{TreeSystem}.
Implicit Types (m : gmap Z AVLItem) (s : state).

(** ** Values of keys *)

Definition characters (p : Z) (n : nat) : list Z := map (fun i => char_at (p + Z.of_nat i)) (seq 0 n).
(** A null string is below all others. *)
Definition key_value (long : bool) (k : AVLKey) : list Z :=
  if long then if longKey k =? 0 then [] else 0 :: characters (longKey k) (Z.to_nat (longKeyBytes k)) else [shortKey k].
Definition valid_key (long : bool) (k : AVLKey) : Prop := 0 <= longKey k < 2 ^ 64 /\ (long = true -> 0 <= longKeyBytes k < 2 ^ 63).

Lemma characters_S p n : characters p (S n) = char_at p :: characters (p + 1) n.
Proof.
  unfold characters. cbn. rewrite Z.add_0_r. f_equal. rewrite <- seq_shift, map_map. apply map_ext. intros i. f_equal. lia.
Qed.

Lemma compare_strings_correct n p1 l1 p2 l2 s : (l1 + l2 < n)%nat ->
  exists c, compare_strings n p1 (Z.of_nat l1) p2 (Z.of_nat l2) s = (Ok c, s) /\ Z.sgn c = lex (characters p1 l1) (characters p2 l2).
Proof.
  revert p1 l1 p2 l2. induction n as [|n IH]; intros p1 l1 p2 l2 Hn; [lia|]. cbn [compare_strings].
  destruct l1 as [|l1], l2 as [|l2]; rewrite ?characters_S; [by eexists..|].
  destruct (Z.eqb_spec (Z.of_nat (S l1)) 0), (Z.eqb_spec (Z.of_nat (S l2)) 0); try lia. cbn.
  destruct (Z.eqb_spec (char_at p1) (char_at p2)) as [E|].
  - replace (Z.of_nat (S l1) - 1) with (Z.of_nat l1) by lia. replace (Z.of_nat (S l2) - 1) with (Z.of_nat l2) by lia. apply IH. lia.
  - eexists. split; [done|]. destruct (Z.ltb_spec (char_at p1) (char_at p2)); lia.
Qed.

Lemma EsStringCompareRaw_correct p1 l1 p2 l2 s :
  exists c, EsStringCompareRaw p1 (Z.of_nat l1) p2 (Z.of_nat l2) s = (Ok c, s) /\ Z.sgn c = lex (characters p1 l1) (characters p2 l2).
Proof.
  assert (exists c, (if (p1 =? p2) && (Z.of_nat l1 =? Z.of_nat l2) then ret 0
                     else compare_strings (S (Z.to_nat (Z.of_nat l1) + Z.to_nat (Z.of_nat l2))) p1 (Z.of_nat l1) p2 (Z.of_nat l2)) s = (Ok c, s) /\
                    Z.sgn c = lex (characters p1 l1) (characters p2 l2)) as Hc.
  { destruct (Z.eqb_spec p1 p2) as [->|]; [destruct (Z.eqb_spec (Z.of_nat l1) (Z.of_nat l2)) as [->%Nat2Z.inj|]|]; cbn [andb].
    1: exists 0; split; [done|]; by rewrite lex_refl.
    all: apply compare_strings_correct; lia. }
  unfold EsStringCompareRaw. destruct (Z.eqb_spec (Z.of_nat l1) (-1)), (Z.eqb_spec (Z.of_nat l2) (-1)); try lia. exact Hc.
Qed.

Lemma run_TreeCompare s m k1 k2 : valid_key (longKeys (tree s)) k1 -> valid_key (longKeys (tree s)) k2 ->
  exists c, (forall T (k : Z -> M state T), bind (TreeCompare k1 k2) k (set_items m s) = k c (set_items m s)) /\
    Z.sgn c = lex (key_value (longKeys (tree s)) k1) (key_value (longKeys (tree s)) k2).
Proof.
  intros [_ V1] [_ V2]. unfold TreeCompare, key_value, bind at 1 2, get. cbn [tree set_items]. destruct (longKeys (tree s)) eqn:EL.
  - specialize (V1 eq_refl). specialize (V2 eq_refl).
    destruct (Z.eqb_spec (longKey k1) 0), (Z.eqb_spec (longKey k2) 0); cbn [andb]; [by eexists..|].
    unfold s64. rewrite !(swrap_id 64) by lia. cbn [lex]. rewrite Z.eqb_refl.
    destruct (EsStringCompareRaw_correct (longKey k1) (Z.to_nat (longKeyBytes k1)) (longKey k2) (Z.to_nat (longKeyBytes k2)) (set_items m s)) as (c & Hc & Hs).
    rewrite !Z2Nat.id in Hc by lia. exists c. split; [|done]. intros T k. by rewrite Hc.
  - cbn [lex]. destruct (Z.ltb_spec (longKey k1) (longKey k2)), (Z.ltb_spec (longKey k2) (longKey k1)), (Z.eqb_spec (longKey k1) (longKey k2)); try lia; by eexists.
Qed.

(** ** Search trees *)

Definition value_of (long : bool) m (a : Z) : list Z := match m !! a with Some i => key_value long (key i) | None => [] end.
Definition sorted (long : bool) m (l : list Z) : Prop := StronglySorted (fun a b => lex (value_of long m a) (value_of long m b) <= 0) l.
Definition keys_valid (long : bool) m (l : list Z) : Prop := Forall (fun a => forall i, m !! a = Some i -> valid_key long (key i)) l.

Definition same_at m m' (a : Z) : Prop := data <$> m' !! a = data <$> m !! a.

Lemma value_of_at long m m' a : same_at m m' a -> value_of long m' a = value_of long m a.
Proof. unfold same_at, value_of. intros Hd. destruct (m' !! a), (m !! a); cbn in Hd; try done. injection Hd as _ Hk. by rewrite Hk. Qed.
Lemma sorted_at long m m' l : (forall a, a ∈ l -> same_at m m' a) -> sorted long m l -> sorted long m' l.
Proof.
  unfold sorted. intros Hd Hs. induction Hs as [|a l Hs IH Ha]; constructor; [apply IH; set_solver|]. rewrite list.Forall_forall in *. intros x Hx.
  rewrite !(value_of_at long m m') by (apply Hd; set_solver). by apply Ha.
Qed.
Lemma keys_valid_at long m m' l : (forall a, a ∈ l -> same_at m m' a) -> keys_valid long m l -> keys_valid long m' l.
Proof.
  unfold keys_valid. intros Hd Hv. rewrite list.Forall_forall in *. intros a Ha i Hi. specialize (Hd a Ha). unfold same_at in Hd. rewrite Hi in Hd.
  destruct (m !! a) as [j|] eqn:Ej; [|done]. injection Hd as _ ->. by apply (Hv a).
Qed.
Lemma value_of_same long m m' a : same_data m m' -> value_of long m' a = value_of long m a.
Proof. intros Hd. apply value_of_at, Hd. Qed.
Lemma keys_valid_same long m m' l : same_data m m' -> keys_valid long m l -> keys_valid long m' l.
Proof. intros Hd. apply keys_valid_at. intros a _. apply Hd. Qed.

(** What sortedness says at a node. *)
Lemma sorted_node long m l a r : sorted long m (l ++ a :: r) <->
  sorted long m l /\ sorted long m r /\ (forall x, x ∈ l -> lex (value_of long m x) (value_of long m a) <= 0) /\
  (forall x, x ∈ r -> lex (value_of long m a) (value_of long m x) <= 0).
Proof.
  unfold sorted. rewrite StronglySorted_app. split.
  - intros (Hlr & Hl & [Hr Ha]%StronglySorted_inv). rewrite list.Forall_forall in Ha. split_and!; try done. intros x Hx. apply Hlr; [done|]. by apply list_elem_of_here.
  - intros (Hl & Hr & H1 & H2). split_and!; [|done|constructor; [done|by apply list.Forall_forall]]. intros x y Hx [->|Hy]%elem_of_cons; [by apply H1|].
    eapply lex_trans; [by apply H1|by apply H2].
Qed.
Lemma keys_valid_node long m l a r : keys_valid long m (l ++ a :: r) <-> keys_valid long m l /\ (forall i, m !! a = Some i -> valid_key long (key i)) /\ keys_valid long m r.
Proof. unfold keys_valid. by rewrite list.Forall_app, list.Forall_cons. Qed.

(** The comparisons of the operations, at an item. *)
Lemma run_compare_key s m a i key1 : m !! a = Some i -> valid_key (longKeys (tree s)) (key i) -> valid_key (longKeys (tree s)) key1 ->
  exists c, (forall T (k : Z -> M state T), bind (TreeCompare (key i) key1) k (set_items m s) = k c (set_items m s)) /\
    Z.sgn c = lex (value_of (longKeys (tree s)) m a) (key_value (longKeys (tree s)) key1).
Proof. intros Hi V1 V2. unfold value_of. rewrite Hi. by apply run_TreeCompare. Qed.

(** ** Search *)

Definition found (mode : TreeSearchMode) (v : Z -> list Z) (k : list Z) (l : list Z) (r : Z) : Prop :=
  match mode with
  | TREE_SEARCH_EXACT => (r = 0 /\ forall a, a ∈ l -> v a <> k) \/ (r ∈ l /\ v r = k)
  | TREE_SEARCH_SMALLEST_ABOVE_OR_EQUAL =>
      (r = 0 /\ forall a, a ∈ l -> lex (v a) k < 0) \/
      (r ∈ l /\ 0 <= lex (v r) k /\ forall a, a ∈ l -> 0 <= lex (v a) k -> lex (v r) (v a) <= 0)
  | TREE_SEARCH_LARGEST_BELOW_OR_EQUAL =>
      (r = 0 /\ forall a, a ∈ l -> 0 < lex (v a) k) \/
      (r ∈ l /\ lex (v r) k <= 0 /\ forall a, a ∈ l -> lex (v a) k <= 0 -> lex (v a) (v r) <= 0)
  end.

Lemma found_here mode v k l r : r ∈ l -> v r = k -> found mode v k l r.
Proof.
  intros Hr Hk. destruct mode; cbn; right; [done| |]; rewrite Hk, lex_refl; split_and!; try done; intros a _ Ha; pose proof (lex_flip (v a) k); lia.
Qed.
Lemma found_cases mode v k l r : found mode v k l r -> r = 0 \/ r ∈ l.
Proof. destruct mode; cbn; tauto. Qed.

(** The result at a node from that of the subtree that is searched. *)
Section FoundNode.
Context (v : Z -> list Z) (k : list Z) (l r : list Z) (a b : Z).
Hypotheses (Hl : forall x, x ∈ l -> lex (v x) (v a) <= 0) (Hr : forall x, x ∈ r -> lex (v a) (v x) <= 0) (Hzl : 0 ∉ l) (Hzr : 0 ∉ r).

Lemma found_exact_right : lex (v a) k < 0 -> found TREE_SEARCH_EXACT v k r b -> found TREE_SEARCH_EXACT v k (l ++ a :: r) b.
Proof using Hl Hr Hzl Hzr.
  intros Ha [[-> Hn]|[Hin Hb]]; [left|right; set_solver]. split; [done|]. intros x [Hx|[->|Hx]%elem_of_cons]%elem_of_app.
  - intros <-. specialize (Hl x Hx). pose proof (lex_flip (v x) (v a)). lia.
  - intros <-. rewrite lex_refl in Ha. lia.
  - auto.
Qed.
Lemma found_exact_left : 0 < lex (v a) k -> found TREE_SEARCH_EXACT v k l b -> found TREE_SEARCH_EXACT v k (l ++ a :: r) b.
Proof using Hl Hr Hzl Hzr.
  intros Ha [[-> Hn]|[Hin Hb]]; [left|right; set_solver]. split; [done|]. intros x [Hx|[->|Hx]%elem_of_cons]%elem_of_app.
  - auto.
  - intros <-. rewrite lex_refl in Ha. lia.
  - intros <-. specialize (Hr x Hx). lia.
Qed.
Lemma below_left x : lex (v a) k < 0 -> x ∈ l -> lex (v x) k < 0.
Proof using Hl Hr Hzl Hzr. intros Ha Hx. eapply lex_trans_lt; eauto. Qed.
Lemma above_right x : 0 < lex (v a) k -> x ∈ r -> 0 < lex (v x) k.
Proof using Hl Hr Hzl Hzr.
  intros Ha Hx. pose proof (lex_flip (v a) k). pose proof (lex_flip (v x) k). assert (lex k (v x) < 0); [|lia]. eapply lex_lt_trans; [|by apply Hr]. lia.
Qed.
Lemma found_above_right : lex (v a) k < 0 -> found TREE_SEARCH_SMALLEST_ABOVE_OR_EQUAL v k r b -> found TREE_SEARCH_SMALLEST_ABOVE_OR_EQUAL v k (l ++ a :: r) b.
Proof using Hl Hr Hzl Hzr.
  intros Ha [[-> Hn]|(Hin & Hb & Hm)]; [left|right].
  - split; [done|]. intros x [Hx|[->|Hx]%elem_of_cons]%elem_of_app; [by apply below_left|done|auto].
  - split_and!; [set_solver|done|]. intros x [Hx%(below_left _ Ha)|[->|Hx]%elem_of_cons]%elem_of_app Hk; [lia|lia|auto].
Qed.
Lemma found_above_left : 0 < lex (v a) k -> found TREE_SEARCH_SMALLEST_ABOVE_OR_EQUAL v k l b ->
  found TREE_SEARCH_SMALLEST_ABOVE_OR_EQUAL v k (l ++ a :: r) (if b =? 0 then a else b).
Proof using Hl Hr Hzl Hzr.
  intros Ha [[-> Hn]|(Hin & Hb & Hm)]; right.
  - cbn. split_and!; [set_solver|lia|]. intros x [Hx|[->|Hx]%elem_of_cons]%elem_of_app Hk; [specialize (Hn x Hx); lia|by rewrite lex_refl|auto].
  - destruct (Z.eqb_spec b 0) as [->|]; [done|]. split_and!; [set_solver|done|]. intros x [Hx|[->|Hx]%elem_of_cons]%elem_of_app Hk; [auto|auto|].
    apply (lex_trans _ (v a)); auto.
Qed.
Lemma found_below_left : 0 < lex (v a) k -> found TREE_SEARCH_LARGEST_BELOW_OR_EQUAL v k l b -> found TREE_SEARCH_LARGEST_BELOW_OR_EQUAL v k (l ++ a :: r) b.
Proof using Hl Hr Hzl Hzr.
  intros Ha [[-> Hn]|(Hin & Hb & Hm)]; [left|right].
  - split; [done|]. intros x [Hx|[->|Hx]%elem_of_cons]%elem_of_app; [auto|done|by apply above_right].
  - split_and!; [set_solver|done|]. intros x [Hx|[->|Hx%(above_right _ Ha)]%elem_of_cons]%elem_of_app Hk; [auto|lia|lia].
Qed.
Lemma found_below_right : lex (v a) k < 0 -> found TREE_SEARCH_LARGEST_BELOW_OR_EQUAL v k r b ->
  found TREE_SEARCH_LARGEST_BELOW_OR_EQUAL v k (l ++ a :: r) (if b =? 0 then a else b).
Proof using Hl Hr Hzl Hzr.
  intros Ha [[-> Hn]|(Hin & Hb & Hm)]; right.
  - cbn. split_and!; [set_solver|lia|]. intros x [Hx|[->|Hx]%elem_of_cons]%elem_of_app Hk; [auto|by rewrite lex_refl|specialize (Hn x Hx); lia].
  - destruct (Z.eqb_spec b 0) as [->|]; [done|]. split_and!; [set_solver|done|]. intros x [Hx|[->|Hx]%elem_of_cons]%elem_of_app Hk; [|auto|auto].
    apply (lex_trans _ (v a)); auto.
Qed.
End FoundNode.

(** A subtree ready for a search. *)
Record searchable s m (t : shape) : Prop := {
  se_hung : hung m t;
  se_null : 0 ∉ nodes t;
  se_sorted : sorted (longKeys (tree s)) m (nodes t);
  se_keys : keys_valid (longKeys (tree s)) m (nodes t);
}.
Lemma searchable_node s m l a r : searchable s m (Node l a r) -> exists i, m !! a = Some i /\ left i = ptr l /\ right i = ptr r /\ height i = ht (Node l a r) /\ in_tree i /\
  valid_key (longKeys (tree s)) (key i) /\ parent_is m l a /\ parent_is m r a /\ searchable s m l /\ searchable s m r.
Proof.
  intros [((i & Hi & H1 & H2 & H3 & H4) & H5 & H6 & H7 & H8) Hz Hs Hk]. cbn in Hz, Hs, Hk. apply sorted_node in Hs as (Sl & Sr & _ & _).
  apply keys_valid_node in Hk as (Kl & Ka & Kr). exists i. split_and!; try done; [by apply Ka|split; (done || set_solver)..].
Qed.

Lemma run_find n s m t key1 mode : searchable s m t -> valid_key (longKeys (tree s)) key1 -> (length (nodes t) < n)%nat ->
  exists r, TreeFindRecursive n (ptr t) key1 mode (set_items m s) = (Ok r, set_items m s) /\
    found mode (value_of (longKeys (tree s)) m) (key_value (longKeys (tree s)) key1) (nodes t) r.
Proof.
  intros Hse Vk. revert n Hse. induction t as [|l IHl a r IHr]; intros n Hse Hn; (destruct n as [|n]; [lia|]).
  { exists 0. split; [done|]. destruct mode; left; (split; [done|]); intros ? []%elem_of_nil. }
  destruct (searchable_node _ _ _ _ _ Hse) as (i & Hi & Hli & Hri & _ & _ & Va & _ & _ & Hsl & Hsr). destruct Hse as [_ Hz Hso _]. cbn in Hz, Hso, Hn. rewrite length_app in Hn. cbn in Hn.
  assert (0 ∉ nodes l /\ 0 ∉ nodes r /\ a <> 0) as (Hzl & Hzr & Hza) by (split_and!; set_solver). apply sorted_node in Hso as (_ & _ & Hl & Hr).
  destruct (run_compare_key s m a i key1 Hi Va Vk) as (c & Hrun & Hc). destruct (sgn_tests _ _ Hc) as (T1 & T2 & T3 & _).
  cbn [TreeFindRecursive ptr]. destruct (Z.eqb_spec a 0); [done|]. rewrite (run_read s m a i), Hrun, T1 by done. set (v := value_of (longKeys (tree s)) m) in *. set (k := key_value _ key1) in *.
  destruct (Z.eqb_spec (lex (v a) k) 0) as [E|E].
  { exists a. split; [done|]. apply found_here; [cbn; set_solver|by apply lex_eq]. }
  destruct (IHl n Hsl) as (rl & Hrl & Fl); [lia|]. destruct (IHr n Hsr) as (rr & Hrr & Fr); [lia|].
  pose proof (lex_range (v a) k). destruct mode; rewrite Hrun, ?T2, ?T3.
  - destruct (Z.ltb_spec (lex (v a) k) 0); cbn [child]; rewrite ?Hli, ?Hri, ?Hrl, ?Hrr; eexists; (split; [done|]).
    + by apply found_exact_right.
    + apply found_exact_left; (done || lia).
  - destruct (Z.ltb_spec 0 (lex (v a) k)); rewrite ?Hli, ?Hri; unfold bind; rewrite ?Hrl, ?Hrr; eexists; (split; [done|]).
    + by apply found_above_left.
    + apply found_above_right; (done || lia).
  - destruct (Z.ltb_spec (lex (v a) k) 0); rewrite ?Hli, ?Hri; unfold bind; rewrite ?Hrl, ?Hrr; eexists; (split; [done|]).
    + by apply found_below_right.
    + apply found_below_left; (done || lia).
Qed.

(** ** Validation *)

Lemma run_check_child s m (l : shape) a i (test : Z -> bool) (k : unit -> M state Z) : searchable s m l -> m !! a = Some i -> valid_key (longKeys (tree s)) (key i) ->
  (forall x c, x ∈ nodes l -> Z.sgn c = lex (value_of (longKeys (tree s)) m x) (value_of (longKeys (tree s)) m a) -> test c = false) ->
  bind (if ptr l =? 0 then ret tt else let! il := read (ptr l) in let! c := TreeCompare (key il) (key i) in if test c then EsPanic else ret tt) k (set_items m s) = k tt (set_items m s).
Proof.
  intros Hse Hi Hv Ht. destruct l as [|l1 x l2]; [done|]. destruct (searchable_node _ _ _ _ _ Hse) as (ix & Hx & _ & _ & _ & _ & Vx & _).
  destruct Hse as [_ Hz _ _]. cbn in *. destruct (Z.eqb_spec x 0); [set_solver|]. rewrite bind_assoc, (run_read s m x ix) by done.
  destruct (run_compare_key s m x ix (key i) Hx Vx Hv) as (c & Hrun & Hc). rewrite bind_assoc, Hrun, (Ht x c); [done|set_solver|]. rewrite Hc. f_equal. unfold value_of. by rewrite Hi.
Qed.

Lemma run_validate n s m t p : searchable s m t -> TREE_VALIDATE = true -> parent_is m t p -> (length (nodes t) < n)%nat ->
  validate n (ptr t) p (set_items m s) = (Ok (ht t), set_items m s).
Proof.
  intros Hse Htv. revert n p Hse. induction t as [|l IHl a r IHr]; intros n p Hse Hp Hn; (destruct n as [|n]; [lia|]); [done|].
  destruct (searchable_node _ _ _ _ _ Hse) as (i & Hi & Hli & Hri & Hh & Ht & Va & Pl & Pr & Hsl & Hsr). destruct Hse as [_ Hz Hso _]. cbn in Hz, Hso, Hn. rewrite length_app in Hn. cbn in Hn.
  assert (a <> 0) as Hza by (intros ->; set_solver). apply sorted_node in Hso as (_ & _ & Hl & Hr). destruct Hp as [|(i' & Hi' & Hp)]; [done|]. cbn in Hi'. assert (i' = i) as -> by congruence.
  cbn [validate ptr]. destruct (Z.eqb_spec a 0); [done|]. rewrite (run_read s m a i) by done. rewrite Hp, Z.eqb_refl, (Ht Htv), Z.eqb_refl. cbn [negb]. rewrite Hli, Hri.
  rewrite (run_check_child s m l a i) by (try done; intros x c Hx Hc; specialize (Hl x Hx); lia). rewrite (run_check_child s m r a i) by (try done; intros x c Hx Hc; specialize (Hr x Hx); pose proof (lex_flip (value_of (longKeys (tree s)) m a) (value_of (longKeys (tree s)) m x)); lia).
  unfold bind. rewrite IHl by (done || lia). rewrite IHr by (done || lia). rewrite Hh. cbn. by rewrite Z.eqb_refl.
Qed.

(** ** Trees *)

Lemma hung_some m t a : hung m t -> a ∈ nodes t -> is_Some (m !! a).
Proof.
  induction t as [|l IHl b r IHr]; cbn; [set_solver|]. intros ((i & Hi & _) & _ & _ & Hl & Hr) [Ha|[->|Ha]%elem_of_cons]%elem_of_app; [auto|by eexists|auto].
Qed.
Lemma nodes_size {A} (m : gmap Z A) l : NoDup l -> (forall a, a ∈ l -> is_Some (m !! a)) -> (length l <= size m)%nat.
Proof.
  intros Hnd Hl. rewrite <- size_dom. rewrite <- (size_list_to_set (C := gset Z) l) by done. apply subseteq_size. intros a Ha%elem_of_list_to_set. by apply elem_of_dom, Hl.
Qed.

Record tree_ok (s : state) (t : shape) : Prop := {
  ok_hung : hung (items s) t;
  ok_parent : parent_is (items s) t 0;
  ok_root : root (tree s) = ptr t;
  ok_distinct : NoDup (0 :: fakeRoot :: nodes t);
  ok_null : items s !! 0 = None;
  ok_fakeRoot : items s !! fakeRoot = None;
  ok_balanced : balanced t;
  ok_sorted : sorted (longKeys (tree s)) (items s) (nodes t);
  ok_keys : keys_valid (longKeys (tree s)) (items s) (nodes t);
  ok_modCheck : modCheck (tree s) = false;
}.

Lemma tree_ok_searchable s t : tree_ok s t -> searchable s (items s) t.
Proof. intros []. split; try done. apply list.NoDup_cons in ok_distinct0. set_solver. Qed.
Lemma tree_ok_NoDup s t : tree_ok s t -> NoDup (nodes t).
Proof. intros []. by apply list.NoDup_cons in ok_distinct0 as [_ [_ ?]%list.NoDup_cons]. Qed.
Lemma tree_ok_fuel s t : tree_ok s t -> (length (nodes t) < tree_fuel s)%nat.
Proof.
  intros Hok. unfold tree_fuel. assert (length (nodes t) <= size (items s))%nat; [|lia]. apply nodes_size; [by apply (tree_ok_NoDup s)|intros a; apply hung_some, Hok].
Qed.

(** Validation passes, and changes nothing. *)
Lemma run_TreeValidate {A} s m t (k : Z -> M state A) : searchable s m t -> parent_is m t 0 -> NoDup (nodes t) ->
  bind (TreeValidate (ptr t)) k (set_items m s) = k (if TREE_VALIDATE then ht t else 0) (set_items m s).
Proof.
  intros Hse Hp Hnd. unfold TreeValidate. destruct TREE_VALIDATE eqn:ET; [|done]. unfold bind, get. rewrite (run_validate _ s m t 0); [done..|].
  unfold tree_fuel. cbn [items set_items]. assert (length (nodes t) <= size m)%nat; [|lia]. apply nodes_size; [done|]. intros a. apply hung_some, Hse.
Qed.
Lemma run_validate_tree {A} s t (k : Z -> M state A) : tree_ok s t -> bind (TreeValidate (root (tree s))) k s = k (if TREE_VALIDATE then ht t else 0) s.
Proof.
  intros Hok. rewrite (ok_root _ _ Hok). rewrite <- (set_items_id s) at 1. rewrite run_TreeValidate; [by rewrite set_items_id|by apply tree_ok_searchable|apply Hok|by apply (tree_ok_NoDup s)].
Qed.

Lemma tree_ok_located s t : tree_ok s t -> located (items s) t [].
Proof.
  intros []. split_and!; [done|done|done|]. cbn. rewrite app_nil_r. apply list.NoDup_cons in ok_distinct0 as [Hz [_ Hn]%list.NoDup_cons]. apply list.NoDup_cons. set_solver.
Qed.

(** C25. [TreeFind] returns an item with the key if there is one, and otherwise, by the mode, nothing, the first item with a larger key or the last one with a
    smaller key (0 if there is none); it changes nothing, and never fails. *)
Theorem TreeFind_correct s t key1 mode : tree_ok s t -> valid_key (longKeys (tree s)) key1 ->
  exists r, TreeFind key1 mode s = (Ok r, s) /\
    found mode (value_of (longKeys (tree s)) (items s)) (key_value (longKeys (tree s)) key1) (nodes t) r.
Proof.
  intros Hok Hv. destruct (run_find (tree_fuel s) s (items s) t key1 mode) as (r & Hr & Hf); [by apply tree_ok_searchable|done|by apply tree_ok_fuel|].
  exists r. split; [|done]. unfold TreeFind, bind at 1, get. rewrite (ok_modCheck _ _ Hok), (run_validate_tree s t) by done. rewrite (ok_root _ _ Hok).
  by rewrite set_items_id in Hr.
Qed.
End Order.
