(* ===== verification/SharedTreeInsert.v ===== *)
(** * Insertion

    The way down compares keys, so the path above the new item says on which side of each item its key is; the way up
    uses the same comparisons to choose rotations.  [TreeInsert] puts the item in front of the first one whose key is not
    smaller, or refuses a key that is there already, as the policy says. *)

From stdpp Require Import base gmap list sorting.
From S2P Require Import Prelude SharedTree SharedTreeShape SharedTreeBalance SharedTreeOrder.

Section Insert.
Context `{TreeSystem}.
Implicit Types (m : gmap Z AVLItem) (s : state).

(** ** The way up *)

(** The side of an item that the key belongs to. *)
Definition side_of (long : bool) (k : AVLKey) m (a : Z) : bool := 0 <? lex (key_value long k) (value_of long m a).
Definition towards (long : bool) (k : AVLKey) m (c : path) : Prop := Forall (fun '(d, a, _) => d = side_of long k m a) c.

(** The subtree with the new item is as high as before, or one higher, on the side of the key. *)
Definition grown (long : bool) (k : AVLKey) m0 (h0 : Z) (t : shape) : Prop :=
  ht t = h0 \/ ht t = h0 + 1 /\ (h0 = 0 \/ exists t1 a t2, t = N (side_of long k m0 a) t1 a t2 /\ ht t2 = ht t1 + 1).
Definition inserting (long : bool) (k : AVLKey) m0 (c : path) (t : shape) : Prop :=
  towards long k m0 c /\ keys_valid long m0 (nodes t ++ path_nodes c) /\ balanced t /\ exists h0, fits h0 c /\ grown long k m0 h0 t.

Lemma side_of_same long k m m' a : same_data m m' -> side_of long k m' a = side_of long k m a.
Proof. intros Hd. unfold side_of. by rewrite (value_of_same long m m'). Qed.

Lemma run_compare_child s m d t1 a t2 i k : node m d t1 a t2 i -> t2 <> Leaf -> valid_key (longKeys (tree s)) k -> keys_valid (longKeys (tree s)) m (nodes t2) ->
  exists c, (forall T (f : Z -> M state T), bind (compare_child k d a) f (set_items m s) = f c (set_items m s)) /\
    (0 <? c) = side_of (longKeys (tree s)) k m (ptr t2) /\ (c <=? 0) = negb (side_of (longKeys (tree s)) k m (ptr t2)).
Proof.
  intros ([Hi Hc _ _ _ _] & _ & Hh) Hne Hv Hk. assert (exists j, m !! ptr t2 = Some j) as [j Hj].
  { destruct t2; [done|]. destruct Hh as ((j & Hj & _) & _). by exists j. }
  unfold keys_valid in Hk. rewrite list.Forall_forall in Hk. specialize (Hk (ptr t2) (ptr_in _ Hne) j Hj).
  destruct (run_TreeCompare s m k (key j)) as (c & Hrun & Hs); [done|done|]. exists c. split.
  - intros T f. unfold compare_child. rewrite bind_assoc, (run_read s m a i), Hc, bind_assoc, (run_read s m (ptr t2) j) by done. apply Hrun.
  - apply sgn_tests in Hs as (_ & H2 & _ & H4). unfold side_of, value_of. rewrite Hj, H2, H4. split; [done|]. by rewrite Z.leb_antisym.
Qed.

(** The rotation that is chosen when the side of the key is two higher. *)
Lemma run_insert_rotation s m d t1 a t2 b u1 u2 i k : let e := side_of (longKeys (tree s)) k m b in
  node m d t1 a t2 i -> t2 = N e u1 b u2 -> u2 <> Leaf -> 0 ∉ nodes t2 -> valid_key (longKeys (tree s)) k -> keys_valid (longKeys (tree s)) m (nodes t2) -> ht t2 = ht t1 + 2 ->
  forall T (f : rotation -> M state T), bind (insert_rotation k a (balance_of d t1 t2)) f (set_items m s) = f (if bool_decide (e = d) then once d else twice d) (set_items m s).
Proof.
  intros e Hn Et Hu Hz Hv Hk Hht T f. assert (t2 <> Leaf) as Hne by (rewrite Et; by destruct e).
  destruct (run_compare_child s m d t1 a t2 i k) as (c & Hrun & C1 & C2); [done..|]. rewrite Et, ptr_N in C1, C2. fold e in C1, C2.
  pose proof Hn as ([Hi Hc _ _ _ _] & _ & Hh). unfold insert_rotation. rewrite bind_assoc, (run_read s m a i) by done. rewrite Et, ptr_N in Hc.
  assert (exists j, m !! b = Some j /\ child e j = ptr u2) as (j & Hj & Hcj).
  { rewrite Et in Hh. apply hung_N in Hh as (j & ([Hj Hcj _ _ _ _] & _) & _). by exists j. }
  assert ((ptr u2 =? 0) = false) as Hu0.
  { apply Z.eqb_neq. intros E. pose proof (ptr_in u2 Hu) as Hin. rewrite E in Hin. apply Hz. rewrite Et, nodes_N. set_solver. }
  unfold balance_of. destruct d; cbn in Hc; rewrite Hc.
  - destruct (Z.ltb_spec 1 (ht t1 - ht t2)), (Z.ltb_spec (ht t1 - ht t2) (-1)); try lia. rewrite bind_assoc, Hrun, C1. destruct e; cbn in Hcj; cbn [bool_decide]; [done|].
    rewrite bind_assoc, (run_read s m b j), Hcj, Hu0 by done. done.
  - destruct (Z.ltb_spec 1 (ht t2 - ht t1)); try lia. rewrite bind_assoc, Hrun, C2. destruct e; cbn in Hcj; cbn [bool_decide negb]; [|done].
    rewrite bind_assoc, (run_read s m b j), Hcj, Hu0 by done. done.
Qed.

Lemma keys_valid_perm long m l l' : l ≡ₚ l' -> keys_valid long m l -> keys_valid long m l'.
Proof. unfold keys_valid. by intros ->. Qed.
Lemma keys_valid_up long m d t1 a t2 c : keys_valid long m (nodes t2 ++ path_nodes ((d, a, t1) :: c)) -> keys_valid long m (nodes (N d t1 a t2) ++ path_nodes c).
Proof. apply keys_valid_perm. rewrite nodes_N. cbn. rewrite <- Permutation_middle. f_equiv. rewrite !app_assoc. f_equiv. apply Permutation_app_comm. Qed.
Lemma run_no_insert_rotation {A} s m k a b (f : rotation -> M state A) : is_Some (m !! a) -> -1 <= b <= 1 -> bind (insert_rotation k a b) f (set_items m s) = f NoRotation (set_items m s).
Proof.
  intros [i Hi] Hb. unfold insert_rotation. rewrite bind_assoc, (run_read s m a i) by done. destruct (Z.ltb_spec 1 b), (Z.ltb_spec b (-1)); try lia. done.
Qed.
Lemma balance_of_range d t1 t2 : -1 <= balance_of d t1 t2 <= 1 <-> -1 <= ht t1 - ht t2 <= 1.
Proof. destruct d; cbn; lia. Qed.

(** Without a rotation. *)
Lemma inserting_up long k m0 d a t1 t2 c : inserting long k m0 ((d, a, t1) :: c) t2 -> -1 <= ht t1 - ht t2 <= 1 -> inserting long k m0 c (N d t1 a t2).
Proof.
  intros ([Hd Hc]%list.Forall_cons & Hk & Hb & h0 & (B1 & B2 & Hf) & Hg) Hbal. split_and!; [done|by apply keys_valid_up|by apply balanced_N|].
  eexists. split; [exact Hf|]. unfold grown. rewrite ht_N. destruct Hg as [Hg|[Hg Hl]]; [left; lia|]. destruct (Z.eq_dec (ht t1) h0) as [E|]; [|left; lia].
  right. split; [lia|]. right. exists t1, a, t2. rewrite <- Hd. split; [done|lia].
Qed.

(** With one. *)
Lemma inserting_rotate long k m0 d a t1 t2 c : inserting long k m0 ((d, a, t1) :: c) t2 -> ht t2 = ht t1 + 2 ->
  exists u1 b u2 t', let e := side_of long k m0 b in t2 = N e u1 b u2 /\ u2 <> Leaf /\ rotates (if bool_decide (e = d) then once d else twice d) (N d t1 a t2) t' /\
    inserting long k m0 c t'.
Proof.
  intros ([Hd Hc]%list.Forall_cons & Hk & Hb & h0 & (B1 & B2 & Hf) & Hg) Hht. pose proof (ht_nonneg t1). apply keys_valid_up in Hk.
  destruct Hg as [Hg|[Hg [->|(u1 & b & u2 & Et & Hu)]]]; [lia|lia|]. set (e := side_of long k m0 b) in *. exists u1, b, u2.
  assert (u2 <> Leaf) as Hne by (intros ->; cbn in Hu; pose proof (ht_nonneg u1); lia). rewrite Et, ht_N in Hht, Hg. rewrite Et in Hb. apply balanced_N in Hb as (_ & Bu1 & Bu2).
  destruct (decide (e = d)) as [Ee|Ee].
  - assert (rotates (once d) (N d t1 a t2) (N d (N d t1 a u1) b u2)) as Hr by (rewrite Et, Ee; apply rotates_once).
    exists (N d (N d t1 a u1) b u2). cbv zeta. fold e. rewrite bool_decide_true by done. split_and!; [done|done|done|]. split_and!; [done| | |].
    + eapply keys_valid_perm; [|exact Hk]. by rewrite (rotates_nodes _ _ _ Hr).
    + rewrite !balanced_N, !ht_N. split_and!; (done || lia).
    + eexists. split; [exact Hf|]. left. rewrite !ht_N. lia.
  - assert (e = negb d) as Ee' by (by destruct e, d). assert (exists B z B', u2 = N d B z B') as (B & z & B' & Eu) by (destruct u2 as [|u z u']; [done|]; destruct d; [by exists u, z, u'|by exists u', z, u]).
    assert (t2 = N d (N d B z B') b u1) as Et' by by rewrite Et, Ee', N_flip, Eu.
    assert (rotates (twice d) (N d t1 a t2) (N d (N d t1 a B) z (N d B' b u1))) as Hr by (rewrite Et'; apply rotates_twice).
    exists (N d (N d t1 a B) z (N d B' b u1)). cbv zeta. fold e. rewrite bool_decide_false by done. split_and!; [done|done|done|]. rewrite Eu, ht_N in Hu, Hht, Hg. rewrite Eu, balanced_N in Bu2.
    split_and!; [done| | |].
    + eapply keys_valid_perm; [|exact Hk]. by rewrite (rotates_nodes _ _ _ Hr).
    + rewrite !balanced_N, !ht_N. split_and!; (tauto || lia).
    + eexists. split; [exact Hf|]. left. rewrite !ht_N. lia.
Qed.

Lemma inserting_step s m0 k m d a t1 t2 c : valid_key (longKeys (tree s)) k -> located m (N d t1 a t2) (c ++ [fake_frame]) -> same_data m0 m ->
  inserting (longKeys (tree s)) k m0 ((d, a, t1) :: c) t2 ->
  exists r t', (forall T (f : rotation -> M state T), bind (insert_rotation k a (balance_of d t1 t2)) f (set_items m s) = f r (set_items m s)) /\
    rotates r (N d t1 a t2) t' /\ inserting (longKeys (tree s)) k m0 c t'.
Proof.
  intros Hv Hl Hd Hi. pose proof Hl as ((i & Hn & _)%hung_N & _ & _ & Hnd%NoDup_first). destruct (decide (-1 <= ht t1 - ht t2 <= 1)) as [Hbal|Hbal].
  { exists NoRotation, (N d t1 a t2). split_and!; [|constructor|by apply inserting_up].
    intros T f. apply run_no_insert_rotation; [destruct Hn as [[Hia _ _ _ _ _] _]; by eexists|by apply balance_of_range]. }
  assert (ht t2 = ht t1 + 2) as Hht by (destruct Hi as (_ & _ & _ & h0 & (_ & B2 & _) & [Hg|[Hg _]]); lia).
  destruct (inserting_rotate _ _ _ _ _ _ _ _ Hi Hht) as (u1 & b & u2 & t' & Et & Hne & Hr & Hi'). exists (if bool_decide (side_of (longKeys (tree s)) k m0 b = d) then once d else twice d), t'.
  split_and!; [|done|done]. intros T f. rewrite <- (side_of_same _ k m0 m b) in * by done.
  apply (run_insert_rotation s m d t1 a t2 b u1 u2 i k); try done; [rewrite nodes_N in Hnd; apply list.NoDup_cons in Hnd; set_solver|].
  eapply keys_valid_same; [exact Hd|]. destruct Hi as (_ & Hk & _). by apply list.Forall_app in Hk as [? _].
Qed.

(** ** The way down *)

Definition link_of (c : path) : link := match c with [] => RootLink | (d, a, _) :: _ => ChildLink a d end.
Definition attach (item : Z) (c : path) : M state bool := write_link (link_of c) item ;;; write item (set_parent (top c 0)) ;;; ret true.

Lemma attach_true item c s b s' : attach item c s = (Ok b, s') -> b = true.
Proof. unfold attach, bind, ret. destruct (write_link (link_of c) item s) as [[]]; [|done..]. destruct (write item _ _) as [[]]; [|done..]. by intros [= <-]. Qed.
Lemma run_read_link {A} s m h c (k : Z -> M state A) : segment m h c 0 -> root (tree s) = high h c -> bind (read_link (link_of c)) k (set_items m s) = k h (set_items m s).
Proof.
  destruct c as [|[[d a] t1] c]; cbn.
  - intros _ <-. done.
  - intros (i & [Hi Hc _ _ _ _] & _) _. rewrite bind_assoc, (run_read s m a i) by done. by rewrite Hc.
Qed.

Definition refused (policy : AVLDuplicateKeyPolicy) (s : state) : outcome bool * state :=
  match policy with AVL_DUPLICATE_KEYS_PANIC => (Stop FatalError, s) | _ => (Ok false, s) end.

Definition descended (policy : AVLDuplicateKeyPolicy) (n : nat) (item : Z) (k : AVLKey) s m (t : shape) (c : path) : Prop :=
  let same a := value_of (longKeys (tree s)) m a = key_value (longKeys (tree s)) k in
  (policy <> AVL_DUPLICATE_KEYS_ALLOW /\ (exists a, a ∈ nodes t /\ same a) /\ descend policy n item (link_of c) (top c 0) (set_items m s) = refused policy (set_items m s)) \/
  ((policy = AVL_DUPLICATE_KEYS_ALLOW \/ forall a, a ∈ nodes t -> ~ same a) /\
   exists c', plug Leaf c' = t /\ towards (longKeys (tree s)) k m c' /\ descend policy n item (link_of c) (top c 0) (set_items m s) = attach item (c' ++ c) (set_items m s)).

Lemma descended_down policy n item k s m d t1 a t2 c : sorted (longKeys (tree s)) m (nodes (N d t1 a t2)) -> d = side_of (longKeys (tree s)) k m a ->
  (policy = AVL_DUPLICATE_KEYS_ALLOW \/ value_of (longKeys (tree s)) m a <> key_value (longKeys (tree s)) k) ->
  descend policy (S n) item (link_of c) (top c 0) (set_items m s) = descend policy n item (ChildLink a d) a (set_items m s) ->
  descended policy n item k s m t2 ((d, a, t1) :: c) -> descended policy (S n) item k s m (N d t1 a t2) c.
Proof.
  intros Hs Hd Hne Hrun [(Hp & (b & Hb & Hsame) & Hr)|(Hp & c' & Hc' & Ht & Hr)].
  - left. split_and!; [done| |by rewrite Hrun]. exists b. split; [|done]. rewrite nodes_N. set_solver.
  - right. split; [|exists (c' ++ [(d, a, t1)])].
    + destruct Hp as [Hp|Hp]; [by left|]. destruct Hne as [Hne|Hne]; [by left|]. right. intros b Hb E. rewrite nodes_N, elem_of_cons, elem_of_app in Hb. destruct Hb as [->|[Hb|Hb]]; [done| |by apply (Hp b)].
      unfold side_of in Hd. rewrite <- E in Hd, Hne. pose proof (lex_flip (value_of (longKeys (tree s)) m b) (value_of (longKeys (tree s)) m a)) as Hf.
      destruct (Z.eq_dec (lex (value_of (longKeys (tree s)) m b) (value_of (longKeys (tree s)) m a)) 0) as [E'%lex_eq|Hne']; [by rewrite E' in Hne|].
      destruct d; cbn in Hs; apply sorted_node in Hs as (_ & _ & H1 & H2); [specialize (H1 b Hb)|specialize (H2 b Hb)]; destruct (Z.ltb_spec 0 (lex (value_of (longKeys (tree s)) m b) (value_of (longKeys (tree s)) m a))); (done || lia).
    + split_and!; [by rewrite plug_app, Hc'| |by rewrite <- app_assoc, Hrun]. apply list.Forall_app. split; [done|]. by constructor.
Qed.

Lemma run_descend policy n item i k s m t c : m !! item = Some i -> key i = k -> valid_key (longKeys (tree s)) k -> located m t c -> root (tree s) = high (ptr t) c ->
  sorted (longKeys (tree s)) m (nodes t) -> keys_valid (longKeys (tree s)) m (nodes t) -> (length (nodes t) < n)%nat -> descended policy n item k s m t c.
Proof.
  intros Hi Hk Hv. revert t c. induction n as [|n IH]; intros t c Hl Hr Hs Hks Hn; [lia|]. pose proof Hl as (Hh & _ & Hseg & Hnd%NoDup_first).
  destruct t as [|l a r].
  { right. split; [right; by intros ? ?%elem_of_nil|]. exists []. split_and!; [done|constructor|]. cbn [descend]. by rewrite (run_read_link s m 0 c). }
  pose proof Hks as (_ & Va & _)%keys_valid_node. pose proof Hh as ((ia & Hia & _) & _). specialize (Va _ Hia). cbn in Hn. rewrite length_app in Hn. cbn in Hn.
  assert (a <> 0) as Hza by (apply list.NoDup_cons in Hnd as [Hz _]; intros ->; apply Hz; cbn; set_solver).
  destruct (run_TreeCompare s m k (key ia) Hv Va) as (x & Hrun & Hx). destruct (sgn_tests _ _ Hx) as (T1 & T2 & _). set (d := side_of (longKeys (tree s)) k m a).
  assert ((0 <? x) = d) as Ed by (unfold d, side_of, value_of; by rewrite Hia, T2).
  assert (descend policy (S n) item (link_of c) (top c 0) (set_items m s) =
    (if x =? 0 then match policy with AVL_DUPLICATE_KEYS_PANIC => EsPanic | AVL_DUPLICATE_KEYS_FAIL => ret false | AVL_DUPLICATE_KEYS_ALLOW => descend policy n item (ChildLink a d) a end
     else descend policy n item (ChildLink a d) a) (set_items m s)) as Hstep.
  { cbn [descend]. rewrite (run_read_link s m a c) by done. destruct (Z.eqb_spec a 0); [done|]. rewrite (run_read s m item i), (run_read s m a ia), Hk, Hrun by done.
    destruct (x =? 0), policy; rewrite ?Hrun, ?Ed; done. }
  assert (value_of (longKeys (tree s)) m a = key_value (longKeys (tree s)) (key ia)) as Ev by (unfold value_of; by rewrite Hia).
  assert (exists t1 t2, Node l a r = N d t1 a t2 /\ (length (nodes t2) < n)%nat) as (t1 & t2 & Et & Hn2) by (destruct d; [exists l, r|exists r, l]; split; (done || lia)).
  assert (descended policy n item k s m t2 ((d, a, t1) :: c)) as Hdown.
  { rewrite Et in Hl, Hs, Hks, Hr. rewrite ptr_N in Hr. apply IH; [by apply located_down|done| | |done].
    - destruct d; apply sorted_node in Hs; tauto.
    - destruct d; apply keys_valid_node in Hks; tauto. }
  rewrite Et in *. destruct (Z.eqb_spec x 0) as [E|E].
  - rewrite E in Hx. symmetry in Hx. apply lex_eq in Hx. destruct policy; [left| |left].
    + split_and!; [done| |done]. exists a. split; [rewrite nodes_N; set_solver|by rewrite Ev].
    + apply descended_down; [done|done|by left|done|done].
    + split_and!; [done| |done]. exists a. split; [rewrite nodes_N; set_solver|by rewrite Ev].
  - apply descended_down; [done|done| |done|done]. right. rewrite Ev. intros E'. rewrite E', lex_refl in Hx. lia.
Qed.

(** The new item at the end of the path. *)
Lemma run_attach s m c item i : located m Leaf c -> root (tree s) = high 0 c -> m !! item = Some i -> left i = 0 -> right i = 0 -> height i = 1 -> in_tree i ->
  item ∉ 0 :: path_nodes c ->
  exists m', attach item c (set_items m s) = (Ok true, set_items m' (set_root (high item c) s)) /\ located m' (Node Leaf item Leaf) c /\
    changes (item :: path_nodes c) m m' /\ same_data m m'.
Proof.
  intros (_ & _ & Hs & Hnd) Hr Hi Hl Hri Hht Ht Hn.
  assert (forall m1, m1 !! item = Some i -> hung (alter (set_parent (top c 0)) item m1) (Node Leaf item Leaf) /\ parent_is (alter (set_parent (top c 0)) item m1) (Node Leaf item Leaf) (top c 0)) as Hnew.
  { intros m1 Hi1. split; [split; [|split_and!; (done || by left)]|right]; exists (set_parent (top c 0) i); cbn [ptr]; rewrite lookup_alter_eq, Hi1; done. }
  assert (NoDup (0 :: nodes (Node Leaf item Leaf) ++ path_nodes c)) as Hnd' by (cbn in *; rewrite !list.NoDup_cons in *; set_solver).
  destruct c as [|[[d a] t1] c].
  - exists (alter (set_parent 0) item m). split; [|split; [unfold located; split_and!|split]].
    + unfold attach, link_of, write_link. cbn. change (set_root item (set_items m s)) with (set_items m (set_root item s)). by rewrite (run_write (set_root item s) m item i).
    + by apply Hnew.
    + by apply Hnew.
    + done.
    + done.
    + apply changes_alter. set_solver.
    + by apply same_data_alter.
  - pose proof Hs as (ia & Ha & Hpa & Hs'). cbn in Hn, Hnd. set (m1 := alter (set_child d item) a m). exists (alter (set_parent a) item m1).
    assert (changes [a] m m1) as C1 by (apply changes_alter; set_solver). assert (m1 !! item = Some i) as Hi1 by (rewrite C1 by set_solver; done).
    assert (changes [item] m1 (alter (set_parent a) item m1)) as C2 by (apply changes_alter; set_solver).
    assert (segment m1 item ((d, a, t1) :: c) 0) as Hs1.
    { exists (set_child d item ia). rewrite parent_set_child. split_and!; [|done|].
      - eapply side_alter; [exact Ha| |apply child_set|apply child_set_other|apply inTree_set_child]. rewrite !list.NoDup_cons in Hnd. set_solver.
      - eapply segment_changes; [exact C1| |done]. rewrite !list.NoDup_cons in Hnd. set_solver. }
    split; [|split; [unfold located; split_and!|split]].
    + unfold attach. cbn [link_of write_link top]. rewrite (run_write s m a ia) by apply Ha. fold m1. rewrite (run_write s m1 item i) by done.
      cbn [high] in *. rewrite <- Hr. unfold set_root, ret. by destruct s as [? []].
    + by apply Hnew.
    + by apply Hnew.
    + eapply segment_changes; [exact C2|cbn; set_solver|exact Hs1].
    + done.
    + apply (changes_trans _ m m1); [eapply changes_mono; [exact C1|]|eapply changes_mono; [exact C2|]]; cbn; set_solver.
    + eapply same_data_trans; [|by apply same_data_alter]. apply same_data_alter. intros j. apply data_set_child.
Qed.

(** ** The place of the new item *)

Lemma towards_at long k m m' c : (forall a, a ∈ path_nodes c -> same_at m m' a) -> towards long k m c -> towards long k m' c.
Proof.
  unfold towards. intros Hd. induction c as [|[[d a] t] c IH]; [done|]. rewrite !list.Forall_cons. cbn in Hd. intros [Ha Hc]. split; [|apply IH; [set_solver|done]].
  unfold side_of in *. rewrite (value_of_at long m m'); [done|]. apply Hd. set_solver.
Qed.

Lemma towards_place long k m c : towards long k m c -> sorted long m (nodes (plug Leaf c)) ->
  exists l1 l2, (forall t, nodes (plug t c) = l1 ++ nodes t ++ l2) /\ (forall a, a ∈ l1 -> lex (value_of long m a) (key_value long k) < 0) /\
    (forall a, a ∈ l2 -> 0 <= lex (value_of long m a) (key_value long k)).
Proof.
  induction c as [|[[d a] s] c IH]; intros Ht Hs.
  { exists [], []. split_and!; [intros t; cbn; by rewrite app_nil_r|by intros ? ?%elem_of_nil..]. }
  apply list.Forall_cons in Ht as [Hd Ht]. destruct (plug_inorder c) as (l1 & l2 & Hc). cbn in Hs.
  assert (sorted long m (nodes (plug Leaf c)) /\ sorted long m (nodes (N d s a Leaf))) as [Hs' Hn].
  { rewrite Hc in *. cbn. unfold sorted in *. rewrite !StronglySorted_app in *. destruct Hs as (H1 & H2 & H3 & H4 & H5). split_and!; try done. intros x y Hx Hy. apply H1; [done|set_solver]. }
  destruct (IH Ht Hs') as (l1' & l2' & Hc' & H1 & H2). unfold side_of in Hd. pose proof (lex_flip (value_of long m a) (key_value long k)) as Hf.
  destruct d; apply sorted_node in Hn as (_ & _ & Hn1 & Hn2); symmetry in Hd.
  - apply Z.ltb_lt in Hd. exists (l1' ++ nodes s ++ [a]), l2'. split_and!; [intros t; cbn; rewrite Hc'; cbn; by rewrite <- !app_assoc| |done].
    intros x [Hx|[Hx|Hx%list_elem_of_singleton]%elem_of_app]%elem_of_app; [auto| |subst x; lia]. apply (lex_trans_lt _ (value_of long m a)); [auto|lia].
  - apply Z.ltb_ge in Hd. exists l1', (a :: nodes s ++ l2'). split_and!; [intros t; cbn; rewrite Hc'; cbn; by rewrite <- !app_assoc|done|].
    intros x [->|[Hx|Hx]%elem_of_app]%elem_of_cons; [lia| |auto]. pose proof (lex_flip (value_of long m x) (key_value long k)).
    assert (lex (key_value long k) (value_of long m x) <= 0); [|lia]. apply (lex_trans _ (value_of long m a)); [lia|auto].
Qed.

(** ** From the new item to the end *)

Definition finish_insert (key : AVLKey) (item : Z) : M state bool :=
  add_fakeRoot ;;;
  let! i := read item in
  let! s := get in
  rebalance (insert_rotation key) (tree_fuel s) (SharedTree.parent i) ;;;
  let! fake := read fakeRoot in
  modify (set_root (left fake)) ;;;
  let! s := get in
  write (root (tree s)) (set_parent 0) ;;;
  drop_fakeRoot ;;;
  let! s := get in
  TreeValidate (root (tree s)) ;;;
  modify (set_modCheck false) ;;;
  ret true.

Lemma length_path c : (length c <= length (path_nodes c))%nat.
Proof. induction c as [|[[d a] t] c IH]; cbn; [lia|]. rewrite length_app. lia. Qed.
Lemma located_path_some m t c a : located m t c -> a ∈ nodes t ++ path_nodes c -> is_Some (m !! a).
Proof.
  intros (Hh & _ & Hs & _) [Ha|Ha]%elem_of_app; [by apply (hung_some m t)|]. clear Hh. revert Hs Ha. generalize (ptr t). induction c as [|[[d b] u] c IH]; intros h; cbn; [set_solver|].
  intros (i & Hi & _ & Hs) [->|[Ha|Ha]%elem_of_app]%elem_of_cons; [destruct Hi; by eexists|by apply (hung_some m u), Ha; apply Hi|by apply (IH b)].
Qed.
Lemma located_fuel m t c : located m t c -> (length c < S (S (size m)))%nat.
Proof.
  intros Hl. assert (length (nodes t ++ path_nodes c) <= size m)%nat as Hle.
  { apply nodes_size; [|intros a; by apply located_path_some]. destruct Hl as (_ & _ & _ & Hnd). by apply list.NoDup_cons in Hnd as [_ ?]. }
  rewrite length_app in Hle. pose proof (length_path c). lia.
Qed.

Lemma run_finish_insert s m c item key : let long := longKeys (tree s) in
  located m (Node Leaf item Leaf) c -> root (tree s) = high item c -> fakeRoot ∉ 0 :: item :: path_nodes c -> m !! fakeRoot = None -> m !! 0 = None ->
  valid_key long key -> towards long key m c -> keys_valid long m (item :: path_nodes c) -> fits 0 c -> sorted long m (nodes (plug (Node Leaf item Leaf) c)) ->
  exists m' t', finish_insert key item (set_items m s) = (Ok true, set_modCheck false (set_root (ptr t') (set_items m' s))) /\
    nodes t' = nodes (plug (Node Leaf item Leaf) c) /\ hung m' t' /\ parent_is m' t' 0 /\ balanced t' /\ m' !! fakeRoot = None /\
    same_data m m' /\ changes (item :: path_nodes c) m m'.
Proof.
  intros long Hl Hr Hf Hmf Hm0 Hv Ht Hk Hfit Hso. destruct (run_add_fakeRoot s m (Node Leaf item Leaf) c) as (m1 & Hrun1 & Hl1 & Hc1 & Hd1); [done..|].
  assert (forall a, a ∈ item :: path_nodes c -> same_at m m1 a) as Hat by (intros a Ha; apply Hd1; intros ->; set_solver).
  assert (inserting long key m1 c (Node Leaf item Leaf)) as Hins.
  { split_and!; [eapply towards_at; [|exact Ht]; set_solver|eapply keys_valid_at; [|exact Hk]; done|done|]. exists 0. split; [done|]. right. cbn. by split; [|left]. }
  assert (is_Some (m1 !! item)) as [i Hi] by (apply (located_path_some _ _ _ _ Hl1); set_solver).
  assert (SharedTree.parent i = top (c ++ [fake_frame]) 0) as Hpi by (destruct Hl1 as (_ & [|(i' & Hi' & Hp)] & _); [done|]; cbn in Hi'; congruence).
  destruct (run_rebalance s m1 (insert_rotation key) (inserting long key m1)) with (n := S (S (size m1))) (c := c) (m := m1) (t := Node Leaf item Leaf)
    as (m2 & t2 & Hrun2 & Hl2 & (_ & _ & Hb & _) & Hn2 & Hc2 & Hd2); [intros; by apply inserting_step|pose proof (located_fuel _ _ _ Hl1) as Hlen; rewrite length_app in Hlen; lia|done..|].
  destruct (close_fakeRoot m2 t2 Hl2) as ((F & HF & HFl) & Hroot & Hh3 & Hp3 & Hf3 & Hd3 & Hc3). set (m3 := without_fakeRoot m2 (ptr t2)) in *.
  assert (changes (item :: path_nodes c) m m3) as Hc.
  { intros x Hx. destruct (decide (x = fakeRoot)) as [->|]; [by rewrite Hf3|].
    rewrite Hc3, Hc2, Hc1; [done|set_solver|rewrite path_nodes_app; cbn; set_solver|]. rewrite Hn2, plug_nodes. cbn. set_solver. }
  assert (same_data m m3) as Hd by (intros x; destruct (decide (x = fakeRoot)) as [->|]; [by rewrite Hf3, Hmf|rewrite (Hd3 x), (Hd2 x), (Hd1 x) by done; done]).
  assert (NoDup (0 :: nodes t2)) as Hnd2 by (destruct Hl2 as (_ & _ & _ & Hnd2); by apply NoDup_first in Hnd2).
  assert (t2 <> Leaf) as Hne by (intros ->; destruct (plug_inorder c) as (l1 & l2 & Hc'); rewrite Hc' in Hn2; by destruct l1).
  destruct Hroot as [|(ir & Hir & _)]; [done|]. assert (ptr t2 <> 0) as Hnz by (intros E; pose proof (ptr_in t2 Hne) as Hin; rewrite E in Hin; apply list.NoDup_cons in Hnd2; tauto).
  exists m3, t2. split_and!; try done. unfold finish_insert. rewrite Hrun1, (run_read s m1 item i), Hpi by done. unfold bind at 1, get. cbn [items set_items]. unfold tree_fuel. cbn [items set_items].
  rewrite (bind_ok _ _ _ _ _ Hrun2), (run_read s m2 fakeRoot F), HFl by done. unfold bind at 1, modify. unfold bind at 1. change (set_root (ptr t2) (set_items m2 s)) with (set_items m2 (set_root (ptr t2) s)).
  cbn [tree set_root set_items set_tree root]. rewrite (run_write (set_root (ptr t2) s) m2 (ptr t2) ir) by done. unfold bind at 1, drop_fakeRoot, modify. cbn [items set_items set_root set_tree].
  assert (delete fakeRoot (alter (set_parent 0) (ptr t2) m2) = m3) as -> by (unfold m3, without_fakeRoot, alter_if; by destruct (Z.eqb_spec (ptr t2) 0)).
  unfold bind at 1. change (set_items m3 (set_items _ (set_root (ptr t2) s))) with (set_items m3 (set_root (ptr t2) s)). cbn [root tree set_items set_root set_tree].
  rewrite run_TreeValidate; [done|split|done|by apply list.NoDup_cons in Hnd2 as [_ ?]]; [done|by apply list.NoDup_cons in Hnd2 as [? _]| |].
  - rewrite Hn2. eapply sorted_at; [|exact Hso]. intros; apply Hd.
  - rewrite Hn2. eapply keys_valid_same; [exact Hd|]. eapply keys_valid_perm; [|exact Hk]. by rewrite plug_nodes.
Qed.

(** ** Insertion *)

Lemma TreeInsert_eq item thisItem key policy : TreeInsert item thisItem key policy =
  (let! s := get in
   if modCheck (tree s) then EsPanic
   else
     modify (set_modCheck true) ;;;
     TreeValidate (root (tree s)) ;;;
     let! i := read item in
     (if TREE_VALIDATE then if negb (inTree i =? 0) then EsPanic else write item (set_inTree tree_address) else ret tt) ;;;
     write item (set_key key) ;;;
     write item (set_right 0) ;;; write item (set_left 0) ;;;
     write item (set_thisItem thisItem) ;;;
     write item (set_height 1) ;;;
     let! s := get in
     let! inserted := descend policy (tree_fuel s) item RootLink 0 in
     if negb inserted then modify (set_modCheck false) ;;; ret false else finish_insert key item).
Proof. done. Qed.

(** The item before it is linked. *)
Definition prepared (thisItem : Z) (key : AVLKey) (i : AVLItem) : AVLItem :=
  MkItem thisItem 0 0 (SharedTree.parent i) (if TREE_VALIDATE then tree_address else inTree i) key 1.

Lemma run_prepare s t item i thisItem key policy : tree_ok s t -> items s !! item = Some i -> (TREE_VALIDATE = true -> inTree i = 0) ->
  TreeInsert item thisItem key policy s =
  (let! inserted := descend policy (S (S (size (items s)))) item RootLink 0 in
   if negb inserted then modify (set_modCheck false) ;;; ret false else finish_insert key item) (set_items (<[item := prepared thisItem key i]> (items s)) (set_modCheck true s)).
Proof.
  intros Hok Hi Ht. rewrite TreeInsert_eq. unfold bind at 1, get. rewrite (ok_modCheck _ _ Hok). unfold bind at 1, modify. set (s1 := set_modCheck true s).
  assert (s1 = set_items (items s) s1) as E1 by by destruct s. rewrite E1, (ok_root _ _ Hok). rewrite run_TreeValidate; [|by destruct (tree_ok_searchable _ _ Hok); split|apply Hok|by apply (tree_ok_NoDup s)].
  rewrite (run_read s1 _ item i) by done. assert (forall A (k : unit -> M state A),
    bind (if TREE_VALIDATE then if negb (inTree i =? 0) then EsPanic else write item (set_inTree tree_address) else ret tt) k (set_items (items s) s1) =
    k tt (set_items (alter (fun j => set_inTree (if TREE_VALIDATE then tree_address else inTree i) j) item (items s)) s1)) as Hv.
  { intros A k. destruct TREE_VALIDATE.
    - rewrite (Ht eq_refl). cbn. by rewrite (run_write s1 (items s) item i).
    - cbn. f_equal. f_equal. rewrite alter_id; [done|]. intros x. rewrite Hi. intros [= <-]. by destruct i. }
  rewrite Hv. do 5 (erewrite run_write by (rewrite ?lookup_alter_eq, Hi; done)). unfold bind at 1, get. unfold tree_fuel. cbn [items set_items].
  match goal with |- context [set_items ?m s1] => assert (m = <[item := prepared thisItem key i]> (items s)) as -> end.
  { apply map_eq. intros x. destruct (decide (x = item)) as [->|]; [|by rewrite !lookup_alter_ne, lookup_insert_ne]. rewrite !lookup_alter_eq, Hi, lookup_insert_eq. by destruct i. }
  by rewrite map_size_insert_Some.
Qed.

Record insertable (s : state) (t : shape) (item : Z) (i : AVLItem) (key : AVLKey) : Prop := {
  in_ok : tree_ok s t;
  in_new : item ∉ 0 :: fakeRoot :: nodes t;
  in_item : items s !! item = Some i;
  in_no_tree : TREE_VALIDATE = true -> inTree i = 0;
  in_key : valid_key (longKeys (tree s)) key;
}.

Section Inserting.
Context (s : state) (t : shape) (item : Z) (i : AVLItem) (thisItem : Z) (key : AVLKey) (policy : AVLDuplicateKeyPolicy).
Hypothesis Hin : insertable s t item i key.
Notation long := (longKeys (tree s)).
Notation m1 := (<[item := prepared thisItem key i]> (items s)).

Lemma prepared_changes : changes [item] (items s) m1.
Proof using. clear Hin t. intros x Hx. rewrite lookup_insert_ne; [done|]. intros ->. apply Hx. by left. Qed.
Lemma prepared_same a : a <> item -> same_at (items s) m1 a.
Proof using. clear Hin t. intros Ha. unfold same_at. by rewrite lookup_insert_ne. Qed.
Lemma prepared_located : located m1 t [].
Proof using Hin.
  destruct Hin as [Hok Hnew _ _ _]. destruct (tree_ok_located _ _ Hok) as (H1 & H2 & _ & H3). split_and!; [| |done|done].
  - eapply hung_changes; [apply prepared_changes|set_solver|done].
  - eapply parent_is_changes; [apply prepared_changes|set_solver|done].
Qed.
Lemma prepared_tree_ok s2 : items s2 = m1 -> tree s2 = tree s -> tree_ok s2 t.
Proof using Hin.
  intros E1 E2. destruct prepared_located as (H1 & H2 & _). pose proof Hin as [Hok Hnew _ _ _]. destruct Hok. split; rewrite ?E1, ?E2; try done.
  - rewrite lookup_insert_ne; [done|set_solver].
  - rewrite lookup_insert_ne; [done|set_solver].
  - eapply sorted_at; [|done]. intros a Ha. apply prepared_same. set_solver.
  - eapply keys_valid_at; [|done]. intros a Ha. apply prepared_same. set_solver.
Qed.

Lemma TreeInsert_descended : descended policy (S (S (size (items s)))) item key (set_modCheck true s) m1 t [].
Proof using Hin.
  pose proof (prepared_tree_ok (set_items m1 s) eq_refl eq_refl) as Hok1. pose proof Hin as [Hok Hnew _ _ Hv].
  apply (run_descend _ _ _ (prepared thisItem key i)); [apply lookup_insert_eq|done|done|apply prepared_located|apply Hok|apply Hok1|apply Hok1|].
  apply (tree_ok_fuel _ _ Hok).
Qed.

Lemma TreeInsert_inserts : (policy = AVL_DUPLICATE_KEYS_ALLOW \/ forall a, a ∈ nodes t -> value_of long (items s) a <> key_value long key) ->
  exists c, plug Leaf c = t /\ towards long key m1 c /\
    TreeInsert item thisItem key policy s = (let! _ := attach item c in finish_insert key item) (set_items m1 (set_modCheck true s)).
Proof using Hin.
  intros Hnew. pose proof Hin as [Hok Hni Hi Ht _]. destruct TreeInsert_descended as [(Hp & (a & Ha & Hsame) & _)|(_ & c & Hc & Htw & Hrun)].
  - destruct Hnew as [|Hnew]; [done|]. destruct (Hnew a Ha). cbn in Hsame. rewrite <- Hsame. symmetry. apply value_of_at, prepared_same. set_solver.
  - exists c. split_and!; [done|done|]. rewrite (run_prepare s t item i) by done. cbn [link_of top] in Hrun. rewrite app_nil_r in Hrun. unfold bind at 1. rewrite Hrun.
    unfold bind. destruct (attach item c _) as [[[]| |] ?] eqn:Ea; try done. by apply attach_true in Ea.
Qed.
End Inserting.

Lemma insert_memory s t item i thisItem key policy c : insertable s t item i key -> plug Leaf c = t -> towards (longKeys (tree s)) key (<[item := prepared thisItem key i]> (items s)) c ->
  TreeInsert item thisItem key policy s = (let! _ := attach item c in finish_insert key item) (set_items (<[item := prepared thisItem key i]> (items s)) (set_modCheck true s)) ->
  exists m' t', TreeInsert item thisItem key policy s = (Ok true, MkState m' (MkTree (ptr t') false (longKeys (tree s)))) /\
    nodes t' = nodes (plug (Node Leaf item Leaf) c) /\ sorted (longKeys (tree s)) m' (nodes t') /\ hung m' t' /\ parent_is m' t' 0 /\ balanced t' /\ m' !! fakeRoot = None /\
    same_data (<[item := prepared thisItem key i]> (items s)) m' /\ changes (item :: path_nodes c) (items s) m'.
Proof.
  intros Hin Hc Ht Hrun. set (m1 := <[item := _]> (items s)) in *. set (long := longKeys (tree s)) in *. pose proof Hin as [Hok Hnew Hi _ Hv].
  assert (m1 !! item = Some (prepared thisItem key i)) as Hi1 by apply lookup_insert_eq. pose proof (prepared_tree_ok s t item i thisItem key Hin (set_items m1 s) eq_refl eq_refl) as Hok1.
  assert (path_nodes c ≡ₚ nodes t) as Hpn by (rewrite <- Hc, plug_nodes; done).
  assert (located m1 Leaf c) as Hl by (rewrite <- (app_nil_r c); apply located_plug; rewrite Hc; by apply (prepared_located s t item i)).
  assert (item ∉ 0 :: path_nodes c) as Hnp by (rewrite Hpn; set_solver).
  destruct (run_attach (set_modCheck true s) m1 c item (prepared thisItem key i)) as (m2 & Hrun2 & Hl2 & Hc2 & Hd2); try done.
  { cbn. by rewrite (ok_root _ _ Hok), <- Hc, ptr_plug. }
  { by intros ETV; cbn; rewrite ETV. }
  destruct (towards_place long key m1 c Ht) as (l1 & l2 & Hpl & H1 & H2); [rewrite Hc; apply Hok1|].
  assert (sorted long m1 (nodes (plug (Node Leaf item Leaf) c))) as Hso.
  { pose proof (ok_sorted _ _ Hok1) as Hs1. cbn [tree items set_items] in Hs1. rewrite <- Hc, Hpl in Hs1. rewrite Hpl. cbn in *. unfold sorted in Hs1. apply StronglySorted_app in Hs1 as (_ & Hs1 & Hs2).
    assert (value_of long m1 item = key_value long key) as E by (unfold value_of; by rewrite Hi1). apply sorted_node. rewrite E. split_and!; [done|done| |].
    - intros x Hx. specialize (H1 x Hx). lia.
    - intros x Hx. specialize (H2 x Hx). pose proof (lex_flip (value_of long m1 x) (key_value long key)). lia. }
  destruct (run_finish_insert (set_root (high item c) (set_modCheck true s)) m2 c item key) as (m3 & t3 & Hrun3 & Hn3 & Hh3 & Hp3 & Hb3 & Hf3 & Hd3 & Hc3); try done.
  - intros [Hf|[Hf|Hf]%elem_of_cons]%elem_of_cons; [|by subst item; set_solver|].
    + pose proof (ok_distinct _ _ Hok) as Hnd. apply list.NoDup_cons in Hnd as [Hnd _]. rewrite Hf in Hnd. set_solver.
    + rewrite Hpn in Hf. pose proof (ok_distinct _ _ Hok) as Hnd. apply list.NoDup_cons in Hnd as [_ [Hnd _]%list.NoDup_cons]. done.
  - rewrite Hc2; [apply Hok1|]. rewrite Hpn. pose proof (ok_distinct _ _ Hok) as Hnd. apply list.NoDup_cons in Hnd as [_ [Hnd _]%list.NoDup_cons]. set_solver.
  - rewrite Hc2; [apply Hok1|]. rewrite Hpn. pose proof (ok_distinct _ _ Hok) as Hnd. apply list.NoDup_cons in Hnd as [Hnd _]. set_solver.
  - eapply towards_at; [|exact Ht]. intros; apply Hd2.
  - eapply keys_valid_same; [exact Hd2|]. unfold keys_valid. rewrite Hpn, list.Forall_cons. split; [by rewrite Hi1; intros ? [= <-]|apply Hok1].
  - pose proof (ok_balanced _ _ Hok) as Hb. rewrite <- Hc in Hb. by apply fits_plug in Hb as [_ ?].
  - eapply sorted_at; [|exact Hso]. intros; apply Hd2.
  - exists m3, t3. split_and!; try done.
    + rewrite Hrun. by rewrite (bind_ok _ _ _ _ _ Hrun2), Hrun3.
    + rewrite Hn3. eapply sorted_at; [|exact Hso]. intros a _. unfold same_at. by rewrite (Hd3 a), (Hd2 a).
    + by eapply same_data_trans.
    + apply (changes_trans _ _ m2); [|done]. apply (changes_trans _ _ m1); [|done]. eapply changes_mono; [apply prepared_changes|]. set_solver.
Qed.

(** C12. Inserting an item with a new key, or with any key if duplicates are allowed, puts it in front of the first item whose key is not smaller: the tree is
    a balanced search tree of the same items and this one again, and no other item's data and nothing outside of the tree has changed.  The validation before and after
    passes, and no other check fails. *)
Theorem TreeInsert_correct s t item i thisItem key policy : insertable s t item i key ->
  (policy = AVL_DUPLICATE_KEYS_ALLOW \/ forall a, a ∈ nodes t -> value_of (longKeys (tree s)) (items s) a <> key_value (longKeys (tree s)) key) ->
  exists s' t' l1 l2, TreeInsert item thisItem key policy s = (Ok true, s') /\ tree_ok s' t' /\ nodes t = l1 ++ l2 /\ nodes t' = l1 ++ item :: l2 /\
    (forall a, a ∈ l1 -> lex (value_of (longKeys (tree s)) (items s) a) (key_value (longKeys (tree s)) key) < 0) /\
    (forall a, a ∈ l2 -> 0 <= lex (value_of (longKeys (tree s)) (items s) a) (key_value (longKeys (tree s)) key)) /\
    data <$> items s' !! item = Some (thisItem, key) /\ same_data_but item (items s) (items s') /\ changes (item :: nodes t) (items s) (items s') /\
    longKeys (tree s') = longKeys (tree s).
Proof.
  intros Hin Hpol. destruct (TreeInsert_inserts s t item i thisItem key policy Hin Hpol) as (c & Hc & Ht & Hrun).
  destruct (insert_memory _ _ _ _ _ _ _ _ Hin Hc Ht Hrun) as (m' & t' & Hrun' & Hn & Hso & Hh & Hp & Hb & Hf & Hd & Hch). pose proof Hin as [Hok Hnew Hi _ Hv].
  set (m1 := <[item := _]> (items s)) in *. pose proof (prepared_tree_ok s t item i thisItem key Hin (set_items m1 s) eq_refl eq_refl) as Hok1.
  destruct (towards_place (longKeys (tree s)) key m1 c Ht) as (l1 & l2 & Hpl & H1 & H2); [rewrite Hc; apply Hok1|]. rewrite Hpl in Hn. pose proof (Hpl Leaf) as Hpl0. rewrite Hc in Hpl0. cbn in Hn, Hpl0.
  assert (forall a, a ∈ nodes t -> value_of (longKeys (tree s)) m1 a = value_of (longKeys (tree s)) (items s) a) as Hval by (intros a Ha; apply value_of_at, prepared_same; set_solver).
  assert (path_nodes c ≡ₚ nodes t) as Hpn by (rewrite <- Hc, plug_nodes; done). pose proof (ok_distinct _ _ Hok) as Hnd. apply list.NoDup_cons in Hnd as [Hz [Hnf Hnd]%list.NoDup_cons].
  assert (nodes t' ≡ₚ item :: nodes t) as Hperm by (rewrite Hn, Hpl0; by rewrite Permutation_middle).
  exists (MkState m' (MkTree (ptr t') false (longKeys (tree s)))), t', l1, l2. split; [done|]. split; [split; try done|split_and!; try done].
  - cbn. rewrite Hperm. rewrite !list.NoDup_cons. set_solver.
  - cbn. rewrite Hch; [apply Hok|rewrite Hpn; set_solver].
  - cbn. eapply keys_valid_same; [exact Hd|]. unfold keys_valid. rewrite Hperm, list.Forall_cons. split; [unfold m1; rewrite lookup_insert_eq; by intros ? [= <-]|apply Hok1].
  - intros a Ha. rewrite <- Hval by (rewrite Hpl0; set_solver). auto.
  - intros a Ha. rewrite <- Hval by (rewrite Hpl0; set_solver). auto.
  - cbn. rewrite (Hd item). unfold m1. by rewrite lookup_insert_eq.
  - intros a Ha. cbn. rewrite (Hd a). unfold m1. by rewrite lookup_insert_ne.
  - cbn. eapply changes_mono; [exact Hch|]. intros x. by rewrite Hpn.
Qed.

(** Inserting an item whose key is in the tree already is a fatal error, or returns [false] and leaves the tree as it was, as the policy says; only the
    item itself has been written to. *)
Theorem TreeInsert_refuses s t item i thisItem key policy : insertable s t item i key ->
  policy <> AVL_DUPLICATE_KEYS_ALLOW -> (exists a, a ∈ nodes t /\ value_of (longKeys (tree s)) (items s) a = key_value (longKeys (tree s)) key) ->
  match policy with
  | AVL_DUPLICATE_KEYS_FAIL => exists s', TreeInsert item thisItem key policy s = (Ok false, s') /\ tree_ok s' t /\ tree s' = tree s /\ changes [item] (items s) (items s')
  | _ => exists s', TreeInsert item thisItem key policy s = (Stop FatalError, s')
  end.
Proof.
  intros Hin Hp (a & Ha & Hsame). pose proof Hin as [Hok Hni Hi Ht _].
  destruct (TreeInsert_descended s t item i thisItem key policy Hin) as [(_ & _ & Hrun)|([|Hno] & _)]; [|done|].
  - rewrite (run_prepare s t item i) by done. cbn [link_of top] in Hrun. destruct policy; [|done|].
    + eexists. unfold bind at 1. by rewrite Hrun.
    + eexists. split; [by rewrite (bind_ok _ _ _ _ _ Hrun)|].
      assert (tree (set_modCheck false (set_items (<[item := prepared thisItem key i]> (items s)) (set_modCheck true s))) = tree s) as Et.
      { pose proof (ok_modCheck _ _ Hok) as Hm. destruct s as [? []]. cbn in *. by subst. }
      split; [by apply (prepared_tree_ok s t item i thisItem key Hin)|]. split; [done|apply prepared_changes].
  - destruct (Hno a Ha). cbn. rewrite <- Hsame. apply value_of_at, prepared_same. set_solver.
Qed.
End Insert.
