(* ===== verification/SharedTreeSwap.v ===== *)
(** * Swapping two items

    [TreeSwapItems] exchanges the places of two items.  Whatever the shape of the tree, its effect is to rename the two
    addresses in all links ([swapped]): this needs only that links are mutual ([wired_at]), which a tree in memory is.  So a
    located subtree is again one, with the two items renamed. *)

From stdpp Require Import base gmap list.
From S2P Require Import Prelude SharedTree SharedTreeShape SharedTreeBalance.

Section Swap.
Context `{TreeSystem}.
Implicit Types (m : gmap Z AVLItem) (s : state).

(** ** Mutual links *)

Definition linked_to m (p a : Z) : Prop := exists j b, m !! p = Some j /\ child b j = a.
Record wired m (a : Z) (i : AVLItem) : Prop := {
  wi_item : m !! a = Some i;
  wi_child : forall b, child b i <> 0 -> exists j, m !! child b i = Some j /\ parent j = a;
  wi_distinct : left i = right i -> left i = 0;
  wi_parent : parent i <> 0 -> linked_to m (parent i) a;
  wi_tree : in_tree i;
}.
Definition wired_at m (a : Z) : Prop := exists i, wired m a i.

Lemma parent_is_child m t p : parent_is m t p -> ptr t <> 0 -> exists j, m !! ptr t = Some j /\ parent j = p.
Proof. intros [->|Hp]; [done|done]. Qed.

Lemma side_wired m d h t a i : side m d h t a i -> (h <> 0 -> exists j, m !! h = Some j /\ parent j = a) -> (h = ptr t -> h = 0) -> (parent i <> 0 -> linked_to m (parent i) a) -> wired m a i.
Proof.
  intros [Hi Hc Ho Ht Hp Hh] Hj Hd Hl. pose proof (parent_is_child _ _ _ Hp) as Hpt. split; try done.
  - intros b Hb. destruct d, b; cbn in *; rewrite ?Hc, ?Ho in *; auto.
  - destruct d; cbn in *; rewrite Hc, Ho; intros E; [rewrite E; symmetry in E|]; by apply Hd.
Qed.

Lemma hung_wired m t p : hung m t -> parent_is m t p -> NoDup (0 :: nodes t) -> (p <> 0 -> linked_to m p (ptr t)) -> forall a, a ∈ nodes t -> wired_at m a.
Proof.
  revert p. induction t as [|l IHl a r IHr]; intros p Hh Hp Hnd Hl x; [set_solver|]. pose proof Hh as ((i & Hi & Hli & Hri & _) & Pl & Pr & Hhl & Hhr).
  apply list.NoDup_cons in Hnd as [Hz (N1 & N2 & [N3 N4]%list.NoDup_cons)%list.NoDup_app]. cbn in Hz, N2, N3. destruct Hp as [|(i' & Hi' & Hpi)]; [done|]. cbn in Hi'. assert (i' = i) as -> by congruence.
  intros [Hx|[->|Hx]%elem_of_cons]%elem_of_app.
  - apply (IHl a); [done|done|apply list.NoDup_cons; set_solver| |done]. intros _. exists i, false. by split.
  - exists i. apply (hung_N m true l a r) in Hh as (i' & (Hs & _) & _). assert (i' = i) as -> by (destruct Hs; congruence). apply (side_wired _ _ _ _ _ _ Hs).
    + by apply parent_is_child.
    + intros E. destruct (decide (r = Leaf)) as [->|Hr]; [done|]. pose proof (ptr_in r Hr) as H1. destruct (decide (l = Leaf)) as [->|Hl']; [done|]. pose proof (ptr_in l Hl') as H2.
      rewrite E in H1. destruct (N2 _ H2). by right.
    + by rewrite Hpi.
  - apply (IHr a); [done|done|apply list.NoDup_cons; set_solver| |done]. intros _. exists i, true. by split.
Qed.

Lemma segment_linked m h c : segment m h c 0 -> top c 0 <> 0 -> linked_to m (top c 0) h.
Proof. destruct c as [|[[d a] t] c]; [done|]. cbn. intros (i & [Hi Hc _ _ _ _] & _) _. exists i, d. by split. Qed.
Lemma segment_wired m h c : segment m h c 0 -> NoDup (0 :: path_nodes c) -> h ∉ path_nodes c -> (h <> 0 -> exists j, m !! h = Some j /\ parent j = top c 0) ->
  forall a, a ∈ path_nodes c -> wired_at m a.
Proof.
  revert h. induction c as [|[[d a] t] c IH]; intros h Hs Hnd Hh Hj x; [set_solver|]. destruct Hs as (i & Hi & Hp & Hs). cbn in Hnd, Hh, Hj |- *.
  apply list.NoDup_cons in Hnd as [Hz [N1 (N2 & N3 & N4)%list.NoDup_app]%list.NoDup_cons].
  intros [->|[Hx|Hx]%elem_of_app]%elem_of_cons.
  - exists i. apply (side_wired _ _ _ _ _ _ Hi Hj).
    + intros E. destruct (decide (t = Leaf)) as [->|Ht]; [done|]. pose proof (ptr_in t Ht). set_solver.
    + intros Hne. rewrite Hp in *. by apply segment_linked.
  - apply (hung_wired m t a); [apply Hi|apply Hi|apply list.NoDup_cons; set_solver| |done]. intros _. destruct Hi as [H1 _ H2 _ _ _]. exists i, (negb d). by split.
  - apply (IH a Hs); [apply list.NoDup_cons; set_solver|set_solver| |done]. intros _. exists i. split; [apply Hi|done].
Qed.

Lemma located_wired m t c a : located m t c -> a ∈ nodes t ++ path_nodes c -> wired_at m a.
Proof.
  intros (Hh & Hp & Hs & Hnd) Ha. pose proof (NoDup_first _ _ _ Hnd) as Hnd1. apply list.NoDup_cons in Hnd as [Hz (N1 & N2 & N3)%list.NoDup_app]. apply elem_of_app in Ha as [Ha|Ha].
  - apply (hung_wired m t (top c 0)); [done|done|done| |done]. by apply segment_linked.
  - apply (segment_wired m (ptr t) c); [done|apply list.NoDup_cons; set_solver| | |done].
    + destruct (decide (t = Leaf)) as [->|Ht]; [set_solver|]. pose proof (ptr_in t Ht). set_solver.
    + by apply parent_is_child.
Qed.

(** ** Renaming two addresses *)

Definition swap (x y a : Z) : Z := if a =? x then y else if a =? y then x else a.

Lemma swap_left x y : swap x y x = y.
Proof. unfold swap. by rewrite Z.eqb_refl. Qed.
Lemma swap_right x y : swap x y y = x.
Proof. unfold swap. destruct (Z.eqb_spec y x); [done|]. by rewrite Z.eqb_refl. Qed.
Lemma swap_other x y a : a <> x -> a <> y -> swap x y a = a.
Proof. intros. unfold swap. by destruct (Z.eqb_spec a x), (Z.eqb_spec a y). Qed.
Lemma swap_swap x y a : swap x y (swap x y a) = a.
Proof. unfold swap. destruct (Z.eqb_spec a x), (Z.eqb_spec a y); repeat match goal with |- context [?a =? ?b] => destruct (Z.eqb_spec a b) end; lia. Qed.

(** An item of the new memory is that of the other address with its links renamed. *)
Record renamed (f : Z -> Z) (i i' : AVLItem) : Prop := {
  re_child : forall b, child b i' = f (child b i);
  re_parent : parent i' = f (parent i);
  re_height : height i' = height i;
  re_tree : in_tree i -> in_tree i';
}.
(** What [TreeSwapItems] promises for an item. *)
Definition swapped x y m m' a : Prop := forall i, m !! a = Some i -> exists i', m' !! swap x y a = Some i' /\ renamed (swap x y) i i'.

(** ** The steps of the swap *)

Lemma run_replace_linked {A} s m p e a i v (k : unit -> M state A) : m !! p = Some i -> (left i = right i -> left i = 0) -> child e i = a -> a <> 0 ->
  bind (replace_child p a v) k (set_items m s) = k tt (set_items (alter (set_child e v) p m) s).
Proof.
  intros Hi Hd Hc Ha. unfold replace_child. rewrite bind_assoc, (run_read s m p i), (run_write s m p i) by done.
  assert ((right i =? a) = e) as ->; [|done]. destruct e; cbn in Hc; [by apply Z.eqb_eq|]. apply Z.eqb_neq. intros E. apply Ha. rewrite <- Hc. apply Hd. congruence.
Qed.

Lemma alter_parent m c v a i : m !! a = Some i -> a <> 0 ->
  exists i', alter_if c (set_parent v) m !! a = Some i' /\ (forall b, child b i' = child b i) /\ parent i' = (if decide (a = c) then v else parent i) /\ height i' = height i /\ inTree i' = inTree i.
Proof.
  intros Hi Ha. unfold alter_if. destruct (Z.eqb_spec c 0) as [->|Hc]; [exists i; rewrite decide_False by done; done|]. destruct (decide (a = c)) as [->|Hne].
  - exists (set_parent v i). rewrite lookup_alter_eq, Hi. split; [done|]. split; [intros []; done|done].
  - exists i. by rewrite lookup_alter_ne.
Qed.

Section Swapping.
Context (m : gmap Z AVLItem) (x y p q : Z) (d e : bool) (ix iy ip iq : AVLItem).
Hypotheses (Wx : wired m x ix) (Wy : wired m y iy) (Wp : wired m p ip) (Wq : wired m q iq).
Hypotheses (Hx : x <> 0) (Hy : y <> 0) (Hxy : x <> y) (Hp : p <> 0) (Hq : q <> 0).
Hypotheses (Hpx : p <> x) (Hpy : p <> y) (Hqy : q <> y) (Hpq : p <> q).
Hypotheses (Pix : parent ix = p) (Piy : parent iy = q) (Cp : child d ip = x) (Cq : child e iq = y).

(** A child of another address has another parent. *)
Lemma wired_child a b i j : wired m a i -> m !! child b i = Some j -> child b i <> 0 -> parent j = a.
Proof using. clear. intros Wa Hj Hb. destruct (wi_child _ _ _ Wa b Hb) as (j' & Hj' & E). congruence. Qed.
Lemma child_x a i b : wired m a i -> child b i = x -> a = p /\ b = d.
Proof using Wx Wp Hx Pix Cp.
  intros Wa E. assert (parent ix = a) as Ea by (apply (wired_child a b i ix); [done|rewrite E; apply Wx|by rewrite E]). rewrite Pix in Ea. split; [done|].
  assert (i = ip) as -> by (destruct Wa, Wp; congruence). destruct (decide (b = d)) as [|Hb]; [done|]. destruct Hx. rewrite <- E. pose proof (wi_distinct _ _ _ Wp) as Hd.
  destruct b, d; cbn in *; try done; [rewrite E; rewrite <- Cp; apply Hd; congruence|apply Hd; congruence].
Qed.
Lemma child_y a i b : wired m a i -> child b i = y -> a = q /\ b = e.
Proof using Wy Wq Hy Piy Cq.
  intros Wa E. assert (parent iy = a) as Ea by (apply (wired_child a b i iy); [done|rewrite E; apply Wy|by rewrite E]). rewrite Piy in Ea. split; [done|].
  assert (i = iq) as -> by (destruct Wa, Wq; congruence). destruct (decide (b = e)) as [|Hb]; [done|]. destruct Hy. rewrite <- E. pose proof (wi_distinct _ _ _ Wq) as Hd.
  destruct b, e; cbn in *; try done; [rewrite E; rewrite <- Cq; apply Hd; congruence|apply Hd; congruence].
Qed.

(** The children of their parents. *)
Definition swap_children : gmap Z AVLItem := alter (set_child d y) p (alter (set_child e x) q m).

Lemma swap_children_ok a i : wired m a i -> exists i', swap_children !! a = Some i' /\ (forall b, child b i' = swap x y (child b i)) /\
  parent i' = parent i /\ height i' = height i /\ inTree i' = inTree i.
Proof using Wx Wy Wp Wq Hx Hy Hxy Hpq Pix Piy Cp Cq.
  intros Wa. pose proof (wi_item _ _ _ Wa) as Hi. unfold swap_children. destruct (decide (a = p)) as [Ep|Hap]; [|destruct (decide (a = q)) as [Eq|Haq]].
  - subst a. rewrite lookup_alter_eq, lookup_alter_ne, Hi by done. exists (set_child d y i). split; [done|]. assert (i = ip) as Ei by (destruct Wp; congruence).
    split; [|by destruct d]. intros b. destruct (decide (b = d)) as [->|Hb]; [by rewrite child_set, Ei, Cp, swap_left|]. assert (b = negb d) as Eb by (by destruct b, d). rewrite Eb, child_set_other.
    symmetry. apply swap_other; intros E; [destruct (child_x _ _ _ Wa E); by destruct d|destruct (child_y _ _ _ Wa E); congruence].
  - subst a. rewrite lookup_alter_ne, lookup_alter_eq, Hi by done. exists (set_child e x i). split; [done|]. assert (i = iq) as Ei by (destruct Wq; congruence).
    split; [|by destruct e]. intros b. destruct (decide (b = e)) as [->|Hb]; [by rewrite child_set, Ei, Cq, swap_right|]. assert (b = negb e) as Eb by (by destruct b, e). rewrite Eb, child_set_other.
    symmetry. apply swap_other; intros E; [destruct (child_x _ _ _ Wa E); congruence|destruct (child_y _ _ _ Wa E); by destruct e].
  - rewrite !lookup_alter_ne, Hi by done. exists i. split_and!; try done. intros b. symmetry. apply swap_other; intros E; [destruct (child_x _ _ _ Wa E); congruence|destruct (child_y _ _ _ Wa E); congruence].
Qed.

(** The item [i] in the place of [j]. *)
Definition take_place (i j : AVLItem) : AVLItem := MkItem (thisItem i) (left j) (right j) (SharedTree.parent j) (inTree i) (key i) (height j).

(** Both in the place of the other, and then the parents of their children. *)
Definition swap_places m2 (i2 j2 : AVLItem) : gmap Z AVLItem := <[x := take_place i2 j2]> (<[y := take_place j2 i2]> m2).
Definition swap_parents m3 (i2 j2 : AVLItem) : gmap Z AVLItem :=
  alter_if (right j2) (set_parent x) (alter_if (left j2) (set_parent x) (alter_if (right i2) (set_parent y) (alter_if (left i2) (set_parent y) m3))).

Lemma swap_parents_parent m3 i2 j2 a i3 : m3 !! a = Some i3 -> a <> 0 -> exists i4, swap_parents m3 i2 j2 !! a = Some i4 /\ (forall b, child b i4 = child b i3) /\
  height i4 = height i3 /\ inTree i4 = inTree i3 /\
  SharedTree.parent i4 = (if decide (exists b, child b j2 = a) then x else if decide (exists b, child b i2 = a) then y else SharedTree.parent i3).
Proof using.
  clear. intros Hi Ha. unfold swap_parents.
  destruct (alter_parent m3 (left i2) y a i3 Hi Ha) as (i4 & H4 & C4 & P4 & G4 & T4).
  destruct (alter_parent _ (right i2) y a i4 H4 Ha) as (i5 & H5 & C5 & P5 & G5 & T5).
  destruct (alter_parent _ (left j2) x a i5 H5 Ha) as (i6 & H6 & C6 & P6 & G6 & T6).
  destruct (alter_parent _ (right j2) x a i6 H6 Ha) as (i7 & H7 & C7 & P7 & G7 & T7).
  exists i7. split; [done|]. split; [intros b; by rewrite C7, C6, C5, C4|]. split; [congruence|]. split; [congruence|]. rewrite P7, P6, P5, P4.
  assert (forall j, (exists b, child b j = a) <-> a = right j \/ a = left j) as Hc by (intros j; split; [intros [[] <-]; auto|intros [->| ->]; [by exists true|by exists false]]).
  destruct (decide (exists b, child b j2 = a)) as [Hj|Hj], (decide (exists b, child b i2 = a)) as [Hi'|Hi']; rewrite Hc in *.
  all: destruct (decide (a = right j2)), (decide (a = left j2)), (decide (a = right i2)), (decide (a = left i2)); tauto || congruence.
Qed.

Section Places.
Context (i2 j2 : AVLItem).
Hypotheses (I2 : swap_children !! x = Some i2) (J2 : swap_children !! y = Some j2).
Hypotheses (Ci2 : forall b, child b i2 = swap x y (child b ix)) (Cj2 : forall b, child b j2 = swap x y (child b iy)).
Hypotheses (Pi2 : SharedTree.parent i2 = p) (Pj2 : SharedTree.parent j2 = q) (Gi2 : height i2 = height ix) (Gj2 : height j2 = height iy).
Hypotheses (Ti2 : inTree i2 = inTree ix) (Tj2 : inTree j2 = inTree iy).

Lemma swap_places_ok a i : wired m a i -> exists i', swap_places swap_children i2 j2 !! swap x y a = Some i' /\ (forall b, child b i' = swap x y (child b i)) /\
  SharedTree.parent i' = SharedTree.parent i /\ height i' = height i /\ (in_tree i -> in_tree i').
Proof using Wx Wy Wp Wq Hx Hy Hxy Hpq Pix Piy Cp Cq Ci2 Cj2 Pi2 Pj2 Gi2 Gj2 Ti2 Tj2.
  intros Wa. unfold swap_places. destruct (decide (a = x)) as [->|Hax]; [|destruct (decide (a = y)) as [->|Hay]].
  - assert (i = ix) as -> by (destruct Wa, Wx; congruence). rewrite swap_left, lookup_insert_ne, lookup_insert_eq by done. eexists. split; [done|]. split; [intros b; rewrite <- Ci2; by destruct b|]. cbn. split_and!; [congruence|done|].
    intros _. pose proof (wi_tree _ _ _ Wy) as Ht. unfold in_tree in *. cbn. by rewrite Tj2.
  - assert (i = iy) as -> by (destruct Wa, Wy; congruence). rewrite swap_right, lookup_insert_eq. eexists. split; [done|]. split; [intros b; rewrite <- Cj2; by destruct b|]. cbn. split_and!; [congruence|done|].
    intros _. pose proof (wi_tree _ _ _ Wx) as Ht. unfold in_tree in *. cbn. by rewrite Ti2.
  - rewrite swap_other, !lookup_insert_ne by done. destruct (swap_children_ok a i Wa) as (i' & Hi' & C' & P' & G' & T'). exists i'. split_and!; try done. unfold in_tree. by rewrite T'.
Qed.

Lemma swap_ok a i : wired m a i -> a <> 0 -> exists i', swap_parents (swap_places swap_children i2 j2) i2 j2 !! swap x y a = Some i' /\ renamed (swap x y) i i'.
Proof using All.
  intros Wa Ha. destruct (swap_places_ok a i Wa) as (i3 & H3 & C3 & P3 & G3 & T3).
  assert (swap x y a <> 0) as Hsa by (unfold swap; destruct (a =? x), (a =? y); done).
  destruct (swap_parents_parent _ i2 j2 _ _ H3 Hsa) as (i4 & H4 & C4 & G4 & T4 & P4). exists i4. split; [done|]. split; [intros b; by rewrite C4|clear C4|congruence|unfold in_tree in *; by rewrite T4].
  assert (forall j c, wired m c j -> c <> 0 -> (exists b, swap x y (child b j) = swap x y a) <-> SharedTree.parent i = c) as Hch.
  { intros j c Wc Hc. split.
    - intros [b E]. assert (child b j = a) as E' by (rewrite <- (swap_swap x y (child b j)), E; apply swap_swap). apply (wired_child c b j i Wc); rewrite E'; [apply Wa|done].
    - intros E. destruct (wi_parent _ _ _ Wa) as (j' & b & Hj' & Hb); [by rewrite E|]. rewrite E in Hj'. assert (j' = j) as -> by (destruct Wc; congruence). exists b. by rewrite Hb. }
  rewrite P4, P3. pose proof (Hch ix x Wx Hx) as Ex. pose proof (Hch iy y Wy Hy) as Ey.
  destruct (decide (exists b, child b j2 = swap x y a)) as [E1|E1]; setoid_rewrite Cj2 in E1; rewrite Ey in E1; [by rewrite E1, swap_right|].
  destruct (decide (exists b, child b i2 = swap x y a)) as [E2|E2]; setoid_rewrite Ci2 in E2; rewrite Ex in E2; [by rewrite E2, swap_left|].
  by rewrite swap_other.
Qed.
End Places.

Lemma swap_places_some i2 j2 a : is_Some (m !! a) -> is_Some (swap_places swap_children i2 j2 !! a).
Proof using.
  clear. intros Ha. unfold swap_places, swap_children. destruct (decide (a = x)) as [->|]; [rewrite lookup_insert_eq; by eexists|]. rewrite lookup_insert_ne by done.
  destruct (decide (a = y)) as [->|]; [rewrite lookup_insert_eq; by eexists|]. rewrite lookup_insert_ne by done. by rewrite !lookup_alter_is_Some.
Qed.
Lemma swap_some a i b : wired m a i -> swap x y (child b i) <> 0 -> is_Some (m !! swap x y (child b i)).
Proof using Wx Wy Hx Hy.
  intros Wa Hne. unfold swap in *. destruct (Z.eqb_spec (child b i) x); [destruct Wy; by eexists|]. destruct (Z.eqb_spec (child b i) y); [destruct Wx; by eexists|].
  destruct (wi_child _ _ _ Wa b Hne) as (j & Hj & _). by exists j.
Qed.

(** Two children of [a] get it as their parent. *)
Lemma run_adopt {A} s m3 a i3 (k : unit -> M state A) : m3 !! a = Some i3 -> a <> 0 -> (forall b, child b i3 <> 0 -> is_Some (m3 !! child b i3)) ->
  (let! i := read a in write_if (left i) (set_parent a) ;;; let! i := read a in write_if (right i) (set_parent a) ;;; k tt) (set_items m3 s) =
  k tt (set_items (alter_if (right i3) (set_parent a) (alter_if (left i3) (set_parent a) m3)) s).
Proof using.
  clear. intros Hi Ha Hc. rewrite (run_read s m3 a i3) by done. rewrite run_write_if by exact (Hc false). destruct (alter_parent m3 (left i3) a a i3 Hi Ha) as (i4 & H4 & C4 & _).
  rewrite (run_read s _ a i4) by done. rewrite (C4 true : right i4 = right i3). rewrite run_write_if; [done|]. intros Hne. apply alter_if_some, (Hc true), Hne.
Qed.

Lemma run_write_some {A} s m3 a f (k : unit -> M state A) : is_Some (m3 !! a) -> bind (write a f) k (set_items m3 s) = k tt (set_items (alter f a m3) s).
Proof using. clear. intros [i Hi]. by apply (run_write s m3 a i). Qed.

Lemma run_swap_places {A} s i2 j2 (k : unit -> M state A) : swap_children !! x = Some i2 -> swap_children !! y = Some j2 ->
  (let! ta := read y in
   let! tb := read x in
   write y (set_parent (SharedTree.parent tb)) ;;; write x (set_parent (SharedTree.parent ta)) ;;;
   write y (set_height (height tb)) ;;; write x (set_height (height ta)) ;;;
   write y (set_left (left tb)) ;;; write y (set_right (right tb)) ;;;
   write x (set_left (left ta)) ;;; write x (set_right (right ta)) ;;; k tt) (set_items swap_children s) = k tt (set_items (swap_places swap_children i2 j2) s).
Proof using Hxy.
  intros I2 J2. rewrite (run_read s _ y j2), (run_read s _ x i2) by done.
  do 8 (rewrite run_write_some by (rewrite ?lookup_alter_is_Some; by eexists)). f_equal. f_equal. apply map_eq. intros a. unfold swap_places.
  destruct (decide (a = x)) as [->|Hax]; [|destruct (decide (a = y)) as [->|Hay]].
  - rewrite lookup_insert_eq. do 2 rewrite lookup_alter_eq. do 2 rewrite (lookup_alter_ne _ _ y) by done. rewrite lookup_alter_eq, lookup_alter_ne, lookup_alter_eq, lookup_alter_ne, I2 by done. by destruct i2.
  - rewrite lookup_insert_ne, lookup_insert_eq by done. do 2 rewrite (lookup_alter_ne _ _ x) by done. do 2 rewrite lookup_alter_eq. rewrite (lookup_alter_ne _ _ x), lookup_alter_eq, lookup_alter_ne, lookup_alter_eq, J2 by done. by destruct j2.
  - rewrite !lookup_alter_ne, !lookup_insert_ne by done. done.
Qed.

Lemma run_swap_parents s i2 j2 : swap_children !! x = Some i2 -> swap_children !! y = Some j2 ->
  (forall b, child b i2 = swap x y (child b ix)) -> (forall b, child b j2 = swap x y (child b iy)) ->
  (let! ia := read y in write_if (left ia) (set_parent y) ;;; let! ia := read y in write_if (right ia) (set_parent y) ;;;
   let! ib := read x in write_if (left ib) (set_parent x) ;;; let! ib := read x in write_if (right ib) (set_parent x)) (set_items (swap_places swap_children i2 j2) s) =
  (Ok tt, set_items (swap_parents (swap_places swap_children i2 j2) i2 j2) s).
Proof using Wx Wy Hx Hy Hxy.
  intros I2 J2 Ci2 Cj2. set (m3 := swap_places swap_children i2 j2).
  assert (forall a i b, wired m a i -> swap x y (child b i) <> 0 -> is_Some (m3 !! swap x y (child b i))) as Hsome by (intros a i b Wa Hne; by apply swap_places_some, (swap_some a)).
  assert (m3 !! y = Some (take_place j2 i2)) as Y3 by (unfold m3, swap_places; rewrite lookup_insert_ne by done; apply lookup_insert_eq).
  assert (m3 !! x = Some (take_place i2 j2)) as X3 by apply lookup_insert_eq.
  rewrite (run_adopt s m3 y (take_place j2 i2) (fun _ => let! ib := read x in write_if (left ib) (set_parent x) ;;; let! ib := read x in write_if (right ib) (set_parent x))); [|done|done|].
  2: { intros b Hb. replace (child b (take_place j2 i2)) with (child b i2) in * by (by destruct b). rewrite Ci2 in *. by apply (Hsome x ix). }
  cbn [left right take_place]. set (m4 := alter_if (right i2) (set_parent y) (alter_if (left i2) (set_parent y) m3)).
  destruct (alter_parent m3 (left i2) y x _ X3 Hx) as (i3 & H3 & C3 & _). destruct (alter_parent _ (right i2) y x _ H3 Hx) as (i4 & H4 & C4 & _). fold m4 in H4.
  assert (forall b, child b i4 = child b j2) as Cx by (intros b; rewrite C4, C3; by destruct b).
  pose proof (run_adopt s m4 x i4 ret H4 Hx) as Hlast. rewrite (Cx false : left i4 = left j2), (Cx true : right i4 = right j2) in Hlast.
  transitivity ((let! i := read x in write_if (left i) (set_parent x) ;;; let! i := read x in write_if (right i) (set_parent x) ;;; ret tt) (set_items m4 s)).
  - do 3 (apply bind_ext; intros ? ?). by rewrite bind_ret_tt.
  - rewrite Hlast; [done|]. intros b Hb. rewrite Cx in *. rewrite Cj2 in *. do 2 apply alter_if_some. by apply (Hsome y iy).
Qed.

Lemma swap_same_data i2 j2 : swap_children !! x = Some i2 -> swap_children !! y = Some j2 ->
  same_data m (swap_parents (swap_places swap_children i2 j2) i2 j2).
Proof using Hxy.
  intros I2 J2. unfold swap_parents. do 4 (eapply same_data_trans; [|by apply same_data_alter_if]). apply (same_data_trans _ swap_children).
  - eapply same_data_trans; apply same_data_alter; intros i; apply data_set_child.
  - intros a. unfold swap_places. destruct (decide (a = x)) as [->|]; [by rewrite lookup_insert_eq, I2|]. rewrite lookup_insert_ne by done.
    destruct (decide (a = y)) as [->|]; [by rewrite lookup_insert_eq, J2|]. by rewrite lookup_insert_ne.
Qed.
Lemma swap_changes l i2 j2 : x ∈ l -> y ∈ l -> p ∈ l -> q ∈ l -> (forall b, child b i2 <> 0 -> child b i2 ∈ l) -> (forall b, child b j2 <> 0 -> child b j2 ∈ l) ->
  changes l m (swap_parents (swap_places swap_children i2 j2) i2 j2).
Proof using.
  clear. intros Hx Hy Hp Hq Hi Hj. unfold swap_parents. eapply changes_trans; [|apply changes_alter_if, (Hj true)]. eapply changes_trans; [|apply changes_alter_if, (Hj false)].
  eapply changes_trans; [|apply changes_alter_if, (Hi true)]. eapply changes_trans; [|apply changes_alter_if, (Hi false)].
  apply (changes_trans _ _ swap_children); [eapply changes_trans; by apply changes_alter|]. intros a Ha. unfold swap_places.
  rewrite !lookup_insert_ne by (by intros ->). done.
Qed.

Lemma run_swap s l : x ∈ l -> y ∈ l -> p ∈ l -> q ∈ l -> (forall b, child b ix <> 0 -> child b ix ∈ l) -> (forall b, child b iy <> 0 -> child b iy ∈ l) ->
  exists m', TreeSwapItems y x (set_items m s) = (Ok tt, set_items m' s) /\
  (forall a i, wired m a i -> a <> 0 -> exists i', m' !! swap x y a = Some i' /\ renamed (swap x y) i i') /\ same_data m m' /\ changes l m m'.
Proof using All.
  intros Lx Ly Lp Lq Lcx Lcy.
  destruct (swap_children_ok x ix Wx) as (i2 & I2 & Ci2 & Pi2 & Gi2 & Ti2). destruct (swap_children_ok y iy Wy) as (j2 & J2 & Cj2 & Pj2 & Gj2 & Tj2).
  rewrite Pix in Pi2. rewrite Piy in Pj2. exists (swap_parents (swap_places swap_children i2 j2) i2 j2).
  assert (forall v b, (v <> 0 -> v ∈ l) -> swap x y v <> 0 -> b = swap x y v -> b ∈ l) as Hsw.
  { intros v b Hv Hne ->. unfold swap in *. destruct (v =? x); [done|]. destruct (v =? y); [done|]. by apply Hv. }
  split; [|split; [intros a i; by apply swap_ok|split; [by apply swap_same_data|apply swap_changes; try done; intros b Hb]]].
  2: { rewrite Ci2 in Hb. eapply Hsw; [apply (Lcx b)|done|apply Ci2]. }
  2: { rewrite Cj2 in Hb. eapply Hsw; [apply (Lcy b)|done|apply Cj2]. }
  unfold TreeSwapItems. rewrite (run_read s m y iy), Piy by apply Wy. rewrite (run_replace_linked s m q e y iq x) by (done || apply Wq).
  assert (exists i1, alter (set_child e x) q m !! x = Some i1 /\ SharedTree.parent i1 = p) as (i1 & Hi1 & Pi1).
  { destruct (decide (q = x)) as [->|Hqx]; [rewrite lookup_alter_eq, (wi_item _ _ _ Wx); eexists; split; [done|by rewrite parent_set_child]|]. rewrite lookup_alter_ne by done. exists ix. by destruct Wx. }
  rewrite (run_read s _ x i1), Pi1 by done. rewrite (run_replace_linked s _ p d x ip y) by (done || (rewrite lookup_alter_ne by done; apply Wp) || apply Wp). fold swap_children.
  rewrite <- (run_swap_parents s i2 j2) by done. by apply (run_swap_places s i2 j2 (fun _ => _)).
Qed.
End Swapping.

(** ** Renamed trees *)

Fixpoint rename (f : Z -> Z) (t : shape) : shape := match t with Leaf => Leaf | Node l a r => Node (rename f l) (f a) (rename f r) end.
Definition rename_path (f : Z -> Z) (c : path) : path := map (fun '(d, a, t) => (d, f a, rename f t)) c.

Lemma rename_ptr f t : f 0 = 0 -> ptr (rename f t) = f (ptr t).
Proof. by destruct t. Qed.
Lemma rename_ht f t : ht (rename f t) = ht t.
Proof. induction t as [|l IHl a r IHr]; cbn; [done|]. by rewrite IHl, IHr. Qed.
Lemma rename_id f t : (forall a, a ∈ nodes t -> f a = a) -> rename f t = t.
Proof. induction t as [|l IHl a r IHr]; cbn; [done|]. intros Hf. f_equal; [apply IHl|apply Hf|apply IHr]; set_solver. Qed.
Lemma rename_path_id f c : (forall a, a ∈ path_nodes c -> f a = a) -> rename_path f c = c.
Proof. induction c as [|[[d a] t] c IH]; cbn; [done|]. intros Hf. f_equal; [by rewrite (rename_id f t), (Hf a) by set_solver|apply IH; set_solver]. Qed.
Lemma rename_plug f t c : rename f (plug t c) = plug (rename f t) (rename_path f c).
Proof. revert t. induction c as [|[[d a] u] c IH]; intros t; cbn; [done|]. rewrite IH. by destruct d. Qed.

Section Renamed.
Context (f : Z -> Z) (m m' : gmap Z AVLItem) (F0 : f 0 = 0).
(** The item at [f a] is that at [a], renamed. *)
Definition moved (a : Z) : Prop := forall i, m !! a = Some i -> exists i', m' !! f a = Some i' /\ renamed f i i'.

Lemma parent_is_rename t p : parent_is m t p -> (t <> Leaf -> moved (ptr t)) -> parent_is m' (rename f t) (f p).
Proof using F0.
  intros [->|(i & Hi & Hp)] Hm; [by left|]. destruct (decide (t = Leaf)) as [->|Ht]; [by left|]. right. destruct (Hm Ht i Hi) as (i' & Hi' & Hr).
  exists i'. rewrite rename_ptr by done. split; [done|]. by rewrite (re_parent _ _ _ Hr), Hp.
Qed.
Lemma hung_rename t : hung m t -> (forall a, a ∈ nodes t -> moved a) -> hung m' (rename f t).
Proof using F0.
  induction t as [|l IHl a r IHr]; cbn [hung nodes rename]; [done|]. intros ((i & Hi & H1 & H2 & H3 & H4) & H5 & H6 & H7 & H8) Hm.
  destruct (Hm a) with (i := i) as (i' & Hi' & [R1 R2 R3 R4]); [set_solver|done|]. split; [|split; [|split; [|split]]].
  - exists i'. rewrite !rename_ptr by done. cbn [ht]. rewrite !rename_ht. split_and!; [done|by rewrite (R1 false : left i' = _), <- H1|by rewrite (R1 true : right i' = _), <- H2|by rewrite R3|auto].
  - apply parent_is_rename; [done|]. intros Hl. apply Hm. pose proof (ptr_in l Hl). set_solver.
  - apply parent_is_rename; [done|]. intros Hr. apply Hm. pose proof (ptr_in r Hr). set_solver.
  - apply IHl; [done|]. intros b Hb. apply Hm. set_solver.
  - apply IHr; [done|]. intros b Hb. apply Hm. set_solver.
Qed.
Lemma segment_rename h c up : segment m h c up -> (forall a, a ∈ path_nodes c -> moved a) -> segment m' (f h) (rename_path f c) (f up).
Proof using F0.
  revert h. induction c as [|[[d a] t] c IH]; intros h; cbn [segment path_nodes]; [done|]. intros (i & [S1 S2 S3 S4 S5 S6] & Hp & Hs) Hm.
  destruct (Hm a) with (i := i) as (i' & Hi' & [R1 R2 R3 R4]); [set_solver|done|]. exists i'. split; [split|split].
  - done.
  - by rewrite R1, S2.
  - by rewrite R1, S3, rename_ptr.
  - auto.
  - apply parent_is_rename; [done|]. intros Ht. apply Hm. pose proof (ptr_in t Ht). set_solver.
  - apply hung_rename; [done|]. intros b Hb. apply Hm. set_solver.
  - rewrite R2, Hp. by destruct c as [|[[]]].
  - apply IH; [done|]. intros b Hb. apply Hm. set_solver.
Qed.
End Renamed.
End Swap.
