(* ===== verification/SharedTreeRemove.v ===== *)
(** * Removal

    An item with two children changes places with the next one, which has at most one ([isolated]); then it is cut out
    ([unlinked]), and the heights are put right from there up: each subtree on the way is as high as before or one
    lower ([removing]). *)

From stdpp Require Import base gmap list sorting.
From S2P Require Import Prelude SharedTree SharedTreeShape SharedTreeBalance SharedTreeOrder SharedTreeInsert SharedTreeSwap.

Section Remove.
Context `{TreeSystem}.
Implicit Types (m : gmap Z AVLItem) (s : state).

(** ** The item and its successor *)

Lemma ptr_nonzero t : ptr t <> 0 -> ptr t ∈ nodes t.
Proof. intros Hne. apply ptr_in. by intros ->. Qed.

Lemma located_item m l a r c : located m (Node l a r) c ->
  exists i, wired m a i /\ parent i = top c 0 /\ left i = ptr l /\ right i = ptr r /\ height i = ht (Node l a r).
Proof.
  intros Hl. destruct (located_wired _ _ _ a Hl) as [i Wi]; [cbn; set_solver|]. destruct Hl as (((j & Hj & H1 & H2 & H3 & _) & _) & Hp & _).
  assert (j = i) as -> by (destruct Wi; congruence). exists i. split_and!; try done. destruct Hp as [|(k & Hk & Hp)]; [done|]. cbn in Hk. congruence.
Qed.
(** The parent of a subtree. *)
Lemma located_parent m t c : located m t c -> ptr t <> 0 -> top c 0 <> 0 -> exists d p t1 c' i, c = (d, p, t1) :: c' /\ wired m p i /\ child d i = ptr t.
Proof.
  intros Hl Ht Hp. destruct c as [|[[d p] t1] c']; [done|]. destruct (located_wired _ _ _ p Hl) as [i Wi]; [cbn; set_solver|].
  destruct Hl as (_ & _ & (j & [Hj Hc _ _ _ _] & _) & _). exists d, p, t1, c', i. split_and!; [done|done|]. destruct Wi. congruence.
Qed.
Lemma swap_away x y (l : list Z) : x ∉ l -> y ∉ l -> forall a, a ∈ l -> swap x y a = a.
Proof. intros Hx Hy a Ha. apply swap_other; by intros ->. Qed.

Lemma run_swap_successor s m l x y ry cy c : located m (Node l x (plug (Node Leaf y ry) cy)) c -> top c 0 <> 0 ->
  exists m', TreeSwapItems y x (set_items m s) = (Ok tt, set_items m' s) /\ located m' (Node Leaf x ry) (cy ++ (true, y, l) :: c) /\
    same_data m m' /\ changes (nodes (Node l x (plug (Node Leaf y ry) cy)) ++ path_nodes c) m m'.
Proof.
  intros Hl Hp0. pose proof (located_plug m (Node Leaf y ry) cy ((true, x, l) :: c) (located_down m true l x _ c Hl)) as Hy.
  set (c' := cy ++ (true, x, l) :: c) in *. set (S := nodes (Node l x (plug (Node Leaf y ry) cy)) ++ path_nodes c).
  assert (nodes (Node Leaf y ry) ++ path_nodes c' ≡ₚ S) as HS.
  { unfold S, c'. rewrite path_nodes_app. cbn. rewrite plug_nodes. cbn. solve_Permutation. }
  destruct (located_item _ _ _ _ _ Hl) as (ix & Wx & Px & Lx & Rx & _), (located_item _ _ _ _ _ Hy) as (iy & Wy & Py & Ly & Ry & _).
  pose proof Hy as (Hhy & _ & Hsy & Hndy). assert (NoDup (0 :: y :: nodes ry ++ path_nodes cy ++ x :: nodes l ++ path_nodes c)) as Hnd by (unfold c' in Hndy; by rewrite path_nodes_app in Hndy).
  apply list.NoDup_cons in Hnd as [Hz [Hy' (N1 & N2 & (N3 & N4 & [N5 (N6 & N7 & N8)%list.NoDup_app]%list.NoDup_cons)%list.NoDup_app)%list.NoDup_app]%list.NoDup_cons].
  assert (x <> 0 /\ y <> 0 /\ x <> y) as (Hx0 & Hy0 & Hxy) by (split_and!; intros ->; set_solver).
  destruct (located_parent _ _ _ Hl) as (d & p & tp & c0 & ip & Ec & Wp & Cp); [done|done|]. rewrite Ec in Px. cbn in Px, Cp.
  assert (top c' 0 ∈ x :: path_nodes cy) as Hqin by (unfold c'; destruct cy as [|[[? ?] ?] ?]; cbn; set_solver).
  destruct (located_parent _ _ _ Hy) as (e & q & tq & c1 & iq & Ec' & Wq & Cq); [done|intros E; rewrite E in Hqin; set_solver|]. rewrite Ec' in Py, Hqin. cbn in Py, Cq, Hqin.
  assert (p ∈ path_nodes c) as Hpin by (rewrite Ec; cbn; set_solver).
  assert (forall a, a ∈ S <-> a = y \/ a ∈ nodes ry \/ a ∈ path_nodes cy \/ a = x \/ a ∈ nodes l \/ a ∈ path_nodes c) as HSin.
  { intros a. rewrite <- HS. unfold c'. rewrite path_nodes_app. cbn. set_solver. }
  destruct (run_swap m x y p q d e ix iy ip iq) with (s := s) (l := S) as (m' & Hrun & Hren & Hd & Hc); try done; try (apply HSin; tauto).
  - intros ->. set_solver.
  - intros ->. set_solver.
  - intros ->. set_solver.
  - intros ->. set_solver.
  - intros ->. set_solver.
  - intros ->. set_solver.
  - apply HSin. set_solver.
  - intros b Hb. assert (child b ix = ptr l \/ child b ix = ptr (plug (Node Leaf y ry) cy)) as [E|E] by (destruct b; [by right|by left]); rewrite E in *; apply ptr_nonzero in Hb; unfold S; cbn; set_solver.
  - intros b Hb. assert (child b iy = 0 \/ child b iy = ptr ry) as [E|E] by (destruct b; [by right|by left]); rewrite E in *; [done|]. apply ptr_nonzero in Hb. apply HSin. tauto.
  - exists m'. split_and!; [done| |done|done]. assert (forall a, a ∈ S -> moved (swap x y) m m' a) as Hmv.
    { intros a Ha i Hi. apply Hren; [|intros ->; apply HSin in Ha; set_solver]. destruct (located_wired m _ c a Hl Ha) as [i' Wi]. by replace i with i' by (destruct Wi; congruence). }
    assert (swap x y 0 = 0) as F0 by (apply swap_other; done). assert (forall l', x ∉ l' -> y ∉ l' -> forall a, a ∈ l' -> swap x y a = a) as Hid by (intros l' H1 H2; by apply swap_away).
    assert (rename (swap x y) (Node Leaf y ry) = Node Leaf x ry) as Et by (cbn; rewrite swap_right, (rename_id _ ry); [done|]; apply Hid; set_solver).
    assert (rename_path (swap x y) c' = cy ++ (true, y, l) :: c) as Ecp.
    { unfold c', rename_path. rewrite map_app. cbn. rewrite swap_left, (rename_id _ l) by (apply Hid; set_solver). f_equal; [|f_equal]; apply rename_path_id, Hid; set_solver. }
    unfold located. rewrite <- Et at 1 2. split_and!.
    + apply (hung_rename (swap x y) m); [done|done|]. intros a Ha. apply Hmv. rewrite <- HS. set_solver.
    + replace (top (cy ++ (true, y, l) :: c) 0) with (swap x y (top c' 0)) by (rewrite <- Ecp; destruct c' as [|[[? ?] ?] ?]; done).
      apply (parent_is_rename (swap x y) m); [done|apply Hy|]. intros _. apply Hmv. rewrite <- HS. cbn. set_solver.
    + rewrite <- Ecp. change (ptr (Node Leaf x ry)) with x. pose proof (segment_rename (swap x y) m m' F0 y c' 0 Hsy) as Hseg. rewrite swap_right, F0 in Hseg.
      apply Hseg. intros a Ha. apply Hmv. rewrite <- HS. set_solver.
    + assert (nodes (Node Leaf x ry) ++ path_nodes (cy ++ (true, y, l) :: c) ≡ₚ nodes (Node Leaf y ry) ++ path_nodes c') as Hperm by (unfold c'; rewrite !path_nodes_app; cbn; solve_Permutation).
      by rewrite Hperm.
Qed.

(** ** Cutting out an item with at most one child *)

Definition unlink (item : Z) (k : Z -> M state unit) : M state unit :=
  let! i := read item in
  let! p := read (parent i) in
  let l := ChildLink (parent i) (right p =? item) in
  write_link l (if left i =? 0 then right i else left i) ;;;
  let! below := read_link l in
  let! i := read item in
  write_if below (set_parent (parent i)) ;;;
  (if TREE_VALIDATE then write item (set_inTree 0) else ret tt) ;;;
  let! below := read_link l in
  let! i := read item in
  k (if below =? 0 then parent i else below).

(** What is left of the subtree. *)
Definition leaves (l r u : shape) : Prop := (l = Leaf /\ u = r) \/ (r = Leaf /\ u = l).

Lemma leaves_ptr l r u : leaves l r u -> (if ptr l =? 0 then ptr r else ptr l) = ptr u.
Proof. intros [[-> ->]|[-> ->]]; [done|]. cbn. destruct (Z.eqb_spec (ptr l) 0); congruence. Qed.
Lemma leaves_nodes l item r u : leaves l r u -> nodes (Node l item r) ≡ₚ item :: nodes u.
Proof. intros [[-> ->]|[-> ->]]; [done|]. cbn. by rewrite <- Permutation_middle, app_nil_r. Qed.

Lemma child_side m h d a t c : segment m h ((d, a, t) :: c) 0 -> h <> 0 -> h ∉ nodes t -> exists i, m !! a = Some i /\ (right i =? h) = d.
Proof.
  intros (i & [Hi Hc Ho _ _ _] & _) Hz Hn. exists i. split; [done|]. destruct d; cbn in Hc, Ho; [by apply Z.eqb_eq|]. apply Z.eqb_neq. intros E.
  apply Hn. rewrite <- E, Ho. apply ptr_nonzero. congruence.
Qed.

Definition unlinked m (item p v : Z) (d : bool) : gmap Z AVLItem :=
  let m2 := alter_if v (set_parent p) (alter (set_child d v) p m) in if TREE_VALIDATE then alter (set_inTree 0) item m2 else m2.

Lemma run_unlink s m l item r u d p t1 c (k : Z -> M state unit) : located m (Node l item r) ((d, p, t1) :: c) -> leaves l r u -> p <> 0 ->
  unlink item k (set_items m s) = k (if ptr u =? 0 then p else ptr u) (set_items (unlinked m item p (ptr u) d) s).
Proof.
  intros Hl Hu Hp. destruct (located_item _ _ _ _ _ Hl) as (i & Wi & Pi & Li & Ri & _). cbn in Pi. pose proof Hl as (_ & _ & Hs & Hnd). cbn in Hnd.
  assert (item <> 0 /\ item ∉ nodes t1 /\ p <> item /\ ptr u <> item /\ ptr u <> p) as (Hi0 & Hit & Hpi & Hui & Hup).
  { pose proof (leaves_nodes l item r u Hu) as Hn. cbn in Hn. rewrite Hn in Hnd. cbn in Hnd. rewrite !list.NoDup_cons, list.NoDup_app in Hnd.
    assert (forall a, ptr u = a -> a <> 0 -> a ∈ nodes u) as Hin by (intros a <- Ha; by apply ptr_nonzero). split_and!; [set_solver..| |]; intros E; apply Hin in E; set_solver. }
  destruct (child_side _ _ _ _ _ _ Hs) as (ip & Hip & Hd); [done|done|]. cbn [ptr] in Hd. unfold unlink. rewrite (run_read s m item i), Pi by apply Wi. rewrite (run_read s m p ip), Hd by done.
  rewrite Li, Ri, (leaves_ptr l r u Hu). cbn [write_link read_link ptr]. rewrite (run_write s m p ip) by done. set (m1 := alter (set_child d (ptr u)) p m).
  assert (m1 !! p = Some (set_child d (ptr u) ip)) as Hp1 by (unfold m1; by rewrite lookup_alter_eq, Hip).
  assert (m1 !! item = Some i) as Hi1 by (unfold m1; rewrite lookup_alter_ne by done; apply Wi).
  rewrite bind_assoc, (run_read s m1 p _ _ Hp1), child_set. cbn [bind ret]. rewrite (run_read s m1 item i), Pi by done.
  assert (ptr u <> 0 -> is_Some (m1 !! ptr u)) as Hsome.
  { intros Hne. unfold m1. rewrite lookup_alter_is_Some. destruct (located_wired m _ _ (ptr u) Hl) as [j Wj]; [|destruct Wj; by eexists].
    rewrite (leaves_nodes l item r u Hu). pose proof (ptr_nonzero u Hne). set_solver. }
  rewrite run_write_if by done. destruct (alter_parent m1 (ptr u) p p _ Hp1 Hp) as (ip2 & Hp2 & Cp2 & _). destruct (alter_parent m1 (ptr u) p item _ Hi1 Hi0) as (i2 & Hi2 & _ & Pi2 & _).
  rewrite decide_False in Pi2 by done. set (m2 := alter_if (ptr u) (set_parent p) m1) in *. unfold unlinked. fold m1 m2. specialize (Cp2 d). rewrite child_set in Cp2.
  destruct TREE_VALIDATE.
  - rewrite (run_write s m2 item i2) by done. rewrite bind_assoc, (run_read s _ p ip2) by (rewrite lookup_alter_ne; done). rewrite Cp2. cbn [bind ret].
    rewrite (run_read s _ item (set_inTree 0 i2)) by (by rewrite lookup_alter_eq, Hi2). cbn. by rewrite Pi2, Pi.
  - change (bind (ret tt) ?k (set_items m2 s)) with (k tt (set_items m2 s)). cbv beta. rewrite bind_assoc, (run_read s _ p ip2), Cp2 by done. cbn [bind ret].
    rewrite (run_read s _ item i2) by done. by rewrite Pi2, Pi.
Qed.
Lemma unlinked_ok m l item r u d p t1 c : located m (Node l item r) ((d, p, t1) :: c) -> leaves l r u -> let m' := unlinked m item p (ptr u) d in
  located m' u ((d, p, t1) :: c) /\ same_data m m' /\ changes (item :: nodes u ++ path_nodes ((d, p, t1) :: c)) m m' /\
  (TREE_VALIDATE = true -> inTree <$> m' !! item = Some 0).
Proof.
  intros Hl Hu m'. pose proof Hl as (Hh & _ & Hs & Hnd). pose proof Hnd as Hnd0. rewrite (leaves_nodes l item r u Hu) in Hnd. cbn [app] in Hnd.
  apply list.NoDup_cons in Hnd as [Hz [Hni (N1 & N2 & N3)%list.NoDup_app]%list.NoDup_cons]. set (C := (d, p, t1) :: c) in *.
  assert (p ∈ path_nodes C /\ forall a, a ∈ nodes t1 -> a ∈ path_nodes C) as [HpC HtC] by (unfold C; cbn; set_solver).
  assert (hung m u) as Hhu by (destruct Hh as (_ & _ & _ & ? & ?); by destruct Hu as [[_ ->]|[_ ->]]).
  assert (item <> 0 /\ item <> p /\ item ∉ nodes t1) as (Hi0 & Hip & Hit) by (split_and!; set_solver).
  destruct (run_replace_child (MkState m (MkTree 0 false false)) m item (ptr u) d p t1 c ret Hs) as [_ Hs1]; [done|done|done|]. fold C in Hs1.
  unfold m', unlinked. clear m'. set (m1 := alter (set_child d (ptr u)) p m) in *. set (m2 := alter_if (ptr u) (set_parent p) m1).
  assert (changes [p] m m1) as C1 by (apply changes_alter; set_solver).
  assert (changes (nodes u) m1 m2) as C2 by (apply changes_alter_if; intros; by apply ptr_nonzero).
  destruct (hung_reparent m1 u p) as [Hh2 Hp2]; [done|set_solver|eapply hung_changes; [exact C1|set_solver|done]|]. fold m2 in Hh2, Hp2.
  apply (segment_changes _ _ m2 _ _ _ C2) in Hs1; [|set_solver].
  set (m3 := if TREE_VALIDATE then _ else _). assert (changes [item] m2 m3) as C3 by (unfold m3; destruct TREE_VALIDATE; [apply changes_alter; set_solver|done]).
  split; [unfold located; split_and!|split_and!].
  - eapply hung_changes; [exact C3|set_solver|done].
  - eapply parent_is_changes; [exact C3|set_solver|done].
  - eapply segment_changes; [exact C3|set_solver|done].
  - apply list.NoDup_cons. split; [set_solver|]. by apply list.NoDup_app.
  - apply (same_data_trans _ m2); [|unfold m3; destruct TREE_VALIDATE; [by apply same_data_alter|done]].
    apply (same_data_trans _ m1); [apply same_data_alter; intros; apply data_set_child|by apply same_data_alter_if].
  - apply (changes_trans _ m m2); [apply (changes_trans _ m m1)|]; (eapply changes_mono; [eassumption|set_solver]).
  - intros ETV. unfold m3. rewrite ETV. rewrite lookup_alter_eq, C2, C1 by set_solver. destruct Hh as ((i & -> & _) & _). done.
Qed.

(** ** The way up *)

(** The subtree is as high as before, or one lower. *)
Definition removing (c : path) (t : shape) : Prop := balanced t /\ exists h0, fits h0 c /\ (ht t = h0 \/ ht t = h0 - 1).

Lemma run_TreeGetBalance {A} s m e B b C (k : Z -> M state A) : hung m (N e B b C) -> 0 ∉ nodes (N e B b C) ->
  bind (TreeGetBalance b) k (set_items m s) = k (balance_of e B C) (set_items m s).
Proof.
  intros (i & (S & _ & HC) & _)%hung_N Hz. rewrite nodes_N in Hz. destruct S as [Hi Hc Ho _ _ HB].
  assert (b <> 0 /\ 0 ∉ nodes B /\ 0 ∉ nodes C) as (Hb & HzB & HzC) by (split_and!; set_solver).
  unfold TreeGetBalance. destruct (Z.eqb_spec b 0); [done|]. rewrite bind_assoc, (run_read s m b i) by done.
  destruct e; cbn in Hc, Ho; rewrite Hc, Ho; rewrite bind_assoc, run_item_height by done; rewrite bind_assoc, run_item_height by done; done.
Qed.

(** The rotation that is chosen when the subtree is two lower than the other. *)
Lemma run_remove_rotation {A} s m d t1 a t2 B b C (f : rotation -> M state A) : hung m (N d t1 a t2) -> 0 ∉ nodes (N d t1 a t2) -> t1 = N (negb d) B b C ->
  ht t1 = ht t2 + 2 ->
  bind (remove_rotation a (balance_of d t1 t2)) f (set_items m s) = f (if ht B <=? ht C then once (negb d) else twice (negb d)) (set_items m s).
Proof.
  intros Hh Hz Et Hht. pose proof Hh as (i & (S & _ & _) & _)%hung_N. destruct S as [Hi _ Ho _ _ H1]. rewrite nodes_N in Hz.
  assert (forall (k : Z -> M state A), bind (TreeGetBalance (ptr t1)) k (set_items m s) = k (balance_of (negb d) B C) (set_items m s)) as Hrun.
  { intros k. rewrite Et, ptr_N. apply run_TreeGetBalance; rewrite <- Et; [done|set_solver]. }
  unfold remove_rotation. rewrite bind_assoc, (run_read s m a i) by done. unfold balance_of in *. destruct d; cbn in Ho |- *; rewrite Ho.
  - destruct (Z.ltb_spec 1 (ht t1 - ht t2)); [|lia]. rewrite bind_assoc, Hrun. cbn. destruct (Z.leb_spec 0 (ht C - ht B)), (Z.leb_spec (ht B) (ht C)); (done || lia).
  - destruct (Z.ltb_spec 1 (ht t2 - ht t1)), (Z.ltb_spec (ht t2 - ht t1) (-1)); try lia. rewrite bind_assoc, Hrun. cbn.
    destruct (Z.leb_spec (ht B - ht C) 0), (Z.leb_spec (ht B) (ht C)); (done || lia).
Qed.

Lemma removing_up d a t1 t2 c : removing ((d, a, t1) :: c) t2 -> -1 <= ht t1 - ht t2 <= 1 -> removing c (N d t1 a t2).
Proof.
  intros (Hb & h0 & (B1 & B2 & Hf) & Hh) Hbal. split; [by apply balanced_N|]. exists (Z.max h0 (ht t1) + 1). split; [done|]. rewrite ht_N. lia.
Qed.
Lemma removing_rotate d a t1 t2 c : removing ((d, a, t1) :: c) t2 -> ~ -1 <= ht t1 - ht t2 <= 1 ->
  ht t1 = ht t2 + 2 /\ exists B b C t', t1 = N (negb d) B b C /\ rotates (if ht B <=? ht C then once (negb d) else twice (negb d)) (N d t1 a t2) t' /\ removing c t'.
Proof.
  intros (Hb & h0 & (B1 & B2 & Hf) & Hh) Hbal. assert (ht t1 = h0 + 1 /\ ht t2 = h0 - 1) as [E1 E2] by lia. split; [lia|]. set (e := negb d).
  assert (exists B b C, t1 = N e B b C) as (B & b & C & Et).
  { destruct t1 as [|u b u']; [pose proof (ht_nonneg t2); cbn in *; lia|]. destruct e; [by exists u, b, u'|by exists u', b, u]. }
  exists B, b, C. rewrite <- (N_flip d). fold e. rewrite Et in *. rewrite ht_N in E1, Hf. rewrite balanced_N in B1. destruct B1 as (BB & HB & HC). destruct (Z.leb_spec (ht B) (ht C)).
  - exists (N e (N e t2 a B) b C). split_and!; [done|apply rotates_once|]. split; [rewrite !balanced_N, !ht_N; split_and!; (done || lia)|].
    eexists. split; [exact Hf|]. rewrite !ht_N. lia.
  - assert (exists B1 z B2, B = N e B1 z B2) as (B3 & z & B4 & EB).
    { destruct B as [|u z u']; [pose proof (ht_nonneg C); cbn in *; lia|]. destruct e; [by exists u, z, u'|by exists u', z, u]. }
    rewrite EB in *. rewrite ht_N in *. rewrite balanced_N in HB. exists (N e (N e t2 a B3) z (N e B4 b C)). split_and!; [done|apply rotates_twice|].
    split; [rewrite !balanced_N, !ht_N; split_and!; (tauto || lia)|]. eexists. split; [exact Hf|]. rewrite !ht_N. lia.
Qed.

Lemma removing_step s (m0 m : gmap Z AVLItem) d a t1 t2 c : located m (N d t1 a t2) (c ++ [fake_frame]) -> same_data m0 m -> removing ((d, a, t1) :: c) t2 ->
  exists r t', (forall T (f : rotation -> M state T), bind (remove_rotation a (balance_of d t1 t2)) f (set_items m s) = f r (set_items m s)) /\
    rotates r (N d t1 a t2) t' /\ removing c t'.
Proof.
  intros (Hh & _ & _ & Hnd) _ Hr. apply NoDup_first, list.NoDup_cons in Hnd as [Hz _]. destruct (decide (-1 <= ht t1 - ht t2 <= 1)) as [Hbal|Hbal].
  - exists NoRotation, (N d t1 a t2). split_and!; [|constructor|by apply removing_up]. intros T f. apply hung_N in Hh as (i & ([Hi _ _ _ _ _] & _) & _).
    unfold remove_rotation. rewrite bind_assoc, (run_read s m a i) by done. apply balance_of_range with (d := d) in Hbal.
    destruct (Z.ltb_spec 1 (balance_of d t1 t2)), (Z.ltb_spec (balance_of d t1 t2) (-1)); try lia. done.
  - destruct (removing_rotate _ _ _ _ _ Hr Hbal) as (Hht & B & b & C & t' & Et & Hro & Hr'). eexists _, t'. split_and!; [|exact Hro|done].
    intros T f. by apply (run_remove_rotation s m d t1 a t2 B b C f).
Qed.

(** ** From the item to the root *)

Lemma path_frame c : exists d p t1 c', c ++ [fake_frame] = (d, p, t1) :: c'.
Proof. destruct c as [|[[d p] t1] c]; cbn; eauto. Qed.

Lemma run_cut s m l item r u c (k : unit -> M state unit) : located m (Node l item r) (c ++ [fake_frame]) -> leaves l r u -> balanced (Node l item r) ->
  fits (ht (Node l item r)) c ->
  exists m' t', unlink item (fun below => let! s := get in rebalance remove_rotation (tree_fuel s) below ;;; k tt) (set_items m s) = k tt (set_items m' s) /\
    located m' t' [fake_frame] /\ balanced t' /\ nodes t' = nodes (plug u c) /\
    changes (item :: nodes u ++ path_nodes (c ++ [fake_frame])) m m' /\ same_data m m' /\ (TREE_VALIDATE = true -> inTree <$> m' !! item = Some 0).
Proof.
  intros Hl Hu Hb Hf. destruct (path_frame c) as (d & p & t1 & c1 & Ec). pose proof Hl as Hl0. rewrite Ec in Hl0.
  destruct (unlinked_ok m l item r u d p t1 c1 Hl0 Hu) as (Hl1 & Hd1 & Hc1 & Ht1). set (m1 := unlinked m item p (ptr u) d) in *.
  assert (p <> 0) as Hp0 by (destruct Hl1 as (_ & _ & _ & Hnd); apply list.NoDup_cons in Hnd as [Hz _]; intros ->; set_solver).
  assert (exists t c', located m1 t (c' ++ [fake_frame]) /\ removing c' t /\ (if ptr u =? 0 then p else ptr u) = top (c' ++ [fake_frame]) 0 /\
    nodes t ++ path_nodes (c' ++ [fake_frame]) ≡ₚ nodes u ++ path_nodes (c ++ [fake_frame]) /\ nodes (plug t c') = nodes (plug u c)) as (t & c' & Hl2 & Hr & Htop & Hperm & Hn).
  { rewrite <- Ec in Hl1. assert (ht (Node l item r) = ht u + 1 /\ balanced u /\ ht u <= 1) as (Eh & Bu & Hu1).
    { pose proof (ht_nonneg u). cbn in Hb |- *. destruct Hb as (Hb & Bl & Br). destruct Hu as [[-> ->]|[-> ->]]; cbn in *; split_and!; (done || lia). }
    rewrite Eh in Hf. destruct u as [|ul b ur].
    - exists Leaf, c. split_and!; [done| |by rewrite Ec|done|done]. split; [done|]. exists 1. split; [done|cbn; lia].
    - cbn in Hu1, Bu. pose proof (ht_nonneg ul). pose proof (ht_nonneg ur). assert (ht ul = 0 /\ ht ur = 0) as [->%ht_leaf ->%ht_leaf] by lia.
      exists Leaf, ((true, b, Leaf) :: c). split_and!; [by apply (located_down m1 true Leaf b Leaf)| | |done|done].
      + split; [done|]. exists 1. cbn in *. split_and!; (done || lia).
      + cbn. destruct Hl1 as (_ & _ & _ & Hnd). cbn in Hnd. apply list.NoDup_cons in Hnd as [Hz _]. destruct (Z.eqb_spec b 0) as [->|]; [set_solver|done]. }
  destruct (run_rebalance s m1 remove_rotation removing) with (n := S (S (size m1))) (c := c') (m := m1) (t := t)
    as (m2 & t2 & Hrun & Hl3 & [Hb2 _] & Hn2 & Hc2 & Hd2); [intros; by apply (removing_step s m1)| |done..|].
  { pose proof (located_fuel _ _ _ Hl2) as Hlen. rewrite length_app in Hlen. lia. }
  exists m2, t2. split_and!; [|done|done|by rewrite Hn2| |by eapply same_data_trans|].
  - rewrite (run_unlink s m l item r u d p t1 c1) by done. fold m1. rewrite Htop. unfold bind at 1, get. unfold tree_fuel. cbn [items set_items]. by rewrite (bind_ok _ _ _ _ _ Hrun).
  - rewrite Ec in *. apply (changes_trans _ m m1); [done|]. eapply changes_mono; [exact Hc2|]. intros x. rewrite Hperm. set_solver.
  - intros ETV. rewrite Hc2; [by apply Ht1|]. rewrite Hperm. destruct Hl as (_ & _ & _ & Hnd). rewrite (leaves_nodes l item r u Hu) in Hnd. cbn [app] in Hnd.
    rewrite !list.NoDup_cons in Hnd. tauto.
Qed.

(** ** The next item *)

Definition smallest (long : bool) : list Z := key_value long (MakeKey 0 0).
Lemma smallest_least long k : valid_key long k -> 0 <= lex (key_value long k) (smallest long).
Proof.
  intros [Hk _]. unfold smallest, key_value. destruct long; cbn; [by destruct (longKey k =? 0)|]. destruct (Z.eqb_spec (longKey k) 0), (Z.ltb_spec (longKey k) 0); lia.
Qed.
Lemma smallest_valid long : valid_key long (MakeKey 0 0).
Proof. by split. Qed.

(** At most one of the items has the smallest key: the search stops at an item that has it, whatever comes before. *)
Definition one_smallest (long : bool) m (l : list Z) : Prop :=
  forall a b, a ∈ l -> b ∈ l -> value_of long m a = smallest long -> value_of long m b = smallest long -> a = b.

Definition leftmost (c : path) : Prop := Forall (fun '(d, _, _) => d = false) c.
Lemma leftmost_nodes c : leftmost c -> exists rest, forall t, nodes (plug t c) = nodes t ++ rest.
Proof.
  induction c as [|[[d a] u] c IH]; [exists []; intros; by rewrite app_nil_r|]. intros [-> (rest & Hr)%IH]%list.Forall_cons. exists (a :: nodes u ++ rest). intros t.
  cbn. rewrite Hr. cbn. by rewrite <- app_assoc.
Qed.

Lemma value_least s m t a : searchable s m t -> a ∈ nodes t -> 0 <= lex (value_of (longKeys (tree s)) m a) (smallest (longKeys (tree s))).
Proof.
  intros [Hh _ _ Hk] Ha. destruct (hung_some m t a Hh Ha) as [i Hi]. unfold keys_valid in Hk. rewrite list.Forall_forall in Hk. unfold value_of. rewrite Hi.
  by apply smallest_least, (Hk a).
Qed.

Lemma run_find_first n s m t : searchable s m t -> NoDup (nodes t) -> t <> Leaf -> one_smallest (longKeys (tree s)) m (nodes t) -> (length (nodes t) < n)%nat ->
  exists y ry c, t = plug (Node Leaf y ry) c /\ leftmost c /\
    TreeFindRecursive n (ptr t) (MakeKey 0 0) TREE_SEARCH_SMALLEST_ABOVE_OR_EQUAL (set_items m s) = (Ok y, set_items m s).
Proof.
  intros Hse Hnd Hne Ho Hn. revert n Hse Hnd Ho Hn. induction t as [|l IH a r _]; [done|]. clear Hne. intros n Hse Hnd Ho Hn. destruct n as [|n]; [lia|].
  destruct (searchable_node _ _ _ _ _ Hse) as (i & Hi & Hli & Hri & _ & _ & Va & _ & _ & Hsl & _). pose proof (fun b => value_least _ _ _ b Hse) as Hleast.
  destruct Hse as [_ Hz Hso _]. cbn in Hz, Hso, Hn, Hnd, Ho, Hleast. rewrite length_app in Hn. cbn in Hn. apply sorted_node in Hso as (_ & _ & Hl & _).
  apply list.NoDup_app in Hnd as (N1 & N2 & _). assert (a <> 0) as Hza by (intros ->; set_solver).
  destruct (run_compare_key s m a i (MakeKey 0 0) Hi Va (smallest_valid _)) as (c & Hrun & Hc). fold (smallest (longKeys (tree s))) in Hc. destruct (sgn_tests _ _ Hc) as (T1 & T2 & _).
  set (v := value_of (longKeys (tree s)) m) in *. set (k := smallest (longKeys (tree s))) in *. cbn [TreeFindRecursive ptr]. destruct (Z.eqb_spec a 0); [done|].
  rewrite (run_read s m a i), Hrun, T1 by done. destruct (Z.eqb_spec (lex (v a) k) 0) as [E|E].
  - exists a, r, []. split_and!; [|constructor|done]. destruct l as [|l1 b l2]; [done|]. exfalso. apply lex_eq in E. assert (b ∈ nodes (Node l1 b l2)) as Hb by (cbn; set_solver).
    specialize (Hl b Hb). rewrite E in Hl. assert (v b = k) as Eb by (apply lex_eq; specialize (Hleast b); rewrite elem_of_app in Hleast; specialize (Hleast (or_introl Hb)); lia).
    assert (b = a) as -> by (apply Ho; set_solver). apply (N2 a Hb). set_solver.
  - assert (0 < lex (v a) k) by (assert (0 <= lex (v a) k) by (apply Hleast; set_solver); lia). rewrite Hrun, T2. destruct (Z.ltb_spec 0 (lex (v a) k)); [|lia]. rewrite Hli. unfold bind.
    destruct l as [|l1 b l2].
    + exists a, r, []. split_and!; [done|constructor|]. destruct n as [|n]; [lia|]. done.
    + destruct (IH ltac:(done) n) as (y & ry & cy & Et & Hlm & Hf); [done|done|intros x1 x2 ? ?; apply Ho; set_solver|lia|].
      exists y, ry, (cy ++ [(false, a, r)]). split_and!; [rewrite plug_app; by rewrite <- Et|apply list.Forall_app; by split; [|constructor]|].
      rewrite Hf. assert (y <> 0) as Hy; [|by destruct (Z.eqb_spec y 0)]. intros ->. apply Hz. rewrite Et. rewrite plug_nodes. cbn. set_solver.
Qed.

(** ** At most one child *)

Definition isolate (item : Z) : M state unit :=
  let! i := read item in
  if negb (left i =? 0) && negb (right i =? 0) then
    let! s := get in
    let! smallest := TreeFindRecursive (tree_fuel s) (right i) (MakeKey 0 0) TREE_SEARCH_SMALLEST_ABOVE_OR_EQUAL in
    TreeSwapItems smallest item
  else ret tt.

Lemma fits_renamed h c1 d a b u c2 : fits h (c1 ++ (d, a, u) :: c2) -> fits h (c1 ++ (d, b, u) :: c2).
Proof. revert h. induction c1 as [|[[d' a'] u'] c1 IH]; intros h; cbn; [done|]. naive_solver. Qed.
Lemma fits_app h c1 c2 : fits h (c1 ++ c2) -> fits h c1.
Proof. revert h. induction c1 as [|[[d a] u] c1 IH]; intros h; cbn; naive_solver. Qed.
Lemma zero_ptr t : 0 ∉ nodes t -> (ptr t =? 0) = bool_decide (t = Leaf).
Proof. intros Hz. case_bool_decide as E; [by rewrite E|]. apply Z.eqb_neq. intros E'. apply Hz. rewrite <- E'. by apply ptr_in. Qed.

(** The item in a place with at most one child, [u]; without it, the order of the others is the same. *)
Record isolated (item : Z) (t : shape) (c : path) m (l r u : shape) (c' : path) : Prop := {
  is_located : located m (Node l item r) (c' ++ [fake_frame]);
  is_leaves : leaves l r u;
  is_balanced : balanced (Node l item r);
  is_fits : fits (ht (Node l item r)) c';
  is_nodes : exists l1 l2, nodes (plug t c) = l1 ++ item :: l2 /\ nodes (plug u c') = l1 ++ l2;
  is_same : nodes (Node l item r) ++ path_nodes c' ≡ₚ nodes t ++ path_nodes c;
}.

Lemma isolated_here m l item r u c : located m (Node l item r) (c ++ [fake_frame]) -> balanced (Node l item r) -> fits (ht (Node l item r)) c -> leaves l r u ->
  isolated item (Node l item r) c m l r u c.
Proof.
  intros Hl Hb Hf Hu. split; try done. destruct (plug_inorder c) as (l1 & l2 & Hc). exists (l1 ++ nodes l), (nodes r ++ l2). rewrite !Hc. split; [cbn; by rewrite <- !app_assoc|].
  destruct Hu as [[-> ->]|[-> ->]]; cbn; by rewrite <- ?app_assoc.
Qed.

Lemma run_isolate s m l item r c (k : unit -> M state unit) : located m (Node l item r) (c ++ [fake_frame]) -> searchable s m r -> one_smallest (longKeys (tree s)) m (nodes r) ->
  balanced (Node l item r) -> fits (ht (Node l item r)) c ->
  exists m' l' r' u c', bind (isolate item) k (set_items m s) = k tt (set_items m' s) /\ isolated item (Node l item r) c m' l' r' u c' /\
    same_data m m' /\ changes (nodes (Node l item r) ++ path_nodes (c ++ [fake_frame])) m m'.
Proof.
  intros Hl Hse Ho Hb Hf. destruct (located_item _ _ _ _ _ Hl) as (i & Wi & _ & Li & Ri & _). pose proof Hl as (_ & _ & _ & Hnd). pose proof (NoDup_first _ _ _ Hnd) as [Hz Hn]%list.NoDup_cons.
  cbn in Hz, Hn. assert (0 ∉ nodes l /\ 0 ∉ nodes r) as [Hzl Hzr] by set_solver. unfold isolate. rewrite bind_assoc, (run_read s m item i) by apply Wi. rewrite Li, Ri, !zero_ptr by done.
  destruct (decide (l = Leaf)) as [El|El]; [|destruct (decide (r = Leaf)) as [Er|Er]].
  - rewrite bool_decide_true by done. exists m, l, r, r, c. split_and!; [done|apply isolated_here; [done..|by left]|done|done].
  - rewrite (bool_decide_true (r = Leaf)), andb_false_r by done. exists m, l, r, l, c. split_and!; [done|apply isolated_here; [done..|by right]|done|done].
  - rewrite !bool_decide_false by done. cbn [negb andb]. rewrite !bind_assoc. unfold bind at 1, get. unfold tree_fuel. cbn [items set_items].
    apply list.NoDup_app in Hn as (_ & _ & [_ Hn]%list.NoDup_cons).
    destruct (run_find_first (S (S (size m))) s m r) as (y & ry & cy & Er' & Hlm & Hfind); [done..| |].
    { assert (length (nodes r) <= size m)%nat; [|lia]. apply nodes_size; [done|]. intros a. apply hung_some, Hse. }
    rewrite bind_assoc, (bind_ok _ _ _ _ _ Hfind). rewrite Er' in Hl, Hb, Hf |- *.
    destruct (run_swap_successor s m l item y ry cy (c ++ [fake_frame])) as (m' & Hswap & Hl' & Hd & Hc); [done| |].
    { destruct (path_frame c) as (d & p & t1 & c1 & Ec). rewrite Ec in *. cbn in *. apply list.NoDup_cons in Hnd as [Hz' _]. intros ->. set_solver. }
    rewrite (bind_ok _ _ _ _ _ Hswap). exists m', Leaf, ry, ry, (cy ++ (true, y, l) :: c).
    assert (balanced (Node Leaf y ry) /\ fits (ht (Node Leaf y ry)) (cy ++ (true, item, l) :: c)) as [Hby Hfy].
    { apply fits_plug. rewrite plug_app. cbn [plug]. apply fits_plug. by split. }
    split_and!; [done| |done|done]. split; [by rewrite <- app_assoc|by left|done|by apply (fits_renamed _ cy true item y)| |].
    + destruct (leftmost_nodes cy Hlm) as (rest & Hrest), (plug_inorder c) as (l1 & l2 & Hc'). exists (l1 ++ nodes l), (y :: nodes ry ++ rest ++ l2).
      rewrite plug_app. cbn [plug N]. rewrite !Hc'. cbn [nodes]. rewrite !Hrest. cbn. rewrite <- !app_assoc. cbn. by rewrite <- !app_assoc.
    + cbn. rewrite plug_nodes, path_nodes_app. cbn. solve_Permutation.
Qed.

(** ** To the end *)

Definition close_remove : M state unit :=
  let! fake := read fakeRoot in
  modify (set_root (left fake)) ;;;
  let! s := get in
  (if root (tree s) =? 0 then ret tt
   else
     let! r := read (root (tree s)) in
     if negb (SharedTree.parent r =? fakeRoot) then EsPanic else write (root (tree s)) (set_parent 0)) ;;;
  drop_fakeRoot ;;;
  let! s := get in
  TreeValidate (root (tree s)) ;;;
  modify (set_modCheck false).

Lemma TreeRemove_eq item s : TreeRemove item s =
  (let! s := get in
   if modCheck (tree s) then EsPanic
   else
     modify (set_modCheck true) ;;;
     TreeValidate (root (tree s)) ;;;
     let! i := read item in
     if TREE_VALIDATE && negb (inTree i =? tree_address) then EsPanic
     else
       add_fakeRoot ;;;
       isolate item ;;;
       unlink item (fun below => let! s := get in rebalance remove_rotation (tree_fuel s) below ;;; close_remove)) s.
Proof.
  unfold TreeRemove. apply bind_ext; intros s0 ?. destruct (modCheck (tree s0)); [done|]. do 3 (apply bind_ext; intros ? ?). destruct (_ && _); [done|].
  apply bind_ext; intros ? ?. unfold isolate. by rewrite bind_assoc.
Qed.

Lemma run_close_remove s m t : located m t [fake_frame] -> let m' := without_fakeRoot m (ptr t) in
  sorted (longKeys (tree s)) m' (nodes t) -> keys_valid (longKeys (tree s)) m' (nodes t) ->
  close_remove (set_items m s) = (Ok tt, set_modCheck false (set_root (ptr t) (set_items m' s))).
Proof.
  intros Hl m' Hso Hk. destruct (close_fakeRoot m t Hl) as ((F & HF & HFl) & Hroot & Hh & Hp & _). fold m' in Hh, Hp.
  assert (NoDup (0 :: nodes t)) as [Hz Hnd]%list.NoDup_cons by (destruct Hl as (_ & _ & _ & Hnd); by apply NoDup_first in Hnd).
  unfold close_remove. rewrite (run_read s m fakeRoot F), HFl by done. unfold bind at 1, modify. unfold bind at 1, get.
  change (set_root (ptr t) (set_items m s)) with (set_items m (set_root (ptr t) s)). cbn [tree set_root set_items set_tree root].
  assert (forall k : unit -> M state unit, bind (if ptr t =? 0 then ret tt else let! r := read (ptr t) in if negb (SharedTree.parent r =? fakeRoot) then EsPanic else write (ptr t) (set_parent 0)) k
    (set_items m (set_root (ptr t) s)) = k tt (set_items (alter_if (ptr t) (set_parent 0) m) (set_root (ptr t) s))) as Hrun.
  { intros k. unfold alter_if. destruct (Z.eqb_spec (ptr t) 0) as [E|E]; [done|]. destruct Hroot as [->|(i & Hi & Hpi)]; [done|].
    rewrite bind_assoc, (run_read _ m (ptr t) i), Hpi, Z.eqb_refl by done. cbn [negb]. by rewrite (run_write _ m (ptr t) i). }
  change (MkState m (MkTree (ptr t) (modCheck (tree s)) (longKeys (tree s)))) with (set_items m (set_root (ptr t) s)). rewrite Hrun. unfold bind at 1, drop_fakeRoot, modify. cbn [items set_items set_root set_tree].
  change (delete fakeRoot _) with m'. unfold bind at 1. change (set_items m' (set_items _ (set_root (ptr t) s))) with (set_items m' (set_root (ptr t) s)). cbn [root tree set_items set_root set_tree].
  by rewrite run_TreeValidate.
Qed.

(** ** Removal *)

Lemma plug_at t item : item ∈ nodes t -> exists l r c, t = plug (Node l item r) c.
Proof.
  induction t as [|l IHl a r IHr]; cbn; [set_solver|]. intros [Hi|[->|Hi]%elem_of_cons]%elem_of_app.
  - destruct (IHl Hi) as (l' & r' & c & ->). exists l', r', (c ++ [(false, a, r)]). by rewrite plug_app.
  - by exists l, r, [].
  - destruct (IHr Hi) as (l' & r' & c & ->). exists l', r', (c ++ [(true, a, l)]). by rewrite plug_app.
Qed.
Lemma split_unique (x : Z) l1 l2 k1 k2 : NoDup (l1 ++ x :: l2) -> l1 ++ x :: l2 = k1 ++ x :: k2 -> l1 = k1 /\ l2 = k2.
Proof.
  revert k1. induction l1 as [|a l1 IH]; intros [|b k1] Hnd E; cbn in *; apply list.NoDup_cons in Hnd as [Hx Hnd]; simplify_eq; set_solver.
Qed.
Lemma sorted_without long m l1 x l2 : sorted long m (l1 ++ x :: l2) -> sorted long m (l1 ++ l2).
Proof. unfold sorted. rewrite !StronglySorted_app. intros (H1 & H2 & [H3 _]%StronglySorted_inv). split_and!; [|done|done]. intros a b Ha Hb. apply H1; [done|by right]. Qed.
Lemma keys_valid_without long m l1 x l2 : keys_valid long m (l1 ++ x :: l2) -> keys_valid long m (l1 ++ l2).
Proof. unfold keys_valid. rewrite !list.Forall_app, list.Forall_cons. tauto. Qed.

Lemma same_data_but_close a m m1 m2 m3 : same_data_but a m m1 -> same_data m1 m2 -> same_data_but a m2 m3 -> m !! a = None -> m3 !! a = None -> same_data m m3.
Proof. intros H1 H2 H3 E1 E3 x. destruct (decide (x = a)) as [->|]; [by rewrite E1, E3|]. by rewrite (H3 x), (H2 x), (H1 x). Qed.

Section Removing.
Context (s : state) (l : shape) (item : Z) (r : shape) (c : path).
Notation t := (plug (Node l item r) c).
Notation long := (longKeys (tree s)).
Hypotheses (Hok : tree_ok s t) (Ho : one_smallest long (items s) (nodes r)).

(** Up to where the item is cut out. *)
Lemma remove_isolated : exists m2 l' r' u c',
  TreeRemove item s = unlink item (fun below => let! s := get in rebalance remove_rotation (tree_fuel s) below ;;; close_remove) (set_items m2 (set_modCheck true s)) /\
  isolated item (Node l item r) c m2 l' r' u c' /\ same_data_but fakeRoot (items s) m2 /\ changes (fakeRoot :: nodes t) (items s) m2.
Proof using Hok Ho.
  pose proof (tree_ok_located _ _ Hok) as Hl0. apply located_plug in Hl0. rewrite app_nil_r in Hl0. set (s1 := set_modCheck true s). set (m := items s) in *.
  pose proof (ok_distinct _ _ Hok) as Hnd. apply list.NoDup_cons in Hnd as [Hz [Hnf Hnd]%list.NoDup_cons]. pose proof (plug_nodes (Node l item r) c) as Hperm.
  destruct (run_add_fakeRoot s1 m (Node l item r) c) as (m1 & Hrun1 & Hl1 & Hc1 & Hd1); [done|done|cbn; rewrite (ok_root _ _ Hok); apply ptr_plug| |].
  { rewrite <- Hperm. intros [Hf|Hf]%elem_of_cons; [|done]. rewrite Hf in Hz. set_solver. }
  assert (forall a, a ∈ nodes t -> same_at m m1 a) as Hat by (intros a Ha; apply Hd1; intros ->; done).
  assert (forall a, a ∈ nodes r -> a ∈ nodes t) as Hr by (intros a Ha; rewrite Hperm; cbn; set_solver).
  pose proof (ok_sorted _ _ Hok) as Hso. pose proof (ok_keys _ _ Hok) as Hk. destruct (plug_inorder c) as (l1 & l2 & Hc'). rewrite Hc' in Hso, Hk. cbn in Hso, Hk. rewrite <- app_assoc in Hso, Hk.
  destruct (run_isolate s1 m1 l item r c (fun _ => unlink item (fun below => let! s := get in rebalance remove_rotation (tree_fuel s) below ;;; close_remove)))
    as (m2 & l' & r' & u & c' & Hrun2 & His & Hd2 & Hc2).
  - done.
  - destruct Hl1 as ((_ & _ & _ & _ & Hhr) & _). split; [done|intros Hzr; apply Hz; right; by apply Hr| |].
    + eapply sorted_at; [intros a Ha; by apply Hat, Hr|]. clear -Hso. change long with (longKeys (tree s)) in *. unfold sorted in *. rewrite !StronglySorted_app in Hso.
      destruct Hso as (_ & _ & _ & _ & _ & [Hso _]%StronglySorted_inv & _). done.
    + eapply keys_valid_at; [intros a Ha; by apply Hat, Hr|]. clear -Hk. unfold keys_valid in *. rewrite !list.Forall_app, ?list.Forall_cons in Hk. tauto.
  - intros a b Ha Hb. change (longKeys (tree s1)) with long. rewrite (value_of_at _ _ _ _ (Hat a (Hr a Ha))), (value_of_at _ _ _ _ (Hat b (Hr b Hb))). by apply Ho.
  - pose proof (ok_balanced _ _ Hok) as Hb. by apply fits_plug in Hb as [? ?].
  - pose proof (ok_balanced _ _ Hok) as Hb. by apply fits_plug in Hb as [? ?].
  - exists m2, l', r', u, c'. split_and!; [|done| |].
    + rewrite TreeRemove_eq. unfold bind at 1, get. rewrite (ok_modCheck _ _ Hok). unfold bind at 1, modify. fold s1. assert (s1 = set_items m s1) as E1 by by destruct s.
      rewrite E1, (ok_root _ _ Hok). rewrite run_TreeValidate; [|by destruct (tree_ok_searchable _ _ Hok); split|apply Hok|done].
      destruct Hl0 as (((i & Hi & _ & _ & _ & Hit) & _) & _). rewrite (run_read s1 m item i) by done.
      assert ((TREE_VALIDATE && negb (inTree i =? tree_address)) = false) as -> by (unfold in_tree in Hit; destruct TREE_VALIDATE; cbn; [|done]; by rewrite Hit, Z.eqb_refl).
      rewrite Hrun1. exact Hrun2.
    + intros a Ha. by rewrite (Hd2 a), (Hd1 a).
    + apply (changes_trans _ m m1); (eapply changes_mono; [eassumption|]); intros a; rewrite ?path_nodes_app, Hperm; cbn; set_solver.
Qed.
End Removing.

(** C11. Removing an item leaves a balanced search tree of the other items in their order, and clears the item's tree; no item's data and nothing outside of the tree has changed.
    The validation before and after passes, and no other check fails.  At most one of the items after the removed one has the smallest key there is (0, or a null string). *)
Theorem TreeRemove_correct s t item l1 l2 : tree_ok s t -> nodes t = l1 ++ item :: l2 -> one_smallest (longKeys (tree s)) (items s) l2 ->
  exists s' t', TreeRemove item s = (Ok tt, s') /\ tree_ok s' t' /\ nodes t' = l1 ++ l2 /\ same_data (items s) (items s') /\ changes (nodes t) (items s) (items s') /\
    (TREE_VALIDATE = true -> inTree <$> items s' !! item = Some 0) /\ longKeys (tree s') = longKeys (tree s).
Proof.
  intros Hok Hn Ho. destruct (plug_at t item) as (l & r & c & ->); [rewrite Hn; set_solver|]. pose proof (tree_ok_NoDup _ _ Hok) as Hnd.
  destruct (remove_isolated s l item r c Hok) as (m2 & l' & r' & u & c' & Hrun & [Hl2 Hu Hb Hf (k1 & k2 & Hk & Hk') Hsame] & Hd2 & Hc2).
  { destruct (plug_inorder c) as (j1 & j2 & Hj). rewrite Hj in Hn, Hnd. cbn in Hn, Hnd. rewrite <- app_assoc in Hn, Hnd. rewrite app_assoc in Hn, Hnd. cbn in Hn, Hnd.
    destruct (split_unique _ _ _ _ _ Hnd Hn) as [_ <-]. intros a b Ha Hb'. apply Ho; set_solver. }
  rewrite Hk in Hn, Hnd. destruct (split_unique _ _ _ _ _ Hnd Hn) as [<- <-]. rewrite <- Hk in Hnd.
  destruct (run_cut (set_modCheck true s) m2 l' item r' u c' (fun _ => close_remove)) as (m3 & t3 & Hcut & Hl3 & Hb3 & Hn3 & Hc3 & Hd3 & Ht3); [done..|].
  destruct (close_fakeRoot m3 t3 Hl3) as (_ & _ & Hh4 & Hp4 & Hf4 & Hd4 & Hc4). set (m4 := without_fakeRoot m3 (ptr t3)) in *. rewrite Hk' in Hn3.
  pose proof (ok_distinct _ _ Hok) as Hdis. pose proof (ok_fakeRoot _ _ Hok) as Hfr. pose proof (ok_null _ _ Hok) as Hnull.
  assert (same_data (items s) m4) as Hd by (apply (same_data_but_close fakeRoot _ m2 m3); [done..|]; done).
  pose proof (ok_sorted _ _ Hok) as Hso. pose proof (ok_keys _ _ Hok) as Hkv. rewrite Hk in Hso, Hkv, Hdis. apply sorted_without in Hso. apply keys_valid_without in Hkv.
  apply (sorted_at _ _ m4) in Hso; [|intros; apply Hd]. apply (keys_valid_same _ _ m4) in Hkv; [|done]. rewrite <- Hn3 in Hso, Hkv.
  rewrite <- Permutation_middle in Hdis. rewrite <- Hn3 in Hdis.
  assert (NoDup (0 :: fakeRoot :: item :: nodes t3)) as Hdis' by done. clear Hdis. rewrite !list.NoDup_cons in Hdis'. destruct Hdis' as (D1 & D2 & D3 & D4).
  assert (forall x, x ∈ nodes (plug (Node l item r) c) <-> x = item \/ x ∈ nodes t3) as Hin by (intros x; rewrite Hk, Hn3; set_solver).
  assert (changes (nodes (plug (Node l item r) c)) (items s) m4) as Hc.
  { intros x Hx. destruct (decide (x = fakeRoot)) as [->|Hxf]; [by rewrite Hf4, Hfr|]. rewrite Hin in Hx. rewrite Hc4 by set_solver. rewrite Hc3.
    - apply Hc2. intros [->|Hx']%elem_of_cons; [done|]. rewrite Hin in Hx'. done.
    - rewrite path_nodes_app. cbn. intros Hx'. rewrite app_assoc, elem_of_cons, elem_of_app in Hx'. destruct Hx' as [->|[Hx'|Hx']]; [by apply Hx; left| |set_solver].
      rewrite <- plug_nodes, Hk', <- Hn3 in Hx'. apply Hx. by right. }
  exists (set_modCheck false (set_root (ptr t3) (set_items m4 (set_modCheck true s)))), t3. split; [|split; [split|split_and!]]; try done.
  - rewrite Hrun, Hcut. by apply run_close_remove.
  - cbn. rewrite !list.NoDup_cons. set_solver.
  - cbn. rewrite Hc; [done|]. rewrite Hin. set_solver.
  - intros ETV. cbn. rewrite Hc4 by set_solver. by apply Ht3.
Qed.
End Remove.
