(* ===== verification/SharedTreeSystem.v ===== *)
(** * A tree to run

    Instances of [TreeSystem], trees made by the program on them, and the theorems about the operations at these trees.
    The last examples show what happens where the theorems' conditions do not hold. *)

From stdpp Require Import base gmap list sorting.
From S2P Require Import Prelude SharedTree SharedTreeShape SharedTreeBalance SharedTreeOrder SharedTreeInsert SharedTreeRemove.

(** A debug build, with the strings "b", "ab" and "abc" at 500, 510 and 520. *)
Definition example_system : TreeSystem := {|
  tree_address := 1000;
  fakeRoot := 2000;
  char_at a := if a =? 500 then 98 else if (a =? 510) || (a =? 520) then 97 else if (a =? 511) || (a =? 521) then 98 else if a =? 522 then 99 else 0;
  string_limit := 10;
  TREE_VALIDATE := true;
|}.
Local Existing Instance example_system.

Definition fresh : AVLItem := MkItem 0 0 0 0 0 (MakeKey 0 0) 0.
Definition empty_tree (long : bool) (n : nat) : state :=
  MkState (list_to_map (map (fun k => (Z.of_nat k, fresh)) (seq 1 n))) (MkTree 0 false long).
(** The items are inserted with their keys, in this order. *)
Definition insert_all (l : list (Z * AVLKey)) : M state unit :=
  fold_right (fun '(item, key) rest => TreeInsert item (item + 100) key AVL_DUPLICATE_KEYS_ALLOW ;;; rest) (ret tt) l.
Definition numbers (l : list (Z * Z)) : list (Z * AVLKey) := map (fun '(item, k) => (item, MakeShortKey k)) l.

(** Seven items, in an order that takes rotations of all kinds, and two that are not in the tree. *)
Definition number_tree : state := Eval vm_compute in snd (insert_all (numbers [(1, 50); (2, 40); (3, 45); (4, 70); (5, 60); (6, 30); (7, 0)]) (empty_tree false 9)).
Definition number_shape : shape := Node (Node (Node Leaf 7 Leaf) 6 (Node Leaf 2 Leaf)) 3 (Node (Node Leaf 1 Leaf) 5 (Node Leaf 4 Leaf)).

Lemma number_tree_runs : fst (insert_all (numbers [(1, 50); (2, 40); (3, 45); (4, 70); (5, 60); (6, 30); (7, 0)]) (empty_tree false 9)) = Ok tt /\
  snd (insert_all (numbers [(1, 50); (2, 40); (3, 45); (4, 70); (5, 60); (6, 30); (7, 0)]) (empty_tree false 9)) = number_tree.
Proof. vm_compute. done. Qed.

(** The conditions of the theorems at a concrete tree. *)
Ltac concrete_hung := unfold number_shape;
  repeat match goal with
  | |- hung _ Leaf => exact I
  | |- hung _ (Node _ _ _) => split; [eexists; split_and!; [vm_compute; reflexivity|reflexivity..|intros _; reflexivity]|split_and!]
  | |- parent_is _ Leaf _ => left; reflexivity
  | |- parent_is _ (Node _ _ _) _ => right; eexists; split; [vm_compute; reflexivity|reflexivity]
  end.
Definition keys_valid_at_items (long : bool) (m : gmap Z AVLItem) (l : list Z) : bool :=
  forallb (fun a => match m !! a with
                    | Some i => (0 <=? longKey (key i)) && (longKey (key i) <? 2 ^ 64) && (0 <=? longKeyBytes (key i)) && (longKeyBytes (key i) <? 2 ^ 63)
                    | None => true
                    end) l.
Lemma keys_valid_computed long m l : keys_valid_at_items long m l = true -> keys_valid long m l.
Proof.
  unfold keys_valid_at_items, keys_valid. rewrite forallb_forall, list.Forall_forall. intros Hl a Ha%list_elem_of_In i Hi. specialize (Hl a Ha). rewrite Hi in Hl.
  split; [|intros _]; lia.
Qed.
Ltac concrete_sorted := repeat first [apply list.Forall_nil; exact I | apply list.Forall_cons; split; [vm_compute; discriminate|] | constructor].

Lemma number_tree_ok : tree_ok number_tree number_shape.
Proof.
  split.
  - concrete_hung.
  - concrete_hung.
  - vm_compute. reflexivity.
  - apply (bool_decide_unpack _). vm_compute. exact I.
  - vm_compute. reflexivity.
  - vm_compute. reflexivity.
  - cbn. lia.
  - unfold sorted. cbn [nodes number_shape app]. concrete_sorted.
  - apply keys_valid_computed. vm_compute. reflexivity.
  - vm_compute. reflexivity.
Qed.

(** ** The operations at this tree *)

(** The first item with a key of at least 55 is item 5, with key 60. *)
Lemma TreeFind_correct_witness : exists r, TreeFind (MakeShortKey 55) TREE_SEARCH_SMALLEST_ABOVE_OR_EQUAL number_tree = (Ok r, number_tree) /\
  found TREE_SEARCH_SMALLEST_ABOVE_OR_EQUAL (value_of false (items number_tree)) [55] [7; 6; 2; 3; 1; 5; 4] r.
Proof. apply (TreeFind_correct number_tree number_shape (MakeShortKey 55)); [apply number_tree_ok|by split]. Defined.
Lemma find_60 : fst (TreeFind (MakeShortKey 55) TREE_SEARCH_SMALLEST_ABOVE_OR_EQUAL number_tree) = Ok 5.
Proof. vm_compute. reflexivity. Qed.

Lemma number_insertable key : 0 <= longKey key < 2 ^ 64 -> insertable number_tree number_shape 8 fresh key.
Proof.
  intros Hk. split; [apply number_tree_ok|apply (bool_decide_unpack _); vm_compute; exact I|vm_compute; reflexivity|done|by split].
Qed.

(** A second item with key 45, as duplicates are allowed. *)
Lemma TreeInsert_correct_witness : let key := MakeShortKey 45 in
  exists s' t' l1 l2, TreeInsert 8 108 key AVL_DUPLICATE_KEYS_ALLOW number_tree = (Ok true, s') /\ tree_ok s' t' /\
    [7; 6; 2; 3; 1; 5; 4] = l1 ++ l2 /\ nodes t' = l1 ++ 8 :: l2 /\
    (forall a, a ∈ l1 -> lex (value_of false (items number_tree) a) [45] < 0) /\ (forall a, a ∈ l2 -> 0 <= lex (value_of false (items number_tree) a) [45]) /\
    data <$> items s' !! 8 = Some (108, key) /\ same_data_but 8 (items number_tree) (items s') /\
    changes [8; 7; 6; 2; 3; 1; 5; 4] (items number_tree) (items s') /\ longKeys (tree s') = false.
Proof.
  apply (TreeInsert_correct number_tree number_shape 8 fresh 108 (MakeShortKey 45) AVL_DUPLICATE_KEYS_ALLOW); [apply number_insertable; done|by left].
Defined.

(** No second item with key 45, as duplicates are not allowed. *)
Lemma TreeInsert_refuses_witness : exists s', TreeInsert 8 108 (MakeShortKey 45) AVL_DUPLICATE_KEYS_FAIL number_tree = (Ok false, s') /\
  tree_ok s' number_shape /\ tree s' = tree number_tree /\ changes [8] (items number_tree) (items s').
Proof.
  apply (TreeInsert_refuses number_tree number_shape 8 fresh 108 (MakeShortKey 45) AVL_DUPLICATE_KEYS_FAIL); [apply number_insertable; done|done|].
  exists 3. split; [cbn; set_solver|vm_compute; reflexivity].
Defined.

(** The root, which has two children. *)
Lemma TreeRemove_correct_witness : exists s' t', TreeRemove 3 number_tree = (Ok tt, s') /\ tree_ok s' t' /\ nodes t' = [7; 6; 2; 1; 5; 4] /\
  same_data (items number_tree) (items s') /\ changes [7; 6; 2; 3; 1; 5; 4] (items number_tree) (items s') /\
  (TREE_VALIDATE = true -> inTree <$> items s' !! 3 = Some 0) /\ longKeys (tree s') = false.
Proof.
  apply (TreeRemove_correct number_tree number_shape 3 [7; 6; 2] [1; 5; 4]); [apply number_tree_ok|done|].
  intros a b Ha _ E _. exfalso. repeat (apply elem_of_cons in Ha as [->|Ha]; [vm_compute in E; discriminate|]). by apply elem_of_nil in Ha.
Defined.

(** ** Where the conditions do not hold *)

Fixpoint in_order (n : nat) (m : gmap Z AVLItem) (a : Z) : list Z :=
  match n with
  | O => []
  | S n => match m !! a with Some i => in_order n m (left i) ++ a :: in_order n m (right i) | None => [] end
  end.
Definition contents (s : state) : list Z := in_order 30 (items s) (root (tree s)).

(** With items of the smallest key besides each other, removing one takes others out of the tree, too, and validation does not see it. *)
Definition zero_tree : state := Eval vm_compute in snd (insert_all (map (fun k => (Z.of_nat k, MakeShortKey 0)) (seq 1 20)) (empty_tree false 20)).
Lemma removal_loses_items : length (contents zero_tree) = 20%nat /\ fst (TreeRemove 4 zero_tree) = Ok tt /\ length (contents (snd (TreeRemove 4 zero_tree))) = 18%nat.
Proof. vm_compute. done. Qed.

(** An item that was refused cannot be inserted afterwards. *)
Lemma refused_item_stays : let s := snd (TreeInsert 8 108 (MakeShortKey 45) AVL_DUPLICATE_KEYS_FAIL number_tree) in
  fst (TreeInsert 8 108 (MakeShortKey 46) AVL_DUPLICATE_KEYS_FAIL s) = Stop FatalError.
Proof. vm_compute. reflexivity. Qed.

(** Strings. *)
Definition string_tree : state := Eval vm_compute in snd (insert_all [(1, MakeLongKey 500 1); (2, MakeLongKey 510 2); (3, MakeLongKey 520 3); (4, MakeLongKey 0 0)] (empty_tree true 4)).
Lemma strings_in_order : contents string_tree = [4; 2; 3; 1] /\ fst (TreeFind (MakeLongKey 520 3) TREE_SEARCH_EXACT string_tree) = Ok 3 /\
  fst (TreeFind (MakeLongKey 511 1) TREE_SEARCH_EXACT string_tree) = Ok 1.
Proof. vm_compute. done. Qed.
