(* ===== verification/SharedBitset.v ===== *)
(** * Bitsets of free pages (shared/bitset.cpp)

    [Bitset]: the kernel allocates physical pages from it, a set bit being a free page, and
    keeps for every group of 4096 bits how many are set.  Bits and counts share one piece
    of memory: the array [singleUsage] of 32-bit words and, right behind it, the array
    [groupUsage] of 16-bit counts; here it is the list of its 16-bit halves, low half
    first.  It is allocated in whole pages, which start as zeroes.  The checks of a
    debug build are included, except for the one against concurrent modification. *)

From stdpp Require Import base list.
From S2P Require Import Prelude.

Definition BITSET_GROUP_SIZE : Z := 4096.

Record Bitset := MkBitset {
  memory : list Z;
  singleCount : Z;
  groupCount : Z;
}.

Definition set_memory (m : list Z) (s : Bitset) : Bitset := MkBitset m (singleCount s) (groupCount s).

(** ** Accesses *)

Definition read_half (i : Z) : M Bitset Z :=
  let! s := get in
  if 0 <=? i then lift_opt OutOfBounds (memory s !! Z.to_nat i) else stop OutOfBounds.
Definition write_half (i v : Z) : M Bitset unit :=
  let! s := get in
  if (0 <=? i) && (i <? Z.of_nat (length (memory s))) then modify (set_memory (<[Z.to_nat i := v]> (memory s)))
  else stop OutOfBounds.

(** [singleUsage[w]] *)
Definition read_word (w : Z) : M Bitset Z :=
  let! low := read_half (2 * w) in
  let! high := read_half (2 * w + 1) in
  ret (low + 2 ^ 16 * high).
Definition write_word (w v : Z) : M Bitset unit :=
  write_half (2 * w) (v mod 2 ^ 16) ;;;
  write_half (2 * w + 1) (Z.shiftr v 16).

(** [groupUsage[g]] *)
Definition group_index (g : Z) : M Bitset Z := let! s := get in ret (Z.shiftr (singleCount s) 4 + g).
Definition read_group (g : Z) : M Bitset Z := let! i := group_index g in read_half i.
Definition change_group (g d : Z) : M Bitset unit :=
  let! i := group_index g in
  let! v := read_half i in
  write_half i (u16 (v + d)).

(** [1 << (index & 31)] in a word of 32 bits *)
Definition bit_mask (index : Z) : Z := Z.shiftl 1 (Z.land index 31).

(** ** Operations *)

Definition Initialise (count : Z) : M Bitset unit :=
  let singles := Z.land (u64 (count + 31)) (2 ^ 64 - 32) in
  let groups := singles / BITSET_GROUP_SIZE + 1 in
  let pages := (Z.shiftr singles 3 + groups * 2 + 4095) / 4096 in
  modify (fun _ => MkBitset (replicate (Z.to_nat (pages * 2048)) 0) singles groups).

Fixpoint put_all (n : nat) (i : Z) : M Bitset unit :=
  match n with
  | O => ret tt
  | S n' =>
      change_group (i / BITSET_GROUP_SIZE) 32 ;;;
      let! v := read_word (i / 32) in
      write_word (i / 32) (Z.lor v (2 ^ 32 - 1)) ;;;
      put_all n' (i + 32)
  end.
Definition PutAll : M Bitset unit := let! s := get in put_all (Z.to_nat ((singleCount s + 31) / 32)) 0.

Definition Read (index : Z) : M Bitset bool :=
  let! v := read_word (Z.shiftr index 5) in
  ret (negb (Z.land v (bit_mask index) =? 0)).

Definition clear_bit (index : Z) : M Bitset unit :=
  let! v := read_word (Z.shiftr index 5) in
  write_word (Z.shiftr index 5) (Z.land v (Z.lxor (2 ^ 32 - 1) (bit_mask index))).

Definition Take (index : Z) : M Bitset unit :=
  let! b := Read index in
  if negb b then stop FatalError
  else change_group (index / BITSET_GROUP_SIZE) (-1) ;;; clear_bit index.

Definition Put (index : Z) : M Bitset unit :=
  let! s := get in
  if singleCount s <? index then stop FatalError
  else
    let! b := Read index in
    if b then stop FatalError
    else
      let! v := read_word (Z.shiftr index 5) in
      write_word (Z.shiftr index 5) (Z.lor v (bit_mask index)) ;;;
      change_group (index / BITSET_GROUP_SIZE) 1.

(** *** Get

    Three loops for 1, 16 and 32 bits differ in the width of their accesses.  The result of
    a loop is [Some] when it jumps to [done], with the return value. *)

Definition none : Z := 2 ^ 64 - 1.

Definition test_chunk (count index : Z) : M Bitset bool :=
  if count =? 1 then Read index
  else if count =? 16 then let! v := read_half (Z.shiftr index 4) in ret (v =? 2 ^ 16 - 1)
  else let! v := read_word (Z.shiftr index 5) in ret (v =? 2 ^ 32 - 1).
Definition clear_chunk (count index : Z) : M Bitset unit :=
  if count =? 1 then clear_bit index
  else if count =? 16 then write_half (Z.shiftr index 4) 0
  else write_word (Z.shiftr index 5) 0.

Fixpoint chunk_in_group (n : nat) (count below i j : Z) : M Bitset (option Z) :=
  match n with
  | O => ret None
  | S n' =>
      let index := i * BITSET_GROUP_SIZE + j in
      if negb (below =? 0) && (below <=? index) then ret (Some none)
      else
        let! full := test_chunk count index in
        if full then
          clear_chunk count index ;;;
          change_group i (- count) ;;;
          ret (Some index)
        else chunk_in_group n' count below i (j + count)
  end.

Fixpoint chunk_in_groups (n : nat) (count below i : Z) : M Bitset (option Z) :=
  match n with
  | O => ret None
  | S n' =>
      let! usage := read_group i in
      if count <=? usage then
        let! r := chunk_in_group (Z.to_nat (BITSET_GROUP_SIZE / count)) count below i 0 in
        match r with Some v => ret (Some v) | None => chunk_in_groups n' count below (i + 1) end
      else chunk_in_groups n' count below (i + 1)
  end.

Fixpoint clear_bits (n : nat) (index : Z) : M Bitset unit :=
  match n with O => ret tt | S n' => clear_bit index ;;; clear_bits n' (index + 1) end.

(** The loop for any number of bits: [found] of them from [start] so far. *)
Fixpoint run_in_group (n : nat) (count align below i j found start : Z) : M Bitset (Z * Z + Z) :=
  match n with
  | O => ret (inl (found, start))
  | S n' =>
      let index := i * BITSET_GROUP_SIZE + j in
      let! b := Read index in
      if b && (found =? 0) && (below <=? index) && negb (below =? 0) then ret (inr none)
      else if b && (found =? 0) && negb (index mod align =? 0) then run_in_group n' count align below i (j + 1) found start
      else
        let start := if b && (found =? 0) then index else start in
        let found := if b then found + 1 else 0 in
        if found =? count then clear_bits (Z.to_nat count) start ;;; ret (inr start)
        else run_in_group n' count align below i (j + 1) found start
  end.

Fixpoint run_in_groups (n : nat) (count align below i found start : Z) : M Bitset Z :=
  match n with
  | O => ret none
  | S n' =>
      let! usage := read_group i in
      if usage =? 0 then run_in_groups n' count align below (i + 1) 0 start
      else
        let! r := run_in_group (Z.to_nat BITSET_GROUP_SIZE) count align below i 0 found start in
        match r with
        | inl (found, start) => run_in_groups n' count align below (i + 1) found start
        | inr v => ret v
        end
  end.

Definition is_chunk (count align : Z) : bool :=
  (count =? align) && ((count =? 1) || (count =? 16) || (count =? 32)).

Definition Get (count align below : Z) : M Bitset Z :=
  let! s := get in
  if negb (below =? 0) && (below <? count) then ret none
  else
    let below := if below =? 0 then below else below - count in
    if is_chunk count align then
      let! r := chunk_in_groups (Z.to_nat (groupCount s)) count below 0 in
      ret (default none r)
    else run_in_groups (Z.to_nat (groupCount s)) count align below 0 0 0.
