(* ===== verification/SharedBitsetProofs.v ===== *)
(** * What a [Bitset] hands out (shared/bitset.cpp)

    The bits and counts in memory, their invariant, and that the operations keep it: what
    [Get] returns was free and is so no more, and it returns nothing only when there is
    nothing; then what [Get] and [Put] do wrong at the edges. *)

From stdpp Require Import base list.
From S2P Require Import Prelude SharedBitset.

(** ** Bits in memory *)

Definition half (m : list Z) (i : Z) : Z := default 0 (m !! Z.to_nat i).
Definition bit (m : list Z) (k : Z) : bool := Z.testbit (half m (k / 16)) (k mod 16).
Definition halves_ok (m : list Z) : Prop := Forall (is_uint 16) m.
Definition word (m : list Z) (w : Z) : Z := half m (2 * w) + 2 ^ 16 * half m (2 * w + 1).

Lemma half_range m i : halves_ok m -> is_uint 16 (half m i).
Proof.
  intros Hm. unfold half. destruct (m !! Z.to_nat i) as [v|] eqn:E; cbn; [|by split].
  by eapply Forall_lookup_1 in E.
Qed.

Lemma half_insert m i j v : 0 <= i -> 0 <= j -> i < Z.of_nat (length m) ->
  half (<[Z.to_nat i := v]> m) j = if j =? i then v else half m j.
Proof.
  intros Hi Hj Hl. unfold half. destruct (Z.eqb_spec j i) as [->|Hne].
  - by rewrite list_lookup_insert_eq by lia.
  - by rewrite list_lookup_insert_ne by lia.
Qed.

Lemma read_half_spec s i : 0 <= i < Z.of_nat (length (memory s)) -> read_half i s = (Ok (half (memory s) i), s).
Proof.
  intros Hi. unfold read_half, bind, get, lift_opt. rewrite (proj2 (Z.leb_le _ _)) by lia.
  unfold half. destruct (lookup_lt_is_Some_2 (memory s) (Z.to_nat i) ltac:(lia)) as [v ->]. done.
Qed.

Lemma write_half_spec s i v : 0 <= i < Z.of_nat (length (memory s)) ->
  write_half i v s = (Ok tt, set_memory (<[Z.to_nat i := v]> (memory s)) s).
Proof.
  intros Hi. unfold write_half, bind, get, modify. by rewrite (proj2 (Z.leb_le _ _)), (proj2 (Z.ltb_lt _ _)) by lia.
Qed.

(** The word is inside of the memory. *)
Definition has_word (s : Bitset) (w : Z) : Prop := 0 <= w /\ 2 * w + 2 <= Z.of_nat (length (memory s)).

Lemma read_word_spec s w : has_word s w -> read_word w s = (Ok (word (memory s) w), s).
Proof. intros [? ?]. unfold read_word, bind. by rewrite !read_half_spec by lia. Qed.

Definition put_word (m : list Z) (w v : Z) : list Z := <[Z.to_nat (2 * w + 1) := Z.shiftr v 16]> (<[Z.to_nat (2 * w) := v mod 2 ^ 16]> m).

Lemma write_word_spec s w v : has_word s w -> write_word w v s = (Ok tt, set_memory (put_word (memory s) w v) s).
Proof.
  intros [? ?]. unfold write_word, bind. rewrite write_half_spec by lia. rewrite write_half_spec; [done|].
  cbn. rewrite length_insert. lia.
Qed.

Lemma length_put_word m w v : length (put_word m w v) = length m.
Proof. unfold put_word. by rewrite !length_insert. Qed.

Lemma put_word_ok m w v : halves_ok m -> is_uint 32 v -> halves_ok (put_word m w v).
Proof.
  intros Hm Hv. unfold put_word. apply Forall_insert; [apply Forall_insert; [done|]|].
  - apply Z.mod_pos_bound. lia.
  - unfold is_uint in *. rewrite Z.shiftr_div_pow2 by lia. split; [apply Z.div_pos; lia|apply Z.div_lt_upper_bound; lia].
Qed.

(** Bit [k] is bit [k mod 32] of its word. *)
Lemma word_bit m k : halves_ok m -> 0 <= k -> Z.testbit (word m (k / 32)) (k mod 32) = bit m k.
Proof.
  intros Hm Hk. unfold word, bit. set (w := k / 32).
  pose proof (half_range m (2 * w) Hm) as Hl. pose proof (half_range m (2 * w + 1) Hm) as Hh.
  assert (E : half m (2 * w) + 2 ^ 16 * half m (2 * w + 1) = Z.lor (half m (2 * w)) (Z.shiftl (half m (2 * w + 1)) 16)).
  { rewrite lor_shiftl_add; [lia|lia|done]. }
  rewrite E, Z.lor_spec. pose proof (Z.mod_pos_bound k 32 ltac:(lia)). pose proof (Z.div_mod k 32 ltac:(lia)).
  destruct (Z.lt_ge_cases (k mod 32) 16) as [Hlt|Hge].
  - rewrite Z.shiftl_spec_low, orb_false_r by lia. replace (k / 16) with (2 * w) by (unfold w; Z.div_mod_to_equations; lia).
    f_equal. Z.div_mod_to_equations; lia.
  - rewrite Z.shiftl_spec, (testbit_high 16 (half m (2 * w))) by (done || lia). cbn [orb].
    replace (k / 16) with (2 * w + 1) by (unfold w; Z.div_mod_to_equations; lia). f_equal. Z.div_mod_to_equations; lia.
Qed.

(** A word with value [v]: its bits, and all others. *)
Lemma bit_put_word m w v k : halves_ok m -> is_uint 32 v -> 0 <= w -> 2 * w + 2 <= Z.of_nat (length m) -> 0 <= k ->
  bit (put_word m w v) k = if k / 32 =? w then Z.testbit v (k mod 32) else bit m k.
Proof.
  intros Hm Hv Hw Hl Hk. assert (Hh : forall i, 0 <= i -> half (put_word m w v) i =
    if i =? 2 * w + 1 then Z.shiftr v 16 else if i =? 2 * w then v mod 2 ^ 16 else half m i).
  { intros i Hi. unfold put_word. rewrite half_insert by (rewrite ?length_insert; lia). by rewrite half_insert by lia. }
  pose proof (Z.mod_pos_bound k 32 ltac:(lia)). destruct (Z.eqb_spec (k / 32) w) as [E|E].
  - unfold bit. rewrite Hh by (apply Z.div_pos; lia). destruct (Z.lt_ge_cases (k mod 32) 16).
    + assert (k / 16 = 2 * w) as -> by (Z.div_mod_to_equations; lia). rewrite (proj2 (Z.eqb_neq (2 * w) (2 * w + 1))) by lia.
      rewrite Z.eqb_refl, Z.mod_pow2_bits_low by (Z.div_mod_to_equations; lia). f_equal. Z.div_mod_to_equations; lia.
    + assert (k / 16 = 2 * w + 1) as -> by (Z.div_mod_to_equations; lia). rewrite Z.eqb_refl, Z.shiftr_spec by (Z.div_mod_to_equations; lia).
      f_equal. Z.div_mod_to_equations; lia.
  - unfold bit. rewrite Hh by (apply Z.div_pos; lia).
    rewrite !(proj2 (Z.eqb_neq _ _)) by (Z.div_mod_to_equations; lia). done.
Qed.

Lemma half_put_word m w v i : 0 <= w -> 2 * w + 2 <= Z.of_nat (length m) -> 0 <= i -> i <> 2 * w -> i <> 2 * w + 1 ->
  half (put_word m w v) i = half m i.
Proof.
  intros Hw Hl Hi H1 H2. unfold put_word. rewrite half_insert by (rewrite ?length_insert; lia). rewrite half_insert by lia.
  by rewrite !(proj2 (Z.eqb_neq _ _)) by lia.
Qed.

Lemma land_mask v j : 0 <= j -> negb (Z.land v (Z.shiftl 1 j) =? 0) = Z.testbit v j.
Proof.
  intros Hj. destruct (Z.testbit v j) eqn:E.
  - apply negb_true_iff, Z.eqb_neq. intros H0. assert (Hb : Z.testbit (Z.land v (Z.shiftl 1 j)) j = false) by (rewrite H0; apply Z.bits_0).
    rewrite Z.land_spec, E, Z.shiftl_spec, Z.sub_diag in Hb by lia. done.
  - apply negb_false_iff, Z.eqb_eq. apply Z.bits_inj'. intros i Hi. rewrite Z.land_spec, Z.bits_0, Z.shiftl_spec by lia.
    destruct (Z.eq_dec i j) as [->|Hne]; [by rewrite E|]. rewrite andb_false_iff. right.
    destruct (Z.lt_ge_cases i j); [by apply Z.testbit_neg_r; lia|]. change 1 with (2 ^ 0). apply Z.pow2_bits_false. lia.
Qed.

Lemma land_31 k : Z.land k 31 = k mod 32.
Proof. change 31 with (Z.ones 5). by rewrite Z.land_ones by lia. Qed.
Lemma shiftr_5 k : Z.shiftr k 5 = k / 32.
Proof. by rewrite Z.shiftr_div_pow2 by lia. Qed.
Lemma shiftr_4 k : Z.shiftr k 4 = k / 16.
Proof. by rewrite Z.shiftr_div_pow2 by lia. Qed.

Lemma word_range m w : halves_ok m -> is_uint 32 (word m w).
Proof.
  intros Hm. pose proof (half_range m (2 * w) Hm). pose proof (half_range m (2 * w + 1) Hm). unfold is_uint, word in *. lia.
Qed.

Lemma Read_spec s k : halves_ok (memory s) -> 0 <= k -> has_word s (k / 32) -> Read k s = (Ok (bit (memory s) k), s).
Proof.
  intros Hm Hk Hw. unfold Read, bind. rewrite shiftr_5, read_word_spec by done. unfold bit_mask. rewrite land_31.
  rewrite land_mask by (apply Z.mod_pos_bound; lia). unfold ret. by rewrite word_bit.
Qed.

(** The bit [k] becomes [b]; other bits and all halves outside of its word stay. *)
Record bit_changed (k : Z) (b : bool) (m m' : list Z) : Prop := {
  bc_ok : halves_ok m';
  bc_length : length m' = length m;
  bc_bit : forall j, 0 <= j -> bit m' j = if j =? k then b else bit m j;
  bc_half : forall i, 0 <= i -> i <> 2 * (k / 32) -> i <> 2 * (k / 32) + 1 -> half m' i = half m i;
}.

Lemma bit_changed_word m k v b : halves_ok m -> 0 <= k -> 2 * (k / 32) + 2 <= Z.of_nat (length m) -> is_uint 32 v ->
  (forall j, 0 <= j < 32 -> Z.testbit v j = if j =? k mod 32 then b else Z.testbit (word m (k / 32)) j) ->
  bit_changed k b m (put_word m (k / 32) v).
Proof.
  intros Hm Hk Hl Hv Hb. assert (0 <= k / 32) by (apply Z.div_pos; lia). split.
  - by apply put_word_ok.
  - apply length_put_word.
  - intros j Hj. rewrite bit_put_word by done. destruct (Z.eqb_spec (j / 32) (k / 32)) as [E|E].
    + rewrite Hb by (apply Z.mod_pos_bound; lia). rewrite <- E, word_bit by done.
      destruct (Z.eqb_spec (j mod 32) (k mod 32)), (Z.eqb_spec j k); try done; Z.div_mod_to_equations; lia.
    + destruct (Z.eqb_spec j k); [congruence|done].
  - intros i Hi H1 H2. by apply half_put_word.
Qed.

Lemma clear_bit_spec s k : halves_ok (memory s) -> 0 <= k -> has_word s (k / 32) ->
  exists m', clear_bit k s = (Ok tt, set_memory m' s) /\ bit_changed k false (memory s) m'.
Proof.
  intros Hm Hk [H0 Hw]. unfold clear_bit, bind, bit_mask. rewrite shiftr_5, read_word_spec, land_31, write_word_spec by done.
  eexists. split; [done|]. pose proof (Z.mod_pos_bound k 32 ltac:(lia)). pose proof (word_range (memory s) (k / 32) Hm) as Hr.
  assert (Hbits : forall j, 0 <= j -> Z.testbit (Z.land (word (memory s) (k / 32)) (Z.lxor (2 ^ 32 - 1) (Z.shiftl 1 (k mod 32)))) j =
    if j =? k mod 32 then false else Z.testbit (word (memory s) (k / 32)) j).
  { intros j Hj. rewrite Z.land_spec, Z.lxor_spec, Z.shiftl_spec by lia.
    destruct (Z.lt_ge_cases j 32); [|rewrite (testbit_high 32 (word _ _)) by (done || lia); by case_match].
    change (2 ^ 32 - 1) with (Z.ones 32). rewrite Z.ones_spec_low by lia. destruct (Z.eqb_spec j (k mod 32)) as [->|Hne].
    - rewrite Z.sub_diag. by rewrite andb_false_r.
    - replace (Z.testbit 1 (j - k mod 32)) with false; [by rewrite andb_true_r|]. symmetry.
      destruct (Z.lt_ge_cases j (k mod 32)); [by apply Z.testbit_neg_r; lia|]. change 1 with (2 ^ 0). apply Z.pow2_bits_false. lia. }
  apply bit_changed_word; [done..| |intros; apply Hbits; lia].
  apply is_uint_bits; [lia|apply Z.land_nonneg; left; apply Hr|]. intros i Hi. rewrite Hbits by lia.
  rewrite (testbit_high 32 (word _ _)) by done. by case_match.
Qed.

(** ** Counting *)

Fixpoint count (p : Z -> bool) (k : Z) (n : nat) : Z :=
  match n with O => 0 | S n' => (if p k then 1 else 0) + count p (k + 1) n' end.

Lemma count_range p k n : 0 <= count p k n <= Z.of_nat n.
Proof. revert k. induction n as [|n IH]; intros k; cbn [count]; [lia|]. specialize (IH (k + 1)). destruct (p k); lia. Qed.
Lemma count_ext p q k n : (forall j, k <= j < k + Z.of_nat n -> p j = q j) -> count p k n = count q k n.
Proof.
  revert k. induction n as [|n IH]; intros k Hp; cbn [count]; [done|]. rewrite (Hp k) by lia. f_equal. apply IH. intros j Hj. apply Hp. lia.
Qed.
Lemma count_split p k a b : count p k (a + b) = count p k a + count p (k + Z.of_nat a) b.
Proof.
  revert k. induction a as [|a IH]; intros k; cbn [count Nat.add]; [by rewrite Z.add_0_r|]. rewrite IH. replace (k + 1 + Z.of_nat a) with (k + Z.of_nat (S a)) by lia. lia.
Qed.
Lemma count_const b p k n : (forall j, k <= j < k + Z.of_nat n -> p j = b) -> count p k n = if b then Z.of_nat n else 0.
Proof.
  revert k. induction n as [|n IH]; intros k Hp; cbn [count]; [by destruct b|]. rewrite (Hp k) by lia.
  rewrite IH by (intros j Hj; apply Hp; lia). destruct b; lia.
Qed.
Lemma count_le p q k n : (forall j, k <= j < k + Z.of_nat n -> q j = true -> p j = true) -> count q k n <= count p k n.
Proof.
  revert k. induction n as [|n IH]; intros k Hp; cbn [count]; [lia|]. specialize (IH (k + 1) ltac:(intros j Hj; apply Hp; lia)).
  specialize (Hp k ltac:(lia)). destruct (q k); [rewrite Hp by done|destruct (p k)]; lia.
Qed.
Lemma count_pos p k n : 0 < count p k n -> exists j, k <= j < k + Z.of_nat n /\ p j = true.
Proof.
  revert k. induction n as [|n IH]; intros k; cbn [count]; [lia|]. destruct (p k) eqn:E; [exists k; split; [lia|done]|].
  intros H. destruct (IH (k + 1) ltac:(lia)) as (j & Hj & Hp). exists j. split; [lia|done].
Qed.

(** Changing the [c] values from [a] on, all [b] before and the opposite after. *)
Lemma count_changed p q k n a c b : k <= a -> a + Z.of_nat c <= k + Z.of_nat n ->
  (forall j, a <= j < a + Z.of_nat c -> p j = b /\ q j = negb b) ->
  (forall j, k <= j < k + Z.of_nat n -> ~ (a <= j < a + Z.of_nat c) -> q j = p j) ->
  count q k n = count p k n + (if b then - Z.of_nat c else Z.of_nat c).
Proof.
  intros Ha Hc Hin Hout. replace n with (Z.to_nat (a - k) + (c + (n - Z.to_nat (a - k) - c)))%nat by lia.
  rewrite !count_split. replace (k + Z.of_nat (Z.to_nat (a - k))) with a by lia.
  rewrite (count_const b p a), (count_const (negb b) q a) by (intros j Hj; by apply Hin).
  rewrite (count_ext q p k), (count_ext q p (a + _)) by (intros j Hj; apply Hout; lia). destruct b; cbn; lia.
Qed.

(** ** The invariant *)

Definition group_bits (s : Bitset) (g : Z) : nat := Z.to_nat (Z.min 4096 (singleCount s - 4096 * g)).
Definition usage (s : Bitset) (g : Z) : Z := half (memory s) (singleCount s / 16 + g).

Record bitset_ok (s : Bitset) : Prop := {
  bo_halves : halves_ok (memory s);
  bo_single : 0 <= singleCount s < 2 ^ 64 /\ singleCount s mod 32 = 0;
  bo_groups : groupCount s = singleCount s / 4096 + 1;
  bo_room : singleCount s / 16 + groupCount s <= Z.of_nat (length (memory s));
  bo_usage : forall g, 0 <= g < groupCount s -> usage s g = count (bit (memory s)) (4096 * g) (group_bits s g);
}.

Lemma bit_word s k : bitset_ok s -> 0 <= k < singleCount s -> has_word s (k / 32).
Proof.
  intros [_ [H1 H2] H3 H4 _] Hk. split; [apply Z.div_pos; lia|].
  assert (0 <= groupCount s) by (rewrite H3; pose proof (Z.div_pos (singleCount s) 4096); lia).
  assert (2 * (k / 32) + 2 <= singleCount s / 16) by (Z.div_mod_to_equations; lia). lia.
Qed.
Lemma group_index_spec g s : group_index g s = (Ok (singleCount s / 16 + g), s).
Proof. unfold group_index, bind, get, ret. by rewrite shiftr_4. Qed.
Lemma read_group_spec s g : bitset_ok s -> 0 <= g < groupCount s -> read_group g s = (Ok (usage s g), s).
Proof.
  intros Hok Hg. unfold read_group, bind. rewrite group_index_spec. destruct Hok as [_ [H1 _] _ H4 _].
  apply read_half_spec. pose proof (Z.div_pos (singleCount s) 16). lia.
Qed.

(** The bits below [singleCount] are not those of the counts. *)
Lemma bit_below s k i v : 0 <= k < singleCount s -> singleCount s mod 32 = 0 -> singleCount s / 16 <= i ->
  i < Z.of_nat (length (memory s)) -> bit (<[Z.to_nat i := v]> (memory s)) k = bit (memory s) k.
Proof.
  intros Hk Hm Hi Hl. unfold bit. assert (0 <= k / 16 < singleCount s / 16) by (split; [apply Z.div_pos; lia|]; Z.div_mod_to_equations; lia).
  rewrite half_insert by lia. by rewrite (proj2 (Z.eqb_neq _ _)) by lia.
Qed.

(** A change of the count of group [g]: the memory [m'] after it. *)
Lemma change_group_spec s g d : singleCount s / 16 + g < Z.of_nat (length (memory s)) -> 0 <= singleCount s -> 0 <= g ->
  change_group g d s =
  (Ok tt, set_memory (<[Z.to_nat (singleCount s / 16 + g) := u16 (usage s g + d)]> (memory s)) s).
Proof.
  intros Hl Hs Hg. pose proof (Z.div_pos (singleCount s) 16). unfold change_group, bind.
  rewrite group_index_spec, read_half_spec, write_half_spec by lia. done.
Qed.

(** When the bits of group [g] change in number by [d] and its count does. *)
Lemma ok_after s m' g d : bitset_ok s -> halves_ok m' -> length m' = length (memory s) ->
  (forall h, 0 <= h < groupCount s -> half m' (singleCount s / 16 + h) = if h =? g then usage s g + d else usage s h) ->
  (forall h, 0 <= h < groupCount s -> count (bit m') (4096 * h) (group_bits s h) =
     count (bit (memory s)) (4096 * h) (group_bits s h) + if h =? g then d else 0) ->
  bitset_ok (set_memory m' s).
Proof.
  intros [H1 H2 H3 H4 H5] Hm Hl Hh Hc. split; cbn; [done|done|done|by rewrite Hl|]. intros h Hr.
  unfold usage. cbn. rewrite (Hh h Hr). change (group_bits (set_memory m' s) h) with (group_bits s h).
  rewrite (Hc h Hr). destruct (Z.eqb_spec h g) as [->|_]; [by rewrite (H5 g Hr)|]. rewrite (H5 h Hr). lia.
Qed.

(** ** Chunks of 1, 16 and 32 bits *)

Definition chunk_size (c : Z) : Prop := c = 1 \/ c = 16 \/ c = 32.
Definition all_set (m : list Z) (k c : Z) : Prop := forall j, k <= j < k + c -> bit m j = true.
Definition within (k c j : Z) : bool := (k <=? j) && (j <? k + c).

Lemma within_spec k c j : within k c j = true <-> k <= j < k + c.
Proof. unfold within. by rewrite andb_true_iff, Z.leb_le, Z.ltb_lt. Qed.

Lemma ones_bits w v : 0 <= w -> is_uint w v -> v = 2 ^ w - 1 <-> forall i, 0 <= i < w -> Z.testbit v i = true.
Proof.
  intros Hw Hv. replace (2 ^ w - 1) with (Z.ones w) by (rewrite Z.ones_equiv; lia). split.
  - intros -> i Hi. by apply Z.ones_spec_low.
  - intros Hb. apply Z.bits_inj'. intros i Hi. destruct (Z.lt_ge_cases i w).
    + by rewrite Hb, Z.ones_spec_low by lia.
    + by rewrite (testbit_high w v), Z.ones_spec_high by (done || lia).
Qed.

Lemma bit_of_half m k i : k mod 16 = 0 -> 0 <= i < 16 -> bit m (k + i) = Z.testbit (half m (k / 16)) i.
Proof.
  intros Hk Hi. unfold bit. replace ((k + i) / 16) with (k / 16) by (Z.div_mod_to_equations; lia). f_equal. Z.div_mod_to_equations; lia.
Qed.
Lemma bit_of_word m k i : halves_ok m -> 0 <= k -> k mod 32 = 0 -> 0 <= i < 32 -> bit m (k + i) = Z.testbit (word m (k / 32)) i.
Proof.
  intros Hm Hk0 Hk Hi. rewrite <- word_bit by (done || lia). replace ((k + i) / 32) with (k / 32) by (Z.div_mod_to_equations; lia).
  f_equal. Z.div_mod_to_equations; lia.
Qed.

Lemma test_chunk_spec s c k : bitset_ok s -> chunk_size c -> 0 <= k -> k mod c = 0 -> k + c <= singleCount s ->
  exists b, test_chunk c k s = (Ok b, s) /\ (b = true <-> all_set (memory s) k c).
Proof.
  intros Hok Hc Hk Hm Hl. pose proof (bo_halves _ Hok) as Hh. unfold test_chunk.
  pose proof (bit_word s k Hok ltac:(destruct Hc as [->|[->| ->]]; lia)) as [Hw1 Hw2].
  destruct Hc as [->|[->| ->]]; cbn [Z.eqb Pos.eqb].
  - exists (bit (memory s) k). rewrite Read_spec by done. split; [done|]. split; [|intros H; apply H; lia].
    intros E j Hj. by replace j with k by lia.
  - unfold bind. rewrite shiftr_4, read_half_spec by (Z.div_mod_to_equations; lia). exists (half (memory s) (k / 16) =? 2 ^ 16 - 1).
    split; [done|]. rewrite Z.eqb_eq, (ones_bits 16) by (lia || by apply half_range). split.
    + intros H j Hj. replace j with (k + (j - k)) by lia. rewrite bit_of_half by (done || lia). apply H. lia.
    + intros H i Hi. rewrite <- bit_of_half by done. apply H. lia.
  - unfold bind. rewrite shiftr_5, read_word_spec by done. exists (word (memory s) (k / 32) =? 2 ^ 32 - 1).
    split; [done|]. rewrite Z.eqb_eq, (ones_bits 32) by (lia || by apply word_range). split.
    + intros H j Hj. replace j with (k + (j - k)) by lia. rewrite bit_of_word by (done || lia). apply H. lia.
    + intros H i Hi. rewrite <- bit_of_word by done. apply H. lia.
Qed.

(** The bits from [k] on, [c] of them, become 0. *)
Record bits_cleared (sc k c : Z) (m m' : list Z) : Prop := {
  cc_ok : halves_ok m';
  cc_length : length m' = length m;
  cc_bit : forall j, 0 <= j -> bit m' j = if within k c j then false else bit m j;
  cc_half : forall i, sc / 16 <= i -> half m' i = half m i;
}.

Lemma clear_chunk_spec s c k : bitset_ok s -> chunk_size c -> 0 <= k -> k mod c = 0 -> k + c <= singleCount s ->
  exists m', clear_chunk c k s = (Ok tt, set_memory m' s) /\ bits_cleared (singleCount s) k c (memory s) m'.
Proof.
  intros Hok Hc Hk Hm Hl. pose proof (bo_halves _ Hok) as Hh. destruct (bo_single _ Hok) as [Hs Hs2]. unfold clear_chunk.
  pose proof (bit_word s k Hok ltac:(destruct Hc as [->|[->| ->]]; lia)) as [Hw1 Hw2].
  assert (Hb : 2 * (k / 32) + 1 < singleCount s / 16) by (destruct Hc as [->|[->| ->]]; Z.div_mod_to_equations; lia).
  destruct Hc as [->|[->| ->]]; cbn [Z.eqb Pos.eqb].
  - destruct (clear_bit_spec s k Hh Hk ltac:(by split)) as (m' & E & [C1 C2 C3 C4]). exists m'. split; [done|]. split; [done|done| |].
    + intros j Hj. rewrite C3 by done. destruct (Z.eqb_spec j k), (within k 1 j) eqn:Ew; try done;
        [apply not_true_iff_false in Ew|apply within_spec in Ew]; rewrite ?within_spec in Ew; lia.
    + intros i Hi. apply C4; lia.
  - assert (0 <= k / 16 < Z.of_nat (length (memory s))) by (Z.div_mod_to_equations; lia).
    rewrite shiftr_4, write_half_spec by done. eexists. split; [done|]. split.
    + by apply Forall_insert.
    + apply length_insert.
    + intros j Hj. unfold bit. rewrite half_insert by (try apply Z.div_pos; lia). destruct (within k 16 j) eqn:Ew.
      * apply within_spec in Ew. rewrite (proj2 (Z.eqb_eq _ _)) by (Z.div_mod_to_equations; lia). apply Z.bits_0.
      * apply not_true_iff_false in Ew. rewrite within_spec in Ew. by rewrite (proj2 (Z.eqb_neq _ _)) by (Z.div_mod_to_equations; lia).
    + intros i Hi. assert (k / 16 < singleCount s / 16) by (Z.div_mod_to_equations; lia).
      rewrite half_insert by lia. by rewrite (proj2 (Z.eqb_neq _ _)) by lia.
  - rewrite shiftr_5, write_word_spec by (by split). eexists. split; [done|]. split.
    + by apply put_word_ok.
    + apply length_put_word.
    + intros j Hj. rewrite bit_put_word by done. destruct (within k 32 j) eqn:Ew.
      * apply within_spec in Ew. rewrite (proj2 (Z.eqb_eq _ _)) by (Z.div_mod_to_equations; lia). apply Z.bits_0.
      * apply not_true_iff_false in Ew. rewrite within_spec in Ew. by rewrite (proj2 (Z.eqb_neq _ _)) by (Z.div_mod_to_equations; lia).
    + intros i Hi. apply half_put_word; lia.
Qed.

(** ** Taking and giving back *)

(** The bits from [k] on, [c] of them, become [b], and nothing else changes. *)
Definition marks (b : bool) (k c : Z) (s s' : Bitset) : Prop :=
  bitset_ok s' /\ singleCount s' = singleCount s /\ groupCount s' = groupCount s /\
  forall j, 0 <= j < singleCount s -> bit (memory s') j = if within k c j then b else bit (memory s) j.

(** Memory with these bits changed, and the count of their group. *)
Lemma marks_memory b s k (c : nat) g m' : bitset_ok s -> 0 <= k -> k + Z.of_nat c <= singleCount s -> (0 < c)%nat ->
  (forall j, k <= j < k + Z.of_nat c -> bit (memory s) j = negb b) -> (forall j, k <= j < k + Z.of_nat c -> j / 4096 = g) ->
  halves_ok m' -> length m' = length (memory s) ->
  (forall j, 0 <= j < singleCount s -> bit m' j = if within k (Z.of_nat c) j then b else bit (memory s) j) ->
  (forall h, 0 <= h < groupCount s -> half m' (singleCount s / 16 + h) =
     if h =? g then u16 (usage s g + if b then Z.of_nat c else - Z.of_nat c) else usage s h) ->
  marks b k (Z.of_nat c) s (set_memory m' s).
Proof.
  intros Hok Hk Hl Hc Hold Hg Hm Hlen Hbit Hhalf. destruct (bo_single _ Hok) as [Hs Hs2]. pose proof (bo_groups _ Hok).
  set (d := if b then Z.of_nat c else - Z.of_nat c) in *.
  assert (Hg0 : 0 <= g < groupCount s) by (rewrite <- (Hg k) by lia; Z.div_mod_to_equations; lia).
  assert (Hcnt : forall h, 0 <= h < groupCount s -> count (bit m') (4096 * h) (group_bits s h) =
    count (bit (memory s)) (4096 * h) (group_bits s h) + if h =? g then d else 0).
  { intros h Hh. unfold group_bits. destruct (Z.eqb_spec h g) as [->|Hne].
    - rewrite (count_changed (bit (memory s)) (bit m') _ _ k c (negb b)); [unfold d; by destruct b|..].
      + rewrite <- (Hg k) by lia. Z.div_mod_to_equations; lia.
      + pose proof (Hg (k + Z.of_nat c - 1) ltac:(lia)). Z.div_mod_to_equations; lia.
      + intros j Hj. split; [by apply Hold|]. rewrite Hbit by lia. rewrite (proj2 (within_spec _ _ _)) by done. by destruct b.
      + intros j Hj Hn. rewrite Hbit by lia. destruct (within k (Z.of_nat c) j) eqn:E; [by apply within_spec in E|done].
    - rewrite Z.add_0_r. apply count_ext. intros j Hj. rewrite Hbit by lia. destruct (within k (Z.of_nat c) j) eqn:E; [|done].
      apply within_spec in E. specialize (Hg j E). exfalso. apply Hne. rewrite <- Hg. Z.div_mod_to_equations; lia. }
  split_and!; [|done|done|exact Hbit]. apply (ok_after s m' g d); [done..| |exact Hcnt].
  intros h Hh. rewrite Hhalf by done. destruct (h =? g); [|done]. unfold u16. apply wrap_id.
  specialize (Hcnt g Hg0). rewrite Z.eqb_refl in Hcnt. rewrite (bo_usage _ Hok g Hg0), <- Hcnt.
  pose proof (count_range (bit m') (4096 * g) (group_bits s g)). unfold is_uint, group_bits in *. lia.
Qed.

(** Clearing bits and then counting them. *)
Lemma takes_cleared s k (c : nat) g m' : bitset_ok s -> 0 <= k -> k + Z.of_nat c <= singleCount s -> (0 < c)%nat ->
  all_set (memory s) k (Z.of_nat c) -> (forall j, k <= j < k + Z.of_nat c -> j / 4096 = g) ->
  bits_cleared (singleCount s) k (Z.of_nat c) (memory s) m' ->
  marks false k (Z.of_nat c) s (set_memory (<[Z.to_nat (singleCount s / 16 + g) := u16 (usage s g + - Z.of_nat c)]> m') s).
Proof.
  intros Hok Hk Hl Hc Hall Hg [C1 C2 C3 C4]. destruct (bo_single _ Hok) as [Hs Hs2]. pose proof (bo_groups _ Hok). pose proof (bo_room _ Hok).
  assert (Hg0 : 0 <= g < groupCount s) by (rewrite <- (Hg k) by lia; Z.div_mod_to_equations; lia).
  pose proof (Z.div_pos (singleCount s) 16 ltac:(lia) ltac:(lia)). apply marks_memory with (g := g); [done..| | | |].
  - apply Forall_insert; [done|]. apply wrap_range. lia.
  - by rewrite length_insert.
  - intros j Hj. rewrite <- C3 by lia. apply (bit_below (set_memory m' s)); cbn; [done|done|lia|rewrite C2; lia].
  - intros h Hh. rewrite half_insert by (rewrite ?C2; lia). destruct (Z.eqb_spec h g) as [->|Hne]; [by rewrite Z.eqb_refl|].
    rewrite (proj2 (Z.eqb_neq _ _)) by lia. by rewrite C4 by lia.
Qed.

Lemma take_chunk s c k : bitset_ok s -> chunk_size c -> 0 <= k -> k mod c = 0 -> k + c <= singleCount s -> all_set (memory s) k c ->
  exists s', (clear_chunk c k ;;; change_group (k / 4096) (- c) ;;; ret (Some k)) s = (Ok (Some k), s') /\ marks false k c s s'.
Proof.
  intros Hok Hc Hk Hm Hl Hall. destruct (clear_chunk_spec s c k Hok Hc Hk Hm Hl) as (m' & E & Hcl).
  destruct (bo_single _ Hok) as [Hs Hs2]. pose proof (bo_groups _ Hok). pose proof (bo_room _ Hok).
  assert (Hg : k / 4096 < groupCount s) by (destruct Hc as [->|[->| ->]]; Z.div_mod_to_equations; lia).
  unfold bind. rewrite E. assert (Eu : usage (set_memory m' s) (k / 4096) = usage s (k / 4096)).
  { unfold usage. cbn. apply (cc_half _ _ _ _ _ Hcl). pose proof (Z.div_pos k 4096). lia. }
  rewrite change_group_spec; cbn [singleCount memory set_memory]; [|rewrite (cc_length _ _ _ _ _ Hcl); lia|lia|apply Z.div_pos; lia].
  rewrite Eu. eexists. split; [done|].
  assert (Hcn : exists n, c = Z.of_nat n /\ (0 < n)%nat) by (exists (Z.to_nat c); destruct Hc as [->|[->| ->]]; lia).
  destruct Hcn as (n & -> & Hn). apply (takes_cleared s k n (k / 4096) m'); try done.
  intros j Hj. destruct Hc as [Hc|[Hc|Hc]]; rewrite Hc in *; Z.div_mod_to_equations; lia.
Qed.

Lemma set_bit_spec s k : halves_ok (memory s) -> 0 <= k -> has_word s (k / 32) ->
  exists m', (let! v := read_word (Z.shiftr k 5) in write_word (Z.shiftr k 5) (Z.lor v (bit_mask k))) s = (Ok tt, set_memory m' s) /\
    bit_changed k true (memory s) m'.
Proof.
  intros Hm Hk [H0 Hw]. unfold bind, bit_mask. rewrite shiftr_5, read_word_spec, land_31, write_word_spec by done.
  eexists. split; [done|]. pose proof (Z.mod_pos_bound k 32 ltac:(lia)). pose proof (word_range (memory s) (k / 32) Hm) as Hr.
  assert (Hbits : forall j, 0 <= j -> Z.testbit (Z.lor (word (memory s) (k / 32)) (Z.shiftl 1 (k mod 32))) j =
    if j =? k mod 32 then true else Z.testbit (word (memory s) (k / 32)) j).
  { intros j Hj. rewrite Z.lor_spec, Z.shiftl_spec by lia. destruct (Z.eqb_spec j (k mod 32)) as [->|Hne].
    - by rewrite Z.sub_diag, orb_true_r.
    - replace (Z.testbit 1 (j - k mod 32)) with false; [by rewrite orb_false_r|]. symmetry.
      destruct (Z.lt_ge_cases j (k mod 32)); [by apply Z.testbit_neg_r; lia|]. change 1 with (2 ^ 0). apply Z.pow2_bits_false. lia. }
  apply bit_changed_word; [done..| |intros; apply Hbits; lia].
  apply is_uint_bits; [lia|apply Z.lor_nonneg; split; [apply Hr|apply Z.shiftl_nonneg; lia]|]. intros i Hi. rewrite Hbits by lia.
  rewrite (testbit_high 32 (word _ _)) by done. by rewrite (proj2 (Z.eqb_neq _ _)) by lia.
Qed.

Section One.
Context (s : Bitset) (Hok : bitset_ok s) (k : Z) (Hk : 0 <= k < singleCount s).

Lemma one_group : 0 <= k / 4096 < groupCount s /\ singleCount s / 16 + k / 4096 < Z.of_nat (length (memory s)) /\
  2 * (k / 32) + 1 < singleCount s / 16.
Proof.
  destruct (bo_single _ Hok) as [Hs Hs2]. pose proof (bo_groups _ Hok). pose proof (bo_room _ Hok).
  assert (0 <= k / 4096 < groupCount s) by (Z.div_mod_to_equations; lia). split_and!; [lia|lia|lia|].
  clear -Hk Hs Hs2. Z.div_mod_to_equations; lia.
Qed.

(** One bit becomes [b] by [bit_changed], and its count changes before or after. *)
Lemma one_marked b m1 m2 : bit (memory s) k = negb b -> halves_ok m2 -> length m2 = length (memory s) ->
  (forall j, 0 <= j < singleCount s -> bit m2 j = if j =? k then b else bit (memory s) j) ->
  (forall h, 0 <= h < groupCount s -> half m2 (singleCount s / 16 + h) =
     if h =? k / 4096 then u16 (usage s (k / 4096) + if b then 1 else -1) else usage s h) ->
  m1 = set_memory m2 s -> marks b k 1 s m1.
Proof.
  intros Hb Hm Hl Hbit Hhalf ->. change 1 with (Z.of_nat 1). apply marks_memory with (g := k / 4096); [done|lia|lia|lia| | |done|done| |].
  - intros j Hj. by replace j with k by lia.
  - intros j Hj. by replace j with k by lia.
  - intros j Hj. rewrite Hbit by done. destruct (Z.eqb_spec j k), (within k (Z.of_nat 1) j) eqn:E; try done;
      [apply not_true_iff_false in E|apply within_spec in E]; rewrite ?within_spec in E; lia.
  - intros h Hh. rewrite Hhalf by done. by destruct b.
Qed.

Lemma Take_spec : bit (memory s) k = true -> exists s', Take k s = (Ok tt, s') /\ marks false k 1 s s'.
Proof.
  intros Hb. destruct one_group as (Hg & Hl & Hw). destruct (bo_single _ Hok) as [Hs Hs2]. pose proof (bo_halves _ Hok) as Hh.
  unfold Take. unfold bind at 1. rewrite Read_spec, Hb by (done || lia || by apply bit_word). cbn [negb].
  unfold bind. change (k / BITSET_GROUP_SIZE) with (k / 4096). rewrite change_group_spec by lia.
  set (m1 := <[_ := _]> (memory s)). assert (Hm1 : halves_ok m1) by (apply Forall_insert; [done|]; apply wrap_range; lia).
  pose proof (bit_word s k Hok Hk) as [Hw1 Hw2].
  destruct (clear_bit_spec (set_memory m1 s) k Hm1 ltac:(lia)) as (m2 & -> & [C1 C2 C3 C4]).
  { split; [done|]. cbn. unfold m1. by rewrite length_insert. }
  eexists. split; [done|]. cbn [memory set_memory] in *. eapply (one_marked false _ m2); [done|done| | | |done].
  - rewrite C2. unfold m1. apply length_insert.
  - intros j Hj. rewrite C3 by lia. destruct (j =? k); [done|]. unfold m1. apply bit_below; [done|done|lia|lia].
  - intros h Hr. rewrite C4 by lia. unfold m1. rewrite half_insert by lia.
    destruct (Z.eqb_spec h (k / 4096)) as [->|Hne]; [by rewrite Z.eqb_refl|]. by rewrite (proj2 (Z.eqb_neq _ _)) by lia.
Qed.

Lemma Put_spec : bit (memory s) k = false -> exists s', Put k s = (Ok tt, s') /\ marks true k 1 s s'.
Proof.
  intros Hb. destruct one_group as (Hg & Hl & Hw). destruct (bo_single _ Hok) as [Hs Hs2]. pose proof (bo_halves _ Hok) as Hh.
  unfold Put. unfold bind at 1, get. rewrite (proj2 (Z.ltb_ge _ _)) by lia.
  unfold bind at 1. rewrite Read_spec, Hb by (done || lia || by apply bit_word).
  destruct (set_bit_spec s k Hh ltac:(lia) (bit_word s k Hok Hk)) as (m1 & E & [C1 C2 C3 C4]).
  unfold bind in E |- *. destruct (read_word _ s) as [[v| |r] s0]; [|done..]. rewrite E.
  change (k / BITSET_GROUP_SIZE) with (k / 4096).
  pose proof (Z.div_pos (singleCount s) 16 ltac:(lia) ltac:(lia)).
  assert (Eu : usage (set_memory m1 s) (k / 4096) = usage s (k / 4096))
    by exact (C4 (singleCount s / 16 + k / 4096) ltac:(lia) ltac:(lia) ltac:(lia)).
  rewrite change_group_spec; cbn [singleCount memory set_memory]; [|rewrite C2; lia|lia|lia]. rewrite Eu.
  eexists. split; [done|]. eapply (one_marked true); [done| | | | |reflexivity].
  - apply Forall_insert; [done|]. apply wrap_range. lia.
  - by rewrite length_insert.
  - intros j Hj. rewrite <- C3 by lia. apply (bit_below (set_memory m1 s)); cbn; [done|done|lia|rewrite C2; lia].
  - intros h Hr. rewrite half_insert by (rewrite ?C2; lia). destruct (Z.eqb_spec h (k / 4096)) as [->|Hne]; [by rewrite Z.eqb_refl|].
    rewrite (proj2 (Z.eqb_neq _ _)) by lia. apply C4; lia.
Qed.
End One.

(** ** Searching for a chunk *)

Lemma count_ge p k n a (c : nat) : k <= a -> a + Z.of_nat c <= k + Z.of_nat n ->
  (forall j, a <= j < a + Z.of_nat c -> p j = true) -> Z.of_nat c <= count p k n.
Proof.
  intros Ha Hc Hin. replace n with (Z.to_nat (a - k) + (c + (n - Z.to_nat (a - k) - c)))%nat by lia.
  rewrite !count_split. replace (k + Z.of_nat (Z.to_nat (a - k))) with a by lia. rewrite (count_const true p a) by done.
  pose proof (count_range p k (Z.to_nat (a - k))). pose proof (count_range p (a + Z.of_nat c) (n - Z.to_nat (a - k) - c)). lia.
Qed.

(** A free chunk that may be returned. *)
Definition candidate (s : Bitset) (c below k : Z) : Prop :=
  0 <= k /\ k mod c = 0 /\ k + c <= singleCount s /\ all_set (memory s) k c /\ (below = 0 \/ k < below).

(** The result of a search from [start] up to [stop]. *)
Definition search_result (s : Bitset) (c below start stop : Z) (o : option Z) (s' : Bitset) : Prop :=
  match o with
  | None => s' = s /\ forall k, start <= k < stop -> ~ candidate s c below k
  | Some v => (v = none /\ s' = s /\ forall k, start <= k -> ~ candidate s c below k) \/
      (candidate s c below v /\ (forall k, start <= k < v -> ~ candidate s c below k) /\ marks false v c s s')
  end.

Lemma search_mono s c below start start' stop o s' : search_result s c below start' stop o s' -> start <= start' ->
  (forall k, start <= k < start' -> ~ candidate s c below k) -> search_result s c below start stop o s'.
Proof.
  assert (Hsplit : forall k, start <= k -> start <= k < start' \/ start' <= k) by lia. unfold search_result.
  destruct o as [v|]; [intros [(-> & -> & H)|(Hv & H & Hm)] Hs Hn|intros [-> H] Hs Hn].
  - left. split_and!; [done|done|]. intros k Hk. destruct (Hsplit k Hk); auto.
  - right. split_and!; [done| |done]. intros k Hk. destruct (Hsplit k ltac:(lia)); [auto|]. apply H. lia.
  - split; [done|]. intros k Hk. destruct (Hsplit k ltac:(lia)); [auto|]. apply H. lia.
Qed.

Section Chunks.
Context (s : Bitset) (Hok : bitset_ok s) (c : Z) (Hc : chunk_size c) (below : Z).

Lemma aligned_next a b : a mod c = 0 -> b mod c = 0 -> a < b -> a + c <= b.
Proof. intros Ha Hb Hl. destruct Hc as [->|[->| ->]]; Z.div_mod_to_equations; lia. Qed.
Lemma aligned_group i j : j mod c = 0 -> (4096 * i + j) mod c = 0.
Proof. intros Hj. destruct Hc as [->|[->| ->]]; Z.div_mod_to_equations; lia. Qed.

Lemma chunk_in_group_spec i : 0 <= i < groupCount s -> forall n j, 0 <= j -> j mod c = 0 -> j + Z.of_nat n * c = 4096 ->
  (4096 * i + 4096 <= singleCount s \/
   exists f, 4096 * i + j <= f /\ f mod c = 0 /\ f + c <= singleCount s /\ all_set (memory s) f c) ->
  exists o s', chunk_in_group n c below i j s = (Ok o, s') /\ search_result s c below (4096 * i + j) (4096 * i + 4096) o s'.
Proof.
  intros Hi. induction n as [|n IH]; intros j Hj Hm Hn Hend.
  { exists None, s. split; [done|]. split; [done|]. lia. }
  cbn [chunk_in_group]. replace (i * BITSET_GROUP_SIZE + j) with (4096 * i + j) by (unfold BITSET_GROUP_SIZE; lia).
  set (k := 4096 * i + j) in *. pose proof (aligned_group i j Hm) as Hk. fold k in Hk.
  assert (Hcp : 0 < c) by (destruct Hc as [->|[->| ->]]; lia).
  assert (Hkc : k + c <= singleCount s) by (destruct Hend as [?|(f & Hf & Hfm & ? & _)]; [lia|];
    destruct (Z.eq_dec k f); [lia|]; pose proof (aligned_next k f Hk Hfm ltac:(lia)); lia).
  destruct (negb (below =? 0) && (below <=? k)) eqn:Eb.
  { exists (Some none), s. split; [done|]. left. split_and!; [done|done|]. intros k' Hk' (_ & _ & _ & _ & Hb).
    apply andb_true_iff in Eb as [Eb1%negb_true_iff%Z.eqb_neq Eb2%Z.leb_le]. lia. }
  assert (Hb : below = 0 \/ k < below) by (apply andb_false_iff in Eb as [Eb%negb_false_iff%Z.eqb_eq|Eb%Z.leb_gt]; [by left|by right]).
  destruct (test_chunk_spec s c k Hok Hc ltac:(lia) Hk Hkc) as (b & E & Hall). unfold bind at 1. rewrite E. destruct b.
  - destruct (take_chunk s c k Hok Hc ltac:(lia) Hk Hkc (proj1 Hall eq_refl)) as (s' & E' & Hmk).
    replace (k / 4096) with i in E' by (unfold k; destruct Hc as [->|[->| ->]]; Z.div_mod_to_equations; lia).
    exists (Some k), s'. split; [done|]. right. split_and!; [|lia|done]. split_and!; [lia|done|lia|by apply Hall|done].
  - assert (Hno : ~ all_set (memory s) k c) by (intros Ha; apply Hall in Ha; done).
    destruct (IH (j + c)) as (o & s' & E' & Hr); [lia| |lia| |].
    + destruct Hc as [->|[->| ->]]; Z.div_mod_to_equations; lia.
    + destruct Hend as [?|(f & Hf & Hfm & Hfc & Hfa)]; [by left|right]. exists f. split_and!; [|done|done|done].
      destruct (Z.eq_dec k f) as [->|Hne]; [done|]. pose proof (aligned_next k f Hk Hfm ltac:(lia)). lia.
    + exists o, s'. split; [exact E'|]. eapply search_mono; [exact Hr|lia|].
      intros k' Hk' (_ & Hkm & _ & Ha & _). destruct (Z.eq_dec k k') as [->|Hne]; [done|].
      pose proof (aligned_next k k' Hk Hkm ltac:(lia)). lia.
Qed.

(** The last group is complete or only single bits are asked for. *)
Context (Hwhole : c = 1 \/ singleCount s mod 4096 = 0).

Lemma search_ends i : 0 <= i < groupCount s -> c <= usage s i ->
  4096 * i + 4096 <= singleCount s \/
  exists f, 4096 * i + 0 <= f /\ f mod c = 0 /\ f + c <= singleCount s /\ all_set (memory s) f c.
Proof.
  intros Hi Hu. rewrite (bo_usage _ Hok i Hi) in Hu. destruct Hwhole as [->|Hw].
  - right. destruct (count_pos (bit (memory s)) (4096 * i) (group_bits s i) ltac:(lia)) as (f & Hf & Hb).
    unfold group_bits in Hf. exists f. split_and!; [lia|apply Z.mod_1_r|lia|]. intros j Hj. by replace j with f by lia.
  - left. pose proof (bo_groups _ Hok). destruct (bo_single _ Hok) as [[? ?] _]. destruct (Z.eq_dec (4096 * i) (singleCount s)) as [E|Hne].
    + assert (group_bits s i = 0%nat) as Hz by (unfold group_bits; lia). rewrite Hz in Hu. cbn in Hu.
      destruct Hc as [->|[->| ->]]; lia.
    + Z.div_mod_to_equations; lia.
Qed.

Lemma no_candidate i : 0 <= i < groupCount s -> usage s i < c -> forall k, 4096 * i <= k < 4096 * i + 4096 -> ~ candidate s c below k.
Proof.
  intros Hi Hu k Hk (_ & Hm & Hl & Ha & _). rewrite (bo_usage _ Hok i Hi) in Hu. unfold group_bits in Hu.
  assert (Hend : k + c <= 4096 * i + 4096) by (destruct Hc as [->|[->| ->]]; Z.div_mod_to_equations; lia).
  assert (Hcp : 0 < c) by (destruct Hc as [->|[->| ->]]; lia).
  pose proof (count_ge (bit (memory s)) (4096 * i) (Z.to_nat (Z.min 4096 (singleCount s - 4096 * i))) k (Z.to_nat c) ltac:(lia) ltac:(lia)) as Hge.
  rewrite Z2Nat.id in Hge by lia. specialize (Hge Ha). lia.
Qed.

Lemma chunk_in_groups_spec : forall n i, 0 <= i -> i + Z.of_nat n = groupCount s ->
  exists o s', chunk_in_groups n c below i s = (Ok o, s') /\ search_result s c below (4096 * i) (2 ^ 64) o s'.
Proof.
  induction n as [|n IH]; intros i Hi Hn.
  { exists None, s. split; [done|]. split; [done|]. intros k Hk (_ & _ & Hl & _). pose proof (bo_groups _ Hok).
    destruct (bo_single _ Hok) as [[? ?] _]. destruct Hc as [->|[->| ->]]; Z.div_mod_to_equations; lia. }
  cbn [chunk_in_groups]. unfold bind at 1. rewrite (read_group_spec s i Hok) by lia.
  destruct (IH (i + 1) ltac:(lia) ltac:(lia)) as (o & s' & E' & Hr). replace (4096 * (i + 1)) with (4096 * i + 4096) in Hr by lia.
  destruct (Z.leb_spec c (usage s i)) as [Hu|Hu].
  - destruct (chunk_in_group_spec i ltac:(lia) (Z.to_nat (BITSET_GROUP_SIZE / c)) 0) as (o1 & s1 & E1 & H1);
      [lia|apply Z.mod_0_l; destruct Hc as [->|[->| ->]]; lia|by destruct Hc as [->|[->| ->]]|apply search_ends; [lia|done]|].
    unfold bind. rewrite E1. rewrite Z.add_0_r in H1. destruct o1 as [v|].
    + exists (Some v), s1. split; [done|]. exact H1.
    + destruct H1 as [-> H1]. exists o, s'. split; [done|]. eapply search_mono; [exact Hr|lia|exact H1].
  - exists o, s'. split; [done|]. eapply search_mono; [exact Hr|lia|]. apply no_candidate; [lia|done].
Qed.
End Chunks.

Lemma below_count below c : 0 <= below -> negb (below =? 0) && (below <? c) = (0 <? below) && (below <? c).
Proof. intros Hb. by destruct (Z.ltb_spec 0 below), (Z.eqb_spec below 0); try lia. Qed.

(** C23. [Get] for 1, 16 or 32 aligned bits. On a bitset whose counts agree with its bits (and whose last
    group is complete, when more than one bit is wanted), [Get] ends without an access outside of the
    memory. It returns the first aligned run of free bits that starts before [below - count], which are then not free any more, while
    everything else and the agreement of counts and bits are kept; or it returns -1, changes nothing,
    and there is no such run. There is no limit for [below = 0], and none for [below = count] either; for a smaller [below] the result is -1. *)
Theorem Get_chunk_correct s c below : bitset_ok s -> chunk_size c -> 0 <= below ->
  c = 1 \/ singleCount s mod 4096 = 0 ->
  let limit := if below =? 0 then 0 else below - c in
  if (0 <? below) && (below <? c) then Get c c below s = (Ok none, s)
  else exists v s', Get c c below s = (Ok v, s') /\
    ((v = none /\ s' = s /\ forall k, ~ candidate s c limit k) \/
     (v <> none /\ candidate s c limit v /\ (forall k, candidate s c limit k -> v <= k) /\ marks false v c s s')).
Proof.
  intros Hok Hc Hb Hw limit. unfold Get. unfold bind at 1 4, get. rewrite (below_count below c Hb).
  destruct ((0 <? below) && (below <? c)) eqn:El; [done|].
  assert (is_chunk c c = true) as -> by (unfold is_chunk; rewrite Z.eqb_refl; by destruct Hc as [->|[->| ->]]).
  replace (if below =? 0 then below else below - c) with limit by (unfold limit; destruct (Z.eqb_spec below 0); [done|done]).
  pose proof (bo_groups _ Hok). destruct (bo_single _ Hok) as [[? ?] ?].
  destruct (chunk_in_groups_spec s Hok c Hc limit Hw (Z.to_nat (groupCount s)) 0) as (o & s' & E & Hr); [lia|Z.div_mod_to_equations; lia|].
  unfold bind. rewrite E. exists (default none o), s'. split; [done|]. destruct o as [v|]; cbn.
  - destruct Hr as [(-> & -> & Hn)|(Hv & Hn & Hm)]; [left|right].
    + split_and!; [done|done|]. intros k Hk. apply (Hn k); [destruct Hk; lia|done].
    + split_and!; [|done| |done].
      * destruct Hv as (? & _ & ? & _). unfold none. destruct Hc as [->|[->| ->]]; lia.
      * intros k Hk. destruct (Z.le_gt_cases v k); [done|]. exfalso. apply (Hn k); [|done]. destruct Hk; lia.
  - left. destruct Hr as [-> Hn]. split_and!; [done|done|]. intros k Hk. apply (Hn k); [|done].
    destruct Hk as (? & _ & ? & _). destruct Hc as [->|[->| ->]]; lia.
Qed.

(** ** Searching for a run of any length *)

(** Complete groups, whose counts are at least the number of their free bits. *)
Record bitset_loose (s : Bitset) : Prop := {
  bl_halves : halves_ok (memory s);
  bl_single : 0 <= singleCount s < 2 ^ 64 /\ singleCount s mod 4096 = 0;
  bl_groups : groupCount s = singleCount s / 4096 + 1;
  bl_room : singleCount s / 16 + groupCount s <= Z.of_nat (length (memory s));
  bl_usage : forall g, 0 <= g < groupCount s -> count (bit (memory s)) (4096 * g) (group_bits s g) <= usage s g;
  bl_last : usage s (singleCount s / 4096) = 0;
}.

Lemma ok_loose s : bitset_ok s -> singleCount s mod 4096 = 0 -> bitset_loose s.
Proof.
  intros [H1 [H2 H2'] H3 H4 H5] Hw. split; [done|done|done|done| |].
  - intros g Hg. rewrite (H5 g Hg). lia.
  - rewrite (H5 (singleCount s / 4096)) by (Z.div_mod_to_equations; lia).
    unfold group_bits. replace (Z.to_nat _) with 0%nat by (Z.div_mod_to_equations; lia). done.
Qed.

Lemma loose_word s k : bitset_loose s -> 0 <= k < singleCount s -> has_word s (k / 32).
Proof.
  intros [_ [H1 H2] H3 H4 _ _] Hk. split; [apply Z.div_pos; lia|].
  assert (0 <= groupCount s) by (rewrite H3; pose proof (Z.div_pos (singleCount s) 4096); lia).
  assert (2 * (k / 32) + 2 <= singleCount s / 16) by (Z.div_mod_to_equations; lia). lia.
Qed.

Lemma within_succ k n j : within k (Z.of_nat (S n)) j = within (k + 1) (Z.of_nat n) j || (j =? k).
Proof. apply eq_true_iff_eq. rewrite orb_true_iff, !within_spec, Z.eqb_eq. lia. Qed.

Lemma bits_cleared_refl sc k m : halves_ok m -> bits_cleared sc k 0 m m.
Proof. intros Hm. split; [done|done| |done]. intros j _. destruct (within k 0 j) eqn:E; [apply within_spec in E; lia|done]. Qed.

Lemma clear_bits_spec n : forall s k, bitset_loose s -> 0 <= k -> k + Z.of_nat n <= singleCount s ->
  exists m', clear_bits n k s = (Ok tt, set_memory m' s) /\ bits_cleared (singleCount s) k (Z.of_nat n) (memory s) m'.
Proof.
  induction n as [|n IH]; intros s k Hl Hk Hn.
  { exists (memory s). split; [by destruct s|]. apply bits_cleared_refl, Hl. }
  cbn [clear_bits]. pose proof (loose_word s k Hl ltac:(lia)) as Hw.
  destruct (clear_bit_spec s k (bl_halves _ Hl) Hk Hw) as (m1 & E & [C1 C2 C3 C4]). unfold bind. rewrite E.
  destruct (bl_single _ Hl) as [Hs Hs2]. assert (Hb : 2 * (k / 32) + 1 < singleCount s / 16) by (Z.div_mod_to_equations; lia).
  assert (Hh : forall i, singleCount s / 16 <= i -> half m1 i = half (memory s) i) by (intros i Hi; apply C4; [|lia..]; Z.div_mod_to_equations; lia).
  assert (Hl1 : bitset_loose (set_memory m1 s)).
  { destruct Hl as [L1 L2 L3 L4 L5 L6]. split; cbn; [done|done|done|by rewrite C2| |].
    - intros g Hg. unfold usage. cbn. rewrite Hh by lia. etransitivity; [|apply (L5 g Hg)].
      change (group_bits (set_memory m1 s) g) with (group_bits s g). apply count_le. intros j Hj. rewrite C3 by lia. by destruct (j =? k).
    - unfold usage. cbn. rewrite Hh; [exact L6|]. Z.div_mod_to_equations; lia. }
  destruct (IH (set_memory m1 s) (k + 1) Hl1 ltac:(lia) ltac:(cbn; lia)) as (m2 & E2 & [D1 D2 D3 D4]). cbn in *.
  exists m2. split; [done|]. split; [done|congruence| |intros i Hi; rewrite D4 by done; by apply Hh].
  intros j Hj. rewrite D3, C3 by done. rewrite within_succ. by destruct (within (k + 1) (Z.of_nat n) j), (j =? k).
Qed.

Lemma loose_group s g : bitset_loose s -> 0 <= g < groupCount s -> read_group g s = (Ok (usage s g), s).
Proof.
  intros [_ [H1 H2] H3 H4 _ _] Hg. unfold read_group, bind. rewrite group_index_spec. apply read_half_spec.
  pose proof (Z.div_pos (singleCount s) 16 ltac:(lia) ltac:(lia)). lia.
Qed.

(** [c] free bits from [k], a multiple of [a] below the limit. *)
Definition run_candidate (s : Bitset) (c a below k : Z) : Prop :=
  0 <= k /\ k mod a = 0 /\ k + c <= singleCount s /\ all_set (memory s) k c /\ (below = 0 \/ k < below).

(** [s'] is [s] with the bits of the run taken and no count changed. *)
Definition run_taken (k c : Z) (s s' : Bitset) : Prop :=
  exists m', s' = set_memory m' s /\ bits_cleared (singleCount s) k c (memory s) m'.

Definition run_result (s : Bitset) (c a below v : Z) (s' : Bitset) : Prop :=
  (v = none /\ s' = s /\ forall k, ~ run_candidate s c a below k) \/
  (run_candidate s c a below v /\ (forall k, run_candidate s c a below k -> v <= k) /\ run_taken v c s s').

Section Runs.
Context (s : Bitset) (Hl : bitset_loose s) (c a below : Z) (Hc : 0 < c) (Ha : 0 < a).

(** Before the bit [p]: the [found] bits before it are free and may begin a run; no run begins earlier. *)
Record searching (p found start : Z) : Prop := {
  se_found : 0 <= found < c;
  se_start : found = 0 \/ (start + found = p /\ 0 <= start /\ start mod a = 0 /\ all_set (memory s) start found /\
    (below = 0 \/ start < below));
  se_first : forall k, run_candidate s c a below k -> (if found =? 0 then p else start) <= k;
}.

(** A bit which is not free, or no bit at all, ends the run. *)
Lemma searching_gap p found start : searching p found start -> 0 <= p -> bit (memory s) p = false \/ singleCount s <= p ->
  forall k, run_candidate s c a below k -> p < k.
Proof.
  intros [H1 H2 H3] Hp Hg k Hk. specialize (H3 k Hk). destruct Hk as (K1 & K2 & K3 & K4 & _).
  assert (p < k + c) by (destruct (Z.eqb_spec found 0); destruct H2 as [|[]]; lia).
  destruct (Z.le_gt_cases k p) as [Hle|]; [|done]. destruct Hg as [Hg|]; [|lia]. rewrite (K4 p) in Hg by lia. done.
Qed.

Lemma searching_reset p q start : (forall k, run_candidate s c a below k -> q <= k) -> p <= q -> searching q 0 start.
Proof. intros H1 _. split; [lia|by left|]. exact H1. Qed.

Lemma searching_free p found start : 0 <= p -> searching p found start -> bit (memory s) p = true ->
  (found = 0 -> p mod a = 0 /\ (below = 0 \/ p < below)) ->
  let start' := if found =? 0 then p else start in
  start' + (found + 1) = p + 1 /\ 0 <= start' /\ start' mod a = 0 /\ all_set (memory s) start' (found + 1) /\
  (below = 0 \/ start' < below) /\ forall k, run_candidate s c a below k -> start' <= k.
Proof.
  intros Hp [H1 H2 H3] Hb Hn start'. unfold start'. destruct (Z.eqb_spec found 0) as [->|Hf].
  - destruct (Hn eq_refl) as [? ?]. split_and!; [lia|done|done| |done|done]. intros j Hj. replace j with p by lia. done.
  - destruct H2 as [|(E & S0 & S1 & S2 & S3)]; [done|]. split_and!; [lia|done|done| |done|done].
    intros j Hj. destruct (Z.eq_dec j p) as [->|]; [done|]. apply S2. lia.
Qed.

Lemma loose_Read k : 0 <= k < singleCount s -> Read k s = (Ok (bit (memory s) k), s).
Proof. intros Hk. apply Read_spec; [apply Hl|lia|by apply loose_word]. Qed.

Definition group_result (p : Z) (r : Z * Z + Z) (s' : Bitset) : Prop :=
  match r with
  | inl (found, start) => s' = s /\ searching p found start
  | inr v => run_result s c a below v s'
  end.

Lemma run_in_group_spec i : 0 <= i < singleCount s / 4096 -> forall n j found start, 0 <= j -> j + Z.of_nat n = 4096 ->
  searching (4096 * i + j) found start ->
  exists r s', run_in_group n c a below i j found start s = (Ok r, s') /\ group_result (4096 * (i + 1)) r s'.
Proof.
  intros Hi. destruct (bl_single _ Hl) as [Hs Hs2]. induction n as [|n IH]; intros j found start Hj Hn Hse.
  { eexists (inl _), s. split; [done|]. split; [done|]. by replace (4096 * (i + 1)) with (4096 * i + j) by lia. }
  cbn [run_in_group]. replace (i * BITSET_GROUP_SIZE + j) with (4096 * i + j) by (unfold BITSET_GROUP_SIZE; lia).
  set (p := 4096 * i + j) in *. assert (Hp : 0 <= p < singleCount s) by (unfold p; Z.div_mod_to_equations; lia).
  unfold bind at 1. rewrite (loose_Read p Hp).
  assert (Hnext : forall f st, searching (p + 1) f st ->
    exists r s', run_in_group n c a below i (j + 1) f st s = (Ok r, s') /\ group_result (4096 * (i + 1)) r s').
  { intros f st Hf. apply IH; [lia|lia|]. by replace (4096 * i + (j + 1)) with (p + 1) by (unfold p; lia). }
  destruct (bit (memory s) p) eqn:Hb; cbn [andb].
  2:{ destruct (Z.eqb_spec 0 c); [lia|]. apply Hnext, (searching_reset p); [|lia]. intros k Hk.
      pose proof (searching_gap p found start Hse ltac:(lia) ltac:(by left) k Hk). lia. }
  destruct ((found =? 0) && (below <=? p) && negb (below =? 0)) eqn:Hlim.
  { rewrite !andb_true_iff, negb_true_iff, Z.eqb_neq, Z.eqb_eq, Z.leb_le in Hlim. destruct Hlim as [[-> ?] ?].
    exists (inr none), s. split; [done|]. left. split_and!; [done|done|]. intros k Hk. pose proof (se_first _ _ _ Hse k Hk) as Hk1.
    destruct Hk as (_ & _ & _ & _ & ?). cbn in Hk1. lia. }
  destruct ((found =? 0) && negb (p mod a =? 0)) eqn:Hal.
  { rewrite andb_true_iff, negb_true_iff, Z.eqb_neq, Z.eqb_eq in Hal. destruct Hal as [-> Hal]. apply Hnext, (searching_reset p); [|lia].
    intros k Hk. pose proof (se_first _ _ _ Hse k Hk) as Hk1. cbn in Hk1. destruct (Z.eq_dec k p) as [->|]; [|lia].
    destruct Hk as (_ & ? & _). done. }
  destruct (searching_free p found start ltac:(lia) Hse Hb) as (F1 & F2 & F3 & F4 & F5 & F6).
  { intros ->. cbn in Hlim, Hal. apply negb_false_iff, Z.eqb_eq in Hal. split; [done|].
    apply andb_false_iff in Hlim. rewrite negb_false_iff, Z.eqb_eq, Z.leb_gt in Hlim. tauto. }
  destruct (Z.eqb_spec (found + 1) c) as [Hf|Hf].
  - set (st := if found =? 0 then p else start) in *.
    destruct (clear_bits_spec (Z.to_nat c) s st Hl F2 ltac:(lia)) as (m' & E & Hm). rewrite Z2Nat.id in Hm by lia.
    exists (inr st), (set_memory m' s). unfold bind. rewrite E. split; [done|]. right. rewrite Hf in F4. split_and!; [|done|by exists m'].
    split_and!; [done|done|lia|done|done].
  - pose proof (se_found _ _ _ Hse). apply Hnext. split; [lia|right; split_and!; done|].
    destruct (Z.eqb_spec (found + 1) 0); [lia|done].
Qed.

Lemma unused_group i : 0 <= i < groupCount s -> usage s i = 0 -> i < singleCount s / 4096 ->
  forall j, 4096 * i <= j < 4096 * i + 4096 -> bit (memory s) j = false.
Proof.
  intros Hi Hu Hi2 j Hj. pose proof (bl_usage _ Hl i Hi) as Hk. rewrite Hu in Hk.
  destruct (bit (memory s) j) eqn:E; [|done].
  destruct (bl_single _ Hl) as [Hs _]. assert (group_bits s i = 4096%nat) as Hg by (unfold group_bits; Z.div_mod_to_equations; lia).
  rewrite Hg in Hk. pose proof (count_ge (bit (memory s)) (4096 * i) 4096 j 1 ltac:(lia) ltac:(lia)) as Hc1.
  assert (1 <= 0); [|lia]. etransitivity; [apply Hc1|exact Hk]. intros j' Hj'. by replace j' with j by lia.
Qed.

Lemma run_in_groups_spec : forall n i found start, 0 <= i -> i + Z.of_nat n = groupCount s -> searching (4096 * i) found start ->
  exists v s', run_in_groups n c a below i found start s = (Ok v, s') /\ run_result s c a below v s'.
Proof.
  pose proof (bl_groups _ Hl) as Hgc. destruct (bl_single _ Hl) as [Hs Hs2].
  induction n as [|n IH]; intros i found start Hi Hn Hse.
  { exists none, s. split; [done|]. left. split_and!; [done|done|]. intros k Hk.
    assert (singleCount s <= 4096 * i) by (Z.div_mod_to_equations; lia).
    pose proof (searching_gap _ _ _ Hse ltac:(lia) ltac:(by right) k Hk). destruct Hk as (_ & _ & ? & _). lia. }
  cbn [run_in_groups]. unfold bind at 1. rewrite (loose_group s i Hl) by lia.
  destruct (Z.eqb_spec (usage s i) 0) as [Hu|Hu].
  - apply IH; [lia|lia|]. apply (searching_reset (4096 * i)); [|lia]. intros k Hk.
    destruct (Z.lt_ge_cases i (singleCount s / 4096)) as [Hi2|Hi2].
    + pose proof (unused_group i ltac:(lia) Hu Hi2) as Hz.
      pose proof (searching_gap _ _ _ Hse ltac:(lia) (or_introl (Hz (4096 * i) ltac:(lia))) k Hk).
      destruct (Z.le_gt_cases (4096 * (i + 1)) k); [done|]. destruct Hk as (_ & _ & _ & K & _).
      specialize (K k ltac:(lia)). by rewrite (Hz k) in K by lia.
    + assert (singleCount s <= 4096 * i) by (Z.div_mod_to_equations; lia).
      pose proof (searching_gap _ _ _ Hse ltac:(lia) ltac:(by right) k Hk). destruct Hk as (_ & _ & ? & _). lia.
  - assert (Hi2 : i < singleCount s / 4096).
    { destruct (Z.eq_dec i (singleCount s / 4096)) as [->|]; [by rewrite (bl_last _ Hl) in Hu|lia]. }
    destruct (run_in_group_spec i ltac:(lia) (Z.to_nat BITSET_GROUP_SIZE) 0 found start) as (r & s' & E & Hr); [lia|done|by rewrite Z.add_0_r|].
    unfold bind. rewrite E. destruct r as [[f st]|v]; [|by exists v, s']. destruct Hr as [-> Hr]. apply IH; [lia|lia|done].
Qed.
End Runs.

(** Taking a run keeps the counts at least the numbers of free bits. *)
Lemma taken_loose s k c s' : bitset_loose s -> run_taken k c s s' -> bitset_loose s'.
Proof.
  intros [L1 L2 L3 L4 L5 L6] (m' & -> & [C1 C2 C3 C4]). destruct L2 as [L2 L2'].
  assert (0 <= singleCount s / 4096) by (apply Z.div_pos; lia).
  split; cbn; [done|done|done|by rewrite C2| |].
  - intros g Hg. unfold usage. cbn. rewrite C4 by lia. etransitivity; [|apply (L5 g Hg)].
    change (group_bits (set_memory m' s) g) with (group_bits s g). apply count_le. intros j Hj. rewrite C3 by lia. by destruct (within k c j).
  - unfold usage. cbn. rewrite C4 by lia. exact L6.
Qed.

(** C24. [Get] for any other number of bits. When all groups are complete and no count is less than the number of
    free bits of its group, [Get] ends without an access outside of the memory. It returns the first run
    of [count] free bits that starts at a multiple of [align] and before [below - count], and those bits and no others
    are not free any more; or it returns -1, changes nothing, and there is no such run. There is no limit for [below = 0], and none for
    [below = count] either; for a smaller [below] the result is -1. The counts of the
    groups are not changed, so they are still at least the numbers of free bits. *)
Theorem Get_run_correct s c a below : bitset_loose s -> 0 < c -> 0 < a -> is_chunk c a = false -> 0 <= below ->
  let limit := if below =? 0 then 0 else below - c in
  if (0 <? below) && (below <? c) then Get c a below s = (Ok none, s)
  else exists v s', Get c a below s = (Ok v, s') /\ bitset_loose s' /\
    ((v = none /\ s' = s /\ forall k, ~ run_candidate s c a limit k) \/
     (run_candidate s c a limit v /\ (forall k, run_candidate s c a limit k -> v <= k) /\ run_taken v c s s')).
Proof.
  intros Hl Hc Ha Hch Hb limit. unfold Get. unfold bind at 1 4, get. rewrite (below_count below c Hb).
  destruct ((0 <? below) && (below <? c)) eqn:El; [done|].
  rewrite Hch. replace (if below =? 0 then below else below - c) with limit by (unfold limit; destruct (Z.eqb_spec below 0); done).
  pose proof (bl_groups _ Hl). destruct (bl_single _ Hl) as [? ?].
  destruct (run_in_groups_spec s Hl c a limit Hc (Z.to_nat (groupCount s)) 0 0 0) as (v & s' & E & Hr);
    [lia|Z.div_mod_to_equations; lia| |].
  { split; [lia|by left|]. intros k Hk. destruct Hk; cbn; lia. }
  exists v, s'. split; [exact E|]. split; [|exact Hr]. destruct Hr as [(_ & -> & _)|(_ & _ & Ht)]; [done|by eapply taken_loose].
Qed.

(** ** A new bitset *)

Lemma half_zero n i : half (replicate n 0) i = 0.
Proof. unfold half. destruct (replicate n 0 !! Z.to_nat i) eqn:E; [|done]. by apply lookup_replicate in E as [-> _]. Qed.

(** The number of bits: [count] rounded up to a multiple of 32. *)
Definition rounded (n : Z) : Z := 32 * ((n + 31) / 32).

Lemma Initialise_spec n s0 : 0 <= n -> n + 31 < 2 ^ 64 ->
  exists s, Initialise n s0 = (Ok tt, s) /\ bitset_ok s /\ singleCount s = rounded n /\ forall k, bit (memory s) k = false.
Proof.
  intros Hn Hn2. eexists. split; [reflexivity|].
  assert (Es : Z.land (u64 (n + 31)) (2 ^ 64 - 32) = rounded n).
  { unfold u64. rewrite wrap_id by (unfold is_uint; lia). unfold rounded. apply Z.bits_inj'. intros i Hi. rewrite Z.land_spec.
    change 32 with (2 ^ 5). rewrite Z.mul_comm, <- Z.shiftl_mul_pow2, <- Z.shiftr_div_pow2, Z.shiftl_spec by lia.
    replace (2 ^ 64 - 2 ^ 5) with (Z.shiftl (Z.ones 59) 5) by reflexivity. rewrite Z.shiftl_spec by lia.
    destruct (Z.lt_ge_cases i 5). { rewrite !(Z.testbit_neg_r _ (i - 5)) by lia. apply andb_false_r. }
    rewrite Z.shiftr_spec by lia. replace (i - 5 + 5) with i by lia. destruct (Z.lt_ge_cases i 64).
    - rewrite Z.ones_spec_low by lia. apply andb_true_r.
    - rewrite (testbit_high 64 (n + 31)); [done|unfold is_uint; lia|lia]. }
  rewrite Es. assert (Hb : forall m k, bit (replicate m 0) k = false) by (intros; unfold bit; rewrite half_zero; apply Z.bits_0).
  assert (0 <= rounded n < 2 ^ 64 /\ rounded n mod 32 = 0) as [Hr Hr2] by (unfold rounded; Z.div_mod_to_equations; lia).
  split_and!; [|done|intros k; apply Hb]. split; cbn; [by apply Forall_replicate|done|done| |].
  - rewrite length_replicate. rewrite Z.shiftr_div_pow2 by lia. change (2 ^ 3) with 8. unfold BITSET_GROUP_SIZE. Z.div_mod_to_equations; lia.
  - intros g Hg. unfold usage. cbn. rewrite half_zero. by rewrite (count_const false) by (intros; apply Hb).
Qed.

Lemma lor_ones v : is_uint 32 v -> Z.lor v (2 ^ 32 - 1) = 2 ^ 32 - 1.
Proof.
  intros Hv. apply Z.bits_inj'. intros i Hi. rewrite Z.lor_spec. change (2 ^ 32 - 1) with (Z.ones 32).
  destruct (Z.lt_ge_cases i 32); [rewrite Z.ones_spec_low by lia; apply orb_true_r|].
  rewrite (testbit_high 32 v) by done. done.
Qed.

Lemma put_word_marks s i : bitset_ok s -> 0 <= i -> i mod 32 = 0 -> i + 32 <= singleCount s ->
  (forall j, i <= j < i + 32 -> bit (memory s) j = false) ->
  exists s', (change_group (i / BITSET_GROUP_SIZE) 32 ;;;
    let! v := read_word (i / 32) in write_word (i / 32) (Z.lor v (2 ^ 32 - 1))) s = (Ok tt, s') /\ marks true i 32 s s'.
Proof.
  intros Hok Hi Hm Hl Hold. destruct (one_group s Hok i ltac:(lia)) as (Hg & Hl2 & Hw). destruct (bo_single _ Hok) as [Hs Hs2].
  pose proof (bo_halves _ Hok) as Hh. pose proof (bit_word s i Hok ltac:(lia)) as [Hw1 Hw2]. pose proof (Z.div_pos (singleCount s) 16 ltac:(lia) ltac:(lia)).
  change (i / BITSET_GROUP_SIZE) with (i / 4096). unfold bind. rewrite change_group_spec by lia.
  set (m1 := <[_ := _]> (memory s)). assert (Hm1 : halves_ok m1) by (apply Forall_insert; [done|]; apply wrap_range; lia).
  assert (Hlen : length m1 = length (memory s)) by apply length_insert.
  assert (Hhas : has_word (set_memory m1 s) (i / 32)) by (split; [done|]; cbn; by rewrite Hlen).
  rewrite read_word_spec, write_word_spec, lor_ones by (done || exact (word_range m1 _ Hm1)). cbn [memory set_memory].
  eexists. split; [done|]. apply (marks_memory true s i 32 (i / 4096));
    [done|done|done|lia|done| |by apply put_word_ok|by rewrite length_put_word| |].
  - intros j Hj. Z.div_mod_to_equations; lia.
  - intros j Hj. rewrite bit_put_word by (done || lia || by rewrite Hlen). destruct (within i (Z.of_nat 32) j) eqn:Ew.
    + apply within_spec in Ew. rewrite (proj2 (Z.eqb_eq _ _)) by (Z.div_mod_to_equations; lia).
      pose proof (Z.mod_pos_bound j 32 ltac:(lia)). by apply (Z.ones_spec_low 32).
    + apply not_true_iff_false in Ew. rewrite within_spec in Ew. rewrite (proj2 (Z.eqb_neq _ _)) by (Z.div_mod_to_equations; lia).
      apply bit_below; [done|done|lia|lia].
  - intros h Hr. rewrite half_put_word by (rewrite ?Hlen; lia). unfold m1. rewrite half_insert by lia.
    destruct (Z.eqb_spec h (i / 4096)) as [->|Hne]; [by rewrite Z.eqb_refl|]. by rewrite (proj2 (Z.eqb_neq _ _)) by lia.
Qed.

Lemma put_all_spec n : forall s i, bitset_ok s -> 0 <= i -> i mod 32 = 0 -> i + 32 * Z.of_nat n = singleCount s ->
  (forall j, i <= j < singleCount s -> bit (memory s) j = false) ->
  exists s', put_all n i s = (Ok tt, s') /\ bitset_ok s' /\ singleCount s' = singleCount s /\
    forall j, 0 <= j < singleCount s -> bit (memory s') j = (i <=? j) || bit (memory s) j.
Proof.
  induction n as [|n IH]; intros s i Hok Hi Hm Hn Hold.
  { exists s. split_and!; [done..|]. intros j Hj. by rewrite (proj2 (Z.leb_gt _ _)) by lia. }
  destruct (put_word_marks s i Hok Hi Hm ltac:(lia) ltac:(intros; apply Hold; lia)) as (s1 & E & Hok1 & Hs1 & _ & Hb1).
  destruct (IH s1 (i + 32) Hok1 ltac:(lia) ltac:(Z.div_mod_to_equations; lia) ltac:(lia)) as (s2 & E2 & Hok2 & Hs2 & Hb2).
  { intros j Hj. rewrite Hb1 by lia. destruct (within i 32 j) eqn:Ew; [apply within_spec in Ew; lia|]. apply Hold. lia. }
  exists s2. split_and!; [|done|congruence|].
  - cbn [put_all]. unfold bind in E |- *. destruct (change_group _ 32 s) as [[[]| |r] sa]; [|done..].
    destruct (read_word _ sa) as [[v| |r] sb]; [|done..]. by rewrite E.
  - intros j Hj. rewrite Hb2, Hb1 by lia. destruct (within i 32 j) eqn:Ew.
    + apply within_spec in Ew. by rewrite (proj2 (Z.leb_le i j)), orb_true_r by lia.
    + apply not_true_iff_false in Ew. rewrite within_spec in Ew. destruct (Z.leb_spec (i + 32) j), (Z.leb_spec i j); done || lia.
Qed.

(** A new bitset. [Initialise] for [n] bits, of which the number is rounded up to a multiple of 32,
    followed by [PutAll] makes every one of them free, with the counts of the groups, and no access is
    outside of the memory. *)
Lemma Initialise_PutAll n s0 : 0 <= n -> n + 31 < 2 ^ 64 ->
  exists s, (Initialise n ;;; PutAll) s0 = (Ok tt, s) /\ bitset_ok s /\ singleCount s = rounded n /\
    forall k, 0 <= k < rounded n -> bit (memory s) k = true.
Proof.
  intros Hn Hn2. destruct (Initialise_spec n s0 Hn Hn2) as (s & E & Hok & Hs & Hb). unfold bind. rewrite E.
  unfold PutAll, bind, get. destruct (bo_single _ Hok) as [Hr Hr2].
  destruct (put_all_spec (Z.to_nat ((singleCount s + 31) / 32)) s 0) as (s' & E' & Hok' & Hs' & Hb');
    [done|done|done|Z.div_mod_to_equations; lia|intros; apply Hb|].
  exists s'. split_and!; [done|done|congruence|]. intros k Hk. rewrite Hb' by lia. rewrite (proj2 (Z.leb_le 0 k)) by lia. done.
Qed.

(** ** Examples *)

(** A new bitset with [n] free bits. *)
Definition full (n : Z) : Bitset := snd ((Initialise n ;;; PutAll) (MkBitset [] 0 0)).

Lemma full_ok n : 0 <= n -> n + 31 < 2 ^ 64 ->
  bitset_ok (full n) /\ singleCount (full n) = rounded n /\ forall k, 0 <= k < rounded n -> bit (memory (full n)) k = true.
Proof.
  intros Hn Hn2. unfold full. destruct (Initialise_PutAll n (MkBitset [] 0 0) Hn Hn2) as (s & -> & ?). done.
Qed.

Lemma Get_chunk_correct_witness :
  exists s', Get 16 16 0 (full 4096) = (Ok 0, s') /\ marks false 0 16 (full 4096) s'.
Proof.
  destruct (full_ok 4096 ltac:(lia) ltac:(lia)) as (Hok & Hs & Hb).
  destruct (Get_chunk_correct (full 4096) 16 0 Hok (or_intror (or_introl eq_refl)) ltac:(lia)
    ltac:(right; rewrite Hs; reflexivity)) as (v & s' & E & [(-> & _)|(_ & _ & _ & Hm)]).
  - exfalso. apply (f_equal fst) in E. vm_compute in E. discriminate.
  - assert (v = 0) as -> by (apply (f_equal fst) in E; vm_compute in E; by injection E). exists s'. split; [exact E|exact Hm].
Defined.

(** The bit 3 is not free. *)
Definition without_3 : Bitset := snd (Take 3 (full 4096)).
Lemma take_loose s k : bitset_ok s -> singleCount s mod 4096 = 0 -> 0 <= k < singleCount s -> bit (memory s) k = true ->
  bitset_loose (snd (Take k s)).
Proof.
  intros Hok Hm Hk Hb. destruct (Take_spec s Hok k Hk Hb) as (s' & -> & H1 & H2 & _). apply ok_loose; [exact H1|]. cbn [snd]. by rewrite H2.
Qed.
Lemma without_3_loose : bitset_loose without_3.
Proof.
  destruct (full_ok 4096 ltac:(lia) ltac:(lia)) as (Hok & Hs & Hb). 
  change (rounded 4096) with 4096 in Hs, Hb. unfold without_3. generalize dependent (full 4096). intros s Hok Hs Hb.
  apply take_loose; [exact Hok|by rewrite Hs|lia|apply Hb; lia].
Qed.

Lemma Get_run_correct_witness :
  exists s', Get 5 2 0 without_3 = (Ok 4, s') /\ bitset_loose s' /\ run_taken 4 5 without_3 s'.
Proof.
  destruct (Get_run_correct without_3 5 2 0 without_3_loose ltac:(lia) ltac:(lia) eq_refl ltac:(lia))
    as (v & s' & E & Hl & [(-> & _)|(_ & _ & Ht)]).
  - exfalso. apply (f_equal fst) in E. vm_compute in E. discriminate.
  - assert (v = 4) as -> by (apply (f_equal fst) in E; vm_compute in E; by injection E). exists s'. split_and!; [exact E|exact Hl|exact Ht].
Defined.

(** A run of another length is not subtracted from the count of its group. *)
Lemma run_not_counted : (let! k := Get 5 2 0 in let! n := read_group 0 in ret (k, n)) (full 4096) =
  (Ok (0, 4096), snd (Get 5 2 0 (full 4096))).
Proof. vm_compute. reflexivity. Qed.

(** With [below] equal to [count] there is no limit any more: bit 0 is taken, and 16 bits below 16 are found at 16. *)
Lemma limit_lost : fst ((Take 0 ;;; Get 16 16 16) (full 4096)) = Ok 16.
Proof. vm_compute. reflexivity. Qed.

(** The limit excludes the last position: bit 1 is free and below 2. *)
Lemma limit_excludes_last : fst ((Take 0 ;;; Get 1 1 2) (full 4096)) = Ok none.
Proof. vm_compute. reflexivity. Qed.

(** [Put] accepts the number of bits as an index, and sets a bit of the count of the first group. *)
Lemma Put_changes_count : fst ((Put 64 ;;; read_group 0) (full 64)) = Ok 66.
Proof. vm_compute. reflexivity. Qed.

(** When the last group is not complete, a run goes on in the bits of the count: of 63 free bits, 69 are allocated. *)
Lemma run_beyond_end : fst ((Take 0 ;;; let! k := Get 69 1 0 in let! n := read_group 0 in ret (k, n)) (full 64)) = Ok (1, 0).
Proof. vm_compute. reflexivity. Qed.
