(* ===== verification/ScriptToken.v ===== *)
(** * The tokenizer of the script engine (util/script.c)

    The token types, [Tokenizer], [Token], [TokenNext] and [TokenPeek].  The input
    is a list of bytes followed by a zero byte, as [FileLoad] leaves it; a read
    behind that byte is [OutOfBounds].  A token's [text] holds the [textBytes] bytes
    its pointer designates and [textStart] the position it points to. *)

From Stdlib Require Import String Ascii.
From stdpp Require Import base list.
From S2P Require Import Prelude.

(** ** Token and node types *)

Definition FUNCTION_MAX_ARGUMENTS : Z := 20.
Definition T_ERROR : Z := 0.
Definition T_EOF : Z := 1.
Definition T_IDENTIFIER : Z := 2.
Definition T_STRING_LITERAL : Z := 3.
Definition T_NUMERIC_LITERAL : Z := 4.
Definition T_ADD : Z := 20.
Definition T_MINUS : Z := 21.
Definition T_ASTERISK : Z := 22.
Definition T_SLASH : Z := 23.
Definition T_NEGATE : Z := 24.
Definition T_LEFT_ROUND : Z := 25.
Definition T_RIGHT_ROUND : Z := 26.
Definition T_LEFT_SQUARE : Z := 27.
Definition T_RIGHT_SQUARE : Z := 28.
Definition T_LEFT_FANCY : Z := 29.
Definition T_RIGHT_FANCY : Z := 30.
Definition T_COMMA : Z := 31.
Definition T_EQUALS : Z := 32.
Definition T_SEMICOLON : Z := 33.
Definition T_GREATER_THAN : Z := 34.
Definition T_LESS_THAN : Z := 35.
Definition T_GT_OR_EQUAL : Z := 36.
Definition T_LT_OR_EQUAL : Z := 37.
Definition T_DOUBLE_EQUALS : Z := 38.
Definition T_NOT_EQUALS : Z := 39.
Definition T_LOGICAL_AND : Z := 40.
Definition T_LOGICAL_OR : Z := 41.
Definition T_ADD_EQUALS : Z := 42.
Definition T_MINUS_EQUALS : Z := 43.
Definition T_ASTERISK_EQUALS : Z := 44.
Definition T_SLASH_EQUALS : Z := 45.
Definition T_DOT : Z := 46.
Definition T_COLON : Z := 47.
Definition T_LOGICAL_NOT : Z := 48.
Definition T_BIT_SHIFT_LEFT : Z := 49.
Definition T_BIT_SHIFT_RIGHT : Z := 50.
Definition T_BITWISE_OR : Z := 51.
Definition T_BITWISE_AND : Z := 52.
Definition T_BITWISE_NOT : Z := 53.
Definition T_BITWISE_XOR : Z := 54.
Definition T_ROOT : Z := 70.
Definition T_FUNCBODY : Z := 71.
Definition T_ARGUMENTS : Z := 72.
Definition T_ARGUMENT : Z := 73.
Definition T_FUNCTION : Z := 74.
Definition T_BLOCK : Z := 75.
Definition T_VARIABLE : Z := 76.
Definition T_CALL : Z := 77.
Definition T_DECLARE : Z := 78.
Definition T_FUNCPTR : Z := 79.
Definition T_STR_INTERPOLATE : Z := 80.
Definition T_INDEX : Z := 81.
Definition T_LIST : Z := 82.
Definition T_IMPORT_PATH : Z := 83.
Definition T_LIST_LITERAL : Z := 84.
Definition T_REPL_RESULT : Z := 85.
Definition T_RETURN_TUPLE : Z := 86.
Definition T_DECLARE_GROUP : Z := 87.
Definition T_DECL_GROUP_AND_SET : Z := 88.
Definition T_SET_GROUP : Z := 89.
Definition T_FOR_EACH : Z := 90.
Definition T_ERR_CAST : Z := 91.
Definition T_IF_ERR : Z := 92.
Definition T_INTTYPE_CONSTANT : Z := 93.
Definition T_ANYTYPE_CAST : Z := 94.
Definition T_CAST_TYPE_WRAPPER : Z := 95.
Definition T_ZERO : Z := 96.
Definition T_PLACEHOLDER : Z := 97.
Definition T_EXIT_SCOPE : Z := 100.
Definition T_END_FUNCTION : Z := 101.
Definition T_POP : Z := 102.
Definition T_BRANCH : Z := 103.
Definition T_CONCAT : Z := 104.
Definition T_INTERPOLATE_STR : Z := 105.
Definition T_INTERPOLATE_BOOL : Z := 106.
Definition T_INTERPOLATE_INT : Z := 107.
Definition T_INTERPOLATE_FLOAT : Z := 108.
Definition T_DUP : Z := 109.
Definition T_SWAP : Z := 110.
Definition T_INTERPOLATE_ILIST : Z := 111.
Definition T_ROT3 : Z := 112.
Definition T_LIBCALL : Z := 113.
Definition T_END_CALLBACK : Z := 114.
Definition T_FLOAT_ADD : Z := 120.
Definition T_FLOAT_MINUS : Z := 121.
Definition T_FLOAT_ASTERISK : Z := 122.
Definition T_FLOAT_SLASH : Z := 123.
Definition T_FLOAT_NEGATE : Z := 124.
Definition T_FLOAT_GREATER_THAN : Z := 125.
Definition T_FLOAT_LESS_THAN : Z := 126.
Definition T_FLOAT_GT_OR_EQUAL : Z := 127.
Definition T_FLOAT_LT_OR_EQUAL : Z := 128.
Definition T_FLOAT_DOUBLE_EQUALS : Z := 129.
Definition T_FLOAT_NOT_EQUALS : Z := 130.
Definition T_STR_DOUBLE_EQUALS : Z := 131.
Definition T_STR_NOT_EQUALS : Z := 132.
Definition T_EQUALS_DOT : Z := 133.
Definition T_EQUALS_LIST : Z := 134.
Definition T_INDEX_LIST : Z := 135.
Definition T_OP_RESIZE : Z := 140.
Definition T_OP_ADD : Z := 141.
Definition T_OP_INSERT : Z := 142.
Definition T_OP_INSERT_MANY : Z := 143.
Definition T_OP_DELETE : Z := 144.
Definition T_OP_DELETE_MANY : Z := 145.
Definition T_OP_DELETE_LAST : Z := 146.
Definition T_OP_DELETE_ALL : Z := 147.
Definition T_OP_FIRST : Z := 148.
Definition T_OP_LAST : Z := 149.
Definition T_OP_LEN : Z := 150.
Definition T_OP_DISCARD : Z := 151.
Definition T_OP_ASSERT : Z := 152.
Definition T_OP_CURRY : Z := 153.
Definition T_OP_ASYNC : Z := 154.
Definition T_OP_FIND_AND_DELETE : Z := 155.
Definition T_OP_FIND : Z := 156.
Definition T_OP_FIND_AND_DEL_STR : Z := 157.
Definition T_OP_FIND_STR : Z := 158.
Definition T_OP_ASSERT_ERR : Z := 159.
Definition T_OP_SUCCESS : Z := 160.
Definition T_OP_ERROR : Z := 161.
Definition T_OP_DEFAULT : Z := 162.
Definition T_OP_INT_TO_FLOAT : Z := 163.
Definition T_OP_FLOAT_TRUNCATE : Z := 164.
Definition T_OP_CAST : Z := 165.
Definition T_IF : Z := 170.
Definition T_WHILE : Z := 171.
Definition T_FOR : Z := 172.
Definition T_INT : Z := 173.
Definition T_FLOAT : Z := 174.
Definition T_BOOL : Z := 175.
Definition T_VOID : Z := 176.
Definition T_RETURN : Z := 177.
Definition T_ELSE : Z := 178.
Definition T_EXTCALL : Z := 179.
Definition T_STR : Z := 180.
Definition T_FUNCTYPE : Z := 181.
Definition T_NULL : Z := 182.
Definition T_FALSE : Z := 183.
Definition T_TRUE : Z := 184.
Definition T_ASSERT : Z := 185.
Definition T_PERSIST : Z := 186.
Definition T_STRUCT : Z := 187.
Definition T_NEW : Z := 188.
Definition T_OPTION : Z := 189.
Definition T_IMPORT : Z := 190.
Definition T_INLINE : Z := 191.
Definition T_AWAIT : Z := 192.
Definition T_TUPLE : Z := 193.
Definition T_IN : Z := 194.
Definition T_ERR : Z := 195.
Definition T_SUCCESS : Z := 196.
Definition T_RETERR : Z := 197.
Definition T_INTTYPE : Z := 198.
Definition T_HANDLETYPE : Z := 199.
Definition T_ANYTYPE : Z := 200.
Definition T_LIBRARY : Z := 201.

(** ** Characters *)

Definition ch (a : ascii) : Z := Z.of_N (N_of_ascii a).
Definition bytes_of (s : string) : bytes := map ch (list_ascii_of_string s).

(** The operators of two characters, in the order in which they are tried. *)
Definition operators2 : list (Z * Z * Z) := Eval vm_compute in
  [
    (ch "<", ch "=", T_LT_OR_EQUAL); (ch ">", ch "=", T_GT_OR_EQUAL);
    (ch "=", ch "=", T_DOUBLE_EQUALS); (ch "!", ch "=", T_NOT_EQUALS);
    (ch "&", ch "&", T_LOGICAL_AND); (ch "|", ch "|", T_LOGICAL_OR);
    (ch "+", ch "=", T_ADD_EQUALS); (ch "-", ch "=", T_MINUS_EQUALS);
    (ch "*", ch "=", T_ASTERISK_EQUALS); (ch "/", ch "=", T_SLASH_EQUALS);
    (ch "<", ch "<", T_BIT_SHIFT_LEFT); (ch ">", ch ">", T_BIT_SHIFT_RIGHT);
    (ch "~", ch "|", T_BITWISE_XOR)
  ]%char.

(** The operators of one character. *)
Definition operators1 : list (Z * Z) := Eval vm_compute in
  [
    (ch "+", T_ADD); (ch "-", T_MINUS); (ch "*", T_ASTERISK); (ch "/", T_SLASH);
    (ch "(", T_LEFT_ROUND); (ch ")", T_RIGHT_ROUND); (ch "[", T_LEFT_SQUARE);
    (ch "]", T_RIGHT_SQUARE); (ch "{", T_LEFT_FANCY); (ch "}", T_RIGHT_FANCY);
    (ch ",", T_COMMA); (ch ";", T_SEMICOLON); (ch "=", T_EQUALS); (ch "<", T_LESS_THAN);
    (ch ">", T_GREATER_THAN); (ch "%", T_STR_INTERPOLATE); (ch ".", T_DOT); (ch ":", T_COLON);
    (ch "!", T_LOGICAL_NOT); (ch "|", T_BITWISE_OR); (ch "&", T_BITWISE_AND);
    (ch "~", T_BITWISE_NOT)
  ]%char.

Definition keywords : list (bytes * Z) := Eval vm_compute in
  [
    (bytes_of "#extcall", T_EXTCALL); (bytes_of "#import", T_IMPORT);
    (bytes_of "#inline", T_INLINE); (bytes_of "#library", T_LIBRARY);
    (bytes_of "#option", T_OPTION); (bytes_of "#persist", T_PERSIST);
    (bytes_of "#success", T_SUCCESS); (bytes_of "anytype", T_ANYTYPE);
    (bytes_of "assert", T_ASSERT); (bytes_of "await", T_AWAIT); (bytes_of "bool", T_BOOL);
    (bytes_of "else", T_ELSE); (bytes_of "err", T_ERR); (bytes_of "false", T_FALSE);
    (bytes_of "float", T_FLOAT); (bytes_of "for", T_FOR); (bytes_of "functype", T_FUNCTYPE);
    (bytes_of "handletype", T_HANDLETYPE); (bytes_of "if", T_IF); (bytes_of "in", T_IN);
    (bytes_of "int", T_INT); (bytes_of "inttype", T_INTTYPE); (bytes_of "new", T_NEW);
    (bytes_of "null", T_NULL); (bytes_of "reterr", T_RETERR); (bytes_of "return", T_RETURN);
    (bytes_of "str", T_STR); (bytes_of "struct", T_STRUCT); (bytes_of "true", T_TRUE);
    (bytes_of "tuple", T_TUPLE); (bytes_of "void", T_VOID); (bytes_of "while", T_WHILE)
  ]%string.

(** ** State *)

Record Token := MkToken {
  text : bytes;
  textStart : nat;
  token_line : Z;
  token_type : Z;
}.

(** The zero-initialised token. *)
Definition token0 : Token := MkToken [] 0 0 T_ERROR.

Definition set_token_type (y : Z) (k : Token) : Token :=
  MkToken (text k) (textStart k) (token_line k) y.

Record Tokenizer := MkTokenizer {
  input : bytes;
  position : nat;
  line : Z;
  error : bool;
  isBaseModule : bool;
}.

Definition inputBytes (t : Tokenizer) : nat := length (input t).
Definition set_position (p : nat) (t : Tokenizer) : Tokenizer :=
  MkTokenizer (input t) p (line t) (error t) (isBaseModule t).
Definition advance (n : nat) (t : Tokenizer) : Tokenizer := set_position (position t + n) t.
Definition next_line (t : Tokenizer) : Tokenizer :=
  MkTokenizer (input t) (position t) (line t + 1) (error t) (isBaseModule t).
Definition set_error (t : Tokenizer) : Tokenizer :=
  MkTokenizer (input t) (position t) (line t) true (isBaseModule t).

(** [n] bytes of [b] from [i]. *)
Definition segment (i n : nat) (b : bytes) : bytes := take n (drop i b).

(** ** Character classes and the loops over a token *)

Definition is_letter (c : Z) : bool :=
  (97 <=? c) && (c <=? 122) || (65 <=? c) && (c <=? 90) || (c =? 95) || (128 <=? c).
Definition is_digit (c : Z) : bool := (48 <=? c) && (c <=? 57).
Definition is_blank (c : Z) : bool := (c =? 32) || (c =? 9) || (c =? 13).

(** The characters of a comment: up to the end of the line or of the input. *)
Fixpoint comment_length (rest : bytes) : nat :=
  match rest with
  | c :: rest' => if c =? 10 then O else S (comment_length rest')
  | [] => O
  end.

(** The loop over an identifier, which may start with the character 35. *)
Fixpoint identifier_length (rest : bytes) (textBytes : nat) : nat :=
  match rest with
  | c :: rest' =>
      if is_letter c || is_digit c || (c =? 35) && (textBytes =? 0)%nat
      then identifier_length rest' (S textBytes)
      else textBytes
  | [] => textBytes
  end.

Fixpoint number_length (rest : bytes) (textBytes : nat) : nat :=
  match rest with
  | c :: rest' =>
      if is_digit c || (c =? 46) then number_length rest' (S textBytes) else textBytes
  | [] => textBytes
  end.

(** The loop over a string literal from position [i]: where it ends, or the error. *)
Inductive string_end :=
  | StringEnd (endPosition : nat)
  | StringError (message : string) (textBytes : nat)
  | StringFault.

Definition is_escape (c : Z) : bool :=
  (c =? 110) || (c =? 116) || (c =? 114) || (c =? 37) || (c =? 34) || (c =? 92).

Fixpoint scan_string (rest : bytes) (i : nat) (inInterpolation : bool) (textBytes : nat)
  : string_end :=
  match rest with
  | [] => if inInterpolation then StringFault
          else StringError "String does not end before the end of the line." textBytes
  | c :: rest' =>
    if inInterpolation then
      if c =? 37 then scan_string rest' (S i) false textBytes
      else if c =? 34 then
        StringError "Strings are not allowed within a string interpolation expression." textBytes
      else if c =? 10 then
        StringError "String interpolation expressions must stay on a single line." textBytes
      else scan_string rest' (S i) true (S textBytes)
    else if c =? 10 then
      StringError "String does not end before the end of the line." textBytes
    else if c =? 34 then StringEnd i
    else if c =? 37 then scan_string rest' (S i) true textBytes
    else if c =? 92 then
      match rest' with
      | e :: rest'' =>
          if is_escape e then scan_string rest'' (S (S i)) false (S textBytes)
          else StringError "String contains unrecognized escape sequence." textBytes
      | [] => StringError "String contains unrecognized escape sequence." textBytes
      end
    else scan_string rest' (S i) false (S textBytes)
  end.

(** ** TokenNext *)

(** What a call does: the new tokenizer, the token and the message printed, if any. *)
Inductive lexed :=
  | Lexed (t : Tokenizer) (k : Token) (message : option string)
  | LexFault.

Fixpoint lookup2 (table : list (Z * Z * Z)) (c c1 : Z) : option Z :=
  match table with
  | [] => None
  | (a, b, y) :: table' => if (c =? a) && (c1 =? b) then Some y else lookup2 table' c c1
  end.

Fixpoint lookup1 (table : list (Z * Z)) (c : Z) : option Z :=
  match table with
  | [] => None
  | (a, y) :: table' => if c =? a then Some y else lookup1 table' c
  end.

Fixpoint lookup_keyword (table : list (bytes * Z)) (b : bytes) : option Z :=
  match table with
  | [] => None
  | (w, y) :: table' => if decide (b = w) then Some y else lookup_keyword table' b
  end.

Definition lex_identifier (t : Tokenizer) (c : Z) : lexed :=
  let n := identifier_length (drop (position t) (input t)) 0 in
  let word := segment (position t) n (input t) in
  let k := MkToken word (position t) (u32 (line t)) T_IDENTIFIER in
  match lookup_keyword keywords word with
  | Some y => Lexed (advance n t) (set_token_type y k) None
  | None =>
      if c =? 35 then
        Lexed (set_error (advance n t)) (set_token_type T_ERROR k) (Some "Unrecognised #-token '%.*s'.")%string
      else Lexed (advance n t) k None
  end.

Definition lex_number (t : Tokenizer) (c : Z) : lexed :=
  let n := number_length (drop (position t) (input t)) 0 in
  let y := if (n =? 1)%nat && (c =? 48) then T_ZERO else T_NUMERIC_LITERAL in
  Lexed (advance n t) (MkToken (segment (position t) n (input t)) (position t) (u32 (line t)) y) None.

Definition lex_string (t : Tokenizer) : lexed :=
  let startPosition := S (position t) in
  match scan_string (drop startPosition (input t)) startPosition false 1 with
  | StringEnd endPosition =>
      Lexed (set_position (S endPosition) t)
        (MkToken (segment startPosition (endPosition - startPosition) (input t)) startPosition
           (u32 (line t)) T_STRING_LITERAL) None
  | StringError message textBytes =>
      Lexed (set_error (advance 1 t))
        (MkToken (segment (position t) textBytes (input t)) (position t) (u32 (line t)) T_ERROR)
        (Some message)
  | StringFault => LexFault
  end.

(** The cases of a character that starts a token. *)
Definition lex_token (t : Tokenizer) (c c1 : Z) : lexed :=
  let k y := MkToken [c] (position t) (u32 (line t)) y in
  match lookup2 operators2 c c1 with
  | Some y => Lexed (advance 2 t) (k y) None
  | None =>
  match lookup1 operators1 c with
  | Some y => Lexed (advance 1 t) (k y) None
  | None =>
      if is_letter c || (c =? 35) then lex_identifier t c
      else if is_digit c then lex_number t c
      else if c =? 34 then lex_string t
      else Lexed (set_error t) (k T_ERROR) (Some "Unexpected character '%c'.")%string
  end end.

(** The loop of [TokenNext]: blanks, ends of lines and comments are passed over. *)
Fixpoint lex_loop (fuel : nat) (t : Tokenizer) (k : Token) : lexed :=
  match fuel with
  | O => LexFault
  | S fuel' =>
    if (position t =? inputBytes t)%nat then Lexed t (set_token_type T_EOF k) None
    else match input t !! position t with
    | None => LexFault
    | Some c =>
      let c1 := if (S (position t) =? inputBytes t)%nat then 0
                else default 0 (input t !! S (position t)) in
      let k := MkToken [c] (position t) (u32 (line t)) T_ERROR in
      if is_blank c then lex_loop fuel' (advance 1 t) k
      else if c =? 10 then lex_loop fuel' (next_line (advance 1 t)) k
      else if (c =? 47) && (c1 =? 47) then
        lex_loop fuel' (advance (comment_length (drop (position t) (input t))) t) k
      else lex_token t c c1
    end
  end.

(** Every pass moves on by at least one byte. *)
Definition lex (t : Tokenizer) : lexed := lex_loop (S (inputBytes t - position t)) t token0.

(** The state of a parse: the tokenizer, the messages printed (line and text) and
    whether the module has a library. *)
Record parser := MkParser {
  tokenizer : Tokenizer;
  messages : list (Z * string);
  library : bool;
}.

Definition set_tokenizer (t : Tokenizer) (s : parser) : parser :=
  MkParser t (messages s) (library s).

(** [PrintError] and [PrintError2]: a message about a line. *)
Definition print_line (n : Z) (message : string) : M parser unit :=
  modify (fun s => MkParser (tokenizer s) (messages s ++ [(n, message)]) (library s)).
Definition PrintError (message : string) : M parser unit :=
  let! s := get in print_line (line (tokenizer s)) message.

Definition log_lexed (m : option string) (t : Tokenizer) (s : parser) : parser :=
  match m with
  | Some x => MkParser (tokenizer s) (messages s ++ [(line t, x)]) (library s)
  | None => s
  end.

Definition TokenNext : M parser Token := fun s =>
  match lex (tokenizer s) with
  | Lexed t k m => (Ok k, set_tokenizer t (log_lexed m t s))
  | LexFault => (Stop OutOfBounds, s)
  end.

(** [TokenPeek] works on a copy of the tokenizer; what it prints stays. *)
Definition TokenPeek : M parser Token := fun s =>
  match lex (tokenizer s) with
  | Lexed t k m => (Ok k, log_lexed m t s)
  | LexFault => (Stop OutOfBounds, s)
  end.

(** A source text as it is loaded. *)
Definition load (source : bytes) : parser :=
  MkParser (MkTokenizer source 0 1 false false) [] false.

(** All tokens of a text, for a bounded number of calls. *)
Fixpoint tokens (n : nat) (t : Tokenizer) : list (Z * bytes) :=
  match n with
  | O => []
  | S n' => match lex t with
            | Lexed t' k None => if token_type k =? T_EOF then [] else (token_type k, text k) :: tokens n' t'
            | _ => []
            end
  end.

Example tokens_small :
  tokens 20 (tokenizer (load (bytes_of "x += 0; // c"))) =
  [(T_IDENTIFIER, bytes_of "x"); (T_ADD_EQUALS, bytes_of "+"); (T_ZERO, bytes_of "0");
   (T_SEMICOLON, bytes_of ";")].
Proof. vm_compute. reflexivity. Qed.

(** ** What a call of [lex] guarantees *)

(** The bytes still to be read. *)
Definition rest_of (t : Tokenizer) : bytes := drop (position t) (input t).

(** The tokenizer is inside its input. *)
Definition in_input (t : Tokenizer) : Prop := (position t <= inputBytes t)%nat.

Lemma rest_cons t c r :
  rest_of t = c :: r ->
  input t !! position t = Some c /\ (position t < inputBytes t)%nat /\
  input t !! S (position t) = head r /\ rest_of (advance 1 t) = r.
Proof.
  unfold rest_of, inputBytes. intros H.
  assert (input t !! position t = Some c) as Hc.
  { rewrite <- (Nat.add_0_r (position t)), <- lookup_drop, H. done. }
  repeat split; [done|by apply lookup_lt_Some in Hc| |].
  - rewrite <- Nat.add_1_r, <- lookup_drop, H. destruct r; done.
  - cbn. rewrite <- drop_drop, H. done.
Qed.

Lemma rest_nil t : in_input t -> rest_of t = [] -> position t = inputBytes t.
Proof.
  unfold in_input, rest_of, inputBytes. intros Hi H.
  apply (f_equal length) in H. rewrite length_drop in H. cbn in H. lia.
Qed.

Lemma length_rest t : length (rest_of t) = (inputBytes t - position t)%nat.
Proof. apply length_drop. Qed.

Lemma rest_advance n t : rest_of (advance n t) = drop n (rest_of t).
Proof. unfold rest_of. cbn. by rewrite drop_drop. Qed.

Lemma advance_advance n m t : advance n (advance m t) = advance (m + n) t.
Proof. unfold advance, set_position. cbn. f_equal. lia. Qed.

Lemma advance_0 t : advance 0 t = t.
Proof. destruct t. unfold advance, set_position. cbn. f_equal. lia. Qed.

Lemma comment_length_le r : (comment_length r <= length r)%nat.
Proof. induction r as [|c r IH]; cbn; [lia|]. destruct (c =? 10); cbn; lia. Qed.

Lemma identifier_length_le r n :
  (n <= identifier_length r n <= n + length r)%nat.
Proof.
  revert n; induction r as [|c r IH]; intros n; cbn; [lia|].
  case_match; [|lia]. specialize (IH (S n)). lia.
Qed.

Lemma number_length_le r n : (n <= number_length r n <= n + length r)%nat.
Proof.
  revert n; induction r as [|c r IH]; intros n; cbn; [lia|].
  case_match; [|lia]. specialize (IH (S n)). lia.
Qed.

(** The recursion of [scan_string] skips two bytes at an escape. *)
Lemma bytes_ind2 (P : bytes -> Prop) :
  P [] -> (forall c r, P r -> (forall e r', r = e :: r' -> P r') -> P (c :: r)) -> forall r, P r.
Proof.
  intros H0 HS.
  assert (forall n r, (length r <= n)%nat -> P r) as H; [|eauto].
  induction n as [|n IH]; intros [|c r] Hl; cbn in *; [done|lia|done|].
  apply HS; [apply IH; lia|]. intros e r' ->. apply IH. cbn in *. lia.
Qed.

Lemma scan_string_end r i b n e :
  scan_string r i b n = StringEnd e -> (i <= e < i + length r)%nat.
Proof.
  revert i b n. induction r as [|c r IH IH2] using bytes_ind2; intros i b n; cbn.
  { destruct b; discriminate. }
  repeat case_match; intros He; simplify_eq; try (apply IH in He; lia); try lia.
  eapply IH2 in He; [|done]. cbn. lia.
Qed.

(** A read behind the input needs an interpolation that is open at its end, and so a
    text that does not end with an end of line. *)
Lemma last_cons_ne (c : Z) r : List.last r 10 <> 10 -> List.last (c :: r) 10 <> 10.
Proof. destruct r; cbn; [done|auto]. Qed.

Lemma scan_string_fault r i b n :
  scan_string r i b n = StringFault -> r = [] /\ b = true \/ List.last r 10 <> 10.
Proof.
  revert i b n. induction r as [|c r IH IH2] using bytes_ind2; intros i b n; cbn [scan_string].
  { destruct b; [auto|discriminate]. }
  intros H. right.
  repeat case_match; simplify_eq; try discriminate;
    try (apply IH in H; destruct H as [[-> ?]|H]; [|by apply last_cons_ne]);
    try discriminate; try (cbn; lia).
  apply (IH2 _ _ eq_refl) in H. destruct H as [[-> ?]|H]; [discriminate|].
  by do 2 apply last_cons_ne.
Qed.

(** *** The tables *)

Lemma lookup2_In table c c1 y : lookup2 table c c1 = Some y -> In (c, c1, y) table.
Proof.
  induction table as [|[[a b] z] table IH]; cbn; [done|].
  destruct (_ && _) eqn:E; intros Hy; [|auto]. left. simplify_eq. by assert (c = a /\ c1 = b) as [-> ->] by lia.
Qed.

Lemma lookup1_In table c y : lookup1 table c = Some y -> In (c, y) table.
Proof.
  induction table as [|[a z] table IH]; cbn; [done|].
  destruct (_ =? _) eqn:E; intros Hy; [|auto]. left. simplify_eq. by assert (c = a) as -> by lia.
Qed.

Lemma lookup_keyword_In table w y : lookup_keyword table w = Some y -> In (w, y) table.
Proof.
  induction table as [|[a z] table IH]; cbn; [done|].
  destruct (decide _); intros Hy; [|auto]. left. by simplify_eq.
Qed.

(** No entry of a table stands for an error or the end. *)
Lemma tables_types :
  Forall (fun e => 2 < e.2) operators2 /\ Forall (fun e => 2 < e.2) operators1 /\
  Forall (fun e => 2 < e.2) keywords.
Proof. split_and!; repeat constructor. Qed.

(** *** The contract of [lex] *)

(** An error token comes with a message and sets the error flag; any other token but
    the last is at least one byte long. *)
Definition lex_contract (t : Tokenizer) (l : lexed) : Prop :=
  match l with
  | LexFault => List.last (input t) 10 <> 10
  | Lexed t' k m =>
      input t' = input t /\ isBaseModule t' = isBaseModule t /\ in_input t' /\
      (position t <= position t')%nat /\ line t <= line t' /\
      (m = None -> token_type k <> T_ERROR /\ error t' = error t /\
                  (token_type k = T_EOF \/ (position t < position t')%nat)) /\
      (m <> None -> token_type k = T_ERROR /\ error t' = true)
  end.

Lemma lex_contract_token t t' k :
  input t' = input t -> isBaseModule t' = isBaseModule t -> error t' = error t ->
  line t' = line t -> (position t < position t' <= inputBytes t)%nat -> 2 <= token_type k ->
  lex_contract t (Lexed t' k None).
Proof.
  intros Hi Hb He Hl Hp Hk. cbn. unfold in_input, inputBytes in *. rewrite Hi.
  change T_ERROR with 0. change T_EOF with 1. split_and!; try done; try lia.
  intros _. split_and!; [lia|done|right; lia].
Qed.

Lemma lex_contract_error t t' k x :
  input t' = input t -> isBaseModule t' = isBaseModule t -> error t' = true ->
  line t' = line t -> (position t <= position t' <= inputBytes t)%nat -> token_type k = T_ERROR ->
  lex_contract t (Lexed t' k (Some x)).
Proof.
  intros Hi Hb He Hl Hp Hk. cbn. unfold in_input, inputBytes in *. rewrite Hi.
  split_and!; try done; try lia.
Qed.

Lemma last_drop_ne n (l : bytes) : List.last (drop n l) 10 <> 10 -> List.last l 10 <> 10.
Proof.
  revert l; induction n as [|n IH]; intros [|x l]; cbn [drop]; try done.
  intros H. apply last_cons_ne. auto.
Qed.

(** The three token forms with a loop. *)
Lemma lex_identifier_contract t c r :
  rest_of t = c :: r -> is_letter c || (c =? 35) = true -> lex_contract t (lex_identifier t c).
Proof.
  intros Er Hc. destruct (rest_cons _ _ _ Er) as (_ & Hlt & _ & _).
  pose proof (length_rest t) as Hlen. rewrite Er in Hlen. cbn in Hlen.
  destruct tables_types as (_ & _ & Hk). rewrite Forall_forall in Hk.
  unfold lex_identifier. fold (rest_of t). rewrite Er. cbn [identifier_length].
  change ((0 =? 0)%nat) with true. rewrite andb_true_r.
  replace (is_letter c || is_digit c || (c =? 35)) with true
    by (destruct (is_letter c), (is_digit c), (c =? 35); done).
  pose proof (identifier_length_le r 1).
  destruct (lookup_keyword _ _) as [y|] eqn:E.
  { apply lookup_keyword_In, Hk in E. cbn in E. apply lex_contract_token; cbn; try done; lia. }
  destruct (c =? 35); [apply lex_contract_error|apply lex_contract_token]; cbn; try done; lia.
Qed.

Lemma lex_number_contract t c r :
  rest_of t = c :: r -> is_digit c = true -> lex_contract t (lex_number t c).
Proof.
  intros Er Hc. destruct (rest_cons _ _ _ Er) as (_ & Hlt & _ & _).
  pose proof (length_rest t) as Hlen. rewrite Er in Hlen. cbn in Hlen.
  unfold lex_number. fold (rest_of t). rewrite Er. cbn [number_length]. rewrite Hc. cbn [orb].
  pose proof (number_length_le r 1).
  apply lex_contract_token; cbn; try done; [lia|]. by destruct (_ && _).
Qed.

Lemma lex_string_contract t : rest_of t <> [] -> lex_contract t (lex_string t).
Proof.
  intros Hr. destruct (rest_of t) as [|c r] eqn:Er; [done|].
  destruct (rest_cons _ _ _ Er) as (_ & Hlt & _ & Hr').
  pose proof (length_rest t) as Hlen. rewrite Er in Hlen. cbn in Hlen.
  unfold lex_string.
  replace (drop (S (position t)) (input t)) with r
    by (rewrite <- Hr'; unfold rest_of; cbn; f_equal; lia).
  destruct (scan_string _ _ _ _) as [e|x n|] eqn:E.
  - apply scan_string_end in E. apply lex_contract_token; cbn; try done; lia.
  - apply lex_contract_error; cbn; try done; lia.
  - apply scan_string_fault in E as [[_ ?]|E]; [done|]. cbn.
    apply (last_drop_ne (position t)). fold (rest_of t). rewrite Er. by apply last_cons_ne.
Qed.

Lemma operators2_nonzero c : lookup2 operators2 c 0 = None.
Proof. cbn. by rewrite !andb_false_r. Qed.

Lemma lex_token_contract t c r :
  rest_of t = c :: r -> lex_contract t (lex_token t c (default 0 (head r))).
Proof.
  intros Er. destruct (rest_cons _ _ _ Er) as (_ & Hlt & _ & _).
  pose proof (length_rest t) as Hlen. rewrite Er in Hlen. cbn in Hlen.
  destruct tables_types as (H2 & H1 & _). rewrite !Forall_forall in *.
  unfold lex_token.
  destruct (lookup2 _ _ _) as [y|] eqn:E2.
  { destruct r as [|x r]; [by rewrite operators2_nonzero in E2|]. cbn in Hlen.
    apply lookup2_In, H2 in E2. cbn in E2. apply lex_contract_token; cbn; try done; lia. }
  destruct (lookup1 _ _) as [y|] eqn:E1.
  { apply lookup1_In, H1 in E1. cbn in E1. apply lex_contract_token; cbn; try done; lia. }
  destruct (is_letter c || (c =? 35)) eqn:El; [by eapply lex_identifier_contract|].
  destruct (is_digit c) eqn:Ed; [by eapply lex_number_contract|].
  destruct (c =? 34); [apply lex_string_contract; by rewrite Er|].
  apply lex_contract_error; cbn; try done; lia.
Qed.

(** One pass over the input: a fault or an error is what the rest gives. *)
Lemma lex_contract_skip t t' l :
  input t' = input t -> isBaseModule t' = isBaseModule t -> error t' = error t ->
  line t <= line t' -> (position t <= position t')%nat ->
  lex_contract t' l -> lex_contract t l.
Proof.
  intros Hi Hb He Hl Hp. destruct l as [t'' k m|]; cbn; [|by rewrite Hi].
  rewrite Hi, Hb, He. intros (? & ? & ? & ? & ? & Hn & Hs). split_and!; try done; try lia.
  intros Hm. destruct (Hn Hm) as (? & ? & [?|?]); split_and!; try done; [by left|right; lia].
Qed.

Lemma lex_loop_contract fuel t k :
  in_input t -> (inputBytes t - position t < fuel)%nat -> lex_contract t (lex_loop fuel t k).
Proof.
  revert t k; induction fuel as [|fuel IH]; intros t k Hin Hf; [lia|].
  cbn [lex_loop]. destruct (Nat.eqb_spec (position t) (inputBytes t)) as [Hp|Hp].
  { cbn. split_and!; try done; try lia. intros _. split_and!; try done. by left. }
  destruct (rest_of t) as [|c r] eqn:Er; [by apply rest_nil in Er|].
  destruct (rest_cons _ _ _ Er) as (Hc & Hlt & Hc1 & Hr). rewrite Hc.
  replace (if (S (position t) =? inputBytes t)%nat then 0 else default 0 (input t !! S (position t)))
    with (default 0 (head r)).
  2:{ rewrite Hc1. destruct (Nat.eqb_spec (S (position t)) (inputBytes t)) as [He|]; [|done].
      pose proof (length_rest t) as Hl. rewrite Er in Hl. cbn in Hl. destruct r; [done|cbn in Hl; lia]. }
  assert (forall n t', t' = advance n t \/ t' = next_line (advance n t) ->
    (1 <= n <= length (c :: r))%nat -> forall k, lex_contract t (lex_loop fuel t' k)) as Hskip.
  { intros n t' Ht' Hn k'. rewrite <- Er, length_rest in Hn.
    apply (lex_contract_skip _ t'); [destruct Ht' as [->| ->]; cbn; done || lia..|].
    apply IH; unfold in_input, inputBytes in *; destruct Ht' as [->| ->]; cbn; lia. }
  destruct (is_blank c); [apply (Hskip 1%nat); [auto|cbn; lia]|].
  destruct (c =? 10) eqn:E10; [apply (Hskip 1%nat); [auto|cbn; lia]|].
  destruct ((c =? 47) && _) eqn:Ecm; [|by apply lex_token_contract].
  fold (rest_of t). rewrite Er. eapply Hskip; [by left|].
  pose proof (comment_length_le (c :: r)). cbn in *. rewrite E10 in *. lia.
Qed.

Lemma lex_ok t : in_input t -> lex_contract t (lex t).
Proof. intros. apply lex_loop_contract; [done|lia]. Qed.

#[global] Arguments lookup1 : simpl never.
#[global] Arguments lookup2 : simpl never.
#[global] Arguments lookup_keyword : simpl never.

(** ** Lexemes: how a token is spelled *)

Inductive lexeme :=
  | LOp1 (c : Z)
  | LOp2 (c c1 : Z)
  | LWord (w : bytes)
  | LNumber (w : bytes)
  | LString (raw : bytes).

Definition spell (l : lexeme) : bytes :=
  match l with
  | LOp1 c => [c]
  | LOp2 c c1 => [c; c1]
  | LWord w | LNumber w => w
  | LString raw => 34 :: raw ++ [34]
  end.

Definition word_type (w : bytes) : Z := default T_IDENTIFIER (lookup_keyword keywords w).

Definition number_type (w : bytes) : Z :=
  if decide (w = [48]) then T_ZERO else T_NUMERIC_LITERAL.

(** Type and text of the token. *)
Definition lexeme_type (l : lexeme) : Z :=
  match l with
  | LOp1 c => default T_ERROR (lookup1 operators1 c)
  | LOp2 c c1 => default T_ERROR (lookup2 operators2 c c1)
  | LWord w => word_type w
  | LNumber w => number_type w
  | LString _ => T_STRING_LITERAL
  end.

Definition lexeme_text (l : lexeme) : bytes :=
  match l with
  | LOp1 c | LOp2 c _ => [c]
  | LWord w | LNumber w | LString w => w
  end.

Definition raw_ok (raw : bytes) : bool :=
  match scan_string (raw ++ [34]) 0 false 1 with
  | StringEnd e => (e =? length raw)%nat
  | _ => false
  end.

Definition lexeme_ok (l : lexeme) : bool :=
  match l with
  | LOp1 c => bool_decide (is_Some (lookup1 operators1 c))
  | LOp2 c c1 => bool_decide (is_Some (lookup2 operators2 c c1))
  | LWord (c :: w) =>
      (is_letter c || bool_decide (is_Some (lookup_keyword keywords (c :: w))))
      && forallb (fun x => is_letter x || is_digit x) w
  | LNumber (c :: w) => is_digit c && forallb (fun x => is_digit x || (x =? 46)) w
  | LString raw => raw_ok raw
  | _ => false
  end.

(** The text that follows does not continue the token. *)
Definition separates (l : lexeme) (rest : bytes) : bool :=
  match rest with
  | [] => true
  | x :: _ =>
      match l with
      | LOp1 c => bool_decide (lookup2 operators2 c x = None) && negb ((c =? 47) && (x =? 47))
      | LWord _ => negb (is_letter x || is_digit x)
      | LNumber _ => negb (is_digit x || (x =? 46))
      | LOp2 _ _ | LString _ => true
      end
  end.

Definition lexeme_start (l : lexeme) (t : Tokenizer) : nat :=
  match l with LString _ => S (position t) | _ => position t end.

(** The token read at [t]. *)
Definition lexeme_token (l : lexeme) (t : Tokenizer) : Token :=
  MkToken (lexeme_text l) (lexeme_start l t) (u32 (line t)) (lexeme_type l).

Definition starts_token (c : Z) : bool := is_letter c || (c =? 35) || is_digit c || (c =? 34).

Lemma tables_starts :
  Forall (fun e => starts_token e.1.1 = false /\ is_blank e.1.1 = false /\ e.1.1 <> 10 /\
                   ~ (e.1.1 = 47 /\ e.1.2 = 47)) operators2 /\
  Forall (fun e => starts_token e.1 = false /\ is_blank e.1 = false /\ e.1 <> 10) operators1 /\
  Forall (fun e => match e.1 with c :: _ => is_letter c || (c =? 35) = true | [] => False end) keywords.
Proof. split_and!; repeat constructor; try (intros [? ?]; discriminate); discriminate. Qed.

Lemma starts_token_facts c c1 :
  starts_token c = true ->
  lookup2 operators2 c c1 = None /\ lookup1 operators1 c = None /\ is_blank c = false /\
  (c =? 10) = false /\ (c =? 47) = false.
Proof.
  intros Hc. destruct tables_starts as (H2 & H1 & _). rewrite Forall_forall in H2, H1.
  split_and!.
  - destruct (lookup2 _ _ _) eqn:E; [|done]. apply lookup2_In, H2 in E as [E _]. cbn in E. congruence.
  - destruct (lookup1 _ _) eqn:E; [|done]. apply lookup1_In, H1 in E as [E _]. cbn in E. congruence.
  - unfold starts_token, is_letter, is_digit, is_blank in *. lia.
  - unfold starts_token, is_letter, is_digit in *. lia.
  - unfold starts_token, is_letter, is_digit in *. lia.
Qed.

(** A pass of the loop at a character that starts a token. *)
Lemma lex_loop_start fuel t k c r :
  rest_of t = c :: r -> is_blank c = false -> (c =? 10) = false ->
  (c =? 47) && (default 0 (head r) =? 47) = false ->
  lex_loop (S fuel) t k = lex_token t c (default 0 (head r)).
Proof.
  intros Er Hb Hn Hcm. cbn [lex_loop]. destruct (rest_cons _ _ _ Er) as (Hc & Hlt & Hc1 & Hr).
  rewrite (proj2 (Nat.eqb_neq _ _)) by lia. rewrite Hc, Hb, Hn.
  assert ((if (S (position t) =? inputBytes t)%nat then 0 else default 0 (input t !! S (position t)))
    = default 0 (head r)) as ->.
  { rewrite Hc1. destruct (Nat.eqb_spec (S (position t)) (inputBytes t)) as [He|]; [|done].
    pose proof (length_rest t) as Hl. rewrite Er in Hl. cbn in Hl. destruct r; [done|cbn in Hl; lia]. }
  by rewrite Hcm.
Qed.

Lemma identifier_length_app w rest n :
  forallb (fun x => is_letter x || is_digit x) w = true ->
  match rest with x :: _ => is_letter x || is_digit x = false | [] => True end -> (0 < n)%nat ->
  identifier_length (w ++ rest) n = (n + length w)%nat.
Proof.
  revert n; induction w as [|c w IH]; intros n Hw Hr Hn; cbn in *.
  { destruct rest as [|x rest]; cbn; [lia|]. rewrite Hr. destruct n; [lia|].
    cbn. rewrite andb_false_r. lia. }
  apply andb_true_iff in Hw as [-> Hw]. cbn. rewrite IH by (done || lia). lia.
Qed.

Lemma number_length_app w rest n :
  forallb (fun x => is_digit x || (x =? 46)) w = true ->
  match rest with x :: _ => is_digit x || (x =? 46) = false | [] => True end ->
  number_length (w ++ rest) n = (n + length w)%nat.
Proof.
  revert n; induction w as [|c w IH]; intros n Hw Hr; cbn in *.
  { destruct rest as [|x rest]; cbn; [lia|]. rewrite Hr. lia. }
  apply andb_true_iff in Hw as [-> Hw]. rewrite IH by done. lia.
Qed.

(** Scanning a string literal does not depend on where it is and on what follows. *)
Lemma scan_string_app r rest i b n e j m :
  scan_string r i b n = StringEnd e -> scan_string (r ++ rest) (i + j)%nat b m = StringEnd (e + j)%nat.
Proof.
  revert i b n m. induction r as [|c r IH IH2] using bytes_ind2; intros i b n m.
  { by destruct b. }
  cbn [scan_string app].
  destruct b.
  { repeat case_match; intros H'; simplify_eq; by apply (IH (S i) _ _ _ H'). }
  destruct (c =? 10); [done|]. destruct (c =? 34); [intros H'; by simplify_eq|].
  destruct (c =? 37); [intros H'; by apply (IH (S i) _ _ _ H')|].
  destruct (c =? 92); [|intros H'; by apply (IH (S i) _ _ _ H')].
  destruct r as [|x r]; [done|]. cbn [app]. destruct (is_escape x); [|done].
  intros H'. by apply (IH2 _ _ eq_refl (S (S i)) _ _ _ H').
Qed.

Lemma segment_rest t w rest : rest_of t = w ++ rest -> segment (position t) (length w) (input t) = w.
Proof. intros H. unfold segment. fold (rest_of t). by rewrite H, take_app_length. Qed.

Lemma lex_word fuel t k w rest :
  lexeme_ok (LWord w) = true -> separates (LWord w) rest = true -> rest_of t = w ++ rest ->
  lex_loop (S fuel) t k = Lexed (advance (length w) t) (lexeme_token (LWord w) t) None.
Proof.
  intros Hw Hs Er. destruct w as [|c w]; [done|]. cbn [lexeme_ok] in Hw.
  apply andb_true_iff in Hw as [Hc Hw].
  assert (is_letter c || (c =? 35) = true) as Hc'.
  { apply orb_true_iff in Hc as [->|Hc]; [done|]. apply bool_decide_eq_true in Hc as [y Hy].
    apply lookup_keyword_In in Hy. destruct tables_starts as (_ & _ & H). rewrite Forall_forall in H.
    by apply H in Hy. }
  assert (starts_token c = true) as Hst by (unfold starts_token; by rewrite Hc').
  destruct (starts_token_facts c (default 0 (head (w ++ rest))) Hst) as (H2 & H1 & Hb & H10 & H47).
  rewrite (lex_loop_start _ _ _ c (w ++ rest)) by (done || by rewrite H47).
  unfold lex_token. rewrite H2, H1, Hc'. unfold lex_identifier. fold (rest_of t).
  rewrite Er. cbn [app identifier_length]. change ((0 =? 0)%nat) with true. rewrite andb_true_r.
  replace (is_letter c || is_digit c || (c =? 35)) with true
    by (destruct (is_letter c), (is_digit c), (c =? 35); done).
  rewrite identifier_length_app; [|done| |lia].
  2:{ destruct rest as [|x rest]; [done|]. cbn in Hs. by apply negb_true_iff in Hs. }
  change (1 + length w)%nat with (length (c :: w)).
  rewrite (segment_rest _ (c :: w) rest) by done.
  unfold lexeme_token. cbn [lexeme_text lexeme_start lexeme_type]. unfold word_type, set_token_type. cbn [text textStart token_line].
  destruct (lookup_keyword keywords (c :: w)) as [y|] eqn:Ek; cbn [default]; [done|].
  destruct (c =? 35) eqn:E35; [|done].
  rewrite bool_decide_eq_false_2 in Hc by (intros [? ?]; congruence).
  unfold is_letter in Hc. lia.
Qed.

Lemma lex_numeral fuel t k w rest :
  lexeme_ok (LNumber w) = true -> separates (LNumber w) rest = true -> rest_of t = w ++ rest ->
  lex_loop (S fuel) t k = Lexed (advance (length w) t) (lexeme_token (LNumber w) t) None.
Proof.
  intros Hw Hs Er. destruct w as [|c w]; [done|]. cbn [lexeme_ok] in Hw.
  apply andb_true_iff in Hw as [Hc Hw].
  assert (starts_token c = true) as Hst by (unfold starts_token; rewrite Hc; by rewrite orb_true_r).
  destruct (starts_token_facts c (default 0 (head (w ++ rest))) Hst) as (H2 & H1 & Hb & H10 & H47).
  rewrite (lex_loop_start _ _ _ c (w ++ rest)) by (done || by rewrite H47).
  unfold lex_token. rewrite H2, H1.
  replace (is_letter c || (c =? 35)) with false by (unfold is_letter, is_digit in *; lia).
  rewrite Hc. unfold lex_number. fold (rest_of t).
  rewrite Er. cbn [app number_length]. rewrite Hc. cbn [orb].
  rewrite number_length_app; [|done|].
  2:{ destruct rest as [|x rest]; [done|]. cbn in Hs. by apply negb_true_iff in Hs. }
  change (1 + length w)%nat with (length (c :: w)).
  rewrite (segment_rest _ (c :: w) rest) by done.
  unfold lexeme_token. cbn [lexeme_text lexeme_start lexeme_type]. unfold number_type.
  do 2 f_equal. destruct w as [|x w]; cbn.
  - destruct (Z.eqb_spec c 48), (decide ([c] = [48])); congruence.
  - destruct (decide _); [congruence|done].
Qed.

Lemma lex_literal fuel t k raw rest :
  lexeme_ok (LString raw) = true -> rest_of t = spell (LString raw) ++ rest ->
  lex_loop (S fuel) t k
  = Lexed (advance (length (spell (LString raw))) t) (lexeme_token (LString raw) t) None.
Proof.
  intros Hw Er. cbn [spell app] in Er.
  rewrite (lex_loop_start _ _ _ 34 ((raw ++ [34]) ++ rest)) by done.
  unfold lex_token. destruct (starts_token_facts 34 (default 0 (head ((raw ++ [34]) ++ rest))) eq_refl)
    as (-> & -> & _ & _ & _). cbn -[lex_string]. unfold lex_string.
  destruct (rest_cons _ _ _ Er) as (_ & _ & _ & Hr). unfold rest_of in Hr. cbn in Hr.
  rewrite Nat.add_1_r in Hr. rewrite Hr.
  cbn in Hw. unfold raw_ok in Hw. destruct (scan_string _ _ _ _) as [e| |] eqn:Es; try done.
  apply Nat.eqb_eq in Hw as ->.
  apply (scan_string_app _ rest _ _ _ _ (S (position t)) 1%nat) in Es. cbn [Nat.add] in Es.
  rewrite Es. unfold lexeme_token. cbn [lexeme_text lexeme_start lexeme_type spell].
  replace (length raw + S (position t) - S (position t))%nat with (length raw) by lia.
  replace (segment (S (position t)) (length raw) (input t)) with raw.
  2:{ unfold segment. rewrite Hr, <- !app_assoc. by rewrite take_app_length. }
  unfold advance. do 2 f_equal. cbn. rewrite length_app. cbn. lia.
Qed.

(** A lexeme followed by something that does not continue it is read as its token. *)
Lemma lex_lexeme fuel t k l rest :
  lexeme_ok l = true -> separates l rest = true -> rest_of t = spell l ++ rest ->
  lex_loop (S fuel) t k = Lexed (advance (length (spell l)) t) (lexeme_token l t) None.
Proof.
  intros Hl Hs Er. destruct tables_starts as (H2 & H1 & _). rewrite Forall_forall in H2, H1.
  destruct l as [c|c c1|w|w|raw].
  - cbn in Hl. apply bool_decide_eq_true in Hl as [y Hy]. cbn in Er.
    pose proof (lookup1_In _ _ _ Hy) as Hin. apply H1 in Hin as (_ & Hb & Hn). cbn in Hb, Hn.
    assert (lookup2 operators2 c (default 0 (head rest)) = None /\
            (c =? 47) && (default 0 (head rest) =? 47) = false) as [E2 Hcm].
    { destruct rest as [|x rest]; cbn [head default separates] in *.
      - split; [apply operators2_nonzero|]. by rewrite andb_false_r.
      - apply andb_true_iff in Hs as [Hs1 Hs2]. by apply bool_decide_eq_true in Hs1; apply negb_true_iff in Hs2. }
    rewrite (lex_loop_start _ _ _ c rest) by (done || lia).
    unfold lex_token, lexeme_token. cbn. by rewrite E2, Hy.
  - cbn in Hl. apply bool_decide_eq_true in Hl as [y Hy]. cbn in Er.
    pose proof (lookup2_In _ _ _ _ Hy) as Hin. apply H2 in Hin as (_ & Hb & Hn & Hcm). cbn in Hb, Hn, Hcm.
    rewrite (lex_loop_start _ _ _ c (c1 :: rest)) by (cbn; done || lia).
    unfold lex_token, lexeme_token. cbn. by rewrite Hy.
  - by apply lex_word with rest.
  - by apply lex_numeral with rest.
  - by apply lex_literal with rest.
Qed.

(** Blanks and ends of lines are passed over. *)
Definition is_gap (c : Z) : bool := is_blank c || (c =? 10).

Definition skip_gap (gap : bytes) (t : Tokenizer) : Tokenizer :=
  fold_left (fun t c => if c =? 10 then next_line (advance 1 t) else advance 1 t) gap t.

Lemma skip_gap_facts gap t :
  input (skip_gap gap t) = input t /\ position (skip_gap gap t) = (position t + length gap)%nat /\
  error (skip_gap gap t) = error t /\ isBaseModule (skip_gap gap t) = isBaseModule t.
Proof.
  unfold skip_gap. revert t; induction gap as [|c gap IH]; intros t; cbn [fold_left length];
    [split_and!; done || lia|].
  set (t' := if c =? 10 then _ else _).
  replace (position t) with (position t' - 1)%nat by (unfold t'; case_match; cbn; lia).
  assert (1 <= position t')%nat by (unfold t'; case_match; cbn; lia).
  destruct (IH t') as (-> & -> & -> & ->). split_and!; [unfold t'; by case_match|lia|..];
    unfold t'; by case_match.
Qed.

Lemma rest_skip_gap gap rest t : rest_of t = gap ++ rest -> rest_of (skip_gap gap t) = rest.
Proof.
  intros H. unfold rest_of. destruct (skip_gap_facts gap t) as (-> & -> & _).
  rewrite <- drop_drop. fold (rest_of t). by rewrite H, drop_app_length.
Qed.

Lemma lex_loop_gap gap rest fuel t k :
  forallb is_gap gap = true -> rest_of t = gap ++ rest -> (length gap <= fuel)%nat ->
  exists k', lex_loop fuel t k = lex_loop (fuel - length gap) (skip_gap gap t) k'.
Proof.
  revert fuel t k; induction gap as [|c gap IH]; intros fuel t k Hg Er Hf.
  { exists k. cbn. by rewrite Nat.sub_0_r. }
  cbn in Hg, Hf. apply andb_true_iff in Hg as [Hc Hg]. destruct fuel as [|fuel]; [lia|].
  destruct (rest_cons _ _ _ Er) as (Hi & Hlt & _ & Hr).
  assert (exists k', lex_loop (S fuel) t k
    = lex_loop fuel (if c =? 10 then next_line (advance 1 t) else advance 1 t) k') as [k' ->].
  { eexists. cbn [lex_loop]. rewrite (proj2 (Nat.eqb_neq _ _)) by lia. rewrite Hi.
    unfold is_gap in Hc. destruct (is_blank c) eqn:Eb; cbn in Hc; [|by rewrite Hc].
    replace (c =? 10) with false by (unfold is_blank in Eb; lia). done. }
  destruct (IH fuel (if c =? 10 then next_line (advance 1 t) else advance 1 t) k') as [k'' ->];
    [done| |lia|by exists k''].
  destruct (c =? 10); done.
Qed.

(** Reading a lexeme behind a gap. *)
Lemma lex_gap_lexeme gap l rest t :
  forallb is_gap gap = true -> lexeme_ok l = true -> separates l rest = true ->
  rest_of t = gap ++ spell l ++ rest ->
  let t' := skip_gap gap t in
  lex t = Lexed (advance (length (spell l)) t') (lexeme_token l t') None /\
  rest_of (advance (length (spell l)) t') = rest.
Proof.
  intros Hg Hl Hs Er t'.
  pose proof (length_rest t) as Hlen. rewrite Er, length_app in Hlen.
  destruct (lex_loop_gap gap (spell l ++ rest) (S (inputBytes t - position t)) t token0) as [k' Hk];
    [done..|lia|].
  unfold lex. rewrite Hk.
  replace (S (inputBytes t - position t) - length gap)%nat
    with (S (inputBytes t - position t - length gap)) by lia.
  rewrite (lex_lexeme _ _ _ l rest); [|done..|by apply rest_skip_gap].
  split; [done|]. rewrite rest_advance. unfold t'.
  rewrite (rest_skip_gap gap (spell l ++ rest)) by done. by rewrite drop_app_length.
Qed.

Lemma lex_gap_eof gap t :
  forallb is_gap gap = true -> in_input t -> rest_of t = gap ->
  exists k, lex t = Lexed (skip_gap gap t) k None /\ token_type k = T_EOF.
Proof.
  intros Hg Hin Er. pose proof (length_rest t) as Hlen. rewrite Er in Hlen.
  destruct (lex_loop_gap gap [] (S (inputBytes t - position t)) t token0) as [k' Hk];
    [done|by rewrite app_nil_r|lia|].
  unfold lex. rewrite Hk.
  replace (S (inputBytes t - position t) - length gap)%nat with 1%nat by lia. cbn [lex_loop].
  destruct (skip_gap_facts gap t) as (Hi & Hp & _). unfold in_input, inputBytes in *.
  rewrite Hi, Hp, (proj2 (Nat.eqb_eq _ _)) by lia. eexists. split; [done|]. done.
Qed.

(** A text: a gap, then lexemes each followed by a gap. *)
Definition layout (ls : list (lexeme * bytes)) : bytes :=
  concat (map (fun e => spell e.1 ++ e.2) ls).

(** Every gap is blank and is not empty where the tokens would run together. *)
Fixpoint layout_ok (ls : list (lexeme * bytes)) : bool :=
  match ls with
  | [] => true
  | (l, gap) :: ls' =>
      lexeme_ok l && forallb is_gap gap && separates l (gap ++ layout ls') && layout_ok ls'
  end.

(** C39.  What [TokenNext] does for every tokenizer inside its input: it ends; it stays
    inside the input and never moves back; a token that is neither the last nor an
    error consumes at least a byte; an error token comes with exactly one message and
    the error flag; and only a text that does not end with an end of line can make it
    read outside the input. *)
Theorem TokenNext_contract s :
  in_input (tokenizer s) ->
  match TokenNext s with
  | (Ok k, s') =>
      let t := tokenizer s in let t' := tokenizer s' in
      input t' = input t /\ in_input t' /\ (position t <= position t')%nat /\ line t <= line t' /\
      (token_type k = T_ERROR -> error t' = true /\ exists m, messages s' = messages s ++ [m]) /\
      (token_type k <> T_ERROR -> error t' = error t /\ messages s' = messages s) /\
      (token_type k <> T_ERROR -> token_type k <> T_EOF -> (position t < position t')%nat)
  | (Stop r, s') => r = OutOfBounds /\ s' = s /\ List.last (input (tokenizer s)) 10 <> 10
  | (RetFalse, _) => False
  end.
Proof.
  intros Hin. pose proof (lex_ok _ Hin) as H. unfold TokenNext.
  destruct (lex (tokenizer s)) as [t' k [m|]|]; cbn in *; [| |done].
  - destruct H as (? & ? & ? & ? & ? & _ & Hs). destruct (Hs ltac:(done)) as [-> ?].
    split_and!; try done. intros _. split; [done|]. by eexists.
  - destruct H as (? & ? & ? & ? & ? & Hn & _). destruct (Hn eq_refl) as (? & ? & Hp).
    split_and!; try done. intros _ ?. by destruct Hp.
Qed.

Lemma TokenNext_contract_witness :
  let s := load (bytes_of "a %") in
  exists s', TokenNext s = (Ok (MkToken (bytes_of "a") 0 1 T_IDENTIFIER), s') /\
    (position (tokenizer s) < position (tokenizer s'))%nat.
Proof.
  intros s. pose proof (TokenNext_contract s ltac:(unfold in_input; cbn; lia)) as H.
  destruct (TokenNext s) as [o s'] eqn:E. vm_compute in E. injection E as <- <-.
  destruct H as (_ & _ & _ & _ & _ & _ & H).
  eexists. split; [reflexivity|]. apply H; discriminate.
Defined.

Lemma lexeme_type_ok l : lexeme_ok l = true -> 2 <= lexeme_type l.
Proof.
  destruct tables_types as (H2 & H1 & Hk). rewrite Forall_forall in H2, H1, Hk.
  destruct l as [c|c c1|w|w|raw]; cbn [lexeme_ok lexeme_type].
  - intros [y Hy]%bool_decide_eq_true. rewrite Hy. apply lookup1_In, H1 in Hy. cbn in *. lia.
  - intros [y Hy]%bool_decide_eq_true. rewrite Hy. apply lookup2_In, H2 in Hy. cbn in *. lia.
  - intros _. unfold word_type. destruct (lookup_keyword _ _) eqn:E; [|done].
    apply lookup_keyword_In, Hk in E. cbn in *. lia.
  - intros _. unfold number_type. by case_match.
  - done.
Qed.

Lemma tokens_layout ls gap t :
  layout_ok ls = true -> forallb is_gap gap = true -> in_input t -> rest_of t = gap ++ layout ls ->
  tokens (S (length ls)) t = map (fun e => (lexeme_type e.1, lexeme_text e.1)) ls.
Proof.
  revert gap t; induction ls as [|[l gap'] ls IH]; intros gap t Hls Hg Hin Er.
  { rewrite app_nil_r in Er. destruct (lex_gap_eof gap t) as (k & Hk & Hy); [done..|].
    cbn [length tokens map]. by rewrite Hk, Hy. }
  cbn [layout_ok] in Hls. rewrite !andb_true_iff in Hls. destruct Hls as [[[Hl Hg'] Hs] Hls].
  unfold layout in Er. cbn [map concat fst snd] in Er. rewrite <- !app_assoc in Er.
  fold (layout ls) in Er.
  destruct (lex_gap_lexeme gap l (gap' ++ layout ls) t) as [Hk Hr]; [done..|].
  set (t' := advance _ _) in *.
  assert (in_input t') as Hin'.
  { pose proof (lex_ok _ Hin) as H. rewrite Hk in H. cbn in H. tauto. }
  pose proof (lexeme_type_ok l Hl) as Hy.
  cbn [length map fst]. rewrite <- (IH gap' t') by done.
  cbn [tokens]. rewrite Hk. cbn [lexeme_token token_type text].
  by rewrite (proj2 (Z.eqb_neq _ _)) by (change T_EOF with 1; lia).
Qed.

(** C40.  Reading back a program text: lexemes laid out with blanks and ends of lines, at
    least where two of them would run together, are returned by the calls of
    [TokenNext] as their types and texts, in order and to the last one. *)
Theorem tokens_roundtrip ls gap :
  layout_ok ls = true -> forallb is_gap gap = true ->
  tokens (S (length ls)) (tokenizer (load (gap ++ layout ls)))
  = map (fun e => (lexeme_type e.1, lexeme_text e.1)) ls.
Proof. intros. apply tokens_layout with gap; [done..| |done]. unfold in_input. cbn. lia. Qed.

Lemma tokens_roundtrip_witness :
  tokens 6 (tokenizer (load (bytes_of " while x>= 10.5{")))
  = [(T_WHILE, bytes_of "while"); (T_IDENTIFIER, bytes_of "x"); (T_GT_OR_EQUAL, bytes_of ">");
     (T_NUMERIC_LITERAL, bytes_of "10.5"); (T_LEFT_FANCY, bytes_of "{")].
Proof.
  exact (tokens_roundtrip
    [(LWord (bytes_of "while"), [32]); (LWord (bytes_of "x"), []); (LOp2 62 61, [32]);
     (LNumber (bytes_of "10.5"), []); (LOp1 123, [])] [32] eq_refl eq_refl).
Defined.
