(* ===== verification/ScriptParser.v ===== *)
(** * The parser of the script engine (util/script.c)

    [ParseType], [ParseCall], [ParseExpression], [ParseIf],
    [ParseVariableDeclarationOrExpression], [ParseBlock],
    [ParseGlobalVariableOrFunctionDefinition], [ParseRootREPL] and [ParseRoot].  A
    function that returns [NULL] ends with [RetFalse]; a result that the source does
    not test is taken with [try_result].  A node is a tree: [children] lists
    [firstChild] and its siblings.  The functions recurse on fuel; the theorems show
    that a fuel of one more than the bytes left is enough. *)

From Stdlib Require Import String Ascii.
From stdpp Require Import base list.
From S2P Require Import Prelude ScriptToken.

(** ** Nodes *)

Record node_flags := MkFlags {
  isExternalCall : bool;
  isPersistentVariable : bool;
  isOptionVariable : bool;
  hasTypeInheritanceParent : bool;
}.

Definition no_flags : node_flags := MkFlags false false false false.

Inductive Node := MkNode (type : Z) (token : Token) (flags : node_flags) (children : list Node).

Definition node_type (n : Node) : Z := let '(MkNode y _ _ _) := n in y.
Definition node_token (n : Node) : Token := let '(MkNode _ k _ _) := n in k.
Definition node_flags_of (n : Node) : node_flags := let '(MkNode _ _ f _) := n in f.
Definition children (n : Node) : list Node := let '(MkNode _ _ _ c) := n in c.
Definition set_type (y : Z) (n : Node) : Node := MkNode y (node_token n) (node_flags_of n) (children n).

(** A node with the fields the parser sets on most nodes. *)
Definition node (y : Z) (k : Token) (c : list Node) : Node := MkNode y k no_flags c.

(** ** Helpers *)

Definition is_type (y : Z) (l : list Z) : bool := existsb (Z.eqb y) l.

(** Print a message about the line of a token and return [NULL]. *)
Definition fail {A} (k : Token) (message : string) : M parser A :=
  print_line (token_line k) message ;;; ret_false.

(** The same in [ParseType], which is silent when it only tries. *)
Definition fail_unless {A} (maybe : bool) (k : Token) (message : string) : M parser A :=
  if maybe then ret_false else fail k message.

(** [PrintError] and [return NULL]. *)
Definition fail_here {A} (message : string) : M parser A := PrintError message ;;; ret_false.

(** Read a token that must be of type [y]. *)
Definition expect (y : Z) (k : Token) (message : string) : M parser unit :=
  let! t := TokenNext in
  if token_type t =? y then ret tt else fail k message.

(** Run [m] on a copy of the tokenizer: what it returns and the copy at the end. *)
Definition on_copy {A} (f : Tokenizer -> Tokenizer) (m : M parser A) : M parser (A * Tokenizer) :=
  fun s => match m (set_tokenizer (f (tokenizer s)) s) with
           | (Ok a, s') => (Ok (a, tokenizer s'), set_tokenizer (tokenizer s) s')
           | (RetFalse, s') => (RetFalse, set_tokenizer (tokenizer s) s')
           | (Stop r, s') => (Stop r, s')
           end.

(** ** ParseType *)

(** The types that can start a type. *)
Definition type_tokens : list Z :=
  [T_INT; T_FLOAT; T_STR; T_BOOL; T_VOID; T_TUPLE; T_ERR; T_ANYTYPE; T_IDENTIFIER].

(** The loop over the types of a tuple. *)
Fixpoint tuple_types (n : nat) (parse : M parser Node) (maybe : bool) (k : Token) (acc : list Node)
  : M parser (list Node) :=
  match n with
  | O => stop OutOfFuel
  | S n' =>
    let! token := TokenPeek in
    if token_type token =? T_RIGHT_SQUARE then TokenNext ;;; ret acc
    else
      (if (length acc =? 0)%nat then ret tt
       else if token_type token =? T_COMMA then TokenNext ;;; ret tt
       else fail_unless maybe k "Expected a ',' or ']' in the type list for 'tuple'.") ;;;
      if Z.of_nat (length acc) =? FUNCTION_MAX_ARGUMENTS then
        fail_unless maybe k "Too many values in the tuple (maximum is %d)."
      else
        let! x := parse in
        tuple_types n' parse maybe k (acc ++ [x])
  end.

(** Put a list node above the innermost type. *)
Fixpoint append_list (k : Token) (n : Node) : Node :=
  match n with
  | MkNode y t f (c :: cs) =>
      match children c with
      | [] => MkNode y t f [node T_LIST k (c :: cs)]
      | _ => MkNode y t f (append_list k c :: cs)
      end
  | MkNode _ _ _ [] => n
  end.

(** The loop over the brackets behind a type. *)
Fixpoint list_suffixes (n : nat) (maybe : bool) (x : Node) (first : bool) : M parser Node :=
  match n with
  | O => stop OutOfFuel
  | S n' =>
    let! token := TokenPeek in
    if token_type token =? T_ERROR then ret_false
    else if token_type token =? T_LEFT_SQUARE then
      let! k := TokenNext in
      let x := if first then node T_LIST k [x] else append_list k x in
      let! token := TokenNext in
      if token_type token =? T_ERROR then ret_false
      else if negb (token_type token =? T_RIGHT_SQUARE) then
        fail_unless maybe (node_token x) "Expected a ']' after the '[' in an list type."
      else list_suffixes n' maybe x false
    else ret x
  end.

(** The type in the brackets of [err]. *)
Definition err_type (parse : M parser Node) (maybe : bool) (k : Token) : M parser (list Node) :=
  let! token := TokenNext in
  if negb (token_type token =? T_LEFT_SQUARE) then fail_unless maybe k "Expected a '[' after 'err'."
  else
    let! n := parse in
    let! token := TokenNext in
    if negb (token_type token =? T_RIGHT_SQUARE) then
      fail_unless maybe k "Expected a ']' after the type of 'err'."
    else if node_type n =? T_ERR then fail_unless maybe k "Error types cannot be nested."
    else ret [n].

Definition tuple_type (n : nat) (parse : M parser Node) (maybe : bool) (k : Token)
  : M parser (list Node) :=
  let! token := TokenNext in
  if negb (token_type token =? T_LEFT_SQUARE) then fail_unless maybe k "Expected a '[' after 'tuple'."
  else
    let! types := tuple_types n parse maybe k [] in
    if (length types <? 2)%nat then
      fail_unless maybe k "A tuple must have at least two types in its list."
    else ret types.

Fixpoint ParseType (fuel : nat) (maybe allowVoid allowTuple : bool) : M parser Node :=
  match fuel with
  | O => stop OutOfFuel
  | S f =>
    let! k := TokenNext in
    let y := token_type k in
    if negb (is_type y type_tokens) then
      fail_unless maybe k "Expected a type. This can be a builtin type or an identifier."
    else if negb allowVoid && (y =? T_VOID) then
      fail_unless maybe k "The 'void' type is not allowed here."
    else if negb allowTuple && (y =? T_TUPLE) then
      fail_unless maybe k "The 'tuple' type is not allowed here."
    else
      let! inner := (if y =? T_TUPLE then tuple_type f (ParseType f maybe false false) maybe k
                     else if y =? T_ERR then err_type (ParseType f maybe true false) maybe k
                     else ret []) in
      list_suffixes f maybe (node y k inner) true
  end.

(** ** ParseCall *)

Fixpoint call_arguments (n : nat) (parse : M parser Node) (acc : list Node) : M parser (list Node) :=
  match n with
  | O => stop OutOfFuel
  | S n' =>
    let! token := TokenPeek in
    if token_type token =? T_RIGHT_ROUND then TokenNext ;;; ret acc
    else if token_type token =? T_ERROR then ret_false
    else
      (if (length acc =? 0)%nat then ret tt
       else let! comma := TokenNext in
            if token_type comma =? T_COMMA then ret tt
            else fail comma "Expected a comma to separate function arguments.") ;;;
      let! argument := parse in
      call_arguments n' parse (acc ++ [argument])
  end.

Definition ParseCall (n : nat) (parse : M parser Node) (function : Node) : M parser Node :=
  let! k := TokenNext in
  if negb (token_type k =? T_LEFT_ROUND) then fail k "Expected a '(' to start the list of arguments."
  else
    let! arguments := call_arguments n parse [] in
    ret (node T_CALL k [function; node T_ARGUMENTS token0 arguments]).

(** ** ParseExpression *)

Definition precedences : list (Z * Z) :=
  [(T_EQUALS, 10); (T_ADD_EQUALS, 10); (T_MINUS_EQUALS, 10); (T_ASTERISK_EQUALS, 10);
   (T_SLASH_EQUALS, 10); (T_COMMA, 12); (T_LOGICAL_OR, 14); (T_LOGICAL_AND, 15);
   (T_BITWISE_OR, 16); (T_BITWISE_XOR, 17); (T_BITWISE_AND, 18); (T_DOUBLE_EQUALS, 20);
   (T_NOT_EQUALS, 20); (T_GREATER_THAN, 25); (T_LESS_THAN, 25); (T_GT_OR_EQUAL, 25);
   (T_LT_OR_EQUAL, 25); (T_BIT_SHIFT_LEFT, 30); (T_BIT_SHIFT_RIGHT, 30); (T_ADD, 50);
   (T_MINUS, 50); (T_ASTERISK, 60); (T_SLASH, 60); (T_LOGICAL_NOT, 70); (T_BITWISE_NOT, 70);
   (T_NEGATE, 70); (T_NEW, 75); (T_DOT, 80); (T_COLON, 80); (T_AWAIT, 90); (T_LEFT_ROUND, 100)].

(** The source stops on any other type; the parser asks for these only. *)
Definition TokenLookupPrecedence (t : Z) : Z := default 0 (lookup1 precedences t).

Definition unescape (c : Z) : option Z :=
  if c =? 92 then Some 92 else if c =? 110 then Some 10 else if c =? 114 then Some 13
  else if c =? 116 then Some 9 else if c =? 37 then Some 37 else if c =? 34 then Some 34 else None.

(** The node built so far: the literal itself, or an interpolation whose last string
    has the text [out]. *)
Definition string_node (k : Token) (pending : option (Node * Node)) (out : bytes) : Node :=
  match pending with
  | None => node T_STRING_LITERAL (MkToken out 0 (token_line k) (token_type k)) []
  | Some (before, e) =>
      node T_STR_INTERPOLATE token0 [before; e; node T_STRING_LITERAL (MkToken out 0 0 T_ERROR) []]
  end.

(** The loop over the characters of a string literal; [count] is [outputPosition]. *)
Fixpoint string_contents (n : nat) (parse : M parser Node) (k : Token)
    (pending : option (Node * Node)) (out : bytes) (count i : nat) : M parser Node :=
  match n with
  | O => stop OutOfFuel
  | S n' =>
    let raw := text k in
    let rawBytes := length raw in
    match raw !! i with
    | None => ret (string_node k pending out)
    | Some c =>
      if c =? 92 then
        assert (negb (i =? rawBytes - 1)%nat) ;;;
        let! e := lift_opt OutOfBounds (raw !! S i) in
        assert (negb (count =? rawBytes)%nat) ;;;
        let! x := lift_opt Assertion (unescape e) in
        string_contents n' parse k pending (out ++ [x]) (S count) (S (S i))
      else if c =? 37 then
        let! (e, t) := on_copy (set_position (textStart k + i + 1)) parse in
        string_contents n' parse k (Some (string_node k pending out, e)) [] count
          (S (position t - textStart k))
      else
        assert (negb (count =? rawBytes)%nat) ;;;
        string_contents n' parse k pending (out ++ [c]) (S count) (S i)
    end
  end.

Fixpoint list_items (n : nat) (parse : M parser Node) (acc : list Node) : M parser (list Node) :=
  match n with
  | O => stop OutOfFuel
  | S n' =>
    let! peek := TokenPeek in
    if token_type peek =? T_ERROR then ret_false
    else if token_type peek =? T_RIGHT_SQUARE then TokenNext ;;; ret acc
    else
      (if (length acc =? 0)%nat then ret tt
       else if negb (token_type peek =? T_COMMA) then
         fail_here "Expected a comma between list literal items."
       else TokenNext ;;; ret tt) ;;;
      let! item := parse in
      list_items n' parse (acc ++ [item])
  end.

Definition literal_tokens : list Z :=
  [T_NUMERIC_LITERAL; T_SUCCESS; T_ZERO; T_TRUE; T_FALSE; T_NULL].

Definition option_list {A} (o : option A) : list A := match o with Some x => [x] | None => [] end.

(** The first part of an expression. *)
Definition parse_operand (f : nat) (expr : bool -> Z -> M parser Node) (k : Token) : M parser Node :=
  let y := token_type k in
  if y =? T_IDENTIFIER then ret (node T_VARIABLE k [])
  else if y =? T_STRING_LITERAL then string_contents f (expr false 0) k None [] 0 0
  else if is_type y literal_tokens then ret (node y k [])
  else if is_type y [T_LOGICAL_NOT; T_MINUS; T_BITWISE_NOT] then
    let y' := if y =? T_MINUS then T_NEGATE else y in
    let! e := try_result (expr false (TokenLookupPrecedence y')) in
    ret (node y' k (option_list e))
  else if y =? T_LEFT_ROUND then
    let! e := expr false 0 in
    let! token := TokenNext in
    if token_type token =? T_RIGHT_ROUND then ret e
    else fail token "Expected a matching closing bracket."
  else if y =? T_NEW then
    let! type := ParseType f false false false in
    if node_type type =? T_ERR then
      let! e := expr false (TokenLookupPrecedence T_NEW) in
      ret (node T_NEW k [type; e])
    else ret (node T_NEW k [type])
  else if y =? T_LEFT_SQUARE then
    let! items := list_items f (expr false 0) [] in
    ret (node T_LIST_LITERAL k items)
  else if y =? T_AWAIT then
    let! e := try_result (expr false (TokenLookupPrecedence T_AWAIT)) in
    ret (node T_AWAIT k (option_list e))
  else fail k "Expected an expression.".

Definition assignment_tokens : list Z :=
  [T_EQUALS; T_ADD_EQUALS; T_MINUS_EQUALS; T_ASTERISK_EQUALS; T_SLASH_EQUALS].

Definition binary_tokens : list Z :=
  [T_EQUALS; T_ADD; T_MINUS; T_BITWISE_XOR; T_ASTERISK; T_SLASH; T_GREATER_THAN; T_LESS_THAN;
   T_BIT_SHIFT_LEFT; T_BIT_SHIFT_RIGHT; T_BITWISE_OR; T_BITWISE_AND; T_LT_OR_EQUAL;
   T_GT_OR_EQUAL; T_DOUBLE_EQUALS; T_NOT_EQUALS; T_LOGICAL_AND; T_LOGICAL_OR].

(** The operand of the operation [cast]. *)
Definition parse_cast (f : nat) (x : Node) : M parser Node :=
  let! k := TokenNext in
  if token_type k =? T_ERROR then ret_false
  else if negb (token_type k =? T_LEFT_ROUND) then fail k "Expected a '(' before the type to cast to."
  else
    let! type := ParseType f false false false in
    let! token := TokenNext in
    if token_type token =? T_ERROR then ret_false
    else if negb (token_type token =? T_RIGHT_ROUND) then
      fail k "Expected a ')' after the type to cast to."
    else ret (node T_ERROR k [x; node T_CAST_TYPE_WRAPPER token0 [type]]).

(** An operation behind a colon. *)
Definition parse_operation (f : nat) (expr : bool -> Z -> M parser Node) (x : Node) : M parser Node :=
  TokenNext ;;;
  let! name := TokenNext in
  if negb (is_type (token_type name) [T_IDENTIFIER; T_ASSERT; T_FLOAT]) then
    fail (node_token x) "Expected an identifier for the operation name after ':'."
  else
    let! call := (if decide (text name = bytes_of "cast") then parse_cast f x
                  else ParseCall f (expr false 0) x) in
    ret (node T_COLON name (children call)).

(** One pass of the loop over what follows an operand: the larger expression, or
    [None] at its end. *)
Definition parse_suffix (f : nat) (expr : bool -> Z -> M parser Node) (allowAssignment : bool)
    (precedence : Z) (x : Node) : M parser (option Node) :=
  let! token := TokenPeek in
  let y := token_type token in
  let tighter := precedence <? TokenLookupPrecedence y in
  if y =? T_ERROR then ret_false
  else if is_type y assignment_tokens && negb allowAssignment then
    fail (node_token x) "Variable assignment is not allowed within an expression."
  else if (y =? T_DOT) && tighter then
    TokenNext ;;;
    let! k := TokenNext in
    if token_type k =? T_IDENTIFIER then ret (Some (node T_DOT k [x]))
    else fail k "Expected an identifier for the struct field after '.'."
  else if (y =? T_COLON) && tighter then
    let! r := parse_operation f expr x in ret (Some r)
  else if is_type y binary_tokens && tighter then
    let! k := TokenNext in
    let! e := expr false (TokenLookupPrecedence y) in
    ret (Some (node (token_type k) k [x; e]))
  else if is_type y [T_ADD_EQUALS; T_MINUS_EQUALS; T_ASTERISK_EQUALS; T_SLASH_EQUALS] then
    let! k := TokenNext in
    let! e := expr false (TokenLookupPrecedence y) in
    let operation := node (token_type k - T_ADD_EQUALS + T_ADD) k [x; e] in
    ret (Some (node T_EQUALS token [x; operation]))
  else if (y =? T_LEFT_ROUND) && tighter then
    let! r := ParseCall f (expr false 0) x in ret (Some r)
  else if y =? T_LEFT_SQUARE then
    TokenNext ;;;
    let! e := expr false 0 in
    let! k := TokenNext in
    if token_type k =? T_RIGHT_SQUARE then ret (Some (node T_INDEX token [x; e]))
    else fail k "Expected a matching closing bracket."
  else if (y =? T_COMMA) && (precedence <=? TokenLookupPrecedence y) && allowAssignment then
    let! k := TokenNext in
    let! e := expr true (TokenLookupPrecedence y) in
    ret (Some (node T_SET_GROUP k [x; e]))
  else ret None.

Fixpoint expression_tail (n f : nat) (expr : bool -> Z -> M parser Node) (allowAssignment : bool)
    (precedence : Z) (x : Node) : M parser Node :=
  match n with
  | O => stop OutOfFuel
  | S n' =>
    let! r := parse_suffix f expr allowAssignment precedence x in
    match r with
    | Some x' => expression_tail n' f expr allowAssignment precedence x'
    | None => ret x
    end
  end.

Fixpoint ParseExpression (fuel : nat) (allowAssignment : bool) (precedence : Z) : M parser Node :=
  match fuel with
  | O => stop OutOfFuel
  | S f =>
    let! k := TokenNext in
    if token_type k =? T_ERROR then ret_false
    else
      let! x := parse_operand f (ParseExpression f) k in
      expression_tail f f (ParseExpression f) allowAssignment precedence x
  end.

Definition expression_text (s : string) : outcome Node :=
  (ParseExpression (S (String.length s)) true 0 (load (bytes_of s))).1.

(** The shape of a node: its type and text with the shapes of its children. *)
Inductive shape := Shape (y : Z) (w : bytes) (c : list shape).
Fixpoint shape_of (n : Node) : shape :=
  let '(MkNode y k _ c) := n in Shape y (text k) (map shape_of c).

Example expression_small :
  match expression_text "a + b * -c == d;" with
  | Ok n => shape_of n
  | _ => Shape 0 [] []
  end =
  let v x := Shape T_VARIABLE (bytes_of x) [] in
  Shape T_DOUBLE_EQUALS (bytes_of "=")
    [Shape T_ADD (bytes_of "+")
       [v "a"%string; Shape T_ASTERISK (bytes_of "*") [v "b"%string; Shape T_NEGATE (bytes_of "-") [v "c"%string]]];
     v "d"%string].
Proof. vm_compute. reflexivity. Qed.

(** ** Statements *)

(** The statements of a fuel [f]: expressions and types take the same fuel. *)
Section Statements.
Context (f : nat).

(** The head of [if]: a declaration followed by [in], or nothing, and then the
    tokenizer goes back. *)
Definition if_declaration : M parser (option Node) :=
  let! copy := get in
  let back := modify (fun s => set_tokenizer (tokenizer copy) s) ;;; ret None in
  let failed := let! s := get in ret (error (tokenizer s)) in
  let! type := try_result (ParseType f true false false) in
  let! e := failed in
  if e then ret_false
  else match type with
  | None => back
  | Some type =>
    let! name := TokenNext in
    let! e := failed in
    if e then ret_false
    else if negb (token_type name =? T_IDENTIFIER) then back
    else
      let! in_ := TokenNext in
      let! e := failed in
      if e then ret_false
      else if token_type in_ =? T_IN then ret (Some (node T_DECLARE name [type]))
      else back
  end.

(** What follows a condition: a block, or an expression with a semicolon. *)
Definition if_body (block : M parser Node) : M parser Node :=
  let! token := TokenPeek in
  if token_type token =? T_LEFT_FANCY then TokenNext ;;; block
  else
    let! e := ParseExpression f true 0 in
    expect T_SEMICOLON (node_token e) "Expected a semicolon at the end of the expression." ;;;
    ret (node T_BLOCK token0 [e]).

Definition else_body (block parse_if : M parser Node) (body : Node) : M parser (list Node) :=
  let! token := TokenPeek in
  if negb (token_type token =? T_ELSE) then ret []
  else
    TokenNext ;;;
    let! token := TokenPeek in
    if token_type token =? T_IF then let! n := parse_if in ret [n]
    else if token_type token =? T_LEFT_FANCY then TokenNext ;;; let! n := block in ret [n]
    else
      let! e := ParseExpression f true 0 in
      expect T_SEMICOLON (node_token body) "Expected a semicolon at the end of the expression." ;;;
      ret [e].

(** [ParseIf], given how the blocks and an [if] behind [else] are parsed. *)
Definition parse_if (block nested : M parser Node) : M parser Node :=
  let! k := TokenNext in
  let! declaration := if_declaration in
  let! condition := ParseExpression f false 0 in
  let! body := if_body block in
  let! otherwise := else_body block nested body in
  let y := match declaration with Some _ => T_IF_ERR | None => T_IF end in
  ret (node T_BLOCK k [node y k (option_list declaration ++ [condition; body] ++ otherwise)]).

(** The declarations of a group, behind the first comma. *)
Fixpoint declaration_group (n : nat) (k : Token) (acc : list Node) : M parser Node :=
  match n with
  | O => stop OutOfFuel
  | S n' =>
    let! type := ParseType f false false false in
    let! name := TokenNext in
    if negb (token_type name =? T_IDENTIFIER) then
      fail name "Expected an identifier for the variable name."
    else
      let acc := acc ++ [node T_DECLARE name [type]] in
      let! token := TokenNext in
      if token_type token =? T_ERROR then ret_false
      else if token_type token =? T_COMMA then declaration_group n' k acc
      else if token_type token =? T_SEMICOLON then ret (node T_DECLARE_GROUP k acc)
      else if token_type token =? T_EQUALS then
        let! e := ParseExpression f false 0 in
        expect T_SEMICOLON name "Expected a semicolon at the end of the variable declaration group." ;;;
        ret (node T_DECL_GROUP_AND_SET k (acc ++ [e]))
      else fail name "Expected one of ',', '=' or ';' in the variable declaration group."
  end.

Definition after_declaration : list Z := [T_EQUALS; T_SEMICOLON; T_COMMA; T_IN].

(** The look-ahead: is this a variable declaration?  The tokenizer goes back. *)
Definition is_declaration : M parser bool :=
  let! copy := get in
  let! type := try_result (ParseType f true false false) in
  let! b := (match type with
             | None => ret false
             | Some _ =>
                 let! name := TokenNext in
                 if token_type name =? T_IDENTIFIER then
                   let! token := TokenNext in ret (is_type (token_type token) after_declaration)
                 else ret false
             end) in
  let! s := get in
  if error (tokenizer s) then ret_false
  else modify (fun s => set_tokenizer (tokenizer copy) s) ;;; ret b.

Definition parse_declaration (allowIn : bool) : M parser Node :=
  let! type := try_result (ParseType f false false false) in
  let! type := lift_opt Assertion type in
  let! name := TokenNext in
  assert (token_type name =? T_IDENTIFIER) ;;;
  let! copy := get in
  let! token := TokenNext in
  assert (is_type (token_type token) after_declaration) ;;;
  if (token_type token =? T_IN) && allowIn then
    modify (fun s => set_tokenizer (tokenizer copy) s) ;;; ret (node T_DECLARE name [type])
  else if token_type token =? T_EQUALS then
    let! e := ParseExpression f false 0 in
    expect T_SEMICOLON name "Expected a semicolon at the end of the variable declaration." ;;;
    ret (node T_DECLARE name [type; e])
  else if token_type token =? T_COMMA then declaration_group f name [node T_DECLARE name [type]]
  else ret (node T_DECLARE name [type]).

Definition ParseVariableDeclarationOrExpression (replMode allowIn : bool) : M parser Node :=
  let! isVariableDeclaration := is_declaration in
  if isVariableDeclaration then
    if replMode then fail_here "Variables are not yet supported in the console."
    else parse_declaration allowIn
  else
    let! e := ParseExpression f true 0 in
    let finish := expect T_SEMICOLON (node_token e) "Expected a semicolon at the end of the expression." ;;;
                  ret e in
    if replMode then
      let! token := TokenPeek in
      if token_type token =? T_ERROR then ret_false
      else if token_type token =? T_EOF then ret (node T_REPL_RESULT token0 [e])
      else finish
    else finish.

(** A block or a semicolon behind the head of a loop. *)
Definition loop_body (block : M parser Node) (k : Token) (message : string) : M parser Node :=
  let! token := TokenNext in
  if token_type token =? T_LEFT_FANCY then block
  else if token_type token =? T_SEMICOLON then ret (node T_BLOCK token0 [])
  else fail k message.

Definition parse_while (block : M parser Node) : M parser Node :=
  let! k := TokenNext in
  let! condition := ParseExpression f false 0 in
  let! body := loop_body block k "Expected a block or semicolon after the while condition." in
  ret (node T_WHILE k [condition; body]).

Definition parse_for (block : M parser Node) : M parser Node :=
  let message := "Expected a block or semicolon to complete the for statement."%string in
  let! k := TokenNext in
  let! first := ParseVariableDeclarationOrExpression false true in
  let! peek := TokenPeek in
  let! s := get in
  if error (tokenizer s) then ret_false
  else if token_type peek =? T_IN then
    TokenNext ;;;
    let! e := ParseExpression f false 0 in
    let! body := loop_body block k message in
    ret (node T_BLOCK k [node T_FOR_EACH k [first; e; body]])
  else
    let! condition := ParseExpression f false 0 in
    expect T_SEMICOLON k "Expected a semicolon." ;;;
    let! update := ParseExpression f true 0 in
    let! body := loop_body block k message in
    ret (node T_BLOCK k [node T_FOR k [first; condition; update; body]]).

(** The values of [return] behind the first. *)
Fixpoint return_values (n : nat) (acc : list Node) : M parser (list Node) :=
  match n with
  | O => stop OutOfFuel
  | S n' =>
    let! token := TokenPeek in
    if token_type token =? T_COMMA then
      TokenNext ;;;
      let! e := ParseExpression f false 0 in
      return_values n' (acc ++ [e])
    else ret acc
  end.

Definition parse_return (y : Z) : M parser Node :=
  let! k := TokenNext in
  let! value := (if is_type y [T_ASSERT; T_RETERR] then ret true
                 else let! token := TokenPeek in ret (negb (token_type token =? T_SEMICOLON))) in
  let! n := (if value : bool then
               let! e := ParseExpression f false 0 in
               if y =? T_RETURN then
                 let! token := TokenPeek in
                 if token_type token =? T_COMMA then
                   let! values := return_values f [e] in
                   ret (node T_RETURN_TUPLE token0 values)
                 else ret (node y k [e])
               else ret (node y k [e])
             else ret (node y k [])) in
  expect T_SEMICOLON (node_token n) "Expected a semicolon at the end of the statement." ;;;
  ret n.

(** A statement that starts with [token], inside a block with the token [k]. *)
Definition parse_statement (block nested : M parser Node) (replMode : bool) (k token : Token)
  : M parser Node :=
  let y := token_type token in
  if y =? T_IF then parse_if block nested
  else if y =? T_WHILE then parse_while block
  else if y =? T_FOR then parse_for block
  else if is_type y [T_RETURN; T_ASSERT; T_RETERR] then
    if replMode then fail k "%s statements cannot be used in the console." else parse_return y
  else if y =? T_LEFT_FANCY then TokenNext ;;; block
  else ParseVariableDeclarationOrExpression replMode false.

Fixpoint block_statements (n : nat) (block nested : M parser Node) (replMode : bool) (k : Token)
    (acc : list Node) : M parser Node :=
  match n with
  | O => stop OutOfFuel
  | S n' =>
    let! token := TokenPeek in
    if token_type token =? T_ERROR then ret_false
    else if token_type token =? (if replMode then T_EOF else T_RIGHT_FANCY) then
      TokenNext ;;; ret (node T_BLOCK k acc)
    else
      let! n := parse_statement block nested replMode k token in
      block_statements n' block nested replMode k (acc ++ [n])
  end.
End Statements.

Fixpoint ParseIf (fuel : nat) : M parser Node :=
  match fuel with
  | O => stop OutOfFuel
  | S f => parse_if f (ParseBlock f false) (ParseIf f)
  end
with ParseBlock (fuel : nat) (replMode : bool) : M parser Node :=
  match fuel with
  | O => stop OutOfFuel
  | S f =>
      let! s := get in
      block_statements f f (ParseBlock f false) (ParseIf f) replMode
        (MkToken [] 0 (u32 (line (tokenizer s))) T_ERROR) []
  end.

(** ** Global definitions *)

Section Root.
Context (f : nat).

(** The arguments of a function. *)
Fixpoint function_arguments (n : nat) (acc : list Node) : M parser (list Node) :=
  match n with
  | O => stop OutOfFuel
  | S n' =>
    let! token := TokenPeek in
    if token_type token =? T_RIGHT_ROUND then TokenNext ;;; ret acc
    else
      (if (length acc =? 0)%nat then ret tt
       else let! comma := TokenNext in
            if token_type comma =? T_COMMA then ret tt
            else fail comma "Expected a comma to separate function arguments.") ;;;
      let! type := ParseType f false false false in
      let! name := TokenNext in
      let acc := acc ++ [node T_ARGUMENT name [type]] in
      if FUNCTION_MAX_ARGUMENTS <? Z.of_nat (length acc) then
        fail name "Functions cannot have more than %d arguments."
      else if negb (token_type name =? T_IDENTIFIER) then
        fail name "Expected an identifier for the name of the function argument."
      else function_arguments n' acc
  end.

(** The body of a function: its node, or an external call. *)
Definition function_body : M parser (list Node * bool) :=
  let! token := TokenNext in
  if token_type token =? T_LEFT_FANCY then
    let! block := ParseBlock f false in
    ret ([node T_FUNCBODY token0 [block]], false)
  else if token_type token =? T_EXTCALL then
    let! semicolon := TokenNext in
    if token_type semicolon =? T_SEMICOLON then ret ([], true)
    else fail_here "Expected a semicolon after 'extcall'."
  else fail token "Expected a '{' to start the function body.".

(** The rest of a global variable: the [#persist] and [#option] marks. *)
Definition global_variable (name : Token) (type : Node) : M parser Node :=
  let! semicolon := TokenNext in
  let persist := token_type semicolon =? T_PERSIST in
  let! semicolon := (if persist then TokenNext else ret semicolon) in
  let option_ := token_type semicolon =? T_OPTION in
  let! semicolon := (if option_ then TokenNext else ret semicolon) in
  if token_type semicolon =? T_SEMICOLON then
    ret (MkNode T_DECLARE name (MkFlags false persist option_ false) [type])
  else fail_here "Expected a semicolon after the global variable definition.".

Definition ParseGlobalVariableOrFunctionDefinition (allowGlobalVariables parseFunctionBody : bool)
  : M parser Node :=
  let! type := ParseType f false true true in
  let! name := TokenNext in
  if negb (token_type name =? T_IDENTIFIER) then
    fail name (if allowGlobalVariables
               then "Expected an identifier for the name of the function or global variable."
               else "Expected an identifier for the name of the function pointer type.")
  else
    let! bracket := TokenPeek in
    if token_type bracket =? T_ERROR then ret_false
    else if token_type bracket =? T_LEFT_ROUND then
      TokenNext ;;;
      let! arguments := function_arguments f [] in
      let pointer := node T_FUNCPTR token0 [node T_ARGUMENTS token0 arguments; type] in
      let! (body, external) := (if parseFunctionBody then function_body else ret ([], false)) in
      ret (MkNode T_FUNCTION name (MkFlags external false false false) (pointer :: body))
    else if allowGlobalVariables then global_variable name type
    else fail_here "Expected a '(' to start the argument list.".

(** The import of the base module that precedes every other module. *)
Definition base_import : Node :=
  node T_IMPORT (MkToken (bytes_of "#inline") 0 0 T_INLINE)
    [node T_IMPORT_PATH (MkToken (bytes_of "__base_module__") 0 0 T_STRING_LITERAL) []].

Definition startFunction : bytes := bytes_of "Start".

Definition ParseRootREPL : M parser Node :=
  let! block := ParseBlock f true in
  ret (node T_ROOT token0
    [base_import;
     node T_FUNCTION (MkToken startFunction 0 0 T_ERROR)
       [node T_FUNCPTR token0 [node T_ARGUMENTS token0 []; node T_VOID token0 []];
        node T_FUNCBODY token0 [block]]]).

(** The C library's [dlopen]: which libraries can be loaded. *)
Context (dlopen : bytes -> bool).

(** The C string at the start of [b]. *)
Fixpoint cstring (b : bytes) : bytes :=
  match b with
  | c :: b' => if c =? 0 then [] else c :: cstring b'
  | [] => []
  end.

Definition LibraryLoad (name : bytes) : M parser unit :=
  assert (Z.of_nat (length (cstring name)) <? 256) ;;;
  let name2 := bytes_of "l" ++ cstring name ++ bytes_of ".so" in
  if dlopen name2 then modify (fun s => MkParser (tokenizer s) (messages s) true)
  else print_line 0 "The library could not be found or loaded." ;;; ret_false.

Definition parse_functype : M parser Node :=
  TokenNext ;;;
  let! n := ParseGlobalVariableOrFunctionDefinition false false in
  let! semicolon := TokenNext in
  if token_type semicolon =? T_SEMICOLON then ret (set_type T_FUNCTYPE n)
  else match children n with
  | _ :: b :: _ => fail (node_token b) "Expected a semicolon after the argument list."
  | _ => stop OutOfBounds (* the line of a node that does not exist *)
  end.

Definition parse_handletype : M parser Node :=
  TokenNext ;;;
  let! name := TokenNext in
  if negb (token_type name =? T_IDENTIFIER) then fail name "Expected the name of the handletype."
  else
    let! semicolon := TokenNext in
    let! (n, semicolon) :=
      (if token_type semicolon =? T_COLON then
         let! parent := ParseType f false false false in
         let! semicolon := TokenNext in
         ret (MkNode T_HANDLETYPE name (MkFlags false false false true) [parent], semicolon)
       else ret (node T_HANDLETYPE name [], semicolon)) in
    if token_type semicolon =? T_SEMICOLON then ret n
    else fail name "Expected a semicolon after the handletype identifier.".

(** The constants of an inttype, up to the closing bracket. *)
Fixpoint inttype_constants (n : nat) (acc : list Node) : M parser (list Node) :=
  match n with
  | O => stop OutOfFuel
  | S n' =>
    let! peek := TokenPeek in
    if token_type peek =? T_ERROR then ret_false
    else if token_type peek =? T_RIGHT_FANCY then ret acc
    else
      let! name := TokenNext in
      if negb (token_type name =? T_IDENTIFIER) then
        fail name "Expected an identifier for the constant."
      else
        expect T_EQUALS name "Expected '=' between the constant name and the value." ;;;
        let! e := try_result (ParseExpression f false 0) in
        expect T_SEMICOLON name "Expected a semicolon after the constant value." ;;;
        inttype_constants n' (acc ++ [node T_INTTYPE_CONSTANT name (option_list e)])
  end.

Definition parse_inttype : M parser Node :=
  TokenNext ;;;
  let! name := TokenNext in
  if negb (token_type name =? T_IDENTIFIER) then fail name "Expected the name of the inttype."
  else
    let! token := TokenNext in
    if token_type token =? T_ERROR then ret_false
    else
      let! (parent, token) :=
        (if token_type token =? T_COLON then
           let! parent := ParseType f false false false in
           let! token := TokenNext in ret ([parent], token)
         else ret ([], token)) in
      if token_type token =? T_ERROR then ret_false
      else if negb (token_type token =? T_LEFT_FANCY) then
        fail name "Expected a '{' for the inttype contents after the name."
      else
        let! constants := inttype_constants f [] in
        TokenNext ;;;
        expect T_SEMICOLON name "Expected a semicolon after the inttype body." ;;;
        ret (MkNode T_INTTYPE name (MkFlags false false false (negb (length parent =? 0)%nat))
               (parent ++ constants)).

(** The fields of a struct, up to the closing bracket. *)
Fixpoint struct_fields (n : nat) (acc : list Node) : M parser (list Node) :=
  match n with
  | O => stop OutOfFuel
  | S n' =>
    let! peek := TokenPeek in
    if token_type peek =? T_ERROR then ret_false
    else if token_type peek =? T_RIGHT_FANCY then ret acc
    else
      let! type := ParseType f false false false in
      let! name := TokenNext in
      if negb (token_type name =? T_IDENTIFIER) then
        fail name "Expected an identifier for the field name."
      else
        expect T_SEMICOLON name "Expected a semicolon after the field name." ;;;
        struct_fields n' (acc ++ [node T_DECLARE name [type]])
  end.

Definition parse_struct : M parser Node :=
  TokenNext ;;;
  let! name := TokenNext in
  if negb (token_type name =? T_IDENTIFIER) then fail name "Expected the name of the struct."
  else
    expect T_LEFT_FANCY name "Expected a '{' for the struct contents after the name." ;;;
    let! fields := struct_fields f [] in
    TokenNext ;;;
    expect T_SEMICOLON name "Expected a semicolon after the struct body." ;;;
    ret (node T_STRUCT name fields).

Definition parse_import : M parser Node :=
  TokenNext ;;;
  let! path := ParseExpression f false 0 in
  let! name := TokenNext in
  if negb (node_type path =? T_STRING_LITERAL) then
    fail name "The path to the script file to import must be a string literal."
  else if negb (is_type (token_type name) [T_IDENTIFIER; T_INLINE]) then
    fail name "Expected an identifier for the name to import the module as."
  else
    expect T_SEMICOLON name "Expected a semicolon after the #import statement." ;;;
    ret (node T_IMPORT name [set_type T_IMPORT_PATH path]).

Definition parse_library : M parser unit :=
  let! s := get in
  if library s then fail_here "The library has already been set for this module."
  else
    TokenNext ;;;
    let! token := TokenNext in
    if negb (token_type token =? T_STRING_LITERAL) then
      if token_type token =? T_ERROR then ret_false
      else fail_here "Expected a string literal for the library name."
    else if 255 <? Z.of_nat (length (text token)) then fail_here "The library name is too long."
    else
      LibraryLoad (text token) ;;;
      let! semicolon := TokenNext in
      if token_type semicolon =? T_SEMICOLON then ret tt
      else fail_here "Expected a semicolon after the #library statement.".

(** The definition that starts with a token of type [y]; a [#library] adds no node. *)
Definition parse_definition (y : Z) : M parser (list Node) :=
  let one (m : M parser Node) := let! n := m in ret [n] in
  if y =? T_FUNCTYPE then one parse_functype
  else if y =? T_HANDLETYPE then one parse_handletype
  else if y =? T_INTTYPE then one parse_inttype
  else if y =? T_STRUCT then one parse_struct
  else if y =? T_IMPORT then one parse_import
  else if y =? T_LIBRARY then parse_library ;;; ret []
  else one (ParseGlobalVariableOrFunctionDefinition true true).

Fixpoint root_definitions (n : nat) (acc : list Node) : M parser Node :=
  match n with
  | O => stop OutOfFuel
  | S n' =>
    let! token := TokenPeek in
    if token_type token =? T_ERROR then ret_false
    else if token_type token =? T_EOF then ret (node T_ROOT token0 acc)
    else
      let! d := parse_definition (token_type token) in
      root_definitions n' (acc ++ d)
  end.

Definition ParseRoot : M parser Node :=
  let! s := get in
  root_definitions f (if isBaseModule (tokenizer s) then [] else [base_import]).
End Root.

(** A fuel that is always enough. *)
Definition parse_fuel (source : bytes) : nat := length source + 3.

Definition parse_script (dlopen : bytes -> bool) (source : bytes) : outcome Node * parser :=
  ParseRoot (parse_fuel source) dlopen (load source).
