(* ===== verification/ScriptParserProofs.v ===== *)
(** * Theorems about the parser of the script engine

    For every text the parser ends within its fuel; it returns [NULL] only after it
    has printed a message; and a tree it returns without a message has the shape the
    later passes rely on.  Printing an expression and parsing it gives the expression
    back. *)

From Stdlib Require Import String Ascii.
From stdpp Require Import base list.
From S2P Require Import Prelude ScriptToken ScriptParser.

(** ** The shape of trees *)

(** Node types with the least and the greatest number of children. *)
Definition arities : list (Z * nat * option nat) :=
  let leaf := map (fun y => (y, 0%nat, Some 0%nat))
    ([T_VARIABLE; T_STRING_LITERAL; T_IMPORT_PATH; T_INT; T_FLOAT; T_STR; T_BOOL; T_VOID;
      T_ANYTYPE; T_IDENTIFIER] ++ literal_tokens) in
  let unary := map (fun y => (y, 1%nat, Some 1%nat))
    [T_LOGICAL_NOT; T_NEGATE; T_BITWISE_NOT; T_AWAIT; T_DOT; T_CAST_TYPE_WRAPPER; T_ERR;
     T_IMPORT; T_REPL_RESULT; T_ARGUMENT; T_FUNCBODY; T_INTTYPE_CONSTANT; T_ASSERT; T_RETERR] in
  let binary := map (fun y => (y, 2%nat, Some 2%nat))
    (binary_tokens ++ [T_CALL; T_COLON; T_INDEX; T_SET_GROUP; T_FUNCPTR; T_WHILE]) in
  let any := map (fun y => (y, 0%nat, None))
    [T_LIST_LITERAL; T_ARGUMENTS; T_BLOCK; T_ROOT; T_INTTYPE; T_STRUCT] in
  leaf ++ unary ++ binary ++ any ++
  [(T_STR_INTERPOLATE, 3, Some 3); (T_NEW, 1, Some 2); (T_RETURN, 0, Some 1);
   (T_DECLARE, 1, Some 2); (T_IF, 2, Some 3); (T_IF_ERR, 3, Some 4); (T_FOR, 4, Some 4);
   (T_FOR_EACH, 3, Some 3); (T_FUNCTION, 1, Some 2); (T_FUNCTYPE, 1, Some 2);
   (T_HANDLETYPE, 0, Some 1); (T_RETURN_TUPLE, 2, None); (T_DECLARE_GROUP, 2, None);
   (T_DECL_GROUP_AND_SET, 3, None); (T_LIST, 1, None); (T_TUPLE, 1, None)]%nat.

Fixpoint lookup_arity (table : list (Z * nat * option nat)) (y : Z) (n : nat) : bool :=
  match table with
  | [] => false
  | (z, lo, hi) :: table' =>
      if y =? z then (lo <=? n)%nat && match hi with Some h => (n <=? h)%nat | None => true end
      else lookup_arity table' y n
  end.

Definition arity_ok (y : Z) (n : nat) : bool := lookup_arity arities y n.
#[global] Arguments arity_ok : simpl never.

Fixpoint well_shaped (n : Node) : bool :=
  let '(MkNode y _ _ c) := n in arity_ok y (length c) && forallb well_shaped c.

(** The trees of types. *)
Fixpoint type_shaped (n : Node) : bool :=
  let '(MkNode y _ _ c) := n in
  is_type y (T_LIST :: type_tokens) && arity_ok y (length c) && forallb type_shaped c.

Abbreviation typed := (fun x => type_shaped x = true).
Abbreviation shaped := (fun x => well_shaped x = true).

Lemma node_ind' (P : Node -> Prop) :
  (forall y k f c, Forall P c -> P (MkNode y k f c)) -> forall n, P n.
Proof.
  intros H. fix IH 1. intros [y k f c]. apply H.
  induction c as [|x c IHc]; constructor; [apply IH|apply IHc].
Qed.

Lemma type_well_shaped n : type_shaped n = true -> well_shaped n = true.
Proof.
  induction n as [y k f c IH] using node_ind'. cbn. rewrite !andb_true_iff.
  intros [[_ Ha] Hc]. split; [done|]. rewrite forallb_forall in *. rewrite Forall_forall in IH. auto.
Qed.

Lemma is_type_In y l : is_type y l = true <-> In y l.
Proof.
  unfold is_type. rewrite existsb_exists. split.
  - intros (x & Hx & E). by apply Z.eqb_eq in E as ->.
  - intros H. exists y. by rewrite Z.eqb_refl.
Qed.

(** ** Reasoning about runs *)

Definition wp {A} (m : M parser A) (s : parser) (Q : outcome A -> parser -> Prop) : Prop :=
  Q (m s).1 (m s).2.

Definition inv (s : parser) : Prop :=
  in_input (tokenizer s) /\ (error (tokenizer s) = true -> messages s <> []).

Abbreviation pos s := (position (tokenizer s)).

Definition bytes_left (s : parser) : nat := inputBytes (tokenizer s) - pos s.

(** [s'] can be reached from [s]. *)
Record later (s s' : parser) : Prop := Later {
  later_inv : inv s';
  later_input : input (tokenizer s') = input (tokenizer s);
  later_base : isBaseModule (tokenizer s') = isBaseModule (tokenizer s);
  later_pos : (pos s <= pos s')%nat;
  later_messages : messages s <> [] -> messages s' <> [];
}.

Lemma later_refl s : inv s -> later s s.
Proof. by constructor. Qed.

Lemma later_trans s1 s2 s3 : later s1 s2 -> later s2 s3 -> later s1 s3.
Proof. intros [] []. constructor; try congruence; [lia|auto]. Qed.

(** The next token is [k]. *)
Definition peeked (s : parser) (k : Token) : Prop :=
  exists t m, lex (tokenizer s) = Lexed t k m.

(** What a parse function promises: it ends in a later state, further on when [strict]
    and it succeeds; with a message when [loud] and it fails; what it returns has the
    property [wf] when no message was printed. *)
Definition parses {A} (strict loud : bool) (wf : A -> Prop) (s : parser) (o : outcome A) (s' : parser)
  : Prop :=
  match o with
  | Ok a => later s s' /\ (strict = true -> (pos s < pos s')%nat) /\ (messages s' = [] -> wf a)
  | RetFalse => later s s' /\ (loud = true -> messages s' <> [])
  | Stop r => r <> OutOfFuel
  end.

Definition total {A} (fuel : nat) (strict loud : bool) (wf : A -> Prop) (m : M parser A) : Prop :=
  forall s, inv s -> (bytes_left s < fuel)%nat -> wp m s (parses strict loud wf s).

Lemma wp_bind {A B} (m : M parser A) (f : A -> M parser B) s Q :
  wp m s (fun o s' => match o with
                      | Ok a => wp (f a) s' Q
                      | RetFalse => Q RetFalse s'
                      | Stop r => Q (Stop r) s'
                      end) ->
  wp (bind m f) s Q.
Proof. unfold wp, bind. destruct (m s) as [[a| |r] s']; done. Qed.

Lemma wp_try {A} (m : M parser A) s (Q : outcome (option A) -> parser -> Prop) :
  wp m s (fun o s' => match o with
                      | Ok a => Q (Ok (Some a)) s'
                      | RetFalse => Q (Ok None) s'
                      | Stop r => Q (Stop r) s'
                      end) ->
  wp (try_result m) s Q.
Proof. unfold wp, try_result. destruct (m s) as [[a| |r] s']; done. Qed.

Lemma wp_mono {A} (m : M parser A) s (Q Q' : outcome A -> parser -> Prop) :
  wp m s Q -> (forall o s', Q o s' -> Q' o s') -> wp m s Q'.
Proof. unfold wp. auto. Qed.

(** Using a contract. *)
Lemma wp_use {A} st ld wf (m : M parser A) s Q :
  wp m s (parses st ld wf s) ->
  (forall a s', later s s' -> (st = true -> (pos s < pos s')%nat) -> (messages s' = [] -> wf a) ->
     Q (Ok a) s') ->
  (forall s', later s s' -> (ld = true -> messages s' <> []) -> Q RetFalse s') ->
  (forall r s', r <> OutOfFuel -> Q (Stop r) s') -> wp m s Q.
Proof.
  intros Hm HO HR HS. eapply wp_mono; [done|].
  intros [a| |r] s' H; cbn in H.
  - destruct H as (? & ? & ?). auto.
  - destruct H as [? ?]. auto.
  - auto.
Qed.

Lemma wp_total {A} fuel st ld wf (m : M parser A) s Q :
  total fuel st ld wf m -> inv s -> (bytes_left s < fuel)%nat ->
  (forall a s', later s s' -> (st = true -> (pos s < pos s')%nat) -> (messages s' = [] -> wf a) ->
     Q (Ok a) s') ->
  (forall s', later s s' -> (ld = true -> messages s' <> []) -> Q RetFalse s') ->
  (forall r s', r <> OutOfFuel -> Q (Stop r) s') -> wp m s Q.
Proof. intros Hm Hi Hf. apply wp_use. by apply Hm. Qed.

Lemma snoc_ne {A} (l : list A) x : l ++ [x] <> [].
Proof. by destruct l. Qed.

Lemma lex_inv s t k m :
  inv s -> lex (tokenizer s) = Lexed t k m ->
  later s (set_tokenizer t (log_lexed m t s)) /\
  later s (log_lexed m t s) /\
  (token_type k = T_ERROR -> messages (log_lexed m t s) <> []) /\
  (token_type k <> T_ERROR -> token_type k <> T_EOF -> (pos s < position t)%nat).
Proof.
  intros [Hin He] Hl. pose proof (lex_ok _ Hin) as H. rewrite Hl in H. cbn in H.
  destruct H as (Hi & Hb & Hin' & Hp & _ & Hn & Hs).
  destruct m as [x|]; cbn.
  - destruct (Hs ltac:(done)) as [Hk He'].
    split_and!; [constructor..| |done]; cbn; try done; try split; cbn; auto using snoc_ne.
  - destruct (Hn eq_refl) as (Hk & He' & Hpos).
    split_and!; [|by apply later_refl|done|intros _ ?; by destruct Hpos].
    constructor; cbn; try done. split; [done|]. cbn. by rewrite He'.
Qed.

Lemma wp_TokenNext s Q :
  inv s ->
  (forall k s', later s s' -> (token_type k = T_ERROR -> messages s' <> []) ->
     (1 < token_type k -> (pos s < pos s')%nat) ->
     (forall k', peeked s k' -> k = k') -> Q (Ok k) s') ->
  (forall s', Q (Stop OutOfBounds) s') -> wp TokenNext s Q.
Proof.
  intros Hi HO HS. unfold wp, TokenNext. destruct (lex (tokenizer s)) as [t k m|] eqn:E; cbn; [|auto].
  destruct (lex_inv s t k m Hi E) as (H1 & _ & H3 & H4). apply HO; [done|by destruct m| |].
  - intros Hk. apply H4; intros Hk'; rewrite Hk' in Hk; discriminate Hk.
  - intros k' (? & ? & ?). congruence.
Qed.

Lemma wp_TokenPeek s Q :
  inv s ->
  (forall k s', later s s' -> pos s' = pos s -> error (tokenizer s') = error (tokenizer s) ->
     (token_type k = T_ERROR -> messages s' <> []) -> peeked s' k ->
     (forall k', peeked s k' -> k = k') -> Q (Ok k) s') ->
  (forall s', Q (Stop OutOfBounds) s') -> wp TokenPeek s Q.
Proof.
  intros Hi HO HS. unfold wp, TokenPeek. destruct (lex (tokenizer s)) as [t k m|] eqn:E; cbn; [|auto].
  destruct (lex_inv s t k m Hi E) as (_ & H2 & H3 & _).
  assert (tokenizer (log_lexed m t s) = tokenizer s) as Ht by (by destruct m).
  apply HO; [done|by rewrite Ht|by rewrite Ht|done| |].
  - exists t, m. by rewrite Ht.
  - intros k' (? & ? & ?). congruence.
Qed.

(** Going back to the tokenizer of an earlier state; the messages stay. *)
Lemma wp_restore c s Q :
  inv c -> later c s ->
  (forall s', later c s' -> pos s' = pos c -> messages s' = messages s -> Q (Ok tt) s') ->
  wp (modify (fun s => set_tokenizer (tokenizer c) s)) s Q.
Proof.
  intros [Hin He] [_ _ _ _ Hm] H. apply H; [|done|done].
  constructor; cbn; try done. split; cbn; auto.
Qed.

Lemma wp_fail {A} k m s (Q : outcome A -> parser -> Prop) :
  inv s -> (forall s', later s s' -> messages s' <> [] -> Q RetFalse s') -> wp (fail k m) s Q.
Proof.
  intros [Hin He] H. apply H; cbn; [|apply snoc_ne]. constructor; cbn; try done; [|auto using snoc_ne].
  split; cbn; auto using snoc_ne.
Qed.

Lemma wp_fail_unless {A} b k m s (Q : outcome A -> parser -> Prop) :
  inv s -> (forall s', later s s' -> (negb b = true -> messages s' <> []) -> Q RetFalse s') ->
  wp (fail_unless b k m) s Q.
Proof.
  intros Hi H. destruct b; cbn.
  - unfold wp. cbn. apply H; [by apply later_refl|done].
  - apply wp_fail; auto.
Qed.

Lemma wp_fail_here {A} m s (Q : outcome A -> parser -> Prop) :
  inv s -> (forall s', later s s' -> messages s' <> [] -> Q RetFalse s') -> wp (fail_here m) s Q.
Proof. intros. by apply (wp_fail (MkToken [] 0 (line (tokenizer s)) 0)). Qed.

Lemma later_left s s' :
  inv s -> later s s' -> (bytes_left s' + pos s' = bytes_left s + pos s)%nat.
Proof.
  intros [Hi _] [[Hi' _] Hin _ _ _]. unfold bytes_left, in_input, inputBytes in *.
  rewrite Hin in *. lia.
Qed.

Lemma later_nil s s' : later s s' -> messages s' = [] -> messages s = [].
Proof. intros [_ _ _ _ H] H'. destruct (messages s); [done|]. by destruct H. Qed.

Lemma is_type_real y l : is_type y l = true -> forallb (Z.ltb 1) l = true -> 1 < y.
Proof. rewrite is_type_In, forallb_forall. intros H1 H2. apply H2 in H1. lia. Qed.

Lemma is_type_arity y l n :
  is_type y l = true -> forallb (fun y => arity_ok y n) l = true -> arity_ok y n = true.
Proof. rewrite is_type_In, forallb_forall. auto. Qed.

Lemma wp_expect y k m s Q :
  inv s -> 1 < y ->
  (forall s', later s s' -> (pos s < pos s')%nat -> Q (Ok tt) s') ->
  (forall s', later s s' -> messages s' <> [] -> Q RetFalse s') ->
  (forall s', Q (Stop OutOfBounds) s') -> wp (expect y k m) s Q.
Proof.
  intros Hi Hy HO HR HS. unfold expect. apply wp_bind, wp_TokenNext; [done| |auto].
  intros t s' Hl He Hpos _. cbn beta iota. destruct (Z.eqb_spec (token_type t) y) as [Hty|].
  - apply HO; [done|]. apply Hpos. by rewrite Hty.
  - apply wp_fail; [by apply later_inv in Hl|]. intros s'' Hl' Hm. apply HR; [by eapply later_trans|done].
Qed.

(** ** Symbolic execution

    The context keeps [later s0 s] for the current state [s], and facts about
    positions for [lia]. *)

Ltac inv_solve := first [eassumption | eapply later_inv; eassumption].

Ltac note_later s :=
  repeat match goal with
  | H1 : later ?a ?b, H2 : later ?b s |- _ =>
      lazymatch goal with
      | _ : later a s |- _ => fail
      | _ => pose proof (later_trans a b s H1 H2)
      end
  end;
  match goal with
  | H : later ?a s |- _ =>
      let Hi := fresh in
      assert (inv a) as Hi by inv_solve;
      pose proof (later_left a s Hi H); clear Hi;
      pose proof (later_inv _ _ H)
  end;
  repeat match goal with
  | H : later ?a s |- _ =>
      lazymatch goal with
      | _ : (pos a <= pos s)%nat |- _ => fail
      | _ => pose proof (later_pos _ _ H)
      end
  end.

(** Consequences of what is known about tokens. *)
Ltac fire :=
  repeat match goal with
  | H : peeked ?s ?k, H' : forall k', peeked ?s k' -> ?k2 = k' |- _ =>
      pose proof (H' _ H); clear H'; subst k2
  | H : ?b = true -> _, H' : ?b = true |- _ => specialize (H H')
  | H : true = true -> _ |- _ => specialize (H eq_refl)
  | H : (token_type ?k =? ?c) = true |- _ =>
      apply Z.eqb_eq in H;
      try (assert (1 < token_type k) by (rewrite H; reflexivity))
  | H : is_type (token_type ?k) ?l = true |- _ =>
      lazymatch goal with
      | _ : 1 < token_type k |- _ => fail
      | _ => pose proof (is_type_real _ _ H eq_refl)
      end
  | H : negb ?b = true |- _ => apply negb_true_iff in H
  | H : negb ?b = false |- _ => apply negb_false_iff in H
  | H : _ && _ = true |- _ => apply andb_true_iff in H as [? ?]
  | H : 1 < token_type ?k -> _, H' : 1 < token_type ?k |- _ => specialize (H H')
  | H : token_type ?k = T_ERROR -> _, H' : token_type ?k = T_ERROR |- _ => specialize (H H')
  end.

Ltac fuel_solve := lia.

Ltac fold_shape :=
  repeat match goal with
  | H : messages ?a = messages ?b, H' : messages ?a = [] |- _ => rewrite H' in H; symmetry in H
  | H : messages ?b = [], H' : later ?a ?b |- _ =>
      lazymatch goal with
      | _ : messages a = [] |- _ => fail
      | _ => pose proof (later_nil _ _ H' H)
      end
  | H : messages ?b = [] -> _, H' : messages ?b = [] |- _ => specialize (H H')
  | H : messages ?b <> [], H' : messages ?b = [] |- _ => by destruct (H H')
  end.

Ltac messages_solve :=
  solve [eassumption
        | match goal with H : later _ ?s |- messages ?s <> [] => apply (later_messages _ _ H); eassumption end
        | match goal with H : error (tokenizer ?s) = true, H' : inv ?s |- messages ?s <> [] =>
            apply (proj2 H'); exact H end
        | match goal with H : error (tokenizer ?s) = true |- _ <> [] =>
            eapply (proj2 (later_inv _ s ltac:(eassumption))); exact H end
        | auto].

(** The end of a run. *)
Ltac finish :=
  fire;
  lazymatch goal with
  | |- parses _ _ _ ?s (Ok _) ?s' =>
      split; [first [eassumption | by apply later_refl]
             |split; [try (intros _; lia); try done | intros; fold_shape; try done]]
  | |- parses _ _ _ ?s RetFalse ?s' =>
      split; [first [eassumption | by apply later_refl] | intros; fire; try messages_solve]
  | |- parses _ _ _ ?s (Stop _) ?s' => try done
  end.

Ltac step :=
  lazymatch goal with
  | |- wp (bind _ _) _ _ => apply wp_bind
  | |- wp (try_result _) _ _ => apply wp_try
  | |- wp TokenNext _ _ =>
      let k := fresh "k" in let s := fresh "s" in
      apply wp_TokenNext; [inv_solve|intros k s ? ? ? ?; note_later s; fire; cbn beta iota|intros; try done]
  | |- wp TokenPeek _ _ =>
      let k := fresh "k" in let s := fresh "s" in
      apply wp_TokenPeek; [inv_solve|intros k s ? ? ? ? ? ?; note_later s; fire; cbn beta iota|intros; try done]
  | |- wp (fail _ _) _ _ =>
      let s := fresh "s" in apply wp_fail; [inv_solve|intros s ? ?; note_later s; cbn beta iota]
  | |- wp (fail_unless _ _ _) _ _ =>
      let s := fresh "s" in apply wp_fail_unless; [inv_solve|intros s ? ?; note_later s; cbn beta iota]
  | |- wp (fail_here _) _ _ =>
      let s := fresh "s" in apply wp_fail_here; [inv_solve|intros s ? ?; note_later s; cbn beta iota]
  | |- wp (if ?b then _ else _) _ _ => destruct b eqn:?; fire; cbn beta iota
  | |- wp (ret _) _ _ => unfold wp at 1; cbn [ret fst snd]; cbn beta iota
  | |- wp ret_false _ _ => unfold wp at 1; cbn [ret_false fst snd]; cbn beta iota
  | |- wp (assert ?b) _ _ => unfold assert; destruct b eqn:?; fire
  | |- wp (lift_opt _ (Some _)) _ _ => cbn [lift_opt]
  | |- wp (lift_opt _ None) _ _ => cbn [lift_opt]
  | |- wp (lift_opt _ ?o) _ _ => destruct o; cbn [lift_opt]
  | |- wp (expect ?y _ _) _ _ =>
      let s := fresh "s" in
      apply wp_expect; [inv_solve|reflexivity
        |intros s ? ?; note_later s; cbn beta iota
        |intros s ? ?; note_later s; cbn beta iota|intros; try done]
  | |- wp (stop _) _ _ => unfold wp at 1; cbn [stop fst snd]; cbn beta iota
  | |- wp get _ _ => unfold wp at 1; cbn [get fst snd]; cbn beta iota
  | |- wp (modify (fun s => set_tokenizer (tokenizer ?c) s)) _ _ =>
      let s := fresh "s" in
      apply (wp_restore c); [inv_solve|first [eassumption|by apply later_refl]|];
      intros s ? ? ?; note_later s; cbn beta iota
  | |- parses _ _ _ _ _ _ => finish
  | |- wp (match ?x with _ => _ end) _ _ => destruct x; cbn beta iota
  end.

(** Run a function with a contract. *)
Ltac call H :=
  let a := fresh "x" in let s := fresh "s" in
  eapply (wp_total _ _ _ _ _ _ _ H);
    [inv_solve|fuel_solve
    |intros a s ? ? ?; note_later s; fire; cbn beta iota
    |intros s ? ?; note_later s; fire; cbn beta iota; try (by step)
    |intros ? ? ?; cbn beta iota; try done].

(** The same for a contract about this state. *)
Ltac use H :=
  let a := fresh "x" in let s := fresh "s" in
  eapply (wp_use _ _ _ _ _ _ H);
    [intros a s ? ? ?; note_later s; fire; cbn beta iota
    |intros s ? ?; note_later s; fire; cbn beta iota; try (by step)
    |intros ? ? ?; cbn beta iota; try done].

(** ** Types *)

Lemma total_le {A} fuel fuel' st ld wf (m : M parser A) :
  total fuel st ld wf m -> (fuel' <= fuel)%nat -> total fuel' st ld wf m.
Proof. intros H Hle s Hi Hf. apply H; [done|lia]. Qed.

(** Going on from a later state. *)
Lemma parses_trans {A} st st' ld (wf : A -> Prop) s s' o s'' :
  later s s' -> (st = true -> st' = true \/ (pos s < pos s')%nat) ->
  parses st' ld wf s' o s'' -> parses st ld wf s o s''.
Proof.
  intros Hl Hst. destruct o as [a| |r]; cbn; [|intros [H1 H2]; split; [by eapply later_trans|done]|done].
  intros (H1 & H2 & H3). split_and!; [by eapply later_trans| |done].
  intros H. pose proof (later_pos _ _ H1). pose proof (later_pos _ _ Hl). destruct (Hst H) as [H'|H']; [|lia].
  specialize (H2 H'). lia.
Qed.

Lemma wp_parses_trans {A} (m : M parser A) st st' ld wf s s' :
  wp m s' (parses st' ld wf s') -> later s s' -> (st = true -> st' = true \/ (pos s < pos s')%nat) ->
  wp m s' (parses st ld wf s).
Proof. intros H Hl Hst. eapply wp_mono; [done|]. intros o s''. by apply parses_trans. Qed.

(** The tail call of a loop. *)
Ltac tail :=
  eapply wp_parses_trans; [|eassumption|first [discriminate|intros _; right; lia|intros _; left; reflexivity]].

(** Steps that use the contracts in the context. *)
Ltac run :=
  repeat (first
    [step
    |match goal with
     | H : total _ _ _ _ ?m |- wp ?m _ _ => call H
     | H : forall a p, total _ _ _ _ (?e a p) |- wp (?e ?a ?p) _ _ => call (H a p)
     end]).

Lemma tuple_types_total n parse maybe k fuel acc s :
  total fuel true (negb maybe) (fun x => type_shaped x = true) parse ->
  (fuel <= n)%nat -> inv s -> (bytes_left s < fuel)%nat ->
  (messages s = [] -> Forall (fun x => type_shaped x = true) acc) ->
  wp (tuple_types n parse maybe k acc) s
    (parses true (negb maybe) (Forall (fun x => type_shaped x = true)) s).
Proof.
  revert fuel acc s. induction n as [|n IH]; intros fuel acc s Hp Hn Hi Hf Ha; [lia|].
  cbn [tuple_types]. run;
    (tail; apply (IH (fuel - 1)%nat);
     [eapply total_le; [done|lia]|lia|inv_solve|fuel_solve
     |intros; fold_shape; apply Forall_app; repeat constructor; auto]).
Qed.

Lemma append_list_shaped k x : type_shaped x = true -> type_shaped (append_list k x) = true.
Proof.
  induction x as [y t f c IH] using node_ind'. destruct c as [|c cs]; [done|].
  cbn [append_list type_shaped forallb]. rewrite !andb_true_iff. intros [[Hy Ha] [Hc Hcs]].
  apply Forall_inv in IH.
  destruct (children c) as [|c' cs'] eqn:Ec.
  - unfold node. cbn [type_shaped forallb length]. rewrite Hy, Hc, Hcs.
    rewrite is_type_In in Hy. cbn in Hy.
    repeat (destruct Hy as [<-|Hy]; [first [reflexivity|vm_compute in Ha; discriminate Ha]|]). done.
  - cbn [type_shaped forallb length]. rewrite Hy, Hcs, IH by done.
    cbn [length] in Ha. by rewrite Ha.
Qed.

Lemma list_suffixes_total n maybe x first s :
  inv s -> (bytes_left s < n)%nat -> (messages s = [] -> type_shaped x = true) ->
  wp (list_suffixes n maybe x first) s
    (parses false (negb maybe) (fun x => type_shaped x = true) s).
Proof.
  revert x first s. induction n as [|n IH]; intros x first s Hi Hf Hx; [lia|].
  cbn [list_suffixes]. run.
  tail. apply IH; [inv_solve|fuel_solve|].
  intros. fold_shape. destruct first; [|by apply append_list_shaped].
  cbn. by rewrite Hx.
Qed.

Lemma err_type_total parse maybe k fuel :
  total fuel true (negb maybe) (fun x => type_shaped x = true) parse ->
  total fuel true (negb maybe)
    (fun l => exists x, l = [x] /\ type_shaped x = true) (err_type parse maybe k).
Proof. intros Hp s Hi Hf. unfold err_type. run. eauto. Qed.

Lemma tuple_type_total n parse maybe k fuel :
  total fuel true (negb maybe) typed parse -> (fuel <= n)%nat ->
  total fuel true (negb maybe) (fun l => (2 <= length l)%nat /\ Forall typed l)
    (tuple_type n parse maybe k).
Proof.
  intros Hp Hn s Hi Hf. unfold tuple_type.
  assert (total fuel true (negb maybe) (Forall typed) (tuple_types n parse maybe k [])) as Ht.
  { intros s' Hi' Hf'. by eapply tuple_types_total. }
  run. split; [|done]. apply Nat.ltb_ge. done.
Qed.

Lemma Forall_forallb {A} (p : A -> bool) l : Forall (fun x => p x = true) l <-> forallb p l = true.
Proof. rewrite forallb_forall, Forall_forall. done. Qed.

Lemma type_node_shaped y k (c : list Node) :
  is_type y (T_LIST :: type_tokens) = true -> arity_ok y (length c) = true -> Forall typed c ->
  type_shaped (node y k c) = true.
Proof. intros Hy Ha Hc%Forall_forallb. unfold node. cbn [type_shaped]. by rewrite Hy, Ha, Hc. Qed.

Lemma is_type_cons y z l : is_type y l = true -> is_type y (z :: l) = true.
Proof. unfold is_type. cbn. intros ->. apply orb_true_r. Qed.

Lemma ParseType_total fuel maybe allowVoid allowTuple :
  total fuel true (negb maybe) typed (ParseType fuel maybe allowVoid allowTuple).
Proof.
  revert maybe allowVoid allowTuple.
  induction fuel as [|f IH]; intros maybe allowVoid allowTuple s Hi Hf; [lia|].
  pose proof (fun k => tuple_type_total f _ maybe k f (IH maybe false false) ltac:(lia)) as Htuple.
  pose proof (fun k => err_type_total _ maybe k f (IH maybe true false)) as Herr.
  cbn [ParseType]. run.
  - call (Htuple k). tail. apply list_suffixes_total; [done|lia|]. intros. fold_shape. destruct_and!.
    apply type_node_shaped; [by apply is_type_cons| |done].
    destruct x as [|? [|? ?]]; cbn in *; try lia. by rewrite Heqb2.
  - call (Herr k). tail. apply list_suffixes_total; [done|lia|]. intros. fold_shape.
    match goal with H : exists x, _ |- _ => destruct H as (x' & -> & Hx') end.
    apply type_node_shaped; [by apply is_type_cons| |by repeat constructor]. by rewrite Heqb3.
  - tail. apply list_suffixes_total; [done|lia|]. intros. fold_shape.
    apply type_node_shaped; [by apply is_type_cons| |constructor].
    apply (is_type_arity _ [T_INT; T_FLOAT; T_STR; T_BOOL; T_VOID; T_ANYTYPE; T_IDENTIFIER]); [|done].
    rewrite is_type_In in *. rewrite Z.eqb_neq in *. cbn in Heqb |- *. intuition congruence.
Qed.

(** ** Expressions *)

(** A node with the right number of well-shaped children. *)
Lemma shaped_node y k (c : list Node) :
  arity_ok y (length c) = true -> Forall shaped c -> well_shaped (node y k c) = true.
Proof. intros Ha Hc%Forall_forallb. unfold node. cbn [well_shaped]. by rewrite Ha, Hc. Qed.

Lemma shaped_flags y k fl (c : list Node) :
  arity_ok y (length c) = true -> Forall shaped c -> well_shaped (MkNode y k fl c) = true.
Proof. apply (shaped_node y k c). Qed.

Lemma shaped_arguments (c : list Node) :
  Forall shaped c -> well_shaped (node T_ARGUMENTS token0 c) = true.
Proof. intros. by apply shaped_node. Qed.

Lemma children_node y k c : children (node y k c) = c.
Proof. done. Qed.

Create HintDb shapes.
#[export] Hint Resolve type_well_shaped shaped_arguments : shapes.

(** Solve a goal about the shape of a node just built. *)
Ltac shape_solve :=
  intros; fold_shape;
  repeat match goal with
  | H : _ /\ _ |- _ => destruct H
  | |- well_shaped (node _ _ _) = true => apply shaped_node
  | |- well_shaped (MkNode _ _ _ _) = true => apply shaped_flags
  | |- Forall _ (_ :: _) => apply Forall_cons
  | |- Forall _ [] => apply Forall_nil
  | |- Forall _ (_ ++ _) => apply Forall_app
  | |- _ /\ _ => split
  | H : token_type ?k = _ |- arity_ok (token_type ?k) _ = true => rewrite H
  | |- arity_ok _ _ = true => first [reflexivity | eapply is_type_arity; [eassumption|reflexivity]]
  end; eauto with shapes.

(** A loop that collects nodes ends within its bound. *)
Ltac loop_tail IH fuel :=
  tail; apply (IH (fuel - 1)%nat);
  [eapply total_le; [done|lia]|lia|inv_solve|fuel_solve|shape_solve].

Lemma call_arguments_total n parse fuel acc s :
  total fuel true true shaped parse -> (fuel <= n)%nat -> inv s -> (bytes_left s < fuel)%nat ->
  (messages s = [] -> Forall shaped acc) ->
  wp (call_arguments n parse acc) s (parses true true (Forall shaped) s).
Proof.
  revert fuel acc s. induction n as [|n IH]; intros fuel acc s Hp Hn Hi Hf Ha; [lia|].
  cbn [call_arguments]. run; loop_tail IH fuel.
Qed.

Lemma list_items_total n parse fuel acc s :
  total fuel true true shaped parse -> (fuel <= n)%nat -> inv s -> (bytes_left s < fuel)%nat ->
  (messages s = [] -> Forall shaped acc) ->
  wp (list_items n parse acc) s (parses true true (Forall shaped) s).
Proof.
  revert fuel acc s. induction n as [|n IH]; intros fuel acc s Hp Hn Hi Hf Ha; [lia|].
  cbn [list_items]. run; loop_tail IH fuel.
Qed.

Lemma ParseCall_total n parse fuel x s :
  total fuel true true shaped parse -> (fuel <= n)%nat -> inv s -> (bytes_left s < fuel)%nat ->
  (messages s = [] -> well_shaped x = true) ->
  wp (ParseCall n parse x) s
    (parses true true (fun c => well_shaped c = true /\ length (children c) = 2%nat) s).
Proof.
  intros Hp Hn Hi Hf Hx. unfold ParseCall.
  assert (total fuel true true (Forall shaped) (call_arguments n parse [])) as Ha.
  { intros s' Hi' Hf'. by eapply call_arguments_total. }
  run. split; [|done]. shape_solve.
Qed.

(** *** String literals *)

Lemma tables_no_string :
  Forall (fun e => e.2 <> T_STRING_LITERAL) operators2 /\
  Forall (fun e => e.2 <> T_STRING_LITERAL) operators1 /\
  Forall (fun e => e.2 <> T_STRING_LITERAL) keywords.
Proof. split_and!; repeat constructor; discriminate. Qed.

(** Where the text of a string literal is. *)
Definition literal_inside (t : Tokenizer) (l : lexed) : Prop :=
  match l with
  | Lexed t' k _ =>
      token_type k = T_STRING_LITERAL ->
      (position t < textStart k)%nat /\ (textStart k + length (text k) < position t')%nat
  | LexFault => True
  end.

Lemma lex_token_literal t c c1 : (position t < inputBytes t)%nat -> literal_inside t (lex_token t c c1).
Proof.
  intros Hlt. destruct tables_no_string as (H2 & H1 & Hk). rewrite Forall_forall in H2, H1, Hk.
  unfold lex_token.
  destruct (lookup2 _ _ _) eqn:E2; [intros Hy; by apply lookup2_In, H2 in E2|].
  destruct (lookup1 _ _) eqn:E1; [intros Hy; by apply lookup1_In, H1 in E1|].
  destruct (is_letter c || _).
  { unfold lex_identifier. destruct (lookup_keyword _ _) eqn:E.
    - intros Hy. by apply lookup_keyword_In, Hk in E.
    - by destruct (c =? 35). }
  destruct (is_digit c); [unfold lex_number; cbn; by destruct (_ && _)|].
  destruct (c =? 34); [|done]. unfold lex_string.
  destruct (scan_string _ _ _ _) as [e| |] eqn:E; cbn; try done. intros _.
  apply scan_string_end in E. rewrite length_drop in E. unfold segment.
  rewrite length_take, length_drop. fold (inputBytes t) in *. unfold inputBytes in *. lia.
Qed.

Lemma lex_literal_inside t : in_input t -> literal_inside t (lex t).
Proof.
  unfold lex. generalize (S (inputBytes t - position t)) as fuel, token0 as k.
  intros fuel. revert t; induction fuel as [|fuel IH]; intros t k Hin; [done|]. cbn [lex_loop].
  destruct (Nat.eqb_spec (position t) (inputBytes t)) as [|Hp]; [done|].
  destruct (input t !! position t) as [c|] eqn:Ec; [|done]. apply lookup_lt_Some in Ec as Hlt.
  fold (inputBytes t) in Hlt.
  assert (forall n t', t' = advance n t \/ t' = next_line (advance n t) ->
    (position t + n <= inputBytes t)%nat -> forall k, literal_inside t (lex_loop fuel t' k)) as Hskip.
  { intros n t' Ht' Hn k'. assert (in_input t') as Hin' by (destruct Ht' as [->| ->]; unfold in_input; cbn; done).
    specialize (IH t' k' Hin'). destruct (lex_loop fuel t' k') as [t'' k'' m|]; [|done]. cbn in *.
    intros Hy. destruct (IH Hy). assert (position t' = position t + n)%nat by (by destruct Ht' as [->| ->]). lia. }
  destruct (is_blank c); [apply (Hskip 1%nat); [auto|lia]|].
  destruct (c =? 10); [apply (Hskip 1%nat); [auto|lia]|].
  destruct ((c =? 47) && _); [|by apply lex_token_literal].
  eapply Hskip; [by left|]. pose proof (comment_length_le (drop (position t) (input t))) as Hl.
  rewrite length_drop in Hl. fold (inputBytes t) in Hl. lia.
Qed.

(** A parse on a copy of the tokenizer at another position. *)
Lemma wp_on_copy {A} fuel (wf : A -> Prop) (m : M parser A) p s Q :
  total fuel true true wf m -> inv s -> (p <= inputBytes (tokenizer s))%nat ->
  (inputBytes (tokenizer s) - p < fuel)%nat ->
  (forall a t s', later s s' -> pos s' = pos s -> (p <= position t)%nat -> (messages s' = [] -> wf a) ->
     Q (Ok (a, t)) s') ->
  (forall s', later s s' -> messages s' <> [] -> Q RetFalse s') ->
  (forall r s', r <> OutOfFuel -> Q (Stop r) s') -> wp (on_copy (set_position p) m) s Q.
Proof.
  intros Hm [Hin He] Hp Hf HO HR HS. unfold wp, on_copy.
  set (s1 := set_tokenizer _ _).
  assert (inv s1) as Hi1 by (split; [exact Hp|exact He]).
  specialize (Hm s1 Hi1 Hf). unfold wp in Hm.
  assert (forall s'', later s1 s'' -> later s (set_tokenizer (tokenizer s) s'')) as Hl.
  { intros s'' [[_ He''] _ _ _ Hmsg]. constructor; cbn; try done. split; cbn; [done|].
    intros ?. apply Hmsg, He. done. }
  destruct (m s1) as [[a| |r] s'']; cbn in *.
  - destruct Hm as (H1 & _ & H3). apply HO; [by apply Hl|done|apply (later_pos _ _ H1)|done].
  - destruct Hm as (H1 & H2). apply HR; [by apply Hl|by apply H2].
  - by apply HS.
Qed.

Definition pending_shaped (p : option (Node * Node)) : Prop :=
  match p with Some (a, b) => well_shaped a = true /\ well_shaped b = true | None => True end.

Lemma string_node_shaped k p out : pending_shaped p -> well_shaped (string_node k p out) = true.
Proof.
  destruct p as [[a b]|]; [|reflexivity]. intros [Ha Hb]. apply shaped_node; [done|].
  repeat constructor; done.
Qed.

Lemma string_contents_total n parse k fuel p out count i s :
  total fuel true true shaped parse -> inv s ->
  (textStart k + length (text k) < inputBytes (tokenizer s))%nat ->
  (inputBytes (tokenizer s) - textStart k <= fuel)%nat -> (length (text k) - i < n)%nat ->
  (messages s = [] -> pending_shaped p) ->
  wp (string_contents n parse k p out count i) s (parses false true shaped s).
Proof.
  intros Hp. revert p out count i s.
  induction n as [|n IH]; intros p out count i s Hi Hk Hf Hn Hpd; [lia|].
  cbn [string_contents]. destruct (text k !! i) as [c|] eqn:Ec.
  2:{ run. intros. by apply string_node_shaped, Hpd. }
  apply lookup_lt_Some in Ec.
  destruct (c =? 92).
  { run. apply IH; [done..|lia|done]. }
  destruct (c =? 37).
  { step. apply (wp_on_copy fuel shaped); [done|done|lia|lia| |intros; note_later s'; by run|intros; by run].
    intros e t s' Hl Hpos Ht He. note_later s'. cbn beta iota. tail.
    assert (inputBytes (tokenizer s') = inputBytes (tokenizer s)) as Hib
      by (unfold inputBytes; by rewrite (later_input _ _ Hl)).
    apply IH; [done|rewrite Hib; done..|lia|].
    intros. fold_shape. split; [by apply string_node_shaped, Hpd|done]. }
  run. apply IH; [done..|lia|done].
Qed.

Lemma parse_operand_total f expr k s0 s :
  (forall a p, total f true true shaped (expr a p)) -> later s0 s -> inv s0 ->
  (pos s0 < pos s)%nat -> (bytes_left s0 <= f)%nat ->
  (token_type k = T_STRING_LITERAL ->
     (pos s0 < textStart k)%nat /\ (textStart k + length (text k) < pos s)%nat) ->
  wp (parse_operand f expr k) s (parses false true shaped s).
Proof.
  intros He Hl Hi Hpos Hf Hk. pose proof (later_inv _ _ Hl) as Hi'.
  pose proof (later_left _ _ Hi Hl).
  assert (total f true true (Forall shaped) (list_items f (expr false 0) [])) as Hitems.
  { intros s' ? ?. by eapply (list_items_total _ _ f). }
  pose proof (ParseType_total f false false false) as Htype. cbn [negb] in Htype.
  unfold parse_operand. run; try (by shape_solve).
  - destruct (Hk ltac:(done)) as [Hk1 Hk2]. destruct Hi' as [Hin ?]. unfold in_input in Hin.
    eapply (string_contents_total _ _ _ f); [done|done|lia| |lia|done]. unfold bytes_left in *. lia.
  - cbn [option_list]. destruct (token_type k =? T_MINUS) eqn:Em; [by shape_solve|].
    apply shaped_node; [|shape_solve].
    apply (is_type_arity _ [T_LOGICAL_NOT; T_BITWISE_NOT]); [|done].
    match goal with H : is_type _ [_; _; _] = true |- _ => revert H end.
    unfold is_type. cbn [existsb]. by rewrite Em.
  - cbn [option_list]. shape_solve.
Qed.

Lemma parse_cast_total f x s :
  inv s -> (bytes_left s < f)%nat -> (messages s = [] -> well_shaped x = true) ->
  wp (parse_cast f x) s
    (parses true true (fun c => Forall shaped (children c) /\ length (children c) = 2%nat) s).
Proof.
  intros Hi Hf Hx. pose proof (ParseType_total f false false false) as Htype. cbn [negb] in Htype.
  unfold parse_cast. run. rewrite children_node. split; [|done]. shape_solve.
Qed.

Lemma parse_operation_total f expr x s :
  (forall a p, total f true true shaped (expr a p)) -> inv s -> (bytes_left s < f)%nat ->
  (messages s = [] -> well_shaped x = true) ->
  wp (parse_operation f expr x) s (parses true true shaped s).
Proof.
  intros He Hi Hf Hx. unfold parse_operation.
  assert (forall m name s', (wp m s' (parses true true
      (fun c => Forall shaped (children c) /\ length (children c) = 2%nat) s')) -> later s s' ->
    wp m s' (fun o s'' => match o with
                          | Ok c => wp (ret (node T_COLON name (children c))) s'' (parses true true shaped s)
                          | RetFalse => parses true true shaped s RetFalse s''
                          | Stop r => parses true true shaped s (Stop r) s''
                          end)) as Hend.
  { intros m name s' Hm Hl. note_later s'. eapply wp_mono; [done|].
    intros [c| |r] s'' Hr; cbn beta iota; [|destruct Hr; split; [by eapply later_trans|done]|done].
    destruct Hr as (Hl' & Hp & Hc). specialize (Hp eq_refl). note_later s''. run.
    destruct Hc as [Hsh Hlen]. apply shaped_node; [|done]. by rewrite Hlen. }
  run; (apply Hend; [|done]).
  - apply parse_cast_total; [done|lia|intros; fold_shape; done].
  - eapply wp_mono; [eapply (ParseCall_total _ _ f); [done|lia|done|lia|intros; fold_shape; done]|].
    intros [c| |r] s'; cbn; try done. intros (Hl & Hp & Hc). split_and!; [done..|].
    intros Hm. destruct (Hc Hm) as [Hsh ?]. split; [|done]. destruct c as [y t fl c]. cbn in Hsh.
    apply andb_true_iff in Hsh as [_ Hsh]. by apply Forall_forallb.
Qed.

Definition option_shaped (o : option Node) : Prop :=
  match o with Some x => well_shaped x = true | None => True end.

(** A pass that does not end the expression moves on. *)
Lemma parse_suffix_total f expr b p x s :
  (forall a p, total f true true shaped (expr a p)) -> inv s -> (bytes_left s < f)%nat ->
  (messages s = [] -> well_shaped x = true) ->
  wp (parse_suffix f expr b p x) s (fun o s' =>
    parses (match o with Ok None => false | _ => true end) true option_shaped s o s').
Proof.
  intros He Hi Hf Hx. unfold parse_suffix. run.
  all: try (by unfold option_shaped; shape_solve).
  - use (parse_operation_total f expr x s0 He ltac:(done) ltac:(lia) ltac:(intros; fold_shape; auto)).
    run.
  - unfold option_shaped. shape_solve. rewrite <- Z.add_opp_r.
    apply (is_type_arity _ [T_ADD; T_MINUS; T_ASTERISK; T_SLASH]); [|done].
    match goal with H : is_type _ [T_ADD_EQUALS; _; _; _] = true |- _ => revert H end.
    rewrite !is_type_In. cbn. intros [<-|[<-|[<-|[<-|[]]]]]; auto.
  - use (ParseCall_total f _ f x s0 (He false 0) ltac:(lia) ltac:(done) ltac:(lia)
           ltac:(intros; fold_shape; auto)).
    run. destruct_and!. done.
Qed.

Lemma expression_tail_total n f expr b p x s :
  (forall a p, total f true true shaped (expr a p)) -> inv s -> (bytes_left s < n)%nat -> (n <= f)%nat ->
  (messages s = [] -> well_shaped x = true) ->
  wp (expression_tail n f expr b p x) s (parses false true shaped s).
Proof.
  intros He. revert x s; induction n as [|n IH]; intros x s Hi Hn Hf Hx; [lia|].
  cbn [expression_tail]. step.
  eapply wp_mono; [apply parse_suffix_total; [done|done|lia|done]|].
  intros [[x'|]| |r] s' Hr; cbn beta iota.
  - destruct Hr as (Hl & Hp & Hw). specialize (Hp eq_refl). note_later s'. tail.
    apply IH; [done|lia|lia|done].
  - destruct Hr as (Hl & Hp & Hw). note_later s'. run.
  - destruct Hr. by split.
  - done.
Qed.

(** [TokenNext] with where a string literal is. *)
Lemma wp_TokenNext_literal s Q :
  inv s ->
  (forall k s', later s s' -> (token_type k = T_ERROR -> messages s' <> []) ->
     (1 < token_type k -> (pos s < pos s')%nat) ->
     (token_type k = T_STRING_LITERAL ->
        (pos s < textStart k)%nat /\ (textStart k + length (text k) < pos s')%nat) ->
 Q (Ok k) s') ->
  (forall s', Q (Stop OutOfBounds) s') -> wp TokenNext s Q.
Proof.
  intros Hi HO HS. unfold wp, TokenNext. destruct (lex (tokenizer s)) as [t k m|] eqn:E; cbn; [|auto].
  destruct (lex_inv s t k m Hi E) as (H1 & _ & H3 & H4).
  destruct Hi as [Hin He]. pose proof (lex_literal_inside _ Hin) as Hlit. rewrite E in Hlit.
  apply HO; [done|by destruct m| |done].
  intros Hk. apply H4; intros Hk'; rewrite Hk' in Hk; discriminate Hk.
Qed.

Lemma parse_operand_end f expr k :
  ~ 1 < token_type k -> parse_operand f expr k = fail k "Expected an expression.".
Proof.
  intros Hk.
  assert (forall y, 1 < y -> (token_type k =? y) = false) as Hy by (intros; lia).
  assert (forall l, forallb (Z.ltb 1) l = true -> is_type (token_type k) l = false) as Hl.
  { intros l Hl. destruct (is_type _ _) eqn:E; [|done]. by pose proof (is_type_real _ _ E Hl). }
  unfold parse_operand. by rewrite !Hy, !Hl by done.
Qed.

Lemma ParseExpression_total fuel b p : total fuel true true shaped (ParseExpression fuel b p).
Proof.
  revert b p. induction fuel as [|f IH]; intros b p s Hi Hf; [lia|].
  cbn [ParseExpression]. step.
  apply wp_TokenNext_literal; [done| |done]. intros k s' Hl He Hpos Hlit. note_later s'. fire. cbn beta iota.
  step; [by run|]. step.
  destruct (decide (1 < token_type k)) as [Hk|Hk]; [|rewrite parse_operand_end by done; by run].
  specialize (Hpos Hk).
  use (parse_operand_total f (ParseExpression f) k s s' IH Hl Hi Hpos ltac:(lia) Hlit).
  tail. apply expression_tail_total; [done|done|lia|lia|intros; fold_shape; auto].
Qed.

(** ** Statements *)

Ltac use_types f :=
  let H1 := fresh "Htype" in let H2 := fresh "Hmaybe" in let H3 := fresh "Hexpr" in
  pose proof (ParseType_total f false) as H1; pose proof (ParseType_total f true) as H2;
  pose proof (ParseExpression_total f) as H3; cbn [negb] in H1, H2.

Lemma if_declaration_total f : total f false true option_shaped (if_declaration f).
Proof.
  intros s Hi Hf. unfold if_declaration. use_types f. cbv zeta. run.
  unfold option_shaped. shape_solve.
Qed.

Lemma if_body_total f block :
  total (f - 1) true true shaped block -> total f true true shaped (if_body f block).
Proof. intros Hb s Hi Hf. unfold if_body. use_types f. run. shape_solve. Qed.

Lemma else_body_total f block nested body :
  total (f - 1) true true shaped block -> total (f - 1) true true shaped nested ->
  total f false true (fun l => Forall shaped l /\ (length l <= 1)%nat) (else_body f block nested body).
Proof.
  intros Hb Hn s Hi Hf. unfold else_body. use_types f. run;
    (split; [shape_solve|cbn; lia]).
Qed.

Lemma parse_if_total f block nested :
  total (f - 1) true true shaped block -> total (f - 1) true true shaped nested ->
  total f true true shaped (parse_if f block nested).
Proof.
  intros Hb Hn s Hi Hf. unfold parse_if. use_types f.
  pose proof (if_declaration_total f) as Hd. pose proof (if_body_total f block Hb) as Hbody.
  pose proof (fun body => else_body_total f block nested body Hb Hn) as Helse.
  run.
  call (Helse x1). run.
  destruct_and!. apply shaped_node; [done|]. constructor; [|constructor].
  apply shaped_node.
  - rewrite !length_app. cbn [length]. destruct x as [d|], x2 as [|? [|? ?]]; cbn in *; try lia; done.
  - apply Forall_app. split; [destruct x; cbn; auto|]. apply Forall_app. split; [shape_solve|done].
Qed.

Lemma declaration_group_total f n k acc s :
  (n <= f)%nat -> inv s -> (bytes_left s < n)%nat -> acc <> [] ->
  (messages s = [] -> Forall shaped acc) ->
  wp (declaration_group f n k acc) s (parses true true shaped s).
Proof.
  revert acc s. induction n as [|n IH]; intros acc s Hn Hi Hf Hne Ha; [lia|].
  cbn [declaration_group]. use_types f. run.
  - tail. apply IH; [lia|done|lia|by destruct acc|shape_solve].
  - apply shaped_node; [|shape_solve]. rewrite length_app. cbn [length].
    replace (length acc + 1)%nat with (S (length acc)) by lia. by destruct acc; [|reflexivity].
  - apply shaped_node; [|shape_solve]. rewrite !length_app. cbn [length].
    replace (length acc + 1 + 1)%nat with (S (S (length acc))) by lia. by destruct acc; [|reflexivity].
Qed.

Lemma is_declaration_total f : total f false true (fun _ => True) (is_declaration f).
Proof.
  intros s Hi Hf. unfold is_declaration. use_types f. run.
Qed.

Lemma parse_declaration_total f b : total f true true shaped (parse_declaration f b).
Proof.
  intros s Hi Hf. unfold parse_declaration. use_types f.
  run; try (by shape_solve).
  tail. apply declaration_group_total; [done|done|lia|done|shape_solve].
Qed.

Lemma ParseVariableDeclarationOrExpression_total f r b :
  total f true true shaped (ParseVariableDeclarationOrExpression f r b).
Proof.
  intros s Hi Hf. unfold ParseVariableDeclarationOrExpression. use_types f. cbv zeta.
  pose proof (is_declaration_total f) as Hd. pose proof (parse_declaration_total f b) as Hp.
  run; by shape_solve.
Qed.

Lemma loop_body_total f block k m :
  total (f - 1) true true shaped block -> total f true true shaped (loop_body block k m).
Proof. intros Hb s Hi Hf. unfold loop_body. run. Qed.

Lemma parse_while_total f block :
  total (f - 1) true true shaped block -> total f true true shaped (parse_while f block).
Proof.
  intros Hb s Hi Hf. unfold parse_while. use_types f.
  pose proof (fun k m => loop_body_total f block k m Hb) as Hl. run. shape_solve.
Qed.

Lemma parse_for_total f block :
  total (f - 1) true true shaped block -> total f true true shaped (parse_for f block).
Proof.
  intros Hb s Hi Hf. unfold parse_for. use_types f. cbv zeta.
  pose proof (fun k m => loop_body_total f block k m Hb) as Hl.
  pose proof (ParseVariableDeclarationOrExpression_total f) as Hv.
  run; shape_solve.
Qed.

Lemma return_values_total f n acc s :
  (n <= f)%nat -> inv s -> (bytes_left s < n)%nat -> (messages s = [] -> Forall shaped acc) ->
  wp (return_values f n acc) s
    (parses false true (fun l => Forall shaped l /\ (length acc <= length l)%nat) s).
Proof.
  revert acc s. induction n as [|n IH]; intros acc s Hn Hi Hf Ha; [lia|].
  cbn [return_values]. use_types f. run.
  tail. eapply wp_mono; [apply IH; [lia|done|lia|shape_solve]|].
  intros [l| |r] s' Hr; [|done..]. destruct Hr as (? & ? & Hw). split_and!; [done..|].
  intros Hm. destruct (Hw Hm) as [? Hlen]. rewrite length_app in Hlen. split; [done|lia].
Qed.

(** Behind a comma there is a second value. *)
Lemma return_tuple_total f x k s :
  inv s -> (bytes_left s < f)%nat -> (messages s = [] -> well_shaped x = true) ->
  peeked s k -> token_type k = T_COMMA ->
  wp (return_values f f [x]) s (parses true true (fun l => Forall shaped l /\ (2 <= length l)%nat) s).
Proof.
  intros Hi Hf Hx Hk Hy. use_types f. destruct f as [|n]; [lia|].
  cbn [return_values]. run; [|lia].
  tail. eapply wp_mono; [apply return_values_total; [lia|done|lia|shape_solve]|].
  intros [l| |r] s' Hr; done.
Qed.

Lemma return_node_shaped (l : list Node) :
  Forall shaped l -> (2 <= length l)%nat -> well_shaped (node T_RETURN_TUPLE token0 l) = true.
Proof.
  intros Hl Hlen. apply shaped_node; [|done]. destruct l as [|? [|? ?]]; cbn in Hlen; [lia..|reflexivity].
Qed.

Ltac return_tuple f k0 :=
  match goal with
  | |- wp (return_values f f [?x]) ?s _ =>
      use (return_tuple_total f x k0 s ltac:(done) ltac:(lia) ltac:(intros; fold_shape; auto)
             ltac:(done) ltac:(done));
      run; destruct_and!; by apply return_node_shaped
  end.

Lemma parse_return_total f y :
  is_type y [T_RETURN; T_ASSERT; T_RETERR] = true -> total f true true shaped (parse_return f y).
Proof.
  intros Hy s Hi Hf. unfold parse_return. use_types f. run; try (by shape_solve).
  - return_tuple f k0.
  - return_tuple f k1.
  - apply shaped_node; [|done]. assert (y = T_RETURN) as ->; [|reflexivity].
    rewrite is_type_In in Hy. destruct Hy as [<-|Hy]; [done|]. rewrite <- is_type_In in Hy. congruence.
Qed.

Lemma parse_statement_total f block nested r k t s :
  total (f - 1) true true shaped block -> total (f - 1) true true shaped nested ->
  inv s -> (bytes_left s < f)%nat -> peeked s t ->
  wp (parse_statement f block nested r k t) s (parses true true shaped s).
Proof.
  intros Hb Hn Hi Hf Ht. unfold parse_statement. use_types f. cbv zeta.
  pose proof (parse_if_total f block nested Hb Hn) as H1.
  pose proof (parse_while_total f block Hb) as H2. pose proof (parse_for_total f block Hb) as H3.
  pose proof (ParseVariableDeclarationOrExpression_total f) as Hv.
  run. call (parse_return_total f (token_type t) ltac:(done)). run.
Qed.

Lemma block_statements_total f n block nested r k acc s :
  total (f - 1) true true shaped block -> total (f - 1) true true shaped nested ->
  (n <= f)%nat -> inv s -> (bytes_left s < n)%nat -> (messages s = [] -> Forall shaped acc) ->
  wp (block_statements f n block nested r k acc) s (parses (negb r) true shaped s).
Proof.
  intros Hb Hn. revert acc s. induction n as [|n IH]; intros acc s Hle Hi Hf Ha; [lia|].
  cbn [block_statements]. run; try (by shape_solve).
  - intros Hr. destruct r; [done|]. cbn beta iota in *.
    match goal with
    | H : 1 < token_type ?k -> _, H' : token_type ?k = T_RIGHT_FANCY |- _ =>
        rewrite H' in H; specialize (H eq_refl)
    end. lia.
  - use (parse_statement_total f block nested r k k0 s0 Hb Hn ltac:(done) ltac:(lia) ltac:(done)).
    tail. apply IH; [lia|done|lia|shape_solve].
Qed.

(** A block needs one step of fuel more than it has bytes left: its last pass reads the
    closing bracket. *)
Lemma ParseIf_ParseBlock_total fuel :
  total (fuel - 1) true true shaped (ParseIf fuel) /\
  forall r, total (fuel - 1) (negb r) true shaped (ParseBlock fuel r).
Proof.
  induction fuel as [|f [IHi IHb]]; [split; [|intros r]; intros s Hi Hf; lia|].
  specialize (IHb false) as Hb. cbn [negb] in Hb.
  replace (S f - 1)%nat with f by lia. split.
  - cbn [ParseIf]. by apply parse_if_total.
  - intros r s Hi Hf. cbn [ParseBlock]. do 2 step. by apply block_statements_total.
Qed.

Lemma ParseBlock_total fuel r : total (fuel - 1) (negb r) true shaped (ParseBlock fuel r).
Proof. apply ParseIf_ParseBlock_total. Qed.

(** ** Definitions *)

Lemma function_arguments_total f n acc s :
  (n <= f)%nat -> inv s -> (bytes_left s < n)%nat -> (messages s = [] -> Forall shaped acc) ->
  wp (function_arguments f n acc) s (parses true true (Forall shaped) s).
Proof.
  revert acc s. induction n as [|n IH]; intros acc s Hle Hi Hf Ha; [lia|].
  cbn [function_arguments]. use_types f. cbv zeta.
  run; (tail; apply IH; [lia|done|lia|shape_solve]).
Qed.

Lemma function_body_total f :
  total f true true (fun b => Forall shaped b.1 /\ (length b.1 <= 1)%nat) (function_body f).
Proof.
  intros s Hi Hf. unfold function_body. pose proof (ParseBlock_total f false) as Hb. cbn [negb] in Hb.
  run; (split; [cbn; shape_solve|cbn; lia]).
Qed.

Lemma global_variable_total f name type s :
  inv s -> (bytes_left s < f)%nat -> (messages s = [] -> type_shaped type = true) ->
  wp (global_variable name type) s (parses true true shaped s).
Proof.
  intros Hi Hf Ht. unfold global_variable. cbv zeta. run; shape_solve.
Qed.

(** A definition of a function has its pointer type and at most a body. *)
Lemma ParseGlobal_total f b1 b2 :
  total f true true
    (fun x => well_shaped x = true /\ (b1 = false -> (1 <= length (children x) <= 2)%nat))
    (ParseGlobalVariableOrFunctionDefinition f b1 b2).
Proof.
  intros s Hi Hf. unfold ParseGlobalVariableOrFunctionDefinition. use_types f.
  pose proof (function_body_total f) as Hb.
  assert (total f true true (Forall shaped) (function_arguments f f [])) as Ha.
  { intros s' Hi' Hf'. by apply function_arguments_total. }
  cbv zeta. run.
  - split; [|intros _; cbn; destruct_and!; cbn in *; lia].
    destruct_and!. cbn [fst] in *. apply shaped_flags; [|shape_solve].
    match goal with H : (length ?l <= 1)%nat |- _ => destruct l as [|? [|? ?]]; cbn in *; try lia; reflexivity end.
  - split; [shape_solve|cbn; lia].
  - use (global_variable_total f k x s2 ltac:(done) ltac:(lia) ltac:(intros; fold_shape; auto)). run.
Qed.

Lemma set_type_shaped y x :
  well_shaped x = true -> arity_ok y (length (children x)) = true -> well_shaped (set_type y x) = true.
Proof.
  destruct x as [z k fl c]. intros Hx Ha. apply shaped_flags; [done|].
  cbn in Hx. apply andb_true_iff in Hx as [_ Hx]. by apply Forall_forallb.
Qed.

Lemma parse_functype_total f : total f true true shaped (parse_functype f).
Proof.
  intros s Hi Hf. unfold parse_functype. pose proof (ParseGlobal_total f false false) as Hg.
  run.
  destruct_and!. apply set_type_shaped; [done|].
  match goal with H : false = false -> _ |- _ => specialize (H eq_refl) end.
  destruct (children x) as [|? [|? [|? ?]]]; cbn in *; try lia; reflexivity.
Qed.

Lemma parse_handletype_total f : total f true true shaped (parse_handletype f).
Proof. intros s Hi Hf. unfold parse_handletype. use_types f. run; shape_solve. Qed.

Lemma inttype_constants_total f n acc s :
  (n <= f)%nat -> inv s -> (bytes_left s < n)%nat -> (messages s = [] -> Forall shaped acc) ->
  wp (inttype_constants f n acc) s (parses false true (Forall shaped) s).
Proof.
  revert acc s. induction n as [|n IH]; intros acc s Hle Hi Hf Ha; [lia|].
  cbn [inttype_constants]. use_types f.
  run; (tail; apply IH; [lia|done|lia|]); cbn [option_list]; shape_solve.
Qed.

Lemma parse_inttype_total f : total f true true shaped (parse_inttype f).
Proof.
  intros s Hi Hf. unfold parse_inttype. use_types f.
  assert (total f false true (Forall shaped) (inttype_constants f f [])) as Hc.
  { intros s' Hi' Hf'. by apply inttype_constants_total. }
  run; shape_solve.
Qed.

Lemma struct_fields_total f n acc s :
  (n <= f)%nat -> inv s -> (bytes_left s < n)%nat -> (messages s = [] -> Forall shaped acc) ->
  wp (struct_fields f n acc) s (parses false true (Forall shaped) s).
Proof.
  revert acc s. induction n as [|n IH]; intros acc s Hle Hi Hf Ha; [lia|].
  cbn [struct_fields]. use_types f.
  run; (tail; apply IH; [lia|done|lia|shape_solve]).
Qed.

Lemma parse_struct_total f : total f true true shaped (parse_struct f).
Proof.
  intros s Hi Hf. unfold parse_struct. use_types f.
  assert (total f false true (Forall shaped) (struct_fields f f [])) as Hc.
  { intros s' Hi' Hf'. by apply struct_fields_total. }
  run; shape_solve.
Qed.

Lemma import_path_shaped x :
  well_shaped x = true -> node_type x = T_STRING_LITERAL -> well_shaped (set_type T_IMPORT_PATH x) = true.
Proof.
  intros Hx Hy. apply set_type_shaped; [done|]. destruct x as [z k fl c]. cbn in Hx, Hy. subst z.
  apply andb_true_iff in Hx as [Hx _]. by destruct c.
Qed.

Lemma parse_import_total f : total f true true shaped (parse_import f).
Proof.
  intros s Hi Hf. unfold parse_import. use_types f. run.
  apply shaped_node; [done|]. constructor; [|constructor]. apply import_path_shaped; [done|].
  by apply Z.eqb_eq.
Qed.

Lemma LibraryLoad_total f dlopen name : total f false true (fun _ => True) (LibraryLoad dlopen name).
Proof.
  intros s [Hin He] Hf. unfold LibraryLoad. step. step.
  - step. cbv zeta. step.
    + unfold wp. by split_and!.
    + by apply (wp_fail (MkToken [] 0 0 0)); [|intros; split].
  - step. done.
Qed.

Lemma parse_library_total f dlopen : total f true true (fun _ => True) (parse_library dlopen).
Proof.
  intros s Hi Hf. unfold parse_library. pose proof (LibraryLoad_total f dlopen) as Hl.
  run.
  call (Hl (text k0)). run.
Qed.

Lemma parse_definition_total f dlopen y :
  total f true true (Forall shaped) (parse_definition f dlopen y).
Proof.
  intros s Hi Hf. unfold parse_definition. cbv zeta.
  pose proof (parse_functype_total f) as H1. pose proof (parse_handletype_total f) as H2.
  pose proof (parse_inttype_total f) as H3. pose proof (parse_struct_total f) as H4.
  pose proof (parse_import_total f) as H5. pose proof (parse_library_total f dlopen) as H6.
  pose proof (ParseGlobal_total f true true) as H7.
  run; shape_solve.
Qed.

Lemma root_definitions_total f dlopen n acc s :
  (n <= f)%nat -> inv s -> (bytes_left s < n)%nat -> (messages s = [] -> Forall shaped acc) ->
  wp (root_definitions f dlopen n acc) s (parses false true shaped s).
Proof.
  revert acc s. induction n as [|n IH]; intros acc s Hle Hi Hf Ha; [lia|].
  cbn [root_definitions]. run; [shape_solve|].
  call (parse_definition_total f dlopen (token_type k)).
  tail. apply IH; [lia|done|lia|shape_solve].
Qed.

Lemma ParseRoot_total f dlopen : total f false true shaped (ParseRoot f dlopen).
Proof.
  intros s Hi Hf. unfold ParseRoot. do 2 step.
  apply root_definitions_total; [done..|]. intros _. case_match; [constructor|].
  by repeat constructor.
Qed.

Lemma ParseRootREPL_total f : total (f - 1) false true shaped (ParseRootREPL f).
Proof.
  intros s Hi Hf. unfold ParseRootREPL. pose proof (ParseBlock_total f true) as Hb. cbn [negb] in Hb.
  run. shape_solve.
Qed.

(** ** The theorems *)

Lemma load_inv source : inv (load source).
Proof. split; cbn; [|done]. unfold in_input. cbn. lia. Qed.

(** C15.  For every program text the parser ends: with a tree, by returning [NULL], or by
    stopping on an assertion or on a read outside the text.  It returns [NULL] only
    after it has printed a message, and without a message the tree it returns has the
    shape that scope, type and code generation passes rely on. *)
Theorem parse_script_total dlopen source :
  match parse_script dlopen source with
  | (Ok n, s) => messages s = [] -> well_shaped n = true
  | (RetFalse, s) => messages s <> []
  | (Stop r, _) => r <> OutOfFuel
  end.
Proof.
  pose proof (ParseRoot_total (parse_fuel source) dlopen (load source) (load_inv source)) as H.
  unfold parse_script. unfold wp in H.
  destruct (ParseRoot _ _ _) as [[n| |r] s]; cbn in H.
  - apply H. unfold bytes_left, parse_fuel, inputBytes. cbn. lia.
  - apply H; [|done]. unfold bytes_left, parse_fuel, inputBytes. cbn. lia.
  - apply H. unfold bytes_left, parse_fuel, inputBytes. cbn. lia.
Qed.
