(* ===== verification/ScriptExpression.v ===== *)
(** * Printing and parsing expressions of the script language

    Expressions as a data type with their spelling: operands with the brackets that
    the precedences of [TokenLookupPrecedence] require and no others.  Parsing the
    spelling gives the tree of the expression back. *)

From Stdlib Require Import String Ascii.
From stdpp Require Import base list.
From S2P Require Import Prelude ScriptToken ScriptParser ScriptParserProofs.

(** ** Texts made of lexemes *)

(** Every lexeme behind a blank. *)
Definition text_of (ls : list lexeme) : bytes := concat (map (fun l => 32 :: spell l) ls).

Definition tail_ok (tl : bytes) : bool :=
  match tl with c :: _ => is_gap c | [] => true end.

(** The parser is in front of the lexemes [ls]. *)
Definition reads (s : parser) (ls : list lexeme) (tl : bytes) : Prop :=
  in_input (tokenizer s) /\ rest_of (tokenizer s) = text_of ls ++ tl /\ tail_ok tl = true.

(** Nothing was printed between two states. *)
Definition quiet (s s' : parser) : Prop :=
  messages s' = messages s /\ library s' = library s /\
  error (tokenizer s') = error (tokenizer s) /\ input (tokenizer s') = input (tokenizer s) /\
  isBaseModule (tokenizer s') = isBaseModule (tokenizer s).

#[export] Instance quiet_preorder : PreOrder quiet.
Proof. unfold quiet. split; [intros s|intros s1 s2 s3]; intuition congruence. Qed.

Lemma gap_separates l c rest : is_gap c = true -> separates l (c :: rest) = true.
Proof.
  intros Hc. assert (c = 32 \/ c = 9 \/ c = 13 \/ c = 10) as Hc'
    by (unfold is_gap, is_blank in Hc; lia).
  destruct l as [a|a b|w|w|raw]; cbn [separates]; try done;
    [|destruct Hc' as [->|[->|[->| ->]]]; done..].
  assert (lookup2 operators2 a c = None) as ->.
  { destruct (lookup2 _ _ _) as [y|] eqn:E; [|done]. apply lookup2_In in E.
    assert (Forall (fun e => is_gap e.1.2 = false) operators2) as H by (repeat constructor).
    rewrite Forall_forall in H. apply H in E. cbn in E. congruence. }
  rewrite bool_decide_eq_true_2 by done. destruct Hc' as [->|[->|[->| ->]]]; by destruct (a =? 47).
Qed.

Lemma text_separates l ls tl : tail_ok tl = true -> separates l (text_of ls ++ tl) = true.
Proof.
  intros Htl. destruct ls as [|l' ls]; [|by apply gap_separates].
  destruct tl as [|c tl]; [done|]. by apply gap_separates.
Qed.

(** Reading the next lexeme. *)
Lemma next_reads s l ls tl :
  reads s (l :: ls) tl -> lexeme_ok l = true ->
  exists k s', TokenNext s = (Ok k, s') /\ TokenPeek s = (Ok k, s) /\ reads s' ls tl /\ quiet s s' /\
    token_type k = lexeme_type l /\ text k = lexeme_text l.
Proof.
  intros (Hin & Hr & Htl) Hl.
  destruct (lex_gap_lexeme [32] l (text_of ls ++ tl) (tokenizer s)) as [Hlex Hrest];
    [done|done|by apply text_separates|by rewrite Hr; unfold text_of; cbn; rewrite <- app_assoc|].
  pose proof (lex_ok _ Hin) as Hok. rewrite Hlex in Hok. destruct Hok as (Hi & Hb & Hin' & _ & _ & Hn & _).
  destruct (Hn eq_refl) as (_ & He & _).
  eexists _, _. unfold TokenNext, TokenPeek. rewrite Hlex. split_and!; try reflexivity.
  - split_and!; done.
  - unfold quiet. cbn -[skip_gap]. done.
Qed.

(** ** Expressions *)

Inductive expr :=
  | EVariable (w : bytes)
  | ENumber (w : bytes)
  | EString (w : bytes)
  | EUnary (y : Z) (e : expr)
  | EBinary (y : Z) (a b : expr)
  | EDot (a : expr) (w : bytes)
  | EIndex (a b : expr)
  | ECall (a : expr) (l : list expr).

(** How the operators are written: node type, token type and lexeme. *)
Definition unary_table : list (Z * lexeme) :=
  [(T_NEGATE, LOp1 45); (T_LOGICAL_NOT, LOp1 33); (T_BITWISE_NOT, LOp1 126)].

Definition binary_table : list (Z * lexeme) :=
  [(T_ADD, LOp1 43); (T_MINUS, LOp1 45); (T_BITWISE_XOR, LOp2 126 124); (T_ASTERISK, LOp1 42);
   (T_SLASH, LOp1 47); (T_GREATER_THAN, LOp1 62); (T_LESS_THAN, LOp1 60);
   (T_BIT_SHIFT_LEFT, LOp2 60 60); (T_BIT_SHIFT_RIGHT, LOp2 62 62); (T_BITWISE_OR, LOp1 124);
   (T_BITWISE_AND, LOp1 38); (T_LT_OR_EQUAL, LOp2 60 61); (T_GT_OR_EQUAL, LOp2 62 61);
   (T_DOUBLE_EQUALS, LOp2 61 61); (T_NOT_EQUALS, LOp2 33 61); (T_LOGICAL_AND, LOp2 38 38);
   (T_LOGICAL_OR, LOp2 124 124)].

Fixpoint assoc (table : list (Z * lexeme)) (y : Z) : option lexeme :=
  match table with
  | [] => None
  | (z, l) :: table' => if y =? z then Some l else assoc table' y
  end.

Definition op_lexeme (table : list (Z * lexeme)) (y : Z) : lexeme := default (LWord []) (assoc table y).

(** The escapes of a string literal. *)
Definition escape_byte (c : Z) : bytes :=
  if c =? 92 then [92; 92] else if c =? 10 then [92; 110] else if c =? 13 then [92; 114]
  else if c =? 9 then [92; 116] else if c =? 37 then [92; 37] else if c =? 34 then [92; 34] else [c].

Definition escape (w : bytes) : bytes := concat (map escape_byte w).

(** How tightly an expression holds together. *)
Definition level (e : expr) : Z :=
  match e with
  | EUnary _ _ => 70
  | EBinary y _ _ => TokenLookupPrecedence y
  | _ => 110
  end.

Definition lparen : lexeme := LOp1 40.
Definition rparen : lexeme := LOp1 41.
Definition comma : lexeme := LOp1 44.

Definition separated {A} (sep : A) (ls : list (list A)) : list A :=
  match ls with
  | [] => []
  | x :: rest => x ++ concat (map (fun y => sep :: y) rest)
  end.

(** The spelling where an expression of level above [q] is needed. *)
Fixpoint print (q : Z) (e : expr) : list lexeme :=
  let body :=
    match e with
    | EVariable w => [LWord w]
    | ENumber w => [LNumber w]
    | EString w => [LString (escape w)]
    | EUnary y e => op_lexeme unary_table y :: print 70 e
    | EBinary y a b =>
        print (TokenLookupPrecedence y - 1) a ++ op_lexeme binary_table y ::
        print (TokenLookupPrecedence y) b
    | EDot a w => print 100 a ++ [LOp1 46; LWord w]
    | EIndex a b => print 100 a ++ [LOp1 91] ++ print 0 b ++ [LOp1 93]
    | ECall a l => print 100 a ++ [lparen] ++ separated comma (map (print 0) l) ++ [rparen]
    end in
  if q <? level e then body else lparen :: body ++ [rparen].

(** The tree of an expression. *)
Fixpoint tree (e : expr) : shape :=
  match e with
  | EVariable w => Shape T_VARIABLE w []
  | ENumber w => Shape (number_type w) w []
  | EString w => Shape T_STRING_LITERAL w []
  | EUnary y e => Shape y (lexeme_text (op_lexeme unary_table y)) [tree e]
  | EBinary y a b => Shape y (lexeme_text (op_lexeme binary_table y)) [tree a; tree b]
  | EDot a w => Shape T_DOT w [tree a]
  | EIndex a b => Shape T_INDEX [91] [tree a; tree b]
  | ECall a l => Shape T_CALL [40] [tree a; Shape T_ARGUMENTS [] (map tree l)]
  end.

(** The names are identifiers, the numbers are numerals, the operators exist. *)
Fixpoint expr_ok (e : expr) : bool :=
  match e with
  | EVariable w => lexeme_ok (LWord w) && (word_type w =? T_IDENTIFIER)
  | ENumber w => lexeme_ok (LNumber w)
  | EString w => true
  | EUnary y e => bool_decide (is_Some (assoc unary_table y)) && expr_ok e
  | EBinary y a b => bool_decide (is_Some (assoc binary_table y)) && expr_ok a && expr_ok b
  | EDot a w => expr_ok a && lexeme_ok (LWord w) && (word_type w =? T_IDENTIFIER)
  | EIndex a b => expr_ok a && expr_ok b
  | ECall a l => expr_ok a && forallb expr_ok l
  end.

Fixpoint size (e : expr) : nat :=
  match e with
  | EVariable _ | ENumber _ => 1
  | EString w => S (length (escape w))
  | EUnary _ e => S (size e)
  | EBinary _ a b | EIndex a b => S (size a + size b)
  | EDot a _ => S (size a)
  | ECall a l => S (size a + list_sum (map (fun e => S (size e)) l))
  end.

(** ** String literals *)

Lemma escape_app u v : escape (u ++ v) = escape u ++ escape v.
Proof. unfold escape. by rewrite map_app, concat_app. Qed.

(** An escaped byte is a plain character or an escape sequence. *)
Lemma escape_byte_cases c :
  (escape_byte c = [c] /\ c <> 92 /\ c <> 10 /\ c <> 37 /\ c <> 34) \/
  (exists x, escape_byte c = [92; x] /\ is_escape x = true /\ unescape x = Some c).
Proof.
  unfold escape_byte.
  repeat case_match; try (right; eexists; split; [reflexivity|]; split; [reflexivity|]; cbn; f_equal; lia).
  left. split_and!; [done|lia..].
Qed.

Lemma scan_escape w rest i n :
  exists m, scan_string (escape w ++ rest) i false n = scan_string rest (i + length (escape w)) false m.
Proof.
  revert i n; induction w as [|c w IH]; intros i n.
  { exists n. cbn. by rewrite Nat.add_0_r. }
  change (escape (c :: w)) with (escape_byte c ++ escape w).
  destruct (escape_byte_cases c) as [(-> & H1 & H2 & H3 & H4)|(x & -> & Hx & _)];
    cbn [app scan_string length].
  - rewrite (proj2 (Z.eqb_neq _ _) H1), (proj2 (Z.eqb_neq _ _) H2), (proj2 (Z.eqb_neq _ _) H3),
      (proj2 (Z.eqb_neq _ _) H4). destruct (IH (S i) (S n)) as [m ->]. exists m. f_equal. lia.
  - rewrite Hx. change (92 =? 10) with false. cbn beta iota.
    destruct (IH (S (S i)) (S n)) as [m Hm]. exists m. cbn. rewrite Hm. f_equal. lia.
Qed.

Lemma raw_ok_escape w : raw_ok (escape w) = true.
Proof.
  unfold raw_ok. destruct (scan_escape w [34] 0 1) as [m ->]. cbn. apply Nat.eqb_refl.
Qed.

Lemma length_escape w : (length w <= length (escape w))%nat.
Proof.
  induction w as [|c w IH]; [done|]. change (escape (c :: w)) with (escape_byte c ++ escape w).
  rewrite length_app. destruct (escape_byte_cases c) as [(-> & _)|(x & -> & _)]; cbn; lia.
Qed.

Lemma string_contents_escape n parse k u v s :
  text k = escape (u ++ v) -> (length (escape v) < n)%nat ->
  string_contents n parse k None u (length u) (length (escape u)) s
  = (Ok (string_node k None (u ++ v)), s).
Proof.
  revert u n; induction v as [|c v IH]; intros u n Hk Hn; destruct n as [|n]; try lia;
    cbn [string_contents].
  { rewrite app_nil_r in *. rewrite Hk, lookup_ge_None_2 by lia. done. }
  change (escape (c :: v)) with (escape_byte c ++ escape v) in Hn. rewrite length_app in Hn.
  assert (escape (u ++ c :: v) = escape u ++ escape_byte c ++ escape v) as He
    by (by rewrite escape_app).
  pose proof (length_escape u). pose proof (length_escape v).
  specialize (IH (u ++ [c])). rewrite <- !app_assoc in IH. cbn [app] in IH.
  rewrite (escape_app u [c]), !length_app in IH. cbn [length] in IH.
  assert (escape [c] = escape_byte c) as Hc by (unfold escape; cbn; apply app_nil_r).
  rewrite Hc in IH.
  replace (length u + 1)%nat with (S (length u)) in IH by lia.
  rewrite Hk, He.
  destruct (escape_byte_cases c) as [(E & H1 & H2 & H3 & H4)|(x & E & Hx & Hu)]; rewrite E in *;
    cbn [length app] in *.
  - rewrite lookup_app_r, Nat.sub_diag by lia. cbn [lookup list_lookup].
    rewrite (proj2 (Z.eqb_neq _ _) H1), (proj2 (Z.eqb_neq _ _) H3).
    rewrite (proj2 (Nat.eqb_neq _ _)) by (rewrite length_app; cbn; lia). cbn [negb assert].
    unfold bind at 1. cbn [ret].
    replace (S (length (escape u))) with (length (escape u) + 1)%nat by lia. apply IH; [done|lia].
  - rewrite lookup_app_r, Nat.sub_diag by lia. cbn [lookup list_lookup].
    change (92 =? 92) with true. cbn beta iota.
    rewrite (proj2 (Nat.eqb_neq (length (escape u)) _)) by (rewrite length_app; cbn; lia).
    rewrite lookup_app_r by lia. replace (S (length (escape u)) - length (escape u))%nat with 1%nat by lia.
    rewrite (proj2 (Nat.eqb_neq (length u) _)) by (rewrite length_app; cbn; lia).
    cbn [negb assert lookup list_lookup lift_opt]. unfold bind, ret. cbn beta iota. rewrite Hu.
    cbn [lift_opt]. unfold ret.
    replace (S (S (length (escape u)))) with (length (escape u) + 2)%nat by lia. apply IH; [done|lia].
Qed.

(** ** Suffixes of an operand *)

(** How tightly a token binds to the operand in front of it. *)
Definition binding (y : Z) : Z :=
  if is_type y binary_tokens then TokenLookupPrecedence y
  else if y =? T_LEFT_ROUND then 100
  else if is_type y [T_DOT; T_COLON] then 80
  else if y =? T_LEFT_SQUARE then 101
  else 0.

Lemma assoc_In table y l : assoc table y = Some l -> In (y, l) table.
Proof.
  induction table as [|[z l'] table IH]; cbn; [done|].
  destruct (Z.eqb_spec y z) as [->|]; [intros; simplify_eq; by left|auto].
Qed.

(** What the table of binary operators says. *)
Definition binary_entry_ok (e : Z * lexeme) : bool :=
  let (y, l) := e in
  lexeme_ok l && (lexeme_type l =? y) && is_type y binary_tokens
  && negb (is_type y assignment_tokens) && negb (is_type y [T_ERROR; T_DOT; T_COLON])
  && (10 <? TokenLookupPrecedence y) && (TokenLookupPrecedence y <=? 60).

Definition unary_entry_ok (e : Z * lexeme) : bool :=
  let (y, l) := e in
  lexeme_ok l && is_type (lexeme_type l) [T_LOGICAL_NOT; T_MINUS; T_BITWISE_NOT]
  && ((if lexeme_type l =? T_MINUS then T_NEGATE else lexeme_type l) =? y)
  && (TokenLookupPrecedence y =? 70).

Lemma tables_ok : forallb binary_entry_ok binary_table = true /\ forallb unary_entry_ok unary_table = true.
Proof. split; vm_compute; reflexivity. Qed.

Lemma binary_facts y :
  is_Some (assoc binary_table y) ->
  lexeme_ok (op_lexeme binary_table y) = true /\ lexeme_type (op_lexeme binary_table y) = y /\
  is_type y binary_tokens = true /\ is_type y assignment_tokens = false /\
  is_type y [T_ERROR; T_DOT; T_COLON] = false /\ 10 < TokenLookupPrecedence y <= 60.
Proof.
  intros [l Hl]. unfold op_lexeme. rewrite Hl. change (default (LWord []) (Some l)) with l.
  apply assoc_In in Hl. pose proof (proj1 tables_ok) as H. rewrite forallb_forall in H.
  apply H in Hl. cbn [binary_entry_ok] in Hl. rewrite !andb_true_iff, !negb_true_iff in Hl.
  destruct_and!. split_and!; try done; lia.
Qed.

Lemma unary_facts y :
  is_Some (assoc unary_table y) ->
  let l := op_lexeme unary_table y in
  lexeme_ok l = true /\ is_type (lexeme_type l) [T_LOGICAL_NOT; T_MINUS; T_BITWISE_NOT] = true /\
  (if lexeme_type l =? T_MINUS then T_NEGATE else lexeme_type l) = y /\ TokenLookupPrecedence y = 70.
Proof.
  intros [l Hl]. unfold op_lexeme. rewrite Hl. change (default (LWord []) (Some l)) with l.
  apply assoc_In in Hl. pose proof (proj2 tables_ok) as H. rewrite forallb_forall in H.
  apply H in Hl. cbn [unary_entry_ok] in Hl. rewrite !andb_true_iff in Hl.
  destruct_and!. split_and!; try done; lia.
Qed.

Lemma is_type_cons_false y z l : is_type y (z :: l) = false -> (y =? z) = false /\ is_type y l = false.
Proof. unfold is_type. cbn. apply orb_false_iff. Qed.

(** At a token that does not bind tighter the expression ends. *)
Lemma suffix_stops f expr b p x s k :
  TokenPeek s = (Ok k, s) -> token_type k <> T_ERROR -> is_type (token_type k) assignment_tokens = false ->
  0 <= p <= 100 -> binding (token_type k) <= p -> b = false \/ token_type k <> T_COMMA ->
  parse_suffix f expr b p x s = (Ok None, s).
Proof.
  intros Hk Hne Hna Hp Hbind Hb. unfold parse_suffix. erewrite bind_ok by exact Hk.
  set (y := token_type k) in *. unfold binding in Hbind.
  rewrite (proj2 (Z.eqb_neq _ _) Hne), Hna. cbn [andb].
  apply is_type_cons_false in Hna as [Heq Hna]. unfold assignment_tokens in Hna. rewrite Hna.
  destruct (is_type y binary_tokens) eqn:Ebin.
  { rewrite (proj2 (Z.ltb_ge p _)) by lia. rewrite !andb_false_r. cbn [andb].
    assert (is_type y [T_LEFT_SQUARE; T_COMMA] = false) as Hy.
    { rewrite is_type_In in Ebin. cbn in Ebin. by repeat destruct Ebin as [<-|Ebin]. }
    apply is_type_cons_false in Hy as [-> Hy]. apply is_type_cons_false in Hy as [-> _]. done. }
  cbn [andb].
  destruct (Z.eqb_spec y T_LEFT_ROUND) as [->|Hround].
  { rewrite (proj2 (Z.ltb_ge p _)) by (vm_compute TokenLookupPrecedence; lia). done. }
  destruct (is_type y [T_DOT; T_COLON]) eqn:Edot.
  { rewrite is_type_In in Edot. cbn in Edot. 
    destruct Edot as [<-|[<-|[]]]; rewrite (proj2 (Z.ltb_ge p _)) by (vm_compute TokenLookupPrecedence; lia); done. }
  apply is_type_cons_false in Edot as [-> Edot]. apply is_type_cons_false in Edot as [-> _].
  cbn [andb]. destruct (y =? T_LEFT_SQUARE); [lia|].
  destruct Hb as [->|Hb]; [by rewrite andb_false_r|]. by rewrite (proj2 (Z.eqb_neq _ _) Hb).
Qed.

(** At a token that binds tighter the expression goes on. *)
Lemma suffix_binary f expr b p x s k :
  TokenPeek s = (Ok k, s) -> is_Some (assoc binary_table (token_type k)) ->
  p < TokenLookupPrecedence (token_type k) ->
  parse_suffix f expr b p x s =
  (let! k' := TokenNext in
   let! e := expr false (TokenLookupPrecedence (token_type k)) in
   ret (Some (node (token_type k') k' [x; e]))) s.
Proof.
  intros Hk Hy Hp. unfold parse_suffix. erewrite bind_ok by exact Hk.
  apply binary_facts in Hy as (_ & _ & Hbin & Hass & Hoth & _).
  rewrite Hass, Hbin. apply is_type_cons_false in Hoth as [-> Hoth].
  apply is_type_cons_false in Hoth as [-> Hoth]. apply is_type_cons_false in Hoth as [-> _].
  by rewrite (proj2 (Z.ltb_lt _ _) Hp).
Qed.

Lemma suffix_dot f expr b p x s k :
  TokenPeek s = (Ok k, s) -> token_type k = T_DOT -> p < 80 ->
  parse_suffix f expr b p x s =
  (TokenNext ;;;
   let! k := TokenNext in
   if token_type k =? T_IDENTIFIER then ret (Some (node T_DOT k [x]))
   else fail k "Expected an identifier for the struct field after '.'.") s.
Proof.
  intros Hk Hy Hp. unfold parse_suffix. erewrite bind_ok by exact Hk. rewrite Hy.
  change (TokenLookupPrecedence T_DOT) with 80. by rewrite (proj2 (Z.ltb_lt _ _) Hp).
Qed.

Lemma suffix_call f expr b p x s k :
  TokenPeek s = (Ok k, s) -> token_type k = T_LEFT_ROUND -> p < 100 ->
  parse_suffix f expr b p x s = (let! r := ParseCall f (expr false 0) x in ret (Some r)) s.
Proof.
  intros Hk Hy Hp. unfold parse_suffix. erewrite bind_ok by exact Hk. rewrite Hy.
  change (TokenLookupPrecedence T_LEFT_ROUND) with 100. by rewrite (proj2 (Z.ltb_lt _ _) Hp).
Qed.

Lemma suffix_index f expr b p x s k :
  TokenPeek s = (Ok k, s) -> token_type k = T_LEFT_SQUARE ->
  parse_suffix f expr b p x s =
  (TokenNext ;;;
   let! e := expr false 0 in
   let! k' := TokenNext in
   if token_type k' =? T_RIGHT_SQUARE then ret (Some (node T_INDEX k [x; e]))
   else fail k' "Expected a matching closing bracket.") s.
Proof.
  intros Hk Hy. unfold parse_suffix. erewrite bind_ok by exact Hk. by rewrite Hy.
Qed.

(** ** The theorem, by induction on the size *)

(** The lexemes behind an expression: the first does not bind tighter than [q]. *)
Definition follows (q : Z) (ls : list lexeme) : Prop :=
  match ls with
  | [] => False
  | l :: _ => lexeme_ok l = true /\ is_type (lexeme_type l) assignment_tokens = false /\
              binding (lexeme_type l) <= q
  end.

(** Reading [ls0] as [e] at precedence [p] leaves the loop over suffixes to do. *)
Definition parses_to (e : expr) (f : nat) (b : bool) (p : Z) (s : parser) (ls : list lexeme) (tl : bytes)
  : Prop :=
  exists x s' n, ParseExpression (S f) b p s = expression_tail n f (ParseExpression f) b p x s' /\
    shape_of x = tree e /\ reads s' ls tl /\ quiet s s' /\ (f < n + size e)%nat /\ (n <= f)%nat.

Lemma level_pos e : expr_ok e = true -> 10 < level e.
Proof.
  destruct e; cbn; try lia. rewrite !andb_true_iff. intros [[Hy%bool_decide_eq_true _] _].
  apply binary_facts in Hy. lia.
Qed.

(** Brackets only where the level is too low. *)
Lemma print_brackets q e :
  expr_ok e = true -> print q e = if q <? level e then print 0 e else lparen :: print 0 e ++ [rparen].
Proof.
  intros He%level_pos. destruct e; cbn [print]; rewrite ?(proj2 (Z.ltb_lt 0 _)) by lia; done.
Qed.

(** When the next token does not continue the expression, it is complete. *)
Lemma parses_to_stop e f b p s ls tl :
  parses_to e f b p s ls tl -> (size e <= f)%nat -> 0 <= p <= 100 -> follows p ls ->
  (b = true -> match ls with l :: _ => lexeme_type l <> T_COMMA | [] => True end) ->
  exists x s', ParseExpression (S f) b p s = (Ok x, s') /\ shape_of x = tree e /\ reads s' ls tl /\ quiet s s'.
Proof.
  intros (x & s' & n & -> & Hx & Hr & Hq & Hn & _) Hf Hp Hl Hb. exists x, s'. split_and!; try done.
  destruct n as [|n]; [lia|]. cbn [expression_tail].
  destruct ls as [|l ls]; [done|]. destruct Hl as (Hok & Hna & Hbind).
  destruct (next_reads s' l ls tl Hr Hok) as (k & s'' & _ & Hpk & _ & _ & Hy & _).
  pose proof (lexeme_type_ok l Hok).
  erewrite bind_ok; [|apply (suffix_stops _ _ _ _ _ _ k); rewrite ?Hy; try done]; [done| |].
  - intros He. rewrite He in *. change T_ERROR with 0 in *. lia.
  - destruct b; [right; auto|by left].
Qed.

Definition reads_bare (e : expr) : Prop :=
  forall p b f s ls tl, 0 <= p <= 70 -> p < level e -> (2 * size e - 1 <= f)%nat ->
  reads s (print 0 e ++ ls) tl -> follows (level e) ls -> parses_to e f b p s ls tl.

Definition reads_as (e : expr) : Prop :=
  forall q p b f s ls tl, 0 <= p <= 70 -> p <= q -> (2 * size e <= f)%nat ->
  reads s (print q e ++ ls) tl -> follows (q + 1) ls -> parses_to e f b p s ls tl.

Lemma follows_le q q' ls : follows q ls -> q <= q' -> follows q' ls.
Proof. destruct ls as [|l ls]; [done|]. intros (? & ? & ?) ?. split_and!; [done..|lia]. Qed.

Lemma follows_closing q l ls : In l [rparen; comma; LOp1 93; LOp1 59] -> 0 <= q -> follows q (l :: ls).
Proof. intros Hl Hq. cbn in Hl. by repeat destruct Hl as [<-|Hl]. Qed.

Lemma size_pos e : (1 <= size e)%nat.
Proof. destruct e; cbn; lia. Qed.

(** Read the lexeme in front of the parser. *)
Ltac next k s' Hn Hp Hy Ht :=
  match goal with
  | H : reads ?s (?l :: ?ls) ?tl |- _ =>
      let Hr := fresh "Hr" in let Hq := fresh "Hq" in
      destruct (next_reads s l ls tl H) as (k & s' & Hn & Hp & Hr & Hq & Hy & Ht);
      [try done|clear H]
  end.

(** The operand of an expression, then the loop. *)
Lemma ParseExpression_operand f b p s k s1 x s2 :
  TokenNext s = (Ok k, s1) -> token_type k <> T_ERROR ->
  parse_operand f (ParseExpression f) k s1 = (Ok x, s2) ->
  ParseExpression (S f) b p s = expression_tail f f (ParseExpression f) b p x s2.
Proof.
  intros Hk Hne Hx. cbn [ParseExpression]. erewrite bind_ok by exact Hk.
  rewrite (proj2 (Z.eqb_neq _ _) Hne). by erewrite bind_ok by exact Hx.
Qed.

(** The forms of an operand. *)
Lemma operand_round f expr k :
  token_type k = T_LEFT_ROUND ->
  parse_operand f expr k =
  (let! e := expr false 0 in
   let! token := TokenNext in
   if token_type token =? T_RIGHT_ROUND then ret e
   else fail token "Expected a matching closing bracket.").
Proof. intros H. unfold parse_operand. by rewrite H. Qed.

Lemma operand_unary f expr k :
  is_type (token_type k) [T_LOGICAL_NOT; T_MINUS; T_BITWISE_NOT] = true ->
  parse_operand f expr k =
  (let y := if token_type k =? T_MINUS then T_NEGATE else token_type k in
   let! e := try_result (expr false (TokenLookupPrecedence y)) in
   ret (node y k (option_list e))).
Proof.
  rewrite is_type_In. intros [H|[H|[H|[]]]]; unfold parse_operand; by rewrite <- H.
Qed.

Lemma bare_reads_as e : expr_ok e = true -> reads_bare e -> reads_as e.
Proof.
  intros He Hb q p b f s ls tl Hp Hpq Hf Hr Hl. rewrite print_brackets in Hr by done.
  pose proof (size_pos e). destruct (Z.ltb_spec q (level e)) as [Hq|Hq].
  { apply Hb; [done|lia|lia|done|]. eapply follows_le; [done|lia]. }
  cbn [app] in Hr. rewrite <- app_assoc in Hr. cbn [app] in Hr.
  next k s1 Hn Hpk Hy Ht. destruct f as [|f]; [lia|].
  destruct (parses_to_stop e f false 0 s1 (rparen :: ls) tl) as (x & s2 & Hx & Hsh & Hr2 & Hq2); [|lia|lia| |done|].
  { apply Hb; [lia|pose proof (level_pos e He); lia|lia|done|].
    apply follows_closing; [by left|pose proof (level_pos e He); lia]. }
  { apply follows_closing; [by left|lia]. }
  next k' s3 Hn' Hpk' Hy' Ht'.
  exists x, s3, (S f). split_and!; [|done|done|by repeat (etrans; [eassumption|])|lia|lia].
  eapply ParseExpression_operand; [done|by rewrite Hy|].
  rewrite operand_round by done. erewrite bind_ok by exact Hx. erewrite bind_ok by exact Hn'. by rewrite Hy'.
Qed.

(** The arguments of a call behind the first. *)
Lemma call_rest_reads n f l acc s ls tl :
  Forall reads_as l -> Forall (fun e => (2 * size e <= f)%nat) l -> (length l < n)%nat -> acc <> [] ->
  reads s (concat (map (fun y => comma :: y) (map (print 0) l)) ++ rparen :: ls) tl ->
  exists xs s', call_arguments n (ParseExpression (S f) false 0) acc s = (Ok (acc ++ xs), s') /\
    map shape_of xs = map tree l /\ reads s' ls tl /\ quiet s s'.
Proof.
  revert n acc s; induction l as [|e l IH]; intros n acc s Hl Hf Hn Hacc Hr; cbn in Hn;
    (destruct n as [|n]; [lia|]); cbn [call_arguments].
  { cbn in Hr. next k s1 Hn1 Hpk Hy Ht. exists [], s1. rewrite app_nil_r.
    split_and!; try done. erewrite bind_ok by exact Hpk. rewrite Hy.
    change (lexeme_type rparen =? T_RIGHT_ROUND) with true. cbn beta iota.
    by erewrite bind_ok by exact Hn1. }
  apply Forall_cons_1 in Hl as [He Hl]. apply Forall_cons_1 in Hf as [Hfe Hf].
  cbn [map concat app] in Hr. rewrite <- app_assoc in Hr.
  next k s1 Hn1 Hpk Hy Ht.
  set (rest := concat (map (fun y => comma :: y) (map (print 0) l)) ++ rparen :: ls) in *.
  assert (follows 0 rest) as Hfol.
  { unfold rest. destruct l; cbn [map concat app]; (apply follows_closing; [cbn; auto|lia]). }
  destruct (parses_to_stop e f false 0 s1 rest tl) as (x & s2 & Hx & Hsh & Hr2 & Hq2);
    [|pose proof (size_pos e); lia|lia|done|done|].
  { apply He with 0; [lia|lia|done|done|]. eapply follows_le; [done|lia]. }
  destruct (IH n (acc ++ [x]) s2) as (xs & s3 & Hc & Hxs & Hr3 & Hq3); [done|done|lia|by destruct acc|done|].
  exists (x :: xs), s3. split_and!.
  - erewrite bind_ok by exact Hpk. rewrite Hy.
    change (lexeme_type comma =? T_RIGHT_ROUND) with false.
    change (lexeme_type comma =? T_ERROR) with false. cbn beta iota.
    destruct acc as [|a acc]; [done|]. cbn [length Nat.eqb].
    erewrite bind_ok; [|erewrite bind_ok by exact Hn1; by rewrite Hy].
    erewrite bind_ok by exact Hx. rewrite Hc. by rewrite <- app_assoc.
  - cbn. by rewrite Hsh, Hxs.
  - done.
  - by repeat (etrans; [eassumption|]).
Qed.

(** The first lexeme of an expression. *)
Lemma print_head q e :
  expr_ok e = true ->
  exists l ls, print q e = l :: ls /\ lexeme_ok l = true /\ lexeme_type l <> T_RIGHT_ROUND.
Proof.
  revert q. induction e as [w|w|w|y e IH|y a IHa b IHb|a IHa w|a IHa b IHb|a IHa l]; intros q He;
    rewrite print_brackets by done;
    (destruct (q <? _); [|exists lparen; eexists; split_and!; [done|done|discriminate]]);
    cbn [expr_ok] in He; rewrite ?andb_true_iff in He; destruct_and?;
    cbn [print]; (destruct (0 <? _); [|exists lparen; eexists; split_and!; [done|done|discriminate]]).
  - exists (LWord w), []. split_and!; [done..|]. cbn. by rewrite (proj1 (Z.eqb_eq _ _) ltac:(done)).
  - exists (LNumber w), []. split_and!; [done..|]. cbn. unfold number_type. by case_match.
  - exists (LString (escape w)), []. split_and!; [done|apply raw_ok_escape|done].
  - destruct (unary_facts y) as (H1 & H2 & _); [by eapply bool_decide_eq_true|].
    eexists _, _. split_and!; [done|done|]. intros E. rewrite E in H2. done.
  - destruct (IHa (TokenLookupPrecedence y - 1)) as (l & ls & -> & ? & ?); [done|]. by eexists l, _.
  - destruct (IHa 100) as (l & ls & -> & ? & ?); [done|]. by eexists l, _.
  - destruct (IHa 100) as (l & ls & -> & ? & ?); [done|]. by eexists l, _.
  - destruct (IHa 100) as (l' & ls & -> & ? & ?); [done|]. by eexists l', _.
Qed.

Lemma first_token e s ls tl :
  expr_ok e = true -> reads s (print 0 e ++ ls) tl ->
  exists k, TokenPeek s = (Ok k, s) /\ (token_type k =? T_RIGHT_ROUND) = false /\
    (token_type k =? T_ERROR) = false.
Proof.
  intros He Hr. destruct (print_head 0 e He) as (l & ls' & E & Hl & Hy). rewrite E in Hr. cbn [app] in Hr.
  destruct (next_reads _ _ _ _ Hr Hl) as (k & s' & _ & Hpk & _ & _ & Hk & _).
  pose proof (lexeme_type_ok l Hl). exists k. split_and!; [done|rewrite Hk; by apply Z.eqb_neq|].
  apply Z.eqb_neq. rewrite Hk. change T_ERROR with 0. lia.
Qed.

Lemma call_reads f l s ls tl :
  forallb expr_ok l = true ->
  Forall reads_as l -> Forall (fun e => (2 * size e <= f)%nat) l -> (length l <= f)%nat ->
  reads s (separated comma (map (print 0) l) ++ rparen :: ls) tl ->
  exists xs s', call_arguments (S f) (ParseExpression (S f) false 0) [] s = (Ok xs, s') /\
    map shape_of xs = map tree l /\ reads s' ls tl /\ quiet s s'.
Proof.
  intros Hok Hl Hf Hn Hr. destruct l as [|e l].
  { cbn [separated map app] in Hr. next k s1 Hn1 Hpk Hy Ht. exists [], s1. split_and!; try done.
    cbn [call_arguments]. erewrite bind_ok by exact Hpk. rewrite Hy.
    change (lexeme_type rparen =? T_RIGHT_ROUND) with true. cbn beta iota.
    by erewrite bind_ok by exact Hn1. }
  apply Forall_cons_1 in Hl as [He Hl]. apply Forall_cons_1 in Hf as [Hfe Hf]. cbn [length] in Hn.
  cbn [separated map] in Hr. rewrite <- app_assoc in Hr.
  set (rest := concat (map (fun y => comma :: y) (map (print 0) l)) ++ rparen :: ls) in *.
  assert (follows 0 rest) as Hfol.
  { unfold rest. destruct l; cbn [map concat app]; (apply follows_closing; [cbn; auto|lia]). }
  destruct (parses_to_stop e f false 0 s rest tl) as (x & s2 & Hx & Hsh & Hr2 & Hq2);
    [|pose proof (size_pos e); lia|lia|done|done|].
  { apply He with 0; [lia|lia|done|done|]. eapply follows_le; [done|lia]. }
  destruct (call_rest_reads f f l [x] s2 ls tl) as (xs & s3 & Hc & Hxs & Hr3 & Hq3); [done|done|lia|done|done|].
  exists (x :: xs), s3. split_and!; [|cbn; by rewrite Hsh, Hxs|done|by etrans].
  cbn [call_arguments].
  cbn [forallb] in Hok. apply andb_true_iff in Hok as [Hok _].
  destruct (first_token e s rest tl Hok Hr) as (k & Hpk & Hk1 & Hk2).
  erewrite bind_ok by exact Hpk. rewrite Hk1, Hk2. cbn [length Nat.eqb].
  erewrite bind_ok by done. by erewrite bind_ok by exact Hx.
Qed.

(** One more suffix behind an operand. *)
Lemma parses_to_suffix a e f b p s ls1 ls tl :
  parses_to a f b p s ls1 tl -> (size a < size e)%nat -> (size a <= f)%nat ->
  (forall x s1, shape_of x = tree a -> reads s1 ls1 tl ->
     exists x' s', parse_suffix f (ParseExpression f) b p x s1 = (Ok (Some x'), s') /\
       shape_of x' = tree e /\ reads s' ls tl /\ quiet s1 s') ->
  parses_to e f b p s ls tl.
Proof.
  intros (x & s1 & n & Heq & Hx & Hr & Hq & Hn & Hnf) Hse Hsf Hsuf.
  destruct (Hsuf x s1 Hx Hr) as (x' & s' & Hp & Hx' & Hr' & Hq').
  destruct n as [|n]; [lia|].
  exists x', s', n. split_and!; [|done|done|by etrans|lia|lia].
  rewrite Heq. cbn [expression_tail]. by erewrite bind_ok by exact Hp.
Qed.

Lemma list_sum_In (l : list expr) e :
  In e l -> (S (size e) <= list_sum (map (fun e => S (size e)) l))%nat.
Proof.
  unfold list_sum. induction l as [|x l IH]; cbn; [done|]. intros [->|H]; [lia|]. specialize (IH H). lia.
Qed.

Lemma length_list_sum (l : list expr) : (length l <= list_sum (map (fun e => S (size e)) l))%nat.
Proof. unfold list_sum. induction l as [|x l IH]; cbn; lia. Qed.

Lemma atom_reads e f b p s k s1 x ls tl :
  TokenNext s = (Ok k, s1) -> token_type k <> T_ERROR ->
  parse_operand f (ParseExpression f) k s1 = (Ok x, s1) -> shape_of x = tree e ->
  reads s1 ls tl -> quiet s s1 -> parses_to e f b p s ls tl.
Proof.
  intros Hn Hne Hp Hx Hr Hq. exists x, s1, f. pose proof (size_pos e).
  split_and!; [by eapply ParseExpression_operand|done|done|done|lia|lia].
Qed.

Section Cases.
(** The sizes below [n] are done. *)
Context (n : nat) (IH : forall e, (size e < n)%nat -> expr_ok e = true -> reads_as e).

Lemma variable_reads w : expr_ok (EVariable w) = true -> reads_bare (EVariable w).
Proof.
  intros He p b f s ls tl Hp Hlv Hf Hr Hl. cbn [expr_ok] in He. apply andb_true_iff in He as [Hw Hy].
  apply Z.eqb_eq in Hy. cbn in Hr. next k s1 Hn Hpk Hk Ht. cbn in Hk. rewrite Hy in Hk.
  eapply (atom_reads _ _ _ _ _ _ _ (node T_VARIABLE k [])); [done|by rewrite Hk| | |done|done].
  - unfold parse_operand. by rewrite Hk.
  - cbn. by rewrite Ht.
Qed.

Lemma number_reads w : expr_ok (ENumber w) = true -> reads_bare (ENumber w).
Proof.
  intros He p b f s ls tl Hp Hlv Hf Hr Hl. cbn in Hr. next k s1 Hn Hpk Hk Ht. cbn in Hk.
  eapply (atom_reads _ _ _ _ _ _ _ (node (number_type w) k [])); [done| | | |done|done].
  - rewrite Hk. unfold number_type. by case_match.
  - unfold parse_operand. rewrite Hk. unfold number_type. by destruct (decide (w = [48])).
  - cbn. by rewrite Ht.
Qed.

Lemma string_reads w : reads_bare (EString w).
Proof.
  intros p b f s ls tl Hp Hlv Hf Hr Hl. cbn [print level Z.ltb Z.compare app] in Hr.
  next k s1 Hn Hpk Hk Ht; [apply raw_ok_escape|]. cbn in Hk.
  eapply (atom_reads _ _ _ _ _ _ _ (string_node k None w)); [done|by rewrite Hk| | |done|done].
  - unfold parse_operand. rewrite Hk. cbn in Hf. change (T_STRING_LITERAL =? T_IDENTIFIER) with false.
    change (T_STRING_LITERAL =? T_STRING_LITERAL) with true. cbn beta iota.
    apply (string_contents_escape _ _ _ [] w); [done|lia].
  - done.
Qed.

Lemma unary_reads y e : (size e < n)%nat -> expr_ok (EUnary y e) = true -> reads_bare (EUnary y e).
Proof.
  intros Hn He p b f s ls tl Hp Hlv Hf Hr Hl. cbn [expr_ok] in He.
  apply andb_true_iff in He as [Hy%bool_decide_eq_true He].
  destruct (unary_facts y Hy) as (Hok & Hty & Hyy & Hprec).
  cbn [print level Z.ltb Z.compare app] in Hr. next k s1 Hn1 Hpk Hk Ht.
  cbn [size level] in Hf, Hl. destruct f as [|f]; [lia|].
  destruct (parses_to_stop e f false 70 s1 ls tl) as (x & s2 & Hx & Hsh & Hr2 & Hq2);
    [|lia|lia|done|done|].
  { apply (IH e Hn He) with 70; [lia|lia|lia|done|]. eapply follows_le; [done|lia]. }
  exists (node y k [x]), s2, (S f). cbn [size].
  split_and!; [|by cbn; rewrite Ht, Hsh|done|by etrans|lia|lia].
  eapply ParseExpression_operand; [done|rewrite Hk; intros E; by rewrite E in Hty|].
  rewrite operand_unary by (by rewrite Hk). cbv zeta. rewrite Hk, Hyy, Hprec.
  erewrite bind_ok; [|unfold try_result; rewrite Hx; reflexivity]. done.
Qed.

Lemma binary_reads y a b : (size a + size b < n)%nat ->
  expr_ok (EBinary y a b) = true -> reads_bare (EBinary y a b).
Proof.
  intros Hn He p al f s ls tl Hp Hlv Hf Hr Hl. cbn [expr_ok] in He. rewrite !andb_true_iff in He.
  destruct He as [[Hy%bool_decide_eq_true Ha] Hb].
  destruct (binary_facts y Hy) as (Hok & Hty & Hbin & Hass & _ & Hprec).
  cbn [level] in *. cbn [print level] in Hr. rewrite (proj2 (Z.ltb_lt 0 _)) in Hr by lia.
  rewrite <- app_assoc in Hr. cbn [app] in Hr. cbn [size] in Hf.
  eapply (parses_to_suffix a).
  - apply (IH a ltac:(lia) Ha) with (TokenLookupPrecedence y - 1); [lia|lia|lia|exact Hr|].
    cbn [follows]. rewrite Hty. split_and!; [done|done|]. unfold binding. rewrite Hbin. lia.
  - cbn [size]. lia.
  - lia.
  - clear Hr. intros x s1 Hx Hr. next k s2 Hn1 Hpk Hk Ht. rewrite Hty in Hk.
    destruct f as [|f]; [pose proof (size_pos b); lia|].
    destruct (parses_to_stop b f false (TokenLookupPrecedence y) s2 ls tl)
      as (x' & s3 & Hx' & Hsh & Hr3 & Hq3); [|pose proof (size_pos b); lia|lia|done|done|].
    { apply (IH b ltac:(lia) Hb) with (TokenLookupPrecedence y); [lia|lia|lia|done|].
      eapply follows_le; [done|lia]. }
    exists (node y k [x; x']), s3. split_and!; [|cbn; by rewrite Ht, Hx, Hsh|done|by etrans].
    rewrite (suffix_binary _ _ _ _ _ _ k) by (rewrite ?Hk; done || lia).
    erewrite bind_ok by exact Hn1. rewrite Hk. by erewrite bind_ok by exact Hx'.
Qed.

Lemma dot_reads a w : (size a < n)%nat -> expr_ok (EDot a w) = true -> reads_bare (EDot a w).
Proof.
  intros Hn He p b f s ls tl Hp Hlv Hf Hr Hl. cbn [expr_ok] in He. rewrite !andb_true_iff in He.
  destruct He as [[Ha Hw] Hy%Z.eqb_eq]. cbn [print level Z.ltb Z.compare] in Hr.
  rewrite <- app_assoc in Hr. cbn [app size] in Hr, Hf.
  eapply (parses_to_suffix a).
  - apply (IH a Hn Ha) with 100; [lia|lia|lia|exact Hr|]. by split_and!.
  - cbn [size]. lia.
  - lia.
  - clear Hr. intros x s1 Hx Hr. next k s2 Hn1 Hpk Hk Ht. next k' s3 Hn2 Hpk2 Hk2 Ht2.
    cbn [lexeme_type] in Hk2. rewrite Hy in Hk2.
    exists (node T_DOT k' [x]), s3. split_and!; [|cbn; by rewrite Ht2, Hx|done|by etrans].
    rewrite (suffix_dot _ _ _ _ _ _ k) by (done || lia).
    erewrite bind_ok by exact Hn1. erewrite bind_ok by exact Hn2. by rewrite Hk2.
Qed.

Lemma index_reads a b : (size a + size b < n)%nat ->
  expr_ok (EIndex a b) = true -> reads_bare (EIndex a b).
Proof.
  intros Hn He p al f s ls tl Hp Hlv Hf Hr Hl. cbn [expr_ok] in He. apply andb_true_iff in He as [Ha Hb].
  cbn [print level Z.ltb Z.compare] in Hr. rewrite <- !app_assoc in Hr. cbn [app size] in Hr, Hf.
  eapply (parses_to_suffix a).
  - apply (IH a ltac:(lia) Ha) with 100; [lia|lia|lia|exact Hr|]. by split_and!.
  - cbn [size]. lia.
  - lia.
  - clear Hr. intros x s1 Hx Hr. cbn [app] in Hr. next k s2 Hn1 Hpk Hk Ht.
    destruct f as [|f]; [pose proof (size_pos b); lia|].
    destruct (parses_to_stop b f false 0 s2 (LOp1 93 :: ls) tl)
      as (x' & s3 & Hx' & Hsh & Hr3 & Hq3);
      [|pose proof (size_pos b); lia|lia|by apply follows_closing; [cbn; auto|]|done|].
    { apply (IH b ltac:(lia) Hb) with 0; [lia|lia|lia|done|]. by apply follows_closing; [cbn; auto|]. }
    next k' s4 Hn2 Hpk2 Hk2 Ht2.
    exists (node T_INDEX k [x; x']), s4.
    split_and!; [|cbn; by rewrite Ht, Hx, Hsh|done|by repeat (etrans; [eassumption|])].
    rewrite (suffix_index _ _ _ _ _ _ k) by done.
    erewrite bind_ok by exact Hn1. erewrite bind_ok by exact Hx'. erewrite bind_ok by exact Hn2.
    by rewrite Hk2.
Qed.

Lemma call_expr_reads a l : (size (ECall a l) <= n)%nat ->
  expr_ok (ECall a l) = true -> reads_bare (ECall a l).
Proof.
  intros Hn He p b f s ls tl Hp Hlv Hf Hr Hl. cbn [expr_ok] in He. apply andb_true_iff in He as [Ha Hb].
  cbn [print level Z.ltb Z.compare] in Hr. rewrite <- !app_assoc in Hr. cbn [app size] in Hr, Hf, Hn.
  pose proof (length_list_sum l).
  eapply (parses_to_suffix a).
  - apply (IH a ltac:(lia) Ha) with 100; [lia|lia|lia|exact Hr|]. by split_and!.
  - cbn [size]. lia.
  - lia.
  - clear Hr. intros x s1 Hx Hr. cbn [app] in Hr. next k s2 Hn1 Hpk Hk Ht.
    destruct f as [|f]; [pose proof (size_pos a); lia|].
    destruct (call_reads f l s2 ls tl) as (xs & s3 & Hc & Hxs & Hr3 & Hq3); [done| | | |done|].
    + rewrite Forall_forall. rewrite forallb_forall in Hb. intros e Hin.
      pose proof (list_sum_In l e Hin). apply IH; [lia|auto].
    + rewrite Forall_forall. intros e Hin. pose proof (list_sum_In l e Hin). lia.
    + lia.
    + exists (node T_CALL k [x; node T_ARGUMENTS token0 xs]), s3.
      split_and!; [|cbn; by rewrite Ht, Hx, Hxs|done|by etrans].
      rewrite (suffix_call _ _ _ _ _ _ k) by (done || lia). unfold ParseCall.
      erewrite bind_ok; [done|]. erewrite bind_ok by exact Hn1. rewrite Hk.
      change (lexeme_type lparen =? T_LEFT_ROUND) with true. cbn [negb].
      by erewrite bind_ok by exact Hc.
Qed.
End Cases.

Lemma expr_reads n e : (size e < n)%nat -> expr_ok e = true -> reads_as e.
Proof.
  revert e. induction n as [|n IH]; intros e Hs He; [lia|]. apply bare_reads_as; [done|].
  destruct e as [w|w|w|y e|y a b|a w|a b|a l]; pose proof Hs as Hs'; cbn [size] in Hs.
  - by apply variable_reads.
  - by apply number_reads.
  - apply string_reads.
  - apply (unary_reads n); [done|lia|done].
  - apply (binary_reads n); [done|lia|done].
  - apply (dot_reads n); [done|lia|done].
  - apply (index_reads n); [done|lia|done].
  - apply (call_expr_reads n); [done|lia|done].
Qed.

(** ** The theorems *)

(** C16.  Parsing what is printed: the spelling of an expression, with brackets only where
    the precedences require them, followed by a semicolon, is parsed to the tree of the
    expression; nothing is printed and the parser is left in front of the semicolon.
    This holds for every expression over the binary and unary operators, fields,
    indices, calls, numbers and string literals with any bytes. *)
Theorem expression_roundtrip e tl fuel allowAssignment :
  expr_ok e = true -> tail_ok tl = true -> (2 * size e < fuel)%nat ->
  exists x s',
    ParseExpression fuel allowAssignment 0 (load (text_of (print 0 e ++ [LOp1 59]) ++ tl)) = (Ok x, s') /\
    shape_of x = tree e /\ messages s' = [] /\ reads s' [LOp1 59] tl.
Proof.
  intros He Htl Hf. destruct fuel as [|f]; [lia|].
  destruct (parses_to_stop e f allowAssignment 0 (load (text_of (print 0 e ++ [LOp1 59]) ++ tl)) [LOp1 59] tl)
    as (x & s' & Hx & Hsh & Hr & Hq); [|lia|lia|by apply follows_closing; [cbn; auto|]|done|].
  { apply (expr_reads (S (size e))) with 0; [lia|done|lia|lia|lia| |by apply follows_closing; [cbn; auto|]].
    split_and!; [unfold in_input; cbn; lia|done|done]. }
  exists x, s'. split_and!; [done|done|by destruct Hq|done].
Qed.

(** The expression [-a.b * (c + f(d, 1))]. *)
Definition sample_expr : expr :=
  let v w := EVariable (bytes_of w) in
  EBinary T_ASTERISK (EUnary T_NEGATE (EDot (v "a"%string) (bytes_of "b")))
    (EBinary T_ADD (v "c"%string) (ECall (v "f"%string) [v "d"%string; ENumber (bytes_of "1")])).

Lemma expression_roundtrip_witness :
  text_of (print 0 sample_expr ++ [LOp1 59]) = bytes_of " - a . b * ( c + f ( d , 1 ) ) ;" /\
  exists x s', ParseExpression 30 true 0 (load (bytes_of " - a . b * ( c + f ( d , 1 ) ) ;")) = (Ok x, s') /\
    shape_of x = tree sample_expr.
Proof.
  split; [reflexivity|].
  destruct (expression_roundtrip sample_expr [] 30 true eq_refl eq_refl ltac:(cbn; lia)) as (x & s' & H & Hx & _).
  exists x, s'. split; [exact H|exact Hx].
Defined.

Definition no_library : bytes -> bool := fun _ => false.
Definition quoted (w : string) : bytes := 34 :: bytes_of w ++ [34].

(** Texts on which the parser stops: a function pointer type without its semicolon
    makes it read the line of a node that is not there; text behind an interpolated
    expression reaches the escapes unchecked and fails an assertion; and an
    interpolation that is open at the end of the text is read beyond its end. *)
Theorem parse_stops :
  (parse_script no_library (bytes_of "functype void F() int x;")).1 = Stop OutOfBounds /\
  (ParseExpression 20 false 0 (load (quoted "%a b\q%"))).1 = Stop Assertion /\
  (TokenNext (load (34 :: bytes_of "%a"))).1 = Stop OutOfBounds.
Proof. split_and!; vm_compute; reflexivity. Qed.

Definition outcome_shape (o : outcome Node) : option shape :=
  match o with Ok n => Some (shape_of n) | _ => None end.

Definition type_text (w : string) : option shape :=
  outcome_shape (ParseType 40 false true true (load (bytes_of w))).1.

(** Texts that the parser takes for something else: a missing operand of a minus
    prints a message but the tree is returned, with a node that lacks its child; the
    second pair of brackets of a list of lists of errors goes inside the error type;
    and [int x in 5;] is accepted as a declaration of [x] followed by an expression. *)
Theorem parse_accepts :
  match parse_script no_library (bytes_of "void f() { x = -; ; }") with
  | (Ok n, s) => negb (well_shaped n) && (length (messages s) =? 1)%nat = true
  | _ => False
  end /\
  type_text "err[int][][]" =
    Some (Shape T_LIST [91] [Shape T_ERR (bytes_of "err") [Shape T_LIST [91] [Shape T_INT (bytes_of "int") []]]]) /\
  outcome_shape (ParseBlock 40 false (load (bytes_of "int x in 5; }"))).1 =
    Some (Shape T_BLOCK []
      [Shape T_DECLARE (bytes_of "x") [Shape T_INT (bytes_of "int") []];
       Shape T_NUMERIC_LITERAL (bytes_of "5") []]).
Proof. split_and!; vm_compute; reflexivity. Qed.
