(* ===== verification/ScriptReturn.v ===== *)
(** * Return statements (util/script.c)

    [ASTCheckForReturnStatements] is the pass that makes sure that a function with a
    result cannot reach the end of its body.  It looks at types and children of nodes
    only, so it is a function on the trees of the parser.  The theorems relate it to the
    paths control can take through statements. *)

From Stdlib Require Import String.
From stdpp Require Import base list sets.
From S2P Require Import Prelude ScriptToken ScriptParser ScriptParserProofs ScriptExpression.

(** ** The pass *)

Definition no_return : string := "This block needs to end with a return statement.".
Definition no_else : string :=
  "This function returns a value, so this if statement needs an else block which ends with a return statement.".

Section Children.
Context (check : Node -> M parser unit).

Fixpoint check_all (l : list Node) : M parser unit :=
  match l with [] => ret tt | x :: l' => check x ;;; check_all l' end.

(** The last statement of a block whose token is [k]. *)
Fixpoint check_last (k : Token) (l : list Node) : M parser unit :=
  match l with
  | [] => fail k no_return
  | [x] =>
      if is_type (node_type x) [T_RETURN; T_RETURN_TUPLE] then ret tt
      else if is_type (node_type x) [T_IF; T_IF_ERR; T_BLOCK] then check x
      else fail k no_return
  | _ :: l' => check_last k l'
  end.
End Children.

Fixpoint ASTCheckForReturnStatements (n : Node) : M parser unit :=
  let check := ASTCheckForReturnStatements in
  let '(MkNode y k _ c) := n in
  if y =? T_ROOT then check_all check c
  else if y =? T_FUNCTION then
    match c with
    | [] => stop OutOfBounds
    | [_] => ret tt
    | pointer :: body :: _ =>
        match children pointer with
        | [] => stop OutOfBounds
        | [_] => ret tt
        | _ :: result :: _ =>
            if node_type result =? T_VOID then ret tt
            else assert (node_type body =? T_FUNCBODY) ;;; check body
        end
    end
  else if is_type y [T_BLOCK; T_FUNCBODY] then check_last check k c
  else if y =? T_IF then
    match c with
    | [] | [_] => stop OutOfBounds
    | [_; _] => fail k no_else
    | _ :: a :: b :: _ => check a ;;; check b
    end
  else if y =? T_IF_ERR then
    match c with
    | [] | [_] | [_; _] => stop OutOfBounds
    | [_; _; _] => fail k no_else
    | _ :: _ :: a :: b :: _ => check a ;;; check b
    end
  else ret tt.

(** ** Paths through statements *)

(** How control leaves a statement: at its end, or out of the function. *)
Inductive leaving := Ends | Returns.

(** The ways control can take, whatever the values of conditions: [path n r].  A loop runs
    its list.last child any number of times; any other statement can end. *)
Inductive path : Node -> leaving -> Prop :=
  | path_return y k f c : y ∈ [T_RETURN; T_RETURN_TUPLE] -> path (MkNode y k f c) Returns
  | path_block y k f c r : y ∈ [T_BLOCK; T_FUNCBODY] -> paths c r -> path (MkNode y k f c) r
  | path_then k f e a c r : path a r -> path (MkNode T_IF k f (e :: a :: c)) r
  | path_else k f e a b r : path b r -> path (MkNode T_IF k f [e; a; b]) r
  | path_skip k f e a : path (MkNode T_IF k f [e; a]) Ends
  | path_success k f d e a c r : path a r -> path (MkNode T_IF_ERR k f (d :: e :: a :: c)) r
  | path_failure k f d e a b r : path b r -> path (MkNode T_IF_ERR k f [d; e; a; b]) r
  | path_no_failure k f d e a : path (MkNode T_IF_ERR k f [d; e; a]) Ends
  | path_loop_end y k f c : y ∈ [T_WHILE; T_FOR; T_FOR_EACH] -> path (MkNode y k f c) Ends
  | path_loop y k f c a r : y ∈ [T_WHILE; T_FOR; T_FOR_EACH] -> list.last c = Some a ->
      path a Ends -> path (MkNode y k f c) r -> path (MkNode y k f c) r
  | path_loop_return y k f c a : y ∈ [T_WHILE; T_FOR; T_FOR_EACH] -> list.last c = Some a ->
      path a Returns -> path (MkNode y k f c) Returns
  | path_reterr k f c : path (MkNode T_RETERR k f c) Returns
  | path_simple y k f c :
      y ∉ [T_RETURN; T_RETURN_TUPLE; T_BLOCK; T_FUNCBODY; T_IF; T_IF_ERR; T_WHILE; T_FOR; T_FOR_EACH] ->
      path (MkNode y k f c) Ends
with paths : list Node -> leaving -> Prop :=
  | path_nil : paths [] Ends
  | path_cons_returns x l : path x Returns -> paths (x :: l) Returns
  | path_cons_ends x l r : path x Ends -> paths l r -> paths (x :: l) r.

(** The branch behind [else] is a block or, from [else if], the block around one. *)
Fixpoint braced (n : Node) : bool :=
  let '(MkNode y _ _ c) := n in
  forallb braced c &&
  (if y =? T_IF then forallb (fun b => node_type b =? T_BLOCK) (drop 1 c)
   else if y =? T_IF_ERR then forallb (fun b => node_type b =? T_BLOCK) (drop 2 c)
   else true).

(** A definition of a module: a function is a pointer type and perhaps a body. *)
Definition definition_ok (n : Node) : bool :=
  negb (node_type n =? T_ROOT) &&
  (negb (node_type n =? T_FUNCTION) ||
   match children n with
   | [p] => node_type p =? T_FUNCPTR
   | [p; b] => (node_type p =? T_FUNCPTR) && (node_type b =? T_FUNCBODY)
   | _ => false
   end).

(** A function with a body and a result. *)
Definition has_result (n body : Node) : Prop :=
  exists k f p l e result, n = MkNode T_FUNCTION k f (p :: body :: l) /\
    children p = [e; result] /\ node_type result <> T_VOID.

(** ** What the pass guarantees *)

Lemma paths_last l x r : paths (l ++ [x]) r -> r = Returns \/ path x r.
Proof.
  induction l as [|y l IH]; cbn; intros H; inversion H; subst; [by left| |by left|auto].
  match goal with H' : paths [] _ |- _ => inversion H'; subst end. by right.
Qed.

(** A pass over a node ends without stopping, leaves the state alone when it is content
    and prints a message otherwise. *)
Definition checks (n : Node) (P : Prop) : Prop :=
  forall s, (ASTCheckForReturnStatements n s = (Ok tt, s) /\ P) \/
            exists m, ASTCheckForReturnStatements n s =
                      (RetFalse, MkParser (tokenizer s) (messages s ++ [m]) (library s)).

Definition always_returns (n : Node) : Prop := forall r, path n r -> r = Returns.

Lemma checks_fail n k m P :
  (forall s, ASTCheckForReturnStatements n s = fail k m s) -> checks n P.
Proof. intros H s. right. rewrite H. eexists. reflexivity. Qed.

(** A block is content when its last statement is. *)
Lemma check_last_spec k c (P : Prop) s :
  (forall x, list.last c = Some x -> node_type x ∈ [T_RETURN; T_RETURN_TUPLE] -> P) ->
  (forall x, list.last c = Some x -> node_type x ∈ [T_IF; T_IF_ERR; T_BLOCK] -> checks x P) ->
  (check_last ASTCheckForReturnStatements k c s = (Ok tt, s) /\ P) \/
  exists m, check_last ASTCheckForReturnStatements k c s =
            (RetFalse, MkParser (tokenizer s) (messages s ++ [m]) (library s)).
Proof.
  induction c as [|x c IH]; intros Hr Hs; [right; eexists; reflexivity|]. destruct c as [|y c]; [|by apply IH].
  cbn [check_last]. destruct (is_type _ [T_RETURN; _]) eqn:E1.
  { left. split; [done|]. apply (Hr x eq_refl). by rewrite list_elem_of_In, <- is_type_In. }
  destruct (is_type _ [T_IF; _; _]) eqn:E2; [|right; eexists; reflexivity].
  apply (Hs x eq_refl). by rewrite list_elem_of_In, <- is_type_In.
Qed.

(** Checking both branches. *)
Lemma checks_both n a b :
  (forall s, ASTCheckForReturnStatements n s =
             (ASTCheckForReturnStatements a ;;; ASTCheckForReturnStatements b) s) ->
  checks a (always_returns a) -> checks b (always_returns b) ->
  checks n (always_returns a /\ always_returns b).
Proof.
  intros E Ha Hb s. rewrite E. unfold bind.
  destruct (Ha s) as [[-> Ha']|[m ->]]; [|right; by eexists].
  destruct (Hb s) as [[-> Hb']|[m ->]]; [by left|right; by eexists].
Qed.

Lemma checks_mono n (P Q : Prop) : (P -> Q) -> checks n P -> checks n Q.
Proof. intros HPQ H s. destruct (H s) as [[? ?]|?]; auto. Qed.

(** Split membership in a list of node types. *)
Ltac in_types :=
  repeat match goal with
  | H : _ ∈ [] |- _ => by apply elem_of_nil in H
  | H : _ ∈ _ :: _ |- _ => apply elem_of_cons in H as [H|H]; [try discriminate H|]
  | H : _ ∉ _ :: _ |- _ => apply not_elem_of_cons in H as [? H]
  end.

Lemma always_block y k f c x :
  y ∈ [T_BLOCK; T_FUNCBODY] -> list.last c = Some x -> always_returns x -> always_returns (MkNode y k f c).
Proof.
  intros Hy (l & ->)%last_Some Hx r Hr. inversion Hr; subst; try done; in_types; subst; try done.
  all: match goal with H : paths _ _ |- _ => by apply paths_last in H as [|] ; auto end.
Qed.

Lemma always_return n : node_type n ∈ [T_RETURN; T_RETURN_TUPLE] -> always_returns n.
Proof.
  destruct n as [y k f c]. cbn. intros Hy r Hr. inversion Hr; subst; try done; in_types; by subst.
Qed.

Lemma checks_block y k f c :
  y ∈ [T_BLOCK; T_FUNCBODY] ->
  (forall x, list.last c = Some x -> node_type x ∈ [T_IF; T_IF_ERR; T_BLOCK] -> checks x (always_returns x)) ->
  checks (MkNode y k f c) (always_returns (MkNode y k f c)).
Proof.
  intros Hy Hc s.
  replace (ASTCheckForReturnStatements (MkNode y k f c) s) with (check_last ASTCheckForReturnStatements k c s)
    by (clear Hc; in_types; by subst).
  apply check_last_spec; intros x Hx Ht.
  - eapply always_block; [done..|]. by apply always_return.
  - eapply checks_mono; [|by apply Hc]. by apply always_block.
Qed.

Lemma checks_if k f e a c :
  (length c <= 1)%nat -> (forall x, x ∈ a :: c -> checks x (always_returns x)) ->
  checks (MkNode T_IF k f (e :: a :: c)) (always_returns (MkNode T_IF k f (e :: a :: c))).
Proof.
  intros Hl Hc. destruct c as [|b [|? ?]]; [by eapply checks_fail| |cbn in Hl; lia].
  eapply checks_mono; [|apply (checks_both _ a b); [done|apply Hc; set_solver..]].
  intros [Ha Hb] r Hr. inversion Hr; subst; in_types; auto; done.
Qed.

Lemma checks_if_err k f d e a c :
  (length c <= 1)%nat -> (forall x, x ∈ a :: c -> checks x (always_returns x)) ->
  checks (MkNode T_IF_ERR k f (d :: e :: a :: c)) (always_returns (MkNode T_IF_ERR k f (d :: e :: a :: c))).
Proof.
  intros Hl Hc. destruct c as [|b [|? ?]]; [by eapply checks_fail| |cbn in Hl; lia].
  eapply checks_mono; [|apply (checks_both _ a b); [done|apply Hc; set_solver..]].
  intros [Ha Hb] r Hr. inversion Hr; subst; in_types; auto; done.
Qed.

(** Blocks and conditionals that pass let no control through. *)
Lemma checks_statement n :
  well_shaped n = true -> braced n = true -> node_type n ∈ [T_BLOCK; T_FUNCBODY; T_IF; T_IF_ERR] ->
  checks n (always_returns n).
Proof.
  induction n as [y k f c IH] using node_ind'. cbn [well_shaped braced node_type].
  rewrite !andb_true_iff, !forallb_forall. intros [Ha Hw] [Hb Hbb] Hy.
  assert (IH' : forall x, x ∈ c -> node_type x ∈ [T_BLOCK; T_FUNCBODY; T_IF; T_IF_ERR] -> checks x (always_returns x)).
  { intros x Hx%list_elem_of_In. rewrite Forall_forall in IH. apply IH; auto. }
  clear IH Hw Hb. in_types; subst.
  1,2: apply checks_block; [set_solver|]; intros x [l ->]%last_Some Hx; apply IH'; set_solver.
  - destruct c as [|e [|a c]]; [discriminate Ha..|]. apply checks_if.
    { destruct c as [|? [|? ?]]; [cbn; lia..|discriminate Ha]. }
    change (forallb (fun b => node_type b =? T_BLOCK) (a :: c) = true) in Hbb.
    rewrite forallb_forall in Hbb. intros x Hx. apply IH'; [set_solver|].
    apply list_elem_of_In, Hbb, Z.eqb_eq in Hx as ->. set_solver.
  - destruct c as [|d [|e [|a c]]]; [discriminate Ha..|]. apply checks_if_err.
    { destruct c as [|? [|? ?]]; [cbn; lia..|discriminate Ha]. }
    change (forallb (fun b => node_type b =? T_BLOCK) (a :: c) = true) in Hbb.
    rewrite forallb_forall in Hbb. intros x Hx. apply IH'; [set_solver|].
    apply list_elem_of_In, Hbb, Z.eqb_eq in Hx as ->. set_solver.
Qed.

Lemma checks_function n :
  well_shaped n = true -> braced n = true -> definition_ok n = true -> node_type n = T_FUNCTION ->
  checks n (forall body, has_result n body -> always_returns body).
Proof.
  destruct n as [y k f c]. cbn [node_type]. intros Hw Hb Hf ->. cbn in Hw, Hb, Hf.
  rewrite !andb_true_iff in *. destruct Hw as [_ Hw], Hb as [Hb _].
  rewrite forallb_forall in Hw, Hb.
  destruct c as [|[py pk pf pc] [|body [|? ?]]]; [done| |cbn in Hf|done].
  { intros s. left. split; [done|]. by intros b (? & ? & ? & ? & ? & ? & ? & _). }
  apply andb_true_iff in Hf as [->%Z.eqb_eq Hbody%Z.eqb_eq].
  assert (Hp : well_shaped (MkNode T_FUNCPTR pk pf pc) = true) by (apply Hw; cbn; auto).
  cbn [well_shaped] in Hp. apply andb_true_iff in Hp as [Hp _].
  destruct pc as [|e [|result [|? ?]]]; try discriminate Hp. clear Hp.
  destruct (Z.eq_dec (node_type result) T_VOID) as [Hv|Hv].
  - intros s. left. cbn. rewrite Hv. split; [done|].
    intros b (? & ? & ? & ? & ? & ? & E & E' & Hn). simplify_eq. by cbn in E'; simplify_eq.
  - intros s. cbn. apply Z.eqb_neq in Hv as Hv'. rewrite Hv', Hbody. cbn.
    assert (Hs : checks body (always_returns body)).
    { apply checks_statement; [apply Hw; cbn; auto|apply Hb; cbn; auto|rewrite Hbody; set_solver]. }
    destruct (Hs s) as [[-> ?]|[m ->]]; [|right; by eexists].
    left. split; [done|]. intros b (? & ? & ? & ? & ? & ? & E & _). by simplify_eq.
Qed.

(** A pass over functions. *)
Lemma check_all_spec l s :
  (forall n, n ∈ l -> node_type n = T_FUNCTION -> checks n (forall body, has_result n body -> always_returns body)) ->
  (forall n, n ∈ l -> node_type n <> T_FUNCTION -> checks n True) ->
  (check_all ASTCheckForReturnStatements l s = (Ok tt, s) /\
   forall n body, n ∈ l -> has_result n body -> always_returns body) \/
  exists m, check_all ASTCheckForReturnStatements l s =
            (RetFalse, MkParser (tokenizer s) (messages s ++ [m]) (library s)).
Proof.
  induction l as [|n l IH]; intros Hf Ho; [left; split; [done|]; set_solver|].
  assert (Hn : checks n (forall body, has_result n body -> always_returns body)).
  { destruct (Z.eq_dec (node_type n) T_FUNCTION) as [E|E]; [apply Hf; set_solver|].
    eapply checks_mono; [|apply Ho; set_solver]. intros _ b (? & ? & ? & ? & ? & ? & -> & _). done. }
  cbn. unfold bind. destruct (Hn s) as [[-> H]|[m ->]]; [|right; by eexists].
  destruct IH as [[-> IH]|[m ->]]; [set_solver..| |right; by eexists].
  left. split; [done|]. intros n' b [->|Hn']%elem_of_cons Hb; [by apply H|by eapply IH].
Qed.

Lemma checks_other n :
  well_shaped n = true -> braced n = true -> node_type n <> T_ROOT -> node_type n <> T_FUNCTION -> checks n True.
Proof.
  intros Hw Hb Hr Hf.
  destruct (decide (node_type n ∈ [T_BLOCK; T_FUNCBODY; T_IF; T_IF_ERR])) as [Hs|Hs].
  { eapply checks_mono; [|by apply checks_statement]. done. }
  destruct n as [y k f c]. cbn in *. in_types. intros s. left. split; [|done]. cbn.
  by rewrite !(proj2 (Z.eqb_neq _ _)) by done.
Qed.

(** C19.  On a module whose conditionals have braces around what follows [else],
    [ASTCheckForReturnStatements] ends without stopping; when it is content it has
    changed nothing and no path through the body of a function with a result reaches
    the end of the body; otherwise it has printed a message. *)
Theorem return_check_sound k f definitions s :
  well_shaped (MkNode T_ROOT k f definitions) = true -> braced (MkNode T_ROOT k f definitions) = true ->
  Forall (fun n => definition_ok n = true) definitions ->
  match ASTCheckForReturnStatements (MkNode T_ROOT k f definitions) s with
  | (Ok _, s') => s' = s /\
      forall n body, n ∈ definitions -> has_result n body -> forall r, path body r -> r = Returns
  | (RetFalse, s') => exists m, messages s' = messages s ++ [m]
  | (Stop _, _) => False
  end.
Proof.
  cbn [well_shaped braced]. rewrite !andb_true_iff, !forallb_forall. intros [_ Hw] [Hb _] Hd.
  rewrite List.Forall_forall in Hd.
  destruct (check_all_spec definitions s) as [[E H]|[m E]].
  - intros n Hn%list_elem_of_In Ht. apply checks_function; auto.
  - intros n Hn%list_elem_of_In Ht. apply checks_other; auto.
    intros Hr. specialize (Hd n Hn). unfold definition_ok in Hd. by rewrite Hr in Hd.
  - cbn. rewrite E. split; [done|]. intros n body Hn Hb' r. by apply (H n body).
  - cbn. rewrite E. by exists m.
Qed.

Definition parsed (w : string) : Node :=
  match (parse_script no_library (bytes_of w)).1 with Ok n => n | _ => node T_ROOT token0 [] end.

Definition sign_text : string := "int f(int x) { if x < 0 { return -1; } else if x > 0 { return 1; } else { return 0; } }".

Lemma return_check_sound_witness :
  well_shaped (parsed sign_text) = true /\
  forall n body, n ∈ children (parsed sign_text) -> has_result n body -> forall r, path body r -> r = Returns.
Proof.
  pose (P := parsed sign_text).
  pose proof (return_check_sound (node_token P) (node_flags_of P) (children P) (load [])) as H.
  split; [vm_compute; reflexivity|].
  assert (E : P = MkNode T_ROOT (node_token P) (node_flags_of P) (children P)) by (vm_compute; reflexivity).
  rewrite <- E in H. specialize (H ltac:(vm_compute; reflexivity) ltac:(vm_compute; reflexivity)).
  assert (C : (ASTCheckForReturnStatements P (load [])).1 = Ok tt) by (vm_compute; reflexivity).
  destruct (ASTCheckForReturnStatements P (load [])) as [o s']. cbn in C. subst o.
  apply H. apply Forall_forallb. vm_compute. reflexivity.
Defined.

Definition bare_else_text : string := "int f(int x) { if x < 0 { return -1; } else x = 1; }".

(** An expression behind [else] is not wrapped in a block, and the pass accepts any node
    it does not know: the function of [bare_else_text] passes, and control reaches the end
    of its body. *)
Theorem bare_else_accepted :
  well_shaped (parsed bare_else_text) = true /\
  (ASTCheckForReturnStatements (parsed bare_else_text) (load [])).1 = Ok tt /\
  exists n body, list.last (children (parsed bare_else_text)) = Some n /\ has_result n body /\ path body Ends.
Proof.
  split_and!; [vm_compute; reflexivity..|]. do 2 eexists. split_and!.
  - vm_compute. reflexivity.
  - do 6 eexists. split_and!; [reflexivity..|discriminate].
  - assert (Hd : forall P `{Decision P}, bool_decide P = true -> P) by (intros P ?; apply bool_decide_eq_true).
    do 2 (apply path_block; [by eapply Hd; vm_compute|]; eapply path_cons_ends; [|apply path_nil]).
    apply path_block; [by eapply Hd; vm_compute|]. eapply path_cons_ends; [|apply path_nil].
    apply path_else, path_simple. by eapply Hd; vm_compute.
Qed.
