(* ===== verification/ScriptHeap.v ===== *)
(** * The heap of the script engine and its garbage collector (util/script.c)

    [HeapEntry], [CoroutineState], [ExecutionContext], [HeapGarbageCollectMark],
    [HeapFreeEntry] and [HeapAllocate].  The heap is a list of entries;
    [heapEntriesAllocated] is its length.  The union of a [HeapEntry] is a data type with
    a constructor per value of the type field.  An array with a count is a list; the
    evaluation stack and the back trace are lists that start at their top.  What
    [realloc] leaves in new entries is a parameter.

    The theorems: marking terminates and marks exactly the entries that can be reached;
    allocation returns an entry that is not in use and keeps every entry that can be
    reached; a collection frees everything else. *)

From stdpp Require Import base list relations.
From S2P Require Import Prelude ScriptToken ScriptParser.

(** ** Data *)

(** [Value] is a union of [int64_t] and [double]: the 64 bits, as a signed integer. *)
Abbreviation Value := Z.

Inductive payload :=
  | PUnused (nextUnusedEntry : Z)                            (** [T_ERROR] *)
  | PEof                                                     (** [T_EOF] *)
  | PStr (text : bytes)                                      (** [T_STR] *)
  | PStruct (fields : list Value) (managed : list bool)      (** [T_STRUCT] *)
  | PList (items : list Value) (allocated : Z)               (** [T_LIST] *)
  | PFuncptr (lambdaID : Z)                                  (** [T_FUNCPTR] *)
  | PDiscard (lambdaID : Z)                                  (** [T_OP_DISCARD] *)
  | PAssert (lambdaID : Z)                                   (** [T_OP_ASSERT] *)
  | PCurry (lambdaID : Z) (curryValue : Value)               (** [T_OP_CURRY] *)
  | PConcat (concat1 concat2 concatBytes : Z)                (** [T_CONCAT] *)
  | PErr (success : bool) (errorValue : Value)               (** [T_ERR] *)
  | PAny (anyType : Z) (anyValue : Value).                   (** [T_ANYTYPE] *)

Record HeapEntry := MkEntry {
  contents : payload;
  gcMark : bool;
  internalValuesAreManaged : bool;
  externalReferenceCount : Z;
}.

Definition entry_type (e : HeapEntry) : Z :=
  match contents e with
  | PUnused _ => T_ERROR | PEof => T_EOF | PStr _ => T_STR | PStruct _ _ => T_STRUCT
  | PList _ _ => T_LIST | PFuncptr _ => T_FUNCPTR | PDiscard _ => T_OP_DISCARD
  | PAssert _ => T_OP_ASSERT | PCurry _ _ => T_OP_CURRY | PConcat _ _ _ => T_CONCAT
  | PErr _ _ => T_ERR | PAny _ _ => T_ANYTYPE
  end.

Definition set_contents (p : payload) (e : HeapEntry) : HeapEntry :=
  MkEntry p (gcMark e) (internalValuesAreManaged e) (externalReferenceCount e).
Definition set_mark (b : bool) (e : HeapEntry) : HeapEntry :=
  MkEntry (contents e) b (internalValuesAreManaged e) (externalReferenceCount e).
Definition set_managed (b : bool) (e : HeapEntry) : HeapEntry :=
  MkEntry (contents e) (gcMark e) b (externalReferenceCount e).
Definition set_references (n : Z) (e : HeapEntry) : HeapEntry :=
  MkEntry (contents e) (gcMark e) (internalValuesAreManaged e) n.

(** A variable or a stack entry: is it managed, and its value. *)
Abbreviation slot := (bool * Value)%type.

Record BackTraceItem := MkBackTrace {
  bt_instructionPointer : Z;
  popResult : bool;
  assertResult : bool;
  bt_variableBase : Z;
}.

(** A pointer to an element of the [waiters] of a coroutine: the coroutine, the
    capacity of the array when the pointer was taken (the array is reallocated when the
    capacity changes) and the index. *)
Record waiter_pointer := MkWaiterPointer {
  wp_coroutine : Z;
  wp_allocated : Z;
  wp_index : Z;
}.

Record CoroutineState := MkCoroutine {
  localVariables : list slot;        (** as many as are allocated *)
  localVariableCount : Z;
  stack : list slot;                 (** the top first *)
  backTrace : list BackTraceItem;    (** the top first *)
  id : Z;
  unblockedBy : Z;
  waiters : list (option Z);         (** the identifiers of the waiting coroutines *)
  waitersAllocated : Z;
  waitingOn : list waiter_pointer;
  awaiting : bool;
  startedByAsync : bool;
  externalCoroutine : bool;
  saved_instructionPointer : Z;
  saved_variableBase : Z;
  parameterCount : Z;
  returnValue : Value;
  returnValueType : Z;
}.

(** The list [allCoroutines] is split at the active coroutine. *)
Record ExecutionContext := MkContext {
  globalVariables : list slot;
  heap : list HeapEntry;
  heapFirstUnusedEntry : Z;
  functionData : bytes;
  before : list CoroutineState;
  c : CoroutineState;
  after : list CoroutineState;
  unblockedCoroutines : list Z;
  lastCoroutineID : Z;
  externalCoroutineCount : Z;
}.

Definition allCoroutines (x : ExecutionContext) : list CoroutineState :=
  before x ++ c x :: after x.

Definition set_heap (h : list HeapEntry) (x : ExecutionContext) : ExecutionContext :=
  MkContext (globalVariables x) h (heapFirstUnusedEntry x) (functionData x) (before x) (c x)
    (after x) (unblockedCoroutines x) (lastCoroutineID x) (externalCoroutineCount x).
Definition set_first (i : Z) (x : ExecutionContext) : ExecutionContext :=
  MkContext (globalVariables x) (heap x) i (functionData x) (before x) (c x)
    (after x) (unblockedCoroutines x) (lastCoroutineID x) (externalCoroutineCount x).
Definition set_active (k : CoroutineState) (x : ExecutionContext) : ExecutionContext :=
  MkContext (globalVariables x) (heap x) (heapFirstUnusedEntry x) (functionData x) (before x) k
    (after x) (unblockedCoroutines x) (lastCoroutineID x) (externalCoroutineCount x).
Definition set_globals (l : list slot) (x : ExecutionContext) : ExecutionContext :=
  MkContext l (heap x) (heapFirstUnusedEntry x) (functionData x) (before x) (c x)
    (after x) (unblockedCoroutines x) (lastCoroutineID x) (externalCoroutineCount x).

(** The entry with index [i]; a negative index is a large unsigned one. *)
Definition entry_at (h : list HeapEntry) (i : Z) : option HeapEntry :=
  if 0 <=? i then h !! Z.to_nat i else None.

Definition update_entry (i : Z) (f : HeapEntry -> HeapEntry) (h : list HeapEntry) : list HeapEntry :=
  alter f (Z.to_nat i) h.

(** ** HeapGarbageCollectMark *)

(** The values of the fields that are managed. *)
Fixpoint managed_fields (fields : list Value) (managed : list bool) : list Z :=
  match fields, managed with
  | v :: fields', b :: managed' => (if b then [v] else []) ++ managed_fields fields' managed'
  | _, _ => []
  end.

(** The entries an entry refers to, in the order in which they are marked; a
    concatenation goes on with the part that is itself a concatenation. *)
Definition references (h : list HeapEntry) (e : HeapEntry) : outcome (list Z) :=
  let inside v := if internalValuesAreManaged e then [v] else [] in
  match contents e with
  | PEof | PStr _ | PFuncptr _ => Ok []
  | PStruct fields managed => Ok (managed_fields fields managed)
  | PList items _ => Ok (if internalValuesAreManaged e then items else [])
  | PConcat c1 c2 _ =>
      match entry_at h c1 with
      | None => Stop OutOfBounds
      | Some e1 => Ok (if entry_type e1 =? T_CONCAT then [c2; c1] else [c1; c2])
      end
  | PDiscard l | PAssert l => Ok [l]
  | PCurry l v => Ok (l :: inside v)
  | PErr _ v | PAny _ v => Ok (inside v)
  | PUnused _ => Stop Assertion
  end.

Fixpoint mark_all (mark : list HeapEntry -> Z -> outcome (list HeapEntry)) (h : list HeapEntry) (l : list Z)
  : outcome (list HeapEntry) :=
  match l with
  | [] => Ok h
  | i :: l' => match mark h i with
               | Ok h' => mark_all mark h' l'
               | r => r
               end
  end.

Fixpoint HeapGarbageCollectMark (fuel : nat) (h : list HeapEntry) (index : Z) : outcome (list HeapEntry) :=
  match fuel with
  | O => Stop OutOfFuel
  | S fuel' =>
    match entry_at h index with
    | None => Stop Assertion
    | Some e =>
      if gcMark e then Ok h
      else
        let h := update_entry index (set_mark true) h in
        match references h e with
        | Ok l => mark_all (HeapGarbageCollectMark fuel') h l
        | RetFalse => RetFalse
        | Stop r => Stop r
        end
    end
  end.

(** ** HeapAllocate *)

(** The value of [nextUnusedEntry] in an entry that was just freed is written when the
    entry is linked. *)
Definition HeapFreeEntry (h : list HeapEntry) (i : Z) : outcome (list HeapEntry) :=
  match entry_at h i with
  | None => Stop OutOfBounds
  | Some e =>
      if is_type (entry_type e) [T_STR; T_STRUCT; T_LIST; T_OP_DISCARD; T_OP_ASSERT; T_FUNCPTR;
                                 T_OP_CURRY; T_CONCAT; T_ERR; T_ANYTYPE]
      then Ok (update_entry i (set_contents (PUnused 0)) h)
      else Stop Assertion
  end.

(** [*link = i]: the link is the first unused entry of the context or the pointer
    inside an unused entry. *)
Definition set_link (link : option Z) (i : Z) (x : ExecutionContext) : ExecutionContext :=
  match link with
  | None => set_first i x
  | Some l => set_heap (update_entry l (set_contents (PUnused i)) (heap x)) x
  end.

(** The roots, in the order in which they are marked. *)
Definition managed_slots (l : list slot) : list Z := map snd (filter (fun s => s.1 = true) l).
Definition coroutine_roots (k : CoroutineState) : list Z :=
  managed_slots (take (Z.to_nat (localVariableCount k)) (localVariables k)) ++
  managed_slots (rev (stack k)).
Definition roots (x : ExecutionContext) : list Z :=
  managed_slots (globalVariables x) ++ concat (map coroutine_roots (allCoroutines x)).

(** The sweep over the entries from [i] on: free and link what is neither marked nor
    referenced from outside.  Returns the last link and how many were reclaimed. *)
Fixpoint sweep (n : nat) (i : Z) (link : option Z) (reclaimed : Z) (x : ExecutionContext)
  : outcome (ExecutionContext * option Z * Z) :=
  match n with
  | O => Ok (x, link, reclaimed)
  | S n' =>
    match entry_at (heap x) i with
    | None => Stop OutOfBounds
    | Some e =>
      if negb (gcMark e) && (externalReferenceCount e =? 0) then
        match HeapFreeEntry (heap x) i with
        | Ok h => sweep n' (i + 1) (Some i) (reclaimed + 1) (set_link link i (set_heap h x))
        | RetFalse => RetFalse
        | Stop r => Stop r
        end
      else sweep n' (i + 1) link reclaimed x
    end
  end.

(** Link the new entries from [i] on. *)
Fixpoint link_new (n : nat) (i : Z) (link : option Z) (x : ExecutionContext)
  : ExecutionContext * option Z :=
  match n with
  | O => (x, link)
  | S n' =>
      let x := set_heap (update_entry i (set_contents (PUnused 0)) (heap x)) x in
      link_new n' (i + 1) (Some i) (set_link link i x)
  end.

Section Allocate.
(** What [realloc] leaves in an entry it adds. *)
Context (uninitialised : nat -> HeapEntry).

(** The branch of [HeapAllocate] taken when no entry is unused. *)
Definition collect (x : ExecutionContext) : outcome ExecutionContext :=
  let h := map (set_mark false) (heap x) in
  match mark_all (HeapGarbageCollectMark (S (length h))) h (roots x) with
  | RetFalse => RetFalse
  | Stop r => Stop r
  | Ok h =>
    match sweep (length h - 1) 1 None 0 (set_heap h x) with
    | RetFalse => RetFalse
    | Stop r => Stop r
    | Ok (x, link, reclaimed) =>
      let oldSize := length (heap x) in
      let '(x, link) :=
        if reclaimed <=? Z.of_nat oldSize / 5 then
          link_new oldSize (Z.of_nat oldSize) link
            (set_heap (heap x ++ map uninitialised (seq oldSize oldSize)) x)
        else (x, link) in
      Ok (set_link link 0 x)
    end
  end.

Definition HeapAllocate : M ExecutionContext Z := fun x =>
  let r := if heapFirstUnusedEntry x =? 0 then collect x else Ok x in
  match r with
  | RetFalse => (RetFalse, x)
  | Stop w => (Stop w, x)
  | Ok x =>
    let index := heapFirstUnusedEntry x in
    if index =? 0 then (Stop Assertion, x)
    else match entry_at (heap x) index with
    | Some (MkEntry (PUnused next) _ _ _) => (Ok index, set_first next x)
    | _ => (Stop OutOfBounds, x)
    end
  end.
End Allocate.

(** ** Reading and updating entries *)

Lemma entry_at_Some h i e : entry_at h i = Some e <-> 0 <= i /\ h !! Z.to_nat i = Some e.
Proof.
  unfold entry_at. destruct (Z.leb_spec 0 i); split; try done; try lia; naive_solver.
Qed.

Lemma entry_at_range h i e : entry_at h i = Some e -> 0 <= i < Z.of_nat (length h).
Proof. rewrite entry_at_Some. intros [? H%lookup_lt_Some]. lia. Qed.

Lemma entry_at_exists h i : 0 <= i < Z.of_nat (length h) -> exists e, entry_at h i = Some e.
Proof.
  intros H. destruct (lookup_lt_is_Some_2 h (Z.to_nat i)) as [e He]; [lia|].
  exists e. apply entry_at_Some. split; [lia|done].
Qed.

Lemma length_update_entry i f h : length (update_entry i f h) = length h.
Proof. apply length_alter. Qed.

Lemma entry_at_update i f h e : entry_at h i = Some e -> entry_at (update_entry i f h) i = Some (f e).
Proof.
  rewrite !entry_at_Some. intros [? H]. split; [done|].
  unfold update_entry. by rewrite list_lookup_alter_eq, H.
Qed.

Lemma entry_at_update_ne i j f h : 0 <= i -> i <> j -> entry_at (update_entry i f h) j = entry_at h j.
Proof.
  intros Hi Hne. unfold entry_at. destruct (Z.leb_spec 0 j); [|done].
  apply list_lookup_alter_ne. lia.
Qed.

Lemma entry_at_map f h i : entry_at (map f h) i = f <$> entry_at h i.
Proof. unfold entry_at. case_match; [|done]. apply list_lookup_fmap. Qed.

Lemma entry_at_app_l h h' i e : entry_at h i = Some e -> entry_at (h ++ h') i = Some e.
Proof. rewrite !entry_at_Some. intros [? H]. split; [done|]. by apply lookup_app_l_Some. Qed.

(** ** What can be reached *)

Definition is_unused (p : payload) : bool := match p with PUnused _ => true | _ => false end.

(** The entries an entry refers to. *)
Definition links (p : payload) (managed : bool) : list Z :=
  let inside v := if managed then [v] else [] in
  match p with
  | PUnused _ | PEof | PStr _ | PFuncptr _ => []
  | PStruct fields flags => managed_fields fields flags
  | PList items _ => if managed then items else []
  | PConcat c1 c2 _ => [c1; c2]
  | PDiscard l | PAssert l => [l]
  | PCurry l v => l :: inside v
  | PErr _ v | PAny _ v => inside v
  end.
Definition entry_children (e : HeapEntry) : list Z := links (contents e) (internalValuesAreManaged e).

Definition refers (h : list HeapEntry) (i j : Z) : Prop :=
  exists e, entry_at h i = Some e /\ j ∈ entry_children e.
Definition reach (h : list HeapEntry) (R : list Z) (i : Z) : Prop :=
  exists r, r ∈ R /\ rtc (refers h) r i.

(** What the program sees of an entry: all but its mark. *)
Definition visible (e : HeapEntry) : payload * bool * Z :=
  (contents e, internalValuesAreManaged e, externalReferenceCount e).

Definition in_use (h : list HeapEntry) (i : Z) : Prop :=
  exists e, entry_at h i = Some e /\ is_unused (contents e) = false.

Definition marked (h : list HeapEntry) (i : Z) : Prop :=
  exists e, entry_at h i = Some e /\ gcMark e = true.

(** [h'] is [h] with other marks. *)
Definition same_visible (h h' : list HeapEntry) : Prop := map visible h' = map visible h.

Lemma reach_root h R i : i ∈ R -> reach h R i.
Proof. intros. exists i. split; [done|apply rtc_refl]. Qed.

Lemma reach_step h R i j : reach h R i -> refers h i j -> reach h R j.
Proof. intros (r & Hr & Hi) Hj. exists r. split; [done|]. by eapply rtc_r. Qed.

Lemma reach_sub h R R' i : (forall r, r ∈ R -> reach h R' r) -> reach h R i -> reach h R' i.
Proof.
  intros H (r & Hr & Hi). destruct (H r Hr) as (r' & Hr' & Hr''). exists r'.
  split; [done|]. by etransitivity.
Qed.

Lemma reach_closed h R (P : Z -> Prop) :
  (forall r, r ∈ R -> P r) -> (forall i j, P i -> refers h i j -> P j) -> forall i, reach h R i -> P i.
Proof. intros HR Hstep i (r & Hr%HR & Hi). induction Hi; eauto. Qed.

#[export] Hint Resolve reach_root reach_step : essence.

Lemma same_visible_refl h : same_visible h h.
Proof. done. Qed.
Lemma same_visible_trans h1 h2 h3 : same_visible h1 h2 -> same_visible h2 h3 -> same_visible h1 h3.
Proof. unfold same_visible. congruence. Qed.
Lemma same_visible_sym h1 h2 : same_visible h1 h2 -> same_visible h2 h1.
Proof. unfold same_visible. congruence. Qed.

Lemma same_visible_length h h' : same_visible h h' -> length h' = length h.
Proof. intros H%(f_equal length). by rewrite !length_map in H. Qed.

Lemma same_visible_at h h' i e :
  same_visible h h' -> entry_at h i = Some e -> exists e', entry_at h' i = Some e' /\ visible e' = visible e.
Proof.
  intros H He. assert (entry_at h' i = None \/ exists e', entry_at h' i = Some e') as [Hn|[e' He']].
  { destruct (entry_at h' i); eauto. }
  - apply entry_at_range in He. rewrite <- (same_visible_length _ _ H) in He.
    apply entry_at_exists in He as [? ?]. congruence.
  - exists e'. split; [done|]. apply entry_at_Some in He as [Hi He], He' as [_ He'].
    apply (f_equal (lookup (Z.to_nat i))) in H. rewrite !list_lookup_fmap, He, He' in H.
    cbn [fmap option_fmap option_map] in H. congruence.
Qed.

Lemma visible_contents e e' : visible e' = visible e -> contents e' = contents e.
Proof. unfold visible. congruence. Qed.

Lemma visible_children e e' : visible e' = visible e -> entry_children e' = entry_children e.
Proof. unfold visible, entry_children. intros. simplify_eq. congruence. Qed.

Lemma same_visible_refers h h' i j : same_visible h h' -> refers h i j -> refers h' i j.
Proof.
  intros H (e & He & Hj). destruct (same_visible_at _ _ _ _ H He) as (e' & He' & Hv).
  exists e'. split; [done|]. by rewrite (visible_children _ _ Hv).
Qed.

Lemma same_visible_reach h h' R i : same_visible h h' -> reach h R i -> reach h' R i.
Proof.
  intros H (r & Hr & Hi). exists r. split; [done|]. revert Hi. apply rtc_subrel.
  intros ???. by eapply same_visible_refers.
Qed.

Lemma same_visible_in_use h h' i : same_visible h h' -> in_use h i -> in_use h' i.
Proof.
  intros H (e & He & Hu). destruct (same_visible_at _ _ _ _ H He) as (e' & He' & Hv).
  exists e'. split; [done|]. by rewrite (visible_contents _ _ Hv).
Qed.

(** The relation of entries is the same for heaps with the same visible entries. *)
#[export] Instance refers_proper i j : Proper (same_visible ==> iff) (fun h => refers h i j).
Proof. intros h h' H. split; [by apply same_visible_refers|]. by apply same_visible_refers, same_visible_sym. Qed.

Lemma references_children h e :
  is_unused (contents e) = false ->
  (forall i, i ∈ entry_children e -> exists e', entry_at h i = Some e') ->
  exists l, references h e = Ok l /\ forall i, i ∈ l <-> i ∈ entry_children e.
Proof.
  unfold references, entry_children. intros Hu Hin. destruct (contents e) eqn:He; try done; try (eexists; split; [done|]; done).
  cbn in Hin. destruct (Hin concat1) as [e1 He1]; [set_solver|]. rewrite He1.
  eexists. split; [done|]. intros i. cbn. case_match; set_solver.
Qed.

(** ** Marking *)

Definition unmarked (h : list HeapEntry) : nat := length (filter (fun e => gcMark e = false) h).

(** [h'] is [h] after marking from [R]. *)
Record mark_result (h : list HeapEntry) (R : list Z) (h' : list HeapEntry) : Prop := {
  mr_visible : same_visible h h';
  mr_mono : forall i, marked h i -> marked h' i;
  mr_roots : forall i, i ∈ R -> marked h' i;
  mr_closed : forall i j, marked h' i -> ~ marked h i -> refers h i j -> marked h' j;
  mr_sound : forall i, marked h' i -> marked h i \/ reach h R i;
}.

Lemma marked_dec h i e : entry_at h i = Some e -> marked h i <-> gcMark e = true.
Proof. intros He. split; [intros (e' & He' & Hm); congruence|]. intros. by exists e. Qed.

Lemma unmarked_mono h h' :
  same_visible h h' -> (forall i, marked h i -> marked h' i) -> (unmarked h' <= unmarked h)%nat.
Proof.
  intros Hv Hm.
  assert (HF : Forall2 (fun e e' => gcMark e = true -> gcMark e' = true) h h').
  { apply Forall2_same_length_lookup. split; [by rewrite (same_visible_length _ _ Hv)|].
    intros k e e' He He' Hg.
    assert (entry_at h (Z.of_nat k) = Some e) by (apply entry_at_Some; rewrite Nat2Z.id; split; [lia|done]).
    assert (entry_at h' (Z.of_nat k) = Some e') by (apply entry_at_Some; rewrite Nat2Z.id; split; [lia|done]).
    apply (marked_dec h' (Z.of_nat k)), Hm, (marked_dec h _ e); done. }
  clear Hv Hm. unfold unmarked.
  induction HF as [|e e' h h' He _ IH]; [done|].
  rewrite !filter_cons. destruct (gcMark e), (gcMark e'); repeat case_decide; cbn; try lia; naive_solver.
Qed.

Lemma unmarked_le h : (unmarked h <= length h)%nat.
Proof. apply length_filter. Qed.

Lemma unmarked_update h i e :
  entry_at h i = Some e -> gcMark e = false -> unmarked h = S (unmarked (update_entry i (set_mark true) h)).
Proof.
  rewrite entry_at_Some. intros [_ He] Hg. unfold unmarked, update_entry. revert He.
  generalize (Z.to_nat i). clear i. intros k. revert h.
  induction k as [|k IH]; intros [|e0 h] He; try done; cbn [alter list_alter]; rewrite !filter_cons.
  - injection He as ->. rewrite decide_True by done. by rewrite decide_False by done.
  - case_decide; cbn; [f_equal|]; by apply IH.
Qed.

Lemma update_mark_visible h i : same_visible h (update_entry i (set_mark true) h).
Proof.
  unfold same_visible, update_entry. generalize (Z.to_nat i). clear i. intros k. revert h.
  induction k as [|k IH]; intros [|e h]; try done; cbn; f_equal. apply IH.
Qed.

Lemma update_mark_marked h i e j :
  entry_at h i = Some e -> marked (update_entry i (set_mark true) h) j <-> j = i \/ marked h j.
Proof.
  intros He. assert (0 <= i) by (apply entry_at_range in He; lia).
  destruct (decide (j = i)) as [->|Hne].
  - split; [by left|]. intros _. eexists. split; [by apply entry_at_update|done].
  - unfold marked. rewrite entry_at_update_ne by done. naive_solver.
Qed.

Lemma mark_result_nil h : mark_result h [] h.
Proof. split; eauto; try done. by intros ? ?%elem_of_nil. Qed.

Lemma mark_result_app h1 R1 h2 R2 h3 :
  mark_result h1 R1 h2 -> mark_result h2 R2 h3 -> mark_result h1 (R1 ++ R2) h3.
Proof.
  intros [V1 M1 R1' C1 S1] [V2 M2 R2' C2 S2]. split.
  - by eapply same_visible_trans.
  - eauto.
  - intros i [?|?]%elem_of_app; eauto.
  - intros i j Hi Hn Hr. destruct (S2 i Hi) as [H2|H2]; [eauto|].
    destruct (decide (gcMark <$> entry_at h2 i = Some true)) as [Hd|Hd].
    + apply M2, (C1 i); [|done..]. destruct (entry_at h2 i) as [e|] eqn:He; [|done].
      exists e. by simplify_eq/=.
    + apply (C2 i); [done| |by apply (same_visible_refers h1)].
      intros (e & He & Hg). apply Hd. rewrite He. cbn. congruence.
  - intros i [Hi|Hi]%S2.
    + destruct (S1 i Hi) as [?|Hr]; [by left|right]. revert Hr. apply reach_sub.
      intros r Hr. apply reach_root, elem_of_app. by left.
    + right. apply (same_visible_reach _ h1) in Hi; [|by apply same_visible_sym].
      revert Hi. apply reach_sub. intros r Hr. apply reach_root, elem_of_app. by right.
Qed.

Lemma mark_result_entry h i e l h' :
  entry_at h i = Some e -> (forall j, j ∈ l <-> j ∈ entry_children e) ->
  mark_result (update_entry i (set_mark true) h) l h' -> mark_result h [i] h'.
Proof.
  intros He Hl [V Mm Rr C S]. pose proof (update_mark_visible h i) as Hv. split.
  - by eapply same_visible_trans.
  - intros j Hj. apply Mm. rewrite (update_mark_marked h i e) by done. by right.
  - intros j ->%list_elem_of_singleton. apply Mm. rewrite (update_mark_marked h i e) by done. by left.
  - intros j k Hj Hn Hr. destruct (decide (j = i)) as [->|Hne].
    + destruct Hr as (e' & He' & Hk). apply Rr, Hl. congruence.
    + apply (C j); [done| |by apply (same_visible_refers h)].
      rewrite (update_mark_marked h i e) by done. naive_solver.
  - intros j [Hj|Hj]%S.
    + apply (update_mark_marked h i e) in Hj as [->|?]; [right|by left|done].
      apply reach_root. set_solver.
    + right. apply (same_visible_reach _ h) in Hj; [|by apply same_visible_sym].
      revert Hj. apply reach_sub. intros r Hr. apply (reach_step _ _ i); [apply reach_root; set_solver|].
      exists e. split; [done|]. by apply Hl.
Qed.

(** With as much fuel as there are entries that are not marked, marking terminates. *)
Lemma mark_all_spec f l h :
  (forall h i, (unmarked h < f)%nat -> (forall j, reach h [i] j -> in_use h j) ->
     exists h', HeapGarbageCollectMark f h i = Ok h' /\ mark_result h [i] h') ->
  (unmarked h < f)%nat -> (forall j, reach h l j -> in_use h j) ->
  exists h', mark_all (HeapGarbageCollectMark f) h l = Ok h' /\ mark_result h l h'.
Proof.
  intros Hf. revert h. induction l as [|i l IH]; intros h Hu Hin; cbn [mark_all].
  { exists h. split; [done|apply mark_result_nil]. }
  destruct (Hf h i) as (h1 & -> & H1); [done| |].
  { intros j Hj. apply Hin. revert Hj. apply reach_sub. intros r ->%list_elem_of_singleton.
    apply reach_root. set_solver. }
  destruct (IH h1) as (h2 & -> & H2).
  - pose proof (unmarked_mono h h1 (mr_visible _ _ _ H1) (mr_mono _ _ _ H1)). lia.
  - intros j Hj. apply (same_visible_in_use h); [apply H1|]. apply Hin.
    apply (same_visible_reach _ h) in Hj; [|apply same_visible_sym, H1].
    revert Hj. apply reach_sub. intros r Hr. apply reach_root. set_solver.
  - exists h2. split; [done|]. by apply (mark_result_app _ [i] h1).
Qed.

Lemma mark_spec f h i :
  (unmarked h < f)%nat -> (forall j, reach h [i] j -> in_use h j) ->
  exists h', HeapGarbageCollectMark f h i = Ok h' /\ mark_result h [i] h'.
Proof.
  revert h i. induction f as [|f IH]; intros h i Hu Hin; [lia|]. cbn [HeapGarbageCollectMark].
  destruct (Hin i) as (e & He & Hlive); [apply reach_root; set_solver|]. rewrite He.
  destruct (gcMark e) eqn:Hg.
  { exists h. split; [done|]. split; try done; [|by left].
    intros j ->%list_elem_of_singleton. by exists e. }
  pose proof (unmarked_update h i e He Hg). pose proof (update_mark_visible h i) as Hv.
  set (h1 := update_entry i (set_mark true) h) in *.
  assert (Hkid : forall j, j ∈ entry_children e -> reach h [i] j).
  { intros j Hj. apply (reach_step _ _ i); [apply reach_root; set_solver|]. by exists e. }
  destruct (references_children h1 e Hlive) as (l & -> & Hl).
  { intros j Hj%Hkid%Hin. apply (same_visible_in_use _ _ _ Hv) in Hj as (e' & He' & _). by exists e'. }
  destruct (mark_all_spec f l h1 IH) as (h' & -> & Hr); [lia| |].
  - intros j Hj. apply (same_visible_in_use _ _ _ Hv), Hin.
    apply (same_visible_reach _ h) in Hj; [|by apply same_visible_sym].
    revert Hj. apply reach_sub. intros r Hr. by apply Hkid, Hl.
  - exists h'. split; [done|]. by apply (mark_result_entry h i e l).
Qed.

Lemma unmarked_clear h : forall i, ~ marked (map (set_mark false) h) i.
Proof.
  intros i (e & He & Hg). rewrite entry_at_map in He.
  destruct (entry_at h i); [|done]. cbn in He. by simplify_eq.
Qed.

Lemma clear_visible h : same_visible h (map (set_mark false) h).
Proof. unfold same_visible. rewrite map_map. done. Qed.

Lemma mark_roots_spec h R :
  (forall j, reach h R j -> in_use h j) ->
  exists h', mark_all (HeapGarbageCollectMark (S (length h))) (map (set_mark false) h) R = Ok h' /\
    same_visible h h' /\ forall i, marked h' i <-> reach h R i.
Proof.
  intros Hin. pose proof (clear_visible h) as Hv. set (h0 := map (set_mark false) h) in *.
  assert (Hback : forall i, reach h0 R i -> reach h R i).
  { intros i. apply same_visible_reach. by apply same_visible_sym. }
  destruct (mark_all_spec (S (length h)) R h0) as (h' & -> & Hr).
  - intros. by apply mark_spec.
  - pose proof (unmarked_le h0). unfold h0 in *. rewrite length_map in *. lia.
  - intros j Hj. by apply (same_visible_in_use h), Hin, Hback.
  - exists h'. split; [done|]. split; [apply (same_visible_trans _ h0); [done|apply Hr]|].
    intros i. split.
    + intros Hi. destruct (mr_sound _ _ _ Hr i Hi) as [Hu|Hu]; [by apply unmarked_clear in Hu|]. by apply Hback.
    + intros Hi. apply (same_visible_reach _ h0) in Hi; [|done]. revert i Hi. apply reach_closed.
      * apply Hr.
      * intros i j Hi. apply (mr_closed _ _ _ Hr i j Hi), unmarked_clear.
Qed.

(** ** The list of unused entries *)

(** The entries [l] are linked, from [a] on and up to [b]. *)
Fixpoint chain (h : list HeapEntry) (a : Z) (l : list Z) (b : Z) : Prop :=
  match l with
  | [] => a = b
  | i :: l' => a = i /\ 0 < i /\ exists e n, entry_at h i = Some e /\ contents e = PUnused n /\ chain h n l' b
  end.

Lemma chain_app h a l1 l2 b : chain h a (l1 ++ l2) b <-> exists m, chain h a l1 m /\ chain h m l2 b.
Proof.
  revert a. induction l1 as [|i l1 IH]; intros a; cbn; [naive_solver|].
  split.
  - intros (-> & Hi & e & n & He & Hc & (m & ? & ?)%IH). eauto 12.
  - intros (m & (-> & Hi & e & n & He & Hc & H1) & H2). split; [done|]. split; [done|].
    exists e, n. split; [done|]. split; [done|]. apply IH. eauto.
Qed.

(** A chain depends on the contents of its entries alone. *)
Lemma chain_ext h h' a l b :
  (forall i e, i ∈ l -> entry_at h i = Some e -> exists e', entry_at h' i = Some e' /\ contents e' = contents e) ->
  chain h a l b -> chain h' a l b.
Proof.
  revert a. induction l as [|i l IH]; intros a H; cbn; [done|].
  intros (-> & Hi & e & n & He & Hc & Hl). destruct (H i e) as (e' & He' & Hc'); [set_solver|done|].
  split; [done|]. split; [done|]. exists e', n. split; [done|]. split; [congruence|].
  apply IH; [|done]. intros j ej Hj. apply H. set_solver.
Qed.

Lemma chain_in h a l b i : chain h a l b -> i ∈ l -> 0 < i /\ exists e, entry_at h i = Some e /\ is_unused (contents e) = true.
Proof.
  revert a. induction l as [|j l IH]; intros a; cbn; [by intros _ ?%elem_of_nil|].
  intros (-> & Hi & e & n & He & Hc & Hl) [->|Hin]%elem_of_cons; [|by eapply IH].
  split; [done|]. exists e. by rewrite Hc.
Qed.

(** The unused entries are exactly those of the chain of the context. *)
Definition unused_list (h : list HeapEntry) (a : Z) (l : list Z) : Prop :=
  chain h a l 0 /\ NoDup l /\ forall i e, entry_at h i = Some e -> is_unused (contents e) = true -> i ∈ l.

(** Whatever is written through the link ends the chain [l] of the context. *)
Definition open_chain (x : ExecutionContext) (link : option Z) (l : list Z) : Prop :=
  forall v, chain (heap (set_link link v x)) (heapFirstUnusedEntry (set_link link v x)) l v.

Lemma set_link_heap_ne link v x i :
  (forall k, link = Some k -> 0 <= k /\ k <> i) -> entry_at (heap (set_link link v x)) i = entry_at (heap x) i.
Proof. destruct link as [k|]; cbn; [|done]. intros H. destruct (H k eq_refl). by apply entry_at_update_ne. Qed.

Record linked (x : ExecutionContext) (link : option Z) (l : list Z) : Prop := {
  lk_open : open_chain x link l;
  lk_nodup : NoDup l;
  lk_in : forall k, link = Some k -> k ∈ l;
}.

(** Contexts that differ in the heap and in the first unused entry only. *)
Definition same_rest (x x' : ExecutionContext) : Prop :=
  x' = set_first (heapFirstUnusedEntry x') (set_heap (heap x') x).

(** [x'] differs from [x] in the entries [l] only. *)
Record outside (l : list Z) (x x' : ExecutionContext) : Prop := {
  os_rest : same_rest x x';
  os_length : length (heap x') = length (heap x);
  os_entries : forall j, j ∉ l -> entry_at (heap x') j = entry_at (heap x) j;
}.

Lemma same_rest_trans x1 x2 x3 : same_rest x1 x2 -> same_rest x2 x3 -> same_rest x1 x3.
Proof. unfold same_rest. intros -> ->. done. Qed.

Lemma same_rest_roots x x' : same_rest x x' -> roots x' = roots x.
Proof. intros ->. done. Qed.

Lemma outside_trans l l' x1 x2 x3 : outside l x1 x2 -> outside l' x2 x3 -> outside (l ++ l') x1 x3.
Proof.
  intros [R1 L1 E1] [R2 L2 E2]. split; [by eapply same_rest_trans|congruence|].
  intros j [??]%not_elem_of_app. rewrite E2, E1; done.
Qed.

Lemma outside_sub l l' x x' : (forall i, i ∈ l -> i ∈ l') -> outside l x x' -> outside l' x x'.
Proof. intros H [R L E]. split; [done..|]. intros j Hj. apply E. naive_solver. Qed.

Lemma linked_in x link l i : linked x link l -> i ∈ l -> 0 < i.
Proof. intros [H _ _] Hi. by apply (chain_in _ _ _ _ _ (H 0)) in Hi as [? _]. Qed.

Lemma set_link_length link v x : length (heap (set_link link v x)) = length (heap x).
Proof. destruct link; cbn; [apply length_update_entry|done]. Qed.

(** Freeing the entry [i] and linking it. *)
Lemma link_one x link l i e :
  linked x link l -> i ∉ l -> 0 < i -> entry_at (heap x) i = Some e ->
  let x' := set_link link i (set_heap (update_entry i (set_contents (PUnused 0)) (heap x)) x) in
  linked x' (Some i) (l ++ [i]) /\ outside (l ++ [i]) x x'.
Proof.
  intros Hl Hi Hpos He x'.
  assert (Hlink : forall j, j ∉ l -> forall k, link = Some k -> 0 <= k /\ k <> j).
  { intros j Hj k Hk. apply (lk_in _ _ _ Hl) in Hk. pose proof (linked_in _ _ _ _ Hl Hk).
    split; [lia|]. congruence. }
  assert (Hx' : entry_at (heap x') i = Some (set_contents (PUnused 0) e)).
  { unfold x'. rewrite set_link_heap_ne by auto. by apply entry_at_update. }
  split; [split|split].
  - intros v. cbn [set_link heap set_heap heapFirstUnusedEntry]. apply chain_app. exists i. split.
    + apply (chain_ext (heap (set_link link i x))); [|destruct link; apply (lk_open _ _ _ Hl i)].
      intros j ej Hj Hej. assert (j <> i) by congruence. rewrite entry_at_update_ne by lia.
      unfold x'. destruct link as [k|]; cbn in *.
      * destruct (decide (k = j)) as [->|Hkj].
        -- assert (exists e0, entry_at (heap x) j = Some e0) as [e0 He0].
           { apply entry_at_exists. apply entry_at_range in Hej. by rewrite length_update_entry in Hej. }
           rewrite (entry_at_update _ _ _ e0 He0) in Hej. simplify_eq.
           rewrite (entry_at_update _ _ _ e0); [eauto|]. rewrite entry_at_update_ne by lia. done.
        -- assert (0 < k) by (apply (linked_in _ _ _ _ Hl), (lk_in _ _ _ Hl); done).
           rewrite entry_at_update_ne in Hej by lia. rewrite !entry_at_update_ne by lia. eauto.
      * rewrite entry_at_update_ne by lia. eauto.
    + cbn. split; [done|]. split; [done|]. exists (set_contents (PUnused v) (set_contents (PUnused 0) e)), v.
      split; [by apply entry_at_update|]. done.
  - apply list.NoDup_app. split; [apply Hl|]. split; [set_solver|apply NoDup_singleton].
  - intros k [= <-]. set_solver.
  - unfold x', same_rest. by destruct link.
  - unfold x'. rewrite set_link_length. cbn. by rewrite length_update_entry.
  - intros j [Hj Hne%not_elem_of_cons]%not_elem_of_app. unfold x'. rewrite set_link_heap_ne by auto.
    cbn. rewrite entry_at_update_ne; [done|lia|naive_solver].
Qed.

Definition freeable (p : payload) : Prop := is_unused p = false /\ p <> PEof.

Lemma HeapFreeEntry_ok h i e :
  entry_at h i = Some e -> freeable (contents e) ->
  HeapFreeEntry h i = Ok (update_entry i (set_contents (PUnused 0)) h).
Proof.
  intros He [Hu Hn]. unfold HeapFreeEntry. rewrite He.
  unfold entry_type. by destruct (contents e).
Qed.

(** What the sweep reclaims. *)
Definition garbage (h : list HeapEntry) (j : Z) : Prop :=
  exists e, entry_at h j = Some e /\ gcMark e = false /\ externalReferenceCount e = 0.

Lemma sweep_spec n i link r x l0 :
  linked x link l0 -> (forall j, j ∈ l0 -> j < i) -> 1 <= i -> i + Z.of_nat n <= Z.of_nat (length (heap x)) ->
  (forall j e, i <= j -> entry_at (heap x) j = Some e -> freeable (contents e)) ->
  exists x' link' l1, sweep n i link r x = Ok (x', link', r + Z.of_nat (length l1)) /\
    linked x' link' (l0 ++ l1) /\ outside (l0 ++ l1) x x' /\
    forall j, j ∈ l1 <-> i <= j < i + Z.of_nat n /\ garbage (heap x) j.
Proof.
  revert i link r x l0. induction n as [|n IH]; intros i link r x l0 Hl Hlt Hi Hlen Hfree; cbn [sweep].
  { exists x, link, []. rewrite app_nil_r. split; [do 2 f_equal; cbn; lia|]. split; [done|].
    split; [split; [by destruct x|done..]|]. intros j. rewrite elem_of_nil. split; [done|lia]. }
  destruct (entry_at_exists (heap x) i) as [e He]; [lia|]. rewrite He.
  destruct (negb (gcMark e) && (externalReferenceCount e =? 0)) eqn:Hg.
  - rewrite (HeapFreeEntry_ok _ _ e He) by (apply (Hfree i); [lia|done]).
    destruct (link_one x link l0 i e) as [Hl' Ho]; [done| |lia|done|].
    { intros H%Hlt. lia. }
    set (x1 := set_link link i _) in *.
    assert (Hsame : forall j, i < j -> entry_at (heap x1) j = entry_at (heap x) j).
    { intros j Hj. apply Ho. rewrite elem_of_app, list_elem_of_singleton. intros [H%Hlt|H]; lia. }
    destruct (IH (i + 1) (Some i) (r + 1) x1 (l0 ++ [i])) as (x' & link' & l1 & -> & Hl1 & Ho1 & Hin).
    + done.
    + intros j [H%Hlt|H%list_elem_of_singleton]%elem_of_app; lia.
    + lia.
    + rewrite (os_length _ _ _ Ho). lia.
    + intros j ej Hj. rewrite Hsame by lia. apply Hfree. lia.
    + exists x', link', (i :: l1). rewrite <- app_assoc in Hl1, Ho1.
      split; [do 2 f_equal; cbn; lia|]. split; [done|]. split.
      { apply (outside_sub ((l0 ++ [i]) ++ l0 ++ [i] ++ l1)); [set_solver|]. by eapply outside_trans. }
      intros j. rewrite elem_of_cons, Hin. unfold garbage. split.
      * intros [->|[? Hj]].
        { apply andb_prop in Hg as [Hg1%negb_true_iff Hg2%Z.eqb_eq]. split; [lia|]. by exists e. }
        rewrite Hsame in Hj by lia. split; [lia|done].
      * intros [? Hj]. destruct (decide (j = i)); [by left|right]. rewrite Hsame by lia. split; [lia|done].
  - destruct (IH (i + 1) link r x l0) as (x' & link' & l1 & -> & Hl1 & Ho1 & Hin); try done; try lia.
    + intros j H%Hlt. lia.
    + intros j ej Hj. apply Hfree. lia.
    + exists x', link', l1. split; [done|]. split; [done|]. split; [done|].
      intros j. rewrite Hin. split; [intros [??]; split; [lia|done]|].
      intros [? Hj]. destruct (decide (j = i)) as [->|]; [|split; [lia|done]].
      destruct Hj as (e' & He' & Hm & Hx). assert (e' = e) as -> by congruence. rewrite Hm, Hx in Hg. done.
Qed.

Lemma link_new_spec n i link x l0 :
  linked x link l0 -> (forall j, j ∈ l0 -> j < i) -> 0 < i -> i + Z.of_nat n = Z.of_nat (length (heap x)) ->
  exists x' link', link_new n i link x = (x', link') /\
    linked x' link' (l0 ++ seqZ i (Z.of_nat n)) /\ outside (l0 ++ seqZ i (Z.of_nat n)) x x'.
Proof.
  revert i link x l0. induction n as [|n IH]; intros i link x l0 Hl Hlt Hi Hlen; cbn [link_new].
  { exists x, link. rewrite app_nil_r. split; [done|]. split; [done|]. split; [by destruct x|done..]. }
  destruct (entry_at_exists (heap x) i) as [e He]; [lia|].
  destruct (link_one x link l0 i e) as [Hl' Ho]; [done| |done..|].
  { intros H%Hlt. lia. }
  destruct (IH (i + 1) (Some i) (set_link link i (set_heap (update_entry i (set_contents (PUnused 0)) (heap x)) x))
             (l0 ++ [i])) as (x' & link' & -> & Hl1 & Ho1).
  - done.
  - intros j [H%Hlt|H%list_elem_of_singleton]%elem_of_app; lia.
  - lia.
  - rewrite (os_length _ _ _ Ho). lia.
  - exists x', link'. split; [done|].
    rewrite (seqZ_cons i) by lia. replace (Z.pred (Z.of_nat (S n))) with (Z.of_nat n) by lia.
    rewrite <- app_assoc in Hl1, Ho1. split; [done|].
    apply (outside_sub ((l0 ++ [i]) ++ l0 ++ [i] ++ seqZ (Z.succ i) (Z.of_nat n))); [set_solver|].
    by eapply outside_trans.
Qed.

Lemma linked_grow x link l u : linked x link l -> linked (set_heap (heap x ++ u) x) link l.
Proof.
  intros [Ho Hn Hi]. split; [|done..]. intros v.
  assert (Hf : heapFirstUnusedEntry (set_link link v (set_heap (heap x ++ u) x)) =
               heapFirstUnusedEntry (set_link link v x)) by by destruct link.
  rewrite Hf. apply (chain_ext (heap (set_link link v x))); [|apply Ho].
  intros i e _ He. exists e. split; [|done]. destruct link as [k|]; cbn in *; [|by apply entry_at_app_l].
  assert (0 <= k < Z.of_nat (length (heap x))).
  { destruct (chain_in _ _ _ _ k (Ho v) (Hi k eq_refl)) as (_ & ek & Hk & _).
    apply entry_at_range in Hk. cbn in Hk. by rewrite length_update_entry in Hk. }
  unfold update_entry in *. rewrite alter_app_l by lia. by apply entry_at_app_l.
Qed.

(** The entries of the chain, when it is closed, are the unused ones if all others are in use. *)
Lemma linked_close x link l :
  linked x link l ->
  let x' := set_link link 0 x in
  chain (heap x') (heapFirstUnusedEntry x') l 0 /\ outside l x x'.
Proof.
  intros Hl. split; [apply Hl|]. split.
  - unfold same_rest. by destruct x, link.
  - apply set_link_length.
  - intros j Hj. apply set_link_heap_ne. intros k Hk%(lk_in _ _ _ Hl). split; [|congruence].
    pose proof (linked_in _ _ _ _ Hl Hk). lia.
Qed.

(** ** The invariant of the heap *)

(** Entry 0 is the null entry; the unused entries are linked; what can be reached is in
    use. *)
Record heap_ok (x : ExecutionContext) : Prop := {
  ho_null : exists e, entry_at (heap x) 0 = Some e /\ contents e = PEof;
  ho_eof : forall i e, entry_at (heap x) i = Some e -> contents e = PEof -> i = 0;
  ho_unused : exists l, unused_list (heap x) (heapFirstUnusedEntry x) l;
  ho_reach : forall i, reach (heap x) (roots x) i ->
    exists e, entry_at (heap x) i = Some e /\ is_unused (contents e) = false;
}.

(** What the program can name: the null entry and what can be reached. *)
Definition reachable (x : ExecutionContext) (i : Z) : Prop := i = 0 \/ reach (heap x) (roots x) i.

Lemma reachable_in_use x i :
  heap_ok x -> reachable x i -> exists e, entry_at (heap x) i = Some e /\ is_unused (contents e) = false.
Proof.
  intros Hok [->|Hi]; [|by apply Hok]. destruct (ho_null _ Hok) as (e & He & Hc). exists e. by rewrite Hc.
Qed.

Lemma reachable_step x i j : heap_ok x -> reachable x i -> refers (heap x) i j -> reachable x j.
Proof.
  intros Hok [->|Hi] Hj; [|right; by apply (reach_step _ _ i)].
  destruct (ho_null _ Hok) as (e & He & Hc), Hj as (e' & He' & Hj). assert (e' = e) as -> by congruence.
  unfold entry_children in Hj. rewrite Hc in Hj. by apply elem_of_nil in Hj.
Qed.

(** Everything reached from entries the program can name is such an entry. *)
Lemma reachable_closed x R : heap_ok x -> (forall r, r ∈ R -> reachable x r) -> forall i, reach (heap x) R i -> reachable x i.
Proof. intros Hok HR. apply reach_closed; [done|]. intros i j. by apply reachable_step. Qed.

Lemma unused_list_none h l : unused_list h 0 l -> forall i e, entry_at h i = Some e -> is_unused (contents e) = false.
Proof.
  intros (Hc & _ & Hin) i e He. destruct (is_unused (contents e)) eqn:Hu; [|done].
  specialize (Hin i e He Hu). destruct l as [|j l]; [by apply elem_of_nil in Hin|]. cbn in Hc. lia.
Qed.

(** An entry that can go: not the null entry, not reached and not held by external code. *)
Definition reclaimable (x : ExecutionContext) (i : Z) : Prop :=
  1 <= i /\ ~ reach (heap x) (roots x) i /\ exists e, entry_at (heap x) i = Some e /\ externalReferenceCount e = 0.

(** [x'] is [x] after a collection that leaves the entries [l] unused. *)
Record collected (x : ExecutionContext) (l : list Z) (x' : ExecutionContext) : Prop := {
  cd_rest : same_rest x x';
  cd_length : length (heap x') = length (heap x) \/ length (heap x') = (2 * length (heap x))%nat;
  cd_unused : unused_list (heap x') (heapFirstUnusedEntry x') l;
  cd_many : Z.of_nat (length (heap x)) / 5 < Z.of_nat (length l);
  cd_garbage : forall i, i ∈ l <-> reclaimable x i \/ Z.of_nat (length (heap x)) <= i < Z.of_nat (length (heap x'));
  cd_kept : forall i e, i ∉ l -> entry_at (heap x) i = Some e ->
    exists e', entry_at (heap x') i = Some e' /\ visible e' = visible e;
}.

Lemma cd_some x l x' : collected x l x' -> l <> [].
Proof.
  intros Hc ->. pose proof (cd_many _ _ _ Hc) as H. cbn in H.
  assert (0 <= Z.of_nat (length (heap x)) / 5) by (apply Z.div_pos; lia). lia.
Qed.

Section AllocateProofs.
Context (uninitialised : nat -> HeapEntry).

(** The end of a collection: the chain is closed. *)
Lemma collected_close x l y link :
  same_rest x y -> linked y link l -> Z.of_nat (length (heap x)) / 5 < Z.of_nat (length l) ->
  (length (heap y) = length (heap x) \/ length (heap y) = (2 * length (heap x))%nat) ->
  (forall i, i ∈ l <-> reclaimable x i \/ Z.of_nat (length (heap x)) <= i < Z.of_nat (length (heap y))) ->
  (forall i e, i ∉ l -> entry_at (heap x) i = Some e ->
     exists e', entry_at (heap y) i = Some e' /\ visible e' = visible e) ->
  (forall i e, entry_at (heap x) i = Some e -> is_unused (contents e) = false) ->
  collected x l (set_link link 0 y).
Proof.
  intros Hrest Hl Hne Hlen Hin Hkept Hall.
  destruct (linked_close y link l Hl) as [Hchain Hout]. set (x' := set_link link 0 y) in *.
  assert (Hk : forall i e, i ∉ l -> entry_at (heap x) i = Some e ->
             exists e', entry_at (heap x') i = Some e' /\ visible e' = visible e).
  { intros i e Hi He. rewrite (os_entries _ _ _ Hout) by done. by apply Hkept. }
  split; [| | |done| |done].
  - eapply same_rest_trans; [done|]. apply Hout.
  - by rewrite (os_length _ _ _ Hout).
  - split; [done|]. split; [apply Hl|]. intros i e He Hu. destruct (decide (i ∈ l)) as [|Hn]; [done|].
    exfalso. assert (Hr : 0 <= i < Z.of_nat (length (heap x))).
    { pose proof (entry_at_range _ _ _ He) as Hr. rewrite (os_length _ _ _ Hout) in Hr.
      destruct (decide (i < Z.of_nat (length (heap x)))); [lia|].
      exfalso. apply Hn, Hin. right. lia. }
    destruct (entry_at_exists _ _ Hr) as [e0 He0]. destruct (Hk i e0 Hn He0) as (e' & He' & Hv).
    assert (e' = e) as -> by congruence. rewrite (visible_contents _ _ Hv), (Hall i e0 He0) in Hu. done.
  - intros i. rewrite (os_length _ _ _ Hout). apply Hin.
Qed.

Lemma garbage_reclaimable x h1 :
  same_visible (heap x) h1 -> (forall i, marked h1 i <-> reach (heap x) (roots x) i) ->
  forall j, 1 <= j < 1 + Z.of_nat (length h1 - 1) /\ garbage h1 j <-> reclaimable x j.
Proof.
  intros Hv Hm j. split.
  - intros (Hj & e & He & Hg & Hx). split; [lia|]. split.
    + rewrite <- Hm. intros (e' & He' & Hg'). congruence.
    + destruct (same_visible_at _ _ _ _ (same_visible_sym _ _ Hv) He) as (e' & He' & Hv').
      exists e'. split; [done|]. unfold visible in Hv'. congruence.
  - intros (Hj & Hn & e & He & Hx). destruct (same_visible_at _ _ _ _ Hv He) as (e' & He' & Hv').
    pose proof (entry_at_range _ _ _ He'). split; [lia|]. exists e'. split; [done|]. split.
    + destruct (gcMark e') eqn:Hg; [|done]. exfalso. apply Hn, Hm. by exists e'.
    + unfold visible in Hv'. congruence.
Qed.

Lemma linked_first x : linked x None [].
Proof. split; [by intros v|apply NoDup_nil_2|done]. Qed.

Lemma collect_spec x :
  heap_ok x -> heapFirstUnusedEntry x = 0 -> exists x' l, collect uninitialised x = Ok x' /\ collected x l x'.
Proof.
  intros Hok H0. destruct (ho_unused _ Hok) as [l0 Hl0]. rewrite H0 in Hl0.
  pose proof (unused_list_none _ _ Hl0) as Hall.
  destruct (mark_roots_spec (heap x) (roots x)) as (h1 & Hmark & Hv & Hm).
  { intros j Hj. destruct (ho_reach _ Hok j Hj) as (e & He & _). exists e. split; [done|]. by eapply Hall. }
  pose proof (same_visible_length _ _ Hv) as Hlen1. pose proof (garbage_reclaimable x h1 Hv Hm) as Hgar.
  unfold collect. rewrite length_map, Hmark.
  assert (Hpos : (1 <= length (heap x))%nat).
  { destruct (ho_null _ Hok) as (e & He%entry_at_range & _). lia. }
  destruct (sweep_spec (length h1 - 1) 1 None 0 (set_heap h1 x) []) as (y & link & l & -> & Hl & Ho & Hin).
  { apply linked_first. } { by intros j ?%elem_of_nil. } { lia. } { cbn. lia. }
  { cbn. intros j e Hj He. destruct (same_visible_at _ _ _ _ (same_visible_sym _ _ Hv) He) as (e' & He' & Hv').
    rewrite <- (visible_contents _ _ Hv'). split; [by eapply Hall|].
    intros Heof. apply (ho_eof _ Hok j) in Heof; [lia|done]. }
  cbn [app heap set_heap] in Hl, Ho, Hin. setoid_rewrite Hgar in Hin.
  pose proof (os_length _ _ _ Ho) as Hy. cbn in Hy. rewrite Hlen1 in Hy.
  assert (Hrest : same_rest x y) by (eapply same_rest_trans; [|apply Ho]; by destruct x).
  assert (Hkept : forall i e, i ∉ l -> entry_at (heap x) i = Some e ->
            exists e', entry_at (heap y) i = Some e' /\ visible e' = visible e).
  { intros i e Hi He. rewrite (os_entries _ _ _ Ho) by done. by apply same_visible_at with (heap x). }
  destruct (Z.leb_spec (0 + Z.of_nat (length l)) (Z.of_nat (length (heap y)) / 5)) as [Hle|Hgt].
  - destruct (link_new_spec (length (heap y)) (Z.of_nat (length (heap y))) link
                (set_heap (heap y ++ map uninitialised (seq (length (heap y)) (length (heap y)))) y) l)
      as (z & link' & -> & Hlz & Hoz).
    { by apply linked_grow. }
    { intros j (_ & _ & e & He%entry_at_range & _)%Hin. rewrite Hy. lia. } { lia. }
    { cbn. rewrite length_app, length_map, length_seq. lia. }
    pose proof (os_length _ _ _ Hoz) as Hz. cbn in Hz. rewrite length_app, length_map, length_seq in Hz.
    eexists _, _. split; [done|]. apply collected_close; [|done| | | | |done].
    + eapply same_rest_trans; [|apply Hoz]. eapply same_rest_trans; [done|]. by destruct y.
    + rewrite length_app, length_seqZ, Nat2Z.id, Hy.
      pose proof (Z.div_lt_upper_bound (Z.of_nat (length (heap x))) 5 (Z.of_nat (length (heap x)))). lia.
    + right. lia.
    + intros i. rewrite elem_of_app, Hin, elem_of_seqZ. rewrite Hz, Hy. naive_solver lia.
    + intros i e Hi He. rewrite (os_entries _ _ _ Hoz) by done. apply not_elem_of_app in Hi as [Hi _].
      destruct (Hkept i e Hi He) as (e' & He' & ?). exists e'. split; [|done]. by apply entry_at_app_l.
  - eexists _, l. split; [done|]. apply collected_close; [done..| | | | |done].
    + rewrite <- Hy. lia.
    + by left.
    + intros i. rewrite Hin, Hy. naive_solver lia.
    + done.
Qed.

(** [x'] is [x] after the allocation of the entry [i]. *)
Record allocated (x : ExecutionContext) (i : Z) (x' : ExecutionContext) : Prop := {
  al_rest : same_rest x x';
  al_length : (length (heap x) <= length (heap x') <= 2 * length (heap x))%nat;
  al_new : 0 < i /\ exists e, entry_at (heap x') i = Some e /\ is_unused (contents e) = true;
  al_fresh : ~ reachable x i;
  al_null : exists e, entry_at (heap x') 0 = Some e /\ contents e = PEof;
  al_eof : forall j e, entry_at (heap x') j = Some e -> contents e = PEof -> j = 0;
  al_unused : exists l, unused_list (heap x') i (i :: l) /\ chain (heap x') (heapFirstUnusedEntry x') l 0;
  al_kept : forall j e, reachable x j -> entry_at (heap x) j = Some e ->
    exists e', entry_at (heap x') j = Some e' /\ visible e' = visible e;
}.

(** Taking the first entry of the list. *)
Lemma take_first x i l n e :
  unused_list (heap x) i (i :: l) -> entry_at (heap x) i = Some e -> contents e = PUnused n ->
  chain (heap x) n l 0 /\ 0 < i /\ exists g m k, e = MkEntry (PUnused n) g m k.
Proof.
  intros ((_ & Hi & e' & n' & He' & Hc' & Hl) & _) He Hc. assert (e' = e) as -> by congruence.
  assert (n' = n) as -> by congruence. split; [done|]. split; [done|]. destruct e; cbn in Hc; subst. eauto.
Qed.

Lemma collected_reach x l x' j : heap_ok x -> collected x l x' -> reachable x j -> j ∉ l.
Proof.
  intros Hok Hc Hj [(Hpos & Hn & _)|Hr]%(cd_garbage _ _ _ Hc).
  - destruct Hj as [->|Hj]; [lia|done].
  - destruct (reachable_in_use x j Hok Hj) as (e & He%entry_at_range & _). lia.
Qed.

Lemma collected_eof x l x' j e :
  heap_ok x -> collected x l x' -> entry_at (heap x') j = Some e -> contents e = PEof -> j = 0.
Proof.
  intros Hok Hc He Heof. destruct (decide (j ∈ l)) as [Hin|Hn].
  { destruct (cd_unused _ _ _ Hc) as (Hch & _). destruct (chain_in _ _ _ _ j Hch Hin) as (_ & e' & He' & Hu).
    assert (e' = e) as -> by congruence. by rewrite Heof in Hu. }
  assert (Hr : 0 <= j < Z.of_nat (length (heap x))).
  { pose proof (entry_at_range _ _ _ He). destruct (decide (j < Z.of_nat (length (heap x)))); [lia|].
    exfalso. apply Hn, (cd_garbage _ _ _ Hc). right. lia. }
  destruct (entry_at_exists _ _ Hr) as [e0 He0]. destruct (cd_kept _ _ _ Hc j e0 Hn He0) as (e' & He' & Hv).
  apply (ho_eof _ Hok j e0 He0). rewrite <- (visible_contents _ _ Hv). congruence.
Qed.

Lemma HeapAllocate_collect x x' l :
  heap_ok x -> heapFirstUnusedEntry x = 0 -> collect uninitialised x = Ok x' -> collected x l x' ->
  exists i y, HeapAllocate uninitialised x = (Ok i, y) /\ allocated x i y.
Proof.
  intros Hok H0 Hrun Hc. unfold HeapAllocate. rewrite H0, Hrun. cbn [Z.eqb].
  pose proof (cd_unused _ _ _ Hc) as Hul. destruct l as [|i l]; [by destruct (cd_some _ _ _ Hc)|].
  assert (Hfirst : heapFirstUnusedEntry x' = i) by apply Hul. rewrite Hfirst in *.
  pose proof Hul as ((_ & Hi & e & n & He & Hn & Hch) & _).
  destruct (take_first x' i l n e Hul He Hn) as (_ & _ & g & m & k & ->).
  destruct (Z.eqb_spec i 0); [lia|]. rewrite He. eexists i, _. split; [done|].
  split; cbn [heap set_first heapFirstUnusedEntry].
  - rewrite (cd_rest _ _ _ Hc). by destruct x.
  - destruct (cd_length _ _ _ Hc) as [-> | ->]; lia.
  - split; [done|]. by eexists.
  - intros Hr. apply (collected_reach _ _ _ _ Hok Hc) in Hr. set_solver.
  - destruct (ho_null _ Hok) as (e0 & He0 & Hz). destruct (cd_kept _ _ _ Hc 0 e0) as (e' & He' & Hv); [|done|].
    { intros [(? & _)|[? _]]%(cd_garbage _ _ _ Hc); [lia|]. apply entry_at_range in He0. lia. }
    exists e'. split; [done|]. by rewrite (visible_contents _ _ Hv).
  - intros j ej. by apply (collected_eof x (i :: l)).
  - by exists l.
  - intros j ej Hj Hej. apply (cd_kept _ _ _ Hc); [|done]. by apply (collected_reach x _ x').
Qed.

Lemma HeapAllocate_spec x :
  heap_ok x -> exists i y, HeapAllocate uninitialised x = (Ok i, y) /\ allocated x i y.
Proof.
  intros Hok. destruct (decide (heapFirstUnusedEntry x = 0)) as [H0|H0].
  { destruct (collect_spec x Hok H0) as (x' & l & Hrun & Hc). by eapply HeapAllocate_collect. }
  unfold HeapAllocate. destruct (Z.eqb_spec (heapFirstUnusedEntry x) 0); [done|].
  destruct (ho_unused _ Hok) as ([|i l] & Hul); [by destruct Hul as [Hch _]; cbn in Hch|].
  assert (Hfirst : heapFirstUnusedEntry x = i) by apply Hul. rewrite Hfirst in *.
  destruct (Z.eqb_spec i 0); [done|].
  pose proof Hul as ((_ & Hi & e & n' & He & Hn & Hch) & _).
  destruct (take_first x i l n' e Hul He Hn) as (_ & _ & g & m & k & ->). rewrite He.
  eexists i, _. split; [done|]. split; cbn [heap set_first heapFirstUnusedEntry].
  - by destruct x.
  - lia.
  - split; [done|]. by eexists.
  - intros Hr. destruct (reachable_in_use x i Hok Hr) as (e & He' & Hu).
    assert (e = MkEntry (PUnused n') g m k) as -> by congruence. done.
  - apply Hok.
  - apply Hok.
  - by exists l.
  - intros j ej _ Hej. by exists ej.
Qed.
End AllocateProofs.

(** ** Contexts after a change *)

(** No allocation: the heap is the same and the roots were reachable. *)
Lemma heap_ok_sub x y :
  heap_ok x -> heap y = heap x -> heapFirstUnusedEntry y = heapFirstUnusedEntry x ->
  (forall r, r ∈ roots y -> reachable x r) -> heap_ok y.
Proof.
  intros Hok Hh Hf Hroots. split; rewrite ?Hh, ?Hf; try apply Hok.
  intros i Hi. apply (reachable_in_use x i Hok). by apply (reachable_closed x (roots y)).
Qed.

(** The new entry [i] is written by [f]; it refers to what could be reached. *)
Lemma reach_fill x i x' f y :
  allocated x i x' -> heap y = update_entry i f (heap x') ->
  (forall e j, j ∈ entry_children (f e) -> j = i \/ reachable x j) ->
  (forall r, r ∈ roots y -> r = i \/ reachable x r) ->
  heap_ok x -> forall j, reachable y j -> j = i \/ reachable x j.
Proof.
  intros Hal Hy Hf Hroots Hok j0 [->|Hj0]; [by right; left|]. revert j0 Hj0.
  destruct (al_new _ _ _ Hal) as (Hi & e & He & _). apply reach_closed; [done|]. intros j k Hj (ej & Hej & Hk). rewrite Hy in Hej.
  destruct (decide (j = i)) as [->|Hne].
  { rewrite (entry_at_update _ _ _ _ He) in Hej. injection Hej as <-. by eapply Hf. }
  rewrite entry_at_update_ne in Hej by lia. destruct Hj as [->|Hj]; [done|].
  destruct (reachable_in_use x j Hok Hj) as (e0 & He0 & _).
  destruct (al_kept _ _ _ Hal j e0 Hj He0) as (e' & He' & Hv). right.
  apply (reachable_step x j); [done..|]. exists e0. split; [done|].
  rewrite <- (visible_children _ _ Hv). congruence.
Qed.

Lemma heap_ok_fill x i x' f y :
  allocated x i x' -> heap y = update_entry i f (heap x') -> heapFirstUnusedEntry y = heapFirstUnusedEntry x' ->
  (forall e, freeable (contents (f e))) ->
  (forall e j, j ∈ entry_children (f e) -> j = i \/ reachable x j) ->
  (forall r, r ∈ roots y -> r = i \/ reachable x r) ->
  heap_ok x -> heap_ok y.
Proof.
  intros Hal Hy Hfirst Hfree Hkids Hroots Hok.
  pose proof (reach_fill _ _ _ _ _ Hal Hy Hkids Hroots Hok) as Hreach.
  destruct (al_new _ _ _ Hal) as (Hi & e & He & Hu).
  split; rewrite ?Hy, ?Hfirst in *.
  - rewrite entry_at_update_ne by lia. apply Hal.
  - intros j ej. destruct (decide (j = i)) as [->|Hne].
    + rewrite (entry_at_update _ _ _ _ He). intros [= <-] Heof. by destruct (Hfree e).
    + rewrite entry_at_update_ne by lia. apply Hal.
  - destruct (al_unused _ _ _ Hal) as (l & (_ & Hnd & Hin) & Hch). exists l.
    apply list.NoDup_cons in Hnd as [Hni Hnd]. split; [|split; [done|]].
    + apply (chain_ext (heap x')); [|done]. intros j ej Hj Hej. exists ej.
      rewrite entry_at_update_ne; [done|lia|congruence].
    + intros j ej. destruct (decide (j = i)) as [->|Hne].
      * rewrite (entry_at_update _ _ _ _ He). intros [= <-] Hun. destruct (Hfree e). congruence.
      * rewrite entry_at_update_ne by lia. intros Hej Hun.
        specialize (Hin j ej Hej Hun). by apply elem_of_cons in Hin as [?|?].
  - intros j Hj. destruct (decide (j = i)) as [->|Hne].
    + rewrite (entry_at_update _ _ _ _ He). eexists. split; [done|]. apply Hfree.
    + rewrite entry_at_update_ne by lia. destruct (Hreach j) as [?|Hr]; [right; by rewrite Hy|done|].
      destruct (reachable_in_use x j Hok Hr) as (e0 & He0 & Hlive).
      destruct (al_kept _ _ _ Hal j e0 Hr He0) as (e' & He' & Hv). exists e'. split; [done|].
      by rewrite (visible_contents _ _ Hv).
Qed.

(** ** Checking the invariant of a concrete context *)

Fixpoint chainb (h : list HeapEntry) (a : Z) (l : list Z) : bool :=
  match l with
  | [] => a =? 0
  | i :: l' => (a =? i) && (0 <? i) &&
      match entry_at h i with
      | Some (MkEntry (PUnused n) _ _ _) => chainb h n l'
      | _ => false
      end
  end.

(** [l]: the unused entries; [s]: a set that has the roots and is closed. *)
Definition heap_okb (x : ExecutionContext) (l s : list Z) : bool :=
  match entry_at (heap x) 0 with Some (MkEntry PEof _ _ _) => true | _ => false end &&
  forallb (fun e => match contents e with PEof => false | _ => true end) (drop 1 (heap x)) &&
  chainb (heap x) (heapFirstUnusedEntry x) l && bool_decide (NoDup l) &&
  forallb (fun i => match entry_at (heap x) i with
                    | Some e => negb (is_unused (contents e)) || bool_decide (i ∈ l)
                    | None => true
                    end) (seqZ 0 (Z.of_nat (length (heap x)))) &&
  forallb (fun r => bool_decide (r ∈ s)) (roots x) &&
  forallb (fun i => match entry_at (heap x) i with
                    | Some e => negb (is_unused (contents e)) &&
                                forallb (fun j => bool_decide (j ∈ s)) (entry_children e)
                    | None => false
                    end) s.

Lemma chainb_sound h a l : chainb h a l = true -> chain h a l 0.
Proof.
  revert a. induction l as [|i l IH]; intros a; cbn; [lia|].
  destruct (entry_at h i) as [[[] g m k]|] eqn:He; try (rewrite ?andb_false_r; done).
  intros [[Ha Hi]%andb_prop Hl]%andb_prop. split; [lia|]. split; [lia|]. eexists _, _. split; [done|].
  split; [done|]. by apply IH.
Qed.

Lemma forallb_elem {A} (f : A -> bool) l i : forallb f l = true -> i ∈ l -> f i = true.
Proof. rewrite forallb_forall. intros H Hi. apply H. by apply list_elem_of_In. Qed.

Lemma heap_okb_sound x l s : heap_okb x l s = true -> heap_ok x.
Proof.
  intros [[[[[[H1 H2]%andb_prop H3]%andb_prop H4]%andb_prop H5]%andb_prop H6]%andb_prop H7]%andb_prop.
  split.
  - destruct (entry_at (heap x) 0) as [[[] ???]|]; try done. by eexists.
  - intros i e He Heof. destruct (decide (i = 0)); [done|]. pose proof (entry_at_range _ _ _ He).
    apply entry_at_Some in He as [_ He]. assert (Hin : e ∈ drop 1 (heap x)).
    { apply list_elem_of_lookup. exists (Z.to_nat i - 1)%nat. rewrite lookup_drop.
      by replace (1 + (Z.to_nat i - 1))%nat with (Z.to_nat i) by lia. }
    apply (forallb_elem _ _ e H2) in Hin. by rewrite Heof in Hin.
  - exists l. split; [by apply chainb_sound|]. split; [by apply bool_decide_eq_true in H4|].
    intros i e He Hu. pose proof (entry_at_range _ _ _ He). pose proof (forallb_elem _ _ i H5) as Hi.
    rewrite elem_of_seqZ in Hi. specialize (Hi ltac:(lia)). cbn in Hi. rewrite He, Hu in Hi. cbn in Hi.
    by apply bool_decide_eq_true in Hi.
  - intros i Hi. assert (Hs : i ∈ s).
    { revert i Hi. apply reach_closed.
      - intros r Hr. apply (forallb_elem _ _ r H6) in Hr. by apply bool_decide_eq_true in Hr.
      - intros i j Hi (e & He & Hj). pose proof (forallb_elem _ _ i H7 Hi) as Hc. cbn in Hc. rewrite He in Hc.
        apply andb_prop in Hc as [_ Hc]. apply (forallb_elem _ _ j Hc) in Hj. by apply bool_decide_eq_true in Hj. }
    pose proof (forallb_elem _ _ i H7 Hs) as Hc. cbn in Hc. destruct (entry_at (heap x) i) as [e|]; [|done].
    exists e. split; [done|]. apply andb_prop in Hc as [Hc _]. by apply negb_true_iff in Hc.
Qed.

(** ** The context a script starts with *)

Definition empty_coroutine : CoroutineState :=
  MkCoroutine [] 0 [] [] 0 0 [] 0 [] false false false 0 0 0 0 0.

(** The part of [ScriptExecuteFromFile] that sets up the heap and the first coroutine. *)
Definition initial_context (uninitialised : nat -> HeapEntry) : ExecutionContext :=
  MkContext [] [set_contents PEof (uninitialised 0%nat); set_contents (PUnused 0) (uninitialised 1%nat)] 1
    [] [] empty_coroutine [] [] 0 0.

Lemma initial_heap_ok uninitialised : heap_ok (initial_context uninitialised).
Proof. by apply (heap_okb_sound _ [1] []). Qed.

(** ** Properties *)

(** C22. Marking terminates, and it marks exactly what can be reached: from a heap with
    cleared marks in which everything that can be reached from the roots is in use,
    [HeapGarbageCollectMark] called on each root in turn (with a recursion no deeper than
    the number of entries) returns, changes nothing but marks, and an entry is marked
    afterwards if and only if it can be reached from a root through the managed fields,
    list items, string parts, function pointers, error values and boxed values the
    entries hold. *)
Theorem mark_reachable (h : list HeapEntry) (R : list Z)
    (Hin : forall j, reach h R j -> in_use h j) :
  exists h', mark_all (HeapGarbageCollectMark (S (length h))) (map (set_mark false) h) R = Ok h' /\
    map visible h' = map visible h /\ forall i, marked h' i <-> reach h R i.
Proof. by apply mark_roots_spec. Qed.

(** A list that holds a string and itself; an unreferenced string. *)
Definition cyclic_heap : list HeapEntry :=
  [MkEntry PEof false false 0; MkEntry (PList [2; 1; 0] 4) false true 0;
   MkEntry (PStr [104; 105]) false false 0; MkEntry (PStr []) true false 0].

Lemma mark_reachable_witness :
  exists h', mark_all (HeapGarbageCollectMark 5) (map (set_mark false) cyclic_heap) [1] = Ok h' /\
    map visible h' = map visible cyclic_heap /\ forall i, marked h' i <-> reach cyclic_heap [1] i.
Proof.
  apply (mark_reachable cyclic_heap [1]). apply reach_closed.
  - intros r ->%list_elem_of_singleton. by eexists.
  - intros i j _ (e & He & Hj). pose proof (entry_at_range _ _ _ He) as Hr. cbn in Hr.
    assert (i = 0 \/ i = 1 \/ i = 2 \/ i = 3) as [->|[->|[->| ->]]] by lia; injection He as <-; cbn in Hj;
      [by apply elem_of_nil in Hj| |by apply elem_of_nil in Hj|by apply elem_of_nil in Hj].
    rewrite !elem_of_cons, elem_of_nil in Hj. destruct Hj as [->|[->|[->|[]]]]; by eexists.
Defined.

(** C4. Allocation is safe: in a context that satisfies the invariant [HeapAllocate]
    returns, whatever [realloc] leaves in the entries it adds; the entry it returns is
    neither the null entry nor one the program can reach; every entry the program can
    reach keeps its contents; and when the caller then stores a value there that refers
    to entries the program can reach, the invariant holds again. *)
Theorem HeapAllocate_safe (uninitialised : nat -> HeapEntry) (x : ExecutionContext) (Hok : heap_ok x) :
  exists i x', HeapAllocate uninitialised x = (Ok i, x') /\ 0 < i /\
    ~ reachable x i /\
    (forall j e, reachable x j -> entry_at (heap x) j = Some e ->
       exists e', entry_at (heap x') j = Some e' /\ visible e' = visible e) /\
    (forall p m, freeable p -> (forall j, j ∈ links p m -> reachable x j) ->
       heap_ok (set_heap (update_entry i (fun e => set_managed m (set_contents p e)) (heap x')) x')).
Proof.
  destruct (HeapAllocate_spec uninitialised x Hok) as (i & x' & Hrun & Hal). exists i, x'.
  split; [done|]. split; [apply Hal|]. split; [apply Hal|]. split; [apply Hal|].
  intros p m Hp Hkids. eapply heap_ok_fill; [apply Hal|done..| | |done].
  - intros e j Hj. right. by apply Hkids.
  - intros r Hr. right. right. apply reach_root. by rewrite <- (same_rest_roots _ _ (al_rest _ _ _ Hal)).
Qed.

(** A heap without unused entries, of which the program reaches entries 1 and 2. *)
Definition full_context : ExecutionContext :=
  set_globals [(true, 1); (false, 3)] (set_first 0 (set_heap cyclic_heap (initial_context (fun _ => MkEntry PEof true true 7)))).

Lemma full_context_ok : heap_ok full_context.
Proof. by apply (heap_okb_sound _ [] [1; 2; 0]). Qed.

Lemma HeapAllocate_safe_witness :
  exists i x', HeapAllocate (fun _ => MkEntry PEof true true 7) full_context = (Ok i, x') /\ 0 < i /\
    ~ reachable full_context i /\
    (forall j e, reachable full_context j -> entry_at (heap full_context) j = Some e ->
       exists e', entry_at (heap x') j = Some e' /\ visible e' = visible e) /\
    (forall p m, freeable p -> (forall j, j ∈ links p m -> reachable full_context j) ->
       heap_ok (set_heap (update_entry i (fun e => set_managed m (set_contents p e)) (heap x')) x')).
Proof. apply HeapAllocate_safe. apply full_context_ok. Defined.

(** C21. A collection makes progress and leaves no garbage: when no entry is unused, the
    entries that are unused afterwards are exactly those the program cannot reach and
    external code does not hold, and the entries the heap was extended with; there is
    more than one unused entry for every five there were before. *)
Theorem collection_reclaims (uninitialised : nat -> HeapEntry) (x : ExecutionContext)
    (Hok : heap_ok x) (Hfull : heapFirstUnusedEntry x = 0) :
  exists x' l, collect uninitialised x = Ok x' /\
    unused_list (heap x') (heapFirstUnusedEntry x') l /\
    (forall i, i ∈ l <-> reclaimable x i \/ Z.of_nat (length (heap x)) <= i < Z.of_nat (length (heap x'))) /\
    Z.of_nat (length (heap x)) / 5 < Z.of_nat (length l).
Proof.
  destruct (collect_spec uninitialised x Hok Hfull) as (x' & l & Hrun & Hc). exists x', l.
  split; [done|]. split; [apply Hc|]. split; apply Hc.
Qed.

Lemma collection_reclaims_witness :
  exists x' l, collect (fun _ => MkEntry PEof true true 7) full_context = Ok x' /\
    unused_list (heap x') (heapFirstUnusedEntry x') l /\
    (forall i, i ∈ l <-> reclaimable full_context i \/ 4 <= i < Z.of_nat (length (heap x'))) /\
    0 < Z.of_nat (length l).
Proof.
  apply (collection_reclaims (fun _ => MkEntry PEof true true 7) full_context); [apply full_context_ok|reflexivity].
Defined.

(** Entries held by external code are not roots: what such an entry refers to is
    reclaimed, and the entry keeps the index of an unused entry. *)
Definition external_context : ExecutionContext :=
  set_first 0 (set_heap
    [MkEntry PEof false false 0; MkEntry (PStruct [2] [true]) false false 1; MkEntry (PStr [104; 105]) false false 0]
    (initial_context (fun _ => MkEntry PEof false false 0))).

Example external_reference_dangles :
  match HeapAllocate (fun _ => MkEntry PEof false false 0) external_context with
  | (Ok i, x) => i = 2 /\ map contents (heap x) = [PEof; PStruct [2] [true]; PUnused 0]
  | _ => False
  end.
Proof. vm_compute. split; reflexivity. Qed.

(** The count of external references of an added entry is whatever memory held: after
    five strings nothing refers to, the heap of four entries the program reaches has
    grown to eight entries over memory that was zero, and to sixteen over memory that
    was not. *)
Definition allocate_string (uninitialised : nat -> HeapEntry) (x : ExecutionContext) : ExecutionContext :=
  match HeapAllocate uninitialised x with
  | (Ok i, x) => set_heap (update_entry i (set_contents (PStr [])) (heap x)) x
  | (_, x) => x
  end.

Example stale_reference_count_leaks :
  let x := set_globals [(true, 1); (true, 3)] full_context in
  let size u := length (heap (Nat.iter 5 (allocate_string u) x)) in
  size (fun _ => MkEntry PEof false false 0) = 8%nat /\ size (fun _ => MkEntry PEof true true 7) = 16%nat.
Proof. vm_compute. split; reflexivity. Qed.
