(* ===== verification/ScriptString.v ===== *)
(** * Strings of the script engine (util/script.c)

    A concatenation is an entry that refers to its two parts; it is converted to a
    string when its bytes are needed.  [ScriptHeapEntryGetStringBytes],
    [ScriptHeapEntryConcatConvertToStringWrite], [ScriptHeapEntryConcatConvertToString]
    and [ScriptHeapEntryToString] as functions of the heap and an index.  A pointer to an
    entry is its index; a pointer into the buffer is an offset.  What [malloc] leaves in a
    new buffer is a parameter.  Lengths are below 2^64.

    The abstract view of the strings of a heap is [denotes]: the bytes an entry stands
    for.  The conversion implements it, and changes the bytes of no entry. *)

From Stdlib Require Import String.
From stdpp Require Import base list relations.
From S2P Require Import Prelude ScriptToken ScriptParser ScriptHeap.

(** ** Operations *)

Definition ScriptHeapEntryGetStringBytes (e : HeapEntry) : outcome Z :=
  match contents e with
  | PStr text => Ok (Z.of_nat (length text))
  | PEof => Ok 0
  | PConcat _ _ concatBytes => Ok concatBytes
  | _ => Stop Assertion
  end.

(** [MemoryCopy] to an offset of the buffer. *)
Definition memory_write (buffer : bytes) (offset : Z) (text : bytes) : outcome bytes :=
  if (0 <=? offset) && (offset + Z.of_nat (length text) <=? Z.of_nat (length buffer))
  then Ok (list_inserts (Z.to_nat offset) text buffer)
  else Stop OutOfBounds.

Definition is_concat (e : HeapEntry) : bool := entry_type e =? T_CONCAT.

Definition obind {A B} (m : outcome A) (f : A -> outcome B) : outcome B :=
  match m with Ok a => f a | RetFalse => RetFalse | Stop r => Stop r end.

Definition oread (h : list HeapEntry) (i : Z) : outcome HeapEntry :=
  match entry_at h i with Some e => Ok e | None => Stop OutOfBounds end.

Definition oassert (b : bool) : outcome unit := if b then Ok tt else Stop Assertion.

Declare Scope outcome_scope.
Delimit Scope outcome_scope with outcome.
Notation "'do' x <- m ; k" := (obind m (fun x => k))
  (at level 10, x pattern, m at level 100, k at level 200) : outcome_scope.
Open Scope outcome_scope.

Fixpoint ScriptHeapEntryConcatConvertToStringWrite (fuel : nat) (h : list HeapEntry) (entry : Z)
    (buffer : bytes) (offset : Z) : outcome bytes :=
  match fuel with
  | O => Stop OutOfFuel
  | S fuel' =>
    let write := ScriptHeapEntryConcatConvertToStringWrite fuel' h in
    do e <- oread h entry;
    match contents e with
    | PStr text => memory_write buffer offset text
    | PEof => Ok buffer
    | PConcat concat1 concat2 _ =>
        do part1 <- oread h concat1;
        do part2 <- oread h concat2;
        do part1Bytes <- ScriptHeapEntryGetStringBytes part1;
        if is_concat part1 then
          do buffer <- write concat2 buffer (offset + part1Bytes);
          do _ <- oassert (negb (is_concat part2));
          write concat1 buffer offset
        else if is_concat part2 then
          do buffer <- write concat1 buffer offset;
          do _ <- oassert (negb (is_concat part1));
          write concat2 buffer (offset + part1Bytes)
        else
          do buffer <- write concat1 buffer offset;
          write concat2 buffer (offset + part1Bytes)
    | _ => Stop Assertion
    end
  end.

Section Convert.
(** What [malloc] leaves at a position of a new buffer. *)
Context (fresh : nat -> Z).

Definition new_buffer (size : Z) : bytes := map fresh (seq 0 (Z.to_nat size)).

Definition ScriptHeapEntryConcatConvertToString (h : list HeapEntry) (i : Z) : outcome (list HeapEntry) :=
  do e <- oread h i;
  match contents e with
  | PConcat concat1 concat2 concatBytes =>
      do part1 <- oread h concat1;
      do part2 <- oread h concat2;
      do part1Bytes <- ScriptHeapEntryGetStringBytes part1;
      do part2Bytes <- ScriptHeapEntryGetStringBytes part2;
      do _ <- oassert (concatBytes =? part1Bytes + part2Bytes);
      let buffer := new_buffer (part1Bytes + part2Bytes) in
      let h := update_entry i (set_contents (PStr buffer)) h in
      do buffer <- ScriptHeapEntryConcatConvertToStringWrite (S (length h)) h concat1 buffer 0;
      do buffer <- ScriptHeapEntryConcatConvertToStringWrite (S (length h)) h concat2 buffer part1Bytes;
      Ok (update_entry i (set_contents (PStr buffer)) h)
  | _ => Stop Assertion
  end.

(** The heap afterwards and the text. *)
Definition ScriptHeapEntryToString (h : list HeapEntry) (i : Z) : outcome (list HeapEntry * bytes) :=
  do e <- oread h i;
  match contents e with
  | PStr text => Ok (h, text)
  | PEof => Ok (h, [])
  | PConcat _ _ _ =>
      do h <- ScriptHeapEntryConcatConvertToString h i;
      do e <- oread h i;
      match contents e with
      | PStr text => Ok (h, text)
      | _ => Stop Assertion
      end
  | _ => Stop Assertion
  end.
End Convert.

(** ** The bytes an entry stands for *)

(** [denotes h n i s]: the entry [i] stands for [s], with [n] concatenations on the way;
    at most one part of a concatenation is itself a concatenation. *)
Inductive denotes (h : list HeapEntry) : nat -> Z -> bytes -> Prop :=
  | den_eof i e :
      entry_at h i = Some e -> contents e = PEof -> denotes h 0 i []
  | den_str i e text :
      entry_at h i = Some e -> contents e = PStr text -> denotes h 0 i text
  | den_concat i e concat1 concat2 size n1 n2 s1 s2 :
      entry_at h i = Some e -> contents e = PConcat concat1 concat2 size ->
      denotes h n1 concat1 s1 -> denotes h n2 concat2 s2 ->
      size = Z.of_nat (length s1) + Z.of_nat (length s2) -> n1 = 0%nat \/ n2 = 0%nat ->
      denotes h (S (n1 + n2)) i (s1 ++ s2).

Definition stands_for (h : list HeapEntry) (i : Z) (s : bytes) : Prop := exists n, denotes h n i s.

Lemma denotes_entry h n i s : denotes h n i s -> exists e, entry_at h i = Some e /\
  ScriptHeapEntryGetStringBytes e = Ok (Z.of_nat (length s)) /\ is_concat e = (0 <? n)%nat /\
  is_unused (contents e) = false.
Proof.
  destruct 1 as [i e He Hc|i e text He Hc|i e c1 c2 size n1 n2 s1 s2 He Hc H1 H2 Hs Hn];
    exists e; unfold ScriptHeapEntryGetStringBytes, is_concat, entry_type; rewrite Hc; split_and!; try done.
  rewrite Hs, length_app. f_equal. lia.
Qed.

Lemma denotes_fun h n i s : denotes h n i s -> forall m t, denotes h m i t -> n = m /\ s = t.
Proof.
  induction 1 as [i e He Hc|i e text He Hc|i e c1 c2 size n1 n2 s1 s2 He Hc H1 IH1 H2 IH2 Hs Hn];
    intros m t Hm; inversion Hm as [? e' He' Hc'|? e' t' He' Hc'|? e' d1 d2 z m1 m2 t1 t2 He' Hc' D1 D2 Hz Hor];
    subst; assert (e' = e) as -> by congruence; try congruence; try (split; congruence).
  assert (d1 = c1 /\ d2 = c2) as [-> ->] by (split; congruence).
  destruct (IH1 _ _ D1) as [-> ->], (IH2 _ _ D2) as [-> ->]. done.
Qed.

Lemma stands_for_fun h i s t : stands_for h i s -> stands_for h i t -> s = t.
Proof. intros [n Hn] [m Hm]. by destruct (denotes_fun _ _ _ _ Hn _ _ Hm). Qed.

(** Ranks of entries are below the size of the heap. *)
Lemma rank_bound (P : nat -> Z -> Prop) (size : nat) :
  (forall n m i, P n i -> P m i -> n = m) -> (forall n i, P (S n) i -> exists j, P n j) ->
  (forall n i, P n i -> 0 <= i < Z.of_nat size) -> forall n i, P n i -> (n < size)%nat.
Proof.
  intros Hfun Hdown Hrange n i Hn.
  assert (exists l, length l = S n /\ NoDup l /\ forall j, j ∈ l -> exists m, (m <= n)%nat /\ P m j) as (l & Hl & Hnd & Hin).
  { revert i Hn. induction n as [|n IH]; intros i Hn.
    - exists [i]. split; [done|]. split; [apply NoDup_singleton|]. intros j ->%list_elem_of_singleton. by exists 0%nat.
    - destruct (Hdown n i Hn) as [j Hj]. destruct (IH j Hj) as (l & Hl & Hnd & Hin).
      exists (i :: l). split; [cbn; lia|]. split.
      + apply list.NoDup_cons. split; [|done]. intros (m & Hm & HP)%Hin. specialize (Hfun _ _ _ Hn HP). lia.
      + intros k [->|(m & Hm & HP)%Hin]%elem_of_cons; [by exists (S n)|]. exists m. split; [lia|done]. }
  assert (Hsub : l ⊆+ seqZ 0 (Z.of_nat size)).
  { apply NoDup_submseteq; [done|]. intros j (m & _ & HP%Hrange)%Hin. apply elem_of_seqZ. lia. }
  apply submseteq_length in Hsub. rewrite length_seqZ in Hsub. lia.
Qed.

Lemma denotes_bound h n i s : denotes h n i s -> (n < length h)%nat.
Proof.
  intros H. apply (rank_bound (fun n i => exists s, denotes h n i s) (length h)) with i; [| | |by exists s].
  - intros n1 n2 j [s1 H1] [s2 H2]. by destruct (denotes_fun _ _ _ _ H1 _ _ H2).
  - intros k j [t Ht]. inversion Ht; subst.
    match goal with H : _ \/ _ |- _ => destruct H as [->| ->] end; rewrite ?Nat.add_0_r; eauto.
  - intros k j [t Ht]. destruct (denotes_entry _ _ _ _ Ht) as (e & He & _). by eapply entry_at_range.
Qed.

(** ** The conversion writes those bytes *)

Lemma inserts_commute {A} i j (k1 k2 l : list A) :
  (i + length k1 <= j)%nat -> list_inserts i k1 (list_inserts j k2 l) = list_inserts j k2 (list_inserts i k1 l).
Proof.
  revert i. induction k1 as [|a k1 IH]; intros i Hle; [done|]. cbn in Hle.
  cbn [list_inserts]. rewrite IH by lia. apply list_insert_inserts_lt. lia.
Qed.

Lemma memory_write_ok buffer offset text :
  0 <= offset -> offset + Z.of_nat (length text) <= Z.of_nat (length buffer) ->
  memory_write buffer offset text = Ok (list_inserts (Z.to_nat offset) text buffer).
Proof.
  intros. unfold memory_write. by rewrite (proj2 (Z.leb_le 0 offset)), (proj2 (Z.leb_le _ _)) by lia.
Qed.

Lemma write_spec h n i s :
  denotes h n i s -> forall fuel buffer offset, (n < fuel)%nat -> 0 <= offset ->
  offset + Z.of_nat (length s) <= Z.of_nat (length buffer) ->
  ScriptHeapEntryConcatConvertToStringWrite fuel h i buffer offset =
    Ok (list_inserts (Z.to_nat offset) s buffer).
Proof.
  induction 1 as [i e He Hc|i e text He Hc|i e c1 c2 size n1 n2 s1 s2 He Hc H1 IH1 H2 IH2 Hs Hn];
    intros [|fuel] buffer offset Hf Ho Hb; try lia; cbn [ScriptHeapEntryConcatConvertToStringWrite];
    unfold oread at 1; rewrite He; cbn [obind]; rewrite Hc; [done|by apply memory_write_ok|].
  destruct (denotes_entry _ _ _ _ H1) as (e1 & He1 & Hb1 & Hk1 & _), (denotes_entry _ _ _ _ H2) as (e2 & He2 & _ & Hk2 & _).
  unfold oread. rewrite He1, He2. cbn [obind]. rewrite Hb1. cbn [obind].
  rewrite length_app in Hb. rewrite list_inserts_app_l.
  replace (length s1 + Z.to_nat offset)%nat with (Z.to_nat (offset + Z.of_nat (length s1))) by lia.
  rewrite Hk1, Hk2. destruct (Nat.ltb_spec 0 n1).
  - rewrite IH2 by lia. cbn [obind]. rewrite (proj2 (Nat.ltb_ge 0 n2)) by lia. cbn [negb oassert obind].
    rewrite IH1; [|rewrite ?length_inserts; lia..]. by rewrite inserts_commute by lia.
  - rewrite (IH1 fuel buffer offset) by lia. cbn [negb oassert obind].
    destruct (0 <? n2)%nat; cbn [obind]; apply IH2; rewrite ?length_inserts; lia.
Qed.

(** Turning an entry into the string it stands for changes what no entry stands for. *)
Lemma denotes_convert h k s0 h' e0 :
  stands_for h k s0 -> entry_at h k = Some e0 -> h' = update_entry k (set_contents (PStr s0)) h ->
  forall n i s, denotes h n i s -> exists m, (m <= n)%nat /\ denotes h' m i s.
Proof.
  intros Hk He0 -> n i s. assert (0 <= k) by (apply entry_at_range in He0; lia).
  assert (Hnew : denotes (update_entry k (set_contents (PStr s0)) h) 0 k s0).
  { eapply den_str; [by apply entry_at_update|done]. }
  induction 1 as [i e He Hc|i e text He Hc|i e c1 c2 size n1 n2 s1 s2 He Hc H1 IH1 H2 IH2 Hs Hn].
  all: destruct (decide (i = k)) as [->|Hne]; [exists 0%nat; split; [lia|]|].
  - rewrite (stands_for_fun h k [] s0); [done| |done]. exists 0%nat. by eapply den_eof.
  - exists 0%nat. split; [done|]. eapply den_eof; [|done]. by rewrite entry_at_update_ne by lia.
  - rewrite (stands_for_fun h k text s0); [done| |done]. exists 0%nat. by eapply den_str.
  - exists 0%nat. split; [done|]. eapply den_str; [|done]. by rewrite entry_at_update_ne by lia.
  - rewrite (stands_for_fun h k (s1 ++ s2) s0); [done| |done]. exists (S (n1 + n2)). by eapply den_concat.
  - destruct IH1 as (m1 & Hm1 & D1), IH2 as (m2 & Hm2 & D2). exists (S (m1 + m2)). split; [lia|].
    eapply den_concat; [by rewrite entry_at_update_ne by lia|done..|]. lia.
Qed.

(** The heap after a conversion: [i] is the string it stands for. *)
Definition converted (h : list HeapEntry) (i : Z) (s : bytes) : list HeapEntry :=
  update_entry i (set_contents (PStr s)) h.

Lemma denotes_other h k f n i s :
  denotes h n i s -> (forall m t, denotes h m k t -> (n < m)%nat) -> 0 <= k -> denotes (update_entry k f h) n i s.
Proof.
  intros Hd. induction Hd as [i e He Hc|i e text He Hc|i e c1 c2 size n1 n2 s1 s2 He Hc H1 IH1 H2 IH2 Hs Hn];
    intros Hk Hpos.
  - eapply den_eof; [|done]. rewrite entry_at_update_ne; [done..|]. intros ->.
    specialize (Hk 0%nat [] (den_eof _ _ _ He Hc)). lia.
  - eapply den_str; [|done]. rewrite entry_at_update_ne; [done..|]. intros ->.
    specialize (Hk 0%nat text (den_str _ _ _ _ He Hc)). lia.
  - eapply den_concat; [|done|apply IH1|apply IH2|done..]; try done.
    + rewrite entry_at_update_ne; [done..|]. intros ->.
      specialize (Hk _ _ (den_concat _ _ _ _ _ _ _ _ _ _ He Hc H1 H2 Hs Hn)). lia.
    + intros m t Hm%Hk. lia.
    + intros m t Hm%Hk. lia.
Qed.

Section ConvertProofs.
Context (fresh : nat -> Z).

Lemma length_new_buffer n : 0 <= n -> Z.of_nat (length (new_buffer fresh n)) = n.
Proof. intros. unfold new_buffer. rewrite length_map, length_seq. lia. Qed.

Lemma update_update h i p q :
  update_entry i (set_contents p) (update_entry i (set_contents q) h) = update_entry i (set_contents p) h.
Proof.
  apply list_eq. intros k. unfold update_entry. rewrite !list_lookup_alter.
  repeat case_decide; try done. by destruct (h !! _).
Qed.

Lemma convert_spec h n i s :
  denotes h (S n) i s -> ScriptHeapEntryConcatConvertToString fresh h i = Ok (converted h i s).
Proof.
  intros Hd. inversion Hd as [| |? e c1 c2 size n1 n2 s1 s2 He Hc H1 H2 Hs Hn]; subst.
  unfold ScriptHeapEntryConcatConvertToString, oread. rewrite He. cbn [obind]. rewrite Hc.
  destruct (denotes_entry _ _ _ _ H1) as (e1 & He1 & Hb1 & _), (denotes_entry _ _ _ _ H2) as (e2 & He2 & Hb2 & _).
  rewrite He1, He2. cbn [obind]. rewrite Hb1, Hb2. cbn [obind]. rewrite Z.eqb_refl. cbn [oassert obind].
  set (buf := new_buffer fresh _). assert (Hbuf : Z.of_nat (length buf) = Z.of_nat (length s1) + Z.of_nat (length s2)).
  { apply length_new_buffer. lia. }
  set (h1 := update_entry i (set_contents (PStr buf)) h).
  assert (Hrank : forall m t, denotes h m i t -> m = S (n1 + n2)).
  { intros m t Hm. by destruct (denotes_fun _ _ _ _ Hd _ _ Hm). }
  assert (0 <= i) by (apply entry_at_range in He; lia).
  assert (D1 : denotes h1 n1 c1 s1) by (apply denotes_other; [done|intros m t ->%Hrank; lia|done]).
  assert (D2 : denotes h1 n2 c2 s2) by (apply denotes_other; [done|intros m t ->%Hrank; lia|done]).
  rewrite (write_spec _ _ _ _ D1); [|apply denotes_bound in D1; lia|lia|lia]. cbn [obind].
  rewrite (write_spec _ _ _ _ D2); [|apply denotes_bound in D2; lia|lia|rewrite length_inserts; lia]. cbn [obind].
  unfold h1, converted. rewrite update_update. do 4 f_equal. rewrite Nat2Z.id. cbn [Z.to_nat].
  replace (length s1) with (length s1 + 0)%nat by lia. rewrite <- list_inserts_app_l.
  rewrite <- (app_nil_r (s1 ++ s2)) at 1. apply list_inserts_0_l. rewrite length_app. lia.
Qed.

Lemma ToString_spec h n i s :
  denotes h n i s ->
  ScriptHeapEntryToString fresh h i = Ok (if (0 <? n)%nat then converted h i s else h, s).
Proof.
  intros Hd. destruct n as [|n].
  { inversion Hd; subst; unfold ScriptHeapEntryToString, oread;
      match goal with He : entry_at h i = Some _, Hc : contents _ = _ |- _ => rewrite He; cbn [obind]; by rewrite Hc end. }
  pose proof (convert_spec _ _ _ _ Hd) as Hconv. inversion Hd as [| |? e c1 c2 size n1 n2 s1 s2 He Hc H1 H2 Hs Hn]; subst.
  unfold ScriptHeapEntryToString. unfold oread at 1. rewrite He. cbn [obind]. rewrite Hc, Hconv. cbn [obind].
  unfold oread, converted. rewrite (entry_at_update _ _ _ _ He). done.
Qed.
End ConvertProofs.

(** ** Properties *)

(** C10. Lazy concatenation implements concatenation: for an entry that stands for a byte
    string (the null entry for the empty one, a concatenation for the bytes of its first
    part followed by those of its second), [ScriptHeapEntryToString] returns exactly those
    bytes, whatever a new buffer held, without running out of the buffer and without
    a failed assertion; [ScriptHeapEntryGetStringBytes] is their number; and every entry
    of the heap stands for the same bytes afterwards. *)
Theorem string_refinement (fresh : nat -> Z) (h : list HeapEntry) (i : Z) (s : bytes) (Hs : stands_for h i s) :
  exists h', ScriptHeapEntryToString fresh h i = Ok (h', s) /\
    (exists e, entry_at h i = Some e /\ ScriptHeapEntryGetStringBytes e = Ok (Z.of_nat (length s))) /\
    forall j t, stands_for h j t -> stands_for h' j t.
Proof.
  destruct Hs as [n Hn]. eexists. split; [by apply ToString_spec|].
  destruct (denotes_entry _ _ _ _ Hn) as (e & He & Hb & _). split; [by exists e|].
  intros j t Ht. destruct (0 <? n)%nat; [|done]. destruct Ht as [m Hm].
  destruct (denotes_convert h i s (converted h i s) e) with m j t as (m' & _ & ?); try done; by eexists.
Qed.

(** A tree of concatenations whose parts are shared. *)
Definition string_heap : list HeapEntry :=
  [MkEntry PEof false false 0; MkEntry (PStr (bytes_of "ab")) false false 0;
   MkEntry (PConcat 1 0 2) false false 0; MkEntry (PConcat 2 1 4) false false 0; MkEntry (PConcat 1 3 6) false false 0].

Lemma string_heap_stands : stands_for string_heap 4 (bytes_of "ababab").
Proof.
  exists 3%nat. change (bytes_of "ababab") with (bytes_of "ab" ++ ((bytes_of "ab" ++ []) ++ bytes_of "ab")).
  assert (D1 : denotes string_heap 0 1 (bytes_of "ab")) by (by eapply den_str).
  eapply (den_concat _ 4 _ 1 3 6 0 2); [done..| |done|by left].
  eapply (den_concat _ 3 _ 2 1 4 1 0); [done..| |done|done|by right].
  eapply (den_concat _ 2 _ 1 0 2 0 0); [done..| |done|by left]. by eapply den_eof.
Qed.

Lemma string_refinement_witness :
  exists h', ScriptHeapEntryToString (fun _ => 0) string_heap 4 = Ok (h', bytes_of "ababab") /\
    (exists e, entry_at string_heap 4 = Some e /\ ScriptHeapEntryGetStringBytes e = Ok 6) /\
    forall j t, stands_for string_heap j t -> stands_for h' j t.
Proof. apply (string_refinement (fun _ => 0) string_heap 4 (bytes_of "ababab")). apply string_heap_stands. Defined.
