(* ===== verification/ScriptFloat.v ===== *)
(** * Values of the script engine as doubles (util/script.c)

    A [Value] is a union of an [int64_t] and a [double]: the same 64 bits.  The bits are
    kept as a signed integer; a [double] is decoded from them, computed with the
    specification of binary64 arithmetic of the standard library, and encoded again.
    Every NaN is encoded with one payload.  A conversion to an integer that does not fit
    gives the smallest integer, as on x86-64. *)

From Stdlib Require Import SpecFloat.
From stdpp Require Import base list.
From S2P Require Import Prelude.

Definition f64_of_bits (v : Z) : spec_float :=
  let b := u64 v in
  let s := Z.testbit b 63 in
  let e := Z.shiftr b 52 mod 2 ^ 11 in
  let m := b mod 2 ^ 52 in
  if e =? 2047 then (if m =? 0 then S754_infinity s else S754_nan)
  else if e =? 0 then (if m =? 0 then S754_zero s else S754_finite s (Z.to_pos m) (-1074))
  else S754_finite s (Z.to_pos (m + 2 ^ 52)) (e - 1075).

Definition sign_bits (s : bool) : Z := if s then 2 ^ 63 else 0.

Definition f64_to_bits (f : spec_float) : Z :=
  s64 match f with
      | S754_zero s => sign_bits s
      | S754_infinity s => sign_bits s + 2047 * 2 ^ 52
      | S754_nan => 2047 * 2 ^ 52 + 2 ^ 51
      | S754_finite s m e =>
          if Zpos m <? 2 ^ 52 then sign_bits s + Zpos m
          else sign_bits s + (e + 1075) * 2 ^ 52 + (Zpos m - 2 ^ 52)
      end.

Definition f64_binary (f : spec_float -> spec_float -> spec_float) (a b : Z) : Z :=
  f64_to_bits (f (f64_of_bits a) (f64_of_bits b)).
Definition f64_add : Z -> Z -> Z := f64_binary (SFadd 53 1024).
Definition f64_sub : Z -> Z -> Z := f64_binary (SFsub 53 1024).
Definition f64_mul : Z -> Z -> Z := f64_binary (SFmul 53 1024).
Definition f64_div : Z -> Z -> Z := f64_binary (SFdiv 53 1024).
Definition f64_neg (a : Z) : Z := f64_to_bits (SFopp (f64_of_bits a)).
Definition f64_lt (a b : Z) : bool := SFltb (f64_of_bits a) (f64_of_bits b).
Definition f64_le (a b : Z) : bool := SFleb (f64_of_bits a) (f64_of_bits b).
Definition f64_eq (a b : Z) : bool := SFeqb (f64_of_bits a) (f64_of_bits b).

(** [(double) i] *)
Definition f64_of_int (i : Z) : Z := f64_to_bits (binary_normalize 53 1024 i 0 false).

(** [(int64_t) f]: towards zero. *)
Definition f64_truncate (a : Z) : Z :=
  match f64_of_bits a with
  | S754_zero _ => 0
  | S754_infinity _ | S754_nan => - 2 ^ 63
  | S754_finite s m e =>
      let n := (if s then -1 else 1) * (if 0 <=? e then Z.shiftl (Zpos m) e else Z.shiftr (Zpos m) (- e)) in
      if (- 2 ^ 63 <=? n) && (n <? 2 ^ 63) then n else - 2 ^ 63
  end.

(** The encoding is the inverse of the decoding, except for the payload of NaNs. *)
Lemma f64_bits_roundtrip v :
  - 2 ^ 63 <= v < 2 ^ 63 -> f64_of_bits v <> S754_nan -> f64_to_bits (f64_of_bits v) = v.
Proof.
  intros Hv. unfold f64_of_bits, f64_to_bits, u64, wrap. set (b := v mod 2 ^ 64).
  assert (Hb : 0 <= b < 2 ^ 64) by (apply Z.mod_pos_bound; lia).
  assert (Hs : s64 b = v).
  { unfold s64, swrap, b. replace (64 - 1) with 63 by lia.
    rewrite <- Zplus_mod_idemp_l, Z.mod_mod, Zplus_mod_idemp_l, Z.mod_small by lia. lia. }
  rewrite Z.shiftr_div_pow2 by lia.
  assert (Htop : Z.testbit b 63 = (2 ^ 63 <=? b)).
  { rewrite Z.testbit_odd, Z.shiftr_div_pow2 by lia. destruct (Z.leb_spec (2 ^ 63) b).
    - replace (b / 2 ^ 63) with 1; [done|]. apply (Z.div_unique b (2 ^ 63) 1 (b - 2 ^ 63)); lia.
    - by rewrite Z.div_small by lia. }
  assert (Hdiv : b = 2 ^ 63 * (if 2 ^ 63 <=? b then 1 else 0) + 2 ^ 52 * ((b / 2 ^ 52) mod 2 ^ 11) + b mod 2 ^ 52).
  { pose proof (Z.div_mod b (2 ^ 52)). pose proof (Z.div_mod (b / 2 ^ 52) (2 ^ 11)).
    assert (b / 2 ^ 52 / 2 ^ 11 = if 2 ^ 63 <=? b then 1 else 0).
    { rewrite Z.div_div by lia. change (2 ^ 52 * 2 ^ 11) with (2 ^ 63). destruct (Z.leb_spec (2 ^ 63) b).
      - symmetry. apply (Z.div_unique b (2 ^ 63) 1 (b - 2 ^ 63)); lia.
      - by rewrite Z.div_small by lia. }
    lia. }
  rewrite Htop. revert Hdiv. set (e := (b / 2 ^ 52) mod 2 ^ 11). set (m := b mod 2 ^ 52). intros Hdiv.
  assert (He : 0 <= e < 2 ^ 11) by (apply Z.mod_pos_bound; lia).
  assert (Hm : 0 <= m < 2 ^ 52) by (apply Z.mod_pos_bound; lia).
  intros Hnan. rewrite <- Hs. f_equal. unfold sign_bits. clear Hs Htop.
  revert Hnan Hdiv. generalize (2 ^ 63 <=? b). clearbody e m b. intros t Hnan Hdiv.
  destruct (Z.eqb_spec e 2047) as [->|].
  { destruct (Z.eqb_spec m 0) as [->|]; [|done]. destruct t; lia. }
  destruct (Z.eqb_spec e 0) as [->|].
  - destruct (Z.eqb_spec m 0) as [->|]; [destruct t; lia|].
    rewrite Z2Pos.id by lia. destruct (Z.ltb_spec m (2 ^ 52)); [|lia]. destruct t; lia.
  - rewrite Z2Pos.id by lia. destruct (Z.ltb_spec (m + 2 ^ 52) (2 ^ 52)); [lia|]. destruct t; lia.
Qed.

Example f64_one : f64_of_int 1 = 0x3FF0000000000000.
Proof. reflexivity. Qed.
Example f64_arithmetic : f64_truncate (f64_div (f64_of_int 7) (f64_of_int (-2))) = -3.
Proof. reflexivity. Qed.
