(* ===== verification/ScriptScope.v ===== *)
(** * Scopes of the script engine (util/script.c)

    [ScopeLookupIndex], [ScopeLookup], [ScopeCheckNotAlreadyUsed], [ScopeAddEntry],
    [ASTSetScopes].  From here on nodes are shared and updated, so they live in a store:
    a pointer is an index into [nodes], [None] is [NULL].  Scopes and imported modules
    have stores of their own.  Memory of this pass is never freed while it runs. *)

From Stdlib Require Import String.
From stdpp Require Import base list relations sets.
From S2P Require Import Prelude ScriptToken ScriptParser ScriptHeap.

(** ** The store *)

(** A [Node] with the fields the passes set.  Of its flags the parser sets the first four.
    The module of the token is a field of its own, as the tokens of the parser, which
    reads one module, do not carry it. *)
Record AstNode := MkAst {
  type : Z;
  token : Token;
  token_module : option nat;
  flags : node_flags;
  cycleCheck : bool;
  operationType : Z;
  referencesRootScope : bool;
  inlineImportVariableIndex : Z;
  firstChild : option nat;
  sibling : option nat;
  parent : option nat;
  scope : option nat;
  expressionType : option nat;
  importData : option nat;
}.

(** [AllocateFixed] gives zeroed memory. *)
Definition ast0 : AstNode := MkAst 0 token0 None no_flags false 0 false 0 None None None None None None.

(** [entryCount] is the length of [entries]. *)
Record Scope := MkScope {
  entries : list nat;
  variableEntryCount : Z;
  entriesAllocated : Z;
  isRoot : bool;
}.

Record ImportData := MkImport {
  fileData : bytes;
  path : bytes;
  parentImport : option nat;
  rootNode : option nat;
  globalVariableOffset : Z;
  has_library : bool;
}.

(** A [LineNumber]: the module, the line and the function of an instruction. *)
Record LineNumber := MkLineNumber {
  ln_importData : option nat;
  ln_instructionPointer : Z;
  ln_lineNumber : Z;
  ln_function : option Token;
}.

(** The state of code generation: the bytecode and what was last assigned to. *)
Record FunctionBuilder := MkBuilder {
  data : bytes;
  lineNumbers : list LineNumber;
  scopeIndex : Z;
  assigns_persistent : bool;
  isDotAssignment : bool;
  isListAssignment : bool;
  variableOffset : Z;
  builder_module : option nat;
  replResultType : option nat;
}.

(** The stores, the list [importedModules], the options of the command line that were
    matched, the messages printed, and what is generated: the bytecode and the context
    with its global variables and heap. *)
Record ast := MkStore {
  nodes : list AstNode;
  scopes : list Scope;
  imports : list ImportData;
  importedModules : list nat;
  optionsMatched : list bool;
  printed : list (Z * string);
  builder : FunctionBuilder;
  context : ExecutionContext;
}.

Definition set_nodes (l : list AstNode) (s : ast) : ast :=
  MkStore l (scopes s) (imports s) (importedModules s) (optionsMatched s) (printed s) (builder s) (context s).
Definition set_scopes (l : list Scope) (s : ast) : ast :=
  MkStore (nodes s) l (imports s) (importedModules s) (optionsMatched s) (printed s) (builder s) (context s).
Definition set_imports (l : list ImportData) (s : ast) : ast :=
  MkStore (nodes s) (scopes s) l (importedModules s) (optionsMatched s) (printed s) (builder s) (context s).
Definition set_imported (l : list nat) (s : ast) : ast :=
  MkStore (nodes s) (scopes s) (imports s) l (optionsMatched s) (printed s) (builder s) (context s).
Definition set_matched (l : list bool) (s : ast) : ast :=
  MkStore (nodes s) (scopes s) (imports s) (importedModules s) l (printed s) (builder s) (context s).
Definition set_printed (l : list (Z * string)) (s : ast) : ast :=
  MkStore (nodes s) (scopes s) (imports s) (importedModules s) (optionsMatched s) l (builder s) (context s).
Definition set_builder (b : FunctionBuilder) (s : ast) : ast :=
  MkStore (nodes s) (scopes s) (imports s) (importedModules s) (optionsMatched s) (printed s) b (context s).
Definition set_context (x : ExecutionContext) (s : ast) : ast :=
  MkStore (nodes s) (scopes s) (imports s) (importedModules s) (optionsMatched s) (printed s) (builder s) x.

Definition set_parent (v : option nat) (n : AstNode) : AstNode :=
  MkAst (type n) (token n) (token_module n) (flags n) (cycleCheck n) (operationType n) (referencesRootScope n) (inlineImportVariableIndex n) (firstChild n)
    (sibling n) v (scope n) (expressionType n) (importData n).
Definition set_scope (v : option nat) (n : AstNode) : AstNode :=
  MkAst (type n) (token n) (token_module n) (flags n) (cycleCheck n) (operationType n) (referencesRootScope n) (inlineImportVariableIndex n) (firstChild n)
    (sibling n) (parent n) v (expressionType n) (importData n).
Definition set_expressionType (v : option nat) (n : AstNode) : AstNode :=
  MkAst (type n) (token n) (token_module n) (flags n) (cycleCheck n) (operationType n) (referencesRootScope n) (inlineImportVariableIndex n) (firstChild n)
    (sibling n) (parent n) (scope n) v (importData n).
Definition set_importData (v : option nat) (n : AstNode) : AstNode :=
  MkAst (type n) (token n) (token_module n) (flags n) (cycleCheck n) (operationType n) (referencesRootScope n) (inlineImportVariableIndex n) (firstChild n)
    (sibling n) (parent n) (scope n) (expressionType n) v.
Definition set_references_root (n : AstNode) : AstNode :=
  MkAst (type n) (token n) (token_module n) (flags n) (cycleCheck n) (operationType n) true (inlineImportVariableIndex n) (firstChild n)
    (sibling n) (parent n) (scope n) (expressionType n) (importData n).

(** ** Access *)

(** Following a pointer. *)
Definition deref {A} (o : option A) : M ast A := lift_opt OutOfBounds o.
Definition node_at (p : nat) : M ast AstNode := let! s := get in deref (nodes s !! p).
Definition scope_at (p : nat) : M ast Scope := let! s := get in deref (scopes s !! p).
Definition import_at (p : nat) : M ast ImportData := let! s := get in deref (imports s !! p).

Definition update_node (p : nat) (f : AstNode -> AstNode) : M ast unit :=
  modify (fun s => set_nodes (alter f p (nodes s)) s).
Definition update_scope (p : nat) (f : Scope -> Scope) : M ast unit :=
  modify (fun s => set_scopes (alter f p (scopes s)) s).

Definition new_node (n : AstNode) : M ast nat :=
  fun s => (Ok (length (nodes s)), set_nodes (nodes s ++ [n]) s).
Definition new_scope (x : Scope) : M ast nat :=
  fun s => (Ok (length (scopes s)), set_scopes (scopes s ++ [x]) s).
Definition new_import (x : ImportData) : M ast nat :=
  fun s => (Ok (length (imports s)), set_imports (imports s ++ [x]) s).

(** [PrintError2] (the line of the node) and [PrintError3] (no line), and then
    [return false]. *)
Definition error_at {A} (n : AstNode) (message : string) : M ast A :=
  modify (fun s => set_printed (printed s ++ [(token_line (token n), message)]) s) ;;; ret_false.
Definition error_3 {A} (message : string) : M ast A :=
  modify (fun s => set_printed (printed s ++ [(0, message)]) s) ;;; ret_false.

(** ** Entries of scopes *)

Definition ScopeIsVariableType (n : AstNode) : bool :=
  is_type (type n) [T_DECLARE; T_FUNCTION; T_ARGUMENT; T_PLACEHOLDER].

#[global] Arguments ScopeIsVariableType : simpl never.

(** Tests of the entry at a pointer. *)
Definition entry_is (ns : list AstNode) (p : AstNode -> bool) (e : nat) : bool :=
  match ns !! e with Some n => p n | None => false end.
Definition named (w : bytes) (n : AstNode) : bool := bool_decide (text (token n) = w).

(** The loop of [ScopeLookupIndex]; [j] counts the entries passed, only variables unless
    [real]. *)
Fixpoint index_of (ns : list AstNode) (w : bytes) (real : bool) (j : Z) (l : list nat) : option Z :=
  match l with
  | [] => None
  | e :: l' =>
      if entry_is ns (named w) e then
        if negb (entry_is ns ScopeIsVariableType e) && negb real then None else Some j
      else index_of ns w real (if entry_is ns ScopeIsVariableType e || real then j + 1 else j) l'
  end.

Definition ScopeLookupIndex (w : bytes) (sc : Scope) (maybe real : bool) : M ast Z :=
  let! s := get in
  match index_of (nodes s) w real 0 (entries sc) with
  | Some j => ret j
  | None => assert maybe ;;; ret (-1)
  end.

(** The walk over the ancestors of a node: [visit] is run on each scope that is not the
    one before, until it gives a result. *)
Fixpoint walk {A} (fuel : nat) (visit : nat -> M ast (option A)) (ancestor current : option nat)
  : M ast (option A) :=
  match fuel with
  | O => stop OutOfFuel
  | S f =>
      match ancestor with
      | None => ret None
      | Some a =>
          let! n := node_at a in
          if bool_decide (scope n = current) then walk f visit (parent n) current
          else
            let! sc := deref (scope n) in
            let! r := visit sc in
            match r with
            | Some x => ret (Some x)
            | None => walk f visit (parent n) (scope n)
            end
      end
  end.

(** Ancestors are nodes of the store, and there is the test of [NULL]. *)
Definition walk_from {A} (visit : nat -> M ast (option A)) (p : nat) : M ast (option A) :=
  let! s := get in walk (S (length (nodes s))) visit (Some p) None.

Definition find_entry (q : AstNode -> bool) (sc : nat) : M ast (option nat) :=
  let! x := scope_at sc in
  let! s := get in
  ret (find (entry_is (nodes s) q) (entries x)).

Definition ScopeLookup (p : nat) (maybe : bool) : M ast nat :=
  let! n := node_at p in
  let! r := walk_from (find_entry (named (text (token n)))) p in
  match r with
  | Some e =>
      if referencesRootScope n then
        let! x := node_at e in
        let! up := deref (parent x) in
        let! y := node_at up in
        if type y =? T_ROOT then ret e
        else error_at n "The identifier '%.*s' is used before it is declared in this scope."
      else ret e
  | None =>
      if maybe then ret_false else error_at n "Could not find identifier '%.*s' inside its scope."
  end.

Definition ScopeCheckNotAlreadyUsed (p : nat) : M ast unit :=
  let! n := node_at p in
  let! r := walk_from (fun sc =>
      let! x := scope_at sc in
      find_entry (fun e => named (text (token n)) e && (negb (isRoot x) || bool_decide (scope n = Some sc))
                           && negb (type e =? T_PLACEHOLDER)) sc) p in
  match r with
  | Some _ => error_at n "The identifier '%.*s' was already used in this scope."
  | None => ret tt
  end.

(** Make room for an entry. *)
Definition reserve_entry (sc : nat) : M ast unit :=
  let! x := scope_at sc in
  if Z.of_nat (length (entries x)) =? entriesAllocated x then
    let a := if entriesAllocated x =? 0 then 4 else entriesAllocated x * 2 in
    update_scope sc (fun x => MkScope (entries x) (variableEntryCount x) a (isRoot x))
  else ret tt.

(** Write the entry, which must be inside the array. *)
Definition append_to_scope (sc p : nat) (n : AstNode) : M ast unit :=
  let! x := scope_at sc in
  if Z.of_nat (length (entries x)) <? entriesAllocated x then
    update_scope sc (fun x => MkScope (entries x ++ [p]) (variableEntryCount x) (entriesAllocated x) (isRoot x)) ;;;
    if ScopeIsVariableType n then
      update_scope sc (fun x => MkScope (entries x) (variableEntryCount x + 1) (entriesAllocated x) (isRoot x))
    else ret tt
  else stop OutOfBounds.

Definition ScopeAddEntry (sc p : nat) : M ast unit :=
  let! n := node_at p in
  if (type n =? T_IMPORT) && (token_type (token n) =? T_INLINE) then ret tt
  else
    update_node p (set_scope (Some sc)) ;;;
    reserve_entry sc ;;;
    ScopeCheckNotAlreadyUsed p ;;;
    append_to_scope sc p n ;;;
    update_node p (fun n => set_expressionType (firstChild n) n).

(** ** ASTSetScopes *)

(** What the imports of a module need: reading a file, the text of the base module, and
    the passes over an imported module ([ScriptLoad], which runs [ASTSetScopes] and the
    passes behind it on that module). *)
Class Loader := {
  FileLoad : bytes -> option bytes;
  baseModuleSource : bytes;
  load_module : nat -> M ast unit;
}.

Definition base_module_name : bytes := bytes_of "__base_module__".

(** Run [body] on a node and its siblings; the next one is read after [body]. *)
Fixpoint for_siblings (fuel : nat) (body : nat -> M ast unit) (child : option nat) : M ast unit :=
  match fuel with
  | O => stop OutOfFuel
  | S f =>
      match child with
      | None => ret tt
      | Some p =>
          body p ;;;
          let! n := node_at p in
          for_siblings f body (sibling n)
      end
  end.

(** The nodes of a chain are nodes of the store. *)
Definition each_sibling (body : nat -> M ast unit) (child : option nat) : M ast unit :=
  let! s := get in for_siblings (S (length (nodes s))) body child.

Section Imports.
Context `{Loader} (module : option nat).

(** Is [w] the path of [m] or of a module that imports it? *)
Fixpoint imported_by (fuel : nat) (w : bytes) (m : option nat) : M ast bool :=
  match fuel with
  | O => stop OutOfFuel
  | S f =>
      match m with
      | None => ret false
      | Some i =>
          let! d := import_at i in
          if bool_decide (path d = w) then ret true else imported_by f w (parentImport d)
      end
  end.

(** Load the module at [w], unless it is there, for the node [n] at [p]. *)
Definition import_module (p : nat) (n : AstNode) (w : bytes) : M ast nat :=
  let! s := get in
  match find (fun i => match imports s !! i with Some d => bool_decide (path d = w) | None => false end)
          (importedModules s) with
  | Some i => update_node p (set_importData (Some i)) ;;; ret i
  | None =>
      let! data := match if bool_decide (w = base_module_name) then Some baseModuleSource else FileLoad w with
                   | Some data => ret data
                   | None => error_at n "The script at path '%.*s' could not be loaded."
                   end in
      let! i := new_import (MkImport data w module None 0 false) in
      update_node p (set_importData (Some i)) ;;;
      let! s := get in
      let! cyclic := imported_by (S (length (imports s))) w module in
      if cyclic then error_3 "There is a cyclic import dependency." else load_module i ;;; ret i
  end.

(** The entries of the root scope of an imported module; [j] counts its variables.  The
    array is that of another module and does not change meanwhile. *)
Fixpoint inline_entries (sc up m : nat) (j : Z) (l : list nat) : M ast unit :=
  match l with
  | [] => ret tt
  | e :: l' =>
      let! n := node_at e in
      if type n =? T_INLINE then inline_entries sc up m j l'
      else
        let v := ScopeIsVariableType n in
        let! p := new_node (MkAst T_INLINE (token n) (token_module n) no_flags false 0 false (if v then j else -1)
                              (expressionType n) None (Some up) None None (Some m)) in
        ScopeAddEntry sc p ;;;
        inline_entries sc up m (if v then j + 1 else j) l'
  end.

(** A node of type [T_IMPORT]. *)
Definition import_node (p sc : nat) : M ast unit :=
  let! n := node_at p in
  let! child := deref (firstChild n) in
  let! c := node_at child in
  let! m := import_module p n (text (token c)) in
  if token_type (token n) =? T_INLINE then
    let! n := node_at p in
    let! up := deref (parent n) in
    let! d := import_at m in
    let! root := deref (rootNode d) in
    let! r := node_at root in
    let! from := deref (scope r) in
    let! x := scope_at from in
    inline_entries sc up m 0 (entries x)
  else ret tt.
End Imports.

(** The types of nodes that declare their name. *)
Definition declaring : list Z :=
  [T_DECLARE; T_FUNCTION; T_FUNCTYPE; T_INTTYPE; T_INTTYPE_CONSTANT; T_STRUCT; T_IMPORT; T_HANDLETYPE].

(** The arguments of the function a body belongs to. *)
Definition first_argument (n : AstNode) : M ast (option nat) :=
  let! f := deref (parent n) in
  let! f := node_at f in
  let! pointer := deref (firstChild f) in
  let! pointer := node_at pointer in
  let! arguments := deref (firstChild pointer) in
  let! arguments := node_at arguments in
  ret (firstChild arguments).

(** A use of a variable that is not known yet, or is known to be global. *)
Definition mark_variable (p : nat) : M ast unit :=
  let! r := try_result (ScopeLookup p true) in
  match r with
  | None => update_node p set_references_root
  | Some e =>
      let! x := node_at e in
      let! up := deref (parent x) in
      let! y := node_at up in
      if type y =? T_ROOT then update_node p set_references_root else ret tt
  end.

(** The two placeholders of a loop over a list. *)
Definition add_placeholder (sc : nat) : M ast unit :=
  let! p := new_node (MkAst T_PLACEHOLDER token0 None no_flags false 0 false 0 None None None None None None) in
  let! r := try_result (ScopeAddEntry sc p) in
  assert (match r with Some _ => true | None => false end).

Section SetScopes.
Context `{Loader} (module : option nat).

(** The scope for the children of a node: a new one, or that of its surroundings, which
    is [NULL] above the root. *)
Definition node_scope (p : nat) (n : AstNode) (sc : option nat) : M ast (option nat) :=
  if is_type (type n) [T_ROOT; T_BLOCK; T_FUNCBODY] then
    let! i := new_scope (MkScope [] 0 0 (type n =? T_ROOT)) in
    update_node p (set_scope (Some i)) ;;; ret (Some i)
  else update_node p (set_scope sc) ;;; ret sc.

(** What is done behind the children of a node. *)
Definition finish_node (p : nat) (n : AstNode) (sc : option nat) : M ast unit :=
  (if is_type (type n) declaring then
     let! m := node_at p in
     let! up := deref (parent m) in
     let! y := node_at up in
     if type y =? T_STRUCT then ret tt else let! sc := deref sc in ScopeAddEntry sc p
   else ret tt) ;;;
  (if type n =? T_FOR_EACH then let! sc := deref sc in add_placeholder sc ;;; add_placeholder sc else ret tt) ;;;
  (if type n =? T_IMPORT then let! sc := deref sc in import_node module p sc else ret tt).

Fixpoint ASTSetScopes (fuel : nat) (p : nat) (sc : option nat) : M ast unit :=
  match fuel with
  | O => stop OutOfFuel
  | S f =>
      let! n := node_at p in
      each_sibling (fun c => update_node c (set_parent (Some p))) (firstChild n) ;;;
      let! sc := node_scope p n sc in
      (if type n =? T_FUNCBODY then
         let! n := node_at p in
         let! argument := first_argument n in
         each_sibling (fun a => let! sc := deref sc in ScopeAddEntry sc a) argument
       else ret tt) ;;;
      (if type n =? T_VARIABLE then mark_variable p else ret tt) ;;;
      each_sibling (fun c => ASTSetScopes f c sc) (firstChild n) ;;;
      finish_node p n sc
  end.
End SetScopes.

(** ** The trees of the parser in the store *)

#[global] Instance Token_eq_dec : EqDecision Token.
Proof. solve_decision. Defined.

Fixpoint size (n : Node) : nat := let '(MkNode _ _ _ c) := n in S (sum_list_with size c).

(** The nodes of a tree of the module [m] from index [base] on, parents before their
    children.  A node without a token has no module.  The type of [new] is known to the
    parser.  (In a compound assignment the parser copies the node of
    the left side, but not its children; here the children are there twice.) *)
Fixpoint place (m : option nat) (n : Node) (next : option nat) (base : nat) : list AstNode :=
  let '(MkNode y k f c) := n in
  MkAst y k (if bool_decide (k = token0) then None else m) f false 0 false 0 (match c with [] => None | _ => Some (S base) end) next None None
    (if y =? T_NEW then Some (S base) else None) None ::
  (fix place_all (l : list Node) (b : nat) : list AstNode :=
     match l with
     | [] => []
     | x :: l' => place m x (match l' with [] => None | _ => Some (b + size x)%nat end) b ++ place_all l' (b + size x)%nat
     end) c (S base).

(** The nodes of the types that are static variables. *)
Definition type_node (y : Z) (c : option nat) : AstNode :=
  MkAst y token0 None no_flags false 0 false 0 c None None None None None.

Definition globalExpressionTypeErrVoid : nat := 0.
Definition globalExpressionTypeVoid : nat := 1.
Definition globalExpressionTypeIntList : nat := 2.
Definition globalExpressionTypeInt : nat := 3.
Definition globalExpressionTypeFloat : nat := 4.
Definition globalExpressionTypeBool : nat := 5.
Definition globalExpressionTypeStr : nat := 6.

Definition global_nodes : list AstNode :=
  [type_node T_ERR (Some globalExpressionTypeVoid); type_node T_VOID None;
   type_node T_LIST (Some globalExpressionTypeInt); type_node T_INT None; type_node T_FLOAT None;
   type_node T_BOOL None; type_node T_STR None].

(** The tree of a module behind the other nodes of a store; its root. *)
Definition add_tree (m : option nat) (n : Node) (s : ast) : ast :=
  set_nodes (nodes s ++ place m n None (length (nodes s))) s.
Definition tree_root (s : ast) : nat := length (nodes s).

(** The store when nothing is loaded. *)
Definition empty_builder : FunctionBuilder := MkBuilder [] [] 0 false false false 0 None None.
Definition start_store (x : ExecutionContext) : ast := MkStore global_nodes [] [] [] [] [] empty_builder x.
