(* ===== verification/ScriptScopeProofs.v ===== *)
(** * Scopes are well formed, and their pass ends

    Proofs about [ScriptScope].  A module is a region of the store: its nodes are those
    from [lo] on and its scopes those from [slo] on; what is below belongs to modules that
    are loaded already and may be anything. *)

From Stdlib Require Import String.
From stdpp Require Import base list relations sets.
From S2P Require Import Prelude ScriptToken ScriptParser ScriptParserProofs ScriptHeap ScriptScope.

(** ** The invariant of scopes *)

Section Invariant.
Context (ns : list AstNode).
Abbreviation is_variable := (entry_is ns ScopeIsVariableType).

(** Two entries of a scope have different names, except that nothing is said about the
    placeholders; variables are counted; the array is large enough. *)
Record scope_ok (x : Scope) : Prop := {
  so_valid : Forall (fun e => (e < length ns)%nat) (entries x);
  so_distinct : forall a b e1 e2 n1 n2, (a < b)%nat ->
    entries x !! a = Some e1 -> entries x !! b = Some e2 -> ns !! e1 = Some n1 -> ns !! e2 = Some n2 ->
    text (token n1) = text (token n2) -> type n1 = T_PLACEHOLDER;
  so_count : variableEntryCount x = Z.of_nat (length (List.filter is_variable (entries x)));
  so_room : Z.of_nat (length (entries x)) <= entriesAllocated x;
}.
End Invariant.

(** Is the module at a path loaded?  [import_module] looks for it this way. *)
Definition loaded (s : ast) (w : bytes) : Prop :=
  is_Some (find (fun i => match imports s !! i with Some d => bool_decide (path d = w) | None => false end)
             (importedModules s)).

(** Nodes keep their types, tokens and links and scopes their entries. *)
Record same_node (n n' : AstNode) : Prop := {
  sn_type : type n' = type n;
  sn_token : token n' = token n;
  sn_firstChild : firstChild n' = firstChild n;
  sn_sibling : sibling n' = sibling n;
}.
Definition grown_scope (x x' : Scope) : Prop := isRoot x' = isRoot x /\ entries x `prefix_of` entries x'.

Record extends (s s' : ast) : Prop := {
  ex_nodes : forall p n, nodes s !! p = Some n -> exists n', nodes s' !! p = Some n' /\ same_node n n';
  ex_scopes : forall i x, scopes s !! i = Some x -> exists x', scopes s' !! i = Some x' /\ grown_scope x x';
  ex_imports : imports s' = imports s /\ importedModules s' = importedModules s;
}.

#[export] Instance same_node_preorder : PreOrder same_node.
Proof. split; [by split|]. intros n1 n2 n3 [] []. split; congruence. Qed.

#[export] Instance grown_scope_preorder : PreOrder grown_scope.
Proof. split; [by split|]. intros x1 x2 x3 [] []. split; [congruence|by etrans]. Qed.

#[export] Instance extends_preorder : PreOrder extends.
Proof.
  split.
  - intros s. split; [intros ? z Hz; by exists z..|done].
  - intros s1 s2 s3 [H1 H1' L1] [H2 H2' L2]. split; [intros p z Hz..|destruct L1, L2; split; congruence].
    + destruct (H1 _ _ Hz) as (z2 & Hz2 & E). destruct (H2 _ _ Hz2) as (z3 & Hz3 & F). exists z3. split; [done|by etrans].
    + destruct (H1' _ _ Hz) as (z2 & Hz2 & E). destruct (H2' _ _ Hz2) as (z3 & Hz3 & F). exists z3. split; [done|by etrans].
Qed.

Create HintDb scopes.

(** ** A region of the store *)

Section Region.
Context (lo slo : nat).

(** Scopes of the region hold nodes of the region and are well formed; parents come
    before, so that following them ends; imported modules are loaded. *)
Record store_ok (s : ast) : Prop := {
  sk_scopes : forall i x, (slo <= i)%nat -> scopes s !! i = Some x ->
    scope_ok (nodes s) x /\ Forall (fun e => (lo <= e)%nat) (entries x);
  sk_placeholders : forall p n, (lo <= p)%nat -> nodes s !! p = Some n -> type n = T_PLACEHOLDER -> text (token n) = [];
  sk_parents : forall p n q, (lo <= p)%nat -> nodes s !! p = Some n -> parent n = Some q -> (lo <= q < p)%nat;
  sk_loaded : forall p n, (lo <= p)%nat -> nodes s !! p = Some n -> type n = T_IMPORT ->
    exists c k, firstChild n = Some c /\ nodes s !! c = Some k /\ loaded s (text (token k));
}.

(** ** Computations that end *)

Definition good (s : ast) (s' : ast) : Prop := store_ok s' /\ extends s s'.

(** The computation does not run out of fuel, keeps the invariant however it ends, and
    its result is in [Q]. *)
Definition ends {A} (m : M ast A) (s : ast) (Q : A -> ast -> Prop) : Prop :=
  let '(o, s') := m s in
  good s s' /\ match o with Ok a => Q a s' | RetFalse => True | Stop r => r <> OutOfFuel end.

Lemma ends_bind {A B} (m : M ast A) (k : A -> M ast B) s Q :
  ends m s (fun a s' => ends (k a) s' Q) -> ends (bind m k) s Q.
Proof.
  unfold ends, bind. destruct (m s) as [[a| |r] s1]; [|done..]. intros [[_ H1] H2].
  destruct (k a s1) as [o s2]. destruct H2 as [[H2 H3] H4]. split; [|done]. split; [done|by etrans].
Qed.

Lemma ends_mono {A} (m : M ast A) s (Q Q' : A -> ast -> Prop) :
  ends m s Q -> (forall a s', good s s' -> Q a s' -> Q' a s') -> ends m s Q'.
Proof. unfold ends. destruct (m s) as [[a| |r] s1]; [|done..]. intros [H1 H2] H. split; [done|by apply H]. Qed.

Lemma good_refl s : store_ok s -> good s s.
Proof. by split. Qed.

Lemma good_trans s1 s2 s3 : good s1 s2 -> good s2 s3 -> good s1 s3.
Proof. intros [_ H1] [H2 H3]. split; [done|by etrans]. Qed.

(** Reading, and following pointers. *)
Lemma ends_ret {A} (a : A) s (Q : A -> ast -> Prop) : store_ok s -> Q a s -> ends (ret a) s Q.
Proof. split; [by apply good_refl|done]. Qed.

Lemma ends_get s (Q : ast -> ast -> Prop) : store_ok s -> Q s s -> ends get s Q.
Proof. split; [by apply good_refl|done]. Qed.

Lemma ends_deref {A} (o : option A) s (Q : A -> ast -> Prop) :
  store_ok s -> (forall a, o = Some a -> Q a s) -> ends (deref o) s Q.
Proof. intros Hs H. destruct o; (split; [by apply good_refl|]); [by apply H|done]. Qed.

Lemma ends_node_at p s (Q : AstNode -> ast -> Prop) :
  store_ok s -> (forall n, nodes s !! p = Some n -> Q n s) -> ends (node_at p) s Q.
Proof. intros Hs H. apply ends_bind, ends_get; [done|]. by apply ends_deref. Qed.

Lemma ends_scope_at p s (Q : Scope -> ast -> Prop) :
  store_ok s -> (forall x, scopes s !! p = Some x -> Q x s) -> ends (scope_at p) s Q.
Proof. intros Hs H. apply ends_bind, ends_get; [done|]. by apply ends_deref. Qed.

Lemma ends_import_at p s (Q : ImportData -> ast -> Prop) :
  store_ok s -> (forall d, imports s !! p = Some d -> Q d s) -> ends (import_at p) s Q.
Proof. intros Hs H. apply ends_bind, ends_get; [done|]. by apply ends_deref. Qed.

Lemma ends_print l s (Q : unit -> ast -> Prop) :
  store_ok s -> Q tt (set_printed (printed s ++ l) s) -> ends (modify (fun s => set_printed (printed s ++ l) s)) s Q.
Proof. intros [] HQ. split; [|done]. split; [by split|]. split; [intros ? z Hz; by exists z..|done]. Qed.

(** Without a claim about the result. *)
Definition upholds {A} (m : M ast A) : Prop := forall s, store_ok s -> ends m s (fun _ _ => True).

Lemma upholds_bind {A B} (m : M ast A) (k : A -> M ast B) :
  upholds m -> (forall a, upholds (k a)) -> upholds (bind m k).
Proof.
  intros Hm Hk s Hs. apply ends_bind. eapply ends_mono; [by apply Hm|]. intros a s' [Hs' _] _. by apply Hk.
Qed.

Lemma ends_upholds {A} (m : M ast A) s : upholds m -> store_ok s -> ends m s (fun _ _ => True).
Proof. intros H. apply H. Qed.

Lemma upholds_ret {A} (a : A) : upholds (ret a).
Proof. intros s Hs. by apply ends_ret. Qed.
Lemma upholds_get : upholds get.
Proof. intros s Hs. by apply ends_get. Qed.
Lemma upholds_stop {A} r : r <> OutOfFuel -> upholds (stop (A := A) r).
Proof. intros Hr s Hs. split; [by apply good_refl|done]. Qed.
Lemma upholds_ret_false {A} : upholds (ret_false (A := A)).
Proof. intros s Hs. split; [by apply good_refl|done]. Qed.
Lemma upholds_deref {A} (o : option A) : upholds (deref o).
Proof. intros s Hs. by apply ends_deref. Qed.
Lemma upholds_assert b : upholds (assert b).
Proof. destruct b; [apply upholds_ret|by apply upholds_stop]. Qed.
Lemma upholds_print l : upholds (modify (fun s => set_printed (printed s ++ l) s)).
Proof. intros s Hs. by apply ends_print. Qed.
Lemma upholds_try {A} (m : M ast A) : upholds m -> upholds (try_result m).
Proof.
  intros Hm s Hs. specialize (Hm s Hs). unfold ends, try_result in *. by destruct (m s) as [[a| |r] s1].
Qed.

#[local] Hint Resolve upholds_ret upholds_get upholds_ret_false upholds_deref upholds_assert upholds_print
  upholds_try : scopes.
#[local] Hint Extern 1 (upholds (stop _)) => by apply upholds_stop : scopes.

Lemma upholds_node_at p : upholds (node_at p).
Proof. apply upholds_bind; auto with scopes. Qed.
Lemma upholds_scope_at p : upholds (scope_at p).
Proof. apply upholds_bind; auto with scopes. Qed.
Lemma upholds_import_at p : upholds (import_at p).
Proof. apply upholds_bind; auto with scopes. Qed.
Lemma upholds_error_at {A} n m : upholds (error_at (A := A) n m).
Proof. apply upholds_bind; auto with scopes. Qed.
Lemma upholds_error_3 {A} m : upholds (error_3 (A := A) m).
Proof. apply upholds_bind; auto with scopes. Qed.
#[local] Hint Resolve upholds_node_at upholds_scope_at upholds_import_at upholds_error_at upholds_error_3 : scopes.

(** A computation that only reads. *)
Definition reads {A} (m : M ast A) : Prop := forall s, (m s).2 = s.

Lemma reads_find_entry q sc : reads (find_entry q sc).
Proof. intros s. unfold find_entry, scope_at, bind. cbn. by destruct (scopes s !! sc). Qed.

Lemma upholds_find_entry q sc : upholds (find_entry q sc).
Proof. apply upholds_bind; [|intros; apply upholds_bind]; auto with scopes. Qed.

(** The walk over the ancestors ends, since they come before. *)
Lemma ends_walk {A} (visit : nat -> M ast (option A)) s :
  store_ok s -> (forall sc, reads (visit sc)) -> (forall sc, upholds (visit sc)) ->
  forall n a c, (match a with Some p => lo <= p /\ p + 1 < n | None => 0 < n end)%nat ->
  ends (walk n visit a c) s (fun _ s' => s' = s).
Proof.
  intros Hs Hr Hv. induction n as [|n IH]; intros a c Hn; [destruct a; lia|]. cbn [walk].
  destruct a as [a|]; [|by apply ends_ret].
  apply ends_bind, ends_node_at; [done|]. intros m Hm.
  assert (Hp : (match parent m with Some p => lo <= p /\ p + 1 < n | None => 0 < n end)%nat).
  { destruct (parent m) as [q|] eqn:E; [|lia]. destruct (sk_parents _ Hs a m q) as [? ?]; [lia|done|done|]. lia. }
  destruct (bool_decide _); [by apply IH|].
  apply ends_bind, ends_deref; [done|]. intros sc _. apply ends_bind.
  pose proof (Hr sc s) as E. pose proof (Hv sc s Hs) as H. unfold ends in *. destruct (visit sc s) as [o s1].
  cbn in E. subst s1. destruct H as [H1 H2]. split; [done|]. destruct o as [[x|]| |]; [|by apply IH|done..].
  by apply ends_ret.
Qed.

Lemma ends_walk_from {A} (visit : nat -> M ast (option A)) p s n :
  store_ok s -> (lo <= p)%nat -> nodes s !! p = Some n -> (forall sc, reads (visit sc)) ->
  (forall sc, upholds (visit sc)) -> ends (walk_from visit p) s (fun _ s' => s' = s).
Proof.
  intros Hs Hp Hn%lookup_lt_Some Hr Hv. apply ends_bind, ends_get; [done|]. apply ends_walk; try done. lia.
Qed.

(** Split a computation into its calls. *)
Ltac upholds :=
  repeat first
    [ lazymatch goal with |- upholds (bind _ _) => apply upholds_bind; [|intros ?] end
    | solve [auto with scopes]
    | match goal with
      | |- upholds (match ?x with _ => _ end) => destruct x
      end ].

Lemma upholds_lookup p b : (lo <= p)%nat -> upholds (ScopeLookup p b).
Proof.
  intros Hp s Hs. apply ends_bind, ends_node_at; [done|]. intros n Hn. apply ends_bind.
  eapply ends_mono; [eapply ends_walk_from; [done|done|done|intros; apply reads_find_entry|intros; apply upholds_find_entry]|].
  intros r s' _ ->. apply ends_upholds; [upholds|done].
Qed.

(** Stores with the same types and tokens. *)
Definition same_nodes (ns ns' : list AstNode) : Prop :=
  forall p n, ns !! p = Some n -> exists n', ns' !! p = Some n' /\ same_node n n'.

Lemma same_nodes_back ns ns' p n' :
  same_nodes ns ns' -> (p < length ns)%nat -> ns' !! p = Some n' -> exists n, ns !! p = Some n /\ same_node n n'.
Proof.
  intros H Hp Hn'. destruct (lookup_lt_is_Some_2 _ _ Hp) as [n Hn]. exists n. split; [done|].
  destruct (H _ _ Hn) as (n2 & Hn2 & Hs). congruence.
Qed.

Lemma variable_same n n' : same_node n n' -> ScopeIsVariableType n' = ScopeIsVariableType n.
Proof. intros [E]. unfold ScopeIsVariableType. by rewrite E. Qed.

Lemma filter_same ns ns' l :
  same_nodes ns ns' -> Forall (fun e => (e < length ns)%nat) l ->
  List.filter (entry_is ns' ScopeIsVariableType) l = List.filter (entry_is ns ScopeIsVariableType) l.
Proof.
  intros H. induction 1 as [|e l He Hl IH]; [done|]. cbn. rewrite IH. unfold entry_is.
  destruct (lookup_lt_is_Some_2 _ _ He) as [n Hn]. destruct (H _ _ Hn) as (n' & Hn' & Hs).
  by rewrite Hn, Hn', (variable_same n n').
Qed.

Lemma scope_ok_same ns ns' x : same_nodes ns ns' -> scope_ok ns x -> scope_ok ns' x.
Proof.
  intros H [Hv Hd Hc Hr]. split; [| |by rewrite (filter_same ns)|done].
  - eapply List.Forall_impl; [|done]. intros e [n Hn]%lookup_lt_is_Some_2.
    destruct (H _ _ Hn) as (n' & Hn' & _). by eapply lookup_lt_Some.
  - rewrite List.Forall_forall in Hv. intros a b e1 e2 n1 n2 Hab H1 H2 Hn1 Hn2 E.
    apply (same_nodes_back ns) in Hn1 as (m1 & Hm1 & [E1 E1' _ _]);
      [|done|by eapply Hv, list_elem_of_In, list_elem_of_lookup_2].
    apply (same_nodes_back ns) in Hn2 as (m2 & Hm2 & [E2 E2' _ _]);
      [|done|by eapply Hv, list_elem_of_In, list_elem_of_lookup_2].
    rewrite E1. apply (Hd a b e1 e2 m1 m2); congruence.
Qed.

(** A change of nodes that keeps types, tokens and links; new nodes may be added. *)
Lemma good_nodes s ns' :
  store_ok s -> same_nodes (nodes s) ns' ->
  (forall p n, ns' !! p = Some n -> (length (nodes s) <= p)%nat ->
     type n <> T_IMPORT /\ (type n = T_PLACEHOLDER -> text (token n) = [])) ->
  (forall p n q, (lo <= p)%nat -> ns' !! p = Some n -> parent n = Some q -> (lo <= q < p)%nat) ->
  good s (set_nodes ns' s).
Proof.
  intros [Hs Hp Hu Hi] Hn Hnew Hup. split; split; cbn; try done.
  - intros i x Hl Hx. destruct (Hs i x Hl Hx) as [H1 H2]. split; [by eapply scope_ok_same|done].
  - intros p n Hlo Hpn Ht.
    destruct (decide (p < length (nodes s))%nat) as [Hl|Hl]; [|eapply Hnew; [done|lia|done]].
    destruct (same_nodes_back _ _ _ _ Hn Hl Hpn) as (m & Hm & [E E' _ _]). rewrite E'. apply (Hp p m); congruence.
  - intros p n Hlo Hpn Ht.
    destruct (decide (p < length (nodes s))%nat) as [Hl|Hl]; [|by destruct (Hnew p n); [done|lia|]].
    destruct (same_nodes_back _ _ _ _ Hn Hl Hpn) as (m & Hm & [E E' E'' _]).
    destruct (Hi p m) as (c & k & Hc & Hk & Hw); [done|done|congruence|].
    destruct (Hn _ _ Hk) as (k' & Hk' & [_ Ek _ _]). exists c, k'. split_and!; [congruence|done|by rewrite Ek].
  - intros i x Hx. by exists x.
Qed.

(** The changes of this pass: not of types, tokens and links, and of parents only to a
    node that comes before. *)
Definition allowed (p : nat) (f : AstNode -> AstNode) : Prop :=
  forall n, same_node n (f n) /\ (parent (f n) = parent n \/ exists q, parent (f n) = Some q /\ (lo <= q < p)%nat).

Lemma ends_update_node p f s (Q : unit -> ast -> Prop) :
  store_ok s -> allowed p f -> Q tt (set_nodes (alter f p (nodes s)) s) -> ends (update_node p f) s Q.
Proof.
  intros Hs Hf HQ. split; [|done]. apply good_nodes; [done|..].
  - intros q n Hq. rewrite list_lookup_alter. destruct (decide (p = q)) as [->|]; [|by exists n].
    rewrite Hq. exists (f n). split; [done|]. apply Hf.
  - intros q n Hq%lookup_lt_Some Hl. rewrite length_alter in Hq. lia.
  - intros q n u Hlo. rewrite list_lookup_alter. destruct (decide (p = q)) as [->|]; [|by apply (sk_parents s)].
    destruct (nodes s !! q) as [m|] eqn:Hm; [|done]. intros [= <-] Hu.
    destruct (proj2 (Hf m)) as [E|(u' & E & Hl)]; [|congruence].
    eapply (sk_parents s); [done|done|done|congruence].
Qed.

Lemma upholds_update_node p f : allowed p f -> upholds (update_node p f).
Proof. intros Hf s Hs. by apply ends_update_node. Qed.

Lemma allowed_scope p v : allowed p (set_scope v).
Proof. intros n. split; [by split|by left]. Qed.
Lemma allowed_expressionType p : allowed p (fun n => set_expressionType (firstChild n) n).
Proof. intros n. split; [by split|by left]. Qed.
Lemma allowed_importData p v : allowed p (set_importData v).
Proof. intros n. split; [by split|by left]. Qed.
Lemma allowed_references p : allowed p set_references_root.
Proof. intros n. split; [by split|by left]. Qed.
Lemma allowed_parent p q : (lo <= q < p)%nat -> allowed p (set_parent (Some q)).
Proof. intros Hq n. split; [by split|]. right. by exists q. Qed.
#[local] Hint Resolve upholds_update_node allowed_scope allowed_expressionType allowed_importData allowed_references
  upholds_lookup : scopes.

Lemma ends_new_node n s (Q : nat -> ast -> Prop) :
  store_ok s -> (type n <> T_IMPORT /\ (type n = T_PLACEHOLDER -> text (token n) = [])) ->
  (forall q, parent n = Some q -> (lo <= q < length (nodes s))%nat) ->
  Q (length (nodes s)) (set_nodes (nodes s ++ [n]) s) -> ends (new_node n) s Q.
Proof.
  intros Hs Hn Hu HQ. split; [|done]. apply good_nodes; [done|..].
  - intros q m Hq. exists m. split; [|done]. by apply lookup_app_l_Some.
  - intros q m [Hq|[_ Hq]]%lookup_app_Some Hl; [apply lookup_lt_Some in Hq; lia|].
    apply list_lookup_singleton_Some in Hq as [_ <-]. done.
  - intros q m u Hlo [Hq|[Hl Hq]]%lookup_app_Some Hm; [by eapply sk_parents|].
    apply list_lookup_singleton_Some in Hq as [E <-]. specialize (Hu _ Hm). lia.
Qed.

Lemma ends_new_scope b s (Q : nat -> ast -> Prop) :
  store_ok s -> (forall s', good s s' -> Q (length (scopes s)) s') -> ends (new_scope (MkScope [] 0 0 b)) s Q.
Proof.
  intros Hs HQ. assert (Hg : good s (set_scopes (scopes s ++ [MkScope [] 0 0 b]) s)); [|split; [done|by apply HQ]].
  destruct Hs as [Hs Hp Hu Hi]. split; split; cbn; try done.
  - intros i x Hl [Hx|[_ Hx]]%lookup_app_Some; [by eapply Hs|].
    apply list_lookup_singleton_Some in Hx as [_ <-]. by repeat constructor.
  - intros p n Hn. by exists n.
  - intros i x Hx. exists x. split; [by apply lookup_app_l_Some|done].
Qed.

(** ** Adding an entry *)

(** The first scope of the walk is that of the node itself. *)
Lemma walk_from_own {A} (visit : nat -> M ast (option A)) p n sc s :
  nodes s !! p = Some n -> scope n = Some sc ->
  walk_from visit p s =
  (let! r := visit sc in
   match r with
   | Some x => ret (Some x)
   | None => walk (length (nodes s)) visit (parent n) (Some sc)
   end) s.
Proof.
  intros Hn Hsc. unfold walk_from. unfold bind at 1. cbn [get]. cbn [walk]. unfold node_at, bind at 1, bind at 1.
  cbn. rewrite Hn. cbn. by rewrite Hsc.
Qed.

Lemma find_none_forall {A} (q : A -> bool) l : find q l = None -> forall x, x ∈ l -> q x = false.
Proof. intros H x Hx%list_elem_of_In. by eapply find_none. Qed.

(** The search of [ScopeCheckNotAlreadyUsed] in one scope. *)
Abbreviation check_scope n := (fun sc => let! x := scope_at sc in
  find_entry (fun e => named (text (token n)) e && (negb (isRoot x) || bool_decide (scope n = Some sc))
                       && negb (type e =? T_PLACEHOLDER)) sc).

Lemma reads_check n sc : reads (check_scope n sc).
Proof.
  intros s. pose proof (fun q => reads_find_entry q sc s) as H. unfold scope_at, bind in *. cbn in *.
  destruct (scopes s !! sc); [apply H|done].
Qed.

Lemma upholds_check_scope n sc : upholds (check_scope n sc).
Proof. apply upholds_bind; [auto with scopes|]. intros x. apply upholds_find_entry. Qed.

(** A name that passes is new in the scope. *)
Lemma check_fresh p n sc x s s' :
  store_ok s -> (lo <= p)%nat -> nodes s !! p = Some n -> scope n = Some sc -> scopes s !! sc = Some x ->
  ScopeCheckNotAlreadyUsed p s = (Ok tt, s') ->
  s' = s /\ forall e m, e ∈ entries x -> nodes s !! e = Some m -> text (token m) = text (token n) ->
            type m = T_PLACEHOLDER.
Proof.
  intros Hs Hp Hn Hsc Hx. unfold ScopeCheckNotAlreadyUsed. unfold bind at 1. unfold node_at, bind at 1. cbn.
  rewrite Hn. cbn. unfold bind at 1.
  rewrite (walk_from_own _ _ _ _ _ Hn Hsc). unfold bind at 1.
  set (visit := fun sc0 : nat => _).
  assert (Hr : forall sc0, reads (visit sc0)).
  { apply reads_check. }
  assert (Ev : visit sc s = (Ok (find (entry_is (nodes s) (fun e => named (text (token n)) e &&
    (negb (isRoot x) || bool_decide (scope n = Some sc)) && negb (type e =? T_PLACEHOLDER))) (entries x)), s)).
  { unfold visit, find_entry, scope_at, bind. cbn. rewrite Hx. cbn. by rewrite Hx. }
  unfold visit in Ev. cbv beta in Ev. rewrite Ev. destruct (find _ _) as [e|] eqn:Ef; [by cbn|].
  assert (Hw : ends (walk (length (nodes s)) visit (parent n) (Some sc)) s (fun _ s' => s' = s)).
  { apply ends_walk; [done|done|apply upholds_check_scope|]. apply lookup_lt_Some in Hn as Hl.
    destruct (parent n) as [q|] eqn:Eq; [|lia]. pose proof (sk_parents _ Hs _ _ _ Hp Hn Eq). lia. }
  unfold ends in Hw. destruct (walk _ _ _ _ s) as [[[?|]| |] s1]; cbn in Hw |- *; [done| |done..].
  destruct Hw as [_ ->]. intros [= ->]. split; [done|].
  intros e m He Hm E. apply (find_none_forall _ _ Ef) in He. unfold entry_is in He. rewrite Hm in He.
  rewrite (bool_decide_true (scope n = Some sc)), orb_true_r, andb_true_r in He by done.
  unfold named in He. rewrite bool_decide_true in He by done. cbn in He.
  apply negb_false_iff, Z.eqb_eq in He. done.
Qed.

Lemma good_scope s sc x f :
  store_ok s -> scopes s !! sc = Some x -> scope_ok (nodes s) (f x) -> Forall (fun e => (lo <= e)%nat) (entries (f x)) ->
  grown_scope x (f x) -> good s (set_scopes (alter f sc (scopes s)) s).
Proof.
  intros [Hs Hp Hu Hi] Hx Hok Hmine Hg. split; split; cbn; try done.
  - intros i y Hl Hj. rewrite list_lookup_alter in Hj. destruct (decide (sc = i)) as [->|]; [|by eapply Hs].
    rewrite Hx in Hj. by injection Hj as <-.
  - intros p n Hn. by exists n.
  - intros i y Hy. rewrite list_lookup_alter. destruct (decide (sc = i)) as [->|]; [|by exists y].
    rewrite Hx in Hy. injection Hy as <-. rewrite Hx. by exists (f x).
Qed.

(** A scope with one more entry. *)
Definition append_entry (n : AstNode) (p : nat) (x : Scope) : Scope :=
  MkScope (entries x ++ [p]) (if ScopeIsVariableType n then variableEntryCount x + 1 else variableEntryCount x)
    (entriesAllocated x) (isRoot x).

Lemma scope_ok_append ns x p n :
  scope_ok ns x -> ns !! p = Some n -> Z.of_nat (length (entries x)) < entriesAllocated x ->
  (forall e m, e ∈ entries x -> ns !! e = Some m -> text (token m) = text (token n) -> type m = T_PLACEHOLDER) ->
  scope_ok ns (append_entry n p x).
Proof.
  intros [Hv Hd Hc Hr] Hn Hroom Hnew. split; cbn [append_entry entries variableEntryCount entriesAllocated].
  - apply Forall_app. split; [done|]. repeat constructor. by eapply lookup_lt_Some.
  - intros a b e1 e2 n1 n2 Hab H1 [H2|[Hl H2]]%lookup_app_Some Hn1 Hn2 E.
    + eapply (Hd a b); try done. apply lookup_app_Some in H1 as [?|[? _]]; [done|].
      apply lookup_lt_Some in H2. lia.
    + apply list_lookup_singleton_Some in H2 as [Hb <-].
      apply lookup_app_Some in H1 as [H1|[H1 _]]; [|lia].
      eapply Hnew; [by eapply list_elem_of_lookup_2|done|congruence].
  - assert (E : entry_is ns ScopeIsVariableType p = ScopeIsVariableType n) by (unfold entry_is; by rewrite Hn).
    rewrite List.filter_app, length_app, Hc. cbn [List.filter]. rewrite E. destruct (ScopeIsVariableType n); cbn [length]; lia.
  - rewrite length_app. cbn. lia.
Qed.

Lemma scope_ok_grow ns x :
  scope_ok ns x -> Z.of_nat (length (entries x)) = entriesAllocated x ->
  scope_ok ns (MkScope (entries x) (variableEntryCount x)
                 (if entriesAllocated x =? 0 then 4 else entriesAllocated x * 2) (isRoot x)).
Proof. intros [Hv Hd Hc Hr] Hl. split; cbn; try done. destruct (entriesAllocated x =? 0) eqn:E; lia. Qed.

Lemma scope_at_ok s sc x : store_ok s -> (slo <= sc)%nat -> scopes s !! sc = Some x -> scope_ok (nodes s) x.
Proof. intros [H _ _ _] Hl Hx. by apply (H sc x). Qed.

Lemma reserve_entry_spec s sc x :
  store_ok s -> (slo <= sc)%nat -> scopes s !! sc = Some x ->
  exists s' x', reserve_entry sc s = (Ok tt, s') /\ store_ok s' /\ extends s s' /\ nodes s' = nodes s /\
    scopes s' !! sc = Some x' /\ Z.of_nat (length (entries x')) < entriesAllocated x'.
Proof.
  intros Hs Hl Hx. unfold reserve_entry, scope_at, bind. cbn. rewrite Hx. cbn.
  destruct (sk_scopes _ Hs _ _ Hl Hx) as [Hok Hmine].
  destruct (Z.of_nat (length (entries x)) =? entriesAllocated x) eqn:E.
  - apply Z.eqb_eq in E. set (f := fun x0 => MkScope (entries x0) _ _ _).
    destruct (good_scope s sc x f) as [H1 H2]; [done|done|by apply scope_ok_grow|done|by split|].
    exists (set_scopes (alter f sc (scopes s)) s), (f x). split_and!; try done.
    + cbn. rewrite list_lookup_alter, decide_True by done. by rewrite Hx.
    + cbn. destruct (entriesAllocated x =? 0) eqn:E0; lia.
  - exists s, x. split_and!; try done. apply Z.eqb_neq in E. destruct Hok. lia.
Qed.

Lemma alter_twice {A} (f g : A -> A) (i : nat) (l : list A) : alter g i (alter f i l) = alter (fun x => g (f x)) i l.
Proof.
  revert i. induction l as [|x l IH]; intros [|i]; [done..|]. cbn. f_equal. apply IH.
Qed.

Lemma append_to_scope_spec s sc p n x :
  store_ok s -> (slo <= sc)%nat -> (lo <= p)%nat -> nodes s !! p = Some n -> scopes s !! sc = Some x ->
  (forall e m, e ∈ entries x -> nodes s !! e = Some m -> text (token m) = text (token n) -> type m = T_PLACEHOLDER) ->
  Z.of_nat (length (entries x)) < entriesAllocated x ->
  exists s', append_to_scope sc p n s = (Ok tt, s') /\ store_ok s' /\ extends s s' /\ nodes s' = nodes s.
Proof.
  intros Hs Hl Hp Hn Hx Hnew Hroom. destruct (sk_scopes _ Hs _ _ Hl Hx) as [Hok Hmine].
  destruct (good_scope s sc x (append_entry n p)) as [H1 H2]; [done|done| | | |].
  - by apply scope_ok_append.
  - apply Forall_app. split; [done|]. by repeat constructor.
  - split; [done|]. by exists [p].
  - exists (set_scopes (alter (append_entry n p) sc (scopes s)) s). split_and!; try done.
    unfold append_to_scope, scope_at, bind. cbn. rewrite Hx. cbn.
    rewrite (proj2 (Z.ltb_lt _ _) Hroom). cbn. unfold append_entry.
    destruct (ScopeIsVariableType n); cbn; [|done]. unfold update_scope, modify. cbn. by rewrite alter_twice.
Qed.

Lemma upholds_check p : (lo <= p)%nat -> upholds (ScopeCheckNotAlreadyUsed p).
Proof.
  intros Hp s Hs. apply ends_bind, ends_node_at; [done|]. intros n Hn. apply ends_bind.
  eapply ends_mono; [eapply ends_walk_from; [done|done|done|apply reads_check|apply upholds_check_scope]|].
  intros r s' _ ->. apply ends_upholds; [upholds|done].
Qed.

(** The part of [ScopeAddEntry] that works on the scope. *)
Lemma ends_entry sc p n s :
  store_ok s -> (slo <= sc)%nat -> (lo <= p)%nat -> nodes s !! p = Some n -> scope n = Some sc ->
  ends (reserve_entry sc ;;; ScopeCheckNotAlreadyUsed p ;;; append_to_scope sc p n) s (fun _ _ => True).
Proof.
  intros Hs Hl Hp Hn Hsc. destruct (scopes s !! sc) as [x|] eqn:Hx.
  2: { apply ends_bind, ends_bind, ends_scope_at; [done|]. intros x' Hx'. congruence. }
  destruct (reserve_entry_spec s sc x Hs Hl Hx) as (s2 & x' & E2 & Hs2 & Hx2 & En & Hx' & Hroom).
  apply ends_bind. unfold ends at 1. rewrite E2. split; [by split|].
  assert (Hn2 : nodes s2 !! p = Some n) by congruence.
  apply ends_bind. pose proof (upholds_check p Hp s2 Hs2) as Hc. unfold ends in Hc |- *.
  destruct (ScopeCheckNotAlreadyUsed p s2) as [[[]| |r] s3] eqn:Ec; [|done..].
  destruct (check_fresh _ _ _ _ _ _ Hs2 Hp Hn2 Hsc Hx' Ec) as [-> Hnew].
  destruct (append_to_scope_spec s2 sc p n x' Hs2 Hl Hp Hn2 Hx' Hnew Hroom) as (s4 & E4 & Hs4 & Hx4 & _).
  split; [apply Hc|]. rewrite E4. by split.
Qed.

Lemma ends_assoc {A} (m1 m2 m3 : M ast unit) (m4 : M ast A) s Q :
  ends ((m1 ;;; m2 ;;; m3) ;;; m4) s Q -> ends (m1 ;;; m2 ;;; m3 ;;; m4) s Q.
Proof.
  unfold ends, bind. destruct (m1 s) as [[?| |] s1]; [|done..]. by destruct (m2 s1) as [[?| |] s2].
Qed.

Lemma upholds_add_entry sc p : (slo <= sc)%nat -> (lo <= p)%nat -> upholds (ScopeAddEntry sc p).
Proof.
  intros Hl Hp s Hs. apply ends_bind, ends_node_at; [done|]. intros n Hn. destruct (_ && _); [by apply ends_ret|].
  apply ends_bind, ends_update_node; [done|auto with scopes|].
  destruct (ends_update_node p (set_scope (Some sc)) s (fun _ _ => True) Hs) as [[Hs1 _] _]; [auto with scopes|done|].
  set (s1 := set_nodes _ s) in *.
  assert (Hn1 : nodes s1 !! p = Some (set_scope (Some sc) n)).
  { cbn. rewrite list_lookup_alter, decide_True by done. by rewrite Hn. }
  apply ends_assoc. change (append_to_scope sc p n) with (append_to_scope sc p (set_scope (Some sc) n)).
  apply ends_bind. eapply ends_mono; [by apply ends_entry|]. intros _ s' [Hs' _] _. apply ends_upholds; auto with scopes.
Qed.
#[local] Hint Resolve upholds_check upholds_add_entry : scopes.

(** ** The pass ends *)

Lemma good_length s s' p : good s s' -> (p < length (nodes s))%nat -> (p < length (nodes s'))%nat.
Proof.
  intros [_ [H _]] [n Hn]%lookup_lt_is_Some_2. destruct (H _ _ Hn) as (n' & Hn' & _). by eapply lookup_lt_Some.
Qed.

Lemma upholds_placeholder sc s :
  (slo <= sc)%nat -> (lo <= length (nodes s))%nat -> store_ok s -> ends (add_placeholder sc) s (fun _ _ => True).
Proof.
  intros Hl Hn Hs. apply ends_bind.
  eapply ends_mono; [apply (ends_new_node _ s (fun p _ => lo <= p)%nat); [done|done|done|lia]|].
  intros p s1 [Hs1 _] Hp. apply ends_upholds; [upholds|done].
Qed.

Lemma upholds_mark_variable p : (lo <= p)%nat -> upholds (mark_variable p).
Proof. intros Hp. unfold mark_variable. upholds. Qed.

Lemma ends_node_scope p n sc s :
  store_ok s -> (forall i, sc = Some i -> (slo <= i)%nat) -> (slo <= length (scopes s))%nat ->
  ends (node_scope p n sc) s (fun sc' _ => forall i, sc' = Some i -> (slo <= i)%nat).
Proof.
  intros Hs Hsc Hl. unfold node_scope. destruct (is_type _ _).
  - apply ends_bind, ends_new_scope; [done|]. intros s1 [Hs1 _]. apply ends_bind.
    eapply ends_mono; [apply ends_upholds; [auto with scopes|done]|]. intros _ s2 [Hs2 _] _.
    apply ends_ret; [done|]. intros i [= <-]. done.
  - apply ends_bind. eapply ends_mono; [apply ends_upholds; [auto with scopes|done]|]. intros _ s2 [Hs2 _] _.
    by apply ends_ret.
Qed.

Lemma ends_inline_entries sc up m l : forall s j,
  (slo <= sc)%nat -> (lo <= up < length (nodes s))%nat -> store_ok s ->
  ends (inline_entries sc up m j l) s (fun _ _ => True).
Proof.
  induction l as [|e l IH]; intros s j Hl Hu Hs; cbn [inline_entries]; [by apply ends_ret|].
  apply ends_bind, ends_node_at; [done|]. intros n Hn. destruct (type n =? T_INLINE); [by apply IH|].
  apply ends_bind.
  eapply ends_mono; [apply (ends_new_node _ s (fun p _ => lo <= p)%nat); [done|done|cbn; intros q [= <-]; done|lia]|].
  intros q s1 Hg1 Hq. apply ends_bind. eapply ends_mono; [apply upholds_add_entry; [done|done|apply Hg1]|].
  intros _ s2 Hg2 _. apply IH; [done| |apply Hg2]. split; [lia|]. do 2 (eapply good_length; [done|]). lia.
Qed.

Section Pass.
Context `{Loader} (module : option nat).

Lemma ends_import_module p n w s :
  store_ok s -> loaded s w -> ends (import_module module p n w) s (fun _ _ => True).
Proof.
  intros Hs [i Hi]. apply ends_bind, ends_get; [done|]. rewrite Hi. apply ends_upholds; [upholds|done].
Qed.

Lemma ends_import_node p sc s n :
  store_ok s -> (lo <= p)%nat -> (slo <= sc)%nat -> nodes s !! p = Some n -> type n = T_IMPORT ->
  ends (import_node module p sc) s (fun _ _ => True).
Proof.
  intros Hs Hp Hl Hn Ht. destruct (sk_loaded _ Hs p n Hp Hn Ht) as (c & k & Hc & Hk & Hw).
  apply ends_bind, ends_node_at; [done|]. intros n' ?. simplify_eq. rewrite Hc.
  apply ends_bind, ends_deref; [done|]. intros c' [= <-].
  apply ends_bind, ends_node_at; [done|]. intros k' ?. simplify_eq.
  apply ends_bind. eapply ends_mono; [by apply ends_import_module|].
  intros m s1 [Hs1 _] _. destruct (_ =? _); [|by apply ends_ret].
  apply ends_bind, ends_node_at; [done|]. intros n1 Hn1. apply ends_bind, ends_deref; [done|]. intros up Hup.
  apply ends_bind, ends_import_at; [done|]. intros d _. apply ends_bind, ends_deref; [done|]. intros root _.
  apply ends_bind, ends_node_at; [done|]. intros r _. apply ends_bind, ends_deref; [done|]. intros from _.
  apply ends_bind, ends_scope_at; [done|]. intros x _. apply ends_inline_entries; [done| |done].
  apply (sk_parents _ Hs1 p n1) in Hup; [|done|done]. apply lookup_lt_Some in Hn1. lia.
Qed.

(** The nodes of the tree are those below [N]: children and siblings come behind. *)
Context (N : nat).

Definition tree_below (s : ast) : Prop :=
  forall p, (lo <= p < N)%nat -> exists n, nodes s !! p = Some n /\
    (forall c, firstChild n = Some c -> (p < c < N)%nat) /\ (forall c, sibling n = Some c -> (p < c < N)%nat).

Record fine (s : ast) : Prop := {
  fi_ok : store_ok s;
  fi_tree : tree_below s;
  fi_length : (N <= length (nodes s))%nat;
  fi_scopes : (slo <= length (scopes s))%nat;
}.

Lemma fine_good s s' : fine s -> good s s' -> fine s'.
Proof.
  intros [Hs Ht Hl Hsc] Hg. assert (Hx := proj2 Hg). split; [apply Hg| | |].
  - intros p Hp. destruct (Ht p Hp) as (n & Hn & H1 & H2). destruct (ex_nodes _ _ Hx _ _ Hn) as (n' & Hn' & []).
    exists n'. split; [done|]. split; intros c Hc; [apply H1|apply H2]; congruence.
  - destruct N as [|k]; [lia|]. eapply (good_length _ _ k); [done|]. lia.
  - destruct slo as [|k]; [lia|]. destruct (lookup_lt_is_Some_2 (scopes s) k) as [x Hx']; [lia|].
    destruct (ex_scopes _ _ Hx _ _ Hx') as (x' & Hl'%lookup_lt_Some & _). lia.
Qed.

Lemma tree_below_node s p n :
  fine s -> (lo <= p < N)%nat -> nodes s !! p = Some n ->
  (forall c, firstChild n = Some c -> (p < c < N)%nat) /\ (forall c, sibling n = Some c -> (p < c < N)%nat).
Proof. intros [_ Ht _ _] Hp Hn. destruct (Ht p Hp) as (n' & Hn' & H'). by simplify_eq. Qed.

Lemma ends_finish_node p n sc s n0 :
  fine s -> (lo <= p < N)%nat -> (forall i, sc = Some i -> (slo <= i)%nat) -> nodes s !! p = Some n0 -> type n0 = type n ->
  ends (finish_node module p n sc) s (fun _ _ => True).
Proof.
  intros Hs Hp Hsc Hn0 Ht. apply ends_bind. eapply (ends_mono _ _ (fun _ _ => True)).
  { destruct (is_type _ _); [|apply ends_ret; [apply Hs|done]].
    apply ends_bind, ends_node_at; [apply Hs|]. intros m _. apply ends_bind, ends_deref; [apply Hs|]. intros up _.
    apply ends_bind, ends_node_at; [apply Hs|]. intros y _. destruct (_ =? _); [apply ends_ret; [apply Hs|done]|].
    apply ends_bind, ends_deref; [apply Hs|]. intros i Hi. apply upholds_add_entry; [by apply Hsc|lia|apply Hs]. }
  intros _ s1 Hg1 _. pose proof (fine_good _ _ Hs Hg1) as Hs1. apply ends_bind. eapply (ends_mono _ _ (fun _ _ => True)).
  { destruct (_ =? _); [|apply ends_ret; [apply Hs1|done]]. apply ends_bind, ends_deref; [apply Hs1|]. intros i Hi.
    pose proof (fi_length _ Hs1). apply ends_bind.
    eapply ends_mono; [apply upholds_placeholder; [by apply Hsc|lia|apply Hs1]|]. intros _ s2 Hg2 _.
    pose proof (fi_length _ (fine_good _ _ Hs1 Hg2)). apply upholds_placeholder; [by apply Hsc|lia|apply Hg2]. }
  intros _ s2 Hg2 _. pose proof (fine_good _ _ Hs1 Hg2) as Hs2.
  destruct (type n =? T_IMPORT) eqn:E; [|apply ends_ret; [apply Hs2|done]].
  apply ends_bind, ends_deref; [apply Hs2|]. intros i Hi.
  destruct (ex_nodes _ _ (proj2 Hg1) _ _ Hn0) as (n1 & Hn1 & E1).
  destruct (ex_nodes _ _ (proj2 Hg2) _ _ Hn1) as (n2 & Hn2 & E2).
  eapply ends_import_node; [apply Hs2|lia|by apply Hsc|done|]. rewrite (sn_type _ _ E2), (sn_type _ _ E1). lia.
Qed.

Lemma ends_for_siblings body low n : forall s c,
  (forall q s', (low <= q < N)%nat -> fine s' -> ends (body q) s' (fun _ _ => True)) -> fine s -> (lo <= low)%nat ->
  (match c with Some q => low <= q < N /\ N - q < n | None => 0 < n end)%nat ->
  ends (for_siblings n body c) s (fun _ _ => True).
Proof.
  induction n as [|n IH]; intros s c Hb Hs Hlow Hc; [destruct c; lia|]. cbn [for_siblings].
  destruct c as [q|]; [|apply ends_ret; [apply Hs|done]]. apply ends_bind.
  eapply ends_mono; [apply Hb; [lia|done]|]. intros _ s1 Hg1 _. pose proof (fine_good _ _ Hs Hg1) as Hs1.
  apply ends_bind, ends_node_at; [apply Hs1|]. intros m Hm. apply IH; [done|done|done|].
  destruct (sibling m) as [q'|] eqn:E; [|lia].
  destruct (tree_below_node s1 q m) as [_ Hq]; [done|lia|done|]. specialize (Hq q' E). lia.
Qed.

Lemma ends_each_sibling body low s c :
  (forall q s', (low <= q < N)%nat -> fine s' -> ends (body q) s' (fun _ _ => True)) -> fine s -> (lo <= low)%nat ->
  (forall q, c = Some q -> (low <= q < N)%nat) -> ends (each_sibling body c) s (fun _ _ => True).
Proof.
  intros Hb Hs Hlow Hc. apply ends_bind, ends_get; [apply Hs|]. eapply ends_for_siblings; [done|done|done|].
  pose proof (fi_length s Hs). destruct c as [q|]; [|lia]. specialize (Hc q eq_refl). lia.
Qed.

Lemma ends_first_argument s p n :
  fine s -> (lo <= p < N)%nat -> nodes s !! p = Some n ->
  ends (first_argument n) s (fun a s' => s' = s /\ forall q, a = Some q -> (lo <= q < N)%nat).
Proof.
  intros Hs Hp Hn. assert (Hok := fi_ok _ Hs). unfold first_argument.
  apply ends_bind, ends_deref; [done|]. intros f Hf. apply ends_bind, ends_node_at; [done|]. intros nf Hnf.
  apply (sk_parents _ Hok p n) in Hf; [|lia|done].
  apply ends_bind, ends_deref; [done|]. intros g Hg. apply ends_bind, ends_node_at; [done|]. intros ng Hng.
  apply (tree_below_node s f nf) in Hg; [|done|lia|done].
  apply ends_bind, ends_deref; [done|]. intros h Hh. apply ends_bind, ends_node_at; [done|]. intros nh Hnh.
  apply (tree_below_node s g ng) in Hh; [|done|lia|done].
  apply ends_ret; [done|]. split; [done|]. intros q Hq.
  apply (tree_below_node s h nh) in Hq; [lia|done|lia|done].
Qed.

Lemma ends_ASTSetScopes n : forall p sc s,
  fine s -> (lo <= p < N)%nat -> (N - p < n)%nat -> (forall i, sc = Some i -> (slo <= i)%nat) ->
  ends (ASTSetScopes module n p sc) s (fun _ _ => True).
Proof.
  induction n as [|n IH]; intros p sc s Hs Hp Hn Hsc; [lia|]. cbn [ASTSetScopes].
  apply ends_bind, ends_node_at; [apply Hs|]. intros m Hm.
  destruct (tree_below_node s p m) as [Hc _]; [done|done|done|].
  apply ends_bind. eapply ends_mono; [apply (ends_each_sibling _ (S p)); [|done|lia|]|].
  { intros q s' Hq Hs'. apply ends_update_node; [apply Hs'|apply allowed_parent; lia|done]. }
  { intros q Hq. specialize (Hc q Hq). lia. }
  intros _ s1 Hg1 _. pose proof (fine_good _ _ Hs Hg1) as Hs1.
  apply ends_bind. eapply ends_mono; [apply ends_node_scope; [apply Hs1|done|apply Hs1]|].
  intros sc' s2 Hg2 Hsc'. pose proof (fine_good _ _ Hs1 Hg2) as Hs2.
  apply ends_bind. eapply (ends_mono _ _ (fun _ _ => True)).
  { destruct (_ =? _); [|apply ends_ret; [apply Hs2|done]].
    apply ends_bind, ends_node_at; [apply Hs2|]. intros m2 Hm2. apply ends_bind.
    eapply ends_mono; [by apply (ends_first_argument s2 p)|]. intros a s3 _ [-> Ha].
    eapply (ends_each_sibling _ lo); [|done|done|done]. intros q s' Hq Hs'.
    apply ends_bind, ends_deref; [apply Hs'|]. intros i Hi. apply upholds_add_entry; [by apply Hsc'|lia|apply Hs']. }
  intros _ s3 Hg3 _. pose proof (fine_good _ _ Hs2 Hg3) as Hs3.
  apply ends_bind. eapply (ends_mono _ _ (fun _ _ => True)).
  { destruct (_ =? _); [|apply ends_ret; [apply Hs3|done]]. apply upholds_mark_variable; [lia|apply Hs3]. }
  intros _ s4 Hg4 _. pose proof (fine_good _ _ Hs3 Hg4) as Hs4.
  apply ends_bind. eapply ends_mono; [apply (ends_each_sibling _ (S p)); [|done|lia|]|].
  { intros q s' Hq Hs'. apply IH; [done|lia|lia|done]. }
  { intros q Hq. specialize (Hc q Hq). lia. }
  intros _ s5 Hg5 _. pose proof (fine_good _ _ Hs4 Hg5) as Hs5.
  assert (Hg : good s s5) by (do 4 (eapply good_trans; [done|]); done).
  destruct (ex_nodes _ _ (proj2 Hg) _ _ Hm) as (m5 & Hm5 & E). eapply ends_finish_node; [done|done|done|done|apply E].
Qed.
End Pass.
End Region.

(** ** The store of a tree *)

Definition places (m : option nat) : list Node -> nat -> list AstNode :=
  fix places (l : list Node) (b : nat) : list AstNode :=
    match l with
    | [] => []
    | x :: l' => place m x (match l' with [] => None | _ => Some (b + size x)%nat end) b ++ places l' (b + size x)%nat
    end.

Lemma place_eq m y k f c next b :
  place m (MkNode y k f c) next b =
  MkAst y k (if bool_decide (k = token0) then None else m) f false 0 false 0 (match c with [] => None | _ => Some (S b) end) next None None
    (if y =? T_NEW then Some (S b) else None) None :: places m c (S b).
Proof. reflexivity. Qed.

Lemma length_place m t : forall next b, length (place m t next b) = size t.
Proof.
  induction t as [y k f c IH] using node_ind'. intros next b. rewrite place_eq. cbn. f_equal. generalize (S b).
  induction IH as [|x c Hx IH' IHc]; intros b'; [done|]. cbn. by rewrite length_app, Hx, IHc.
Qed.

Lemma length_places m l : forall b, length (places m l b) = sum_list_with size l.
Proof. induction l as [|x l IH]; intros b; [done|]. cbn. by rewrite length_app, length_place, IH. Qed.

(** What holds of a placed node: its links go to later nodes, below [hi]. *)
Record placed (hi p : nat) (n : AstNode) : Prop := {
  pl_parent : parent n = None;
  pl_type : type n <> T_PLACEHOLDER;
  pl_firstChild : forall c, firstChild n = Some c -> (p < c < hi)%nat;
  pl_sibling : forall c, sibling n = Some c -> (p < c < hi)%nat;
}.

Definition all_placed (hi b : nat) (l : list AstNode) : Prop :=
  forall i n, l !! i = Some n -> placed hi (b + i) n.

Lemma all_placed_app hi b l1 l2 :
  all_placed hi b l1 -> all_placed hi (b + length l1) l2 -> all_placed hi b (l1 ++ l2).
Proof.
  intros H1 H2 i n [Hi|[Hl Hi]]%lookup_app_Some; [by apply H1|].
  replace (b + i)%nat with (b + length l1 + (i - length l1))%nat by lia. by apply H2.
Qed.

Lemma tree_size_pos t : (0 < size t)%nat.
Proof. destruct t. cbn. lia. Qed.

Lemma place_placed m hi t : forall next b,
  well_shaped t = true -> (b + size t <= hi)%nat -> (forall c, next = Some c -> (b + size t <= c < hi)%nat) ->
  all_placed hi b (place m t next b).
Proof.
  induction t as [y k f c IH] using node_ind'. intros next b Hw Hb Hnext.
  cbn [well_shaped] in Hw. apply andb_true_iff in Hw as [Ha Hw]. rewrite forallb_forall in Hw.
  rewrite place_eq. cbn [size] in Hb, Hnext. apply (all_placed_app _ _ [_]).
  - intros i n [-> <-]%list_lookup_singleton_Some. split; cbn; [done| | |].
    + intros ->. destruct c; discriminate Ha.
    + intros q. destruct c as [|x c]; [done|]. cbn in Hb. pose proof (tree_size_pos x). intros [= <-]. lia.
    + intros q Hq. specialize (Hnext q Hq). lia.
  - cbn [length]. replace (b + 1)%nat with (S b) by lia.
    assert (Hb' : (S b + sum_list_with size c <= hi)%nat) by (cbn; lia). clear Hb Hnext Ha. revert Hb'.
    generalize (S b). induction IH as [|x c Hx IH' IHc]; intros b' Hb'; [by intros i n Hi|].
    cbn in Hb'. cbn [places]. apply all_placed_app.
    + apply Hx; [apply Hw; by left|lia|]. intros q Hq. destruct c as [|z c]; [done|]. cbn in Hb'.
      pose proof (tree_size_pos z). injection Hq as <-. lia.
    + rewrite length_place. apply IHc; [|lia]. intros z Hz. apply Hw. by right.
Qed.

(** The paths of the modules a tree imports. *)
Fixpoint import_paths (t : Node) : list bytes :=
  let '(MkNode y _ _ c) := t in
  (if y =? T_IMPORT then match c with x :: _ => [text (node_token x)] | [] => [] end else []) ++ concat (map import_paths c).

Lemma place_head m t next b : exists n, place m t next b !! 0%nat = Some n /\ token n = node_token t.
Proof. destruct t as [y k f c]. by eexists. Qed.

Lemma place_import m t : forall next b i n,
  well_shaped t = true -> place m t next b !! i = Some n -> type n = T_IMPORT ->
  exists j k, firstChild n = Some (b + j)%nat /\ place m t next b !! j = Some k /\ text (token k) ∈ import_paths t.
Proof.
  induction t as [y k f c IH] using node_ind'. intros next b i n Hw. rewrite place_eq.
  cbn [well_shaped] in Hw. apply andb_true_iff in Hw as [Ha Hw]. rewrite forallb_forall in Hw.
  destruct i as [|i].
  - intros [= <-] Hy. cbn in Hy. subst y. destruct c as [|x c]; [done|]. cbn [import_paths places firstChild].
    destruct (place_head m x (match c with [] => None | _ => Some (S b + size x)%nat end) (S b)) as (n & Hn & E).
    exists 1%nat, n. split_and!; [f_equal; lia| |rewrite E; set_solver]. cbn. by apply lookup_app_l_Some.
  - cbn [lookup list_lookup]. intros Hi Ht.
    enough (H : exists j q, firstChild n = Some (S b + j)%nat /\ places m c (S b) !! j = Some q /\
      text (token q) ∈ concat (map import_paths c)).
    { destruct H as (j & q & H1 & H2 & H3). exists (S j), q. split_and!; [by rewrite H1; f_equal; lia|done|].
      cbn [import_paths]. set_solver. }
    revert i Hi. generalize (S b). clear Ha. induction IH as [|x c Hx IH' IHc]; intros b' i Hi; [done|].
    cbn [places] in Hi |- *. apply lookup_app_Some in Hi as [Hi|[Hl Hi]].
    + apply Hx in Hi as (j & q & H1 & H2 & H3); [|apply Hw; by left|done]. exists j, q.
      split_and!; [done|by apply lookup_app_l_Some|cbn; set_solver].
    + apply IHc in Hi as (j & q & H1 & H2 & H3); [|intros z Hz; apply Hw; by right].
      rewrite length_place in *. exists (size x + j)%nat, q. split_and!; [by rewrite H1; f_equal; lia| |cbn; set_solver].
      rewrite lookup_app_r; rewrite length_place; [|lia]. by replace (size x + j - size x)%nat with j by lia.
Qed.

(** ** What the pass guarantees *)

(** The pass over a tree that was added to a store. *)
Definition set_scopes_of `{Loader} (module : option nat) (t : Node) (s : ast) : outcome unit * ast :=
  ASTSetScopes module (S (size t)) (tree_root s) None (add_tree module t s).

Section Tree.
Context (m : option nat) (t : Node) (s : ast).
Context (Hw : well_shaped t = true) (Hi : Forall (loaded s) (import_paths t)).
Abbreviation lo := (length (nodes s)).
Abbreviation slo := (length (scopes s)).

Lemma added_node p n : (lo <= p)%nat -> nodes (add_tree m t s) !! p = Some n -> placed (lo + size t) p n.
Proof.
  intros Hp [H|[_ H]]%lookup_app_Some; [apply lookup_lt_Some in H; lia|].
  pose proof (place_placed m (lo + size t) t None lo Hw) as HP. replace p with (lo + (p - lo))%nat by lia.
  apply HP; [lia|done|done].
Qed.

Lemma add_tree_fine : fine lo slo (lo + size t) (add_tree m t s).
Proof.
  split; [split| | |].
  - intros i x Hl Hx%lookup_lt_Some. cbn in Hx. lia.
  - intros p n Hp Hn Ht. by destruct (added_node p n Hp Hn).
  - intros p n q Hp Hn Hq. destruct (added_node p n Hp Hn). congruence.
  - intros p n Hp [H|[_ H]]%lookup_app_Some Ht; [apply lookup_lt_Some in H; lia|].
    destruct (place_import m t None lo (p - lo) n Hw H Ht) as (j & k & H1 & H2 & H3).
    exists (lo + j)%nat, k. split_and!; [done| |].
    + cbn. rewrite lookup_app_r by lia. by replace (lo + j - lo)%nat with j by lia.
    + rewrite List.Forall_forall in Hi. by apply Hi, list_elem_of_In.
  - intros p Hp. destruct (lookup_lt_is_Some_2 (nodes (add_tree m t s)) p) as [n Hn].
    { cbn. rewrite length_app, length_place. lia. }
    exists n. split; [done|]. by destruct (added_node p n (proj1 Hp) Hn).
  - cbn. by rewrite length_app, length_place.
  - done.
Qed.

Lemma set_scopes_of_good `{Loader} :
  (set_scopes_of m t s).1 <> Stop OutOfFuel /\ good lo slo (add_tree m t s) (set_scopes_of m t s).2.
Proof.
  pose proof (tree_size_pos t).
  pose proof (ends_ASTSetScopes lo slo m (lo + size t) (S (size t)) lo None (add_tree m t s) add_tree_fine) as E.
  unfold ends in E. unfold set_scopes_of, tree_root. destruct (ASTSetScopes _ _ _ _ _) as [o s']. cbn.
  destruct E as [Hg Ho]; [lia|lia|done|]. split; [|done]. destruct o; congruence.
Qed.
End Tree.

(** C18.  For every tree the parser returns silently, added to a store in which the
    modules it imports are loaded already (the base module, for every script), [ASTSetScopes] ends, and however it ends every scope it
    has made is well formed: names are distinct, variables are counted, entries are inside
    their array; no node has changed its type, token or links.  Loading a module from inside the pass is not covered. *)
Theorem ASTSetScopes_total `{Loader} module t s :
  well_shaped t = true -> Forall (loaded s) (import_paths t) ->
  let s' := (set_scopes_of module t s).2 in
  (set_scopes_of module t s).1 <> Stop OutOfFuel /\
  (forall i x, (length (scopes s) <= i)%nat -> scopes s' !! i = Some x -> scope_ok (nodes s') x) /\
  extends (add_tree module t s) s'.
Proof.
  intros Hw Hi. destruct (set_scopes_of_good module t s Hw Hi) as [H1 [H2 H3]]. split_and!; [done| |done].
  intros i x Hl Hx. by apply (sk_scopes _ _ _ H2 i x).
Qed.

(** *** Slots of variables *)

Lemma index_of_app ns w real l1 l2 : forall j,
  Forall (fun e => entry_is ns (named w) e = false) l1 ->
  index_of ns w real j (l1 ++ l2) =
  index_of ns w real
    (j + Z.of_nat (if real then length l1 else length (List.filter (entry_is ns ScopeIsVariableType) l1))) l2.
Proof.
  intros j Hl. revert j. induction Hl as [|e l1 He Hl IH]; intros j; cbn [app index_of].
  { f_equal. by destruct real; cbn; lia. }
  rewrite He, IH. f_equal. cbn [length List.filter]. destruct (entry_is ns ScopeIsVariableType e), real; cbn; lia.
Qed.

(** The number of variables before an entry. *)
Definition rank (ns : list AstNode) (x : Scope) (b : nat) : Z :=
  Z.of_nat (length (List.filter (entry_is ns ScopeIsVariableType) (take b (entries x)))).

(** The placeholders of a scope have no name. *)
Definition placeholders_unnamed (s : ast) (x : Scope) : Prop :=
  forall e n, e ∈ entries x -> nodes s !! e = Some n -> type n = T_PLACEHOLDER -> text (token n) = [].

Lemma index_of_entry s x b e n real :
  placeholders_unnamed s x -> scope_ok (nodes s) x -> entries x !! b = Some e -> nodes s !! e = Some n ->
  text (token n) <> [] -> real = true \/ ScopeIsVariableType n = true ->
  index_of (nodes s) (text (token n)) real 0 (entries x) = Some (if real then Z.of_nat b else rank (nodes s) x b).
Proof.
  intros Hs Hx Hb He Ht Hr. rewrite <- (take_drop_middle _ _ _ Hb) at 1. rewrite index_of_app.
  - assert (E1 : entry_is (nodes s) (named (text (token n))) e = true).
    { unfold entry_is. rewrite He. by apply bool_decide_true. }
    assert (E2 : entry_is (nodes s) ScopeIsVariableType e = ScopeIsVariableType n) by (unfold entry_is; by rewrite He).
    cbn [index_of]. rewrite E1, E2. apply lookup_lt_Some in Hb. rewrite length_take, Nat.min_l by lia.
    destruct Hr as [->| ->]; [by rewrite andb_false_r|]. by destruct real.
  - apply List.Forall_forall. intros e' [a Ha]%list_elem_of_In%list_elem_of_lookup_1.
    apply lookup_take_Some in Ha as [Ha Hl]. unfold entry_is. destruct (nodes s !! e') as [n'|] eqn:He'; [|done].
    unfold named. apply bool_decide_false. intros E.
    assert (type n' = T_PLACEHOLDER) as Hp by (by eapply (so_distinct _ _ Hx a b)).
    apply (Hs e' n') in Hp; [congruence| |done]. by eapply list_elem_of_lookup_2.
Qed.

Lemma rank_lt ns x b e b' :
  entries x !! b = Some e -> entry_is ns ScopeIsVariableType e = true -> (b < b')%nat -> rank ns x b < rank ns x b'.
Proof.
  intros Hb He Hl. unfold rank.
  rewrite <- (take_drop (S b) (take b' (entries x))), take_take, Nat.min_l, (take_S_r _ _ _ Hb) by lia.
  rewrite !List.filter_app, !length_app. cbn. rewrite He. cbn. lia.
Qed.

Lemma rank_range ns x b e :
  scope_ok ns x -> entries x !! b = Some e -> entry_is ns ScopeIsVariableType e = true ->
  0 <= rank ns x b < variableEntryCount x.
Proof.
  intros Hx Hb He. split; [unfold rank; lia|]. rewrite (so_count _ _ Hx). apply lookup_lt_Some in Hb as Hl.
  pose proof (rank_lt ns x b e _ Hb He Hl) as H. unfold rank in *.
  by rewrite (take_ge (entries x) (length (entries x))) in H by lia.
Qed.

(**  In a store with well-formed scopes, looking up the name of an entry gives its
    position among the entries and, for a variable, its slot: slots are below
    [variableEntryCount] and different variables of a scope have different slots. *)
Theorem variable_slots s x :
  placeholders_unnamed s x -> scope_ok (nodes s) x ->
  forall b e n, entries x !! b = Some e -> nodes s !! e = Some n -> text (token n) <> [] ->
  ScopeLookupIndex (text (token n)) x false true s = (Ok (Z.of_nat b), s) /\
  (ScopeIsVariableType n = true ->
   exists j, ScopeLookupIndex (text (token n)) x false false s = (Ok j, s) /\ 0 <= j < variableEntryCount x /\
     forall b' e' n' j', entries x !! b' = Some e' -> nodes s !! e' = Some n' -> text (token n') <> [] ->
       ScopeIsVariableType n' = true -> b <> b' ->
       ScopeLookupIndex (text (token n')) x false false s = (Ok j', s) -> j <> j').
Proof.
  intros Hs Hx b e n Hb He Ht. unfold ScopeLookupIndex, bind. cbn.
  rewrite (index_of_entry s x b e n true) by auto. split; [done|]. intros Hv.
  assert (Hve : forall e n, nodes s !! e = Some n -> entry_is (nodes s) ScopeIsVariableType e = ScopeIsVariableType n).
  { intros e1 n1 E. unfold entry_is. by rewrite E. }
  rewrite (index_of_entry s x b e n false) by auto. exists (rank (nodes s) x b).
  split_and!; [done|eapply rank_range; [done..|by rewrite (Hve e n)]|eapply rank_range; [done..|by rewrite (Hve e n)]|].
  intros b' e' n' j' Hb' He' Ht' Hv' Hne. rewrite (index_of_entry s x b' e' n' false) by auto. intros [= <-].
  assert (b < b' \/ b' < b)%nat as [Hl|Hl] by lia.
  - apply (rank_lt (nodes s) x b e) in Hl; [lia|done|by rewrite (Hve e n)].
  - apply (rank_lt (nodes s) x b' e') in Hl; [lia|done|by rewrite (Hve e' n')].
Qed.


(** *** An example *)

(** Nothing can be loaded. *)
Definition no_loader : Loader := {|
  FileLoad := fun _ => None;
  baseModuleSource := [];
  load_module := fun _ => ret tt;
|}.

Definition block_tree (w : string) : Node :=
  match (ParseBlock 100 false (load (bytes_of w))).1 with Ok n => n | _ => node T_BLOCK token0 [] end.
Definition scope_names (s : ast) : list (list bytes) :=
  map (fun x => map (fun e => match nodes s !! e with Some m => text (token m) | None => [] end) (entries x)) (scopes s).

(** A name used before its declaration, one declared twice in different blocks, a loop. *)
Definition nested_text : string := "int x = y; { int y; int z = x + y; } int y; for int i in x { int z; } }".
Definition nested_start : ast := start_store (initial_context (fun _ => MkEntry PEof false false 0)).
Definition nested : outcome unit * ast := set_scopes_of (H := no_loader) None (block_tree nested_text) nested_start.

(** A module that was loaded before, and a script that imports it as the parser makes every script import the base module. *)
Definition root_tree (in_base : bool) (w : string) : Node :=
  match (ParseRoot (parse_fuel (bytes_of w)) (fun _ => false) (MkParser (MkTokenizer (bytes_of w) 0 1 false in_base) [] false)).1 with
  | Ok n => n | _ => node T_ROOT token0 [] end.
Definition base_start : ast := set_imports [MkImport [] base_module_name None None 0 false] nested_start.
Definition base_loaded : ast :=
  let s := (set_scopes_of (H := no_loader) (Some 0%nat) (root_tree true "int limit; int Twice(int x) { return x + x; }") base_start).2 in
  set_imported [0%nat] (set_imports [MkImport [] base_module_name None (Some (tree_root base_start)) 0 false] s).
Definition script_tree : Node := root_tree false "int y; void Start() { int z = Twice(y); }".
Definition script_scopes : outcome unit * ast := set_scopes_of (H := no_loader) None script_tree base_loaded.

Lemma nested_input :
  well_shaped (block_tree nested_text) = true /\ Forall (loaded nested_start) (import_paths (block_tree nested_text)).
Proof.
  split; [vm_compute; reflexivity|].
  replace (import_paths (block_tree nested_text)) with (@nil bytes) by (vm_compute; reflexivity). constructor.
Qed.

Lemma script_input : well_shaped script_tree = true /\ Forall (loaded base_loaded) (import_paths script_tree).
Proof.
  split; [vm_compute; reflexivity|]. replace (import_paths script_tree) with [base_module_name] by (vm_compute; reflexivity).
  constructor; [|constructor]. exists 0%nat. vm_compute. reflexivity.
Qed.

Lemma ASTSetScopes_total_witness :
  script_scopes.1 = Ok tt /\
  scope_names script_scopes.2 = map (map bytes_of)
    [["limit"; "Twice"]; ["x"]; []; ["limit"; "Twice"; "y"; "Start"]; []; ["z"]]%string /\
  forall i x, (3 <= i)%nat -> scopes script_scopes.2 !! i = Some x -> scope_ok (nodes script_scopes.2) x.
Proof.
  destruct script_input as [Hw Hi]. split_and!; [vm_compute; reflexivity..|]. intros i x Hl.
  destruct (ASTSetScopes_total (H := no_loader) None script_tree base_loaded Hw Hi) as (_ & H & _).
  apply (H i x). replace (length (scopes base_loaded)) with 3%nat by (vm_compute; reflexivity). exact Hl.
Defined.

Lemma variable_slots_witness :
  exists x, scopes nested.2 !! 0%nat = Some x /\ ScopeLookupIndex (bytes_of "y") x false true nested.2 = (Ok 1, nested.2).
Proof.
  destruct nested_input as [Hw Hi].
  assert (Hs : store_ok (length (nodes nested_start)) (length (scopes nested_start)) nested.2)
    by exact (proj1 (proj2 (set_scopes_of_good None _ _ Hw Hi (H := no_loader)))).
  assert (Hx : exists x, scopes nested.2 !! 0%nat = Some x /\ entries x = [8; 19]%nat).
  { eexists. split; vm_compute; reflexivity. }
  assert (Hn : exists n, nodes nested.2 !! 19%nat = Some n /\ text (token n) = bytes_of "y").
  { eexists. split; vm_compute; reflexivity. }
  destruct Hx as (x & Hx & He), Hn as (n & Hn & Ht). exists x. split; [done|]. rewrite <- Ht.
  destruct (sk_scopes _ _ _ Hs 0 x) as [Hok Hmine]; [cbn; lia|done|]. rewrite List.Forall_forall in Hmine.
  apply (variable_slots nested.2 x) with (b := 1%nat) (e := 19%nat) (n := n); [|done|by rewrite He|done|by rewrite Ht].
  intros e m Hin%list_elem_of_In. apply (sk_placeholders _ _ _ Hs). by apply Hmine.
Defined.
