(* ===== verification/ScriptTypes.v ===== *)
(** * Types of the script engine (util/script.c)

    [ASTMatching], [ASTLookupTypeIdentifiers], the implicit casts, constant expressions
    and [ASTSetTypes], on the store of nodes.  Types are nodes too, and the pass shares
    and copies them, so that the store is a graph; recursion takes fuel. *)

From Stdlib Require Import String.
From stdpp Require Import base list.
From S2P Require Import Prelude ScriptToken ScriptParser ScriptFloat ScriptScope.

(** ** Following pointers *)

Definition set_node (p : nat) (n : AstNode) : M ast unit := update_node p (fun _ => n).
Definition set_firstChild (v : option nat) (n : AstNode) : AstNode :=
  MkAst (type n) (token n) (token_module n) (flags n) (cycleCheck n) (operationType n) (referencesRootScope n)
    (inlineImportVariableIndex n) v (sibling n) (parent n) (scope n) (expressionType n) (importData n).
Definition set_sibling (v : option nat) (n : AstNode) : AstNode :=
  MkAst (type n) (token n) (token_module n) (flags n) (cycleCheck n) (operationType n) (referencesRootScope n)
    (inlineImportVariableIndex n) (firstChild n) v (parent n) (scope n) (expressionType n) (importData n).
Definition set_cycleCheck (b : bool) (n : AstNode) : AstNode :=
  MkAst (type n) (token n) (token_module n) (flags n) b (operationType n) (referencesRootScope n)
    (inlineImportVariableIndex n) (firstChild n) (sibling n) (parent n) (scope n) (expressionType n) (importData n).
Definition set_operationType (y : Z) (n : AstNode) : AstNode :=
  MkAst (type n) (token n) (token_module n) (flags n) (cycleCheck n) y (referencesRootScope n)
    (inlineImportVariableIndex n) (firstChild n) (sibling n) (parent n) (scope n) (expressionType n) (importData n).

(** [p->firstChild], [p->sibling] and [p->expressionType], which may be [NULL]. *)
Definition first (p : nat) : M ast (option nat) := let! n := node_at p in ret (firstChild n).
Definition next (p : nat) : M ast (option nat) := let! n := node_at p in ret (sibling n).
Definition etype (p : nat) : M ast (option nat) := let! n := node_at p in ret (expressionType n).
Definition ntype (p : nat) : M ast Z := let! n := node_at p in ret (type n).

(** [p->firstChild], [p->firstChild->sibling] and so on, when they are followed. *)
Definition child1 (p : nat) : M ast nat := let! c := first p in deref c.
Definition child2 (p : nat) : M ast nat := let! c := child1 p in let! c := next c in deref c.
Definition child3 (p : nat) : M ast nat := let! c := child2 p in let! c := next c in deref c.
Definition child4 (p : nat) : M ast nat := let! c := child3 p in let! c := next c in deref c.

(** The type of the node a pointer that may be [NULL] points at. *)
Definition points_to (y : Z) (o : option nat) : M ast bool :=
  match o with None => ret false | Some p => let! z := ntype p in ret (z =? y) end.

Definition fail_at {A} (p : nat) (message : string) : M ast A := let! n := node_at p in error_at n message.

(** Go on when a test holds, or report an error about [p]. *)
Definition check (b : bool) (p : nat) (message : string) : M ast unit := if b then ret tt else fail_at p message.

(** A zeroed node of a type. *)
Definition fresh_node (y : Z) : M ast nat := new_node (type_node y None).
(** A copy of the node at [p]. *)
Definition copy_node (p : nat) : M ast nat := let! n := node_at p in new_node n.

(** ** Comparing types *)

(** The loop over the children of two types. *)
Fixpoint matching_children (n : nat) (matching : nat -> nat -> M ast bool) (l r : option nat) : M ast bool :=
  match n with
  | O => stop OutOfFuel
  | S n' =>
      match l, r with
      | None, None => ret true
      | Some a, Some b =>
          let! m := matching a b in
          if m then let! l' := next a in let! r' := next b in matching_children n' matching l' r' else ret false
      | _, _ => ret false
      end
  end.

Definition null_types : list Z := [T_STRUCT; T_LIST; T_FUNCTYPE].
Definition zero_types : list Z := [T_INT; T_INTTYPE; T_HANDLETYPE].
Definition named_types : list Z := [T_IDENTIFIER; T_STRUCT; T_HANDLETYPE; T_INTTYPE].

Fixpoint matching_nodes (fuel : nat) (left right : nat) : M ast bool :=
  match fuel with
  | O => stop OutOfFuel
  | S f =>
      let! l := node_at left in
      let! r := node_at right in
      if (type l =? T_NULL) && is_type (type r) null_types then ret true
      else if (type r =? T_NULL) && is_type (type l) null_types then ret true
      else if (type l =? T_ZERO) && is_type (type r) zero_types then ret true
      else if (type r =? T_ZERO) && is_type (type l) zero_types then ret true
      else if negb (type l =? type r) then ret false
      else if is_type (type l) named_types &&
              negb (bool_decide (token_module l = token_module r) &&
                    bool_decide (text (token l) = text (token r))) then ret false
      else matching_children f (matching_nodes f) (firstChild l) (firstChild r)
  end.

Definition ASTMatching (fuel : nat) (left right : option nat) : M ast bool :=
  match left, right with
  | None, None => ret true
  | Some l, Some r => matching_nodes fuel l r
  | _, _ => ret false
  end.

Definition ASTIsIntType (o : option nat) : M ast bool := points_to T_INTTYPE o.

Definition ASTIsManagedType (o : option nat) : M ast bool :=
  let! p := deref o in
  let! y := ntype p in
  ret (is_type y [T_STR; T_LIST; T_STRUCT; T_FUNCPTR; T_ERR; T_ANYTYPE]).

(** The number of nodes of a chain. *)
Fixpoint count_siblings (fuel : nat) (c : option nat) : M ast Z :=
  match fuel with
  | O => stop OutOfFuel
  | S f =>
      match c with
      | None => ret 0
      | Some p => let! q := next p in let! n := count_siblings f q in ret (n + 1)
      end
  end.

Definition ASTGetTypePopCount (fuel : nat) (p : nat) : M ast Z :=
  let! n := node_at p in
  if type n =? T_TUPLE then count_siblings fuel (firstChild n) else ret 1.

(** ** Names of types *)

(** A function pointer whose result is a name: the result becomes a copy of what the
    name stands for. *)
Definition lookup_result_type (p : nat) : M ast unit :=
  let! c := child1 p in
  let! y := child2 p in
  let! t := ntype y in
  if t =? T_IDENTIFIER then
    let! found := ScopeLookup y false in
    let! copy := copy_node found in
    update_node copy (set_sibling None) ;;;
    update_node c (set_sibling (Some copy))
  else ret tt.

(** The nodes whose first child is a type. *)
Definition typed_nodes : list Z := [T_DECLARE; T_ARGUMENT; T_NEW; T_LIST; T_CAST_TYPE_WRAPPER].

(** Inheriting from [found], the type that the first child of [p] names. *)
Definition inherit_type (recurse : nat -> M ast unit) (p found : nat) : M ast unit :=
  let! x := node_at found in
  if cycleCheck x then error_at x "Cyclic type inheritance."
  else
    let! copy := new_node x in
    let! c := child1 p in
    let! after := next c in
    update_node copy (set_sibling after) ;;;
    update_node p (set_firstChild (Some copy)) ;;;
    update_node p (set_cycleCheck true) ;;;
    recurse copy ;;;
    update_node p (set_cycleCheck false).

(** [p] has the name of a type as its first child, [t]. *)
Definition lookup_named_type (recurse : nat -> M ast unit) (p t : nat) : M ast unit :=
  let! found := ScopeLookup t false in
  let! x := node_at found in
  let! n := node_at p in
  let inherits := hasTypeInheritanceParent (flags n) in
  (if inherits then check (type x =? type n) p "Types can only inherit from similar types."
   else match expressionType n with
        | None => update_node p (fun n => set_expressionType (firstChild n) n)
        | Some _ => ret tt
        end) ;;;
  let! e := etype p in
  let! e := deref e in
  let! previous := next e in
  (if type x =? T_FUNCTYPE then
     let! c := deref (firstChild x) in
     let! c := node_at c in
     set_node e c
   else if is_type (type x) [T_STRUCT; T_INTTYPE; T_HANDLETYPE] then
     if inherits then inherit_type recurse p found else set_node e x
   else fail_at found "The identifier did not resolve to a type.") ;;;
  let! e := etype p in
  let! e := deref e in
  update_node e (set_sibling previous).

Fixpoint ASTLookupTypeIdentifiers (fuel : nat) (p : nat) : M ast unit :=
  match fuel with
  | O => stop OutOfFuel
  | S f =>
      let! c := first p in
      each_sibling (ASTLookupTypeIdentifiers f) c ;;;
      let! n := node_at p in
      (if type n =? T_FUNCPTR then lookup_result_type p else ret tt) ;;;
      let inherits := hasTypeInheritanceParent (flags n) in
      if is_type (type n) typed_nodes || inherits then
        let! t := first p in
        match t with
        | None => ret tt
        | Some t =>
            let! y := ntype t in
            if inherits && negb (y =? T_IDENTIFIER) && negb (y =? type n) then
              fail_at p "Types can only inherit from similar types."
            else if y =? T_IDENTIFIER then lookup_named_type (ASTLookupTypeIdentifiers f) p t
            else ret tt
        end
      else ret tt
  end.

(** ** Implicit casts *)

Fixpoint cast_possible (fuel : nat) (target e : nat) : M ast bool :=
  match fuel with
  | O => stop OutOfFuel
  | S f =>
      let! t := node_at target in
      let! x := node_at e in
      let! err := if type t =? T_ERR then ASTMatching f (firstChild t) (Some e) else ret false in
      if err then ret true
      else if (type t =? T_HANDLETYPE) && (type x =? T_HANDLETYPE) then
        match firstChild x with
        | None => ret false
        | Some inherit =>
            let! m := ASTMatching f (Some target) (Some inherit) in
            if m then ret true else cast_possible f target inherit
        end
      else if (type t =? T_INTTYPE) && (type x =? T_INTTYPE) then
        match firstChild t with
        | None => ret false
        | Some inherit =>
            let! y := ntype inherit in
            if y =? T_INTTYPE_CONSTANT then ret false
            else
              let! m := ASTMatching f (Some inherit) (Some e) in
              if m then ret true else cast_possible f inherit e
        end
      else ret ((type t =? T_ANYTYPE) && negb (type x =? T_VOID))
  end.

Definition ASTImplicitCastIsPossible (fuel : nat) (targetType expressionType : option nat) : M ast bool :=
  match targetType, expressionType with
  | Some t, Some e => cast_possible fuel t e
  | _, _ => ret false
  end.

(** A node of type [y] around an expression. *)
Definition cast_node (y : Z) (up target e : nat) : M ast nat :=
  let! n := node_at up in
  new_node (MkAst y token0 None no_flags false 0 false 0 (Some e) None (Some up) (scope n) (Some target) None).

Definition ASTImplicitCastApply (fuel : nat) (up target e : nat) : M ast nat :=
  let! t := node_at target in
  let! x := etype e in
  let! err := if type t =? T_ERR then ASTMatching fuel (firstChild t) x else ret false in
  if err then
    let! void := match x with
                 | None => ret true
                 | Some _ => ASTMatching fuel x (Some globalExpressionTypeVoid)
                 end in
    if void then fail_at up "You cannot assign a value of 'void' to 'err[void]'."
    else cast_node T_ERR_CAST up target e
  else
    let! same := if is_type (type t) [T_HANDLETYPE; T_INTTYPE] then
                   let! x := deref x in let! y := ntype x in ret (y =? type t)
                 else ret false in
    if same then ret e
    else if type t =? T_ANYTYPE then cast_node T_ANYTYPE_CAST up target e
    else stop Assertion.

(** ** Constants *)

(** The digits of an integer. *)
Definition int_literal (w : bytes) : Z := fold_left (fun v d => s64 (s64 (v * 10) + (d - 48))) w 0.

(** The digits of a float: the value, the weight of the next digit behind the point, and
    whether the point has been passed. *)
Definition float_digit (a : Z * Z * bool) (d : Z) : Z * Z * bool :=
  let '(v, m, dot) := a in
  if d =? 46 then (v, m, true)
  else if dot then (f64_add v (f64_mul (f64_of_int (d - 48)) m), f64_div m (f64_of_int 10), dot)
  else (f64_add (f64_mul v (f64_of_int 10)) (f64_of_int (d - 48)), m, dot).

(** The double [0.1]. *)
Definition f64_tenth : Z := f64_div (f64_of_int 1) (f64_of_int 10).
Definition float_literal (w : bytes) : Z := (fold_left float_digit w (f64_of_int 0, f64_tenth, false)).1.1.

Definition ASTNumericLiteralToValue (n : AstNode) : M ast Z :=
  if bool_decide (expressionType n = Some globalExpressionTypeInt) then ret (int_literal (text (token n)))
  else if bool_decide (expressionType n = Some globalExpressionTypeFloat) then ret (float_literal (text (token n)))
  else stop Assertion.

(** The operations on two constants that cannot fail. *)
Definition constant_operation (y : Z) : option (Z -> Z -> Z) :=
  if y =? T_ADD then Some (fun a b => s64 (a + b))
  else if y =? T_MINUS then Some (fun a b => s64 (a - b))
  else if y =? T_ASTERISK then Some (fun a b => s64 (a * b))
  else if y =? T_BITWISE_OR then Some Z.lor
  else if y =? T_BITWISE_AND then Some Z.land
  else if y =? T_BITWISE_XOR then Some Z.lxor
  else None.

(** Print a message and go on with [*error] set. *)
Definition constant_error (n : AstNode) (message : string) : M ast (Z * bool) :=
  try_result (error_at (A := unit) n message) ;;; ret (0, true).

(** The value and the flag [*error], which [error] is before.  The division that does not
    fit stops the program. *)
Fixpoint ASTEvaluateIntConstant (fuel : nat) (p : nat) (error : bool) : M ast (Z * bool) :=
  match fuel with
  | O => stop OutOfFuel
  | S f =>
      let evaluate := ASTEvaluateIntConstant f in
      let! n := node_at p in
      let! int := ASTMatching f (expressionType n) (Some globalExpressionTypeInt) in
      assert int ;;;
      if type n =? T_NUMERIC_LITERAL then let! v := ASTNumericLiteralToValue n in ret (v, error)
      else if type n =? T_ZERO then ret (0, error)
      else match constant_operation (type n) with
      | Some op =>
          let! c1 := child1 p in
          let! (a, error) := evaluate c1 error in
          let! c2 := child2 p in
          let! (b, error) := evaluate c2 error in
          ret (op a b, error)
      | None =>
      if type n =? T_SLASH then
        let! c2 := child2 p in
        let! (divisor, error) := evaluate c2 error in
        if error then ret (0, true)
        else if divisor =? 0 then constant_error n "Integer division by zero."
        else
          let! c1 := child1 p in
          let! (a, error) := evaluate c1 error in
          if (a =? - 2 ^ 63) && (divisor =? -1) then stop FatalError else ret (Z.quot a divisor, error)
      else if is_type (type n) [T_BIT_SHIFT_LEFT; T_BIT_SHIFT_RIGHT] then
        let! c2 := child2 p in
        let! (shift, error) := evaluate c2 error in
        if error then ret (0, true)
        else if (shift <? 0) || (63 <? shift) then constant_error n "Shift %d is out of range (0..63)."
        else
          let! c1 := child1 p in
          let! (a, error) := evaluate c1 error in
          ret (if type n =? T_BIT_SHIFT_LEFT then s64 (Z.shiftl a shift) else Z.shiftr a shift, error)
      else if type n =? T_NEGATE then
        let! c1 := child1 p in let! (a, error) := evaluate c1 error in ret (s64 (- a), error)
      else if type n =? T_BITWISE_NOT then
        let! c1 := child1 p in let! (a, error) := evaluate c1 error in ret (Z.lnot a, error)
      else stop Assertion
      end
  end.

Definition constant_types : list Z :=
  [T_NUMERIC_LITERAL; T_ZERO; T_ADD; T_MINUS; T_ASTERISK; T_SLASH; T_NEGATE; T_BIT_SHIFT_LEFT; T_BIT_SHIFT_RIGHT;
   T_BITWISE_OR; T_BITWISE_AND; T_BITWISE_XOR; T_BITWISE_NOT].

(** Do all nodes of a chain pass? *)
Fixpoint all_siblings (fuel : nat) (test : nat -> M ast bool) (c : option nat) : M ast bool :=
  match fuel with
  | O => stop OutOfFuel
  | S f =>
      match c with
      | None => ret true
      | Some p => let! b := test p in if b then let! q := next p in all_siblings f test q else ret false
      end
  end.

Fixpoint ASTIsIntegerConstant (fuel : nat) (p : nat) : M ast bool :=
  match fuel with
  | O => stop OutOfFuel
  | S f =>
      let! n := node_at p in
      if negb (is_type (type n) constant_types) then ret false
      else
        let! int := ASTMatching f (expressionType n) (Some globalExpressionTypeInt) in
        if int then all_siblings f (ASTIsIntegerConstant f) (firstChild n) else ret false
  end.

(** ** ASTSetTypes *)

(** Tests in order, up to the first that holds. *)
Fixpoint any_of (l : list (M ast bool)) : M ast bool :=
  match l with [] => ret false | m :: l' => let! b := m in if b then ret true else any_of l' end.

Definition is_word (n : AstNode) (w : string) : bool := bool_decide (text (token n) = bytes_of w).

(** The first node of a chain with a name. *)
Fixpoint find_field (fuel : nat) (w : bytes) (c : option nat) : M ast (option nat) :=
  match fuel with
  | O => stop OutOfFuel
  | S f =>
      match c with
      | None => ret None
      | Some p =>
          let! n := node_at p in
          if bool_decide (text (token n) = w) then ret (Some p) else find_field f w (sibling n)
      end
  end.

(** The function a statement is in: [p] or an ancestor of it. *)
Fixpoint enclosing_function (fuel : nat) (o : option nat) : M ast nat :=
  match fuel with
  | O => stop OutOfFuel
  | S f =>
      let! p := deref o in
      let! n := node_at p in
      if type n =? T_FUNCTION then ret p else enclosing_function f (parent n)
  end.

(** The result type of the function around a node: [function->firstChild->firstChild->sibling]. *)
Definition return_type (p : nat) : M ast (option nat) :=
  let! n := node_at p in
  let! s := get in
  let! f := enclosing_function (S (length (nodes s))) (parent n) in
  let! pointer := child1 f in
  let! arguments := child1 pointer in
  next arguments.

(** The copies of the types of a chain of expressions, linked. *)
Fixpoint copy_types (fuel : nat) (c : option nat) : M ast (option nat) :=
  match fuel with
  | O => stop OutOfFuel
  | S f =>
      match c with
      | None => ret None
      | Some p =>
          let! e := etype p in
          let! e := deref e in
          let! copy := copy_node e in
          let! q := next p in
          let! rest := copy_types f q in
          update_node copy (set_sibling rest) ;;;
          ret (Some copy)
      end
  end.

(** The tuple of the types of the children of a node. *)
Definition tuple_of (fuel : nat) (p : nat) : M ast nat :=
  let! t := fresh_node T_TUPLE in
  let! c := first p in
  let! types := copy_types fuel c in
  update_node t (set_firstChild types) ;;;
  ret t.

Definition set_etype (p : nat) (o : option nat) : M ast unit := update_node p (set_expressionType o).

Section SetTypes.
Context (f : nat).

(** Comparisons with the static types. *)
Definition is_void (o : option nat) : M ast bool := ASTMatching f o (Some globalExpressionTypeVoid).
Definition is_int (o : option nat) : M ast bool := ASTMatching f o (Some globalExpressionTypeInt).
Definition is_float (o : option nat) : M ast bool := ASTMatching f o (Some globalExpressionTypeFloat).
Definition is_bool (o : option nat) : M ast bool := ASTMatching f o (Some globalExpressionTypeBool).
Definition is_str (o : option nat) : M ast bool := ASTMatching f o (Some globalExpressionTypeStr).

Definition set_literal_type (p : nat) (n : AstNode) : M ast unit :=
  let dots := length (List.filter (Z.eqb 46) (text (token n))) in
  if (dots =? 0)%nat then set_etype p (Some globalExpressionTypeInt)
  else if (dots =? 1)%nat then set_etype p (Some globalExpressionTypeFloat)
  else error_at n "Invalid number. There should either be one decimal place (for a float), or none (for an integer).".

Definition set_interpolate_type (p : nat) : M ast unit :=
  let! lhs := child1 p in
  let! expression := child2 p in
  let! rhs := child3 p in
  let! y := ntype lhs in
  assert (is_type y [T_STRING_LITERAL; T_STR_INTERPOLATE]) ;;;
  let! y := ntype rhs in
  assert (y =? T_STRING_LITERAL) ;;;
  let! t := etype lhs in let! t := deref t in let! y := ntype t in
  assert (y =? T_STR) ;;;
  let! t := etype rhs in let! t := deref t in let! y := ntype t in
  assert (y =? T_STR) ;;;
  set_etype p (Some globalExpressionTypeStr) ;;;
  let! e := etype expression in
  let! ok := any_of [is_int e; ASTMatching f e (Some globalExpressionTypeIntList); is_str e; is_float e; is_bool e;
                     ASTIsIntType e] in
  check ok expression "The expression cannot be converted to a string.".

Definition comparison_tokens : list Z :=
  [T_GREATER_THAN; T_LESS_THAN; T_LT_OR_EQUAL; T_GT_OR_EQUAL; T_DOUBLE_EQUALS; T_NOT_EQUALS].
Definition binary_types : list Z :=
  [T_ADD; T_MINUS; T_ASTERISK; T_SLASH; T_GREATER_THAN; T_LESS_THAN; T_LT_OR_EQUAL; T_GT_OR_EQUAL; T_DOUBLE_EQUALS;
   T_NOT_EQUALS; T_LOGICAL_AND; T_LOGICAL_OR; T_BIT_SHIFT_LEFT; T_BIT_SHIFT_RIGHT; T_BITWISE_OR; T_BITWISE_AND;
   T_BITWISE_XOR].

(** May the operands of the operator at [p] be of type [t]? *)
Definition check_operand (p : nat) (y : Z) (t : option nat) : M ast unit :=
  if y =? T_ADD then
    let! ok := any_of [is_int t; ASTIsIntType t; is_float t; is_str t] in
    check ok p "The add operator expects integers, floats or strings."
  else if is_type y [T_LOGICAL_AND; T_LOGICAL_OR] then
    let! ok := is_bool t in check ok p "This operator expects boolean expressions."
  else if is_type y [T_DOUBLE_EQUALS; T_NOT_EQUALS] then
    let! ok := any_of [is_int t; is_float t; is_str t; is_bool t; ASTIsIntType t; points_to T_LIST t;
                       points_to T_STRUCT t] in
    check ok p "These types cannot be compared."
  else
    let! ok := any_of [is_int t; ASTIsIntType t; is_float t] in
    check ok p "This operator expects either integers or floats.".

Definition set_binary_type (p : nat) (y : Z) : M ast unit :=
  let! c := child1 p in let! lhs := etype c in
  let! c := child2 p in let! rhs := etype c in
  let! same := ASTMatching f lhs rhs in
  let! use_right :=
    (if same then ret false
     else
       let! il := ASTIsIntType lhs in
       let! ir := ASTIsIntType rhs in
       let! ok := if il && ir then any_of [ASTImplicitCastIsPossible f lhs rhs; ASTImplicitCastIsPossible f rhs lhs]
                  else ret false in
       if ok then ASTImplicitCastIsPossible f rhs lhs
       else fail_at p "The expression on the left and right side of a binary operator must have the same type.") in
  check_operand p y lhs ;;;
  set_etype p (if is_type y comparison_tokens then Some globalExpressionTypeBool
               else if use_right then rhs else lhs).

(** A value of [e]'s type goes where [target] is wanted: [cast] installs a cast, and
    [message] reports that the types do not match. *)
Definition assign_types (p : nat) (target : option nat) (e : nat) (cast : nat -> M ast unit) (mismatch : M ast unit)
  : M ast unit :=
  let! t := etype e in
  let! possible := ASTImplicitCastIsPossible f target t in
  if possible then
    let! target := deref target in
    let! c := ASTImplicitCastApply f p target e in
    cast c
  else
    let! same := ASTMatching f target t in
    if same then ret tt else mismatch.

Definition set_declare_type (p : nat) : M ast unit :=
  let! y := child1 p in
  let! e := next y in
  match e with
  | None => ret tt
  | Some e => assign_types p (Some y) e (fun c => update_node y (set_sibling (Some c)))
                (fail_at p "The type of the variable being assigned does not match the expression.")
  end.

(** The last node of a chain, and the loop over the declarations and the items of the
    tuple. *)
Fixpoint last_sibling (n : nat) (p : nat) : M ast nat :=
  match n with
  | O => stop OutOfFuel
  | S n' => let! q := next p in match q with None => ret p | Some q => last_sibling n' q end
  end.

Fixpoint match_tuple (n : nat) (p child : nat) (item : option nat) : M ast unit :=
  match n with
  | O => stop OutOfFuel
  | S n' =>
      let! after := next child in
      match after, item with
      | Some q, Some i =>
          let! t := etype child in
          let! same := ASTMatching f t (Some i) in
          check same p "The type of value %d in the tuple does not match the declaration type." ;;;
          let! i := next i in
          match_tuple n' p q i
      | None, None => ret tt
      | _, _ => fail_at p "The number of declarations in the group does not match the number of values in the tuple."
      end
  end.

Definition set_group_type (p : nat) : M ast unit :=
  let! c := child1 p in
  let! l := last_sibling f c in
  let! t := etype l in
  let! t := deref t in
  let! tuple := node_at t in
  if type tuple =? T_TUPLE then match_tuple f p c (firstChild tuple)
  else fail_at p "You can only use '=' in the declaration group with a function that returns a tuple.".

(** The node of a chain before [p]. *)
Fixpoint sibling_before (n : nat) (p c : nat) : M ast nat :=
  match n with
  | O => stop OutOfFuel
  | S n' =>
      let! q := next c in
      if bool_decide (q = Some p) then ret c else let! q := deref q in sibling_before n' p q
  end.

Definition set_set_group_type (p : nat) : M ast unit :=
  let! n := node_at p in
  let! up := deref (parent n) in
  let! y := ntype up in
  if y =? T_SET_GROUP then
    assert (bool_decide (sibling n = None)) ;;;
    let! c := child1 up in
    let! b := sibling_before f p c in
    update_node b (set_sibling (firstChild n))
  else if y =? T_EQUALS then
    let! t := tuple_of f p in set_etype p (Some t)
  else fail_at p "A comma separated list of expressions can only be used to assign a tuple return value to variables.".

Definition set_equals_type (p : nat) : M ast unit :=
  let! c := child1 p in
  let! t := etype c in
  let! e := child2 p in
  assign_types p t e (fun x => update_node c (set_sibling (Some x)))
    (fail_at p "The type of the variable being assigned does not match the expression.").

(** The loop over the arguments of a call; [link] writes the pointer to the argument. *)
Fixpoint match_arguments (n : nat) (p : nat) (link : nat -> M ast unit) (argument parameter : option nat) : M ast unit :=
  match n with
  | O => stop OutOfFuel
  | S n' =>
      match argument, parameter with
      | None, None => ret tt
      | Some a, Some m =>
          let! t := first m in
          let! e := etype a in
          let! possible := ASTImplicitCastIsPossible f t e in
          (if possible then
             let! t := deref t in
             let! c := ASTImplicitCastApply f p t a in
             link c
           else
             let! same := ASTMatching f e t in
             check same p "The types for argument %d do not match.") ;;;
          let! m := next m in
          let! b := next a in
          match_arguments n' p (fun c => update_node a (set_sibling (Some c))) b m
      | _, _ => fail_at p "The function has a different number of arguments to this."
      end
  end.

Definition set_call_type (p : nat) : M ast unit :=
  let! pointer := child1 p in
  let! e := etype pointer in
  let! is_function := points_to T_FUNCPTR e in
  if is_function then
    let! e := deref e in
    let! parameters := child1 e in
    let! result := next parameters in
    set_etype p result ;;;
    let! m := first parameters in
    let! arguments := child2 p in
    let! a := first arguments in
    match_arguments f p (fun c => update_node arguments (set_firstChild (Some c))) a m
  else fail_at pointer "The expression being called is not a function.".

Definition set_assert_type (p : nat) (message : string) : M ast unit :=
  let! c := child1 p in
  let! t := etype c in
  let! ok := any_of [is_bool t; points_to T_ERR t] in
  check ok p message.

Definition set_condition_type (p c : nat) : M ast unit :=
  let! t := etype c in
  let! ok := is_bool t in
  check ok p "The expression used for the condition must evaluate to a boolean.".

(** [T_RETURN] and [T_RETERR]. *)
Definition set_return_type (p : nat) (y : Z) : M ast unit :=
  let! c := first p in
  let! t := match c with Some e => etype e | None => ret (Some globalExpressionTypeVoid) end in
  let! r := return_type p in
  let! void := match c with Some _ => is_void r | None => ret false end in
  check (negb void) p
    "The function does not return a value ('void'), but the return statement has a return value." ;;;
  if y =? T_RETURN then
    let! same := ASTMatching f t r in
    if same then ret tt
    else
      let! e := deref c in
      let! x := etype e in
      let! possible := ASTImplicitCastIsPossible f r x in
      if possible then
        let! r := deref r in
        let! cast := ASTImplicitCastApply f p r e in
        update_node p (set_firstChild (Some cast))
      else fail_at p "The type of the expression does not match the return type of the function."
  else
    let! err := points_to T_ERR r in
    check err p "'reterr' can only be used in functions that return an error value." ;;;
    let! err := points_to T_ERR t in
    check err p "The expression must be an error value.".

Definition set_return_tuple_type (p : nat) : M ast unit :=
  let! t := tuple_of f p in
  let! r := return_type p in
  let! void := is_void r in
  check (negb void) p
    "The function does not return a value ('void'), but the return statement has a return value." ;;;
  let! same := ASTMatching f (Some t) r in
  check same p "The type of the expression does not match the declared return type of the function.".

Definition set_if_err_type (p : nat) : M ast unit :=
  let! d := child1 p in
  let! c := child2 p in
  let! t := etype c in
  let! err := points_to T_ERR t in
  check err p "The expression used for the condition must evaluate to a error type." ;;;
  let! a := first d in
  let! t := deref t in
  let! b := first t in
  let! same := ASTMatching f a b in
  check same p "The variable declaration type must match the error value.".

(** The entry of a scope that must be a placeholder. *)
Definition placeholder_at (x : Scope) (i : nat) : M ast nat :=
  let! e := deref (entries x !! i) in
  let! y := ntype e in
  assert (y =? T_PLACEHOLDER) ;;;
  ret e.

Definition set_for_each_type (p : nat) : M ast unit :=
  let! c := child2 p in
  let! list := etype c in
  let! str := match list with Some _ => is_str list | None => ret false end in
  let! ok := points_to T_LIST list in
  check (ok || str) p "The expression on the right of 'in' must be a list or string." ;;;
  let! d := child1 p in
  let! v := etype d in
  (if str then
     let! same := is_str v in
     check same p "The variable on the left of 'in' must be a 'str' when iterating over a string."
   else
     let! l := deref list in
     let! item := first l in
     let! same := ASTMatching f v item in
     check same p "The variable on the left of 'in' must match the type of the items in the list on the right.") ;;;
  let! n := node_at p in
  let! sc := deref (scope n) in
  let! x := scope_at sc in
  assert ((length (entries x) =? 3)%nat && (variableEntryCount x =? 3)) ;;;
  let! e1 := placeholder_at x 1 in
  let! e2 := placeholder_at x 2 in
  set_etype e1 list ;;;
  set_etype e2 (Some globalExpressionTypeInt).

Definition set_index_type (p : nat) : M ast unit :=
  let! c := child1 p in
  let! t := etype c in
  let! str := is_str t in
  let! list := if str then ret false else let! t := deref t in let! y := ntype t in ret (y =? T_LIST) in
  check (str || list) p "The expression being indexed must be a string or list." ;;;
  let! i := child2 p in
  let! it := etype i in
  let! ok := is_int it in
  check ok p "The index must be a integer." ;;;
  if str then set_etype p (Some globalExpressionTypeStr)
  else let! t := deref t in let! item := first t in set_etype p item.

Definition set_new_type (p : nat) : M ast unit :=
  let! c := child1 p in
  let! y := ntype c in
  check (is_type y [T_STRUCT; T_LIST; T_ERR]) p
    "This type is not a struct, list or error. 'new' is used to create new instances of structs, lists and errors." ;;;
  if y =? T_ERR then
    let! m := child2 p in
    let! t := etype m in
    let! ok := is_str t in
    check ok p "The error message should be a string."
  else ret tt.

(** The root scope of the module of an import. *)
Definition module_scope (m : nat) : M ast Scope :=
  let! d := import_at m in
  let! r := deref (rootNode d) in
  let! r := node_at r in
  let! sc := deref (scope r) in
  scope_at sc.

(** The module that [t], the type of an imported module, belongs to. *)
Definition imported_module (t : nat) : M ast nat :=
  let! n := node_at t in
  let! up := deref (parent n) in
  let! i := node_at up in
  deref (importData i).

Definition set_dot_type (p : nat) : M ast unit :=
  let! n := node_at p in
  let! c := child1 p in
  let! t := etype c in
  let! t := deref t in
  let! y := ntype t in
  check (is_type y [T_STRUCT; T_IMPORT_PATH]) p
    "This expression is not a struct or an imported module. You cannot use the '.' operator on it." ;;;
  if y =? T_STRUCT then
    let! fields := first t in
    let! field := find_field f (text (token n)) fields in
    match field with
    | None => fail_at p "The field '%.*s' is not in the struct '%.*s'."
    | Some field => let! t := first field in set_etype p t
    end
  else
    let! m := imported_module t in
    let! x := module_scope m in
    let! index := ScopeLookupIndex (text (token n)) x true true in
    check (negb (index =? -1)) p "The variable or function '%.*s' is not in the imported module '%s'." ;;;
    let! e := deref (entries x !! Z.to_nat index) in
    let! t := etype e in
    set_etype p t.

(** *** Operations *)

(** What a simple operation gives. *)
Inductive gives := GivesItem | GivesInt | GivesStr | GivesFloat | GivesBool | GivesNothing.

(** The operations that only take arguments: name, code, result and the types of the
    arguments, where [item] is the type of the items. *)
Definition list_operations (item : option nat) : list (string * Z * gives * option nat * option nat) :=
  let int := Some globalExpressionTypeInt in
  [("resize", T_OP_RESIZE, GivesNothing, int, None);
   ("add", T_OP_ADD, GivesNothing, item, None);
   ("insert", T_OP_INSERT, GivesNothing, item, int);
   ("insert_many", T_OP_INSERT_MANY, GivesNothing, int, int);
   ("delete", T_OP_DELETE, GivesNothing, int, None);
   ("find_and_delete", T_OP_FIND_AND_DELETE, GivesBool, item, None);
   ("find", T_OP_FIND, GivesInt, item, None);
   ("delete_many", T_OP_DELETE_MANY, GivesNothing, int, int);
   ("delete_last", T_OP_DELETE_LAST, GivesNothing, None, None);
   ("delete_all", T_OP_DELETE_ALL, GivesNothing, None, None);
   ("first", T_OP_FIRST, GivesItem, None, None);
   ("last", T_OP_LAST, GivesItem, None, None);
   ("len", T_OP_LEN, GivesInt, None, None)]%string.

Definition simple_operations (y : Z) (item : option nat) : list (string * Z * gives * option nat * option nat) :=
  if y =? T_LIST then list_operations item
  else if y =? T_STR then [("len", T_OP_LEN, GivesInt, None, None)]%string
  else if y =? T_INT then [("float", T_OP_INT_TO_FLOAT, GivesFloat, None, None)]%string
  else if y =? T_FLOAT then [("truncate", T_OP_FLOAT_TRUNCATE, GivesInt, None, None)]%string
  else if y =? T_ERR then
    [("success", T_OP_SUCCESS, GivesBool, None, None);
     ("assert", T_OP_ASSERT_ERR, GivesItem, None, None);
     ("error", T_OP_ERROR, GivesStr, None, None);
     ("default", T_OP_DEFAULT, GivesItem, item, None)]%string
  else [].

(** The checks of some operations, and the ones for strings. *)
Definition refine_operation (p : nat) (op : Z) (argument item : option nat) : M ast Z :=
  (if op =? T_OP_FIND_AND_DELETE then
     let! b := is_float argument in
     check (negb b) p "The 'find_and_delete' operation cannot be used with floats."
   else if op =? T_OP_FIND then
     let! b := is_float argument in
     check (negb b) p "The 'find' operation cannot be used with floats."
   else ret tt) ;;;
  (if op =? T_OP_DEFAULT then
     let! b := is_void argument in
     check (negb b) p "The 'default' operation cannot be used with error values of type void."
   else if op =? T_OP_ASSERT_ERR then
     let! b := is_void item in
     check (negb b) p "The 'assert' operation cannot be used with error values of type void."
   else ret tt) ;;;
  if op =? T_OP_FIND_AND_DELETE then let! b := is_str argument in ret (if b then T_OP_FIND_AND_DEL_STR else op)
  else if op =? T_OP_FIND then let! b := is_str argument in ret (if b then T_OP_FIND_STR else op)
  else ret op.

Definition next_opt (o : option nat) : M ast (option nat) :=
  match o with Some p => next p | None => ret None end.

(** Is the number of arguments not the one expected? *)
Definition differs (a b : option nat) : bool :=
  match a, b with Some _, Some _ | None, None => false | _, _ => true end.

(** The arguments and the result of a simple operation. *)
Definition apply_operation (p : nat) (r : gives) (type1 type2 item : option nat) : M ast unit :=
  let! arguments := child2 p in
  let! a1 := first arguments in
  let! a2 := next_opt a1 in
  let! a3 := next_opt a2 in
  check (negb (differs a3 None || differs a2 type2 || differs a1 type1)) p
    "Incorrect number of arguments for the operation '%.*s'." ;;;
  let test (a t : option nat) (message : string) : M ast unit :=
    match a with
    | None => ret tt
    | Some a => let! e := etype a in let! same := ASTMatching f e t in check same p message
    end in
  test a1 type1 "Incorrect first argument type for the operation '%.*s'."%string ;;;
  test a2 type2 "Incorrect second argument type for the operation '%.*s'."%string ;;;
  set_etype p match r with
              | GivesItem => item
              | GivesInt => Some globalExpressionTypeInt
              | GivesStr => Some globalExpressionTypeStr
              | GivesFloat => Some globalExpressionTypeFloat
              | GivesBool => Some globalExpressionTypeBool
              | GivesNothing => None
              end.

(** A new function pointer type with a copy of the arguments of [e], changed by [change]. *)
Definition new_pointer_type (p e : nat) (change : AstNode -> AstNode) : M ast unit :=
  let! t := fresh_node T_FUNCPTR in
  set_etype p (Some t) ;;;
  let! arguments := child1 e in
  let! copy := copy_node arguments in
  update_node t (set_firstChild (Some copy)) ;;;
  update_node copy change.

(** The operations on a function pointer whose type is [e]. *)
Definition pointer_operation (p e : nat) (n : AstNode) : M ast unit :=
  let finish (op : Z) := update_node p (set_operationType op) in
  let! arguments := child1 e in
  let! a := first arguments in
  let! r := next arguments in
  if is_word n "async" then
    check (bool_decide (a = None)) p
      "The function pointer should take no arguments. Use ':curry(...)' to set them before ':async()'." ;;;
    let! void := is_void r in
    check void p
      "The function pointer should not return anything. Use ':discard()' or ':assert()' before ':async()'." ;;;
    apply_operation p GivesInt None None None ;;; finish T_OP_ASYNC
  else if is_word n "assert" then
    let! ok := is_bool r in
    check ok p "The return value of the function must be a bool to assert it." ;;;
    new_pointer_type p e (set_sibling (Some globalExpressionTypeVoid)) ;;; finish T_OP_ASSERT
  else if is_word n "discard" then
    let! void := is_void r in
    check (negb void) p "The return value cannot be discarded from a function that already returns void." ;;;
    let! tuple := points_to T_TUPLE r in
    check (negb tuple) p "The discard operation cannot be used on a function returning a tuple." ;;;
    new_pointer_type p e (set_sibling (Some globalExpressionTypeVoid)) ;;; finish T_OP_DISCARD
  else if is_word n "curry" then
    match a with
    | None => fail_at p "The function pointer doesn't take any arguments."
    | Some a =>
        let! wanted := first a in
        let! given := child2 p in
        let! argument := child1 given in
        let! t := etype argument in
        let! same := ASTMatching f wanted t in
        check same p "The curried argument does not match the type of the first argument." ;;;
        let! more := next argument in
        check (bool_decide (more = None)) p "You can only curry one argument at a time." ;;;
        let! rest := next a in
        new_pointer_type p e (fun x => set_sibling r (set_firstChild rest x)) ;;; finish T_OP_CURRY
    end
  else fail_at p "This type does not have an operation called '%.*s'.".

Definition set_colon_type (p : nat) : M ast unit :=
  let! n := node_at p in
  let! c := child1 p in
  let! e := etype c in
  match e with
  | None => fail_at p "This is not an expression."
  | Some e =>
      let! t := node_at e in
      if negb (is_type (type t) [T_LIST; T_STR; T_FUNCPTR; T_ERR; T_INT; T_FLOAT; T_ANYTYPE]) then
        fail_at p "This type does not have any ':' operations."
      else if type t =? T_FUNCPTR then pointer_operation p e n
      else if (type t =? T_ANYTYPE) && is_word n "cast" then
        let! w := child2 p in
        let! y := ntype w in
        assert (y =? T_CAST_TYPE_WRAPPER) ;;;
        let! target := first w in
        set_etype p target ;;;
        update_node p (set_operationType T_OP_CAST)
      else
        let item := firstChild t in
        match find (fun o => is_word n o.1.1.1.1) (simple_operations (type t) item) with
        | None => fail_at p "This type does not have an operation called '%.*s'."
        | Some (_, op, r, type1, type2) =>
            let! op := refine_operation p op type1 item in
            apply_operation p r type1 type2 item ;;;
            update_node p (set_operationType op)
        end
  end.

Definition set_list_literal_type (p : nat) : M ast unit :=
  let! c := first p in
  match c with
  | None => fail_at p "Empty list literals are not allowed. Instead, put 'new T[]' where 'T' is the item type."
  | Some item =>
      let! t := fresh_node T_LIST in
      set_etype p (Some t) ;;;
      let! e := etype item in
      let! e := deref e in
      let! copy := copy_node e in
      update_node copy (set_sibling None) ;;;
      update_node t (set_firstChild (Some copy)) ;;;
      each_sibling (fun i =>
        let! e := etype i in
        let! same := ASTMatching f (Some copy) e in
        check same i "The type of this item is different to the ones before it in the list.") (Some item)
  end.

(** The nodes without a type of their own. *)
Definition untyped_nodes : list Z :=
  [T_ROOT; T_BLOCK; T_INT; T_FLOAT; T_STR; T_LIST; T_TUPLE; T_ERR; T_ANYTYPE; T_BOOL; T_VOID; T_IDENTIFIER;
   T_ARGUMENTS; T_ARGUMENT; T_STRUCT; T_FUNCTYPE; T_IMPORT; T_IMPORT_PATH; T_INTTYPE; T_HANDLETYPE; T_FUNCPTR;
   T_FUNCBODY; T_FUNCTION; T_REPL_RESULT; T_DECLARE_GROUP; T_CAST_TYPE_WRAPPER].

(** What is done for a node when its children have their types. *)
Definition set_node_type (p : nat) : M ast unit :=
  let! n := node_at p in
  let y := type n in
  let bool_type := set_etype p (Some globalExpressionTypeBool) in
  if is_type y untyped_nodes then ret tt
  else if y =? T_NUMERIC_LITERAL then set_literal_type p n
  else if is_type y [T_TRUE; T_FALSE] then bool_type
  else if y =? T_SUCCESS then set_etype p (Some globalExpressionTypeErrVoid)
  else if is_type y [T_NULL; T_ZERO] then set_etype p (Some p)
  else if y =? T_STRING_LITERAL then set_etype p (Some globalExpressionTypeStr)
  else if y =? T_VARIABLE then
    let! found := ScopeLookup p false in let! t := etype found in set_etype p t
  else if y =? T_STR_INTERPOLATE then set_interpolate_type p
  else if is_type y binary_types then set_binary_type p y
  else if y =? T_DECLARE then set_declare_type p
  else if y =? T_DECL_GROUP_AND_SET then set_group_type p
  else if y =? T_SET_GROUP then set_set_group_type p
  else if y =? T_EQUALS then set_equals_type p
  else if y =? T_CALL then set_call_type p
  else if y =? T_ASSERT then
    set_assert_type p "The asserted expression must evaluate to a boolean or error value."
  else if is_type y [T_RETURN; T_RETERR] then set_return_type p y
  else if y =? T_RETURN_TUPLE then set_return_tuple_type p
  else if y =? T_IF then
    set_assert_type p "The expression used for the condition must evaluate to a boolean or error value."
  else if y =? T_WHILE then let! c := child1 p in set_condition_type p c
  else if y =? T_IF_ERR then set_if_err_type p
  else if y =? T_FOR then let! c := child2 p in set_condition_type p c
  else if y =? T_FOR_EACH then set_for_each_type p
  else if y =? T_INDEX then set_index_type p
  else if y =? T_NEW then set_new_type p
  else if y =? T_DOT then set_dot_type p
  else if y =? T_COLON then set_colon_type p
  else if y =? T_LOGICAL_NOT then
    let! c := child1 p in
    let! t := etype c in
    let! ok := is_bool t in
    check ok p "Expected a bool for the logical not '!' operator." ;;;
    bool_type
  else if is_type y [T_NEGATE; T_BITWISE_NOT] then
    let! c := child1 p in
    let! t := etype c in
    let! ok := any_of [is_int t; is_float t] in
    check ok p "Expected a int or float for the %s operator." ;;;
    set_etype p t
  else if y =? T_LIST_LITERAL then set_list_literal_type p
  else if y =? T_AWAIT then
    let! c := child1 p in
    let! t := etype c in
    let! ok := ASTMatching f t (Some globalExpressionTypeIntList) in
    check ok p "Expected a list of task IDs to wait on." ;;;
    set_etype p (Some globalExpressionTypeInt)
  else if y =? T_INTTYPE_CONSTANT then
    let! c := child1 p in
    let! ok := ASTIsIntegerConstant f c in
    check ok p "The expression is not a constant integer." ;;;
    set_etype p (parent n)
  else stop Assertion.
End SetTypes.

Fixpoint ASTSetTypes (fuel : nat) (p : nat) : M ast unit :=
  match fuel with
  | O => stop OutOfFuel
  | S f =>
      let! c := first p in
      each_sibling (fun q =>
        assert (negb (q =? p)%nat) ;;;
        ASTSetTypes f q ;;;
        update_node q (set_parent (Some p))) c ;;;
      set_node_type f p
  end.
