(* ===== verification/ScriptExec.v ===== *)
(** * The interpreter of the script engine (util/script.c, ScriptExecuteFunction)

    The local variables of [ScriptExecuteFunction] and the context are the state of a
    [Machine]; an iteration of its loop is [step], with a definition for each command.
    A computation continues with a value, returns from the function with a code ([-1]:
    the bytecode is malformed; [0]: a runtime error; [1]: success), or stops the program
    (a failed assertion, an access outside an object).  Messages are not modelled.

    Integer arithmetic is two's complement arithmetic of 64 bits, and the shift counts
    are taken modulo 64, as on x86-64.  Memory allocation does not fail.  The bytecode
    embeds pointers to the nodes of types; the memory that holds them, the functions of
    the platform layer and of libraries, and the C library's formatting of doubles are
    the fields of the class [Platform]. *)

From stdpp Require Import base list relations.
From S2P Require Import Prelude ScriptToken ScriptParser ScriptHeap ScriptString ScriptFloat.

(** ** The state and the computations *)

Record Machine := MkMachine {
  context : ExecutionContext;
  instructionPointer : Z;
  variableBase : Z;
}.

Inductive exit :=
  | Return (code : Z)
  | Halt (r : stop_reason).

Definition X (A : Type) : Type := Machine -> (A + exit) * Machine.

Definition xret {A} (a : A) : X A := fun m => (inl a, m).
Definition xbind {A B} (m : X A) (f : A -> X B) : X B :=
  fun s => match m s with
           | (inl a, s') => f a s'
           | (inr e, s') => (inr e, s')
           end.
Definition xexit {A} (e : exit) : X A := fun m => (inr e, m).

Declare Scope exec_scope.
Delimit Scope exec_scope with exec.
Notation "'let*' x ':=' m 'in' k" := (xbind m (fun x => k))
  (at level 10, x pattern, m at level 100, k at level 200,
   format "'[v' 'let*'  x  ':='  m  'in'  '/' k ']'") : exec_scope.
Notation "m ';*' k" := (xbind m (fun _ => k))
  (at level 100, right associativity, format "'[v' m  ';*' '/' k ']'") : exec_scope.
Open Scope exec_scope.

(** [return -1], [return 0] after a message, [Assert]. *)
Definition malformed {A} : X A := xexit (Return (-1)).
Definition runtime_error {A} : X A := xexit (Return 0).
Definition unless_malformed (b : bool) : X unit := if b then xret tt else malformed.
Definition unless_error (b : bool) : X unit := if b then xret tt else runtime_error.
Definition xassert (b : bool) : X unit := if b then xret tt else xexit (Halt Assertion).
Definition xlift {A} (o : option A) : X A := match o with Some a => xret a | None => xexit (Halt OutOfBounds) end.

Definition get_context : X ExecutionContext := fun m => (inl (context m), m).
Definition modify_context (f : ExecutionContext -> ExecutionContext) : X unit :=
  fun m => (inl tt, MkMachine (f (context m)) (instructionPointer m) (variableBase m)).
Definition get_ip : X Z := fun m => (inl (instructionPointer m), m).
Definition set_ip (i : Z) : X unit := fun m => (inl tt, MkMachine (context m) i (variableBase m)).
Definition get_base : X Z := fun m => (inl (variableBase m), m).
Definition set_base (i : Z) : X unit := fun m => (inl tt, MkMachine (context m) (instructionPointer m) i).

(** The active coroutine. *)
Definition get_active : X CoroutineState := fun m => (inl (c (context m)), m).
Definition modify_active (f : CoroutineState -> CoroutineState) : X unit :=
  modify_context (fun x => set_active (f (c x)) x).

Definition with_stack (l : list slot) (k : CoroutineState) : CoroutineState :=
  MkCoroutine (localVariables k) (localVariableCount k) l (backTrace k) (id k) (unblockedBy k) (waiters k)
    (waitersAllocated k) (waitingOn k) (awaiting k) (startedByAsync k) (externalCoroutine k)
    (saved_instructionPointer k) (saved_variableBase k) (parameterCount k) (returnValue k) (returnValueType k).
Definition with_variables (l : list slot) (n : Z) (k : CoroutineState) : CoroutineState :=
  MkCoroutine l n (stack k) (backTrace k) (id k) (unblockedBy k) (waiters k)
    (waitersAllocated k) (waitingOn k) (awaiting k) (startedByAsync k) (externalCoroutine k)
    (saved_instructionPointer k) (saved_variableBase k) (parameterCount k) (returnValue k) (returnValueType k).
Definition with_backTrace (l : list BackTraceItem) (k : CoroutineState) : CoroutineState :=
  MkCoroutine (localVariables k) (localVariableCount k) (stack k) l (id k) (unblockedBy k) (waiters k)
    (waitersAllocated k) (waitingOn k) (awaiting k) (startedByAsync k) (externalCoroutine k)
    (saved_instructionPointer k) (saved_variableBase k) (parameterCount k) (returnValue k) (returnValueType k).
Definition with_waiters (l : list (option Z)) (n : Z) (k : CoroutineState) : CoroutineState :=
  MkCoroutine (localVariables k) (localVariableCount k) (stack k) (backTrace k) (id k) (unblockedBy k) l
    n (waitingOn k) (awaiting k) (startedByAsync k) (externalCoroutine k)
    (saved_instructionPointer k) (saved_variableBase k) (parameterCount k) (returnValue k) (returnValueType k).
Definition with_waitingOn (by_ : Z) (l : list waiter_pointer) (k : CoroutineState) : CoroutineState :=
  MkCoroutine (localVariables k) (localVariableCount k) (stack k) (backTrace k) (id k) by_ (waiters k)
    (waitersAllocated k) l (awaiting k) (startedByAsync k) (externalCoroutine k)
    (saved_instructionPointer k) (saved_variableBase k) (parameterCount k) (returnValue k) (returnValueType k).
(** [awaiting = true], and where to go on. *)
Definition with_saved (ip base : Z) (k : CoroutineState) : CoroutineState :=
  MkCoroutine (localVariables k) (localVariableCount k) (stack k) (backTrace k) (id k) (-1) (waiters k)
    (waitersAllocated k) (waitingOn k) true (startedByAsync k) (externalCoroutine k)
    ip base (parameterCount k) (returnValue k) (returnValueType k).
Definition with_external (b : bool) (k : CoroutineState) : CoroutineState :=
  MkCoroutine (localVariables k) (localVariableCount k) (stack k) (backTrace k) (id k) (unblockedBy k) (waiters k)
    (waitersAllocated k) (waitingOn k) (awaiting k) (startedByAsync k) b
    (saved_instructionPointer k) (saved_variableBase k) (parameterCount k) (returnValue k) (returnValueType k).
Definition with_library_call (n : Z) (v : Value) (y : Z) (k : CoroutineState) : CoroutineState :=
  MkCoroutine (localVariables k) (localVariableCount k) (stack k) (backTrace k) (id k) (unblockedBy k) (waiters k)
    (waitersAllocated k) (waitingOn k) (awaiting k) (startedByAsync k) (externalCoroutine k)
    (saved_instructionPointer k) (saved_variableBase k) n v y.

(** Replace the list of all coroutines and the active one, the list of those that can
    run, and the number of external ones. *)
Definition set_coroutines (b : list CoroutineState) (k : CoroutineState) (a : list CoroutineState)
    (x : ExecutionContext) : ExecutionContext :=
  MkContext (globalVariables x) (heap x) (heapFirstUnusedEntry x) (functionData x) b k a
    (unblockedCoroutines x) (lastCoroutineID x) (externalCoroutineCount x).
Definition set_unblocked (l : list Z) (x : ExecutionContext) : ExecutionContext :=
  MkContext (globalVariables x) (heap x) (heapFirstUnusedEntry x) (functionData x) (before x) (c x) (after x)
    l (lastCoroutineID x) (externalCoroutineCount x).
Definition set_last_id (n : Z) (x : ExecutionContext) : ExecutionContext :=
  MkContext (globalVariables x) (heap x) (heapFirstUnusedEntry x) (functionData x) (before x) (c x) (after x)
    (unblockedCoroutines x) n (externalCoroutineCount x).
Definition set_external_count (n : Z) (x : ExecutionContext) : ExecutionContext :=
  MkContext (globalVariables x) (heap x) (heapFirstUnusedEntry x) (functionData x) (before x) (c x) (after x)
    (unblockedCoroutines x) (lastCoroutineID x) n.

(** ** Types *)

(** The module of a token is a field the tokens of the parser do not carry. *)
Section Matching.
Context (module_of : Token -> Z).

Fixpoint ASTMatching (left right : Node) : bool :=
  let l := node_type left in let r := node_type right in
  let fix matching_children (ls rs : list Node) : bool :=
    match ls, rs with
    | [], [] => true
    | a :: ls', b :: rs' => ASTMatching a b && matching_children ls' rs'
    | _, _ => false
    end in
  if (l =? T_NULL) && is_type r [T_STRUCT; T_LIST; T_FUNCTYPE] then true
  else if (r =? T_NULL) && is_type l [T_STRUCT; T_LIST; T_FUNCTYPE] then true
  else if (l =? T_ZERO) && is_type r [T_INT; T_INTTYPE; T_HANDLETYPE] then true
  else if (r =? T_ZERO) && is_type l [T_INT; T_INTTYPE; T_HANDLETYPE] then true
  else if negb (l =? r) then false
  else if is_type l [T_IDENTIFIER; T_STRUCT; T_HANDLETYPE; T_INTTYPE] &&
          negb ((module_of (node_token left) =? module_of (node_token right)) &&
                bool_decide (text (node_token left) = text (node_token right))) then false
  else match left, right with MkNode _ _ _ ls, MkNode _ _ _ rs => matching_children ls rs end.
End Matching.

Definition ASTIsManagedType (n : Node) : bool :=
  is_type (node_type n) [T_STR; T_LIST; T_STRUCT; T_FUNCPTR; T_ERR; T_ANYTYPE].

(** ** What the engine takes from its surroundings *)

Class Platform := {
  uninitialised : nat -> HeapEntry;                 (** [realloc]: a new heap entry *)
  fresh : nat -> Z;                                 (** [malloc]: a byte of a new buffer *)
  stale_item : nat -> Value;                        (** [realloc]: a new item of a list *)
  PrintFloatToBuffer : Value -> bytes;              (** [snprintf], [%f], at most 29 bytes *)
  type_at : Z -> Node;                              (** the node at an address *)
  module_of : Token -> Z;
  externalFunctions : list (ExecutionContext -> Z * Value * ExecutionContext);
  library_function : Z -> M ExecutionContext unit;  (** the function at an address *)
  ExternalPersistWrite : ExecutionContext -> bool * ExecutionContext;
  ExternalPassREPLResult : Value -> ExecutionContext -> ExecutionContext;
  ExternalCoroutineWaitAny : ExecutionContext -> Z; (** the coroutine whose thread is done *)
}.

Section Execute.
Context `{Platform}.

(** ** The evaluation stack, the bytecode and the heap *)

(** [stackEntriesAllocated] and the size of [backTrace]. *)
Definition stackEntriesAllocated : nat := 50.
Definition backTraceEntries : nat := 300.

(** [if (stackPointer < n) return -1;] *)
Definition need (n : nat) : X unit :=
  let* k := get_active in unless_malformed (n <=? length (stack k))%nat.

(** [stack[stackPointer - n]] and [stackIsManaged[stackPointer - n]] *)
Definition peek (n : nat) : X slot :=
  let* k := get_active in xlift (stack k !! (n - 1)%nat).
Definition value_at (n : nat) : X Value := let* s := peek n in xret s.2.
Definition poke (n : nat) (s : slot) : X unit :=
  let* k := get_active in
  if (n <=? length (stack k))%nat then modify_active (fun k => with_stack (<[(n - 1)%nat := s]> (stack k)) k)
  else xexit (Halt OutOfBounds).
(** [stack[stackPointer - n].i = v;] *)
Definition set_value (n : nat) (v : Value) : X unit :=
  let* s := peek n in poke n (s.1, v).
(** [stackPointer -= n;] *)
Definition pop (n : nat) : X unit := modify_active (fun k => with_stack (drop n (stack k)) k).
Definition push (s : slot) : X unit := modify_active (fun k => with_stack (s :: stack k) k).
(** Is there room for another entry? *)
Definition has_room : X bool :=
  let* k := get_active in xret (negb (length (stack k) =? stackEntriesAllocated)%nat).

(** [if (!stackIsManaged[stackPointer - n]) return -1;] and the opposite *)
Definition managed (n : nat) : X unit := let* s := peek n in unless_malformed s.1.
Definition unmanaged (n : nat) : X unit := let* s := peek n in unless_malformed (negb s.1).

(** [n] bytes of the bytecode at the instruction pointer, which may move on. *)
Definition code_bytes (n : nat) : X bytes :=
  let* x := get_context in
  let* ip := get_ip in
  if (0 <=? ip) && (ip + Z.of_nat n <=? Z.of_nat (length (functionData x)))
  then xret (take n (drop (Z.to_nat ip) (functionData x)))
  else xexit (Halt OutOfBounds).
Definition advance (n : Z) : X unit := let* ip := get_ip in set_ip (ip + n).
Definition operand (n : nat) : X Z :=
  let* b := code_bytes n in advance (Z.of_nat n) ;* xret (le_combine b).

(** [if (heapEntriesAllocated <= index) return -1;], then the entry *)
Definition heap_entry (i : Z) : X HeapEntry :=
  let* x := get_context in
  match entry_at (heap x) i with Some e => xret e | None => malformed end.
Definition set_entry (i : Z) (f : HeapEntry -> HeapEntry) : X unit :=
  modify_context (fun x => set_heap (update_entry i f (heap x)) x).

Definition allocate : X Z := fun m =>
  match HeapAllocate uninitialised (context m) with
  | (Ok i, x) => (inl i, MkMachine x (instructionPointer m) (variableBase m))
  | (RetFalse, x) => (inr (Halt Assertion), MkMachine x (instructionPointer m) (variableBase m))
  | (Stop r, x) => (inr (Halt r), MkMachine x (instructionPointer m) (variableBase m))
  end.

Definition xoutcome {A} (o : outcome A) : X A :=
  match o with Ok a => xret a | RetFalse => xexit (Halt Assertion) | Stop r => xexit (Halt r) end.

(** [ScriptHeapEntryToString] *)
Definition to_string (i : Z) : X bytes :=
  let* x := get_context in
  let* (h, text) := xoutcome (ScriptHeapEntryToString fresh (heap x) i) in
  modify_context (set_heap h) ;* xret text.

(** [STACK_READ_STRING] *)
Definition read_string (n : nat) : X bytes :=
  need n ;* managed n ;*
  let* i := value_at n in
  let* e := heap_entry i in
  unless_malformed (is_type (entry_type e) [T_EOF; T_STR; T_CONCAT]) ;*
  to_string i.

(** The items, the capacity and the flag of the list [stack[stackPointer - n]]. *)
Definition read_list (n : nat) : X (Z * list Value * Z * bool) :=
  let* i := value_at n in
  unless_error (negb (i =? 0)) ;*
  let* e := heap_entry i in
  match contents e with
  | PList items allocated => xret (i, items, allocated, internalValuesAreManaged e)
  | _ => malformed
  end.
Definition set_list (i : Z) (items : list Value) (allocated : Z) : X unit :=
  set_entry i (set_contents (PList items allocated)).

(** A value used as an unsigned index below [n]. *)
Definition below (v n : Z) : bool := (0 <=? v) && (v <? n).

(** ** Variables and literals *)

Definition exec_block (body : bool) : X unit :=
  let* newVariableCount := operand 2 in
  let n := Z.to_nat newVariableCount in
  let* flags := code_bytes n in
  advance newVariableCount ;*
  let* k := get_active in
  let count := Z.to_nat (localVariableCount k) in
  if body && (length (stack k) <? n)%nat then malformed
  else
    let values := if body then map snd (take n (stack k)) else repeat 0 n in
    let fresh_variables := zip_with (fun f v => (negb (f =? 0), v)) flags values in
    modify_active (fun k =>
      with_variables (take count (localVariables k) ++ fresh_variables ++ drop (count + n) (localVariables k))
        (localVariableCount k + newVariableCount)
        (with_stack (if body then drop n (stack k) else stack k) k)).

Definition exec_exit_scope : X unit :=
  let* count := operand 2 in
  let* k := get_active in
  unless_malformed (count <=? localVariableCount k) ;*
  modify_active (fun k => with_variables (localVariables k) (localVariableCount k - count) k).

Definition exec_numeric_literal : X unit :=
  let* room := has_room in
  unless_error room ;*
  let* v := operand 8 in
  push (false, s64 v).

Definition exec_null (command : Z) : X unit :=
  let* room := has_room in
  unless_error room ;*
  push (command =? T_NULL, 0).

Definition exec_string_literal : X unit :=
  let* room := has_room in
  unless_error room ;*
  let* textBytes := operand 4 in
  let* index := allocate in
  let* text := code_bytes (Z.to_nat textBytes) in
  set_entry index (set_contents (PStr text)) ;*
  advance textBytes ;*
  push (true, index).

Definition exec_variable : X unit :=
  let* room := has_room in
  unless_malformed room ;*
  let* b := operand 4 in
  let scopeIndex := s32 b in
  let* x := get_context in
  let* base := get_base in
  if 0 <=? scopeIndex then
    match globalVariables x !! Z.to_nat scopeIndex with
    | Some s => push s
    | None => malformed
    end
  else
    let scopeIndex := s32 (base - scopeIndex) in
    unless_malformed (below scopeIndex (localVariableCount (c x))) ;*
    let* s := xlift (localVariables (c x) !! Z.to_nat scopeIndex) in
    push s.

Definition exec_equals : X unit :=
  need 1 ;*
  let* b := operand 4 in
  let scopeIndex := s32 b in
  let* x := get_context in
  let* base := get_base in
  let* s := peek 1 in
  if 0 <=? scopeIndex then
    match globalVariables x !! Z.to_nat scopeIndex with
    | Some (m, _) =>
        unless_malformed (Bool.eqb m s.1) ;*
        modify_context (set_globals (<[Z.to_nat scopeIndex := (m, s.2)]> (globalVariables x))) ;*
        pop 1
    | None => malformed
    end
  else
    let scopeIndex := s32 (base - scopeIndex) in
    unless_malformed (below scopeIndex (localVariableCount (c x))) ;*
    let* (m, _) := xlift (localVariables (c x) !! Z.to_nat scopeIndex) in
    unless_malformed (Bool.eqb m s.1) ;*
    modify_active (fun k =>
      with_variables (<[Z.to_nat scopeIndex := (m, s.2)]> (localVariables k)) (localVariableCount k) k) ;*
    pop 1.

(** ** Strings *)

Definition exec_concat : X unit :=
  need 2 ;*
  let* s1 := peek 2 in
  let* s2 := peek 1 in
  managed 2 ;* managed 1 ;*
  let index1 := s1.2 in
  let index2 := s2.2 in
  let* e1 := heap_entry index1 in
  let* e2 := heap_entry index2 in
  xassert ((index1 <=? 0xFFFFFFFF) && (index2 <=? 0xFFFFFFFF)) ;*
  let* bytes1 := xoutcome (ScriptHeapEntryGetStringBytes e1) in
  let* bytes2 := xoutcome (ScriptHeapEntryGetStringBytes e2) in
  let* index := allocate in
  set_entry index (set_contents (PConcat index1 index2 (bytes1 + bytes2))) ;*
  let* x := get_context in
  let* e1 := xlift (entry_at (heap x) index1) in
  let* e2 := xlift (entry_at (heap x) index2) in
  (if is_concat e1 && is_concat e2 then
     let* h := xoutcome (ScriptHeapEntryConcatConvertToString fresh (heap x)
                           (if bytes1 <? bytes2 then index1 else index2)) in
     modify_context (set_heap h)
   else xret tt) ;*
  set_value 2 index ;*
  pop 1.

(** [snprintf] with [%ld]: the digits of an integer. *)
Fixpoint digits (fuel : nat) (n : Z) (acc : bytes) : bytes :=
  match fuel with
  | O => acc
  | S fuel' => let acc := (48 + n mod 10) :: acc in
               if n <? 10 then acc else digits fuel' (n / 10) acc
  end.
Definition PrintIntegerToBuffer (i : Z) : bytes :=
  if i <? 0 then 45 :: digits 20 (- i) [] else digits 20 i [].

(** The text of a list of integers: its items separated by commas. *)
Definition list_text (items : list Value) : bytes :=
  [91; 32] ++ concat (map (fun v => PrintIntegerToBuffer v ++ [44; 32]) (removelast items)) ++
  PrintIntegerToBuffer (List.last items 0) ++ [32; 93].

Definition interpolated (command : Z) : X bytes :=
  if command =? T_INTERPOLATE_STR then read_string 2
  else
    let* s := peek 2 in
    if command =? T_INTERPOLATE_BOOL then
      xret (if s.2 =? 0 then [102; 97; 108; 115; 101] else [116; 114; 117; 101])
    else if command =? T_INTERPOLATE_INT then xret (PrintIntegerToBuffer s.2)
    else if command =? T_INTERPOLATE_FLOAT then xret (PrintFloatToBuffer s.2)
    else
      unless_malformed s.1 ;*
      let* e := heap_entry s.2 in
      match contents e with
      | PEof => xret [110; 117; 108; 108]
      | PList [] _ => xret [91; 93]
      | PList items _ => unless_malformed (negb (internalValuesAreManaged e)) ;* xret (list_text items)
      | _ => malformed
      end.

(** The parts stay on the stack until the new string is written. *)
Definition exec_interpolate (command : Z) : X unit :=
  let* text1 := read_string 3 in
  let* text3 := read_string 1 in
  let* text2 := interpolated command in
  let* index := allocate in
  set_entry index (set_contents (PStr (text1 ++ text2 ++ text3))) ;*
  set_value 3 index ;*
  pop 2.

Definition exec_str_compare (command : Z) : X unit :=
  let* text1 := read_string 2 in
  let* text2 := read_string 1 in
  let equal := bool_decide (text1 = text2) in
  poke 2 (false, Z.b2z (if command =? T_STR_NOT_EQUALS then negb equal else equal)) ;*
  pop 1.

Definition exec_len : X unit :=
  need 1 ;* managed 1 ;*
  let* i := value_at 1 in
  let* e := heap_entry i in
  match contents e with
  | PList items _ => poke 1 (false, Z.of_nat (length items))
  | _ => let* text := read_string 1 in poke 1 (false, Z.of_nat (length text))
  end.

Definition exec_index : X unit :=
  need 2 ;*
  let* text := read_string 2 in
  unmanaged 1 ;*
  let* i := value_at 1 in
  unless_error (below i (Z.of_nat (length text))) ;*
  let* b := xlift (text !! Z.to_nat i) in
  let* index := allocate in
  set_entry index (set_contents (PStr [b])) ;*
  poke 2 (true, index) ;*
  pop 1.

(** ** Structures *)

(** The field index of the bytecode: a negative one is that of a managed field. *)
Definition field_index (i : Z) : bool * Z := if i <? 0 then (true, - i - 1) else (false, i).

Definition exec_equals_dot : X unit :=
  need 2 ;* managed 1 ;*
  let* i := value_at 1 in
  unless_error (negb (i =? 0)) ;*
  let* e := heap_entry i in
  match contents e with
  | PStruct fields flags =>
      let* b := operand 4 in
      let (isManaged, fieldIndex) := field_index (s32 b) in
      unless_malformed (below fieldIndex (Z.of_nat (length fields))) ;*
      let* s := peek 2 in
      set_entry i (set_contents (PStruct (<[Z.to_nat fieldIndex := s.2]> fields) flags)) ;*
      unless_malformed (Bool.eqb isManaged s.1) ;*
      set_entry i (set_contents (PStruct (<[Z.to_nat fieldIndex := s.2]> fields)
                                         (<[Z.to_nat fieldIndex := isManaged]> flags))) ;*
      pop 2
  | _ => malformed
  end.

Definition exec_dot : X unit :=
  need 1 ;* managed 1 ;*
  let* i := value_at 1 in
  unless_error (negb (i =? 0)) ;*
  let* e := heap_entry i in
  match contents e with
  | PStruct fields flags =>
      let* b := operand 2 in
      let (isManaged, fieldIndex) := field_index (swrap 16 b) in
      unless_malformed (below fieldIndex (Z.of_nat (length fields))) ;*
      let* v := xlift (fields !! Z.to_nat fieldIndex) in
      let* flag := xlift (flags !! Z.to_nat fieldIndex) in
      unless_malformed (Bool.eqb isManaged flag || ((v =? 0) && isManaged)) ;*
      poke 1 (isManaged, v)
  | _ => malformed
  end.

Definition exec_new : X unit :=
  let* room := has_room in
  unless_error room ;*
  let* b := operand 2 in
  let fieldCount := swrap 16 b in
  let* index := allocate in
  (if 0 <=? fieldCount then
     set_entry index (set_contents (PStruct (repeat 0 (Z.to_nat fieldCount)) (repeat false (Z.to_nat fieldCount))))
   else if -2 <=? fieldCount then
     set_entry index (fun e => set_managed (fieldCount =? -2) (set_contents (PList [] 0) e))
   else
     set_entry index (fun e => set_managed true (set_contents (PErr false 0) e)) ;*
     need 1 ;* managed 1 ;*
     let* v := value_at 1 in
     set_entry index (set_contents (PErr false v)) ;*
     pop 1) ;*
  push (true, index).

(** ** Lists *)

Definition exec_equals_list : X unit :=
  need 3 ;* unmanaged 1 ;* managed 2 ;*
  let* (l, items, allocated, flag) := read_list 2 in
  let* i := value_at 1 in
  unless_error (below i (Z.of_nat (length items))) ;*
  let* s := peek 3 in
  set_list l (<[Z.to_nat i := s.2]> items) allocated ;*
  unless_malformed (Bool.eqb flag s.1) ;*
  pop 3.

Definition exec_index_list : X unit :=
  need 2 ;* unmanaged 1 ;* managed 2 ;*
  let* (l, items, _, flag) := read_list 2 in
  let* i := value_at 1 in
  unless_error (below i (Z.of_nat (length items))) ;*
  let* v := xlift (items !! Z.to_nat i) in
  poke 2 (flag, v) ;*
  pop 1.

Definition exec_first_last (command : Z) : X unit :=
  need 1 ;* managed 1 ;*
  let* (l, items, _, flag) := read_list 1 in
  unless_error (negb (length items =? 0)%nat) ;*
  let* v := xlift (items !! (if (command =? T_OP_FIRST)%Z then 0 else length items - 1)%nat) in
  poke 1 (flag, v).

(** The largest length is below [1000000000]. *)
Definition length_ok (n : Z) : bool := (0 <=? n) && (n <? 1000000000).

Definition exec_resize : X unit :=
  need 2 ;* managed 2 ;*
  let* (l, items, _, _) := read_list 2 in
  let* newLength := value_at 1 in
  unless_error (length_ok newLength) ;*
  set_list l (take (Z.to_nat newLength) items ++ repeat 0 (Z.to_nat newLength - length items)) newLength ;*
  pop 2.

(** [allocated] after the list is extended to [n] items one by one. *)
Definition grown (n allocated : Z) : Z :=
  if allocated <? n then (if allocated =? 0 then 4 else u32 (allocated * 2)) else allocated.

Definition exec_add : X unit :=
  need 2 ;* managed 2 ;*
  let* (l, items, allocated, flag) := read_list 2 in
  let newLength := Z.of_nat (length items) + 1 in
  unless_error (length_ok newLength) ;*
  let allocated := grown newLength allocated in
  xassert (newLength <=? allocated) ;*
  set_list l (items ++ [stale_item 0]) allocated ;*
  let* s := peek 1 in
  unless_malformed (Bool.eqb flag s.1) ;*
  set_list l (items ++ [s.2]) allocated ;*
  pop 2.

Definition exec_insert : X unit :=
  need 3 ;* managed 3 ;*
  let* (l, items, allocated, flag) := read_list 3 in
  let newLength := Z.of_nat (length items) + 1 in
  unless_error (length_ok newLength) ;*
  let allocated := grown newLength allocated in
  xassert (newLength <=? allocated) ;*
  set_list l (items ++ [stale_item 0]) allocated ;*
  unmanaged 1 ;*
  let* insertIndex := value_at 1 in
  unless_error ((0 <=? insertIndex) && (insertIndex <=? Z.of_nat (length items))) ;*
  let i := Z.to_nat insertIndex in
  set_list l (take (S i) (items ++ [stale_item 0]) ++ drop i items) allocated ;*
  let* s := peek 2 in
  unless_malformed (Bool.eqb flag s.1) ;*
  set_list l (take i items ++ s.2 :: drop i items) allocated ;*
  pop 3.

Definition exec_insert_many : X unit :=
  need 3 ;* managed 3 ;*
  let* (l, items, allocated, flag) := read_list 3 in
  unmanaged 1 ;*
  let* v := value_at 1 in
  let insertCount := s64 v in
  let newLength := s64 (Z.of_nat (length items) + insertCount) in
  unless_error (0 <=? insertCount) ;*
  unless_error (length_ok newLength) ;*
  let allocated :=
    if allocated <? newLength then
      let a := if allocated =? 0 then 4 else u32 (allocated * 2) in
      if a <? newLength then newLength + 5 else a
    else allocated in
  xassert (newLength <=? allocated) ;*
  set_list l (items ++ map stale_item (seq 0 (Z.to_nat insertCount))) allocated ;*
  unmanaged 2 ;*
  let* insertIndex := value_at 2 in
  unless_error ((0 <=? insertIndex) && (insertIndex <=? Z.of_nat (length items))) ;*
  set_list l (take (Z.to_nat insertIndex) items ++ repeat 0 (Z.to_nat insertCount) ++
              drop (Z.to_nat insertIndex) items) allocated ;*
  pop 3.

Definition exec_delete (command : Z) : X unit :=
  let stackIndexList := (if (command =? T_OP_DELETE)%Z then 2 else 3)%nat in
  let stackIndexIndex := (if (command =? T_OP_DELETE)%Z then 1 else 2)%nat in
  need stackIndexList ;* managed stackIndexList ;*
  let* (l, items, allocated, flag) := read_list stackIndexList in
  unmanaged 1 ;*
  let* top := value_at 1 in
  let deleteCount := if command =? T_OP_DELETE then 1 else s64 top in
  let newLength := s64 (Z.of_nat (length items) - deleteCount) in
  unless_error (0 <=? deleteCount) ;*
  unless_error (length_ok newLength) ;*
  unmanaged stackIndexIndex ;*
  let* deleteIndex := value_at stackIndexIndex in
  unless_error ((0 <=? deleteIndex) && (deleteIndex <=? newLength)) ;*
  set_list l (take (Z.to_nat deleteIndex) items ++ drop (Z.to_nat (deleteIndex + deleteCount)) items) allocated ;*
  pop stackIndexList.

Definition exec_delete_all : X unit :=
  need 1 ;* managed 1 ;*
  let* (l, _, _, _) := read_list 1 in
  set_list l [] 0 ;*
  pop 1.

(** The index of the first item that is equal to the value, or to the string. *)
Fixpoint find_value (v : Value) (items : list Value) (i : nat) : option nat :=
  match items with
  | [] => None
  | w :: items' => if w =? v then Some i else find_value v items' (S i)
  end.
Fixpoint find_string (v : Value) (items : list Value) (i : nat) : X (option nat) :=
  match items with
  | [] => xret None
  | w :: items' =>
      let* text1 := to_string w in
      let* text2 := to_string v in
      if bool_decide (text1 = text2) then xret (Some i) else find_string v items' (S i)
  end.

Definition exec_find (command : Z) : X unit :=
  let strings := is_type command [T_OP_FIND_STR; T_OP_FIND_AND_DEL_STR] in
  let find := is_type command [T_OP_FIND; T_OP_FIND_STR] in
  need 2 ;* managed 2 ;*
  let* (l, items, allocated, flag) := read_list 2 in
  let* s := peek 1 in
  unless_malformed (Bool.eqb flag s.1) ;*
  unless_malformed (negb strings || flag) ;*
  let* found := if strings then find_string s.2 items 0 else xret (find_value s.2 items 0) in
  (match found with
   | None => poke 2 (false, if find then -1 else 0)
   | Some i =>
       if find then poke 2 (false, Z.of_nat i)
       else set_list l (take i items ++ drop (i + 1) items) allocated ;* poke 2 (false, 1)
   end) ;*
  pop 1.

(** ** Arithmetic and the stack *)

(** [stack[stackPointer - 2] = f(stack[stackPointer - 2], stack[stackPointer - 1]);] the
    flag of the first operand stays. *)
Definition binary (f : Value -> Value -> Value) : X unit :=
  need 2 ;*
  let* a := value_at 2 in
  let* b := value_at 1 in
  set_value 2 (f a b) ;*
  pop 1.
Definition unary (f : Value -> Value) : X unit :=
  need 1 ;*
  let* a := value_at 1 in
  set_value 1 (f a).

(** The commands that apply an operation to the two values on top of the stack. *)
Definition binary_operation (command : Z) : option (Value -> Value -> Value) :=
  let compare (f : Z -> Z -> bool) := Some (fun a b => Z.b2z (f a b)) in
  if command =? T_BIT_SHIFT_LEFT then Some (fun a b => s64 (Z.shiftl a (b mod 64)))
  else if command =? T_BIT_SHIFT_RIGHT then Some (fun a b => Z.shiftr a (b mod 64))
  else if command =? T_BITWISE_OR then Some Z.lor
  else if command =? T_BITWISE_AND then Some Z.land
  else if command =? T_BITWISE_XOR then Some Z.lxor
  else if command =? T_ADD then Some (fun a b => s64 (a + b))
  else if command =? T_MINUS then Some (fun a b => s64 (a - b))
  else if command =? T_ASTERISK then Some (fun a b => s64 (a * b))
  else if command =? T_FLOAT_ADD then Some f64_add
  else if command =? T_FLOAT_MINUS then Some f64_sub
  else if command =? T_FLOAT_ASTERISK then Some f64_mul
  else if command =? T_FLOAT_SLASH then Some f64_div
  else if command =? T_LESS_THAN then compare Z.ltb
  else if command =? T_GREATER_THAN then compare Z.gtb
  else if command =? T_LT_OR_EQUAL then compare Z.leb
  else if command =? T_GT_OR_EQUAL then compare Z.geb
  else if command =? T_DOUBLE_EQUALS then compare Z.eqb
  else if command =? T_NOT_EQUALS then compare (fun a b => negb (a =? b))
  else if command =? T_FLOAT_LESS_THAN then compare f64_lt
  else if command =? T_FLOAT_GREATER_THAN then compare (fun a b => f64_lt b a)
  else if command =? T_FLOAT_LT_OR_EQUAL then compare f64_le
  else if command =? T_FLOAT_GT_OR_EQUAL then compare (fun a b => f64_le b a)
  else if command =? T_FLOAT_DOUBLE_EQUALS then compare f64_eq
  else if command =? T_FLOAT_NOT_EQUALS then compare (fun a b => negb (f64_eq a b))
  else None.

Definition unary_operation (command : Z) : option (Value -> Value) :=
  if command =? T_NEGATE then Some (fun a => s64 (- a))
  else if command =? T_BITWISE_NOT then Some Z.lnot
  else if command =? T_FLOAT_NEGATE then Some f64_neg
  else if command =? T_LOGICAL_NOT then Some (fun a => Z.b2z (a =? 0))
  else None.

(** The operands are read as doubles. *)
Definition exec_slash : X unit :=
  need 2 ;*
  let* b := value_at 1 in
  unless_error (negb (b =? 0)) ;*
  let* a := value_at 2 in
  set_value 2 (f64_truncate (f64_div a b)) ;*
  pop 1.

Definition exec_convert (f : Value -> Value) : X unit :=
  need 1 ;* unmanaged 1 ;*
  let* v := value_at 1 in
  set_value 1 (f v).

Definition exec_pop : X unit := need 1 ;* pop 1.

Definition exec_dup : X unit :=
  need 1 ;*
  let* room := has_room in
  unless_error room ;*
  let* s := peek 1 in
  push s.

Definition exec_swap : X unit :=
  need 2 ;*
  let* s1 := peek 1 in
  let* s2 := peek 2 in
  poke 1 s2 ;* poke 2 s1.

Definition exec_rot3 : X unit :=
  need 3 ;*
  let* s1 := peek 1 in
  let* s2 := peek 2 in
  let* s3 := peek 3 in
  poke 1 s3 ;* poke 2 s1 ;* poke 3 s2.

(** ** Errors and boxed values *)

Definition exec_assert : X unit :=
  need 1 ;*
  let* v := value_at 1 in
  pop 1 ;*
  unless_error (negb (v =? 0)).

Definition exec_err_cast : X unit :=
  need 1 ;*
  let* index := allocate in
  let* s := peek 1 in
  set_entry index (fun e => set_managed s.1 (set_contents (PErr true s.2) e)) ;*
  poke 1 (true, index).

Definition exec_anytype_cast : X unit :=
  need 1 ;*
  let* index := allocate in
  let* y := operand 8 in
  let* s := peek 1 in
  set_entry index (fun e => set_managed (ASTIsManagedType (type_at y)) (set_contents (PAny y s.2) e)) ;*
  poke 1 (true, index).

Definition exec_cast : X unit :=
  need 1 ;* managed 1 ;*
  let* i := value_at 1 in
  unless_error (negb (i =? 0)) ;*
  let* e := heap_entry i in
  match contents e with
  | PAny anyType anyValue =>
      let* b := code_bytes 8 in
      let y := type_at (le_combine b) in
      unless_error (ASTMatching module_of y (type_at anyType)) ;*
      xassert (Bool.eqb (ASTIsManagedType y) (internalValuesAreManaged e)) ;*
      poke 1 (internalValuesAreManaged e, anyValue) ;*
      advance 8
  | _ => malformed
  end.

(** The error value at [stack[stackPointer - n]] unless it is null. *)
Definition read_error (n : nat) : X (option (bool * Value * bool)) :=
  let* i := value_at n in
  if i =? 0 then xret None
  else
    let* e := heap_entry i in
    match contents e with
    | PErr success v => xret (Some (success, v, internalValuesAreManaged e))
    | _ => malformed
    end.

Definition exec_success : X unit :=
  need 1 ;* managed 1 ;*
  let* r := read_error 1 in
  poke 1 (false, Z.b2z (match r with Some (success, _, _) => success | None => false end)).

Definition exec_assert_err : X unit :=
  need 1 ;* managed 1 ;*
  let* r := read_error 1 in
  match r with
  | None => runtime_error
  | Some (true, v, flag) => poke 1 (flag, v)
  | Some (false, v, flag) => unless_malformed flag ;* to_string v ;* runtime_error
  end.

Definition exec_error : X unit :=
  need 1 ;* managed 1 ;*
  let* r := read_error 1 in
  let* v :=
    match r with
    | None =>
        let* index := allocate in
        set_entry index (set_contents (PStr [85; 78; 75; 78; 79; 87; 78])) ;*
        xret index
    | Some (true, _, _) => xret 0
    | Some (false, v, flag) => unless_malformed flag ;* xret v
    end in
  poke 1 (true, v).

Definition exec_default : X unit :=
  need 2 ;* managed 2 ;*
  let* r := read_error 2 in
  (match r with
   | None => xret tt
   | Some (true, v, flag) => poke 1 (flag, v)
   | Some (false, v, flag) => unless_malformed flag
   end) ;*
  let* s := peek 1 in
  poke 2 s ;*
  pop 1.

(** ** Function pointers and control flow *)

(** [T_OP_DISCARD] and [T_OP_ASSERT] wrap a function pointer. *)
Definition exec_wrap (wrapped : Z -> payload) : X unit :=
  need 1 ;* managed 1 ;*
  let* v := value_at 1 in
  let* index := allocate in
  set_entry index (set_contents (wrapped v)) ;*
  poke 1 (true, index).

Definition exec_curry : X unit :=
  need 2 ;* managed 2 ;*
  let* s := peek 1 in
  let* v := value_at 2 in
  let* index := allocate in
  set_entry index (fun e => set_managed s.1 (set_contents (PCurry v s.2) e)) ;*
  poke 2 (true, index) ;*
  pop 1.

(** Follow the wrappers of a function pointer, pushing curried arguments: where the
    function starts, and whether its result is discarded or asserted. *)
Fixpoint resolve (fuel : nat) (index : Z) (popResult assertResult : bool) : X (Z * bool * bool) :=
  match fuel with
  | O => xexit (Halt OutOfFuel)
  | S fuel' =>
      let* e := heap_entry index in
      match contents e with
      | PDiscard l => resolve fuel' l true assertResult
      | PAssert l => resolve fuel' l popResult true
      | PCurry l v =>
          let* room := has_room in
          unless_error room ;*
          push (internalValuesAreManaged e, v) ;*
          resolve fuel' l popResult assertResult
      | PFuncptr l => xret (l, popResult, assertResult)
      | _ => malformed
      end
  end.

Definition exec_call : X unit :=
  need 1 ;* managed 1 ;*
  let* v := value_at 1 in
  pop 1 ;*
  unless_error (negb (v =? 0)) ;*
  let* x := get_context in
  let* (start, popResult, assertResult) := resolve (S (length (heap x))) v false false in
  let* k := get_active in
  unless_error (negb (length (backTrace k) =? backTraceEntries)%nat) ;*
  let* ip := get_ip in
  let* base := get_base in
  modify_active (fun k =>
    with_backTrace (MkBackTrace (wrap 30 ip) popResult assertResult (swrap 30 base) :: backTrace k) k) ;*
  set_ip start ;*
  set_base (localVariableCount k - 1).

Definition jump_operand : X Z := let* b := code_bytes 4 in xret (s32 (le_combine b)).

Definition exec_if : X unit :=
  need 1 ;*
  let* v := value_at 1 in
  pop 1 ;*
  let* delta := jump_operand in
  advance (if v =? 0 then delta else 4).

Definition exec_logical (command : Z) : X unit :=
  need 1 ;*
  let* v := value_at 1 in
  let* delta := jump_operand in
  let short := if command =? T_LOGICAL_OR then negb (v =? 0) else v =? 0 in
  advance (if short then delta else 4) ;*
  (if short then xret tt else pop 1).

Definition exec_branch : X unit :=
  let* delta := jump_operand in advance delta.

Definition exec_persist : X unit :=
  let* x := get_context in
  let (ok, x') := ExternalPersistWrite x in
  modify_context (fun _ => x') ;*
  unless_error ok.

Definition exec_repl_result : X unit :=
  need 1 ;*
  let* v := value_at 1 in
  pop 1 ;*
  modify_context (ExternalPassREPLResult v).

(** ** Coroutines *)

Definition find_coroutine (i : Z) (ks : list CoroutineState) : option CoroutineState :=
  List.find (fun k => id k =? i) ks.
Definition update_coroutine (i : Z) (f : CoroutineState -> CoroutineState) (ks : list CoroutineState)
  : list CoroutineState := map (fun k => if id k =? i then f k else k) ks.

(** The list [ks], split at the coroutine [i], becomes the list of all coroutines with [i] active. *)
Fixpoint split_at_id (i : Z) (b ks : list CoroutineState)
  : option (list CoroutineState * CoroutineState * list CoroutineState) :=
  match ks with
  | [] => None
  | k :: ks' => if id k =? i then Some (b, k, ks') else split_at_id i (b ++ [k]) ks'
  end.
Definition switch_to (i : Z) (ks : list CoroutineState) : X unit :=
  let* (b, k, a) := xlift (split_at_id i [] ks) in
  modify_context (set_coroutines b k a).

Definition exec_async : X unit :=
  need 1 ;* managed 1 ;*
  let* s := peek 1 in
  let* x := get_context in
  let i := lastCoroutineID x + 1 in
  let k := MkCoroutine [] 0 [(true, s.2); (false, -1)] [] i 0 [] 0 [] false true false 0 0 0 0 0 in
  modify_context (fun x => set_last_id i (set_unblocked (i :: unblockedCoroutines x)
                             (set_coroutines (k :: before x) (c x) (after x) x))) ;*
  poke 1 (false, i).

(** [*(c->waitingOn[j])] through the list of coroutines. *)
Definition read_waiter (p : waiter_pointer) (ks : list CoroutineState) : option (option Z) :=
  match find_coroutine (wp_coroutine p) ks with
  | Some k => if waitersAllocated k =? wp_allocated p then waiters k !! Z.to_nat (wp_index p) else None
  | None => None
  end.
Definition clear_waiter (p : waiter_pointer) (ks : list CoroutineState) : list CoroutineState :=
  update_coroutine (wp_coroutine p)
    (fun k => with_waiters (<[Z.to_nat (wp_index p) := None]> (waiters k)) (waitersAllocated k) k) ks.

(** Take the coroutine [w] off every list of waiters it is on. *)
Fixpoint clear_waiters (w : Z) (l : list waiter_pointer) (ks : list CoroutineState) : X (list CoroutineState) :=
  match l with
  | [] => xret ks
  | p :: l' =>
      let* o := xlift (read_waiter p ks) in
      xassert (bool_decide (o = Some w)) ;*
      clear_waiters w l' (clear_waiter p ks)
  end.

(** Unblock the waiters of the finished coroutine [i], from the [j]th on. *)
Fixpoint unblock_waiters (n : nat) (j : nat) (i : Z) (ks : list CoroutineState) : X (list CoroutineState) :=
  match n with
  | O => xret ks
  | S n' =>
      let* k := xlift (find_coroutine i ks) in
      let* o := xlift (waiters k !! j) in
      match o with
      | None => unblock_waiters n' (S j) i ks
      | Some w =>
          let* kw := xlift (find_coroutine w ks) in
          let* x := get_context in
          xassert (negb (bool_decide (w ∈ unblockedCoroutines x))) ;*
          modify_context (fun x => set_unblocked (w :: unblockedCoroutines x) x) ;*
          let* ks := clear_waiters w (waitingOn kw) ks in
          unblock_waiters n' (S j) i (update_coroutine w (with_waitingOn i []) ks)
      end
  end.

(** Add the coroutine [w] to the waiters of [k], once for each item of the list that is
    its identifier; the pointers to the new elements. *)
Fixpoint add_waiter (w : Z) (items : list Value) (k : CoroutineState) : CoroutineState * list waiter_pointer :=
  match items with
  | [] => (k, [])
  | i :: items' =>
      if id k =? i then
        let n := Z.of_nat (length (waiters k)) in
        let allocated := if n =? waitersAllocated k then (if n =? 0 then 4 else n * 2) else waitersAllocated k in
        let (k', l) := add_waiter w items' (with_waiters (waiters k ++ [Some w]) allocated k) in
        (k', MkWaiterPointer (id k) allocated n :: l)
      else add_waiter w items' k
  end.
Definition add_waiters (w : Z) (items : list Value) (ks : list CoroutineState)
  : list CoroutineState * list waiter_pointer :=
  let r := map (add_waiter w items) ks in (map fst r, concat (map snd r)).

(** The active coroutine stops running: the coroutines that are left, and whether the
    active one can go on at once. *)
Definition suspend : X (list CoroutineState * bool) :=
  let* k := get_active in
  let* ip := get_ip in
  let* base := get_base in
  if externalCoroutine k then
    modify_active (fun k => with_waitingOn (-1) [] (with_saved ip base k)) ;*
    let* x := get_context in xret (allCoroutines x, false)
  else
    let* s := peek 1 in
    if s.2 =? -1 then
      unless_malformed (length (stack k) =? 1)%nat ;*
      let* x := get_context in
      let* ks := unblock_waiters (length (waiters k)) 0 (id k) (allCoroutines x) in
      xret (List.filter (fun k' => negb (id k' =? id k)) ks, false)
    else
      unless_malformed s.1 ;*
      modify_active (with_saved ip base) ;*
      let* e := heap_entry s.2 in
      match contents e with
      | PList items _ =>
          unless_malformed (negb (internalValuesAreManaged e)) ;*
          xassert (length (waitingOn k) =? 0)%nat ;*
          let* x := get_context in
          let (ks, l) := add_waiters (id k) items (allCoroutines x) in
          match l with
          | [] =>
              let by_ := match items with i :: _ => i | [] => -1 end in
              xret (update_coroutine (id k) (with_waitingOn by_ []) ks, true)
          | _ => xret (update_coroutine (id k) (with_waitingOn (-1) l) ks, false)
          end
      | _ => malformed
      end.

(** Which coroutine runs next. *)
Definition choose_next (ks : list CoroutineState) (immediately : bool) : X unit :=
  let* k := get_active in
  let* x := get_context in
  if immediately then switch_to (id k) ks
  else match unblockedCoroutines x with
  | i :: l => modify_context (set_unblocked l) ;* switch_to i ks
  | [] =>
      if externalCoroutineCount x =? 0 then runtime_error
      else
        let i := ExternalCoroutineWaitAny x in
        let* k := xlift (find_coroutine i ks) in
        xassert (externalCoroutine k) ;*
        switch_to i ks
  end.

Definition exec_await : X unit :=
  let* k := get_active in
  unless_malformed ((1 <=? length (stack k))%nat || externalCoroutine k) ;*
  let* x := get_context in
  xassert (negb (bool_decide (id k ∈ unblockedCoroutines x))) ;*
  let* (ks, immediately) := suspend in
  choose_next ks immediately ;*
  let* k := get_active in
  if awaiting k then
    (if externalCoroutine k then xret tt else poke 1 (false, unblockedBy k)) ;*
    set_ip (saved_instructionPointer k) ;*
    set_base (saved_variableBase k)
  else set_ip 1 ;* exec_call.

(** ** External calls and the end of functions *)

Definition EXTCALL_NO_RETURN : Z := 1.
Definition EXTCALL_RETURN_UNMANAGED : Z := 2.
Definition EXTCALL_RETURN_MANAGED : Z := 3.
Definition EXTCALL_START_COROUTINE : Z := 4.
Definition EXTCALL_RETURN_ERR_UNMANAGED : Z := 5.
Definition EXTCALL_RETURN_ERR_MANAGED : Z := 6.
Definition EXTCALL_RETURN_ERR_ERROR : Z := 7.

(** The value an external function returned is put on the stack. *)
Definition push_result (result : Z) (v : Value) : X unit :=
  let isErr := is_type result [EXTCALL_RETURN_ERR_ERROR; EXTCALL_RETURN_ERR_MANAGED; EXTCALL_RETURN_ERR_UNMANAGED] in
  if is_type result [EXTCALL_RETURN_UNMANAGED; EXTCALL_RETURN_MANAGED] || isErr then
    let* room := has_room in
    unless_malformed room ;*
    if isErr then
      if negb (result =? EXTCALL_RETURN_ERR_ERROR) || negb (v =? 0) then
        push (negb (result =? EXTCALL_RETURN_ERR_UNMANAGED), v) ;*
        let* index := allocate in
        set_entry index (fun e => set_managed (negb (result =? EXTCALL_RETURN_ERR_UNMANAGED))
                                    (set_contents (PErr (negb (result =? EXTCALL_RETURN_ERR_ERROR)) v) e)) ;*
        pop 1 ;*
        push (true, index)
      else push (true, 0)
    else push (result =? EXTCALL_RETURN_MANAGED, v)
  else xret tt.

(** Go back to the caller. *)
Definition leave (item : BackTraceItem) (rest : list BackTraceItem) : X unit :=
  modify_active (with_backTrace rest) ;*
  set_ip (bt_instructionPointer item) ;*
  set_base (bt_variableBase item).

(** What the wrappers of the function pointer do with the result. *)
Definition use_result (item : BackTraceItem) : X unit :=
  if popResult item then need 1 ;* pop 1
  else if assertResult item then
    need 1 ;*
    let* v := value_at 1 in
    pop 1 ;*
    unless_error (negb (v =? 0))
  else xret tt.

(** After a function, [external] if it is not a function of the script: does the loop go on? *)
Definition finish_function (external : bool) : X bool :=
  let* base := get_base in
  modify_active (fun k => with_variables (localVariables k) (base + 1) k) ;*
  let* k := get_active in
  match backTrace k with
  | [] => xret false
  | item :: rest =>
      (if external then leave item rest ;* use_result item else use_result item ;* leave item rest) ;*
      xret true
  end.

Definition exec_extcall : X bool :=
  let* index := operand 2 in
  match externalFunctions !! Z.to_nat index with
  | None => malformed
  | Some callback =>
      let* x := get_context in
      let '(result, v, x') := callback x in
      modify_context (fun _ => x') ;*
      if result <=? 0 then xexit (Return result)
      else if result =? EXTCALL_START_COROUTINE then
        modify_context (fun x => set_external_count (externalCoroutineCount x + 1) x) ;*
        modify_active (with_external true) ;*
        advance (-3) ;*
        exec_await ;*
        xret true
      else
        let* k := get_active in
        (if externalCoroutine k then
           modify_context (fun x => set_external_count (externalCoroutineCount x - 1) x) ;*
           modify_active (with_external false)
         else xret tt) ;*
        push_result result v ;*
        finish_function true
  end.

Definition exec_libcall : X bool :=
  modify_active (fun k => with_library_call 0 (returnValue k) EXTCALL_NO_RETURN k) ;*
  let* address := operand 8 in
  let* x := get_context in
  let (r, x') := library_function address x in
  modify_context (fun _ => x') ;*
  (match r with Ok _ => xret tt | RetFalse => runtime_error | Stop s => xexit (Halt s) end) ;*
  let* k := get_active in
  (if parameterCount k <=? Z.of_nat (length (stack k)) then xret tt else xexit (Halt OutOfBounds)) ;*
  pop (Z.to_nat (parameterCount k)) ;*
  (if returnValueType k =? EXTCALL_NO_RETURN then xret tt
   else
     let* room := has_room in
     unless_malformed room ;*
     push (returnValueType k =? EXTCALL_RETURN_MANAGED, returnValue k)) ;*
  finish_function true.

(** After the loop: are all tasks finished? *)
Definition finish : X unit :=
  let* x := get_context in
  match allCoroutines x with
  | [k] => if startedByAsync k then runtime_error else xexit (Return 1)
  | _ => runtime_error
  end.

(** ** The loop *)

(** The commands that go on with the next one. *)
Definition execute (command : Z) : X unit :=
  if is_type command [T_BLOCK; T_FUNCBODY] then exec_block (command =? T_FUNCBODY)
  else if command =? T_EXIT_SCOPE then exec_exit_scope
  else if command =? T_NUMERIC_LITERAL then exec_numeric_literal
  else if is_type command [T_NULL; T_ZERO] then exec_null command
  else if command =? T_STRING_LITERAL then exec_string_literal
  else if command =? T_CONCAT then exec_concat
  else if is_type command [T_INTERPOLATE_STR; T_INTERPOLATE_BOOL; T_INTERPOLATE_INT; T_INTERPOLATE_FLOAT; T_INTERPOLATE_ILIST]
    then exec_interpolate command
  else if command =? T_VARIABLE then exec_variable
  else if command =? T_EQUALS then exec_equals
  else if command =? T_EQUALS_DOT then exec_equals_dot
  else if command =? T_EQUALS_LIST then exec_equals_list
  else if command =? T_INDEX_LIST then exec_index_list
  else if is_type command [T_OP_FIRST; T_OP_LAST] then exec_first_last command
  else if command =? T_DOT then exec_dot
  else if command =? T_SLASH then exec_slash
  else match binary_operation command with Some f => binary f | None =>
       match unary_operation command with Some f => unary f | None =>
  if is_type command [T_STR_DOUBLE_EQUALS; T_STR_NOT_EQUALS] then exec_str_compare command
  else if command =? T_OP_LEN then exec_len
  else if command =? T_INDEX then exec_index
  else if command =? T_CALL then exec_call
  else if command =? T_IF then exec_if
  else if is_type command [T_LOGICAL_OR; T_LOGICAL_AND] then exec_logical command
  else if command =? T_BRANCH then exec_branch
  else if command =? T_POP then exec_pop
  else if command =? T_DUP then exec_dup
  else if command =? T_SWAP then exec_swap
  else if command =? T_ROT3 then exec_rot3
  else if command =? T_ASSERT then exec_assert
  else if command =? T_ERR_CAST then exec_err_cast
  else if command =? T_ANYTYPE_CAST then exec_anytype_cast
  else if command =? T_OP_CAST then exec_cast
  else if command =? T_OP_SUCCESS then exec_success
  else if command =? T_OP_ASSERT_ERR then exec_assert_err
  else if command =? T_OP_ERROR then exec_error
  else if command =? T_OP_DEFAULT then exec_default
  else if command =? T_OP_INT_TO_FLOAT then exec_convert f64_of_int
  else if command =? T_OP_FLOAT_TRUNCATE then exec_convert f64_truncate
  else if command =? T_PERSIST then exec_persist
  else if command =? T_NEW then exec_new
  else if command =? T_OP_RESIZE then exec_resize
  else if command =? T_OP_ADD then exec_add
  else if command =? T_OP_INSERT then exec_insert
  else if command =? T_OP_INSERT_MANY then exec_insert_many
  else if is_type command [T_OP_DELETE; T_OP_DELETE_MANY] then exec_delete command
  else if command =? T_OP_DELETE_ALL then exec_delete_all
  else if is_type command [T_OP_FIND_AND_DELETE; T_OP_FIND; T_OP_FIND_AND_DEL_STR; T_OP_FIND_STR] then exec_find command
  else if command =? T_OP_DISCARD then exec_wrap PDiscard
  else if command =? T_OP_ASSERT then exec_wrap PAssert
  else if command =? T_OP_CURRY then exec_curry
  else if command =? T_OP_ASYNC then exec_async
  else if command =? T_AWAIT then exec_await
  else if command =? T_REPL_RESULT then exec_repl_result
  else malformed
  end end.

Definition step : X unit :=
  let* command := operand 1 in
  let* more :=
    if command =? T_END_FUNCTION then finish_function false
    else if command =? T_EXTCALL then exec_extcall
    else if command =? T_LIBCALL then exec_libcall
    else if command =? T_END_CALLBACK then xret false
    else execute command ;* xret true in
  if more then xret tt else finish.

(** [fuel] iterations at most; [None]: the function has not returned yet. *)
Fixpoint run (fuel : nat) (m : Machine) : option exit * Machine :=
  match fuel with
  | O => (None, m)
  | S fuel' => match step m with
               | (inl _, m') => run fuel' m'
               | (inr e, m') => (Some e, m')
               end
  end.

Definition ScriptExecuteFunction (fuel : nat) (start : Z) (x : ExecutionContext) : option exit * Machine :=
  run fuel (MkMachine x start (localVariableCount (c x) - 1)).

(** [ScriptRunCallback]: the parameters and the function pointer are pushed, then the
    [T_CALL] command at address 2 runs. *)
Fixpoint push_parameters (l : list slot) (k : CoroutineState) : option CoroutineState :=
  match l with
  | [] => Some k
  | s :: l' => match push_parameters l' k with
               | Some k' => if (length (stack k') =? stackEntriesAllocated)%nat then None
                            else Some (with_stack (s :: stack k') k')
               | None => None
               end
  end.
Definition ScriptRunCallback (fuel : nat) (functionPointer : Value) (parameters : list slot) (x : ExecutionContext)
  : option exit * ExecutionContext :=
  match push_parameters ((true, functionPointer) :: parameters) (c x) with
  | None => (Some (Return 0), x)
  | Some k => let (r, m) := ScriptExecuteFunction fuel 2 (set_active k x) in (r, context m)
  end.
End Execute.
