(* ===== verification/ScriptExecProofs.v ===== *)
(** * Safety of the interpreter of the script engine

    The invariant of a context ([wf]): the heap is well formed, the entries the program
    can reach are consistent (concatenations stand for strings, capacities cover
    lengths, function pointers are finite chains of wrappers), and the arrays of each
    coroutine are within their bounds.  A command that is applied to operands of the
    right kind keeps the invariant and stops the program neither with a failed assertion
    nor with an access outside an object. *)

From stdpp Require Import base list relations.
From S2P Require Import Prelude ScriptToken ScriptParser ScriptHeap ScriptString ScriptFloat ScriptExec.

(** ** The invariant *)

(** The function pointer that a function pointer wraps. *)
Definition wrapped (p : payload) : option Z :=
  match p with PDiscard l | PAssert l | PCurry l _ => Some l | _ => None end.

(** [wraps h n i]: [n] wrappers around an entry that is not one. *)
Inductive wraps (h : list HeapEntry) : nat -> Z -> Prop :=
  | wr_end i e :
      entry_at h i = Some e -> is_unused (contents e) = false -> wrapped (contents e) = None -> wraps h 0 i
  | wr_step i e l n :
      entry_at h i = Some e -> wrapped (contents e) = Some l -> wraps h n l -> wraps h (S n) i.

Definition entry_ok (h : list HeapEntry) (i : Z) (p : payload) : Prop :=
  match p with
  | PConcat _ _ _ => exists s, stands_for h i s
  | PList items allocated => Z.of_nat (length items) <= allocated <= 2000000000
  | PStruct fields flags => length flags = length fields
  | PDiscard _ | PAssert _ | PCurry _ _ => exists n, wraps h n i
  | _ => True
  end.

Definition coroutine_ok (k : CoroutineState) : Prop :=
  0 <= localVariableCount k <= Z.of_nat (length (localVariables k)) /\ (length (stack k) <= 50)%nat.

Record wf (x : ExecutionContext) : Prop := {
  wf_heap : heap_ok x;
  wf_size : (2 <= length (heap x))%nat;
  wf_entries : forall i e, reachable x i -> entry_at (heap x) i = Some e -> entry_ok (heap x) i (contents e);
  wf_coroutines : Forall coroutine_ok (allCoroutines x);
}.

(** ** Heaps that agree on what is in use *)

Definition agrees (h h' : list HeapEntry) (P : Z -> Prop) : Prop :=
  forall j e, P j -> entry_at h j = Some e -> is_unused (contents e) = false ->
  exists e', entry_at h' j = Some e' /\ contents e' = contents e.

Lemma refers_child h i e j :
  entry_at h i = Some e -> j ∈ entry_children e -> refers h i j.
Proof. intros. by exists e. Qed.

(** A set of entries that has what its entries refer to. *)
Definition closed (h : list HeapEntry) (P : Z -> Prop) : Prop := forall i j, P i -> refers h i j -> P j.

Lemma reachable_is_closed x : heap_ok x -> closed (heap x) (reachable x).
Proof. intros Hok i j. by apply reachable_step. Qed.

Lemma denotes_agree h h' (P : Z -> Prop) n i s :
  closed h P -> agrees h h' P -> denotes h n i s -> P i -> denotes h' n i s.
Proof.
  intros Hcl Ha. induction 1 as [i e He Hc|i e text He Hc|i e c1 c2 size n1 n2 s1 s2 He Hc H1 IH1 H2 IH2 Hs Hn]; intros Hi.
  - destruct (Ha i e Hi He) as (e' & He' & Hc'); [by rewrite Hc|]. eapply den_eof; [done|congruence].
  - destruct (Ha i e Hi He) as (e' & He' & Hc'); [by rewrite Hc|]. eapply den_str; [done|congruence].
  - destruct (Ha i e Hi He) as (e' & He' & Hc'); [by rewrite Hc|].
    assert (Hk : forall j, j ∈ [c1; c2] -> P j).
    { intros j Hj. apply (Hcl i); [done|]. apply (refers_child _ _ e); [done|].
      unfold entry_children. by rewrite Hc. }
    eapply den_concat; [done|by rewrite Hc'|apply IH1, Hk; set_solver|apply IH2, Hk; set_solver|done..].
Qed.

Lemma wraps_agree h h' (P : Z -> Prop) n i :
  closed h P -> agrees h h' P -> wraps h n i -> P i -> wraps h' n i.
Proof.
  intros Hcl Ha. induction 1 as [i e He Hu Hw|i e l n He Hw Hl IH]; intros Hi.
  - destruct (Ha i e Hi He Hu) as (e' & He' & Hc'). eapply wr_end; [done|congruence..].
  - destruct (Ha i e Hi He) as (e' & He' & Hc'); [by destruct (contents e)|].
    eapply wr_step; [done|rewrite Hc'; done|]. apply IH, (Hcl i); [done|].
    apply (refers_child _ _ e); [done|]. unfold entry_children. destruct (contents e); cbn in Hw; simplify_eq; set_solver.
Qed.

Lemma entry_ok_agree h h' (P : Z -> Prop) i p :
  closed h P -> agrees h h' P -> P i -> entry_ok h i p -> entry_ok h' i p.
Proof.
  intros Hcl Ha Hi. destruct p; cbn; try done.
  - intros [n Hn]. exists n. by eapply wraps_agree.
  - intros [n Hn]. exists n. by eapply wraps_agree.
  - intros [n Hn]. exists n. by eapply wraps_agree.
  - intros (s & n & Hn). exists s, n. by eapply denotes_agree.
Qed.

(** ** How commands change a context *)

(** The heap stays: the roots were reachable. *)
Lemma wf_roots x y :
  wf x -> heap y = heap x -> heapFirstUnusedEntry y = heapFirstUnusedEntry x ->
  (forall r, r ∈ roots y -> reachable x r) -> Forall coroutine_ok (allCoroutines y) -> wf y.
Proof.
  intros [Hh Hs He Hc] Hheap Hfirst Hroots Hk. split; [by apply (heap_ok_sub x)|by rewrite Hheap| |done].
  intros i e Hi. rewrite Hheap in *. apply He. destruct Hi as [->|Hi]; [by left|].
  rewrite Hheap in Hi. by apply (reachable_closed x (roots y)).
Qed.

Lemma allocated_agrees x i x' f :
  heap_ok x -> allocated x i x' -> agrees (heap x) (update_entry i f (heap x')) (reachable x).
Proof.
  intros Hok Hal j e Hj He Hu. destruct (decide (j = i)) as [->|Hne].
  { by destruct (al_fresh _ _ _ Hal). }
  destruct (al_kept _ _ _ Hal j e Hj He) as (e' & He' & Hv). exists e'.
  destruct (al_new _ _ _ Hal) as [Hi _]. rewrite entry_at_update_ne by lia. split; [done|]. by apply visible_contents.
Qed.

(** An entry is allocated and written. *)
Lemma wf_fill x i x' f y :
  wf x -> allocated x i x' -> heap y = update_entry i f (heap x') -> heapFirstUnusedEntry y = heapFirstUnusedEntry x' ->
  (forall e, freeable (contents (f e))) ->
  (forall e j, j ∈ entry_children (f e) -> j = i \/ reachable x j) ->
  (forall e, entry_ok (heap y) i (contents (f e))) ->
  (forall r, r ∈ roots y -> r = i \/ reachable x r) ->
  Forall coroutine_ok (allCoroutines y) -> wf y.
Proof.
  intros Hwf Hal Hy Hfirst Hfree Hkids Hnew Hroots Hk. pose proof (wf_heap _ Hwf) as Hok.
  split; [by apply (heap_ok_fill x i x' f)| | |done].
  { rewrite Hy, length_update_entry. pose proof (al_length _ _ _ Hal). pose proof (wf_size _ Hwf). lia. }
  intros j e Hj He. destruct (al_new _ _ _ Hal) as (Hi & e0 & He0 & _).
  destruct (decide (j = i)) as [->|Hne].
  { rewrite Hy, (entry_at_update _ _ _ _ He0) in He. injection He as <-. apply Hnew. }
  destruct (reach_fill _ _ _ _ _ Hal Hy Hkids Hroots Hok j Hj) as [|Hr]; [done|].
  destruct (reachable_in_use x j Hok Hr) as (e1 & He1 & _). destruct (al_kept _ _ _ Hal j e1 Hr He1) as (e2 & He2 & Hv).
  rewrite Hy, entry_at_update_ne in He by lia. assert (e2 = e) as -> by congruence.
  rewrite (visible_contents _ _ Hv). apply (entry_ok_agree (heap x) _ (reachable x)); [| |done|by apply Hwf].
  - by apply reachable_is_closed.
  - rewrite Hy. by apply allocated_agrees.
Qed.

(** An entry that is in use is changed in place. *)
Lemma reach_update x l e f y :
  heap_ok x -> entry_at (heap x) l = Some e -> heap y = update_entry l f (heap x) ->
  (forall j, j ∈ entry_children (f e) -> reachable x j) -> (forall r, r ∈ roots y -> reachable x r) ->
  forall j, reachable y j -> reachable x j.
Proof.
  intros Hok He Hy Hkids Hroots j0 [->|Hj0]; [by left|]. revert j0 Hj0.
  assert (0 <= l) by (apply entry_at_range in He; lia). apply reach_closed; [done|]. intros j k Hj (ej & Hej & Hk). rewrite Hy in Hej.
  destruct (decide (j = l)) as [->|Hne].
  - rewrite (entry_at_update _ _ _ _ He) in Hej. injection Hej as <-. by apply Hkids.
  - rewrite entry_at_update_ne in Hej by lia. apply (reachable_step x j); [done..|]. by exists ej.
Qed.

Lemma heap_ok_update x l e f y :
  heap_ok x -> entry_at (heap x) l = Some e -> freeable (contents e) -> heap y = update_entry l f (heap x) ->
  heapFirstUnusedEntry y = heapFirstUnusedEntry x -> freeable (contents (f e)) ->
  (forall j, reachable y j -> reachable x j) -> heap_ok y.
Proof.
  intros Hok He [Hu Hn] Hy Hfirst [Hu' Hn'] Hreach. assert (0 <= l) by (apply entry_at_range in He; lia).
  assert (Hcase : forall j ej, entry_at (heap y) j = Some ej ->
            (j = l /\ ej = f e) \/ (j <> l /\ entry_at (heap x) j = Some ej)).
  { intros j ej. rewrite Hy. destruct (decide (j = l)) as [->|Hne].
    - rewrite (entry_at_update _ _ _ _ He). intros [= <-]. by left.
    - rewrite entry_at_update_ne by lia. intros ?. by right. }
  assert (Hother : forall j ej, j <> l -> entry_at (heap x) j = Some ej -> entry_at (heap y) j = Some ej).
  { intros j ej Hne. rewrite Hy, entry_at_update_ne by lia. done. }
  assert (Hl : l <> 0).
  { intros ->. destruct (ho_null _ Hok) as (e0 & He0 & Hz). congruence. }
  split.
  - destruct (ho_null _ Hok) as (e0 & He0 & Hz). exists e0. split; [apply Hother; [lia|done]|done].
  - intros j ej [[-> ->]|[Hne Hej]]%Hcase Heof; [done|]. by apply (ho_eof _ Hok j ej).
  - destruct (ho_unused _ Hok) as (ul & Hch & Hnd & Hin). exists ul. rewrite Hfirst. split; [|split; [done|]].
    + apply (chain_ext (heap x)); [|done]. intros j ej Hj Hej.
      assert (j <> l). { intros ->. destruct (chain_in _ _ _ _ l Hch Hj) as (_ & e1 & He1 & Hu1). congruence. }
      exists ej. split; [by apply Hother|done].
    + intros j ej [[-> ->]|[Hne Hej]]%Hcase Hun; [congruence|]. by apply (Hin j ej).
  - intros j Hj. destruct (reachable_in_use x j Hok (Hreach j (or_intror Hj))) as (ej & Hej & Hlive).
    destruct (decide (j = l)) as [->|Hne]; [|exists ej; split; [by apply Hother|done]].
    exists (f e). rewrite Hy. split; [by apply entry_at_update|done].
Qed.

Lemma wf_update x l e f y :
  wf x -> entry_at (heap x) l = Some e -> freeable (contents e) -> heap y = update_entry l f (heap x) ->
  heapFirstUnusedEntry y = heapFirstUnusedEntry x -> freeable (contents (f e)) ->
  (forall j, j ∈ entry_children (f e) -> reachable x j) -> (forall r, r ∈ roots y -> reachable x r) ->
  (forall i p, i <> l -> entry_ok (heap x) i p -> entry_ok (heap y) i p) -> entry_ok (heap y) l (contents (f e)) ->
  Forall coroutine_ok (allCoroutines y) -> wf y.
Proof.
  intros Hwf He Hfr Hy Hfirst Hfr' Hkids Hroots Hother Hnew Hk.
  pose proof (reach_update x l e f y (wf_heap _ Hwf) He Hy Hkids Hroots) as Hreach.
  assert (0 <= l) by (apply entry_at_range in He; lia).
  split; [|rewrite Hy, length_update_entry; apply Hwf| |done].
  - apply (heap_ok_update x l e f); try done. apply Hwf.
  - intros i ei Hi. rewrite Hy at 1. destruct (decide (i = l)) as [->|Hne].
    + rewrite (entry_at_update _ _ _ _ He). by intros [= <-].
    + rewrite entry_at_update_ne by lia. intros Hei. apply Hother; [done|]. apply Hwf; [by apply Hreach|done].
Qed.

(** Lists and structures are neither strings nor wrappers. *)
Definition inert (p : payload) : Prop := match p with PList _ _ | PStruct _ _ => True | _ => False end.

Lemma inert_freeable p : inert p -> freeable p.
Proof. by destruct p. Qed.

Lemma inert_plain p : inert p -> is_unused p = false /\ wrapped p = None.
Proof. by destruct p. Qed.

Lemma inert_denotes h l e f n i s :
  entry_at h l = Some e -> inert (contents e) -> denotes h n i s -> denotes (update_entry l f h) n i s.
Proof.
  intros He Hin. assert (0 <= l) by (apply entry_at_range in He; lia).
  assert (Hne : forall i ei, entry_at h i = Some ei -> ~ inert (contents ei) -> entry_at (update_entry l f h) i = Some ei).
  { intros j ej Hej Hni. rewrite entry_at_update_ne; [done|lia|]. intros <-. congruence. }
  induction 1 as [i ei Hi Hc|i ei text Hi Hc|i ei c1 c2 size n1 n2 s1 s2 Hi Hc H1 IH1 H2 IH2 Hs Hn].
  - eapply den_eof; [apply Hne; [done|rewrite Hc; by intros []]|done].
  - eapply den_str; [apply Hne; [done|rewrite Hc; by intros []]|done].
  - eapply den_concat; [apply Hne; [done|rewrite Hc; by intros []]|done..].
Qed.

Lemma inert_wraps h l e f n i :
  entry_at h l = Some e -> inert (contents e) -> inert (contents (f e)) -> wraps h n i -> wraps (update_entry l f h) n i.
Proof.
  intros He Hin Hin'. assert (0 <= l) by (apply entry_at_range in He; lia).
  induction 1 as [i ei Hi Hu Hw|i ei k n Hi Hw Hk IH]; destruct (decide (i = l)) as [->|Hne].
  - destruct (inert_plain _ Hin'). eapply wr_end; [by apply (entry_at_update _ _ _ e)|done..].
  - eapply wr_end; [by rewrite entry_at_update_ne by lia|done..].
  - assert (ei = e) as -> by congruence. destruct (inert_plain _ Hin). congruence.
  - eapply wr_step; [by rewrite entry_at_update_ne by lia|done..].
Qed.

Lemma inert_entry_ok h l e f i p :
  entry_at h l = Some e -> inert (contents e) -> inert (contents (f e)) -> entry_ok h i p -> entry_ok (update_entry l f h) i p.
Proof.
  intros He Hin Hin'. destruct p; cbn; try done.
  - intros [n Hn]. exists n. by eapply inert_wraps.
  - intros [n Hn]. exists n. by eapply inert_wraps.
  - intros [n Hn]. exists n. by eapply inert_wraps.
  - intros (s & n & Hn). exists s, n. by eapply inert_denotes.
Qed.

(** A list or a structure is changed. *)
Lemma wf_mutate x l e f y :
  wf x -> entry_at (heap x) l = Some e -> inert (contents e) -> inert (contents (f e)) ->
  heap y = update_entry l f (heap x) -> heapFirstUnusedEntry y = heapFirstUnusedEntry x ->
  entry_ok (heap x) l (contents (f e)) ->
  (forall j, j ∈ entry_children (f e) -> reachable x j) -> (forall r, r ∈ roots y -> reachable x r) ->
  Forall coroutine_ok (allCoroutines y) -> wf y.
Proof.
  intros Hwf He Hin Hin' Hy Hfirst Hnew Hkids Hroots Hk.
  apply (wf_update x l e f); try done; try by apply inert_freeable.
  - intros i p _. rewrite Hy. by apply (inert_entry_ok _ _ e).
  - rewrite Hy. by apply (inert_entry_ok _ _ e).
Qed.

(** A concatenation is converted to the string it stands for. *)
Lemma convert_wraps h l e s n i :
  entry_at h l = Some e -> is_concat e = true -> wraps h n i -> wraps (converted h l s) n i.
Proof.
  intros He Hc. assert (0 <= l) by (apply entry_at_range in He; lia). unfold converted.
  induction 1 as [i ei Hi Hu Hw|i ei k n Hi Hw Hk IH]; destruct (decide (i = l)) as [->|Hne].
  - eapply wr_end; [by apply entry_at_update|done..].
  - eapply wr_end; [by rewrite entry_at_update_ne by lia|done..].
  - assert (ei = e) as -> by congruence. unfold is_concat, entry_type in Hc. by destruct (contents e).
  - eapply wr_step; [by rewrite entry_at_update_ne by lia|done..].
Qed.

Lemma wf_convert x l n s :
  wf x -> denotes (heap x) (S n) l s -> wf (set_heap (converted (heap x) l s) x).
Proof.
  intros Hwf Hd. destruct (denotes_entry _ _ _ _ Hd) as (e & He & _ & Hc & Hu).
  assert (Hp : exists c1 c2 z, contents e = PConcat c1 c2 z).
  { unfold is_concat, entry_type in Hc. destruct (contents e); try done. eauto. }
  destruct Hp as (c1 & c2 & z & Hp).
  eapply (wf_update x l e (set_contents (PStr s))); try done.
  - by rewrite Hp.
  - by intros j ?%elem_of_nil.
  - intros r Hr. right. by apply reach_root.
  - intros i p _. cbn. fold (converted (heap x) l s). destruct p; cbn; try done.
    + intros [m Hm]. exists m. by eapply convert_wraps.
    + intros [m Hm]. exists m. by eapply convert_wraps.
    + intros [m Hm]. exists m. by eapply convert_wraps.
    + intros (t & m & Hm). destruct (denotes_convert (heap x) l s _ e (ex_intro _ _ Hd) He eq_refl _ _ _ Hm) as (m' & _ & ?).
      by exists t, m'.
  - apply Hwf.
Qed.

(** ** Stacks *)

Definition stacked (l : list slot) (x : ExecutionContext) : ExecutionContext :=
  set_active (with_stack l (c x)) x.

(** The managed ones of these slots hold what can be reached, or the new entry [i]. *)
Definition slots_ok (P : Z -> Prop) (l : list slot) : Prop := Forall (fun s => s.1 = true -> P s.2) l.

Lemma elem_managed_slots l v : v ∈ managed_slots l <-> (true, v) ∈ l.
Proof.
  unfold managed_slots. rewrite list_elem_of_fmap. split.
  - intros ([b w] & -> & [Hb Hin]%list_elem_of_filter). cbn in Hb. by subst.
  - intros Hin. exists (true, v). split; [done|]. by apply list_elem_of_filter.
Qed.

Lemma elem_roots x v :
  v ∈ roots x <-> (true, v) ∈ globalVariables x \/
    exists k, k ∈ allCoroutines x /\ ((true, v) ∈ take (Z.to_nat (localVariableCount k)) (localVariables k) \/ (true, v) ∈ stack k).
Proof.
  unfold roots. rewrite elem_of_app, elem_managed_slots. apply or_iff_compat_l.
  rewrite list_elem_of_In, in_concat. split.
  - intros (l & (k & <- & Hk)%in_map_iff & Hv). exists k. split; [by apply list_elem_of_In|].
    apply list_elem_of_In in Hv. unfold coroutine_roots in Hv.
    rewrite elem_of_app, !elem_managed_slots in Hv.
    destruct Hv as [?|Hv]; [by left|right]. apply list_elem_of_In in Hv. apply list_elem_of_In. by apply in_rev.
  - intros (k & Hk & Hv). exists (coroutine_roots k). split.
    + apply in_map_iff. exists k. split; [done|]. by apply list_elem_of_In.
    + apply list_elem_of_In. unfold coroutine_roots. rewrite elem_of_app, !elem_managed_slots.
      destruct Hv as [?|Hv]; [by left|right]. apply list_elem_of_In. apply in_rev. rewrite rev_involutive. by apply list_elem_of_In.
Qed.

Lemma slots_ok_elem P l : slots_ok P l <-> forall v, (true, v) ∈ l -> P v.
Proof.
  unfold slots_ok. rewrite Forall_forall. split.
  - intros Hl v Hv. apply (Hl (true, v)); [by apply list_elem_of_In|done].
  - intros Hl [b v] Hin Hb. cbn in Hb. subst. apply Hl. by apply list_elem_of_In.
Qed.

Lemma active_in x : c x ∈ allCoroutines x.
Proof. unfold allCoroutines. set_solver. Qed.

Lemma stack_slots x : slots_ok (reachable x) (stack (c x)).
Proof.
  apply slots_ok_elem. intros v Hv. right. apply reach_root, elem_roots. right. exists (c x).
  split; [apply active_in|by right].
Qed.

Lemma global_slots x : slots_ok (reachable x) (globalVariables x).
Proof. apply slots_ok_elem. intros v Hv. right. apply reach_root, elem_roots. by left. Qed.

Lemma local_slots x : slots_ok (reachable x) (take (Z.to_nat (localVariableCount (c x))) (localVariables (c x))).
Proof.
  apply slots_ok_elem. intros v Hv. right. apply reach_root, elem_roots. right. exists (c x).
  split; [apply active_in|by left].
Qed.

(** The roots after the active coroutine is replaced. *)
Lemma roots_active x k v :
  v ∈ roots (set_active k x) ->
  v ∈ roots x \/ (true, v) ∈ take (Z.to_nat (localVariableCount k)) (localVariables k) \/ (true, v) ∈ stack k.
Proof.
  rewrite !elem_roots. intros [?|(k' & Hk' & Hv)]; [naive_solver|].
  unfold allCoroutines in Hk'. cbn in Hk'. rewrite elem_of_app, elem_of_cons in Hk'.
  destruct Hk' as [Hk'|[->|Hk']]; [|naive_solver|];
    (left; right; exists k'; split; [|done]; unfold allCoroutines; rewrite elem_of_app, elem_of_cons; tauto).
Qed.

Lemma coroutines_active x k :
  Forall coroutine_ok (allCoroutines x) -> coroutine_ok k -> Forall coroutine_ok (allCoroutines (set_active k x)).
Proof.
  unfold allCoroutines. cbn. rewrite !Forall_app. intros [Hb Ha] Hk. split; [done|].
  apply Forall_cons_1 in Ha as [_ Ha]. by constructor.
Qed.

Lemma wf_active x k :
  wf x -> coroutine_ok k -> slots_ok (reachable x) (take (Z.to_nat (localVariableCount k)) (localVariables k)) ->
  slots_ok (reachable x) (stack k) -> wf (set_active k x).
Proof.
  intros Hwf Hk Hv Hs. apply (wf_roots x); [done..| |by apply coroutines_active, Hk; apply Hwf].
  intros r [Hr|[Hr|Hr]]%roots_active; [right; by apply reach_root|..].
  - by apply (proj1 (slots_ok_elem _ _) Hv).
  - by apply (proj1 (slots_ok_elem _ _) Hs).
Qed.

Lemma wf_active_ok x : wf x -> coroutine_ok (c x).
Proof. intros Hwf. pose proof (wf_coroutines _ Hwf) as HF. rewrite Forall_forall in HF. apply HF, list_elem_of_In, active_in. Qed.

Lemma roots_stacked x P l v :
  (forall v, reachable x v -> P v) -> slots_ok P l -> v ∈ roots (stacked l x) -> P v.
Proof.
  intros HP Hl [Hr|[Hr|Hr]]%roots_active.
  - apply HP. right. by apply reach_root.
  - apply HP. by apply (proj1 (slots_ok_elem _ _) (local_slots x)).
  - by apply (proj1 (slots_ok_elem _ _) Hl).
Qed.

Lemma coroutines_stacked x l :
  wf x -> (length l <= 50)%nat -> Forall coroutine_ok (allCoroutines (stacked l x)).
Proof.
  intros Hwf Hl. apply coroutines_active; [apply Hwf|]. destruct (wf_active_ok _ Hwf) as [Hv _]. by split.
Qed.

Lemma wf_stacked x l : wf x -> slots_ok (reachable x) l -> (length l <= 50)%nat -> wf (stacked l x).
Proof.
  intros Hwf Hl Hlen. apply (wf_roots x); [done..| |by apply coroutines_stacked].
  intros r. by apply roots_stacked.
Qed.

(** A new entry and a new stack. *)
Lemma wf_filled x i first h f l :
  wf x -> allocated x i (set_first first (set_heap h x)) ->
  (forall e, freeable (contents (f e))) ->
  (forall e j, j ∈ entry_children (f e) -> j = i \/ reachable x j) ->
  (forall e, entry_ok (update_entry i f h) i (contents (f e))) ->
  slots_ok (fun v => v = i \/ reachable x v) l -> (length l <= 50)%nat ->
  wf (stacked l (set_first first (set_heap (update_entry i f h) x))).
Proof.
  intros Hwf Hal Hfree Hkids Hnew Hl Hlen.
  apply (wf_fill x i (set_first first (set_heap h x)) f); try done.
  - intros r. apply (roots_stacked x (fun v => v = i \/ reachable x v) l r); [by right|done].
  - exact (coroutines_stacked x l Hwf Hlen).
Qed.

(** A changed list or structure and a new stack. *)
Lemma wf_mutated x i e f l :
  wf x -> entry_at (heap x) i = Some e -> inert (contents e) -> inert (contents (f e)) ->
  entry_ok (heap x) i (contents (f e)) -> (forall j, j ∈ entry_children (f e) -> reachable x j) ->
  slots_ok (reachable x) l -> (length l <= 50)%nat ->
  wf (stacked l (set_heap (update_entry i f (heap x)) x)).
Proof.
  intros Hwf He Hin Hin' Hnew Hkids Hl Hlen.
  apply (wf_mutate x i e f); try done.
  - intros r. by apply (roots_stacked x (reachable x) l).
  - exact (coroutines_stacked x l Hwf Hlen).
Qed.

(** ** Weakest preconditions *)

(** From [s] the computation does not stop the program, and if it goes on then [Q]. *)
Definition xwp {A} (m : X A) (Q : A -> Machine -> Prop) (s : Machine) : Prop :=
  match m s with
  | (inl a, s') => Q a s'
  | (inr (Return _), _) => True
  | (inr (Halt _), _) => False
  end.

Lemma xwp_bind {A B} (m : X A) (f : A -> X B) Q s : xwp m (fun a => xwp (f a) Q) s -> xwp (xbind m f) Q s.
Proof. unfold xwp, xbind. destruct (m s) as [[a|[]] s']; done. Qed.

Lemma xwp_mono {A} (m : X A) (P Q : A -> Machine -> Prop) s :
  xwp m P s -> (forall a s', P a s' -> Q a s') -> xwp m Q s.
Proof. unfold xwp. destruct (m s) as [[a|[]] s']; naive_solver. Qed.

Lemma xwp_ret {A} (a : A) (Q : A -> Machine -> Prop) s : Q a s -> xwp (xret a) Q s.
Proof. done. Qed.
Lemma xwp_malformed {A} (Q : A -> Machine -> Prop) s : xwp malformed Q s.
Proof. done. Qed.
Lemma xwp_runtime_error {A} (Q : A -> Machine -> Prop) s : xwp runtime_error Q s.
Proof. done. Qed.
Lemma xwp_unless_malformed b (Q : unit -> Machine -> Prop) s : (b = true -> Q tt s) -> xwp (unless_malformed b) Q s.
Proof. destruct b; cbn; [auto|done]. Qed.
Lemma xwp_unless_error b (Q : unit -> Machine -> Prop) s : (b = true -> Q tt s) -> xwp (unless_error b) Q s.
Proof. destruct b; cbn; [auto|done]. Qed.
Lemma xwp_assert b (Q : unit -> Machine -> Prop) s : b = true -> Q tt s -> xwp (xassert b) Q s.
Proof. by intros ->. Qed.
Lemma xwp_lift {A} (o : option A) a (Q : A -> Machine -> Prop) s : o = Some a -> Q a s -> xwp (xlift o) Q s.
Proof. by intros ->. Qed.
Lemma xwp_if {A} (b : bool) (m1 m2 : X A) Q s :
  (b = true -> xwp m1 Q s) -> (b = false -> xwp m2 Q s) -> xwp (if b then m1 else m2) Q s.
Proof. destruct b; auto. Qed.

Section Rules.
Context `{Platform}.
Context (x : ExecutionContext) (ip base : Z).
Abbreviation here := (MkMachine x ip base).

Lemma xwp_get_context (Q : ExecutionContext -> Machine -> Prop) : Q x here -> xwp get_context Q here.
Proof. done. Qed.
Lemma xwp_get_ip (Q : Z -> Machine -> Prop) : Q ip here -> xwp get_ip Q here.
Proof. done. Qed.
Lemma xwp_get_base (Q : Z -> Machine -> Prop) : Q base here -> xwp get_base Q here.
Proof. done. Qed.
Lemma xwp_set_ip i (Q : unit -> Machine -> Prop) : Q tt (MkMachine x i base) -> xwp (set_ip i) Q here.
Proof. done. Qed.
Lemma xwp_set_base i (Q : unit -> Machine -> Prop) : Q tt (MkMachine x ip i) -> xwp (set_base i) Q here.
Proof. done. Qed.
Lemma xwp_get_active (Q : CoroutineState -> Machine -> Prop) : Q (c x) here -> xwp get_active Q here.
Proof. done. Qed.
Lemma xwp_modify_context f (Q : unit -> Machine -> Prop) : Q tt (MkMachine (f x) ip base) -> xwp (modify_context f) Q here.
Proof. done. Qed.
Lemma xwp_modify_active f (Q : unit -> Machine -> Prop) :
  Q tt (MkMachine (set_active (f (c x)) x) ip base) -> xwp (modify_active f) Q here.
Proof. done. Qed.

Lemma xwp_need n (Q : unit -> Machine -> Prop) :
  ((n <= length (stack (c x)))%nat -> Q tt here) -> xwp (need n) Q here.
Proof. intros HQ. apply xwp_bind, xwp_get_active, xwp_unless_malformed. intros Hn%Nat.leb_le. auto. Qed.

Lemma xwp_peek n s (Q : slot -> Machine -> Prop) :
  stack (c x) !! (n - 1)%nat = Some s -> Q s here -> xwp (peek n) Q here.
Proof. intros. by eapply xwp_bind, xwp_get_active, xwp_lift. Qed.

Lemma xwp_value_at n (s : slot) (Q : Z -> Machine -> Prop) :
  stack (c x) !! (n - 1)%nat = Some s -> Q s.2 here -> xwp (value_at n) Q here.
Proof. intros. by eapply xwp_bind, xwp_peek. Qed.

Lemma xwp_managed n (s : slot) (Q : unit -> Machine -> Prop) :
  stack (c x) !! (n - 1)%nat = Some s -> (s.1 = true -> Q tt here) -> xwp (managed n) Q here.
Proof. intros. eapply xwp_bind, xwp_peek; [done|]. by apply xwp_unless_malformed. Qed.

Lemma xwp_unmanaged n (s : slot) (Q : unit -> Machine -> Prop) :
  stack (c x) !! (n - 1)%nat = Some s -> (s.1 = false -> Q tt here) -> xwp (unmanaged n) Q here.
Proof. intros. eapply xwp_bind, xwp_peek; [done|]. apply xwp_unless_malformed. rewrite negb_true_iff. done. Qed.

Lemma xwp_poke n s (Q : unit -> Machine -> Prop) :
  (n <= length (stack (c x)))%nat ->
  Q tt (MkMachine (stacked (<[(n - 1)%nat := s]> (stack (c x))) x) ip base) -> xwp (poke n s) Q here.
Proof.
  intros Hn HQ. apply xwp_bind, xwp_get_active. rewrite (proj2 (Nat.leb_le _ _) Hn). by apply xwp_modify_active.
Qed.

Lemma xwp_set_value n (s : slot) v (Q : unit -> Machine -> Prop) :
  stack (c x) !! (n - 1)%nat = Some s -> (1 <= n)%nat ->
  Q tt (MkMachine (stacked (<[(n - 1)%nat := (s.1, v)]> (stack (c x))) x) ip base) -> xwp (set_value n v) Q here.
Proof.
  intros Hs Hn HQ. eapply xwp_bind, xwp_peek; [done|]. apply xwp_poke; [|done].
  apply lookup_lt_Some in Hs. lia.
Qed.

Lemma xwp_pop n (Q : unit -> Machine -> Prop) :
  Q tt (MkMachine (stacked (drop n (stack (c x))) x) ip base) -> xwp (pop n) Q here.
Proof. done. Qed.
Lemma xwp_push s (Q : unit -> Machine -> Prop) :
  Q tt (MkMachine (stacked (s :: stack (c x)) x) ip base) -> xwp (push s) Q here.
Proof. done. Qed.

Lemma xwp_room (Q : bool -> Machine -> Prop) :
  (forall b, (b = true -> wf x -> (length (stack (c x)) < 50)%nat) -> Q b here) -> xwp has_room Q here.
Proof.
  intros HQ. apply xwp_bind, xwp_get_active, xwp_ret, HQ. intros Hb Hwf.
  destruct (wf_active_ok _ Hwf) as [_ Hl]. unfold stackEntriesAllocated in Hb.
  apply negb_true_iff, Nat.eqb_neq in Hb. lia.
Qed.

(** Are there [n] bytes of code at the instruction pointer? *)
Definition code_available (n : nat) : Prop := 0 <= ip /\ ip + Z.of_nat n <= Z.of_nat (length (functionData x)).

Lemma xwp_code_bytes n (Q : bytes -> Machine -> Prop) :
  code_available n -> (forall b, length b = n -> b = take n (drop (Z.to_nat ip) (functionData x)) -> Q b here) ->
  xwp (code_bytes n) Q here.
Proof.
  intros [H0 H1] HQ. apply xwp_bind, xwp_get_context, xwp_bind, xwp_get_ip.
  rewrite (proj2 (Z.leb_le 0 ip)), (proj2 (Z.leb_le _ _)) by done. apply xwp_ret, HQ; [|done].
  rewrite length_take, length_drop. lia.
Qed.

Lemma xwp_advance n (Q : unit -> Machine -> Prop) : Q tt (MkMachine x (ip + n) base) -> xwp (advance n) Q here.
Proof. done. Qed.

Lemma xwp_operand n (Q : Z -> Machine -> Prop) :
  code_available n ->
  Q (le_combine (take n (drop (Z.to_nat ip) (functionData x)))) (MkMachine x (ip + Z.of_nat n) base) ->
  xwp (operand n) Q here.
Proof. intros Hc HQ. apply xwp_bind, xwp_code_bytes; [done|]. intros b _ ->. by apply xwp_bind, xwp_advance, xwp_ret. Qed.

Lemma xwp_heap_entry i (Q : HeapEntry -> Machine -> Prop) :
  (forall e, entry_at (heap x) i = Some e -> Q e here) -> xwp (heap_entry i) Q here.
Proof. intros HQ. apply xwp_bind, xwp_get_context. destruct (entry_at (heap x) i) eqn:He; [by apply xwp_ret, HQ|done]. Qed.

Lemma xwp_set_entry i f (Q : unit -> Machine -> Prop) :
  Q tt (MkMachine (set_heap (update_entry i f (heap x)) x) ip base) -> xwp (set_entry i f) Q here.
Proof. done. Qed.

Lemma xwp_allocate (Q : Z -> Machine -> Prop) :
  wf x ->
  (forall i first h, allocated x i (set_first first (set_heap h x)) -> Q i (MkMachine (set_first first (set_heap h x)) ip base)) ->
  xwp allocate Q here.
Proof.
  intros Hwf HQ. destruct (HeapAllocate_spec uninitialised x) as (i & y & Hrun & Hal); [apply Hwf|].
  unfold xwp, allocate. cbn [context]. rewrite Hrun. cbn. rewrite (al_rest _ _ _ Hal). apply HQ.
  by rewrite <- (al_rest _ _ _ Hal).
Qed.
End Rules.

(** ** Proof steps *)

Lemma stacked_stacked l l' x : stacked l (stacked l' x) = stacked l x.
Proof. done. Qed.
Lemma stack_stacked l x : stack (c (stacked l x)) = l.
Proof. done. Qed.

Lemma set_heap_set_heap h h' x : set_heap h (set_heap h' x) = set_heap h x.
Proof. done. Qed.
Lemma heap_set_heap h x : heap (set_heap h x) = h.
Proof. done. Qed.
Lemma set_heap_set_first h i x : set_heap h (set_first i x) = set_first i (set_heap h x).
Proof. done. Qed.
Lemma heap_set_first i x : heap (set_first i x) = heap x.
Proof. done. Qed.

Create Rewrite HintDb contexts.
#[export] Hint Rewrite stacked_stacked stack_stacked set_heap_set_heap heap_set_heap set_heap_set_first
  heap_set_first : contexts.

Lemma update_compose i f g h : update_entry i f (update_entry i g h) = update_entry i (fun e => f (g e)) h.
Proof.
  apply list_eq. intros k. unfold update_entry. rewrite !list_lookup_alter.
  repeat case_decide; try done. by destruct (h !! _).
Qed.

Lemma slots_head P (s : slot) l : slots_ok P (s :: l) -> (s.1 = true -> P s.2) /\ slots_ok P l.
Proof. intros Hs. by apply Forall_cons_1 in Hs. Qed.

Lemma slots_cons (P : Z -> Prop) (s : slot) l : (s.1 = true -> P s.2) -> slots_ok P l -> slots_ok P (s :: l).
Proof. intros. by apply Forall_cons. Qed.

Lemma slots_mono (P Q : Z -> Prop) l : (forall v, P v -> Q v) -> slots_ok P l -> slots_ok Q l.
Proof. intros HPQ. apply Forall_impl. naive_solver. Qed.

Lemma slots_new x i l : slots_ok (reachable x) l -> slots_ok (fun v => v = i \/ reachable x v) l.
Proof. apply slots_mono. auto. Qed.


(** The slot [n] from the top. *)
Ltac stack_lookup :=
  cbn [c stack set_first set_heap stacked set_active with_stack set_globals];
  try (match goal with Hst : stack (c ?x) = _ |- context [stack (c ?x)] => rewrite Hst end); reflexivity.

(** Split the stack after [need]. *)
Ltac split_stack x n Hn :=
  lazymatch goal with
  | Hst : stack (c x) = _ |- _ => clear Hn
  | |- _ =>
      let Hst := fresh "Hst" in
      lazymatch n with
      | 1%nat => destruct (stack (c x)) as [|? ?] eqn:Hst
      | 2%nat => destruct (stack (c x)) as [|? [|? ?]] eqn:Hst
      | 3%nat => destruct (stack (c x)) as [|? [|? [|? ?]]] eqn:Hst
      end; cbn in Hn; try (exfalso; lia); clear Hn
  end.

Ltac xstep :=
  lazymatch goal with
  | |- xwp (xbind _ _) _ _ => apply xwp_bind
  | |- xwp (xret _) _ _ => apply xwp_ret
  | |- xwp malformed _ _ => exact I
  | |- xwp runtime_error _ _ => exact I
  | |- xwp (unless_malformed _) _ _ => apply xwp_unless_malformed; intros ?
  | |- xwp (unless_error _) _ _ => apply xwp_unless_error; intros ?
  | |- xwp get_context _ _ => apply xwp_get_context
  | |- xwp get_active _ _ => apply xwp_get_active
  | |- xwp get_ip _ _ => apply xwp_get_ip
  | |- xwp get_base _ _ => apply xwp_get_base
  | |- xwp (set_ip _) _ _ => apply xwp_set_ip
  | |- xwp (set_base _) _ _ => apply xwp_set_base
  | |- xwp (advance _) _ _ => apply xwp_advance
  | |- xwp (need ?n) _ _ =>
      let Hn := fresh "Hn" in apply xwp_need; intros Hn;
      cbn [c stack set_first set_heap stacked set_active with_stack set_globals] in Hn;
      lazymatch type of Hn with (_ <= length (stack (c ?x)))%nat => split_stack x n Hn | _ => idtac end
  | |- xwp (peek _) _ _ => eapply xwp_peek; [stack_lookup|]
  | |- xwp (value_at _) _ _ => eapply xwp_value_at; [stack_lookup|]
  | |- xwp (managed _) _ _ => eapply xwp_managed; [stack_lookup|intros ?]
  | |- xwp (unmanaged _) _ _ => eapply xwp_unmanaged; [stack_lookup|intros ?]
  | |- xwp (poke _ _) _ _ =>
      apply xwp_poke; cbn [c stack set_first set_heap stacked set_active with_stack set_globals];
      [try (match goal with Hst : stack (c ?x) = _ |- _ => rewrite Hst end); cbn; lia|]
  | |- xwp (set_value _ _) _ _ => eapply xwp_set_value; [stack_lookup|lia|]
  | |- xwp (pop _) _ _ => apply xwp_pop
  | |- xwp (push _) _ _ => apply xwp_push
  | |- xwp has_room _ _ => apply xwp_room; intros ? ?
  | |- xwp (heap_entry _) _ _ => apply xwp_heap_entry; intros ? ?
  | |- xwp (set_entry _ _) _ _ => apply xwp_set_entry
  | |- xwp (set_list _ _ _) _ _ => apply xwp_set_entry
  | |- xwp (modify_context _) _ _ => apply xwp_modify_context
  | |- xwp (modify_active _) _ _ => apply xwp_modify_active
  | |- xwp (if _ then _ else _) _ _ => apply xwp_if; intros ?
  | |- xwp (let (_, _) := ?p in _) _ _ => destruct p eqn:?
  | |- xwp ((fun _ => _) _) _ _ => cbv beta
  | |- (fun _ => _) _ _ => cbv beta
  end.
Ltac xsteps := repeat xstep.

Ltac stack_facts x :=
  let Hs := fresh "Hs" in
  pose proof (stack_slots x) as Hs;
  try (match goal with Hst : stack (c x) = _ |- _ => rewrite Hst in Hs end);
  repeat (let Ha := fresh "Ha" in apply slots_head in Hs as [Ha Hs]).

Ltac slots_tac :=
  repeat (apply slots_cons; [cbn; try done; try (intros; subst; naive_solver)|]); try done; try (apply slots_new; done).

Ltac stack_length x :=
  repeat (match goal with Hb : ?b = true, Hr : ?b = true -> wf x -> _, Hw : wf x |- _ => specialize (Hr Hb Hw) end);
  match goal with Hwf : wf x |- _ => destruct (wf_active_ok _ Hwf) as [_ ?Hlen] end;
  repeat (match goal with Hst : stack (c x) = _, Hl : context [length (stack (c x))] |- _ =>
            rewrite Hst in Hl; cbn [length] in Hl end);
  rewrite ?length_drop; cbn [length]; try lia.

(** The stack of the result from that of the context at the start. *)
Ltac show_stack :=
  cbn [context]; autorewrite with contexts;
  cbn [c stack set_first set_heap stacked set_active with_stack set_globals];
  try (match goal with Hst : stack (c ?x) = _ |- _ => rewrite Hst end);
  cbn [list_insert insert drop Nat.sub]; rewrite ?drop_0.

(** Commands that change the stack alone. *)
Ltac stack_command x :=
  xsteps; show_stack; match goal with Hwf : wf x |- _ => apply (wf_stacked x _ Hwf) end;
  [stack_facts x; slots_tac|stack_length x].

Section Commands.
Context `{Platform}.
Context (x : ExecutionContext) (ip base : Z) (Hwf : wf x).
Abbreviation here := (MkMachine x ip base).
Abbreviation safe m := (xwp m (fun _ m' => wf (context m')) here).

Lemma exec_pop_safe : safe exec_pop.
Proof. unfold exec_pop. stack_command x. Qed.

Lemma exec_dup_safe : safe exec_dup.
Proof. unfold exec_dup. stack_command x. Qed.

Lemma exec_swap_safe : safe exec_swap.
Proof. unfold exec_swap. stack_command x. Qed.

Lemma exec_rot3_safe : safe exec_rot3.
Proof. unfold exec_rot3. stack_command x. Qed.


(** *** Literals and arithmetic *)

(** A result that may be written over the slot [s]: the slot is not managed, or the
    result is null. *)
Definition may_hold (s : slot) (v : Value) : Prop := s.1 = true -> v = 0.

Lemma may_hold_reachable (s : slot) v : may_hold s v -> s.1 = true -> reachable x v.
Proof. intros Hm Hs. left. by apply Hm. Qed.

Lemma binary_safe f :
  (forall a b l, stack (c x) = b :: a :: l -> may_hold a (f a.2 b.2)) -> safe (binary f).
Proof.
  intros Hf. unfold binary. xsteps. show_stack. apply (wf_stacked x _ Hwf); [|stack_length x].
  stack_facts x. apply slots_cons; [|done]. cbn. apply may_hold_reachable. by eapply Hf.
Qed.

Lemma unary_safe f :
  (forall a l, stack (c x) = a :: l -> may_hold a (f a.2)) -> safe (unary f).
Proof.
  intros Hf. unfold unary. xsteps. show_stack. apply (wf_stacked x _ Hwf); [|stack_length x].
  stack_facts x. apply slots_cons; [|done]. cbn. apply may_hold_reachable. by eapply Hf.
Qed.

Lemma exec_slash_safe :
  (forall a b l, stack (c x) = b :: a :: l -> a.1 = false) -> safe exec_slash.
Proof.
  intros Hf. unfold exec_slash. xsteps. show_stack. apply (wf_stacked x _ Hwf); [|stack_length x].
  stack_facts x. apply slots_cons; [|done]. cbn. specialize (Hf _ _ _ eq_refl). congruence.
Qed.

Lemma exec_convert_safe f : safe (exec_convert f).
Proof.
  unfold exec_convert. xsteps. show_stack. apply (wf_stacked x _ Hwf); [|stack_length x].
  stack_facts x. apply slots_cons; [|done]. cbn. congruence.
Qed.

Lemma exec_assert_safe : safe exec_assert.
Proof. unfold exec_assert. stack_command x. Qed.

Lemma exec_null_safe command : safe (exec_null command).
Proof.
  unfold exec_null. xsteps. show_stack. apply (wf_stacked x _ Hwf); [|stack_length x].
  apply slots_cons; [by left|apply stack_slots].
Qed.

Lemma exec_numeric_literal_safe : code_available x ip 8 -> safe exec_numeric_literal.
Proof.
  intros Hc. unfold exec_numeric_literal. xsteps. apply xwp_operand; [done|]. xsteps. show_stack.
  apply (wf_stacked x _ Hwf); [|stack_length x]. apply slots_cons; [done|apply stack_slots].
Qed.

(** *** Jumps *)

Lemma jump_operand_safe (Q : Z -> Machine -> Prop) :
  code_available x ip 4 -> (forall d, Q d here) -> xwp jump_operand Q here.
Proof. intros Hc HQ. apply xwp_bind, xwp_code_bytes; [done|]. intros. apply xwp_ret, HQ. Qed.

Lemma exec_branch_safe : code_available x ip 4 -> safe exec_branch.
Proof. intros Hc. apply xwp_bind, jump_operand_safe; [done|]. intros d. by apply xwp_advance. Qed.
End Commands.

Lemma exec_if_safe `{Platform} x ip base :
  wf x -> code_available x ip 4 -> xwp exec_if (fun _ m' => wf (context m')) (MkMachine x ip base).
Proof.
  intros Hwf Hc. unfold exec_if. xsteps. apply jump_operand_safe; [done|]. intros d. xsteps. show_stack.
  apply (wf_stacked x _ Hwf); [stack_facts x; done|stack_length x].
Qed.

Lemma exec_logical_safe `{Platform} x ip base command :
  wf x -> code_available x ip 4 -> xwp (exec_logical command) (fun _ m' => wf (context m')) (MkMachine x ip base).
Proof.
  intros Hwf Hc. unfold exec_logical. xsteps. apply jump_operand_safe; [done|]. intros d. xsteps; [done|].
  show_stack. apply (wf_stacked x _ Hwf); [stack_facts x; done|stack_length x].
Qed.

(** *** Variables *)

Lemma slots_lookup P (l : list slot) n s : slots_ok P l -> l !! n = Some s -> s.1 = true -> P s.2.
Proof. intros Hl Hs. rewrite slots_ok_elem in Hl. destruct s as [[] v]; cbn; [|done]. intros _. by apply Hl, (list_elem_of_lookup_2 _ n). Qed.

Lemma slots_insert P (l : list slot) n s : slots_ok P l -> (s.1 = true -> P s.2) -> slots_ok P (<[n := s]> l).
Proof. intros Hl Hs. by apply Forall_insert. Qed.

Section Variables.
Context `{Platform}.
Context (x : ExecutionContext) (ip base : Z) (Hwf : wf x).
Abbreviation here := (MkMachine x ip base).
Abbreviation safe m := (xwp m (fun _ m' => wf (context m')) here).

Lemma local_lookup i s : below i (localVariableCount (c x)) = true -> localVariables (c x) !! Z.to_nat i = Some s ->
  s.1 = true -> reachable x s.2.
Proof.
  intros Hb Hs. apply (slots_lookup _ _ (Z.to_nat i) s (local_slots x)). rewrite lookup_take_lt; [done|].
  unfold below in Hb. lia.
Qed.

Lemma local_exists i : below i (localVariableCount (c x)) = true -> exists s, localVariables (c x) !! Z.to_nat i = Some s.
Proof.
  intros Hb. apply lookup_lt_is_Some_2. destruct (wf_active_ok _ Hwf) as [Hv _]. unfold below in Hb. lia.
Qed.

Lemma exec_variable_safe : code_available x ip 4 -> safe exec_variable.
Proof.
  intros Hc. unfold exec_variable. xsteps. apply xwp_operand; [done|]. xsteps.
  - destruct (globalVariables x !! _) as [s|] eqn:Hs; xsteps. show_stack.
    apply (wf_stacked x _ Hwf); [|stack_length x]. apply slots_cons; [|apply stack_slots].
    by apply (slots_lookup _ _ _ _ (global_slots x) Hs).
  - destruct (local_exists _ ltac:(eassumption)) as [s Hs].
    eapply xwp_lift; [exact Hs|]. xsteps. show_stack.
    apply (wf_stacked x _ Hwf); [|stack_length x]. apply slots_cons; [|apply stack_slots]. by eapply local_lookup.
Qed.

(** Writing a variable. *)
Lemma wf_globals l : slots_ok (reachable x) l -> wf (set_globals l x).
Proof.
  intros Hl. apply (wf_roots x); [done..| |apply Hwf]. intros r [Hr|Hr]%elem_roots; cbn in Hr.
  - by apply (proj1 (slots_ok_elem _ _) Hl).
  - right. apply reach_root, elem_roots. by right.
Qed.

Lemma wf_local i s :
  slots_ok (reachable x) [s] -> 
  wf (set_active (with_variables (<[Z.to_nat i := s]> (localVariables (c x))) (localVariableCount (c x)) (c x)) x).
Proof.
  intros Hs. destruct (wf_active_ok _ Hwf) as [Hv Hl]. apply slots_head in Hs as [Hs _]. apply wf_active; [done|..]; cbn.
  - split; cbn; [by rewrite length_insert|done].
  - destruct (decide (Z.to_nat i < Z.to_nat (localVariableCount (c x)))%nat).
    + rewrite take_insert_lt by lia. apply slots_insert; [apply local_slots|done].
    + rewrite take_insert_ge by lia. apply local_slots.
  - apply stack_slots.
Qed.

Lemma exec_equals_safe : code_available x ip 4 -> safe exec_equals.
Proof.
  intros Hc. unfold exec_equals. xsteps. apply xwp_operand; [done|]. xsteps.
  - destruct (globalVariables x !! _) as [[m v]|] eqn:Hv; xsteps. cbn [context]. stack_facts x.
    match goal with Hb : Bool.eqb ?m _ = true |- _ => apply eqb_prop in Hb; subst m end.
    set (y := set_globals _ x). assert (Hy : wf y) by by apply wf_globals, slots_insert; [apply global_slots|].
    assert (Hst' : stack (c y) = stack (c x)) by done. rewrite Hst in Hst'. rewrite Hst'.
    apply (wf_stacked y _ Hy); [stack_facts y; done|stack_length y].
  - destruct (local_exists _ ltac:(eassumption)) as [[m v] Hs]. eapply xwp_lift; [exact Hs|]. xsteps. cbn [context].
    stack_facts x. match goal with Hb : Bool.eqb ?m _ = true |- _ => apply eqb_prop in Hb; subst m end.
    set (y := set_active _ x). assert (Hy : wf y) by by apply wf_local, slots_cons; [|apply Forall_nil].
    assert (Hst' : stack (c y) = stack (c x)) by done. rewrite Hst in Hst'. rewrite Hst'.
    apply (wf_stacked y _ Hy); [stack_facts y; done|stack_length y].
Qed.
End Variables.

(** *** Scopes *)

Lemma le_combine_nonneg b : bytes_ok b -> 0 <= le_combine b.
Proof. intros Hb%le_combine_range. apply Hb. Qed.

Lemma bytes_ok_piece n m b : bytes_ok b -> bytes_ok (take n (drop m b)).
Proof. intros Hb. by apply Forall_take, Forall_drop. Qed.

(** The operand of [n] bytes at the instruction pointer. *)
Definition operand_at (x : ExecutionContext) (ip : Z) (n : nat) : Z :=
  le_combine (take n (drop (Z.to_nat ip) (functionData x))).

(** The flags of the variables of a block, whose number is at the instruction pointer. *)
Definition block_flags (x : ExecutionContext) (ip : Z) : bytes :=
  take (Z.to_nat (operand_at x ip 2)) (drop (Z.to_nat (ip + 2)) (functionData x)).

Section Scopes.
Context `{Platform}.
Context (x : ExecutionContext) (ip base : Z) (Hwf : wf x) (Hcode : bytes_ok (functionData x)).
Abbreviation here := (MkMachine x ip base).
Abbreviation safe m := (xwp m (fun _ m' => wf (context m')) here).

Lemma wf_variable_count n :
  0 <= n <= localVariableCount (c x) -> wf (set_active (with_variables (localVariables (c x)) n (c x)) x).
Proof.
  intros Hn. destruct (wf_active_ok _ Hwf) as [Hv Hl]. apply wf_active; [done|..]; cbn.
  - split; cbn; [lia|done].
  - pose proof (local_slots x) as Hs.
    replace (Z.to_nat n) with (Z.to_nat n `min` Z.to_nat (localVariableCount (c x)))%nat by lia.
    rewrite <- take_take. by apply Forall_take.
  - apply stack_slots.
Qed.

Lemma exec_exit_scope_safe : code_available x ip 2 -> safe exec_exit_scope.
Proof.
  intros Hc. unfold exec_exit_scope. xsteps. apply xwp_operand; [done|]. xsteps. cbn [context].
  apply wf_variable_count. pose proof (le_combine_nonneg _ (bytes_ok_piece 2 (Z.to_nat ip) _ Hcode)). lia.
Qed.

(** The arguments of a function that are managed are passed as managed values. *)
Definition arguments_match : Prop :=
  forall k f s, block_flags x ip !! k = Some f -> stack (c x) !! k = Some s -> f <> 0 -> s.1 = true.

Lemma block_variables body flags n :
  length flags = n -> (n <= length (stack (c x)))%nat \/ body = false ->
  (body = true -> forall k f s, flags !! k = Some f -> stack (c x) !! k = Some s -> f <> 0 -> s.1 = true) ->
  let l := zip_with (fun f v => (negb (f =? 0), v)) flags (if body then map snd (take n (stack (c x))) else repeat 0 n) in
  length l = n /\ slots_ok (reachable x) l.
Proof.
  intros Hf Hn Hm l. split.
  { unfold l. rewrite length_zip_with, Hf. destruct body.
    - rewrite length_map, length_take. destruct Hn; [lia|done].
    - rewrite repeat_length. lia. }
  apply slots_ok_elem. intros v (k & Hk)%list_elem_of_lookup. unfold l in Hk.
  rewrite lookup_zip_with_Some in Hk. destruct Hk as (f & w & Heq & Hfk & Hw). injection Heq as Hb ->. symmetry in Hb.
  apply negb_true_iff, Z.eqb_neq in Hb. destruct body.
  - apply list_lookup_fmap_Some in Hw as (s & -> & Hs). apply lookup_take_Some in Hs as [Hs _].
    by apply (slots_lookup _ _ _ _ (stack_slots x) Hs), (Hm eq_refl k f).
  - left. apply lookup_lt_Some in Hw as Hlt. rewrite repeat_length in Hlt.
    assert (Hr : w ∈ repeat 0 n) by by eapply list_elem_of_lookup_2. apply list_elem_of_In, repeat_spec in Hr. done.
Qed.

Lemma exec_block_safe body :
  code_available x ip 2 -> code_available x (ip + 2) (Z.to_nat (operand_at x ip 2)) ->
  (body = true -> arguments_match) -> safe (exec_block body).
Proof.
  intros Hc Hc' Hargs. unfold exec_block. xsteps. apply xwp_operand; [done|]. fold (operand_at x ip 2).
  pose proof (le_combine_nonneg _ (bytes_ok_piece 2 (Z.to_nat ip) _ Hcode) : 0 <= operand_at x ip 2) as Hpos.
  xsteps. apply xwp_code_bytes; [done|]. intros flags Hlen Hflags. fold (block_flags x ip) in Hflags. xsteps.
  cbn [context]. destruct (wf_active_ok _ Hwf) as [Hv Hl].
  set (n := Z.to_nat (operand_at x ip 2)) in *. set (k := Z.to_nat (localVariableCount (c x))).
  destruct (block_variables body flags n Hlen) as [Hvl Hvs].
  { destruct body; [left|by right]. match goal with Hb : _ && _ = false |- _ => apply Nat.ltb_ge in Hb; done end. }
  { intros Hb. rewrite Hflags. by apply Hargs. }
  revert Hvl Hvs. set (l := zip_with _ _ _). intros Hvl Hvs.
  assert (Hk : length (take k (localVariables (c x))) = k) by (rewrite length_take; lia).
  apply wf_active; [done|..]; cbn.
  - split; cbn.
    + rewrite !length_app, Hk, Hvl, length_drop. lia.
    + destruct body; rewrite ?length_drop; lia.
  - replace (Z.to_nat (localVariableCount (c x) + operand_at x ip 2)) with (k + n)%nat by lia.
    rewrite app_assoc, take_app_le by (rewrite length_app, Hk, Hvl; lia).
    rewrite take_ge by (rewrite length_app, Hk, Hvl; lia). apply Forall_app. split; [apply local_slots|done].
  - destruct body; [apply Forall_drop|]; apply stack_slots.
Qed.

(** *** The end of a function *)

Lemma wf_backTrace y l : wf y -> wf (set_active (with_backTrace l (c y)) y).
Proof.
  intros Hy. apply wf_active; [done|by apply wf_active_ok|apply local_slots|apply stack_slots].
Qed.

Lemma leave_safe y item rest (Q : unit -> Machine -> Prop) i j :
  wf y -> (forall z i j, wf z -> Q tt (MkMachine z i j)) -> xwp (leave item rest) Q (MkMachine y i j).
Proof. intros Hy HQ. unfold leave. xsteps. apply HQ. by apply wf_backTrace. Qed.

Lemma use_result_safe y item (Q : unit -> Machine -> Prop) i j :
  wf y -> (forall z, wf z -> Q tt (MkMachine z i j)) -> xwp (use_result item) Q (MkMachine y i j).
Proof.
  intros Hy HQ. unfold use_result. xsteps; apply HQ; try done; show_stack.
  all: apply (wf_stacked y _ Hy); [stack_facts y; done|stack_length y].
Qed.

Lemma finish_function_safe external (Q : bool -> Machine -> Prop) :
  0 <= base + 1 <= localVariableCount (c x) ->
  (forall b y i j, wf y -> Q b (MkMachine y i j)) -> xwp (finish_function external) Q here.
Proof.
  intros Hb HQ. unfold finish_function. xsteps. set (y := set_active _ x).
  assert (Hy : wf y) by by apply wf_variable_count. clearbody y.
  destruct (backTrace (c y)) as [|item rest] eqn:Hbt; [by xsteps; apply HQ|]. xsteps.
  - apply leave_safe; [done|]. intros z i j Hz. apply use_result_safe; [done|]. intros z' Hz'. xsteps. by apply HQ.
  - apply use_result_safe; [done|]. intros z Hz. apply leave_safe; [done|]. intros z' i j Hz'. xsteps. by apply HQ.
Qed.
End Scopes.

(** *** Structures and lists *)

Lemma managed_fields_lookup fields flags k v :
  fields !! k = Some v -> flags !! k = Some true -> v ∈ managed_fields fields flags.
Proof.
  revert flags k. induction fields as [|w fields IH]; intros [|b flags] [|k]; try done; cbn; intros Hv Hb.
  - simplify_eq. set_solver.
  - apply elem_of_app. right. by eapply IH.
Qed.

Lemma managed_fields_insert fields flags k w b v :
  v ∈ managed_fields (<[k := w]> fields) (<[k := b]> flags) -> (b = true /\ v = w) \/ v ∈ managed_fields fields flags.
Proof.
  revert flags k. induction fields as [|w0 fields IH]; intros [|b0 flags] [|k]; try (cbn; tauto).
  - cbn. rewrite !elem_of_app. destruct b; intros [Hv|Hv]; try tauto.
    + apply list_elem_of_singleton in Hv. tauto.
    + by apply elem_of_nil in Hv.
  - change (<[S k := w]> (w0 :: fields)) with (w0 :: <[k := w]> fields).
    change (<[S k := b]> (b0 :: flags)) with (b0 :: <[k := b]> flags). cbn. rewrite !elem_of_app.
    intros [Hv|[Hv|Hv]%IH]; tauto.
Qed.

Section Mutation.
Context `{Platform}.
Context (x : ExecutionContext) (ip base : Z) (Hwf : wf x).
Abbreviation here := (MkMachine x ip base).
Abbreviation safe m := (xwp m (fun _ m' => wf (context m')) here).

Lemma child_reachable i e v : reachable x i -> entry_at (heap x) i = Some e -> v ∈ entry_children e -> reachable x v.
Proof. intros Hi He Hv. apply (reachable_step x i); [apply Hwf|done|]. by exists e. Qed.

Lemma items_reachable i e items a :
  reachable x i -> entry_at (heap x) i = Some e -> contents e = PList items a -> internalValuesAreManaged e = true ->
  forall v, v ∈ items -> reachable x v.
Proof.
  intros Hi He Hc Hm v Hv. apply (child_reachable i e); [done..|]. unfold entry_children. rewrite Hc, Hm. done.
Qed.

Lemma xwp_read_list n (s : slot) (Q : Z * list Value * Z * bool -> Machine -> Prop) :
  stack (c x) !! (n - 1)%nat = Some s ->
  (forall e items a, entry_at (heap x) s.2 = Some e -> contents e = PList items a ->
     Q (s.2, items, a, internalValuesAreManaged e) here) -> xwp (read_list n) Q here.
Proof.
  intros Hs HQ. unfold read_list. xstep. eapply xwp_value_at; [done|]. xsteps.
  destruct (contents e) eqn:Hc; try exact I. apply xwp_ret. by eapply HQ.
Qed.

(** The list of the slot [s] gets other items. *)
Lemma wf_list i e items a items' a' l :
  reachable x i -> entry_at (heap x) i = Some e -> contents e = PList items a ->
  Z.of_nat (length items') <= a' <= 2000000000 ->
  (internalValuesAreManaged e = true -> forall v, v ∈ items' -> v = 0 \/ v ∈ items \/ reachable x v) ->
  slots_ok (reachable x) l -> (length l <= 50)%nat ->
  wf (stacked l (set_heap (update_entry i (set_contents (PList items' a')) (heap x)) x)).
Proof.
  intros Hi He Hc Hlen Hv Hl Hn. apply (wf_mutated x i e); [done|done| |done| | |done..].
  - by rewrite Hc.
  - done.
  - intros j Hj. unfold entry_children in Hj. cbn in Hj. destruct (internalValuesAreManaged e) eqn:Hm; [|by apply elem_of_nil in Hj].
    destruct (Hv eq_refl j Hj) as [->|[Hj'|]]; [by left| |done]. by eapply items_reachable.
Qed.

Lemma list_capacity i e items a :
  reachable x i -> entry_at (heap x) i = Some e -> contents e = PList items a -> Z.of_nat (length items) <= a <= 2000000000.
Proof. intros Hi He Hc. pose proof (wf_entries _ Hwf i e Hi He) as Hok. by rewrite Hc in Hok. Qed.
End Mutation.

Ltac read_list_step := eapply xwp_read_list; [stack_lookup|intros ? ? ? ? ?].
Ltac mstep := first [xstep | read_list_step | lazymatch goal with |- xwp (xassert _) _ _ => apply xwp_assert end].
Ltac slot_reachable x := stack_facts x; auto.


(** The end of a command that changes the items of a list. *)
Ltac list_result x :=
  show_stack; rewrite ?update_update; stack_facts x;
  match goal with
  | Hwf : wf x, He : entry_at (heap x) ?i = Some ?e, Hc : contents ?e = PList ?items ?a |- _ =>
      assert (Hr : reachable x i) by auto;
      pose proof (list_capacity x Hwf i e items a Hr He Hc);
      apply (wf_list x Hwf i e items a); [exact Hr|exact He|exact Hc| | |slots_tac|stack_length x]
  end.

(** An item of a list that was read is put on the stack. *)
Lemma item_reachable `{Platform} x i e items a (k : nat) v :
  wf x -> reachable x i -> entry_at (heap x) i = Some e -> contents e = PList items a -> items !! k = Some v ->
  internalValuesAreManaged e = true -> reachable x v.
Proof. intros Hwf Hi He Hc Hk Hm. eapply items_reachable; [done..|]. by eapply list_elem_of_lookup_2. Qed.

Lemma below_lookup {A} (l : list A) i : below i (Z.of_nat (length l)) = true -> exists v, l !! Z.to_nat i = Some v.
Proof. intros Hb. apply lookup_lt_is_Some_2. unfold below in Hb. lia. Qed.

Lemma elem_insert {A} (l : list A) k w v : v ∈ <[k := w]> l -> v = w \/ v ∈ l.
Proof.
  intros (j & Hj)%list_elem_of_lookup. destruct (decide (k = j)) as [->|Hne].
  - apply list_lookup_insert_Some in Hj as [(_ & -> & _)|[]]; [by left|done].
  - rewrite list_lookup_insert_ne in Hj by done. right. by eapply list_elem_of_lookup_2.
Qed.

Lemma elem_take {A} (l : list A) n v : v ∈ take n l -> v ∈ l.
Proof. intros (j & [Hj _]%lookup_take_Some)%list_elem_of_lookup. by eapply list_elem_of_lookup_2. Qed.
Lemma elem_drop {A} (l : list A) n v : v ∈ drop n l -> v ∈ l.
Proof. intros (j & Hj)%list_elem_of_lookup. rewrite lookup_drop in Hj. by eapply list_elem_of_lookup_2. Qed.
Lemma elem_repeat {A} (w : A) n v : v ∈ repeat w n -> v = w.
Proof. intros Hv%list_elem_of_In. by apply repeat_spec in Hv. Qed.
Ltac elem_tac :=
  let v := fresh "v" in let Hv := fresh "Hv" in
  intros ? v Hv; rewrite ?elem_of_app, ?elem_of_cons, ?elem_of_nil in Hv;
  repeat (match type of Hv with _ \/ _ => destruct Hv as [Hv|Hv] end);
  first [by destruct Hv | apply elem_take in Hv; tauto | apply elem_drop in Hv; tauto
        | apply elem_repeat in Hv; tauto | subst; tauto | naive_solver].

Section Lists.
Context `{Platform}.
Context (x : ExecutionContext) (ip base : Z) (Hwf : wf x).
Abbreviation here := (MkMachine x ip base).
Abbreviation safe m := (xwp m (fun _ m' => wf (context m')) here).

Lemma exec_index_list_safe : safe exec_index_list.
Proof.
  unfold exec_index_list. repeat mstep. destruct (below_lookup _ _ ltac:(eassumption)) as [v Hv].
  eapply xwp_lift; [exact Hv|]. xsteps. show_stack. stack_facts x. apply (wf_stacked x _ Hwf); [|stack_length x].
  apply slots_cons; [|done]. cbn. eapply item_reachable; [done| |done..]. auto.
Qed.

Lemma exec_first_last_safe command : safe (exec_first_last command).
Proof.
  unfold exec_first_last. repeat mstep.
  destruct (lookup_lt_is_Some_2 items (if (command =? T_OP_FIRST)%Z then 0 else length items - 1)%nat) as [v Hv].
  { match goal with Hb : negb _ = true |- _ => apply negb_true_iff, Nat.eqb_neq in Hb end. case_match; lia. }
  eapply xwp_lift; [exact Hv|]. xsteps. show_stack. stack_facts x. apply (wf_stacked x _ Hwf); [|stack_length x].
  apply slots_cons; [|done]. cbn. eapply item_reachable; [done| |done..]. auto.
Qed.

Lemma exec_equals_list_safe : safe exec_equals_list.
Proof.
  unfold exec_equals_list. repeat mstep. list_result x.
  - rewrite length_insert. lia.
  - match goal with Hb : Bool.eqb _ _ = true |- _ => apply eqb_prop in Hb end.
    intros Hm v Hv%elem_insert. naive_solver.
Qed.

Lemma exec_resize_safe : safe exec_resize.
Proof.
  unfold exec_resize. repeat mstep. list_result x; unfold length_ok in *.
  - rewrite length_app, length_take, repeat_length. lia.
  - elem_tac.
Qed.

Lemma grown_ok n a : n = a + 1 \/ n <= a -> 1 <= n < 1000000000 -> 0 <= a <= 2000000000 ->
  n <= grown n a <= 2000000000.
Proof.
  intros. unfold grown. destruct (Z.ltb_spec a n); [|lia]. destruct (Z.eqb_spec a 0); [lia|].
  unfold u32, wrap. rewrite Z.mod_small; lia.
Qed.

Lemma grown_list i e items a :
  reachable x i -> entry_at (heap x) i = Some e -> contents e = PList items a ->
  length_ok (Z.of_nat (length items) + 1) = true ->
  Z.of_nat (length items) + 1 <= grown (Z.of_nat (length items) + 1) a <= 2000000000.
Proof.
  intros Hi He Hc Hl. pose proof (list_capacity x Hwf i e items a Hi He Hc). unfold length_ok in Hl.
  apply grown_ok; lia.
Qed.

Lemma exec_add_safe : safe exec_add.
Proof.
  unfold exec_add. repeat mstep; stack_facts x.
  - apply Z.leb_le. eapply grown_list; eauto.
  - list_result x.
    + rewrite length_app. cbn. pose proof (grown_list _ _ _ _ Hr ltac:(eassumption) ltac:(eassumption) ltac:(eassumption)). lia.
    + match goal with Hb : Bool.eqb _ _ = true |- _ => apply eqb_prop in Hb end. elem_tac.
Qed.

Lemma exec_insert_safe : safe exec_insert.
Proof.
  unfold exec_insert. repeat mstep; stack_facts x.
  - apply Z.leb_le. eapply grown_list; eauto.
  - list_result x.
    + rewrite length_app, length_take. cbn [length]. rewrite length_drop.
      pose proof (grown_list _ _ _ _ Hr ltac:(eassumption) ltac:(eassumption) ltac:(eassumption)). lia.
    + match goal with Hb : Bool.eqb _ _ = true |- _ => apply eqb_prop in Hb end. elem_tac.
Qed.

(** The capacity after several items are inserted. *)
Lemma inserted_capacity len n a :
  0 <= len <= a -> 0 <= n -> length_ok n = true -> a <= 2000000000 ->
  n <= (if a <? n then if (if a =? 0 then 4 else u32 (a * 2)) <? n then n + 5 else (if a =? 0 then 4 else u32 (a * 2)) else a) <= 2000000000.
Proof.
  intros. unfold length_ok in *. destruct (Z.ltb_spec a n); [|lia].
  destruct (Z.eqb_spec a 0).
  - destruct (Z.ltb_spec 4 n); lia.
  - unfold u32, wrap. rewrite Z.mod_small by lia. destruct (Z.ltb_spec (a * 2) n); lia.
Qed.

Lemma s64_range v : - 2 ^ 63 <= s64 v < 2 ^ 63.
Proof. unfold s64, swrap. pose proof (Z.mod_pos_bound (v + 2 ^ (64 - 1)) (2 ^ 64)). lia. Qed.

(** A sum or difference of a length and a count that passes the check did not wrap. *)
Lemma s64_sum a b : 0 <= a < 2 ^ 32 -> - 2 ^ 63 <= b < 2 ^ 63 -> length_ok (s64 (a + b)) = true -> s64 (a + b) = a + b.
Proof.
  intros Ha Hb Hl. unfold length_ok in Hl. revert Hl. unfold s64, swrap. replace (64 - 1) with 63 by lia.
  destruct (decide (a + b < 2 ^ 63)); [rewrite Z.mod_small by lia; lia|].
  rewrite <- (Z.mod_unique (a + b + 2 ^ 63) (2 ^ 64) 1 (a + b + 2 ^ 63 - 2 ^ 64)) by lia. lia.
Qed.

Lemma insert_many_ok i e items a v (n := s64 (Z.of_nat (length items) + s64 v)) :
  reachable x i -> entry_at (heap x) i = Some e -> contents e = PList items a -> length_ok n = true ->
  n = Z.of_nat (length items) + s64 v /\
  n <= (if a <? n then if (if a =? 0 then 4 else u32 (a * 2)) <? n then n + 5 else (if a =? 0 then 4 else u32 (a * 2)) else a) <= 2000000000.
Proof.
  intros Hi He Hc Hl. pose proof (list_capacity x Hwf i e items a Hi He Hc).
  split; [apply s64_sum; [lia|apply s64_range|done]|]. apply (inserted_capacity (Z.of_nat (length items))); try done; try lia.
  unfold length_ok in Hl. lia.
Qed.

Lemma exec_insert_many_safe : safe exec_insert_many.
Proof.
  unfold exec_insert_many. repeat mstep; stack_facts x.
  - apply Z.leb_le. eapply insert_many_ok; eauto.
  - list_result x; [|elem_tac]. rewrite !length_app, length_take, repeat_length, length_drop.
    destruct (insert_many_ok _ _ _ _ _ Hr ltac:(eassumption) ltac:(eassumption) ltac:(eassumption)). lia.
Qed.

Lemma exec_delete_safe command : safe (exec_delete command).
Proof.
  unfold exec_delete. destruct (command =? T_OP_DELETE); repeat mstep.
  - list_result x; [|elem_tac]. rewrite length_app, length_take, length_drop. lia.
  - list_result x; [|elem_tac]. rewrite length_app, length_take, length_drop.
    match goal with Hl : length_ok (s64 (_ - s64 ?v)) = true |- _ =>
      pose proof (s64_range v); pose proof (s64_sum (Z.of_nat (length items)) (- s64 v) ltac:(lia) ltac:(lia) Hl) as Hsum end.
    lia.
Qed.

Lemma exec_delete_all_safe : safe exec_delete_all.
Proof. unfold exec_delete_all. repeat mstep. list_result x; [cbn; lia|]. by intros _ v ?%elem_of_nil. Qed.
End Lists.

(** *** Fields *)

Section Structures.
Context `{Platform}.
Context (x : ExecutionContext) (ip base : Z) (Hwf : wf x).
Abbreviation here := (MkMachine x ip base).
Abbreviation safe m := (xwp m (fun _ m' => wf (context m')) here).

Lemma struct_flags i e fields flags :
  reachable x i -> entry_at (heap x) i = Some e -> contents e = PStruct fields flags -> length flags = length fields.
Proof. intros Hi He Hc. pose proof (wf_entries _ Hwf i e Hi He) as Hok. by rewrite Hc in Hok. Qed.

Lemma exec_dot_safe : code_available x ip 2 -> safe exec_dot.
Proof.
  intros Hcode. unfold exec_dot. repeat mstep. destruct (contents e) eqn:Hc; try exact I. stack_facts x.
  assert (Hr : reachable x p.2) by auto. pose proof (struct_flags _ _ _ _ Hr ltac:(eassumption) Hc).
  xstep. apply xwp_operand; [done|]. xsteps. destruct (below_lookup _ _ ltac:(eassumption)) as [v Hv].
  destruct (lookup_lt_is_Some_2 managed (Z.to_nat z)) as [flag Hflag].
  { apply lookup_lt_Some in Hv. lia. }
  eapply xwp_lift; [exact Hv|]. xstep. eapply xwp_lift; [exact Hflag|]. xsteps. show_stack.
  apply (wf_stacked x _ Hwf); [|stack_length x]. apply slots_cons; [|done]. cbn. intros ->.
  match goal with Hb : _ || _ = true |- _ => apply orb_prop in Hb as [Hb%eqb_prop|[Hz%Z.eqb_eq _]%andb_prop] end.
  - eapply child_reachable; [done..|]. unfold entry_children. rewrite Hc. cbn. subst flag. by eapply managed_fields_lookup.
  - by left.
Qed.

Lemma exec_equals_dot_safe : code_available x ip 4 -> safe exec_equals_dot.
Proof.
  intros Hcode. unfold exec_equals_dot. repeat mstep. destruct (contents e) eqn:Hc; try exact I. stack_facts x.
  assert (Hr : reachable x p.2) by auto. pose proof (struct_flags _ _ _ _ Hr ltac:(eassumption) Hc).
  xstep. apply xwp_operand; [done|]. xsteps. show_stack. rewrite update_update.
  match goal with Hb : Bool.eqb _ _ = true |- _ => apply eqb_prop in Hb as -> end.
  apply (wf_mutated x p.2 e); [done|done| |done| | |slots_tac|stack_length x].
  - by rewrite Hc.
  - cbn. by rewrite !length_insert.
  - intros j Hj. unfold entry_children in Hj. cbn in Hj. apply managed_fields_insert in Hj as [[Hm ->]|Hj]; [auto|].
    eapply child_reachable; [done..|]. unfold entry_children. by rewrite Hc.
Qed.

(** *** Searching *)

Lemma find_value_lt v l i k : find_value v l i = Some k -> (i <= k < i + length l)%nat.
Proof.
  revert i. induction l as [|w l IH]; intros i; cbn; [done|]. destruct (w =? v); [intros [= <-]; lia|].
  intros Hk%IH. lia.
Qed.
End Structures.

(** *** Strings *)

(** [y] is [x] after the conversion of concatenations. *)
Record converts (x y : ExecutionContext) : Prop := {
  cv_context : y = set_heap (heap y) x;
  cv_wf : wf y;
  cv_same : forall j e, entry_at (heap x) j = Some e -> is_concat e = false -> entry_at (heap y) j = Some e;
  cv_stands : forall j s, stands_for (heap x) j s -> stands_for (heap y) j s;
}.

Lemma converts_refl x : wf x -> converts x x.
Proof. intros Hwf. split; [by destruct x|done..]. Qed.

Lemma converts_trans x y z : converts x y -> converts y z -> converts x z.
Proof.
  intros [Hc1 Hw1 Hs1 Ht1] [Hc2 Hw2 Hs2 Ht2]. split; [|done|eauto..]. by rewrite Hc2, Hc1.
Qed.

Lemma converts_stack x y : converts x y -> stack (c y) = stack (c x).
Proof. intros Hc. by rewrite (cv_context _ _ Hc). Qed.

Lemma converts_roots x y : converts x y -> roots y = roots x.
Proof. intros Hc. by rewrite (cv_context _ _ Hc). Qed.

Definition is_string (p : payload) : bool := match p with PEof | PStr _ | PConcat _ _ _ => true | _ => false end.

Lemma string_stands x i e :
  wf x -> reachable x i -> entry_at (heap x) i = Some e -> is_string (contents e) = true -> exists s, stands_for (heap x) i s.
Proof.
  intros Hwf Hi He Hs. pose proof (wf_entries _ Hwf i e Hi He) as Hok. destruct (contents e) eqn:Hc; try done.
  - exists [], 0%nat. by eapply den_eof.
  - exists text, 0%nat. by eapply den_str.
Qed.

Section Strings.
Context `{Platform}.
Context (x : ExecutionContext) (ip base : Z) (Hwf : wf x).
Abbreviation here := (MkMachine x ip base).

Lemma xwp_to_string i s (Q : bytes -> Machine -> Prop) :
  stands_for (heap x) i s -> (forall y, converts x y -> Q s (MkMachine y ip base)) -> xwp (to_string i) Q here.
Proof.
  intros [n Hn] HQ. unfold to_string. xstep. xstep. xstep. rewrite (ToString_spec fresh _ _ _ _ Hn). xsteps.
  apply HQ. destruct n as [|n]; cbn [Nat.ltb Nat.leb context].
  { replace (set_heap (heap x) x) with x by by destruct x. by apply converts_refl. }
  destruct (denotes_entry _ _ _ _ Hn) as (e & He & _ & Hc & _). pose proof (entry_at_range _ _ _ He).
  split; [done|by eapply wf_convert| |].
  - cbn. intros j ej Hej Hnc. unfold converted. rewrite entry_at_update_ne; [done|lia|]. intros <-.
    assert (ej = e) as -> by congruence. by rewrite Hc in Hnc.
  - intros j t [m Hm].
    destruct (denotes_convert (heap x) i s _ e (ex_intro _ _ Hn) He eq_refl _ _ _ Hm) as (m' & _ & ?). by exists m'.
Qed.

Lemma xwp_read_string n (Q : bytes -> Machine -> Prop) :
  (1 <= n)%nat ->
  (forall text y, (n <= length (stack (c x)))%nat -> converts x y -> Q text (MkMachine y ip base)) -> xwp (read_string n) Q here.
Proof.
  intros Hn HQ. unfold read_string. xstep. apply xwp_need. intros Hle.
  destruct (lookup_lt_is_Some_2 (stack (c x)) (n - 1)) as [s Hs]; [lia|].
  xstep. eapply xwp_managed; [done|]. intros Hm. xstep. eapply xwp_value_at; [done|]. xsteps.
  destruct (string_stands x s.2 e) as [t Ht]; [done| |done| |].
  - by apply (slots_lookup _ _ _ _ (stack_slots x) Hs).
  - unfold entry_type in *. by destruct (contents e).
  - apply (xwp_to_string _ _ _ Ht). intros y Hy. by apply HQ.
Qed.
End Strings.

(** Read a string and go on in the converted context. *)
Ltac string_step x y :=
  let Hy := fresh "Hy" in let Hst' := fresh "Hst" in
  match goal with Hwf : wf x |- _ => apply (xwp_read_string x _ _ Hwf); [lia|] end;
  intros ? y ? Hy; pose proof (cv_wf _ _ Hy); pose proof (converts_stack _ _ Hy) as Hst';
  try (match goal with Hst : stack (c x) = _ |- _ => rewrite Hst in Hst' end).

Section StringCommands.
Context `{Platform}.
Context (x : ExecutionContext) (ip base : Z) (Hwf : wf x).
Abbreviation here := (MkMachine x ip base).
Abbreviation safe m := (xwp m (fun _ m' => wf (context m')) here).

Lemma exec_str_compare_safe command : safe (exec_str_compare command).
Proof.
  unfold exec_str_compare. xstep. string_step x y. xstep. string_step y z.
  destruct (stack (c x)) as [|s1 [|s2 st]] eqn:Hx; [cbn in *; lia..|].
  xsteps. show_stack. apply wf_stacked; [done| |stack_length z]. stack_facts z. slots_tac.
Qed.

Lemma exec_len_safe : safe exec_len.
Proof.
  unfold exec_len. repeat mstep.
  assert (Hstr : xwp (let* text := read_string 1 in poke 1 (false, Z.of_nat (length text))) (fun _ m' => wf (context m')) here).
  { xstep. string_step x y. xsteps. show_stack. apply wf_stacked; [done| |stack_length y]. stack_facts y. slots_tac. }
  destruct (contents e) eqn:Hc; try exact Hstr. xsteps. show_stack.
  apply wf_stacked; [done| |stack_length x]. stack_facts x. slots_tac.
Qed.
End StringCommands.

(** *** Commands that allocate *)

Ltac allocate_step x :=
  match goal with Hwf : wf x |- _ => apply (xwp_allocate x _ _ _ Hwf) end;
  let i := fresh "i" in let first := fresh "first" in let h := fresh "h" in let Hal := fresh "Hal" in
  intros i first h Hal.

(** The end of such a command: what is left is that the new entry is consistent, refers to
    what can be reached, and the slots of the stack. *)
Ltac filled x :=
  show_stack;
  match goal with
  | Hwf : wf x, Hal : allocated x ?i (set_first ?first (set_heap ?h x))
    |- wf (stacked ?l (set_first ?first (set_heap (update_entry ?i ?f ?h) x))) =>
      apply (wf_filled x i first h f l Hwf Hal); [by intros e| | | |try stack_length x]
  end.

Lemma new_slot x i l : slots_ok (reachable x) l -> slots_ok (fun v => v = i \/ reachable x v) ((true, i) :: l).
Proof. intros Hl. apply slots_cons; [by left|by apply slots_new]. Qed.

Lemma elem_inside (b : bool) (v j : Z) : j ∈ (if b then [v] else []) -> b = true /\ j = v.
Proof. destruct b; [by intros ->%list_elem_of_singleton|by intros ?%elem_of_nil]. Qed.

Lemma managed_fields_none n : managed_fields (repeat 0 n) (repeat false n) = [].
Proof. by induction n. Qed.

Section Allocation.
Context `{Platform}.
Context (x : ExecutionContext) (ip base : Z) (Hwf : wf x).
Abbreviation here := (MkMachine x ip base).
Abbreviation safe m := (xwp m (fun _ m' => wf (context m')) here).

Lemma exec_string_literal_safe :
  code_available x ip 4 -> code_available x (ip + 4) (Z.to_nat (operand_at x ip 4)) -> safe exec_string_literal.
Proof.
  intros Hc Hc'. unfold exec_string_literal. xsteps. apply xwp_operand; [done|]. fold (operand_at x ip 4). xsteps.
  allocate_step x. xsteps. apply xwp_code_bytes; [done|]. intros text _ _. xsteps. filled x.
  - by intros e j ?%elem_of_nil.
  - done.
  - apply new_slot, stack_slots.
Qed.

Lemma exec_err_cast_safe : safe exec_err_cast.
Proof.
  unfold exec_err_cast. xsteps. allocate_step x. xsteps. stack_facts x. filled x.
  - intros e j Hj. destruct (elem_inside _ _ _ Hj) as [Hm ->]. right. auto.
  - done.
  - by apply new_slot.
Qed.

Lemma exec_anytype_cast_safe :
  code_available x ip 8 ->
  (forall s l, stack (c x) = s :: l -> ASTIsManagedType (type_at (operand_at x ip 8)) = true -> s.1 = true) ->
  safe exec_anytype_cast.
Proof.
  intros Hc Hy. unfold exec_anytype_cast. xsteps. allocate_step x. xsteps. apply xwp_operand; [done|].
  xsteps. stack_facts x. filled x.
  - intros e j Hj. destruct (elem_inside _ _ _ Hj) as [Hm ->]. right. apply Ha. by eapply Hy.
  - done.
  - by apply new_slot.
Qed.

Lemma exec_new_safe : code_available x ip 2 -> safe exec_new.
Proof.
  intros Hc. unfold exec_new. xsteps. apply xwp_operand; [done|]. xsteps. allocate_step x.
  pose proof (stack_slots x) as Hs. xsteps.
  - filled x; [|cbn; by rewrite !repeat_length|by apply new_slot].
    intros e j Hj. exfalso. unfold entry_children in Hj. cbn in Hj. rewrite managed_fields_none in Hj. by apply elem_of_nil in Hj.
  - filled x; [|done|by apply new_slot]. intros e j Hj. exfalso. unfold entry_children in Hj. cbn in Hj. case_match; by apply elem_of_nil in Hj.
  - show_stack. rewrite update_compose. stack_facts x. filled x.
    + intros e j ->%list_elem_of_singleton. right. auto.
    + done.
    + by apply new_slot.
Qed.

Lemma exec_index_safe : safe exec_index.
Proof.
  unfold exec_index. xsteps. string_step x y. xsteps. destruct (below_lookup _ _ ltac:(eassumption)) as [b Hb].
  eapply xwp_lift; [exact Hb|]. xsteps. allocate_step y. xsteps. stack_facts y. filled y.
  - by intros e j ?%elem_of_nil.
  - done.
  - by apply new_slot.
Qed.

Lemma read_error_safe n (s : slot) (Q : option (bool * Value * bool) -> Machine -> Prop) :
  stack (c x) !! (n - 1)%nat = Some s -> s.1 = true ->
  (Q None here) ->
  (forall b v flag e, entry_at (heap x) s.2 = Some e -> contents e = PErr b v -> internalValuesAreManaged e = flag ->
     (flag = true -> reachable x v) -> Q (Some (b, v, flag)) here) -> xwp (read_error n) Q here.
Proof.
  intros Hs Hm HQ0 HQ. unfold read_error. xstep. eapply xwp_value_at; [done|]. xsteps; [done|].
  destruct (contents e) eqn:Hc; try exact I. apply xwp_ret. eapply HQ; [done..|]. intros Hf.
  eapply child_reachable; [done| |done|].
  - by apply (slots_lookup _ _ _ _ (stack_slots x) Hs).
  - unfold entry_children. rewrite Hc. cbn. rewrite Hf. set_solver.
Qed.

Lemma exec_success_safe : safe exec_success.
Proof.
  unfold exec_success. xsteps. eapply read_error_safe; [stack_lookup|done|..]; intros; xsteps; show_stack;
    (apply wf_stacked; [done| |stack_length x]; stack_facts x; slots_tac).
Qed.

Lemma exec_assert_err_safe :
  (forall s l e v, stack (c x) = s :: l -> entry_at (heap x) s.2 = Some e -> contents e = PErr false v ->
     internalValuesAreManaged e = true -> exists t, stands_for (heap x) v t) -> safe exec_assert_err.
Proof.
  intros Hty. unfold exec_assert_err. xsteps. eapply read_error_safe; [stack_lookup|done|exact I|].
  intros b v flag e He Hc Hflag Hv. destruct b.
  - xsteps. show_stack. apply wf_stacked; [done| |stack_length x]. stack_facts x. slots_tac.
  - xsteps. destruct (Hty p l e v eq_refl He Hc) as [t Ht]; [by subst|]. apply (xwp_to_string _ _ _ Hwf _ _ _ Ht).
    intros y _. xsteps.
Qed.

Lemma exec_error_safe : safe exec_error.
Proof.
  unfold exec_error. xsteps. eapply read_error_safe; [stack_lookup|done|..].
  - xsteps. allocate_step x. xsteps. stack_facts x. filled x; [by intros e j ?%elem_of_nil|done|by apply new_slot].
  - intros b v flag e He Hc Hflag Hv. destruct b; xsteps; show_stack;
      (apply wf_stacked; [done| |stack_length x]; stack_facts x; apply slots_cons; [cbn; auto|done]).
    by left.
Qed.

Lemma exec_default_safe : safe exec_default.
Proof.
  unfold exec_default. xsteps. eapply read_error_safe; [stack_lookup|done|..].
  - xsteps. show_stack. apply wf_stacked; [done| |stack_length x]; stack_facts x; slots_tac.
  - intros b v flag e He Hc Hflag Hv. destruct b; xsteps; show_stack;
      (apply wf_stacked; [done| |stack_length x]; stack_facts x; apply slots_cons; [cbn; auto|done]).
Qed.

Lemma exec_cast_safe :
  code_available x ip 8 ->
  (forall s l e y v, stack (c x) = s :: l -> entry_at (heap x) s.2 = Some e -> contents e = PAny y v ->
     ASTMatching module_of (type_at (operand_at x ip 8)) (type_at y) = true ->
     ASTIsManagedType (type_at (operand_at x ip 8)) = internalValuesAreManaged e) -> safe exec_cast.
Proof.
  intros Hcode Hty. unfold exec_cast. repeat mstep. destruct (contents e) eqn:Hc; try exact I.
  xstep. apply xwp_code_bytes; [done|]. intros b _ ->. fold (operand_at x ip 8). repeat mstep.
  { apply eqb_true_iff. by eapply Hty. }
  show_stack. stack_facts x. apply wf_stacked; [done| |stack_length x]. apply slots_cons; [|done]. cbn. intros Hm.
  eapply child_reachable; [done| |done|]; [auto|]. unfold entry_children. rewrite Hc. cbn. rewrite Hm. set_solver.
Qed.
End Allocation.

(** *** Function pointers *)

Lemma wraps_fun h n i : wraps h n i -> forall m, wraps h m i -> n = m.
Proof.
  induction 1 as [i e He Hu Hw|i e l n He Hw Hl IH]; intros m Hm;
    inversion Hm as [? e' He' Hu' Hw'|? e' l' n' He' Hw' Hl']; subst; assert (e' = e) as -> by congruence; try congruence.
  f_equal. apply IH. congruence.
Qed.

Lemma wraps_bound h n i : wraps h n i -> (n < length h)%nat.
Proof.
  apply (rank_bound (wraps h)); [intros; by eapply wraps_fun| |].
  - intros k j Hj. inversion Hj; eauto.
  - intros k j Hj. inversion Hj; by eapply entry_at_range.
Qed.

Section Calls.
Context `{Platform}.
Context (x : ExecutionContext) (ip base : Z) (Hwf : wf x).
Abbreviation here := (MkMachine x ip base).
Abbreviation safe m := (xwp m (fun _ m' => wf (context m')) here).

Lemma reachable_wraps i : reachable x i -> exists n, wraps (heap x) n i.
Proof.
  intros Hi. destruct (reachable_in_use x i (wf_heap _ Hwf) Hi) as (e & He & Hu).
  pose proof (wf_entries _ Hwf i e Hi He) as Hok.
  destruct (contents e) eqn:Hc; try exact Hok; exists 0%nat; eapply wr_end; rewrite ?Hc; done.
Qed.

(** A new wrapper of what could be reached. *)
Lemma new_wrapper v i first h f e :
  reachable x v -> allocated x i (set_first first (set_heap h x)) -> (forall e, wrapped (contents (f e)) = Some v) ->
  entry_at h i = Some e -> exists n, wraps (update_entry i f h) n i.
Proof.
  intros Hv Hal Hf He. destruct (reachable_wraps v Hv) as [n Hn]. exists (S n).
  eapply wr_step; [by apply entry_at_update|done|].
  eapply (wraps_agree (heap x) _ (reachable x)); [by apply reachable_is_closed, wf_heap| |done..].
  apply (allocated_agrees x i (set_first first (set_heap h x))); [by apply wf_heap|done].
Qed.

Lemma exec_wrap_safe w : (w = PDiscard \/ w = PAssert) -> safe (exec_wrap w).
Proof.
  intros Hw. unfold exec_wrap. xsteps. allocate_step x. xsteps. stack_facts x.
  destruct (al_new _ _ _ Hal) as (_ & e0 & He0 & _). cbn in He0.
  assert (Hkids : forall e, links (w p.2) e = [p.2]) by by destruct Hw as [-> | ->].
  assert (Hok : entry_ok (update_entry i (set_contents (w p.2)) h) i (w p.2)).
  { assert (exists n, wraps (update_entry i (set_contents (w p.2)) h) n i).
    { eapply new_wrapper; [|done| |done]; [auto|]. intros e. by destruct Hw as [-> | ->]. }
    by destruct Hw as [-> | ->]. }
  show_stack. apply (wf_filled x i first h _ _ Hwf Hal); [| | |by apply new_slot|stack_length x].
  - intros e. by destruct Hw as [-> | ->].
  - intros e j Hj. unfold entry_children in Hj. cbn in Hj. rewrite Hkids in Hj. apply list_elem_of_singleton in Hj as ->. right. auto.
  - done.
Qed.

Lemma exec_curry_safe : safe exec_curry.
Proof.
  unfold exec_curry. xsteps. allocate_step x. xsteps. stack_facts x.
  destruct (al_new _ _ _ Hal) as (_ & e0 & He0 & _). cbn in He0. filled x.
  - intros e j [->|Hj]%elem_of_cons; [right; auto|]. destruct (elem_inside _ _ _ Hj) as [Hm ->]. right. auto.
  - intros e. cbn. eapply new_wrapper; [|done|done|done]. auto.
  - by apply new_slot.
Qed.
End Calls.

(** Following the wrappers ends, within as many steps as there are entries. *)
Lemma resolve_safe `{Platform} x n i : wf x -> wraps (heap x) n i ->
  forall fuel l ip base a b (Q : Z * bool * bool -> Machine -> Prop),
  (n < fuel)%nat -> reachable x i -> slots_ok (reachable x) l -> (length l <= 50)%nat ->
  (forall r l', slots_ok (reachable x) l' -> (length l' <= 50)%nat -> Q r (MkMachine (stacked l' x) ip base)) ->
  xwp (resolve fuel i a b) Q (MkMachine (stacked l x) ip base).
Proof.
  intros Hwf. induction 1 as [i e He Hu Hw|i e k n He Hw Hk IH]; intros [|fuel] l ip base a b Q Hf Hi Hs Hl HQ; try lia;
    cbn [resolve]; xstep; apply xwp_heap_entry; intros e0 He0; assert (e0 = e) as -> by (cbn in He0; congruence).
  - destruct (contents e) eqn:Hc; try done; try exact I. apply xwp_ret. by apply HQ.
  - assert (Hkid : forall j, j ∈ entry_children e -> reachable x j) by (intros j; by apply (child_reachable x Hwf i e)).
    unfold entry_children in Hkid.
    destruct (contents e) eqn:Hc; try done; cbn in Hw; injection Hw as ->; cbn in Hkid.
    + apply IH; try done; [lia|]. apply Hkid. set_solver.
    + apply IH; try done; [lia|]. apply Hkid. set_solver.
    + xsteps. autorewrite with contexts. apply IH; try done; [lia|apply Hkid; set_solver| |].
      * apply slots_cons; [|done]. cbn. intros Hm. apply Hkid. rewrite Hm. set_solver.
      * match goal with Hr : ?b = true -> wf _ -> _, Hb : ?b = true |- _ =>
          specialize (Hr Hb (wf_stacked x l Hwf Hs Hl)); cbn in Hr end. cbn. lia.
Qed.

Lemma exec_call_safe `{Platform} x ip base :
  wf x -> xwp exec_call (fun _ m' => wf (context m')) (MkMachine x ip base).
Proof.
  intros Hwf. unfold exec_call. xsteps. stack_facts x. cbn [c stack] in *. rewrite Hst. cbn [drop]. rewrite drop_0.
  assert (Hr : reachable x p.2) by auto. destruct (reachable_wraps x Hwf p.2 Hr) as [n Hn].
  eapply resolve_safe; [done|exact Hn| |done|done|stack_length x|].
  - apply wraps_bound in Hn. cbn. lia.
  - intros [[start a] b] l' Hl' Hlen. xsteps. cbn [context]. apply wf_backTrace. by apply wf_stacked.
Qed.

(** *** Concatenation *)

(** An allocation and a conversion do not disturb each other. *)
Lemma allocated_convert x i first h k n s :
  wf x -> allocated x i (set_first first (set_heap h x)) -> reachable x k -> denotes (heap x) (S n) k s ->
  let x1 := set_heap (converted (heap x) k s) x in
  allocated x1 i (set_first first (set_heap (converted h k s) x1)).
Proof.
  intros Hwf Hal Hk Hd x1. pose proof (wf_heap _ Hwf) as Hok.
  destruct (denotes_entry _ _ _ _ Hd) as (e & He & _ & Hc & Hu).
  destruct (al_kept _ _ _ Hal k e Hk He) as (e' & He' & Hv). cbn in He'.
  assert (Hki : k <> i) by (intros ->; by apply (al_fresh _ _ _ Hal)).
  assert (Hk0 : k <> 0).
  { intros ->. destruct (ho_null _ Hok) as (e0 & He0 & Hz). assert (e0 = e) as -> by congruence.
    unfold is_concat, entry_type in Hc. by rewrite Hz in Hc. }
  assert (0 <= k) by (apply entry_at_range in He; lia).
  assert (Hsub : forall j, reachable x1 j -> reachable x j).
  { apply (reach_update x k e (set_contents (PStr s)) x1 Hok He); [done| |].
    - by intros j ?%elem_of_nil.
    - intros r Hr. right. by apply reach_root. }
  assert (Hat : forall j, j <> k -> entry_at (converted h k s) j = entry_at h j).
  { intros j Hj. apply entry_at_update_ne; [lia|done]. }
  destruct (al_new _ _ _ Hal) as (Hi & ei & Hei & Hui). cbn in Hei.
  split; cbn [heap set_heap set_first heapFirstUnusedEntry x1] in *.
  - done.
  - unfold converted. rewrite !length_update_entry. apply (al_length _ _ _ Hal).
  - split; [done|]. exists ei. by rewrite Hat.
  - intros Hr%Hsub. by apply (al_fresh _ _ _ Hal).
  - destruct (al_null _ _ _ Hal) as (e0 & He0 & Hz). exists e0. by rewrite Hat.
  - intros j ej. destruct (decide (j = k)) as [->|Hj].
    + unfold converted. rewrite (entry_at_update _ _ _ _ He'). intros [= <-]. by cbn.
    + rewrite Hat by done. apply (al_eof _ _ _ Hal).
  - destruct (al_unused _ _ _ Hal) as (l & (Hch & Hnd & Hin) & Hcl). cbn [heap set_first set_heap heapFirstUnusedEntry] in Hch, Hin, Hcl.
    assert (Hkl : k ∉ i :: l).
    { intros Hkl. destruct (chain_in _ _ _ _ k Hch Hkl) as (_ & ek & Hek & Huk).
      assert (ek = e') as -> by congruence. rewrite (visible_contents _ _ Hv) in Huk. congruence. }
    assert (Hext : forall j ej, j ∈ i :: l -> entry_at h j = Some ej -> exists e'', entry_at (converted h k s) j = Some e'' /\ contents e'' = contents ej).
    { intros j ej Hj Hej. exists ej. split; [|done]. rewrite Hat; [done|congruence]. }
    exists l. split; [split; [by apply (chain_ext h)|split; [done|]]|].
    + intros j ej. destruct (decide (j = k)) as [->|Hj]; [|rewrite Hat by done; apply Hin].
      unfold converted. rewrite (entry_at_update _ _ _ _ He'). by intros [= <-].
    + apply (chain_ext h); [|done]. intros j ej Hj. apply Hext. set_solver.
  - intros j ej Hj Hej. destruct (decide (j = k)) as [->|Hjk].
    + unfold converted in *. rewrite (entry_at_update _ _ _ _ He) in Hej. injection Hej as <-.
      exists (set_contents (PStr s) e'). split; [by apply entry_at_update|]. unfold visible in *. cbn. congruence.
    + unfold converted in Hej. rewrite entry_at_update_ne in Hej by lia. rewrite Hat by done.
      by apply (al_kept _ _ _ Hal j ej (Hsub j Hj)).
Qed.

(** The new concatenation is written and replaces its parts on the stack. *)
Lemma wf_concat x i first h i1 i2 n1 n2 s1 s2 l :
  wf x -> allocated x i (set_first first (set_heap h x)) -> reachable x i1 -> reachable x i2 ->
  denotes (heap x) n1 i1 s1 -> denotes (heap x) n2 i2 s2 -> n1 = 0%nat \/ n2 = 0%nat ->
  slots_ok (reachable x) l -> (S (length l) <= 50)%nat ->
  wf (stacked ((true, i) :: l) (set_first first (set_heap
       (update_entry i (set_contents (PConcat i1 i2 (Z.of_nat (length s1) + Z.of_nat (length s2)))) h) x))).
Proof.
  intros Hwf Hal H1 H2 D1 D2 Hn Hl Hlen.
  apply (wf_filled x i first h _ _ Hwf Hal); [by intros e| | |by apply new_slot|done].
  - intros e j [->|[->|Hj%elem_of_nil]%elem_of_cons]%elem_of_cons; [by right|by right|done].
  - intros e. cbn. exists (s1 ++ s2), (S (n1 + n2)).
    pose proof (allocated_agrees x i _ (set_contents (PConcat i1 i2 (Z.of_nat (length s1) + Z.of_nat (length s2)))) (wf_heap _ Hwf) Hal) as Hag.
    destruct (al_new _ _ _ Hal) as (_ & e0 & He0 & _).
    eapply den_concat; [by apply entry_at_update|done| | |done..].
    + by eapply (denotes_agree (heap x) _ (reachable x)); [apply reachable_is_closed, wf_heap| | |].
    + by eapply (denotes_agree (heap x) _ (reachable x)); [apply reachable_is_closed, wf_heap| | |].
Qed.

Lemma update_commute i k f g h : 0 <= i -> 0 <= k -> i <> k ->
  update_entry k g (update_entry i f h) = update_entry i f (update_entry k g h).
Proof.
  intros Hi Hk Hne. apply list_eq. intros j. unfold update_entry. rewrite !list_lookup_alter.
  repeat case_decide; try done; lia.
Qed.

(** The same when one of the parts is converted first. *)
Lemma wf_concat_convert x i first h i1 i2 k n s n1 n2 s1 s2 l :
  wf x -> allocated x i (set_first first (set_heap h x)) -> slots_ok (reachable x) [(true, i1); (true, i2)] ->
  slots_ok (reachable x) l -> stack (c x) = (true, i2) :: (true, i1) :: l ->
  denotes (heap x) n1 i1 s1 -> denotes (heap x) n2 i2 s2 -> (k = i1 \/ k = i2) -> denotes (heap x) (S n) k s ->
  wf (stacked ((true, i) :: l) (set_first first (set_heap (converted
       (update_entry i (set_contents (PConcat i1 i2 (Z.of_nat (length s1) + Z.of_nat (length s2)))) h) k s) x))).
Proof.
  intros Hwf Hal Hs Hl Hst D1 D2 Hk Hd. apply slots_head in Hs as [H1 Hs]. apply slots_head in Hs as [H2 _]. cbn in H1, H2.
  assert (Hrk : reachable x k) by (destruct Hk as [->| ->]; auto).
  destruct (denotes_entry _ _ _ _ Hd) as (e & He & _). pose proof (entry_at_range _ _ _ He).
  assert (Hki : i <> k) by (intros ->; by apply (al_fresh _ _ _ Hal)).
  destruct (al_new _ _ _ Hal) as [Hi _]. unfold converted. rewrite update_commute by lia.
  set (x1 := set_heap (converted (heap x) k s) x).
  pose proof (wf_convert x k n s Hwf Hd) as Hwf1. pose proof (allocated_convert x i first h k n s Hwf Hal Hrk Hd) as Hal1.
  fold x1 in Hwf1, Hal1. fold (converted h k s).
  assert (Hst1 : stack (c x1) = (true, i2) :: (true, i1) :: l) by done. stack_facts x1. cbn in Ha, Ha0.
  assert (Hconv : forall m j t, denotes (heap x) m j t -> exists m', (m' <= m)%nat /\ denotes (heap x1) m' j t).
  { apply (denotes_convert (heap x) k s _ e (ex_intro _ _ Hd) He eq_refl). }
  assert (Hzero : denotes (heap x1) 0 k s).
  { eapply den_str; [by apply entry_at_update|done]. }
  destruct (Hconv _ _ _ D1) as (m1 & _ & E1), (Hconv _ _ _ D2) as (m2 & _ & E2).
  assert (m1 = 0%nat \/ m2 = 0%nat).
  { destruct Hk as [->| ->]; [left|right]; symmetry; by eapply denotes_fun. }
  eapply (wf_concat x1 i first (converted h k s) i1 i2 m1 m2 s1 s2 l); try done; auto. stack_length x1.
Qed.

Section Concat.
Context `{Platform}.
Context (x : ExecutionContext) (ip base : Z) (Hwf : wf x).
Abbreviation here := (MkMachine x ip base).
Abbreviation safe m := (xwp m (fun _ m' => wf (context m')) here).

(** The operand in slot [n] is a string, if it is managed. *)
Definition string_operand (n : nat) : Prop :=
  forall v e, stack (c x) !! (n - 1)%nat = Some (true, v) -> entry_at (heap x) v = Some e -> is_string (contents e) = true.

Lemma exec_concat_safe :
  Z.of_nat (length (heap x)) <= 2 ^ 32 -> string_operand 2 -> string_operand 1 -> safe exec_concat.
Proof.
  intros Hsize Hs2 Hs1. unfold exec_concat. xsteps. stack_facts x.
  destruct p as [m2 i2], p0 as [m1 i1]. cbn in *. subst m1 m2.
  destruct (string_stands x i1 e) as (s1 & n1 & D1); [done|auto|done|by apply (Hs2 i1 e); [rewrite Hst|]|].
  destruct (string_stands x i2 e0) as (s2 & n2 & D2); [done|auto|done|by apply (Hs1 i2 e0); [rewrite Hst|]|].
  assert (R1 : reachable x i1) by auto. assert (R2 : reachable x i2) by auto.
  destruct (denotes_entry _ _ _ _ D1) as (e1' & He1' & B1 & K1 & _), (denotes_entry _ _ _ _ D2) as (e2' & He2' & B2 & K2 & _).
  assert (e1' = e) as -> by congruence. assert (e2' = e0) as -> by congruence.
  pose proof (entry_at_range _ _ _ He1'). pose proof (entry_at_range _ _ _ He2').
  apply xwp_assert; [lia|]. rewrite B1, B2. cbn [xoutcome]. xsteps. allocate_step x. xsteps. autorewrite with contexts.
  pose proof (allocated_agrees x i _ (set_contents (PConcat i1 i2 (Z.of_nat (length s1) + Z.of_nat (length s2)))) (wf_heap _ Hwf) Hal) as Hag.
  autorewrite with contexts in Hag. set (h1 := update_entry i _ h) in *.
  pose proof (denotes_agree (heap x) h1 (reachable x) n1 i1 s1 (reachable_is_closed x (wf_heap _ Hwf)) Hag D1 R1) as E1.
  pose proof (denotes_agree (heap x) h1 (reachable x) n2 i2 s2 (reachable_is_closed x (wf_heap _ Hwf)) Hag D2 R2) as E2.
  destruct (denotes_entry _ _ _ _ E1) as (f1 & F1 & _ & L1 & _), (denotes_entry _ _ _ _ E2) as (f2 & F2 & _ & L2 & _).
  eapply xwp_lift; [exact F1|]. xsteps. eapply xwp_lift; [exact F2|]. rewrite L1, L2. xsteps.
  - match goal with Hb : _ && _ = true |- _ => apply andb_prop in Hb as [N1%Nat.ltb_lt N2%Nat.ltb_lt] end.
    assert (exists k n s, (if Z.of_nat (length s1) <? Z.of_nat (length s2) then i1 else i2) = k /\ (k = i1 \/ k = i2) /\
              denotes (heap x) (S n) k s /\ denotes h1 (S n) k s) as (k & n & s & -> & Hk & Dk & Ek).
    { destruct n1 as [|n1]; [lia|]. destruct n2 as [|n2]; [lia|].
      destruct (_ <? _); eexists _, _, _; (split; [done|]); (split; [auto|]); done. }
    rewrite (convert_spec fresh _ _ _ _ Ek). cbn [xoutcome]. xsteps. show_stack.
    eapply wf_concat_convert; try done. repeat (apply slots_cons; [done|]). apply Forall_nil.
  - show_stack. eapply wf_concat; try done; [|stack_length x].
    match goal with Hb : _ && _ = false |- _ => apply andb_false_iff in Hb as [?%Nat.ltb_ge|?%Nat.ltb_ge] end; lia.
Qed.

(** *** Interpolation *)

Lemma interpolated_safe command s1 s2 l :
  stack (c x) = s1 :: s2 :: l ->
  xwp (interpolated command) (fun _ m => exists y, m = MkMachine y ip base /\ converts x y) here.
Proof.
  intros Hst. unfold interpolated. apply xwp_if; intros _.
  { apply (xwp_read_string x _ _ Hwf); [lia|]. intros text y _ Hy. by exists y. }
  assert (Hr : exists y, here = MkMachine y ip base /\ converts x y) by (exists x; split; [done|by apply converts_refl]).
  xsteps; try done. destruct (contents e) as [| | | |[|v items]| | | | | | |]; xsteps; done.
Qed.
End Concat.

Lemma exec_interpolate_safe `{Platform} x ip base command :
  wf x -> xwp (exec_interpolate command) (fun _ m' => wf (context m')) (MkMachine x ip base).
Proof.
  intros Hwf. unfold exec_interpolate. xstep. string_step x y. xstep. string_step y z.
  destruct (stack (c x)) as [|s1 [|s2 [|s3 st]]] eqn:Hx; [cbn in *; lia..|].
  xstep. eapply xwp_mono; [by eapply interpolated_safe|]. intros t m (w & -> & Hw). cbv beta.
  pose proof (cv_wf _ _ Hw). pose proof (converts_stack _ _ Hw) as Hstw. rewrite Hst0 in Hstw. clear Hst0 Hst Hx.
  xsteps. allocate_step w. xsteps. stack_facts w. filled w.
  - by intros e j ?%elem_of_nil.
  - done.
  - apply slots_cons; [by left|by apply slots_new].
Qed.
