(* ===== verification/ScriptTasks.v ===== *)
(** * The tasks of the script engine

    Tasks (coroutines) wait for each other: [waiters] of a task lists the tasks that wait
    for it, and [waitingOn] of a waiting task points at the elements of such arrays that
    name it.  The invariant of this graph ([tasks_ok]) and its preservation when a task
    ends, waits or is resumed ([T_AWAIT]), as long as no task is waited for more than
    four times, so that no array is reallocated. *)

From Stdlib Require Import FinFun.
From stdpp Require Import base list relations.
From S2P Require Import Prelude ScriptToken ScriptParser ScriptHeap ScriptString ScriptFloat ScriptExec ScriptExecProofs.

(** ** Finding tasks *)

Abbreviation task_in ks i := (find_coroutine i ks).

Lemma get_id ks i k : task_in ks i = Some k -> id k = i /\ k ∈ ks.
Proof. intros [Hk Hi]%find_some. split; [lia|by apply list_elem_of_In]. Qed.

Lemma get_elem ks k : k ∈ ks -> exists k', task_in ks (id k) = Some k'.
Proof.
  intros Hk. destruct (task_in ks (id k)) as [k'|] eqn:Hg; [by eexists|].
  eapply find_none in Hg; [|by apply list_elem_of_In]. lia.
Qed.

Lemma get_unique ks k : NoDup (map id ks) -> k ∈ ks -> task_in ks (id k) = Some k.
Proof.
  intros Hnd Hk. induction ks as [|k0 ks IH]; [by apply elem_of_nil in Hk|]. cbn in *.
  apply list.NoDup_cons in Hnd as [Hn Hnd]. unfold find_coroutine. cbn.
  apply elem_of_cons in Hk as [->|Hk]; [by rewrite Z.eqb_refl|].
  destruct (Z.eqb_spec (id k0) (id k)) as [He|_]; [|by apply IH].
  destruct Hn. rewrite He. by apply list_elem_of_fmap_2.
Qed.

Lemma get_map f ks i : (forall k, id (f k) = id k) -> task_in (map f ks) i = f <$> task_in ks i.
Proof.
  intros Hf. unfold find_coroutine. induction ks as [|k ks IH]; [done|]. cbn. rewrite Hf. by destruct (id k =? i).
Qed.

Lemma get_update f ks i j : (forall k, id (f k) = id k) ->
  task_in (update_coroutine i f ks) j = if j =? i then f <$> task_in ks j else task_in ks j.
Proof.
  intros Hf. unfold update_coroutine. rewrite get_map by (intros k; by destruct (id k =? i)).
  destruct (task_in ks j) as [k|] eqn:Hk; cbn; [|by destruct (j =? i)]. apply get_id in Hk as [-> _]. by destruct (j =? i).
Qed.

Lemma get_remove ks i j : task_in (List.filter (fun k => negb (id k =? i)) ks) j = if j =? i then None else task_in ks j.
Proof.
  unfold find_coroutine. induction ks as [|k ks IH]; cbn; [by destruct (j =? i)|].
  destruct (Z.eqb_spec (id k) i) as [Hi|Hi]; cbn; rewrite IH.
  - destruct (Z.eqb_spec j i), (Z.eqb_spec (id k) j); try done; lia.
  - destruct (Z.eqb_spec (id k) j); [|done]. destruct (Z.eqb_spec j i); [lia|done].
Qed.

Lemma split_spec ks i b0 :
  match split_at_id i b0 ks with
  | Some (b, k, a) => b ++ k :: a = b0 ++ ks /\ task_in ks i = Some k
  | None => task_in ks i = None
  end.
Proof.
  revert b0. unfold find_coroutine. induction ks as [|k ks IH]; intros b0; cbn; [done|].
  destruct (id k =? i) eqn:Hi; [done|]. specialize (IH (b0 ++ [k])).
  destruct (split_at_id i (b0 ++ [k]) ks) as [[[b k'] a]|]; [|done]. by rewrite <- app_assoc in IH.
Qed.

(** ** The invariant *)

(** The element a pointer points at names this task. *)
Definition points_at (ks : list CoroutineState) (p : waiter_pointer) (w : Z) : Prop :=
  0 <= wp_index p /\ read_waiter p ks = Some (Some w).

Record tasks_ok (ks : list CoroutineState) (unblocked : list Z) : Prop := {
  to_ids : NoDup (map id ks);
  to_unblocked : NoDup unblocked;
  to_runnable : forall u, u ∈ unblocked -> exists k, task_in ks u = Some k /\ waitingOn k = [];
  to_waiters : forall i k j w, task_in ks i = Some k -> waiters k !! j = Some (Some w) ->
    exists kw, task_in ks w = Some kw /\ MkWaiterPointer i (waitersAllocated k) (Z.of_nat j) ∈ waitingOn kw;
  to_pointers : forall w kw p, task_in ks w = Some kw -> p ∈ waitingOn kw -> points_at ks p w;
  to_distinct : forall w kw, task_in ks w = Some kw -> NoDup (waitingOn kw);
  to_external : forall i k, task_in ks i = Some k -> externalCoroutine k = true -> waitingOn k = [];
  to_capacity : forall i k, task_in ks i = Some k ->
    (waitersAllocated k = 0 /\ waiters k = []) \/ (waitersAllocated k = 4 /\ (length (waiters k) <= 4)%nat);
}.

(** A task that was suspended has a slot for what it was unblocked by. *)
Definition resumable (k : CoroutineState) : Prop :=
  awaiting k = true -> externalCoroutine k = false -> stack k <> [].

Record running (x : ExecutionContext) : Prop := {
  rn_tasks : tasks_ok (allCoroutines x) (unblockedCoroutines x);
  rn_active : waitingOn (c x) = [] /\ id (c x) ∉ unblockedCoroutines x;
  rn_others : Forall resumable (before x ++ after x);
  rn_last : Forall (fun k => id k <= lastCoroutineID x) (allCoroutines x);
  rn_external : externalCoroutineCount x = Z.of_nat (length (List.filter externalCoroutine (allCoroutines x)));
}.

Lemma running_get x : running x -> task_in (allCoroutines x) (id (c x)) = Some (c x).
Proof. intros Hx. apply get_unique; [apply Hx|apply active_in]. Qed.

(** ** Taking a task off the lists it is on *)

(** The elements that these pointers point at are cleared. *)
Fixpoint clear_slots (l : list waiter_pointer) (i : Z) (ws : list (option Z)) : list (option Z) :=
  match l with
  | [] => ws
  | p :: l' => clear_slots l' i (if wp_coroutine p =? i then <[Z.to_nat (wp_index p) := None]> ws else ws)
  end.
Definition clearing (l : list waiter_pointer) (k : CoroutineState) : CoroutineState :=
  with_waiters (clear_slots l (id k) (waiters k)) (waitersAllocated k) k.

Lemma length_clear_slots l i ws : length (clear_slots l i ws) = length ws.
Proof. revert ws. induction l as [|p l IH]; intros ws; [done|]. cbn. rewrite IH. destruct (_ =? _); [apply length_insert|done]. Qed.

Lemma clear_slots_lookup l i ws j w :
  clear_slots l i ws !! j = Some (Some w) <->
  ws !! j = Some (Some w) /\ forall p, p ∈ l -> wp_coroutine p = i -> Z.to_nat (wp_index p) <> j.
Proof.
  revert ws. induction l as [|p l IH]; intros ws; cbn.
  { split; [|tauto]. intros Hw. split; [done|]. by intros p ?%elem_of_nil. }
  rewrite IH. destruct (Z.eqb_spec (wp_coroutine p) i) as [Hp|Hp].
  - destruct (decide (Z.to_nat (wp_index p) = j)) as [Hj|Hj].
    + split; [|intros [_ Hn]; by destruct (Hn p); [left| |]]. rewrite Hj. intros [Hw _].
      destruct (decide (j < length ws)%nat); [by rewrite list_lookup_insert_eq in Hw|].
      by rewrite list_insert_ge, lookup_ge_None_2 in Hw by lia.
    + rewrite list_lookup_insert_ne by done. split.
      * intros [Hw Hn]. split; [done|]. intros q [->|Hq]%elem_of_cons; [done|by apply Hn].
      * intros [Hw Hn]. split; [done|]. intros q Hq. apply Hn. by right.
  - split.
    + intros [Hw Hn]. split; [done|]. intros q [->|Hq]%elem_of_cons; [done|by apply Hn].
    + intros [Hw Hn]. split; [done|]. intros q Hq. apply Hn. by right.
Qed.

Lemma with_waiters_same k : with_waiters (waiters k) (waitersAllocated k) k = k.
Proof. by destruct k. Qed.

Lemma clear_waiter_map p l ks : map (clearing l) (clear_waiter p ks) = map (clearing (p :: l)) ks.
Proof.
  unfold clear_waiter, update_coroutine. rewrite map_map. apply map_ext. intros k.
  unfold clearing. cbn [clear_slots]. rewrite (Z.eqb_sym (wp_coroutine p)). by destruct (id k =? wp_coroutine p).
Qed.

(** What is read behind a pointer afterwards. *)
Lemma read_clearing l q ks w :
  read_waiter q (map (clearing l) ks) = Some (Some w) <->
  read_waiter q ks = Some (Some w) /\
  forall p, p ∈ l -> wp_coroutine p = wp_coroutine q -> Z.to_nat (wp_index p) <> Z.to_nat (wp_index q).
Proof.
  unfold read_waiter. rewrite get_map by done. destruct (task_in ks (wp_coroutine q)) as [k|] eqn:Hk; cbn; [|by split; [|intros []]].
  apply get_id in Hk as [Hk _]. destruct (_ =? _); [|by split; [|intros []]]. rewrite clear_slots_lookup, Hk. done.
Qed.

Lemma clear_waiter_read p ks q w :
  read_waiter q (clear_waiter p ks) = Some (Some w) <->
  read_waiter q ks = Some (Some w) /\ (wp_coroutine p = wp_coroutine q -> Z.to_nat (wp_index p) <> Z.to_nat (wp_index q)).
Proof.
  pose proof (clear_waiter_map p [] ks) as Hm. replace (map (clearing []) (clear_waiter p ks)) with (clear_waiter p ks) in Hm.
  2: { symmetry. rewrite <- (map_id (clear_waiter p ks)) at 2. apply map_ext. intros k. apply with_waiters_same. }
  rewrite Hm, read_clearing. apply and_iff_compat_l. split; [intros Hp; apply Hp; by left|].
  intros Hp q' ->%list_elem_of_singleton. done.
Qed.

(** Pointers at the same element are the same pointer. *)
Lemma same_slot ks p q w v :
  points_at ks p w -> points_at ks q v -> wp_coroutine p = wp_coroutine q ->
  Z.to_nat (wp_index p) = Z.to_nat (wp_index q) -> p = q /\ w = v.
Proof.
  unfold points_at, read_waiter. intros [Hp Rp] [Hq Rq] Hc Hi. rewrite Hc in Rp. destruct (task_in ks (wp_coroutine q)) as [k|]; [|done].
  destruct (Z.eqb_spec (waitersAllocated k) (wp_allocated p)), (Z.eqb_spec (waitersAllocated k) (wp_allocated q)); try done.
  rewrite Hi in Rp. split; [|congruence]. destruct p, q; cbn in *. f_equal; congruence || lia.
Qed.

Section Clear.
Context `{Platform}.

Lemma clear_waiters_spec w l : forall ks s (Q : list CoroutineState -> Machine -> Prop),
  NoDup l -> (forall p, p ∈ l -> points_at ks p w) -> Q (map (clearing l) ks) s -> xwp (clear_waiters w l ks) Q s.
Proof.
  induction l as [|p l IH]; intros ks s Q Hnd Hp HQ; cbn [clear_waiters].
  { apply xwp_ret. rewrite <- (map_id ks). erewrite map_ext; [exact HQ|]. intros k. symmetry. apply with_waiters_same. }
  apply list.NoDup_cons in Hnd as [Hnp Hnd]. destruct (Hp p) as [Hi Hr]; [by left|].
  apply xwp_bind. eapply xwp_lift; [exact Hr|]. apply xwp_bind, xwp_assert; [by apply bool_decide_eq_true|].
  apply IH; [done| |by rewrite clear_waiter_map].
  intros q Hq. assert (Hq' : points_at ks q w) by (apply Hp; by right). split; [apply Hq'|].
  apply clear_waiter_read. split; [apply Hq'|]. intros Hc He.
  destruct (same_slot ks p q w w) as [-> _]; [by split|done..].
Qed.
End Clear.

(** ** Unblocking *)

(** The task [w] is off every list, unblocked by [i]. *)
Definition unblocked_tasks (i w : Z) (kw : CoroutineState) (ks : list CoroutineState) : list CoroutineState :=
  update_coroutine w (with_waitingOn i []) (map (clearing (waitingOn kw)) ks).

(** What a command leaves alone of the tasks it does not run. *)
Definition same_task (k k' : CoroutineState) : Prop :=
  id k' = id k /\ localVariables k' = localVariables k /\ localVariableCount k' = localVariableCount k /\
  stack k' = stack k /\ awaiting k' = awaiting k /\ externalCoroutine k' = externalCoroutine k.

#[export] Instance same_task_preorder : PreOrder same_task.
Proof. split; [done|]. unfold same_task. intros k1 k2 k3 H1 H2. naive_solver congruence. Qed.

Abbreviation evolved := (Forall2 same_task).

Lemma evolved_map f ks : (forall k, same_task k (f k)) -> evolved ks (map f ks).
Proof. intros Hf. induction ks; constructor; auto. Qed.

Lemma evolved_update i f ks : (forall k, same_task k (f k)) -> evolved ks (update_coroutine i f ks).
Proof. intros Hf. apply evolved_map. intros k. by destruct (id k =? i). Qed.

Lemma evolved_ids ks ks' : evolved ks ks' -> map id ks' = map id ks.
Proof. induction 1 as [|k k' ks ks' [Hk _] Hks IH]; cbn; congruence. Qed.

Lemma unblocked_tasks_evolved i w kw ks : evolved ks (unblocked_tasks i w kw ks).
Proof. etrans; [by apply (evolved_map (clearing (waitingOn kw)))|by apply evolved_update]. Qed.

Lemma get_unblocked i w kw ks j :
  task_in (unblocked_tasks i w kw ks) j =
  (fun k => if j =? w then with_waitingOn i [] (clearing (waitingOn kw) k) else clearing (waitingOn kw) k) <$> task_in ks j.
Proof.
  unfold unblocked_tasks. rewrite get_update, get_map by done. by destruct (j =? w), (task_in ks j).
Qed.

Lemma read_unblocked i w kw ks p : read_waiter p (unblocked_tasks i w kw ks) = read_waiter p (map (clearing (waitingOn kw)) ks).
Proof. unfold read_waiter. rewrite get_unblocked, get_map by done. destruct (task_in ks _); cbn; [|done]. by destruct (_ =? w). Qed.

Lemma unblock_ok i w kw ks unblocked :
  tasks_ok ks unblocked -> task_in ks w = Some kw -> waitingOn kw <> [] ->
  tasks_ok (unblocked_tasks i w kw ks) (w :: unblocked).
Proof.
  intros Hok Hw Hne. pose proof (to_pointers _ _ Hok w kw) as Hpw.
  assert (Hnw : w ∉ unblocked).
  { intros (k & Hk & Hz)%(to_runnable _ _ Hok). congruence. }
  split.
  - rewrite (evolved_ids ks) by apply unblocked_tasks_evolved. apply Hok.
  - apply list.NoDup_cons. split; [done|apply Hok].
  - intros u Hu. rewrite get_unblocked. apply elem_of_cons in Hu as [->|Hu].
    + rewrite Hw, Z.eqb_refl. by eexists.
    + destruct (to_runnable _ _ Hok u Hu) as (k & -> & Hk). cbn. eexists. split; [done|]. by destruct (u =? w).
  - intros j k' n v. rewrite get_unblocked. intros (k & Hk & ->)%fmap_Some Hv.
    assert (Hv' : clear_slots (waitingOn kw) (id k) (waiters k) !! n = Some (Some v)) by (by destruct (j =? w)).
    apply clear_slots_lookup in Hv' as [Hv' Hcl]. destruct (to_waiters _ _ Hok j k n v Hk Hv') as (kv & Hkv & Hp).
    assert (Ha : waitersAllocated (if j =? w then with_waitingOn i [] (clearing (waitingOn kw) k) else clearing (waitingOn kw) k)
            = waitersAllocated k) by (by destruct (j =? w)). rewrite Ha.
    destruct (Z.eqb_spec v w) as [->|Hvw].
    + assert (kv = kw) as -> by congruence. apply get_id in Hk as [Hk _]. destruct (Hcl _ Hp); cbn; [done|lia].
    + exists (clearing (waitingOn kw) kv). split; [|done]. rewrite get_unblocked, Hkv. cbn. by destruct (Z.eqb_spec v w).
  - intros v kv' p. rewrite get_unblocked. intros (kv & Hkv & ->)%fmap_Some Hp.
    destruct (Z.eqb_spec v w) as [->|Hvw]; [by apply elem_of_nil in Hp|].
    pose proof (to_pointers _ _ Hok v kv p Hkv Hp) as Hpv. split; [apply Hpv|]. rewrite read_unblocked. apply read_clearing.
    split; [apply Hpv|]. intros q Hq Hc Hi. destruct (same_slot ks q p w v) as [_ ?]; [by apply Hpw|done..].
  - intros v kv'. rewrite get_unblocked. intros (kv & Hkv & ->)%fmap_Some.
    destruct (v =? w); [apply NoDup_nil_2|exact (to_distinct _ _ Hok v kv Hkv)].
  - intros v kv'. rewrite get_unblocked. intros (kv & Hkv & ->)%fmap_Some. destruct (v =? w); [done|]. exact (to_external _ _ Hok v kv Hkv).
  - intros v kv'. rewrite get_unblocked. intros (kv & Hkv & ->)%fmap_Some. pose proof (to_capacity _ _ Hok v kv Hkv) as Hc.
    pose proof (length_clear_slots (waitingOn kw) (id kv) (waiters kv)) as Hl.
    assert (Hk : forall k, waitersAllocated k = waitersAllocated kv -> length (waiters k) = length (waiters kv) ->
       (waitersAllocated k = 0 /\ waiters k = []) \/ (waitersAllocated k = 4 /\ (length (waiters k) <= 4)%nat)).
    { intros k -> Hlk. destruct Hc as [[-> Hz]|[-> Hn]]; [left|right; by rewrite Hlk]. split; [done|].
      apply nil_length_inv. by rewrite Hlk, Hz. }
    destruct (v =? w); by apply Hk.
Qed.

(** No task waits for the task [k]. *)
Definition abandoned (n : nat) (k : CoroutineState) : Prop := forall j w, (j < n)%nat -> waiters k !! j <> Some (Some w).

Lemma set_unblocked_same x : set_unblocked (unblockedCoroutines x) x = x.
Proof. by destruct x. Qed.

Lemma unblock_waiters_spec `{Platform} ip base i n : forall j ks k x,
  tasks_ok ks (unblockedCoroutines x) -> task_in ks i = Some k -> waitingOn k = [] ->
  length (waiters k) = (j + n)%nat -> abandoned j k ->
  xwp (unblock_waiters n j i ks)
    (fun ks' m => exists u k', m = MkMachine (set_unblocked u x) ip base /\ tasks_ok ks' u /\ evolved ks ks' /\
       (i ∉ unblockedCoroutines x -> i ∉ u) /\ task_in ks' i = Some k' /\ waitingOn k' = [] /\ abandoned (length (waiters k')) k')
    (MkMachine x ip base).
Proof.
  induction n as [|n IH]; intros j ks k x Hok Hk Hw Hlen Hab; cbn [unblock_waiters].
  { apply xwp_ret. exists (unblockedCoroutines x), k. rewrite set_unblocked_same, Hlen, Nat.add_0_r.
    split_and!; done. }
  apply xwp_bind. eapply xwp_lift; [exact Hk|].
  destruct (lookup_lt_is_Some_2 (waiters k) j) as [o Ho]; [lia|]. apply xwp_bind. eapply xwp_lift; [exact Ho|].
  destruct o as [w|].
  - destruct (to_waiters _ _ Hok i k j w Hk Ho) as (kw & Hkw & Hp).
    assert (Hne : waitingOn kw <> []) by (intros He; rewrite He in Hp; by apply elem_of_nil in Hp).
    assert (Hwi : i <> w) by (intros ->; congruence).
    pose proof (unblock_ok i w kw ks _ Hok Hkw Hne) as Hok'.
    apply xwp_bind. eapply xwp_lift; [exact Hkw|]. xsteps. apply xwp_assert.
    { apply negb_true_iff, bool_decide_eq_false. pose proof (to_unblocked _ _ Hok') as Hnd. by apply list.NoDup_cons in Hnd as [? _]. }
    xsteps. apply clear_waiters_spec; [by apply (to_distinct _ _ Hok w)|intros p; by apply (to_pointers _ _ Hok w kw)|].
    fold (unblocked_tasks i w kw ks).
    assert (Hk' : task_in (unblocked_tasks i w kw ks) i = Some (clearing (waitingOn kw) k)).
    { rewrite get_unblocked, Hk. cbn. by destruct (Z.eqb_spec i w). }
    eapply xwp_mono; [apply (IH (S j) _ _ (set_unblocked (w :: unblockedCoroutines x) x) Hok' Hk')|].
    + done.
    + cbn. rewrite length_clear_slots. lia.
    + intros j' v Hj'. cbn. intros [Hv Hcl]%clear_slots_lookup. destruct (decide (j' = j)) as [->|Hne'].
      * assert (v = w) as -> by congruence. apply get_id in Hk as [Hki _]. destruct (Hcl _ Hp); cbn; [done|lia].
      * apply (Hab j' v); [lia|done].
    + intros ks' m (u & k' & -> & Hok'' & Hev & Hu & Hg & Ha). exists u, k'.
      split; [done|]. split; [done|]. split; [|split; [|done]].
      * etrans; [apply unblocked_tasks_evolved|done].
      * intros Hi. apply Hu. cbn. set_solver.
  - apply (IH (S j) ks k x); try done; [lia|]. intros j' v Hj'. destruct (decide (j' = j)) as [->|]; [congruence|]. apply Hab. lia.
Qed.

(** A task that has ended is gone. *)
Lemma remove_ok i k ks unblocked :
  tasks_ok ks unblocked -> i ∉ unblocked -> task_in ks i = Some k -> waitingOn k = [] -> abandoned (length (waiters k)) k ->
  tasks_ok (List.filter (fun k => negb (id k =? i)) ks) unblocked.
Proof.
  intros Hok Hi Hk Hwk Hab.
  assert (Hget : forall j k', task_in (List.filter (fun k => negb (id k =? i)) ks) j = Some k' -> task_in ks j = Some k' /\ j <> i).
  { intros j k'. rewrite get_remove. destruct (Z.eqb_spec j i); done. }
  assert (Hkeep : forall j k', task_in ks j = Some k' -> j <> i -> task_in (List.filter (fun k => negb (id k =? i)) ks) j = Some k').
  { intros j k' Hj Hne. rewrite get_remove. by destruct (Z.eqb_spec j i). }
  split.
  - pose proof (to_ids _ _ Hok) as Hnd. clear -Hnd. induction ks as [|k ks IH]; [done|]. cbn in *.
    apply list.NoDup_cons in Hnd as [Hn Hnd]. destruct (negb _); [|by apply IH]. cbn. apply list.NoDup_cons. split; [|by apply IH].
    intros (k' & Hid & [Hk' _]%list_elem_of_In%filter_In)%list_elem_of_fmap. apply Hn. rewrite Hid.
    by apply list_elem_of_fmap_2, list_elem_of_In.
  - apply Hok.
  - intros u Hu. destruct (to_runnable _ _ Hok u Hu) as (k' & Hk' & Hw). exists k'. split; [|done]. apply Hkeep; [done|congruence].
  - intros j k' n w [Hj Hne]%Hget Hw. destruct (to_waiters _ _ Hok j k' n w Hj Hw) as (kw & Hkw & Hp). exists kw.
    split; [|done]. apply Hkeep; [done|]. intros ->. assert (kw = k) as -> by congruence.
    rewrite Hwk in Hp. by apply elem_of_nil in Hp.
  - intros w kw p [Hw Hne]%Hget Hp. destruct (to_pointers _ _ Hok w kw p Hw Hp) as [Hp0 Hr]. split; [done|]. revert Hr.
    unfold read_waiter. rewrite get_remove. destruct (Z.eqb_spec (wp_coroutine p) i) as [He|]; [|done].
    rewrite He, Hk. destruct (_ =? _); [|done]. intros Hl. apply lookup_lt_Some in Hl as Hlt. by apply Hab in Hl.
  - intros w kw [Hw _]%Hget. by apply (to_distinct _ _ Hok w).
  - intros w kw [Hw _]%Hget. by apply (to_external _ _ Hok w).
  - intros w kw [Hw _]%Hget. by apply (to_capacity _ _ Hok w).
Qed.

(** ** Waiting *)

Fixpoint occurrences (i : Z) (items : list Value) : nat :=
  match items with
  | [] => 0
  | v :: items' => if i =? v then S (occurrences i items') else occurrences i items'
  end.

Section Wait.
Context (w : Z) (items : list Value).

(** The task [k] with the new waiter, and the pointers at the new elements. *)
Definition waited_for (k : CoroutineState) : CoroutineState :=
  with_waiters (waiters k ++ repeat (Some w) (occurrences (id k) items))
    (if decide (occurrences (id k) items = 0%nat) then waitersAllocated k else 4) k.
Definition pointers_to (k : CoroutineState) : list waiter_pointer :=
  map (fun j => MkWaiterPointer (id k) 4 (Z.of_nat j)) (seq (length (waiters k)) (occurrences (id k) items)).
End Wait.

(** There is room without a reallocation. *)
Definition has_capacity (k : CoroutineState) : Prop :=
  (waitersAllocated k = 0 /\ waiters k = []) \/ (waitersAllocated k = 4 /\ (length (waiters k) <= 4)%nat).

Lemma add_waiter_spec w items : forall k,
  has_capacity k -> (length (waiters k) + occurrences (id k) items <= 4)%nat ->
  add_waiter w items k = (waited_for w items k, pointers_to items k).
Proof.
  induction items as [|v items IH]; intros k Hc Hn; cbn [add_waiter].
  { unfold waited_for, pointers_to. cbn. rewrite app_nil_r, with_waiters_same. done. }
  unfold waited_for, pointers_to. cbn [occurrences] in *. destruct (id k =? v); [|by rewrite IH].
  set (a := if Z.of_nat (length (waiters k)) =? waitersAllocated k then _ else _).
  assert (Ha : a = 4).
  { unfold a. destruct Hc as [[-> ->]|[-> Hl]]; [done|]. destruct (Z.eqb_spec (Z.of_nat (length (waiters k))) 4); [lia|done]. }
  rewrite Ha. rewrite IH; cbn [with_waiters waiters waitersAllocated id].
  - unfold waited_for, pointers_to. cbn [with_waiters waiters waitersAllocated id]. f_equal.
    + unfold with_waiters. cbn. rewrite <- app_assoc. by destruct (decide (occurrences (id k) items = 0%nat)).
    + cbn [repeat seq map]. f_equal. rewrite length_app. cbn. by rewrite Nat.add_1_r.
  - right. split; [done|]. cbn. rewrite length_app. cbn. lia.
  - rewrite length_app. cbn. lia.
Qed.

Definition waiting_tasks (w v : Z) (items : list Value) (ks : list CoroutineState) : list CoroutineState :=
  update_coroutine w (with_waitingOn v (concat (map (pointers_to items) ks))) (map (waited_for w items) ks).

Lemma add_waiters_spec w items ks :
  Forall (fun k => has_capacity k /\ (length (waiters k) + occurrences (id k) items <= 4)%nat) ks ->
  add_waiters w items ks = (map (waited_for w items) ks, concat (map (pointers_to items) ks)).
Proof.
  intros Hks. unfold add_waiters. rewrite !map_map. f_equal; [|f_equal]; apply map_ext_in; intros k Hk.
  all: rewrite Forall_forall in Hks; destruct (Hks k Hk); by rewrite add_waiter_spec.
Qed.

Lemma waiting_tasks_evolved w v items ks : evolved ks (waiting_tasks w v items ks).
Proof. etrans; [by apply (evolved_map (waited_for w items))|by apply evolved_update]. Qed.

Lemma elem_pointers items ks p :
  p ∈ concat (map (pointers_to items) ks) <->
  exists k j, k ∈ ks /\ p = MkWaiterPointer (id k) 4 (Z.of_nat j) /\
    (length (waiters k) <= j < length (waiters k) + occurrences (id k) items)%nat.
Proof.
  rewrite list_elem_of_In, in_concat. split.
  - intros (l & (k & <- & Hk)%in_map_iff & (j & <- & Hj%in_seq)%in_map_iff). exists k, j. by rewrite list_elem_of_In.
  - intros (k & j & Hk & -> & Hj). exists (pointers_to items k). split.
    + apply in_map, list_elem_of_In, Hk.
    + apply in_map_iff. exists j. split; [done|]. by apply in_seq.
Qed.

Lemma pointers_distinct items ks : NoDup (map id ks) -> NoDup (concat (map (pointers_to items) ks)).
Proof.
  induction ks as [|k ks IH]; intros Hnd; [apply NoDup_nil_2|]. cbn in *. apply list.NoDup_cons in Hnd as [Hn Hnd].
  apply list.NoDup_app. split_and!; [| |by apply IH].
  - apply NoDup_ListNoDup, Finite.Injective_map_NoDup; [|apply seq_NoDup]. intros j j' [= Hj]. lia.
  - intros p Hp (k' & j' & Hk' & -> & _)%elem_pointers.
    assert (Hc : wp_coroutine (MkWaiterPointer (id k') 4 (Z.of_nat j')) = id k).
    { unfold pointers_to in Hp. by apply list_elem_of_fmap in Hp as (j & -> & _). }
    cbn in Hc. apply Hn. rewrite <- Hc. by apply list_elem_of_fmap_2.
Qed.

Lemma get_waiting w v items ks j :
  task_in (waiting_tasks w v items ks) j =
  (fun k => if j =? w then with_waitingOn v (concat (map (pointers_to items) ks)) (waited_for w items k)
            else waited_for w items k) <$> task_in ks j.
Proof. unfold waiting_tasks. rewrite get_update, get_map by done. by destruct (j =? w), (task_in ks j). Qed.

(** The old elements are where they were. *)
Lemma waited_for_old w items k j o :
  has_capacity k -> waiters k !! j = Some o ->
  waitersAllocated (waited_for w items k) = waitersAllocated k /\ waiters (waited_for w items k) !! j = Some o.
Proof.
  intros Hc Ho. apply lookup_lt_Some in Ho as Hlt. cbn. split; [|by apply lookup_app_l_Some].
  destruct (decide _); [done|]. destruct Hc as [[_ Hz]|[-> _]]; [|done]. rewrite Hz in Hlt. cbn in Hlt. lia.
Qed.

Lemma waited_for_new w items k j o :
  waiters (waited_for w items k) !! j = Some o -> (length (waiters k) <= j)%nat ->
  o = Some w /\ (j < length (waiters k) + occurrences (id k) items)%nat /\ waitersAllocated (waited_for w items k) = 4.
Proof.
  cbn. intros Ho Hj. rewrite lookup_app_r in Ho by done. apply lookup_lt_Some in Ho as Hlt. rewrite repeat_length in Hlt.
  assert (o ∈ repeat (Some w) (occurrences (id k) items)) as ->%list_elem_of_In%repeat_spec by by eapply list_elem_of_lookup_2.
  split; [done|]. split; [lia|]. destruct (decide _); [lia|done].
Qed.

Lemma waited_for_capacity w items k :
  has_capacity k -> (length (waiters k) + occurrences (id k) items <= 4)%nat -> has_capacity (waited_for w items k).
Proof.
  intros Hc Hn. unfold has_capacity. cbn. destruct (decide _) as [Hz|Hz].
  - rewrite Hz. cbn. by rewrite app_nil_r.
  - right. split; [done|]. rewrite length_app, repeat_length. lia.
Qed.

Lemma lookup_repeat {A} (a : A) n j : (j < n)%nat -> repeat a n !! j = Some a.
Proof. revert j. induction n as [|n IH]; intros [|j] Hj; cbn; try lia; [done|]. apply IH. lia. Qed.

Lemma read_waiting w v items ks p : read_waiter p (waiting_tasks w v items ks) = read_waiter p (map (waited_for w items) ks).
Proof. unfold read_waiter. rewrite get_waiting, get_map by done. destruct (task_in ks _); cbn; [|done]. by destruct (_ =? w). Qed.

(** Old pointers stay valid, and the new ones are. *)
Lemma waiting_pointers w items ks unblocked p x :
  tasks_ok ks unblocked -> (points_at ks p x -> points_at (map (waited_for w items) ks) p x) /\
  (p ∈ concat (map (pointers_to items) ks) -> points_at (map (waited_for w items) ks) p w).
Proof.
  intros Hok. split.
  - intros [Hi Hr]. split; [done|]. revert Hr. unfold read_waiter. rewrite get_map by done.
    destruct (task_in ks (wp_coroutine p)) as [k|] eqn:Hk; [|done]. cbn [fmap option_fmap option_map].
    destruct (Z.eqb_spec (waitersAllocated k) (wp_allocated p)) as [Ha|]; [|done]. intros Ho.
    destruct (waited_for_old w items k _ _ (to_capacity _ _ Hok _ _ Hk) Ho) as [-> ->]. by rewrite Ha, Z.eqb_refl.
  - intros (k & j & Hk & -> & Hj)%elem_pointers. split; [cbn; lia|]. unfold read_waiter. cbn [wp_coroutine wp_allocated wp_index].
    rewrite get_map by done. rewrite (get_unique ks k) by (done || apply Hok). cbn [fmap option_fmap option_map].
    rewrite Nat2Z.id. cbn. destruct (decide _) as [Hz|Hz]; [lia|]. rewrite Z.eqb_refl, lookup_app_r by lia.
    apply lookup_repeat. lia.
Qed.

Lemma wait_waiters w v items kw ks unblocked j k n x :
  tasks_ok ks unblocked -> task_in ks w = Some kw -> waitingOn kw = [] -> task_in ks j = Some k ->
  waiters (waited_for w items k) !! n = Some (Some x) ->
  exists kx, task_in (waiting_tasks w v items ks) x = Some kx /\
    MkWaiterPointer j (waitersAllocated (waited_for w items k)) (Z.of_nat n) ∈ waitingOn kx.
Proof.
  intros Hok Hw Hz Hk Hx. pose proof (to_capacity _ _ Hok j k Hk) as Hc. destruct (decide (n < length (waiters k))%nat) as [Hlt|Hge].
  - destruct (lookup_lt_is_Some_2 _ _ Hlt) as [o Ho]. destruct (waited_for_old w items k n o Hc Ho) as [-> Hx'].
    assert (o = Some x) as -> by congruence. destruct (to_waiters _ _ Hok j k n x Hk Ho) as (kx & Hkx & Hp).
    exists (waited_for w items kx). rewrite get_waiting, Hkx. cbn. split; [|done].
    destruct (Z.eqb_spec x w) as [->|]; [|done]. assert (kx = kw) as -> by congruence. rewrite Hz in Hp. by apply elem_of_nil in Hp.
  - destruct (waited_for_new w items k n _ Hx) as ([= ->] & Hlt & ->); [lia|].
    eexists. rewrite get_waiting, Hw, Z.eqb_refl. split; [done|]. cbn. apply elem_pointers.
    apply get_id in Hk as [<- Hk]. exists k, n. split_and!; [done|done|lia|lia].
Qed.

Lemma wait_ok w v items kw ks unblocked :
  tasks_ok ks unblocked -> task_in ks w = Some kw -> waitingOn kw = [] -> externalCoroutine kw = false -> w ∉ unblocked ->
  Forall (fun k => (length (waiters k) + occurrences (id k) items <= 4)%nat) ks ->
  tasks_ok (waiting_tasks w v items ks) unblocked.
Proof.
  intros Hok Hw Hz Hext Hn Hfit. split.
  - rewrite (evolved_ids ks) by apply waiting_tasks_evolved. apply Hok.
  - apply Hok.
  - intros u Hu. destruct (to_runnable _ _ Hok u Hu) as (k & Hk & Hwk). exists (waited_for w items k).
    rewrite get_waiting, Hk. cbn. destruct (Z.eqb_spec u w); [congruence|done].
  - intros j k' n x. rewrite get_waiting. intros (k & Hk & ->)%fmap_Some Hx.
    destruct (wait_waiters w v items kw ks unblocked j k n x) as (kx & Hkx & Hp); [done..|by destruct (j =? w)|].
    exists kx. split; [done|]. by destruct (j =? w).
  - intros j k' p. rewrite get_waiting. intros (k & Hk & ->)%fmap_Some Hp.
    destruct (waiting_pointers w items ks unblocked p j Hok) as [Hold Hnew]. unfold points_at. rewrite read_waiting.
    destruct (Z.eqb_spec j w) as [->|_]; [by apply Hnew|]. by apply Hold, (to_pointers _ _ Hok j k).
  - intros j k'. rewrite get_waiting. intros (k & Hk & ->)%fmap_Some.
    destruct (j =? w); cbn; [apply pointers_distinct, Hok|exact (to_distinct _ _ Hok j k Hk)].
  - intros j k'. rewrite get_waiting. intros (k & Hk & ->)%fmap_Some.
    destruct (Z.eqb_spec j w) as [->|_]; cbn; [congruence|exact (to_external _ _ Hok j k Hk)].
  - intros j k'. rewrite get_waiting. intros (k & Hk & ->)%fmap_Some.
    assert (has_capacity (waited_for w items k)) as Hc; [|by destruct (j =? w)].
    apply waited_for_capacity; [exact (to_capacity _ _ Hok j k Hk)|].
    rewrite Forall_forall in Hfit. apply Hfit, list_elem_of_In. by apply get_id in Hk as [_ ?].
Qed.

(** ** What the invariant depends on *)

Definition task_of (k : CoroutineState) : Z * list (option Z) * Z * list waiter_pointer * bool :=
  (id k, waiters k, waitersAllocated k, waitingOn k, externalCoroutine k).

(** Tasks that differ in nothing the graph of the tasks depends on. *)
Definition like (k k' : CoroutineState) : Prop :=
  id k' = id k /\ waiters k' = waiters k /\ waitersAllocated k' = waitersAllocated k /\ waitingOn k' = waitingOn k /\
  (externalCoroutine k' = true -> externalCoroutine k = true \/ waitingOn k = []).

Lemma like_refl k : like k k.
Proof. unfold like. tauto. Qed.

Lemma task_of_like k k' : task_of k' = task_of k -> like k k'.
Proof. unfold like. intros [= -> -> -> -> ->]. tauto. Qed.

Lemma get_like ks ks' j :
  Forall2 like ks ks' ->
  match task_in ks j, task_in ks' j with Some k, Some k' => like k k' | None, None => True | _, _ => False end.
Proof.
  unfold find_coroutine. induction 1 as [|k k' ks ks' Hk Hks IH]; [done|]. cbn. rewrite (proj1 Hk). by destruct (id k =? j).
Qed.

Lemma tasks_ok_like ks ks' u : Forall2 like ks ks' -> tasks_ok ks u -> tasks_ok ks' u.
Proof.
  intros Hl Hok. pose proof (fun j => get_like ks ks' j Hl) as Hg.
  assert (Hinv : forall j k', task_in ks' j = Some k' -> exists k, task_in ks j = Some k /\ like k k').
  { intros j k' Hk'. specialize (Hg j). rewrite Hk' in Hg. destruct (task_in ks j) as [k|]; [eauto|done]. }
  assert (Hfwd : forall j k, task_in ks j = Some k -> exists k', task_in ks' j = Some k' /\ like k k').
  { intros j k Hk. specialize (Hg j). rewrite Hk in Hg. destruct (task_in ks' j) as [k'|]; [eauto|done]. }
  assert (Hread : forall p, read_waiter p ks' = read_waiter p ks).
  { intros p. unfold read_waiter. specialize (Hg (wp_coroutine p)). destruct (task_in ks _), (task_in ks' _); try done.
    destruct Hg as (_ & -> & -> & _). done. }
  split.
  - replace (map id ks') with (map id ks); [apply Hok|]. clear -Hl. induction Hl as [|k k' ks ks' [Hk _] Hks IH]; cbn; congruence.
  - apply Hok.
  - intros v Hv. destruct (to_runnable _ _ Hok v Hv) as (k & (k' & Hk' & (_ & _ & _ & Hw & _))%Hfwd & Hz). exists k'. split; [done|congruence].
  - intros i k' j w (k & Hk & (_ & -> & -> & _))%Hinv Hj.
    destruct (to_waiters _ _ Hok i k j w Hk Hj) as (kw & (kw' & Hkw' & (_ & _ & _ & Hp & _))%Hfwd & Hin). exists kw'. by rewrite Hp.
  - intros w kw' p (kw & Hkw & (_ & _ & _ & -> & _))%Hinv Hin.
    destruct (to_pointers _ _ Hok w kw p Hkw Hin) as [Hi Hr]. split; [done|]. by rewrite Hread.
  - intros w kw' (kw & Hkw & (_ & _ & _ & -> & _))%Hinv. by apply (to_distinct _ _ Hok w).
  - intros w kw' (kw & Hkw & (_ & _ & _ & -> & He))%Hinv [Hx|Hz]%He; [|done]. by apply (to_external _ _ Hok w kw).
  - intros w kw' (kw & Hkw & (_ & -> & -> & _))%Hinv. by apply (to_capacity _ _ Hok w).
Qed.

(** The active task is replaced by one like it. *)
Lemma tasks_ok_active b k k' a u : tasks_ok (b ++ k :: a) u -> like k k' -> tasks_ok (b ++ k' :: a) u.
Proof.
  intros Hok Hk. eapply tasks_ok_like; [|exact Hok]. apply Forall2_app; [|constructor; [done|]].
  all: apply Forall_Forall2_diag, Forall_forall; intros ? ?; apply like_refl.
Qed.

(** A command that runs in the active task and starts or stops no task. *)
Record framed (x y : ExecutionContext) : Prop := {
  fr_before : before y = before x;
  fr_after : after y = after x;
  fr_unblocked : unblockedCoroutines y = unblockedCoroutines x;
  fr_last : lastCoroutineID y = lastCoroutineID x;
  fr_count : externalCoroutineCount y = externalCoroutineCount x;
  fr_task : task_of (c y) = task_of (c x);
}.

#[export] Instance framed_preorder : PreOrder framed.
Proof. split; [by intros x|]. intros x y z [] []. split; congruence. Qed.

Lemma external_length ks ks' :
  map task_of ks = map task_of ks' -> length (List.filter externalCoroutine ks) = length (List.filter externalCoroutine ks').
Proof.
  revert ks'. induction ks as [|k ks IH]; intros [|k' ks'] Hm; try done. cbn in *.
  injection Hm as Hid Hw Ha Hp He Hm. rewrite He. destruct (externalCoroutine k'); cbn; by rewrite (IH ks').
Qed.

Lemma ids_bounded n ks ks' :
  map task_of ks = map task_of ks' -> Forall (fun k => id k <= n) ks -> Forall (fun k => id k <= n) ks'.
Proof.
  revert ks'. induction ks as [|k ks IH]; intros [|k' ks'] Hm Hf; try done. cbn in *.
  injection Hm as Hid _ _ _ _ Hm. apply Forall_cons_1 in Hf as [Hk Hf]. apply List.Forall_cons; [lia|]. by apply IH.
Qed.

Lemma running_framed x y : running x -> framed x y -> running y.
Proof.
  intros [Hok [Ha Hn] Hr Hl He] [Hb Hf Hu Hla Hc Ht].
  assert (Hm : map task_of (allCoroutines x) = map task_of (allCoroutines y)).
  { unfold allCoroutines. rewrite Hb, Hf, !map_app. cbn. by rewrite Ht. }
  pose proof Ht as Ht'. injection Ht' as Hid _ _ Hw Hext. split.
  - rewrite Hu. unfold allCoroutines in *. rewrite Hb, Hf. by apply (tasks_ok_active _ (c x)), task_of_like.
  - rewrite Hid, Hw, Hu. done.
  - by rewrite Hb, Hf.
  - rewrite Hla. by apply (ids_bounded _ (allCoroutines x)).
  - rewrite Hc, He. by rewrite (external_length _ _ Hm).
Qed.

(** ** Suspending the active task *)

(** The variables and the stack of a task. *)
Definition data_of (k : CoroutineState) : list slot * Z * list slot := (localVariables k, localVariableCount k, stack k).

(** The tasks [ks] that are left when the active task of [x] is suspended, in the context [y]. *)
Record suspended (x y : ExecutionContext) (ks : list CoroutineState) : Prop := {
  sp_context : exists u k, y = set_unblocked u (set_active k x);
  sp_tasks : tasks_ok ks (unblockedCoroutines y);
  sp_resumable : Forall resumable ks;
  sp_data : forall k, k ∈ ks -> exists k0, k0 ∈ allCoroutines x /\ data_of k = data_of k0;
  sp_last : Forall (fun k => id k <= lastCoroutineID x) ks;
  sp_count : externalCoroutineCount x = Z.of_nat (length (List.filter externalCoroutine ks));
  sp_external : forall k, k ∈ allCoroutines y -> externalCoroutine k = true ->
    exists k', task_in ks (id k) = Some k' /\ externalCoroutine k' = true;
  sp_awaited : forall k, k ∈ ks -> externalCoroutine k = true ->
    exists k0, k0 ∈ allCoroutines y /\ externalCoroutine k0 = true;
}.

(** No task is waited for more than four times. *)
Definition waits_fit (x : ExecutionContext) : Prop :=
  forall s l e items a, stack (c x) = s :: l -> entry_at (heap x) s.2 = Some e -> contents e = PList items a ->
  Forall (fun k => (length (waiters k) + occurrences (id k) items <= 4)%nat) (allCoroutines x).

Lemma evolved_elem ks ks' k' : evolved ks ks' -> k' ∈ ks' -> exists k, k ∈ ks /\ same_task k k'.
Proof.
  intros Hev (j & Hj)%list_elem_of_lookup. destruct (Forall2_lookup_r _ _ _ _ _ Hev Hj) as (k & Hk & Hs).
  exists k. split; [by eapply list_elem_of_lookup_2|done].
Qed.

Lemma evolved_external ks ks' :
  evolved ks ks' -> length (List.filter externalCoroutine ks') = length (List.filter externalCoroutine ks).
Proof.
  induction 1 as [|k k' ks ks' (_ & _ & _ & _ & _ & He) Hks IH]; [done|]. cbn. rewrite He. destruct (externalCoroutine k); cbn; congruence.
Qed.

Lemma same_task_resumable k k' : same_task k k' -> resumable k -> resumable k'.
Proof. unfold same_task, resumable. intros (_ & _ & _ & -> & -> & ->). done. Qed.

Lemma same_task_data k k' : same_task k k' -> data_of k' = data_of k.
Proof. unfold same_task, data_of. intros (_ & -> & -> & -> & _). done. Qed.

Lemma evolved_get ks ks' i k : evolved ks ks' -> task_in ks i = Some k -> exists k', task_in ks' i = Some k' /\ same_task k k'.
Proof.
  unfold find_coroutine. induction 1 as [|k0 k0' ks ks' Hs Hks IH]; [done|]. cbn. rewrite (proj1 Hs).
  destruct (id k0 =? i); [|done]. intros [= <-]. eauto.
Qed.

(** Removing a task that is not external leaves the number of external ones. *)
Lemma remove_external ks i k :
  NoDup (map id ks) -> task_in ks i = Some k -> externalCoroutine k = false ->
  length (List.filter externalCoroutine (List.filter (fun k => negb (id k =? i)) ks)) = length (List.filter externalCoroutine ks).
Proof.
  intros Hnd Hk He. assert (Hall : forall k', k' ∈ ks -> id k' = i -> externalCoroutine k' = false).
  { intros k' Hk' <-. rewrite (get_unique ks k' Hnd Hk') in Hk. congruence. }
  clear Hk Hnd. induction ks as [|k0 ks IH]; [done|]. cbn.
  destruct (Z.eqb_spec (id k0) i) as [Hi|Hi]; cbn.
  - rewrite (Hall k0) by (by left || done). apply IH. intros k' Hk'. apply Hall. by right.
  - destruct (externalCoroutine k0); cbn; rewrite IH; try done; intros k' Hk'; apply Hall; by right.
Qed.

Section Suspend.
Context `{Platform}.
Context (x : ExecutionContext) (ip base : Z) (Hrun : running x).
Abbreviation here := (MkMachine x ip base).

(** Which task it is that goes on at once, if one does. *)
Definition at_once (y : ExecutionContext) (ks : list CoroutineState) (immediately : bool) : Prop :=
  immediately = true -> exists k, task_in ks (id (c y)) = Some k /\ waitingOn k = [] /\ id (c y) ∉ unblockedCoroutines y.
Definition suspends (r : list CoroutineState * bool) (m : Machine) : Prop :=
  exists y, m = MkMachine y ip base /\ suspended x y r.1 /\ at_once y r.1 r.2.

Lemma all_resumable k y :
  resumable k -> before y = before x -> after y = after x -> c y = k -> Forall resumable (allCoroutines y).
Proof.
  intros Hk Hb Ha Hc. pose proof (rn_others _ Hrun) as Ho. apply Forall_app in Ho as [Hob Hoa].
  unfold allCoroutines. rewrite Hb, Ha, Hc. apply Forall_app. split; [done|]. by apply List.Forall_cons.
Qed.

Lemma suspend_external :
  externalCoroutine (c x) = true ->
  suspends (allCoroutines (set_active (with_waitingOn (-1) [] (with_saved ip base (c x))) x), false)
    (MkMachine (set_active (with_waitingOn (-1) [] (with_saved ip base (c x))) x) ip base).
Proof.
  intros He. set (k := with_waitingOn _ _ _). set (y := set_active k x). exists y. split; [done|]. split; [|done].
  assert (Hy : running y).
  { apply (running_framed x); [done|]. split; try done. unfold task_of. cbn. by rewrite (proj1 (rn_active _ Hrun)). }
  split; cbn [fst].
  - by exists (unblockedCoroutines x), k.
  - apply Hy.
  - apply (all_resumable k); try done. intros _. cbn. congruence.
  - intros k' Hk'. unfold allCoroutines in *. cbn in Hk'. apply elem_of_app in Hk' as [Hk'|[->|Hk']%elem_of_cons].
    + exists k'. split; [set_solver|done].
    + exists (c x). split; [set_solver|done].
    + exists k'. split; [set_solver|done].
  - apply Hy.
  - apply (rn_external _ Hy).
  - intros k' Hk' Hext. exists k'. split; [|done]. apply get_unique; [apply Hy|done].
  - eauto.
Qed.

Lemma suspend_finished u ks k' :
  externalCoroutine (c x) = false ->
  tasks_ok ks u -> evolved (allCoroutines x) ks -> id (c x) ∉ u -> task_in ks (id (c x)) = Some k' -> waitingOn k' = [] ->
  abandoned (length (waiters k')) k' ->
  suspends (List.filter (fun k => negb (id k =? id (c x))) ks, false) (MkMachine (set_unblocked u x) ip base).
Proof.
  intros Hext Hok Hev Hu Hg Hw Hab. exists (set_unblocked u x). split; [done|]. split; [|done].
  assert (Hin : forall k, k ∈ List.filter (fun k => negb (id k =? id (c x))) ks -> k ∈ ks /\ id k <> id (c x)).
  { intros k [Hk Hne]%list_elem_of_In%filter_In. split; [by apply list_elem_of_In|lia]. }
  destruct (evolved_get _ _ _ _ Hev (running_get _ Hrun)) as (k2 & Hk2 & Hs2). assert (k2 = k') as -> by congruence.
  assert (Hext' : externalCoroutine k' = false) by (destruct Hs2 as (_ & _ & _ & _ & _ & ->); done).
  split; cbn [fst].
  - exists u, (c x). by destruct x.
  - by apply (remove_ok _ k').
  - apply Forall_forall. intros k Hk%list_elem_of_In. destruct (Hin k Hk) as [Hks Hne].
    destruct (evolved_elem _ _ _ Hev Hks) as (k0 & Hk0 & Hs). apply (same_task_resumable _ _ Hs).
    pose proof (rn_others _ Hrun) as Ho. rewrite Forall_forall in Ho. apply Ho, list_elem_of_In.
    destruct Hs as [Hid _]. unfold allCoroutines in Hk0. set_solver.
  - intros k [Hks _]%Hin. destruct (evolved_elem _ _ _ Hev Hks) as (k0 & Hk0 & Hs). exists k0. split; [done|]. by apply same_task_data.
  - apply Forall_forall. intros k Hk%list_elem_of_In. destruct (Hin k Hk) as [Hks Hne].
    destruct (evolved_elem _ _ _ Hev Hks) as (k0 & Hk0 & [Hid _]). rewrite Hid.
    pose proof (rn_last _ Hrun) as Ho. rewrite Forall_forall in Ho. by apply Ho, list_elem_of_In.
  - rewrite (remove_external ks _ k') by (done || apply Hok). rewrite (evolved_external _ _ Hev). apply (rn_external _ Hrun).
  - intros k Hk He. rewrite get_remove. destruct (evolved_get _ _ _ _ Hev (get_unique _ _ (to_ids _ _ (rn_tasks _ Hrun)) Hk)) as (k3 & Hk3 & Hs3).
    exists k3. destruct (Z.eqb_spec (id k) (id (c x))) as [Heq|_].
    + exfalso. pose proof (get_unique _ _ (to_ids _ _ (rn_tasks _ Hrun)) Hk) as Hgk. rewrite Heq, (running_get _ Hrun) in Hgk. congruence.
    + split; [done|]. destruct Hs3 as (_ & _ & _ & _ & _ & ->). done.
  - intros k [Hks _]%Hin He. destruct (evolved_elem _ _ _ Hev Hks) as (k0 & Hk0 & (_ & _ & _ & _ & _ & He0)). exists k0.
    split; [done|congruence].
Qed.

Lemma suspend_waiting v items (y := set_active (with_saved ip base (c x)) x) (l := concat (map (pointers_to items) (allCoroutines y))) imm :
  externalCoroutine (c x) = false -> stack (c x) <> [] ->
  Forall (fun k => (length (waiters k) + occurrences (id k) items <= 4)%nat) (allCoroutines y) ->
  (imm = true -> l = []) ->
  suspends (waiting_tasks (id (c x)) v items (allCoroutines y), imm) (MkMachine y ip base).
Proof.
  intros Hext Hst Hfit Himm. exists y. split; [done|].
  assert (Hy : running y) by by apply (running_framed x).
  pose proof (waiting_tasks_evolved (id (c x)) v items (allCoroutines y)) as Hev.
  assert (Hres : Forall resumable (allCoroutines y)) by (apply (all_resumable (with_saved ip base (c x))); [by intros _ _|done..]).
  destruct (rn_active _ Hy) as [Hw Hn]. split.
  - split; cbn [fst].
    + by exists (unblockedCoroutines x), (with_saved ip base (c x)).
    + by apply (wait_ok _ _ _ (c y)); [apply Hy|exact (running_get y Hy)|..].
    + apply Forall_forall. intros k Hk%list_elem_of_In. destruct (evolved_elem _ _ _ Hev Hk) as (k0 & Hk0 & Hs).
      apply (same_task_resumable _ _ Hs). rewrite Forall_forall in Hres. by apply Hres, list_elem_of_In.
    + intros k Hk. destruct (evolved_elem _ _ _ Hev Hk) as (k0 & Hk0 & Hs). rewrite (same_task_data _ _ Hs).
      unfold allCoroutines in *. cbn in Hk0. apply elem_of_app in Hk0 as [Hk0|[->|Hk0]%elem_of_cons].
      * exists k0. split; [set_solver|done].
      * exists (c x). split; [set_solver|done].
      * exists k0. split; [set_solver|done].
    + apply Forall_forall. intros k Hk%list_elem_of_In. destruct (evolved_elem _ _ _ Hev Hk) as (k0 & Hk0 & [Hid _]). rewrite Hid.
      pose proof (rn_last _ Hy) as Ho. rewrite Forall_forall in Ho. by apply Ho, list_elem_of_In.
    + rewrite (evolved_external _ _ Hev). apply (rn_external _ Hy).
    + intros k Hk He. destruct (evolved_get _ _ _ _ Hev (get_unique _ _ (to_ids _ _ (rn_tasks _ Hy)) Hk)) as (k3 & Hk3 & Hs3).
      exists k3. split; [done|]. destruct Hs3 as (_ & _ & _ & _ & _ & ->). done.
    + intros k Hk He. destruct (evolved_elem _ _ _ Hev Hk) as (k0 & Hk0 & (_ & _ & _ & _ & _ & He0)). exists k0.
      split; [done|congruence].
  - intros Hi. cbn [fst snd] in *. eexists. rewrite get_waiting, (running_get y Hy : task_in (allCoroutines y) (id (c y)) = _). split; [done|].
    change (id (c y)) with (id (c x)). rewrite Z.eqb_refl. by split; [exact (Himm Hi)|].
Qed.
End Suspend.

Section Await.
Context `{Platform}.
Context (x : ExecutionContext) (ip base : Z) (Hwf : wf x) (Hrun : running x).
Abbreviation here := (MkMachine x ip base).

Lemma suspend_safe :
  (1 <= length (stack (c x)))%nat \/ externalCoroutine (c x) = true ->
  (externalCoroutine (c x) = false -> waits_fit x) ->
  xwp suspend (suspends x ip base) here.
Proof.
  intros Hst Hfit. unfold suspend. xsteps; [by apply suspend_external|].
  destruct Hst as [Hst|]; [|congruence]. destruct (stack (c x)) as [|s l] eqn:Hs; [cbn in Hst; lia|].
  eapply xwp_peek; [by rewrite Hs|]. xsteps.
  - eapply xwp_mono; [apply (unblock_waiters_spec ip base _ _ 0 _ (c x)); try done; [apply Hrun|by apply running_get|apply Hrun|]|].
    { intros j w Hj. lia. }
    intros ks m (u & k' & -> & Hok & Hev & Hu & Hg & Hw & Hab). xsteps. apply (suspend_finished x ip base Hrun u ks k'); try done.
    apply Hu, Hrun.
  - destruct (contents e) as [| | | |items a| | | | | | |] eqn:Hc; xsteps. apply xwp_assert; [by rewrite (proj1 (rn_active _ Hrun))|]. xsteps.
    set (y := set_active _ x) in *.
    assert (Hy : running y) by by apply (running_framed x).
    assert (Hfy : Forall (fun k => (length (waiters k) + occurrences (id k) items <= 4)%nat) (allCoroutines y)).
    { pose proof (Hfit ltac:(eassumption) s l e items a Hs ltac:(eassumption) Hc) as Hf. unfold allCoroutines in *. cbn.
      apply Forall_app in Hf as [Hb [Ha Hf]%Forall_cons_1]. apply Forall_app. split; [done|by apply List.Forall_cons]. }
    rewrite add_waiters_spec in Heqp; [injection Heqp as <- <-|].
    + destruct (concat _) as [|p l'] eqn:Hl; apply xwp_ret.
      * rewrite <- Hl. apply suspend_waiting; try done. congruence.
      * rewrite <- Hl. apply suspend_waiting; try done. congruence.
    + apply Forall_forall. intros k Hk. rewrite Forall_forall in Hfy. split; [|by apply Hfy].
      apply list_elem_of_In in Hk. exact (to_capacity _ _ (rn_tasks _ Hy) _ k (get_unique _ _ (to_ids _ _ (rn_tasks _ Hy)) Hk)).
Qed.
End Await.

(** ** Switching to another task *)

(** [ExternalCoroutineWaitAny] returns a task that external code works for, if there is one. *)
Definition wait_any_safe `{Platform} : Prop :=
  forall y, (exists k, k ∈ allCoroutines y /\ externalCoroutine k = true) ->
  exists k, k ∈ allCoroutines y /\ id k = ExternalCoroutineWaitAny y /\ externalCoroutine k = true.

Lemma wf_switched x y ks z :
  wf x -> suspended x y ks -> heap z = heap x -> heapFirstUnusedEntry z = heapFirstUnusedEntry x ->
  globalVariables z = globalVariables x -> allCoroutines z = ks -> wf z.
Proof.
  intros Hwf Hsp Hh Hf Hg Hks. apply (wf_roots x); [done..| |].
  - intros r Hr. right. apply reach_root, elem_roots. apply elem_roots in Hr. rewrite Hg, Hks in Hr. destruct Hr as [Hr|(k & Hk & Hr)]; [by left|].
    right. destruct (sp_data _ _ _ Hsp k Hk) as (k0 & Hk0 & [= Hv Hc Hs]). exists k0. split; [done|]. by rewrite <- Hv, <- Hc, <- Hs.
  - rewrite Hks. apply Forall_forall. intros k Hk%list_elem_of_In. destruct (sp_data _ _ _ Hsp k Hk) as (k0 & Hk0 & [= Hv Hc Hs]).
    pose proof (wf_coroutines _ Hwf) as Ho. rewrite Forall_forall in Ho. apply list_elem_of_In, Ho in Hk0 as [H1 H2].
    unfold coroutine_ok. by rewrite Hv, Hc, Hs.
Qed.

Section Switch.
Context `{Platform}.
Context (x : ExecutionContext) (ip base : Z) (Hwf : wf x).

Definition switched (m : Machine) : Prop :=
  exists z, m = MkMachine z ip base /\ wf z /\ running z /\ resumable (c z).

Lemma switch_safe y ks u i k :
  suspended x y ks -> tasks_ok ks u -> task_in ks i = Some k -> waitingOn k = [] -> i ∉ u ->
  xwp (switch_to i ks) (fun _ => switched) (MkMachine (set_unblocked u y) ip base).
Proof.
  intros Hsp Hok Hk Hw Hi. unfold switch_to. xstep. pose proof (split_spec ks i []) as Hsplit.
  destruct (split_at_id i [] ks) as [[[b k0] a]|]; [|congruence]. destruct Hsplit as [Hks Hk0].
  assert (k0 = k) as -> by congruence. cbn in Hks. apply xwp_ret. cbv beta iota. apply xwp_modify_context.
  destruct (sp_context _ _ _ Hsp) as (u0 & kc & ->). set (z := set_coroutines b k a _).
  assert (Hall : allCoroutines z = ks) by done. exists z. split; [done|]. split; [by eapply wf_switched|].
  pose proof (sp_resumable _ _ _ Hsp) as Hr. rewrite <- Hks in Hr. apply Forall_app in Hr as [Hrb [Hrk Hra]%Forall_cons_1].
  split; [|done]. apply get_id in Hk as [Hid _]. split; rewrite ?Hall.
  - done.
  - cbn. by rewrite Hid.
  - cbn. by apply Forall_app.
  - apply (sp_last _ _ _ Hsp).
  - apply (sp_count _ _ _ Hsp).
Qed.

Lemma choose_next_safe y ks imm :
  wait_any_safe -> suspended x y ks -> at_once y ks imm ->
  xwp (choose_next ks imm) (fun _ => switched) (MkMachine y ip base).
Proof.
  intros Hany Hsp Him. unfold choose_next. pose proof (sp_tasks _ _ _ Hsp) as Hok. xsteps.
  { destruct Him as (k & Hk & Hw & Hn); [done|]. rewrite <- (set_unblocked_same y). by eapply switch_safe. }
  destruct (unblockedCoroutines y) as [|i u] eqn:Hu.
  - xsteps. destruct (Hany y) as (k & Hk & Hid & He).
    { pose proof (sp_count _ _ _ Hsp) as Hcount. destruct (sp_context _ _ _ Hsp) as (u0 & kc & Hy).
      destruct (List.filter externalCoroutine ks) as [|k l] eqn:Hf; [rewrite Hy in *; cbn in *; lia|].
      assert (Hin : In k (List.filter externalCoroutine ks)) by (rewrite Hf; by left).
      apply filter_In in Hin as [Hin%list_elem_of_In He]. by apply (sp_awaited _ _ _ Hsp k). }
    destruct (sp_external _ _ _ Hsp k Hk He) as (k' & Hk' & He'). rewrite Hid in Hk'.
    eapply xwp_lift; [exact Hk'|]. xsteps. apply xwp_assert; [done|].
    pose proof (switch_safe y ks [] _ k' Hsp Hok Hk' (to_external _ _ Hok _ k' Hk' He') (not_elem_of_nil _)) as Hsw.
    by rewrite <- Hu, set_unblocked_same in Hsw.
  - xsteps. destruct (to_runnable _ _ Hok i) as (k & Hk & Hw); [by left|].
    assert (Hok' : tasks_ok ks u).
    { destruct Hok as [H1 H2 H3 H4 H5 H6 H7 H8]. apply list.NoDup_cons in H2 as [_ H2]. split; try done. intros v Hv. apply H3. by right. }
    eapply switch_safe; [done..|]. pose proof (to_unblocked _ _ Hok) as Hnd. by apply list.NoDup_cons in Hnd as [? _].
Qed.
End Switch.

(** ** Commands that run in the active task *)

(** A computation that goes on has started and stopped no task. *)
Definition frames {A} (m : X A) : Prop := forall s a s', m s = (inl a, s') -> framed (context s) (context s').

Lemma framed_heap h x : framed x (set_heap h x).
Proof. done. Qed.
Lemma framed_link link i x : framed x (set_link link i x).
Proof. by destruct link. Qed.

Lemma sweep_framed n : forall i link r x x' link' r', sweep n i link r x = Ok (x', link', r') -> framed x x'.
Proof.
  induction n as [|n IH]; intros i link r x x' link' r'; cbn; [by intros [= -> _ _]|].
  destruct (entry_at (heap x) i) as [e|]; [|done]. destruct (_ && _); [|apply IH].
  destruct (HeapFreeEntry (heap x) i) as [h| |]; try done. intros Hs%IH.
  etrans; [apply (framed_heap h)|]. etrans; [apply framed_link|exact Hs].
Qed.

Lemma link_new_framed n : forall i link x, framed x (link_new n i link x).1.
Proof.
  induction n as [|n IH]; intros i link x; cbn; [done|]. etrans; [|apply IH]. etrans; [|apply framed_link]. done.
Qed.

Lemma HeapAllocate_framed u x i x' : HeapAllocate u x = (Ok i, x') -> framed x x'.
Proof.
  unfold HeapAllocate. assert (Hc : forall y, (if heapFirstUnusedEntry x =? 0 then collect u x else Ok x) = Ok y -> framed x y).
  { intros y. destruct (_ =? 0); [|by intros [= ->]]. unfold collect. destruct (mark_all _ _ _) as [h| |]; try done.
    destruct (sweep _ _ _ _ _) as [[[x1 link] r]| |] eqn:Hs; try done. apply sweep_framed in Hs.
    assert (Hx1 : framed x x1) by (etrans; [apply (framed_heap h)|exact Hs]). destruct (_ <=? _).
    - destruct (link_new _ _ _ _) as [x2 link2] eqn:Hl. intros [= <-]. etrans; [exact Hx1|]. etrans; [|apply framed_link].
      pose proof (link_new_framed (length (heap x1)) (Z.of_nat (length (heap x1))) link
        (set_heap (heap x1 ++ map u (seq (length (heap x1)) (length (heap x1)))) x1)) as Hn.
      rewrite Hl in Hn. by etrans; [apply framed_heap|exact Hn].
    - intros [= <-]. etrans; [exact Hx1|apply framed_link]. }
  destruct (if _ =? 0 then _ else _) as [y| |]; try done. specialize (Hc y eq_refl). destruct (_ =? 0); [done|].
  destruct (entry_at (heap y) _) as [[[] ? ? ?]|]; try done. intros [= _ <-]. by etrans; [exact Hc|].
Qed.

Lemma frames_bind {A B} (m : X A) (f : A -> X B) : frames m -> (forall a, frames (f a)) -> frames (xbind m f).
Proof.
  intros Hm Hf s b s'. unfold xbind. destruct (m s) as [[a|] s1] eqn:Ha; [|done]. intros Hb.
  etrans; [by eapply Hm|by eapply Hf].
Qed.
Lemma frames_ret {A} (a : A) : frames (xret a).
Proof. by intros s b s' [= _ <-]. Qed.
Lemma frames_exit {A} e : frames (xexit e : X A).
Proof. done. Qed.
Lemma frames_reader {A} (f : Machine -> A) : frames (fun m => (inl (f m), m)).
Proof. by intros s a s' [= _ <-]. Qed.
Lemma frames_context f : (forall x, framed x (f x)) -> frames (modify_context f).
Proof. intros Hf s a s' [= _ <-]. apply Hf. Qed.
Lemma frames_active f : (forall k, task_of (f k) = task_of k) -> frames (modify_active f).
Proof. intros Hf. apply frames_context. intros x. split; try done. apply Hf. Qed.
Lemma frames_set_ip i : frames (set_ip i).
Proof. by intros s a s' [= _ <-]. Qed.
Lemma frames_set_base i : frames (set_base i).
Proof. by intros s a s' [= _ <-]. Qed.

Create HintDb frames.
#[export] Hint Resolve frames_ret frames_exit frames_reader frames_set_ip frames_set_base : frames.

Ltac frame :=
  lazymatch goal with
  | |- frames (xbind _ _) => apply frames_bind; [frame|intros ?; frame]
  | |- frames (modify_context _) => apply frames_context; by intros
  | |- frames (modify_active _) => apply frames_active; by intros
  | |- frames (match ?p with _ => _ end) => destruct p; frame
  | |- _ => eauto with frames
  end.

Section Frames.
Context `{Platform}.

Lemma frames_get_context : frames get_context.
Proof. apply (frames_reader context). Qed.
Lemma frames_get_active : frames get_active.
Proof. apply (frames_reader (fun m => c (context m))). Qed.
Lemma frames_get_ip : frames get_ip.
Proof. apply (frames_reader instructionPointer). Qed.
Lemma frames_get_base : frames get_base.
Proof. apply (frames_reader variableBase). Qed.
#[local] Hint Resolve frames_get_context frames_get_active frames_get_ip frames_get_base : frames.

Lemma frames_lift {A} (o : option A) : frames (xlift o).
Proof. destruct o; frame. Qed.
Lemma frames_outcome {A} (o : outcome A) : frames (xoutcome o).
Proof. destruct o; frame. Qed.
Lemma frames_unless_malformed b : frames (unless_malformed b).
Proof. by destruct b; [apply frames_ret|]. Qed.
Lemma frames_unless_error b : frames (unless_error b).
Proof. by destruct b; [apply frames_ret|]. Qed.
Lemma frames_assert b : frames (xassert b).
Proof. by destruct b; [apply frames_ret|]. Qed.
Lemma frames_malformed {A} : frames (malformed : X A).
Proof. done. Qed.
Lemma frames_runtime_error {A} : frames (runtime_error : X A).
Proof. done. Qed.
#[local] Hint Resolve frames_lift frames_outcome frames_unless_malformed frames_unless_error frames_assert
  frames_malformed frames_runtime_error : frames.

Lemma frames_allocate : frames allocate.
Proof.
  intros s i s'. unfold allocate. destruct (HeapAllocate _ _) as [[j| |] x] eqn:Ha; try done. intros [= _ <-].
  by eapply HeapAllocate_framed.
Qed.
Lemma frames_need n : frames (need n).
Proof. unfold need. frame. Qed.
Lemma frames_peek n : frames (peek n).
Proof. unfold peek. frame. Qed.
Lemma frames_poke n s : frames (poke n s).
Proof. unfold poke. frame. Qed.
Lemma frames_pop n : frames (pop n).
Proof. unfold pop. frame. Qed.
Lemma frames_push s : frames (push s).
Proof. unfold push. frame. Qed.
Lemma frames_advance n : frames (advance n).
Proof. unfold advance. frame. Qed.
#[local] Hint Resolve frames_allocate frames_need frames_peek frames_poke frames_pop frames_push frames_advance : frames.
Lemma frames_value_at n : frames (value_at n).
Proof. unfold value_at. frame. Qed.
Lemma frames_set_value n v : frames (set_value n v).
Proof. unfold set_value. frame. Qed.
Lemma frames_managed n : frames (managed n).
Proof. unfold managed. frame. Qed.
Lemma frames_unmanaged n : frames (unmanaged n).
Proof. unfold unmanaged. frame. Qed.
Lemma frames_has_room : frames has_room.
Proof. unfold has_room. frame. Qed.
Lemma frames_code_bytes n : frames (code_bytes n).
Proof. unfold code_bytes. frame. Qed.
#[local] Hint Resolve frames_value_at frames_set_value frames_managed frames_unmanaged frames_has_room frames_code_bytes : frames.
Lemma frames_operand n : frames (operand n).
Proof. unfold operand. frame. Qed.
Lemma frames_heap_entry i : frames (heap_entry i).
Proof. unfold heap_entry. frame. Qed.
Lemma frames_set_entry i f : frames (set_entry i f).
Proof. unfold set_entry. frame. Qed.
Lemma frames_set_list i l a : frames (set_list i l a).
Proof. apply frames_set_entry. Qed.
Lemma frames_to_string i : frames (to_string i).
Proof. unfold to_string. frame. Qed.
#[local] Hint Resolve frames_operand frames_heap_entry frames_set_entry frames_set_list frames_to_string : frames.
Lemma frames_read_string n : frames (read_string n).
Proof. unfold read_string. frame. Qed.
Lemma frames_read_list n : frames (read_list n).
Proof. unfold read_list. frame. Qed.
Lemma frames_read_error n : frames (read_error n).
Proof. unfold read_error. frame. Qed.
Lemma frames_jump_operand : frames jump_operand.
Proof. unfold jump_operand. frame. Qed.
Lemma frames_find_string v items : forall i, frames (find_string v items i).
Proof. induction items as [|w items IH]; intros i; cbn [find_string]; frame. Qed.
Lemma frames_resolve n : forall i a b, frames (resolve n i a b).
Proof. induction n as [|n IH]; intros i a b; cbn [resolve]; frame. Qed.
Lemma frames_binary f : frames (binary f).
Proof. unfold binary. frame. Qed.
Lemma frames_unary f : frames (unary f).
Proof. unfold unary. frame. Qed.
#[local] Hint Resolve frames_read_string frames_read_list frames_read_error frames_jump_operand frames_find_string frames_resolve
  frames_binary frames_unary : frames.
Lemma frames_call : frames exec_call.
Proof. unfold exec_call. frame. Qed.
#[local] Hint Resolve frames_call : frames.
Lemma frames_push_result r v : frames (push_result r v).
Proof. unfold push_result. frame. Qed.
Lemma frames_finish_function b : frames (finish_function b).
Proof. unfold finish_function, leave, use_result. frame. Qed.
Lemma frames_finish : frames finish.
Proof. unfold finish. frame. Qed.

(** The commands that go on with the next one, apart from those of tasks and of the platform. *)
Lemma execute_frames command :
  is_type command [T_OP_ASYNC; T_AWAIT; T_PERSIST; T_REPL_RESULT] = false -> frames (execute command).
Proof.
  intros Hc. cbn in Hc. rewrite !orb_false_iff in Hc. destruct Hc as (H1 & H2 & H3 & H4 & _). unfold execute. rewrite H1, H2, H3, H4.
  unfold exec_block, exec_exit_scope, exec_numeric_literal, exec_null, exec_string_literal, exec_concat, exec_interpolate,
    interpolated, exec_variable, exec_equals, exec_equals_dot, exec_equals_list, exec_index_list, exec_first_last, exec_dot,
    exec_slash. repeat (match goal with |- frames (if ?b then _ else _) => destruct b; [frame|] end).
  destruct (binary_operation command); [frame|]. destruct (unary_operation command); [frame|].
  unfold exec_str_compare, exec_len, exec_index, exec_if, exec_logical, exec_branch, exec_pop, exec_dup, exec_swap, exec_rot3,
    exec_assert, exec_err_cast, exec_anytype_cast, exec_cast, exec_success, exec_assert_err, exec_error, exec_default,
    exec_convert, exec_new, exec_resize, exec_add, exec_insert, exec_insert_many, exec_delete, exec_delete_all, exec_find,
    exec_wrap, exec_curry.
  repeat (match goal with |- frames (if ?b then _ else _) => destruct b; [frame|] end). frame.
Qed.
End Frames.

(** ** Starting a task *)

Lemma start_ok k ks u n :
  tasks_ok ks u -> Forall (fun k' => id k' <= n) ks -> id k = n + 1 -> waiters k = [] -> waitersAllocated k = 0 ->
  waitingOn k = [] -> tasks_ok (k :: ks) (id k :: u).
Proof.
  intros Hok Hn Hid Hw Ha Hp.
  assert (Hlt : forall j k', task_in ks j = Some k' -> j <> id k).
  { intros j k' [<- Hk']%get_id. rewrite Forall_forall in Hn. apply list_elem_of_In, Hn in Hk'. lia. }
  assert (Hget : forall j, task_in (k :: ks) j = if id k =? j then Some k else task_in ks j) by done.
  assert (Hkeep : forall j k', task_in ks j = Some k' -> task_in (k :: ks) j = Some k').
  { intros j k' Hj. rewrite Hget. destruct (Z.eqb_spec (id k) j) as [He|]; [|done]. by destruct (Hlt j k' Hj). }
  assert (Hinv : forall j k', task_in (k :: ks) j = Some k' -> k' = k \/ task_in ks j = Some k').
  { intros j k'. rewrite Hget. destruct (_ =? _); [intros [= ->]; by left|by right]. }
  assert (Hnu : id k ∉ u) by (intros (k' & Hk' & _)%(to_runnable _ _ Hok); by apply (Hlt _ _ Hk')).
  split.
  - cbn. apply list.NoDup_cons. split; [|apply Hok]. intros (k' & He & Hk')%list_elem_of_fmap.
    rewrite Forall_forall in Hn. apply list_elem_of_In, Hn in Hk'. lia.
  - apply list.NoDup_cons. split; [done|apply Hok].
  - intros v [->|Hv]%elem_of_cons.
    + exists k. rewrite Hget, Z.eqb_refl. done.
    + destruct (to_runnable _ _ Hok v Hv) as (k' & Hk' & Hz). exists k'. split; [by apply Hkeep|done].
  - intros i k' j w [->|Hk']%Hinv Hj; [by rewrite Hw in Hj|].
    destruct (to_waiters _ _ Hok i k' j w Hk' Hj) as (kw & Hkw & Hin). exists kw. split; [by apply Hkeep|done].
  - intros w kw p [->|Hk']%Hinv Hin; [by rewrite Hp in Hin; apply elem_of_nil in Hin|].
    destruct (to_pointers _ _ Hok w kw p Hk' Hin) as [Hi Hr]. split; [done|]. revert Hr. unfold read_waiter.
    destruct (task_in ks (wp_coroutine p)) as [k'|] eqn:Hg; [|done]. by rewrite (Hkeep _ _ Hg).
  - intros w kw [->|Hk']%Hinv; [rewrite Hp; apply NoDup_nil_2|by apply (to_distinct _ _ Hok w)].
  - intros w kw [->|Hk']%Hinv; [done|by apply (to_external _ _ Hok w)].
  - intros w kw [->|Hk']%Hinv; [by left|by apply (to_capacity _ _ Hok w)].
Qed.

(** Both invariants. *)
Definition ok (x : ExecutionContext) : Prop := wf x /\ running x.

Lemma both_safe `{Platform} {A} (m : X A) x ip base :
  frames m -> running x -> xwp m (fun _ m' => wf (context m')) (MkMachine x ip base) ->
  xwp m (fun _ m' => ok (context m')) (MkMachine x ip base).
Proof.
  unfold xwp. intros Hf Hr Hm. specialize (Hf (MkMachine x ip base)). destruct (m _) as [[a|[]] s']; try done.
  split; [done|]. by apply (running_framed x), (Hf a).
Qed.

Lemma exec_async_running `{Platform} x ip base :
  running x -> xwp exec_async (fun _ m' => running (context m')) (MkMachine x ip base).
Proof.
  intros [Hok [Ha Hu] Hr Hl He]. unfold exec_async. xsteps. cbn [context].
  set (k := MkCoroutine _ _ _ _ _ _ _ _ _ _ _ _ _ _ _ _ _). set (y := set_last_id _ _).
  assert (Hy : running y).
  { assert (Hall : allCoroutines y = k :: allCoroutines x) by done. split; rewrite ?Hall.
    - by apply (start_ok k _ _ (lastCoroutineID x)).
    - cbn. split; [done|]. apply not_elem_of_cons. split; [|done]. rewrite Forall_forall in Hl.
      pose proof (Hl (c x) (proj1 (list_elem_of_In _ _) (active_in x))). cbn. lia.
    - cbn. apply List.Forall_cons; [by intros ?|done].
    - cbn. apply List.Forall_cons; [cbn; lia|]. eapply List.Forall_impl; [|exact Hl]. intros k'. cbn. lia.
    - done. }
  assert (Hsty : stack (c y) = p :: l) by done. clearbody y. xsteps. cbn [context]. by apply (running_framed y).
Qed.

Lemma exec_async_ok `{Platform} x ip base :
  wf x -> running x -> xwp exec_async (fun _ m' => wf (context m')) (MkMachine x ip base) ->
  xwp exec_async (fun _ m' => ok (context m')) (MkMachine x ip base).
Proof.
  intros Hwf Hr Hs. pose proof (exec_async_running x ip base Hr) as Ht. unfold xwp in *.
  by destruct (exec_async _) as [[a|[]] s'].
Qed.

(** ** Waiting *)

Lemma exec_await_safe `{Platform} x ip base :
  wf x -> running x -> (externalCoroutine (c x) = false -> waits_fit x) -> wait_any_safe ->
  xwp exec_await (fun _ m' => ok (context m')) (MkMachine x ip base).
Proof.
  intros Hwf Hr Hfit Hany. unfold exec_await. xsteps. apply xwp_assert.
  { apply negb_true_iff, bool_decide_eq_false. apply Hr. }
  xsteps. eapply xwp_mono; [apply suspend_safe; try done|].
  { match goal with Hb : _ || _ = true |- _ => apply orb_prop in Hb as [?%Nat.leb_le|?]; auto end. }
  intros [ks imm] m (y & -> & Hsp & Him). xsteps. cbn [fst snd] in *.
  eapply xwp_mono; [by eapply choose_next_safe|]. intros _ m (z & -> & Hwz & Hrz & Hres). xsteps; try done.
  - destruct (stack (c z)) as [|s l] eqn:Hst; [by destruct Hres|].
    apply xwp_poke; [rewrite Hst; cbn; lia|]. xsteps. split; cbn [context].
    + apply wf_stacked; [done| |rewrite length_insert; by apply wf_active_ok].
      apply slots_insert; [apply stack_slots|done].
    + by apply (running_framed z).
  - apply both_safe; [apply frames_call|done|by apply exec_call_safe].
Qed.

(** ** Tasks that external code works for *)

Lemma external_split b k a :
  length (List.filter externalCoroutine (b ++ k :: a)) =
  (length (List.filter externalCoroutine (b ++ a)) + (if externalCoroutine k then 1 else 0))%nat.
Proof. rewrite !filter_app, !length_app. cbn. destruct (externalCoroutine k); cbn; lia. Qed.

Lemma running_external x b n :
  running x -> n = externalCoroutineCount x + Z.b2z b - Z.b2z (externalCoroutine (c x)) ->
  running (set_active (with_external b (c x)) (set_external_count n x)).
Proof.
  intros [Hok [Ha Hn] Hr Hl He] ->. unfold allCoroutines in *. split; try done.
  - apply (tasks_ok_active _ (c x)); [done|]. unfold like. cbn. tauto.
  - unfold allCoroutines. cbn. apply Forall_app in Hl as [Hb [Hc Hl]%Forall_cons_1]. apply Forall_app. split; [done|].
    by apply List.Forall_cons.
  - cbn. unfold allCoroutines. cbn. rewrite external_split in *. cbn. rewrite He. destruct b, (externalCoroutine (c x)); cbn; lia.
Qed.
