(* ===== verification/ScriptLibrary.v ===== *)
(** * The functions a script library calls (util/script.c, ScriptParameter..., ScriptReturn...)

    A library reads its parameters from the evaluation stack one after the other, holds
    entries of the heap for as long as it needs them, and returns a number.  A function
    of a library is a tree of such calls ([library]); whatever it does with what it
    reads, the context it leaves is what [T_LIBCALL] relies on ([library_safe]). *)

From stdpp Require Import base list relations.
From S2P Require Import Prelude ScriptToken ScriptParser ScriptHeap ScriptString ScriptFloat ScriptExec ScriptExecProofs ScriptTasks.

(** ** The calls *)

Section Calls.
Context (fresh : nat -> Z).

Definition set_library_call (n : Z) (v : Value) (y : Z) (x : ExecutionContext) : ExecutionContext :=
  set_active (with_library_call n v y (c x)) x.

(** The next parameter: one more is read, and it is there. *)
Definition next_parameter : M ExecutionContext slot :=
  modify (fun x => set_library_call (parameterCount (c x) + 1) (returnValue (c x)) (returnValueType (c x)) x) ;;;
  let! x := get in
  if Z.of_nat (length (stack (c x))) <? parameterCount (c x) then ret_false
  else lift_opt OutOfBounds (stack (c x) !! Z.to_nat (parameterCount (c x) - 1)).

Definition ScriptParameterCString : M ExecutionContext bytes :=
  let! s := next_parameter in
  let! x := get in
  if negb s.1 then ret_false
  else match entry_at (heap x) s.2 with
  | None => ret_false
  | Some _ =>
      match ScriptHeapEntryToString fresh (heap x) s.2 with
      | Ok (h, text) => modify (set_heap h) ;;; ret (text ++ [0])
      | RetFalse => ret_false
      | Stop r => stop r
      end
  end.

Definition ScriptHeapRefClose (index : Z) : M ExecutionContext unit :=
  let! x := get in
  assert ((0 <=? index) || (index <? Z.of_nat (length (heap x)))) ;;;
  let! e := lift_opt OutOfBounds (entry_at (heap x) index) in
  assert (negb (externalReferenceCount e =? 0)) ;;;
  modify (set_heap (update_entry index (set_references (externalReferenceCount e - 1)) (heap x))).

Definition ScriptParameterHeapRef : M ExecutionContext Z :=
  let! s := next_parameter in
  let! x := get in
  match entry_at (heap x) s.2 with
  | None => ret_false
  | Some e =>
      if externalReferenceCount e =? 0xFFFFFFFF then ret_false
      else
        modify (set_heap (update_entry s.2 (set_references (externalReferenceCount e + 1)) (heap x))) ;;;
        ret s.2
  end.

Definition ScriptParameterInt64 : M ExecutionContext Z := let! s := next_parameter in ret s.2.
(** The bits of the double. *)
Definition ScriptParameterDouble : M ExecutionContext Z := let! s := next_parameter in ret s.2.

Definition ScriptParameterBool : M ExecutionContext bool := let! i := ScriptParameterInt64 in ret (negb (i =? 0)).
Definition ScriptParameterUint32 : M ExecutionContext Z := let! i := ScriptParameterInt64 in ret (u32 i).
Definition ScriptParameterUint64 : M ExecutionContext Z := let! i := ScriptParameterInt64 in ret (u64 i).
Definition ScriptParameterInt32 : M ExecutionContext Z := let! i := ScriptParameterInt64 in ret (s32 i).
Definition ScriptParameterPointer : M ExecutionContext Z := let! i := ScriptParameterInt64 in ret (u64 i).

Definition ScriptReturnInt (input : Z) : M ExecutionContext unit :=
  let! x := get in
  assert (returnValueType (c x) =? EXTCALL_NO_RETURN) ;;;
  modify (set_library_call (parameterCount (c x)) input EXTCALL_RETURN_UNMANAGED).
Definition ScriptReturnPointer (input : Z) : M ExecutionContext unit := ScriptReturnInt (s64 input).

(** ** Functions of libraries *)

(** What a function does next: return, or a call and what it does with the result. *)
Inductive library : Type :=
  | Returns (success : bool)
  | ReadInteger (k : Z -> library)
  | ReadText (k : bytes -> library)
  | ReadReference (k : Z -> library)
  | CloseReference (index : Z) (k : library)
  | ReturnInteger (v : Z) (k : library).

Fixpoint call_library (l : library) : M ExecutionContext unit :=
  match l with
  | Returns success => if success then ret tt else ret_false
  | ReadInteger k => let! v := ScriptParameterInt64 in call_library (k v)
  | ReadText k => let! v := ScriptParameterCString in call_library (k v)
  | ReadReference k => let! v := ScriptParameterHeapRef in call_library (k v)
  | CloseReference index k => ScriptHeapRefClose index ;;; call_library k
  | ReturnInteger v k => ScriptReturnInt v ;;; call_library k
  end.
End Calls.

(** ** What a function leaves *)

(** Between the calls of a function that started in [x]. *)
Record library_state (x y : ExecutionContext) : Prop := {
  ls_wf : wf y;
  ls_tasks : framed x y;
  ls_variables : localVariableCount (c y) = localVariableCount (c x);
  ls_stack : stack (c y) = stack (c x);
  ls_parameters : 0 <= parameterCount (c y) <= Z.of_nat (length (stack (c y)));
  ls_return : returnValueType (c y) = EXTCALL_NO_RETURN \/ returnValueType (c y) = EXTCALL_RETURN_UNMANAGED;
}.

Definition library_safe (f : M ExecutionContext unit) : Prop :=
  forall x x', wf x -> parameterCount (c x) = 0 -> returnValueType (c x) = EXTCALL_NO_RETURN ->
  f x = (Ok tt, x') -> library_state x x'.

(** Counting references leaves the heap as the program sees it. *)
Lemma wf_references x i e n :
  wf x -> entry_at (heap x) i = Some e -> wf (set_heap (update_entry i (set_references n) (heap x)) x).
Proof.
  intros Hwf He. set (y := set_heap _ x). pose proof (wf_heap _ Hwf) as Hok. pose proof (entry_at_range _ _ _ He) as Hr.
  assert (Hfwd : forall j ej, entry_at (heap x) j = Some ej -> exists e', entry_at (heap y) j = Some e' /\
            contents e' = contents ej /\ internalValuesAreManaged e' = internalValuesAreManaged ej).
  { intros j ej Hj. destruct (decide (j = i)) as [->|Hne].
    - assert (ej = e) as -> by congruence. eexists. split; [by apply entry_at_update|done].
    - exists ej. cbn. rewrite entry_at_update_ne by lia. done. }
  assert (Hbwd : forall j ej, entry_at (heap y) j = Some ej -> exists e', entry_at (heap x) j = Some e' /\
            contents e' = contents ej /\ internalValuesAreManaged e' = internalValuesAreManaged ej).
  { intros j ej Hj. destruct (entry_at (heap x) j) as [e'|] eqn:Hj'.
    - destruct (Hfwd j e' Hj') as (e2 & He2 & Hc & Hm). exists e'. split; [done|]. split; congruence.
    - cbn in Hj. destruct (decide (j = i)) as [->|Hne]; [congruence|]. rewrite entry_at_update_ne in Hj by lia. congruence. }
  assert (Hreach : forall j, reach (heap y) (roots y) j -> reach (heap x) (roots x) j).
  { apply reach_closed; [intros r; apply reach_root|]. intros j k Hj (ej & Hej & Hk). apply (reach_step _ _ j); [done|].
    destruct (Hbwd j ej Hej) as (e' & He' & Hc & Hm). exists e'. split; [done|]. unfold entry_children in *. congruence. }
  assert (Hag : agrees (heap x) (heap y) (reachable x)).
  { intros j ej _ Hej _. destruct (Hfwd j ej Hej) as (e' & ? & ? & _). eauto. }
  split.
  - destruct (ho_null _ Hok) as (e0 & He0 & Hz), (ho_unused _ Hok) as (l & Hch & Hnd & Hin). split.
    + destruct (Hfwd 0 e0 He0) as (e' & ? & ? & _). exists e'. split; [done|congruence].
    + intros j ej Hej Hz'. destruct (Hbwd j ej Hej) as (e' & ? & ? & _). apply (ho_eof _ Hok j e'); [done|congruence].
    + exists l. split; [|split; [done|]].
      * apply (chain_ext (heap x)); [|done]. intros j ej _ Hej. destruct (Hfwd j ej Hej) as (e' & ? & ? & _). eauto.
      * intros j ej Hej Hu. destruct (Hbwd j ej Hej) as (e' & ? & Hc & _). apply (Hin j e'); [done|congruence].
    + intros j Hj. destruct (ho_reach _ Hok j (Hreach j Hj)) as (ej & Hej & Hu).
      destruct (Hfwd j ej Hej) as (e' & ? & ? & _). exists e'. split; [done|congruence].
  - cbn. rewrite length_update_entry. apply Hwf.
  - intros j ej Hj Hej. destruct (Hbwd j ej Hej) as (e' & He' & Hc & _). rewrite <- Hc.
    assert (Hjx : reachable x j) by (destruct Hj as [->|Hj]; [by left|right; auto]).
    apply (entry_ok_agree (heap x) _ (reachable x)); [by apply reachable_is_closed|done|done|]. by apply Hwf.
  - apply Hwf.
Qed.

Section Keeps.
Context (fresh : nat -> Z) (x : ExecutionContext).

(** A computation that returns normally in a state of the function, in such a state. *)
Definition keeps {A} (m : M ExecutionContext A) : Prop :=
  forall y a y', library_state x y -> m y = (Ok a, y') -> library_state x y'.

Lemma keeps_bind {A B} (m : M ExecutionContext A) (f : A -> M ExecutionContext B) :
  keeps m -> (forall a, keeps (f a)) -> keeps (bind m f).
Proof. intros Hm Hf y b y' Hy (a & z & Ha & Hb)%bind_inv_ok. eapply Hf; [by eapply Hm|done]. Qed.

Lemma keeps_same {A} (m : M ExecutionContext A) : (forall y a y', m y = (Ok a, y') -> y' = y) -> keeps m.
Proof. intros Hm y a y' Hy ->%Hm. done. Qed.

Lemma set_library_call_wf n v t y : wf y -> wf (set_library_call n v t y).
Proof. intros Hy. apply wf_active; [done|by apply wf_active_ok|apply local_slots|apply stack_slots]. Qed.

Lemma next_parameter_keeps y s y' :
  library_state x y -> next_parameter y = (Ok s, y') ->
  library_state x y' /\ stack (c y') !! Z.to_nat (parameterCount (c y')  - 1) = Some s.
Proof.
  intros [Hwf Hf Hv Hst Hp Hret] Hs. unfold next_parameter, bind, modify, get in Hs.
  set (z := set_library_call _ _ _ y) in *. destruct (_ <? _) eqn:Hlt; [done|].
  destruct (stack (c z) !! _) as [s'|] eqn:Hl; [|done]. cbn in Hs. injection Hs as -> <-. split; [|done].
  split; [by apply set_library_call_wf|by etrans; [exact Hf|]|done|done| |done]. cbn in *. lia.
Qed.

Lemma set_heap_state y h : library_state x y -> wf (set_heap h y) -> library_state x (set_heap h y).
Proof. intros [Hwf Hf Hv Hst Hp Hret] Hh. split; try done. by etrans; [exact Hf|]. Qed.

Lemma ParameterCString_keeps : keeps (ScriptParameterCString fresh).
Proof.
  intros y text y' Hy (s & z & [Hz Hs]%next_parameter_keeps & Hb)%bind_inv_ok; [|done].
  unfold bind, get in Hb. destruct (negb s.1) eqn:Hm; [done|]. apply negb_false_iff in Hm.
  destruct (entry_at (heap z) s.2) as [e|] eqn:He; [|done].
  assert (Hr : reachable z s.2) by by apply (slots_lookup _ _ _ _ (stack_slots z) Hs).
  destruct (is_string (contents e)) eqn:Hstr.
  - destruct (string_stands z s.2 e (ls_wf _ _ Hz) Hr He Hstr) as (t & n & Hn).
    rewrite (ToString_spec fresh _ _ _ _ Hn) in Hb. cbn in Hb. injection Hb as _ <-.
    apply set_heap_state; [done|]. destruct n as [|n]; cbn [Nat.ltb Nat.leb].
    + replace (set_heap (heap z) z) with z by by destruct z. apply Hz.
    + apply (wf_convert z s.2 n t); [apply Hz|done].
  - exfalso. unfold ScriptHeapEntryToString, oread in Hb. rewrite He in Hb. cbn in Hb. by destruct (contents e).
Qed.

Lemma HeapRefClose_keeps index : keeps (ScriptHeapRefClose index).
Proof.
  intros y [] y' Hy Hb. unfold ScriptHeapRefClose, bind, get, assert, modify in Hb. destruct (_ || _); [|done]. cbn in Hb.
  destruct (entry_at (heap y) index) as [e|] eqn:He; [|done]. cbn in Hb. destruct (negb _); [|done]. cbn in Hb. injection Hb as <-.
  apply set_heap_state; [done|]. eapply wf_references; [apply Hy|done].
Qed.

Lemma ParameterHeapRef_keeps : keeps ScriptParameterHeapRef.
Proof.
  intros y index y' Hy (s & z & [Hz Hs]%next_parameter_keeps & Hb)%bind_inv_ok; [|done].
  unfold bind, get, modify, ret in Hb. destruct (entry_at (heap z) s.2) as [e|] eqn:He; [|done].
  destruct (_ =? _); [done|]. cbn in Hb. injection Hb as _ <-.
  apply set_heap_state; [done|]. eapply wf_references; [apply Hz|done].
Qed.

Lemma ParameterInt64_keeps : keeps ScriptParameterInt64.
Proof. intros y v y' Hy (s & z & [Hz _]%next_parameter_keeps & Hb)%bind_inv_ok; [|done]. by injection Hb as _ <-. Qed.

Lemma ReturnInt_keeps v : keeps (ScriptReturnInt v).
Proof.
  intros y [] y' [Hwf Hf Hv Hst Hp Hret] Hb. unfold ScriptReturnInt, bind, get, assert, modify in Hb.
  destruct (_ =? _); [|done]. cbn in Hb. injection Hb as <-. split; try done; [by apply set_library_call_wf|by etrans; [exact Hf|]|by right].
Qed.

#[local] Hint Resolve ParameterCString_keeps HeapRefClose_keeps ParameterHeapRef_keeps ParameterInt64_keeps ReturnInt_keeps : core.

Lemma call_library_keeps l : keeps (call_library fresh l).
Proof.
  induction l as [[]|k IH|k IH|k IH|index k IH|v k IH]; cbn [call_library].
  all: try (by apply keeps_bind).
  - by apply keeps_same; intros y a y' [= <- <-].
  - done.
Qed.
End Keeps.

(** C31. Whatever function of a library is called, and whatever it does with what it reads:
    when it returns successfully, the context is well formed, the tasks, the variables and
    the stack of the caller are as they were, no more parameters have been read than there
    are on the stack, and the value returned is not managed. *)
Theorem library_calls_safe fresh l x x' :
  wf x -> parameterCount (c x) = 0 -> returnValueType (c x) = EXTCALL_NO_RETURN ->
  call_library fresh l x = (Ok tt, x') -> library_state x x'.
Proof.
  intros Hwf Hp Hr Hc. apply (call_library_keeps fresh x l x tt); [|done].
  split; [done..|lia|by left].
Qed.

(** ** The parameters of a function *)

Fixpoint read_integers (n : nat) : M ExecutionContext (list Z) :=
  match n with
  | O => ret []
  | S n' => let! v := ScriptParameterInt64 in let! l := read_integers n' in ret (v :: l)
  end.

(** The context in which [n] parameters have been read. *)
Definition parameters_read (n : nat) (x : ExecutionContext) : ExecutionContext :=
  set_library_call (Z.of_nat n) (returnValue (c x)) (returnValueType (c x)) x.

Lemma ParameterInt64_at x n :
  ScriptParameterInt64 (parameters_read n x) =
  match stack (c x) !! n with
  | Some s => (Ok s.2, parameters_read (S n) x)
  | None => (RetFalse, parameters_read (S n) x)
  end.
Proof.
  unfold ScriptParameterInt64, next_parameter, bind, modify, get. set (y := set_library_call _ _ _ _).
  assert (y = parameters_read (S n) x) as ->.
  { unfold parameters_read at 1. by rewrite Nat2Z.inj_succ. }
  cbn [parameters_read set_library_call set_active with_library_call c stack parameterCount].
  destruct (stack (c x) !! n) as [s|] eqn:Hs.
  - apply lookup_lt_Some in Hs as Hlt. destruct (_ <? _) eqn:Hb.
    { exfalso. apply Z.ltb_lt in Hb. lia. }
    replace (Z.to_nat (Z.of_nat (S n) - 1)) with n by lia. by rewrite Hs.
  - apply lookup_ge_None in Hs. destruct (_ <? _) eqn:Hb; [done|]. exfalso. apply Z.ltb_ge in Hb. lia.
Qed.

Lemma read_integers_at x k : forall n, (n <= length (stack (c x)))%nat ->
  read_integers k (parameters_read n x) =
  if (n + k <=? length (stack (c x)))%nat
  then (Ok (map snd (take k (drop n (stack (c x))))), parameters_read (n + k) x)
  else (RetFalse, parameters_read (S (length (stack (c x)))) x).
Proof.
  induction k as [|k IH]; intros n Hn; cbn [read_integers].
  { rewrite Nat.add_0_r. apply Nat.leb_le in Hn. by rewrite Hn. }
  unfold bind. rewrite ParameterInt64_at. destruct (stack (c x) !! n) as [s|] eqn:Hs.
  - apply lookup_lt_Some in Hs as Hlt. rewrite IH by lia. rewrite (drop_S _ s n) by done. cbn [take map].
    replace (S n + k)%nat with (n + S k)%nat by lia. by destruct (_ <=? _)%nat.
  - apply lookup_ge_None in Hs. assert (n = length (stack (c x))) as -> by lia.
    destruct (_ <=? _)%nat eqn:Hb; [apply Nat.leb_le in Hb; lia|done].
Qed.

(** The parameters of a function of a library are read in order from the top of the
    stack: reading [n] of them gives the [n] topmost values when there are as many, and
    fails at the first one that is missing otherwise, without looking outside the
    stack. *)
Theorem parameters_in_order x n :
  parameterCount (c x) = 0 ->
  read_integers n x =
  if (n <=? length (stack (c x)))%nat
  then (Ok (map snd (take n (stack (c x)))), parameters_read n x)
  else (RetFalse, parameters_read (S (length (stack (c x)))) x).
Proof.
  intros Hp. assert (Hx : x = parameters_read 0 x).
  { unfold parameters_read, set_library_call. destruct x as [? ? ? ? ? [] ? ? ?]. cbn in *. by subst. }
  rewrite Hx at 1. rewrite read_integers_at by lia. by rewrite drop_0.
Qed.

(** ** Examples *)

(** A context with two numbers and a string on the stack. *)
Definition library_context : ExecutionContext :=
  let x := initial_context (fun _ => MkEntry PEof false false 0) in
  MkContext [] [MkEntry PEof false false 0; MkEntry (PStr [104; 105]) false false 0] 0 [] []
    (with_library_call 0 0 EXTCALL_NO_RETURN (with_stack [(false, 7); (true, 1); (false, -5)] (c x))) [] [] 0 0.

Lemma library_context_wf : wf library_context.
Proof.
  split.
  - by apply (heap_okb_sound _ [] [1]).
  - cbn. lia.
  - intros i e _ He. apply entry_at_Some in He as [Hi He]. cbn in He.
    destruct (Z.to_nat i) as [|[|k]]; cbn in He; simplify_eq; done.
  - apply List.Forall_cons; [split; cbn; lia|done].
Qed.

(** A function that reads a number and a text, and returns the length of the text. *)
Definition text_length : library :=
  ReadInteger (fun _ => ReadText (fun text => ReturnInteger (Z.of_nat (length text) - 1) (Returns true))).

Lemma library_calls_safe_witness : exists x',
  call_library (fun _ => 0) text_length library_context = (Ok tt, x') /\ returnValue (c x') = 2 /\
  library_state library_context x'.
Proof.
  eexists. split; [vm_compute; reflexivity|]. split; [reflexivity|].
  apply (library_calls_safe (fun _ => 0) text_length library_context); [apply library_context_wf|reflexivity..].
Defined.

Lemma parameters_in_order_witness :
  read_integers 2 library_context = (Ok [7; 1], parameters_read 2 library_context) /\
  (read_integers 4 library_context).1 = RetFalse.
Proof. by rewrite !(parameters_in_order library_context) by reflexivity. Defined.

(** The assertion of [ScriptHeapRefClose] on its index cannot fail: an index outside the
    heap is used. *)
Theorem close_is_unchecked : (ScriptHeapRefClose 1000 library_context).1 = Stop OutOfBounds.
Proof. reflexivity. Qed.

(** A number on the stack is taken for a reference, and the entry it happens to be the
    index of is held. *)
Theorem number_is_a_reference :
  exists x, ScriptParameterHeapRef (set_active (with_stack [(false, 1)] (c library_context)) library_context) = (Ok 1, x) /\
  option_map externalReferenceCount (entry_at (heap x) 1) = Some 1.
Proof. eexists. split; reflexivity. Qed.
