(* ===== verification/ScriptExecSafety.v ===== *)
(** * Safety of the loop of the interpreter

    What a command needs of its operands ([operands_ok]), what the engine needs of its
    surroundings ([PlatformLaws]), and the theorem that under these a run of the loop
    keeps the invariant of the context and is never stopped by a failed assertion or by
    an access outside an object.  Then what the interpreter does wrong. *)

From stdpp Require Import base list relations.
From S2P Require Import Prelude ScriptToken ScriptParser ScriptHeap ScriptString ScriptFloat ScriptExec ScriptExecProofs ScriptTasks ScriptLibrary.

(** ** Searching *)

(** The managed items of a list and the value to search for are strings. *)
Definition strings_in (h : list HeapEntry) (l : list Value) : Prop := forall v, v ∈ l -> exists t, stands_for h v t.

Lemma find_string_safe `{Platform} v items : forall x ip base i,
  wf x -> strings_in (heap x) (v :: items) ->
  xwp (find_string v items i) (fun _ m => exists y, m = MkMachine y ip base /\ converts x y) (MkMachine x ip base).
Proof.
  induction items as [|w items IH]; intros x ip base i Hwf Hs; cbn [find_string].
  { xsteps. exists x. split; [done|by apply converts_refl]. }
  destruct (Hs w) as [t Ht]; [set_solver|]. xstep. apply (xwp_to_string x _ _ Hwf _ _ _ Ht). intros y Hy.
  destruct (Hs v) as [u Hu]; [set_solver|].
  xstep. apply (xwp_to_string y _ _ (cv_wf _ _ Hy) _ _ _ (cv_stands _ _ Hy _ _ Hu)). intros z Hz.
  pose proof (converts_trans _ _ _ Hy Hz) as Hxz. xsteps; [by exists z|].
  eapply xwp_mono; [apply IH; [apply Hz|]|].
  - intros k Hk. destruct (Hs k) as [s Hk']; [set_solver|]. exists s. by apply (cv_stands _ _ Hxz).
  - intros _ m (y' & -> & Hy'). exists y'. split; [done|by eapply converts_trans].
Qed.

Section Search.
Context `{Platform}.
Context (x : ExecutionContext) (ip base : Z) (Hwf : wf x).
Abbreviation here := (MkMachine x ip base).
Abbreviation safe m := (xwp m (fun _ m' => wf (context m')) here).

(** The list below the top of the stack and the value on top of it hold strings. *)
Definition string_list : Prop :=
  forall s1 s2 l e items a, stack (c x) = s1 :: s2 :: l -> entry_at (heap x) s2.2 = Some e ->
  contents e = PList items a -> strings_in (heap x) (s1.2 :: items).

(** The search keeps the stack and the list, and what it found is in the list. *)
Lemma search_safe (strings : bool) v items (Q : option nat -> Machine -> Prop) :
  (strings = true -> strings_in (heap x) (v :: items)) ->
  (forall o y, converts x y -> Q o (MkMachine y ip base)) ->
  xwp (if strings then find_string v items 0 else xret (find_value v items 0)) Q here.
Proof.
  intros Hs HQ. destruct strings.
  - eapply xwp_mono; [by apply find_string_safe, Hs|]. intros o m (y & -> & Hy). by apply HQ.
  - apply xwp_ret, HQ. by apply converts_refl.
Qed.

Lemma exec_find_safe command :
  (is_type command [T_OP_FIND_STR; T_OP_FIND_AND_DEL_STR] = true -> string_list) -> safe (exec_find command).
Proof.
  intros Hty. unfold exec_find. 
  repeat (lazymatch goal with |- xwp (if _ then find_string _ _ _ else _) _ _ => fail | _ => mstep end). apply search_safe.
  { intros Hs. by eapply Hty. }
  intros o y Hy. pose proof (cv_wf _ _ Hy) as Hwfy. pose proof (converts_stack _ _ Hy) as Hsty. rewrite Hst in Hsty.
  match goal with He : entry_at (heap x) p0.2 = Some ?e, Hc : contents ?e = PList ?items ?a |- _ =>
    assert (Hey : entry_at (heap y) p0.2 = Some e) by (apply (cv_same _ _ Hy _ _ He); unfold is_concat, entry_type; by rewrite Hc);
    clear He end.
  clear Hst. destruct o as [k|]; repeat mstep.
  - show_stack. apply wf_stacked; [done| |stack_length y]. stack_facts y. slots_tac.
  - list_result y; [rewrite length_app, length_take, length_drop; lia|]. intros _ w Hw. right; left.
    apply elem_of_app in Hw as [Hw|Hw]; [by eapply elem_take|by eapply elem_drop].
  - show_stack. apply wf_stacked; [done| |stack_length y]. stack_facts y. slots_tac.
Qed.

Lemma exec_async_safe : safe exec_async.
Proof.
  unfold exec_async. xsteps. cbn [context]. stack_facts x. set (y := set_last_id _ _).
  assert (Hy : wf y).
  { apply (wf_roots x); [done..| |].
    - intros r Hr. apply elem_roots in Hr as [Hr|(k & Hk & Hr)].
      { right. apply reach_root, elem_roots. by left. }
      unfold allCoroutines in Hk. cbn in Hk. apply elem_of_cons in Hk as [->|Hk].
      + cbn in Hr. destruct Hr as [Hr|Hr]; [by apply elem_of_nil in Hr|]. assert (r = p.2) as -> by set_solver. auto.
      + right. apply reach_root, elem_roots. right. by exists k.
    - apply List.Forall_cons; [split; cbn; lia|apply Hwf]. }
  assert (Hsty : stack (c y) = p :: l) by done. clearbody y. clear Hst Hs Ha. xsteps.
  show_stack. apply wf_stacked; [done| |stack_length y]. stack_facts y. slots_tac.
Qed.
End Search.

(** ** What the engine needs of its surroundings *)

(** Does an external function return a value that is managed? *)
Definition returns_managed (result : Z) : bool :=
  is_type result [EXTCALL_RETURN_MANAGED; EXTCALL_RETURN_ERR_MANAGED; EXTCALL_RETURN_ERR_ERROR].

(** The functions that are called with the context leave it consistent, start and stop no
    tasks, and do not change the variables of the function that calls them.  A managed
    result is an entry that can be put on the stack; a function for which external code
    is at work already does not start it again.  A function of a library is safe, and does
    not stop the program. *)
Class PlatformLaws `{Platform} := {
  persist_law x : wf x -> wf (ExternalPersistWrite x).2 /\ framed x (ExternalPersistWrite x).2;
  repl_law v x : wf x -> wf (ExternalPassREPLResult v x) /\ framed x (ExternalPassREPLResult v x);
  external_law f x result v x' :
    f ∈ externalFunctions -> wf x -> f x = (result, v, x') ->
    wf x' /\ framed x x' /\ localVariableCount (c x') = localVariableCount (c x) /\
    (returns_managed result = true -> (length (stack (c x')) < 50)%nat -> wf (stacked ((true, v) :: stack (c x')) x')) /\
    (result = EXTCALL_START_COROUTINE -> externalCoroutine (c x') = false);
  library_law address : library_safe (library_function address);
  library_returns address x r x' :
    wf x -> parameterCount (c x) = 0 -> returnValueType (c x) = EXTCALL_NO_RETURN ->
    library_function address x <> (Stop r, x');
  wait_any_law : wait_any_safe;
}.

Section External.
Context `{PlatformLaws}.
Context (x : ExecutionContext) (ip base : Z) (Hwf : wf x).
Abbreviation here := (MkMachine x ip base).
Abbreviation safe m := (xwp m (fun _ m' => wf (context m')) here).

Lemma exec_persist_safe : running x -> xwp exec_persist (fun _ m' => ok (context m')) here.
Proof.
  intros Hrun. unfold exec_persist. destruct (persist_law x Hwf) as [Hp Hf]. xsteps. split; [exact Hp|by apply (running_framed x)].
Qed.

Lemma exec_repl_result_safe : running x -> xwp exec_repl_result (fun _ m' => ok (context m')) here.
Proof.
  intros Hrun. unfold exec_repl_result. xsteps. cbn [context]. rewrite Hst.
  assert (Hy : wf (stacked (drop 1 (p :: l)) x)).
  { apply (wf_stacked x _ Hwf); [|stack_length x]. stack_facts x. by apply Forall_drop, slots_cons. }
  destruct (repl_law p.2 _ Hy) as [Hr Hf]. split; [exact Hr|]. by eapply running_framed; [|exact Hf]; apply (running_framed x).
Qed.

(** The result is on the stack, as it is or boxed. *)
Lemma wf_result (b : bool) v :
  (length (stack (c x)) < 50)%nat -> (b = true -> wf (stacked ((true, v) :: stack (c x)) x)) ->
  wf (stacked ((b, v) :: stack (c x)) x).
Proof.
  intros Hroom Hv. destruct b; [by apply Hv|]. apply wf_stacked; [done| |cbn; lia]. apply slots_cons; [done|apply stack_slots].
Qed.

Lemma push_result_safe result v (Q : unit -> Machine -> Prop) :
  (returns_managed result = true -> (length (stack (c x)) < 50)%nat -> wf (stacked ((true, v) :: stack (c x)) x)) ->
  (forall y, wf y -> localVariableCount (c y) = localVariableCount (c x) -> Q tt (MkMachine y ip base)) ->
  xwp (push_result result v) Q here.
Proof.
  intros Hv HQ. unfold push_result. xsteps; try (by apply HQ).
  all: assert (Hroom : (length (stack (c x)) < 50)%nat) by stack_length x.
  - set (y := stacked _ x). assert (Hy : wf y).
    { apply wf_result; [done|]. intros Hb. apply Hv; [|done]. unfold returns_managed, is_type in *. cbn in *. lia. }
    assert (Hst : stack (c y) = (negb (result =? EXTCALL_RETURN_ERR_UNMANAGED), v) :: stack (c x)) by done.
    assert (Hcount : localVariableCount (c y) = localVariableCount (c x)) by done. clearbody y.
    allocate_step y. xsteps. apply HQ; [|done]. stack_facts y. filled y.
    + intros e j Hj. destruct (elem_inside _ _ _ Hj) as [Hm ->]. right. auto.
    + done.
    + by apply new_slot.
  - apply HQ; [|done]. apply (wf_result true 0 Hroom). intros _. apply wf_stacked; [done| |cbn; lia].
    apply slots_cons; [by left|apply stack_slots].
  - apply HQ; [|done]. apply wf_result; [done|]. intros Hb. apply Hv; [|done]. unfold returns_managed, is_type in *. cbn. lia.
Qed.

End External.

Section ExternalCalls.
Context `{PlatformLaws}.
Context (x : ExecutionContext) (ip base : Z) (Hwf : wf x).
Abbreviation here := (MkMachine x ip base).

Lemma wf_external y b n l :
  wf (stacked l y) -> wf (stacked l (set_active (with_external b (c y)) (set_external_count n y))).
Proof.
  intros Hy. pose proof (wf_coroutines _ Hy) as Hk.
  apply (wf_roots (stacked l y)); [done..| |].
  - intros r Hr. right. apply reach_root. revert Hr. rewrite !elem_roots. intros [Hr|(k & Hin & Hr)]; [by left|right].
    unfold allCoroutines in *. cbn in *. apply elem_of_app in Hin as [Hin|[->|Hin]%elem_of_cons].
    + exists k. set_solver.
    + exists (with_stack l (c y)). set_solver.
    + exists k. set_solver.
  - unfold allCoroutines in *. cbn in *. apply Forall_app in Hk as [Hb [Ha Hc]%Forall_cons_1].
    apply Forall_app. split; [done|]. by apply List.Forall_cons.
Qed.

Lemma wf_external_same y b n : wf y -> wf (set_active (with_external b (c y)) (set_external_count n y)).
Proof.
  intros Hy. pose proof (wf_external y b n (stack (c y))) as He.
  replace (stacked (stack (c y)) y) with y in He by (by destruct y as [? ? ? ? ? []]). by apply He.
Qed.

Lemma xwp_bind_inv {A B} (m : X A) (f : A -> X B) Q s : xwp (xbind m f) Q s -> xwp m (fun a => xwp (f a) Q) s.
Proof. unfold xwp, xbind. by destruct (m s) as [[a|[]] s']. Qed.

(** The result is used and the function ends. *)
Lemma external_result result v y i (Q : bool -> Machine -> Prop) :
  wf y -> running y -> 0 <= base + 1 <= localVariableCount (c y) ->
  (returns_managed result = true -> (length (stack (c y)) < 50)%nat -> wf (stacked ((true, v) :: stack (c y)) y)) ->
  (forall b z i j, ok z -> Q b (MkMachine z i j)) ->
  xwp (push_result result v) (fun _ => xwp (finish_function true) Q) (MkMachine y i base).
Proof.
  intros Hy Hr Hb Hv HQ. apply xwp_bind_inv. eapply xwp_mono; [apply both_safe|].
  - apply frames_bind; [apply frames_push_result|intros _; apply frames_finish_function].
  - done.
  - xstep. apply push_result_safe; [done..|]. intros z Hz Hcz. apply finish_function_safe; [done|lia|done].
  - intros b [z j k] Hz. by apply HQ.
Qed.

Lemma exec_extcall_safe (Q : bool -> Machine -> Prop) :
  running x -> code_available x ip 2 ->
  0 <= base + 1 <= localVariableCount (c x) ->
  (forall b y i j, ok y -> Q b (MkMachine y i j)) -> xwp exec_extcall Q here.
Proof.
  intros Hrun Hc Hb HQ. unfold exec_extcall. xstep. apply xwp_operand; [done|]. fold (operand_at x ip 2).
  destruct (externalFunctions !! _) as [f|] eqn:Hf; [|exact I]. xstep. xstep.
  destruct (f x) as [[result v] x'] eqn:Hr. cbv beta iota.
  destruct (external_law f x result v x') as (Hwf' & Hfr & Hcount & Hv & Hs); [by eapply list_elem_of_lookup_2|done..|].
  pose proof (running_framed x x' Hrun Hfr) as Hrun'. xstep. xstep. cbv beta. apply xwp_if; intros Hle; [exact I|].
  apply xwp_if; intros Hst.
  - apply Z.eqb_eq in Hst. specialize (Hs Hst). xsteps. eapply xwp_mono; [apply exec_await_safe|].
    + by apply (wf_external_same x').
    + apply (running_external x'); [done|]. cbn. rewrite Hs. cbn. lia.
    + done.
    + apply wait_any_law.
    + intros _ [z i j] Hz. xsteps. by apply HQ.
  - xsteps.
    + set (y := set_active _ _). apply external_result; try done.
      * by apply (wf_external_same x').
      * apply (running_external x'); [done|]. match goal with He : externalCoroutine _ = true |- _ => rewrite He end. cbn. lia.
      * cbn. lia.
      * intros Hm Hl. by apply (wf_external x' false), Hv.
    + apply external_result; try done. lia.
Qed.

Lemma finish_function_ok b y i (Q : bool -> Machine -> Prop) :
  wf y -> running y -> 0 <= base + 1 <= localVariableCount (c y) ->
  (forall b z i j, ok z -> Q b (MkMachine z i j)) -> xwp (finish_function b) Q (MkMachine y i base).
Proof.
  intros Hy Hr Hb HQ. eapply xwp_mono; [apply both_safe; [apply frames_finish_function|done|]|].
  - by apply finish_function_safe.
  - intros r [z j k] Hz. by apply HQ.
Qed.

Lemma exec_libcall_safe (Q : bool -> Machine -> Prop) :
  running x -> code_available x ip 8 -> 0 <= base + 1 <= localVariableCount (c x) ->
  (forall b y i j, ok y -> Q b (MkMachine y i j)) -> xwp exec_libcall Q here.
Proof.
  intros Hrun Hc Hb HQ. unfold exec_libcall. xstep. xstep. set (y := set_active _ x).
  assert (Hy : wf y).
  { apply wf_active; [done|by apply wf_active_ok|apply local_slots|apply stack_slots]. }
  assert (Hry : running y) by by apply (running_framed x).
  assert (Hcy : localVariableCount (c y) = localVariableCount (c x)) by done.
  assert (Hp0 : parameterCount (c y) = 0) by done. assert (Hr0 : returnValueType (c y) = EXTCALL_NO_RETURN) by done.
  assert (Hdata : functionData y = functionData x) by done. clearbody y.
  xstep. apply xwp_operand; [unfold code_available in *; by rewrite Hdata|]. xstep. xstep.
  destruct (library_function _ y) as [[[]| |r] x'] eqn:Hr; xsteps; try lia.
  4: by apply library_returns in Hr.
  all: destruct (library_law _ _ _ Hy Hp0 Hr0 Hr) as [Hwf' Hfr Hcount _ Hp Hret].
  all: pose proof (running_framed y x' Hry Hfr) as Hrun'.
  all: cbn [context]; autorewrite with contexts.
  all: assert (Hl : slots_ok (reachable x') (drop (Z.to_nat (parameterCount (c x'))) (stack (c x')))) by apply Forall_drop, stack_slots.
  all: destruct (wf_active_ok _ Hwf') as [_ Hlen].
  - apply finish_function_ok; [|by apply (running_framed x')|cbn; lia|done]. apply wf_stacked; [done..|rewrite length_drop; lia].
  - set (l := drop _ (stack _)) in *. assert (Hw : wf (stacked l x')) by (apply wf_stacked; [done..|unfold l; rewrite length_drop; lia]).
    apply finish_function_ok; [|by apply (running_framed x')|cbn; lia|done]. apply wf_stacked; [done| |].
    + apply slots_cons; [by destruct Hret as [->| ->]|done].
    + match goal with Hm : ?b = true -> wf _ -> _, Hb : ?b = true |- _ => specialize (Hm Hb Hw); cbn in Hm; cbn; lia end.
  - exfalso. lia.
Qed.
End ExternalCalls.

(** ** What a command needs *)

(** The bytes of the bytecode that follow a command and belong to it. *)
Definition immediate_bytes (x : ExecutionContext) (ip : Z) (command : Z) : nat :=
  if is_type command [T_BLOCK; T_FUNCBODY] then 2 + Z.to_nat (operand_at x ip 2)
  else if command =? T_STRING_LITERAL then 4 + Z.to_nat (operand_at x ip 4)
  else if is_type command [T_NUMERIC_LITERAL; T_ANYTYPE_CAST; T_OP_CAST; T_LIBCALL] then 8
  else if is_type command [T_VARIABLE; T_EQUALS; T_EQUALS_DOT; T_IF; T_LOGICAL_OR; T_LOGICAL_AND; T_BRANCH] then 4
  else if is_type command [T_EXIT_SCOPE; T_DOT; T_NEW; T_EXTCALL] then 2
  else 0.

(** What the command before [ip] needs of the context: its operands in the bytecode are
    there; an operation of arithmetic does not write a number over a reference; the parts
    of a concatenation are strings; the arguments of a function are those it declares;
    what is boxed and unboxed has the type the bytecode says; no task is waited for more
    than four times.  The compiler is to emit bytecode with these properties, except for
    the last one, which is up to the script. *)
Record command_ok `{Platform} (x : ExecutionContext) (ip base command : Z) : Prop := {
  co_code : code_available x ip (immediate_bytes x ip command);
  co_binary : forall f a b l, binary_operation command = Some f -> stack (c x) = b :: a :: l -> may_hold a (f a.2 b.2);
  co_unary : forall f a l, unary_operation command = Some f -> stack (c x) = a :: l -> may_hold a (f a.2);
  co_slash : command = T_SLASH -> forall a b l, stack (c x) = b :: a :: l -> a.1 = false;
  co_concat : command = T_CONCAT -> Z.of_nat (length (heap x)) <= 2 ^ 32 /\ string_operand x 2 /\ string_operand x 1;
  co_arguments : command = T_FUNCBODY -> arguments_match x ip;
  co_box : command = T_ANYTYPE_CAST -> forall s l, stack (c x) = s :: l ->
    ASTIsManagedType (type_at (operand_at x ip 8)) = true -> s.1 = true;
  co_unbox : command = T_OP_CAST -> forall s l e y v, stack (c x) = s :: l -> entry_at (heap x) s.2 = Some e ->
    contents e = PAny y v -> ASTMatching module_of (type_at (operand_at x ip 8)) (type_at y) = true ->
    ASTIsManagedType (type_at (operand_at x ip 8)) = internalValuesAreManaged e;
  co_error : command = T_OP_ASSERT_ERR -> forall s l e v, stack (c x) = s :: l -> entry_at (heap x) s.2 = Some e ->
    contents e = PErr false v -> internalValuesAreManaged e = true -> exists t, stands_for (heap x) v t;
  co_search : is_type command [T_OP_FIND_STR; T_OP_FIND_AND_DEL_STR] = true -> string_list x;
  co_end : is_type command [T_END_FUNCTION; T_EXTCALL; T_LIBCALL] = true -> 0 <= base + 1 <= localVariableCount (c x);
  co_await : command = T_AWAIT -> externalCoroutine (c x) = false -> waits_fit x;
}.

(** The same for the command at the instruction pointer. *)
Definition operands_ok `{Platform} (m : Machine) : Prop :=
  let x := context m in let ip := instructionPointer m in
  bytes_ok (functionData x) /\ code_available x ip 1 /\
  command_ok x (ip + 1) (variableBase m) (operand_at x ip 1).

Lemma code_available_le x ip n m : code_available x ip n -> (m <= n)%nat -> code_available x ip m.
Proof. unfold code_available. lia. Qed.

Lemma code_available_rest x ip n m : code_available x ip (n + m) -> code_available x (ip + Z.of_nat n) m.
Proof. unfold code_available. lia. Qed.

Lemma is_type_either t a l : is_type t (a :: l) = true -> t = a \/ is_type t l = true.
Proof. cbn. intros [Ht|Ht]%orb_prop; [left; lia|by right]. Qed.

(** Which of these commands is it? *)
Ltac type_cases H :=
  lazymatch type of H with
  | is_type _ [] = true => discriminate H
  | is_type _ (_ :: _) = true => apply is_type_either in H as [->|H]; [|type_cases H]
  end.

(** The next test of the dispatch. *)
Ltac next_command :=
  lazymatch goal with
  | |- xwp (if is_type ?k ?l then _ else _) _ _ => let Hk := fresh "Hk" in destruct (is_type k l) eqn:Hk
  | |- xwp (if ?k =? ?t then _ else _) _ _ => destruct (Z.eqb_spec k t) as [->|_]
  end.

Section Dispatch.
Context `{PlatformLaws}.
Context (x : ExecutionContext) (ip base command : Z).
Context (Hwf : wf x) (Hcode : bytes_ok (functionData x)) (Hok : command_ok x ip base command).

Lemma operands_available n : immediate_bytes x ip command = n -> code_available x ip n.
Proof. intros <-. apply Hok. Qed.
End Dispatch.

(** Commands that need no more than the bytes that belong to them. *)
Create HintDb safety.
#[local] Hint Resolve exec_pop_safe exec_dup_safe exec_swap_safe exec_rot3_safe exec_convert_safe exec_assert_safe
  exec_null_safe exec_numeric_literal_safe exec_branch_safe exec_if_safe exec_logical_safe exec_variable_safe
  exec_equals_safe exec_exit_scope_safe exec_index_list_safe exec_first_last_safe exec_equals_list_safe
  exec_resize_safe exec_add_safe exec_insert_safe exec_insert_many_safe exec_delete_safe exec_delete_all_safe
  exec_dot_safe exec_equals_dot_safe exec_str_compare_safe exec_len_safe exec_err_cast_safe exec_new_safe
  exec_index_safe exec_success_safe exec_error_safe exec_default_safe exec_curry_safe exec_call_safe
  exec_interpolate_safe : safety.

(** The operands of a command that is known. *)
Ltac code := match goal with Hok : command_ok _ _ _ _ |- _ => apply (operands_available _ _ _ _ Hok); reflexivity end.
#[local] Hint Extern 1 (code_available _ _ _) => code : safety.
Ltac dispatch := repeat (next_command; [by eauto with safety|]).

Lemma block_safe `{PlatformLaws} x ip base command :
  wf x -> bytes_ok (functionData x) -> command_ok x ip base command -> is_type command [T_BLOCK; T_FUNCBODY] = true ->
  xwp (exec_block (command =? T_FUNCBODY)) (fun _ m' => wf (context m')) (MkMachine x ip base).
Proof.
  intros Hwf Hcode Hok Hk.
  assert (Hc : code_available x ip (2 + Z.to_nat (operand_at x ip 2))) by (type_cases Hk; code).
  apply exec_block_safe; [done..| | |].
  - eapply code_available_le; [done|lia].
  - by apply (code_available_rest x ip 2).
  - intros Hb%Z.eqb_eq. by apply (co_arguments _ _ _ _ Hok).
Qed.

(** The commands that neither start nor suspend a task nor call the platform. *)
Lemma plain_safe `{PlatformLaws} x ip base command :
  wf x -> bytes_ok (functionData x) -> command_ok x ip base command ->
  is_type command [T_OP_ASYNC; T_AWAIT; T_PERSIST; T_REPL_RESULT] = false ->
  xwp (execute command) (fun _ m' => wf (context m')) (MkMachine x ip base).
Proof.
  intros Hwf Hcode Hok Hplain. cbn in Hplain. rewrite !orb_false_iff in Hplain. destruct Hplain as (H1 & H2 & H3 & H4 & _).
  unfold execute. rewrite H1, H2, H3, H4.
  next_command; [by apply block_safe|]. dispatch.
  next_command. { assert (Hc : code_available x ip (4 + Z.to_nat (operand_at x ip 4))) by code.
    apply exec_string_literal_safe; [done|apply (code_available_le _ _ _ _ Hc); lia|by apply (code_available_rest x ip 4)]. }
  next_command. { by destruct (co_concat _ _ _ _ Hok eq_refl) as (? & ? & ?); apply exec_concat_safe. }
  dispatch.
  next_command. { apply exec_slash_safe; [done|]. by apply (co_slash _ _ _ _ Hok). }
  destruct (binary_operation command) as [f|] eqn:Hf.
  { apply binary_safe; [done|]. intros a b l. by apply (co_binary _ _ _ _ Hok). }
  destruct (unary_operation command) as [f|] eqn:Hg.
  { apply unary_safe; [done|]. intros a l. by apply (co_unary _ _ _ _ Hok). }
  dispatch.
  next_command. { type_cases Hk4; apply exec_logical_safe; try done; code. }
  dispatch.
  next_command. { apply exec_anytype_cast_safe; [done|code|]. by apply (co_box _ _ _ _ Hok). }
  next_command. { apply exec_cast_safe; [done|code|]. by apply (co_unbox _ _ _ _ Hok). }
  dispatch.
  next_command. { apply exec_assert_err_safe; [done|]. by apply (co_error _ _ _ _ Hok). }
  dispatch.
  next_command. { apply exec_find_safe; [done|]. apply (co_search _ _ _ _ Hok). }
  next_command. { apply exec_wrap_safe; auto. }
  next_command. { apply exec_wrap_safe; auto. }
  dispatch. exact I.
Qed.

Lemma execute_safe `{PlatformLaws} x ip base command :
  wf x -> running x -> bytes_ok (functionData x) -> command_ok x ip base command ->
  xwp (execute command) (fun _ m' => ok (context m')) (MkMachine x ip base).
Proof.
  intros Hwf Hrun Hcode Hok.
  destruct (is_type command [T_OP_ASYNC; T_AWAIT; T_PERSIST; T_REPL_RESULT]) eqn:Hk.
  - type_cases Hk.
    + apply exec_async_ok; [done..|]. by apply exec_async_safe.
    + apply exec_await_safe; [done..| |apply wait_any_law]. by apply (co_await _ _ _ _ Hok).
    + by apply exec_persist_safe.
    + by apply exec_repl_result_safe.
  - apply both_safe; [by apply execute_frames|done|by apply plain_safe].
Qed.

Lemma step_safe `{PlatformLaws} m :
  ok (context m) -> operands_ok m -> xwp step (fun _ m' => ok (context m')) m.
Proof.
  destruct m as [x ip base]. intros [Hwf Hrun] (Hcode & Hc & Hok). cbn in Hok. unfold step.
  xstep. apply xwp_operand; [done|]. fold (operand_at x ip 1). change (Z.of_nat 1) with 1.
  revert Hok. generalize (operand_at x ip 1). intros command Hok.
  assert (Hfin : forall (b : bool) y i j, ok y ->
            xwp (if b then xret tt else finish) (fun _ m' => ok (context m')) (MkMachine y i j)).
  { intros [] y i j Hy; xsteps; [done|]. unfold finish. xsteps. destruct (allCoroutines y) as [|k [|k' l]]; xsteps. exact I. }
  xstep. next_command. { apply finish_function_ok; [done..| |done]. by apply (co_end _ _ _ _ Hok). }
  next_command. { apply exec_extcall_safe; [done..|code| |done]. by apply (co_end _ _ _ _ Hok). }
  next_command. { apply exec_libcall_safe; [done..|code| |done]. by apply (co_end _ _ _ _ Hok). }
  next_command. { xstep. by apply (Hfin false). }
  xstep. eapply xwp_mono; [by apply execute_safe|]. intros _ [y i j] Hy. xstep. exact (Hfin true _ _ _ Hy).
Qed.

(** ** Runs *)

(** An iteration of the loop after which it goes on. *)
Definition next `{Platform} (m m' : Machine) : Prop := step m = (inl tt, m').

(** C1. The interpreter is safe: if the context is well formed and every command the loop
    comes to has the operands it needs, then for any number of iterations the loop is
    stopped neither by a failed assertion nor by an access outside an object nor by a
    cyclic function pointer, and the context it has come to is well formed: the heap
    is, no reference of the program dangles, stacks and variables are within their
    bounds, and the tasks that wait are on the lists of those they wait for. *)
Theorem run_safe `{PlatformLaws} m :
  wf (context m) -> running (context m) -> (forall m', rtc next m m' -> operands_ok m') ->
  forall fuel r m', run fuel m = (r, m') ->
  (forall reason, r <> Some (Halt reason)) /\ (r = None -> wf (context m') /\ running (context m')).
Proof.
  intros Hwf Hrun Hok fuel. revert m Hwf Hrun Hok. induction fuel as [|fuel IH]; intros m Hwf Hrun Hok r m'; cbn.
  { by intros [= <- <-]. }
  pose proof (step_safe m (conj Hwf Hrun) (Hok m (rtc_refl _ _))) as Hs. unfold xwp in Hs.
  destruct (step m) as [[[]|[code|reason]] m1] eqn:Hm; [|by intros [= <- <-]|done].
  destruct Hs as [Hw1 Hr1]. apply (IH m1 Hw1 Hr1). intros m2 Hm2. apply Hok. by apply (rtc_l next m m1).
Qed.

(** ** A platform that does nothing *)

#[local] Instance quiet : Platform := {|
  uninitialised := fun _ => MkEntry PEof false false 0;
  fresh := fun _ => 0;
  stale_item := fun _ => 0;
  PrintFloatToBuffer := fun _ => [];
  type_at := fun _ => node T_INT token0 [];
  module_of := fun _ => 0;
  externalFunctions := [];
  library_function := fun _ => ret_false;
  ExternalPersistWrite := fun x => (true, x);
  ExternalPassREPLResult := fun _ x => x;
  ExternalCoroutineWaitAny := fun x => match List.find externalCoroutine (allCoroutines x) with Some k => id k | None => 0 end;
|}.

#[local] Instance quiet_laws : PlatformLaws.
Proof.
  split; [done|done|by intros f x r v x' ?%elem_of_nil|by intros address x x'|done|].
  intros y (k & Hk%list_elem_of_In & He). cbn. destruct (List.find externalCoroutine (allCoroutines y)) as [k'|] eqn:Hf.
  - apply find_some in Hf as [Hk' He']. exists k'. by rewrite list_elem_of_In.
  - apply (find_none _ _ Hf) in Hk. congruence.
Qed.

(** The function at address 0 of a context that has nothing but this bytecode. *)
Definition program (code : bytes) : ExecutionContext :=
  let x := initial_context uninitialised in
  MkContext [] (heap x) (heapFirstUnusedEntry x) code [] (c x) [] [] 0 0.
Definition start_of (code : bytes) : Machine := MkMachine (program code) 0 (-1).

Definition literal (v : Z) : bytes := T_NUMERIC_LITERAL :: le_split 8 (wrap 64 v).

(** A program that starts a task, then [n] tasks that wait for it, and waits for it. *)
Definition variable (i : Z) : bytes := T_VARIABLE :: le_split 4 i.
Definition wait_for_task : bytes :=
  T_NEW :: le_split 2 (wrap 16 (-1)) ++ [T_DUP] ++ variable 2 ++ [T_OP_ADD; T_AWAIT; T_POP; T_END_FUNCTION].
Definition task_code : bytes := [T_FUNCBODY; 0; 0; T_END_FUNCTION].
Definition waiter_code : bytes := [T_FUNCBODY; 0; 0] ++ wait_for_task.
Definition start_code (n : nat) : bytes :=
  variable 0 ++ [T_OP_ASYNC] ++ T_EQUALS :: le_split 4 2 ++
  concat (repeat (variable 1 ++ [T_OP_ASYNC; T_POP]) n) ++ wait_for_task.
Definition tasks (n : nat) : Machine :=
  let entry l := MkEntry (PFuncptr l) false false 0 in
  let before_start := [0; T_AWAIT; T_CALL; T_END_CALLBACK] ++ task_code ++ waiter_code in
  MkMachine (MkContext [(true, 1); (true, 2); (false, 0)] [MkEntry PEof false false 0; entry 4; entry 8] 0
               (before_start ++ start_code n) [] empty_coroutine [] [] 0 0)
    (Z.of_nat (length before_start)) (-1).

Lemma tasks_wf n : wf (context (tasks n)).
Proof.
  split.
  - by apply (heap_okb_sound _ [] [1; 2]).
  - cbn. lia.
  - intros i e _ He. apply entry_at_Some in He as [Hi He]. cbn in He.
    destruct (Z.to_nat i) as [|[|[|k]]]; cbn in He; simplify_eq; done.
  - by apply List.Forall_cons; [split; cbn; lia|].
Qed.

Lemma tasks_running n : running (context (tasks n)).
Proof.
  split; [split|..].
  - apply NoDup_singleton.
  - apply NoDup_nil_2.
  - by intros u ?%elem_of_nil.
  - intros i k j w [_ ->%list_elem_of_singleton]%get_id. done.
  - intros w kw p [_ ->%list_elem_of_singleton]%get_id. by intros ?%elem_of_nil.
  - intros w kw [_ ->%list_elem_of_singleton]%get_id. apply NoDup_nil_2.
  - intros w kw [_ ->%list_elem_of_singleton]%get_id. done.
  - intros w kw [_ ->%list_elem_of_singleton]%get_id. by left.
  - split; [done|]. by intros ?%elem_of_nil.
  - done.
  - by apply List.Forall_cons.
  - done.
Qed.

Lemma tasks_bytes : bytes_ok (functionData (context (tasks 0))).
Proof. by apply bytes_okb_sound. Qed.

Lemma next_cases m m' : rtc next m m' -> m' = m \/ exists m1, next m m1 /\ rtc next m1 m'.
Proof. inversion 1; [by left|right; eauto]. Qed.

(** The conditions on a command that is known hold by evaluation. *)
Ltac check_waits :=
  intros s l e items a Hst He Hc; vm_compute in Hst; injection Hst as <- <-; vm_compute in He;
  try discriminate He; injection He as <-; vm_compute in Hc; injection Hc as <- <-; repeat (apply List.Forall_cons; [vm_compute; lia|]); apply List.Forall_nil.
Ltac check_operands :=
  split; [exact tasks_bytes|split; [by vm_compute|]]; split;
  try (by vm_compute; split; congruence); try (vm_compute; congruence); try (intros ? ? ?; vm_compute; congruence);
  try (intros ? ? ? ?; vm_compute; congruence); try (intros _ _; check_waits).
Ltac next_step :=
  match goal with Hm : rtc next _ _ |- _ =>
    apply next_cases in Hm as [->|(m1 & Hm1 & Hm)]; [|vm_compute in Hm1; try discriminate Hm1; injection Hm1 as <-]
  end.

Lemma tasks_operands m : rtc next (tasks 0) m -> operands_ok m.
Proof.
  intros Hm. repeat (next_step; [check_operands|]). next_step. check_operands.
Qed.

(** A script that starts a task and waits for it runs to its end. *)
Lemma run_safe_witness : exists m,
  run 20 (tasks 0) = (Some (Return 1), m) /\
  (forall fuel r m', run fuel (tasks 0) = (r, m') ->
   (forall reason, r <> Some (Halt reason)) /\ (r = None -> wf (context m') /\ running (context m'))).
Proof.
  eexists. split; [vm_compute; reflexivity|]. apply run_safe; [apply tasks_wf|apply tasks_running|apply tasks_operands].
Defined.

(** ** What the interpreter does wrong *)

Definition result (code : bytes) : option exit * list slot :=
  let '(r, m) := run 100 (start_of code) in (r, stack (c (context m))).

(** [T_SLASH] divides the operands as doubles: the quotient of [-6] and [2] is not [-3]. *)
Theorem integer_division_is_wrong :
  result (literal (-6) ++ literal 2 ++ [T_SLASH; T_END_FUNCTION]) = (Some (Return 1), [(false, - 2 ^ 63)]).
Proof. vm_compute. reflexivity. Qed.

(** The comparison of references leaves a managed [1] on the stack, so that it cannot be
    assigned to a variable of type [bool]: the program is reported as malformed. *)
Theorem comparison_is_malformed :
  result ([T_BLOCK; 1; 0; 0; T_NULL; T_NULL; T_DOUBLE_EQUALS; T_EQUALS] ++ le_split 4 (wrap 32 (-1)) ++ [T_END_FUNCTION]) =
  (Some (Return (-1)), [(true, 1)]).
Proof. vm_compute. reflexivity. Qed.

(** Four waiters of a task are unblocked when it ends; with the fifth the array of waiters
    is reallocated, and the pointers of the first four into it are followed although the
    array is gone. *)
Theorem waiters_dangle :
  (run 200 (tasks 3)).1 = Some (Return 1) /\ (run 200 (tasks 4)).1 = Some (Halt OutOfBounds).
Proof. vm_compute. by split. Qed.
