(* ===== verification/ScriptGenerate.v ===== *)
(** * Code generation of the script engine (util/script.c)

    [FunctionBuilderAppend], [FunctionBuilderAddLineNumber], [FunctionBuilderVariable] and
    [FunctionBuilderRecurse].  The bytecode is the list [data] of the
    builder; its capacity is not modelled.  The address of a node that is put into the
    bytecode is its index plus one. *)

From Stdlib Require Import String.
From stdpp Require Import base list.
From S2P Require Import Prelude ScriptToken ScriptParser ScriptHeap ScriptFloat ScriptExec ScriptScope ScriptTypes.

(** ** Writing bytecode *)

Definition with_data (d : bytes) (b : FunctionBuilder) : FunctionBuilder :=
  MkBuilder d (lineNumbers b) (scopeIndex b) (assigns_persistent b) (isDotAssignment b) (isListAssignment b)
    (variableOffset b) (builder_module b) (replResultType b).
Definition with_lines (l : list LineNumber) (b : FunctionBuilder) : FunctionBuilder :=
  MkBuilder (data b) l (scopeIndex b) (assigns_persistent b) (isDotAssignment b) (isListAssignment b)
    (variableOffset b) (builder_module b) (replResultType b).
Definition with_target (i : Z) (dot list : bool) (b : FunctionBuilder) : FunctionBuilder :=
  MkBuilder (data b) (lineNumbers b) i (assigns_persistent b) dot list
    (variableOffset b) (builder_module b) (replResultType b).
Definition with_persistent (p : bool) (b : FunctionBuilder) : FunctionBuilder :=
  MkBuilder (data b) (lineNumbers b) (scopeIndex b) p (isDotAssignment b) (isListAssignment b)
    (variableOffset b) (builder_module b) (replResultType b).
Definition with_offset (z : Z) (b : FunctionBuilder) : FunctionBuilder :=
  MkBuilder (data b) (lineNumbers b) (scopeIndex b) (assigns_persistent b) (isDotAssignment b) (isListAssignment b)
    z (builder_module b) (replResultType b).
Definition with_module (m : option nat) (b : FunctionBuilder) : FunctionBuilder :=
  MkBuilder (data b) (lineNumbers b) (scopeIndex b) (assigns_persistent b) (isDotAssignment b) (isListAssignment b)
    (variableOffset b) m (replResultType b).
Definition with_repl (t : option nat) (b : FunctionBuilder) : FunctionBuilder :=
  MkBuilder (data b) (lineNumbers b) (scopeIndex b) (assigns_persistent b) (isDotAssignment b) (isListAssignment b)
    (variableOffset b) (builder_module b) t.

Definition get_builder : M ast FunctionBuilder := let! s := get in ret (builder s).
Definition update_builder (f : FunctionBuilder -> FunctionBuilder) : M ast unit :=
  modify (fun s => set_builder (f (builder s)) s).

Definition FunctionBuilderAppend (l : bytes) : M ast unit := update_builder (fun b => with_data (data b ++ l) b).

(** Integers of [n] bytes; commands are bytes. *)
Definition emit_int (n : nat) (v : Z) : M ast unit :=
  FunctionBuilderAppend (le_split n (wrap (8 * Z.of_nat n) v)).
Definition emit (command : Z) : M ast unit := emit_int 1 command.
Fixpoint emit_all (l : list Z) : M ast unit :=
  match l with [] => ret tt | b :: l' => emit b ;;; emit_all l' end.
Definition emit_literal (v : Z) : M ast unit := emit T_NUMERIC_LITERAL ;;; emit_int 8 v.

(** [builder->dataBytes] *)
Definition position : M ast Z := let! b := get_builder in ret (Z.of_nat (length (data b))).

(** [MemoryCopy] of a 32-bit integer into the bytecode. *)
Definition patch (offset delta : Z) : M ast unit :=
  update_builder (fun b =>
    let o := Z.to_nat offset in
    with_data (take o (data b) ++ le_split 4 (wrap 32 delta) ++ drop (o + 4) (data b)) b).

(** Leave room for a jump, and fill it in so that it goes to the current position. *)
Definition hole : M ast Z := let! o := position in emit_int 4 0 ;;; ret o.
Definition fill (offset : Z) : M ast unit := let! here := position in patch offset (here - offset).

(** A jump back to [start]. *)
Definition branch_to (start : Z) : M ast unit :=
  emit T_BRANCH ;;;
  let! here := position in
  emit_int 4 (start - here).

(** The outermost function around a node. *)
Fixpoint line_function (fuel : nat) (ancestor : option nat) (found : option Token) : M ast (option Token) :=
  match fuel with
  | O => stop OutOfFuel
  | S f =>
      match ancestor with
      | None => ret found
      | Some p =>
          let! n := node_at p in
          line_function f (parent n) (if type n =? T_FUNCTION then Some (token n) else found)
      end
  end.

Definition FunctionBuilderAddLineNumber (p : nat) : M ast unit :=
  let! s := get in
  let! f := line_function (S (length (nodes s))) (Some p) None in
  let! n := node_at p in
  let! here := position in
  update_builder (fun b =>
    with_lines (lineNumbers b ++ [MkLineNumber (builder_module b) here (token_line (token n)) f]) b).

(** ** Variables *)

(** What the search for a variable has found: the index, or [-1]; the root scope; the
    offset of the variables of the module; whether it is imported; its value if it is a
    constant. *)
Record search := MkSearch {
  index : Z;
  rootScope : option nat;
  module_offset : Z;
  inlineImport : bool;
  constant : option Z;
}.

(** The conversion to a signed 16-bit integer. *)
Definition s16 (z : Z) : Z := swrap 16 z.

(** The entry with the name of the variable, the [j]-th variable of its scope. *)
Definition variable_entry (f p : nat) (forAssignment : bool) (x : AstNode) (j : Z) (v : search) : M ast search :=
  update_builder (with_persistent (isPersistentVariable (flags x))) ;;;
  let! v :=
    (if type x =? T_INLINE then
       let i := inlineImportVariableIndex x in
       assert (negb (i =? -1)) ;;;
       let! m := deref (importData x) in
       let! d := import_at m in
       ret (MkSearch i (rootScope v) (globalVariableOffset d) true (constant v))
     else if type x =? T_INTTYPE_CONSTANT then
       let! c := deref (firstChild x) in
       let! (value, error) := ASTEvaluateIntConstant f c false in
       if error then ret_false
       else ret (MkSearch j (rootScope v) (module_offset v) (inlineImport v) (Some value))
     else ret (MkSearch j (rootScope v) (module_offset v) (inlineImport v) (constant v))) in
  if negb (type x =? T_DECLARE) && forAssignment then
    fail_at p "A value cannot be assigned to this. Try putting a variable name here."
  else ret v.

Fixpoint variable_entries (f p : nat) (forAssignment : bool) (w : bytes) (l : list nat) (j : Z) (v : search)
  : M ast search :=
  match l with
  | [] => ret v
  | e :: l' =>
      let! x := node_at e in
      let! v := if bool_decide (text (token x) = w) && (index v =? -1) then variable_entry f p forAssignment x j v
                else ret v in
      variable_entries f p forAssignment w l' (if ScopeIsVariableType x then j + 1 else j) v
  end.

(** The loop over the scopes around a node. *)
Fixpoint variable_scopes (n : nat) (f p : nat) (forAssignment : bool) (w : bytes) (ancestor current : option nat)
    (v : search) : M ast search :=
  match n with
  | O => stop OutOfFuel
  | S n' =>
      match ancestor with
      | None => ret v
      | Some a =>
          let! m := node_at a in
          if bool_decide (scope m = current) then variable_scopes n' f p forAssignment w (parent m) current v
          else
            let! sc := deref (scope m) in
            let! x := scope_at sc in
            let root := if isRoot x then Some sc else rootScope v in
            let i := if index v =? -1 then index v else s32 (index v + variableEntryCount x) in
            let! v := variable_entries f p forAssignment w (entries x) 0
                        (MkSearch i root (module_offset v) (inlineImport v) (constant v)) in
            variable_scopes n' f p forAssignment w (parent m) (scope m) v
      end
  end.

Definition FunctionBuilderVariable (f p : nat) (forAssignment : bool) : M ast unit :=
  let! n := node_at p in
  let! b := get_builder in
  let! s := get in
  let! v := variable_scopes (S (length (nodes s))) f p forAssignment (text (token n)) (Some p) None
              (MkSearch (-1) None (variableOffset b) false None) in
  FunctionBuilderAddLineNumber p ;;;
  match constant v with
  | Some c => emit_literal c
  | None =>
      let! r := deref (rootScope v) in
      let! x := scope_at r in
      let count := variableEntryCount x in
      let i := if (s32 count <=? index v) && negb (inlineImport v) then s32 (count - index v - 1)
               else s32 (index v + module_offset v) in
      if forAssignment then update_builder (with_target i false false)
      else emit (type n) ;;; emit_int 4 i
  end.

(** A variable node for a name in the scope of [p]. *)
Definition variable_node (p : nat) (k : Token) (m : option nat) : M ast nat :=
  let! n := node_at p in
  new_node (MkAst T_IDENTIFIER k m no_flags false 0 false 0 None None (Some p) (scope n) None None).

(** ** Expressions and statements *)

Section Recurse.
Context (f : nat) (recurse : nat -> bool -> M ast unit).

Definition generate (p : nat) : M ast unit := recurse p false.

(** The flags of the variables of a scope. *)
Fixpoint emit_flags (l : list nat) : M ast unit :=
  match l with
  | [] => ret tt
  | e :: l' =>
      let! x := node_at e in
      (if ScopeIsVariableType x then
         let! m := ASTIsManagedType (expressionType x) in emit_int 1 (Z.b2z m)
       else ret tt) ;;;
      emit_flags l'
  end.

(** The start of a block or a function body. *)
Definition enter_scope (p : nat) (n : AstNode) : M ast unit :=
  let! sc := deref (scope n) in
  let! x := scope_at sc in
  check (variableEntryCount x <=? 10000) p "There are too many variables in this scope (the maximum is 10000)." ;;;
  FunctionBuilderAddLineNumber p ;;;
  emit (type n) ;;;
  emit_int 2 (variableEntryCount x) ;;;
  emit_flags (entries x).

(** The nodes of a chain. *)
Fixpoint collect_siblings (n : nat) (c : option nat) : M ast (list nat) :=
  match n with
  | O => stop OutOfFuel
  | S n' =>
      match c with
      | None => ret []
      | Some p => let! q := next p in let! l := collect_siblings n' q in ret (p :: l)
      end
  end.

(** The assignments of the values on the stack to [l], the last one first. *)
Fixpoint assign_all (p : nat) (y : Z) (l : list nat) : M ast unit :=
  match l with
  | [] => ret tt
  | child :: l' =>
      update_builder (with_persistent false) ;;;
      (if y =? T_EQUALS then recurse child true
       else FunctionBuilderVariable f (if y =? T_DECL_GROUP_AND_SET then child else p) true) ;;;
      FunctionBuilderAddLineNumber p ;;;
      let! b := get_builder in
      emit (if isListAssignment b then T_EQUALS_LIST else if isDotAssignment b then T_EQUALS_DOT else T_EQUALS) ;;;
      (if isListAssignment b then ret tt else emit_int 4 (scopeIndex b)) ;;;
      (if assigns_persistent b then emit T_PERSIST else ret tt) ;;;
      assign_all p y l'
  end.

(** [T_EQUALS], [T_DECLARE] and [T_DECL_GROUP_AND_SET]. *)
Definition generate_assignment (p : nat) (y : Z) : M ast unit :=
  let! c := child1 p in
  let! after := next c in
  match after with
  | None => ret tt
  | Some e =>
      let! cy := ntype c in
      let! (variables, value) :=
        (if (y =? T_EQUALS) && (cy =? T_SET_GROUP) then
           let! g := first c in
           let! l := collect_siblings f g in
           ret (l, e)
         else
           let! l := collect_siblings f (Some c) in
           let! value := deref (list.last l) in
           ret (removelast l, value)) in
      assert (Z.of_nat (length variables) <=? FUNCTION_MAX_ARGUMENTS) ;;;
      generate value ;;;
      assign_all p y (rev variables)
  end.

Fixpoint generate_all (l : list nat) : M ast unit :=
  match l with [] => ret tt | p :: l' => generate p ;;; generate_all l' end.

(** The arguments from the last one on; the array of them has a fixed size. *)
Definition generate_call (p : nat) : M ast unit :=
  let! arguments := child2 p in
  let! a := first arguments in
  let! l := collect_siblings f a in
  (if Z.of_nat (length l) <=? FUNCTION_MAX_ARGUMENTS then ret tt else stop OutOfBounds) ;;;
  generate_all (rev l) ;;;
  let! function := child1 p in
  generate function ;;;
  FunctionBuilderAddLineNumber p ;;;
  emit T_CALL.

Definition generate_while (p : nat) : M ast unit :=
  let! start := position in
  let! condition := child1 p in
  generate condition ;;;
  FunctionBuilderAddLineNumber p ;;;
  emit T_IF ;;;
  let! o := hole in
  let! body := child2 p in
  generate body ;;;
  branch_to start ;;;
  fill o.

(** [T_POP] for each value of an expression that is not used. *)
Definition pop_unused (t : nat) : M ast unit :=
  let! n := ASTGetTypePopCount f t in
  emit_all (repeat T_POP (Z.to_nat n)).

Definition generate_for (p : nat) : M ast unit :=
  let! declare := child1 p in
  let! condition := child2 p in
  let! increment := child3 p in
  let! body := child4 p in
  let! dy := ntype declare in
  check (is_type dy [T_DECLARE; T_EQUALS]) p
    "The first section of a for statement must be a variable declaration or an assignment." ;;;
  generate declare ;;;
  let! start := position in
  generate condition ;;;
  FunctionBuilderAddLineNumber p ;;;
  emit T_IF ;;;
  let! o := hole in
  generate body ;;;
  generate increment ;;;
  let! i := node_at increment in
  (match expressionType i with
   | None => ret tt
   | Some t =>
       let! ty := ntype t in
       if ty =? T_VOID then ret tt
       else if type i =? T_CALL then pop_unused t
       else fail_at increment "The result of the expression is unused."
   end) ;;;
  branch_to start ;;;
  fill o.

(** The commands of a loop over a list, with [list] and [index] on top of the stack:
    compare the index with the length, and take the item. *)
Definition compare_index : list Z := [T_SWAP; T_DUP; T_ROT3; T_DUP; T_OP_LEN; T_ROT3; T_GREATER_THAN].
Definition take_item (str : bool) : list Z :=
  [T_SWAP; T_DUP; T_ROT3; T_DUP; T_ROT3; if str then T_INDEX else T_INDEX_LIST].

Definition generate_for_each (p : nat) : M ast unit :=
  let! declare := child1 p in
  let! list := child2 p in
  let! body := child3 p in
  let! t := etype list in
  let! str := ASTMatching f t (Some globalExpressionTypeStr) in
  let! d := node_at declare in
  check (type d =? T_DECLARE) p "The left of a for-in statement must be a variable declaration." ;;;
  let! v := variable_node p (token d) (token_module d) in
  let! old := position in
  ignore_result (FunctionBuilderVariable f v true) ;;;
  let! new := position in
  assert (old =? new) ;;;
  let! b := get_builder in
  let base := scopeIndex b in
  generate declare ;;;
  emit T_ZERO ;;;
  generate list ;;;
  let! start := position in
  emit_all compare_index ;;;
  FunctionBuilderAddLineNumber p ;;;
  emit T_IF ;;;
  let! o := hole in
  emit_all (take_item str) ;;;
  emit T_EQUALS ;;; emit_int 4 base ;;;
  emit T_EQUALS ;;; emit_int 4 (base - 1) ;;;
  emit T_EQUALS ;;; emit_int 4 (base - 2) ;;;
  generate body ;;;
  emit T_VARIABLE ;;; emit_int 4 (base - 2) ;;;
  emit T_VARIABLE ;;; emit_int 4 (base - 1) ;;;
  emit T_SWAP ;;; emit_literal 1 ;;; emit T_ADD ;;; emit T_SWAP ;;;
  branch_to start ;;;
  fill o ;;;
  emit T_POP ;;; emit T_POP.

Definition generate_if (p : nat) : M ast unit :=
  let! condition := child1 p in
  generate condition ;;;
  let! t := etype condition in
  let! t := deref t in
  let! y := ntype t in
  (if y =? T_ERR then emit T_OP_SUCCESS else ret tt) ;;;
  FunctionBuilderAddLineNumber p ;;;
  emit T_IF ;;;
  let! o := hole in
  let! body := child2 p in
  generate body ;;;
  let! otherwise := next body in
  match otherwise with
  | None => fill o
  | Some e =>
      emit T_BRANCH ;;;
      let! oe := hole in
      fill o ;;;
      generate e ;;;
      fill oe
  end.

Definition generate_if_err (p : nat) : M ast unit :=
  let! condition := child2 p in
  generate condition ;;;
  FunctionBuilderAddLineNumber p ;;;
  emit_all [T_DUP; T_OP_SUCCESS; T_IF] ;;;
  let! o := hole in
  emit T_OP_ASSERT_ERR ;;;
  let! declare := child1 p in
  let! d := node_at declare in
  let! v := variable_node p (token d) (token_module d) in
  ignore_result (FunctionBuilderVariable f v true) ;;;
  let! b := get_builder in
  emit T_EQUALS ;;; emit_int 4 (scopeIndex b) ;;;
  let! body := child3 p in
  generate body ;;;
  emit T_BRANCH ;;;
  let! oe := hole in
  fill o ;;;
  emit T_POP ;;;
  let! otherwise := next body in
  match otherwise with None => ret tt | Some e => generate e end ;;;
  fill oe.

(** [T_LOGICAL_AND] and [T_LOGICAL_OR]. *)
Definition generate_logical (p : nat) (y : Z) : M ast unit :=
  let! a := child1 p in
  generate a ;;;
  emit y ;;;
  let! o := hole in
  let! b := child2 p in
  generate b ;;;
  fill o.

(** The number of fields of a struct, up to 1000. *)
Fixpoint count_fields (n : nat) (c : option nat) (fieldCount : Z) : M ast Z :=
  match n with
  | O => stop OutOfFuel
  | S n' =>
      match c with
      | None => ret fieldCount
      | Some p =>
          check (negb (fieldCount =? 1000)) p "The struct exceeds the maximum number of fields (1000)." ;;;
          let! q := next p in
          count_fields n' q (fieldCount + 1)
      end
  end.

Definition generate_new (p : nat) : M ast unit :=
  let! c := child1 p in
  let! y := ntype c in
  (if y =? T_ERR then let! m := child2 p in ignore_result (generate m) else ret tt) ;;;
  FunctionBuilderAddLineNumber p ;;;
  emit T_NEW ;;;
  let! i := first c in
  let! fieldCount :=
    (if y =? T_LIST then let! m := ASTIsManagedType i in ret (if m then -2 else -1)
     else if y =? T_ERR then let! m := ASTIsManagedType i in ret (if m then -4 else -3)
     else count_fields f i 0) in
  emit_int 2 fieldCount.

(** Code for the nodes of a chain, whatever it returns. *)
Fixpoint generate_ignoring (l : list nat) : M ast unit :=
  match l with [] => ret tt | p :: l' => ignore_result (generate p) ;;; generate_ignoring l' end.

(** The address of a node. *)
Definition address (o : option nat) : Z := match o with Some p => Z.of_nat p + 1 | None => 0 end.

(** The results of the parts are not tested. *)
Definition generate_colon (p : nat) (n : AstNode) : M ast unit :=
  let! c := child1 p in
  ignore_result (generate c) ;;;
  (if operationType n =? T_OP_CAST then ret tt
   else
     let! arguments := child2 p in
     let! a := first arguments in
     let! l := collect_siblings f a in
     generate_ignoring l) ;;;
  FunctionBuilderAddLineNumber p ;;;
  emit (operationType n) ;;;
  if operationType n =? T_OP_CAST then emit_int 8 (address (expressionType n)) else ret tt.

(** The items of a list literal from the [i]-th on. *)
Fixpoint generate_items (l : list nat) (i : Z) : M ast unit :=
  match l with
  | [] => ret tt
  | item :: l' =>
      emit T_DUP ;;;
      ignore_result (generate item) ;;;
      emit T_SWAP ;;;
      emit_literal (wrap 32 i) ;;;
      emit T_EQUALS_LIST ;;;
      generate_items l' (i + 1)
  end.

Definition generate_list_literal (p : nat) (n : AstNode) : M ast unit :=
  let! t := deref (expressionType n) in
  let! i := first t in
  let! m := ASTIsManagedType i in
  FunctionBuilderAddLineNumber p ;;;
  emit T_NEW ;;;
  emit_int 2 (if m then -2 else -1) ;;;
  let! l := collect_siblings f (firstChild n) in
  emit T_DUP ;;;
  emit_literal (wrap 32 (Z.of_nat (length l))) ;;;
  emit T_OP_RESIZE ;;;
  generate_items l 0.

(** The statements of a block; the results of calls are dropped. *)
Definition unused_result (child : nat) : M ast unit :=
  let! x := node_at child in
  match expressionType x with
  | None => ret tt
  | Some t =>
      let! ty := ntype t in
      if ty =? T_VOID then ret tt
      else if is_type (type x) [T_CALL; T_AWAIT] ||
              ((type x =? T_COLON) && is_type (operationType x) [T_OP_FIND_AND_DELETE; T_OP_FIND_AND_DEL_STR]) then
        pop_unused t
      else if is_type (type x) [T_DECLARE; T_EQUALS] then ret tt
      else fail_at child "The result of the expression is unused."
  end.

Definition generate_children (p : nat) (n : AstNode) : M ast unit :=
  each_sibling (fun child =>
    generate child ;;;
    if type n =? T_BLOCK then unused_result child else ret tt) (firstChild n).

(** The end of a block or a function body. *)
Definition leave_scope (p : nat) (n : AstNode) : M ast unit :=
  let! sc := deref (scope n) in
  let! x := scope_at sc in
  FunctionBuilderAddLineNumber p ;;;
  emit T_EXIT_SCOPE ;;;
  emit_int 2 (variableEntryCount x) ;;;
  if type n =? T_FUNCBODY then emit T_END_FUNCTION else ret tt.

Definition finish_reterr (p : nat) : M ast unit :=
  FunctionBuilderAddLineNumber p ;;;
  emit_all [T_DUP; T_OP_SUCCESS; T_LOGICAL_NOT; T_IF] ;;;
  emit_int 4 9 ;;;
  emit T_OP_ERROR ;;;
  emit T_NEW ;;;
  emit_int 2 (-3) ;;;
  emit_all [T_END_FUNCTION; T_POP].

(** The type of the type of a node. *)
Definition type_of (p : nat) : M ast Z := let! t := etype p in let! t := deref t in ntype t.

Definition finish_interpolate (p : nat) : M ast unit :=
  let! e := child2 p in
  let! t := etype e in
  let! t := deref t in
  let! y := ntype t in
  let! item := if y =? T_LIST then let! i := child1 t in ntype i else ret T_ERROR in
  let b := if y =? T_STR then T_INTERPOLATE_STR
           else if y =? T_FLOAT then T_INTERPOLATE_FLOAT
           else if is_type y [T_INT; T_INTTYPE] then T_INTERPOLATE_INT
           else if (y =? T_LIST) && (item =? T_INT) then T_INTERPOLATE_ILIST
           else if y =? T_BOOL then T_INTERPOLATE_BOOL else T_ERROR in
  assert (negb (b =? T_ERROR)) ;;;
  FunctionBuilderAddLineNumber p ;;;
  emit b.

(** The position of a field, counted from the front. *)
Fixpoint field_position (n : nat) (w : bytes) (c : option nat) (i : Z) : M ast (nat * Z) :=
  match n with
  | O => stop OutOfFuel
  | S n' =>
      let! p := deref c in
      let! x := node_at p in
      if bool_decide (text (token x) = w) then ret (p, i) else field_position n' w (sibling x) (i + 1)
  end.

Definition finish_struct_dot (p : nat) (n : AstNode) (t : nat) (forAssignment : bool) : M ast unit :=
  let! fields := first t in
  let! (field, i) := field_position f (text (token n)) fields 0 in
  let! ft := first field in
  let! m := ASTIsManagedType ft in
  let i := s16 (if m then -1 - i else i) in
  if forAssignment then update_builder (with_target i true false)
  else FunctionBuilderAddLineNumber p ;;; emit (type n) ;;; emit_int 2 i.

Definition finish_module_dot (p : nat) (n : AstNode) (t : nat) (forAssignment : bool) : M ast unit :=
  if forAssignment then fail_at p "You cannot directly modify a variable from an imported module."
  else
    let! tn := node_at t in
    let! up := deref (parent tn) in
    let! i := node_at up in
    assert (type i =? T_IMPORT) ;;;
    let! m := deref (importData i) in
    let! d := import_at m in
    let! x := module_scope m in
    let! real := ScopeLookupIndex (text (token n)) x false true in
    let! e := deref (entries x !! Z.to_nat real) in
    let! declaration := node_at e in
    FunctionBuilderAddLineNumber p ;;;
    emit T_POP ;;;
    if type declaration =? T_INTTYPE_CONSTANT then
      let! c := deref (firstChild declaration) in
      let! (value, error) := ASTEvaluateIntConstant f c false in
      if error then ret_false else emit_literal value
    else
      let! index := ScopeLookupIndex (text (token n)) x false false in
      emit T_VARIABLE ;;;
      emit_int 4 (wrap 32 index + globalVariableOffset d).

Definition finish_dot (p : nat) (n : AstNode) (forAssignment : bool) : M ast unit :=
  let! c := child1 p in
  let! t := etype c in
  let! t := deref t in
  let! y := ntype t in
  if y =? T_STRUCT then finish_struct_dot p n t forAssignment else finish_module_dot p n t forAssignment.

Definition finish_index (p : nat) (forAssignment : bool) : M ast unit :=
  let! c := child1 p in
  let! y := type_of c in
  if forAssignment then
    check (negb (y =? T_STR)) c "Strings cannot be modified." ;;;
    let! b := get_builder in update_builder (with_target (scopeIndex b) false true)
  else FunctionBuilderAddLineNumber p ;;; emit (if y =? T_STR then T_INDEX else T_INDEX_LIST).

Definition finish_repl_result (p : nat) : M ast unit :=
  let! c := child1 p in
  let! t := etype c in
  let! void := ASTMatching f t (Some globalExpressionTypeVoid) in
  (if void then ret tt else emit T_REPL_RESULT) ;;;
  let! b := get_builder in
  check (bool_decide (replResultType b = None)) p "Multiple REPL results are not allowed." ;;;
  update_builder (with_repl t).

Definition arithmetic_tokens : list Z :=
  [T_ADD; T_MINUS; T_ASTERISK; T_SLASH; T_NEGATE; T_BITWISE_NOT; T_BIT_SHIFT_LEFT; T_BIT_SHIFT_RIGHT; T_BITWISE_OR;
   T_BITWISE_AND; T_BITWISE_XOR].

(** The command of a node, behind the code of its children. *)
Definition finish_command (p : nat) (n : AstNode) (forAssignment : bool) : M ast unit :=
  let y := type n in
  let line := FunctionBuilderAddLineNumber p in
  if is_type y [T_FUNCBODY; T_BLOCK] then leave_scope p n
  else if y =? T_DECLARE_GROUP then ret tt
  else if is_type y [T_RETURN; T_RETURN_TUPLE] then line ;;; emit T_END_FUNCTION
  else if y =? T_RETERR then finish_reterr p
  else if is_type y [T_NULL; T_LOGICAL_NOT; T_AWAIT; T_ERR_CAST; T_ZERO] then line ;;; emit y
  else if y =? T_ANYTYPE_CAST then
    line ;;; emit y ;;;
    let! c := child1 p in let! t := etype c in emit_int 8 (address t)
  else if y =? T_ASSERT then
    line ;;;
    let! c := child1 p in
    let! t := type_of c in
    if t =? T_ERR then emit_all [T_OP_ASSERT_ERR; T_POP] else emit y
  else if is_type y arithmetic_tokens then
    let! t := type_of p in
    line ;;;
    emit (if t =? T_FLOAT then y - T_ADD + T_FLOAT_ADD else if t =? T_STR then T_CONCAT else y)
  else if y =? T_STR_INTERPOLATE then finish_interpolate p
  else if is_type y comparison_tokens then
    let! c := child1 p in
    let! t := type_of c in
    line ;;;
    emit (if t =? T_STR then y - T_DOUBLE_EQUALS + T_STR_DOUBLE_EQUALS
          else if t =? T_FLOAT then y - T_GREATER_THAN + T_FLOAT_GREATER_THAN else y)
  else if y =? T_VARIABLE then FunctionBuilderVariable f p forAssignment
  else if y =? T_INDEX then finish_index p forAssignment
  else if y =? T_DOT then finish_dot p n forAssignment
  else if y =? T_NUMERIC_LITERAL then
    line ;;; emit y ;;; let! v := ASTNumericLiteralToValue n in emit_int 8 v
  else if y =? T_STRING_LITERAL then
    line ;;; emit y ;;;
    emit_int 4 (Z.of_nat (length (text (token n)))) ;;;
    FunctionBuilderAppend (take (Z.to_nat (wrap 32 (Z.of_nat (length (text (token n)))))) (text (token n)))
  else if is_type y [T_TRUE; T_FALSE] then line ;;; emit_literal (Z.b2z (y =? T_TRUE))
  else if y =? T_SUCCESS then emit_literal 0 ;;; emit T_ERR_CAST
  else if y =? T_REPL_RESULT then finish_repl_result p
  else stop Assertion.

(** One node of the recursion. *)
Definition generate_node (p : nat) (forAssignment : bool) : M ast unit :=
  let! n := node_at p in
  let y := type n in
  check (negb forAssignment || is_type y [T_VARIABLE; T_DOT; T_INDEX]) p
    "A value cannot be assigned to this expression. Try putting a variable name here." ;;;
  if is_type y [T_EQUALS; T_DECLARE; T_DECL_GROUP_AND_SET] then generate_assignment p y
  else if y =? T_CALL then generate_call p
  else if y =? T_WHILE then generate_while p
  else if y =? T_FOR then generate_for p
  else if y =? T_FOR_EACH then generate_for_each p
  else if y =? T_IF then generate_if p
  else if y =? T_IF_ERR then generate_if_err p
  else if is_type y [T_LOGICAL_OR; T_LOGICAL_AND] then generate_logical p y
  else if y =? T_NEW then generate_new p
  else if y =? T_COLON then generate_colon p n
  else if y =? T_LIST_LITERAL then generate_list_literal p n
  else
    (if is_type y [T_FUNCBODY; T_BLOCK] then enter_scope p n else ret tt) ;;;
    generate_children p n ;;;
    finish_command p n forAssignment.
End Recurse.

Fixpoint FunctionBuilderRecurse (fuel : nat) (p : nat) (forAssignment : bool) : M ast unit :=
  match fuel with
  | O => stop OutOfFuel
  | S f => generate_node f (FunctionBuilderRecurse f) p forAssignment
  end.
