(* ===== verification/ScriptSource.v ===== *)
(** * The meaning of statements (util/script.c)

    A part of the language with a meaning of its own: integer and boolean expressions,
    variables, assignments and declarations, [if], [while], [for] and blocks.  [expression] and
    [statement] read such a program off the store of nodes, as the passes leave it;
    [eval] and [exec] say what it does, on lists of variables; [expression_code] and
    [statement_code] are the bytecode it stands for.  Integer division has two meanings: the
    quotient of integers in constants, and what the interpreter computes. *)

From stdpp Require Import base option list.
From S2P Require Import Prelude ScriptToken ScriptParser ScriptHeap ScriptFloat ScriptScope ScriptTypes ScriptGenerate.

(** ** Programs *)

(** A variable: a global one, or one of the function that runs. *)
Inductive variable := Global (n : nat) | Local (n : nat).

Inductive expr :=
  | Literal (w : bytes)
  | Zero
  | Truth (b : bool)
  | Var (x : variable)
  | Unary (y : Z) (e : expr)
  | Binary (y : Z) (a b : expr)
  | Logical (or : bool) (a b : expr).

Inductive stmt :=
  | Skip
  | Seq (a b : stmt)
  | Assign (x : variable) (e : expr)
  | If (e : expr) (a : stmt)
  | IfElse (e : expr) (a b : stmt)
  | While (e : expr) (a : stmt)
  | Block (flags : list bool) (a : stmt).

(** ** What they mean *)

Record frame := MkFrame { globals : list slot; locals : list slot }.

Definition slot_of (E : frame) (x : variable) : option slot :=
  match x with Global n => globals E !! n | Local n => locals E !! n end.

(** Only variables without the flag are numbers. *)
Definition read (E : frame) (x : variable) : option Z :=
  match slot_of E x with Some (false, v) => Some v | _ => None end.
Definition write (E : frame) (x : variable) (v : Z) : option frame :=
  match slot_of E x with
  | Some (false, _) =>
      Some (match x with
            | Global n => MkFrame (<[n := (false, v)]> (globals E)) (locals E)
            | Local n => MkFrame (globals E) (<[n := (false, v)]> (locals E))
            end)
  | _ => None
  end.

Definition unary_value (y a : Z) : option Z :=
  if y =? T_NEGATE then Some (s64 (- a))
  else if y =? T_BITWISE_NOT then Some (Z.lnot a)
  else if y =? T_LOGICAL_NOT then Some (Z.b2z (a =? 0))
  else None.

(** The quotient of integers, where it fits. *)
Definition integer_quotient (a b : Z) : option Z :=
  if b =? 0 then None else if (a =? - 2 ^ 63) && (b =? -1) then None else Some (Z.quot a b).
(** The command divides the operands as the bits of doubles, and converts the result to an integer. *)
Definition machine_quotient (a b : Z) : option Z := if b =? 0 then None else Some (f64_truncate (f64_div a b)).

(** A shift count must be below 64. *)
Definition binary_value (quotient : Z -> Z -> option Z) (y a b : Z) : option Z :=
  if y =? T_SLASH then quotient a b
  else if y =? T_ADD then Some (s64 (a + b))
  else if y =? T_MINUS then Some (s64 (a - b))
  else if y =? T_ASTERISK then Some (s64 (a * b))
  else if y =? T_BITWISE_OR then Some (Z.lor a b)
  else if y =? T_BITWISE_AND then Some (Z.land a b)
  else if y =? T_BITWISE_XOR then Some (Z.lxor a b)
  else if y =? T_BIT_SHIFT_LEFT then if (0 <=? b) && (b <? 64) then Some (s64 (a * 2 ^ b)) else None
  else if y =? T_BIT_SHIFT_RIGHT then if (0 <=? b) && (b <? 64) then Some (a / 2 ^ b) else None
  else if y =? T_LESS_THAN then Some (Z.b2z (a <? b))
  else if y =? T_GREATER_THAN then Some (Z.b2z (b <? a))
  else if y =? T_LT_OR_EQUAL then Some (Z.b2z (a <=? b))
  else if y =? T_GT_OR_EQUAL then Some (Z.b2z (b <=? a))
  else if y =? T_DOUBLE_EQUALS then Some (Z.b2z (a =? b))
  else if y =? T_NOT_EQUALS then Some (Z.b2z (negb (a =? b)))
  else None.

(** Does the first operand of [&&] or [||] decide? *)
Definition decides (or : bool) (v : Z) : bool := if or then negb (v =? 0) else v =? 0.

Fixpoint eval (quotient : Z -> Z -> option Z) (E : frame) (e : expr) : option Z :=
  match e with
  | Literal w => Some (int_literal w)
  | Zero => Some 0
  | Truth b => Some (Z.b2z b)
  | Var x => read E x
  | Unary y e => a ← eval quotient E e; unary_value y a
  | Binary y a b => u ← eval quotient E a; v ← eval quotient E b; binary_value quotient y u v
  | Logical or a b => u ← eval quotient E a; if decides or u then Some u else eval quotient E b
  end.

(** Expressions without a division have one meaning. *)
Fixpoint undivided (e : expr) : bool :=
  match e with
  | Unary _ e => undivided e
  | Binary y a b => negb (y =? T_SLASH) && undivided a && undivided b
  | Logical _ a b => undivided a && undivided b
  | _ => true
  end.
Lemma eval_undivided q1 q2 E e : undivided e = true -> eval q1 E e = eval q2 E e.
Proof.
  induction e as [| | | |y e IH|y a IHa b IHb|or a IHa b IHb]; cbn; [done..|by intros ->%IH| |].
  - rewrite !andb_true_iff, negb_true_iff. intros [[Hy Ha] Hb]. rewrite (IHa Ha), (IHb Hb). unfold binary_value. by rewrite Hy.
  - rewrite andb_true_iff. intros [Ha Hb]. by rewrite (IHa Ha), (IHb Hb).
Qed.

(** A block adds variables, set to zero, and drops them at its end. *)
Definition enter_block (flags : list bool) (E : frame) : frame :=
  MkFrame (globals E) (locals E ++ map (fun m => (m, 0)) flags).
Definition leave_block (E E' : frame) : frame := MkFrame (globals E') (take (length (locals E)) (locals E')).

Section Exec.
(** The number of variables of the functions that called this one. *)
Context (outer : nat).

Inductive exec : frame -> stmt -> frame -> Prop :=
  | exec_skip E : exec E Skip E
  | exec_seq E a E1 b E2 : exec E a E1 -> exec E1 b E2 -> exec E (Seq a b) E2
  | exec_assign E x e v E1 : eval machine_quotient E e = Some v -> write E x v = Some E1 -> exec E (Assign x e) E1
  | exec_if_true E e v a E1 : eval machine_quotient E e = Some v -> v <> 0 -> exec E a E1 -> exec E (If e a) E1
  | exec_if_false E e a : eval machine_quotient E e = Some 0 -> exec E (If e a) E
  | exec_then E e v a b E1 : eval machine_quotient E e = Some v -> v <> 0 -> exec E a E1 -> exec E (IfElse e a b) E1
  | exec_else E e a b E1 : eval machine_quotient E e = Some 0 -> exec E b E1 -> exec E (IfElse e a b) E1
  | exec_while_end E e a : eval machine_quotient E e = Some 0 -> exec E (While e a) E
  | exec_while_loop E e v a E1 E2 :
      eval machine_quotient E e = Some v -> v <> 0 -> exec E a E1 -> exec E1 (While e a) E2 -> exec E (While e a) E2
  | exec_inside E flags a E1 :
      Z.of_nat (outer + length (locals E) + length flags) < 2 ^ 31 ->
      exec (enter_block flags E) a E1 -> exec E (Block flags a) (leave_block E E1).
End Exec.

(** The same, as a function with a bound on the depth of the derivation. *)
Fixpoint run_statement (outer fuel : nat) (E : frame) (a : stmt) : option frame :=
  match fuel with
  | O => None
  | S f =>
      match a with
      | Skip => Some E
      | Seq a b => E1 ← run_statement outer f E a; run_statement outer f E1 b
      | Assign x e => v ← eval machine_quotient E e; write E x v
      | If e a => v ← eval machine_quotient E e; if v =? 0 then Some E else run_statement outer f E a
      | IfElse e a b => v ← eval machine_quotient E e; run_statement outer f E (if v =? 0 then b else a)
      | While e a =>
          v ← eval machine_quotient E e;
          if v =? 0 then Some E else E1 ← run_statement outer f E a; run_statement outer f E1 (While e a)
      | Block flags a =>
          if Z.of_nat (outer + length (locals E) + length flags) <? 2 ^ 31 then
            leave_block E <$> run_statement outer f (enter_block flags E) a
          else None
      end
  end.

Lemma run_statement_sound outer fuel : forall E a E1, run_statement outer fuel E a = Some E1 -> exec outer E a E1.
Proof.
  induction fuel as [|f IH]; intros E a E1 H; [done|]. destruct a as [|a b|x e|e a|e a b|e a|flags a]; cbn [run_statement] in H.
  - simplify_eq. constructor.
  - apply bind_Some in H as (E2 & H1 & H2). econstructor; eauto.
  - apply bind_Some in H as (v & H1 & H2). by econstructor.
  - apply bind_Some in H as (v & H1 & H2). destruct (Z.eqb_spec v 0) as [->|Hv]; [simplify_eq; by constructor|].
    eapply exec_if_true; eauto.
  - apply bind_Some in H as (v & H1 & H2). destruct (Z.eqb_spec v 0) as [->|Hv]; [by apply exec_else; eauto|].
    eapply exec_then; eauto.
  - apply bind_Some in H as (v & H1 & H2). destruct (Z.eqb_spec v 0) as [->|Hv]; [simplify_eq; by constructor|].
    apply bind_Some in H2 as (E2 & H2 & H3). eapply exec_while_loop; eauto.
  - destruct (Z.ltb_spec (Z.of_nat (outer + length (locals E) + length flags)) (2 ^ 31)); [|done].
    apply fmap_Some in H as (E2 & H2 & ->). constructor; eauto.
Qed.

(** ** Their bytecode *)

Definition byte (y : Z) : bytes := le_split 1 (wrap 8 y).
Definition int32 (v : Z) : bytes := le_split 4 (wrap 32 v).
Definition size_of (k : bytes) : Z := Z.of_nat (length k).

Definition literal_code (v : Z) : bytes := byte T_NUMERIC_LITERAL ++ le_split 8 (wrap 64 v).

(** The index of a variable in the bytecode. *)
Definition variable_index (x : variable) : Z :=
  match x with Global n => Z.of_nat n | Local n => - Z.of_nat n - 1 end.

Fixpoint expression_code (e : expr) : bytes :=
  match e with
  | Literal w => literal_code (int_literal w)
  | Zero => byte T_ZERO
  | Truth b => literal_code (Z.b2z b)
  | Var x => byte T_VARIABLE ++ int32 (variable_index x)
  | Unary y e => expression_code e ++ byte y
  | Binary y a b => expression_code a ++ expression_code b ++ byte y
  | Logical or a b =>
      let kb := expression_code b in
      expression_code a ++ byte (if or then T_LOGICAL_OR else T_LOGICAL_AND) ++ int32 (4 + size_of kb) ++ kb
  end.

Fixpoint statement_code (a : stmt) : bytes :=
  match a with
  | Skip => []
  | Seq a b => statement_code a ++ statement_code b
  | Assign x e => expression_code e ++ byte T_EQUALS ++ int32 (variable_index x)
  | If e a =>
      let k := statement_code a in
      expression_code e ++ byte T_IF ++ int32 (4 + size_of k) ++ k
  | IfElse e a b =>
      let ka := statement_code a in
      let kb := statement_code b in
      expression_code e ++ byte T_IF ++ int32 (9 + size_of ka) ++ ka ++ byte T_BRANCH ++ int32 (4 + size_of kb) ++ kb
  | While e a =>
      let ke := expression_code e in
      let k := statement_code a in
      ke ++ byte T_IF ++ int32 (9 + size_of k) ++ k ++ byte T_BRANCH ++ int32 (- (size_of ke + 6 + size_of k))
  | Block flags a =>
      let n := le_split 2 (wrap 16 (Z.of_nat (length flags))) in
      byte T_BLOCK ++ n ++ concat (map (fun m => byte (Z.b2z m)) flags) ++ statement_code a ++ byte T_EXIT_SCOPE ++ n
  end.

(** Entries of the evaluation stack that are needed. *)
Fixpoint expression_depth (e : expr) : nat :=
  match e with
  | Literal _ | Zero | Truth _ | Var _ => 1
  | Unary _ e => expression_depth e
  | Binary _ a b => expression_depth a `max` S (expression_depth b)
  | Logical _ a b => expression_depth a `max` expression_depth b
  end.

Fixpoint statement_depth (a : stmt) : nat :=
  match a with
  | Skip => 0
  | Seq a b => statement_depth a `max` statement_depth b
  | Assign _ e => expression_depth e
  | If e a | While e a => expression_depth e `max` statement_depth a
  | IfElse e a b => expression_depth e `max` (statement_depth a `max` statement_depth b)
  | Block _ a => statement_depth a
  end.

(** ** Programs in the store *)

Section Read.
Context (offset : Z) (s : ast).

(** Does the chain of parents end? *)
Fixpoint ends_at_root (fuel : nat) (p : option nat) : bool :=
  match fuel, p with
  | O, _ => false
  | S _, None => true
  | S f, Some q => match nodes s !! q with Some n => ends_at_root f (parent n) | None => false end
  end.
Definition rooted (p : nat) : bool := ends_at_root (S (length (nodes s))) (Some p).

(** The scopes around a node, from the inside. *)
Fixpoint scopes_around (fuel : nat) (p current : option nat) : option (list (nat * Scope)) :=
  match fuel, p with
  | O, _ => None
  | S _, None => Some []
  | S f, Some q =>
      n ← nodes s !! q;
      if bool_decide (scope n = current) then scopes_around f (parent n) current
      else
        i ← scope n;
        x ← scopes s !! i;
        l ← scopes_around f (parent n) (scope n);
        Some ((i, x) :: l)
  end.

Fixpoint count_variables (l : list (nat * Scope)) : Z :=
  match l with [] => 0 | x :: l' => variableEntryCount x.2 + count_variables l' end.

(** The innermost entry with the name [w]; variables are numbered from the outside. *)
Fixpoint find_variable (w : bytes) (l : list (nat * Scope)) : option (AstNode * Z) :=
  match l with
  | [] => None
  | x :: l' =>
      match find (entry_is (nodes s) (named w)) (entries x.2) with
      | None => find_variable w l'
      | Some e =>
          n ← nodes s !! e;
          j ← index_of (nodes s) w false 0 (entries x.2);
          Some (n, j + count_variables l')
      end
  end.

(** The root scope is the last one, and the only one of its kind. *)
Fixpoint root_scope (l : list (nat * Scope)) : option Scope :=
  match l with
  | [] => None
  | [x] => if isRoot x.2 then Some x.2 else None
  | x :: l' => if isRoot x.2 then None else root_scope l'
  end.

(** The entries are nodes, and the numbers of variables are small. *)
Definition usable (l : list (nat * Scope)) : bool :=
  forallb (fun x => (0 <=? variableEntryCount x.2) && forallb (fun e => bool_decide (is_Some (nodes s !! e))) (entries x.2)) l &&
  (count_variables l <? 2 ^ 31).

(** The variable that a node names, and its declaration. *)
Definition resolve_variable (p : nat) : option (AstNode * variable) :=
  m ← nodes s !! p;
  l ← scopes_around (S (length (nodes s))) (Some p) None;
  d ← find_variable (text (token m)) l;
  root ← root_scope l;
  let count := variableEntryCount root in
  if negb (usable l && (d.2 <? 2 ^ 31)) then None
  else if count <=? d.2 then Some (d.1, Local (Z.to_nat (d.2 - count)))
  else if (0 <=? offset) && (d.2 + offset <? 2 ^ 31) then Some (d.1, Global (Z.to_nat (d.2 + offset)))
  else None.

(** A variable that can be assigned to, and is not written to a file. *)
Definition target (p : nat) : option variable :=
  d ← resolve_variable p;
  if (type d.1 =? T_DECLARE) && negb (isPersistentVariable (flags d.1)) then Some d.2 else None.

(** The type of a type that is not [NULL]. *)
Definition type_type (t : option nat) : option Z := q ← t; type <$> nodes s !! q.
Definition plain_type (t : option nat) : bool :=
  match type_type t with Some y => negb (is_type y [T_FLOAT; T_STR; T_ERR]) | None => false end.

(** The first two children, and the one behind them. *)
Definition two_children (n : AstNode) : option (nat * AstNode * nat * option nat) :=
  a ← firstChild n;
  x ← nodes s !! a;
  b ← sibling x;
  y ← nodes s !! b;
  Some (a, x, b, sibling y).

Definition unary_operators : list Z := [T_NEGATE; T_BITWISE_NOT; T_LOGICAL_NOT].
Definition binary_operators : list Z :=
  [T_ADD; T_MINUS; T_ASTERISK; T_SLASH; T_BIT_SHIFT_LEFT; T_BIT_SHIFT_RIGHT; T_BITWISE_OR; T_BITWISE_AND; T_BITWISE_XOR].

(** The expressions without operands. *)
Definition leaf (p : nat) (n : AstNode) : option expr :=
  if negb (bool_decide (firstChild n = None)) then None
  else if type n =? T_NUMERIC_LITERAL then
    if bool_decide (expressionType n = Some globalExpressionTypeInt) then Some (Literal (text (token n))) else None
  else if type n =? T_ZERO then Some Zero
  else if is_type (type n) [T_TRUE; T_FALSE] then Some (Truth (type n =? T_TRUE))
  else if type n =? T_VARIABLE then d ← resolve_variable p; Some (Var d.2)
  else None.

Section Operators.
Context (expression : nat -> option expr).

Definition read_unary (n : AstNode) : option expr :=
  a ← firstChild n;
  x ← nodes s !! a;
  if bool_decide (sibling x = None) && plain_type (expressionType n) then Unary (type n) <$> expression a else None.

Definition read_binary (n : AstNode) : option expr :=
  '(a, x, b, rest) ← two_children n;
  if bool_decide (rest = None) && plain_type (expressionType (if is_type (type n) comparison_tokens then x else n)) then
    u ← expression a; v ← expression b; Some (Binary (type n) u v)
  else None.

Definition read_logical (n : AstNode) : option expr :=
  '(a, _, b, _) ← two_children n;
  u ← expression a; v ← expression b; Some (Logical (type n =? T_LOGICAL_OR) u v).
End Operators.

Fixpoint expression (fuel : nat) (p : nat) : option expr :=
  match fuel with
  | O => None
  | S f =>
      n ← nodes s !! p;
      if negb (rooted p) then None
      else if is_type (type n) unary_operators then read_unary (expression f) n
      else if is_type (type n) binary_operators || is_type (type n) comparison_tokens then read_binary (expression f) n
      else if is_type (type n) [T_LOGICAL_OR; T_LOGICAL_AND] then read_logical (expression f) n
      else leaf p n
  end.

(** The flags of the variables of a scope. *)
Fixpoint variable_flags (l : list nat) : option (list bool) :=
  match l with
  | [] => Some []
  | e :: l' =>
      n ← nodes s !! e;
      r ← variable_flags l';
      if ScopeIsVariableType n then
        y ← type_type (expressionType n);
        Some (is_type y [T_STR; T_LIST; T_STRUCT; T_FUNCPTR; T_ERR; T_ANYTYPE] :: r)
      else Some r
  end.

(** A statement whose value is not there, or is used. *)
Definition no_result (n : AstNode) : bool :=
  match expressionType n with
  | None => true
  | Some t => match nodes s !! t with Some x => (type x =? T_VOID) || is_type (type n) [T_DECLARE; T_EQUALS] | None => false end
  end.

(** The same for the third part of a [for]. *)
Definition no_value (n : AstNode) : bool :=
  match expressionType n with None => true | Some t => match nodes s !! t with Some x => type x =? T_VOID | None => false end end.

Section Statements.
Context (statement : nat -> option stmt).

(** The statements of a block. *)
Fixpoint statements (fuel : nat) (p : option nat) : option stmt :=
  match fuel, p with
  | O, _ => None
  | S _, None => Some Skip
  | S f, Some q =>
      n ← nodes s !! q;
      if negb (no_result n) then None
      else a ← statement q; r ← statements f (sibling n); Some (Seq a r)
  end.

(** The parts of [if], and of [for]. *)
Definition read_if (e : expr) (b : nat) (rest : option nat) : option stmt :=
  a ← statement b;
  match rest with None => Some (If e a) | Some q => IfElse e a <$> statement q end.
End Statements.

(** An assignment or a declaration: the value and what it is assigned to. *)
Definition read_assignment (f p : nat) (n : AstNode) : option stmt :=
  a ← firstChild n;
  x ← nodes s !! a;
  match sibling x with
  | None => Some Skip
  | Some b =>
      m ← nodes s !! b;
      if negb (bool_decide (sibling m = None)) || negb (rooted p) then None
      else
        e ← expression f b;
        if type n =? T_DECLARE then v ← target p; Some (Assign v e)
        else if (type x =? T_VARIABLE) && bool_decide (firstChild x = None) && rooted a then
          v ← target a; Some (Assign v e)
        else None
  end.

Fixpoint statement (fuel : nat) (p : nat) : option stmt :=
  match fuel with
  | O => None
  | S f =>
      n ← nodes s !! p;
      let y := type n in
      if is_type y [T_EQUALS; T_DECLARE] then read_assignment f p n
      else if negb (rooted p) then None
      else if y =? T_BLOCK then
        i ← scope n;
        x ← scopes s !! i;
        flags ← variable_flags (entries x);
        if (variableEntryCount x <=? 10000) && (variableEntryCount x =? Z.of_nat (length flags)) then
          Block flags <$> statements (statement f) (S (length (nodes s))) (firstChild n)
        else None
      else if y =? T_IF then
        '(a, x, b, rest) ← two_children n;
        if plain_type (expressionType x) then e ← expression f a; read_if (statement f) e b rest else None
      else if y =? T_WHILE then
        '(a, _, b, _) ← two_children n;
        e ← expression f a; While e <$> statement f b
      else if y =? T_FOR then
        '(a, x, b, third) ← two_children n;
        i ← third;
        z ← nodes s !! i;
        q ← sibling z;
        if is_type (type x) [T_DECLARE; T_EQUALS] && no_value z then
          d ← statement f a; e ← expression f b; u ← statement f i; v ← statement f q;
          Some (Seq d (While e (Seq v u)))
        else None
      else None
  end.
End Read.
