(* ===== verification/ScriptCompile.v ===== *)
(** * Correctness of code generation (util/script.c)

    Two halves, in the way compilers to stack machines are verified: the interpreter, run on the bytecode
    [statement_code a], does what [exec] says of [a]; and [FunctionBuilderRecurse],
    called on a node that [statement] reads as [a], writes [statement_code a]. *)

From stdpp Require Import base option list relations.
From S2P Require Import Prelude ScriptToken ScriptParser ScriptParserProofs ScriptHeap ScriptFloat ScriptExec ScriptExecProofs ScriptScope ScriptTypes.
From S2P Require Import ScriptGenerate ScriptSource.

(** ** Bytecode in memory *)

Definition code_at (C : bytes) (ip : Z) (k : bytes) : Prop :=
  exists a b, C = a ++ k ++ b /\ ip = size_of a.

Lemma size_app a b : size_of (a ++ b) = size_of a + size_of b.
Proof. unfold size_of. rewrite length_app. lia. Qed.
Lemma size_byte y : size_of (byte y) = 1.
Proof. done. Qed.
Lemma size_int32 v : size_of (int32 v) = 4.
Proof. done. Qed.
Lemma size_literal v : size_of (literal_code v) = 9.
Proof. done. Qed.
Lemma size_nonneg k : 0 <= size_of k.
Proof. unfold size_of. lia. Qed.

Lemma code_at_app C ip k1 k2 : code_at C ip (k1 ++ k2) -> code_at C ip k1 /\ code_at C (ip + size_of k1) k2.
Proof.
  intros (a & b & -> & ->). split.
  - exists a, (k2 ++ b). by rewrite <- app_assoc.
  - exists (a ++ k1), b. split; [by rewrite <- !app_assoc|]. by rewrite size_app.
Qed.

Lemma code_at_eq C ip ip' k : code_at C ip k -> ip = ip' -> code_at C ip' k.
Proof. by intros ? <-. Qed.

Lemma code_at_bounds C ip k : code_at C ip k -> 0 <= ip /\ ip + size_of k <= size_of C.
Proof.
  intros (a & b & -> & ->). rewrite !size_app. pose proof (size_nonneg a). pose proof (size_nonneg b).
  pose proof (size_nonneg k). lia.
Qed.

Lemma s32_int32 v : - 2 ^ 31 <= v < 2 ^ 31 -> s32 (le_combine (int32 v)) = v.
Proof.
  intros Hv. unfold int32. rewrite le_combine_split, Z.mod_small.
  - unfold s32, swrap, wrap. change (2 ^ (32 - 1)) with (2 ^ 31). rewrite Zplus_mod_idemp_l, Z.mod_small by lia. lia.
  - apply (wrap_range 32). lia.
Qed.

Lemma le_combine_byte y : 0 <= y < 256 -> le_combine (byte y) = y.
Proof.
  intros Hy. unfold byte. rewrite le_combine_split. change (2 ^ (8 * Z.of_nat 1)) with 256. unfold wrap.
  change (2 ^ 8) with 256. rewrite Z.mod_mod, Z.mod_small; lia.
Qed.

Lemma s64_literal v : - 2 ^ 63 <= v < 2 ^ 63 -> s64 (le_combine (le_split 8 (wrap 64 v))) = v.
Proof.
  intros Hv. rewrite le_combine_split, Z.mod_small.
  - unfold s64, swrap, wrap. change (2 ^ (64 - 1)) with (2 ^ 63). rewrite Zplus_mod_idemp_l, Z.mod_small by lia. lia.
  - apply (wrap_range 64). lia.
Qed.

Lemma int_literal_range w : - 2 ^ 63 <= int_literal w < 2 ^ 63.
Proof.
  unfold int_literal. assert (H : forall v, - 2 ^ 63 <= v < 2 ^ 63 ->
    - 2 ^ 63 <= fold_left (fun v d => s64 (s64 (v * 10) + (d - 48))) w v < 2 ^ 63).
  { induction w as [|d w IH]; intros v Hv; [done|]. apply IH, s64_range. }
  apply H. lia.
Qed.

(** ** Variables of the machine *)

(** A context holds a frame: its local variables are behind those of the functions that
    called this one, [outer]. *)
Record holds (outer : list slot) (E : frame) (x : ExecutionContext) : Prop := {
  h_globals : globalVariables x = globals E;
  h_count : localVariableCount (c x) = Z.of_nat (length outer + length (locals E));
  h_locals : take (length outer + length (locals E)) (localVariables (c x)) = outer ++ locals E;
  h_few_globals : Z.of_nat (length (globals E)) < 2 ^ 31;
  h_few_locals : Z.of_nat (length outer + length (locals E)) < 2 ^ 31;
}.

(** Contexts that differ in their variables only. *)
Definition alike (x y : ExecutionContext) : Prop :=
  exists g l n, y = set_globals g (set_active (with_variables l n (c x)) x).

Lemma alike_refl x : alike x x.
Proof. destruct x as [g h u d b [] a q i e]. by eexists _, _, _. Qed.
Lemma alike_trans x y z : alike x y -> alike y z -> alike x z.
Proof. intros (g & l & n & ->) (g' & l' & n' & ->). by eexists _, _, _. Qed.
Lemma alike_code x y : alike x y -> functionData y = functionData x.
Proof. by intros (g & l & n & ->). Qed.

Lemma holds_local outer E x n s : holds outer E x -> locals E !! n = Some s ->
  below (Z.of_nat (length outer) + Z.of_nat n) (localVariableCount (c x)) = true /\
  localVariables (c x) !! (length outer + n)%nat = Some s.
Proof.
  intros [_ Hc Hl _ _] Hn. pose proof (lookup_lt_Some _ _ _ Hn) as Hlt. split.
  - unfold below. rewrite Hc. apply andb_true_iff. rewrite Z.leb_le, Z.ltb_lt. lia.
  - rewrite <- (lookup_take_lt _ (length outer + length (locals E))) by lia. rewrite Hl, lookup_app_r by lia.
    by replace (length outer + n - length outer)%nat with n by lia.
Qed.

Lemma write_slot E v w E1 : write E v w = Some E1 -> exists u, slot_of E v = Some (false, u).
Proof. unfold write. destruct (slot_of E v) as [[[] u]|]; [done|by exists u|done]. Qed.

Lemma write_lengths E v w E1 :
  write E v w = Some E1 -> length (globals E1) = length (globals E) /\ length (locals E1) = length (locals E).
Proof.
  unfold write. destruct (slot_of E v) as [[[] u]|]; [done| |done]. intros [= <-].
  destruct v; cbn; by rewrite length_insert.
Qed.

Lemma exec_lengths o E a E1 : exec o E a E1 ->
  length (globals E1) = length (globals E) /\ length (locals E1) = length (locals E).
Proof.
  induction 1 as [|? ? ? ? ? _ [H1 H2] _ [H3 H4]|? ? ? ? ? _ Hw| | | | | |? ? ? ? ? ? _ _ _ [H1 H2] _ [H3 H4]|E flags a E1 Hf _ [H1 H2]];
    try done; try (split; congruence).
  - by apply write_lengths in Hw.
  - cbn in *. rewrite length_app, length_map in H2. rewrite length_take. split; [done|lia].
Qed.

Section Frames.
Context (outer : list slot) (x : ExecutionContext) (E : frame) (Hh : holds outer E x).

(** An assignment, in the frame and in the context. *)
Definition written (v : variable) (w : Z) : ExecutionContext :=
  match v with
  | Global n => set_globals (<[n := (false, w)]> (globalVariables x)) x
  | Local n => set_active (with_variables (<[(length outer + n)%nat := (false, w)]> (localVariables (c x)))
                 (localVariableCount (c x)) (c x)) x
  end.

Lemma holds_written v w E1 : write E v w = Some E1 -> holds outer E1 (written v w).
Proof.
  intros Hw. destruct (write_lengths _ _ _ _ Hw) as [Hg Hl]. destruct (write_slot _ _ _ _ Hw) as [u Hu].
  unfold write in Hw. rewrite Hu in Hw. injection Hw as <-. destruct Hh as [H1 H2 H3 H4 H5].
  split; rewrite ?Hg, ?Hl; [|by destruct v|destruct v; [done|]|done|done].
  - destruct v; cbn; by rewrite H1.
  - cbn in *. rewrite take_insert_lt, H3 by (apply lookup_lt_Some in Hu; lia). by rewrite insert_app_r.
Qed.

(** Entering and leaving a block. *)
Definition entered (flags : list bool) : ExecutionContext :=
  let n := length flags in
  let count := Z.to_nat (localVariableCount (c x)) in
  set_active (with_variables
    (take count (localVariables (c x)) ++ map (fun m => (m, 0)) flags ++ drop (count + n) (localVariables (c x)))
    (localVariableCount (c x) + Z.of_nat n) (c x)) x.

Lemma holds_entered flags :
  Z.of_nat (length outer + length (locals E) + length flags) < 2 ^ 31 -> holds outer (enter_block flags E) (entered flags).
Proof.
  intros Hf. destruct Hh as [H1 H2 H3 H4 H5]. split; cbn; [done| | |done|]; rewrite ?length_app, ?length_map; [lia| |lia].
  rewrite H2, Nat2Z.id, H3. rewrite (app_assoc (outer ++ locals E)), take_app_le.
  - rewrite firstn_all2; [by rewrite app_assoc|]. rewrite !length_app, length_map. lia.
  - rewrite !length_app, length_map. lia.
Qed.

End Frames.

Lemma alike_written outer x v w : alike x (written outer x v w).
Proof.
  exists (globalVariables (written outer x v w)), (localVariables (c (written outer x v w))), (localVariableCount (c x)).
  by destruct x as [g h u d b [] a q i e], v.
Qed.
Lemma alike_entered x flags : alike x (entered x flags).
Proof.
  exists (globalVariables x), (localVariables (c (entered x flags))), (localVariableCount (c (entered x flags))).
  by destruct x.
Qed.

Definition left_ (n : nat) (x : ExecutionContext) : ExecutionContext :=
  set_active (with_variables (localVariables (c x)) (localVariableCount (c x) - Z.of_nat n) (c x)) x.

Lemma holds_left outer E (flags : list bool) E1 x :
  holds outer E1 x -> length (locals E1) = (length (locals E) + length flags)%nat ->
  holds outer (leave_block E E1) (left_ (length flags) x).
Proof.
  intros [H1 H2 H3 H4 H5] Hl. assert (Ht : length (take (length (locals E)) (locals E1)) = length (locals E))
    by (rewrite length_take; lia).
  split; cbn; rewrite ?Ht; [done|lia| |done|lia].
  replace (length outer + length (locals E))%nat
    with ((length outer + length (locals E)) `min` (length outer + length (locals E1)))%nat by lia.
  rewrite <- take_take.
  rewrite H3, take_app_ge by lia. f_equal. f_equal. lia.
Qed.

Lemma alike_left n x : alike x (left_ n x).
Proof. exists (globalVariables x), (localVariables (c x)), (localVariableCount (c x) - Z.of_nat n). by destruct x. Qed.

(** ** Single commands *)

Section Run.
Context `{Platform}.

Definition moves (m m' : Machine) : Prop := step m = (inl tt, m').

Lemma moves_eq m x ip ip' base : moves m (MkMachine x ip base) -> ip = ip' -> moves m (MkMachine x ip' base).
Proof. by intros ? <-. Qed.

Lemma code_bytes_at x ip base k :
  code_at (functionData x) ip k -> code_bytes (length k) (MkMachine x ip base) = (inl k, MkMachine x ip base).
Proof.
  intros Hc. pose proof (code_at_bounds _ _ _ Hc) as [H1 H2]. destruct Hc as (a & b & E & ->).
  unfold code_bytes. cbn -[take drop]. unfold size_of in *.
  replace ((0 <=? _) && _) with true by (symmetry; apply andb_true_iff; lia).
  rewrite E, Nat2Z.id, drop_app_length, take_app_length. done.
Qed.

Lemma read_operand_at x ip base k n :
  code_at (functionData x) ip k -> length k = n ->
  operand n (MkMachine x ip base) = (inl (le_combine k), MkMachine x (ip + Z.of_nat n) base).
Proof. intros Hc <-. unfold operand, xbind. by rewrite (code_bytes_at _ _ _ _ Hc). Qed.

Lemma jump_operand_at x ip base v :
  code_at (functionData x) ip (int32 v) -> - 2 ^ 31 <= v < 2 ^ 31 ->
  jump_operand (MkMachine x ip base) = (inl v, MkMachine x ip base).
Proof.
  intros Hc Hv. unfold jump_operand, xbind. change 4%nat with (length (int32 v)). rewrite (code_bytes_at _ _ _ _ Hc).
  cbn -[int32]. by rewrite s32_int32.
Qed.

Definition ends_call (y : Z) : bool := is_type y [T_END_FUNCTION; T_EXTCALL; T_LIBCALL; T_END_CALLBACK].

Lemma step_command x ip base y m' :
  code_at (functionData x) ip (byte y) -> 0 <= y < 256 -> ends_call y = false ->
  execute y (MkMachine x (ip + 1) base) = (inl tt, m') -> moves (MkMachine x ip base) m'.
Proof.
  intros Hc Hy He E. unfold moves, step, xbind. rewrite (read_operand_at _ _ _ _ 1 Hc eq_refl), le_combine_byte by done.
  unfold ends_call, is_type in He. cbn in He. rewrite !orb_false_iff in He. destruct He as (-> & -> & -> & -> & _).
  change (Z.of_nat 1) with 1. by rewrite E.
Qed.

(** The command at the address is [y]. *)
Ltac command y := apply (step_command _ _ _ y); [assumption|by vm_compute|by vm_compute|].

Section Commands.
Context (x : ExecutionContext) (st : list slot) (ip base : Z).
Abbreviation C := (functionData x).

(** The machine with a stack, at an address. *)
Abbreviation at_ st ip := (MkMachine (stacked st x) ip base).

Lemma has_room_at i : (length st < 50)%nat -> has_room (at_ st i) = (inl true, at_ st i).
Proof.
  intros Hl. unfold has_room, xbind, get_active, xret. change (stack _) with st. unfold stackEntriesAllocated.
  destruct (Nat.eqb_spec (length st) 50); [lia|done].
Qed.

Lemma literal_moves v :
  code_at C ip (literal_code v) -> - 2 ^ 63 <= v < 2 ^ 63 -> (length st < 50)%nat ->
  moves (at_ st ip) (at_ ((false, v) :: st) (ip + 9)).
Proof.
  intros [H1 H2]%code_at_app Hv Hl. command T_NUMERIC_LITERAL.
  change (execute T_NUMERIC_LITERAL) with exec_numeric_literal. unfold exec_numeric_literal, xbind. rewrite has_room_at by done. cbn -[operand stacked].
  rewrite size_byte in H2. rewrite (read_operand_at (stacked st x) _ _ _ 8 H2 eq_refl). cbn -[stacked le_combine le_split].
  rewrite s64_literal by done. by replace (ip + 1 + Z.of_nat 8) with (ip + 9) by lia.
Qed.

Lemma zero_moves :
  code_at C ip (byte T_ZERO) -> (length st < 50)%nat -> moves (at_ st ip) (at_ ((false, 0) :: st) (ip + 1)).
Proof.
  intros H1 Hl. command T_ZERO.
  change (execute T_ZERO) with (exec_null T_ZERO). unfold exec_null, xbind. by rewrite has_room_at.
Qed.

Lemma unary_moves y u v :
  code_at C ip (byte y) -> is_type y unary_operators = true -> unary_value y u = Some v ->
  moves (at_ ((false, u) :: st) ip) (at_ ((false, v) :: st) (ip + 1)).
Proof.
  intros H1 Hy Hv. apply is_type_In in Hy.
  assert (E : execute y = unary (fun a => default 0 (unary_value y a)) /\ 0 <= y < 256 /\ ends_call y = false).
  { repeat destruct Hy as [<-|Hy]; [split; [reflexivity|by vm_compute]..|done]. }
  destruct E as (E & Hb & He). eapply (step_command _ _ _ y); [done..|]. rewrite E. cbn. by rewrite Hv.
Qed.
Lemma slash_moves u v w : code_at C ip (byte T_SLASH) -> machine_quotient u v = Some w ->
  moves (at_ ((false, v) :: (false, u) :: st) ip) (at_ ((false, w) :: st) (ip + 1)).
Proof.
  intros H1 Hv. command T_SLASH. change (execute T_SLASH) with exec_slash. unfold machine_quotient in Hv. destruct (v =? 0) eqn:Ev; [done|].
  injection Hv as <-. unfold exec_slash. cbn -[f64_truncate f64_div]. by rewrite Ev.
Qed.
Lemma binary_moves y u v w :
  code_at C ip (byte y) -> is_type y binary_operators || is_type y comparison_tokens = true -> binary_value machine_quotient y u v = Some w ->
  moves (at_ ((false, v) :: (false, u) :: st) ip) (at_ ((false, w) :: st) (ip + 1)).
Proof.
  intros H1 Hy Hv. destruct (Z.eq_dec y T_SLASH) as [->|Hne]; [by apply slash_moves|].
  assert (E : (exists f, execute y = binary f /\ f u v = w) /\ 0 <= y < 256 /\ ends_call y = false).
  { apply orb_true_iff in Hy as [Hy%is_type_In|Hy%is_type_In].
    all: repeat destruct Hy as [<-|Hy]; try done.
    all: split; [eexists; split; [reflexivity|]|by vm_compute]; cbn -[s64 Z.mul Z.pow Z.shiftl Z.shiftr Z.modulo] in Hv |- *.
    all: try (by injection Hv).
    all: try (destruct ((0 <=? v) && (v <? 64)) eqn:Eb; [|done]; injection Hv as <-; apply andb_true_iff in Eb;
              rewrite Z.mod_small by lia; by rewrite ?Z.shiftl_mul_pow2, ?Z.shiftr_div_pow2 by lia).
    all: injection Hv as <-; by rewrite ?Z.gtb_ltb, ?Z.geb_leb. }
  destruct E as ((f & E & <-) & Hb & He). eapply (step_command _ _ _ y); [done..|]. by rewrite E.
Qed.

Lemma if_moves v d :
  code_at C ip (byte T_IF ++ int32 d) -> - 2 ^ 31 <= d < 2 ^ 31 ->
  moves (at_ ((false, v) :: st) ip) (at_ st (ip + 1 + (if v =? 0 then d else 4))).
Proof.
  intros [H1 H2]%code_at_app Hd. command T_IF. change (execute T_IF) with exec_if.
  rewrite size_byte in H2. pose proof (jump_operand_at (stacked st x) (ip + 1) base d H2 Hd) as E.
  change (xbind jump_operand (fun delta => advance (if v =? 0 then delta else 4)) (at_ st (ip + 1)) =
    (inl tt, at_ st (ip + 1 + (if v =? 0 then d else 4)))).
  unfold xbind. by rewrite E.
Qed.

Lemma branch_moves d :
  code_at C ip (byte T_BRANCH ++ int32 d) -> - 2 ^ 31 <= d < 2 ^ 31 -> moves (at_ st ip) (at_ st (ip + 1 + d)).
Proof.
  intros [H1 H2]%code_at_app Hd. command T_BRANCH. change (execute T_BRANCH) with exec_branch.
  rewrite size_byte in H2. unfold exec_branch, xbind. by rewrite (jump_operand_at (stacked st x) (ip + 1) base d H2 Hd).
Qed.

Lemma logical_moves (or : bool) v d :
  code_at C ip (byte (if or then T_LOGICAL_OR else T_LOGICAL_AND) ++ int32 d) -> - 2 ^ 31 <= d < 2 ^ 31 ->
  moves (at_ ((false, v) :: st) ip)
    (if decides or v then at_ ((false, v) :: st) (ip + 1 + d) else at_ st (ip + 1 + 4)).
Proof.
  intros [H1 H2]%code_at_app Hd. set (y := if or then T_LOGICAL_OR else T_LOGICAL_AND) in *.
  assert (Ey : (y =? T_LOGICAL_OR) = or) by by destruct or.
  eapply (step_command _ _ _ y); [done|by destruct or|by destruct or|].
  replace (execute y) with (exec_logical y) by by destruct or. rewrite size_byte in *.
  change (xbind jump_operand (fun delta =>
            let short := if y =? T_LOGICAL_OR then negb (v =? 0) else v =? 0 in
            advance (if short then delta else 4) ;* if short then xret tt else pop 1) (at_ ((false, v) :: st) (ip + 1)) =
    (inl tt, if decides or v then at_ ((false, v) :: st) (ip + 1 + d) else at_ st (ip + 1 + 4))).
  unfold xbind at 1. rewrite (jump_operand_at (stacked ((false, v) :: st) x) (ip + 1) base d H2 Hd), Ey.
  cbv zeta. fold (decides or v). by destruct (decides or v).
Qed.
End Commands.

Section Variables.
Context (outer : list slot) (x : ExecutionContext) (E : frame) (Hh : holds outer E x) (st : list slot) (ip : Z).
Abbreviation base := (Z.of_nat (length outer) - 1).
Abbreviation at_ x st ip := (MkMachine (stacked st x) ip base).

(** Where the index in the bytecode leads. *)
Lemma index_of_slot v s :
  slot_of E v = Some s ->
  - 2 ^ 31 <= variable_index v < 2 ^ 31 /\ (0 <=? variable_index v) = (if v is Global _ then true else false) /\
  match v with
  | Global n => globalVariables x !! Z.to_nat (variable_index v) = Some s
  | Local n => s32 (base - variable_index v) = Z.of_nat (length outer + n) /\
               below (Z.of_nat (length outer + n)) (localVariableCount (c x)) = true /\
               localVariables (c x) !! (length outer + n)%nat = Some s
  end.
Proof.
  intros Hs. pose proof (h_few_globals _ _ _ Hh) as Hg. pose proof (h_few_locals _ _ _ Hh) as Hl.
  destruct v as [n|n]; cbn in *; pose proof (lookup_lt_Some _ _ _ Hs) as Hn.
  - rewrite Nat2Z.id, (h_globals _ _ _ Hh). split_and!; [lia..|done].
  - destruct (holds_local _ _ _ _ _ Hh Hs) as [H1 H2]. split_and!; [lia..| |by rewrite Nat2Z.inj_add|done].
    unfold s32. rewrite swrap_id by (change (2 ^ (32 - 1)) with (2 ^ 31); lia). lia.
Qed.

Lemma variable_moves v w :
  code_at (functionData x) ip (byte T_VARIABLE ++ int32 (variable_index v)) -> read E v = Some w -> (length st < 50)%nat ->
  moves (at_ x st ip) (at_ x ((false, w) :: st) (ip + 5)).
Proof.
  intros [H1 H2]%code_at_app Hr Hl. command T_VARIABLE. change (execute T_VARIABLE) with exec_variable.
  rewrite size_byte in H2. unfold read in Hr. destruct (slot_of E v) as [[[] u]|] eqn:Es; simplify_eq.
  destruct (index_of_slot v _ Es) as (Hi & Hp & Hv). unfold exec_variable, xbind. rewrite has_room_at by done.
  cbn -[operand stacked]. rewrite (read_operand_at (stacked st x) _ _ _ 4 H2 eq_refl).
  cbn -[stacked s32 int32 variable_index]. rewrite s32_int32, Hp by done.
  replace (ip + 1 + Z.of_nat 4) with (ip + 5) by lia. destruct v as [n|n].
  - change (globalVariables (stacked st x)) with (globalVariables x). by rewrite Hv.
  - destruct Hv as (E1 & E2 & E3). change (localVariableCount (c (stacked st x))) with (localVariableCount (c x)).
    change (localVariables (c (stacked st x))) with (localVariables (c x)). by rewrite E1, E2, Nat2Z.id, E3.
Qed.

Lemma equals_moves v w E1 :
  code_at (functionData x) ip (byte T_EQUALS ++ int32 (variable_index v)) -> write E v w = Some E1 ->
  moves (at_ x ((false, w) :: st) ip) (at_ (written outer x v w) st (ip + 5)).
Proof.
  intros [H1 H2]%code_at_app Hr. command T_EQUALS. change (execute T_EQUALS) with exec_equals.
  rewrite size_byte in H2. destruct (write_slot _ _ _ _ Hr) as [u Es].
  destruct (index_of_slot v _ Es) as (Hi & Hp & Hv). unfold exec_equals, xbind.
  change (need 1 ?m) with (inl (B := exit) tt, m). cbn -[operand stacked s32 variable_index].
  rewrite (read_operand_at (stacked ((false, w) :: st) x) _ _ _ 4 H2 eq_refl).
  cbn -[stacked s32 int32 variable_index]. rewrite s32_int32, Hp by done.
  replace (ip + 1 + Z.of_nat 4) with (ip + 5) by lia. destruct v as [n|n].
  - change (globalVariables (stacked ((false, w) :: st) x)) with (globalVariables x). rewrite Hv. cbn. by rewrite Nat2Z.id.
  - destruct Hv as (E2 & E3 & E4).
    change (localVariableCount (c (stacked ((false, w) :: st) x))) with (localVariableCount (c x)).
    change (localVariables (c (stacked ((false, w) :: st) x))) with (localVariables (c x)). by rewrite E2, E3, Nat2Z.id, E4.
Qed.
Lemma block_moves flags :
  let n := le_split 2 (wrap 16 (Z.of_nat (length flags))) in
  code_at (functionData x) ip (byte T_BLOCK ++ n ++ concat (map (fun m => byte (Z.b2z m)) flags)) ->
  Z.of_nat (length flags) < 2 ^ 16 ->
  moves (at_ x st ip) (at_ (entered x flags) st (ip + 3 + Z.of_nat (length flags))).
Proof.
  intros n [H1 [H2 H3]%code_at_app]%code_at_app Hf. command T_BLOCK. change (execute T_BLOCK) with (exec_block false).
  rewrite size_byte in H2, H3. change (size_of n) with 2 in H3.
  assert (Hn : le_combine n = Z.of_nat (length flags)).
  { unfold n. rewrite le_combine_split. unfold wrap. change (8 * Z.of_nat 2) with 16. rewrite Z.mod_mod by lia. apply Z.mod_small. lia. }
  assert (Hl : length (concat (map (fun m => byte (Z.b2z m)) flags)) = length flags).
  { clear. induction flags as [|m l IH]; [done|]. cbn -[byte]. by rewrite length_app, IH. }
  assert (Hz : zip_with (fun f v : Z => (negb (f =? 0), v)) (concat (map (fun m => byte (Z.b2z m)) flags))
      (repeat 0 (length flags)) = map (fun m => (m, 0)) flags).
  { clear. induction flags as [|m l IH]; [done|]. cbn [map length repeat concat]. rewrite <- IH. by destruct m. }
  unfold exec_block, xbind. rewrite (read_operand_at (stacked st x) _ _ _ 2 H2 eq_refl), Hn, Nat2Z.id, <- Hl at 1.
  rewrite (code_bytes_at (stacked st x)) by (by replace (ip + 1 + Z.of_nat 2) with (ip + 1 + 2) by lia).
  rewrite !Hn, Nat2Z.id, Hz. cbn -[stacked Z.of_nat].
  by replace (ip + 1 + Z.of_nat 2 + Z.of_nat (length flags)) with (ip + 3 + Z.of_nat (length flags)) by lia.
Qed.

Lemma exit_moves n :
  code_at (functionData x) ip (byte T_EXIT_SCOPE ++ le_split 2 (wrap 16 (Z.of_nat n))) ->
  Z.of_nat n < 2 ^ 16 -> Z.of_nat n <= localVariableCount (c x) ->
  moves (at_ x st ip) (at_ (left_ n x) st (ip + 3)).
Proof.
  intros [H1 H2]%code_at_app Hf Hn. command T_EXIT_SCOPE. change (execute T_EXIT_SCOPE) with exec_exit_scope.
  rewrite size_byte in H2. unfold exec_exit_scope, xbind. rewrite (read_operand_at (stacked st x) _ _ _ 2 H2 eq_refl).
  rewrite le_combine_split. unfold wrap. change (8 * Z.of_nat 2) with 16. rewrite Z.mod_mod, Z.mod_small by lia.
  cbn -[stacked]. change (localVariableCount (c (stacked st x))) with (localVariableCount (c x)).
  destruct (Z.leb_spec (Z.of_nat n) (localVariableCount (c x))); [|lia].
  cbn -[stacked Z.of_nat]. by replace (ip + 1 + Z.of_nat 2) with (ip + 3) by lia.
Qed.
End Variables.

(** ** Expressions *)

Lemma unary_value_token y u v : unary_value y u = Some v -> is_type y unary_operators = true.
Proof.
  unfold unary_value. repeat (destruct (y =? _) eqn:E; [intros _; by apply Z.eqb_eq in E as ->|clear E]). done.
Qed.
Lemma binary_value_token y u v w :
  binary_value machine_quotient y u v = Some w -> is_type y binary_operators || is_type y comparison_tokens = true.
Proof.
  unfold binary_value. repeat (destruct (y =? _) eqn:E; [intros _; by apply Z.eqb_eq in E as ->|clear E]). done.
Qed.

Section Expressions.
Context (outer : list slot).
Abbreviation base := (Z.of_nat (length outer) - 1).
Abbreviation at_ x st ip := (MkMachine (stacked st x) ip base).

Lemma expression_runs x E e : holds outer E x -> size_of (functionData x) < 2 ^ 31 -> forall v st ip,
  eval machine_quotient E e = Some v -> code_at (functionData x) ip (expression_code e) -> (length st + expression_depth e <= 50)%nat ->
  rtc moves (at_ x st ip) (at_ x ((false, v) :: st) (ip + size_of (expression_code e))).
Proof.
  intros Hh Hs. induction e as [w| |b|z|y e IH|y a IHa b IHb|y a IHa b IHb]; intros v st ip Hv Hc Hd;
    cbn [expression_code expression_depth eval] in *.
  - simplify_eq. apply rtc_once, literal_moves; [done|apply int_literal_range|lia].
  - simplify_eq. apply rtc_once, zero_moves; [done|lia].
  - simplify_eq. apply rtc_once, literal_moves; [done|by destruct b|lia].
  - apply rtc_once. rewrite size_app. by eapply variable_moves; [..|lia].
  - apply bind_Some in Hv as (u & Hu & Hv). apply code_at_app in Hc as [H1 H2].
    eapply rtc_r; [by apply IH|]. rewrite size_app, Z.add_assoc. eapply unary_moves; [done|by eapply unary_value_token|done].
  - apply bind_Some in Hv as (u & Hu & (w & Hw & Hv)%bind_Some). apply code_at_app in Hc as [H1 [H2 H3]%code_at_app].
    etrans; [apply IHa; [done..|lia]|]. eapply rtc_r; [apply IHb; [done..|cbn; lia]|].
    rewrite !size_app, !Z.add_assoc. eapply binary_moves; [done|by eapply binary_value_token|done].
  - apply bind_Some in Hv as (u & Hu & Hv). apply code_at_app in Hc as [H1 H2].
    etrans; [apply IHa; [done..|lia]|]. pose proof (code_at_bounds _ _ _ H2) as Hb.
    rewrite app_assoc in H2. apply code_at_app in H2 as [H2 H3]. rewrite !size_app, size_byte, size_int32 in *.
    pose proof (size_nonneg (expression_code b)). eapply rtc_l; [apply (logical_moves _ _ _ _ _ u _ H2); lia|].
    destruct (decides y u).
    + simplify_eq. by replace (ip + size_of (expression_code a) + 1 + (4 + size_of (expression_code b)))
        with (ip + (size_of (expression_code a) + (1 + (4 + size_of (expression_code b))))) by lia.
    + replace (ip + (size_of (expression_code a) + (1 + (4 + size_of (expression_code b)))))
        with (ip + size_of (expression_code a) + 1 + 4 + size_of (expression_code b)) by lia.
      apply IHb; [done| |lia]. by replace (ip + size_of (expression_code a) + 1 + 4)
        with (ip + size_of (expression_code a) + (1 + 4)) by lia.
Qed.
End Expressions.

(** ** Statements *)

Section Statements.
Context (outer : list slot).
Abbreviation base := (Z.of_nat (length outer) - 1).
Abbreviation at_ x st ip := (MkMachine (stacked st x) ip base).

(** From one context to another that is alike and holds [E]. *)
Definition runs_to (x : ExecutionContext) (st : list slot) (ip : Z) (E : frame) (ip' : Z) : Prop :=
  exists y, rtc moves (at_ x st ip) (at_ y st ip') /\ holds outer E y /\ alike x y.

Lemma runs_here x st ip E ip' : holds outer E x -> ip' = ip -> runs_to x st ip E ip'.
Proof. intros Hh ->. exists x. split_and!; [done|done|apply alike_refl]. Qed.

Lemma runs_trans x st ip y ip1 E ip2 :
  rtc moves (at_ x st ip) (at_ y st ip1) -> alike x y -> runs_to y st ip1 E ip2 -> runs_to x st ip E ip2.
Proof.
  intros H1 H2 (z & H3 & H4 & H5). exists z. split_and!; [by etrans|done|by eapply alike_trans].
Qed.

(** A condition, and the jump behind it. *)
Lemma condition_runs x E e v st ip d :
  holds outer E x -> size_of (functionData x) < 2 ^ 31 -> eval machine_quotient E e = Some v ->
  code_at (functionData x) ip (expression_code e ++ byte T_IF ++ int32 d) -> - 2 ^ 31 <= d < 2 ^ 31 ->
  (length st + expression_depth e <= 50)%nat ->
  rtc moves (at_ x st ip) (at_ x st (ip + size_of (expression_code e) + 1 + (if v =? 0 then d else 4))).
Proof.
  intros Hh Hs Hv [H1 H2]%code_at_app Hd Hl. eapply rtc_r; [by apply (expression_runs outer x E e)|]. by apply if_moves.
Qed.

Definition small (x : ExecutionContext) : Prop := size_of (functionData x) < 2 ^ 31.

(** The code of [a] takes [E] to [E1]. *)
Definition code_runs (a : stmt) (E E1 : frame) : Prop := forall x st ip ip',
  holds outer E x -> small x -> code_at (functionData x) ip (statement_code a) ->
  (length st + statement_depth a <= 50)%nat -> ip' = ip + size_of (statement_code a) -> runs_to x st ip E1 ip'.

Lemma code_runs_seq E a E1 b E2 : code_runs a E E1 -> code_runs b E1 E2 -> code_runs (Seq a b) E E2.
Proof.
  intros Ha Hb x st ip ip' Hh Hs [H1 H2]%code_at_app Hl ->. cbn in Hl |- *.
  destruct (Ha x st ip (ip + size_of (statement_code a))) as (y & Hr & Hy & Hxy); [done..|lia|done|].
  eapply runs_trans; [done|done|]. apply alike_code in Hxy.
  eapply Hb; [done|unfold small; by rewrite Hxy|by rewrite Hxy|lia|rewrite size_app; lia].
Qed.

Lemma code_runs_assign E v e w E1 : eval machine_quotient E e = Some w -> write E v w = Some E1 -> code_runs (Assign v e) E E1.
Proof.
  intros Hv Hw x st ip ip' Hh Hs [H1 H2]%code_at_app Hl ->. cbn [statement_code statement_depth] in *.
  exists (written outer x v w). split_and!; [|by eapply holds_written|apply alike_written].
  eapply rtc_r; [by apply (expression_runs outer x E e)|]. rewrite !size_app, size_byte, size_int32.
  rewrite Z.add_assoc. by eapply equals_moves.
Qed.

(** Code behind a condition. *)
Lemma behind_condition C ip ke d k :
  code_at C ip (ke ++ byte T_IF ++ int32 d ++ k) ->
  code_at C ip (ke ++ byte T_IF ++ int32 d) /\ code_at C (ip + size_of ke + 5) k.
Proof.
  intros Hc. assert (code_at C ip ((ke ++ byte T_IF ++ int32 d) ++ k)) as [H1 H2]%code_at_app by by rewrite <- !app_assoc.
  split; [done|]. rewrite !size_app, size_byte, size_int32 in H2. by replace (ip + size_of ke + 5) with (ip + (size_of ke + (1 + 4))) by lia.
Qed.

(** What a condition leads to: the code behind it, or that behind the jump. *)
Lemma branch_runs x E e v st ip d k E1 ip1 ip' :
  holds outer E x -> small x -> eval machine_quotient E e = Some v ->
  code_at (functionData x) ip (expression_code e ++ byte T_IF ++ int32 d ++ k) ->
  0 <= d <= 4 + size_of k -> (length st + expression_depth e <= 50)%nat ->
  ip1 = ip + size_of (expression_code e) + (if v =? 0 then 1 + d else 5) -> runs_to x st ip1 E1 ip' -> runs_to x st ip E1 ip'.
Proof.
  intros Hh Hs Hv Hc Hd Hl -> Hr. pose proof (code_at_bounds _ _ _ Hc) as Hb. rewrite !size_app, size_byte, size_int32 in Hb.
  pose proof (size_nonneg (expression_code e)). unfold small in Hs. apply behind_condition in Hc as [H1 H2].
  eapply runs_trans; [|apply alike_refl|exact Hr].
  replace (_ + (if v =? 0 then _ else 5)) with (ip + size_of (expression_code e) + 1 + (if v =? 0 then d else 4))
    by (destruct (v =? 0); lia).
  apply (condition_runs x E); [done..|lia|done].
Qed.
Ltac sizes := rewrite ?size_app, ?size_byte, ?size_int32 in *; repeat match goal with
  | |- context [size_of ?k] => lazymatch goal with H : 0 <= size_of k |- _ => fail | _ => pose proof (size_nonneg k) end end.

Lemma code_runs_if E e v a E1 :
  eval machine_quotient E e = Some v -> (if v =? 0 then E1 = E else code_runs a E E1) -> code_runs (If e a) E E1.
Proof.
  intros Hv Ha x st ip ip' Hh Hs Hc Hl ->. cbn [statement_code statement_depth] in *.
  eapply branch_runs; [done..|sizes; lia|lia|done|]. apply behind_condition in Hc as [H1 H2]. destruct (v =? 0).
  - subst. apply runs_here; [done|]. sizes. lia.
  - apply Ha; [done..|lia|sizes; lia].
Qed.

Lemma code_runs_if_else E e v a b E1 :
  eval machine_quotient E e = Some v -> (if v =? 0 then code_runs b E E1 else code_runs a E E1) -> code_runs (IfElse e a b) E E1.
Proof.
  intros Hv Ha x st ip ip' Hh Hs Hc Hl ->. cbn [statement_code statement_depth] in *.
  eapply branch_runs; [done..|sizes; lia|lia|done|]. pose proof (code_at_bounds _ _ _ Hc) as Hb.
  apply behind_condition in Hc as [_ [H1 H2]%code_at_app].
  assert (H3 := H2). rewrite app_assoc in H3. apply code_at_app in H3 as [H3 H4]. unfold small in Hs. destruct (v =? 0).
  - apply Ha; [done..| |lia|sizes; lia]. sizes. eapply code_at_eq; [exact H4|lia].
  - destruct (Ha x st (ip + size_of (expression_code e) + 5) (ip + size_of (expression_code e) + 5 + size_of (statement_code a)))
      as (y & Hr & Hy & Hxy); [done..|lia|done|].
    eapply runs_trans; [done|done|]. apply alike_code in Hxy. exists y. split_and!; [|done|apply alike_refl].
    apply rtc_once. sizes. eapply moves_eq; [apply branch_moves; [by rewrite Hxy|lia]|lia].
Qed.
Lemma code_runs_while_end E e a : eval machine_quotient E e = Some 0 -> code_runs (While e a) E E.
Proof.
  intros Hv x st ip ip' Hh Hs Hc Hl ->. cbn [statement_code statement_depth] in *.
  eapply branch_runs; [done..|sizes; lia|lia|done|]. apply runs_here; [done|]. cbn [Z.eqb]. sizes. lia.
Qed.

Lemma code_runs_while_loop E e v a E1 E2 :
  eval machine_quotient E e = Some v -> v <> 0 -> code_runs a E E1 -> code_runs (While e a) E1 E2 -> code_runs (While e a) E E2.
Proof.
  intros Hv Hn Ha Hw x st ip ip' Hh Hs Hc Hl ->. assert (Hk := Hc). cbn [statement_code statement_depth] in Hc, Hl.
  eapply branch_runs; [done..|sizes; lia|lia|done|]. destruct (Z.eqb_spec v 0); [done|].
  pose proof (code_at_bounds _ _ _ Hc) as Hb. apply behind_condition in Hc as [_ [H1 H2]%code_at_app].
  destruct (Ha x st (ip + size_of (expression_code e) + 5) (ip + size_of (expression_code e) + 5 + size_of (statement_code a)))
    as (y & Hr & Hy & Hxy); [done..|lia|done|].
  eapply runs_trans; [done|done|]. apply alike_code in Hxy. unfold small in *.
  eapply (runs_trans _ _ _ y ip); [|apply alike_refl|].
  - apply rtc_once. eapply moves_eq; [apply branch_moves; [by rewrite Hxy|sizes; lia]|lia].
  - apply Hw; [done|unfold small; by rewrite Hxy|by rewrite Hxy|done|done].
Qed.

Lemma code_runs_block E flags a E1 :
  Z.of_nat (length outer + length (locals E) + length flags) < 2 ^ 31 -> Z.of_nat (length flags) < 2 ^ 16 ->
  length (locals E1) = (length (locals E) + length flags)%nat ->
  code_runs a (enter_block flags E) E1 -> code_runs (Block flags a) E (leave_block E E1).
Proof.
  intros Hf Hn Hl1 Ha x st ip ip' Hh Hs Hc Hl ->. cbn [statement_code statement_depth] in *.
  set (n := le_split 2 _) in *. set (k := concat _) in *. assert (Hk : size_of k = Z.of_nat (length flags)).
  { unfold k, size_of. clear. induction flags as [|m l IH]; [done|]. cbn [map concat]. rewrite length_app.
    change (length (byte _)) with 1%nat. cbn [length]. lia. }
  assert (code_at (functionData x) ip ((byte T_BLOCK ++ n ++ k) ++ statement_code a ++ byte T_EXIT_SCOPE ++ n))
    as [H1 [H2 H3]%code_at_app]%code_at_app by by rewrite <- !app_assoc.
  change (size_of n) with 2 in *. sizes. change (size_of n) with 2 in *.
  assert (E0 : functionData (entered x flags) = functionData x) by apply alike_code, alike_entered.
  eapply runs_trans; [apply rtc_once; by apply (block_moves outer x)|apply alike_entered|].
  destruct (Ha (entered x flags) st (ip + 3 + Z.of_nat (length flags)) (ip + 3 + Z.of_nat (length flags) + size_of (statement_code a)))
    as (y & Hr & Hy & Hxy); [by apply (holds_entered outer x E)|unfold small; by rewrite E0| |done|done|].
  { rewrite E0. eapply code_at_eq; [exact H2|lia]. }
  eapply runs_trans; [done|done|]. apply alike_code in Hxy. rewrite E0 in Hxy.
  exists (left_ (length flags) y). split_and!; [|by apply holds_left|apply alike_left]. apply rtc_once.
  eapply moves_eq; [apply (exit_moves outer); [|done|]|].
  - rewrite Hxy. eapply code_at_eq; [exact H3|lia].
  - rewrite (h_count _ _ _ Hy), Hl1. lia.
  - lia.
Qed.

(** Blocks have at most 10000 variables. *)
Fixpoint few_variables (a : stmt) : bool :=
  match a with
  | Skip | Assign _ _ => true
  | Seq a b | IfElse _ a b => few_variables a && few_variables b
  | If _ a | While _ a => few_variables a
  | Block flags a => (Z.of_nat (length flags) <=? 10000) && few_variables a
  end.

Lemma statement_runs E a E1 : exec (length outer) E a E1 -> few_variables a = true -> code_runs a E E1.
Proof.
  induction 1 as [E|E a E1 b E2 _ IHa _ IHb|E v e w E1 Hv Hw|E e v a E1 Hv Hn _ IH|E e a Hv|E e v a b E1 Hv Hn _ IH
    |E e a b E1 Hv _ IH|E e a Hv|E e v a E1 E2 Hv Hn _ IH1 _ IH2|E flags a E1 Hf Hex IH]; cbn; intros Hw'.
  - intros x st ip ip' Hh _ _ _ ->. apply runs_here; [done|]. change (size_of _) with 0. lia.
  - apply andb_true_iff in Hw' as [? ?]. eapply code_runs_seq; auto.
  - by eapply code_runs_assign.
  - eapply code_runs_if; [done|]. destruct (Z.eqb_spec v 0); [done|auto].
  - by eapply code_runs_if.
  - apply andb_true_iff in Hw' as [? ?]. eapply code_runs_if_else; [done|]. destruct (Z.eqb_spec v 0); [done|auto].
  - apply andb_true_iff in Hw' as [? ?]. eapply code_runs_if_else; [done|]. cbn. auto.
  - by apply code_runs_while_end.
  - eapply code_runs_while_loop; eauto.
  - apply andb_true_iff in Hw' as [? ?]. apply exec_lengths in Hex as [_ Hex]. cbn in Hex.
    rewrite length_app, length_map in Hex. apply code_runs_block; [done|lia|done|auto].
Qed.
End Statements.
End Run.
