(* ===== verification/ScriptCompileNodes.v ===== *)
(** * Correctness of code generation: from nodes to bytecode

    [FunctionBuilderRecurse], called on a node that [expression] or [statement] reads,
    writes the bytecode of what was read; with [ScriptCompile], running it does what the
    program means. *)

From Stdlib Require Import String.
From stdpp Require Import base option list relations.
From S2P Require Import Prelude ScriptToken ScriptParser ScriptParserProofs ScriptHeap ScriptFloat ScriptExec ScriptExecProofs.
From S2P Require Import ScriptScope ScriptTypes ScriptGenerate ScriptSource ScriptCompile.

Section Nodes.
Context (offset : Z) (s : ast).

Abbreviation ns := (nodes s).

(** A computation that only reads the store; one that appends [k] to the bytecode. *)
Definition reads {A} (m : M ast A) (a : A) : Prop := forall b, m (set_builder b s) = (Ok a, set_builder b s).

Definition writes (m : M ast unit) (k : bytes) : Prop :=
  forall b, variableOffset b = offset -> exists b',
    m (set_builder b s) = (Ok tt, set_builder b' s) /\ data b' = data b ++ k /\ variableOffset b' = offset.

Lemma reads_ret {A} (a : A) : reads (ret a) a.
Proof. done. Qed.
Lemma reads_bind {A B} (m : M ast A) (f : A -> M ast B) a b : reads m a -> reads (f a) b -> reads (bind m f) b.
Proof. intros Hm Hf d. unfold bind. by rewrite Hm. Qed.
Lemma reads_node p n : nodes s !! p = Some n -> reads (node_at p) n.
Proof. intros E b. unfold node_at, bind, get, deref, lift_opt. cbn. by rewrite E. Qed.
Lemma reads_scope p x : scopes s !! p = Some x -> reads (scope_at p) x.
Proof. intros E b. unfold scope_at, bind, get, deref, lift_opt. cbn. by rewrite E. Qed.
Lemma reads_deref {A} (o : option A) a : o = Some a -> reads (deref o) a.
Proof. by intros ->. Qed.

Lemma writes_nil : writes (ret tt) [].
Proof. intros b Hb. exists b. by rewrite app_nil_r. Qed.
Lemma writes_bind m f k1 k2 : writes m k1 -> writes (f tt) k2 -> writes (bind m f) (k1 ++ k2).
Proof.
  intros H1 H2 b Hb. destruct (H1 b Hb) as (b1 & E1 & D1 & O1). destruct (H2 b1 O1) as (b2 & E2 & D2 & O2).
  exists b2. split_and!; [|by rewrite D2, D1, <- app_assoc|done]. unfold bind. by rewrite E1.
Qed.
Lemma writes_skip m f k : writes m [] -> writes (f tt) k -> writes (bind m f) k.
Proof. apply (writes_bind m f [] k). Qed.
Lemma writes_read {A} (m : M ast A) a f k : reads m a -> writes (f a) k -> writes (bind m f) k.
Proof. intros Hm Hf b Hb. destruct (Hf b Hb) as (b' & E & Hb'). exists b'. split; [|done]. unfold bind. by rewrite Hm. Qed.
Lemma writes_eq m k k' : writes m k -> k = k' -> writes m k'.
Proof. by intros ? <-. Qed.

Lemma writes_append l : writes (FunctionBuilderAppend l) l.
Proof. intros b Hb. by exists (with_data (data b ++ l) b). Qed.
Lemma writes_emit y : writes (emit y) (byte y).
Proof. apply writes_append. Qed.
Lemma writes_literal v : writes (emit_literal v) (literal_code v).
Proof. apply writes_bind; apply writes_append. Qed.

Lemma line_function_ok fuel p : ends_at_root s fuel p = true -> forall found, exists f, reads (line_function fuel p found) f.
Proof.
  revert p. induction fuel as [|fuel IH]; intros p Hp found; [done|]. cbn in Hp. destruct p as [q|]; [|by exists found].
  destruct (nodes s !! q) as [n|] eqn:En; [|done].
  destruct (IH _ Hp (if type n =? T_FUNCTION then Some (token n) else found)) as [f Hf]. exists f.
  eapply reads_bind; [by apply reads_node|done].
Qed.

Lemma line_number p n f b : ns !! p = Some n -> reads (line_function (S (length ns)) (Some p) None) f ->
  FunctionBuilderAddLineNumber p (set_builder b s) =
  (Ok tt, set_builder (with_lines (lineNumbers b ++ [MkLineNumber (builder_module b) (size_of (data b)) (token_line (token n)) f]) b) s).
Proof.
  intros Hn Hf. unfold FunctionBuilderAddLineNumber. unfold bind at 1. cbn -[bind line_function set_builder].
  change (nodes (set_builder b s)) with ns. unfold bind at 1. rewrite Hf. unfold bind at 1. by rewrite (reads_node _ _ Hn).
Qed.

Lemma writes_line p : rooted s p = true -> writes (FunctionBuilderAddLineNumber p) [].
Proof.
  intros Hp b Hb. destruct (line_function_ok _ _ Hp None) as [f Hf].
  unfold rooted in Hp. cbn in Hp. destruct (nodes s !! p) as [n|] eqn:En; [|done].
  exists (with_lines (lineNumbers b ++ [MkLineNumber (builder_module b) (size_of (data b)) (token_line (token n)) f]) b).
  split_and!; [by apply line_number|by rewrite app_nil_r|done].
Qed.
(** ** Variables *)

Definition valid (l : list nat) : Prop := Forall (fun e => is_Some (ns !! e)) l.

Lemma entries_skip f p fa w l : valid l -> forall j v,
  index v <> -1 \/ find (entry_is ns (named w)) l = None -> reads (variable_entries f p fa w l j v) v.
Proof.
  induction 1 as [|e l [n Hn] _ IH]; intros j v Hv; [done|]. cbn.
  eapply reads_bind; [by apply reads_node|].
  assert (Hc : bool_decide (text (token n) = w) && (index v =? -1) = false).
  { apply andb_false_iff. destruct Hv as [Hv|Hv]; [right; by apply Z.eqb_neq|left]. cbn in Hv. unfold entry_is in Hv at 1.
    rewrite Hn in Hv. by destruct (named w n) eqn:E. }
  rewrite Hc. eapply reads_bind; [done|]. apply IH. destruct Hv as [Hv|Hv]; [by left|right]. cbn in Hv.
  by destruct (entry_is ns (named w) e).
Qed.

Lemma variable_type_other n y :
  ScopeIsVariableType n = true -> is_type y [T_DECLARE; T_FUNCTION; T_ARGUMENT; T_PLACEHOLDER] = false -> (type n =? y) = false.
Proof. intros Hn Hy. apply Z.eqb_neq. intros <-. unfold ScopeIsVariableType in Hn. congruence. Qed.

(** The flag that a search leaves behind. *)
Definition finds (m : M ast search) (v : search) (d : AstNode) : Prop :=
  forall b, m (set_builder b s) = (Ok v, set_builder (with_persistent (isPersistentVariable (flags d)) b) s).

Lemma entries_found f p (fa : bool) w d l : valid l -> forall j i root off e,
  0 <= j -> find (entry_is ns (named w)) l = Some e -> ns !! e = Some d -> index_of ns w false j l = Some i ->
  (fa = true -> type d = T_DECLARE) ->
  0 <= i /\ finds (variable_entries f p fa w l j (MkSearch (-1) root off false None)) (MkSearch i root off false None) d.
Proof.
  induction 1 as [|e' l [n Hn] Hl IH]; intros j i root off e Hj Hf Hd Hi Hfa; [done|]. cbn in Hf, Hi.
  unfold entry_is in Hf at 1, Hi at 1 2 3. rewrite Hn in Hf, Hi. unfold named in Hf at 1, Hi at 1.
  destruct (bool_decide (text (token n) = w)) eqn:Ew.
  - injection Hf as <-. rewrite Hn in Hd. injection Hd as <-. destruct (ScopeIsVariableType n) eqn:Es; [|done]. injection Hi as <-. split; [done|]. intros b. cbn.
    unfold bind at 1. rewrite (reads_node _ _ Hn), Ew. cbn [index]. change (-1 =? -1) with true. cbn [andb].
    unfold variable_entry, bind at 1 2.
    rewrite (variable_type_other n T_INLINE), (variable_type_other n T_INTTYPE_CONSTANT) by done.
    replace (negb (type n =? T_DECLARE) && fa) with false
      by (destruct fa; [by rewrite Hfa|symmetry; apply andb_false_r]).
    cbn -[variable_entries]. apply entries_skip; [done|]. left. cbn. lia.
  - destruct (IH (if ScopeIsVariableType n then j + 1 else j) i root off e) as [H1 H2]; [destruct (ScopeIsVariableType n); lia|done|done|
      by rewrite orb_false_r in Hi|done|]. split; [done|]. intros b. cbn. unfold bind at 1. rewrite (reads_node _ _ Hn), Ew. apply H2.
Qed.
Definition scope_usable (x : nat * Scope) : Prop := 0 <= variableEntryCount x.2 /\ valid (entries x.2).

Fixpoint root_id (l : list (nat * Scope)) (r : option nat) : option nat :=
  match l with [] => r | x :: l' => root_id l' (if isRoot x.2 then Some x.1 else r) end.

Lemma usable_all l : usable s l = true -> Forall scope_usable l /\ count_variables l < 2 ^ 31.
Proof.
  intros [H1 H2]%andb_true_iff. split; [|by apply Z.ltb_lt]. rewrite forallb_forall in H1. apply List.Forall_forall. intros x Hx.
  apply H1, andb_true_iff in Hx as [Ha Hb]. split; [by apply Z.leb_le|]. rewrite forallb_forall in Hb. apply List.Forall_forall.
  intros e He. by apply Hb, bool_decide_eq_true in He.
Qed.

Lemma count_nonneg l : Forall scope_usable l -> 0 <= count_variables l.
Proof. induction 1 as [|x l [Hx _] _ IH]; [done|]. cbn. lia. Qed.

Lemma s32_id z : - 2 ^ 31 <= z < 2 ^ 31 -> s32 z = z.
Proof. intros Hz. unfold s32. by apply swrap_id. Qed.

Lemma around_inv n q cur l : scopes_around s (S n) (Some q) cur = Some l -> exists m, ns !! q = Some m /\
  (scope m = cur /\ scopes_around s n (parent m) cur = Some l \/
   scope m <> cur /\ exists i x l', scope m = Some i /\ scopes s !! i = Some x /\
     scopes_around s n (parent m) (scope m) = Some l' /\ l = (i, x) :: l').
Proof.
  cbn. intros (m & Hm & Hl)%bind_Some. exists m. split; [done|]. case_bool_decide; [by left|right]. split; [done|].
  apply bind_Some in Hl as (i & Hi & (x & Hx & (l' & Hl & [= <-])%bind_Some)%bind_Some). by exists i, x, l'.
Qed.

Lemma scopes_outer f p fa w off n : forall anc cur l i root,
  scopes_around s n anc cur = Some l -> Forall scope_usable l -> 0 <= i -> i + count_variables l < 2 ^ 31 ->
  reads (variable_scopes n f p fa w anc cur (MkSearch i root off false None))
    (MkSearch (i + count_variables l) (root_id l root) off false None).
Proof.
  induction n as [|n IH]; intros anc cur l i root Hl Hu Hi Hc; [done|]. cbn [variable_scopes].
  destruct anc as [a|]; [|cbn in Hl; simplify_eq; cbn; by rewrite Z.add_0_r].
  apply around_inv in Hl as (m & En & [[Es Hl]|(Es' & sc & x & l' & Es & Ex & Hl & ->)]).
  - eapply reads_bind; [by apply reads_node|]. rewrite bool_decide_true by done. by apply IH.
  - eapply reads_bind; [by apply reads_node|]. rewrite bool_decide_false by done.
    eapply reads_bind; [by apply reads_deref|]. eapply reads_bind; [by apply reads_scope|].
    apply List.Forall_cons_iff in Hu as [[Hx1 Hx2] Hu]. pose proof (count_nonneg _ Hu). cbn in Hc, Hx1, Hx2 |- *.
    destruct (Z.eqb_spec i (-1)); [lia|]. rewrite s32_id by lia. eapply reads_bind; [apply entries_skip; [done|left; cbn; lia]|].
    rewrite Z.add_assoc. apply IH; [done|done|lia|lia].
Qed.

Lemma scopes_search f p (fa : bool) w off d n : forall anc cur l i root,
  scopes_around s n anc cur = Some l -> Forall scope_usable l -> count_variables l < 2 ^ 31 ->
  find_variable s w l = Some (d, i) -> i < 2 ^ 31 -> (fa = true -> type d = T_DECLARE) ->
  0 <= i /\ finds (variable_scopes n f p fa w anc cur (MkSearch (-1) root off false None))
    (MkSearch i (root_id l root) off false None) d.
Proof.
  induction n as [|n IH]; intros anc cur l i root Hl Hu Hc Hf Hi Hfa; [done|]. cbn [variable_scopes].
  destruct anc as [a|]; [|cbn in Hl; by simplify_eq].
  apply around_inv in Hl as (m & En & [[Es Hl]|(Es' & sc & x & l' & Es & Ex & Hl & ->)]).
  - destruct (IH (parent m) cur l i root) as [H1 H2]; [done..|]. split; [done|]. intros b. unfold bind.
    rewrite (reads_node _ _ En), bool_decide_true by done. apply H2.
  - apply List.Forall_cons_iff in Hu as [[Hx1 Hx2] Hu]. pose proof (count_nonneg _ Hu). cbn in Hc, Hf, Hx1, Hx2.
    destruct (find (entry_is ns (named w)) (entries x)) as [e|] eqn:Ef.
    + apply bind_Some in Hf as (d' & Hd & (j & Hj & [= -> <-])%bind_Some).
      destruct (entries_found f p fa w d _ Hx2 0 j (if isRoot x then Some sc else root) off e) as [H1 H2]; [done..|].
      split; [lia|]. intros b. unfold bind at 1. rewrite (reads_node _ _ En), bool_decide_false by done.
      unfold bind at 1. rewrite (reads_deref _ _ Es). unfold bind at 1. rewrite (reads_scope _ _ Ex).
      cbn -[bind variable_scopes variable_entries]. unfold bind at 1. rewrite H2. by apply scopes_outer.
    + destruct (IH (parent m) (scope m) l' i (if isRoot x then Some sc else root)) as [H1 H2]; [done..|lia|done|done|done|].
      split; [done|]. intros b. unfold bind at 1. rewrite (reads_node _ _ En), bool_decide_false by done.
      unfold bind at 1. rewrite (reads_deref _ _ Es). unfold bind at 1. rewrite (reads_scope _ _ Ex).
      cbn -[bind variable_scopes variable_entries]. unfold bind at 1.
      rewrite (entries_skip f p fa w _ Hx2 0 _ (or_intror Ef)). apply H2.
Qed.
Lemma around_scopes n : forall anc cur l,
  scopes_around s n anc cur = Some l -> Forall (fun x => scopes s !! x.1 = Some x.2) l.
Proof.
  induction n as [|n IH]; intros anc cur l Hl; [done|]. destruct anc as [a|]; [|cbn in Hl; by simplify_eq].
  apply around_inv in Hl as (m & _ & [[_ Hl]|(_ & sc & x & l' & _ & Ex & Hl & ->)]); [by eapply IH|].
  constructor; [done|by eapply IH].
Qed.

Lemma root_scope_id l x : Forall scope_usable l -> root_scope l = Some x -> forall r, exists i,
  root_id l r = Some i /\ In (i, x) l /\ 0 <= variableEntryCount x <= count_variables l.
Proof.
  induction 1 as [|y l [Hy _] Hl IH]; [done|]. intros Hx r. cbn [root_scope root_id count_variables] in *.
  destruct l as [|z l].
  - destruct (isRoot y.2) eqn:Ey; simplify_eq. exists y.1. destruct y. cbn in *. split_and!; [done|by left|lia|lia].
  - destruct (isRoot y.2) eqn:Ey; [done|]. destruct (IH Hx r) as (i & H1 & H2 & H3). exists i.
    split_and!; [done|by right|lia|lia].
Qed.

(** What [FunctionBuilderVariable] makes of a search. *)
Definition final_index (count : Z) (v : search) : Z :=
  if (s32 count <=? index v) && negb (inlineImport v) then s32 (count - index v - 1) else s32 (index v + module_offset v).

Lemma resolve_search f p n (fa : bool) d v :
  ns !! p = Some n -> resolve_variable offset s p = Some (d, v) -> (fa = true -> type d = T_DECLARE) -> exists w r x,
    finds (variable_scopes (S (length ns)) f p fa (text (token n)) (Some p) None (MkSearch (-1) None offset false None)) w d /\
    constant w = None /\ rootScope w = Some r /\ scopes s !! r = Some x /\
    final_index (variableEntryCount x) w = variable_index v.
Proof.
  intros Hn Hr Hfa. unfold resolve_variable in Hr. rewrite Hn in Hr. cbn -[scopes_around] in Hr.
  apply bind_Some in Hr as (l & Hl & ([d' i] & Hf & (root & Hroot & Hr)%bind_Some)%bind_Some). cbn -[usable] in Hr.
  destruct (usable s l && (i <? 2 ^ 31)) eqn:Hu; [cbn in Hr|done].
  apply andb_true_iff in Hu as [[Hu Hc]%usable_all Hi%Z.ltb_lt].
  destruct (root_scope_id l root Hu Hroot None) as (r & Er & Hin & Hcount).
  pose proof (around_scopes _ _ _ _ Hl) as Hsc. rewrite List.Forall_forall in Hsc. apply Hsc in Hin. cbn in Hin.
  assert (Hd : d' = d) by (repeat case_match; by simplify_eq). subst d'.
  destruct (scopes_search f p fa _ offset d _ _ _ _ i None Hl Hu Hc Hf Hi Hfa) as [Hi0 Hfind].
  eexists _, r, root. split_and!; [exact Hfind|done|done|done|]. unfold final_index. cbn. rewrite s32_id by lia.
  destruct (Z.leb_spec (variableEntryCount root) i); cbn.
  - simplify_eq. cbn. rewrite s32_id by lia. lia.
  - destruct ((0 <=? offset) && (i + offset <? 2 ^ 31)) eqn:Eo; simplify_eq. apply andb_true_iff in Eo as [?%Z.leb_le ?%Z.ltb_lt].
    cbn. rewrite s32_id by lia. lia.
Qed.
(** The start of [FunctionBuilderVariable], up to the use of what was found. *)
Lemma variable_start f p n (fa : bool) d v : ns !! p = Some n -> rooted s p = true ->
  resolve_variable offset s p = Some (d, v) -> (fa = true -> type d = T_DECLARE) -> forall b, variableOffset b = offset -> exists b',
    FunctionBuilderVariable f p fa (set_builder b s) =
      (if fa then update_builder (with_target (variable_index v) false false)
       else emit (type n) ;;; emit_int 4 (variable_index v)) (set_builder b' s) /\
    data b' = data b /\ variableOffset b' = offset /\ assigns_persistent b' = isPersistentVariable (flags d).
Proof.
  intros Hn Hroot Hr Hfa b Hb. destruct (resolve_search f p n fa d v Hn Hr Hfa) as (w & r & x & Hf & Hc & Ew & Ex & <-).
  set (b1 := with_persistent (isPersistentVariable (flags d)) b).
  destruct (line_function_ok _ _ Hroot None) as [g Hg].
  exists (with_lines (lineNumbers b1 ++ [MkLineNumber (builder_module b1) (size_of (data b1)) (token_line (token n)) g]) b1).
  split_and!; [|done..]. unfold FunctionBuilderVariable. unfold bind at 1. rewrite (reads_node _ _ Hn).
  unfold bind at 1. change (get_builder (set_builder b s)) with (Ok b, set_builder b s).
  unfold bind at 1. change (get (set_builder b s)) with (Ok (set_builder b s), set_builder b s).
  change (nodes (set_builder b s)) with ns. rewrite Hb. unfold bind at 1. rewrite Hf. fold b1. unfold bind at 1.
  rewrite (line_number p n g b1 Hn Hg), Hc, Ew. unfold bind at 1. cbn -[bind set_builder]. unfold bind at 1. by rewrite (reads_scope _ _ Ex).
Qed.

Lemma writes_variable f p n d v : ns !! p = Some n -> rooted s p = true -> resolve_variable offset s p = Some (d, v) ->
  writes (FunctionBuilderVariable f p false) (byte (type n) ++ int32 (variable_index v)).
Proof.
  intros Hn Hroot Hr b Hb. destruct (variable_start f p n false d v Hn Hroot Hr) with (b := b) as (b1 & E & D & O & _); [done..|].
  destruct (writes_bind (emit (type n)) (fun _ => emit_int 4 (variable_index v)) _ _ (writes_emit _) (writes_append _) b1 O)
    as (b2 & E2 & D2 & O2).
  exists b2. rewrite E. split_and!; [done|by rewrite D2, D|done].
Qed.

Lemma target_variable f p n v : ns !! p = Some n -> rooted s p = true -> target offset s p = Some v ->
  forall b, variableOffset b = offset -> exists b', FunctionBuilderVariable f p true (set_builder b s) = (Ok tt, set_builder b' s) /\
    data b' = data b /\ variableOffset b' = offset /\ scopeIndex b' = variable_index v /\
    assigns_persistent b' = false /\ isDotAssignment b' = false /\ isListAssignment b' = false.
Proof.
  intros Hn Hroot Ht b Hb. unfold target in Ht. apply bind_Some in Ht as ([d v'] & Hr & Ht). cbn in Ht.
  destruct (_ && _) eqn:Ed; [|done]. apply andb_true_iff in Ed as [Ed%Z.eqb_eq Ep%negb_true_iff]. injection Ht as ->.
  destruct (variable_start f p n true d v Hn Hroot Hr) with (b := b) as (b1 & E & D & O & P); [done..|].
  exists (with_target (variable_index v) false false b1). rewrite E. by rewrite Ep in P.
Qed.
(** ** Expressions *)

(** Tests of a known type. *)
Ltac decide_types := repeat match goal with
  | |- context [if ?b then _ else _] =>
      let v := eval vm_compute in b in
      lazymatch v with true => change b with true | false => change b with false end; cbv iota
  end.

Lemma reads_first p n : ns !! p = Some n -> reads (first p) (firstChild n).
Proof. intros E. by eapply reads_bind; [apply reads_node|]. Qed.
Lemma reads_next p n : ns !! p = Some n -> reads (next p) (sibling n).
Proof. intros E. by eapply reads_bind; [apply reads_node|]. Qed.
Lemma reads_etype p n : ns !! p = Some n -> reads (etype p) (expressionType n).
Proof. intros E. by eapply reads_bind; [apply reads_node|]. Qed.
Lemma reads_ntype p n : ns !! p = Some n -> reads (ntype p) (type n).
Proof. intros E. by eapply reads_bind; [apply reads_node|]. Qed.
Lemma reads_child1 p n a : ns !! p = Some n -> firstChild n = Some a -> reads (child1 p) a.
Proof. intros E Ea. eapply reads_bind; [by apply reads_first|by apply reads_deref]. Qed.
Lemma reads_child2 p n a x b :
  ns !! p = Some n -> firstChild n = Some a -> ns !! a = Some x -> sibling x = Some b -> reads (child2 p) b.
Proof.
  intros E Ea Ex Eb. eapply reads_bind; [by eapply reads_child1|]. eapply reads_bind; [by apply reads_next|by apply reads_deref].
Qed.

Lemma reads_type_of p n y : ns !! p = Some n -> type_type s (expressionType n) = Some y -> reads (type_of p) y.
Proof.
  intros E Et. apply bind_Some in Et as (q & Eq & (m & Em & ->)%fmap_Some).
  eapply reads_bind; [by apply reads_etype|]. eapply reads_bind; [by apply reads_deref|by apply reads_ntype].
Qed.

Lemma plain_type_inv t : plain_type s t = true ->
  exists y, type_type s t = Some y /\ (y =? T_FLOAT) = false /\ (y =? T_STR) = false /\ (y =? T_ERR) = false.
Proof.
  unfold plain_type. destruct (type_type s t) as [y|]; [|done]. intros Hy%negb_true_iff. exists y.
  unfold is_type in Hy. cbn in Hy. rewrite !orb_false_iff in Hy. tauto.
Qed.

Section Expressions.
Context (f : nat) (recurse : nat -> bool -> M ast unit).

(** The types with code of their own. *)
Definition special_types : list Z :=
  [T_EQUALS; T_DECLARE; T_DECL_GROUP_AND_SET; T_CALL; T_WHILE; T_FOR; T_FOR_EACH; T_IF; T_IF_ERR; T_LOGICAL_OR;
   T_LOGICAL_AND; T_NEW; T_COLON; T_LIST_LITERAL; T_FUNCBODY; T_BLOCK].

Lemma generate_simple p n k : ns !! p = Some n -> is_type (type n) special_types = false ->
  writes (generate_children f recurse p n ;;; finish_command f p n false) k -> writes (generate_node f recurse p false) k.
Proof.
  intros Hn Hy Hk. eapply writes_read; [by apply reads_node|]. cbv zeta.
  apply writes_skip; [exact writes_nil|].
  unfold special_types, is_type in *. cbn [existsb] in *. rewrite !orb_false_iff in Hy. destruct_and?.
  repeat match goal with E : (type n =? _) = false |- _ => rewrite E; clear E end. cbn [orb].
  apply writes_skip; [exact writes_nil|exact Hk].
Qed.

Lemma children_none p n : firstChild n = None -> writes (generate_children f recurse p n) [].
Proof. intros E. unfold generate_children. rewrite E. intros b Hb. exists b. by rewrite app_nil_r. Qed.
(** The children of a node that is not a block. *)
Lemma children_one p n a x k : type n <> T_BLOCK -> firstChild n = Some a -> ns !! a = Some x -> sibling x = None ->
  writes (recurse a false) k -> writes (generate_children f recurse p n) k.
Proof.
  intros Hy Ea Ex Es Hk b Hb. destruct (Hk b Hb) as (b' & E & Hb'). exists b'. split; [|done].
  unfold generate_children, each_sibling, bind at 1. rewrite Ea. cbn -[bind for_siblings set_builder].
  change (nodes (set_builder b s)) with ns. pose proof (lookup_lt_Some _ _ _ Ex) as Hl.
  destruct (length ns) as [|m]; [lia|]. cbn -[bind set_builder]. unfold generate.
  apply Z.eqb_neq in Hy. rewrite Hy. unfold bind at 1 2. rewrite E. cbn -[set_builder bind].
  unfold bind at 1. by rewrite (reads_node _ _ Ex), Es.
Qed.

Lemma children_two p n a x c y k1 k2 : type n <> T_BLOCK -> firstChild n = Some a -> ns !! a = Some x -> sibling x = Some c ->
  ns !! c = Some y -> sibling y = None -> writes (recurse a false) k1 -> writes (recurse c false) k2 ->
  writes (generate_children f recurse p n) (k1 ++ k2).
Proof.
  intros Hy Ea Ex Es Ec Ey H1 H2 b Hb. destruct (H1 b Hb) as (b1 & E1 & D1 & O1). destruct (H2 b1 O1) as (b2 & E2 & D2 & O2).
  exists b2. split_and!; [|by rewrite D2, D1, app_assoc|done].
  unfold generate_children, each_sibling, bind at 1. rewrite Ea. cbn -[bind for_siblings set_builder].
  change (nodes (set_builder b s)) with ns. pose proof (lookup_lt_Some _ _ _ Ex). pose proof (lookup_lt_Some _ _ _ Ec).
  assert (a <> c) by congruence. destruct (length ns) as [|[|m]]; [lia|lia|]. cbn -[bind set_builder]. unfold generate.
  apply Z.eqb_neq in Hy. rewrite Hy. unfold bind at 1 2. rewrite E1. cbn -[set_builder bind].
  unfold bind at 1. rewrite (reads_node _ _ Ex), Es. unfold bind at 1 2. rewrite E2. cbn -[set_builder bind].
  unfold bind at 1. by rewrite (reads_node _ _ Ec), Ey.
Qed.

(** The command behind the children. *)
Lemma finish_line p m k : rooted s p = true -> writes m k -> writes (FunctionBuilderAddLineNumber p ;;; m) k.
Proof. intros Hp Hm. apply writes_skip; [by apply writes_line|done]. Qed.

Lemma finish_emits p n : rooted s p = true -> is_type (type n) [T_ZERO; T_LOGICAL_NOT] = true ->
  writes (finish_command f p n false) (byte (type n)).
Proof.
  intros Hp Hy%is_type_In. unfold finish_command. cbv zeta.
  repeat destruct Hy as [Hy|Hy]; [rewrite <- Hy; decide_types; apply finish_line; [done|apply writes_emit]..|done].
Qed.

Lemma finish_literal p n : rooted s p = true -> type n = T_NUMERIC_LITERAL ->
  expressionType n = Some globalExpressionTypeInt ->
  writes (finish_command f p n false) (literal_code (int_literal (text (token n)))).
Proof.
  intros Hp Hy Ht. unfold finish_command. cbv zeta. rewrite Hy. decide_types. apply finish_line; [done|].
  apply writes_bind; [apply writes_emit|]. unfold ASTNumericLiteralToValue. rewrite bool_decide_true by done. apply writes_append.
Qed.

Lemma finish_truth p n : rooted s p = true -> is_type (type n) [T_TRUE; T_FALSE] = true ->
  writes (finish_command f p n false) (literal_code (Z.b2z (type n =? T_TRUE))).
Proof.
  intros Hp Hy%is_type_In. unfold finish_command. cbv zeta.
  repeat destruct Hy as [Hy|Hy]; [rewrite <- Hy; decide_types; apply finish_line; [done|apply writes_literal]..|done].
Qed.

Lemma finish_arithmetic p n : ns !! p = Some n -> rooted s p = true -> plain_type s (expressionType n) = true ->
  is_type (type n) (T_NEGATE :: T_BITWISE_NOT :: binary_operators) = true ->
  writes (finish_command f p n false) (byte (type n)).
Proof.
  intros Hn Hp Ht Hy%is_type_In. destruct (plain_type_inv _ Ht) as (y & Ey & F1 & F2 & _).
  assert (Hr := reads_type_of _ _ _ Hn Ey). unfold finish_command. cbv zeta.
  repeat destruct Hy as [Hy|Hy]; [rewrite <- Hy; decide_types; (eapply writes_read; [exact Hr|]); rewrite F1, F2;
    apply finish_line; [done|apply writes_emit]..|done].
Qed.

Lemma finish_comparison p n a x : ns !! p = Some n -> firstChild n = Some a -> ns !! a = Some x -> rooted s p = true ->
  plain_type s (expressionType x) = true -> is_type (type n) comparison_tokens = true ->
  writes (finish_command f p n false) (byte (type n)).
Proof.
  intros Hn Ea Ex Hp Ht Hy%is_type_In. destruct (plain_type_inv _ Ht) as (y & Ey & F1 & F2 & _).
  assert (Hr := reads_type_of _ _ _ Ex Ey). unfold finish_command. cbv zeta.
  repeat destruct Hy as [Hy|Hy]; [rewrite <- Hy; decide_types; (eapply writes_read; [by eapply reads_child1|]);
    (eapply writes_read; [exact Hr|]); rewrite F1, F2; apply finish_line; [done|apply writes_emit]..|done].
Qed.
End Expressions.
(** ** Jumps *)

(** [writes], at the position [q]; and behind a hole at [q] that is not filled in yet,
    with the code [ka] in between: the code from the hole on becomes [k]. *)
Definition writes_from (q : Z) (m : M ast unit) (k : bytes) : Prop :=
  forall b, variableOffset b = offset -> size_of (data b) = q -> exists b',
    m (set_builder b s) = (Ok tt, set_builder b' s) /\ data b' = data b ++ k /\ variableOffset b' = offset.

Definition pending (q : Z) (m : Z -> M ast unit) (ka k : bytes) : Prop :=
  forall b d z, variableOffset b = offset -> data b = d ++ z ++ ka -> length z = 4%nat -> size_of d = q -> exists b',
    m q (set_builder b s) = (Ok tt, set_builder b' s) /\ data b' = d ++ k /\ variableOffset b' = offset.

Lemma writes_at q m k : writes m k -> writes_from q m k.
Proof. intros Hm b Hb _. by apply Hm. Qed.
Lemma writes_anywhere m k : (forall q, writes_from q m k) -> writes m k.
Proof. intros Hm b Hb. by apply (Hm (size_of (data b))). Qed.

Lemma writes_position m k : (forall q, writes_from q (m q) k) -> writes (let! q := position in m q) k.
Proof. intros Hm b Hb. by apply (Hm (size_of (data b))). Qed.

Lemma writes_from_bind q m f k1 k2 :
  writes m k1 -> writes_from (q + size_of k1) (f tt) k2 -> writes_from q (bind m f) (k1 ++ k2).
Proof.
  intros H1 H2 b Hb Hq. destruct (H1 b Hb) as (b1 & E1 & D1 & O1).
  destruct (H2 b1 O1) as (b2 & E2 & D2 & O2); [rewrite D1, size_app; lia|].
  exists b2. split_and!; [|by rewrite D2, D1, <- app_assoc|done]. unfold bind. by rewrite E1.
Qed.

Lemma writes_from_skip q m f k : writes m [] -> writes_from q (f tt) k -> writes_from q (bind m f) k.
Proof. intros H1 H2. apply (writes_from_bind q m f [] k); [done|]. change (size_of []) with 0. by rewrite Z.add_0_r. Qed.

Lemma writes_from_read {A} q (m : M ast A) a f k : reads m a -> writes_from q (f a) k -> writes_from q (bind m f) k.
Proof.
  intros Hm Hf b Hb Hq. destruct (Hf b Hb Hq) as (b' & E & Hb'). exists b'. split; [|done]. unfold bind. by rewrite Hm.
Qed.

Lemma writes_hole q m k : pending q m [] k -> writes_from q (let! o := hole in m o) k.
Proof.
  intros Hm b Hb Hq. destruct (Hm (with_data (data b ++ int32 0) b) (data b) (int32 0)) as (b' & E & Hb');
    [done|by rewrite app_nil_r|done|done|]. exists b'. split; [|done]. unfold bind at 1.
  change (hole (set_builder b s)) with (Ok (size_of (data b)), set_builder (with_data (data b ++ int32 0) b) s).
  by rewrite Hq.
Qed.

Lemma pending_write q m f ka k1 k : writes m k1 -> pending q f (ka ++ k1) k -> pending q (fun o => m ;;; f o) ka k.
Proof.
  intros H1 H2 b d z Hb Hd Hz Hq. destruct (H1 b Hb) as (b1 & E1 & D1 & O1).
  destruct (H2 b1 d z O1) as (b2 & E2 & Hb2); [by rewrite D1, Hd, <- !app_assoc|done|done|].
  exists b2. split; [|done]. unfold bind. by rewrite E1.
Qed.

Lemma pending_read {A} q (m : M ast A) a f ka k :
  reads m a -> pending q (fun o => f o a) ka k -> pending q (fun o => bind m (f o)) ka k.
Proof.
  intros Hm Hf b d z Hb Hd Hz Hq. destruct (Hf b d z Hb Hd Hz Hq) as (b' & E & Hb'). exists b'. split; [|done].
  unfold bind. by rewrite Hm.
Qed.

Lemma fill_at q b d z ka : data b = d ++ z ++ ka -> length z = 4%nat -> size_of d = q ->
  fill q (set_builder b s) = (Ok tt, set_builder (with_data (d ++ int32 (4 + size_of ka) ++ ka) b) s).
Proof.
  intros Hd Hz <-. unfold fill, bind, patch, update_builder, modify. cbn -[take drop]. rewrite Hd. unfold size_of. rewrite Nat2Z.id.
  rewrite take_app_length, <- drop_drop, drop_app_length, drop_app_length' by done. rewrite !length_app, Hz.
  replace (Z.of_nat (length d + (4 + length ka)) - Z.of_nat (length d)) with (4 + Z.of_nat (length ka)) by lia. done.
Qed.
Lemma pending_eq q m ka k k' : pending q m ka k -> k = k' -> pending q m ka k'.
Proof. by intros ? <-. Qed.

Lemma pending_fill q ka : pending q (fun o => fill o) ka (int32 (4 + size_of ka) ++ ka).
Proof. intros b d z Hb Hd Hz Hq. eexists. by rewrite (fill_at q b d z ka). Qed.

(** A second hole, before the first one is filled in. *)
Lemma pending_else q f ka k : (forall r, pending r f [] k) ->
  pending q (fun o => let! r := hole in fill o ;;; f r) ka (int32 (8 + size_of ka) ++ ka ++ k).
Proof.
  intros Hf b d z Hb Hd Hz Hq. set (b1 := with_data (data b ++ int32 0) b).
  set (d2 := d ++ int32 (8 + size_of ka) ++ ka). set (b2 := with_data (d2 ++ int32 0) b1).
  assert (E1 : fill q (set_builder b1 s) = (Ok tt, set_builder b2 s)).
  { rewrite (fill_at q b1 d z (ka ++ int32 0)); [|by unfold b1; cbn; rewrite Hd, <- !app_assoc|done|done].
    unfold b2, d2. rewrite size_app, size_int32, <- !app_assoc.
    by replace (4 + (size_of ka + 4)) with (8 + size_of ka) by lia. }
  assert (Hd2 : size_of d2 = size_of (data b)).
  { unfold d2. rewrite Hd, !size_app, size_int32. unfold size_of at 4. rewrite Hz. lia. }
  destruct (Hf (size_of (data b)) b2 d2 (int32 0)) as (b3 & E3 & D3 & O3); [done|by rewrite app_nil_r|done|done|].
  exists b3. split_and!; [|by rewrite D3; unfold d2; rewrite <- !app_assoc|done].
  unfold bind at 1. change (hole (set_builder b s)) with (Ok (size_of (data b)), set_builder b1 s).
  unfold bind. by rewrite E1.
Qed.

(** A jump back, and the hole behind it. *)
Lemma pending_branch q start f ka k :
  pending q f (ka ++ byte T_BRANCH ++ int32 (start - (q + 5 + size_of ka))) k ->
  pending q (fun o => branch_to start ;;; f o) ka k.
Proof.
  intros Hf b d z Hb Hd Hz Hq. set (v := start - (q + 5 + size_of ka)) in *.
  set (b1 := with_data ((data b ++ byte T_BRANCH) ++ int32 v) b).
  assert (E1 : branch_to start (set_builder b s) = (Ok tt, set_builder b1 s)).
  { unfold branch_to, bind, emit, emit_int, FunctionBuilderAppend, update_builder, modify. cbn -[le_split wrap].
    change (8 * Z.of_nat 1) with 8.
    replace (start - Z.of_nat (length (data b ++ le_split 1 (wrap 8 T_BRANCH)))) with v; [done|].
    unfold v. rewrite Hd, !length_app, Hz. change (length (le_split 1 _)) with 1%nat. unfold size_of in *. lia. }
  destruct (Hf b1 d z) as (b2 & E2 & Hb2); [done|unfold b1; cbn -[byte int32]; by rewrite Hd, <- !app_assoc|done|done|].
  exists b2. split; [|done]. unfold bind. by rewrite E1.
Qed.

(** ** Expressions, all of them *)

Lemma generate_logical_writes recurse p n a x c y ka kc :
  ns !! p = Some n -> firstChild n = Some a -> ns !! a = Some x -> sibling x = Some c ->
  writes (recurse a false) ka -> writes (recurse c false) kc ->
  writes (generate_logical recurse p y) (ka ++ byte y ++ int32 (4 + size_of kc) ++ kc).
Proof.
  intros Hn Ea Ex Ec Ha Hc. eapply writes_read; [by eapply reads_child1|]. apply writes_bind; [done|].
  apply writes_bind; [apply writes_emit|]. apply writes_anywhere. intros q. apply writes_hole.
  eapply pending_read; [by eapply reads_child2|]. eapply pending_write; [exact Hc|]. apply pending_fill.
Qed.
Lemma two_children_inv n a x c r : two_children s n = Some (a, x, c, r) ->
  firstChild n = Some a /\ ns !! a = Some x /\ sibling x = Some c /\ exists y, ns !! c = Some y /\ sibling y = r.
Proof.
  intros (a' & Ha & (x' & Hx & (c' & Hc & (y & Hy & [= <- <- <- <-])%bind_Some)%bind_Some)%bind_Some)%bind_Some.
  split_and!; [done..|by exists y].
Qed.

(** A type in a list is not in another one. *)
Lemma is_type_apart y l l' : is_type y l = true -> forallb (fun z => negb (is_type z l')) l = true -> is_type y l' = false.
Proof. intros Hy%is_type_In Hl. rewrite forallb_forall in Hl. by apply Hl, negb_true_iff in Hy. Qed.

Lemma simple_node f recurse p n k1 k2 : ns !! p = Some n -> is_type (type n) special_types = false ->
  writes (generate_children f recurse p n) k1 -> writes (finish_command f p n false) k2 ->
  writes (generate_node f recurse p false) (k1 ++ k2).
Proof. intros Hn Hy H1 H2. eapply generate_simple; [done|done|]. by apply writes_bind. Qed.

Lemma not_block n : is_type (type n) special_types = false -> type n <> T_BLOCK.
Proof. intros Hy E. by rewrite E in Hy. Qed.

Lemma leaf_writes g p n e : ns !! p = Some n -> rooted s p = true -> leaf offset s p n = Some e ->
  writes (FunctionBuilderRecurse (S g) p false) (expression_code e).
Proof.
  intros Hn Hp He. unfold leaf in He. cbn [FunctionBuilderRecurse]. case_bool_decide as Ec; [cbn [negb] in He|done].
  destruct (type n =? T_NUMERIC_LITERAL) eqn:Ey.
  { apply Z.eqb_eq in Ey. case_bool_decide; simplify_eq.
    apply (simple_node _ _ _ n []); [done|by rewrite Ey|by apply children_none|by apply finish_literal]. }
  clear Ey. destruct (type n =? T_ZERO) eqn:Ey.
  { apply Z.eqb_eq in Ey. simplify_eq. cbn [expression_code]. rewrite <- Ey.
    apply (simple_node _ _ _ n []); [done|by rewrite Ey|by apply children_none|apply finish_emits; [done|by rewrite Ey]]. }
  clear Ey. destruct (is_type (type n) [T_TRUE; T_FALSE]) eqn:Ey.
  { simplify_eq. cbn [expression_code].
    apply (simple_node _ _ _ n []); [done|by eapply is_type_apart|by apply children_none|by apply finish_truth]. }
  clear Ey. destruct (type n =? T_VARIABLE) eqn:Ey; [|done].
  apply Z.eqb_eq in Ey. apply bind_Some in He as ([d v] & Hr & [= <-]). cbn [expression_code].
  apply (simple_node _ _ _ n []); [done|by rewrite Ey|by apply children_none|]. unfold finish_command. cbv zeta.
  rewrite Ey. decide_types. rewrite <- Ey. by eapply writes_variable.
Qed.

Section Operands.
Context (g : nat) (read_operand : nat -> option expr).
Context (IH : forall p e, read_operand p = Some e -> writes (FunctionBuilderRecurse g p false) (expression_code e)).

Lemma unary_writes p n e : ns !! p = Some n -> rooted s p = true -> is_type (type n) unary_operators = true ->
  read_unary s read_operand n = Some e -> writes (FunctionBuilderRecurse (S g) p false) (expression_code e).
Proof.
  intros Hn Hp Hy (a & Ea & (x & Ex & He)%bind_Some)%bind_Some. destruct (_ && _) eqn:Ec; [|done].
  apply andb_true_iff in Ec as [Es%bool_decide_eq_true Et]. apply fmap_Some in He as (u & Eu & ->).
  cbn [FunctionBuilderRecurse expression_code]. assert (Hs : is_type (type n) special_types = false) by by eapply is_type_apart.
  eapply simple_node; [done|done|eapply children_one; [by apply not_block|done..|by apply IH]|].
  destruct (type n =? T_LOGICAL_NOT) eqn:Ey; [apply finish_emits; [done|apply Z.eqb_eq in Ey; by rewrite Ey]|].
  apply finish_arithmetic; [done..|]. apply is_type_In in Hy. apply is_type_In. apply Z.eqb_neq in Ey.
  destruct Hy as [Hy|[Hy|[Hy|[]]]]; [by left|by right; left|by subst].
Qed.

Lemma binary_writes p n e : ns !! p = Some n -> rooted s p = true ->
  is_type (type n) binary_operators || is_type (type n) comparison_tokens = true ->
  read_binary s read_operand n = Some e -> writes (FunctionBuilderRecurse (S g) p false) (expression_code e).
Proof.
  intros Hn Hp Hy ([[[a x] c] r] & Hc & He)%bind_Some. apply two_children_inv in Hc as (Ea & Ex & Ec & y & Ey & Er).
  destruct (_ && _) eqn:E; [|done]. apply andb_true_iff in E as [->%bool_decide_eq_true Et].
  apply bind_Some in He as (u & Eu & (v & Ev & [= <-])%bind_Some). cbn [FunctionBuilderRecurse expression_code].
  assert (Hs : is_type (type n) special_types = false) by (apply orb_true_iff in Hy as [Hy|Hy]; by eapply is_type_apart).
  rewrite app_assoc. eapply simple_node; [done|done|eapply children_two; [by apply not_block|done..|by apply IH|by apply IH]|].
  destruct (is_type (type n) comparison_tokens) eqn:Ek; [by eapply finish_comparison|].
  rewrite orb_false_r in Hy. apply finish_arithmetic; [done..|]. by do 2 apply is_type_cons.
Qed.

Lemma logical_writes p n e : ns !! p = Some n -> is_type (type n) [T_LOGICAL_OR; T_LOGICAL_AND] = true ->
  read_logical s read_operand n = Some e -> writes (FunctionBuilderRecurse (S g) p false) (expression_code e).
Proof.
  intros Hn Hy ([[[a x] c] r] & Hc & He)%bind_Some. apply two_children_inv in Hc as (Ea & Ex & Ec & _).
  apply bind_Some in He as (u & Eu & (v & Ev & [= <-])%bind_Some). cbn [FunctionBuilderRecurse expression_code].
  eapply writes_read; [by apply reads_node|]. cbv zeta. apply writes_skip; [exact writes_nil|].
  apply is_type_In in Hy. repeat destruct Hy as [Hy|Hy]; [rewrite <- Hy; decide_types;
    (eapply generate_logical_writes; [done..|by apply IH|by apply IH])..|done].
Qed.
End Operands.

Lemma expression_writes fuel : forall p e g, expression offset s fuel p = Some e -> (fuel <= g)%nat ->
  writes (FunctionBuilderRecurse g p false) (expression_code e).
Proof.
  induction fuel as [|fuel IH]; intros p e g He Hg; [done|]. destruct g as [|g]; [lia|].
  cbn [expression] in He. apply bind_Some in He as (n & Hn & He). destruct (rooted s p) eqn:Hp; [cbn [negb] in He|done].
  assert (IHg : forall p e, expression offset s fuel p = Some e -> writes (FunctionBuilderRecurse g p false) (expression_code e))
    by (intros; apply IH; [done|lia]).
  destruct (is_type (type n) unary_operators) eqn:E1; [by eapply unary_writes|].
  destruct (is_type (type n) binary_operators || is_type (type n) comparison_tokens) eqn:E2; [by eapply binary_writes|].
  destruct (is_type (type n) [T_LOGICAL_OR; T_LOGICAL_AND]) eqn:E3; [by eapply logical_writes|].
  by eapply leaf_writes.
Qed.
(** ** Statements *)

(** A node with code of its own. *)
Lemma special_node g p n k m : ns !! p = Some n -> is_type (type n) special_types = true -> writes m k ->
  (forall b, generate_node g (FunctionBuilderRecurse g) p false (set_builder b s) = m (set_builder b s)) ->
  writes (FunctionBuilderRecurse (S g) p false) k.
Proof. intros Hn Hy Hm E b Hb. destruct (Hm b Hb) as (b' & E' & Hb'). exists b'. split; [|done]. by rewrite <- E', <- E. Qed.

(** A step that finds out what is assigned to. *)
Definition aims (m : M ast unit) (v : variable) : Prop := forall b, variableOffset b = offset -> exists b',
  m (set_builder b s) = (Ok tt, set_builder b' s) /\ data b' = data b /\ variableOffset b' = offset /\
  scopeIndex b' = variable_index v /\ assigns_persistent b' = false /\ isDotAssignment b' = false /\ isListAssignment b' = false.

Lemma aims_variable g a n v : ns !! a = Some n -> rooted s a = true -> type n = T_VARIABLE -> firstChild n = None ->
  target offset s a = Some v -> aims (FunctionBuilderRecurse (S g) a true) v.
Proof.
  intros Hn Hp Hy Hc Ht b Hb. destruct (target_variable g a n v Hn Hp Ht b Hb) as (b' & E & Hb'). exists b'. split; [|done].
  rewrite <- E. cbn [FunctionBuilderRecurse]. unfold generate_node, bind at 1. rewrite (reads_node _ _ Hn). cbv zeta. rewrite Hy.
  change (is_type T_VARIABLE [T_VARIABLE; T_DOT; T_INDEX]) with true. decide_types.
  unfold generate_children. rewrite Hc. unfold finish_command. cbv zeta. rewrite Hy. decide_types. reflexivity.
Qed.

Lemma assign_one f recurse p y child v : rooted s p = true ->
  aims (if y =? T_EQUALS then recurse child true
        else FunctionBuilderVariable f (if y =? T_DECL_GROUP_AND_SET then child else p) true) v ->
  writes (assign_all f recurse p y [child]) (byte T_EQUALS ++ int32 (variable_index v)).
Proof.
  intros Hp Ha b Hb. destruct (Ha (with_persistent false b) Hb) as (b1 & E1 & D1 & O1 & Hi & Hper & Hd & Hl).
  assert (Hn : exists n, ns !! p = Some n) by (unfold rooted in Hp; cbn in Hp; destruct (ns !! p); by eauto).
  destruct Hn as [n Hn], (line_function_ok _ _ Hp None) as [l Hln]. pose proof (line_number p n l b1 Hn Hln) as E2.
  set (b2 := with_lines _ b1) in E2.
  destruct (writes_bind (emit T_EQUALS) (fun _ => emit_int 4 (variable_index v) ;;; ret tt ;;; ret tt) (byte T_EQUALS)
    (int32 (variable_index v)) (writes_emit _) (writes_append _) b2 O1) as (b3 & E3 & D3 & O3).
  exists b3. split_and!; [|by rewrite D3; cbn; rewrite D1|done]. cbn [assign_all].
  unfold bind at 1. change (update_builder (with_persistent false) (set_builder b s)) with (Ok tt, set_builder (with_persistent false b) s).
  unfold bind at 1. rewrite E1. unfold bind at 1. rewrite E2. unfold bind at 1.
  change (get_builder (set_builder b2 s)) with (Ok b2, set_builder b2 s). cbv beta iota.
  change (isListAssignment b2) with (isListAssignment b1). change (isDotAssignment b2) with (isDotAssignment b1).
  change (scopeIndex b2) with (scopeIndex b1). change (assigns_persistent b2) with (assigns_persistent b1).
  rewrite Hl, Hd, Hi, Hper. exact E3.
Qed.

(** The first child and the value behind it. *)
Lemma assignment_writes g recurse p n a x c z v e : ns !! p = Some n -> rooted s p = true ->
  firstChild n = Some a -> ns !! a = Some x -> sibling x = Some c -> ns !! c = Some z -> sibling z = None ->
  (type n =? T_EQUALS) && (type x =? T_SET_GROUP) = false -> (3 <= g)%nat ->
  writes (recurse c false) (expression_code e) ->
  aims (if type n =? T_EQUALS then recurse a true
        else FunctionBuilderVariable g (if type n =? T_DECL_GROUP_AND_SET then a else p) true) v ->
  writes (generate_assignment g recurse p (type n)) (statement_code (Assign v e)).
Proof.
  intros Hn Hp Ea Ex Ec Ez Es Hset Hg He Ha. eapply writes_read; [by eapply reads_child1|].
  eapply writes_read; [by apply reads_next|]. rewrite Ec. eapply writes_read; [by apply reads_ntype|]. rewrite Hset.
  assert (Hl : reads (collect_siblings g (Some a)) [a; c]).
  { destruct g as [|[|[|g]]]; [lia..|]. cbn [collect_siblings]. eapply reads_bind; [by apply reads_next|]. rewrite Ec.
    eapply reads_bind; [|done]. eapply reads_bind; [by apply reads_next|]. rewrite Es. done. }
  eapply writes_read; [eapply reads_bind; [exact Hl|]; by eapply reads_bind; [by apply reads_deref|]|].
  cbn [removelast length rev app statement_code]. apply writes_skip; [exact writes_nil|].
  apply writes_bind; [exact He|]. by apply assign_one.
Qed.

Lemma read_assignment_writes fuel g p n a : ns !! p = Some n -> is_type (type n) [T_EQUALS; T_DECLARE] = true ->
  (fuel <= g)%nat -> (3 <= g)%nat -> read_assignment offset s fuel p n = Some a ->
  writes (FunctionBuilderRecurse (S g) p false) (statement_code a).
Proof.
  intros Hn Hy Hf Hg (c1 & Ea & (x & Ex & He)%bind_Some)%bind_Some.
  assert (E : forall b, generate_node g (FunctionBuilderRecurse g) p false (set_builder b s) =
    generate_assignment g (FunctionBuilderRecurse g) p (type n) (set_builder b s)).
  { intros b. unfold generate_node, bind at 1. rewrite (reads_node _ _ Hn). cbv zeta.
    apply is_type_In in Hy. repeat destruct Hy as [Hy|Hy]; [rewrite <- Hy; decide_types; reflexivity..|done]. }
  eapply special_node; [done|by apply is_type_In in Hy as [<-|[<-|[]]]| |exact E]. destruct (sibling x) as [c|] eqn:Ec.
  - apply bind_Some in He as (z & Ez & He). destruct (_ || _) eqn:Eo; [done|].
    apply orb_false_iff in Eo as [Es%negb_false_iff%bool_decide_eq_true Hp%negb_false_iff].
    apply bind_Some in He as (e & He & Hr). destruct (type n =? T_DECLARE) eqn:Ey.
    + apply bind_Some in Hr as (v & Hv & [= <-]). apply Z.eqb_eq in Ey.
      eapply assignment_writes; [done..|by rewrite Ey|done|by eapply expression_writes|]. rewrite Ey.
      intros b Hb. by eapply target_variable.
    + destruct (_ && _) eqn:Ex'; [|done]. apply andb_true_iff in Ex' as [[Tx%Z.eqb_eq Fx%bool_decide_eq_true]%andb_true_iff Rx].
      apply bind_Some in Hr as (v & Hv & [= <-]).
      assert (Ty : type n = T_EQUALS) by (apply is_type_In in Hy as [Hy|[Hy|[]]]; [done|by rewrite <- Hy in Ey]).
      eapply assignment_writes; [done..|by rewrite Ty, Tx|done|by eapply expression_writes|]. rewrite Ty.
      destruct g as [|g]; [lia|]. by eapply aims_variable.
  - simplify_eq. eapply writes_read; [by eapply reads_child1|]. eapply writes_read; [by apply reads_next|]. rewrite Ec.
    exact writes_nil.
Qed.
(** *** Blocks *)

Lemma flags_write l : forall flags, variable_flags s l = Some flags ->
  writes (emit_flags l) (concat (map (fun m => byte (Z.b2z m)) flags)).
Proof.
  induction l as [|e l IH]; intros flags Hf; cbn [variable_flags emit_flags] in *; [simplify_eq; exact writes_nil|].
  apply bind_Some in Hf as (n & Hn & (r & Hr & Hf)%bind_Some). eapply writes_read; [by apply reads_node|].
  destruct (ScopeIsVariableType n).
  - apply bind_Some in Hf as (y & Hy & [= <-]). apply bind_Some in Hy as (q & Eq & (m & Em & ->)%fmap_Some).
    cbn [map concat]. apply writes_bind; [|by apply IH]. eapply writes_read; [|apply writes_append].
    eapply reads_bind; [by apply reads_deref|]. by eapply reads_bind; [apply reads_ntype|].
  - simplify_eq. apply writes_skip; [exact writes_nil|by apply IH].
Qed.

Lemma unused_writes f child n : ns !! child = Some n -> no_result s n = true -> writes (unused_result f child) [].
Proof.
  intros Hn Hr. eapply writes_read; [by apply reads_node|]. unfold no_result in Hr.
  destruct (expressionType n) as [t|]; [|exact writes_nil]. destruct (ns !! t) as [x|] eqn:Et; [|done].
  eapply writes_read; [by apply reads_ntype|]. destruct (type x =? T_VOID); [exact writes_nil|]. cbn [orb] in Hr.
  replace (is_type (type n) [T_CALL; T_AWAIT]) with false by (symmetry; by apply (is_type_apart _ [T_DECLARE; T_EQUALS])).
  replace (type n =? T_COLON) with false
    by (symmetry; apply Z.eqb_neq; intros E; by rewrite E in Hr).
  cbn [orb andb]. rewrite Hr. exact writes_nil.
Qed.

Section Parts.
Context (g fuel : nat) (read_part : nat -> option stmt).
Context (IH : forall p a, read_part p = Some a -> writes (FunctionBuilderRecurse g p false) (statement_code a)).

Lemma siblings_write body n : (forall q m a, ns !! q = Some m -> no_result s m = true -> read_part q = Some a -> writes (body q) (statement_code a)) ->
  forall c a, statements s read_part n c = Some a -> writes (for_siblings n body c) (statement_code a).
Proof.
  intros Hb. induction n as [|n IHn]; intros c a Ha; [done|]. cbn [statements for_siblings] in *.
  destruct c as [q|]; [|simplify_eq; exact writes_nil]. apply bind_Some in Ha as (m & Hm & Ha).
  destruct (no_result s m) eqn:Hr; [cbn [negb] in Ha|done].
  apply bind_Some in Ha as (u & Hu & (v & Hv & [= <-])%bind_Some). cbn [statement_code].
  apply writes_bind; [by eapply Hb|]. eapply writes_read; [by apply reads_node|]. by apply IHn.
Qed.

Lemma enter_writes p n i x flags : rooted s p = true -> scope n = Some i -> scopes s !! i = Some x ->
  variable_flags s (entries x) = Some flags -> variableEntryCount x <= 10000 -> variableEntryCount x = Z.of_nat (length flags) ->
  writes (enter_scope p n) (byte (type n) ++ le_split 2 (wrap 16 (Z.of_nat (length flags))) ++
    concat (map (fun m => byte (Z.b2z m)) flags)).
Proof.
  intros Hp Hi Hx Hf Hc Hl. eapply writes_read; [by apply reads_deref|]. eapply writes_read; [by apply reads_scope|].
  apply writes_skip; [unfold check; rewrite (proj2 (Z.leb_le _ _) Hc); exact writes_nil|].
  apply finish_line; [done|]. rewrite Hl. apply writes_bind; [apply writes_emit|].
  apply writes_bind; [apply writes_append|by apply flags_write].
Qed.

Lemma leave_writes p n i x : rooted s p = true -> type n = T_BLOCK -> scope n = Some i -> scopes s !! i = Some x ->
  writes (leave_scope p n) (byte T_EXIT_SCOPE ++ le_split 2 (wrap 16 (variableEntryCount x))).
Proof.
  intros Hp Hy Hi Hx. eapply writes_read; [by apply reads_deref|]. eapply writes_read; [by apply reads_scope|].
  apply finish_line; [done|]. apply writes_bind; [apply writes_emit|]. rewrite Hy. decide_types.
  eapply writes_eq; [apply writes_bind; [apply writes_append|exact writes_nil]|apply app_nil_r].
Qed.

Lemma block_writes p n i x flags a : ns !! p = Some n -> rooted s p = true -> type n = T_BLOCK -> scope n = Some i ->
  scopes s !! i = Some x -> variable_flags s (entries x) = Some flags -> variableEntryCount x <= 10000 ->
  variableEntryCount x = Z.of_nat (length flags) -> statements s read_part (S (length ns)) (firstChild n) = Some a ->
  writes (FunctionBuilderRecurse (S g) p false) (statement_code (Block flags a)).
Proof.
  intros Hn Hp Hy Hi Hx Hf Hc Hl Ha. cbn [FunctionBuilderRecurse]. eapply writes_read; [by apply reads_node|]. cbv zeta.
  apply writes_skip; [exact writes_nil|]. cbv beta. rewrite Hy. decide_types.
  eapply writes_eq; [apply writes_bind; [by eapply enter_writes|apply writes_bind]|].
  - unfold generate_children. rewrite Hy. change (T_BLOCK =? T_BLOCK) with true. cbv iota.
    intros b Hb. apply (siblings_write (fun child => generate (FunctionBuilderRecurse g) child ;;; unused_result g child)
      (S (length ns))) with (c := firstChild n) (a := a); [|done|done].
    intros q m u Hm Hr Hu. eapply writes_eq; [apply writes_bind; [by apply IH|by eapply unused_writes]|apply app_nil_r].
  - unfold finish_command. cbv zeta. rewrite Hy. decide_types. by eapply leave_writes.
  - rewrite Hy, Hl. cbn [statement_code]. by rewrite <- !app_assoc.
Qed.
(** *** Conditions and loops *)

Context (HE : forall p e, expression offset s fuel p = Some e -> writes (FunctionBuilderRecurse g p false) (expression_code e)).

(** Open the node [p] of a known type. *)
Ltac open_node Hn Hy :=
  cbn [FunctionBuilderRecurse]; (eapply writes_read; [by apply (reads_node _ _ Hn)|]); cbv zeta;
  (apply writes_skip; [exact writes_nil|]); cbv beta; rewrite Hy; decide_types.

Lemma if_writes p n a x c z e u : ns !! p = Some n -> rooted s p = true -> type n = T_IF -> firstChild n = Some a ->
  ns !! a = Some x -> sibling x = Some c -> ns !! c = Some z -> plain_type s (expressionType x) = true ->
  expression offset s fuel a = Some e -> read_if read_part e c (sibling z) = Some u ->
  writes (FunctionBuilderRecurse (S g) p false) (statement_code u).
Proof.
  intros Hn Hp Hy Ea Ex Ec Ez Ht He Hu. open_node Hn Hy. destruct (plain_type_inv _ Ht) as (y & Ey & _ & _ & F).
  apply bind_Some in Ey as (t & Et & (m & Em & ->)%fmap_Some). apply bind_Some in Hu as (v & Hv & Hu).
  eapply writes_read; [by eapply reads_child1|]. destruct (sibling z) as [q|] eqn:Es.
  - apply fmap_Some in Hu as (w & Hw & ->). cbn [statement_code]. apply writes_bind; [by apply HE|].
    eapply writes_read; [by apply reads_etype|]. eapply writes_read; [by apply reads_deref|].
    eapply writes_read; [by apply reads_ntype|]. rewrite F. apply writes_skip; [exact writes_nil|]. apply finish_line; [done|].
    apply writes_bind; [apply writes_emit|]. apply writes_anywhere. intros r. apply writes_hole.
    eapply pending_read; [by eapply reads_child2|]. eapply pending_write; [by apply IH|].
    eapply pending_read; [by apply reads_next|]. rewrite Es. eapply pending_write; [apply writes_emit|].
    eapply pending_eq; [apply pending_else; intros r'; (eapply pending_write; [by apply IH|apply pending_fill])|].
    cbn [app]. rewrite size_app, size_byte, <- app_assoc. by replace (8 + (size_of (statement_code v) + 1)) with (9 + size_of (statement_code v)) by lia.
  - injection Hu as <-. cbn [statement_code]. apply writes_bind; [by apply HE|].
    eapply writes_read; [by apply reads_etype|]. eapply writes_read; [by apply reads_deref|].
    eapply writes_read; [by apply reads_ntype|]. rewrite F. apply writes_skip; [exact writes_nil|]. apply finish_line; [done|].
    apply writes_bind; [apply writes_emit|]. apply writes_anywhere. intros r. apply writes_hole.
    eapply pending_read; [by eapply reads_child2|]. eapply pending_write; [by apply IH|].
    eapply pending_read; [by apply reads_next|]. rewrite Es. apply pending_fill.
Qed.

(** The loop that [while] and [for] share. *)
Lemma loop_writes q p m ke body k : rooted s p = true -> writes m ke ->
  (forall r, pending r (fun o => branch_to q ;;; fill o) k (int32 (9 + size_of k) ++ k ++ byte T_BRANCH ++
     int32 (q - (r + 5 + size_of k))) -> pending r body [] (int32 (9 + size_of k) ++ k ++ byte T_BRANCH ++
     int32 (q - (r + 5 + size_of k)))) ->
  writes_from q (m ;;; FunctionBuilderAddLineNumber p ;;; emit T_IF ;;; let! o := hole in body o)
    (ke ++ byte T_IF ++ int32 (9 + size_of k) ++ k ++ byte T_BRANCH ++ int32 (- (size_of ke + 6 + size_of k))).
Proof.
  intros Hp Hm Hb. apply writes_from_bind; [done|]. apply writes_from_skip; [by apply writes_line|].
  apply writes_from_bind; [apply writes_emit|]. apply writes_hole. rewrite size_byte.
  set (r := q + size_of ke + 1).
  replace (- (size_of ke + 6 + size_of k)) with (q - (r + 5 + size_of k)) by (unfold r; lia). apply Hb.
  eapply pending_branch, pending_eq; [apply pending_fill|]. rewrite !size_app, size_byte, size_int32.
  by replace (4 + (size_of k + (1 + 4))) with (9 + size_of k) by lia.
Qed.

Lemma while_writes p n a x c e u : ns !! p = Some n -> rooted s p = true -> type n = T_WHILE -> firstChild n = Some a ->
  ns !! a = Some x -> sibling x = Some c -> expression offset s fuel a = Some e -> read_part c = Some u ->
  writes (FunctionBuilderRecurse (S g) p false) (statement_code (While e u)).
Proof.
  intros Hn Hp Hy Ea Ex Ec He Hu. open_node Hn Hy. apply writes_position. intros q.
  eapply writes_from_read; [by eapply reads_child1|]. apply loop_writes; [done|by apply HE|]. intros r Hr.
  eapply pending_read; [by eapply reads_child2|]. eapply pending_write; [by apply IH|done].
Qed.

Lemma reads_sibling3 p n a x c z i : ns !! p = Some n -> firstChild n = Some a -> ns !! a = Some x -> sibling x = Some c ->
  ns !! c = Some z -> sibling z = Some i -> reads (child3 p) i.
Proof.
  intros Hn Ea Ex Ec Ez Ei. eapply reads_bind; [by eapply reads_child2|].
  eapply reads_bind; [by apply reads_next|by apply reads_deref].
Qed.

Lemma increment_writes i z : ns !! i = Some z -> no_value s z = true ->
  writes (match expressionType z with
          | None => ret tt
          | Some t => let! ty := ntype t in
                      if ty =? T_VOID then ret tt
                      else if type z =? T_CALL then pop_unused g t else fail_at i "The result of the expression is unused."
          end) [].
Proof.
  intros Hz Hv. unfold no_value in Hv. destruct (expressionType z) as [t|]; [|exact writes_nil].
  destruct (ns !! t) as [m|] eqn:Em; [|done]. eapply writes_read; [by apply reads_ntype|]. rewrite Hv. exact writes_nil.
Qed.

Lemma for_writes p n a x c z i w q d e u v : ns !! p = Some n -> rooted s p = true -> type n = T_FOR -> firstChild n = Some a ->
  ns !! a = Some x -> sibling x = Some c -> ns !! c = Some z -> sibling z = Some i -> ns !! i = Some w -> sibling w = Some q ->
  is_type (type x) [T_DECLARE; T_EQUALS] = true -> no_value s w = true ->
  read_part a = Some d -> expression offset s fuel c = Some e -> read_part i = Some u -> read_part q = Some v ->
  writes (FunctionBuilderRecurse (S g) p false) (statement_code (Seq d (While e (Seq v u)))).
Proof.
  intros Hn Hp Hy Ea Ex Ec Ez Ei Ew Eq Hx Hw Hd He Hu Hv. open_node Hn Hy. cbn [statement_code].
  eapply writes_read; [by eapply reads_child1|]. eapply writes_read; [by eapply reads_child2|].
  eapply writes_read; [by eapply reads_sibling3|].
  eapply writes_read; [eapply reads_bind; [by eapply reads_sibling3|eapply reads_bind; [by apply reads_next|by apply reads_deref]]|].
  eapply writes_read; [by apply reads_ntype|]. rewrite Hx. apply writes_skip; [exact writes_nil|].
  apply writes_bind; [by apply IH|]. apply writes_position. intros r. apply loop_writes; [done|by apply HE|]. intros r' Hr.
  eapply pending_write; [by apply IH|]. eapply pending_write; [by apply IH|]. eapply pending_read; [by apply reads_node|].
  eapply pending_write; [by apply increment_writes|]. by rewrite !app_nil_r.
Qed.
End Parts.

(** What is read has blocks of a bounded size. *)
Lemma statements_few read_part n : (forall p a, read_part p = Some a -> few_variables a = true) ->
  forall c a, statements s read_part n c = Some a -> few_variables a = true.
Proof.
  intros Hr. induction n as [|n IH]; intros c a Ha; [done|]. cbn in Ha. destruct c as [q|]; [|by simplify_eq].
  apply bind_Some in Ha as (m & Hm & Ha). destruct (negb _); [done|].
  apply bind_Some in Ha as (u & Hu & (v & Hv & [= <-])%bind_Some). cbn. by rewrite (Hr _ _ Hu), (IH _ _ Hv).
Qed.

Lemma read_assignment_few f p n a : read_assignment offset s f p n = Some a -> few_variables a = true.
Proof.
  intros (c & _ & (x & _ & Ha)%bind_Some)%bind_Some. destruct (sibling x); [|by simplify_eq].
  apply bind_Some in Ha as (m & _ & Ha). destruct (_ || _); [done|]. apply bind_Some in Ha as (e & _ & Ha).
  destruct (_ =? _); [|destruct (_ && _); [|done]]; by apply bind_Some in Ha as (v & _ & [= <-]).
Qed.

Lemma statement_few fuel : forall p a, statement offset s fuel p = Some a -> few_variables a = true.
Proof.
  induction fuel as [|f IH]; intros p a Ha; [done|]. cbn [statement] in Ha. apply bind_Some in Ha as (n & _ & Ha). cbv zeta in Ha.
  destruct (is_type _ _); [by eapply read_assignment_few|]. destruct (negb _); [done|]. destruct (type n =? T_BLOCK).
  { apply bind_Some in Ha as (i & _ & (x & _ & (flags & _ & Ha)%bind_Some)%bind_Some). destruct (_ && _) eqn:Ec; [|done].
    apply andb_true_iff in Ec as [Ec%Z.leb_le El%Z.eqb_eq]. apply fmap_Some in Ha as (u & Hu & ->). cbn [few_variables].
    apply andb_true_iff. split; [apply Z.leb_le; lia|by eapply statements_few]. }
  destruct (type n =? T_IF).
  { apply bind_Some in Ha as ([[[b x] c] r] & _ & Ha). destruct (plain_type _ _); [|done].
    apply bind_Some in Ha as (e & _ & (u & Hu & Ha)%bind_Some). destruct r as [q|].
    - apply fmap_Some in Ha as (v & Hv & ->). cbn. by rewrite (IH _ _ Hu), (IH _ _ Hv).
    - simplify_eq. cbn. by apply IH in Hu. }
  destruct (type n =? T_WHILE).
  { apply bind_Some in Ha as ([[[b x] c] r] & _ & Ha). apply bind_Some in Ha as (e & _ & (u & Hu & ->)%fmap_Some). cbn. by apply IH in Hu. }
  destruct (type n =? T_FOR); [|done]. apply bind_Some in Ha as ([[[b x] c] r] & _ & Ha).
  apply bind_Some in Ha as (i & _ & (w & _ & (q & _ & Ha)%bind_Some)%bind_Some). destruct (_ && _); [|done].
  apply bind_Some in Ha as (d & Hd & (e & _ & (u & Hu & (v & Hv & [= <-])%bind_Some)%bind_Some)%bind_Some).
  cbn. by rewrite (IH _ _ Hd), (IH _ _ Hv), (IH _ _ Hu).
Qed.

Lemma statement_writes fuel : forall p a g, statement offset s fuel p = Some a -> (fuel + 3 <= g)%nat ->
  writes (FunctionBuilderRecurse g p false) (statement_code a).
Proof.
  induction fuel as [|fuel IH]; intros p a g Ha Hg; [done|]. destruct g as [|g]; [lia|].
  assert (IHg : forall p a, statement offset s fuel p = Some a -> writes (FunctionBuilderRecurse g p false) (statement_code a))
    by (intros; apply IH; [done|lia]).
  assert (HE : forall p e, expression offset s fuel p = Some e -> writes (FunctionBuilderRecurse g p false) (expression_code e))
    by (intros; eapply expression_writes; [done|lia]).
  cbn [statement] in Ha. apply bind_Some in Ha as (n & Hn & Ha). cbv zeta in Ha.
  destruct (is_type (type n) [T_EQUALS; T_DECLARE]) eqn:Ey; [eapply read_assignment_writes; [done|done| |lia|done]; lia|clear Ey].
  destruct (rooted s p) eqn:Hp; [cbn [negb] in Ha|done].
  destruct (type n =? T_BLOCK) eqn:Ey; [apply Z.eqb_eq in Ey|clear Ey].
  { apply bind_Some in Ha as (i & Hi & (x & Hx & (flags & Hf & Ha)%bind_Some)%bind_Some).
    destruct (_ && _) eqn:Ec; [|done]. apply andb_true_iff in Ec as [Ec%Z.leb_le El%Z.eqb_eq].
    apply fmap_Some in Ha as (u & Hu & ->). eapply (block_writes g (statement offset s fuel) IHg); eassumption. }
  destruct (type n =? T_IF) eqn:Ey; [apply Z.eqb_eq in Ey|clear Ey].
  { apply bind_Some in Ha as ([[[b x] c] r] & Hc & Ha). apply two_children_inv in Hc as (Eb & Ex & Ec & z & Ez & <-).
    destruct (plain_type s (expressionType x)) eqn:Et; [|done]. apply bind_Some in Ha as (e & He & Hu). eapply (if_writes g fuel (statement offset s fuel) IHg HE); eassumption. }
  destruct (type n =? T_WHILE) eqn:Ey; [apply Z.eqb_eq in Ey|clear Ey].
  { apply bind_Some in Ha as ([[[b x] c] r] & Hc & Ha). apply two_children_inv in Hc as (Eb & Ex & Ec & z & Ez & <-).
    apply bind_Some in Ha as (e & He & (u & Hu & ->)%fmap_Some). eapply (while_writes g fuel (statement offset s fuel) IHg HE); eassumption. }
  destruct (type n =? T_FOR) eqn:Ey; [apply Z.eqb_eq in Ey|done].
  apply bind_Some in Ha as ([[[b x] c] r] & Hc & Ha). apply two_children_inv in Hc as (Eb & Ex & Ec & z & Ez & <-).
  apply bind_Some in Ha as (i & Hi & (w & Hw & (q & Hq & Ha)%bind_Some)%bind_Some). destruct (_ && _) eqn:Et; [|done].
  apply andb_true_iff in Et as [Et Ew].
  apply bind_Some in Ha as (d & Hd & (e & He & (u & Hu & (v & Hv & [= <-])%bind_Some)%bind_Some)%bind_Some). eapply (for_writes g fuel (statement offset s fuel) IHg HE); eassumption.
Qed.
End Nodes.
