(* ===== verification/ScriptLoad.v ===== *)
(** * Loading and running a script (util/script.c)

    [ASTGenerate], [ScriptParseOptions], [ScriptLoad], [ScriptExecute] and
    [ScriptExecuteFromFile]: the passes in their order, from the text of a module to the
    bytecode, and the functions a script starts with.  A module that imports others
    loads them from inside [ASTSetScopes]; the depth of imports is a bound of
    [ScriptLoad].  [fuel] bounds the recursion of the passes over types and of code
    generation.  The memory of a script is not freed here. *)

From Stdlib Require Import String.
From stdpp Require Import base list.
From S2P Require Import Prelude ScriptToken ScriptParser ScriptReturn ScriptHeap ScriptFloat ScriptExec ScriptScope ScriptTypes.
From S2P Require Import ScriptGenerate.

(** ** External functions *)

(** The names of the array [externalFunctions]. *)
Definition external_names : list string :=
  ["Log"; "LogOpenGroup"; "LogClose"; "TextColorError"; "TextColorHighlight"; "TextWeight"; "TextMonospaced"; "TextPlain";
   "ConsoleGetLine"; "ConsoleWriteStdout"; "ConsoleWriteStderr"; "StringSlice"; "CharacterToByte"; "SystemShellExecute";
   "SystemShellExecuteWithWorkingDirectory"; "SystemShellEvaluate"; "SystemShellEnableLogging";
   "SystemGetProcessorCount"; "SystemGetEnvironmentVariable"; "SystemSetEnvironmentVariable";
   "SystemRunningAsAdministrator"; "SystemGetHostName"; "SystemSleepMs"; "PathExists"; "PathIsFile"; "PathIsDirectory";
   "PathIsLink"; "PathCreateDirectory"; "PathDelete"; "PathMove"; "PathGetDefaultPrefix";
   "PathSetDefaultPrefixToScriptSourceDirectory"; "FileReadAll"; "FileWriteAll"; "FileAppend"; "FileCopy"; "FileGetSize";
   "PersistRead"; "PersistWrite"; "RandomInt"; "_DirectoryInternalStartIteration"; "_DirectoryInternalNextIteration";
   "_DirectoryInternalEndIteration"; "OpenDocumentEnumerate"]%string.

(** The index of a function by its name. *)
Fixpoint external_index (w : bytes) (l : list string) (i : Z) : option Z :=
  match l with
  | [] => None
  | x :: l' => if bool_decide (bytes_of x = w) then Some i else external_index w l' (i + 1)
  end.

(** ** What loading needs from its surroundings *)

Class System := {
  read_file : bytes -> option bytes;             (** the file at a path *)
  base_source : bytes;                           (** the array [baseModuleSource] *)
  dlopen : bytes -> bool;                        (** can a library be loaded? *)
  dlsym : nat -> bytes -> option Z;              (** a symbol of the library of a module *)
  options : list bytes;                          (** the options of the command line *)
  new_entry : nat -> HeapEntry;                  (** [realloc]: a new heap entry *)
}.

(** Run a computation on the context. *)
Definition in_context {A} (m : M ExecutionContext A) : M ast A := fun s =>
  let '(o, x) := m (context s) in (o, set_context x s).

Definition update_context (f : ExecutionContext -> ExecutionContext) : M ast unit :=
  modify (fun s => set_context (f (context s)) s).
Definition update_import (m : nat) (f : ImportData -> ImportData) : M ast unit :=
  modify (fun s => set_imports (alter f m (imports s)) s).

(** ** ASTGenerate *)

Section Load.
Context `{System} (mainModule : nat).

(** Room for the global variables of a module. *)
Definition add_globals (count : Z) : M ast unit :=
  let! s := get in
  let g := globalVariables (context s) in
  update_builder (with_offset (Z.of_nat (length g))) ;;;
  update_context (set_globals (g ++ repeat (false, 0) (Z.to_nat count))).

(** Write a global variable. *)
Definition set_global (i : Z) (f : slot -> slot) : M ast unit :=
  let! s := get in
  if (0 <=? i) && (i <? Z.of_nat (length (globalVariables (context s)))) then
    update_context (fun x => set_globals (alter f (Z.to_nat i) (globalVariables x)) x)
  else stop OutOfBounds.

(** The index of the variable that a node of the root scope declares. *)
Definition global_index (n : AstNode) (x : Scope) : M ast Z :=
  let! b := get_builder in
  let! i := ScopeLookupIndex (text (token n)) x false false in
  ret (variableOffset b + i).

(** A new heap entry with its contents. *)
Definition new_heap_entry (p : payload) : M ast Z :=
  let! i := in_context (HeapAllocate new_entry) in
  update_context (fun x => set_heap (update_entry i (set_contents p) (heap x)) x) ;;;
  ret i.

(** [LibraryGetAddress], for the library of the module [m]; the name has no zero byte. *)
Definition LibraryGetAddress (m : nat) (name : bytes) : M ast Z :=
  assert (Z.of_nat (length name) <? 256) ;;;
  match dlsym m (bytes_of "ScriptExt" ++ name) with
  | Some a => ret a
  | None => error_3 "The library symbol could not be found."
  end.

(** The code of a function that is not written in the language. *)
Definition generate_external (n : AstNode) : M ast unit :=
  let! m := deref (token_module n) in
  let! d := import_at m in
  if has_library d then
    if 255 <? Z.of_nat (length (text (token n))) then
      error_at n "The function name is too long to be loaded from a library."
    else
      let! a := LibraryGetAddress m (text (token n)) in
      emit T_LIBCALL ;;; emit_int 8 a
  else
    match external_index (text (token n)) external_names 0 with
    | None => error_at n "No such external function '%.*s'."
    | Some i => emit T_EXTCALL ;;; emit_int 2 i
    end.

Definition generate_function (fuel : nat) (x : Scope) (p : nat) (n : AstNode) : M ast unit :=
  let! variableIndex := global_index n x in
  let! here := position in
  let! heapIndex := new_heap_entry (PFuncptr here) in
  set_global variableIndex (fun _ => (true, heapIndex)) ;;;
  if isExternalCall (flags n) then generate_external n
  else let! body := child2 p in FunctionBuilderRecurse fuel body false.

Definition generate_global (module : nat) (x : Scope) (n : AstNode) : M ast unit :=
  (if isPersistentVariable (flags n) && negb (mainModule =? module)%nat
   then error_at n "Persistent variables are not allowed in imported modules." else ret tt) ;;;
  let! i := global_index n x in
  let! m := ASTIsManagedType (expressionType n) in
  set_global i (fun _ => (m, 0)).

Definition ASTGenerate (fuel module root : nat) : M ast unit :=
  let! r := node_at root in
  let! sc := deref (scope r) in
  let! x := scope_at sc in
  add_globals (variableEntryCount x) ;;;
  each_sibling (fun p =>
    let! n := node_at p in
    if type n =? T_FUNCTION then generate_function fuel x p n
    else if type n =? T_DECLARE then generate_global module x n
    else ret tt) (firstChild r).

(** ** Options *)

(** The position of the first ['='], or [0]. *)
Fixpoint equals_position (w : bytes) (j : Z) : Z :=
  match w with
  | [] => 0
  | ch :: w' => if ch =? 61 then j else equals_position w' (j + 1)
  end.

(** The global variable with a name, and its index among the variables. *)
Fixpoint option_entry (ns : list AstNode) (w : bytes) (l : list nat) (index : Z) : option (AstNode * Z) :=
  match l with
  | [] => None
  | e :: l' =>
      match ns !! e with
      | None => None
      | Some n =>
          if bool_decide (text (token n) = w) && (type n =? T_DECLARE) then Some (n, index)
          else option_entry ns w l' (if ScopeIsVariableType n then index + 1 else index)
      end
  end.

(** The value of an integer option. *)
Fixpoint option_int (w : bytes) (v : Z) : option Z :=
  match w with
  | [] => Some v
  | ch :: w' => if (48 <=? ch) && (ch <=? 57) then option_int w' (s64 (s64 (v * 10) + (ch - 48))) else None
  end.

(** Write the value [w] of an option to the variable [n] with index [i]. *)
Definition set_option (n : AstNode) (i : Z) (w : bytes) : M ast unit :=
  let! t := deref (expressionType n) in
  let! y := ntype t in
  if y =? T_STR then
    let! heapIndex := new_heap_entry (PStr w) in
    set_global i (fun s => (s.1, heapIndex))
  else if y =? T_INT then
    match option_int w 0 with
    | Some v => set_global i (fun s => (s.1, v))
    | None => error_3 "Option '%s' should be an integer."
    end
  else if y =? T_BOOL then
    let ch := match w with ch :: _ => ch | [] => 0 end in
    let truthy := is_type ch [116; 121; 49] in
    let falsey := is_type ch [102; 110; 48] in
    if negb truthy && negb falsey then error_3 "#option variable '%.*s' should be a boolean value 'true' or 'false'."
    else set_global i (fun s => (s.1, Z.b2z truthy))
  else error_3 "#option variable '%.*s' is not of string, boolean or integer type.".

(** The [i]-th option, [w]. *)
Definition parse_option (x : Scope) (i : nat) (w : bytes) : M ast unit :=
  let e := equals_position w 0 in
  if e =? 0 then error_3 "Invalid script option passed on command line '%s'."
  else
    let! s := get in
    match option_entry (nodes s) (take (Z.to_nat e) w) (entries x) 0 with
    | None => ret tt
    | Some (n, index) =>
        set_option n (index + variableOffset (builder s)) (drop (Z.to_nat e + 1) w) ;;;
        let! s := get in
        let! matched := deref (A := bool) (optionsMatched s !! i) in
        if matched then
          error_3 "Script option passed on command line '%s' matches multiple #option variables in different modules."
        else modify (fun s : ast => set_matched (<[i := true]> (optionsMatched s)) s)
    end.

Fixpoint parse_options (x : Scope) (i : nat) (l : list bytes) : M ast unit :=
  match l with [] => ret tt | w :: l' => parse_option x i w ;;; parse_options x (S i) l' end.

Definition ScriptParseOptions (root : nat) : M ast unit :=
  let! r := node_at root in
  let! sc := deref (scope r) in
  let! x := scope_at sc in
  parse_options x 0 options.

(** ** ScriptLoad *)

(** Parse the text of a module into the store; the root, if there was no error. *)
Definition parse_module (m : nat) (replMode : bool) : M ast (option nat) :=
  let! d := import_at m in
  let source := fileData d in
  let start := MkParser (MkTokenizer source 0 1 false (bool_decide (path d = base_module_name) && negb (m =? mainModule)%nat)) [] false in
  let '(o, q) := if replMode then ParseRootREPL (parse_fuel source) start
                 else ParseRoot (parse_fuel source) dlopen start in
  modify (fun s => set_printed (printed s ++ messages q) s) ;;;
  update_import m (fun d => MkImport (fileData d) (path d) (parentImport d) (rootNode d) (globalVariableOffset d) (library q)) ;;;
  match o with
  | Ok n => let! s := get in modify (add_tree (Some m) n) ;;; ret (Some (tree_root s))
  | RetFalse => ret None
  | Stop r => stop r
  end.

(** The tree below a node, as it is after the passes. *)
Fixpoint tree_of (fuel : nat) (ns : list AstNode) (p : nat) : option Node :=
  match fuel with
  | O => None
  | S f =>
      match ns !! p with
      | None => None
      | Some n =>
          let fix trees (g : nat) (c : option nat) : option (list Node) :=
            match g, c with
            | _, None => Some []
            | O, _ => None
            | S g', Some q =>
                match tree_of f ns q, ns !! q with
                | Some t, Some m => match trees g' (sibling m) with Some l => Some (t :: l) | None => None end
                | _, _ => None
                end
            end in
          match trees f (firstChild n) with
          | Some l => Some (MkNode (type n) (token n) (flags n) l)
          | None => None
          end
      end
  end.

(** [ASTCheckForReturnStatements], on the tree in the store. *)
Definition check_returns (fuel : nat) (root : nat) : M ast unit :=
  let! s := get in
  match tree_of fuel (nodes s) root with
  | None => stop OutOfFuel
  | Some t =>
      let '(o, q) := ASTCheckForReturnStatements t (MkParser (MkTokenizer [] 0 1 false false) [] false) in
      modify (fun s => set_printed (printed s ++ messages q) s) ;;;
      match o with Ok _ => ret tt | RetFalse => ret_false | Stop r => stop r end
  end.

(** The commands at the first addresses. *)
Definition first_commands : M ast unit := emit_all [0; T_AWAIT; T_CALL; T_END_CALLBACK].

(** The passes behind the parser. *)
Definition run_passes `{Loader} (fuel m root : nat) : M ast unit :=
  let! s := get in
  ASTSetScopes (Some m) (S (length (nodes s))) root None ;;;
  ASTLookupTypeIdentifiers fuel root ;;;
  ASTSetTypes fuel root ;;;
  check_returns fuel root ;;;
  ASTGenerate fuel m root ;;;
  ScriptParseOptions root.

(** Remember what was loaded, however it went, and go on with the module before. *)
Definition finish_load (m : nat) (root previous : option nat) : M ast unit :=
  let! b := get_builder in
  update_import m (fun d => MkImport (fileData d) (path d) (parentImport d) root (variableOffset b) (has_library d)) ;;;
  modify (fun s => set_imported (importedModules s ++ [m]) s) ;;;
  update_builder (with_module previous).

Definition load_with `{Loader} (fuel m : nat) (replMode : bool) : M ast unit :=
  let! b := get_builder in
  let previous := builder_module b in
  let! root := parse_module m replMode in
  update_builder (with_module (Some m)) ;;;
  first_commands ;;;
  let! success := try_result match root with None => ret_false | Some r => run_passes fuel m r end in
  finish_load m root previous ;;;
  match success with Some _ => ret tt | None => ret_false end.

(** Modules may import modules to the given depth. *)
Fixpoint ScriptLoad (depth fuel m : nat) (replMode : bool) : M ast unit :=
  let load (i : nat) : M ast unit :=
    match depth with O => stop OutOfFuel | S d => ScriptLoad d fuel i false end in
  load_with (H0 := {| FileLoad := read_file; baseModuleSource := base_source; load_module := load |}) fuel m replMode.
End Load.

(** ** Running *)

(** [void] without arguments, in a store of types: its index, and the nodes it adds. *)
Definition start_type (s : ast) : nat * ast :=
  let n := length (nodes s) in
  (n, set_nodes (nodes s ++
    [type_node T_FUNCPTR (Some (n + 1)%nat); set_sibling (Some (n + 2)%nat) (type_node T_ARGUMENTS None); type_node T_VOID None]) s).

(** What [ScriptExecute] returns: an exit code, or the reason the program stops; [None]
    when the bound on the number of steps was reached.  Messages are left out. *)
Definition code := option (Z + stop_reason).

Section Run.
Context `{Platform} (steps : nat).

(** A function of a module that takes no arguments and returns nothing, if it has one:
    [Some (Some i)] is its variable among those of the module, [Some None] one of another
    type. *)
Definition find_function (fuel m : nat) (w : bytes) : M ast (option (option Z)) :=
  let! x := module_scope m in
  let! index := ScopeLookupIndex w x true false in
  if index =? -1 then ret None
  else
    let! real := ScopeLookupIndex w x false true in
    let! e := deref (entries x !! Z.to_nat real) in
    let! t := etype e in
    let! s := get in
    let (start, s') := start_type s in
    let! ok := (fun s => ((ASTMatching fuel (Some start) t s').1, s)) in
    ret (Some (if ok then Some index else None)).

(** Run the function that a global variable points at; the entry of the heap must be that
    of a function, as its field [lambdaID] is read. *)
Definition run_global (i : Z) (s : ast) : option exit * ast :=
  let x := context s in
  match globalVariables x !! Z.to_nat i with
  | None => (Some (Halt OutOfBounds), s)
  | Some (_, v) =>
      match entry_at (heap x) v with
      | Some e =>
          match contents e with
          | PFuncptr start =>
              let '(r, m) := ScriptExecuteFunction steps start x in (r, set_context (ScriptExec.context m) s)
          | _ => (Some (Halt OutOfBounds), s)
          end
      | None => (Some (Halt OutOfBounds), s)
      end
  end.

(** The exit code behind a function, or [None] to go on. *)
Definition after_run (r : option exit * ast) : option code * ast :=
  match r.1 with
  | None => (Some None, r.2)
  | Some (Halt e) => (Some (Some (inr e)), r.2)
  | Some (Return result) =>
      if (result =? 0) || (result =? -1) || negb (length (stack (c (context r.2))) =? 0)%nat
      then (Some (Some (inl 1)), r.2) else (None, r.2)
  end.

(** The functions [Initialise] of the modules, in the order they were loaded. *)
Fixpoint initialise (fuel : nat) (l : list nat) (s : ast) : option code * ast :=
  match l with
  | [] => (None, s)
  | m :: l' =>
      match find_function fuel m (bytes_of "Initialise") s with
      | (Ok None, s) => initialise fuel l' s
      | (Ok (Some (Some i)), s) =>
          match imports s !! m with
          | None => (Some (Some (inr OutOfBounds)), s)
          | Some d =>
              match after_run (run_global (i + globalVariableOffset d) s) with
              | (None, s) => initialise fuel l' s
              | r => r
              end
          end
      | (Ok (Some None), s) => (Some (Some (inl 1)), s)
      | (RetFalse, s) => (Some (Some (inl 1)), s)
      | (Stop r, s) => (Some (Some (inr r)), s)
      end
  end.

Definition ScriptExecute (mainModule fuel : nat) (s : ast) : code * ast :=
  if negb (forallb (fun b => b) (optionsMatched s)) then (Some (inl 1), s)
  else
    let s := set_context (let x := context s in
      MkContext (globalVariables x) (heap x) (heapFirstUnusedEntry x) (data (builder s)) (before x) (c x) (after x)
        (unblockedCoroutines x) (lastCoroutineID x) (externalCoroutineCount x)) s in
    match find_function fuel mainModule startFunction s with
    | (Ok (Some (Some i)), s) =>
        match initialise fuel (importedModules s) s with
        | (Some r, s) => (r, s)
        | (None, s) =>
            match after_run (run_global (variableOffset (builder s) + i) s) with
            | (None, s) => (Some (inl 0), s)
            | (Some r, s) => (r, s)
            end
        end
    | (Ok _, s) => (Some (inl 1), s)
    | (RetFalse, s) => (Some (inl 1), s)
    | (Stop r, s) => (Some (inr r), s)
    end.

(** [ScriptExecuteFromFile]: the context, the main module, loading and running. *)
Definition ScriptExecuteFromFile `{System} (depth fuel : nat) (scriptPath source : bytes) (replMode : bool) : code * ast :=
  let s := start_store (initial_context new_entry) in
  let s := set_matched (map (fun _ => false) options) (set_imports [MkImport source scriptPath None None 0 false] s) in
  match ScriptLoad 0 depth fuel 0 replMode s with
  | (Ok _, s) => ScriptExecute 0 fuel s
  | (RetFalse, s) => (Some (inl 1), s)
  | (Stop r, s) => (Some (inr r), s)
  end.
End Run.
