(* ===== verification/ScriptPrograms.v ===== *)
(** * Scripts, from their text to what they do (util/script.c)

    The correctness of code generation as theorems about [FunctionBuilderRecurse] and the
    interpreter, constant expressions, and whole scripts that show what the passes let
    through. *)

From Stdlib Require Import String.
From stdpp Require Import base option list relations.
From S2P Require Import Prelude ScriptToken ScriptParser ScriptParserProofs ScriptHeap ScriptFloat ScriptExec ScriptExecProofs ScriptScope ScriptScopeProofs.
From S2P Require Import ScriptTypes ScriptGenerate ScriptSource ScriptCompile ScriptCompileNodes ScriptLoad.

(** ** Compiled code *)

Lemma builder_same s : set_builder (builder s) s = s.
Proof. by destruct s. Qed.

(** C17. Compiled expressions. For every node of the tree that reads as an expression [e] of
    the language of literals, variables and operators ([ScriptSource]), with [fuel] levels of
    nesting, [FunctionBuilderRecurse] succeeds, changes only the function builder and appends
    [expression_code e] to the code. A machine whose code contains these bytes where they were
    written, whose variables hold the values of [E] and whose stack has room for the operands
    (50 entries are reserved) runs from the first to behind the last of them, and the value
    of [e] is then on top of the stack; nothing else has changed.  The value of a division is what
    the interpreter computes ([machine_quotient]): not the quotient of integers. *)
Theorem expression_compiled `{Platform} s p fuel g e (outer : list slot) E v :
  expression (variableOffset (builder s)) s fuel p = Some e -> (fuel <= g)%nat -> eval machine_quotient E e = Some v ->
  exists b, FunctionBuilderRecurse g p false s = (Ok tt, set_builder b s) /\
    data b = data (builder s) ++ expression_code e /\
    forall x st more, functionData x = data b ++ more -> size_of (functionData x) < 2 ^ 31 -> holds outer E x ->
      (length st + expression_depth e <= 50)%nat ->
      let base := Z.of_nat (length outer) - 1 in
      rtc moves (MkMachine (stacked st x) (size_of (data (builder s))) base)
        (MkMachine (stacked ((false, v) :: st) x) (size_of (data b)) base).
Proof.
  intros He Hg Hv. destruct (expression_writes _ s fuel p e g He Hg (builder s) eq_refl) as (b & Eb & Db & _).
  rewrite builder_same in Eb. exists b. split; [done|]. split; [done|]. intros x st more Hx Hs Hh Hl base.
  rewrite Db, size_app. apply (expression_runs outer x E e); [done..| |done].
  exists (data (builder s)), more. by rewrite Hx, Db, <- app_assoc.
Qed.

(** C2. Compiled statements. For every node that reads as a statement [a] of the language of
    blocks, declarations, assignments, [if], [while] and [for] ([ScriptSource]),
    [FunctionBuilderRecurse] succeeds, changes only the function builder and appends
    [statement_code a], with all branches resolved. Whenever the reference semantics takes the
    variables [E] to [E1], a machine in front of these bytes with the variables [E] runs to
    behind them with the variables [E1]; the stack is as before, and heap, tasks and code are
    untouched.  (A division has the value the interpreter computes, see [machine_quotient].) *)
Theorem statement_compiled `{Platform} s p fuel g a (outer : list slot) E E1 :
  statement (variableOffset (builder s)) s fuel p = Some a -> (fuel + 3 <= g)%nat -> exec (length outer) E a E1 ->
  exists b, FunctionBuilderRecurse g p false s = (Ok tt, set_builder b s) /\
    data b = data (builder s) ++ statement_code a /\
    forall x st more, functionData x = data b ++ more -> size_of (functionData x) < 2 ^ 31 -> holds outer E x ->
      (length st + statement_depth a <= 50)%nat ->
      let base := Z.of_nat (length outer) - 1 in
      exists y, rtc moves (MkMachine (stacked st x) (size_of (data (builder s))) base)
                  (MkMachine (stacked st y) (size_of (data b)) base) /\ holds outer E1 y /\ alike x y.
Proof.
  intros Ha Hg Hex. destruct (statement_writes _ s fuel p a g Ha Hg (builder s) eq_refl) as (b & Eb & Db & _).
  rewrite builder_same in Eb. exists b. split; [done|]. split; [done|]. intros x st more Hx Hs Hh Hl base.
  apply (statement_runs outer E a E1 Hex (statement_few _ _ _ _ _ Ha)); [done|done| |done|by rewrite Db, size_app].
  exists (data (builder s)), more. by rewrite Hx, Db, <- app_assoc.
Qed.

(** ** Constants *)

(** A computation that leaves the store alone. *)
Definition looks {A} (m : M ast A) : Prop := forall s, (m s).2 = s.

Lemma looks_ret {A} (a : A) : looks (ret a).
Proof. done. Qed.
Lemma looks_stop {A} r : looks (stop r : M ast A).
Proof. done. Qed.
Lemma looks_bind {A B} (m : M ast A) (f : A -> M ast B) : looks m -> (forall a, looks (f a)) -> looks (bind m f).
Proof. intros Hm Hf s. unfold bind. specialize (Hm s). destruct (m s) as [[a| |r] s']; cbn in *; subst; [apply Hf|done..]. Qed.
Lemma looks_deref {A} (o : option A) : looks (deref o).
Proof. by destruct o. Qed.
Lemma looks_node p : looks (node_at p).
Proof. apply looks_bind; [done|]. intros. apply looks_deref. Qed.
Lemma looks_next p : looks (next p).
Proof. apply looks_bind; [apply looks_node|done]. Qed.

Lemma looks_children matching n : (forall a b, looks (matching a b)) -> forall l r, looks (matching_children n matching l r).
Proof.
  intros Hm. induction n as [|n IH]; intros l r; [done|]. cbn. destruct l as [a|], r as [b|]; [|done..].
  apply looks_bind; [apply Hm|]. intros []; [|done]. apply looks_bind; [apply looks_next|]. intros l'.
  apply looks_bind; [apply looks_next|]. auto.
Qed.

Lemma looks_matching f : forall a b, looks (matching_nodes f a b).
Proof.
  induction f as [|f IH]; intros a b; [done|]. cbn [matching_nodes]. apply looks_bind; [apply looks_node|]. intros l.
  apply looks_bind; [apply looks_node|]. intros r. repeat (case_match; [done|]). by apply looks_children.
Qed.
Lemma looks_ASTMatching f l r : looks (ASTMatching f l r).
Proof. destruct l, r; cbn; [apply looks_matching|done..]. Qed.

Lemma looks_inv {A B} (m : M ast A) (f : A -> M ast B) s b s' :
  looks m -> bind m f s = (Ok b, s') -> exists a, m s = (Ok a, s) /\ f a s = (Ok b, s').
Proof.
  intros Hm (a & s1 & H1 & H2)%bind_inv_ok. specialize (Hm s). rewrite H1 in Hm. cbn in Hm. subst. by exists a.
Qed.

Lemma node_inv p s n s' : node_at p s = (Ok n, s') -> nodes s !! p = Some n.
Proof. unfold node_at, bind, get, deref, lift_opt, ret, stop. destruct (nodes s !! p); cbn; intros; by simplify_eq. Qed.
Lemma looks_child1 p : looks (child1 p).
Proof. apply looks_bind; [apply looks_bind; [apply looks_node|done]|]. intros. apply looks_deref. Qed.
Lemma looks_child2 p : looks (child2 p).
Proof. apply looks_bind; [apply looks_child1|]. intros c. apply looks_bind; [apply looks_next|]. intros. apply looks_deref. Qed.

Lemma child1_inv p n s c s' : nodes s !! p = Some n -> child1 p s = (Ok c, s') -> firstChild n = Some c.
Proof.
  intros Hn. unfold child1, first, node_at, bind, get, deref, lift_opt, ret, stop. cbn. rewrite Hn. cbn.
  destruct (firstChild n); cbn; intros; by simplify_eq.
Qed.
Lemma child2_inv p n s c s' : nodes s !! p = Some n -> child2 p s = (Ok c, s') ->
  exists a x, firstChild n = Some a /\ nodes s !! a = Some x /\ sibling x = Some c.
Proof.
  intros Hn (a & H1 & H2)%looks_inv; [|apply looks_child1]. exists a. apply child1_inv with (n := n) in H1 as ->; [|done].
  revert H2. unfold next, node_at, bind, get, deref, lift_opt, ret, stop. cbn. destruct (nodes s !! a) as [x|]; [|done]. cbn.
  exists x. destruct (sibling x); cbn in *; by simplify_eq.
Qed.

(** What [expression] reads at a node of a known type. *)
Lemma expression_binary o s f p n e : expression o s f p = Some e -> nodes s !! p = Some n ->
  is_type (type n) binary_operators = true -> exists f' a x c u w, firstChild n = Some a /\ nodes s !! a = Some x /\
    sibling x = Some c /\ expression o s f' a = Some u /\ expression o s f' c = Some w /\ e = Binary (type n) u w.
Proof.
  intros He Hn Hy. destruct f as [|f]; [done|]. cbn [expression] in He. rewrite Hn in He. cbn [mbind option_bind] in He.
  destruct (rooted s p); [cbn [negb] in He|done].
  replace (is_type (type n) unary_operators) with false in He by (symmetry; by eapply is_type_apart).
  rewrite Hy in He. cbn [orb] in He. apply bind_Some in He as ([[[a x] c] r] & Hc & He).
  apply two_children_inv in Hc as (Ea & Ex & Ec & _). destruct (_ && _); [|done].
  apply bind_Some in He as (u & Hu & (w & Hw & [= <-])%bind_Some). by exists f, a, x, c, u, w.
Qed.

Lemma expression_unary o s f p n e : expression o s f p = Some e -> nodes s !! p = Some n ->
  is_type (type n) unary_operators = true ->
  exists f' a u, firstChild n = Some a /\ expression o s f' a = Some u /\ e = Unary (type n) u.
Proof.
  intros He Hn Hy. destruct f as [|f]; [done|]. cbn [expression] in He. rewrite Hn in He. cbn [mbind option_bind] in He.
  destruct (rooted s p); [cbn [negb] in He|done]. rewrite Hy in He.
  apply bind_Some in He as (a & Ea & (x & _ & He)%bind_Some). destruct (_ && _); [|done].
  apply fmap_Some in He as (u & Hu & ->). by exists f, a, u.
Qed.

Lemma expression_leaf o s f p n e : expression o s f p = Some e -> nodes s !! p = Some n ->
  is_type (type n) [T_NUMERIC_LITERAL; T_ZERO] = true -> leaf o s p n = Some e.
Proof.
  intros He Hn Hy. destruct f as [|f]; [done|]. cbn [expression] in He. rewrite Hn in He. cbn [mbind option_bind] in He.
  destruct (rooted s p); [cbn [negb] in He|done].
  replace (is_type (type n) unary_operators) with false in He by (symmetry; by eapply is_type_apart).
  replace (is_type (type n) binary_operators) with false in He by (symmetry; by eapply is_type_apart).
  replace (is_type (type n) comparison_tokens) with false in He by (symmetry; by eapply is_type_apart).
  by replace (is_type (type n) [T_LOGICAL_OR; T_LOGICAL_AND]) with false in He by (symmetry; by eapply is_type_apart).
Qed.

(** The constant operations are those of the language. *)
Lemma constant_operation_value y op a b : constant_operation y = Some op ->
  is_type y binary_operators = true /\ binary_value integer_quotient y a b = Some (op a b).
Proof.
  unfold constant_operation. repeat (destruct (y =? _) eqn:E; [apply Z.eqb_eq in E as ->; intros [= <-]; by split|clear E]). done.
Qed.

(** What an evaluation without an error gives. *)
Definition agrees_with (s : ast) (p : nat) (v : Z) : Prop :=
  forall o f e, expression o s f p = Some e -> forall E, eval integer_quotient E e = Some v.
Definition evaluates (evaluate : nat -> bool -> M ast (Z * bool)) : Prop := forall p err s v s',
  evaluate p err s = (Ok (v, false), s') -> err = false /\ s' = s /\ agrees_with s p v.

Section Constants.
Context (evaluate : nat -> bool -> M ast (Z * bool)) (IH : evaluates evaluate).

(** Two operands: the first and then the second, or the other way. *)
Lemma agrees_binary s p n a x c u w v : nodes s !! p = Some n -> is_type (type n) binary_operators = true ->
  firstChild n = Some a -> nodes s !! a = Some x -> sibling x = Some c -> agrees_with s a u -> agrees_with s c w ->
  binary_value integer_quotient (type n) u w = Some v -> agrees_with s p v.
Proof.
  intros Hn Hy Ea Ex Ec Ha Hc Hv o f e He E. destruct (expression_binary o s f p n e He Hn Hy)
    as (f' & a' & x' & c' & eu & ew & Ea' & Ex' & Ec' & Hu & Hw & ->). simplify_eq. cbn.
  by rewrite (Ha _ _ _ Hu E), (Hc _ _ _ Hw E).
Qed.

Lemma constant_pair p n op err s v s' : nodes s !! p = Some n -> constant_operation (type n) = Some op ->
  (let! c1 := child1 p in let! (a, err) := evaluate c1 err in
   let! c2 := child2 p in let! (b, err) := evaluate c2 err in ret (op a b, err)) s = (Ok (v, false), s') ->
  err = false /\ s' = s /\ agrees_with s p v.
Proof.
  intros Hn Hop (c1 & H1 & H2)%looks_inv; [|apply looks_child1]. apply (child1_inv p n) in H1; [|done].
  apply bind_inv_ok in H2 as ([a e1] & s1 & H2 & (c2 & H3 & H4)%looks_inv); [|apply looks_child2].
  apply bind_inv_ok in H4 as ([b e2] & s2 & H4 & [= <- -> <-]).
  apply IH in H4 as (-> & -> & Hb). apply IH in H2 as (-> & -> & Ha). split_and!; [done|done|].
  apply (child2_inv p n) in H3 as (a' & x & Ea & Ex & Ec); [|done]. simplify_eq.
  destruct (constant_operation_value _ _ a b Hop) as [Hy Hv]. by eapply agrees_binary.
Qed.
Lemma constant_error_inv n message s v s' : constant_error n message s <> (Ok (v, false), s').
Proof. done. Qed.

Lemma constant_quotient p n err s v s' : nodes s !! p = Some n -> type n = T_SLASH ->
  (let! c2 := child2 p in let! (d, err) := evaluate c2 err in
   if err then ret (0, true)
   else if d =? 0 then constant_error n "Integer division by zero."
   else let! c1 := child1 p in let! (a, err) := evaluate c1 err in
        if (a =? - 2 ^ 63) && (d =? -1) then stop FatalError else ret (Z.quot a d, err)) s = (Ok (v, false), s') ->
  err = false /\ s' = s /\ agrees_with s p v.
Proof.
  intros Hn Hy (c2 & H1 & H2)%looks_inv; [|apply looks_child2]. apply bind_inv_ok in H2 as ([d e1] & s1 & H2 & H3).
  destruct e1; [done|]. apply IH in H2 as (-> & -> & Hd). destruct (d =? 0) eqn:Ed; [by apply constant_error_inv in H3|].
  apply looks_inv in H3 as (c1 & Hc1 & H4); [|apply looks_child1]. apply bind_inv_ok in H4 as ([a e2] & s2 & H4 & H5).
  destruct (_ && _) eqn:Eo; [done|]. injection H5 as <- -> <-. apply IH in H4 as (_ & -> & Ha). split_and!; [done|done|].
  apply (child1_inv p n) in Hc1; [|done]. apply (child2_inv p n) in H1 as (a' & x & Ea & Ex & Ec); [|done]. simplify_eq.
  eapply agrees_binary; [done|by rewrite Hy|done..|]. rewrite Hy. unfold binary_value, integer_quotient. by rewrite Ed, Eo.
Qed.

Lemma constant_shift p n err s v s' : nodes s !! p = Some n -> is_type (type n) [T_BIT_SHIFT_LEFT; T_BIT_SHIFT_RIGHT] = true ->
  (let! c2 := child2 p in let! (shift, err) := evaluate c2 err in
   if err then ret (0, true)
   else if (shift <? 0) || (63 <? shift) then constant_error n "Shift %d is out of range (0..63)."
   else let! c1 := child1 p in let! (a, err) := evaluate c1 err in
        ret (if type n =? T_BIT_SHIFT_LEFT then s64 (Z.shiftl a shift) else Z.shiftr a shift, err)) s = (Ok (v, false), s') ->
  err = false /\ s' = s /\ agrees_with s p v.
Proof.
  intros Hn Hy (c2 & H1 & H2)%looks_inv; [|apply looks_child2]. apply bind_inv_ok in H2 as ([d e1] & s1 & H2 & H3).
  destruct e1; [done|]. apply IH in H2 as (-> & -> & Hc). destruct (_ || _) eqn:Ed; [by apply constant_error_inv in H3|].
  apply looks_inv in H3 as (c1 & Hc1 & H4); [|apply looks_child1]. apply bind_inv_ok in H4 as ([a e2] & s2 & H4 & H5).
  injection H5 as <- -> <-. apply IH in H4 as (_ & -> & Ha). split_and!; [done|done|].
  apply (child1_inv p n) in Hc1; [|done]. apply (child2_inv p n) in H1 as (a' & x & Ea & Ex & Ec); [|done]. simplify_eq.
  apply orb_false_iff in Ed as [Ed1%Z.ltb_ge Ed2%Z.ltb_ge].
  assert (Hd : (0 <=? d) && (d <? 64) = true) by (apply andb_true_iff; rewrite Z.leb_le, Z.ltb_lt; lia).
  apply is_type_In in Hy.
  eapply agrees_binary; [done|by destruct Hy as [<-|[<-|[]]]|done..|].
  destruct Hy as [Hy|[Hy|[]]]; rewrite <- Hy; cbn -[Z.mul Z.pow Z.shiftl Z.shiftr s64]; rewrite Hd;
    by rewrite ?Z.shiftl_mul_pow2, ?Z.shiftr_div_pow2 by lia.
Qed.

Lemma constant_unary p n op err s v s' : nodes s !! p = Some n -> is_type (type n) unary_operators = true ->
  (forall a, unary_value (type n) a = Some (op a)) ->
  (let! c1 := child1 p in let! (a, err) := evaluate c1 err in ret (op a, err)) s = (Ok (v, false), s') ->
  err = false /\ s' = s /\ agrees_with s p v.
Proof.
  intros Hn Hy Hop (c1 & Hc1 & H2)%looks_inv; [|apply looks_child1]. apply bind_inv_ok in H2 as ([a e1] & s1 & H2 & [= <- -> <-]).
  apply IH in H2 as (-> & -> & Ha). split_and!; [done|done|]. apply (child1_inv p n) in Hc1; [|done].
  intros o f e He E. destruct (expression_unary o s f p n e He Hn Hy) as (f' & a' & u & Ea & Hu & ->). simplify_eq.
  cbn. rewrite (Ha _ _ _ Hu E). apply Hop.
Qed.
End Constants.

Lemma constants_agree f : evaluates (ASTEvaluateIntConstant f).
Proof.
  induction f as [|f IH]; intros p err s v s'; [done|]. cbn [ASTEvaluateIntConstant]. cbv zeta.
  intros (n & Hn%node_inv & H1)%looks_inv; [|apply looks_node]. apply looks_inv in H1 as (int & _ & H1); [|apply looks_ASTMatching].
  apply looks_inv in H1 as (_ & _ & H1); [|by destruct int].
  destruct (type n =? T_NUMERIC_LITERAL) eqn:Ey; [apply Z.eqb_eq in Ey|].
  { apply looks_inv in H1 as (w & Hw & [= <- -> <-]); [|unfold ASTNumericLiteralToValue; by repeat case_match].
    split_and!; [done|done|]. intros o g e He E. apply (expression_leaf o s g p n e) in He; [|done|by rewrite Ey].
    unfold leaf in He. rewrite Ey in He. cbn in He. repeat case_match; simplify_eq. cbn.
    unfold ASTNumericLiteralToValue in Hw. rewrite H0 in Hw. by injection Hw as <-. }
  destruct (type n =? T_ZERO) eqn:Ez; [apply Z.eqb_eq in Ez|].
  { injection H1 as <- -> <-. split_and!; [done|done|]. intros o g e He E.
    apply (expression_leaf o s g p n e) in He; [|done|by rewrite Ez].
    unfold leaf in He. rewrite Ez in He. cbn in He. case_match; by simplify_eq. }
  destruct (constant_operation (type n)) as [op|] eqn:Eop; [by eapply constant_pair|].
  destruct (type n =? T_SLASH) eqn:Es; [apply Z.eqb_eq in Es; by eapply constant_quotient|].
  destruct (is_type (type n) [T_BIT_SHIFT_LEFT; T_BIT_SHIFT_RIGHT]) eqn:Eh; [by eapply constant_shift|].
  destruct (type n =? T_NEGATE) eqn:En; [apply Z.eqb_eq in En|].
  { eapply (constant_unary _ IH p n (fun a => s64 (- a))); [done|by rewrite En|by rewrite En|done]. }
  destruct (type n =? T_BITWISE_NOT) eqn:Eb; [apply Z.eqb_eq in Eb|done].
  eapply (constant_unary _ IH p n Z.lnot); [done|by rewrite Eb|by rewrite Eb|done].
Qed.

(** C20. Constant expressions. When [ASTEvaluateIntConstant] evaluates a node without an error,
    every expression of the reference language read from that node has the same value, division, wrap-around and
    shifts included; without a division it is also the value that the code of the expression computes. (The
    interpreter does not divide integers as the constants do.) *)
Theorem constant_is_value f p s v s' o g e E :
  ASTEvaluateIntConstant f p false s = (Ok (v, false), s') -> expression o s g p = Some e ->
  eval integer_quotient E e = Some v /\ (undivided e = true -> eval machine_quotient E e = Some v).
Proof.
  intros H He. apply (constants_agree f) in H as (_ & _ & H). pose proof (H _ _ _ He E) as Hv. split; [done|].
  intros Hu. by rewrite (eval_undivided machine_quotient integer_quotient).
Qed.

(** ** Scripts *)

(** Surroundings with no files, no libraries and an empty base module. *)
Definition plain_system (o : list string) : System := {|
  read_file := fun _ => None;
  base_source := [];
  dlopen := fun _ => false;
  dlsym := fun _ _ => None;
  options := map bytes_of o;
  new_entry := fun _ => MkEntry PEof false false 0;
|}.
Definition plain_platform : Platform := {|
  uninitialised := fun _ => MkEntry PEof false false 0;
  fresh := fun _ => 0;
  stale_item := fun _ => 0;
  PrintFloatToBuffer := fun _ => [];
  type_at := fun _ => node T_VOID token0 [];
  module_of := fun _ => 0;
  externalFunctions := [];
  library_function := fun _ => ret tt;
  ExternalPersistWrite := fun x => (true, x);
  ExternalPassREPLResult := fun _ x => x;
  ExternalCoroutineWaitAny := fun _ => 0;
|}.

Definition run_script (o : list string) (w : string) : code * ast :=
  ScriptExecuteFromFile (H := plain_platform) 1000 (H0 := plain_system o) 2 100 (bytes_of "main") (bytes_of w) false.
(** The exit code, the messages and the global variables. *)
Definition script_result (r : code * ast) : code * list (Z * string) * list slot :=
  (r.1, printed r.2, globalVariables (ScriptScope.context r.2)).

Definition sum_script : string := "int x; void Start() { int i = 3; while i > 0 { x = x + i; i = i - 1; } }".
Definition sum_store : ast := (run_script [] sum_script).2.
Definition sum_program : stmt := Eval vm_compute in default Skip (statement 0 sum_store 10 17).
Definition sum_frame (x : Z) : frame := MkFrame [(false, x); (true, 1)] [].

(** The machine in front of the code [k]. *)
Definition sum_context (k : bytes) : ExecutionContext :=
  MkContext [(false, 0); (true, 1)] [] 0 k [] empty_coroutine [] [] 0 0.

Lemma sum_holds k : holds [] (sum_frame 0) (sum_context k).
Proof. by split. Qed.

Lemma sum_read : statement (variableOffset (builder sum_store)) sum_store 10 17 = Some sum_program.
Proof. vm_compute. reflexivity. Qed.

Lemma sum_exec : exec 0 (sum_frame 0) sum_program (sum_frame 6).
Proof. apply (run_statement_sound 0 20). vm_compute. reflexivity. Qed.

(** The body of [Start] adds up the numbers to 3. *)
Lemma statement_compiled_witness : exists b y,
  FunctionBuilderRecurse 13 17 false sum_store = (Ok tt, set_builder b sum_store) /\
  rtc (moves (H := plain_platform)) (MkMachine (stacked [] (sum_context (data b))) (size_of (data (builder sum_store))) (-1))
    (MkMachine (stacked [] y) (size_of (data b)) (-1)) /\ globalVariables y = [(false, 6); (true, 1)].
Proof.
  destruct (statement_compiled (H := plain_platform) sum_store 17 10 13 sum_program [] (sum_frame 0) (sum_frame 6)
    sum_read (le_n 13) sum_exec) as (b & Hb & Hd & Hr). exists b.
  assert (Hs : size_of (data b) < 2 ^ 31) by (rewrite Hd; vm_compute; reflexivity).
  destruct (Hr (sum_context (data b)) [] []) as (y & Hm & [Hy _ _ _ _] & _);
    [symmetry; apply app_nil_r|exact Hs|apply sum_holds|vm_compute; lia|].
  exists y. split; [exact Hb|]. split; [exact Hm|exact Hy].
Defined.

(** The condition of the loop, when [i] is 3. *)
Definition loop_frame : frame := MkFrame [(false, 0); (true, 1)] [(false, 3)].
Definition loop_context (k : bytes) : ExecutionContext :=
  MkContext [(false, 0); (true, 1)] [] 0 k [] (with_variables [(false, 3)] 1 empty_coroutine) [] [] 0 0.
Definition loop_condition : expr := Binary T_GREATER_THAN (Var (Local 0)) Zero.

Lemma expression_compiled_witness : exists b,
  FunctionBuilderRecurse 10 22 false sum_store = (Ok tt, set_builder b sum_store) /\
  rtc (moves (H := plain_platform)) (MkMachine (stacked [] (loop_context (data b))) (size_of (data (builder sum_store))) (-1))
    (MkMachine (stacked [(false, 1)] (loop_context (data b))) (size_of (data b)) (-1)).
Proof.
  assert (He : expression (variableOffset (builder sum_store)) sum_store 10 22 = Some loop_condition) by (vm_compute; reflexivity).
  destruct (expression_compiled (H := plain_platform) sum_store 22 10 10 loop_condition [] loop_frame 1 He (le_n 10) eq_refl)
    as (b & Hb & Hd & Hr). exists b.
  assert (Hs : size_of (data b) < 2 ^ 31) by (rewrite Hd; vm_compute; reflexivity).
  split; [exact Hb|]. apply (Hr (loop_context (data b)) [] []); [symmetry; apply app_nil_r|exact Hs| |vm_compute; lia].
  split; vm_compute; reflexivity.
Defined.

Definition constant_store : ast := (run_script [] "int x; void Start() { x = 1 + (2 << 3) * -9 / 3; }").2.
Definition constant_node : nat := 20.
Definition constant_expression : expr :=
  Eval vm_compute in default Zero (expression 0 constant_store 10 constant_node).

Lemma constant_is_value_witness :
  ASTEvaluateIntConstant 10 constant_node false constant_store = (Ok (-47, false), constant_store) /\
  eval integer_quotient (sum_frame 0) constant_expression = Some (-47).
Proof.
  assert (H1 : ASTEvaluateIntConstant 10 constant_node false constant_store = (Ok (-47, false), constant_store))
    by (vm_compute; reflexivity).
  assert (H2 : expression 0 constant_store 10 constant_node = Some constant_expression) by (vm_compute; reflexivity).
  split; [exact H1|]. exact (proj1 (constant_is_value 10 constant_node constant_store (-47) constant_store 0 10 constant_expression _ H1 H2)).
Defined.

(** ** What the passes let through *)

(** A cast of an argument takes the ones behind it along: [b] is 1 here, not 2. *)
Lemma cast_takes_arguments :
  script_result (run_script [] "int x; void F(err[int] a, int b) { x = b; } void Start() { F(1, 2); }") =
  (Some (inl 0), [], [(false, 1); (true, 1); (true, 2)]).
Proof. vm_compute. reflexivity. Qed.

(** [return;] in a function with a result, and [:curry()] without an argument, follow a null pointer. *)
Lemma return_without_value : (run_script [] "int F() { return; } void Start() { }").1 = Some (inr OutOfBounds).
Proof. vm_compute. reflexivity. Qed.
Lemma curry_without_argument :
  (run_script [] "functype void G(int a); void F(int a) { } void Start() { G g = F; g:curry(); }").1 = Some (inr OutOfBounds).
Proof. vm_compute. reflexivity. Qed.

(** Floats can be shifted; the command for it does not exist. *)
Lemma shifted_floats : script_result (run_script [] "float x; void Start() { x = 1.0 << 2.0; }") = (Some (inl 1), [], [(false, 0); (true, 1)]).
Proof. vm_compute. reflexivity. Qed.

(** A global variable can be the start function; the function is that of the null pointer. *)
Lemma variable_as_start : (run_script [] "functype void G(); G Start;").1 = Some (inr OutOfBounds).
Proof. vm_compute. reflexivity. Qed.

(** Any global variable can be set from the command line, [#option] or not. *)
Lemma any_global_is_an_option :
  script_result (run_script ["x=5"]%string "int x; void Start() { }") = (Some (inl 0), [], [(false, 5); (true, 1)]).
Proof. vm_compute. reflexivity. Qed.

(** A struct with a field of its own type is a cycle, and the pass over types does not end. *)
Lemma cycle_never_ends s a b na nb :
  nodes s !! a = Some na -> nodes s !! b = Some nb -> firstChild na = Some b -> firstChild nb = Some a -> a <> b ->
  forall f, (ASTSetTypes f a s).1 = Stop OutOfFuel /\ (ASTSetTypes f b s).1 = Stop OutOfFuel.
Proof.
  intros Ha Hb Ea Eb Hab f. induction f as [|f [IHa IHb]]; [done|].
  assert (Hg : forall p q n, nodes s !! p = Some n -> firstChild n = Some q -> q <> p ->
    (ASTSetTypes f q s).1 = Stop OutOfFuel -> (ASTSetTypes (S f) p s).1 = Stop OutOfFuel).
  { intros p q n Hn Eq Hne H. cbn [ASTSetTypes]. unfold bind at 1, first at 1, bind at 1, node_at at 1, bind at 1. cbn.
    rewrite Hn. cbn. rewrite Eq. unfold bind at 1, each_sibling, bind at 1. cbn -[ASTSetTypes].
    apply Nat.eqb_neq in Hne. rewrite Hne. unfold bind. cbn -[ASTSetTypes].
    destruct (ASTSetTypes f q s) as [[| |] s'] eqn:E; cbn in H; by simplify_eq. }
  split; [by eapply (Hg a b)|by eapply (Hg b a)].
Qed.

Definition list_store : ast := (run_script [] "struct S { S next; };").2.
Lemma recursive_struct_never_ends f : (ASTSetTypes f 11 list_store).1 = Stop OutOfFuel.
Proof.
  assert (H1 : exists n, nodes list_store !! 11%nat = Some n /\ firstChild n = Some 12%nat) by (eexists; split; vm_compute; reflexivity).
  assert (H2 : exists n, nodes list_store !! 12%nat = Some n /\ firstChild n = Some 11%nat) by (eexists; split; vm_compute; reflexivity).
  destruct H1 as (na & Ha & Ea), H2 as (nb & Hb & Eb). exact (proj1 (cycle_never_ends _ _ _ _ _ Ha Hb Ea Eb ltac:(lia) f)).
Qed.
